(* ===== verification/_CoqProject ===== *)
-Q . S2P
Prelude.v
Effects.v
Mtrand.v
Hash.v
Compressor.v
XorStore.v
MemHier.v
Coherence.v
CohLevel.v
ReplPolicies.v
CacheArrays.v
PrioQueue.v
Timing.v
Cache.v
FilterCache.v
BarrierIface.v
Barrier.v
InList.v
Scheduler.v
SchedInv.v
SchedProof.v
SchedOps.v
SchedSys.v
SchedRun.v
UMon.v
Doubles.v
PartMon.v
Lookahead.v
WayPart.v
EventQueue.v
Window.v
OooParts.v
OooCore.v
Cores.v
DdrTiming.v
DdrMem.v
DdrSafe.v
DdrInv.v
DdrSched.v
DdrRun.v
CoreRec.v
SimpleCores.v
OooRec.v
OooRecInv.v
Vantage.v
VantageInv.v
Prefetcher.v
PrefetchInv.v
Network.v
TimingCache.v
TimingAccess.v
DoubleRound.v
WeaveMem.v
IdealLRU.v
IdealPart.v
DetParams.v
DetAddr.v
DetChannel.v
DetRank.v
DetAccess.v
DetBus.v
DetRun.v
DetSched.v
DetCtrl.v
Crossing.v
CrossingInv.v
