(* ===== verification/Prelude.v ===== *)
(** * A verification development for a cache simulator

    The program under src/src is a simulator of multicore machines with an extended
    cache hierarchy.  It runs in phases: in the bound part of a phase the simulated
    threads run under a scheduler and a phase barrier and access a hierarchy of caches
    kept coherent by MESI controllers; in the weave part the events they recorded are
    replayed in the order of their cycles.  The cache arrays can store lines as the XOR
    of two similar ones, with a compressor that finds the pairs.

    The development follows the code function by function.  A method that can fail an
    [assert] or a [panic] returns a [res], or is a [prog] over the world it updates;
    machine integers are [Z] with the wrap-around written out ([u32], [u64]); pointers
    are numbers or keys of a map; tables indexed by a number are functions or lists.

    ** Files

    - Prelude: failures, integer widths, the lemmas and tactics all files share.
    - Effects: the state-and-failure monad [prog], its total-correctness judgement [wp]
      and the variant [wsafe] that lets the model run out of fuel.
    - Mtrand: mtrand.h, the Mersenne Twister; [Rand] is the interface of a source of
      random numbers that the barrier and the scheduler use.
    - Hash: bithacks.h and hash.cpp (H3 and the identity family).
    - Compressor, XorStore: compressor.cpp, compressor_xor.cpp and the pairing code of
      cache_arrays.cpp: width counts, line arithmetic, choice of a partner line, the
      compressed store and its release.
    - MemHier: memory_hierarchy.h and the simple memory of mem_ctrls.cpp.
    - Coherence, CohLevel: coherence_ctrls.h and .cpp: the bottom, top, terminal and
      non-terminal MESI controllers, then their theorems at one level against contracts
      for the parent and for the children.
    - ReplPolicies: repl_policies.h (LRU, tree LRU, NRU, LFU, random, profiler).
    - CacheArrays: cache_arrays.h and .cpp (set-associative array and zcache).
    - Cache: cache.cpp, [Cache::access] and the invalidation, over the arrays, the
      policies and the controllers above.
    - FilterCache: filter_cache.h, the per-core filter in front of the L1.
    - PrioQueue, Timing: prio_queue.h, timing_event.h and .cpp, event_recorder.h and
      contention_sim: the bucketed queue, the graph of timing events, the recorder, the
      simulation loop of one domain.
    - BarrierIface: what the phase barrier promises to the scheduler ([PhaseBarrier] and
      its laws).  Barrier: barrier.h, and the instance of that interface.
    - InList: intrusive_list.h, nodes with [next], [prev] and [owner] in a shared heap.
    - Scheduler: scheduler.h and .cpp, the definitions.  SchedInv: the invariant that
      relates threads, contexts and queues, and the primitive changes that keep it.
      SchedProof: the end of a phase, and the barrier's view of the running threads.
      SchedOps, SchedSys: each operation, the system of all of them and its properties.
      SchedRun: runs of a two-context machine with the barrier and the generator of this
      development in the place of the interfaces.
    - UMon: utility_monitor.h and .cpp, the sampled recency stacks.  Doubles: [double], as
      the Standard Library specifies binary64.  PartMon: partition_mapper.h and .cpp,
      partitioner.h and monitor.cpp: the mappers, the interface of a partition monitor
      ([PartitionMonitor] and its laws) and the monitor made of utility monitors.
    - Lookahead: lookahead.cpp, the allocation and the partitioner, over any monitor.
      WayPart: the way partitioning of part_repl_policies.h.  Vantage: its other policy;
      VantageInv: the invariant of that policy and its choice of a victim.
    - EventQueue: event_queue.h, the periodic events and those that adapt their period.
    - Window, OooParts: ooo_core.h, the instruction window with its two halves and its
      unbounded part; the branch predictor, the reorder buffer and the issue queue.
      OooCore: ooo_core.cpp, the simulation of basic blocks over the interface [CorePorts]
      of caches and recorder, with its laws [PortLaws].  Cores: the filter caches as an
      instance of that interface, and a run.
    - DdrTiming: ddr_mem.h and .cpp, the technologies, the two clocks, the address mapping
      and the activation windows.  DdrMem: the rest of the controller, as an operation on
      its state that also records the commands it sends.  DdrSafe: an abstract memory
      device, and that it accepts those commands.  DdrInv, DdrSched: the queues and the
      scheduling events.  DdrRun: the theorems about all reachable states, and runs.
    - CoreRec: core_recorder.h and .cpp, the chain of a core's events and its two clocks, and
      the system of a core and its recorder over bound and weave phases.  SimpleCores:
      NullCore, SimpleCore and TimingCore over the interface [L1Caches] and its laws.
      OooRec: ooo_core_recorder.h and .cpp, the links between the issues, dispatches and
      responses of an out-of-order core; OooRecInv: its invariant and its runs.
    - Prefetcher: prefetcher.h and .cpp, the table of pages, strides and prefetched lines;
      PrefetchInv: its invariant, and the access over any parent with a contract.
    - Network: network.h and .cpp, the file of delays and the queries.
    - TimingCache: timing_cache.h and .cpp, the port and the miss registers of the weave
      phase; TimingAccess: the access of the bound phase and the events it builds.
    - DoubleRound: the roundings of Doubles as rounding to the nearest, with their bounds.
      WeaveMem: the MD1 memory of mem_ctrls.cpp, weave_md1_mem.h and tick_event.h.
    - IdealLRU, IdealPart: ideal_arrays.h, the fully associative arrays, whole and with
      partitions.
    - Crossing: the crossings between domains of timing_event and contention_sim, as a
      recorder creates them; CrossingInv: what they leave of the chain of an access.
    - DetParams: detailed_mem_params.h and .cpp.  DetAddr, DetChannel: detailed_mem.h and
      .cpp, the address map, the ranks and channels.  DetRank: an abstract rank of devices,
      and that it accepts the commands; DetAccess, DetBus: an access as a whole, and the
      slots of the data bus; DetRun: the theorems about a channel, and runs.  DetSched: the
      queues of reads and writes.  DetCtrl: the controller with its two clocks.

    ** How the parts interact

    A core's access goes to its filter cache, on a miss to [Cache::access] of the L1, which
    asks the array for the line, its policy for a victim and its coherence controller for
    the permission; that controller calls the parent cache or the memory, and parents call
    back invalidations.  CohLevel proves one level against a contract for its neighbours
    and shows that a level satisfies the contract it assumes of its parent; Cache
    instantiates the levels with the concrete arrays and controllers.  The scheduler holds
    threads in intrusive lists (the sequences of Scheduler are what InList shows the lists
    compute), and calls the barrier under its lock; the barrier calls the scheduler back
    when it ends a phase, so [Scheduler.on_bar] runs the callback when the barrier's count
    of phases grows.
    A partitioned policy tells its monitor of each access; once in a while the event queue,
    ticked at the end of a phase, runs the partitioner, which reads the monitor's curves,
    gives the policy new sizes and resets the monitor.  Lookahead proves the allocation
    against the monitor's laws, which PartMon shows of the monitor of the source.
    The out-of-order core asks its filter caches for the cycle at which a load or store is
    satisfied; its theorems are against [PortLaws] (an answer is not earlier than the
    request, nor later than a bound), which Cores shows of the filter caches over any
    caches with [CacheTiming].  The DDR controller is called by the contention simulation
    in the order of cycles: [DdrMem.reachable] runs requests, refreshes and the events of
    the controller's own agenda in every order that allows.  The detailed memory is called
    by the events of its requests and, with a scheduler, once in a memory cycle; what it does
    to events is a list of calls that an abstract set of events accepts.  The ideal array is
    an instance of the interface of arrays that Cache uses, and the partitioned one runs
    under the sizes of the partitioner.

    ** What the theorems show

    - Coherence: a directory stays consistent, an access gets the permission it asked for,
      invalidations and evictions leave no stale or lost dirty copy and report a writeback
      exactly when there was one, and the race check turns every request overtaken by an
      invalidation into the right one.
    - Caches: an inserted line is found again and evicts only its victim, for both arrays;
      LRU, NRU and LFU choose what they mean to; hits cost the access latency; the filter
      answers only for lines the L1 still holds with the permission, as long as the lines of
      the process on the core are invalidated by that process.
    - Weave phase: the queue refines a bag ordered by cycle; the completion of an event
      releases exactly the children whose last parent it was; the crossings of an access
      leave no link between domains.
    - Barrier: counters, run list and cursor agree, a phase ends exactly when every thread
      had its turn, and after a bounded number of stops.
    - Scheduler, on any barrier with the promised behaviour: no operation within the limits
      below trips an assertion, threads, contexts and queues agree, no thread is lost, no context idles while a queued
      thread may use it, and some thread can always execute.
    - Partitioning: the curve of a utility monitor is what LRU caches of each size would miss;
      the allocation ends and is greedy; way partitioning counts lines right and evicts the
      line it means to.  Vantage counts the lines of its partitions right through demotions
      and promotions, and prefers unmanaged victims.  The curves as the partitioner reads them, and the sizes it
      computes, are wrong in ways that theorems state.
    - Out-of-order core: the window schedules first fit and never loses a port; uops follow
      their data flow and the order of stores; a block runs when its memory operations were
      recorded; the predictor stays in its tables and learns; uops retire in order.
    - DDR: the commands are accepted by the devices, no assertion fails, every request is
      answered once, and the controller left alone answers all of them; clocks and the
      address mapping round-trip; no window holds more than four activations.
    - Recorder: no assertion fails and no event starts too early, whatever contention adds;
      the clock is the one without contention plus the gap.  A timing core does to its
      recorder what the recorder's system allows; a block of a simple core passes finitely
      many barriers.
      The same holds of the recorder of the out-of-order core, whose events form a graph.
    - Stream prefetcher: the table never leaves its bounds, and only lines of the page of the
      stream are fetched.  Network: the answers to queries are those of the file.  Timing
      cache: no assertion of the weave phase fails, no more registers are taken than there
      are, and each event is queued once, held while all of them are in use, or finished.
    - Memories: the latency of the MD1 memory stays within its bounds whatever the load; in
      the detailed memory addresses and places determine each other, the devices accept the
      commands, bursts never meet on the data bus, the scheduler loses and repeats nothing,
      and every request ends once.
    - Ideal arrays: they are the reference LRU cache, and the partition sizes are exact.
    - Events: a tick runs the events of its phase; an adaptive one fires once, on time.
    - Storage: the line operations round-trip, the pairing picks what it says, and the
      places where it does not are stated as theorems too.

    ** Limits of the theorems

    Several theorems leave out inputs on which the code fails; each has a lemma or an example
    that shows the failure, and the doc comment of the theorem names both.
    - Scheduler ([SchedSys.enabled]): updates of a mask that let a waiting thread on a context
      nobody runs on ([updateMask_queued_asserts]), returns from a futex wake that the account
      of the wakes does not admit ([late_wait_asserts]), and the end of a thread marked for
      sleep ([finish_marked_asserts]).
    - Filter cache ([FilterCache.ops_ok]): an invalidation of a line of the process on the core
      by another process ([stale_hit]); line 0.
    - Detailed memory: fewer than four banks ([two_banks_overrun]), merged accesses
      ([continues_over_refresh]), statistics with power down ([standby_counted_twice]),
      requests that reach a channel out of order ([read_overtakes_write]), and the cycles at
      which hits in a queue are done ([hit_done_early]).
    - Vantage: shares above the targets of the moment ([smooth_sizes_fail]).  Timing cache: the
      cycles 0 and 1 ([cycle_zero_fails]).  Prefetcher: page 0 ([line_zero]) and fewer than
      16 entries.  Weave memory: a bound-phase latency above the unloaded one
      ([bound_above_unloaded]).  [Cache.hit_correct]: the cache named [l2-0], and event
      recorders.  LRU: histories on which a score passes 2^32 ([lru_score_truncated]).
    - Recorder of the out-of-order core: its issue events run; of the dispatch and response
      events the links and their delays are shown.

    ** Bounds and fuel

    [randInt] draws until a value is in range; the model allows a number of draws, and
    returns [NoFuel] past it: no number of draws is enough for every seed, so the barrier
    and the scheduler allow this outcome and no other failure.  For a power of two the first draw is taken.  The
    loops of the queue, the walk of the zcache and the visit of the event graph have fuel
    that their theorems show to be enough.  The scheduler's theorems are about the first
    2^64 - 1 phases and fewer than 2^32 cores; the barrier's about fewer than 2^32 - 1
    threads; the LRU theorem about histories in which the number of touches times the
    number of sharers stays below 2^32, past which the code misorders.
    Cycles of the cores and of the DDR controller are unbounded integers: the code's are
    64-bit counters.  The core's 32-bit differences of cycles are written out, and its
    theorems suppose that nothing it waits for is 2^30 cycles ahead of it.

    ** Not modelled

    Pin and the instrumentation, the decoder of instructions, configuration and statistics,
    the vendored allocator, tracing tools and the bindings of DRAMSim2 are input, output or
    glue.  Locks and futex waits are left out: an operation is a step, up to the point where
    its thread waits, and what it does when it runs again is another one.  Of the scheduler
    the polling in [waitUntilQueued], the watchdog's policy for stalled system calls and the
    cleanup of dead processes are left out, and so are the notifications of cores.  Of the
    random generator the floating-point accessors, and of hash.cpp the SHA-1 family, which
    calls code outside src.  Of the weave
    phase the loop of a thread with several domains and the creation of threads are left
    out; of the detailed memory the reports of
    power and bandwidth; the tracing cache is a cache that also writes a file. *)
From Stdlib Require Export Lia ZArith.
From stdpp Require Export functions gmap base tactics numbers option list.

Open Scope Z_scope.

(** * Failure

    The source reports a broken precondition in two ways: [assert] (and
    [assert_msg]) and [panic].  Both end the process.  A model operation that
    contains one of them returns a [res]. *)

Inductive failure :=
  | AssertFailed
  | Panicked
  | NoFuel (* of the model: a recursion went deeper than its fuel *).

Inductive res (A : Type) :=
  | Ok (a : A)
  | Fail (f : failure).
Arguments Ok {A} a.
Arguments Fail {A} f.

#[export] Instance failure_eq_dec : EqDecision failure.
Proof. solve_decision. Defined.
#[export] Instance res_eq_dec {A} `{EqDecision A} : EqDecision (res A).
Proof. solve_decision. Defined.

#[export] Instance res_ret : MRet res := fun A a => Ok a.
#[export] Instance res_bind : MBind res := fun A B f r =>
  match r with Ok a => f a | Fail e => Fail e end.
#[export] Instance res_fmap : FMap res := fun A B f r =>
  match r with Ok a => Ok (f a) | Fail e => Fail e end.

(** [assert(b)]. *)
Definition assert_that (b : bool) : res unit :=
  if b then Ok tt else Fail AssertFailed.
(** [panic(...)]. *)
Definition panic {A} : res A := Fail Panicked.

Definition is_ok {A} (r : res A) : Prop := exists a, r = Ok a.

Lemma bind_Ok {A B} (f : A -> res B) r b :
  r ≫= f = Ok b <-> exists a, r = Ok a /\ f a = Ok b.
Proof. destruct r; cbn; naive_solver. Qed.

Lemma assert_that_Ok b u : assert_that b = Ok u <-> b = true.
Proof. destruct b, u; cbn; naive_solver. Qed.

(** Folding a fallible step over a list, left to right: the shape of the
    source's [for] loops whose body can fail. *)
Fixpoint foldM {A S} (f : S -> A -> res S) (s : S) (l : list A) : res S :=
  match l with
  | [] => Ok s
  | a :: l => s' ← f s a; foldM f s' l
  end.

Lemma foldM_app {A S} (f : S -> A -> res S) s l1 l2 :
  foldM f s (l1 ++ l2) = s' ← foldM f s l1; foldM f s' l2.
Proof.
  revert s; induction l1 as [|a l1 IH]; intros s; cbn; [done|].
  destruct (f s a); cbn; auto.
Qed.

Lemma foldM_inv {A S} (P : S -> Prop) (f : S -> A -> res S) s l s' :
  (forall s a s', a ∈ l -> P s -> f s a = Ok s' -> P s') ->
  P s -> foldM f s l = Ok s' -> P s'.
Proof.
  revert s; induction l as [|a l IH]; intros s Hf Hs; cbn.
  - by intros [= <-].
  - rewrite bind_Ok; intros (s1 & H1 & H2).
    eapply IH; [|by eapply Hf; [left| |]|done].
    intros; eapply Hf; [by right| |]; done.
Qed.

(** * Machine integers *)

(** [uint8_t], [uint32_t] and [uint64_t] arithmetic wraps; [int] (the two's
    complement [int32_t]) is used by the source only in range or for counters. *)
Definition u8 (x : Z) : Z := x mod 2 ^ 8.
Definition u16 (x : Z) : Z := x mod 2 ^ 16.
Definition u32 (x : Z) : Z := x mod 2 ^ 32.
Definition u64 (x : Z) : Z := x mod 2 ^ 64.
Definition i32 (x : Z) : Z := (x + 2 ^ 31) mod 2 ^ 32 - 2 ^ 31.

Definition in_u8 (x : Z) : Prop := 0 <= x < 2 ^ 8.
Definition in_u32 (x : Z) : Prop := 0 <= x < 2 ^ 32.
Definition in_u64 (x : Z) : Prop := 0 <= x < 2 ^ 64.

Lemma u8_range x : in_u8 (u8 x).
Proof. apply Z.mod_pos_bound; lia. Qed.
Lemma u32_range x : in_u32 (u32 x).
Proof. apply Z.mod_pos_bound; lia. Qed.
Lemma u64_range x : in_u64 (u64 x).
Proof. apply Z.mod_pos_bound; lia. Qed.
Lemma u8_id x : in_u8 x -> u8 x = x.
Proof. apply Z.mod_small. Qed.
Lemma u32_id x : in_u32 x -> u32 x = x.
Proof. apply Z.mod_small. Qed.
Lemma u64_id x : in_u64 x -> u64 x = x.
Proof. apply Z.mod_small. Qed.

Create HintDb machine.
#[export] Hint Resolve u8_range u32_range u64_range : machine.
#[export] Hint Rewrite u8_id u32_id u64_id using (unfold in_u8, in_u32, in_u64 in *; lia) : machine.

(** ** Bit-level bounds

    A bitwise combination of [n]-bit values is an [n]-bit value.  [bits_bound]
    turns the numeric bound into "no bit set at or above [n]", where the
    lemmas of [Z.testbit] decide it. *)

Lemma bits_bound n x :
  0 <= n -> 0 <= x -> (x < 2 ^ n <-> forall i, n <= i -> Z.testbit x i = false).
Proof.
  intros Hn Hx; split.
  - intros Hlt i Hi. destruct (decide (x = 0)) as [->|]; [apply Z.testbit_0_l|].
    apply Z.bits_above_log2; [done|]. apply Z.log2_lt_pow2; [lia|].
    eapply Z.lt_le_trans; [done|]. apply Z.pow_le_mono_r; lia.
  - intros Hb. destruct (decide (x = 0)) as [->|]; [lia|].
    apply Z.log2_lt_pow2; [lia|]. apply Z.nle_gt; intros Hle.
    apply Hb in Hle. rewrite Z.bit_log2 in Hle by lia. done.
Qed.

Lemma testbit_high n x i : 0 <= x < 2 ^ n -> n <= i -> Z.testbit x i = false.
Proof.
  intros Hx Hi. destruct (decide (0 <= n)).
  - eapply (bits_bound n); try lia.
  - rewrite Z.pow_neg_r in Hx by lia. lia.
Qed.

Lemma testbit_mod_pow2 x n i :
  0 <= n -> Z.testbit (x mod 2 ^ n) i = bool_decide (i < n) && Z.testbit x i.
Proof.
  intros Hn. case_bool_decide.
  - destruct (decide (0 <= i)); [by rewrite Z.mod_pow2_bits_low by lia|].
    by rewrite !Z.testbit_neg_r by lia.
  - by rewrite Z.mod_pow2_bits_high by lia.
Qed.

Section bit_ranges.
Context (n : Z) (Hn : 0 <= n).
Implicit Types a b : Z.

Lemma land_range_r a b : 0 <= b < 2 ^ n -> 0 <= Z.land a b < 2 ^ n.
Proof using Hn.
  intros Hb. assert (0 <= Z.land a b) by (apply Z.land_nonneg; lia).
  split; [done|]. apply bits_bound; try done. intros i Hi.
  rewrite Z.land_spec, (testbit_high n b) by lia. by rewrite andb_false_r.
Qed.

Lemma land_range_l a b : 0 <= a < 2 ^ n -> 0 <= Z.land a b < 2 ^ n.
Proof using Hn. rewrite Z.land_comm. apply land_range_r. Qed.

Lemma lor_range a b :
  0 <= a < 2 ^ n -> 0 <= b < 2 ^ n -> 0 <= Z.lor a b < 2 ^ n.
Proof using Hn.
  intros Ha Hb. assert (0 <= Z.lor a b) by (apply Z.lor_nonneg; lia).
  split; [done|]. apply bits_bound; try done. intros i Hi.
  by rewrite Z.lor_spec, (testbit_high n a), (testbit_high n b) by lia.
Qed.

Lemma lxor_range a b :
  0 <= a < 2 ^ n -> 0 <= b < 2 ^ n -> 0 <= Z.lxor a b < 2 ^ n.
Proof using Hn.
  intros Ha Hb. assert (0 <= Z.lxor a b) by (apply Z.lxor_nonneg; lia).
  split; [done|]. apply bits_bound; try done. intros i Hi.
  by rewrite Z.lxor_spec, (testbit_high n a), (testbit_high n b) by lia.
Qed.

Lemma shiftr_range a k : 0 <= k -> 0 <= a < 2 ^ n -> 0 <= Z.shiftr a k < 2 ^ n.
Proof using Hn.
  intros Hk Ha. rewrite Z.shiftr_div_pow2 by done.
  assert (0 < 2 ^ k) by (apply Z.pow_pos_nonneg; lia).
  split; [apply Z.div_pos; lia|].
  apply Z.le_lt_trans with a; [|lia].
  apply Z.div_le_upper_bound; [done|]. nia.
Qed.

Lemma mod_range a : 0 <= a mod 2 ^ n < 2 ^ n.
Proof using Hn. apply Z.mod_pos_bound. apply Z.pow_pos_nonneg; lia. Qed.
End bit_ranges.

(** Closes a goal [0 <= e < 2 ^ n] for an expression of bitwise operations over
    operands whose bound is a hypothesis or a closed computation. *)
Ltac bit_range :=
  repeat first
    [ assumption
    | apply lxor_range; [lia | | ]
    | apply lor_range; [lia | | ]
    | apply shiftr_range; [lia | lia | ]
    | apply mod_range; lia
    | apply land_range_r; [lia | first [assumption | lia]]
    | apply land_range_l; [lia | first [assumption | lia | bit_range] ] ];
  try lia.
