(* ===== verification/Effects.v ===== *)
(** The effect of the simulator's methods: a method that updates shared objects
    and can hit an [assert] or a [panic] is a [prog W A], a state transformer over
    the world [W] it runs in.  [wp] is its weakest precondition for total
    correctness: [wp m w Q] says that [m] does not fail from [w] and that its
    result and final world satisfy [Q]. *)
From S2P Require Import Prelude.

Definition prog (W A : Type) : Type := W -> res (A * W).

#[export] Instance prog_ret {W} : MRet (prog W) := fun A a w => Ok (a, w).
#[export] Instance prog_bind {W} : MBind (prog W) := fun A B f m w =>
  match m w with Ok (a, w') => f a w' | Fail e => Fail e end.
#[export] Instance prog_fmap {W} : FMap (prog W) := fun A B f m w =>
  match m w with Ok (a, w') => Ok (f a, w') | Fail e => Fail e end.

Definition gets {W A} (f : W -> A) : prog W A := fun w => Ok (f w, w).
Definition modify {W} (f : W -> W) : prog W unit := fun w => Ok (tt, f w).
Definition require {W} (b : bool) : prog W unit :=
  fun w => if b then Ok (tt, w) else Fail AssertFailed.
Definition stop {W A} : prog W A := fun _ => Fail Panicked.
(** A call of a function that can fail but touches no state. *)
Definition lift {W A} (r : res A) : prog W A :=
  fun w => match r with Ok a => Ok (a, w) | Fail e => Fail e end.

(** A [for] loop that threads an accumulator through a list of indices. *)
Fixpoint loop {W A S} (f : S -> A -> prog W S) (s : S) (l : list A) : prog W S :=
  match l with
  | [] => mret s
  | a :: l => s' ← f s a; loop f s' l
  end.

Lemma prog_bind_Ok {W A B} (m : prog W A) (f : A -> prog W B) w b w' :
  (m ≫= f) w = Ok (b, w') <-> exists a w1, m w = Ok (a, w1) /\ f a w1 = Ok (b, w').
Proof. unfold mbind, prog_bind. destruct (m w) as [[a w1]|]; naive_solver. Qed.

Definition wp {W A} (m : prog W A) (w : W) (Q : A -> W -> Prop) : Prop :=
  match m w with Ok (a, w') => Q a w' | Fail _ => False end.

Section wp.
Context {W : Type}.
Implicit Types w : W.

Lemma wp_Ok {A} (m : prog W A) w Q :
  wp m w Q <-> exists a w', m w = Ok (a, w') /\ Q a w'.
Proof. unfold wp. destruct (m w) as [[a w']|]; naive_solver. Qed.

Lemma wp_ret {A} (a : A) w (Q : A -> W -> Prop) : Q a w -> wp (mret a) w Q.
Proof. done. Qed.

Lemma wp_bind {A B} (f : A -> prog W B) m w Q :
  wp m w (fun a w' => wp (f a) w' Q) -> wp (m ≫= f) w Q.
Proof. unfold wp, mbind, prog_bind. by destruct (m w) as [[a w']|]. Qed.

Lemma wp_mono {A} (m : prog W A) w (P Q : A -> W -> Prop) :
  wp m w P -> (forall a w', P a w' -> Q a w') -> wp m w Q.
Proof. unfold wp. destruct (m w) as [[a w']|]; auto. Qed.

Lemma wp_gets {A} (f : W -> A) w (Q : A -> W -> Prop) : Q (f w) w -> wp (gets f) w Q.
Proof. done. Qed.

Lemma wp_modify (f : W -> W) w (Q : unit -> W -> Prop) : Q tt (f w) -> wp (modify f) w Q.
Proof. done. Qed.

Lemma wp_require b w (Q : unit -> W -> Prop) : b = true -> Q tt w -> wp (require b) w Q.
Proof. intros -> H. done. Qed.

Lemma wp_lift {A} (r : res A) w (Q : A -> W -> Prop) a : r = Ok a -> Q a w -> wp (lift r) w Q.
Proof. intros -> H. done. Qed.

Lemma wp_loop {A S} (I : list A -> list A -> S -> W -> Prop) (f : S -> A -> prog W S) s l w :
  I [] l s w ->
  (forall done a todo s w, l = done ++ a :: todo -> I done (a :: todo) s w ->
     wp (f s a) w (fun s' w' => I (done ++ [a]) todo s' w')) ->
  wp (loop f s l) w (fun s' w' => I l [] s' w').
Proof.
  intros H0 Hf.
  cut (forall d t s w, l = d ++ t -> I d t s w ->
    wp (loop f s t) w (fun s' w' => I l [] s' w')).
  { intros H. by apply (H [] l). }
  intros d t. revert d. induction t as [|a t IH]; intros d s1 w1 Hl HI.
  { rewrite app_nil_r in Hl. subst d. by apply wp_ret. }
  apply wp_bind. eapply wp_mono; [by apply Hf|]. cbn. intros s2 w2 H2.
  apply (IH (d ++ [a])); [by rewrite <- app_assoc|done].
Qed.

End wp.

(** [wlp m w Q]: if [m] returns from [w], its result and final world satisfy [Q]; it completes
    a [wp] by facts that need no care for failures. *)
Definition wlp {W A} (m : prog W A) (w : W) (Q : A -> W -> Prop) : Prop :=
  forall a w', m w = Ok (a, w') -> Q a w'.

Section wlp.
Context {W : Type}.
Implicit Types w : W.

Lemma wp_wlp {A} (m : prog W A) w (P Q : A -> W -> Prop) : wp m w P -> wlp m w Q -> wp m w (fun a w' => P a w' /\ Q a w').
Proof. unfold wp, wlp. destruct (m w) as [[a w']|]; auto. Qed.

Lemma wlp_wp {A} (m : prog W A) w (Q : A -> W -> Prop) : wp m w Q -> wlp m w Q.
Proof. unfold wp. intros H a w' E. by rewrite E in H. Qed.

Lemma wlp_self {A} (m : prog W A) w : wlp m w (fun a w' => m w = Ok (a, w')).
Proof. by intros a w' E. Qed.

Lemma wlp_ret {A} (a : A) w (Q : A -> W -> Prop) : Q a w -> wlp (mret a) w Q.
Proof. by intros H ? ? [= <- <-]. Qed.

Lemma wlp_bind {A B} (f : A -> prog W B) m w Q : wlp m w (fun a w' => wlp (f a) w' Q) -> wlp (m ≫= f) w Q.
Proof. intros H b w' (a & w1 & E & E')%prog_bind_Ok. by eapply H. Qed.

Lemma wlp_mono {A} (m : prog W A) w (P Q : A -> W -> Prop) : wlp m w P -> (forall a w', P a w' -> Q a w') -> wlp m w Q.
Proof. intros H HPQ a w' E. by apply HPQ, H. Qed.

Lemma wlp_gets {A} (f : W -> A) w (Q : A -> W -> Prop) : Q (f w) w -> wlp (gets f) w Q.
Proof. by intros H ? ? [= <- <-]. Qed.

Lemma wlp_modify (f : W -> W) w (Q : unit -> W -> Prop) : Q tt (f w) -> wlp (modify f) w Q.
Proof. by intros H ? ? [= <- <-]. Qed.

Lemma wlp_require b w (Q : unit -> W -> Prop) : (b = true -> Q tt w) -> wlp (require b) w Q.
Proof. intros H a w' E. destruct b; [|done]. injection E as <- <-. by apply H. Qed.
End wlp.

(** [wsafe m w Q]: [m] fails from [w] at most by running out of the model's fuel, and
    if it returns, its result and final world satisfy [Q]. *)
Definition wsafe {W A} (m : prog W A) (w : W) (Q : A -> W -> Prop) : Prop :=
  match m w with Ok (a, w') => Q a w' | Fail e => e = NoFuel end.

Section wsafe.
Context {W : Type}.
Implicit Types w : W.

Lemma ws_wp {A} (m : prog W A) w Q : wp m w Q -> wsafe m w Q.
Proof. unfold wp, wsafe. by destruct (m w) as [[a w']|]. Qed.

Lemma ws_ret {A} (a : A) w (Q : A -> W -> Prop) : Q a w -> wsafe (mret a) w Q.
Proof. done. Qed.

Lemma ws_bind {A B} (f : A -> prog W B) m w Q :
  wsafe m w (fun a w' => wsafe (f a) w' Q) -> wsafe (m ≫= f) w Q.
Proof. unfold wsafe, mbind, prog_bind. by destruct (m w) as [[a w']|]. Qed.

Lemma ws_mono {A} (m : prog W A) w (P Q : A -> W -> Prop) :
  wsafe m w P -> (forall a w', P a w' -> Q a w') -> wsafe m w Q.
Proof. unfold wsafe. destruct (m w) as [[a w']|]; auto. Qed.

Lemma ws_gets {A} (f : W -> A) w (Q : A -> W -> Prop) : Q (f w) w -> wsafe (gets f) w Q.
Proof. done. Qed.

Lemma ws_modify (f : W -> W) w (Q : unit -> W -> Prop) : Q tt (f w) -> wsafe (modify f) w Q.
Proof. done. Qed.

Lemma ws_require b w (Q : unit -> W -> Prop) : b = true -> Q tt w -> wsafe (require b) w Q.
Proof. intros -> H. done. Qed.

Lemma ws_lift {A} (r : res A) w (Q : A -> W -> Prop) a : r = Ok a -> Q a w -> wsafe (lift r) w Q.
Proof. intros -> H. done. Qed.

Lemma ws_lift_safe {A B} (r : res A) w (k : A -> prog W B) (Q : B -> W -> Prop) :
  match r with Ok a => wsafe (k a) w Q | Fail e => e = NoFuel end ->
  wsafe (lift r) w (fun a w => wsafe (k a) w Q).
Proof. by destruct r. Qed.
End wsafe.

#[global] Arguments wp : simpl never.
#[global] Arguments wsafe : simpl never.
#[global] Arguments wlp : simpl never.

Ltac ws_step :=
  match goal with
  | |- wsafe (_ ≫= _) _ _ => apply ws_bind
  | |- wsafe (mret _) _ _ => apply ws_ret
  | |- wsafe (gets _) _ _ => apply ws_gets
  | |- wsafe (modify _) _ _ => apply ws_modify
  | |- wsafe (require _) _ _ => apply ws_require
  end.
Ltac ws_steps := repeat (ws_step; cbn beta).

Ltac wlp_step :=
  match goal with
  | |- wlp (_ ≫= _) _ _ => apply wlp_bind
  | |- wlp (mret _) _ _ => apply wlp_ret
  | |- wlp (gets _) _ _ => apply wlp_gets
  | |- wlp (modify _) _ _ => apply wlp_modify
  | |- wlp (require _) _ _ => apply wlp_require; intros _
  end.

(** One step of symbolic execution. *)
Ltac wp_step :=
  match goal with
  | |- wp (_ ≫= _) _ _ => apply wp_bind
  | |- wp (mret _) _ _ => apply wp_ret
  | |- wp (gets _) _ _ => apply wp_gets
  | |- wp (modify _) _ _ => apply wp_modify
  | |- wp (require _) _ _ => apply wp_require
  end.
Ltac wp_steps := repeat (wp_step; cbn beta).
