(* ===== verification/Mtrand.v ===== *)
(** Mersenne Twister (src/src/mtrand.h).

    [MTRand] holds the state vector, the position of the next value ([pNext],
    kept as an index into [state]) and [left], as the class does.  Modelled:
    the seeding from one integer and from an array, [reload], both [randInt]s,
    [save] and [load].  The floating-point wrappers ([rand], [randExc],
    [rand53], [randNorm]) and the seeding from /dev/urandom are not. *)
From S2P Require Import Prelude.

Module Rand.

(** A source of random integers: the generator [rnd].  [None] is a draw that the
    fuel of the model does not let finish. *)
Class RandSource (G : Type) := randInt : G -> Z -> option (Z * G).
Class RandLaws (G : Type) `{RandSource G} := {
  rand_ok : G -> Prop;
  randInt_range g n j g' : rand_ok g -> 0 <= n < 2 ^ 32 -> randInt g n = Some (j, g') ->
    0 <= j <= n /\ rand_ok g'
}.

End Rand.

Module MTRand.

Definition N : nat := 624.
Definition M : nat := 397.
#[global] Arguments N : simpl never.
#[global] Arguments M : simpl never.

Record MTRand := mkMTRand {
  state : list Z;
  pNext : nat;
  left : nat
}.

Definition hiBit (u : Z) : Z := Z.land u 0x80000000.
Definition loBit (u : Z) : Z := Z.land u 0x00000001.
Definition loBits (u : Z) : Z := Z.land u 0x7fffffff.
Definition mixBits (u v : Z) : Z := Z.lor (hiBit u) (loBits v).
Definition magic (u : Z) : Z := if loBit u =? 0 then 0 else 0x9908b0df.
Definition twist (m s0 s1 : Z) : Z :=
  Z.lxor (Z.lxor m (Z.shiftr (mixBits s0 s1) 1)) (magic s1).

(** One iteration of the loop of [initialize]: [r] is the last value written,
    the result the one written at index [i]. *)
Definition init_next (r : Z) (i : nat) : Z :=
  Z.land (u64 (u64 (1812433253 * Z.lxor r (Z.shiftr r 30)) + Z.of_nat i)) 0xffffffff.

Fixpoint init_from (r : Z) (i n : nat) : list Z :=
  match n with
  | O => []
  | S n => let v := init_next r i in v :: init_from v (S i) n
  end.

Definition initialize (seed : Z) : list Z :=
  let s0 := Z.land seed 0xffffffff in s0 :: init_from s0 1 (N - 1).

(** The three parts of [reload]: in each the twist reads the current, partly
    regenerated, state vector. *)
Definition reload_at (src : nat) (next : nat) (s : list Z) (p : nat) : list Z :=
  <[p := twist (s !!! src) (s !!! p) (s !!! next)]> s.

Definition reload_state (s : list Z) : list Z :=
  let s := fold_left (fun s p => reload_at (p + M) (p + 1) s p) (seq 0 (N - M)) s in
  let s := fold_left (fun s p => reload_at (p + M - N) (p + 1) s p)
                     (seq (N - M) (M - 1)) s in
  reload_at (M - 1) 0 s (N - 1).

Definition reload (r : MTRand) : MTRand :=
  mkMTRand (reload_state (state r)) 0 N.

Definition seed (oneSeed : Z) : MTRand :=
  reload (mkMTRand (initialize oneSeed) 0 0).

(** Loop state of the array seeding: the vector and the indices [i], [j]. *)
Definition seed_step1 (bigSeed : list Z) (st : list Z * nat * nat) : list Z * nat * nat :=
  let '(s, i, j) := st in
  let p := s !!! (i - 1)%nat in
  let v := Z.lxor (s !!! i) (u64 (Z.lxor p (Z.shiftr p 30) * 1664525)) in
  let v := u64 (v + u64 (Z.land (bigSeed !!! j) 0xffffffff + Z.of_nat j)) in
  let v := Z.land v 0xffffffff in
  let s := <[i := v]> s in
  let i := S i in
  let j := S j in
  let '(s, i) := if (N <=? i)%nat then (<[0%nat := s !!! (N - 1)%nat]> s, 1%nat) else (s, i) in
  let j := if (length bigSeed <=? j)%nat then 0%nat else j in
  (s, i, j).

Definition seed_step2 (st : list Z * nat) : list Z * nat :=
  let '(s, i) := st in
  let p := s !!! (i - 1)%nat in
  let v := Z.lxor (s !!! i) (u64 (Z.lxor p (Z.shiftr p 30) * 1566083941)) in
  let v := u64 (v - Z.of_nat i) in
  let v := Z.land v 0xffffffff in
  let s := <[i := v]> s in
  let i := S i in
  if (N <=? i)%nat then (<[0%nat := s !!! (N - 1)%nat]> s, 1%nat) else (s, i).

Definition seed_array (bigSeed : list Z) : MTRand :=
  let s := initialize 19650218 in
  let k := if (length bigSeed <? N)%nat then N else length bigSeed in
  let '(s, i, _) := Nat.iter k (seed_step1 bigSeed) (s, 1%nat, 0%nat) in
  let '(s, _) := Nat.iter (N - 1) seed_step2 (s, i) in
  reload (mkMTRand (<[0%nat := 0x80000000]> s) 0 0).

(** The tempering of one state word. *)
Definition temper (s1 : Z) : Z :=
  let s1 := Z.lxor s1 (Z.shiftr s1 11) in
  let s1 := Z.lxor s1 (Z.land (u64 (Z.shiftl s1 7)) 0x9d2c5680) in
  let s1 := Z.lxor s1 (Z.land (u64 (Z.shiftl s1 15)) 0xefc60000) in
  Z.lxor s1 (Z.shiftr s1 18).

Definition randInt (r : MTRand) : Z * MTRand :=
  let r := if (left r =? 0)%nat then reload r else r in
  (temper (state r !!! pNext r),
   mkMTRand (state r) (S (pNext r)) (left r - 1)).

Definition used_bits (n : Z) : Z :=
  let used := n in
  let used := Z.lor used (Z.shiftr used 1) in
  let used := Z.lor used (Z.shiftr used 2) in
  let used := Z.lor used (Z.shiftr used 4) in
  let used := Z.lor used (Z.shiftr used 8) in
  Z.lor used (Z.shiftr used 16).

(** [randInt(n)] draws until a masked value is at most [n].  [fuel] bounds the
    number of draws; [None] is "still drawing". *)
Fixpoint randInt_upto (fuel : nat) (n : Z) (r : MTRand) : option (Z * MTRand) :=
  match fuel with
  | O => None
  | S fuel =>
      let '(v, r) := randInt r in
      let i := Z.land v (used_bits n) in
      if n <? i then randInt_upto fuel n r else Some (i, r)
  end.

Definition save (r : MTRand) : list Z := state r ++ [Z.of_nat (left r)].

Definition load (saved : list Z) : MTRand :=
  let left := Z.to_nat (saved !!! N) in
  mkMTRand (take N saved) (N - left) left.

(** ** Well-formedness *)

Definition words32 (s : list Z) : Prop := Forall in_u32 s.

Record wf (r : MTRand) : Prop := {
  wf_length : length (state r) = N;
  wf_words : words32 (state r);
  wf_left : (left r <= N)%nat;
  wf_pNext : pNext r = (N - left r)%nat
}.

Lemma lookup_words32 s i : words32 s -> in_u32 (s !!! i).
Proof.
  intros Hs. destruct (s !! i) eqn:E.
  - erewrite list_lookup_total_correct by done. by eapply Forall_lookup_1 in Hs.
  - rewrite list_lookup_total_alt, E. cbn. unfold in_u32; lia.
Qed.

Lemma magic_range u : in_u32 (magic u).
Proof. unfold magic, in_u32; case_match; lia. Qed.

Lemma twist_range m s0 s1 : in_u32 m -> in_u32 s0 -> in_u32 s1 -> in_u32 (twist m s0 s1).
Proof.
  intros Hm H0 H1. pose proof (magic_range s1) as Hg. unfold in_u32 in *.
  unfold twist, mixBits, hiBit, loBits. bit_range.
Qed.

Lemma reload_at_wf src next s p :
  words32 s -> words32 (reload_at src next s p).
Proof.
  intros Hs. apply Forall_insert; [done|].
  apply twist_range; by apply lookup_words32.
Qed.

Lemma reload_state_wf s :
  words32 s -> words32 (reload_state s) /\ length (reload_state s) = length s.
Proof.
  assert (Hf : forall (g : nat -> nat * nat) l s0,
    words32 s0 ->
    let r := fold_left (fun s p => reload_at (g p).1 (g p).2 s p) l s0 in
    words32 r /\ length r = length s0).
  { intros g l. induction l as [|p l IH]; intros s0 H0; cbn; [done|].
    destruct (IH (reload_at (g p).1 (g p).2 s0 p)) as [H1 H2];
      [by apply reload_at_wf|].
    split; [done|]. rewrite H2. apply length_insert. }
  intros Hs. unfold reload_state.
  destruct (Hf (fun p => (p + M, p + 1)%nat) (seq 0 (N - M)) s Hs) as [H1 L1].
  destruct (Hf (fun p => (p + M - N, p + 1)%nat) (seq (N - M) (M - 1)) _ H1) as [H2 L2].
  cbn [fst snd] in *. split; [by apply reload_at_wf|].
  unfold reload_at at 1. rewrite length_insert, L2, L1. done.
Qed.

Lemma reload_wf r : length (state r) = N -> words32 (state r) -> wf (reload r).
Proof.
  intros HL Hw. destruct (reload_state_wf _ Hw) as [H1 H2].
  split; cbn [reload state left pNext]; [congruence|done|lia|lia].
Qed.

Lemma ones32 x : in_u32 (Z.land x 0xffffffff).
Proof. unfold in_u32. apply land_range_r; lia. Qed.

Lemma init_from_wf n r i : words32 (init_from r i n) /\ length (init_from r i n) = n.
Proof.
  revert r i; induction n as [|n IH]; intros r i; cbn [init_from].
  - split; [constructor|done].
  - destruct (IH (init_next r i) (S i)) as [H1 H2].
    split; [constructor; [apply ones32|done]|cbn; lia].
Qed.

Lemma initialize_wf x : words32 (initialize x) /\ length (initialize x) = N.
Proof.
  unfold initialize. destruct (init_from_wf (N - 1) (Z.land x 0xffffffff) 1) as [H1 H2].
  split; [constructor; [apply ones32|done]|]. cbn [length]. rewrite H2. unfold N; lia.
Qed.

Lemma seed_wf oneSeed : wf (seed oneSeed).
Proof. destruct (initialize_wf oneSeed). by apply reload_wf. Qed.

Lemma seed_step1_wf big s i j s' i' j' :
  words32 s -> length s = N -> seed_step1 big (s, i, j) = (s', i', j') ->
  words32 s' /\ length s' = N.
Proof.
  unfold seed_step1. intros Hs HL Heq.
  assert (Hins : forall k v, words32 (<[k := Z.land v 0xffffffff]> s)).
  { intros. apply Forall_insert; [done|apply ones32]. }
  destruct (N <=? S i)%nat; simplify_eq; rewrite ?length_insert; split; try done;
    try apply Hins.
  apply Forall_insert; [apply Hins|]. apply lookup_words32, Hins.
Qed.

Lemma seed_step2_wf s i s' i' :
  words32 s -> length s = N -> seed_step2 (s, i) = (s', i') ->
  words32 s' /\ length s' = N.
Proof.
  unfold seed_step2. intros Hs HL Heq.
  assert (Hins : forall k v, words32 (<[k := Z.land v 0xffffffff]> s)).
  { intros. apply Forall_insert; [done|apply ones32]. }
  destruct (N <=? S i)%nat; simplify_eq; rewrite ?length_insert; split; try done;
    try apply Hins.
  apply Forall_insert; [apply Hins|]. apply lookup_words32, Hins.
Qed.

Lemma seed_array_wf big : wf (seed_array big).
Proof.
  unfold seed_array. set (k := if (length big <? N)%nat then N else length big).
  assert (H1 : forall k, let '(s, _, _) := Nat.iter k (seed_step1 big) (initialize 19650218, 1%nat, 0%nat) in
    words32 s /\ length s = N).
  { clear k; intros k; induction k as [|k IH]; [apply initialize_wf|].
    cbn [Nat.iter nat_rect]. unfold Nat.iter in *.
    destruct (nat_rect _ _ _ k) as [[s i] j]. destruct IH as [Hs HL].
    destruct (seed_step1 big (s, i, j)) as [[s' i'] j'] eqn:E.
    by eapply seed_step1_wf. }
  specialize (H1 k). destruct (Nat.iter k _ _) as [[s i] j]. destruct H1 as [Hs HL].
  assert (H2 : forall k, let '(s, _) := Nat.iter k seed_step2 (s, i) in
    words32 s /\ length s = N).
  { intros k'; induction k' as [|k' IH]; [done|].
    cbn [Nat.iter nat_rect]. unfold Nat.iter in *.
    destruct (nat_rect _ _ _ k') as [s1 i1]. destruct IH as [Hs1 HL1].
    destruct (seed_step2 (s1, i1)) as [s2 i2] eqn:E.
    by eapply seed_step2_wf. }
  specialize (H2 (N - 1)%nat). destruct (Nat.iter (N - 1) _ _) as [s2 i2].
  destruct H2 as [Hs2 HL2]. apply reload_wf; cbn [state].
  - by rewrite length_insert.
  - apply Forall_insert; [done|]. unfold in_u32; lia.
Qed.

Lemma temper_range x : in_u32 x -> in_u32 (temper x).
Proof. unfold temper, in_u32. intros Hx. bit_range. Qed.

Lemma randInt_wf r v r' :
  wf r -> randInt r = (v, r') -> in_u32 v /\ wf r'.
Proof.
  intros Hr. unfold randInt. remember (if (left r =? 0)%nat then reload r else r) as r1.
  assert (H1 : wf r1 /\ (0 < left r1)%nat).
  { subst r1. destruct (Nat.eqb_spec (left r) 0).
    - split; [apply reload_wf; apply Hr|cbn; unfold N; lia].
    - split; [done|lia]. }
  destruct H1 as [[HL Hw Hl Hp] Hpos]. intros [= <- <-]. split.
  - apply temper_range. by apply lookup_words32.
  - split; cbn [state left pNext]; try done; lia.
Qed.

(** ** The mask of [randInt(n)] *)

Lemma testbit_used n i :
  in_u32 n -> 0 <= i ->
  Z.testbit (used_bits n) i = true <-> exists j, i <= j /\ Z.testbit n j = true.
Proof.
  intros Hn Hi. unfold used_bits.
  repeat rewrite ?Z.lor_spec, ?Z.shiftr_spec by lia.
  rewrite !orb_true_iff. split.
  - intros H. destruct_or! H; eexists; (split; [|exact H]); lia.
  - intros (j & Hj & Hb). destruct (decide (j < 32)) as [Hlt|].
    2:{ rewrite (testbit_high 32 n j) in Hb by (unfold in_u32 in *; lia). done. }
    assert (Hd : exists k, (j = i + k /\ 0 <= k < 32)) by (exists (j - i); lia).
    destruct Hd as (k & -> & Hk).
    assert (k = 0 \/ k = 1 \/ k = 2 \/ k = 3 \/ k = 4 \/ k = 5 \/ k = 6 \/ k = 7 \/
            k = 8 \/ k = 9 \/ k = 10 \/ k = 11 \/ k = 12 \/ k = 13 \/ k = 14 \/ k = 15 \/
            k = 16 \/ k = 17 \/ k = 18 \/ k = 19 \/ k = 20 \/ k = 21 \/ k = 22 \/ k = 23 \/
            k = 24 \/ k = 25 \/ k = 26 \/ k = 27 \/ k = 28 \/ k = 29 \/ k = 30 \/ k = 31) as Hc by lia.
    revert Hb. rewrite <- !Z.add_assoc.
    destruct_or!; subst k; cbn [Z.add Pos.add Pos.succ Pos.add_carry];
      rewrite ?Z.add_0_r; tauto.
Qed.

Lemma used_bits_covers n i : in_u32 n -> 0 <= i <= n -> Z.land i (used_bits n) = i.
Proof.
  intros Hn Hi. apply Z.bits_inj'; intros b Hb. rewrite Z.land_spec.
  destruct (Z.testbit i b) eqn:E; [|done]. cbn.
  apply testbit_used; [done|done|].
  assert (0 < i) by (destruct (decide (i = 0)) as [->|]; [by rewrite Z.testbit_0_l in E|lia]).
  exists (Z.log2 n). split.
  - destruct (decide (b <= Z.log2 n)); [done|].
    pose proof (Z.log2_le_mono i n ltac:(lia)).
    rewrite (Z.bits_above_log2 i b) in E by lia. done.
  - apply Z.bit_log2. lia.
Qed.

Lemma randInt_upto_bound fuel n r i r' :
  0 <= n -> wf r -> randInt_upto fuel n r = Some (i, r') -> 0 <= i <= n /\ wf r'.
Proof.
  intros Hn. revert r; induction fuel as [|fuel IH]; intros r Hr; cbn [randInt_upto]; [done|].
  destruct (randInt r) as [v r1] eqn:E. destruct (randInt_wf _ _ _ Hr E) as [Hv Hr1].
  destruct (n <? Z.land v (used_bits n)) eqn:Hlt; [by apply IH|]. intros [= <- <-].
  apply Z.ltb_ge in Hlt. unfold in_u32 in Hv.
  split; [|done]. split; [apply Z.land_nonneg; lia|done].
Qed.

(** ** Properties *)

(** Every generator built from a seed is well formed: 624 words of 32 bits
    (although the class stores them in [uint64_t]), with [pNext] at position
    [N - left]; each draw returns a 32-bit value and keeps that invariant,
    across reloads. *)
Theorem generator_invariant :
  (forall x, wf (seed x)) /\ (forall big, wf (seed_array big)) /\
  (forall r v r', wf r -> randInt r = (v, r') -> in_u32 v /\ wf r').
Proof. split_and!; [apply seed_wf|apply seed_array_wf|apply randInt_wf]. Qed.

(** [randInt(n)] returns a value of [0, n] whenever it returns, and its bit
    mask loses none of them: every value of [0, n] survives the masking of a
    draw, so the rejection loop is not biased against any of them. *)
Theorem randInt_upto_correct n :
  in_u32 n ->
  (forall fuel r i r', wf r -> randInt_upto fuel n r = Some (i, r') ->
     0 <= i <= n /\ wf r') /\
  (forall i, 0 <= i <= n -> Z.land i (used_bits n) = i).
Proof.
  intros Hn. split.
  - intros fuel r i r'. apply randInt_upto_bound. apply Hn.
  - intros i. by apply used_bits_covers.
Qed.

Lemma randInt_upto_correct_witness :
  exists i r', randInt_upto 4 9 (seed 5489) = Some (i, r') /\ 0 <= i <= 9 /\
  Z.land 9 (used_bits 9) = 9.
Proof.
  destruct (randInt_upto 4 9 (seed 5489)) as [[i r']|] eqn:E;
    [|vm_compute in E; discriminate].
  assert (H9 : in_u32 9) by (unfold in_u32; lia).
  exists i, r'. split; [reflexivity|].
  split; [apply (proj1 (randInt_upto_correct 9 H9) 4%nat (seed 5489) i r'); [apply seed_wf|exact E]|].
  apply (proj2 (randInt_upto_correct 9 H9)); lia.
Defined.

(** [load] is the inverse of [save]: a well-formed generator restored from
    its saved array is the same generator, so it continues the same stream. *)
Theorem load_save r : wf r -> load (save r) = r.
Proof.
  intros [HL _ Hl Hp]. unfold load, save.
  rewrite lookup_total_app_r, HL, Nat.sub_diag by lia. cbn [lookup_total list_lookup_total].
  rewrite take_app_length' by done. rewrite Nat2Z.id.
  destruct r as [s p l]; cbn in *. by subst.
Qed.

Lemma load_save_witness : load (save (seed 42)) = seed 42.
Proof. apply (load_save (seed 42)). apply seed_wf. Defined.

End MTRand.
