(* ===== verification/Hash.v ===== *)
(** Bit tricks and hash families (src/src/bithacks.h, hash.h, hash.cpp).

    [isPow2] and [ilog2] are the helpers of bithacks.h on 32- and 64-bit
    unsigned values.  [H3HashFamily] is the hash used by every set-associative
    and z-cache array; the identity family is [id_hash].  The SHA1 family needs
    PolarSSL, which is not part of the repository, and is left out. *)
From Stdlib Require Import Btauto.
From S2P Require Import Prelude Mtrand.

Module Bits.

(** [isPow2]: [val && !(val & (val - 1))], the subtraction at width [w]. *)
Definition isPow2 (w val : Z) : bool :=
  negb (val =? 0) && (Z.land val ((val - 1) mod 2 ^ w) =? 0).

(** [ilog2]: [31 - clz(val)] (resp. [63 - clzl(val)]) is the index of the
    highest set bit. *)
Definition clz (w val : Z) : Z := w - 1 - Z.log2 val.
Definition ilog2 (w val : Z) : Z := if val =? 0 then 0 else w - 1 - clz w val.

(** [maxN]/[minN]: the variadic maximum and minimum. *)
Fixpoint maxN (a : Z) (l : list Z) : Z :=
  match l with [] => a | b :: l => maxN (if a >? b then a else b) l end.
Fixpoint minN (a : Z) (l : list Z) : Z :=
  match l with [] => a | b :: l => minN (if a <? b then a else b) l end.

Lemma land_pred_pow2 k : 0 <= k -> Z.land (2 ^ k) (2 ^ k - 1) = 0.
Proof.
  intros Hk. rewrite Z.sub_1_r, <- Z.ones_equiv.
  rewrite Z.land_ones by lia. apply Z.mod_same. apply Z.pow_nonzero; lia.
Qed.

(** Clearing the lowest set bit leaves the highest one when there are two. *)
Lemma land_pred_not_pow2 v :
  0 < v -> v <> 2 ^ Z.log2 v -> Z.land v (v - 1) <> 0.
Proof.
  intros Hv Hne Hz.
  destruct (Z.log2_spec v Hv) as [Hlo Hhi].
  assert (Hpos : 0 < 2 ^ Z.log2 v) by (apply Z.pow_pos_nonneg; [lia|apply Z.log2_nonneg]).
  assert (Hb : Z.testbit (Z.land v (v - 1)) (Z.log2 v) = true).
  { rewrite Z.land_spec, Z.bit_log2 by lia. cbn.
    replace (Z.log2 v) with (Z.log2 (v - 1)); [apply Z.bit_log2; lia|].
    apply Z.log2_unique; [apply Z.log2_nonneg|]. lia. }
  rewrite Hz, Z.testbit_0_l in Hb. done.
Qed.

Lemma isPow2_spec w v :
  0 <= v < 2 ^ w -> isPow2 w v = true <-> exists k, 0 <= k /\ v = 2 ^ k.
Proof.
  intros Hv. unfold isPow2. rewrite andb_true_iff, negb_true_iff, Z.eqb_neq, Z.eqb_eq.
  split.
  - intros [Hnz Hl]. rewrite Z.mod_small in Hl by lia.
    exists (Z.log2 v). split; [apply Z.log2_nonneg|].
    destruct (decide (v = 2 ^ Z.log2 v)); [done|].
    by edestruct (land_pred_not_pow2 v); [lia| |].
  - intros (k & Hk & ->). assert (0 < 2 ^ k) by (apply Z.pow_pos_nonneg; lia).
    split; [lia|]. rewrite Z.mod_small by lia. by apply land_pred_pow2.
Qed.

Lemma ilog2_spec w v : 0 < v -> 2 ^ ilog2 w v <= v < 2 ^ Z.succ (ilog2 w v).
Proof.
  intros Hv. unfold ilog2, clz. destruct (Z.eqb_spec v 0); [lia|].
  replace (w - 1 - (w - 1 - Z.log2 v)) with (Z.log2 v) by lia. by apply Z.log2_spec.
Qed.

Lemma maxN_spec a l : maxN a l ∈ a :: l /\ Forall (fun x => x <= maxN a l) (a :: l).
Proof.
  revert a; induction l as [|b l IH]; intros a; cbn [maxN].
  - split; [left|repeat constructor; lia].
  - rewrite Z.gtb_ltb. destruct (Z.ltb_spec b a) as [H|H].
    + destruct (IH a) as [Hin Hall]. apply Forall_cons in Hall as [Ha Hl].
      split; [set_solver|]. repeat constructor; try done; lia.
    + destruct (IH b) as [Hin Hall]. apply Forall_cons in Hall as [Hb Hl].
      split; [set_solver|]. repeat constructor; try done; lia.
Qed.

Lemma minN_spec a l : minN a l ∈ a :: l /\ Forall (fun x => minN a l <= x) (a :: l).
Proof.
  revert a; induction l as [|b l IH]; intros a; cbn [minN].
  - split; [left|repeat constructor; lia].
  - destruct (Z.ltb_spec a b) as [H|H].
    + destruct (IH a) as [Hin Hall]. apply Forall_cons in Hall as [Ha Hl].
      split; [set_solver|]. repeat constructor; try done; lia.
    + destruct (IH b) as [Hin Hall]. apply Forall_cons in Hall as [Hb Hl].
      split; [set_solver|]. repeat constructor; try done; lia.
Qed.

(** Masking with [2 ^ k - 1] is reduction modulo [2 ^ k]: the set index of an
    address is in range when the number of sets is a power of two. *)
Lemma land_mask_mod k x : 0 <= k -> Z.land x (2 ^ k - 1) = x mod 2 ^ k.
Proof.
  intros Hk. rewrite Z.sub_1_r, <- Z.ones_equiv. by apply Z.land_ones.
Qed.

(** The bit tricks compute what they stand for at every width: [isPow2]
    accepts exactly the powers of two (zero included among the rejected
    values), [ilog2] is the integer base-2 logarithm, and [maxN]/[minN] is an
    element of its arguments that bounds them all. *)
Theorem bithacks_correct w v :
  0 <= v < 2 ^ w ->
  (isPow2 w v = true <-> exists k, 0 <= k /\ v = 2 ^ k) /\
  (0 < v -> 2 ^ ilog2 w v <= v < 2 ^ Z.succ (ilog2 w v)) /\
  (forall l, maxN v l ∈ v :: l /\ Forall (fun x => x <= maxN v l) (v :: l)) /\
  (forall l, minN v l ∈ v :: l /\ Forall (fun x => minN v l <= x) (v :: l)).
Proof.
  intros Hv. split_and!.
  - by apply isPow2_spec.
  - apply ilog2_spec.
  - apply maxN_spec.
  - apply minN_spec.
Qed.

Lemma bithacks_correct_witness :
  isPow2 32 4096 = true /\ ilog2 32 4097 = 12 /\ maxN 4096 [7; 5000] = 5000 /\
  (exists k, 0 <= k /\ 4096 = 2 ^ k).
Proof.
  split_and!; [reflexivity|reflexivity|reflexivity|].
  apply (proj1 (proj1 (bithacks_correct 32 4096 ltac:(lia)))). reflexivity.
Defined.

End Bits.

Module H3.

Record H3HashFamily := mkH3 {
  numFuncs : Z;
  resShift : Z;
  hMatrix : list Z
}.

(** The constructor's choice of [resShift] from the number of output bits. *)
Definition choose_resShift (outputBits : Z) : res Z :=
  if outputBits <=? 8 then Ok 3
  else if outputBits <=? 16 then Ok 2
  else if outputBits <=? 32 then Ok 1
  else if outputBits <=? 64 then Ok 0
  else panic.

(** One matrix word: 64 draws, most significant bit first. *)
Fixpoint random_word (n : nat) (val : Z) (rnd : MTRand.MTRand) : Z * MTRand.MTRand :=
  match n with
  | O => (val, rnd)
  | S n =>
      let val := u64 (Z.shiftl val 1) in
      let '(v, rnd) := MTRand.randInt rnd in
      random_word n (if v mod 2 =? 0 then u64 (val + 1) else val) rnd
  end.

Fixpoint random_words (n : nat) (rnd : MTRand.MTRand) : list Z * MTRand.MTRand :=
  match n with
  | O => ([], rnd)
  | S n =>
      let '(v, rnd) := random_word 64 0 rnd in
      let '(l, rnd) := random_words n rnd in
      (v :: l, rnd)
  end.

Definition H3HashFamily_new (numFunctions outputBits randSeed : Z) : res H3HashFamily :=
  sh ← choose_resShift outputBits;
  let words := Z.shiftr 64 sh in
  let '(m, _) := random_words (Z.to_nat (words * numFunctions)) (MTRand.seed randSeed) in
  Ok (mkH3 numFunctions sh m).

(** [(x << k) | (x >> (64 - k))]. *)
Definition rotl64 (x k : Z) : Z := Z.lor (u64 (Z.shiftl x k)) (Z.shiftr x (64 - k)).

Definition mat (h : H3HashFamily) (i : Z) : Z := hMatrix h !!! Z.to_nat i.

(** The body of the 8-way unrolled loop. *)
Definition hash_step (h : H3HashFamily) (id val res x : Z) : Z :=
  let base := u32 (Z.shiftl id (6 - resShift h) + x) in
  let res0 := Z.land val (mat h base) in
  let res1 := Z.land val (mat h (base + 1)) in
  let res2 := Z.land val (mat h (base + 2)) in
  let res3 := Z.land val (mat h (base + 3)) in
  let res4 := Z.land val (mat h (base + 4)) in
  let res5 := Z.land val (mat h (base + 5)) in
  let res6 := Z.land val (mat h (base + 6)) in
  let res7 := Z.land val (mat h (base + 7)) in
  let res := Z.lxor res (Z.lxor (Z.lxor (Z.lxor res0 (rotl64 res1 1)) (rotl64 res2 2))
                                (rotl64 res3 3)) in
  let res := Z.lxor res (Z.lxor (Z.lxor (Z.lxor (rotl64 res4 4) (rotl64 res5 5))
                                        (rotl64 res6 6)) (rotl64 res7 7)) in
  rotl64 res 8.

(** [res = (res >> k) ^ res]. *)
Definition fold_shift (k res : Z) : Z := Z.lxor (Z.shiftr res k) res.

Definition fold_bits (sh res : Z) : Z :=
  if sh =? 0 then res
  else if sh =? 1 then fold_shift 32 res
  else if sh =? 2 then fold_shift 16 (fold_shift 32 res)
  else if sh =? 3 then fold_shift 8 (fold_shift 16 (fold_shift 32 res))
  else res.

(** The values taken by the loop variable [x]. *)
Definition hash_xs (h : H3HashFamily) : list Z :=
  (fun k => 8 * Z.of_nat k) <$> seq 0 (Z.to_nat (Z.shiftr 64 (resShift h) / 8)).

Definition hash (h : H3HashFamily) (id val : Z) : res Z :=
  assert_that ((0 <=? id) && (id <? numFuncs h)) ≫= fun _ =>
  Ok (fold_bits (resShift h)
        (fold_left (fun res x => hash_step h id val res x) (hash_xs h) 0)).

(** The comment's "original, simpler code" for a 64-bit hash. *)
Definition simple_hash (h : H3HashFamily) (id val : Z) : Z :=
  fold_left (fun res x =>
    let res := Z.lxor res (Z.land val (mat h (id * 64 + x))) in
    Z.lor (u64 (Z.shiftl res 1)) (Z.shiftr res 63)) (seqZ 0 64) 0.

Definition id_hash (id val : Z) : Z := val.

Record wf (h : H3HashFamily) : Prop := {
  wf_shift : 0 <= resShift h <= 3;
  wf_mat : Forall in_u64 (hMatrix h)
}.

Lemma mat_range h i : wf h -> in_u64 (mat h i).
Proof.
  intros Hh. unfold mat. destruct (hMatrix h !! Z.to_nat i) eqn:E.
  - erewrite list_lookup_total_correct by done.
    eapply Forall_lookup_1 in E; [done|apply Hh].
  - rewrite list_lookup_total_alt, E. cbn. unfold in_u64; lia.
Qed.

Lemma rotl64_range x k : in_u64 x -> 0 <= k <= 64 -> in_u64 (rotl64 x k).
Proof. intros Hx Hk. unfold rotl64, u64, in_u64 in *. bit_range. Qed.

(** Rotation, masking and folding are linear over exclusive or. *)
Lemma rotl64_xor x y k :
  0 <= k <= 64 -> in_u64 x -> in_u64 y ->
  rotl64 (Z.lxor x y) k = Z.lxor (rotl64 x k) (rotl64 y k).
Proof.
  intros Hk Hx Hy. unfold rotl64, u64. apply Z.bits_inj'; intros i Hi.
  rewrite !Z.lxor_spec, !Z.lor_spec, !testbit_mod_pow2, !Z.shiftr_spec, !Z.shiftl_spec,
    !Z.lxor_spec by lia.
  case_bool_decide; cbn.
  - destruct (decide (i < k)).
    + rewrite !(Z.testbit_neg_r _ (i - k)) by lia. done.
    + rewrite !(testbit_high 64 _ (i + (64 - k))) by (unfold in_u64 in *; lia).
      by rewrite !orb_false_r.
  - done.
Qed.

Lemma land_xor_l x y m : Z.land (Z.lxor x y) m = Z.lxor (Z.land x m) (Z.land y m).
Proof.
  apply Z.bits_inj'; intros i Hi.
  rewrite !Z.lxor_spec, !Z.land_spec, Z.lxor_spec.
  by destruct (Z.testbit x i), (Z.testbit y i), (Z.testbit m i).
Qed.

Lemma lxor_interchange a b c d :
  Z.lxor (Z.lxor a b) (Z.lxor c d) = Z.lxor (Z.lxor a c) (Z.lxor b d).
Proof.
  rewrite !Z.lxor_assoc. f_equal. rewrite <- !Z.lxor_assoc. f_equal. apply Z.lxor_comm.
Qed.

Lemma fold_shift_xor k x y :
  fold_shift k (Z.lxor x y) = Z.lxor (fold_shift k x) (fold_shift k y).
Proof. unfold fold_shift. rewrite Z.shiftr_lxor. apply lxor_interchange. Qed.

Lemma fold_bits_xor sh x y :
  fold_bits sh (Z.lxor x y) = Z.lxor (fold_bits sh x) (fold_bits sh y).
Proof. unfold fold_bits. repeat case_match; by rewrite ?fold_shift_xor. Qed.

Lemma land_mat_range h v i : wf h -> in_u64 (Z.land v (mat h i)).
Proof. intros Hh. pose proof (mat_range h i Hh). unfold in_u64 in *. bit_range. Qed.

Lemma lxor_u64 x y : in_u64 x -> in_u64 y -> in_u64 (Z.lxor x y).
Proof. unfold in_u64. intros. bit_range. Qed.

#[local] Hint Resolve rotl64_range land_mat_range lxor_u64 : core.

Lemma hash_step_range h id v r x : wf h -> in_u64 r -> in_u64 (hash_step h id v r x).
Proof.
  intros Hh Hr. unfold hash_step.
  apply rotl64_range; [|lia]. repeat apply lxor_u64; try done;
    first [by apply land_mat_range | apply rotl64_range; [by apply land_mat_range|lia]].
Qed.

Lemma hash_step_xor h id v1 v2 r1 r2 x :
  wf h -> in_u64 r1 -> in_u64 r2 ->
  hash_step h id (Z.lxor v1 v2) (Z.lxor r1 r2) x =
  Z.lxor (hash_step h id v1 r1 x) (hash_step h id v2 r2 x).
Proof.
  intros Hh H1 H2. unfold hash_step.
  rewrite <- rotl64_xor; [|lia| |];
    [|repeat apply lxor_u64; try done;
      first [by apply land_mat_range | apply rotl64_range; [by apply land_mat_range|lia]]..].
  f_equal. rewrite !land_xor_l.
  rewrite !rotl64_xor by (try lia; by apply land_mat_range).
  repeat match goal with
    | |- context [rotl64 ?x ?k] => generalize (rotl64 x k); intro
    | |- context [Z.land ?x ?k] => generalize (Z.land x k); intro
    end.
  apply Z.bits_inj'; intros i Hi. rewrite !Z.lxor_spec. btauto.
Qed.

(** The two accumulators of the loop stay in step, and in range. *)
Lemma hash_loop_xor h id v1 v2 l : wf h -> forall r1 r2,
  in_u64 r1 -> in_u64 r2 ->
  let loop v r := fold_left (fun res x => hash_step h id v res x) l r in
  loop (Z.lxor v1 v2) (Z.lxor r1 r2) = Z.lxor (loop v1 r1) (loop v2 r2) /\
  in_u64 (loop v1 r1).
Proof.
  intros Hh. induction l as [|x l IH]; intros r1 r2 H1 H2; cbn [fold_left]; [done|].
  rewrite hash_step_xor by done. apply IH; by apply hash_step_range.
Qed.

Lemma fold_bits_range sh r : in_u64 r -> in_u64 (fold_bits sh r).
Proof.
  unfold fold_bits, fold_shift, in_u64. intros Hr. repeat case_match; bit_range.
Qed.

Lemma hash_eq h id v :
  0 <= id < numFuncs h ->
  hash h id v = Ok (fold_bits (resShift h)
    (fold_left (fun res x => hash_step h id v res x) (hash_xs h) 0)).
Proof.
  intros Hid. unfold hash.
  by replace ((0 <=? id) && (id <? numFuncs h)) with true by lia.
Qed.

Lemma random_word_range n v r : in_u64 v -> in_u64 (random_word n v r).1.
Proof.
  revert v r; induction n as [|n IH]; intros v r Hv; cbn [random_word]; [done|].
  destruct (MTRand.randInt r) as [x r1]. apply IH. case_match; apply u64_range.
Qed.

Lemma random_words_range n r : Forall in_u64 (random_words n r).1.
Proof.
  revert r; induction n as [|n IH]; intros r; cbn [random_words]; [constructor|].
  pose proof (random_word_range 64 0 r ltac:(unfold in_u64; lia)) as H1.
  destruct (random_word 64 0 r) as [v r1]. specialize (IH r1).
  destruct (random_words n r1) as [l r2]. by constructor.
Qed.

Lemma H3HashFamily_new_wf nf ob s h : H3HashFamily_new nf ob s = Ok h -> wf h.
Proof.
  unfold H3HashFamily_new. rewrite bind_Ok. intros (sh & Hsh & Heq).
  pose proof (random_words_range (Z.to_nat (Z.shiftr 64 sh * nf)) (MTRand.seed s)) as Hr.
  destruct (random_words _ _) as [m r]. injection Heq as <-. split; [|done].
  unfold choose_resShift in Hsh. cbn. repeat case_match; simplify_eq; lia.
Qed.

(** Every H3 family the constructor builds hashes linearly: the call
    succeeds for every function of the family with a 64-bit value, the hash of
    an exclusive or is the exclusive or of the hashes, and zero hashes to
    zero. This is the defining property of an H3 family, for the unrolled loop
    with its rotations and the output folding, for every output width. *)
Theorem hash_linear nf ob s h id :
  H3HashFamily_new nf ob s = Ok h -> 0 <= id < nf ->
  (forall v, exists r, hash h id v = Ok r /\ in_u64 r) /\
  (forall v1 v2 r1 r2, hash h id v1 = Ok r1 -> hash h id v2 = Ok r2 ->
     hash h id (Z.lxor v1 v2) = Ok (Z.lxor r1 r2)) /\
  hash h id 0 = Ok 0.
Proof.
  intros Hnew Hid. pose proof (H3HashFamily_new_wf _ _ _ _ Hnew) as Hh.
  assert (Hnf : numFuncs h = nf).
  { revert Hnew. unfold H3HashFamily_new. rewrite bind_Ok. intros (sh & _ & Heq).
    destruct (random_words _ _). by injection Heq as <-. }
  assert (Hz : in_u64 0) by (unfold in_u64; lia).
  assert (Hx : forall v1 v2 r1 r2, hash h id v1 = Ok r1 -> hash h id v2 = Ok r2 ->
     hash h id (Z.lxor v1 v2) = Ok (Z.lxor r1 r2)).
  { intros v1 v2 r1 r2. rewrite !hash_eq by lia. intros [= <-] [= <-].
    rewrite <- fold_bits_xor. do 2 f_equal.
    apply (hash_loop_xor h id v1 v2 (hash_xs h) Hh 0 0 Hz Hz). }
  split_and!; [|done|].
  - intros v. rewrite hash_eq by lia. eexists; split; [done|]. apply fold_bits_range.
    apply (hash_loop_xor h id v 0 (hash_xs h) Hh 0 0 Hz Hz).
  - destruct (hash h id 0) as [r|] eqn:E; [|by rewrite hash_eq in E by lia].
    specialize (Hx 0 0 r r E E). rewrite (Z.lxor_nilpotent r) in Hx.
    change (Z.lxor 0 0) with 0 in Hx. congruence.
Qed.

Lemma hash_linear_witness :
  exists h, H3HashFamily_new 2 8 123132127 = Ok h /\ hash h 1 0 = Ok 0.
Proof.
  destruct (H3HashFamily_new 2 8 123132127) as [h|] eqn:E; [|vm_compute in E; discriminate].
  exists h. split; [reflexivity|]. apply (hash_linear 2 8 123132127 h 1 E). lia.
Defined.

(** The unrolled loop is not the "original, simpler code" its comment gives
    for reference. On a family whose only non-zero matrix word is word 1 of
    function 0, with value 1, the reference hashes 1 to 2^63 (the word is
    rotated left 63 times in all) and the unrolled code hashes it to 2. *)
Theorem unrolled_differs_from_reference :
  let h := mkH3 1 0 ([0; 1] ++ replicate 62 0) in
  wf h /\ simple_hash h 0 1 = 2 ^ 63 /\ hash h 0 1 = Ok 2.
Proof.
  split_and!; [|vm_compute; done|vm_compute; done].
  split; [cbn; lia|]. cbn [hMatrix]. apply Forall_app; split.
  - repeat constructor; done.
  - by apply Forall_replicate.
Qed.

End H3.
