(* ===== verification/Compressor.v ===== *)
(** The XOR line compressor (src/src/compressor.h, compressor.cpp,
    compressor_xor.cpp).

    A cache line is 64 bytes.  The compressor pairs a line being inserted with a
    resident one whose exclusive or with it needs fewer bits, and keeps the pair's
    XOR.  [xstate] holds the global arrays: the malloc'd byte arrays are functions
    from an address to a byte (their initial contents are arbitrary), the global
    [int] arrays are functions from an index, or an index and a slot, to an
    integer, zero at start.  Printing and the result files are left out. *)
From S2P Require Import Prelude.

Module Line.

(** [struct Line { unsigned char Byte[64]; }] as the list of its bytes. *)
Notation line := (list Z).

Record wf (l : line) : Prop := {
  wf_length : length l = 64%nat;
  wf_bytes : Forall in_u8 l
}.

Definition zero_line : line := replicate 64 0.

(** [countWidth]: the loop tests [num <= (short)pow(2,i)-1] for i = 0..7. *)
Fixpoint countWidth_from (i : Z) (n : nat) (num : Z) : Z :=
  match n with
  | O => 8
  | S n => if num <=? 2 ^ i - 1 then i else countWidth_from (i + 1) n num
  end.
Definition countWidth (num : Z) : Z := countWidth_from 0 8 num.

(** [countLine]: total bit width of the bytes, rounded up to bytes. *)
Definition countBits (l : line) : Z := foldr (fun b acc => countWidth b + acc) 0 l.
Definition countLine (l : line) : Z :=
  let ret := countBits l in
  if ret mod 8 >? 0 then ret / 8 + 1 else ret / 8.

(** [countFlip]. The inner loop declares its own [i], so it is that index (0..30)
    that selects the byte; the outer index only repeats the pass. *)
Record flip_state := mkFlip { fl_line : line; fl_last : Z; fl_ret : Z }.

Definition countFlip_inner (st : flip_state) (i : nat) : flip_state :=
  let b := fl_line st !!! i in
  let bit := Z.land 1 b in
  let line' := <[i := Z.shiftr b 1]> (fl_line st) in
  if fl_last st =? bit then mkFlip line' (fl_last st) (fl_ret st)
  else mkFlip line' bit (fl_ret st + 1).

Definition countFlip_pass (st : flip_state) : flip_state :=
  fold_left countFlip_inner (seq 0 31) st.

Definition countFlip (input : line) : Z :=
  fl_ret (Nat.iter 64 countFlip_pass (mkFlip input (Z.land 1 (input !!! 0%nat)) 0)).

Definition bytewise (f : Z -> Z -> Z) (l1 l2 : line) : line :=
  zip_with (fun a b => u8 (f a b)) l1 l2.
Definition sub (l1 l2 : line) : line := bytewise Z.sub l1 l2.
Definition add (l1 l2 : line) : line := bytewise Z.add l1 l2.
Definition xxor (l1 l2 : line) : line := bytewise Z.lxor l1 l2.

(** [Empty] returns 1 when some byte is not zero. *)
Definition Empty (l : line) : Z := if existsb (fun b => negb (b =? 0)) l then 1 else 0.

Definition getTag (l : Z) : Z := i32 (Z.land l 0x7f).

(** [compress]: word [i] is stored as its difference with the base word, or
    verbatim when the difference is wider. *)
Definition word_line (l : line) (i : nat) : line :=
  [l !!! (i * 4)%nat; l !!! (i * 4 + 1)%nat; l !!! (i * 4 + 2)%nat; l !!! (i * 4 + 3)%nat]
  ++ replicate 60 0.

Definition width4 (l : line) : Z :=
  countWidth (l !!! 0%nat) + countWidth (l !!! 1%nat) +
  countWidth (l !!! 2%nat) + countWidth (l !!! 3%nat).

Definition put4 (dst src : line) (i : nat) : line :=
  <[(i * 4 + 3)%nat := src !!! 3%nat]> (<[(i * 4 + 2)%nat := src !!! 2%nat]>
  (<[(i * 4 + 1)%nat := src !!! 1%nat]> (<[(i * 4)%nat := src !!! 0%nat]> dst))).

Definition compress_step (l first : line) (i : nat) : line :=
  let num := word_line l i in
  let s := sub num first in
  if width4 s >? width4 num then put4 first num i else put4 first s i.

Definition compress (l : line) : line :=
  let first := [l !!! 3%nat; l !!! 2%nat; l !!! 1%nat; l !!! 0%nat] ++ replicate 60 0 in
  fold_left (compress_step l) (seq 1 15) first.

(** ** Widths *)

Lemma countWidth_from_range i n num :
  0 <= i -> i + Z.of_nat n <= 8 -> 0 <= countWidth_from i n num <= 8.
Proof.
  revert i; induction n as [|n IH]; intros i Hi Hn; cbn [countWidth_from]; [lia|].
  case_match; [lia|]. apply IH; lia.
Qed.

Lemma countWidth_range num : 0 <= countWidth num <= 8.
Proof. apply countWidth_from_range; lia. Qed.

(** For a byte the width is the number of bits up to the highest one set. *)
Lemma countWidth_spec b :
  in_u8 b -> countWidth b = if b =? 0 then 0 else Z.succ (Z.log2 b).
Proof.
  intros Hb. destruct (Z.eqb_spec b 0) as [->|Hnz]; [done|].
  assert (H0 : 0 < b) by (unfold in_u8 in *; lia).
  assert (Hl : Z.log2 b < 8) by (apply Z.log2_lt_pow2; unfold in_u8 in *; lia).
  pose proof (Z.log2_nonneg b). pose proof (Z.log2_spec b H0) as [Hlo Hhi].
  assert (Hg : forall n i, 0 <= i -> i + Z.of_nat n = 8 -> i <= Z.succ (Z.log2 b) ->
    countWidth_from i n b = Z.succ (Z.log2 b)).
  { induction n as [|n IH]; intros i Hi Hn Hle; cbn [countWidth_from].
    { lia. }
    destruct (Z.leb_spec b (2 ^ i - 1)) as [Hb1|Hb1].
    - assert (Z.log2 b < i) by (apply Z.log2_lt_pow2; lia). lia.
    - apply IH; [lia|lia|]. destruct (decide (i = Z.succ (Z.log2 b))) as [->|]; [|lia].
      rewrite <- Z.add_1_r in Hhi. lia. }
  apply Hg; lia.
Qed.

Lemma countBits_nonneg l : 0 <= countBits l.
Proof.
  unfold countBits. induction l as [|b l IH]; cbn [foldr]; [lia|].
  pose proof (countWidth_range b). lia.
Qed.

Lemma countBits_le l : countBits l <= 8 * Z.of_nat (length l).
Proof.
  unfold countBits. induction l as [|b l IH]; cbn [foldr length]; [lia|].
  pose proof (countWidth_range b). lia.
Qed.

Lemma countLine_ceil l : 8 * countLine l - 7 <= countBits l <= 8 * countLine l.
Proof.
  unfold countLine. pose proof (Z.div_mod (countBits l) 8 ltac:(lia)).
  pose proof (Z.mod_pos_bound (countBits l) 8 ltac:(lia)).
  rewrite Z.gtb_ltb. destruct (Z.ltb_spec 0 (countBits l mod 8)); lia.
Qed.

Lemma countLine_range l : wf l -> 0 <= countLine l <= 64.
Proof.
  intros [HL _]. pose proof (countLine_ceil l). pose proof (countBits_nonneg l).
  pose proof (countBits_le l). rewrite HL in *. lia.
Qed.

(** ** Byte-wise operations *)

Lemma bytewise_wf f l1 l2 : wf l1 -> wf l2 -> wf (bytewise f l1 l2).
Proof.
  intros [H1 _] [H2 _]. split.
  - unfold bytewise. rewrite length_zip_with. lia.
  - unfold bytewise. apply Forall_forall. intros x Hx.
    apply elem_of_lookup_zip_with in Hx as (i & a & b & -> & _). apply u8_range.
Qed.

Lemma bytewise_cancel f g l1 l2 :
  wf l1 -> wf l2 -> (forall a b, in_u8 a -> in_u8 b -> u8 (g (u8 (f a b)) b) = a) ->
  bytewise g (bytewise f l1 l2) l2 = l1.
Proof.
  intros [HL1 HB1] [HL2 HB2] Hfg. rewrite <- HL2 in HL1. clear HL2.
  revert l2 HL1 HB2. induction l1 as [|a l1 IH]; intros [|b l2] HL HB2; try done.
  apply Forall_cons in HB1 as [Ha HB1]. apply Forall_cons in HB2 as [Hb HB2].
  cbn. rewrite Hfg by done. f_equal. apply IH; [done| |done].
  by injection HL.
Qed.

Lemma u8_xor_cancel a b : in_u8 a -> in_u8 b -> u8 (Z.lxor (u8 (Z.lxor a b)) b) = a.
Proof.
  intros Ha Hb. unfold in_u8 in *.
  assert (in_u8 (Z.lxor a b)) by (apply lxor_range; lia).
  rewrite (u8_id (Z.lxor a b)) by done.
  rewrite Z.lxor_assoc, Z.lxor_nilpotent, Z.lxor_0_r. by apply u8_id.
Qed.

Lemma xxor_cancel l1 l2 : wf l1 -> wf l2 -> xxor (xxor l1 l2) l2 = l1.
Proof. intros. apply bytewise_cancel; [done|done|]. apply u8_xor_cancel. Qed.

Lemma xxor_comm l1 l2 : xxor l1 l2 = xxor l2 l1.
Proof.
  unfold xxor, bytewise. revert l2. induction l1 as [|a l1 IH]; intros [|b l2]; cbn; try done.
  by rewrite IH, Z.lxor_comm.
Qed.

Lemma sub_add_cancel l1 l2 : wf l1 -> wf l2 -> add (sub l1 l2) l2 = l1.
Proof.
  intros. apply bytewise_cancel; [done|done|]. intros a b Ha Hb.
  unfold u8. rewrite Zplus_mod_idemp_l. replace (a - b + b) with a by lia.
  by apply u8_id.
Qed.

Lemma add_sub_cancel l1 l2 : wf l1 -> wf l2 -> sub (add l1 l2) l2 = l1.
Proof.
  intros. apply bytewise_cancel; [done|done|]. intros a b Ha Hb.
  unfold u8. rewrite Zminus_mod_idemp_l. replace (a + b - b) with a by lia.
  by apply u8_id.
Qed.

(** The byte-wise operations invert each other on 64-byte lines: XOR with
    the partner recovers the line, and [add] undoes [sub] and conversely;
    results are again lines. *)
Theorem line_ops_roundtrip l1 l2 :
  wf l1 -> wf l2 ->
  xxor (xxor l1 l2) l2 = l1 /\ xxor (xxor l1 l2) l1 = l2 /\
  add (sub l1 l2) l2 = l1 /\ sub (add l1 l2) l2 = l1 /\
  wf (xxor l1 l2) /\ wf (sub l1 l2) /\ wf (add l1 l2).
Proof.
  intros H1 H2. split_and!; try by apply bytewise_wf.
  - by apply xxor_cancel.
  - rewrite (xxor_comm l1 l2). by apply xxor_cancel.
  - by apply sub_add_cancel.
  - by apply add_sub_cancel.
Qed.

Lemma wf_replicate b : in_u8 b -> wf (replicate 64 b).
Proof. intros Hb. split; [by rewrite length_replicate|by apply Forall_replicate]. Qed.

Lemma line_ops_roundtrip_witness :
  xxor (xxor (replicate 64 0xa5) (replicate 64 0x3c)) (replicate 64 0x3c) = replicate 64 0xa5.
Proof.
  apply (line_ops_roundtrip (replicate 64 0xa5) (replicate 64 0x3c));
    apply wf_replicate; unfold in_u8; lia.
Defined.

(** [countLine] is the number of bytes that hold the significant bits of
    the line: the bits of a byte are counted up to its highest one, the total is
    rounded up to whole bytes, a line needs between 0 and 64 of them, and none
    exactly when it is all zero. *)
Theorem countLine_correct l :
  wf l ->
  (forall b, b ∈ l -> countWidth b = if b =? 0 then 0 else Z.succ (Z.log2 b)) /\
  8 * countLine l - 7 <= countBits l <= 8 * countLine l /\
  0 <= countLine l <= 64 /\
  (countLine l = 0 <-> l = zero_line).
Proof.
  intros Hl. split; [|split; [|split; [by apply countLine_range|split]]].
  - intros b Hb. apply countWidth_spec. pose proof (wf_bytes _ Hl) as Hf.
    rewrite Forall_forall in Hf. by apply Hf.
  - apply countLine_ceil.
  - intros H0. pose proof (countLine_ceil l) as Hc. rewrite H0 in Hc.
    pose proof (countBits_nonneg l). assert (Hb : countBits l = 0) by lia.
    destruct Hl as [HL HB]. unfold zero_line. rewrite <- HL. clear -HB Hb.
    induction l as [|b l IH]; [done|]. apply Forall_cons in HB as [Hbr HB].
    cbn [countBits foldr] in Hb. pose proof (countWidth_range b).
    pose proof (countBits_nonneg l). fold (countBits l) in Hb.
    cbn [length replicate]. f_equal; [|apply IH; [done|lia]].
    assert (Hw : countWidth b = 0) by lia. rewrite countWidth_spec in Hw by done.
    destruct (Z.eqb_spec b 0); [done|]. pose proof (Z.log2_nonneg b). lia.
  - intros ->. reflexivity.
Qed.

Lemma countLine_correct_witness :
  countLine (replicate 64 3) = 16 /\ 0 <= countLine (replicate 64 3) <= 64.
Proof.
  split; [reflexivity|]. apply (countLine_correct (replicate 64 3)).
  apply wf_replicate. unfold in_u8; lia.
Defined.

(** ** [countFlip] *)

Definition drop_tail (st : flip_state) : flip_state :=
  mkFlip (take 31 (fl_line st)) (fl_last st) (fl_ret st).

Lemma countFlip_inner_drop st i :
  (i < 31)%nat -> (31 <= length (fl_line st))%nat ->
  drop_tail (countFlip_inner st i) = countFlip_inner (drop_tail st) i /\
  length (fl_line (countFlip_inner st i)) = length (fl_line st).
Proof.
  intros Hi HL. unfold countFlip_inner, drop_tail; cbn [fl_line fl_last fl_ret].
  rewrite lookup_total_take_lt by done.
  rewrite <- take_insert_lt by done.
  case_match; cbn [fl_line fl_last fl_ret]; by rewrite ?length_insert.
Qed.

Lemma countFlip_fold_drop l st :
  Forall (fun i => (i < 31)%nat) l -> (31 <= length (fl_line st))%nat ->
  drop_tail (fold_left countFlip_inner l st) = fold_left countFlip_inner l (drop_tail st) /\
  length (fl_line (fold_left countFlip_inner l st)) = length (fl_line st).
Proof.
  revert st; induction l as [|i l IH]; intros st Hl HL; cbn [fold_left]; [done|].
  apply Forall_cons in Hl as [Hi Hl].
  destruct (countFlip_inner_drop st i Hi HL) as [H1 H2].
  destruct (IH (countFlip_inner st i) Hl ltac:(lia)) as [H3 H4].
  rewrite H3, H1, H4. by split.
Qed.

Lemma countFlip_pass_drop st :
  (31 <= length (fl_line st))%nat ->
  drop_tail (countFlip_pass st) = countFlip_pass (drop_tail st) /\
  length (fl_line (countFlip_pass st)) = length (fl_line st).
Proof.
  apply countFlip_fold_drop. apply Forall_forall. intros i Hi%elem_of_seq. lia.
Qed.

Lemma countFlip_passes_drop n st :
  (31 <= length (fl_line st))%nat ->
  drop_tail (Nat.iter n countFlip_pass st) = Nat.iter n countFlip_pass (drop_tail st) /\
  length (fl_line (Nat.iter n countFlip_pass st)) = length (fl_line st).
Proof.
  intros Hst. induction n as [|n [IH1 IH2]]; [done|]. cbn [Nat.iter nat_rect].
  destruct (countFlip_pass_drop (Nat.iter n countFlip_pass st) ltac:(lia)) as [H3 H4].
  split; [|etransitivity; [exact H4|exact IH2]].
  etransitivity; [exact H3|]. exact (f_equal countFlip_pass IH1).
Qed.

Lemma countFlip_take input :
  (31 <= length input)%nat -> countFlip input = countFlip (take 31 input).
Proof.
  intros HL. unfold countFlip. generalize 64%nat; intros n.
  destruct (countFlip_passes_drop n (mkFlip input (Z.land 1 (input !!! 0%nat)) 0) HL) as [H1 _].
  apply (f_equal fl_ret) in H1. unfold drop_tail in H1; cbn [fl_line fl_last fl_ret] in H1.
  rewrite H1. by rewrite lookup_total_take_lt by lia.
Qed.

(** [countFlip], meant to count the bit transitions of a line, never looks
    past byte 30: two lines that agree on their first 31 bytes have the same
    count, because the inner loop variable shadows the one that ranges over the
    64 bytes. A line whose last 33 bytes alternate still counts 0. *)
Theorem countFlip_ignores_tail :
  (forall l1 l2, wf l1 -> wf l2 -> take 31 l1 = take 31 l2 -> countFlip l1 = countFlip l2) /\
  countFlip (replicate 31 0 ++ replicate 33 0xaa) = 0.
Proof.
  split; [|reflexivity]. intros l1 l2 [H1 _] [H2 _] Heq.
  pose proof (countFlip_take l1 ltac:(lia)). pose proof (countFlip_take l2 ltac:(lia)).
  congruence.
Qed.

(** ** [compress] *)

Lemma countBits_insert l i x :
  (i < length l)%nat ->
  countBits (<[i := x]> l) = countBits l - countWidth (l !!! i) + countWidth x.
Proof.
  revert i; induction l as [|b l IH]; intros i Hi; cbn [length] in Hi; [lia|].
  destruct i as [|i]; cbn [insert list_insert countBits foldr]; fold (countBits l).
  - change ((b :: l) !!! 0%nat) with b. lia.
  - change (<[S i := x]> (b :: l)) with (b :: <[i := x]> l).
    cbn [countBits foldr]. fold (countBits (<[i := x]> l)).
    change ((b :: l) !!! S i) with (l !!! i). rewrite IH by lia. lia.
Qed.

Definition word_bits (l : line) (i : nat) : Z :=
  countWidth (l !!! (i * 4)%nat) + countWidth (l !!! (i * 4 + 1)%nat) +
  countWidth (l !!! (i * 4 + 2)%nat) + countWidth (l !!! (i * 4 + 3)%nat).

Lemma width4_word_line l i : width4 (word_line l i) = word_bits l i.
Proof. reflexivity. Qed.

(** Reading a list after one of the four writes of [put4]. *)
Ltac list_at :=
  repeat first [ rewrite list_lookup_total_insert_eq by (rewrite ?length_insert; lia)
               | rewrite list_lookup_total_insert_ne by lia ].

Lemma put4_length dst src i : length (put4 dst src i) = length dst.
Proof. unfold put4. by rewrite !length_insert. Qed.

Lemma put4_bits dst src i :
  (i * 4 + 3 < length dst)%nat ->
  countBits (put4 dst src i) = countBits dst - word_bits dst i + width4 src.
Proof.
  intros Hi. unfold put4.
  rewrite !countBits_insert by (rewrite ?length_insert; lia).
  list_at. unfold word_bits, width4. lia.
Qed.

Lemma put4_other dst src i j :
  (j < i * 4 \/ i * 4 + 3 < j)%nat -> put4 dst src i !!! j = dst !!! j.
Proof. intros Hj. unfold put4. by list_at. Qed.

Fixpoint sum_words (l : line) (n : nat) : Z :=
  match n with O => 0 | S n => sum_words l n + word_bits l n end.

Lemma sum_words_cons4 a b c d l n :
  sum_words (a :: b :: c :: d :: l) (S n) =
  countWidth a + countWidth b + countWidth c + countWidth d + sum_words l n.
Proof.
  induction n as [|n IH]; [cbn [sum_words]; unfold word_bits; cbn -[countWidth]; lia|].
  cbn [sum_words] in *. rewrite IH. clear IH.
  assert (Hb : word_bits (a :: b :: c :: d :: l) (S n) = word_bits l n).
  { unfold word_bits.
    replace (S n * 4)%nat with (S (S (S (S (n * 4))))) by lia. reflexivity. }
  lia.
Qed.

Lemma countBits_sum_words n l : length l = (4 * n)%nat -> countBits l = sum_words l n.
Proof.
  revert l; induction n as [|n IH]; intros l HL.
  - apply nil_length_inv in HL. by subst.
  - destruct l as [|a [|b [|c [|d l]]]]; cbn [length] in HL; try lia.
    rewrite sum_words_cons4, <- IH by lia. cbn [countBits foldr]. fold (countBits l). lia.
Qed.

(** Loop invariant of [compress] before word [i] is handled. *)
Record compress_inv (l first : line) (i : nat) : Prop := {
  ci_length : length first = 64%nat;
  ci_zero : forall j, (i * 4 <= j < 64)%nat -> first !!! j = 0;
  ci_bits : countBits first <= sum_words l i
}.

Lemma compress_step_inv l first i :
  (i < 16)%nat -> compress_inv l first i -> compress_inv l (compress_step l first i) (S i).
Proof.
  intros Hi [HL Hz Hb]. unfold compress_step.
  set (num := word_line l i). set (s := sub num first).
  assert (H0 : word_bits first i = 0).
  { unfold word_bits. by rewrite !Hz by lia. }
  assert (Hput : forall w, width4 w <= width4 num -> compress_inv l (put4 first w i) (S i)).
  { intros w Hw. split.
    - by rewrite put4_length.
    - intros j Hj. rewrite put4_other by lia. apply Hz. lia.
    - rewrite put4_bits by lia. cbn [sum_words].
      unfold num in Hw. rewrite width4_word_line in Hw. lia. }
  rewrite Z.gtb_ltb. destruct (Z.ltb_spec (width4 num) (width4 s)); by apply Hput.
Qed.

Lemma compress_fold_inv l n i first :
  (i + n <= 16)%nat -> compress_inv l first i ->
  compress_inv l (fold_left (compress_step l) (seq i n) first) (i + n).
Proof.
  revert i first; induction n as [|n IH]; intros i first Hi Hinv; cbn [seq fold_left].
  - by rewrite Nat.add_0_r.
  - replace (i + S n)%nat with (S i + n)%nat by lia. apply IH; [lia|].
    apply compress_step_inv; [lia|done].
Qed.

Lemma compress_start l :
  compress_inv l ([l !!! 3%nat; l !!! 2%nat; l !!! 1%nat; l !!! 0%nat] ++ replicate 60 0) 1.
Proof.
  split; [reflexivity| |].
  - intros j Hj. rewrite lookup_total_app_r by (cbn; lia). cbn [length].
    by rewrite lookup_total_replicate_2 by lia.
  - assert (Hz : countBits (replicate 60 0) = 0) by reflexivity.
    cbn [sum_words]. unfold word_bits. cbn [app countBits foldr Nat.mul Nat.add].
    fold (countBits (replicate 60 0)). lia.
Qed.

Lemma compress_result l : compress_inv l (compress l) 16.
Proof. apply (compress_fold_inv l 15 1); [lia|apply compress_start]. Qed.

(** [compress] never widens a line: its result is 64 bytes long and needs
    at most as many bits, and bytes, as its argument. The scheme keeps no record
    of which words were stored as differences, so it only estimates a size: the
    two distinct lines given have the same compressed form. *)
Theorem compress_never_wider :
  (forall l, wf l ->
     length (compress l) = 64%nat /\ countBits (compress l) <= countBits l /\
     countLine (compress l) <= countLine l) /\
  (let l1 := [0; 0; 0; 1; 1] ++ replicate 59 0 in
   let l2 := [0; 0; 0; 1; 0] ++ replicate 59 0 in
   wf l1 /\ wf l2 /\ l1 <> l2 /\ compress l1 = compress l2).
Proof.
  split.
  - intros l [HL _].
    destruct (compress_result l) as [H1 _ H2].
    rewrite <- countBits_sum_words in H2 by lia.
    split_and!; [done|done|]. pose proof (countLine_ceil l).
    pose proof (countLine_ceil (compress l)). lia.
  - assert (Hz : Forall in_u8 (replicate 59 0)) by (by apply Forall_replicate).
    assert (Hh : forall b, in_u8 b -> Forall in_u8 [0; 0; 0; 1; b]) by (intros b Hb; repeat (apply Forall_cons; split; [done|]); done).
    cbv zeta. split; [|split; [|split; [intros [=]|vm_compute; reflexivity]]].
    + split; [reflexivity|apply Forall_app; split; [by apply Hh|done]].
    + split; [reflexivity|apply Forall_app; split; [by apply Hh|done]].
Qed.

End Line.
