(* ===== verification/XorStore.v ===== *)
(** The global arrays of the XOR compressor and their operations
    (src/src/compressor_xor.cpp, compressor.cpp, and the compression part of
    SetAssocArray::postinsert/postinsertL2 in src/src/cache_arrays.cpp).

    [xstate] is the set of globals; [rates] are the counters of compressor.cpp.
    The ratios the source prints to files are functions of [rates] and are left
    out, like all printing. *)
From S2P Require Import Prelude Compressor.
Import Line.

Module XorStore.

Definition numLines : Z := 32768.
Definition size : Z := 64.

Record xstate := mkX {
  data_array_orig : Z -> Z;
  data_array : Z -> Z;
  data_array_sub : Z -> Z;
  data_array_perf : Z -> Z;
  index_ref : Z -> Z;
  index_ref_perf : Z -> Z;
  sizes : Z * Z -> Z;
  occupied : Z * Z -> Z;
  initialized : Z * Z -> Z;
  uncompress_size : Z
}.

Definition set_data_array_orig d x := mkX d (data_array x) (data_array_sub x)
  (data_array_perf x) (index_ref x) (index_ref_perf x) (sizes x) (occupied x)
  (initialized x) (uncompress_size x).
Definition set_data_array d x := mkX (data_array_orig x) d (data_array_sub x)
  (data_array_perf x) (index_ref x) (index_ref_perf x) (sizes x) (occupied x)
  (initialized x) (uncompress_size x).
Definition set_data_array_perf d x := mkX (data_array_orig x) (data_array x)
  (data_array_sub x) d (index_ref x) (index_ref_perf x) (sizes x) (occupied x)
  (initialized x) (uncompress_size x).
Definition set_index_ref r x := mkX (data_array_orig x) (data_array x)
  (data_array_sub x) (data_array_perf x) r (index_ref_perf x) (sizes x) (occupied x)
  (initialized x) (uncompress_size x).
Definition set_index_ref_perf r x := mkX (data_array_orig x) (data_array x)
  (data_array_sub x) (data_array_perf x) (index_ref x) r (sizes x) (occupied x)
  (initialized x) (uncompress_size x).
Definition set_sizes s x := mkX (data_array_orig x) (data_array x)
  (data_array_sub x) (data_array_perf x) (index_ref x) (index_ref_perf x) s (occupied x)
  (initialized x) (uncompress_size x).
Definition set_occupied o x := mkX (data_array_orig x) (data_array x)
  (data_array_sub x) (data_array_perf x) (index_ref x) (index_ref_perf x) (sizes x) o
  (initialized x) (uncompress_size x).
Definition set_initialized i x := mkX (data_array_orig x) (data_array x)
  (data_array_sub x) (data_array_perf x) (index_ref x) (index_ref_perf x) (sizes x)
  (occupied x) i (uncompress_size x).
Definition set_uncompress_size u x := mkX (data_array_orig x) (data_array x)
  (data_array_sub x) (data_array_perf x) (index_ref x) (index_ref_perf x) (sizes x)
  (occupied x) (initialized x) u.

(** [for (i = 0; i < size; i++) arr[base * size + i] = line.Byte[i]]. *)
Definition store_line (arr : Z -> Z) (base : Z) (l : line) : Z -> Z :=
  fold_left (fun arr i => <[base * size + Z.of_nat i := l !!! i]> arr) (seq 0 64) arr.

(** The same loop writing two entries in each iteration. *)
Definition store_line2 (arr : Z -> Z) (b1 b2 : Z) (l : line) : Z -> Z :=
  fold_left (fun arr i => <[b2 * size + Z.of_nat i := l !!! i]>
                          (<[b1 * size + Z.of_nat i := l !!! i]> arr)) (seq 0 64) arr.

(** The four readers: byte [k] of the result is byte [63 - k] of the entry. *)
Definition read_line (arr : Z -> Z) (index : Z) : line :=
  (fun k => arr (index * size + (63 - Z.of_nat k))) <$> seq 0 64.

Definition cTol_orig (x : xstate) (index : Z) : line := read_line (data_array_orig x) index.
Definition cTol (x : xstate) (index : Z) : line := read_line (data_array x) index.
Definition cTol_perf (x : xstate) (index : Z) : line := read_line (data_array_perf x) index.
Definition cTol_sub (x : xstate) (index : Z) : line := read_line (data_array_sub x) index.

Definition LongToLine (l : line) (tag : Z) (x : xstate) : xstate :=
  let x := set_sizes (<[(tag, 0) := countLine l]> (sizes x)) x in
  set_data_array_orig (store_line (data_array_orig x) tag l) x.

(** The [while] loop of [compare]: [n] entries from [index] on are left; the
    first usable entry whose XOR with the line is smaller ends it. *)
Fixpoint compare_search (x : xstate) (l : line) (tag : Z) (n : nat) (index : Z) : option Z :=
  match n with
  | O => None
  | S n =>
      if (initialized x (index, 0) =? 0) || negb (occupied x (index, 0) =? 0) then
        compare_search x l tag n (index + 1)
      else
        let cmp := cTol_orig x index in
        if (countLine (xxor cmp l) <? countLine l) && negb (index =? tag)
           && (occupied x (index, 0) =? 0)
        then Some index
        else compare_search x l tag n (index + 1)
  end.

Definition compare (l : line) (tag : Z) (x : xstate) : line * xstate :=
  let '(min, ret) :=
    match compare_search x l tag (Z.to_nat numLines) 0 with
    | Some index => (xxor (cTol_orig x index) l, index)
    | None => (l, tag)
    end in
  let '(ret, x) :=
    if initialized x (ret, 0) =? 0 then
      let x := set_uncompress_size (i32 (uncompress_size x + 256)) x in
      (tag, set_initialized (<[(tag, 0) := 1]> (initialized x)) x)
    else
      let x := set_index_ref (<[tag := ret]> (<[ret := tag]> (index_ref x))) x in
      (ret, set_occupied (<[(tag, 0) := 1]> (<[(ret, 0) := 1]> (occupied x))) x) in
  let x := LongToLine l tag x in
  let x := set_sizes (<[(ret, 1) := countLine min]> (sizes x)) x in
  (min, set_data_array (store_line2 (data_array x) ret tag min) x).

(** The loop of [compare_perfect] keeps going and remembers the best pair. *)
Fixpoint perfect_search (x : xstate) (l : line) (tag : Z) (n : nat) (index : Z)
    (min : line) (ret : Z) : line * Z :=
  match n with
  | O => (min, ret)
  | S n =>
      if (initialized x (index, 2) =? 0) || negb (occupied x (index, 2) =? 0) then
        perfect_search x l tag n (index + 1) min ret
      else
        let cmp := cTol_orig x index in
        if (countLine (xxor cmp l) <? countLine min) && negb (index =? tag)
           && (occupied x (index, 2) =? 0)
        then perfect_search x l tag n (index + 1) (xxor cmp l) index
        else perfect_search x l tag n (index + 1) min ret
  end.

Definition compare_perfect (l : line) (tag : Z) (x : xstate) : line * xstate :=
  let '(min, ret) := perfect_search x l tag (Z.to_nat numLines) 0 l tag in
  let '(ret, x) :=
    if initialized x (ret, 2) =? 0 then
      let x := set_uncompress_size (i32 (uncompress_size x + 256)) x in
      (tag, set_initialized (<[(tag, 2) := 1]> (initialized x)) x)
    else
      let x := set_index_ref_perf (<[tag := ret]> (<[ret := tag]> (index_ref_perf x))) x in
      (ret, set_occupied (<[(tag, 2) := 1]> (<[(ret, 2) := 1]> (occupied x))) x) in
  (min, set_data_array_perf (store_line (data_array_perf x) ret min) x).

(** The two whole-cache measurements return the numerator and the denominator of
    the ratio the source divides as doubles. *)
Definition best_length (x : xstate) (i : Z) (n : nat) : Z :=
  let l := cTol_orig x i in
  fold_left (fun length j =>
    let w := countLine (xxor (cTol_orig x j) l) in
    if negb (i =? j) && (w <? length) then w else length)
    (seqZ 0 (Z.of_nat n)) (countLine l).

Definition best_compression_rate (x : xstate) : Z * Z :=
  fold_left (fun '(ret, orig) i =>
    if initialized x (i, 0) =? 1 then
      (ret + best_length x i (Z.to_nat numLines), orig + countLine (cTol_orig x i))
    else (ret, orig)) (seqZ 0 numLines) (0, 0).

Definition best_possible_rate (x : xstate) : Z * Z :=
  fold_left (fun '(ret, orig) i =>
    if initialized x (i, 0) =? 1 then
      (ret + countLine (cTol_perf x i), orig + countLine (cTol_orig x i))
    else (ret, orig)) (seqZ 0 numLines) (0, 0).

(** ** Counters of compressor.cpp *)

Record rates := mkRates {
  orig_size : Z; xor_size : Z; xor_size_perf : Z;
  orig_size_bdi : Z; xor_size_bdi : Z; xor_size_bdi_perf : Z;
  flip_orig_size : Z; flip_xor_size : Z; flip_xor_size_perf : Z;
  flip_orig_size_bdi : Z; flip_xor_size_bdi : Z; flip_xor_size_bdi_perf : Z
}.

Definition calcRate (alloc comp orig_flip flip : Z) (r : rates) : rates :=
  mkRates (orig_size r) (xor_size r) (xor_size_perf r)
    (i32 (orig_size_bdi r + alloc)) (i32 (xor_size_bdi r + comp)) (xor_size_bdi_perf r)
    (flip_orig_size r) (flip_xor_size r) (flip_xor_size_perf r)
    (i32 (flip_orig_size_bdi r + orig_flip)) (i32 (flip_xor_size_bdi r + flip))
    (flip_xor_size_bdi_perf r).

Definition calcRatePerf (alloc comp orig_flip flip : Z) (r : rates) : rates :=
  mkRates (orig_size r) (xor_size r) (xor_size_perf r)
    (orig_size_bdi r) (xor_size_bdi r) (i32 (xor_size_bdi_perf r + comp))
    (flip_orig_size r) (flip_xor_size r) (flip_xor_size_perf r)
    (flip_orig_size_bdi r) (flip_xor_size_bdi r) (i32 (flip_xor_size_bdi_perf r + flip)).

Definition calcRate_raw (alloc comp orig_flip flip : Z) (r : rates) : rates :=
  mkRates (i32 (orig_size r + alloc)) (i32 (xor_size r + comp)) (xor_size_perf r)
    (orig_size_bdi r) (xor_size_bdi r) (xor_size_bdi_perf r)
    (i32 (flip_orig_size r + orig_flip)) (i32 (flip_xor_size r + flip)) (flip_xor_size_perf r)
    (flip_orig_size_bdi r) (flip_xor_size_bdi r) (flip_xor_size_bdi_perf r).

Definition calcRatePerf_raw (alloc comp orig_flip flip : Z) (r : rates) : rates :=
  mkRates (orig_size r) (xor_size r) (i32 (xor_size_perf r + comp))
    (orig_size_bdi r) (xor_size_bdi r) (xor_size_bdi_perf r)
    (flip_orig_size r) (flip_xor_size r) (i32 (flip_xor_size_perf r + flip))
    (flip_orig_size_bdi r) (flip_xor_size_bdi r) (flip_xor_size_bdi_perf r).

(** ** The compression part of the cache array's insertions

    [keep_pair] and [dereference] are the two branches the insertion code takes
    for a candidate that already has a partner. [bookkeeping] is the statistics
    code they open with; in the second one the partner's own size is added. *)
Record xor_world := mkW { xs : xstate; rt : rates }.

Definition keep_pair (line_orig : line) (candidate : Z) (w : xor_world) : line * xor_world :=
  let x := xs w in
  let ref := index_ref x candidate in
  let reference := cTol_orig x ref in
  let old_val := cTol_orig x candidate in
  let old_val_xor := xxor (cTol_orig x candidate) reference in
  let r := calcRate_raw (- countLine old_val) (countLine old_val_xor)
             (countFlip old_val) (countFlip old_val_xor) (rt w) in
  let old_val_xor := compress old_val_xor in
  let old_val := compress old_val in
  let r := calcRate (- countLine old_val) (countLine old_val_xor)
             (countFlip old_val) (countFlip old_val_xor) r in
  let l := xxor reference line_orig in
  let x := LongToLine line_orig candidate x in
  (l, mkW (set_data_array (store_line2 (data_array x) candidate ref l) x) r).

Definition dereference (line_orig : line) (candidate : Z) (w : xor_world) : line * xor_world :=
  let x := xs w in
  let ref := index_ref x candidate in
  let reference := cTol_orig x ref in
  let old_val := cTol_orig x candidate in
  let old_val_xor := xxor (cTol_orig x candidate) reference in
  let r := calcRate_raw (- countLine old_val) (countLine old_val_xor + countLine reference)
             (countFlip old_val) (countFlip old_val_xor + countFlip reference) (rt w) in
  let old_val_xor := compress old_val_xor in
  let old_val := compress old_val in
  let reference := compress reference in
  let r := calcRate (- countLine old_val) (countLine old_val_xor + countLine reference)
             (countFlip old_val) (countFlip old_val_xor + countFlip reference) r in
  let x := set_occupied (<[(ref, 1) := 0]> (<[(candidate, 1) := 0]> (occupied x))) x in
  let '(l, x) := compare line_orig candidate x in
  (l, mkW x r).

(** [SetAssocArray::postinsert] between [rp->replaced] and the tag update; [l1]
    is the global set by Cache::access. *)
Definition postinsert_xor (l1 : Z) (candidate : Z) (w : xor_world) : xor_world :=
  let line_orig := zero_line in
  if l1 =? 1 then
    let ref := index_ref (xs w) candidate in
    if negb (ref =? 0) then
      let reference := cTol_orig (xs w) ref in
      if countLine (xxor reference line_orig) >? countLine line_orig
      then snd (keep_pair line_orig candidate w)
      else snd (dereference line_orig candidate w)
    else w
  else w.

(** The "optimal candidate" block: undo the best pairing of the candidate. *)
Definition undo_perfect (candidate : Z) (w : xor_world) : xor_world :=
  let x := xs w in
  if negb (initialized x (candidate, 2) =? 0) && negb (occupied x (candidate, 2) =? 0) then
    let line_perf := cTol_orig x candidate in
    let ref := index_ref_perf x candidate in
    let line_perf_xor := cTol_orig x ref in
    let recover := xxor line_perf line_perf_xor in
    let r := calcRatePerf_raw 0 (- countLine recover) 0 (- countFlip recover) (rt w) in
    let recover_comp := compress recover in
    let r := calcRatePerf_raw 0 (- countLine recover_comp) 0 (- countFlip recover_comp) r in
    let r := calcRatePerf_raw 0 (countLine line_perf_xor) 0 (countFlip line_perf_xor) r in
    let line_perf_xor := compress line_perf_xor in
    let r := calcRatePerf_raw 0 (countLine line_perf_xor) 0 (countFlip line_perf_xor) r in
    let x := set_data_array_perf (store_line (data_array_perf x) ref recover) x in
    let x := set_occupied (<[(candidate, 2) := 0]> (<[(ref, 2) := 0]> (occupied x))) x in
    mkW (set_initialized (<[(candidate, 2) := 0]> (initialized x)) x) r
  else w.

(** The line read from the simulated program's memory: [mem] gives the byte at
    an address. *)
Definition memory_line (mem : Z -> Z) (lineAddr : Z) : line :=
  (fun i => mem (u64 (Z.shiftl lineAddr 6) + Z.of_nat i)) <$> seq 0 64.

(** [SetAssocArray::postinsertL2] after the tag update. *)
Definition postinsertL2_xor (mem : Z -> Z) (lineAddr candidate : Z) (w : xor_world) : xor_world :=
  let line_orig := memory_line mem lineAddr in
  let w := mkW (set_sizes (<[(candidate, 0) := countLine line_orig]> (sizes (xs w))) (xs w)) (rt w) in
  let ref := index_ref (xs w) candidate in
  let '(l, w) :=
    if negb (ref =? 0) then
      let reference := cTol_orig (xs w) ref in
      if countLine (xxor reference line_orig) >? countLine line_orig
      then keep_pair line_orig candidate w
      else dereference line_orig candidate w
    else
      let reference := cTol_orig (xs w) ref in
      let '(l, x) := compare line_orig candidate (xs w) in
      let r := calcRate_raw 0 (- countLine reference) 0 (- countFlip reference) (rt w) in
      let reference := compress reference in
      (l, mkW x (calcRate 0 (- countLine reference) 0 (- countFlip reference) r)) in
  let w := undo_perfect candidate w in
  let '(line_perf, x) := compare_perfect line_orig candidate (xs w) in
  let r := calcRate_raw (countLine line_orig) (countLine l) (countFlip line_orig) (countFlip l) (rt w) in
  let r := calcRatePerf_raw (countLine line_orig) (countLine line_perf)
             (countFlip line_orig) (countFlip line_perf) r in
  let l := compress l in
  let line_perf := compress line_perf in
  let line_orig := compress line_orig in
  let r := calcRate (countLine line_orig) (countLine l) (countFlip line_orig) (countFlip l) r in
  let r := calcRatePerf (countLine line_orig) (countLine line_perf)
             (countFlip line_orig) (countFlip line_perf) r in
  mkW x r.

(** ** Entries of the byte arrays *)

Lemma store_writes (arr : Z -> Z) base (l : line) n a :
  fold_left (fun arr i => <[base * size + Z.of_nat i := l !!! i]> arr) (seq 0 n) arr a =
  if bool_decide (0 <= a - base * size < Z.of_nat n) then l !!! Z.to_nat (a - base * size)
  else arr a.
Proof.
  unfold size. induction n as [|n IH].
  - cbn. by rewrite bool_decide_eq_false_2 by lia.
  - rewrite seq_S, fold_left_app. cbn [fold_left Nat.add].
    destruct (decide (a = base * 64 + Z.of_nat n)) as [->|Hne].
    + rewrite fn_lookup_insert, bool_decide_eq_true_2 by lia. f_equal. lia.
    + rewrite fn_lookup_insert_ne by done. rewrite IH.
      repeat case_bool_decide; first [done|lia].
Qed.

Lemma store_line_spec arr base l a :
  store_line arr base l a =
  if bool_decide (0 <= a - base * size < 64) then l !!! Z.to_nat (a - base * size) else arr a.
Proof. apply store_writes. Qed.

Lemma store_writes2 (arr : Z -> Z) b1 b2 (l : line) n a :
  (n <= 64)%nat ->
  fold_left (fun arr i => <[b2 * size + Z.of_nat i := l !!! i]>
    (<[b1 * size + Z.of_nat i := l !!! i]> arr)) (seq 0 n) arr a =
  if bool_decide (0 <= a - b2 * size < Z.of_nat n) then l !!! Z.to_nat (a - b2 * size)
  else if bool_decide (0 <= a - b1 * size < Z.of_nat n) then l !!! Z.to_nat (a - b1 * size)
  else arr a.
Proof.
  unfold size. induction n as [|n IH]; intros Hn.
  - cbn. by rewrite !bool_decide_eq_false_2 by lia.
  - rewrite seq_S, fold_left_app. cbn [fold_left Nat.add].
    destruct (decide (a = b2 * 64 + Z.of_nat n)) as [->|Hne2];
      [rewrite fn_lookup_insert|rewrite fn_lookup_insert_ne by done].
    + rewrite bool_decide_eq_true_2 by lia. f_equal. lia.
    + destruct (decide (a = b1 * 64 + Z.of_nat n)) as [->|Hne1];
        [rewrite fn_lookup_insert|rewrite fn_lookup_insert_ne by done].
      * rewrite bool_decide_eq_false_2, bool_decide_eq_true_2 by lia. f_equal. lia.
      * rewrite IH by lia. repeat case_bool_decide; first [done|lia].
Qed.

Lemma store_line2_spec arr b1 b2 l a :
  store_line2 arr b1 b2 l a =
  if bool_decide (0 <= a - b2 * size < 64) then l !!! Z.to_nat (a - b2 * size)
  else if bool_decide (0 <= a - b1 * size < 64) then l !!! Z.to_nat (a - b1 * size)
  else arr a.
Proof. apply store_writes2. lia. Qed.

(** The stored bytes of an entry, in storage order. *)
Definition raw_line (arr : Z -> Z) (index : Z) : line :=
  (fun k => arr (index * size + Z.of_nat k)) <$> seq 0 64.

Lemma raw_line_length arr i : length (raw_line arr i) = 64%nat.
Proof. unfold raw_line. by rewrite length_fmap, length_seq. Qed.

Lemma raw_line_at arr i k : (k < 64)%nat -> raw_line arr i !!! k = arr (i * size + Z.of_nat k).
Proof.
  intros Hk. apply list_lookup_total_correct. unfold raw_line.
  by rewrite list_lookup_fmap, lookup_seq_lt by done.
Qed.

Lemma list64_eq (f : nat -> Z) (l : line) :
  length l = 64%nat -> (forall k, (k < 64)%nat -> f k = l !!! k) -> f <$> seq 0 64 = l.
Proof.
  intros HL Hf. apply list_eq. intros k. rewrite list_lookup_fmap.
  destruct (decide (k < 64)%nat).
  - rewrite lookup_seq_lt by done. cbn. rewrite Hf by done.
    by rewrite list_lookup_lookup_total_lt by lia.
  - rewrite lookup_seq_ge, (lookup_ge_None_2 l) by lia. done.
Qed.

Lemma read_line_reverse arr i : read_line arr i = reverse (raw_line arr i).
Proof.
  apply list64_eq; [by rewrite length_reverse, raw_line_length|].
  intros k Hk. unfold raw_line.
  apply (inj Some). rewrite <- list_lookup_lookup_total_lt
    by (rewrite length_reverse, length_fmap, length_seq; lia).
  rewrite reverse_lookup by (rewrite length_fmap, length_seq; lia).
  rewrite length_fmap, length_seq, list_lookup_fmap, lookup_seq_lt by lia.
  cbn. do 2 f_equal. lia.
Qed.

Lemma raw_line_store arr i l : length l = 64%nat -> raw_line (store_line arr i l) i = l.
Proof.
  intros HL. apply list64_eq; [done|]. intros k Hk.
  rewrite store_line_spec, bool_decide_eq_true_2 by lia. f_equal. lia.
Qed.

Lemma raw_line_store_ne arr i j l : i <> j -> raw_line (store_line arr i l) j = raw_line arr j.
Proof.
  intros Hne. apply list64_eq; [apply raw_line_length|]. intros k Hk.
  rewrite store_line_spec, bool_decide_eq_false_2 by (unfold size; lia).
  by rewrite raw_line_at by done.
Qed.

Lemma raw_line_store2 arr i j l :
  length l = 64%nat ->
  raw_line (store_line2 arr i j l) i = l /\ raw_line (store_line2 arr i j l) j = l.
Proof.
  intros HL. split; apply list64_eq; try done; intros k Hk;
    rewrite store_line2_spec; unfold size; repeat case_bool_decide; try lia; f_equal; lia.
Qed.

(** ** The searches *)

(** [index] can be the partner of [l] at [tag], in slot [slot] (0 for [compare],
    2 for [compare_perfect]), improving on a size of [best]. *)
Record usable (x : xstate) (slot : Z) (l : line) (tag best index : Z) : Prop := {
  us_init : initialized x (index, slot) <> 0;
  us_free : occupied x (index, slot) = 0;
  us_other : index <> tag;
  us_small : countLine (xxor (cTol_orig x index) l) < best
}.

Lemma usable_dec x slot l tag best index :
  (if (initialized x (index, slot) =? 0) || negb (occupied x (index, slot) =? 0) then false
   else (countLine (xxor (cTol_orig x index) l) <? best) && negb (index =? tag)
        && (occupied x (index, slot) =? 0)) = true <-> usable x slot l tag best index.
Proof.
  split.
  - intros H. case_match; [done|]. split; lia.
  - intros [H1 H2 H3 H4].
    replace ((initialized x (index, slot) =? 0) || negb (occupied x (index, slot) =? 0))
      with false by lia. lia.
Qed.

Lemma compare_search_spec x l tag n i :
  match compare_search x l tag n i with
  | Some p => i <= p < i + Z.of_nat n /\ usable x 0 l tag (countLine l) p /\
              forall q, i <= q < p -> ~ usable x 0 l tag (countLine l) q
  | None => forall q, i <= q < i + Z.of_nat n -> ~ usable x 0 l tag (countLine l) q
  end.
Proof.
  revert i; induction n as [|n IH]; intros i; cbn [compare_search]; [intros; lia|].
  pose proof (usable_dec x 0 l tag (countLine l) i) as Hd. specialize (IH (i + 1)).
  assert (Hskip : ~ usable x 0 l tag (countLine l) i ->
    match compare_search x l tag n (i + 1) with
    | Some p => i <= p < i + Z.of_nat (S n) /\ usable x 0 l tag (countLine l) p /\
              forall q, i <= q < p -> ~ usable x 0 l tag (countLine l) q
    | None => forall q, i <= q < i + Z.of_nat (S n) -> ~ usable x 0 l tag (countLine l) q
    end).
  { intros Hn. destruct (compare_search x l tag n (i + 1)) as [p|].
    - destruct IH as (Hr & Hu & Hf). split_and!; [lia|lia|done|]. intros q Hq.
      destruct (decide (q = i)) as [->|]; [done|]. apply Hf; lia.
    - intros q Hq. destruct (decide (q = i)) as [->|]; [done|]. apply IH; lia. }
  destruct ((initialized x (i, 0) =? 0) || negb (occupied x (i, 0) =? 0)).
  - apply Hskip. intros Hu. by apply Hd in Hu.
  - match goal with |- context [if ?b then Some _ else _] => destruct b eqn:Hb end.
    + split_and!; [lia|lia|by apply Hd|]. intros; lia.
    + apply Hskip. intros Hu. by apply Hd in Hu.
Qed.

(** The pair remembered by [perfect_search]: none yet, or the best one so far. *)
Definition best_pair (x : xstate) (l : line) (tag : Z) (min : line) (ret : Z) : Prop :=
  (min = l /\ ret = tag) \/
  (usable x 2 l tag (countLine l) ret /\ min = xxor (cTol_orig x ret) l).

Lemma perfect_search_spec x l tag n i min ret min' ret' :
  perfect_search x l tag n i min ret = (min', ret') ->
  best_pair x l tag min ret ->
  best_pair x l tag min' ret' /\ countLine min' <= countLine min /\
  forall q, i <= q < i + Z.of_nat n -> usable x 2 l tag (countLine l) q ->
    countLine min' <= countLine (xxor (cTol_orig x q) l).
Proof.
  revert i min ret; induction n as [|n IH]; intros i min ret; cbn [perfect_search].
  { intros [= <- <-] Hb. split_and!; [done|lia|lia]. }
  pose proof (usable_dec x 2 l tag (countLine min) i) as Hd.
  assert (Hskip : ~ usable x 2 l tag (countLine min) i ->
    perfect_search x l tag n (i + 1) min ret = (min', ret') ->
    best_pair x l tag min ret ->
    best_pair x l tag min' ret' /\ countLine min' <= countLine min /\
    forall q, i <= q < i + Z.of_nat (S n) -> usable x 2 l tag (countLine l) q ->
      countLine min' <= countLine (xxor (cTol_orig x q) l)).
  { intros Hn Hs Hb. destruct (IH _ _ _ Hs Hb) as (H1 & H2 & H3).
    split_and!; [done|done|]. intros q Hq Hu.
    destruct (decide (q = i)) as [->|]; [|apply H3; [lia|done]].
    destruct (decide (countLine (xxor (cTol_orig x i) l) < countLine min)); [|lia].
    destruct Hn. destruct Hu. by split. }
  destruct ((initialized x (i, 2) =? 0) || negb (occupied x (i, 2) =? 0)).
  { apply Hskip. intros Hu. by apply Hd in Hu. }
  match goal with |- context [if ?b then perfect_search _ _ _ _ _ _ _ else _] =>
    destruct b eqn:Hc end; [|apply Hskip; intros Hu; by apply Hd in Hu].
  clear Hc. pose proof (proj1 Hd eq_refl) as Hc. intros Hs Hb.
  assert (Hmin : countLine min <= countLine l).
  { destruct Hb as [[-> _]|[Hu ->]]; [lia|]. destruct Hu; lia. }
  destruct (IH _ _ _ Hs) as (H1 & H2 & H3).
  { right. split; [|done]. destruct Hc. by split; [..|lia]. }
  pose proof (us_small _ _ _ _ _ _ Hc). split_and!; [done|lia|].
  intros q Hq Hu. destruct (decide (q = i)) as [->|]; [lia|]. apply H3; [lia|done].
Qed.

(** ** Well-formed stores *)

Definition bytes_ok (x : xstate) : Prop := forall a, in_u8 (data_array_orig x a).

Lemma read_line_wf arr i : (forall a, in_u8 (arr a)) -> wf (read_line arr i).
Proof.
  intros H. split; unfold read_line; [by rewrite length_fmap, length_seq|].
  apply Forall_fmap, Forall_forall. intros k _. apply H.
Qed.

(** An entry does not come back the way it was stored: [LongToLine] followed
    by [cTol_orig] returns the line with its 64 bytes in reverse order, for
    every line and entry; other entries are untouched. *)
Theorem cTol_orig_reverses l tag x :
  wf l ->
  cTol_orig (LongToLine l tag x) tag = reverse l /\
  (forall j, j <> tag -> cTol_orig (LongToLine l tag x) j = cTol_orig x j).
Proof.
  intros [HL _]. unfold cTol_orig, LongToLine. cbn [data_array_orig set_data_array_orig set_sizes].
  split.
  - by rewrite read_line_reverse, raw_line_store.
  - intros j Hj. by rewrite !read_line_reverse, raw_line_store_ne by done.
Qed.

Definition empty_xstate : xstate :=
  mkX (fun _ => 0) (fun _ => 0) (fun _ => 0) (fun _ => 0) (fun _ => 0) (fun _ => 0)
      (fun _ => 0) (fun _ => 0) (fun _ => 0) 0.

Lemma cTol_orig_reverses_witness :
  cTol_orig (LongToLine (1 :: replicate 63 0) 5 empty_xstate) 5 = replicate 63 0 ++ [1].
Proof.
  refine (eq_trans (proj1 (cTol_orig_reverses (1 :: replicate 63 0) 5 empty_xstate _)) _).
  - split; [reflexivity|]. apply Forall_cons. split; [done|]. by apply Forall_replicate.
  - vm_compute. reflexivity.
Defined.

Lemma LongToLine_bytes_ok l tag x : wf l -> bytes_ok x -> bytes_ok (LongToLine l tag x).
Proof.
  intros [HL HB] Hx a. unfold LongToLine.
  cbn [data_array_orig set_data_array_orig set_sizes]. rewrite store_line_spec.
  case_bool_decide; [|apply Hx]. rewrite Forall_forall in HB. apply HB.
  apply list_elem_of_lookup. exists (Z.to_nat (a - tag * size)).
  apply list_lookup_lookup_total_lt. lia.
Qed.

(** The state after [compare], by whether a partner was found. *)
Lemma compare_paired l tag x p :
  compare_search x l tag (Z.to_nat numLines) 0 = Some p -> initialized x (p, 0) <> 0 ->
  let min := xxor (cTol_orig x p) l in
  let x1 := set_occupied (<[(tag, 0) := 1]> (<[(p, 0) := 1]> (occupied x)))
              (set_index_ref (<[tag := p]> (<[p := tag]> (index_ref x))) x) in
  let x2 := LongToLine l tag x1 in
  let x3 := set_sizes (<[(p, 1) := countLine min]> (sizes x2)) x2 in
  compare l tag x = (min, set_data_array (store_line2 (data_array x3) p tag min) x3).
Proof.
  intros Hs Hi. unfold compare. rewrite Hs.
  replace (initialized x (p, 0) =? 0) with false by lia. reflexivity.
Qed.

Lemma compare_unpaired l tag x :
  compare_search x l tag (Z.to_nat numLines) 0 = None ->
  exists x1, data_array_orig x1 = data_array_orig x /\ data_array x1 = data_array x /\
    (forall i, occupied x i <> 0 -> occupied x1 i <> 0) /\
    let x2 := LongToLine l tag x1 in
    let x3 := set_sizes (<[(tag, 1) := countLine l]> (sizes x2)) x2 in
    compare l tag x = (l, set_data_array (store_line2 (data_array x3) tag tag l) x3).
Proof.
  intros Hs. unfold compare. rewrite Hs.
  destruct (initialized x (tag, 0) =? 0); eexists; split_and!;
    [| | |reflexivity| | | |reflexivity]; try reflexivity; try done.
  intros i Hi. cbn [occupied set_occupied set_index_ref].
  destruct (decide (i = (tag, 0))) as [->|]; [by rewrite fn_lookup_insert|].
  by rewrite !fn_lookup_insert_ne by done.
Qed.

Lemma search_range x l tag :
  match compare_search x l tag (Z.to_nat numLines) 0 with
  | Some p => 0 <= p < numLines /\ usable x 0 l tag (countLine l) p /\
              forall q, 0 <= q < p -> ~ usable x 0 l tag (countLine l) q
  | None => forall q, 0 <= q < numLines -> ~ usable x 0 l tag (countLine l) q
  end.
Proof.
  pose proof (compare_search_spec x l tag (Z.to_nat numLines) 0) as H.
  assert (HN : Z.of_nat (Z.to_nat numLines) = numLines) by (unfold numLines; lia).
  rewrite HN, Z.add_0_l in H. exact H.
Qed.

(** [compare] is a lossless pairing. It keeps the inserted line in
    [data_array_orig], and either pairs it with the first resident line that is
    free, is not itself and whose XOR with it needs fewer bytes, or finds that
    no line qualifies and stores it as it is. When it pairs, both entries of
    [data_array] hold the XOR, which is strictly smaller than the line, the
    two entries refer to each other and are marked occupied, and XORing the
    stored bytes with the partner gives the line back. *)
Theorem compare_correct l tag x min x' :
  bytes_ok x -> wf l -> compare l tag x = (min, x') ->
  bytes_ok x' /\ raw_line (data_array_orig x') tag = l /\
  ((exists p, 0 <= p < numLines /\ usable x 0 l tag (countLine l) p /\
      (forall q, 0 <= q < p -> ~ usable x 0 l tag (countLine l) q) /\
      countLine min < countLine l /\
      index_ref x' p = tag /\ index_ref x' tag = p /\
      occupied x' (p, 0) = 1 /\ occupied x' (tag, 0) = 1 /\
      raw_line (data_array x') p = min /\ raw_line (data_array x') tag = min /\
      xxor (raw_line (data_array x') tag) (cTol_orig x' p) = l) \/
   ((forall q, 0 <= q < numLines -> ~ usable x 0 l tag (countLine l) q) /\
      min = l /\ raw_line (data_array x') tag = l)).
Proof.
  intros Hx Hl Hc. pose proof (search_range x l tag) as Hs.
  destruct (compare_search x l tag (Z.to_nat numLines) 0) as [p|] eqn:E.
  - destruct Hs as (Hr & Hu & Hf). destruct (Hu) as [Hi Ho Hne Hlt].
    rewrite (compare_paired l tag x p E Hi) in Hc. injection Hc as <- <-.
    assert (Hp : wf (cTol_orig x p)) by (by apply read_line_wf).
    assert (Hm : length (xxor (cTol_orig x p) l) = 64%nat) by (by apply bytewise_wf).
    match goal with |- context [store_line2 ?a p tag _] =>
      destruct (raw_line_store2 a p tag _ Hm) as [R1 R2] end.
    split_and!; [apply LongToLine_bytes_ok; [done|exact Hx]|apply raw_line_store, Hl|].
    left. exists p. cbn [set_data_array set_sizes set_data_array_orig set_occupied set_index_ref
      LongToLine data_array index_ref occupied].
    split_and!; [lia|lia|done|done|done| | | | |exact R1|exact R2|].
    + by rewrite fn_lookup_insert_ne, fn_lookup_insert by congruence.
    + by rewrite fn_lookup_insert.
    + by rewrite fn_lookup_insert_ne, fn_lookup_insert by congruence.
    + by rewrite fn_lookup_insert.
    + assert (Hk : forall d, data_array_orig d = store_line (data_array_orig x) tag l ->
        cTol_orig d p = cTol_orig x p).
      { intros d Hd. unfold cTol_orig. rewrite !read_line_reverse, Hd.
        by rewrite raw_line_store_ne by congruence. }
      rewrite Hk by reflexivity.
      refine (eq_trans (f_equal (fun r => xxor r (cTol_orig x p)) R2) _).
      rewrite (xxor_comm (cTol_orig x p) l). by apply xxor_cancel.
  - destruct (compare_unpaired l tag x E) as (x1 & H1 & H2 & _ & Heq).
    cbv zeta in Heq. rewrite Heq in Hc. injection Hc as <- <-.
    match goal with |- context [store_line2 ?a tag tag _] =>
      destruct (raw_line_store2 a tag tag l (wf_length _ Hl)) as [R1 R2] end.
    split_and!; [|apply raw_line_store, Hl|right; by split_and!].
    apply LongToLine_bytes_ok; [done|]. intros a. rewrite H1. apply Hx.
Qed.

Lemma empty_bytes_ok : bytes_ok empty_xstate.
Proof. intros a. cbn. unfold in_u8; lia. Qed.

Lemma compare_correct_witness :
  let A := replicate 64 0x11 in
  exists min x', compare A 5 (snd (compare A 3 empty_xstate)) = (min, x') /\
    countLine A = 40 /\ countLine min = 0 /\ raw_line (data_array_orig x') 5 = A.
Proof.
  intros A. assert (HA : wf A) by (apply wf_replicate; unfold in_u8; lia).
  pose proof (proj1 (compare_correct A 3 empty_xstate _ _ empty_bytes_ok HA
                       (surjective_pairing _))) as H0.
  exists (fst (compare A 5 (snd (compare A 3 empty_xstate)))),
         (snd (compare A 5 (snd (compare A 3 empty_xstate)))).
  split_and!; [apply surjective_pairing|reflexivity|vm_compute; reflexivity|].
  apply (compare_correct A 5 _ _ _ H0 HA (surjective_pairing _)).
Defined.

(** [compare_perfect] scans the whole store and keeps a best partner: the
    line it returns is no larger than the inserted one nor than the XOR with any
    free resident line, and it is either the line itself or its XOR with one of
    those. *)
Theorem compare_perfect_optimal l tag x min x' :
  compare_perfect l tag x = (min, x') ->
  countLine min <= countLine l /\
  (forall q, 0 <= q < numLines -> usable x 2 l tag (countLine l) q ->
     countLine min <= countLine (xxor (cTol_orig x q) l)) /\
  (min = l \/ exists p, usable x 2 l tag (countLine l) p /\ min = xxor (cTol_orig x p) l /\
     index_ref_perf x' p = tag /\ index_ref_perf x' tag = p /\
     occupied x' (p, 2) = 1 /\ occupied x' (tag, 2) = 1).
Proof.
  unfold compare_perfect.
  assert (HN : Z.of_nat (Z.to_nat numLines) = numLines) by (unfold numLines; lia).
  revert HN. generalize (Z.to_nat numLines) as k. intros k HN.
  destruct (perfect_search x l tag k 0 l tag) as [m r] eqn:E.
  destruct (perfect_search_spec _ _ _ _ _ _ _ _ _ E) as (Hb & Hle & Hall); [by left|].
  rewrite HN, Z.add_0_l in Hall. intros Hc.
  assert (Hm : m = min).
  { destruct (initialized x (r, 2) =? 0); by injection Hc. }
  subst m. split_and!; [done|done|]. destruct Hb as [[-> _]|[Hu ->]]; [by left|].
  right. exists r. destruct (Hu) as [Hi Ho Hne _].
  replace (initialized x (r, 2) =? 0) with false in Hc by lia. injection Hc as <-.
  cbn. split_and!; [done|done| | | |].
  - by rewrite fn_lookup_insert_ne, fn_lookup_insert by congruence.
  - by rewrite fn_lookup_insert.
  - by rewrite fn_lookup_insert_ne, fn_lookup_insert by congruence.
  - by rewrite fn_lookup_insert.
Qed.

Lemma compare_perfect_optimal_witness :
  exists min x', compare_perfect (replicate 64 3) 1 empty_xstate = (min, x') /\
    countLine min <= countLine (replicate 64 3).
Proof.
  destruct (compare_perfect (replicate 64 3) 1 empty_xstate) as [min x'] eqn:E.
  exists min, x'. split; [reflexivity|].
  apply (compare_perfect_optimal (replicate 64 3) 1 empty_xstate min x' E).
Defined.

(** ** Slot 0 of [occupied] is never released *)

Lemma compare_occupied l tag x i :
  occupied x i <> 0 -> occupied (snd (compare l tag x)) i <> 0.
Proof.
  intros Hi. pose proof (search_range x l tag) as Hs.
  destruct (compare_search x l tag (Z.to_nat numLines) 0) as [p|] eqn:E.
  - destruct Hs as (_ & [Hinit _ _ _] & _). rewrite (compare_paired l tag x p E Hinit).
    cbn [snd occupied set_data_array set_sizes set_data_array_orig set_occupied LongToLine].
    destruct (decide (i = (tag, 0))) as [->|]; [by rewrite fn_lookup_insert|].
    rewrite fn_lookup_insert_ne by done.
    destruct (decide (i = (p, 0))) as [->|]; [by rewrite fn_lookup_insert|].
    by rewrite fn_lookup_insert_ne.
  - destruct (compare_unpaired l tag x E) as (x1 & _ & _ & Ho & Heq).
    cbv zeta in Heq. rewrite Heq. by apply Ho.
Qed.

Lemma compare_perfect_occupied l tag x i :
  occupied x (i, 0) <> 0 -> occupied (snd (compare_perfect l tag x)) (i, 0) <> 0.
Proof.
  intros Hi. unfold compare_perfect.
  destruct (perfect_search x l tag (Z.to_nat numLines) 0 l tag) as [m r].
  destruct (initialized x (r, 2) =? 0); cbn; [done|].
  by rewrite !fn_lookup_insert_ne by congruence.
Qed.

Lemma branch_occupied lo c w i :
  occupied (xs w) (i, 0) <> 0 ->
  occupied (xs (snd (keep_pair lo c w))) (i, 0) <> 0 /\
  occupied (xs (snd (dereference lo c w))) (i, 0) <> 0.
Proof.
  intros Hi. split; [done|]. unfold dereference.
  match goal with |- context [compare lo c ?x] =>
    pose proof (compare_occupied lo c x (i, 0)) as H; destruct (compare lo c x) as [l' x'] end.
  cbn [snd xs] in *. apply H. cbn. by rewrite !fn_lookup_insert_ne by congruence.
Qed.

Lemma undo_perfect_occupied c w i :
  occupied (xs w) (i, 0) <> 0 -> occupied (xs (undo_perfect c w)) (i, 0) <> 0.
Proof.
  intros Hi. unfold undo_perfect. case_match; [|done]. cbn.
  by rewrite !fn_lookup_insert_ne by congruence.
Qed.

(** One insertion into any cache: the L2 one reads the line from memory. *)
Inductive insertion :=
  | InsertL1 (l1 candidate : Z)
  | InsertL2 (mem : Z -> Z) (lineAddr candidate : Z).

Definition run_insertion (w : xor_world) (o : insertion) : xor_world :=
  match o with
  | InsertL1 l1 c => postinsert_xor l1 c w
  | InsertL2 mem a c => postinsertL2_xor mem a c w
  end.

Lemma run_insertion_occupied w o i :
  occupied (xs w) (i, 0) <> 0 -> occupied (xs (run_insertion w o)) (i, 0) <> 0.
Proof.
  intros Hi. destruct o as [l1 c|mem a c]; cbn [run_insertion].
  - unfold postinsert_xor. repeat case_match; try done; by apply branch_occupied.
  - unfold postinsertL2_xor. set (lo := memory_line mem a).
    set (w0 := mkW (set_sizes _ (xs w)) (rt w)).
    assert (H0 : occupied (xs w0) (i, 0) <> 0) by done.
    match goal with |- context [if negb ?b then ?p else ?q] =>
      assert (H1 : occupied (xs (snd (if negb b then p else q))) (i, 0) <> 0);
        [|destruct (if negb b then p else q) as [l1 w1]] end.
    { destruct (negb _); [case_match; by apply branch_occupied|].
      pose proof (compare_occupied lo c (xs w0) (i, 0) H0) as H.
      by destruct (compare lo c (xs w0)). }
    cbn [snd] in H1. apply (undo_perfect_occupied c) in H1.
    apply (compare_perfect_occupied lo c) in H1.
    by destruct (compare_perfect lo c (xs (undo_perfect c w1))).
Qed.

(** Pairing is never undone. "Dereferencing" a line clears slot 1 of
    [occupied], but [compare] marks and tests slot 0: after any sequence of
    insertions into any cache, every entry once marked occupied in slot 0 still
    is, so it can never be chosen as a partner again. *)
Theorem occupied_never_released w ops i :
  occupied (xs w) (i, 0) <> 0 ->
  occupied (xs (fold_left run_insertion ops w)) (i, 0) <> 0 /\
  (forall l tag best, ~ usable (xs (fold_left run_insertion ops w)) 0 l tag best i).
Proof.
  intros Hi. assert (H : occupied (xs (fold_left run_insertion ops w)) (i, 0) <> 0).
  { revert w Hi. induction ops as [|o ops IH]; intros w Hi; [done|].
    apply IH. by apply run_insertion_occupied. }
  split; [done|]. intros l tag best [_ Hf _ _]. done.
Qed.

Definition zero_rates : rates := mkRates 0 0 0 0 0 0 0 0 0 0 0 0.

Lemma occupied_never_released_witness :
  let x := set_occupied (<[(4, 0) := 1]> (<[(7, 0) := 1]> (fun _ => 0)))
             (set_index_ref (<[4 := 7]> (<[7 := 4]> (fun _ => 0))) empty_xstate) in
  occupied (xs (fold_left run_insertion [InsertL1 1 7; InsertL1 1 4] (mkW x zero_rates))) (4, 0) <> 0.
Proof.
  intros x. apply (occupied_never_released (mkW x zero_rates) [InsertL1 1 7; InsertL1 1 4] 4).
  cbn. discriminate.
Defined.

(** The test that decides whether an evicted candidate keeps its pairing is
    inverted. In L2 the pairing is kept exactly when the XOR of the new line
    with the partner is larger than the line; then the bytes stored for the
    candidate need more space than the line itself. *)
Theorem kept_pair_is_larger mem a c w :
  let lo := memory_line mem a in
  let w0 := mkW (set_sizes (<[(c, 0) := countLine lo]> (sizes (xs w))) (xs w)) (rt w) in
  let ref := index_ref (xs w) c in
  bytes_ok (xs w) -> (forall i, in_u8 (mem i)) -> ref <> c ->
  countLine (xxor (cTol_orig (xs w) ref) lo) > countLine lo ->
  let '(l, w1) := keep_pair lo c w0 in
  countLine (raw_line (data_array (xs w1)) c) > countLine (raw_line (data_array_orig (xs w1)) c).
Proof.
  intros lo w0 ref Hb Hmem Hne Hgt.
  assert (Hlo : wf lo).
  { split; unfold lo, memory_line; [by rewrite length_fmap, length_seq|].
    apply Forall_fmap, Forall_forall. intros k _. apply Hmem. }
  assert (Hm : length (xxor (cTol_orig (xs w) ref) lo) = 64%nat).
  { apply bytewise_wf; [by apply read_line_wf|done]. }
  unfold keep_pair. cbn [xs data_array data_array_orig set_data_array LongToLine set_data_array_orig set_sizes].
  match goal with |- context [store_line2 ?d c ?r _] =>
    destruct (raw_line_store2 d c r _ Hm) as [R1 _] end.
  unfold ref in *. cbn [w0 xs index_ref set_sizes] in *.
  rewrite raw_line_store by apply Hlo. unfold size in *.
  refine (Z.lt_gt _ _ (Z.lt_le_trans _ _ _ (Z.gt_lt _ _ Hgt) _)).
  apply Z.eq_le_incl. symmetry. exact (f_equal countLine R1).
Qed.

(** Candidate 7 is paired with 4, the store holds 0x01 everywhere, and the new
    line is all zeroes: the 41-byte XOR is kept for the 0-byte line. *)
Lemma kept_pair_is_larger_witness :
  let x := set_data_array_orig (fun _ => 1) (set_index_ref (<[7 := 4]> (fun _ => 0)) empty_xstate) in
  let lo := memory_line (fun _ => 0) 9 in
  let '(_, w1) := keep_pair lo 7
    (mkW (set_sizes (<[(7, 0) := countLine lo]> (sizes x)) x) zero_rates) in
  countLine (raw_line (data_array (xs w1)) 7) > countLine (raw_line (data_array_orig (xs w1)) 7).
Proof.
  intros x lo.
  apply (kept_pair_is_larger (fun _ => 0) 9 7 (mkW x zero_rates)).
  - intros a. cbn. unfold in_u8; lia.
  - intros i. unfold in_u8; lia.
  - vm_compute. discriminate.
  - vm_compute. reflexivity.
Defined.

End XorStore.
