(* ===== verification/MemHier.v ===== *)
(** Requests, coherence states and the interface of memory objects
    (memory_hierarchy.h, memory_hierarchy.cpp), and the fixed-latency memory
    controller (mem_ctrls.cpp). *)
From stdpp Require Import strings.
From S2P Require Import Prelude.

Module MemHier.

Notation Address := Z (only parsing).

Inductive AccessType :=
  | GETS
  | GETX
  | PUTS
  | PUTX.

Inductive InvType :=
  | INV
  | INVX
  | FWD.

Inductive MESIState :=
  | I
  | S
  | E
  | M.

#[export] Instance AccessType_eq_dec : EqDecision AccessType.
Proof. solve_decision. Defined.
#[export] Instance InvType_eq_dec : EqDecision InvType.
Proof. solve_decision. Defined.
#[export] Instance MESIState_eq_dec : EqDecision MESIState.
Proof. solve_decision. Defined.

(** The value an enumerator has in C++. *)
Definition access_code (t : AccessType) : nat :=
  match t with GETS => 0 | GETX => 1 | PUTS => 2 | PUTX => 3 end.
Definition inv_code (t : InvType) : nat :=
  match t with INV => 0 | INVX => 1 | FWD => 2 end.
Definition state_code (s : MESIState) : nat :=
  match s with I => 0 | S => 1 | E => 2 | M => 3 end.

Definition accessTypeNames : list string := ["GETS"; "GETX"; "PUTS"; "PUTX"]%string.
Definition invTypeNames : list string := ["INV"; "INVX"]%string.
Definition mesiStateNames : list string := ["I"; "S"; "E"; "M"]%string.

(** [assert_msg(t < size)] and the table access. *)
Definition name_at (names : list string) (code : nat) : res string :=
  match names !! code with Some n => Ok n | None => Fail AssertFailed end.
Definition AccessTypeName (t : AccessType) : res string := name_at accessTypeNames (access_code t).
Definition InvTypeName (t : InvType) : res string := name_at invTypeNames (inv_code t).
Definition MESIStateName (s : MESIState) : res string := name_at mesiStateNames (state_code s).

Definition IsGet (t : AccessType) : bool := bool_decide (t = GETS \/ t = GETX).
Definition IsPut (t : AccessType) : bool := bool_decide (t = PUTS \/ t = PUTX).

(** Flags of a request. *)
Definition IFETCH : Z := Z.shiftl 1 1.
Definition NOEXCL : Z := Z.shiftl 1 2.
Definition NONINCLWB : Z := Z.shiftl 1 3.
Definition PUTX_KEEPEXCL : Z := Z.shiftl 1 4.
Definition PREFETCH : Z := Z.shiftl 1 5.

Definition set_flag (flags f : Z) : Z := Z.lor flags f.
Definition is_flag (flags f : Z) : bool := negb (Z.land flags f =? 0).

(** A reference to a coherence state, the target of the [MESIState*] pointers: an
    element of the state array of a bottom controller, or a local variable of the
    code that issues the request. *)
Inductive sref :=
  | Line (cache : nat) (lineId : Z)
  | Local.

#[export] Instance sref_eq_dec : EqDecision sref.
Proof. solve_decision. Defined.

(** [childLock] belongs to the locking protocol and is not modelled. *)
Record MemReq := mkReq {
  lineAddr : Address;
  type : AccessType;
  childId : nat;
  state : sref;
  cycle : Z;
  initialState : MESIState;
  srcId : Z;
  flags : Z
}.

(** [writeback] is the value of [*writeback] when the request is made; the call
    returns its final value. *)
Record InvReq := mkInv {
  inv_lineAddr : Address;
  inv_type : InvType;
  inv_writeback : bool;
  inv_cycle : Z;
  inv_srcId : Z
}.

(** What every memory object does to the requester's state, whatever its latency
    model: the contract of [MemObject::access]. *)
Definition grant (t : AccessType) (flags : Z) : MESIState :=
  match t with
  | PUTS | PUTX => I
  | GETS => if is_flag flags NOEXCL then S else E
  | GETX => M
  end.

(** [SimpleMemory::access]: the new requester state and the response cycle. *)
Definition SimpleMemory_access (latency : Z) (req : MemReq) : res (MESIState * Z) :=
  let st := grant (type req) (flags req) in
  let respCycle := u64 (cycle req + latency) in
  _ ← assert_that (cycle req <? respCycle);
  Ok (st, respCycle).

End MemHier.
