(* ===== verification/Coherence.v ===== *)
(** The MESI coherence controllers (coherence_ctrls.h, coherence_ctrls.cpp): the
    bottom controller, which keeps the state of a cache's own lines and talks to
    the parents, the top controller, which keeps the sharer directory and talks to
    the children, and the two [CC]s built from them.  The methods of other caches
    they call are parameters of the section; Hierarchy.v ties the knot. *)
From stdpp Require Import fin_sets.
From S2P Require Import Prelude Effects MemHier.
Import MemHier.

Module Coherence.

Definition MAX_CACHE_CHILDREN : nat := 256.

(** [MESITopCC::Entry]; [sharers] holds the indices of the set bits. *)
Record Entry := mkEntry {
  numSharers : Z;
  sharers : gset nat;
  exclusive : bool
}.

Definition Entry_clear : Entry := mkEntry 0 ∅ false.
Definition isEmpty (e : Entry) : bool := numSharers e =? 0.
Definition isExclusive (e : Entry) : bool := (numSharers e =? 1) && exclusive e.
Definition shares (e : Entry) (c : nat) : bool := bool_decide (c ∈ sharers e).
Definition set_sharer (c : nat) (e : Entry) : Entry :=
  mkEntry (numSharers e) ({[c]} ∪ sharers e) (exclusive e).
Definition reset_sharer (c : nat) (e : Entry) : Entry :=
  mkEntry (numSharers e) (sharers e ∖ {[c]}) (exclusive e).
Definition set_numSharers (n : Z) (e : Entry) : Entry := mkEntry n (sharers e) (exclusive e).
Definition set_exclusive (b : bool) (e : Entry) : Entry := mkEntry (numSharers e) (sharers e) b.

(** The profiling counters of a bottom controller. *)
Inductive counter :=
  | profGETSHit | profGETSMiss | profGETXHit | profGETXMissIM | profGETXMissSM
  | profPUTS | profPUTX | profINV | profINVX | profFWD
  | profGETNextLevelLat | profGETNetLat.

#[export] Instance counter_eq_dec : EqDecision counter.
Proof. solve_decision. Defined.

(** The part of a cache that never changes after initialization. *)
Record node := mkNode {
  selfId : nat;
  parents : list nat;
  parentRTTs : list Z;
  children : list nat;
  childrenRTTs : list Z;
  nonInclusiveHack : bool;
  terminal : bool
}.

(** All the controllers: [states] holds the state arrays of the bottom
    controllers, [dir] the entries of the top ones; [ext] is the state of
    everything else (arrays, replacement policies). *)
Record world (X : Type) := mkWorld {
  states : sref -> MESIState;
  dir : nat * Z -> Entry;
  prof : nat * counter -> Z;
  ext : X
}.
Arguments mkWorld {X}. Arguments states {X}. Arguments dir {X}.
Arguments prof {X}. Arguments ext {X}.

Section Controllers.
Context {X : Type}.
Notation P := (prog (world X)).

Definition get_state (r : sref) : P MESIState := gets (fun w => states w r).
Definition set_state (r : sref) (s : MESIState) : P unit :=
  modify (fun w => mkWorld (<[r := s]> (states w)) (dir w) (prof w) (ext w)).
Definition get_entry (c : nat) (l : Z) : P Entry := gets (fun w => dir w (c, l)).
Definition upd_entry (c : nat) (l : Z) (f : Entry -> Entry) : P unit :=
  modify (fun w => mkWorld (states w) (<[(c, l) := f (dir w (c, l))]> (dir w)) (prof w) (ext w)).
Definition inc (c : nat) (k : counter) (delta : Z) : P unit :=
  modify (fun w => mkWorld (states w) (dir w)
            (<[(c, k) := u64 (prof w (c, k) + delta)]> (prof w)) (ext w)).

(** The topology, and the virtual methods of the other memory objects. *)
Context (topo : nat -> node).
Context (access : nat -> MemReq -> P Z).
Context (invalidate : nat -> InvReq -> P (Z * bool)).

(** ** MESIBottomCC *)

Definition getParentId (lineAddr : Z) (numParents : nat) : nat :=
  let '(r, _) := fold_left (fun '(r, tmp) (_ : nat) =>
                   (Z.lxor r (u32 (Z.land 0xffff tmp)), Z.shiftr tmp 16))
                 (seq 0 4) (0, lineAddr) in
  Z.to_nat (r mod Z.of_nat numParents).

Definition parentIdx (c : nat) (lineAddr : Z) : nat :=
  getParentId lineAddr (length (parents (topo c))).
Definition parent (c : nat) (lineAddr : Z) : nat :=
  parents (topo c) !!! parentIdx c lineAddr.
Definition parentRTT (c : nat) (lineAddr : Z) : Z :=
  parentRTTs (topo c) !!! parentIdx c lineAddr.

Definition bcc_isExclusive (c : nat) (lineId : Z) : P bool :=
  s ← get_state (Line c lineId); mret (bool_decide (s = E \/ s = M)).
Definition bcc_isValid (c : nat) (lineId : Z) : P bool :=
  s ← get_state (Line c lineId); mret (bool_decide (s <> I)).

(** [MESIBottomCC::processEviction]; the second result is what it stores into
    [*downgrade]. *)
Definition bcc_processEviction (c : nat) (wbLineAddr lineId : Z) (lowerLevelWriteback : bool)
    (cycle srcId : Z) : P (Z * bool) :=
  let state := Line c lineId in
  _ ← (if lowerLevelWriteback then
         s ← get_state state;
         _ ← require (bool_decide (s = M \/ s = E));
         set_state state M
       else mret tt);
  s ← get_state state;
  r ← match s with
      | I => mret (cycle, false)
      | S | E =>
          resp ← access (parent c wbLineAddr)
                   (mkReq wbLineAddr PUTS (selfId (topo c)) state cycle s srcId 0);
          mret (resp, false)
      | M =>
          resp ← access (parent c wbLineAddr)
                   (mkReq wbLineAddr PUTX (selfId (topo c)) state cycle s srcId 0);
          mret (resp, true)
      end;
  s ← get_state state;
  _ ← require (bool_decide (s = I));
  mret r.

(** Issue a GET to the parent; the result is the cycle of the response. *)
Definition get_from_parent (c : nat) (lineAddr lineId : Z) (type : AccessType)
    (cycle srcId flags : Z) : P Z :=
  let state := Line c lineId in
  s ← get_state state;
  resp ← access (parent c lineAddr)
           (mkReq lineAddr type (selfId (topo c)) state cycle s srcId flags);
  let nextLevelLat := u32 (resp - cycle) in
  let netLat := parentRTT c lineAddr in
  _ ← inc c profGETNextLevelLat nextLevelLat;
  _ ← inc c profGETNetLat netLat;
  mret (u64 (cycle + u32 (nextLevelLat + netLat))).

Definition bcc_processAccess (c : nat) (lineAddr lineId : Z) (type : AccessType)
    (cycle srcId flags : Z) : P Z :=
  let state := Line c lineId in
  respCycle ←
    match type with
    | PUTS =>
        s ← get_state state;
        _ ← require (bool_decide (s <> I));
        _ ← inc c profPUTS 1;
        mret cycle
    | PUTX =>
        s ← get_state state;
        _ ← require (bool_decide (s = M \/ s = E));
        _ ← (if decide (s = E) then set_state state M else mret tt);
        _ ← inc c profPUTX 1;
        mret cycle
    | GETS =>
        s ← get_state state;
        if decide (s = I) then
          resp ← get_from_parent c lineAddr lineId GETS cycle srcId flags;
          _ ← inc c profGETSMiss 1;
          s ← get_state state;
          _ ← require (bool_decide (s = S \/ s = E));
          mret resp
        else (_ ← inc c profGETSHit 1; mret cycle)
    | GETX =>
        s ← get_state state;
        resp ←
          (if decide (s = I \/ s = S) then
             _ ← inc c (if decide (s = I) then profGETXMissIM else profGETXMissSM) 1;
             get_from_parent c lineAddr lineId GETX cycle srcId flags
           else
             _ ← (if decide (s = E) then set_state state M else mret tt);
             _ ← inc c profGETXHit 1;
             mret cycle);
        s ← get_state state;
        _ ← require (bool_decide (s = M));
        mret resp
    end;
  _ ← require (cycle <=? respCycle);
  mret respCycle.

Definition bcc_processWritebackOnAccess (c : nat) (lineId : Z) : P unit :=
  let state := Line c lineId in
  s ← get_state state;
  _ ← require (bool_decide (s = M \/ s = E));
  if decide (s = E) then set_state state M else mret tt.

(** [MESIBottomCC::processInval]; the argument and result [wb] is
    [*reqWriteback]. *)
Definition bcc_processInval (c : nat) (lineId : Z) (type : InvType) (wb : bool) : P bool :=
  let state := Line c lineId in
  s ← get_state state;
  _ ← require (bool_decide (s <> I));
  match type with
  | INVX =>
      _ ← require (bool_decide (s = E \/ s = M));
      _ ← set_state state S;
      _ ← inc c profINVX 1;
      mret (wb || bool_decide (s = M))
  | INV =>
      _ ← require (bool_decide (s <> I));
      _ ← set_state state I;
      _ ← inc c profINV 1;
      mret (wb || bool_decide (s = M))
  | FWD =>
      _ ← require (bool_decide (s = S));
      _ ← inc c profFWD 1;
      mret wb
  end.

Definition bcc_processNonInclusiveWriteback (c : nat) (lineAddr : Z) (type : AccessType)
    (cycle : Z) (state : sref) (srcId flags : Z) : P Z :=
  if negb (nonInclusiveHack (topo c)) then stop
  else
    s ← get_state state;
    access (parent c lineAddr)
      (mkReq lineAddr type (selfId (topo c)) state cycle s srcId (Z.lor flags NONINCLWB)).

(** ** MESITopCC *)

Record inv_acc := mkAcc { maxCycle : Z; acc_wb : bool; sentInvs : Z }.

(** One iteration of the loop of [sendInvalidates]. *)
Definition send_to_child (c : nat) (lineAddr lineId : Z) (type : InvType) (cycle srcId : Z)
    (a : inv_acc) (k : nat) : P inv_acc :=
  e ← get_entry c lineId;
  if shares e k then
    '(respCycle, wb) ← invalidate (children (topo c) !!! k)
                         (mkInv lineAddr type (acc_wb a) cycle srcId);
    let respCycle := u64 (respCycle + childrenRTTs (topo c) !!! k) in
    _ ← (if decide (type = INV) then upd_entry c lineId (reset_sharer k) else mret tt);
    mret (mkAcc (Z.max respCycle (maxCycle a)) wb (u32 (sentInvs a + 1)))
  else mret a.

Definition sendInvalidates (c : nat) (lineAddr lineId : Z) (type : InvType) (wb : bool)
    (cycle srcId : Z) : P (Z * bool) :=
  e ← get_entry c lineId;
  if bool_decide (type = INVX) && negb (isExclusive e) then mret (cycle, wb)
  else if negb (isEmpty e) then
    a ← loop (send_to_child c lineAddr lineId type cycle srcId) (mkAcc cycle wb 0)
          (seq 0 (length (children (topo c))));
    e ← get_entry c lineId;
    _ ← require (sentInvs a =? numSharers e);
    _ ← (if decide (type = INV) then upd_entry c lineId (set_numSharers 0)
         else
           _ ← require (exclusive e);
           _ ← require (numSharers e =? 1);
           upd_entry c lineId (set_exclusive false));
    mret (maxCycle a, acc_wb a)
  else mret (cycle, wb).

Definition tcc_processEviction (c : nat) (wbLineAddr lineId : Z) (wb : bool) (cycle srcId : Z)
    : P (Z * bool) :=
  if nonInclusiveHack (topo c) then
    _ ← upd_entry c lineId (fun _ => Entry_clear);
    mret (cycle, wb)
  else sendInvalidates c wbLineAddr lineId INV wb cycle srcId.

(** Take the child out of the sharers, the common tail of the PUT cases. *)
Definition tcc_put (c : nat) (lineId : Z) (childId : nat) (childState : sref) : P unit :=
  e ← get_entry c lineId;
  _ ← require (shares e childId);
  _ ← upd_entry c lineId (fun e =>
        set_numSharers (u32 (numSharers e - 1)) (reset_sharer childId e));
  set_state childState I.

Definition tcc_processAccess (c : nat) (lineAddr lineId : Z) (type : AccessType)
    (childId : nat) (haveExclusive : bool) (childState : sref) (inducedWriteback : bool)
    (cycle srcId flags : Z) : P (Z * bool) :=
  e ← get_entry c lineId;
  match type with
  | PUTX =>
      _ ← require (isExclusive e);
      if is_flag flags PUTX_KEEPEXCL then
        _ ← require (shares e childId);
        s ← get_state childState;
        _ ← require (bool_decide (s = M));
        _ ← set_state childState E;
        mret (cycle, inducedWriteback)
      else
        _ ← tcc_put c lineId childId childState;
        mret (cycle, inducedWriteback)
  | PUTS =>
      _ ← tcc_put c lineId childId childState;
      mret (cycle, inducedWriteback)
  | GETS =>
      if isEmpty e && haveExclusive && negb (is_flag flags NOEXCL) then
        _ ← upd_entry c lineId (fun e =>
              set_numSharers 1 (set_sharer childId (set_exclusive true e)));
        _ ← set_state childState E;
        mret (cycle, inducedWriteback)
      else
        _ ← require (negb (shares e childId));
        '(respCycle, wb) ←
          (if isExclusive e then
             sendInvalidates c lineAddr lineId INVX inducedWriteback cycle srcId
           else mret (cycle, inducedWriteback));
        e ← get_entry c lineId;
        _ ← require (negb (isExclusive e));
        _ ← upd_entry c lineId (fun e =>
              set_exclusive false
                (set_numSharers (u32 (numSharers e + 1)) (set_sharer childId e)));
        _ ← set_state childState S;
        mret (respCycle, wb)
  | GETX =>
      _ ← require haveExclusive;
      _ ← (if shares e childId then
             _ ← require (negb (isExclusive e));
             upd_entry c lineId (fun e =>
               set_numSharers (u32 (numSharers e - 1)) (reset_sharer childId e))
           else mret tt);
      '(respCycle, wb) ← sendInvalidates c lineAddr lineId INV inducedWriteback cycle srcId;
      _ ← upd_entry c lineId (fun e =>
            set_exclusive true
              (set_numSharers (u32 (numSharers e + 1)) (set_sharer childId e)));
      e ← get_entry c lineId;
      _ ← require (numSharers e =? 1);
      _ ← set_state childState M;
      mret (respCycle, wb)
  end.

Definition tcc_processInval (c : nat) (lineAddr lineId : Z) (type : InvType) (wb : bool)
    (cycle srcId : Z) : P (Z * bool) :=
  if decide (type = FWD) then
    _ ← require (negb (nonInclusiveHack (topo c)));
    mret (cycle, wb)
  else sendInvalidates c lineAddr lineId type wb cycle srcId.

(** ** Races

    [CheckForMESIRace]: whether to skip the access, and the type it now has. *)
Definition CheckForMESIRace (type : AccessType) (state initialState : MESIState)
    : res (bool * AccessType) :=
  if decide (state = initialState) then Ok (false, type)
  else
    match type with
    | PUTS | PUTX =>
        if decide (state = I) then Ok (true, type)
        else (_ ← assert_that (bool_decide (state = S)); Ok (false, PUTS))
    | GETX =>
        _ ← assert_that (bool_decide (initialState = S));
        _ ← assert_that (bool_decide (state = I));
        Ok (false, GETX)
    | GETS => panic
    end.

(** ** MESICC and MESITerminalCC *)

Definition set_type (t : AccessType) (req : MemReq) : MemReq :=
  mkReq (lineAddr req) t (childId req) (state req) (cycle req) (initialState req)
        (srcId req) (flags req).

(** The locking of [startAccess] and [endAccess] is not modelled; what is left of
    it is the race check. *)
Definition cc_startAccess (c : nat) (req : MemReq) : P (bool * MemReq) :=
  _ ← require (if terminal (topo c) then IsGet (type req) else IsGet (type req) || IsPut (type req));
  s ← get_state (state req);
  '(skip, t) ← lift (CheckForMESIRace (type req) s (initialState req));
  mret (skip, set_type t req).

Definition cc_shouldAllocate (c : nat) (req : MemReq) : P bool :=
  if terminal (topo c) then mret true
  else if IsGet (type req) then mret true
  else
    _ ← require (IsPut (type req));
    if negb (nonInclusiveHack (topo c)) then stop else mret false.

Definition cc_processEviction (c : nat) (req : MemReq) (wbLineAddr lineId startCycle : Z)
    : P Z :=
  if terminal (topo c) then
    '(endCycle, _) ← bcc_processEviction c wbLineAddr lineId false startCycle (srcId req);
    mret endCycle
  else
    '(evCycle, wb) ← tcc_processEviction c wbLineAddr lineId false startCycle (srcId req);
    '(evCycle, _) ← bcc_processEviction c wbLineAddr lineId wb evCycle (srcId req);
    mret evCycle.

(** [MESICC::processAccess] on the cache's own copy of the line. *)
Definition mesi_processAccess (c : nat) (req : MemReq) (lineId startCycle : Z) : P Z :=
  let isPrefetch := is_flag (flags req) PREFETCH in
  _ ← require (negb isPrefetch || bool_decide (type req = GETS));
  let fl := Z.ldiff (flags req) PREFETCH in
  respCycle ← bcc_processAccess c (lineAddr req) lineId (type req) startCycle (srcId req) fl;
  if isPrefetch then mret respCycle
  else
    haveExclusive ← bcc_isExclusive c lineId;
    '(respCycle, wb) ← tcc_processAccess c (lineAddr req) lineId (type req) (childId req)
                         haveExclusive (state req) false respCycle (srcId req) fl;
    _ ← (if wb : bool then bcc_processWritebackOnAccess c lineId else mret tt);
    mret respCycle.

Definition cc_processAccess (c : nat) (req : MemReq) (lineId startCycle : Z) : P Z :=
  if terminal (topo c) then
    _ ← require (negb (lineId =? -1));
    bcc_processAccess c (lineAddr req) lineId (type req) startCycle (srcId req) (flags req)
  else
    valid ← (if lineId =? -1 then mret false else bcc_isValid c lineId);
    if (lineId =? -1) || (IsPut (type req) && negb valid) then
      _ ← require (nonInclusiveHack (topo c));
      _ ← require (IsPut (type req));
      bcc_processNonInclusiveWriteback c (lineAddr req) (type req) startCycle (state req)
        (srcId req) (flags req)
    else mesi_processAccess c req lineId startCycle.

(** [processInv]: the response cycle and the final value of [*req.writeback]. *)
Definition cc_processInv (c : nat) (req : InvReq) (lineId startCycle : Z) : P (Z * bool) :=
  if terminal (topo c) then
    wb ← bcc_processInval c lineId (inv_type req) (inv_writeback req);
    mret (startCycle, wb)
  else
    '(respCycle, wb) ← tcc_processInval c (inv_lineAddr req) lineId (inv_type req)
                         (inv_writeback req) startCycle (inv_srcId req);
    wb ← bcc_processInval c lineId (inv_type req) wb;
    mret (respCycle, wb).

End Controllers.

(** * The directory of a line

    What the entry [e] of a line promises about the states [cs] that the [n]
    children hold for it, [own] being the state of the cache itself. *)
Record dir_ok (n : nat) (e : Entry) (cs : nat -> MESIState) (own : MESIState) : Prop := {
  dir_count : numSharers e = Z.of_nat (size (sharers e));
  dir_mem : forall k, k ∈ sharers e <-> (k < n)%nat /\ cs k <> I;
  dir_single : exclusive e = true -> numSharers e <= 1;
  dir_excl : isExclusive e = true -> own = E \/ own = M;
  dir_owner : isExclusive e = true -> forall k, k ∈ sharers e -> cs k = E \/ cs k = M;
  dir_shared : isExclusive e = false -> forall k, (k < n)%nat -> cs k = I \/ cs k = S;
  dir_incl : own = I -> sharers e = ∅
}.

Definition excl (s : MESIState) : Prop := s = E \/ s = M.

#[export] Instance excl_dec s : Decision (excl s).
Proof. unfold excl. apply _. Defined.

(** Two children are never both in the line with one of them exclusive. *)
Lemma dir_ok_swmr n e cs own j k :
  dir_ok n e cs own -> (j < n)%nat -> (k < n)%nat -> j <> k -> excl (cs j) -> cs k = I.
Proof.
  intros [Hc Hm _ _ _ Hs _] Hj Hk Hne Hx. destruct (isExclusive e) eqn:He.
  - unfold isExclusive in He. apply andb_true_iff in He as [H1 _].
    assert (Hsz : size (sharers e) = 1%nat) by lia.
    apply size_1_elem_of in Hsz as [x Hx']. destruct (decide (cs k = I)) as [|Hn]; [done|].
    assert (Hk' : k ∈ sharers e) by (by apply Hm).
    assert (Hj' : j ∈ sharers e) by (apply Hm; split; [done|destruct Hx; congruence]).
    rewrite Hx', elem_of_singleton in Hj', Hk'. congruence.
  - destruct (Hs eq_refl j Hj), Hx; congruence.
Qed.

Lemma dir_ok_ext n e cs cs' own :
  (forall k, (k < n)%nat -> cs' k = cs k) -> dir_ok n e cs own -> dir_ok n e cs' own.
Proof.
  intros Heq [Hc Hm H1 He Ho Hs Hi]. split; try done.
  - intros k. rewrite Hm. split; intros [Hk Hn]; (split; [done|]); [rewrite Heq|rewrite <- Heq]; done.
  - intros Hx k Hk. rewrite Heq by (by apply Hm in Hk as [? _]). by apply Ho.
  - intros Hx k Hk. rewrite Heq by done. by apply Hs.
Qed.

Lemma exclusive_single n e cs own :
  dir_ok n e cs own -> isExclusive e = true ->
  exists k, (k < n)%nat /\ sharers e = {[k]} /\ cs k <> I /\ exclusive e = true.
Proof.
  intros [Hc Hm _ _ _ _ _] He. apply andb_true_iff in He as [H1 He].
  assert (Hsz : size (sharers e) = 1%nat) by lia.
  apply size_1_elem_of in Hsz as [x Hx]. exists x.
  assert (x ∈ sharers e) as Hin by set_solver. apply Hm in Hin as [??].
  split_and!; try done. by apply leibniz_equiv.
Qed.

(** What an invalidation needs and does. *)
Definition inv_pre (t : InvType) (s : MESIState) : Prop :=
  match t with INV => s <> I | INVX => excl s | FWD => s = S end.
Definition inv_after (t : InvType) : MESIState :=
  match t with INV => I | INVX => S | FWD => S end.

(** What a GET or PUT needs of the state the requester holds, and leaves it. *)
Definition acc_pre (t : AccessType) (s : MESIState) : Prop :=
  match t with
  | GETS => s = I
  | GETX => s = I \/ s = S
  | PUTS => s = S \/ s = E
  | PUTX => s = M
  end.

(** * Races between a request and invalidations

    Between the moment a child issues a request and the moment the parent locks
    itself, the parent may invalidate or downgrade the child. *)
Inductive intervening : MESIState -> MESIState -> Prop :=
  | intervening_inv s : s <> I -> intervening s I
  | intervening_invx s : excl s -> intervening s S.

Lemma intervening_closure s s' :
  rtc intervening s s' -> s' = s \/ (s <> I /\ s' = I) \/ (excl s /\ s' = S).
Proof.
  induction 1 as [s|s1 s2 s3 H12 _ IH]; [by left|].
  destruct H12 as [s Hs|s Hs].
  - destruct IH as [->|[[? _]|[[?|?] _]]]; try done. right; left; done.
  - destruct IH as [->|[[_ ->]|[[?|?] _]]]; try done; right; [by right|left].
    split; [|done]. by destruct Hs as [->| ->].
Qed.

(** C14: races are resolved. Whatever sequence of invalidations and downgrades hits
    the child's line between the issue of a legal request and its processing, the
    race check never fails; it skips the access only for a writeback of a line
    that is gone by then; and otherwise the request it lets through (a PUTX demoted
    to a PUTS if the line lost its exclusivity) is legal for the state the child
    has now. *)
Theorem race_resolved type ini now :
  acc_pre type ini -> rtc intervening ini now ->
  exists skip t', CheckForMESIRace type now ini = Ok (skip, t') /\
    (skip = true <-> IsPut type = true /\ now = I) /\
    (skip = false -> acc_pre t' now /\ IsGet t' = IsGet type /\ (t' <> type -> type = PUTX /\ t' = PUTS)).
Proof.
  intros Hp Hr. apply intervening_closure in Hr. unfold excl in Hr.
  destruct type; cbn in Hp; destruct ini; try (destruct_or? Hp; done);
    (destruct Hr as [->|[[? ->]|[[?|?] ->]]]; try done; cbn;
     eexists _, _; (split; [reflexivity|]); cbn; naive_solver).
Qed.

Lemma race_resolved_witness :
  CheckForMESIRace PUTX S M = Ok (false, PUTS) /\
  exists skip t', CheckForMESIRace PUTX S M = Ok (skip, t') /\
    (skip = true <-> IsPut PUTX = true /\ S = I) /\
    (skip = false -> acc_pre t' S /\ IsGet t' = IsGet PUTX /\ (t' <> PUTX -> PUTX = PUTX /\ t' = PUTS)).
Proof.
  split; [reflexivity|]. apply (race_resolved PUTX M S); [reflexivity|].
  apply rtc_once. apply intervening_invx. by right.
Defined.

End Coherence.
