(* ===== verification/CohLevel.v ===== *)
(** One level of the hierarchy, assume-guarantee: if the children's [invalidate]
    and the parents' [access] keep the contracts of this file for a line, then the
    controllers of a cache never fail an assertion on that line, keep its
    directory exact, and themselves keep the same contracts. *)
From stdpp Require Import fin_sets.
From S2P Require Import Prelude Effects MemHier Coherence.
Import MemHier Coherence.Coherence.

Module Level.

Section Children.
Context {X : Type}.
Context (topo : nat -> node) (invalidate : nat -> InvReq -> prog (world X) (Z * bool)).
(** The cache, the line and the address it holds; [lid k] is where child [k] holds
    that address; [L] bounds how long an invalidation of a child takes; [J] is what
    the children need of the rest of the state. *)
Context (c : nat) (l a : Z) (lid : nat -> option Z) (J : X -> Prop) (L : Z).

Notation n := (length (children (topo c))).
Notation kid k := (children (topo c) !!! k).

(** The state child [k] holds for the address. *)
Definition cst (w : world X) (k : nat) : MESIState :=
  match lid k with Some x => states w (Line (kid k) x) | None => I end.

(** What a call to a child leaves alone. *)
Record frame (w w' : world X) : Prop := {
  frame_ext : ext w' = ext w;
  frame_dir : forall x, dir w' (c, x) = dir w (c, x);
  frame_own : forall x, states w' (Line c x) = states w (Line c x)
}.

Definition inv_post (k : nat) (t : InvType) (wb : bool) (cyc : Z) (w : world X)
    (r : Z * bool) (w' : world X) : Prop :=
  frame w w' /\ cyc <= r.1 <= cyc + L /\
  (forall j, (j < n)%nat -> cst w' j = if decide (j = k) then inv_after t else cst w j) /\
  (wb = true \/ cst w k = M -> r.2 = true) /\
  (r.2 = true -> wb = true \/ excl (cst w k)).

(** The contract of [BaseCache::invalidate], for this line. *)
Definition inv_contract : Prop := forall k t wb cyc src w,
  (k < n)%nat -> t <> FWD -> J (ext w) -> inv_pre t (cst w k) ->
  0 <= cyc -> cyc + L + 2 ^ 32 < 2 ^ 64 ->
  wp (invalidate (kid k) (mkInv a t wb cyc src)) w (inv_post k t wb cyc w).

Record topo_ok : Prop := {
  kids_nodup : NoDup (children (topo c));
  kids_few : (n <= MAX_CACHE_CHILDREN)%nat;
  kids_other : c ∉ children (topo c);
  rtts_ok : forall k, (k < n)%nat -> in_u32 (childrenRTTs (topo c) !!! k);
  L_nonneg : 0 <= L
}.

Context (Hinv : inv_contract) (Htopo : topo_ok).

(** Cycles far enough from 2^64 that no addition wraps. *)
Definition early (cyc : Z) : Prop := 0 <= cyc /\ cyc + L + 2 ^ 32 < 2 ^ 64.

Lemma frame_refl w : frame w w.
Proof. done. Qed.

Lemma frame_trans w1 w2 w3 : frame w1 w2 -> frame w2 w3 -> frame w1 w3.
Proof.
  intros H1 H2. split; [|intros x|intros x].
  - by rewrite (frame_ext _ _ H2), (frame_ext _ _ H1).
  - by rewrite (frame_dir _ _ H2), (frame_dir _ _ H1).
  - by rewrite (frame_own _ _ H2), (frame_own _ _ H1).
Qed.

Lemma kid_inj j k : (j < n)%nat -> (k < n)%nat -> kid j = kid k -> j = k.
Proof.
  intros Hj Hk Heq. destruct (lookup_lt_is_Some_2 _ _ Hj) as [x Hx].
  destruct (lookup_lt_is_Some_2 _ _ Hk) as [y Hy].
  rewrite (list_lookup_total_correct _ _ _ Hx), (list_lookup_total_correct _ _ _ Hy) in Heq.
  subst y. by eapply NoDup_lookup; [apply Htopo| |].
Qed.

Lemma kid_not_self k : (k < n)%nat -> kid k <> c.
Proof.
  intros Hk Heq. apply (kids_other Htopo).
  pose proof (list_elem_of_lookup_total_2 (children (topo c)) k Hk) as H. by rewrite Heq in H.
Qed.

(** ** The loop of [sendInvalidates] *)

(** State after the first [i] children, [w0] being the world before the loop. *)
Record loop_inv (t : InvType) (wb : bool) (cyc : Z) (w0 : world X) (i : nat)
    (ac : inv_acc) (w : world X) : Prop := {
  li_ext : ext w = ext w0;
  li_own : forall x, states w (Line c x) = states w0 (Line c x);
  li_dir : forall x, x <> l -> dir w (c, x) = dir w0 (c, x);
  li_num : numSharers (dir w (c, l)) = numSharers (dir w0 (c, l));
  li_excl : exclusive (dir w (c, l)) = exclusive (dir w0 (c, l));
  li_sharers : forall k, k ∈ sharers (dir w (c, l)) <->
    k ∈ sharers (dir w0 (c, l)) /\ (t = INV -> (i <= k)%nat);
  li_cst : forall k, (k < n)%nat ->
    cst w k = if decide (k ∈ sharers (dir w0 (c, l)) /\ (k < i)%nat) then inv_after t else cst w0 k;
  li_cycle : cyc <= maxCycle ac <= cyc + L + 2 ^ 32;
  li_wb : (wb = true \/ exists k, (k < i)%nat /\ k ∈ sharers (dir w0 (c, l)) /\ cst w0 k = M) ->
    acc_wb ac = true;
  li_wb2 : acc_wb ac = true ->
    wb = true \/ exists k, (k < i)%nat /\ k ∈ sharers (dir w0 (c, l)) /\ excl (cst w0 k)
}.

(** How many invalidations the loop has sent. *)
Definition sent_upto (w0 : world X) (i : nat) : nat :=
  size (filter (fun k => (k < i)%nat) (sharers (dir w0 (c, l)))).

Lemma sent_upto_S w0 i :
  sent_upto w0 (Datatypes.S i) =
  if decide (i ∈ sharers (dir w0 (c, l))) then Datatypes.S (sent_upto w0 i) else sent_upto w0 i.
Proof.
  unfold sent_upto. set (s := sharers _). destruct (decide (i ∈ s)) as [Hi|Hi].
  - replace (filter (fun k => (k < Datatypes.S i)%nat) s)
      with ({[i]} ∪ filter (fun k => (k < i)%nat) s).
    + rewrite size_union, size_singleton; [done|].
      intros x Hx1 Hx2. apply elem_of_singleton in Hx1 as ->.
      apply elem_of_filter in Hx2 as [? _]. lia.
    + apply leibniz_equiv. intros x. rewrite elem_of_union, elem_of_singleton, !elem_of_filter.
      split; [intros [->|[? ?]]; split; [lia|done|lia|done]|intros [? ?]].
      destruct (decide (x = i)); [by left|right; split; [lia|done]].
  - f_equal. apply leibniz_equiv. intros x. rewrite !elem_of_filter.
    split; intros [? ?]; (split; [|done]); [|lia].
    destruct (decide (x = i)); [congruence|lia].
Qed.

Lemma sent_upto_all w0 :
  (forall k, k ∈ sharers (dir w0 (c, l)) -> (k < n)%nat) ->
  sent_upto w0 n = size (sharers (dir w0 (c, l))).
Proof.
  intros H. unfold sent_upto. f_equal. apply leibniz_equiv. intros x.
  rewrite elem_of_filter. split; [by intros [_ ?]|intros Hx; split; [by apply H|done]].
Qed.

Lemma cst_upd w f k y x :
  cst (mkWorld (states w) (<[y := f]> (dir w)) (prof w) x) k = cst w k.
Proof. unfold cst. by destruct (lid k). Qed.

Lemma sent_upto_lt w0 i : (i <= n)%nat -> in_u32 (Z.of_nat (sent_upto w0 i) + 1).
Proof.
  intros Hi. pose proof (kids_few Htopo) as Hn. unfold MAX_CACHE_CHILDREN in Hn.
  assert (sent_upto w0 i <= i)%nat; [|unfold in_u32; lia].
  unfold sent_upto. transitivity (size (list_to_set (seq 0 i) : gset nat)).
  - apply subseteq_size. intros x. rewrite elem_of_filter, elem_of_list_to_set, elem_of_seq. lia.
  - rewrite size_list_to_set by apply NoDup_seq. by rewrite length_seq.
Qed.

Section Loop.
Context (t : InvType) (wb : bool) (cyc src : Z) (w0 : world X).
Context (Ht : t <> FWD) (Hcyc : early cyc) (Hx0 : J (ext w0)).
Context (Hpre : forall k, k ∈ sharers (dir w0 (c, l)) -> (k < n)%nat /\ inv_pre t (cst w0 k)).

Lemma loop_start : loop_inv t wb cyc w0 0 (mkAcc cyc wb 0) w0.
Proof.
  pose proof (L_nonneg Htopo).
  split; try done; cbn.
  - intros k. split; [intros ?; split; [done|lia]|by intros [??]].
  - intros k Hk. destruct (decide _) as [[_ ?]|]; [lia|done].
  - lia.
  - intros [->|(k & ? & _)]; [done|lia].
  - intros ->. by left.
Qed.

Lemma loop_skip i ac w :
  i ∉ sharers (dir w0 (c, l)) -> loop_inv t wb cyc w0 i ac w ->
  loop_inv t wb cyc w0 (Datatypes.S i) ac w.
Proof.
  intros Hi [H1 H2 H3 H4 H5 H6 H7 H8 H9 H10].
  assert (Hlt : forall k, k ∈ sharers (dir w0 (c, l)) -> (k < Datatypes.S i <-> k < i)%nat).
  { intros k Hk. destruct (decide (k = i)) as [->|]; [done|lia]. }
  split; try done.
  - intros k. rewrite H6. split; intros [Hk Hle]; (split; [done|]); intros Et;
      specialize (Hle Et); [|lia].
    destruct (decide (k = i)) as [->|]; [done|lia].
  - intros k Hk. rewrite H7 by done.
    destruct (decide (k ∈ sharers (dir w0 (c, l)))) as [Hin|Hin].
    + specialize (Hlt k Hin). repeat destruct (decide _); try done; naive_solver.
    + repeat destruct (decide _); try done; naive_solver.
  - intros [->|(k & Hk & Hin & Hm)]; apply H9; [by left|right].
    exists k. by rewrite <- (Hlt k Hin).
  - intros Hb. destruct (H10 Hb) as [->|(k & Hk & Hin & Hm)]; [by left|right].
    exists k. split; [lia|done].
Qed.

(** The world after the loop has handled the answer of child [i]. *)
Definition after_hit (i : nat) (w1 : world X) : world X :=
  if decide (t = INV) then
    mkWorld (states w1) (<[(c, l) := reset_sharer i (dir w1 (c, l))]> (dir w1)) (prof w1) (ext w1)
  else w1.

Lemma after_hit_facts i w1 :
  ext (after_hit i w1) = ext w1 /\ states (after_hit i w1) = states w1 /\
  (forall x, x <> l -> dir (after_hit i w1) (c, x) = dir w1 (c, x)) /\
  numSharers (dir (after_hit i w1) (c, l)) = numSharers (dir w1 (c, l)) /\
  exclusive (dir (after_hit i w1) (c, l)) = exclusive (dir w1 (c, l)) /\
  (forall k, k ∈ sharers (dir (after_hit i w1) (c, l)) <->
     k ∈ sharers (dir w1 (c, l)) /\ (t = INV -> k <> i)).
Proof.
  unfold after_hit. destruct (decide (t = INV)) as [Et|Et]; cbn.
  - split_and!; try done.
    + intros x Hx. by rewrite fn_lookup_insert_ne by congruence.
    + by rewrite fn_lookup_insert.
    + by rewrite fn_lookup_insert.
    + intros k. rewrite fn_lookup_insert. cbn. rewrite elem_of_difference, elem_of_singleton.
      naive_solver.
  - split_and!; try done. naive_solver.
Qed.

Lemma loop_hit i ac w r w1 sent :
  i ∈ sharers (dir w0 (c, l)) -> loop_inv t wb cyc w0 i ac w ->
  inv_post i t (acc_wb ac) cyc w r w1 ->
  loop_inv t wb cyc w0 (Datatypes.S i)
    (mkAcc (Z.max (u64 (r.1 + childrenRTTs (topo c) !!! i)) (maxCycle ac)) r.2 sent)
    (after_hit i w1).
Proof.
  intros Hi [H1 H2 H3 H4 H5 H6 H7 H8 H9 H10] ([F1 F2 F3] & Hc & Hcst & Hw1 & Hw2).
  destruct (Hpre i Hi) as [Hin Hp].
  destruct (after_hit_facts i w1) as (A1 & A2 & A3 & A4 & A5 & A6).
  assert (Hci : cst w i = cst w0 i).
  { rewrite H7 by done. destruct (decide _) as [[_ ?]|]; [lia|done]. }
  assert (HR : in_u32 (childrenRTTs (topo c) !!! i)) by (by apply Htopo).
  destruct Hcyc as [Hc0 Hc1]. rewrite Hci in Hw1, Hw2.
  split; cbn [maxCycle acc_wb].
  - congruence.
  - intros x. rewrite A2, F3. apply H2.
  - intros x Hx. rewrite A3, F2 by done. by apply H3.
  - rewrite A4, F2. done.
  - rewrite A5, F2. done.
  - intros k. rewrite A6, F2, H6. split.
    + intros [[Hk Hle] Hne]. split; [done|]. intros Et. specialize (Hle Et). specialize (Hne Et). lia.
    + intros [Hk Hle]. split; [split; [done|]|]; intros Et; specialize (Hle Et); lia.
  - intros k Hk. replace (cst (after_hit i w1) k) with (cst w1 k)
      by (unfold cst; by rewrite A2).
    rewrite Hcst, H7 by done.
    destruct (decide (k = i)) as [->|Hne].
    + destruct (decide _) as [|Hn]; [done|]. exfalso; apply Hn. split; [done|lia].
    + repeat destruct (decide _); try done; exfalso; naive_solver lia.
  - unfold in_u32 in HR. unfold u64. rewrite Z.mod_small by lia. lia.
  - intros Hb. apply Hw1. destruct Hb as [->|(k & Hk & Hks & Hm)].
    { left. apply H9. by left. }
    destruct (decide (k = i)) as [->|]; [by right|]. left. apply H9. right. exists k.
    split_and!; [lia|done|done].
  - intros Hb. destruct (Hw2 Hb) as [Hb'|Hx].
    + destruct (H10 Hb') as [->|(k & Hk & Hks & Hm)]; [by left|right]. exists k. split; [lia|done].
    + right. exists i. split_and!; [lia|done|done].
Qed.

Lemma loop_step i ac w :
  (i < n)%nat -> loop_inv t wb cyc w0 i ac w -> sentInvs ac = Z.of_nat (sent_upto w0 i) ->
  wp (send_to_child topo invalidate c a l t cyc src ac i) w (fun ac' w' =>
    loop_inv t wb cyc w0 (Datatypes.S i) ac' w' /\
    sentInvs ac' = Z.of_nat (sent_upto w0 (Datatypes.S i))).
Proof.
  intros Hi HI Hs. unfold send_to_child, get_entry. wp_steps.
  rewrite sent_upto_S. unfold shares.
  assert (Hsh : i ∈ sharers (dir w (c, l)) <-> i ∈ sharers (dir w0 (c, l))).
  { rewrite (li_sharers _ _ _ _ _ _ _ HI). split; [by intros [??]|intros ?; split; [done|lia]]. }
  case_bool_decide as Hin; rewrite Hsh in Hin.
  - destruct (Hpre i Hin) as [_ Hp].
    destruct (decide (i ∈ sharers (dir w0 (c, l)))) as [_|]; [|done]. wp_step.
    assert (Hci : cst w i = cst w0 i).
    { rewrite (li_cst _ _ _ _ _ _ _ HI) by done. destruct (decide _) as [[_ ?]|]; [lia|done]. }
    eapply wp_mono.
    { apply Hinv; [done|done| |by rewrite Hci|apply Hcyc..].
      by rewrite (li_ext _ _ _ _ _ _ _ HI). }
    intros [resp wb'] w1 Hpost. cbn beta iota.
    pose proof (loop_hit i ac w _ w1 (u32 (sentInvs ac + 1)) Hin HI Hpost) as HI'.
    unfold after_hit in HI'. cbn [fst snd] in HI'.
    assert (Hsent : u32 (sentInvs ac + 1) = Z.of_nat (Datatypes.S (sent_upto w0 i))).
    { rewrite Hs, u32_id; [lia|]. apply sent_upto_lt. lia. }
    destruct (decide (t = INV)); unfold upd_entry; wp_steps; done.
  - destruct (decide (i ∈ sharers (dir w0 (c, l)))) as [|_]; [done|].
    wp_steps. split; [|done]. by apply loop_skip.
Qed.

Lemma loop_spec :
  wp (loop (send_to_child topo invalidate c a l t cyc src) (mkAcc cyc wb 0) (seq 0 n)) w0
    (fun ac w => loop_inv t wb cyc w0 n ac w /\ sentInvs ac = Z.of_nat (sent_upto w0 n)).
Proof.
  eapply wp_mono.
  - apply (wp_loop (fun d _ ac w => loop_inv t wb cyc w0 (length d) ac w /\
             sentInvs ac = Z.of_nat (sent_upto w0 (length d)))).
    + cbn. split; [apply loop_start|]. unfold sent_upto.
      replace (filter _ _) with (∅ : gset nat); [by rewrite size_empty|].
      apply leibniz_equiv. intros x. rewrite elem_of_filter.
      split; [intros H; by apply elem_of_empty in H|intros [? _]; lia].
    + intros d i todo ac w Hseq [HI Hs].
      assert (Hd : i = length d /\ (i < n)%nat).
      { pose proof (f_equal length Hseq) as Hl. rewrite length_app, length_seq in Hl. cbn in Hl.
        pose proof (f_equal (lookup (length d)) Hseq) as Hk.
        rewrite lookup_seq_lt, list_lookup_middle in Hk by lia. injection Hk as <-. lia. }
      destruct Hd as [-> Hlt]. rewrite length_app, Nat.add_1_r. by apply loop_step.
  - cbn. intros ac w. by rewrite length_seq.
Qed.

End Loop.
(** What [sendInvalidates] does to everything but the entry of the line. *)
Record sent (t : InvType) (wb : bool) (cyc : Z) (w : world X) (r : Z * bool) (w' : world X)
    : Prop := {
  sent_ext : ext w' = ext w;
  sent_own : forall x, states w' (Line c x) = states w (Line c x);
  sent_dir : forall x, x <> l -> dir w' (c, x) = dir w (c, x);
  sent_cst : forall k, (k < n)%nat -> cst w' k =
    if decide (k ∈ sharers (dir w (c, l))) then inv_after t else cst w k;
  sent_cycle : cyc <= r.1 <= cyc + L + 2 ^ 32;
  sent_wb : wb = true \/ (exists k, k ∈ sharers (dir w (c, l)) /\ cst w k = M) -> r.2 = true;
  sent_wb2 : r.2 = true ->
    wb = true \/ exists k, k ∈ sharers (dir w (c, l)) /\ excl (cst w k)
}.

Lemma loop_sent t wb cyc w ac w' f :
  (forall k, k ∈ sharers (dir w (c, l)) -> (k < n)%nat) ->
  loop_inv t wb cyc w n ac w' ->
  sent t wb cyc w (maxCycle ac, acc_wb ac)
    (mkWorld (states w') (<[(c, l) := f (dir w' (c, l))]> (dir w')) (prof w') (ext w')).
Proof.
  intros Hlt [H1 H2 H3 H4 H5 H6 H7 H8 H9 H10]. split; cbn [ext states dir fst snd]; try done.
  - intros x Hx. rewrite fn_lookup_insert_ne by congruence. by apply H3.
  - intros k Hk. rewrite cst_upd, H7 by done.
    destruct (decide (k ∈ sharers (dir w (c, l)))) as [Hin|Hin].
    + by rewrite decide_True.
    + rewrite decide_False; [done|by intros [??]].
  - intros [->|(k & Hk & Hm)]; apply H9; [by left|right]. exists k.
    split; [by apply Hlt|done].
  - intros Hb. destruct (H10 Hb) as [->|(k & _ & Hk)]; [by left|right; by exists k].
Qed.

Lemma sent_refl t wb cyc w :
  early cyc -> sharers (dir w (c, l)) = ∅ -> sent t wb cyc w (cyc, wb) w.
Proof.
  intros [Hc _] He. pose proof (L_nonneg Htopo). split; cbn; try done.
  - intros k _. rewrite decide_False; [done|]. rewrite He. apply not_elem_of_empty.
  - lia.
  - intros [->|(k & Hk & _)]; [done|]. rewrite He in Hk. by apply elem_of_empty in Hk.
  - intros ->. by left.
Qed.

(** Nothing to downgrade in a line that nobody owns. *)
Lemma sent_shared t wb cyc w own :
  inv_after t = S -> early cyc -> dir_ok n (dir w (c, l)) (cst w) own -> isExclusive (dir w (c, l)) = false ->
  sent t wb cyc w (cyc, wb) w.
Proof.
  intros Ht [Hc _] [_ Hm _ _ _ Hs _] He. pose proof (L_nonneg Htopo). split; cbn; try done.
  - intros k Hk. destruct (decide _) as [Hin|]; [|done].
    apply Hm in Hin as [_ Hn]. rewrite Ht. by destruct (Hs He k Hk).
  - lia.
  - intros [->|(k & Hin & HM)]; [done|]. apply Hm in Hin as [Hk _].
    destruct (Hs He k Hk); congruence.
  - intros ->. by left.
Qed.

Lemma sendInvalidates_INV w wb cyc src :
  J (ext w) -> early cyc ->
  numSharers (dir w (c, l)) = Z.of_nat (size (sharers (dir w (c, l)))) ->
  (forall k, k ∈ sharers (dir w (c, l)) -> (k < n)%nat /\ cst w k <> I) ->
  wp (sendInvalidates topo invalidate c a l INV wb cyc src) w (fun r w' =>
    sent INV wb cyc w r w' /\ dir w' (c, l) = mkEntry 0 ∅ (exclusive (dir w (c, l)))).
Proof.
  intros Hx0 Hc Hnum Hsh. assert (Hlt := fun k H => proj1 (Hsh k H)).
  unfold sendInvalidates, get_entry. wp_steps. unfold isEmpty.
  rewrite (bool_decide_eq_false_2 (INV = INVX)) by done. cbn [andb].
  destruct (numSharers (dir w (c, l)) =? 0) eqn:E0; cbn [negb].
  - assert (He : sharers (dir w (c, l)) = ∅) by (apply leibniz_equiv, size_empty_inv; lia).
    wp_steps. split; [by apply sent_refl|].
    apply Z.eqb_eq in E0. destruct (dir w (c, l)) as [a1 a2 a3]. cbn in *. by subst.
  - wp_step. eapply wp_mono.
    { apply (loop_spec INV wb cyc src w ltac:(done) Hc Hx0 Hsh). }
    intros ac w1 [HI Hs]. wp_step. wp_step. wp_step. wp_step.
    { rewrite Hs, sent_upto_all, (li_num _ _ _ _ _ _ _ HI) by done. lia. }
    unfold upd_entry. cbn. wp_steps. split; [by apply loop_sent|].
    cbn. rewrite fn_lookup_insert. unfold set_numSharers.
    rewrite (li_excl _ _ _ _ _ _ _ HI). f_equal.
    apply leibniz_equiv. intros k. rewrite (li_sharers _ _ _ _ _ _ _ HI).
    split; [|intros H; by apply elem_of_empty in H].
    intros [Hk Hle]. specialize (Hle eq_refl). specialize (Hlt k Hk). lia.
Qed.

Lemma sendInvalidates_INVX w wb cyc src :
  J (ext w) -> early cyc -> isExclusive (dir w (c, l)) = true ->
  (size (sharers (dir w (c, l))) = 1)%nat ->
  (forall k, k ∈ sharers (dir w (c, l)) -> (k < n)%nat /\ excl (cst w k)) ->
  wp (sendInvalidates topo invalidate c a l INVX wb cyc src) w (fun r w' =>
    sent INVX wb cyc w r w' /\ dir w' (c, l) = set_exclusive false (dir w (c, l))).
Proof.
  intros Hx0 Hc He Hsz Hsh. assert (Hlt := fun k H => proj1 (Hsh k H)).
  unfold sendInvalidates, get_entry. wp_steps. unfold isEmpty.
  rewrite (bool_decide_eq_true_2 (INVX = INVX)), He by done. cbn [andb negb].
  unfold isExclusive in He. apply andb_true_iff in He as [Hn1 Hex]. apply Z.eqb_eq in Hn1.
  rewrite Hn1. change (1 =? 0) with false. cbn [negb].
  wp_step. eapply wp_mono.
  { apply (loop_spec INVX wb cyc src w ltac:(done) Hc Hx0 Hsh). }
  intros ac w1 [HI Hs]. wp_step. wp_step. wp_step. wp_step.
  { rewrite Hs, sent_upto_all, (li_num _ _ _ _ _ _ _ HI), Hn1 by done. lia. }
  wp_step. destruct (decide (INVX = INV)) as [|_]; [done|].
  wp_step. wp_step; [by rewrite (li_excl _ _ _ _ _ _ _ HI)|].
  wp_step. wp_step; [by rewrite (li_num _ _ _ _ _ _ _ HI), Hn1|].
  unfold upd_entry. wp_steps. split; [by apply loop_sent|].
  cbn. rewrite fn_lookup_insert. unfold set_exclusive.
  rewrite (li_num _ _ _ _ _ _ _ HI). f_equal.
  apply leibniz_equiv. intros k. rewrite (li_sharers _ _ _ _ _ _ _ HI). naive_solver.
Qed.

(** ** MESITopCC::processAccess *)

(** What a successful access leaves the requester, given the entry it found and
    whether the cache has the line exclusively. *)
Definition granted (t : AccessType) (fl : Z) (e : Entry) (haveExclusive : bool) : MESIState :=
  match t with
  | PUTS => I
  | PUTX => if is_flag fl PUTX_KEEPEXCL then E else I
  | GETS => if isEmpty e && haveExclusive && negb (is_flag fl NOEXCL) then E else S
  | GETX => M
  end.

(** ... and what it leaves the other children. *)
Definition others_after (t : AccessType) (s : MESIState) : MESIState :=
  match t with
  | PUTS | PUTX => s
  | GETS => if decide (s = I) then I else S
  | GETX => I
  end.

Record access_post (t : AccessType) (fl : Z) (k : nat) (wb : bool) (cyc : Z) (w : world X)
    (r : Z * bool) (w' : world X) : Prop := {
  ap_ext : ext w' = ext w;
  ap_own : forall y, states w' (Line c y) = states w (Line c y);
  ap_dir : forall y, y <> l -> dir w' (c, y) = dir w (c, y);
  ap_ok : dir_ok n (dir w' (c, l)) (cst w') (states w' (Line c l));
  ap_child : cst w' k =
    granted t fl (dir w (c, l)) (bool_decide (excl (states w (Line c l))));
  ap_others : forall j, (j < n)%nat -> j <> k -> cst w' j = others_after t (cst w j);
  ap_cycle : cyc <= r.1 <= cyc + L + 2 ^ 32;
  ap_wb : wb = true \/ (IsGet t = true /\ exists j, (j < n)%nat /\ j <> k /\ cst w j = M) ->
    r.2 = true;
  ap_wb2 : r.2 = true -> wb = true \/ excl (states w (Line c l))
}.

Section Requester.
Context (k : nat) (x : Z) (Hk : (k < n)%nat) (Hlid : lid k = Some x).

Lemma cst_set w s j f g :
  (j < n)%nat ->
  cst (mkWorld (<[Line (kid k) x := s]> (states w)) f g (ext w)) j =
  if decide (j = k) then s else cst w j.
Proof.
  intros Hj. unfold cst. cbn. destruct (decide (j = k)) as [->|Hne].
  - by rewrite Hlid, fn_lookup_insert.
  - destruct (lid j) as [y|]; [|done]. rewrite fn_lookup_insert_ne; [done|].
    intros [= Heq]. by apply Hne, kid_inj.
Qed.

Lemma own_set (st : sref -> MESIState) s y :
  <[Line (kid k) x := s]> st (Line c y) = st (Line c y).
Proof. rewrite fn_lookup_insert_ne; [done|]. intros [= Heq _]. by apply (kid_not_self k Hk). Qed.

Lemma size_remove (s : gset nat) : k ∈ s -> size s = Datatypes.S (size (s ∖ {[k]})).
Proof.
  intros Hin. rewrite size_difference, size_singleton by (by apply singleton_subseteq_l).
  pose proof (size_non_empty_iff s) as [_ H]. destruct (size s) eqn:Es; [|lia].
  apply size_empty_inv in Es. by apply Es, elem_of_empty in Hin.
Qed.

Lemma size_add (s : gset nat) : k ∉ s -> size ({[k]} ∪ s) = Datatypes.S (size s).
Proof.
  intros Hin. rewrite size_union, size_singleton; [done|].
  intros y Hy. apply elem_of_singleton in Hy as ->. done.
Qed.

Lemma size_range (s : gset nat) : (forall y, y ∈ s -> (y < n)%nat) -> Z.of_nat (size s) <= 256.
Proof.
  intros Hs. pose proof (kids_few Htopo) as Hn. unfold MAX_CACHE_CHILDREN in Hn.
  assert (size s <= size (list_to_set (seq 0 n) : gset nat))%nat as H.
  { apply subseteq_size. intros y Hy. rewrite elem_of_list_to_set, elem_of_seq.
    specialize (Hs y Hy). lia. }
  rewrite size_list_to_set, length_seq in H by apply NoDup_seq. lia.
Qed.

(** A child that gives the line up. *)
Lemma dir_ok_put e cs own s' :
  dir_ok n e cs own -> k ∈ sharers e -> cs k <> I ->
  (forall j, (j < n)%nat -> s' j = if decide (j = k) then I else cs j) ->
  dir_ok n (set_numSharers (u32 (numSharers e - 1)) (reset_sharer k e)) s' own.
Proof.
  intros [Hc Hm H1 He Ho Hs Hi] Hin Hne Hs'. destruct e as [ns sh ex]. cbn in *.
  pose proof (size_remove _ Hin) as Hsz.
  pose proof (size_range sh (fun y Hy => proj1 (proj1 (Hm y) Hy))) as Hr.
  assert (Hu : u32 (ns - 1) = Z.of_nat (size (sh ∖ {[k]}))).
  { rewrite u32_id; [lia|]. unfold in_u32; lia. }
  rewrite Hu. split; cbn.
  - done.
  - intros j. rewrite elem_of_difference, elem_of_singleton, Hm.
    split.
    + intros [[Hj Hcj] Hjk]. split; [done|]. rewrite Hs', decide_False by done. done.
    + intros [Hj Hcj]. rewrite Hs' in Hcj by done.
      destruct (decide (j = k)); [done|]. done.
  - intros Hx. specialize (H1 Hx). lia.
  - intros Hx. unfold isExclusive in *; cbn in *. apply andb_true_iff in Hx as [Hx1 Hx2].
    specialize (H1 Hx2). lia.
  - intros Hx. unfold isExclusive in Hx; cbn in Hx. apply andb_true_iff in Hx as [Hx1 Hx2].
    specialize (H1 Hx2). lia.
  - intros Hx j Hj. rewrite Hs' by done. destruct (decide (j = k)) as [|Hjk]; [by left|].
    destruct (isExclusive (mkEntry ns sh ex)) eqn:Ex; [|by apply Hs].
    left. destruct (decide (cs j = I)) as [|Hcj]; [done|].
    assert (Hjin : j ∈ sh ∖ {[k]}).
    { apply elem_of_difference. rewrite elem_of_singleton. split; [by apply Hm|done]. }
    apply andb_true_iff in Ex as [Ex1 _]. cbn in Ex1.
    assert (Hz : size (sh ∖ {[k]}) = 0%nat) by lia.
    apply size_empty_inv in Hz. by apply Hz, elem_of_empty in Hjin.
  - intros HoI. specialize (Hi HoI). subst sh. by apply elem_of_empty in Hin.
Qed.

Lemma dir_set_other (w : world X) f y :
  y <> l -> <[(c, l) := f]> (dir w) (c, y) = dir w (c, y).
Proof. intros Hy. rewrite fn_lookup_insert_ne by congruence. done. Qed.

Lemma tcc_put_ok w t fl wb cyc :
  early cyc -> t = PUTS \/ (t = PUTX /\ is_flag fl PUTX_KEEPEXCL = false) ->
  dir_ok n (dir w (c, l)) (cst w) (states w (Line c l)) -> cst w k <> I ->
  wp (tcc_put c l k (Line (kid k) x)) w (fun _ w' => access_post t fl k wb cyc w (cyc, wb) w').
Proof.
  intros [Hc0 Hc1] Ht Hd Hne. pose proof (L_nonneg Htopo).
  assert (Hin : k ∈ sharers (dir w (c, l))) by (by apply (dir_mem _ _ _ _ Hd)).
  unfold tcc_put, get_entry, upd_entry, set_state, shares. wp_steps.
  { by apply bool_decide_eq_true_2. }
  assert (Hcst : forall f g j, (j < n)%nat ->
    cst (mkWorld (<[Line (kid k) x := I]> (states w)) f g (ext w)) j =
    if decide (j = k) then I else cst w j) by (intros; by apply cst_set).
  split; cbn [ext states dir fst snd].
  - done.
  - intros y. apply own_set.
  - intros y Hy. by apply dir_set_other.
  - rewrite fn_lookup_insert, own_set. apply (dir_ok_put _ (cst w)); try done.
    intros j Hj. by rewrite Hcst.
  - rewrite Hcst, decide_True by done. destruct Ht as [->|[-> Hfl]]; cbn; [done|]. by rewrite Hfl.
  - intros j Hj Hjk. rewrite Hcst, decide_False by done. by destruct Ht as [->|[-> _]].
  - lia.
  - intros [->|[Hg _]]; [done|]. by destruct Ht as [->|[-> _]].
  - intros ->. by left.
Qed.

(** A child that gets the line shared. *)
Lemma dir_ok_gets e cs own s' :
  numSharers e = Z.of_nat (size (sharers e)) ->
  (forall j, j ∈ sharers e <-> (j < n)%nat /\ cs j <> I) ->
  k ∉ sharers e -> own <> I ->
  (forall j, (j < n)%nat -> s' j = if decide (j = k) then S else if decide (cs j = I) then I else S) ->
  dir_ok n (set_exclusive false (set_numSharers (u32 (numSharers e + 1)) (set_sharer k e))) s' own.
Proof.
  intros Hc Hm Hin Hown Hs'. destruct e as [ns sh ex]. cbn in *.
  pose proof (size_range sh (fun y Hy => proj1 (proj1 (Hm y) Hy))) as Hr.
  assert (Hu : u32 (ns + 1) = Z.of_nat (size ({[k]} ∪ sh))).
  { rewrite (size_add _ Hin), u32_id; [lia|]. unfold in_u32; lia. }
  rewrite Hu. split; cbn; try done.
  - intros j. rewrite elem_of_union, elem_of_singleton, Hm. split.
    + intros [->|[Hj Hcj]]; (split; [done|]); rewrite Hs' by done.
      * by rewrite decide_True.
      * destruct (decide (j = k)); [done|]. by rewrite decide_False.
    + intros [Hj Hcj]. destruct (decide (j = k)) as [->|Hjk]; [by left|right]. split; [done|].
      rewrite Hs', decide_False in Hcj by done. destruct (decide (cs j = I)); done.
  - intros Hx. unfold isExclusive in Hx. cbn in Hx. by rewrite andb_false_r in Hx.
  - intros Hx. unfold isExclusive in Hx. cbn in Hx. by rewrite andb_false_r in Hx.
  - intros _ j Hj. rewrite Hs' by done. repeat destruct (decide _); auto.
Qed.

(** A child that gets the line for itself. *)
Lemma dir_ok_alone own s s' :
  excl own -> excl s ->
  (forall j, (j < n)%nat -> s' j = if decide (j = k) then s else I) ->
  dir_ok n (mkEntry 1 {[k]} true) s' own.
Proof.
  intros Hown Hs Hs'. split; cbn.
  - by rewrite size_singleton.
  - intros j. rewrite elem_of_singleton. split.
    + intros ->. split; [done|]. rewrite Hs', decide_True by done. by destruct Hs as [->| ->].
    + intros [Hj Hne]. rewrite Hs' in Hne by done. by destruct (decide (j = k)).
  - lia.
  - done.
  - intros _ j Hj. apply elem_of_singleton in Hj as ->. by rewrite Hs', decide_True.
  - done.
  - by intros ->; destruct Hown.
Qed.

Lemma tcc_gets_ok w wb cyc src fl :
  J (ext w) -> early cyc -> states w (Line c l) <> I ->
  dir_ok n (dir w (c, l)) (cst w) (states w (Line c l)) -> cst w k = I ->
  wp (tcc_processAccess topo invalidate c a l GETS k (bool_decide (excl (states w (Line c l))))
        (Line (kid k) x) wb cyc src fl) w
     (fun r w' => access_post GETS fl k wb cyc w r w').
Proof.
  intros Hx0 Hc Hown Hd HkI. pose proof (L_nonneg Htopo) as HL. destruct (Hc) as [Hc0 Hc1].
  assert (Hnin : k ∉ sharers (dir w (c, l))) by (rewrite (dir_mem _ _ _ _ Hd); naive_solver).
  assert (Hcst : forall w s f g j, (j < n)%nat ->
    cst (mkWorld (<[Line (kid k) x := s]> (states w)) f g (ext w)) j =
    if decide (j = k) then s else cst w j) by (intros; by apply cst_set).
  unfold tcc_processAccess, get_entry, upd_entry, set_state, shares. wp_steps.
  destruct (isEmpty (dir w (c, l)) && bool_decide (excl (states w (Line c l))) &&
            negb (is_flag fl NOEXCL)) eqn:Eb.
  - wp_steps. apply andb_true_iff in Eb as [Eb Hfl]. apply andb_true_iff in Eb as [Hem Hex].
    apply bool_decide_eq_true in Hex.
    assert (Hsh : sharers (dir w (c, l)) = ∅).
    { apply leibniz_equiv, size_empty_inv. pose proof (dir_count _ _ _ _ Hd).
      unfold isEmpty in Hem. lia. }
    assert (HcI : forall j, (j < n)%nat -> cst w j = I).
    { intros j Hj. destruct (decide (cst w j = I)) as [|Hn]; [done|].
      assert (Hjin : j ∈ sharers (dir w (c, l))) by (by apply (dir_mem _ _ _ _ Hd)).
      rewrite Hsh in Hjin. by apply elem_of_empty in Hjin. }
    split; cbn [ext states dir fst snd].
    + done.
    + intros y. apply own_set.
    + intros y Hy. by apply dir_set_other.
    + rewrite fn_lookup_insert, own_set. unfold set_numSharers, set_sharer, set_exclusive.
      cbn [numSharers sharers exclusive]. rewrite Hsh, (right_id_L ∅ (∪)).
      apply (dir_ok_alone _ E); [done|by left|]. intros j Hj. rewrite Hcst by done.
      destruct (decide (j = k)); [done|by apply HcI].
    + rewrite Hcst, decide_True by done. cbn. by rewrite Hem, bool_decide_eq_true_2, Hfl.
    + intros j Hj Hjk. rewrite Hcst, decide_False by done. cbn. by rewrite HcI.
    + lia.
    + intros [->|[_ (j & Hj & _ & HM)]]; [done|]. by rewrite HcI in HM.
    + intros ->. by left.
  - wp_step. wp_step; [by rewrite bool_decide_eq_false_2|]. wp_step.
    eapply (wp_mono _ _ (fun r w1 => sent INVX wb cyc w r w1 /\
      numSharers (dir w1 (c, l)) = Z.of_nat (size (sharers (dir w1 (c, l)))) /\
      sharers (dir w1 (c, l)) = sharers (dir w (c, l)) /\
      isExclusive (dir w1 (c, l)) = false)).
    { destruct (isExclusive (dir w (c, l))) eqn:He.
      - destruct (exclusive_single _ _ _ _ Hd He) as (k0 & Hk0 & Hsh & Hnk & _).
        eapply wp_mono; [apply sendInvalidates_INVX; try done|].
        + by rewrite Hsh, size_singleton.
        + intros j Hj. split; [by apply (dir_mem _ _ _ _ Hd)|by apply (dir_owner _ _ _ _ Hd)].
        + cbn. intros r w1 [Hs ->]. split_and!; [done| |done|].
          * cbn. apply (dir_count _ _ _ _ Hd).
          * unfold isExclusive. cbn. apply andb_false_r.
      - wp_steps. split_and!; [by eapply sent_shared|apply (dir_count _ _ _ _ Hd)|done|done]. }
    intros [resp wb'] w1 (Hs & Hn1 & Hs1 & He1). cbn beta iota. wp_steps; [by rewrite He1|].
    assert (Hc1' : forall j, (j < n)%nat -> cst w1 j = if decide (cst w j = I) then I else S).
    { intros j Hj. rewrite (sent_cst _ _ _ _ _ _ Hs) by done.
      destruct (decide (j ∈ _)) as [Hin|Hin]; rewrite (dir_mem _ _ _ _ Hd) in Hin.
      - rewrite decide_False; [done|apply Hin].
      - destruct (decide (cst w j = I)); [done|]. exfalso; by apply Hin. }
    assert (Hc2 : forall f g j, (j < n)%nat ->
      cst (mkWorld (<[Line (kid k) x := S]> (states w1)) f g (ext w1)) j =
      if decide (j = k) then S else if decide (cst w j = I) then I else S).
    { intros f g j Hj. rewrite Hcst by done. destruct (decide (j = k)); [done|by apply Hc1']. }
    split; cbn [ext states dir fst snd].
    + apply (sent_ext _ _ _ _ _ _ Hs).
    + intros y. rewrite own_set. apply (sent_own _ _ _ _ _ _ Hs).
    + intros y Hy. rewrite dir_set_other by done. by apply (sent_dir _ _ _ _ _ _ Hs).
    + rewrite fn_lookup_insert, own_set. apply (dir_ok_gets _ (cst w1)); try done.
      * intros j. rewrite Hs1, (dir_mem _ _ _ _ Hd). split; intros [Hj Hn]; (split; [done|]).
        -- rewrite Hc1', decide_False by done. done.
        -- intros HI. by rewrite Hc1', decide_True in Hn.
      * by rewrite Hs1.
      * by rewrite (sent_own _ _ _ _ _ _ Hs).
      * intros j Hj. rewrite Hc2 by done. destruct (decide (j = k)); [done|].
        rewrite Hc1' by done. by destruct (decide (cst w j = I)).
    + rewrite Hc2, decide_True by done. cbn. by rewrite Eb.
    + intros j Hj Hjk. rewrite Hc2, decide_False by done. done.
    + apply (sent_cycle _ _ _ _ _ _ Hs).
    + intros Hb. apply (sent_wb _ _ _ _ _ _ Hs). destruct Hb as [->|(_ & j & Hj & _ & HM)]; [by left|].
      right. exists j. split; [|done]. apply (dir_mem _ _ _ _ Hd). by rewrite HM.
    + intros Hb. destruct (sent_wb2 _ _ _ _ _ _ Hs Hb) as [->|(j & Hj & Hx)]; [by left|right].
      apply (dir_excl _ _ _ _ Hd). destruct (isExclusive (dir w (c, l))) eqn:He; [done|].
      apply (dir_mem _ _ _ _ Hd) in Hj as [Hj _].
      destruct (dir_shared _ _ _ _ Hd He j Hj), Hx; congruence.
Qed.

(** The first half of a GETX: an upgrading child leaves the sharers. *)
Lemma upgrade_out w :
  dir_ok n (dir w (c, l)) (cst w) (states w (Line c l)) -> cst w k = I \/ cst w k = S ->
  wp (if shares (dir w (c, l)) k then
        _ ← require (negb (isExclusive (dir w (c, l))));
        upd_entry c l (fun e => set_numSharers (u32 (numSharers e - 1)) (reset_sharer k e))
      else mret tt) w
    (fun _ w1 => ext w1 = ext w /\ states w1 = states w /\
       (forall y, y <> l -> dir w1 (c, y) = dir w (c, y)) /\
       numSharers (dir w1 (c, l)) = Z.of_nat (size (sharers (dir w1 (c, l)))) /\
       (forall j, j ∈ sharers (dir w1 (c, l)) <-> j ∈ sharers (dir w (c, l)) /\ j <> k)).
Proof.
  intros Hd Hs. unfold shares. case_bool_decide as Hin.
  - assert (He : isExclusive (dir w (c, l)) = false).
    { destruct (isExclusive (dir w (c, l))) eqn:He; [|done].
      destruct (dir_owner _ _ _ _ Hd He k Hin), Hs; congruence. }
    wp_steps; [by rewrite He|]. unfold upd_entry. wp_steps. cbn [ext states dir].
    split_and!; [done|done|by intros; apply dir_set_other| |];
      rewrite fn_lookup_insert; unfold set_numSharers, reset_sharer; cbn [numSharers sharers].
    + pose proof (size_remove _ Hin) as Hsz. rewrite (dir_count _ _ _ _ Hd).
      pose proof (size_range _ (fun y Hy => proj1 (proj1 (dir_mem _ _ _ _ Hd y) Hy))).
      rewrite u32_id; [lia|]. unfold in_u32; lia.
    + intros j. by rewrite elem_of_difference, elem_of_singleton.
  - wp_steps. split_and!; try done; [apply (dir_count _ _ _ _ Hd)|].
    intros j. split; [|by intros [??]]. intros Hj. split; [done|]. by intros ->.
Qed.

Lemma tcc_getx_ok w wb cyc src fl :
  J (ext w) -> early cyc -> excl (states w (Line c l)) ->
  dir_ok n (dir w (c, l)) (cst w) (states w (Line c l)) -> cst w k = I \/ cst w k = S ->
  wp (tcc_processAccess topo invalidate c a l GETX k (bool_decide (excl (states w (Line c l))))
        (Line (kid k) x) wb cyc src fl) w
     (fun r w' => access_post GETX fl k wb cyc w r w').
Proof.
  intros Hx0 Hc Hown Hd Hk0. destruct (Hc) as [Hc0 Hc1].
  unfold tcc_processAccess, get_entry. wp_step. wp_step. wp_step.
  wp_step; [by apply bool_decide_eq_true_2|]. wp_step.
  eapply wp_mono; [by apply upgrade_out|]. intros [] w1 (W1 & W2 & W3 & W4 & W5). cbn beta.
  assert (Hcw1 : forall j, cst w1 j = cst w j) by (intros j; unfold cst; by rewrite W2).
  wp_step. eapply wp_mono.
  { apply sendInvalidates_INV; [by rewrite W1|done|done|].
    intros j Hj. rewrite Hcw1. apply W5 in Hj as [Hj _]. by apply (dir_mem _ _ _ _ Hd). }
  intros [resp wb'] w2 [Hs He2]. cbn beta iota. unfold upd_entry. wp_steps.
  { cbn. by rewrite fn_lookup_insert, He2. }
  unfold set_state. wp_steps. cbn [ext states dir prof].
  assert (Hsum : forall j, (j < n)%nat -> j <> k -> cst w2 j = I).
  { intros j Hj Hjk. rewrite (sent_cst _ _ _ _ _ _ Hs) by done.
    destruct (decide (j ∈ _)) as [Hin|Hin]; [done|]. rewrite Hcw1, W5 in *.
    destruct (decide (cst w j = I)) as [|Hn]; [done|]. exfalso. apply Hin. split; [|done].
    by apply (dir_mem _ _ _ _ Hd). }
  assert (Hc2 : forall f g j, (j < n)%nat ->
    cst (mkWorld (<[Line (kid k) x := M]> (states w2)) f g (ext w2)) j =
    if decide (j = k) then M else I).
  { intros f g j Hj. rewrite cst_set by done. destruct (decide (j = k)); [done|by apply Hsum]. }
  split; cbn [ext states dir fst snd].
  - by rewrite (sent_ext _ _ _ _ _ _ Hs).
  - intros y. by rewrite own_set, (sent_own _ _ _ _ _ _ Hs), W2.
  - intros y Hy. rewrite dir_set_other by done. by rewrite (sent_dir _ _ _ _ _ _ Hs), W3.
  - rewrite fn_lookup_insert, own_set, He2. unfold set_exclusive, set_numSharers, set_sharer.
    cbn [numSharers sharers exclusive]. rewrite (right_id_L ∅ (∪)).
    apply (dir_ok_alone _ M); [|by right|by intros; apply Hc2].
    by rewrite (sent_own _ _ _ _ _ _ Hs), W2.
  - by rewrite Hc2, decide_True.
  - intros j Hj Hjk. by rewrite Hc2, decide_False.
  - apply (sent_cycle _ _ _ _ _ _ Hs).
  - intros Hb. apply (sent_wb _ _ _ _ _ _ Hs). destruct Hb as [->|(_ & j & Hj & Hjk & HM)]; [by left|].
    right. exists j. rewrite W5, Hcw1. split_and!; try done. apply (dir_mem _ _ _ _ Hd). by rewrite HM.
  - intros _. by right.
Qed.

Lemma dir_ok_keep e cs own s' :
  dir_ok n e cs own -> isExclusive e = true -> k ∈ sharers e ->
  (forall j, (j < n)%nat -> s' j = if decide (j = k) then E else cs j) ->
  dir_ok n e s' own.
Proof.
  intros [Hc Hm H1 He Ho Hs Hi] Hx Hin Hs'. split; try done.
  - intros j. rewrite Hm. split; intros [Hj Hn]; (split; [done|]); rewrite Hs' in * by done;
      destruct (decide (j = k)) as [->|]; try done. by apply Hm.
  - intros _ j Hj. rewrite Hs' by (by apply Hm in Hj as [? _]).
    destruct (decide (j = k)); [by left|by apply Ho].
  - by rewrite Hx.
Qed.

Lemma tcc_putx_ok w wb cyc src fl b :
  early cyc -> dir_ok n (dir w (c, l)) (cst w) (states w (Line c l)) -> cst w k = M ->
  wp (tcc_processAccess topo invalidate c a l PUTX k b (Line (kid k) x) wb cyc src fl) w
     (fun r w' => access_post PUTX fl k wb cyc w r w').
Proof.
  intros Hc Hd HM. pose proof (L_nonneg Htopo) as HL. destruct (Hc) as [Hc0 Hc1].
  assert (He : isExclusive (dir w (c, l)) = true).
  { destruct (isExclusive (dir w (c, l))) eqn:He; [done|].
    destruct (dir_shared _ _ _ _ Hd He k Hk); congruence. }
  assert (Hin : k ∈ sharers (dir w (c, l))) by (apply (dir_mem _ _ _ _ Hd); by rewrite HM).
  assert (Hst : states w (Line (kid k) x) = M) by (unfold cst in HM; by rewrite Hlid in HM).
  unfold tcc_processAccess, get_entry. wp_steps; [done|].
  destruct (is_flag fl PUTX_KEEPEXCL) eqn:Hfl.
  - unfold get_state, set_state, shares. wp_steps; [by apply bool_decide_eq_true_2| |].
    { by rewrite Hst. }
    assert (Hc2 : forall f g j, (j < n)%nat ->
      cst (mkWorld (<[Line (kid k) x := E]> (states w)) f g (ext w)) j =
      if decide (j = k) then E else cst w j) by (intros; by apply cst_set).
    split; cbn [ext states dir fst snd].
    + done.
    + intros y. apply own_set.
    + done.
    + rewrite own_set. by apply (dir_ok_keep _ (cst w)); auto.
    + rewrite Hc2, decide_True by done. cbn. by rewrite Hfl.
    + intros j Hj Hjk. by rewrite Hc2, decide_False.
    + lia.
    + by intros [->|[? _]].
    + intros ->. by left.
  - wp_step. eapply wp_mono.
    { apply (tcc_put_ok w PUTX fl wb cyc Hc); [by right|done|by rewrite HM]. }
    intros [] w'. by wp_steps.
Qed.

Lemma tcc_access_ok w t wb cyc src fl :
  J (ext w) -> early cyc -> states w (Line c l) <> I ->
  (t = GETX -> excl (states w (Line c l))) -> acc_pre t (cst w k) ->
  dir_ok n (dir w (c, l)) (cst w) (states w (Line c l)) ->
  wp (tcc_processAccess topo invalidate c a l t k (bool_decide (excl (states w (Line c l))))
        (Line (kid k) x) wb cyc src fl) w (fun r w' => access_post t fl k wb cyc w r w').
Proof.
  intros Hx0 Hc Hown Hex Hpre Hd.
  destruct t; cbn in Hpre.
  - by apply tcc_gets_ok.
  - apply tcc_getx_ok; auto.
  - assert (Hn : cst w k <> I) by (by destruct Hpre as [->| ->]).
    unfold tcc_processAccess, get_entry. wp_steps.
    eapply wp_mono; [apply (tcc_put_ok w PUTS fl wb cyc Hc (or_introl eq_refl) Hd Hn)|].
    intros [] w'. by wp_steps.
  - by apply tcc_putx_ok.
Qed.

(** C1: the directory of a cache is exact and its asserts never fire. If the entry
    of a line matches the states of the children ([dir_ok]) and the request is
    legal for the requester's state, [MESITopCC::processAccess] succeeds; the entry
    it leaves matches the new states; the requester holds the state the request
    grants; a GETX leaves every other child invalid, a GETS leaves the others at
    most shared, a PUT leaves them alone; a dirty copy that is taken away is always
    reported as a writeback; and no two children end up with the line while one of
    them owns it. *)
Theorem directory_correct w t own wb cyc src fl :
  J (ext w) -> early cyc -> own = states w (Line c l) -> own <> I ->
  (t = GETX -> excl own) -> acc_pre t (cst w k) ->
  dir_ok n (dir w (c, l)) (cst w) own ->
  wp (tcc_processAccess topo invalidate c a l t k (bool_decide (excl own)) (Line (kid k) x)
        wb cyc src fl) w
     (fun r w' => access_post t fl k wb cyc w r w' /\
        forall i j, (i < n)%nat -> (j < n)%nat -> i <> j -> excl (cst w' i) -> cst w' j = I).
Proof.
  intros Hx0 Hc -> Hown Hex Hpre Hd.
  eapply wp_mono; [by apply tcc_access_ok|].
  intros r w' Hp. split; [done|]. intros i j Hi Hj Hij.
  eapply dir_ok_swmr; [apply (ap_ok _ _ _ _ _ _ _ _ Hp)|done..].
Qed.

End Requester.

(** ** Invalidations from above *)

(** The line as seen from the cache: its directory entry matches its children. *)
Definition line_ok (w : world X) : Prop :=
  dir_ok n (dir w (c, l)) (cst w) (states w (Line c l)).

Lemma bcc_processInval_ok t wb (w : world X) :
  inv_pre t (states w (Line c l)) ->
  wp (bcc_processInval c l t wb) w (fun b w' =>
    ext w' = ext w /\ dir w' = dir w /\
    (forall r, states w' r = if decide (r = Line c l) then inv_after t else states w r) /\
    b = wb || bool_decide (t <> FWD /\ states w (Line c l) = M)).
Proof.
  intros Hp. unfold bcc_processInval, get_state, set_state, inc.
  assert (Hins : forall s r, <[Line c l := s]> (states w) r =
    if decide (r = Line c l) then s else states w r).
  { intros s r. destruct (decide _) as [->|]; [by rewrite fn_lookup_insert|].
    by rewrite fn_lookup_insert_ne. }
  destruct t; cbn in Hp; wp_steps;
    try (apply bool_decide_eq_true_2; first [done|destruct Hp; congruence|congruence]).
  - split_and!; [done|done|intros; apply Hins|]. f_equal. apply bool_decide_ext. naive_solver.
  - split_and!; [done|done|intros; apply Hins|]. f_equal. apply bool_decide_ext. naive_solver.
  - split_and!; [done|done|intros r; destruct (decide _) as [->|]; done|].
    rewrite bool_decide_eq_false_2, orb_false_r; [done|naive_solver].
Qed.

(** What [processInv] does to the line. *)
Record inval_post (t : InvType) (wb : bool) (cyc : Z) (w : world X) (r : Z * bool)
    (w' : world X) : Prop := {
  ip_ext : ext w' = ext w;
  ip_ok : line_ok w';
  ip_own : states w' (Line c l) = inv_after t;
  ip_cst : forall k, (k < n)%nat -> cst w' k =
    match t with
    | INV => I
    | INVX => if decide (cst w k = I) then I else S
    | FWD => cst w k
    end;
  ip_frame : forall y, y <> l ->
    states w' (Line c y) = states w (Line c y) /\ dir w' (c, y) = dir w (c, y);
  ip_cycle : cyc <= r.1 <= cyc + L + 2 ^ 32;
  ip_wb : t <> FWD ->
    (wb = true \/ states w (Line c l) = M \/ exists k, (k < n)%nat /\ cst w k = M) -> r.2 = true;
  ip_wb2 : r.2 = true -> wb = true \/ excl (states w (Line c l))
}.

(** Tail of [processInv]: adjust our own state after the children answered. *)
Lemma processInval_tail t wb cyc w r w1 :
  line_ok w -> inv_pre t (states w (Line c l)) ->
  sent t wb cyc w r w1 ->
  dir_ok n (dir w1 (c, l)) (cst w1) (inv_after t) ->
  (forall k, (k < n)%nat -> cst w1 k =
     match t with INV => I | INVX => if decide (cst w k = I) then I else S | FWD => cst w k end) ->
  wp (wb' ← bcc_processInval c l t r.2; mret (r.1, wb')) w1 (inval_post t wb cyc w).
Proof.
  intros Hok Hp Hs Hd Hc. assert (Hown := sent_own _ _ _ _ _ _ Hs).
  wp_step. eapply wp_mono; [apply bcc_processInval_ok; by rewrite Hown|].
  intros b w2 (E1 & E2 & E3 & ->). wp_step. cbn beta.
  assert (Hcst2 : forall k, (k < n)%nat -> cst w2 k = cst w1 k).
  { intros k Hk. unfold cst. destruct (lid k); [|done]. rewrite E3, decide_False; [done|].
    intros [= Heq _]. by apply (kid_not_self k Hk). }
  split; cbn [fst snd].
  - by rewrite E1, (sent_ext _ _ _ _ _ _ Hs).
  - unfold line_ok. rewrite E2, E3, decide_True by done. by apply (dir_ok_ext _ _ (cst w1)).
  - by rewrite E3, decide_True.
  - intros k Hk. by rewrite Hcst2, Hc.
  - intros y Hy. rewrite E3, decide_False, E2 by congruence.
    by rewrite Hown, (sent_dir _ _ _ _ _ _ Hs).
  - apply (sent_cycle _ _ _ _ _ _ Hs).
  - intros Ht Hb. apply orb_true_iff. rewrite bool_decide_eq_true, Hown.
    destruct Hb as [->|[HM|(k & Hk & HM)]]; [left|by right|left]; apply (sent_wb _ _ _ _ _ _ Hs).
    + by left.
    + right. exists k. split; [|done]. apply (dir_mem _ _ _ _ Hok). by rewrite HM.
  - intros Hb. apply orb_true_iff in Hb as [Hb|Hb].
    + destruct (sent_wb2 _ _ _ _ _ _ Hs Hb) as [|(k & Hk & Hx)]; [by left|right].
      apply (dir_excl _ _ _ _ Hok). destruct (isExclusive (dir w (c, l))) eqn:He; [done|].
      apply (dir_mem _ _ _ _ Hok) in Hk as [Hk _].
      destruct (dir_shared _ _ _ _ Hok He k Hk), Hx; congruence.
    + apply bool_decide_eq_true in Hb as [_ Hb]. rewrite Hown in Hb. right. by right.
Qed.

Lemma dir_ok_cleared ex s :
  (forall k, (k < n)%nat -> s k = I) -> dir_ok n (mkEntry 0 ∅ ex) s I.
Proof.
  intros Hs. split; cbn; try done.
  - intros k. split; [intros H; by apply elem_of_empty in H|intros [Hk Hn]]. by rewrite Hs in Hn.
  - intros _ k Hk. left. by apply Hs.
Qed.

(** Dropping the ownership of a line whose owner was downgraded. *)
Lemma dir_ok_downgraded e cs s' own own' :
  dir_ok n e cs own -> own' <> I ->
  (forall k, (k < n)%nat -> s' k = if decide (cs k = I) then I else S) ->
  dir_ok n (set_exclusive false e) s' own'.
Proof.
  intros [Hc Hm H1 He Ho Hs Hi] Hown Hs'. split; cbn; try done.
  - intros k. rewrite Hm. split; intros [Hk Hn]; (split; [done|]).
    + by rewrite Hs', decide_False.
    + intros HI. by rewrite Hs', decide_True in Hn.
  - intros Hx. unfold isExclusive in Hx. cbn in Hx. by rewrite andb_false_r in Hx.
  - intros Hx. unfold isExclusive in Hx. cbn in Hx. by rewrite andb_false_r in Hx.
  - intros _ k Hk. rewrite Hs' by done. destruct (decide _); auto.
Qed.

Lemma dir_ok_shared_own e cs own own' :
  dir_ok n e cs own -> isExclusive e = false -> own' <> I -> dir_ok n e cs own'.
Proof.
  intros [Hc Hm H1 He Ho Hs Hi] Hx Hown. split; try done. by rewrite Hx.
Qed.

(** An invalidation or downgrade that is legal for the cache's own state
    succeeds, reaches exactly the children that need it, leaves the line and its
    directory consistent, touches no other line, and does not answer before it was asked. *)
Lemma invalidate_serves w t wb cyc src :
  terminal (topo c) = false -> nonInclusiveHack (topo c) = false ->
  J (ext w) -> early cyc -> line_ok w -> inv_pre t (states w (Line c l)) ->
  wp (cc_processInv topo invalidate c (mkInv a t wb cyc src) l cyc) w (inval_post t wb cyc w).
Proof.
  intros Hterm Hincl HJ Hc Hok Hp.
  unfold cc_processInv, tcc_processInval. rewrite Hterm, Hincl. cbn [inv_lineAddr inv_type
    inv_writeback inv_srcId].
  destruct (decide (t = FWD)) as [->|Ht].
  - wp_step. wp_step. wp_step; [done|]. wp_step.
    apply (processInval_tail FWD wb cyc w (cyc, wb)); try done.
    + cbn in Hp. eapply sent_shared; [done|done|done|].
      destruct (isExclusive (dir w (c, l))) eqn:He; [|done].
      destruct (dir_excl _ _ _ _ Hok He); congruence.
    + cbn in Hp. unfold line_ok in Hok. by rewrite Hp in Hok.
  - wp_step. destruct t; [| |done].
    + eapply wp_mono; [apply sendInvalidates_INV; try done; [apply (dir_count _ _ _ _ Hok)|]|].
      { intros k. apply (dir_mem _ _ _ _ Hok). }
      intros [resp wb'] w1 [Hs He]. cbn beta iota.
      assert (HI : forall k, (k < n)%nat -> cst w1 k = I).
      { intros k Hk. rewrite (sent_cst _ _ _ _ _ _ Hs) by done.
        destruct (decide (k ∈ _)) as [|Hin]; [done|].
        destruct (decide (cst w k = I)); [done|]. exfalso. by apply Hin, (dir_mem _ _ _ _ Hok). }
      apply (processInval_tail INV wb cyc w (resp, wb')); try done.
      rewrite He. by apply dir_ok_cleared.
    + cbn in Hp. destruct (isExclusive (dir w (c, l))) eqn:He.
      * destruct (exclusive_single _ _ _ _ Hok He) as (k0 & Hk0 & Hsh & Hnk & _).
        eapply wp_mono; [apply sendInvalidates_INVX; try done|].
        -- by rewrite Hsh, size_singleton.
        -- intros j Hj. split; [by apply (dir_mem _ _ _ _ Hok)|by apply (dir_owner _ _ _ _ Hok)].
        -- intros [resp wb'] w1 [Hs He1]. cbn beta iota.
           assert (HI : forall k, (k < n)%nat -> cst w1 k = if decide (cst w k = I) then I else S).
           { intros k Hk. rewrite (sent_cst _ _ _ _ _ _ Hs) by done.
             destruct (decide (k ∈ _)) as [Hin|Hin]; rewrite (dir_mem _ _ _ _ Hok) in Hin.
             - rewrite decide_False; [done|apply Hin].
             - destruct (decide (cst w k = I)); [done|]. exfalso; by apply Hin. }
           apply (processInval_tail INVX wb cyc w (resp, wb')); try done.
           rewrite He1. by eapply dir_ok_downgraded.
      * unfold sendInvalidates, get_entry. wp_steps. rewrite He. cbn [negb].
        rewrite bool_decide_eq_true_2 by done. cbn [andb]. wp_step. cbn beta iota.
        apply (processInval_tail INVX wb cyc w (cyc, wb)); try done.
        -- by eapply sent_shared.
        -- by eapply dir_ok_shared_own.
        -- intros k Hk. destruct (decide (cst w k = I)) as [|]; [done|].
           by destruct (dir_shared _ _ _ _ Hok He k Hk).
Qed.

(** [sendInvalidates] of either kind on a consistent line. *)
Lemma sendInvalidates_sent t w wb cyc src : t <> FWD -> J (ext w) -> early cyc -> line_ok w -> inv_pre t (states w (Line c l)) ->
  wp (sendInvalidates topo invalidate c a l t wb cyc src) w (fun r w' => sent t wb cyc w r w').
Proof.
  intros Ht HJ Hc Hok Hp. destruct t; [| |done].
  - eapply wp_mono; [apply sendInvalidates_INV; try done; [apply (dir_count _ _ _ _ Hok)|]|by intros r w' [? _]].
    intros k. apply (dir_mem _ _ _ _ Hok).
  - destruct (isExclusive (dir w (c, l))) eqn:He.
    + destruct (exclusive_single _ _ _ _ Hok He) as (k0 & Hk0 & Hsh & _).
      eapply wp_mono; [apply sendInvalidates_INVX; try done|by intros r w' [? _]].
      * by rewrite Hsh, size_singleton.
      * intros j Hj. split; [by apply (dir_mem _ _ _ _ Hok)|by apply (dir_owner _ _ _ _ Hok)].
    + unfold sendInvalidates, get_entry. wp_steps. rewrite He. cbn [negb].
      rewrite bool_decide_eq_true_2 by done. cbn [andb]. wp_step. by eapply sent_shared.
Qed.

(** ** Dirty copies

    [copies k] are the places where child [k] and the caches below it keep the line. *)
Section Dirty.
Context (copies : nat -> list sref).

Definition dirty (k : nat) (w : world X) : Prop := exists r, r ∈ copies k /\ states w r = M.
Definition dirty_below (w : world X) : Prop := exists k, (k < n)%nat /\ dirty k w.

(** Inclusion: a copy is dirty only below a child that owns the line. *)
Definition owned (w : world X) : Prop := forall k, (k < n)%nat -> dirty k w -> excl (cst w k).

(** What an invalidation of a child says about its copies, and that it leaves those of the
    others alone. *)
Definition inv_exact : Prop := forall k t wb cyc src w,
  (k < n)%nat -> t <> FWD -> J (ext w) -> inv_pre t (cst w k) -> 0 <= cyc -> cyc + L + 2 ^ 32 < 2 ^ 64 ->
  wp (invalidate (kid k) (mkInv a t wb cyc src)) w (fun r w' =>
    (r.2 = true <-> wb = true \/ dirty k w) /\ ~ dirty k w' /\
    forall j x, (j < n)%nat -> j <> k -> x ∈ copies j -> states w' x = states w x).

Context (Hexact : inv_exact).

Lemma dirty_same k w w' : (forall x, x ∈ copies k -> states w' x = states w x) -> dirty k w' <-> dirty k w.
Proof. intros H. split; intros (x & Hx & HM); exists x; split; try done; [by rewrite <- H|by rewrite H]. Qed.

Record loop_dirty (wb : bool) (w0 : world X) (i : nat) (ac : inv_acc) (w : world X) : Prop := {
  ld_wb : acc_wb ac = true <-> wb = true \/ exists k, (k < i)%nat /\ k ∈ sharers (dir w0 (c, l)) /\ dirty k w0;
  ld_rest k : (k < n)%nat -> (k < i)%nat /\ k ∈ sharers (dir w0 (c, l)) \/ forall x, x ∈ copies k -> states w x = states w0 x;
  ld_clean k : (k < i)%nat -> k ∈ sharers (dir w0 (c, l)) -> ~ dirty k w
}.

Section Loop.
Context (t : InvType) (wb : bool) (cyc src : Z) (w0 : world X).
Context (Ht : t <> FWD) (Hcyc : early cyc) (Hx0 : J (ext w0)).
Context (Hpre : forall k, k ∈ sharers (dir w0 (c, l)) -> (k < n)%nat /\ inv_pre t (cst w0 k)).

Lemma loop_step_dirty i ac w : (i < n)%nat -> loop_inv t wb cyc w0 i ac w -> loop_dirty wb w0 i ac w ->
  wlp (send_to_child topo invalidate c a l t cyc src ac i) w (fun ac' w' => loop_dirty wb w0 (Datatypes.S i) ac' w').
Proof.
  intros Hi HI [D1 D2 D3]. unfold send_to_child, get_entry. wlp_step. wlp_step.
  assert (Hlt : forall k, (k < Datatypes.S i)%nat <-> (k < i)%nat \/ k = i) by lia.
  destruct (shares (dir w (c, l)) i) eqn:Es; unfold shares in Es; [apply bool_decide_eq_true in Es|apply bool_decide_eq_false in Es];
    rewrite (li_sharers _ _ _ _ _ _ _ HI) in Es.
  - destruct Es as [Hin _]. destruct (Hpre i Hin) as [_ Hp]. destruct Hcyc as [Hc0 Hc1].
    assert (Hci : cst w i = cst w0 i).
    { rewrite (li_cst _ _ _ _ _ _ _ HI) by done. destruct (decide _) as [[_ ?]|]; [lia|done]. }
    assert (Hdi : dirty i w <-> dirty i w0).
    { destruct (D2 i Hi) as [[? _]|H]; [lia|by apply dirty_same]. }
    wlp_step. eapply wlp_mono; [apply wlp_wp, (Hexact i t (acc_wb ac) cyc src w); try done|].
    { by rewrite (li_ext _ _ _ _ _ _ _ HI). }
    { by rewrite Hci. }
    intros [resp wb'] w1 (Hb & Hcl & Hoth). cbn [snd] in Hb. wlp_step.
    assert (Hpost : loop_dirty wb w0 (Datatypes.S i) (mkAcc (Z.max (u64 (resp + childrenRTTs (topo c) !!! i)) (maxCycle ac)) wb' (u32 (sentInvs ac + 1))) w1).
    { split; cbn [acc_wb].
      - rewrite Hb, D1, Hdi. setoid_rewrite Hlt. naive_solver.
      - intros k Hk. destruct (decide (k = i)) as [->|Hne]; [left; split; [lia|done]|].
        destruct (D2 k Hk) as [[? ?]|H]; [left; split; [lia|done]|right]. intros x Hx. rewrite <- H by done. by apply (Hoth k).
      - intros k Hk Hks. destruct (decide (k = i)) as [->|Hne]; [done|].
        rewrite (dirty_same k w w1); [apply D3; [lia|done]|]. intros x Hx. apply (Hoth k); [by apply Hpre|done|done]. }
    destruct (decide (t = INV)); unfold upd_entry; [wlp_step|wlp_step]; wlp_step; [|exact Hpost].
    destruct Hpost as [P1 P2 P3]. by split.
  - wlp_step. assert (Hni : i ∉ sharers (dir w0 (c, l))).
    { intros Hin. apply Es. split; [done|lia]. }
    split.
    + rewrite D1. setoid_rewrite Hlt. split; [naive_solver|]. intros [?|(k & [?| ->] & ? & ?)]; [by left|right; by exists k|done].
    + intros k Hk. destruct (D2 k Hk) as [[? ?]|H]; [left; split; [lia|done]|by right].
    + intros k Hk Hks. apply D3; [|done]. destruct (decide (k = i)) as [->|]; [done|lia].
Qed.

Lemma loop_spec_dirty :
  wp (loop (send_to_child topo invalidate c a l t cyc src) (mkAcc cyc wb 0) (seq 0 n)) w0
    (fun ac w => loop_inv t wb cyc w0 n ac w /\ loop_dirty wb w0 n ac w).
Proof.
  eapply wp_mono.
  - apply (wp_loop (fun d _ ac w => loop_inv t wb cyc w0 (length d) ac w /\
             sentInvs ac = Z.of_nat (sent_upto w0 (length d)) /\ loop_dirty wb w0 (length d) ac w)).
    + cbn. split_and!; [by apply loop_start| |].
      * unfold sent_upto. replace (filter _ _) with (∅ : gset nat); [by rewrite size_empty|].
        apply leibniz_equiv. intros x. rewrite elem_of_filter.
        split; [intros H; by apply elem_of_empty in H|intros [? _]; lia].
      * split; cbn; [|by right|lia]. split; [by left|]. intros [?|(k & ? & _)]; [done|lia].
    + intros d i todo ac w Hseq (HI & Hs & HD).
      assert (Hd : i = length d /\ (i < n)%nat).
      { pose proof (f_equal length Hseq) as Hl. rewrite length_app, length_seq in Hl. cbn in Hl.
        pose proof (f_equal (lookup (length d)) Hseq) as Hk.
        rewrite lookup_seq_lt, list_lookup_middle in Hk by lia. injection Hk as <-. lia. }
      destruct Hd as [-> Hlt]. rewrite length_app, Nat.add_1_r.
      eapply wp_mono; [apply wp_wlp; [by apply (loop_step t wb cyc src w0)|by apply loop_step_dirty]|].
      by intros ac' w' [[? ?] ?].
  - cbn. intros ac w. rewrite length_seq. tauto.
Qed.
End Loop.

Lemma below_sharers w : line_ok w -> owned w ->
  (dirty_below w <-> exists k, (k < n)%nat /\ k ∈ sharers (dir w (c, l)) /\ dirty k w).
Proof.
  intros Hok Ho. split; [|by intros (k & Hk & _ & Hd); exists k]. intros (k & Hk & Hd). exists k. split_and!; try done.
  apply (dir_mem _ _ _ _ Hok). split; [done|]. destruct (Ho k Hk Hd); congruence.
Qed.

(** The children that answer say together whether a copy below was dirty, and none is then. *)
Lemma sendInvalidates_dirty t w wb cyc src : t <> FWD -> J (ext w) -> early cyc -> line_ok w -> owned w ->
  wlp (sendInvalidates topo invalidate c a l t wb cyc src) w (fun r w' =>
    (r.2 = true <-> wb = true \/ dirty_below w) /\ ~ dirty_below w').
Proof.
  intros Ht Hx0 Hc Hok Ho. pose proof (below_sharers w Hok Ho) as Hbelow.
  assert (Hnone : (forall k, k ∈ sharers (dir w (c, l)) -> ~ excl (cst w k)) -> ~ dirty_below w).
  { intros Hs (k & Hk & Hin & Hd)%Hbelow. by apply (Hs k Hin), Ho. }
  assert (Hstay : ~ dirty_below w -> ((cyc, wb).2 = true <-> wb = true \/ dirty_below w) /\ ~ dirty_below w).
  { intros H. split; [cbn; naive_solver|done]. }
  unfold sendInvalidates, get_entry. wlp_step. wlp_step.
  destruct (bool_decide (t = INVX) && negb (isExclusive (dir w (c, l)))) eqn:E1.
  { wlp_step. apply Hstay, Hnone. apply andb_true_iff in E1 as [_ Hx%negb_true_iff].
    intros k [Hk _]%(dir_mem _ _ _ _ Hok) He. destruct (dir_shared _ _ _ _ Hok Hx k Hk), He; congruence. }
  destruct (isEmpty (dir w (c, l))) eqn:E0; cbn [negb].
  { wlp_step. apply Hstay, Hnone. intros k Hk _. unfold isEmpty in E0. rewrite (dir_count _ _ _ _ Hok) in E0.
    apply Z.eqb_eq in E0. assert (sharers (dir w (c, l)) ≡ ∅) as He by (apply size_empty_inv; lia). set_solver. }
  assert (Hpre : forall k, k ∈ sharers (dir w (c, l)) -> (k < n)%nat /\ inv_pre t (cst w k)).
  { intros k Hk. pose proof (proj1 (dir_mem _ _ _ _ Hok k) Hk) as [? ?]. split; [done|]. destruct t; try done.
    apply (dir_owner _ _ _ _ Hok); [|done]. destruct (isExclusive (dir w (c, l))); [done|].
    by rewrite bool_decide_eq_true_2 in E1. }
  wlp_step. eapply wlp_mono; [apply wlp_wp, (loop_spec_dirty t wb cyc src w Ht Hc Hx0 Hpre)|].
  intros ac w1 [_ [D1 D2 D3]]. wlp_step. wlp_step. wlp_step. wlp_step.
  assert (Hpost : (acc_wb ac = true <-> wb = true \/ dirty_below w) /\ ~ dirty_below w1).
  { split; [by rewrite D1, Hbelow|]. intros (k & Hk & Hd). destruct (decide (k ∈ sharers (dir w (c, l)))) as [Hin|Hin]; [by apply (D3 k)|].
    destruct (D2 k Hk) as [[_ ?]|Hs]; [done|]. apply (dirty_same k w w1) in Hd; [|done].
    assert (dirty_below w) as (k' & Hk' & Hin' & Hd')%Hbelow by (by exists k).
    apply Hin, (dir_mem _ _ _ _ Hok). split; [done|]. destruct (Ho k Hk Hd); congruence. }
  destruct (decide (t = INV)); unfold upd_entry.
  - repeat wlp_step. exact Hpost.
  - repeat wlp_step. exact Hpost.
Qed.

(** C3: a cache keeps towards its parent the contract its children keep towards
    it. An invalidation or downgrade that is legal for the cache's own state
    succeeds, reaches exactly the children that need it, leaves the line and its
    directory consistent, touches no other line and does not answer before it was asked; and
    it reports a writeback exactly when it was asked with one already, or the cache itself or
    a cache below it held the line modified. *)
Theorem invalidate_correct w t wb cyc src :
  terminal (topo c) = false -> nonInclusiveHack (topo c) = false ->
  J (ext w) -> early cyc -> line_ok w -> owned w -> inv_pre t (states w (Line c l)) ->
  wp (cc_processInv topo invalidate c (mkInv a t wb cyc src) l cyc) w (fun r w' => inval_post t wb cyc w r w' /\
    (r.2 = true <-> wb = true \/ states w (Line c l) = M \/ dirty_below w)).
Proof.
  intros Hterm Hincl HJ Hc Hok Ho Hp. apply wp_wlp; [by apply invalidate_serves|].
  unfold cc_processInv, tcc_processInval. rewrite Hterm, Hincl. cbn [inv_lineAddr inv_type inv_writeback inv_srcId].
  assert (Htail : forall (r : Z * bool) w1, states w1 (Line c l) = states w (Line c l) -> (t <> FWD -> r.2 = true <-> wb = true \/ dirty_below w) ->
    (t = FWD -> r.2 = wb /\ ~ dirty_below w) ->
    wlp (wb' ← bcc_processInval c l t r.2; mret (r.1, wb')) w1
      (fun (r' : Z * bool) (_ : world X) => r'.2 = true <-> wb = true \/ states w (Line c l) = M \/ dirty_below w)).
  { intros r w1 Hown H1 H2. wlp_step. eapply wlp_mono; [apply wlp_wp, bcc_processInval_ok; by rewrite Hown|].
    intros b w2 (_ & _ & _ & ->). wlp_step. cbn. rewrite orb_true_iff, bool_decide_eq_true, Hown.
    destruct (decide (t = FWD)) as [->|Ht]; [|rewrite H1 by done; naive_solver].
    destruct (H2 eq_refl) as [-> ?]. cbn in Hp. rewrite Hp. naive_solver. }
  destruct (decide (t = FWD)) as [->|Ht].
  - wlp_step. wlp_step. wlp_step. wlp_step. apply (Htail (cyc, wb)); try done. intros _. split; [done|].
    intros (k & Hk & Hd). cbn in Hp. destruct (isExclusive (dir w (c, l))) eqn:He.
    + destruct (dir_excl _ _ _ _ Hok He); congruence.
    + destruct (dir_shared _ _ _ _ Hok He k Hk), (Ho k Hk Hd); congruence.
  - wlp_step. eapply wlp_mono; [apply wlp_wp, wp_wlp; [|by apply sendInvalidates_dirty]|].
    + eapply wp_mono; [by apply (sendInvalidates_sent t)|]. intros r w1 H. exact H.
    + intros [resp b] w1 [Hs [Hb _]]. apply (Htail (resp, b)); [apply (sent_own _ _ _ _ _ _ Hs)|done|done].
Qed.
End Dirty.

(** ** Accesses from below *)

Section Parent.
Context (access : nat -> MemReq -> prog (world X) Z) (K : world X -> Prop) (Lp : Z).

(** What the parent leaves the cache that asked. *)
Definition up_post (t : AccessType) (fl : Z) (s : MESIState) : Prop :=
  match t with
  | GETS => s = S \/ (s = E /\ is_flag fl NOEXCL = false)
  | GETX => s = M
  | PUTS | PUTX => s = I
  end.

(** The contract of [MemObject::access], for this line: [K] is what the rest of
    the hierarchy needs.  Writebacks carry no flags. *)
Definition acc_contract : Prop := forall t cyc src fl w,
  K w -> (IsPut t = true -> fl = 0) -> acc_pre t (states w (Line c l)) -> early cyc ->
  wp (access (parent topo c a)
        (mkReq a t (selfId (topo c)) (Line c l) cyc (states w (Line c l)) src fl)) w
     (fun resp w' => K w' /\ cyc <= resp <= cyc + Lp /\ dir w' (c, l) = dir w (c, l) /\
        (forall j, (j < n)%nat -> cst w' j = cst w j) /\ up_post t fl (states w' (Line c l))).

Record K_ok : Prop := {
  K_J : forall w, K w -> J (ext w);
  K_prof : forall w f, K w -> K (mkWorld (states w) (dir w) f (ext w));
  K_own : forall w, K w -> excl (states w (Line c l)) ->
    K (mkWorld (<[Line c l := M]> (states w)) (dir w) (prof w) (ext w))
}.

Context (Hacc : acc_contract) (HK : K_ok).

(** What the bottom controller needs of its own state. *)
Definition bcc_pre (t : AccessType) (own : MESIState) : Prop :=
  match t with PUTS => own <> I | PUTX => excl own | GETS | GETX => True end.

Record bcc_post (t : AccessType) (fl : Z) (cyc : Z) (w : world X) (r : Z) (w' : world X)
    : Prop := {
  bp_K : K w';
  bp_dir : dir w' (c, l) = dir w (c, l);
  bp_cst : forall j, (j < n)%nat -> cst w' j = cst w j;
  bp_cycle : cyc <= r <= cyc + 2 ^ 32;
  bp_own : match t with
    | GETS => if decide (states w (Line c l) = I) then up_post GETS fl (states w' (Line c l))
              else states w' (Line c l) = states w (Line c l)
    | GETX | PUTX => states w' (Line c l) = M
    | PUTS => states w' (Line c l) = states w (Line c l)
    end
}.

Lemma cst_own w s f g j :
  (j < n)%nat -> cst (mkWorld (<[Line c l := s]> (states w)) f g (ext w)) j = cst w j.
Proof.
  intros Hj. unfold cst. destruct (lid j); [|done]. cbn. rewrite fn_lookup_insert_ne; [done|].
  intros [= Heq _]. by apply (kid_not_self j Hj).
Qed.

Lemma get_from_parent_ok t cyc src fl w :
  K w -> IsGet t = true -> early (cyc + 2 ^ 32) -> 0 <= cyc -> acc_pre t (states w (Line c l)) ->
  wp (get_from_parent topo access c a l t cyc src fl) w (fun r w' =>
    K w' /\ dir w' (c, l) = dir w (c, l) /\ (forall j, (j < n)%nat -> cst w' j = cst w j) /\
    cyc <= r <= cyc + 2 ^ 32 /\ up_post t fl (states w' (Line c l))).
Proof.
  intros HKw Ht [_ He] Hc0 Hp. unfold get_from_parent, get_state, inc. wp_step. wp_step. wp_step.
  pose proof (L_nonneg Htopo).
  eapply wp_mono; [apply Hacc; [done|by destruct t|done|split; lia]|].
  intros resp w1 (K1 & _ & D1 & C1 & U1). wp_steps. cbn [states dir prof ext].
  split_and!; [| | |..]; try done.
  - exact (K_prof HK _ _ K1).
  - pose proof (u32_range (u32 (resp - cyc) + parentRTT topo c a)). unfold in_u32 in *.
    unfold u64. rewrite Z.mod_small by lia. lia.
  - pose proof (u32_range (u32 (resp - cyc) + parentRTT topo c a)). unfold in_u32 in *.
    unfold u64. rewrite Z.mod_small by lia. lia.
Qed.

Lemma bcc_processAccess_ok t cyc src fl w :
  K w -> early (cyc + 2 ^ 32) -> 0 <= cyc -> bcc_pre t (states w (Line c l)) ->
  wp (bcc_processAccess topo access c a l t cyc src fl) w (bcc_post t fl cyc w).
Proof.
  intros HKw He Hc0 Hp. unfold bcc_processAccess, get_state.
  assert (Hup : forall t, IsGet t = true -> acc_pre t (states w (Line c l)) -> forall f,
    wp (get_from_parent topo access c a l t cyc src fl)
       (mkWorld (states w) (dir w) f (ext w)) (fun r w' =>
      K w' /\ dir w' (c, l) = dir w (c, l) /\ (forall j, (j < n)%nat -> cst w' j = cst w j) /\
      cyc <= r <= cyc + 2 ^ 32 /\ up_post t fl (states w' (Line c l)))).
  { intros t' Hg Ht f. apply (get_from_parent_ok t' cyc src fl (mkWorld (states w) (dir w) f (ext w)));
      [exact (K_prof HK _ _ HKw)|done..]. }
  destruct t; cbn in Hp.
  - do 2 wp_step. wp_step. destruct (decide (states w (Line c l) = I)) as [HI|HI].
    + wp_step. replace w with (mkWorld (states w) (dir w) (prof w) (ext w)) at 1 by (by destruct w).
      eapply wp_mono; [by apply Hup|]. intros r w1 (K1 & D1 & C1 & R1 & U1). unfold inc. wp_steps.
      { cbn. apply bool_decide_eq_true_2. cbn in U1. naive_solver. }
      { lia. }
      split; cbn [states dir]; try done; [exact (K_prof HK _ _ K1)|].
      by rewrite decide_True.
    + unfold inc. wp_steps; [lia|]. split; cbn [states dir]; try done; [exact (K_prof HK _ _ HKw)|lia|].
      by rewrite decide_False.
  - do 4 wp_step.
    eapply (wp_mono _ _ (fun r w1 => K w1 /\ dir w1 (c, l) = dir w (c, l) /\
      (forall j, (j < n)%nat -> cst w1 j = cst w j) /\ cyc <= r <= cyc + 2 ^ 32 /\
      states w1 (Line c l) = M)).
    + destruct (decide (states w (Line c l) = I \/ states w (Line c l) = S)) as [HIS|HIS].
      * unfold inc. wp_step. wp_step. by apply Hup.
      * destruct (decide (states w (Line c l) = E)) as [HE|HE]; unfold set_state, inc; wp_steps.
        -- split_and!; cbn [states dir ext prof]; try lia; try done.
           ++ exact (K_prof HK _ _ (K_own HK w HKw (or_introl HE))).
           ++ intros j Hj. by apply cst_own.
           ++ by rewrite fn_lookup_insert.
        -- split_and!; cbn [states dir ext prof]; try lia; try done.
           ++ exact (K_prof HK _ _ HKw).
           ++ destruct (states w (Line c l)); naive_solver.
    + intros r w1 (K1 & D1 & C1 & R1 & M1). wp_steps.
      { by apply bool_decide_eq_true_2. }
      { lia. }
      by split.
  - unfold inc. wp_steps; [by apply bool_decide_eq_true_2|lia|].
    split; cbn [states dir]; try done; [exact (K_prof HK _ _ HKw)|lia].
  - unfold set_state, inc. do 4 wp_step. wp_step; [apply bool_decide_eq_true_2; destruct Hp; auto|].
    wp_step. destruct (decide (states w (Line c l) = E)) as [HE|HE]; wp_steps; try lia.
    + split; cbn [states dir ext prof]; try done; try lia.
      * exact (K_prof HK _ _ (K_own HK w HKw (or_introl HE))).
      * intros j Hj. by apply cst_own.
      * by rewrite fn_lookup_insert.
    + split; cbn [states dir ext prof]; try done; try lia.
      * exact (K_prof HK _ _ HKw).
      * destruct Hp; congruence.
Qed.

(** Changing our own state never spoils the directory as long as an exclusive
    entry stays covered. *)
Lemma dir_ok_own e cs own own' :
  dir_ok n e cs own -> own' <> I -> (excl own -> excl own') -> dir_ok n e cs own'.
Proof.
  intros [Hc Hm H1 He Ho Hs Hi] Hn Hx. split; try done. intros Hex. by apply Hx, He.
Qed.

Lemma acc_pre_bcc t w k :
  line_ok w -> (k < n)%nat -> acc_pre t (cst w k) -> bcc_pre t (states w (Line c l)).
Proof.
  intros Hok Hk Hp. destruct t; cbn in *; try done.
  - intros HI. pose proof (dir_incl _ _ _ _ Hok HI) as He.
    assert (Hin : k ∈ sharers (dir w (c, l)))
      by (apply (dir_mem _ _ _ _ Hok); destruct Hp; split; congruence).
    rewrite He in Hin. by apply elem_of_empty in Hin.
  - destruct (isExclusive (dir w (c, l))) eqn:He; [by apply (dir_excl _ _ _ _ Hok)|].
    destruct (dir_shared _ _ _ _ Hok He k Hk); congruence.
Qed.

Lemma bcc_post_ok t fl cyc w r w1 :
  line_ok w -> bcc_pre t (states w (Line c l)) -> bcc_post t fl cyc w r w1 ->
  line_ok w1 /\ states w1 (Line c l) <> I /\ (t = GETX -> excl (states w1 (Line c l))) /\
  (states w (Line c l) = M -> states w1 (Line c l) = M).
Proof.
  intros Hok Hp [BK BD BC BR BO]. unfold line_ok. rewrite BD.
  assert (Hown : states w1 (Line c l) <> I /\
    (excl (states w (Line c l)) -> excl (states w1 (Line c l))) /\
    (t = GETX -> excl (states w1 (Line c l))) /\
    (states w (Line c l) = M -> states w1 (Line c l) = M)).
  { unfold excl. destruct t; cbn in Hp; [destruct (decide (states w (Line c l) = I)) as [HI|HI]|..];
      cbn in BO; split_and!; intros; destruct_or?; destruct_and?;
      first [congruence|by left; congruence|by right; congruence|idtac]. }
  destruct Hown as (H1 & H2 & H3 & H4). split_and!; try done.
  apply (dir_ok_ext _ _ (cst w)); [done|]. by apply (dir_ok_own _ _ (states w (Line c l))).
Qed.

Lemma writeback_ok (b : bool) (w : world X) :
  (b = true -> excl (states w (Line c l))) ->
  wp (if b then bcc_processWritebackOnAccess c l else mret tt) w (fun _ w' =>
    dir w' = dir w /\ (forall j, (j < n)%nat -> cst w' j = cst w j) /\
    states w' (Line c l) = if b then M else states w (Line c l)).
Proof.
  intros Hb. destruct b; [|by wp_steps]. specialize (Hb eq_refl).
  unfold bcc_processWritebackOnAccess, get_state, set_state. wp_steps.
  { apply bool_decide_eq_true_2. destruct Hb; auto. }
  destruct (decide (states w (Line c l) = E)) as [HE|HE]; wp_steps; cbn [states dir].
  - split_and!; [done| |by rewrite fn_lookup_insert]. intros j Hj. by apply cst_own.
  - split_and!; try done. destruct Hb; congruence.
Qed.

(** What [MESICC::processAccess] does to its line for a request of child [k] on
    it; [w'] is the world after it. *)
Record serve_post (t : AccessType) (fl : Z) (k : nat) (cyc : Z) (w : world X) (r : Z)
    (w' : world X) : Prop := {
  sp_ok : line_ok w';
  sp_valid : states w' (Line c l) <> I;
  sp_cycle : cyc <= r <= cyc + L + 2 ^ 33;
  sp_dirty : states w (Line c l) = M -> states w' (Line c l) = M;
  sp_prefetch : is_flag fl PREFETCH = true ->
    forall j, (j < n)%nat -> cst w' j = cst w j;
  sp_child : is_flag fl PREFETCH = false ->
    cst w' k = granted t (Z.ldiff fl PREFETCH) (dir w (c, l))
                 (bool_decide (excl (states w' (Line c l))));
  sp_others : is_flag fl PREFETCH = false ->
    forall j, (j < n)%nat -> j <> k -> cst w' j = others_after t (cst w j);
  sp_collected : is_flag fl PREFETCH = false -> IsGet t = true ->
    (exists j, (j < n)%nat /\ j <> k /\ cst w j = M) -> states w' (Line c l) = M;
  sp_write : t = GETX \/ t = PUTX -> states w' (Line c l) = M
}.

Lemma granted_ext t fl e b b' : (t = GETS -> b = b') -> granted t fl e b = granted t fl e b'.
Proof. destruct t; cbn; try done. by intros ->. Qed.

Lemma access_serves w t k x cyc cyc0 ini src fl :
  K w -> early (cyc + 2 ^ 32) -> 0 <= cyc -> line_ok w ->
  (k < n)%nat -> lid k = Some x -> acc_pre t (cst w k) ->
  (is_flag fl PREFETCH = true -> t = GETS) ->
  wp (mesi_processAccess topo access invalidate c
        (mkReq a t k (Line (kid k) x) cyc0 ini src fl) l cyc) w
     (serve_post t fl k cyc w).
Proof.
  intros HKw He Hc0 Hok Hk Hlid Hpre Hpf. pose proof (L_nonneg Htopo) as HL.
  pose proof (acc_pre_bcc t w k Hok Hk Hpre) as Hbp.
  unfold mesi_processAccess. cbn [lineAddr type childId state cycle initialState srcId flags].
  wp_step. wp_step.
  { destruct (is_flag fl PREFETCH); cbn; [|done]. by apply bool_decide_eq_true_2, Hpf. }
  wp_step. eapply wp_mono; [by apply bcc_processAccess_ok|]. intros r1 w1 HB.
  destruct (bcc_post_ok _ _ _ _ _ _ Hok Hbp HB) as (Hok1 & Hv1 & Hx1 & Hd1).
  pose proof HB as [BK BD BC BR BO].
  destruct (is_flag fl PREFETCH) eqn:Efl.
  - wp_step. specialize (Hpf eq_refl) as ->.
    split; intros; destruct_or?; try done; first [lia|by apply BC|by apply Hd1|congruence].
  - unfold bcc_isExclusive, get_state. wp_steps.
    change (bool_decide (states w1 (Line c l) = E \/ states w1 (Line c l) = M))
      with (bool_decide (excl (states w1 (Line c l)))).
    assert (He1 : early r1) by (destruct He; split; lia).
    eapply wp_mono.
    { apply (tcc_access_ok k x Hk Hlid w1 t); try done.
      - by apply (K_J HK).
      - by rewrite BC. }
    intros [r2 wb] w2 HA. cbn beta iota. wp_step.
    eapply wp_mono.
    { apply writeback_ok. intros Hw. destruct (ap_wb2 _ _ _ _ _ _ _ _ HA Hw) as [|Hx]; [done|].
      by rewrite (ap_own _ _ _ _ _ _ _ _ HA). }
    intros [] w3 (D3 & C3 & S3). wp_step. rewrite (ap_own _ _ _ _ _ _ _ _ HA) in S3.
    assert (Hwx : wb = true -> excl (states w1 (Line c l)))
      by (intros Hw; by destruct (ap_wb2 _ _ _ _ _ _ _ _ HA Hw)).
    pose proof (ap_cycle _ _ _ _ _ _ _ _ HA) as HC. cbn [fst] in HC.
    split; [| | | |by rewrite Efl|..].
    + unfold line_ok. rewrite D3. apply (dir_ok_ext _ _ (cst w2)); [done|].
      eapply dir_ok_own; [apply (ap_ok _ _ _ _ _ _ _ _ HA)|..];
        rewrite ?(ap_own _ _ _ _ _ _ _ _ HA), S3; destruct wb; try done. by right.
    + rewrite S3. by destruct wb.
    + lia.
    + intros HM. rewrite S3. destruct wb; [done|by apply Hd1].
    + intros _. rewrite C3, (ap_child _ _ _ _ _ _ _ _ HA), BD by done. apply granted_ext.
      intros _. rewrite S3. destruct wb; [|done].
      rewrite !bool_decide_eq_true_2; [done|by right|by apply Hwx].
    + intros _ j Hj Hjk. rewrite C3, (ap_others _ _ _ _ _ _ _ _ HA), BC by done. done.
    + intros _ Hg (j & Hj & Hjk & HM). rewrite S3.
      assert (wb = true) as ->; [|done]. apply (ap_wb _ _ _ _ _ _ _ _ HA). right.
      split; [done|]. exists j. by rewrite BC.
    + intros Hw. rewrite S3. destruct wb; [done|]. by destruct Hw as [-> | ->].
Qed.

(** The type under which a request is served, given the state in which the race check finds its
    issuer. *)
Definition raced (t : AccessType) (now : MESIState) : AccessType :=
  if decide (t = PUTX /\ now = S) then PUTS else t.

Lemma race_check t ini now : acc_pre t ini -> rtc intervening ini now ->
  (IsPut t = true /\ now = I /\ CheckForMESIRace t now ini = Ok (true, t)) \/
  (~ (IsPut t = true /\ now = I) /\ CheckForMESIRace t now ini = Ok (false, raced t now) /\ acc_pre (raced t now) now).
Proof.
  intros Hp Hr%intervening_closure. unfold excl in Hr.
  destruct t; cbn in Hp; destruct ini; try (destruct_or? Hp; done);
    (destruct Hr as [->|[[? ->]|[[?|?] ->]]]; try done; cbn; first [by left|right; cbn; naive_solver]).
Qed.

(** What a cache does with a request of a child: [startAccess], and unless it skips the access
    [processAccess] of the request as the race check left it. *)
Definition start_and_process (req : MemReq) (cyc : Z) : prog (world X) (option Z) :=
  '(skip, req) ← cc_startAccess topo c req;
  if skip : bool then mret None
  else r ← mesi_processAccess topo access invalidate c req l cyc; mret (Some r).

(** C2: a cache serves its children correctly. Given contracts for its parent and
    its children, a cache that starts with a consistent line gets a request that was legal
    when the child issued it, in state [ini]; since then the child may have been invalidated
    and downgraded any number of times.  No assertion fails.  A writeback of a line that the
    child has lost is skipped and changes nothing; one that lost its exclusivity is served as a
    clean one.  Every other request is served: the cache ends with a consistent line
    it holds itself, the requester gets the state the protocol grants (exclusive
    only if nobody else shares the line and the cache owns it), the other children
    are invalidated or downgraded as the request demands, dirty data held below
    moves to the cache, a prefetch changes no child, and the response is not
    before the request. *)
Theorem access_correct w t k x cyc cyc0 ini src fl :
  terminal (topo c) = false ->
  K w -> early (cyc + 2 ^ 32) -> 0 <= cyc -> line_ok w ->
  (k < n)%nat -> lid k = Some x -> acc_pre t ini -> rtc intervening ini (cst w k) ->
  (is_flag fl PREFETCH = true -> t = GETS) ->
  wp (start_and_process (mkReq a t k (Line (kid k) x) cyc0 ini src fl) cyc) w (fun r w' =>
    match r with
    | None => IsPut t = true /\ cst w k = I /\ w' = w
    | Some r => ~ (IsPut t = true /\ cst w k = I) /\ serve_post (raced t (cst w k)) fl k cyc w r w'
    end).
Proof.
  intros Hterm HKw He Hc Hok Hk Hx Hp Hr Hfl. unfold start_and_process, cc_startAccess, get_state.
  rewrite Hterm. apply wp_bind, wp_bind, wp_require; [by destruct t|]. cbn [type state initialState].
  apply wp_bind, wp_gets, wp_bind. assert (Hcst : states w (Line (kid k) x) = cst w k) by (unfold cst; by rewrite Hx).
  rewrite Hcst. destruct (race_check t ini (cst w k) Hp Hr) as [(H1 & H2 & E)|(Hn & E & Hp')]; (eapply wp_lift; [exact E|]).
  - apply wp_ret, wp_ret. done.
  - apply wp_ret, wp_bind. cbn [set_type lineAddr type childId state MemHier.cycle initialState srcId flags].
    eapply wp_mono; [apply access_serves; try done|intros r w' HS; by apply wp_ret].
    intros Hf. specialize (Hfl Hf). subst t. unfold raced. by rewrite decide_False by naive_solver.
Qed.

(** ** Evictions *)

(** Writing a line back to the parent, or dropping it. *)
Lemma bcc_processEviction_ok lwb cyc src w :
  K w -> early cyc -> (lwb = true -> excl (states w (Line c l))) ->
  wp (bcc_processEviction topo access c a l lwb cyc src) w (fun r w' =>
    K w' /\ dir w' (c, l) = dir w (c, l) /\ (forall j, (j < n)%nat -> cst w' j = cst w j) /\
    states w' (Line c l) = I /\ cyc <= r.1 /\
    (r.2 = true <-> lwb = true \/ states w (Line c l) = M)).
Proof.
  intros HKw Hc Hl. unfold bcc_processEviction, get_state, set_state. destruct (Hc) as [Hc0 _].
  wp_step.
  eapply (wp_mono _ _ (fun _ w1 => K w1 /\ dir w1 (c, l) = dir w (c, l) /\
    (forall j, (j < n)%nat -> cst w1 j = cst w j) /\
    states w1 (Line c l) = if lwb then M else states w (Line c l))).
  { destruct lwb; [|by wp_steps]. wp_steps.
    { apply bool_decide_eq_true_2. destruct (Hl eq_refl); auto. }
    split_and!; cbn [states dir]; [by apply (K_own HK), Hl|done| |by rewrite fn_lookup_insert].
    intros j Hj. by apply cst_own. }
  intros [] w1 (K1 & D1 & C1 & S1). cbn beta. wp_step. wp_step. wp_step.
  eapply (wp_mono _ _ (fun r w2 => K w2 /\ dir w2 (c, l) = dir w1 (c, l) /\
    (forall j, (j < n)%nat -> cst w2 j = cst w1 j) /\ states w2 (Line c l) = I /\
    cyc <= r.1 /\ (r.2 = true <-> states w1 (Line c l) = M))).
  - pose proof (Hacc PUTS cyc src 0 w1 K1 ltac:(done)) as HS.
    pose proof (Hacc PUTX cyc src 0 w1 K1 ltac:(done)) as HX.
    destruct (states w1 (Line c l)) eqn:E1; cbn [acc_pre] in HS, HX.
    + wp_step. by split_and!.
    + wp_step. eapply wp_mono; [by apply HS; [left|]|]. intros resp w2 (K2 & R2 & D2 & C2 & U2).
      wp_step. by split_and!; try apply R2.
    + wp_step. eapply wp_mono; [by apply HS; [right|]|]. intros resp w2 (K2 & R2 & D2 & C2 & U2).
      wp_step. by split_and!; try apply R2.
    + wp_step. eapply wp_mono; [by apply HX|]. intros resp w2 (K2 & R2 & D2 & C2 & U2).
      wp_step. by split_and!; try apply R2.
  - intros r w2 (K2 & D2 & C2 & S2 & R2 & M2). wp_steps; [by apply bool_decide_eq_true_2|].
    split_and!; try done; [by rewrite D2|intros; by rewrite C2, C1|].
    rewrite M2, S1. destruct lwb; naive_solver.
Qed.

(** From a consistent line, in any state, an eviction invalidates every child that shares the
    line, and ends with the line invalid in the cache and in all its children and the directory
    entry cleared; no assertion fails. *)
Lemma eviction_serves w req cyc :
  terminal (topo c) = false -> nonInclusiveHack (topo c) = false ->
  K w -> early (cyc + L + 2 ^ 32) -> 0 <= cyc -> line_ok w ->
  (forall r w1, sent INV false cyc w r w1 -> K w1) ->
  wp (cc_processEviction topo access invalidate c req a l cyc) w (fun r w' =>
    states w' (Line c l) = I /\ (forall j, (j < n)%nat -> cst w' j = I) /\
    sharers (dir w' (c, l)) = ∅ /\ line_ok w' /\ cyc <= r).
Proof.
  intros Ht Hn HKw He Hc0 Hok HKs. pose proof (L_nonneg Htopo) as HL.
  unfold cc_processEviction, tcc_processEviction. rewrite Ht, Hn. wp_step. cbn beta iota.
  assert (Hc : early cyc) by (destruct He; split; lia).
  eapply wp_mono.
  { apply sendInvalidates_INV; [by apply (K_J HK)|done|apply (dir_count _ _ _ _ Hok)|].
    intros k. apply (dir_mem _ _ _ _ Hok). }
  intros [ev wb] w1 [Hs He1]. cbn beta iota. wp_step.
  pose proof (sent_cycle _ _ _ _ _ _ Hs) as HC. cbn [fst] in HC.
  assert (HI : forall k, (k < n)%nat -> cst w1 k = I).
  { intros k Hk. rewrite (sent_cst _ _ _ _ _ _ Hs) by done.
    destruct (decide (k ∈ _)) as [|Hin]; [done|].
    destruct (decide (cst w k = I)); [done|]. exfalso. by apply Hin, (dir_mem _ _ _ _ Hok). }
  eapply wp_mono.
  { apply bcc_processEviction_ok; [by eapply HKs|destruct He; split; lia|].
    intros Hw. rewrite (sent_own _ _ _ _ _ _ Hs).
    destruct (sent_wb2 _ _ _ _ _ _ Hs Hw) as [|(k & Hk & Hx)]; [done|].
    apply (dir_excl _ _ _ _ Hok). destruct (isExclusive (dir w (c, l))) eqn:Hx1; [done|].
    apply (dir_mem _ _ _ _ Hok) in Hk as [Hk _].
    destruct (dir_shared _ _ _ _ Hok Hx1 k Hk), Hx; congruence. }
  intros [r b] w2 (K2 & D2 & C2 & S2 & R2 & _). cbn [fst] in R2. wp_step.
  split_and!; [done|intros; by rewrite C2, HI|by rewrite D2, He1| |lia].
  unfold line_ok. rewrite D2, S2, He1. apply dir_ok_cleared. intros k Hk. by rewrite C2, HI.
Qed.

(** What the parent is told.  The cache keeps the line modified if a copy below it was dirty. *)
Definition collected (b : bool) (w : world X) : world X :=
  if b then mkWorld (<[Line c l := M]> (states w)) (dir w) (prof w) (ext w) else w.
Definition put_request (s : MESIState) (cyc src : Z) : MemReq :=
  mkReq a (if decide (s = M) then PUTX else PUTS) (selfId (topo c)) (Line c l) cyc s src 0.

Lemma bcc_processEviction_put lwb cyc src w : wlp (bcc_processEviction topo access c a l lwb cyc src) w (fun r w' =>
  let w2 := collected lwb w in let s := states w2 (Line c l) in
  if decide (s = I) then w' = w2 /\ r.1 = cyc
  else access (parent topo c a) (put_request s cyc src) w2 = Ok (r.1, w')).
Proof.
  unfold bcc_processEviction, get_state, set_state. wlp_step.
  eapply (wlp_mono _ _ (fun _ w1 => w1 = collected lwb w)).
  { destruct lwb; [|by wlp_step]. by repeat wlp_step. }
  intros _ w1 ->. cbv zeta. wlp_step. wlp_step. wlp_step.
  destruct (states (collected lwb w) (Line c l)) eqn:Es.
  - wlp_step. by repeat wlp_step.
  - wlp_step. eapply wlp_mono; [apply wlp_self|]. intros resp w2 E. by repeat wlp_step.
  - wlp_step. eapply wlp_mono; [apply wlp_self|]. intros resp w2 E. by repeat wlp_step.
  - wlp_step. eapply wlp_mono; [apply wlp_self|]. intros resp w2 E. by repeat wlp_step.
Qed.

(** C6: evicting a line empties it everywhere below, and tells the parent the truth. From a
    consistent line, in any state, an eviction invalidates every child that shares the
    line, and ends with the line invalid in the cache and in all its children and the directory
    entry cleared; no assertion fails.  If the cache did not hold the line nothing is sent.
    Otherwise the parent gets one request after the children have answered: a PUTX if the
    cache or a cache below it held the line modified, and a PUTS if not. *)
Theorem eviction_correct copies w req cyc :
  inv_exact copies -> terminal (topo c) = false -> nonInclusiveHack (topo c) = false ->
  K w -> early (cyc + L + 2 ^ 32) -> 0 <= cyc -> line_ok w -> owned copies w ->
  (forall r w1, sent INV false cyc w r w1 -> K w1) ->
  wp (cc_processEviction topo access invalidate c req a l cyc) w (fun r w' =>
    (states w' (Line c l) = I /\ (forall j, (j < n)%nat -> cst w' j = I) /\
     sharers (dir w' (c, l)) = ∅ /\ line_ok w' /\ cyc <= r) /\
    exists cyc1 b w1, sent INV false cyc w (cyc1, b) w1 /\ (b = true <-> dirty_below copies w) /\ ~ dirty_below copies w1 /\
      let s := if b then M else states w (Line c l) in
      states (collected b w1) (Line c l) = s /\
      if decide (s = I) then w' = collected b w1 /\ r = cyc1
      else access (parent topo c a) (put_request s cyc1 (srcId req)) (collected b w1) = Ok (r, w')).
Proof.
  intros Hexact Ht Hn HKw He Hc0 Hok Ho HKs. apply wp_wlp; [by apply eviction_serves|].
  assert (Hc : early cyc) by (pose proof (L_nonneg Htopo); destruct He; split; lia).
  unfold cc_processEviction, tcc_processEviction. rewrite Ht, Hn. wlp_step.
  eapply wlp_mono.
  { apply wlp_wp, wp_wlp; [|apply (sendInvalidates_dirty copies Hexact INV); try done; by apply (K_J HK)].
    eapply wp_mono; [apply sendInvalidates_INV; [by apply (K_J HK)|done|apply (dir_count _ _ _ _ Hok)|]|by intros r w1 [H _]; exact H].
    intros k. apply (dir_mem _ _ _ _ Hok). }
  intros [cyc1 b] w1 [Hs [Hb Hcl]]. cbn beta iota. cbn [snd] in Hb. wlp_step.
  eapply wlp_mono; [apply bcc_processEviction_put|]. intros [r d] w' Hput. cbn [fst] in Hput. wlp_step.
  exists cyc1, b, w1. assert (Hb' : b = true <-> dirty_below copies w) by naive_solver.
  assert (Hst : states (collected b w1) (Line c l) = if b then M else states w (Line c l)).
  { unfold collected. destruct b; cbn; [by rewrite fn_lookup_insert|]. apply (sent_own _ _ _ _ _ _ Hs). }
  cbv zeta in *. by rewrite Hst in Hput.
Qed.

End Parent.
End Children.

(** ** The contracts at work

    Cache 0 over the terminal caches 1 and 2 and under a memory of latency 100:
    child 0 holds the line of address 64 modified. *)
Section Example_level.

Definition ex_topo (i : nat) : node :=
  match i with
  | O => mkNode 0 [3%nat] [5] [1%nat; 2%nat] [2; 2] false false
  | _ => mkNode (i - 1) [0%nat] [2] [] [] false true
  end.

Definition ex_invalidate (kid : nat) (req : InvReq) : prog (world unit) (Z * bool) :=
  wb ← bcc_processInval kid 0 (inv_type req) (inv_writeback req);
  mret (inv_cycle req + 1, wb).

Definition ex_access (_ : nat) (req : MemReq) : prog (world unit) Z :=
  '(st, resp) ← lift (SimpleMemory_access 100 req);
  _ ← set_state (state req) st;
  mret resp.

Definition ex_lid (_ : nat) : option Z := Some 0.

Definition ex_world : world unit :=
  mkWorld (<[Line 0 0 := E]> (<[Line 1 0 := M]> (fun _ => I)))
    (<[(0%nat, 0) := mkEntry 1 {[0%nat]} true]> (fun _ => Entry_clear)) (fun _ => 0) tt.

Lemma ex_topo_ok : topo_ok ex_topo 0 1.
Proof.
  split; cbn; try lia.
  - apply NoDup_ListNoDup. repeat constructor; cbn; intuition lia.
  - unfold MAX_CACHE_CHILDREN. lia.
  - rewrite !elem_of_cons, elem_of_nil. intuition lia.
  - intros [|[|k]] Hk; cbn; unfold in_u32; lia.
Qed.

Lemma ex_inv : inv_contract ex_topo ex_invalidate 0 64 ex_lid (fun _ => True) 1.
Proof.
  intros k t wb cyc src w Hk Ht _ Hp Hc _. unfold ex_invalidate. wp_step. eapply wp_mono.
  { apply (bcc_processInval_ok _ 0 t wb w). exact Hp. }
  intros b w' (E1 & E2 & E3 & ->). wp_step. unfold inv_post, cst, ex_lid in *. cbn [fst snd].
  assert (Hkid : ex_topo 0 = mkNode 0 [3%nat] [5] [1%nat; 2%nat] [2; 2] false false) by done.
  rewrite Hkid in *. cbn [children] in *.
  split_and!; [split|..]; cbn [inv_cycle inv_type]; try done; try lia.
  - intros x. by rewrite E2.
  - intros x. rewrite E3, decide_False; [done|]. by destruct k as [|[|]]; cbn in *; [..|lia].
  - intros j Hj. rewrite E3.
    destruct k as [|[|]], j as [|[|]]; cbn in *; try lia; by repeat destruct (decide _).
  - intros [->|HM]; [done|]. rewrite HM, bool_decide_eq_true_2, orb_true_r by done. done.
  - intros [Hb|Hb]%orb_true_iff; [by left|]. apply bool_decide_eq_true in Hb as [_ ->].
    right. by right.
Qed.

Lemma ex_acc : acc_contract ex_topo 0 0 64 ex_lid 1 ex_access (fun _ => True) 100.
Proof.
  intros t cyc src fl w _ Hfl Hp [Hc0 Hc1]. unfold ex_access, SimpleMemory_access. wp_step.
  assert (Hu : u64 (cyc + 100) = cyc + 100) by (apply u64_id; unfold in_u64; lia).
  apply (wp_lift _ _ _ (grant t fl, cyc + 100)).
  { cbn. rewrite Hu. unfold assert_that. by replace (cyc <? cyc + 100) with true by lia. }
  unfold set_state. wp_steps. cbn [states dir]. rewrite fn_lookup_insert.
  split_and!; try done; try lia.
  - intros j Hj. unfold cst, ex_lid. cbn [states]. rewrite fn_lookup_insert_ne; [done|].
    by destruct j as [|[|]]; cbn in *; [..|lia].
  - destruct t; cbn; try done. destruct (is_flag fl NOEXCL) eqn:Ef; [by left|by right].
Qed.

Lemma ex_line : line_ok ex_topo 0 0 ex_lid ex_world.
Proof.
  assert (H : forall k, (k < 2)%nat -> cst ex_topo 0 ex_lid ex_world k = if decide (k = 0%nat) then M else I).
  { intros [|[|k]] Hk; [reflexivity|reflexivity|lia]. }
  unfold line_ok. eapply (dir_ok_ext _ _ (fun k => if decide (k = 0%nat) then M else I)); [exact H|].
  apply (dir_ok_alone ex_topo 0 0%nat ltac:(cbn; lia) E M); [by left|by right|done].
Qed.

Lemma directory_correct_witness :
  wp (tcc_processAccess ex_topo ex_invalidate 0 64 0 GETX 1 true (Line 2 0) false 10 0 0) ex_world
     (fun r w' => access_post ex_topo 0 0 ex_lid 1 GETX 0 1 false 10 ex_world r w' /\
        forall i j, (i < 2)%nat -> (j < 2)%nat -> i <> j ->
          excl (cst ex_topo 0 ex_lid w' i) -> cst ex_topo 0 ex_lid w' j = I).
Proof.
  apply (directory_correct ex_topo ex_invalidate 0 0 64 ex_lid (fun _ => True) 1 ex_inv ex_topo_ok
           1%nat 0 ltac:(cbn; lia) eq_refl ex_world GETX E false 10 0 0); try done.
  - by left.
  - by left.
  - apply ex_line.
Defined.

(** The children have nothing below them. *)
Definition ex_copies (k : nat) : list sref := [Line (Datatypes.S k) 0].

Lemma ex_exact : inv_exact ex_topo ex_invalidate 0 64 ex_lid (fun _ => True) 1 ex_copies.
Proof.
  intros k t wb cyc src w Hk Ht _ Hp Hc _. unfold ex_invalidate. wp_step. eapply wp_mono.
  { apply (bcc_processInval_ok _ 0 t wb w). exact Hp. }
  intros b w' (E1 & E2 & E3 & ->). wp_step. cbn [snd inv_type].
  assert (Hkid : children (ex_topo 0) !!! k = Datatypes.S k) by (by destruct k as [|[|]]; cbn in *; [..|lia]).
  rewrite Hkid in *. unfold dirty, ex_copies. split_and!.
  - rewrite orb_true_iff, bool_decide_eq_true. split.
    + intros [?|[_ HM]]; [by left|right]. exists (Line (Datatypes.S k) 0). split; [by left|done].
    + intros [?|(r & ->%list_elem_of_singleton & HM)]; [by left|by right].
  - intros (r & ->%list_elem_of_singleton & HM). rewrite E3, decide_True in HM by done. by destruct t.
  - intros j r Hj Hjk ->%list_elem_of_singleton. rewrite E3, decide_False by congruence. done.
Qed.

Lemma ex_owned : owned ex_topo 0 ex_lid ex_copies ex_world.
Proof.
  intros k Hk (r & ->%list_elem_of_singleton & HM). right.
  destruct k as [|[|k]]; [reflexivity|done|cbn in Hk; lia].
Qed.

Lemma invalidate_correct_witness :
  wp (cc_processInv ex_topo ex_invalidate 0 (mkInv 64 INVX false 10 0) 0 10) ex_world (fun r w' =>
     inval_post ex_topo 0 0 ex_lid 1 INVX false 10 ex_world r w' /\
     (r.2 = true <-> false = true \/ states ex_world (Line 0 0) = M \/ dirty_below ex_topo 0 ex_copies ex_world)).
Proof.
  apply (invalidate_correct ex_topo ex_invalidate 0 0 64 ex_lid (fun _ => True) 1 ex_inv ex_topo_ok
           ex_copies ex_exact ex_world INVX false 10 0); try done.
  - apply ex_line.
  - apply ex_owned.
  - by left.
Defined.

Lemma ex_K : K_ok 0 0 (fun _ : unit => True) (fun _ => True).
Proof. by split. Qed.

Lemma access_correct_witness :
  wp (start_and_process ex_topo ex_invalidate 0 0 ex_access
        (mkReq 64 GETS 1 (Line 2 0) 0 I 0 0) 10) ex_world (fun r w' =>
     match r with
     | None => IsPut GETS = true /\ cst ex_topo 0 ex_lid ex_world 1 = I /\ w' = ex_world
     | Some r => ~ (IsPut GETS = true /\ cst ex_topo 0 ex_lid ex_world 1 = I) /\
         serve_post ex_topo 0 0 ex_lid 1 (raced GETS (cst ex_topo 0 ex_lid ex_world 1)) 0 1 10 ex_world r w'
     end).
Proof.
  apply (access_correct ex_topo ex_invalidate 0 0 64 ex_lid (fun _ => True) 1 ex_inv ex_topo_ok
           ex_access (fun _ => True) 100 ex_acc ex_K ex_world GETS 1%nat 0 10 0 I 0 0); try done.
  - apply ex_line.
  - cbn. lia.

Defined.

Lemma eviction_correct_witness :
  wp (cc_processEviction ex_topo ex_access ex_invalidate 0 (mkReq 0 GETS 0 Local 0 I 0 0) 64 0 10)
     ex_world (fun r w' => (states w' (Line 0 0) = I /\
       (forall j, (j < 2)%nat -> cst ex_topo 0 ex_lid w' j = I) /\
       sharers (dir w' (0%nat, 0)) = ∅ /\ line_ok ex_topo 0 0 ex_lid w' /\ 10 <= r) /\
    exists cyc1 b w1, sent ex_topo 0 0 ex_lid 1 INV false 10 ex_world (cyc1, b) w1 /\
      (b = true <-> dirty_below ex_topo 0 ex_copies ex_world) /\ ~ dirty_below ex_topo 0 ex_copies w1 /\
      let s := if b then M else states ex_world (Line 0 0) in
      states (collected 0 0 b w1) (Line 0 0) = s /\
      if decide (s = I) then w' = collected 0 0 b w1 /\ r = cyc1
      else ex_access (parent ex_topo 0 64) (put_request ex_topo 0 0 64 s cyc1 0) (collected 0 0 b w1) = Ok (r, w')).
Proof.
  apply (eviction_correct ex_topo ex_invalidate 0 0 64 ex_lid (fun _ => True) 1 ex_inv ex_topo_ok
           ex_access (fun _ => True) 100 ex_acc ex_K ex_copies ex_world
           (mkReq 0 GETS 0 Local 0 I 0 0) 10); try done.
  - apply ex_exact.
  - apply ex_line.
  - apply ex_owned.
Defined.

End Example_level.

End Level.
