(* ===== verification/ReplPolicies.v ===== *)
(** The replacement policies (repl_policies.h): LRU, tree LRU, two-bit NRU, LFU,
    random, and the profiling wrapper, with the interface [ReplPolicy] that the
    cache arrays are proved against. *)
From S2P Require Import Prelude MemHier Mtrand.
Import MemHier.

(** * The interface *)

(** What a policy asks the coherence controller. *)
Record cc_view := mkView {
  cc_numSharers : Z -> Z;
  cc_isValid : Z -> bool
}.

(** [rp_rank] is [rankCands] on the list of candidate lines. *)
Class ReplPolicy (R : Type) := {
  rp_update : Z -> MemReq -> R -> res R;
  rp_replaced : Z -> R -> R;
  rp_rank : cc_view -> MemReq -> list Z -> R -> res (Z * R)
}.

(** What the arrays rely on: [rp_inv n k] holds between replacements of a policy
    over [n] lines and at most [k] candidates, [rp_mid n k] between the ranking of
    the candidates and [replaced]. *)
Class ReplPolicyLaws (R : Type) `{ReplPolicy R} := {
  rp_inv : Z -> nat -> R -> Prop;
  rp_mid : Z -> nat -> R -> Prop;
  rp_rank_ok n k cc req cands r : rp_inv n k r -> cands <> [] -> (length cands <= k)%nat ->
    Forall (fun id => 0 <= id < n) cands ->
    exists id r', rp_rank cc req cands r = Ok (id, r') /\ id ∈ cands /\ rp_mid n k r';
  rp_replaced_ok n k id r : rp_mid n k r -> 0 <= id < n -> rp_inv n k (rp_replaced id r);
  rp_update_ok n k id req r : rp_inv n k r -> 0 <= id < n -> IsGet (type req) = true ->
    exists r', rp_update id req r = Ok r' /\ rp_inv n k r';
}.

(** * LRU *)

Module LRU.

Record LRUReplPolicy := mkLRU {
  timestamp : Z;
  array : Z -> Z;
  sharersAware : bool
}.

Definition init (aware : bool) : LRUReplPolicy := mkLRU 1 (fun _ => 0) aware.

Definition update (id : Z) (p : LRUReplPolicy) : LRUReplPolicy :=
  mkLRU (u64 (timestamp p + 1)) (<[id := timestamp p]> (array p)) (sharersAware p).

Definition replaced (id : Z) (p : LRUReplPolicy) : LRUReplPolicy :=
  mkLRU (timestamp p) (<[id := 0]> (array p)) (sharersAware p).

Definition score (cc : cc_view) (p : LRUReplPolicy) (id : Z) : Z :=
  u64 ((if sharersAware p then cc_numSharers cc id else 0) * timestamp p +
       array p id * (if cc_isValid cc id then 1 else 0)).

(** The loop of [rank]: [s] is a [uint32_t]. *)
Definition rank_step (cc : cc_view) (p : LRUReplPolicy) (st : Z * Z) (ci : Z) : Z * Z :=
  let '(bestCand, bestScore) := st in
  let s := u32 (score cc p ci) in
  (if s <? bestScore then ci else bestCand, Z.min s bestScore).

Definition rank (cc : cc_view) (cands : list Z) (p : LRUReplPolicy) : Z :=
  fst (fold_left (rank_step cc p) cands (2 ^ 32 - 1, 2 ^ 64 - 1)).

#[export] Instance lru_policy : ReplPolicy LRUReplPolicy := {
  rp_update id _ p := Ok (update id p);
  rp_replaced id p := replaced id p;
  rp_rank cc _ cands p := Ok (rank cc cands p, p)
}.

(** ** The candidate with the least (truncated) score *)

Lemma rank_fold cc p cands b s :
  let '(b', s') := fold_left (rank_step cc p) cands (b, s) in
  s' <= s /\ (forall c, c ∈ cands -> s' <= u32 (score cc p c)) /\
  ((b' = b /\ s' = s) \/ (b' ∈ cands /\ s' = u32 (score cc p b') /\ s' < s)).
Proof.
  revert b s. induction cands as [|c cands IH]; intros b s; cbn.
  - split_and!; [done| |by left]. intros c Hc. by apply elem_of_nil in Hc.
  - set (s1 := u32 (score cc p c)).
    specialize (IH (if s1 <? s then c else b) (Z.min s1 s)).
    destruct (fold_left _ cands _) as [b' s']. destruct IH as (H1 & H2 & H3).
    split_and!; [lia| |].
    + intros x Hx. apply elem_of_cons in Hx as [->|Hx]; [fold s1; lia|by apply H2].
    + destruct H3 as [[-> ->]|(Hb & -> & Hlt)].
      * destruct (Z.ltb_spec s1 s); [right|left; split; [done|lia]].
        split_and!; [by left|fold s1; lia|lia].
      * right. split_and!; [by right|done|lia].
Qed.

Lemma lru_rank_spec cc p cands :
  cands <> [] ->
  rank cc cands p ∈ cands /\
  forall c, c ∈ cands -> u32 (score cc p (rank cc cands p)) <= u32 (score cc p c).
Proof.
  intros Hne. unfold rank.
  pose proof (rank_fold cc p cands (2 ^ 32 - 1) (2 ^ 64 - 1)) as H.
  destruct (fold_left _ cands _) as [b s]; cbn [fst]. destruct H as (H1 & H2 & H3).
  destruct cands as [|c0 cands]; [done|].
  destruct H3 as [[-> ->]|(Hb & -> & _)]; [|by split].
  pose proof (H2 c0 ltac:(by left)). pose proof (u32_range (score cc p c0)).
  unfold in_u32 in *. lia.
Qed.

(** ** The recency order *)

Record inv (p : LRUReplPolicy) : Prop := {
  inv_ts : 1 <= timestamp p;
  inv_old : forall id, 0 <= array p id < timestamp p
}.

Lemma init_inv aware : inv (init aware).
Proof. split; cbn; lia. Qed.

Lemma lru_update_inv id p : inv p -> timestamp p + 1 < 2 ^ 64 -> inv (update id p).
Proof.
  intros [H1 H2] Hlt. unfold update.
  rewrite u64_id by (unfold in_u64; lia). split; cbn; [lia|]. intros x.
  destruct (decide (x = id)) as [->|]; [rewrite fn_lookup_insert; lia|].
  rewrite fn_lookup_insert_ne by done. specialize (H2 x). lia.
Qed.

Lemma lru_replaced_inv id p : inv p -> inv (replaced id p).
Proof.
  intros [H1 H2]. split; cbn; [done|]. intros x.
  destruct (decide (x = id)) as [->|]; [rewrite fn_lookup_insert; lia|].
  by rewrite fn_lookup_insert_ne.
Qed.

(** What happens to a line: it is touched, or it is replaced. *)
Inductive event := Touch (id : Z) | Replace (id : Z).

Definition run_event (p : LRUReplPolicy) (e : event) : LRUReplPolicy :=
  match e with Touch id => update id p | Replace id => replaced id p end.

(** Reference semantics: how many accesses had been made when the line was last
    touched, 0 if it was not touched since it was last replaced. *)
Fixpoint last_touch (tr : list event) (now : Z) (id : Z) (last : Z) : Z :=
  match tr with
  | [] => last
  | Touch x :: tr => last_touch tr (now + 1) id (if decide (x = id) then now else last)
  | Replace x :: tr => last_touch tr now id (if decide (x = id) then 0 else last)
  end.

Lemma run_last_touch tr p :
  inv p -> timestamp p + Z.of_nat (length tr) < 2 ^ 64 ->
  inv (fold_left run_event tr p) /\
  timestamp (fold_left run_event tr p) <= timestamp p + Z.of_nat (length tr) /\
  sharersAware (fold_left run_event tr p) = sharersAware p /\
  forall id, array (fold_left run_event tr p) id = last_touch tr (timestamp p) id (array p id).
Proof.
  revert p. induction tr as [|e tr IH]; intros p Hp Hlt; cbn [fold_left last_touch length] in *.
  { split_and!; [done|lia|done|done]. }
  destruct e as [x|x]; cbn [run_event].
  - assert (Ht : timestamp (update x p) = timestamp p + 1).
    { cbn. apply u64_id. destruct Hp. unfold in_u64; lia. }
    destruct (IH (update x p)) as (H1 & H2 & H3 & H4); [apply lru_update_inv; [done|lia]|lia|].
    split_and!; [done|lia|done|]. intros id. by rewrite H4, Ht.
  - destruct (IH (replaced x p)) as (H1 & H2 & H3 & H4); [by apply lru_replaced_inv|cbn; lia|].
    split_and!; [done|cbn in H2; lia|done|]. intros id. by rewrite H4.
Qed.

(** C26: LRU evicts what it should as long as no score reaches 2^32: with at most [m]
    sharers of a line (0 if the policy ignores them), after any history of touches and
    replacements so short that [(m + 1) * (length + 1) < 2 ^ 32], the candidate it picks has
    the fewest sharers and, among those, is an invalid line or the one touched longest ago.
    A longer history breaks it ([lru_score_truncated]). *)
Theorem lru_evicts_least_recent tr cc cands aware m :
  let p := fold_left run_event tr (init aware) in
  (m + 1) * (Z.of_nat (length tr) + 1) < 2 ^ 32 ->
  0 <= m -> (aware = true -> forall id, 0 <= cc_numSharers cc id <= m) -> cands <> [] ->
  let key id := if cc_isValid cc id then last_touch tr 1 id 0 else 0 in
  let sh id := if aware then cc_numSharers cc id else 0 in
  rank cc cands p ∈ cands /\
  forall c, c ∈ cands ->
    sh (rank cc cands p) < sh c \/ (sh (rank cc cands p) = sh c /\ key (rank cc cands p) <= key c).
Proof.
  intros p Hm Hm0 Hsh Hne key sh. destruct (lru_rank_spec cc p cands Hne) as [Hin Hmin].
  assert (Hlen : 1 + Z.of_nat (length tr) < 2 ^ 32) by nia.
  destruct (run_last_touch tr (init aware) (init_inv aware)) as (H1 & H2 & H3 & H4); [cbn; lia|].
  fold p in H1, H2, H3, H4. cbn in H2, H3, H4.
  split; [done|]. intros c Hc. specialize (Hmin c Hc).
  assert (Hs : forall id, u32 (score cc p id) = sh id * timestamp p + key id /\
    0 <= sh id <= m /\ 0 <= key id < timestamp p).
  { intros id. unfold score. rewrite H3, H4. fold (sh id).
    replace (last_touch tr 1 id 0 * (if cc_isValid cc id then 1 else 0)) with (key id)
      by (unfold key; destruct (cc_isValid cc id); lia).
    assert (Hsid : 0 <= sh id <= m) by (unfold sh; destruct aware; [by apply Hsh|lia]).
    pose proof (inv_old _ H1 id) as Ho. rewrite H4 in Ho.
    pose proof (inv_ts _ H1) as Ht.
    assert (Hk : 0 <= key id < timestamp p) by (unfold key; destruct (cc_isValid cc id); lia).
    assert (sh id * timestamp p <= m * timestamp p) by nia.
    assert ((m + 1) * timestamp p < 2 ^ 32) by nia.
    rewrite u64_id, u32_id by (unfold in_u32, in_u64; nia). done. }
  destruct (Hs (rank cc cands p)) as (E1 & S1 & K1). destruct (Hs c) as (E2 & S2 & K2).
  rewrite E1, E2 in Hmin. nia.
Qed.

Lemma lru_evicts_least_recent_witness :
  let tr := [Touch 4; Touch 5; Touch 6; Touch 4; Replace 6; Touch 6] in
  let cc := mkView (fun _ => 0) (fun _ => true) in
  let r := rank cc [4; 5; 6] (fold_left run_event tr (init true)) in
  r = 5 /\ forall c, c ∈ [4; 5; 6] ->
    (cc_numSharers cc r < cc_numSharers cc c \/
     (cc_numSharers cc r = cc_numSharers cc c /\ last_touch tr 1 r 0 <= last_touch tr 1 c 0)).
Proof.
  intros tr cc r. split; [reflexivity|].
  apply (lru_evicts_least_recent tr cc [4; 5; 6] true 0); cbn; [lia|lia|intros; lia|done].
Defined.

(** [rank] keeps the 64-bit score in a 32-bit variable. Once the timestamp
    passes 2^32 the comparison uses the low half only: of two valid unshared lines,
    the one touched last is evicted and the older one stays. *)
Theorem lru_score_truncated :
  let p := mkLRU (2 ^ 32 + 2) (<[7 := 2 ^ 32 + 1]> (<[3 := 2 ^ 32 - 1]> (fun _ => 0))) true in
  let cc := mkView (fun _ => 0) (fun _ => true) in
  inv p /\ rank cc [3; 7] p = 7 /\ score cc p 3 < score cc p 7.
Proof.
  intros p cc. split_and!; [|vm_compute; done|vm_compute; done].
  split; cbn; [lia|]. intros id.
  destruct (decide (id = 7)) as [->|]; [rewrite fn_lookup_insert; lia|].
  rewrite fn_lookup_insert_ne by done.
  destruct (decide (id = 3)) as [->|]; [rewrite fn_lookup_insert; lia|].
  rewrite fn_lookup_insert_ne by done. lia.
Qed.

#[export, refine] Instance lru_laws : ReplPolicyLaws LRUReplPolicy := {
  rp_inv _ _ _ := True;
  rp_mid _ _ _ := True
}.
Proof.
  - intros n k cc req cands r _ Hne _ _. eexists _, _. split; [reflexivity|].
    split; [by apply lru_rank_spec|done].
  - done.
  - intros. by eexists.
Defined.

End LRU.

(** * NRU *)

Module NRU.

(** The lines' two-bit counters are a list, indexed by line. *)
Record NRUReplPolicy := mkNRU {
  array : list Z;
  candArray : Z -> Z;
  youngLines : Z;
  candVal : Z;
  candIdx : Z
}.

Definition numLines (p : NRUReplPolicy) : Z := Z.of_nat (length (array p)).

Definition init (n : nat) : NRUReplPolicy :=
  mkNRU (replicate n 0) (fun _ => 0) 0 (Z.shiftl 1 20) 0.

Definition at_line (l : list Z) (id : Z) : Z := default 0 (l !! Z.to_nat id).

Definition update (id : Z) (p : NRUReplPolicy) : NRUReplPolicy :=
  let v := at_line (array p) id in
  let young := u32 (youngLines p + u32 (1 - Z.shiftr v 1)) in
  let arr := <[Z.to_nat id := Z.lor v 2]> (array p) in
  if numLines p / 2 <=? young then
    mkNRU ((fun v => Z.shiftr v 1) <$> arr) (candArray p) 0 (candVal p) (candIdx p)
  else mkNRU arr (candArray p) young (candVal p) (candIdx p).

Definition recordCandidate (p : NRUReplPolicy) (id : Z) : NRUReplPolicy :=
  let iVal := at_line (array p) id in
  if iVal <? candVal p then
    mkNRU (array p) (<[0 := id]> (candArray p)) (youngLines p) iVal 1
  else if iVal =? candVal p then
    mkNRU (array p) (<[candIdx p := id]> (candArray p)) (youngLines p) (candVal p)
      (u32 (candIdx p + 1))
  else p.

Definition getBestCandidate (p : NRUReplPolicy) : res Z :=
  _ ← assert_that (0 <? candIdx p);
  Ok (candArray p (youngLines p mod candIdx p)).

Definition replaced (id : Z) (p : NRUReplPolicy) : NRUReplPolicy :=
  mkNRU (<[Z.to_nat id := 0]> (array p)) (candArray p) (youngLines p) (Z.shiftl 1 20) 0.

(** [LegacyReplPolicy::rank]. *)
Definition rank (cands : list Z) (p : NRUReplPolicy) : res (Z * NRUReplPolicy) :=
  let p := fold_left recordCandidate cands p in
  best ← getBestCandidate p;
  Ok (best, p).

#[export] Instance nru_policy : ReplPolicy NRUReplPolicy := {
  rp_update id _ p := Ok (update id p);
  rp_replaced id p := replaced id p;
  rp_rank _ _ cands p := rank cands p
}.

(** ** The counter of young lines *)

Definition young (l : list Z) : nat := length (filter (fun v => 2 <= v) l).

Lemma young_insert l i v x :
  l !! i = Some x ->
  (young (<[i := v]> l) + (if decide (2 <= x)%Z then 1 else 0) =
   young l + (if decide (2 <= v)%Z then 1 else 0))%nat.
Proof.
  unfold young. revert i. induction l as [|y l IH]; intros [|i] Hi; try done.
  - injection Hi as ->. change (<[0%nat:=v]> (x :: l)) with (v :: l).
    rewrite !filter_cons. repeat destruct (decide _); cbn [length]; lia.
  - specialize (IH i Hi). change (<[Datatypes.S i:=v]> (y :: l)) with (y :: <[i:=v]> l).
    rewrite !filter_cons. destruct (decide (2 <= y)); cbn [length]; lia.
Qed.

Lemma young_shifted l : Forall (fun v => 0 <= v <= 3) l -> young ((fun v => Z.shiftr v 1) <$> l) = 0%nat.
Proof.
  unfold young. induction 1 as [|v l Hv _ IH]; [done|].
  rewrite fmap_cons, filter_cons.
  rewrite Z.shiftr_div_pow2 by lia. change (2 ^ 1) with 2.
  destruct (decide _) as [H2|]; [|done]. assert (v / 2 < 2) by (apply Z.div_lt_upper_bound; lia). lia.
Qed.

(** The state of the policy: two-bit counters, never more young lines than
    [youngLines] counts, and that count below its threshold. *)
Record inv (p : NRUReplPolicy) : Prop := {
  inv_vals : Forall (fun v => 0 <= v <= 3) (array p);
  inv_young : Z.of_nat (young (array p)) <= youngLines p;
  inv_small : youngLines p < Z.max 1 (numLines p / 2);
  inv_lines : numLines p < 2 ^ 31
}.

Lemma at_line_lookup p id :
  0 <= id < numLines p -> array p !! Z.to_nat id = Some (at_line (array p) id).
Proof.
  intros Hid. unfold at_line, numLines in *.
  destruct (lookup_lt_is_Some_2 (array p) (Z.to_nat id)) as [x Hx]; [lia|]. by rewrite Hx.
Qed.

Lemma mark_young v :
  0 <= v <= 3 ->
  2 <= Z.lor v 2 <= 3 /\ 1 - Z.shiftr v 1 = (if decide (2 <= v) then 0 else 1).
Proof.
  intros Hv. assert (v = 0 \/ v = 1 \/ v = 2 \/ v = 3) as [->|[->|[->| ->]]] by lia;
    (split; [cbv; split; discriminate|reflexivity]).
Qed.

Lemma nru_update_inv id p : inv p -> 0 <= id < numLines p -> inv (update id p).
Proof.
  intros [Hv Hy Hs Hl] Hid. pose proof (at_line_lookup p id Hid) as Hx.
  set (v := at_line (array p) id) in *.
  assert (Hv3 : 0 <= v <= 3) by (rewrite Forall_lookup in Hv; by eapply Hv).
  pose proof (young_insert _ _ (Z.lor v 2) _ Hx) as Hc.
  pose proof (mark_young v Hv3) as Hor.
  destruct Hor as [Hor Hsh].
  assert (Hf : Forall (fun v => 0 <= v <= 3) (<[Z.to_nat id := Z.lor v 2]> (array p))).
  { apply Forall_insert; [done|lia]. }
  assert (0 <= youngLines p) by lia.
  assert (numLines p / 2 < 2 ^ 31) by (apply Z.div_lt_upper_bound; lia).
  assert (Hyo : u32 (youngLines p + u32 (1 - Z.shiftr v 1)) =
                youngLines p + (if decide (2 <= v) then 0 else 1)).
  { rewrite Hsh. destruct (decide (2 <= v)).
    - rewrite (u32_id 0), u32_id by (unfold in_u32; lia). lia.
    - rewrite (u32_id 1), u32_id by (unfold in_u32; lia). lia. }
  unfold update. fold v. rewrite Hyo.
  rewrite (decide_True (P := 2 <= Z.lor v 2)) in Hc by lia.
  destruct (Z.leb_spec (numLines p / 2) (youngLines p + (if decide (2 <= v) then 0 else 1))) as [Hle|Hlt].
  - split; cbn [array youngLines].
    + apply Forall_fmap. eapply Forall_impl; [exact Hf|]. intros y Hy3. cbn in Hy3 |- *.
      rewrite Z.shiftr_div_pow2 by lia. change (2 ^ 1) with 2.
      split; [apply Z.div_pos; lia|apply Z.div_le_upper_bound; lia].
    + by rewrite young_shifted.
    + lia.
    + unfold numLines in *; cbn. by rewrite length_fmap, length_insert.
  - assert (Hn : numLines (mkNRU (<[Z.to_nat id := Z.lor v 2]> (array p)) (candArray p)
      (youngLines p + (if decide (2 <= v) then 0 else 1)) (candVal p) (candIdx p)) = numLines p).
    { unfold numLines; cbn. by rewrite length_insert. }
    split; rewrite ?Hn; cbn [array youngLines]; try done; try lia.
    destruct (decide (2 <= v)); lia.
Qed.

Lemma nru_replaced_inv id p : inv p -> 0 <= id < numLines p -> inv (replaced id p).
Proof.
  intros [Hv Hy Hs Hl] Hid. pose proof (at_line_lookup p id Hid) as Hx.
  pose proof (young_insert _ _ 0 _ Hx) as Hc. rewrite (decide_False (P := 2 <= 0)) in Hc by lia.
  unfold replaced. split; cbn [array youngLines].
  - by apply Forall_insert.
  - lia.
  - unfold numLines in *; cbn. by rewrite length_insert.
  - unfold numLines in *; cbn. by rewrite length_insert.
Qed.

(** ** Ranking *)

Definition fresh (p : NRUReplPolicy) : Prop := candVal p = Z.shiftl 1 20 /\ candIdx p = 0.

(** The state of the ranking after the candidates [seen]. *)
Record ranked (p0 : NRUReplPolicy) (seen : list Z) (p : NRUReplPolicy) : Prop := {
  rk_array : array p = array p0;
  rk_young : youngLines p = youngLines p0;
  rk_fresh : seen = [] -> fresh p;
  rk_idx : seen <> [] -> 0 < candIdx p <= Z.of_nat (length seen);
  rk_min : forall x, x ∈ seen -> candVal p <= at_line (array p0) x;
  rk_cands : forall i, 0 <= i < candIdx p ->
    candArray p i ∈ seen /\ at_line (array p0) (candArray p i) = candVal p
}.

Lemma at_line_range p id : inv p -> 0 <= at_line (array p) id <= 3.
Proof.
  intros [Hv _ _ _]. unfold at_line. destruct (array p !! Z.to_nat id) eqn:E; cbn; [|lia].
  rewrite Forall_lookup in Hv. by eapply Hv.
Qed.

Lemma nru_record_ranked p0 seen p id :
  inv p0 -> Z.of_nat (length seen) + 1 < 2 ^ 32 -> ranked p0 seen p ->
  ranked p0 (seen ++ [id]) (recordCandidate p id).
Proof.
  intros Hinv Hlen [Ha Hy Hf Hi Hm Hc]. unfold recordCandidate. rewrite Ha.
  set (v := at_line (array p0) id).
  assert (Hne : seen ++ [id] <> []) by (by destruct seen).
  assert (Hl : Z.of_nat (length (seen ++ [id])) = Z.of_nat (length seen) + 1)
    by (rewrite length_app; cbn; lia).
  assert (Hin : id ∈ seen ++ [id]) by (apply elem_of_app; right; by apply list_elem_of_singleton).
  destruct (Z.ltb_spec v (candVal p)) as [Hlt|Hge].
  - split; cbn [array youngLines candVal candArray candIdx]; try done; [intros _; lia| |].
    + intros x Hx. apply elem_of_app in Hx as [Hx|Hx].
      * specialize (Hm x Hx). lia.
      * apply list_elem_of_singleton in Hx as ->. unfold v. lia.
    + intros i Hi'. replace i with 0 by lia. by rewrite fn_lookup_insert.
  - assert (Hs : seen <> []).
    { intros ->. destruct (Hf eq_refl) as [Hcv _]. rewrite Hcv in Hge. unfold v in Hge.
      pose proof (at_line_range p0 id Hinv). change (Z.shiftl 1 20) with 1048576 in Hge. lia. }
    specialize (Hi Hs).
    assert (Hmin : forall x, x ∈ seen ++ [id] -> candVal p <= at_line (array p0) x).
    { intros x Hx. apply elem_of_app in Hx as [Hx|Hx]; [by apply Hm|].
      apply list_elem_of_singleton in Hx as ->. fold v. lia. }
    destruct (Z.eqb_spec v (candVal p)) as [Heq|Hneq].
    + split; cbn [array youngLines candVal candArray candIdx]; try done.
      * intros _. rewrite u32_id by (unfold in_u32; lia). lia.
      * rewrite u32_id by (unfold in_u32; lia). intros i Hi'.
        destruct (decide (i = candIdx p)) as [->|].
        -- rewrite fn_lookup_insert. done.
        -- rewrite fn_lookup_insert_ne by done. destruct (Hc i) as [H1 H2]; [lia|].
           split; [apply elem_of_app; by left|done].
    + split; try done.
      * intros _. lia.
      * intros i Hi'. destruct (Hc i Hi'). split; [apply elem_of_app; by left|done].
Qed.

Lemma nru_fold_ranked p0 todo seen p :
  inv p0 -> Z.of_nat (length seen + length todo) < 2 ^ 32 -> ranked p0 seen p ->
  ranked p0 (seen ++ todo) (fold_left recordCandidate todo p).
Proof.
  intros Hinv. revert seen p. induction todo as [|id todo IH]; intros seen p Hl Hr; cbn.
  - by rewrite app_nil_r.
  - cbn in Hl. replace (seen ++ id :: todo) with ((seen ++ [id]) ++ todo) by (by rewrite <- app_assoc).
    apply IH; [rewrite length_app; cbn; lia|]. apply nru_record_ranked; [done|lia|done].
Qed.

Lemma nru_rank_spec cands p :
  inv p -> fresh p -> cands <> [] -> Z.of_nat (length cands) < 2 ^ 32 ->
  exists best p', rank cands p = Ok (best, p') /\ best ∈ cands /\
    (forall x, x ∈ cands -> at_line (array p) best <= at_line (array p) x) /\
    array p' = array p /\ youngLines p' = youngLines p.
Proof.
  intros Hinv Hf Hne Hl.
  assert (H0 : ranked p [] p).
  { split; try done; [intros x Hx; by apply elem_of_nil in Hx|].
    destruct Hf as [_ Hi]. rewrite Hi. lia. }
  pose proof (nru_fold_ranked p cands [] p Hinv ltac:(cbn; lia) H0) as Hr. cbn in Hr.
  unfold rank, getBestCandidate. set (p1 := fold_left recordCandidate cands p) in *.
  destruct (rk_idx _ _ _ Hr Hne) as [Hi1 Hi2].
  rewrite (proj2 (Z.ltb_lt 0 (candIdx p1))) by done. cbn.
  eexists _, _. split; [reflexivity|].
  destruct (rk_cands _ _ _ Hr (youngLines p1 mod candIdx p1)) as [Hin Hval];
    [apply Z.mod_pos_bound; lia|].
  split_and!; [done| |apply Hr|apply Hr].
  intros x Hx. rewrite Hval. by apply (rk_min _ _ _ Hr).
Qed.

(** NRU keeps its counters in two bits, never counts fewer young lines than
    there are, and always stays below the threshold at which it ages the array;
    every ranking of a non-empty candidate list succeeds with one of the oldest
    candidates; and touching or replacing a line keeps all this. *)
Theorem nru_correct p cands id :
  inv p -> fresh p -> cands <> [] -> Z.of_nat (length cands) < 2 ^ 32 -> 0 <= id < numLines p ->
  (exists best p', rank cands p = Ok (best, p') /\ best ∈ cands /\
     (forall x, x ∈ cands -> at_line (array p) best <= at_line (array p) x) /\
     inv (replaced id p') /\ fresh (replaced id p')) /\
  inv (update id p) /\ fresh (update id p) /\ numLines (update id p) = numLines p.
Proof.
  intros Hinv Hf Hne Hl Hid. split.
  - destruct (nru_rank_spec cands p Hinv Hf Hne Hl) as (best & p' & H1 & H2 & H3 & H4 & H5).
    exists best, p'. split_and!; try done.
    assert (Hi : inv p') by (destruct Hinv; split; unfold numLines in *; by rewrite ?H4, ?H5).
    apply nru_replaced_inv; [done|]. unfold numLines in *. by rewrite H4.
  - split; [by apply nru_update_inv|]. unfold update, fresh, numLines.
    destruct (_ <=? _); cbn [candVal candIdx array]; rewrite ?length_fmap, length_insert; by split.
Qed.

Lemma nru_correct_witness :
  let p := update 2 (update 1 (init 16)) in
  (exists best p', rank [1; 2; 3] p = Ok (best, p') /\ best ∈ [1; 2; 3] /\
     (forall x, x ∈ [1; 2; 3] -> at_line (array p) best <= at_line (array p) x) /\
     inv (replaced 3 p') /\ fresh (replaced 3 p')) /\
  inv (update 3 p) /\ fresh (update 3 p) /\ numLines (update 3 p) = numLines p.
Proof.
  intros p. apply (nru_correct p [1; 2; 3] 3); try done.
  split; vm_compute; try done. repeat constructor; done.
Defined.

#[export, refine] Instance nru_laws : ReplPolicyLaws NRUReplPolicy := {
  rp_inv n k p := inv p /\ fresh p /\ numLines p = n /\ Z.of_nat k < 2 ^ 32;
  rp_mid n k p := inv p /\ numLines p = n /\ Z.of_nat k < 2 ^ 32
}.
Proof.
  - intros n k cc req cands p (Hinv & Hf & Hn & Hk) Hne Hl _.
    destruct (nru_rank_spec cands p Hinv Hf Hne) as (best & p' & H1 & H2 & H3 & H4 & H5); [lia|].
    exists best, p'. split_and!; try done.
    + destruct Hinv; split; unfold numLines in *; by rewrite ?H4, ?H5.
    + unfold numLines in *. by rewrite H4.
  - intros n k id p (Hinv & Hn & Hk) Hid. cbn. split_and!; try done.
    + apply nru_replaced_inv; [done|lia].
    + unfold numLines in *. cbn. by rewrite length_insert.
  - intros n k id req p (Hinv & Hf & Hn & Hk) Hid _. eexists. split; [reflexivity|]. split_and!.
    + apply nru_update_inv; [done|lia].
    + unfold update. destruct (_ <=? _); exact Hf.
    + unfold update, numLines in *. destruct (_ <=? _); cbn [array];
        by rewrite ?length_fmap, length_insert.
    + done.
Defined.

End NRU.

(** * LFU *)

Module LFU.

Record LFUInfo := mkInfo { ts : Z; acc : Z }.
Record Rank := mkRank { lfuInfo : LFUInfo; sharers : Z; valid : bool }.

Record LFUReplPolicy := mkLFU {
  timestamp : Z;
  bestCandidate : Z;
  array : Z -> LFUInfo;
  bestRank : Rank
}.

Definition reset_rank : Rank := mkRank (mkInfo 0 0) 0 false.
Definition init : LFUReplPolicy := mkLFU 1 (-1) (fun _ => mkInfo 0 0) reset_rank.

Definition lessThan (r other : Rank) (curTs : Z) : bool :=
  if negb (valid r) && valid other then true
  else if eqb (valid r) (valid other) then
    if (sharers r =? 0) && (0 <? sharers other) then true
    else if (0 <? sharers r) && (sharers other =? 0) then false
    else if acc (lfuInfo r) =? 0 then true
    else if acc (lfuInfo other) =? 0 then false
    else
      let ownInvFreq := u64 (curTs - ts (lfuInfo r)) / acc (lfuInfo r) in
      let otherInvFreq := u64 (curTs - ts (lfuInfo other)) / acc (lfuInfo other) in
      otherInvFreq <? ownInvFreq
  else false.

Definition update (id : Z) (p : LFUReplPolicy) : LFUReplPolicy :=
  let i := array p id in
  mkLFU (u64 (timestamp p + 1000)) (bestCandidate p)
    (<[id := mkInfo (u64 (acc i * ts i + timestamp p) / u64 (acc i + 1)) (u64 (acc i + 1))]> (array p))
    (bestRank p).

Definition cand_rank (cc : cc_view) (p : LFUReplPolicy) (id : Z) : Rank :=
  mkRank (array p id) (cc_numSharers cc id) (cc_isValid cc id).

Definition recordCandidate (cc : cc_view) (p : LFUReplPolicy) (id : Z) : LFUReplPolicy :=
  let candRank := cand_rank cc p id in
  if (bestCandidate p =? -1) || lessThan candRank (bestRank p) (timestamp p) then
    mkLFU (timestamp p) id (array p) candRank
  else p.

Definition getBestCandidate (p : LFUReplPolicy) : res Z :=
  _ ← assert_that (negb (bestCandidate p =? -1));
  Ok (bestCandidate p).

Definition replaced (id : Z) (p : LFUReplPolicy) : LFUReplPolicy :=
  mkLFU (timestamp p) (-1) (<[id := mkInfo (ts (array p id)) 0]> (array p)) reset_rank.

Definition rank (cc : cc_view) (cands : list Z) (p : LFUReplPolicy) : res (Z * LFUReplPolicy) :=
  let p := fold_left (recordCandidate cc) cands p in
  best ← getBestCandidate p;
  Ok (best, p).

#[export] Instance lfu_policy : ReplPolicy LFUReplPolicy := {
  rp_update id _ p := Ok (update id p);
  rp_replaced id p := replaced id p;
  rp_rank cc _ cands p := rank cc cands p
}.

(** The state of the ranking after the candidates [seen]. *)
Record ranked (cc : cc_view) (p0 : LFUReplPolicy) (seen : list Z) (p : LFUReplPolicy) : Prop := {
  rk_array : array p = array p0;
  rk_ts : timestamp p = timestamp p0;
  rk_none : seen = [] -> bestCandidate p = -1;
  rk_best : seen <> [] -> bestCandidate p ∈ seen /\ bestRank p = cand_rank cc p0 (bestCandidate p);
  rk_valid : forall x, x ∈ seen -> cc_isValid cc x = false ->
    cc_isValid cc (bestCandidate p) = false;
  rk_shared : forall x, x ∈ seen -> cc_isValid cc x = cc_isValid cc (bestCandidate p) ->
    cc_numSharers cc x = 0 -> cc_numSharers cc (bestCandidate p) = 0
}.

Lemma lfu_record_ranked cc p0 seen p id :
  (forall x, 0 <= cc_numSharers cc x) -> Forall (fun x => 0 <= x) (seen ++ [id]) ->
  ranked cc p0 seen p -> ranked cc p0 (seen ++ [id]) (recordCandidate cc p id).
Proof.
  intros Hsh Hpos [Ha Ht Hn Hb Hv Hs].
  assert (Hin : forall x, x ∈ seen ++ [id] <-> x ∈ seen \/ x = id)
    by (intros x; by rewrite elem_of_app, list_elem_of_singleton).
  assert (Hne : seen ++ [id] <> []) by (by destruct seen).
  unfold recordCandidate.
  assert (Hcr : cand_rank cc p id = cand_rank cc p0 id) by (unfold cand_rank; by rewrite Ha).
  rewrite Hcr. destruct (decide (seen = [])) as [->|Hs0].
  { rewrite (Hn eq_refl). cbn. split; cbn; try done.
    - intros _. split; [by left|done].
    - intros x Hx. by apply list_elem_of_singleton in Hx as ->.
    - intros x Hx. by apply list_elem_of_singleton in Hx as ->. }
  destruct (Hb Hs0) as [Hbin Hbr].
  assert (Hb1 : (bestCandidate p =? -1) = false).
  { apply Z.eqb_neq. apply Forall_app in Hpos as [Hpos _]. rewrite Forall_forall in Hpos.
    specialize (Hpos _ Hbin). cbn in Hpos. lia. }
  rewrite Hb1, Hbr. cbn [orb].
  pose proof (Hsh id) as Hsi. pose proof (Hsh (bestCandidate p)) as Hsb.
  destruct (lessThan _ _ _) eqn:El; unfold lessThan, cand_rank in El; cbn in El.
  - split; cbn; try done.
    + intros _. split; [apply Hin; by right|done].
    + intros x Hx Hxv. apply Hin in Hx as [Hx| ->]; [|done].
      specialize (Hv x Hx Hxv). rewrite Hv in El.
      by destruct (cc_isValid cc id).
    + intros x Hx Hxv Hx0. apply Hin in Hx as [Hx| ->]; [|done].
      destruct (cc_isValid cc id) eqn:Ei, (cc_isValid cc (bestCandidate p)) eqn:Eb; cbn in El; try done.
      * specialize (Hs x Hx Hxv Hx0). rewrite Hs in El. cbn in El.
        destruct (Z.ltb_spec 0 (cc_numSharers cc id)); cbn in El; [|lia].
        by rewrite andb_false_r in El.
      * specialize (Hv x Hx Hxv). done.
      * specialize (Hs x Hx Hxv Hx0). rewrite Hs in El. cbn in El.
        destruct (Z.ltb_spec 0 (cc_numSharers cc id)); cbn in El; [|lia].
        by rewrite andb_false_r in El.
  - split; try done.
    + intros _. split; [apply Hin; by left|done].
    + intros x Hx Hxv. apply Hin in Hx as [Hx| ->]; [by apply (Hv x)|].
      rewrite Hxv in El. by destruct (cc_isValid cc (bestCandidate p)).
    + intros x Hx Hxv Hx0. apply Hin in Hx as [Hx| ->]; [by apply (Hs x)|].
      rewrite Hxv in El. rewrite Hx0 in El. destruct (cc_isValid cc (bestCandidate p)); cbn in El;
        destruct (Z.ltb_spec 0 (cc_numSharers cc (bestCandidate p))); cbn in El; try done; lia.
Qed.

Lemma lfu_fold_ranked cc p0 todo seen p :
  (forall x, 0 <= cc_numSharers cc x) -> Forall (fun x => 0 <= x) (seen ++ todo) ->
  ranked cc p0 seen p -> ranked cc p0 (seen ++ todo) (fold_left (recordCandidate cc) todo p).
Proof.
  intros Hsh. revert seen p. induction todo as [|id todo IH]; intros seen p Hp Hr; cbn.
  - by rewrite app_nil_r.
  - rewrite cons_middle, app_assoc in *. apply IH; [done|]. apply lfu_record_ranked; [done| |done].
    by apply Forall_app in Hp as [? _].
Qed.

(** LFU evicts invalid lines first and, within the lines of equal validity,
    unshared lines before shared ones: the ranking of a non-empty candidate list
    succeeds with a candidate that is invalid if any is, and unshared if any
    candidate of the same validity is. *)
Theorem lfu_priorities cc cands p :
  (forall x, 0 <= cc_numSharers cc x) -> Forall (fun x => 0 <= x) cands -> cands <> [] ->
  bestCandidate p = -1 ->
  exists best p', rank cc cands p = Ok (best, p') /\ best ∈ cands /\
    (forall x, x ∈ cands -> cc_isValid cc x = false -> cc_isValid cc best = false) /\
    (forall x, x ∈ cands -> cc_isValid cc x = cc_isValid cc best ->
       cc_numSharers cc x = 0 -> cc_numSharers cc best = 0) /\
    bestCandidate (replaced best p') = -1.
Proof.
  intros Hsh Hpos Hne Hb.
  assert (H0 : ranked cc p [] p).
  { split; try done; intros x Hx; by apply elem_of_nil in Hx. }
  pose proof (lfu_fold_ranked cc p cands [] p Hsh Hpos H0) as Hr. cbn in Hr.
  unfold rank, getBestCandidate. set (p1 := fold_left _ cands p) in *.
  destruct (rk_best _ _ _ _ Hr Hne) as [Hin _].
  assert (Hb1 : (bestCandidate p1 =? -1) = false).
  { apply Z.eqb_neq. rewrite Forall_forall in Hpos. specialize (Hpos _ Hin). cbn in Hpos. lia. }
  rewrite Hb1. cbn. eexists _, _. split_and!; [reflexivity|done|apply Hr|apply Hr|done].
Qed.

Lemma lfu_priorities_witness :
  let cc := mkView (fun x => if x =? 4 then 2 else 0) (fun x => negb (x =? 9)) in
  exists best p', rank cc [4; 9; 5] (update 4 (update 9 init)) = Ok (best, p') /\ best ∈ [4; 9; 5] /\
    (forall x, x ∈ [4; 9; 5] -> cc_isValid cc x = false -> cc_isValid cc best = false) /\
    (forall x, x ∈ [4; 9; 5] -> cc_isValid cc x = cc_isValid cc best ->
       cc_numSharers cc x = 0 -> cc_numSharers cc best = 0) /\
    bestCandidate (replaced best p') = -1.
Proof.
  intros cc. apply (lfu_priorities cc [4; 9; 5] (update 4 (update 9 init))); try done.
  - intros x. cbn. destruct (x =? 4); lia.
  - repeat constructor; lia.
Defined.

End LFU.

(** * Random *)

Module Rand.

Record RandReplPolicy := mkRand {
  numCands : Z;
  candArray : Z -> Z;
  rnd : MTRand.MTRand;
  candIdx : Z
}.

Definition recordCandidate (p : RandReplPolicy) (id : Z) : RandReplPolicy :=
  mkRand (numCands p) (<[candIdx p := id]> (candArray p)) (rnd p) (u32 (candIdx p + 1)).

(** [None]: the rejection loop of [randInt] is still drawing after [fuel] draws. *)
Definition getBestCandidate (fuel : nat) (p : RandReplPolicy) : res (option (Z * RandReplPolicy)) :=
  _ ← assert_that (candIdx p =? numCands p);
  Ok (match MTRand.randInt_upto fuel (u32 (numCands p - 1)) (rnd p) with
      | Some (idx, r) => Some (candArray p idx, mkRand (numCands p) (candArray p) r (candIdx p))
      | None => None
      end).

Definition replaced (p : RandReplPolicy) : RandReplPolicy :=
  mkRand (numCands p) (candArray p) (rnd p) 0.

Definition rank (fuel : nat) (cands : list Z) (p : RandReplPolicy) :
    res (option (Z * RandReplPolicy)) :=
  getBestCandidate fuel (fold_left recordCandidate cands p).

Lemma record_all cands p :
  0 <= candIdx p -> candIdx p + Z.of_nat (length cands) < 2 ^ 32 ->
  let p' := fold_left recordCandidate cands p in
  candIdx p' = candIdx p + Z.of_nat (length cands) /\ numCands p' = numCands p /\
  rnd p' = rnd p /\ (forall i, i < candIdx p -> candArray p' i = candArray p i) /\
  forall i x, cands !! i = Some x -> candArray p' (candIdx p + Z.of_nat i) = x.
Proof.
  revert p. induction cands as [|c cands IH]; intros p H0 Hl; cbn [fold_left length] in *.
  { cbn. split_and!; [lia|done..]. }
  assert (Hu : u32 (candIdx p + 1) = candIdx p + 1) by (apply u32_id; unfold in_u32; lia).
  destruct (IH (recordCandidate p c)) as (H1 & H2 & H3 & H4 & H5); cbn; rewrite ?Hu; [lia|lia|].
  cbn in H1, H2, H3, H4, H5. rewrite Hu in *.
  split_and!; [lia|done|done| |].
  - intros i Hi. rewrite H4 by lia. by rewrite fn_lookup_insert_ne by lia.
  - intros [|i] x Hx; cbn in Hx.
    + injection Hx as ->. rewrite Z.add_0_r, H4 by lia. by rewrite fn_lookup_insert.
    + replace (candIdx p + Z.of_nat (Datatypes.S i)) with (candIdx p + 1 + Z.of_nat i) by lia.
      by apply H5.
Qed.

Lemma used_bits_range k n : 0 <= k -> 0 <= n < 2 ^ k -> 0 <= MTRand.used_bits n < 2 ^ k.
Proof.
  intros Hk Hn. unfold MTRand.used_bits. cbv zeta. bit_range.
Qed.

Lemma mask_pow2 k v :
  0 <= k -> Z.land v (MTRand.used_bits (2 ^ k - 1)) <= 2 ^ k - 1.
Proof.
  intros Hk. pose proof (Z.pow_pos_nonneg 2 k ltac:(lia) Hk).
  pose proof (land_range_r k Hk v _ (used_bits_range k (2 ^ k - 1) Hk ltac:(lia))). lia.
Qed.

(** Random replacement picks one of the candidates. When as many candidates as
    the policy was built for have been recorded, the result is one of them,
    whatever the generator draws; and if their number is a power of two, the first
    draw is always accepted, so the choice is made in one step. *)
Theorem rand_member cands p fuel :
  candIdx p = 0 -> 0 < numCands p < 2 ^ 32 -> numCands p = Z.of_nat (length cands) ->
  MTRand.wf (rnd p) ->
  (forall id p', rank fuel cands p = Ok (Some (id, p')) -> id ∈ cands /\ MTRand.wf (rnd p')) /\
  ((exists k, 0 <= k /\ numCands p = 2 ^ k) ->
     exists id p', rank (Datatypes.S fuel) cands p = Ok (Some (id, p')) /\ id ∈ cands).
Proof.
  intros H0 Hn Hl Hwf. unfold rank, getBestCandidate.
  destruct (record_all cands p) as (R1 & R2 & R3 & _ & R5); [lia|lia|].
  set (p1 := fold_left recordCandidate cands p) in *. rewrite R1, R2, R3.
  replace (candIdx p + Z.of_nat (length cands) =? numCands p) with true by lia. cbn [assert_that].
  assert (Hu : u32 (numCands p - 1) = numCands p - 1) by (apply u32_id; unfold in_u32; lia).
  rewrite Hu.
  assert (Hpick : forall i, 0 <= i <= numCands p - 1 -> candArray p1 i ∈ cands).
  { intros i Hi. destruct (lookup_lt_is_Some_2 cands (Z.to_nat i)) as [x Hx]; [lia|].
    specialize (R5 _ _ Hx). replace (candIdx p + Z.of_nat (Z.to_nat i)) with i in R5 by lia.
    rewrite R5. by eapply list_elem_of_lookup_2. }
  split.
  - cbn. intros id p' Hr.
    destruct (MTRand.randInt_upto fuel (numCands p - 1) (rnd p)) as [[i r]|] eqn:E; [|done].
    injection Hr as <- <-.
    destruct (MTRand.randInt_upto_bound fuel (numCands p - 1) (rnd p) i r ltac:(lia) Hwf E) as [Hi Hr'].
    split; [by apply Hpick|done].
  - intros (k & Hk & Hp). cbn [mbind res_bind MTRand.randInt_upto].
    destruct (MTRand.randInt (rnd p)) as [v r] eqn:E.
    destruct (MTRand.randInt_wf _ _ _ Hwf E) as [Hv _]. rewrite Hp.
    pose proof (mask_pow2 k v Hk) as Hm.
    destruct (Z.ltb_spec (2 ^ k - 1) (Z.land v (MTRand.used_bits (2 ^ k - 1)))); [lia|].
    eexists _, _. split; [reflexivity|]. apply Hpick. rewrite Hp. split; [|done].
    apply Z.land_nonneg. left. unfold in_u32 in Hv. lia.
Qed.

Lemma rand_member_witness :
  exists id p', rank 1 [8; 9; 10; 11] (mkRand 4 (fun _ => 0) (MTRand.seed 1) 0) = Ok (Some (id, p')) /\
    id ∈ [8; 9; 10; 11].
Proof.
  apply (rand_member [8; 9; 10; 11] (mkRand 4 (fun _ => 0) (MTRand.seed 1) 0) 0%nat); cbn;
    [done|lia|done|apply MTRand.seed_wf|by exists 2].
Defined.

End Rand.

(** * Tree LRU

    [TreeLRUReplPolicy] derives from [LRUReplPolicy<true>] and inherits its
    [rankCands], which never calls [recordCandidate] or [getBestCandidate]. *)

Module TreeLRU.

Definition rank (cc : cc_view) (cands : list Z) (p : LRU.LRUReplPolicy) : Z := LRU.rank cc cands p.

(** The check of the constructor. *)
Definition check_numCands (numCands : Z) : res unit :=
  if Z.land numCands (u32 (numCands - 1)) =? 0 then Ok tt else panic.

(** Largest timestamp among the candidates of [start, start + n). *)
Definition newest (array : Z -> Z) (candArray : list Z) (start : nat) (n : nat) : Z :=
  fold_left (fun t i => Z.max t (array (candArray !!! i))) (seq start n) 0.

Fixpoint descend (fuel : nat) (array : Z -> Z) (candArray : list Z) (start end_ : nat)
    : option nat :=
  if (end_ - start <=? 1)%nat then Some start
  else
    match fuel with
    | O => None
    | Datatypes.S fuel =>
        let pivot := (start + (end_ - start) / 2)%nat in
        let t1 := newest array candArray start (pivot - start) in
        let t2 := newest array candArray pivot (end_ - pivot) in
        if t2 <? t1 then descend fuel array candArray pivot end_
        else descend fuel array candArray start pivot
    end.

(** [getBestCandidate]; the fuel is the number of candidates. *)
Definition getBestCandidate (array : Z -> Z) (candArray : list Z) (numCands : nat) : res (option Z) :=
  _ ← assert_that (bool_decide (length candArray = numCands));
  Ok (i ← descend numCands array candArray 0 numCands; Some (candArray !!! i)).

Lemma descend_range fuel array cands s e :
  (s < e)%nat -> (e - s <= fuel)%nat ->
  exists i, descend fuel array cands s e = Some i /\ (s <= i < e)%nat.
Proof.
  revert s e. induction fuel as [|fuel IH]; intros s e Hse Hf; cbn [descend]; [lia|].
  destruct (Nat.leb_spec (e - s) 1); [exists s; split; [done|lia]|].
  assert (1 <= (e - s) / 2)%nat by (apply Nat.div_le_lower_bound; lia).
  assert ((e - s) / 2 < e - s)%nat by (apply Nat.div_lt; lia).
  destruct (_ <? _).
  - destruct (IH (s + (e - s) / 2) e)%nat as (i & -> & Hi); [lia|lia|]. exists i. split; [done|lia].
  - destruct (IH s (s + (e - s) / 2))%nat as (i & -> & Hi); [lia|lia|]. exists i. split; [done|lia].
Qed.

End TreeLRU.

(** * Profiling of ordering violations

    [ProfViolReplPolicy<LRUReplPolicy>], the only instance. *)

Module ProfViol.

Inductive counter := RAW | WAR | RAR | WAW | NoViolAcc | AAE | NoViolEv.

#[export] Instance counter_eq_dec : EqDecision counter.
Proof. solve_decision. Defined.

Record ProfViolReplPolicy := mkPV {
  base : LRU.LRUReplPolicy;
  read : Z -> Z;
  write : Z -> Z;
  count : counter -> Z;
  replCycle : Z
}.

Definition init (aware : bool) : ProfViolReplPolicy :=
  mkPV (LRU.init aware) (fun _ => 0) (fun _ => 0) (fun _ => 0) 0.

(** Which counter an access at [cycle] increments. *)
Definition classify (isRead : bool) (cycle rd wr : Z) : res counter :=
  if cycle <? Z.max rd wr then
    readViol ←
      (if cycle <? Z.min rd wr then Ok (rd <? wr)
       else if cycle <? rd then Ok true
       else (_ ← assert_that (cycle <? wr); Ok false));
    Ok (match isRead, readViol with
        | true, true => RAR | true, false => RAW
        | false, true => WAR | false, false => WAW end)
  else Ok NoViolAcc.

Definition inc (k : counter) (c : counter -> Z) : counter -> Z := <[k := u64 (c k + 1)]> c.

Definition update (id : Z) (req : MemReq) (p : ProfViolReplPolicy) : res ProfViolReplPolicy :=
  let b := LRU.update id (base p) in
  let isRead := bool_decide (type req = GETS) in
  _ ← assert_that (isRead || bool_decide (type req = GETX));
  k ← classify isRead (cycle req) (read p id) (write p id);
  Ok (mkPV (LRU.update id b)
        (if isRead then <[id := Z.max (read p id) (cycle req)]> (read p) else read p)
        (if isRead then write p else <[id := Z.max (write p id) (cycle req)]> (write p))
        (inc k (count p)) (replCycle p)).

Definition startReplacement (req : MemReq) (p : ProfViolReplPolicy) : ProfViolReplPolicy :=
  mkPV (base p) (read p) (write p) (count p) (cycle req).

Definition replaced (id : Z) (p : ProfViolReplPolicy) : ProfViolReplPolicy :=
  mkPV (LRU.replaced id (base p)) (<[id := 0]> (read p)) (<[id := 0]> (write p))
    (inc (if replCycle p <? Z.max (read p id) (write p id) then AAE else NoViolEv) (count p))
    (replCycle p).

(** The inherited [rank] is the one of LRU: it does not call [startReplacement]. *)
#[export] Instance profviol_policy : ReplPolicy ProfViolReplPolicy := {
  rp_update := update;
  rp_replaced := replaced;
  rp_rank cc _ cands p := Ok (LRU.rank cc cands (base p), p)
}.

(** One step of a cache array on the policy. *)
Inductive use := Access (id : Z) (req : MemReq) | Evict (cc : cc_view) (req : MemReq) (cands : list Z).

Definition run_use (p : ProfViolReplPolicy) (u : use) : res ProfViolReplPolicy :=
  match u with
  | Access id req => rp_update id req p
  | Evict cc req cands => '(id, p) ← rp_rank cc req cands p; Ok (rp_replaced id p)
  end.

Lemma classify_total b c rd wr : exists k, classify b c rd wr = Ok k.
Proof.
  unfold classify. destruct (Z.ltb_spec c (Z.max rd wr)); [|by eexists].
  destruct (Z.ltb_spec c (Z.min rd wr)); [by eexists|].
  destruct (Z.ltb_spec c rd); [by eexists|].
  destruct (Z.ltb_spec c wr); [by eexists|lia].
Qed.

(** The profiling wrapper never learns when a replacement starts. Its
    [startReplacement] is not called by the ranking it inherits, so in every run
    from the initial state the replacement cycle stays 0, and each eviction of a
    line accessed at a positive cycle since its last eviction is counted as an
    access-after-eviction violation, whenever it happens. It also updates the base
    policy twice per access: the LRU timestamp advances by 2. *)
Theorem profviol_replacements uses aware p :
  foldM run_use (init aware) uses = Ok p ->
  replCycle p = 0 /\
  (forall id, 0 < Z.max (read p id) (write p id) ->
     count (replaced id p) AAE = u64 (count p AAE + 1) /\
     count (replaced id p) NoViolEv = count p NoViolEv) /\
  (forall id req p', update id req p = Ok p' ->
     LRU.timestamp (base p') = u64 (u64 (LRU.timestamp (base p) + 1) + 1)).
Proof.
  intros Hrun. assert (H0 : replCycle p = 0).
  { refine (foldM_inv (fun p => replCycle p = 0) run_use (init aware) uses p _ eq_refl Hrun).
    intros q u q' _ Hq. destruct u as [id req|cc req cands]; cbn.
    - unfold update. rewrite bind_Ok. intros (? & _ & Hk). rewrite bind_Ok in Hk.
      destruct Hk as (k & _ & [= <-]). done.
    - intros [= <-]. done. }
  split_and!; [done| |].
  - intros id Hpos. unfold replaced. rewrite H0. cbn [count].
    rewrite (proj2 (Z.ltb_lt _ _) Hpos). unfold inc.
    rewrite fn_lookup_insert, fn_lookup_insert_ne by done. done.
  - intros id req p'. unfold update. rewrite bind_Ok. intros (? & _ & Hk). rewrite bind_Ok in Hk.
    destruct Hk as (k & _ & [= <-]). done.
Qed.

Lemma profviol_replacements_witness :
  let req := mkReq 5 GETS 0 Local 10 I 0 0 in
  exists p, foldM run_use (init true) [Access 3 req] = Ok p /\
    count (replaced 3 p) AAE = 1 /\ replCycle p = 0.
Proof.
  intros req. destruct (foldM run_use (init true) [Access 3 req]) as [p|] eqn:Er;
    [|vm_compute in Er; discriminate].
  exists p. split; [reflexivity|].
  destruct (profviol_replacements [Access 3 req] true p Er) as (H1 & H2 & _).
  split; [|done]. vm_compute in Er. injection Er as <-.
  destruct (H2 3) as [-> _]; vm_compute; reflexivity.
Defined.

End ProfViol.
