(* ===== verification/CacheArrays.v ===== *)
(** Cache arrays (cache_arrays.h, cache_arrays.cpp): the set-associative array and
    the zcache array, with the interface [CacheArray] that caches are built
    against.  The replacement policy is any instance of [ReplPolicy]; the hash
    family is a function from the function's index and the address. *)
From S2P Require Import Prelude MemHier Hash ReplPolicies Compressor XorStore.
Import MemHier.

(** * The interface *)

Class CacheArray (A : Type) := {
  ca_lookup : Z -> MemReq -> bool -> A -> res (Z * A);
  ca_preinsert : cc_view -> Z -> MemReq -> A -> res (Z * Z * A);
  ca_postinsert : Z -> MemReq -> Z -> A -> res A
}.

(** What a cache relies on, [ca_line a id] being the address stored in line [id]
    (0 if none): lookups find exactly the lines that are there, [preinsert] names a
    line and the address it holds, [postinsert] replaces that address and nothing
    else. [ca_mid a id addr] holds between the two. *)
Class CacheArrayLaws (A : Type) `{CacheArray A} := {
  ca_size : Z;
  ca_line : A -> Z -> Z;
  ca_inv : A -> Prop;
  ca_mid : A -> Z -> Z -> Prop;
  ca_unique a x y : ca_inv a -> 0 <= x < ca_size -> 0 <= y < ca_size ->
    ca_line a x = ca_line a y -> ca_line a x <> 0 -> x = y;
  ca_lookup_ok addr req upd a : ca_inv a -> 0 < addr -> (upd = true -> IsGet (type req) = true) ->
    exists id a', ca_lookup addr req upd a = Ok (id, a') /\ ca_inv a' /\
      (forall x, ca_line a' x = ca_line a x) /\
      ((id = -1 /\ forall x, 0 <= x < ca_size -> ca_line a x <> addr) \/
       (0 <= id < ca_size /\ ca_line a id = addr));
  ca_lookup_const addr req a id a' : ca_lookup addr req false a = Ok (id, a') -> a' = a;
  ca_preinsert_ok cc addr req a : ca_inv a -> 0 < addr ->
    (forall x, 0 <= x < ca_size -> ca_line a x <> addr) ->
    exists id wb a', ca_preinsert cc addr req a = Ok (id, wb, a') /\ ca_mid a' id addr /\
      0 <= id < ca_size /\ wb = ca_line a id /\ (forall x, ca_line a' x = ca_line a x);
  ca_postinsert_ok addr req id a : ca_mid a id addr -> 0 <= id < ca_size -> 0 < addr ->
    IsGet (type req) = true ->
    exists a', ca_postinsert addr req id a = Ok a' /\ ca_inv a' /\
      forall x, ca_line a' x = if decide (x = id) then addr else ca_line a x
}.

(** The first line of a list that holds an address; -1 if there is none. *)
Fixpoint scan (array : Z -> Z) (addr : Z) (ids : list Z) : Z :=
  match ids with
  | [] => -1
  | id :: ids => if array id =? addr then id else scan array addr ids
  end.

Lemma scan_spec array addr ids :
  (scan array addr ids = -1 /\ forall id, id ∈ ids -> array id <> addr) \/
  (scan array addr ids ∈ ids /\ array (scan array addr ids) = addr).
Proof.
  induction ids as [|x ids IH]; cbn.
  - left. split; [done|]. intros id Hid. by apply elem_of_nil in Hid.
  - destruct (Z.eqb_spec (array x) addr) as [He|He]; [right; split; [by left|done]|].
    destruct IH as [[H1 H2]|[H1 H2]]; [left|right].
    + split; [done|]. intros id Hid. apply elem_of_cons in Hid as [->|]; auto.
    + split; [by right|done].
Qed.

(** [first, first + n) *)
Definition range (first n : Z) : list Z := (fun i => first + Z.of_nat i) <$> seq 0 (Z.to_nat n).

Lemma elem_of_range first n x : 0 <= n -> x ∈ range first n <-> first <= x < first + n.
Proof.
  intros Hn. unfold range. rewrite list_elem_of_fmap. split.
  - intros (i & -> & Hi). apply elem_of_seq in Hi. lia.
  - intros Hx. exists (Z.to_nat (x - first)). split; [lia|]. apply elem_of_seq. lia.
Qed.

Lemma length_range first n : length (range first n) = Z.to_nat n.
Proof. unfold range. by rewrite length_fmap, length_seq. Qed.

Lemma NoDup_range first n : NoDup (range first n).
Proof.
  assert (Inj (=) (=) (fun i : nat => first + Z.of_nat i)) by (intros ???; lia).
  unfold range. apply (NoDup_fmap_2 _), NoDup_seq.
Qed.

Lemma filter_all {A} (P : A -> Prop) `{!forall x, Decision (P x)} (l : list A) :
  Forall P l -> filter P l = l.
Proof.
  induction 1 as [|x l Hx _ IH]; [done|]. by rewrite filter_cons, decide_True, IH.
Qed.

(** * Set-associative arrays *)

Module SetAssoc.

Record config := mkCfg { numLines : Z; assoc : Z }.

Definition numSets (g : config) : Z := numLines g / assoc g.
Definition setMask (g : config) : Z := u32 (numSets g - 1).

Record SetAssocArray (R : Type) := mkSA { array : Z -> Z; rp : R }.
Arguments mkSA {R}. Arguments array {R}. Arguments rp {R}.

Section Ops.
Context {R : Type} `{ReplPolicy R} (g : config) (hash : Z -> Z -> Z).
Implicit Types a : SetAssocArray R.

(** The constructor. *)
Definition new (r : R) : res (SetAssocArray R) :=
  _ ← assert_that (Bits.isPow2 32 (numSets g));
  Ok (mkSA (fun _ => 0) r).

Definition first_of (lineAddr : Z) : Z :=
  let set := Z.land (hash 0 lineAddr) (setMask g) in u32 (set * assoc g).

Definition lookup (lineAddr : Z) (req : MemReq) (updateReplacement : bool) a :
    res (Z * SetAssocArray R) :=
  let id := scan (array a) lineAddr (range (first_of lineAddr) (assoc g)) in
  if id =? -1 then Ok (-1, a)
  else if updateReplacement then
    r ← rp_update id req (rp a);
    Ok (id, mkSA (array a) r)
  else Ok (id, a).

Definition preinsert (cc : cc_view) (lineAddr : Z) (req : MemReq) a :
    res (Z * Z * SetAssocArray R) :=
  '(candidate, r) ← rp_rank cc req (range (first_of lineAddr) (assoc g)) (rp a);
  Ok (candidate, array a candidate, mkSA (array a) r).

(** The tag half of [postinsert]. *)
Definition postinsert (lineAddr : Z) (req : MemReq) (candidate : Z) a : res (SetAssocArray R) :=
  r ← rp_update candidate req (rp_replaced candidate (rp a));
  Ok (mkSA (<[candidate := lineAddr]> (array a)) r).

(** [postinsert] and [postinsertL2], with the line data they keep ([l1] and [mem]
    are the global flag and the memory they read). *)
Definition postinsert_data (l1 : Z) (lineAddr : Z) (req : MemReq) (candidate : Z) a
    (w : XorStore.xor_world) : res (SetAssocArray R * XorStore.xor_world) :=
  let w := XorStore.postinsert_xor l1 candidate w in
  a ← postinsert lineAddr req candidate a;
  Ok (a, w).

Definition lookupL2 := lookup.
Definition preinsertL2 := preinsert.

Definition postinsertL2 (mem : Z -> Z) (lineAddr : Z) (req : MemReq) (candidate : Z) a
    (w : XorStore.xor_world) : res (SetAssocArray R * XorStore.xor_world) :=
  let r := rp_replaced candidate (rp a) in
  let arr := <[candidate := lineAddr]> (array a) in
  let w := XorStore.postinsertL2_xor mem lineAddr candidate w in
  r ← rp_update candidate req r;
  Ok (mkSA arr r, w).

#[export] Instance sa_array : CacheArray (SetAssocArray R) := {
  ca_lookup := lookup;
  ca_preinsert := preinsert;
  ca_postinsert := postinsert
}.

(** ** Invariant *)

Context {RL : ReplPolicyLaws R}.

Record cfg_ok : Prop := {
  cfg_assoc : 0 < assoc g;
  cfg_lines : numLines g = numSets g * assoc g;
  cfg_size : numLines g < 2 ^ 32;
  cfg_pow2 : exists k, 0 <= k /\ numSets g = 2 ^ k
}.

Context (Hg : cfg_ok).

(** The set of an address. *)
Definition set_of (addr : Z) : Z := hash 0 addr mod numSets g.

Record inv_lines (arr : Z -> Z) : Prop := {
  il_set : forall id, 0 <= id < numLines g -> arr id <> 0 ->
    set_of (arr id) * assoc g <= id < set_of (arr id) * assoc g + assoc g;
  il_unique : forall x y, 0 <= x < numLines g -> 0 <= y < numLines g ->
    arr x <> 0 -> arr x = arr y -> x = y
}.

Lemma sa_numSets_pos : 0 < numSets g.
Proof. destruct (cfg_pow2 Hg) as (k & Hk & ->). by apply Z.pow_pos_nonneg. Qed.

Lemma numSets_small : numSets g < 2 ^ 32.
Proof.
  pose proof (cfg_lines Hg). pose proof (cfg_size Hg). pose proof (cfg_assoc Hg).
  pose proof sa_numSets_pos. nia.
Qed.

Lemma set_range addr : 0 <= set_of addr < numSets g.
Proof. apply Z.mod_pos_bound, sa_numSets_pos. Qed.

Lemma first_of_spec addr : first_of addr = set_of addr * assoc g.
Proof.
  unfold first_of, setMask. pose proof sa_numSets_pos. pose proof numSets_small.
  rewrite (u32_id (numSets g - 1)) by (unfold in_u32; lia).
  assert (Hm : Z.land (hash 0 addr) (numSets g - 1) = set_of addr).
  { unfold set_of. destruct (cfg_pow2 Hg) as (k & Hk & ->).
    apply Bits.land_mask_mod. done. }
  rewrite Hm. pose proof (set_range addr). pose proof (cfg_assoc Hg). pose proof (cfg_lines Hg).
  pose proof (cfg_size Hg). apply u32_id. unfold in_u32. nia.
Qed.

Lemma set_ids addr x :
  x ∈ range (first_of addr) (assoc g) <->
  set_of addr * assoc g <= x < set_of addr * assoc g + assoc g.
Proof. rewrite elem_of_range by (pose proof (cfg_assoc Hg); lia). by rewrite first_of_spec. Qed.

Lemma set_ids_range addr x :
  set_of addr * assoc g <= x < set_of addr * assoc g + assoc g -> 0 <= x < numLines g.
Proof.
  pose proof (set_range addr). pose proof (cfg_assoc Hg). rewrite (cfg_lines Hg). nia.
Qed.

Definition inv a : Prop :=
  inv_lines (array a) /\ rp_inv (numLines g) (Z.to_nat (assoc g)) (rp a).

(** Between [preinsert] and [postinsert]. *)
Definition mid a (id addr : Z) : Prop :=
  inv_lines (array a) /\ rp_mid (numLines g) (Z.to_nat (assoc g)) (rp a) /\
  set_of addr * assoc g <= id < set_of addr * assoc g + assoc g /\
  forall x, 0 <= x < numLines g -> array a x <> addr.

(** The scan of a set finds the address if any line of the array holds it. *)
Lemma scan_set arr addr :
  inv_lines arr -> addr <> 0 ->
  let id := scan arr addr (range (first_of addr) (assoc g)) in
  (id = -1 /\ forall x, 0 <= x < numLines g -> arr x <> addr) \/
  (0 <= id < numLines g /\ arr id = addr).
Proof.
  intros [Hs Hu] Hne. cbv zeta.
  destruct (scan_spec arr addr (range (first_of addr) (assoc g))) as [[H1 H2]|[H1 H2]].
  - left. split; [done|]. intros x Hx Heq. apply (H2 x); [|done]. apply set_ids.
    rewrite <- Heq. apply Hs; [done|congruence].
  - right. split; [|done]. apply set_ids in H1. by eapply set_ids_range.
Qed.

Lemma sa_lookup_ok addr req upd a :
  inv a -> 0 < addr -> (upd = true -> IsGet (type req) = true) ->
  exists id a', lookup addr req upd a = Ok (id, a') /\ inv a' /\ array a' = array a /\
    ((id = -1 /\ forall x, 0 <= x < numLines g -> array a x <> addr) \/
     (0 <= id < numLines g /\ array a id = addr)).
Proof.
  intros [Hi Hr] Ha Hq. unfold lookup.
  pose proof (scan_set _ _ Hi (Z.neq_sym _ _ (Z.lt_neq _ _ Ha))) as Hs. cbv zeta in Hs.
  set (id := scan _ _ _) in *. destruct (Z.eqb_spec id (-1)) as [He|He].
  - exists (-1), a. split_and!; try done. left. split; [done|]. by destruct Hs as [[_ ?]|[? _]]; [|lia].
  - destruct Hs as [[? _]|[Hid Hx]]; [done|]. destruct upd.
    + destruct (rp_update_ok (numLines g) (Z.to_nat (assoc g)) id req (rp a) Hr Hid (Hq eq_refl)) as (r' & -> & Hr').
      cbn. eexists _, _. split_and!; [reflexivity|by split|done|by right].
    + eexists _, _. split_and!; [reflexivity|by split|done|by right].
Qed.

Lemma sa_preinsert_ok cc addr req a :
  inv a -> 0 < addr -> (forall x, 0 <= x < numLines g -> array a x <> addr) ->
  exists id wb a', preinsert cc addr req a = Ok (id, wb, a') /\ mid a' id addr /\
    0 <= id < numLines g /\ wb = array a id /\ array a' = array a.
Proof.
  intros [Hi Hr] Ha Hno. unfold preinsert. pose proof (cfg_assoc Hg) as Hw.
  destruct (rp_rank_ok (numLines g) (Z.to_nat (assoc g)) cc req
              (range (first_of addr) (assoc g)) (rp a) Hr) as (id & r' & Hk & Hin & Hm).
  - intros He. apply (f_equal length) in He. rewrite length_range in He. cbn in He. lia.
  - by rewrite length_range.
  - apply Forall_forall. intros x Hx. by eapply set_ids_range, set_ids.
  - rewrite Hk. cbn. apply set_ids in Hin. eexists _, _, _. split_and!; [reflexivity| | | |done|done].
    + exact (conj Hi (conj Hm (conj Hin Hno))).
    + apply set_ids_range in Hin; lia.
    + apply set_ids_range in Hin; lia.
Qed.

Lemma inv_lines_insert arr id addr :
  inv_lines arr -> set_of addr * assoc g <= id < set_of addr * assoc g + assoc g ->
  (forall x, 0 <= x < numLines g -> arr x <> addr) ->
  inv_lines (<[id := addr]> arr).
Proof.
  intros [Hs Hu] Hid Hno. split.
  - intros x Hx. destruct (decide (x = id)) as [->|]; [by rewrite fn_lookup_insert|].
    rewrite fn_lookup_insert_ne by done. by apply Hs.
  - intros x y Hx Hy. destruct (decide (x = id)) as [->|], (decide (y = id)) as [->|];
      rewrite ?fn_lookup_insert, ?fn_lookup_insert_ne by done; try done.
    + intros _ Heq. by destruct (Hno y Hy).
    + intros _ Heq. by destruct (Hno x Hx).
    + by apply Hu.
Qed.

Lemma sa_postinsert_ok addr req id a :
  mid a id addr -> 0 <= id < numLines g -> IsGet (type req) = true ->
  exists a', postinsert addr req id a = Ok a' /\ inv a' /\ array a' = <[id := addr]> (array a).
Proof.
  intros (Hi & Hr & Hid & Hno) Hl Hq. unfold postinsert.
  pose proof (rp_replaced_ok _ _ id _ Hr Hl) as Hr'.
  destruct (rp_update_ok _ _ id req _ Hr' Hl Hq) as (r' & -> & Hr''). cbn.
  eexists. split_and!; [reflexivity| |done]. split; [by apply inv_lines_insert|done].
Qed.

(** C29: a set-associative array is a map. In any consistent array with any
    replacement policy, looking up an address finds the line that holds it or
    reports that no line does, and changes no line; inserting an absent address
    evicts a line of its set, reports the address it held, and afterwards the array
    is consistent and exactly that line holds the new address: it is found, every
    other address but the evicted one is found where it was. *)
Theorem setassoc_insert_lookup addr req cc a :
  inv a -> 0 < addr -> IsGet (type req) = true ->
  (forall x, 0 <= x < numLines g -> array a x <> addr) ->
  lookup addr req true a = Ok (-1, a) /\
  exists id wb a1 a2, preinsert cc addr req a = Ok (id, wb, a1) /\
    postinsert addr req id a1 = Ok a2 /\ inv a2 /\
    0 <= id < numLines g /\ wb = array a id /\
    (exists a3, lookup addr req false a2 = Ok (id, a3)) /\
    (forall addr' x, 0 < addr' -> addr' <> addr -> 0 <= x < numLines g -> x <> id ->
       array a x = addr' -> exists a3, lookup addr' req false a2 = Ok (x, a3)).
Proof.
  intros Ha Haddr Hq Hno. split.
  { destruct Ha as [Hi _]. unfold lookup.
    pose proof (scan_set _ _ Hi (Z.neq_sym _ _ (Z.lt_neq _ _ Haddr))) as Hs. cbv zeta in Hs.
    destruct Hs as [[-> _]|[Hid Hx]]; [done|]. by destruct (Hno _ Hid). }
  destruct (sa_preinsert_ok cc addr req a Ha Haddr Hno) as (id & wb & a1 & E1 & Hm & Hid & -> & Ea1).
  destruct (sa_postinsert_ok addr req id a1 Hm Hid Hq) as (a2 & E2 & Hi2 & Ea2).
  exists id, (array a id), a1, a2. split_and!; try done; [lia|lia|..].
  - destruct (sa_lookup_ok addr req false a2 Hi2 Haddr ltac:(done)) as (x & a3 & E3 & _ & _ & Hx).
    exists a3. rewrite E3. do 2 f_equal. destruct Hx as [[_ Hx]|[Hx1 Hx2]].
    + destruct (Hx id Hid). rewrite Ea2. by rewrite fn_lookup_insert.
    + destruct Hi2 as [[_ Hu] _]. apply Hu; try done; rewrite Hx2; [lia|].
      by rewrite Ea2, fn_lookup_insert.
  - intros addr' x Ha' Hne Hx Hxid Hxa.
    destruct (sa_lookup_ok addr' req false a2 Hi2 Ha' ltac:(done)) as (y & a3 & E3 & _ & _ & Hy).
    assert (Hax : array a2 x = addr') by (by rewrite Ea2, fn_lookup_insert_ne, Ea1 by done).
    exists a3. rewrite E3. do 2 f_equal. destruct Hy as [[_ Hy]|[Hy1 Hy2]].
    + by destruct (Hy x Hx).
    + destruct Hi2 as [[_ Hu] _]. apply Hu; try done; rewrite Hy2; [lia|done].
Qed.

Definition sa_laws : CacheArrayLaws (SetAssocArray R).
Proof.
  refine {| ca_size := numLines g; ca_line := array; ca_inv := inv; ca_mid := mid |}.
  - intros a x y [Hi _] Hx Hy Heq Hne. by apply (il_unique _ Hi).
  - intros addr req upd a Ha Haddr Hq.
    destruct (sa_lookup_ok addr req upd a Ha Haddr Hq) as (id & a' & E & Hi & Hl & Hx).
    exists id, a'. rewrite Hl. by split_and!.
  - intros addr req a id a'. cbn. unfold lookup. destruct (_ =? -1); by intros [= _ <-].
  - intros cc addr req a Ha Haddr Hno.
    destruct (sa_preinsert_ok cc addr req a Ha Haddr Hno) as (id & wb & a' & E & Hm & Hid & Hwb & Hl).
    exists id, wb, a'. rewrite Hl. split_and!; (done || lia).
  - intros addr req id a Hm Hid Haddr Hq.
    destruct (sa_postinsert_ok addr req id a Hm Hid Hq) as (a' & E & Hi & Hl).
    exists a'. rewrite Hl. split_and!; [done|done|]. intros x.
    destruct (decide (x = id)) as [->|]; [by rewrite fn_lookup_insert|by rewrite fn_lookup_insert_ne].
Defined.

End Ops.

#[local] Existing Instance LRU.lru_policy.
#[local] Existing Instance LRU.lru_laws.

Lemma setassoc_insert_lookup_witness :
  let g := mkCfg 8 2 in let hash := fun _ x : Z => Z.max 0 x in
  let a := mkSA (<[2 := 5]> (fun _ => 0)) (LRU.init true) in
  let req := mkReq 9 GETS 0 Local 10 I 0 0 in
  exists id wb a1 a2,
    preinsert g hash (mkView (fun _ => 0) (fun x => x =? 2)) 9 req a = Ok (id, wb, a1) /\
    postinsert 9 req id a1 = Ok a2 /\ array a2 id = 9 /\ 0 <= id < 8.
Proof.
  intros g hash a req.
  assert (Hg : cfg_ok g) by (split; cbn; [lia|done|lia|by exists 2]).
  destruct (setassoc_insert_lookup g hash Hg 9 req
              (mkView (fun _ => 0) (fun x => x =? 2)) a) as (_ & id & wb & a1 & a2 & E1 & E2 & Hi & Hid & Hwb & (a3 & E3) & _).
  - split; [|done]. split.
    + intros id Hid. destruct (decide (id = 2)) as [->|]; [by intros _; vm_compute|].
      cbn. by rewrite fn_lookup_insert_ne.
    + intros x y Hx Hy. cbn. destruct (decide (x = 2)) as [->|], (decide (y = 2)) as [->|];
        rewrite ?fn_lookup_insert, ?fn_lookup_insert_ne by done; done.
  - lia.
  - done.
  - intros x Hx. cbn. destruct (decide (x = 2)) as [->|];
      rewrite ?fn_lookup_insert, ?fn_lookup_insert_ne by done; cbn; lia.
  - exists id, wb, a1, a2. change (numLines g) with 8 in Hid. split_and!; try done; try lia.
    unfold postinsert in E2. cbn in E2. injection E2 as <-. cbn. by rewrite fn_lookup_insert.
Defined.

End SetAssoc.
(** * ZCache arrays *)

Module ZCache.

Record config := mkCfg { numLines : Z; ways : Z; cands : Z }.

Definition numSets (g : config) : Z := numLines g / ways g.
Definition setMask (g : config) : Z := u32 (numSets g - 1).

(** [ZWalkInfo]. *)
Record ZWalkInfo := mkWalk { pos : Z; lineId : Z; parentIdx : Z }.
#[export] Instance walk_inhabited : Inhabited ZWalkInfo := populate (mkWalk 0 0 0).

(** [array] maps a line to its address, [lookupArray] a position to its line. *)
Record ZArray (R : Type) := mkZ {
  array : Z -> Z;
  lookupArray : Z -> Z;
  rp : R;
  swapArray : list Z;
  lastCandIdx : Z;
  statSwaps : Z
}.
Arguments mkZ {R}. Arguments array {R}. Arguments lookupArray {R}. Arguments rp {R}.
Arguments swapArray {R}. Arguments lastCandIdx {R}. Arguments statSwaps {R}.

Section Ops.
Context {R : Type} `{ReplPolicy R} (g : config) (hash : Z -> Z -> Z).
Implicit Types a : ZArray R.

Definition new (r : R) : res (ZArray R) :=
  _ ← assert_that (1 <? ways g);
  _ ← assert_that (ways g <=? cands g);
  _ ← assert_that (numLines g mod ways g =? 0);
  _ ← assert_that (Bits.isPow2 32 (numSets g));
  Ok (mkZ (fun _ => 0) (fun i => i) r [] 0 0).

(** Where function [w] places an address. *)
Definition place (w addr : Z) : Z := u32 (w * numSets g + Z.land (hash w addr) (setMask g)).

Definition lookup (lineAddr : Z) (req : MemReq) (updateReplacement : bool) a : res (Z * ZArray R) :=
  if lineAddr =? 0 then panic
  else
    let id := scan (array a) lineAddr ((fun w => lookupArray a (place w lineAddr)) <$> range 0 (ways g)) in
    if id =? -1 then Ok (-1, a)
    else if updateReplacement then
      r ← rp_update id req (rp a);
      Ok (id, mkZ (array a) (lookupArray a) r (swapArray a) (lastCandIdx a) (statSwaps a))
    else Ok (id, a).

(** The state of the walk: the candidates so far, the next one to expand, and
    whether they are all valid. *)
Record walk_state := mkWS { ws_cands : list ZWalkInfo; fringeStart : nat; all_valid : bool }.

Definition seed (a : ZArray R) (lineAddr w : Z) : ZWalkInfo :=
  let p := place w lineAddr in mkWalk p (lookupArray a p) (-1).

Definition seeds (a : ZArray R) (lineAddr : Z) : walk_state :=
  let cs := seed a lineAddr <$> range 0 (ways g) in
  mkWS cs 0 (forallb (fun c => negb (array a (lineId c) =? 0)) cs).

(** The candidates that candidate [f], holding line [fringeId], gives rise to: the
    slot written for [lineId == fringeId] is overwritten by the next one, and its
    line is valid. *)
Definition children (a : ZArray R) (f : nat) (fringeId : Z) : list ZWalkInfo :=
  filter (fun c => lineId c <> fringeId)
    ((fun w => let p := place w (array a fringeId) in mkWalk p (lookupArray a p) (Z.of_nat f))
       <$> range 0 (ways g)).

Definition walk_step (a : ZArray R) (s : walk_state) (_ : nat) : res walk_state :=
  if (Z.of_nat (length (ws_cands s)) <? cands g) && all_valid s then
    let fringeId := lineId (ws_cands s !!! fringeStart s) in
    _ ← assert_that (negb (array a fringeId =? 0));
    let cs := children a (fringeStart s) fringeId in
    Ok (mkWS (ws_cands s ++ cs) (Datatypes.S (fringeStart s))
          (forallb (fun c => negb (array a (lineId c) =? 0)) cs))
  else Ok s.

(** [cands] iterations of the loop are enough ([walk_finished] below). *)
Definition walk (a : ZArray R) (lineAddr : Z) : res walk_state :=
  foldM (walk_step a) (seeds a lineAddr) (seq 0 (Z.to_nat (cands g))).

(** Smallest index of a candidate with the line; -1 if there is none. *)
Fixpoint min_idx (line : Z) (cs : list ZWalkInfo) (i : Z) : Z :=
  match cs with
  | [] => -1
  | c :: cs => if line =? lineId c then i else min_idx line cs (i + 1)
  end.

(** Positions on the path from candidate [idx] to a seed. *)
Fixpoint path (fuel : nat) (cs : list ZWalkInfo) (idx : Z) : list Z :=
  match fuel with
  | O => []
  | Datatypes.S fuel =>
      if idx <? 0 then []
      else
        let c := cs !!! Z.to_nat idx in
        pos c :: path fuel cs (parentIdx c)
  end.

Definition preinsert (cc : cc_view) (lineAddr : Z) (req : MemReq) a : res (Z * Z * ZArray R) :=
  s ← walk a lineAddr;
  let cs := ws_cands s in
  _ ← assert_that (negb (all_valid s) || (cands g <=? Z.of_nat (length cs)));
  let numCandidates := Z.to_nat (Z.min (Z.of_nat (length cs)) (cands g)) in
  '(bestCandidate, r) ← rp_rank cc req (lineId <$> take numCandidates cs) (rp a);
  _ ← assert_that (bestCandidate <? numLines g);
  let minIdx := min_idx bestCandidate (take numCandidates cs) 0 in
  let swaps := path (length cs) cs minIdx in
  _ ← assert_that (0 <? length swaps)%nat;
  Ok (bestCandidate, array a bestCandidate,
      mkZ (array a) (lookupArray a) r swaps (u32 minIdx) (statSwaps a)).

(** The relocations: every position on the path takes the line of the next one,
    and the last takes the evicted line. *)
Fixpoint do_swaps (lk : Z -> Z) (swaps : list Z) (candidate : Z) : Z -> Z :=
  match swaps with
  | [] => lk
  | p :: rest =>
      match rest with
      | [] => <[p := candidate]> lk
      | q :: _ => do_swaps (<[p := lk q]> lk) rest candidate
      end
  end.

Definition postinsert (lineAddr : Z) (req : MemReq) (candidate : Z) a : res (ZArray R) :=
  _ ← assert_that (lookupArray a (swapArray a !!! 0%nat) =? candidate);
  let lk := do_swaps (lookupArray a) (swapArray a) candidate in
  r ← rp_update candidate req (rp_replaced candidate (rp a));
  Ok (mkZ (<[candidate := lineAddr]> (array a)) lk r (swapArray a) (lastCandIdx a)
        (u64 (statSwaps a + Z.of_nat (length (swapArray a) - 1)))).

#[export] Instance z_array : CacheArray (ZArray R) := {
  ca_lookup := lookup;
  ca_preinsert := preinsert;
  ca_postinsert := postinsert
}.

(** ** Invariant *)

Context {RL : ReplPolicyLaws R}.

Record cfg_ok : Prop := {
  cfg_ways : 1 < ways g;
  cfg_cands : ways g <= cands g;
  cfg_lines : numLines g = numSets g * ways g;
  cfg_size : numLines g < 2 ^ 31;
  cfg_pow2 : exists k, 0 <= k /\ numSets g = 2 ^ k
}.

Context (Hg : cfg_ok).

Lemma z_numSets_pos : 0 < numSets g.
Proof. destruct (cfg_pow2 Hg) as (k & Hk & ->). by apply Z.pow_pos_nonneg. Qed.

Lemma place_spec w addr :
  0 <= w < ways g -> place w addr = w * numSets g + hash w addr mod numSets g.
Proof.
  intros Hw. unfold place, setMask. pose proof z_numSets_pos. pose proof (cfg_lines Hg).
  pose proof (cfg_size Hg).
  assert (numSets g <= numLines g) by nia.
  rewrite (u32_id (numSets g - 1)) by (unfold in_u32; lia).
  replace (Z.land (hash w addr) (numSets g - 1)) with (hash w addr mod numSets g).
  - pose proof (Z.mod_pos_bound (hash w addr) (numSets g) z_numSets_pos).
    apply u32_id. unfold in_u32. nia.
  - destruct (cfg_pow2 Hg) as (k & Hk & ->). by rewrite Bits.land_mask_mod.
Qed.

Lemma place_range w addr : 0 <= w < ways g -> 0 <= place w addr < numLines g.
Proof.
  intros Hw. rewrite place_spec by done. rewrite (cfg_lines Hg).
  pose proof (Z.mod_pos_bound (hash w addr) (numSets g) z_numSets_pos). nia.
Qed.

(** Different ways place an address at different positions. *)
Lemma place_inj w1 w2 addr :
  0 <= w1 < ways g -> 0 <= w2 < ways g -> place w1 addr = place w2 addr -> w1 = w2.
Proof.
  intros H1 H2. rewrite !place_spec by done. pose proof z_numSets_pos.
  pose proof (Z.mod_pos_bound (hash w1 addr) (numSets g) z_numSets_pos).
  pose proof (Z.mod_pos_bound (hash w2 addr) (numSets g) z_numSets_pos). nia.
Qed.

(** Position [p] is one of the places of address [addr]. *)
Definition placed (p addr : Z) : Prop := exists w, 0 <= w < ways g /\ p = place w addr.

Notation inr p := (0 <= p < numLines g).

(** [lookupArray] is a bijection, every valid line is at one of its places, and no
    address is in two lines. *)
Record inv_lines (arr lk : Z -> Z) : Prop := {
  il_range : forall p, inr p -> inr (lk p);
  il_inj : forall p q, inr p -> inr q -> lk p = lk q -> p = q;
  il_surj : forall id, inr id -> exists p, inr p /\ lk p = id;
  il_place : forall p, inr p -> arr (lk p) <> 0 -> placed p (arr (lk p));
  il_unique : forall x y, inr x -> inr y -> arr x <> 0 -> arr x = arr y -> x = y
}.

Lemma placed_range p addr : placed p addr -> inr p.
Proof. intros (w & Hw & ->). by apply place_range. Qed.

(** ** Relocation *)

(** Consecutive positions of a relocation path: the line at the second one can
    live at the first one. *)
Definition linked (arr lk : Z -> Z) (p q : Z) : Prop := placed p (arr (lk q)).

Fixpoint chain (arr lk : Z -> Z) (sw : list Z) (addr : Z) : Prop :=
  match sw with
  | [] => False
  | [p] => placed p addr
  | p :: (q :: _) as rest => linked arr lk p q /\ chain arr lk rest addr
  end.

Lemma chain_range arr lk sw addr : chain arr lk sw addr -> Forall (fun p => inr p) sw.
Proof.
  induction sw as [|p sw IH]; [done|]. destruct sw as [|q sw]; cbn [chain].
  - intros Hp. constructor; [by eapply placed_range|done].
  - intros [Hl Hc]. constructor; [by eapply placed_range|by apply IH].
Qed.

Lemma chain_upd arr lk sw addr p x : p ∉ sw -> chain arr lk sw addr -> chain arr (<[p := x]> lk) sw addr.
Proof.
  induction sw as [|p1 sw IH]; [done|]. intros Hp. apply not_elem_of_cons in Hp as [Hp1 Hp].
  destruct sw as [|p2 sw]; cbn [chain]; [done|]. intros [Hl Hc]. split; [|by apply IH].
  unfold linked in *. apply not_elem_of_cons in Hp as [Hp2 _]. by rewrite fn_lookup_insert_ne.
Qed.

(** The position map during the relocation, with a hole at [h]: nobody but the
    hole holds the evicted line. *)
Record holed (arr lk : Z -> Z) (h id : Z) : Prop := {
  ho_range : forall p, inr p -> p <> h -> inr (lk p);
  ho_inj : forall p q, inr p -> inr q -> p <> h -> q <> h -> lk p = lk q -> p = q;
  ho_surj : forall x, inr x -> x <> id -> exists p, inr p /\ p <> h /\ lk p = x;
  ho_free : forall p, inr p -> p <> h -> lk p <> id;
  ho_place : forall p, inr p -> p <> h -> arr (lk p) <> 0 -> placed p (arr (lk p))
}.

Lemma do_swaps_ok arr lk sw id addr h :
  inr id -> sw <> [] -> hd h sw = h -> NoDup sw -> holed arr lk h id -> chain arr lk sw addr ->
  let lk' := do_swaps lk sw id in
  (forall p, inr p -> inr (lk' p)) /\ (forall p q, inr p -> inr q -> lk' p = lk' q -> p = q) /\
  (forall x, inr x -> exists p, inr p /\ lk' p = x) /\
  (forall p, inr p -> lk' p <> id -> arr (lk' p) <> 0 -> placed p (arr (lk' p))) /\
  (forall p, inr p -> lk' p = id -> placed p addr).
Proof.
  intros Hid. revert lk h. induction sw as [|p sw IH]; intros lk h Hne Hh Hnd Hho Hc; [done|].
  cbn in Hh. subst p. pose proof (chain_range _ _ _ _ Hc) as Hr.
  apply Forall_cons in Hr as [Hhr Hr]. apply NoDup_cons in Hnd as [Hnin Hnd].
  destruct Hho as [H1 H2 H3 H4 H5]. destruct sw as [|q sw].
  - cbn [do_swaps chain] in *. split_and!.
    + intros p Hp. destruct (decide (p = h)) as [->|]; [by rewrite fn_lookup_insert|].
      rewrite fn_lookup_insert_ne by done. by apply H1.
    + intros p q Hp Hq. destruct (decide (p = h)) as [->|], (decide (q = h)) as [->|];
        rewrite ?fn_lookup_insert, ?fn_lookup_insert_ne by done; try done.
      * intros Heq. by destruct (H4 q).
      * intros Heq. by destruct (H4 p).
      * by apply H2.
    + intros x Hx. destruct (decide (x = id)) as [->|Hxid].
      * exists h. split; [done|by rewrite fn_lookup_insert].
      * destruct (H3 x Hx Hxid) as (p & Hp & Hph & <-). exists p. split; [done|].
        by rewrite fn_lookup_insert_ne.
    + intros p Hp. destruct (decide (p = h)) as [->|]; [by rewrite fn_lookup_insert|].
      rewrite fn_lookup_insert_ne by done. intros _. by apply H5.
    + intros p Hp. destruct (decide (p = h)) as [->|]; [done|].
      rewrite fn_lookup_insert_ne by done. intros Heq. by destruct (H4 p).
  - apply Forall_cons in Hr as [Hqr Hr]. apply not_elem_of_cons in Hnin as [Hhq Hnin].
    cbn [chain] in Hc. destruct Hc as [Hl Hc].
    change (do_swaps lk (h :: q :: sw) id) with (do_swaps (<[h := lk q]> lk) (q :: sw) id).
    assert (Hval : forall p, p <> q -> <[h := lk q]> lk p = if decide (p = h) then lk q else lk p).
    { intros p Hp. destruct (decide (p = h)) as [->|]; [by rewrite fn_lookup_insert|].
      by rewrite fn_lookup_insert_ne. }
    apply (IH _ q); try done.
    + split.
      * intros p Hp Hpq. rewrite Hval by done. destruct (decide (p = h)); [by apply H1|by apply H1].
      * intros p p' Hp Hp' Hpq Hpq'. rewrite !Hval by done.
        destruct (decide (p = h)) as [->|], (decide (p' = h)) as [->|]; try done.
        -- intros Heq. destruct Hpq'. symmetry. by apply H2.
        -- intros Heq. destruct Hpq. by apply H2.
        -- by apply H2.
      * intros x Hx Hxid. destruct (H3 x Hx Hxid) as (p & Hp & Hph & <-).
        destruct (decide (p = q)) as [->|Hpq].
        -- exists h. split_and!; try lia. by rewrite fn_lookup_insert.
        -- exists p. split_and!; try lia. by rewrite Hval, decide_False.
      * intros p Hp Hpq. rewrite Hval by done. destruct (decide (p = h)); by apply H4.
      * intros p Hp Hpq. rewrite Hval by done. destruct (decide (p = h)) as [->|]; [done|by apply H5].
    + apply chain_upd; [|done]. apply not_elem_of_cons; split; [done|done].
Qed.

Lemma inv_lines_swapped arr lk sw id addr h :
  inv_lines arr lk -> inr id -> sw <> [] -> hd h sw = h -> lk h = id -> NoDup sw ->
  chain arr lk sw addr -> (forall x, inr x -> arr x <> addr) ->
  inv_lines (<[id := addr]> arr) (do_swaps lk sw id).
Proof.
  intros [I1 I2 I3 I4 I5] Hid Hne Hh Hlk Hnd Hc Hno.
  assert (Hhr : inr h).
  { pose proof (chain_range _ _ _ _ Hc) as Hr. destruct sw as [|p sw]; [done|].
    cbn in Hh. subst p. by apply Forall_cons in Hr as [? _]. }
  destruct (do_swaps_ok arr lk sw id addr h Hid Hne Hh Hnd) as (D1 & D2 & D3 & D4 & D5); [|done|].
  { split.
    - auto.
    - auto.
    - intros x Hx Hxid. destruct (I3 x Hx) as (p & Hp & <-). exists p. split_and!; try lia.
      intros ->. done.
    - intros p Hp Hph Heq. apply Hph, I2; congruence || done.
    - auto. }
  split; [done|done|done| |].
  - intros p Hp. destruct (decide (do_swaps lk sw id p = id)) as [Heq|Hn].
    + rewrite Heq, fn_lookup_insert. intros _. by apply D5.
    + rewrite fn_lookup_insert_ne by done. by apply D4.
  - intros x y Hx Hy. destruct (decide (x = id)) as [->|], (decide (y = id)) as [->|];
      rewrite ?fn_lookup_insert, ?fn_lookup_insert_ne by done; try done.
    + intros _ Heq. by destruct (Hno y Hy).
    + intros _ Heq. by destruct (Hno x Hx).
    + by apply I5.
Qed.

(** ** The walk *)

Section Walk.
Context (a : ZArray R) (addr : Z) (Hi : inv_lines (array a) (lookupArray a)).

Notation lk := (lookupArray a).
Notation arr := (array a).

Record walk_inv (s : walk_state) : Prop := {
  wi_len : ways g + Z.of_nat (fringeStart s) <= Z.of_nat (length (ws_cands s));
  wi_bound : Z.of_nat (length (ws_cands s)) <= cands g + ways g;
  wi_line : forall c, c ∈ ws_cands s -> inr (pos c) /\ lineId c = lk (pos c);
  wi_parent : forall i c, ws_cands s !! i = Some c ->
    (parentIdx c = -1 /\ placed (pos c) addr) \/
    (0 <= parentIdx c < Z.of_nat i /\ parentIdx c < Z.of_nat (fringeStart s) /\
     exists q, ws_cands s !! Z.to_nat (parentIdx c) = Some q /\
       linked arr lk (pos c) (pos q) /\ lineId c <> lineId q);
  wi_mono : forall i j ci cj, (i < j)%nat -> ws_cands s !! i = Some ci ->
    ws_cands s !! j = Some cj -> parentIdx ci <= parentIdx cj;
  wi_closed : forall p q, (p < fringeStart s)%nat -> ws_cands s !! p = Some q ->
    forall x, placed x (arr (lineId q)) ->
    lk x = lineId q \/ exists j c, ws_cands s !! j = Some c /\ parentIdx c = Z.of_nat p /\ lineId c = lk x;
  wi_valid : all_valid s = true -> forall c, c ∈ ws_cands s -> arr (lineId c) <> 0
}.

Lemma elem_of_ways w : w ∈ range 0 (ways g) <-> 0 <= w < ways g.
Proof. rewrite elem_of_range by (pose proof (cfg_ways Hg); lia). lia. Qed.

Lemma valid_all (cs : list ZWalkInfo) :
  forallb (fun c => negb (arr (lineId c) =? 0)) cs = true ->
  forall c, c ∈ cs -> arr (lineId c) <> 0.
Proof.
  intros Hf c Hc. rewrite forallb_forall in Hf. specialize (Hf c).
  rewrite <- list_elem_of_In in Hf. specialize (Hf Hc). lia.
Qed.

Lemma seeds_inv : walk_inv (seeds a addr).
Proof.
  assert (Hs : forall i c, ws_cands (seeds a addr) !! i = Some c ->
    exists w, 0 <= w < ways g /\ c = seed a addr w).
  { intros i c Hc. cbn in Hc. apply list_lookup_fmap_Some in Hc as (w & -> & Hw).
    exists w. split; [|done]. apply elem_of_ways. by eapply list_elem_of_lookup_2. }
  split.
  - cbn. rewrite length_fmap, length_range. pose proof (cfg_ways Hg). lia.
  - cbn. rewrite length_fmap, length_range. pose proof (cfg_ways Hg). pose proof (cfg_cands Hg). lia.
  - intros c Hc. apply list_elem_of_lookup_1 in Hc as [i Hc].
    destruct (Hs i c Hc) as (w & Hw & ->). split; [by apply place_range|done].
  - intros i c Hc. destruct (Hs i c Hc) as (w & Hw & ->). left. split; [done|]. by exists w.
  - intros i j ci cj _ Hci Hcj. destruct (Hs _ _ Hci) as (w & _ & ->).
    by destruct (Hs _ _ Hcj) as (w' & _ & ->).
  - cbn. lia.
  - apply valid_all.
Qed.

(** The expansion of candidate [f], holding a valid line. *)
Lemma children_spec f q c :
  c ∈ children a f (lineId q) <->
  exists w, 0 <= w < ways g /\
    c = mkWalk (place w (arr (lineId q))) (lk (place w (arr (lineId q)))) (Z.of_nat f) /\
    lineId c <> lineId q.
Proof.
  unfold children. rewrite list_elem_of_filter, list_elem_of_fmap. split.
  - intros [Hne (w & -> & Hw)]. exists w. by rewrite <- elem_of_ways.
  - intros (w & Hw & -> & Hne). split; [done|]. exists w. split; [done|by apply elem_of_ways].
Qed.

(** At most one place of a line's address holds the line itself. *)
Lemma filter_one (l : list Z) (F : Z -> ZWalkInfo) x :
  NoDup l -> (forall w w', w ∈ l -> w' ∈ l -> lineId (F w) = x -> lineId (F w') = x -> w = w') ->
  (length l <= 1 + (length (filter (fun c => lineId c <> x) (F <$> l))))%nat.
Proof.
  induction l as [|w l IH]; intros Hnd Hu; [cbn; lia|]. apply NoDup_cons in Hnd as [Hnin Hnd].
  rewrite fmap_cons, filter_cons. destruct (decide (lineId (F w) <> x)) as [Hne|Heq].
  - cbn [length]. specialize (IH Hnd (fun w1 w2 H1 H2 =>
      Hu w1 w2 (list_elem_of_further _ _ _ H1) (list_elem_of_further _ _ _ H2))). lia.
  - apply dec_stable in Heq. cbn [length].
    assert (Hall : filter (fun c => lineId c <> x) (F <$> l) = F <$> l).
    { apply filter_all. apply Forall_fmap, Forall_forall. intros w' Hw' Heq'.
      apply Hnin. rewrite (Hu w w'); [done|by left|by right|done|done]. }
    rewrite Hall, length_fmap. lia.
Qed.

Lemma children_many f x :
  inr x -> (Z.to_nat (ways g) <= 1 + length (children a f (lk x)))%nat.
Proof.
  intros Hx. unfold children.
  match goal with |- context [filter ?P (?F <$> range 0 (ways g))] =>
    pose proof (filter_one (range 0 (ways g)) F (lk x)) as Hf end.
  rewrite length_range in Hf. apply Hf.
  - apply NoDup_range.
  - intros w w' Hw Hw' H1 H2. cbn in H1, H2. apply elem_of_ways in Hw, Hw'.
    eapply place_inj; [done|done|]. eapply (il_inj _ _ Hi); [by apply place_range|by apply place_range|].
    by rewrite H1, H2.
Qed.

Lemma children_few f id : (length (children a f id) <= Z.to_nat (ways g))%nat.
Proof.
  unfold children. etransitivity; [apply length_filter|]. by rewrite length_fmap, length_range.
Qed.

(** The loop's condition. *)
Definition walking (s : walk_state) : bool :=
  (Z.of_nat (length (ws_cands s)) <? cands g) && all_valid s.

Lemma walk_step_inv s k :
  walk_inv s -> walking s = true ->
  exists s', walk_step a s k = Ok s' /\ walk_inv s' /\
    (length (ws_cands s) < length (ws_cands s'))%nat.
Proof.
  intros [W1 W2 W3 W4 W5 W6 W7] Hw. unfold walk_step. unfold walking in Hw. rewrite Hw.
  apply andb_true_iff in Hw as [Hlen Hv]. apply Z.ltb_lt in Hlen.
  pose proof (cfg_ways Hg) as Hways.
  set (f := fringeStart s) in *. set (cs := ws_cands s) in *.
  destruct (lookup_lt_is_Some_2 cs f) as [q Hq]; [lia|].
  rewrite (list_lookup_total_correct _ _ _ Hq).
  assert (Hqin : q ∈ cs) by (by eapply list_elem_of_lookup_2).
  destruct (W3 q Hqin) as [Hqp Hql]. pose proof (W7 Hv q Hqin) as Hqv.
  rewrite (proj2 (Z.eqb_neq _ _) Hqv). cbn [negb assert_that mbind res_bind].
  eexists. split; [reflexivity|].
  pose proof (children_many f (pos q) Hqp) as Hmany. rewrite <- Hql in Hmany.
  pose proof (children_few f (lineId q)) as Hfew.
  set (ch := children a f (lineId q)) in *.
  assert (Hch : forall c, c ∈ ch -> parentIdx c = Z.of_nat f /\ inr (pos c) /\
    lineId c = lk (pos c) /\ linked arr lk (pos c) (pos q) /\ lineId c <> lineId q).
  { intros c Hc. apply children_spec in Hc as (w & Hw & -> & Hne). cbn in *.
    split_and!; try done; [by apply place_range|by apply place_range|].
    exists w. split; [done|]. by rewrite <- Hql. }
  assert (Hmono : forall i c, cs !! i = Some c -> parentIdx c < Z.of_nat f \/ parentIdx c = -1).
  { intros i c Hc. destruct (W4 i c Hc) as [[? _]|(? & ? & _)]; lia. }
  split; [|cbn [ws_cands]; rewrite length_app; lia].
  split; cbn [ws_cands fringeStart all_valid].
  - rewrite length_app. lia.
  - rewrite length_app. lia.
  - intros c Hc. apply elem_of_app in Hc as [Hc|Hc]; [by apply W3|]. by destruct (Hch c Hc) as (_ & ? & ? & _).
  - intros i c Hc. apply lookup_app_Some in Hc as [Hc|[Hge Hc]].
    + destruct (W4 i c Hc) as [?|(H1 & H2 & x & Hx & Hl & Hne)]; [by left|right].
      split_and!; try lia. exists x. split; [by apply lookup_app_l_Some|done].
    + apply list_elem_of_lookup_2 in Hc. destruct (Hch c Hc) as (Hp & Hr & Hl & Hk & Hne).
      right. rewrite Hp. split_and!; try lia. exists q. rewrite Nat2Z.id.
      split; [by apply lookup_app_l_Some|done].
  - intros i j ci cj Hij Hci Hcj. apply lookup_app_Some in Hci as [Hci|[Hgi Hci]];
      apply lookup_app_Some in Hcj as [Hcj|[Hgj Hcj]].
    + by eapply (W5 i j).
    + apply list_elem_of_lookup_2 in Hcj. destruct (Hch cj Hcj) as (-> & _).
      destruct (Hmono i ci Hci); lia.
    + apply lookup_lt_Some in Hcj. lia.
    + apply list_elem_of_lookup_2 in Hci, Hcj. destruct (Hch ci Hci) as (-> & _).
      by destruct (Hch cj Hcj) as (-> & _).
  - intros p x Hp Hx y Hy. destruct (decide (p = f)) as [->|Hpf].
    + assert (x = q) as ->.
      { apply lookup_app_Some in Hx as [Hx|[Hge _]]; [congruence|]. apply lookup_lt_Some in Hq. lia. }
      destruct Hy as (w & Hw & ->). destruct (decide (lk (place w (arr (lineId q))) = lineId q)); [by left|right].
      assert (Hc : mkWalk (place w (arr (lineId q))) (lk (place w (arr (lineId q)))) (Z.of_nat f) ∈ ch).
      { apply children_spec. by exists w. }
      apply list_elem_of_lookup_1 in Hc as [j Hj]. exists (length cs + j)%nat. eexists.
      rewrite lookup_app_r by lia. replace (length cs + j - length cs)%nat with j by lia. done.
    + assert (Hx' : cs !! p = Some x).
      { apply lookup_app_Some in Hx as [Hx|[Hge _]]; [done|]. apply lookup_lt_Some in Hq. lia. }
      destruct (W6 p x ltac:(lia) Hx' y Hy) as [?|(j & c & Hj & ?)]; [by left|right].
      exists j, c. split; [by apply lookup_app_l_Some|done].
  - intros Hv' c Hc. apply elem_of_app in Hc as [Hc|Hc]; [by apply W7|]. by eapply valid_all.
Qed.

Lemma walk_step_done s k : walking s = false -> walk_step a s k = Ok s.
Proof. unfold walk_step, walking. by intros ->. Qed.

(** The loop ends within [cands] iterations, without failing. *)
Lemma walk_finished :
  exists s, walk a addr = Ok s /\ walk_inv s /\ walking s = false.
Proof.
  unfold walk. set (n := Z.to_nat (cands g)).
  cut (forall l s, walk_inv s -> (n <= length l + length (ws_cands s))%nat ->
    exists s', foldM (walk_step a) s l = Ok s' /\ walk_inv s' /\ walking s' = false).
  { intros H1. apply H1; [apply seeds_inv|]. rewrite length_seq. lia. }
  induction l as [|k l IH]; intros s Hs Hn.
  - exists s. split_and!; try done. unfold walking. cbn in Hn.
    destruct (Z.ltb_spec (Z.of_nat (length (ws_cands s))) (cands g)); [lia|done].
  - cbn [foldM length] in *. destruct (walking s) eqn:Ew.
    + destruct (walk_step_inv s k Hs Ew) as (s1 & -> & Hs1 & Hl). cbn. apply IH; [done|lia].
    + exists s. split_and!; [|done|done]. clear IH Hn.
      cut (forall l, foldM (walk_step a) s l = Ok s); [intros Hl; apply (Hl (k :: l))|].
      induction l0 as [|k' l' IHl]; cbn [foldM]; [done|]. by rewrite (walk_step_done s k' Ew).
Qed.

(** Candidate [i] is the first of its line. *)
Definition first_of_line (cs : list ZWalkInfo) (i : nat) (c : ZWalkInfo) : Prop :=
  cs !! i = Some c /\ forall j d, (j < i)%nat -> cs !! j = Some d -> lineId d <> lineId c.

(** The parent of such a candidate is also the first of its line: an earlier
    candidate with the parent's line would have produced this one before. *)
Lemma parent_first s i c :
  walk_inv s -> first_of_line (ws_cands s) i c -> 0 <= parentIdx c ->
  exists q, first_of_line (ws_cands s) (Z.to_nat (parentIdx c)) q /\
    linked arr lk (pos c) (pos q) /\ parentIdx c < Z.of_nat i.
Proof.
  intros [W1 W2 W3 W4 W5 W6 W7] [Hc Hf] Hp.
  destruct (W4 i c Hc) as [[? _]|(Hp1 & Hp2 & q & Hq & Hl & Hne)]; [lia|].
  exists q. split_and!; [|done|lia]. split; [done|]. intros d x Hd Hx Heq.
  destruct (W3 q ltac:(by eapply list_elem_of_lookup_2)) as [_ Hql].
  destruct (W3 c ltac:(by eapply list_elem_of_lookup_2)) as [_ Hcl].
  destruct (W6 d x ltac:(lia) Hx (pos c)) as [Hsame|(j & y & Hj & Hpj & Hlj)].
  - unfold linked in Hl. by rewrite Heq, Hql.
  - congruence.
  - destruct (decide (j < i)%nat) as [Hji|Hji].
    + apply (Hf j y Hji Hj). congruence.
    + destruct (decide (j = i)) as [->|]; [assert (y = c) by congruence; subst; lia|].
      specialize (W5 i j c y ltac:(lia) Hc Hj). lia.
Qed.

Lemma path_ok s fuel i c :
  walk_inv s -> first_of_line (ws_cands s) i c -> (i < fuel)%nat ->
  let sw := path fuel (ws_cands s) (Z.of_nat i) in
  chain arr lk sw addr /\ NoDup sw /\ hd_error sw = Some (pos c) /\
  forall p, p ∈ sw -> exists j d, (j <= i)%nat /\ ws_cands s !! j = Some d /\ pos d = p.
Proof.
  intros Hs. revert i c. induction fuel as [|fuel IH]; intros i c Hf Hif; [lia|].
  cbn [path]. destruct Hf as [Hc Hfirst].
  destruct (Z.ltb_spec (Z.of_nat i) 0); [lia|]. rewrite Nat2Z.id.
  rewrite (list_lookup_total_correct _ _ _ Hc).
  destruct (wi_parent _ Hs i c Hc) as [[Hp Hpl]|(Hp1 & Hp2 & _)].
  - rewrite Hp. replace (path fuel (ws_cands s) (-1)) with (@nil Z) by (by destruct fuel).
    cbn. split_and!; [done|apply NoDup_singleton|done|].
    intros p Hin. apply list_elem_of_singleton in Hin as ->. exists i, c. by split.
  - destruct (parent_first s i c Hs (conj Hc Hfirst)) as (q & Hq & Hl & Hlt); [lia|].
    destruct (IH (Z.to_nat (parentIdx c)) q Hq) as (I1 & I2 & I3 & I4); [lia|].
    rewrite Z2Nat.id in I1, I2, I3, I4 by lia.
    set (sw := path fuel (ws_cands s) (parentIdx c)) in *.
    destruct sw as [|p sw]; [done|]. injection I3 as ->. cbn [chain].
    split_and!; [done|done| |done|].
    + apply NoDup_cons. split; [|done]. intros Hin.
      destruct (I4 _ Hin) as (j & d & Hj & Hd & Hpos).
      apply (Hfirst j d); [lia|done|].
      destruct (wi_line _ Hs d ltac:(by eapply list_elem_of_lookup_2)) as [_ ->].
      destruct (wi_line _ Hs c ltac:(by eapply list_elem_of_lookup_2)) as [_ ->].
      by rewrite Hpos.
    + intros p Hin. apply elem_of_cons in Hin as [->|Hin]; [exists i, c; by split|].
      destruct (I4 _ Hin) as (j & d & Hj & Hd). exists j, d. split; [lia|done].
Qed.

Lemma min_idx_spec line cs k :
  line ∈ lineId <$> cs ->
  exists i c, min_idx line cs k = k + Z.of_nat i /\ lineId c = line /\ first_of_line cs i c.
Proof.
  revert k. induction cs as [|c cs IH]; intros k Hin; [by apply elem_of_nil in Hin|].
  cbn [min_idx]. destruct (Z.eqb_spec line (lineId c)) as [->|Hne].
  - exists O, c. split_and!; [lia|done|]. split; [done|]. intros j d Hj. lia.
  - rewrite fmap_cons in Hin. apply elem_of_cons in Hin as [?|Hin]; [done|].
    destruct (IH (k + 1) Hin) as (i & d & -> & Hl & Hd & Hf).
    exists (1 + i)%nat, d. split_and!; [lia|done|]. split; [done|].
    intros [|j] x Hj Hx; cbn in Hx; [injection Hx as <-; congruence|].
    apply (Hf j x); [lia|done].
Qed.

Lemma first_take n cs i c :
  first_of_line (take n cs) i c -> first_of_line cs i c.
Proof.
  intros [Hc Hf]. apply lookup_take_Some in Hc as [Hc Hin]. split; [done|].
  intros j d Hj Hd. apply (Hf j d Hj). apply lookup_take_Some. split; [done|lia].
Qed.

End Walk.

(** ** Lookup and insertion *)

Definition inv a : Prop :=
  inv_lines (array a) (lookupArray a) /\ rp_inv (numLines g) (Z.to_nat (cands g)) (rp a).

Record mid a (id addr : Z) : Prop := {
  mid_lines : inv_lines (array a) (lookupArray a);
  mid_rp : rp_mid (numLines g) (Z.to_nat (cands g)) (rp a);
  mid_chain : chain (array a) (lookupArray a) (swapArray a) addr;
  mid_nodup : NoDup (swapArray a);
  mid_head : exists h, hd_error (swapArray a) = Some h /\ lookupArray a h = id;
  mid_absent : forall x, inr x -> array a x <> addr
}.

Lemma elem_of_places a addr x :
  x ∈ (fun w => lookupArray a (place w addr)) <$> range 0 (ways g) <->
  exists p, placed p addr /\ x = lookupArray a p.
Proof.
  rewrite list_elem_of_fmap. pose proof (cfg_ways Hg). split.
  - intros (w & -> & Hw). apply elem_of_range in Hw; [|lia].
    exists (place w addr). split; [|done]. exists w. split; [lia|done].
  - intros (p & (w & Hw & ->) & ->). exists w. split; [done|]. apply elem_of_range; lia.
Qed.

Lemma z_lookup_ok addr req upd a :
  inv a -> 0 < addr -> (upd = true -> IsGet (type req) = true) ->
  exists id a', lookup addr req upd a = Ok (id, a') /\ inv a' /\ array a' = array a /\
    ((id = -1 /\ forall x, inr x -> array a x <> addr) \/ (inr id /\ array a id = addr)).
Proof.
  intros [Hi Hr] Ha Hq. unfold lookup. rewrite (proj2 (Z.eqb_neq addr 0)) by lia.
  match goal with |- context [scan ?x ?y ?z] => destruct (scan_spec x y z) as [[-> Hs]|[Hs1 Hs2]] end.
  - exists (-1), a. split_and!; try done. left. split; [done|]. intros x Hx Heq.
    destruct (il_surj _ _ Hi x Hx) as (p & Hp & <-).
    apply (Hs (lookupArray a p)); [|done]. apply elem_of_places. exists p. split; [|done].
    rewrite <- Heq. apply (il_place _ _ Hi); [done|lia].
  - set (id := scan _ _ _) in *. apply elem_of_places in Hs1 as (p & Hp & Hid).
    apply placed_range in Hp. pose proof (il_range _ _ Hi p Hp) as Hir. rewrite <- Hid in Hir.
    rewrite (proj2 (Z.eqb_neq id (-1))) by lia. destruct upd.
    + destruct (rp_update_ok (numLines g) (Z.to_nat (cands g)) id req (rp a) Hr Hir (Hq eq_refl)) as (r' & -> & Hr').
      cbn. eexists _, _. split_and!; [reflexivity|by split|done|by right].
    + eexists _, _. split_and!; [reflexivity|by split|done|by right].
Qed.

Lemma lookup_absent addr req upd a :
  inv a -> 0 < addr -> (forall x, inr x -> array a x <> addr) ->
  lookup addr req upd a = Ok (-1, a).
Proof.
  intros [Hi _] Ha Hno. unfold lookup. rewrite (proj2 (Z.eqb_neq addr 0)) by lia.
  match goal with |- context [scan ?x ?y ?z] => destruct (scan_spec x y z) as [[-> _]|[Hs1 Hs2]] end;
    [done|].
  apply elem_of_places in Hs1 as (p & Hp & Hid). apply placed_range in Hp.
  destruct (Hno _ (il_range _ _ Hi p Hp)). by rewrite <- Hid.
Qed.

Lemma z_preinsert_ok cc addr req a :
  inv a -> (forall x, inr x -> array a x <> addr) ->
  exists id wb a', preinsert cc addr req a = Ok (id, wb, a') /\ mid a' id addr /\
    inr id /\ wb = array a id /\ array a' = array a.
Proof.
  intros [Hi Hr] Hno. unfold preinsert.
  destruct (walk_finished a addr Hi) as (s & Hw & Hs & Hend). rewrite Hw. cbn [mbind res_bind].
  pose proof (wi_len _ _ _ Hs) as Hlen. pose proof (cfg_ways Hg). pose proof (cfg_cands Hg).
  set (cs := ws_cands s) in *.
  assert (Ha1 : negb (all_valid s) || (cands g <=? Z.of_nat (length cs)) = true).
  { unfold walking in Hend. fold cs in Hend. destruct (all_valid s); [|done]. cbn.
    rewrite andb_true_r in Hend. apply Z.ltb_ge in Hend. lia. }
  rewrite Ha1. cbn [assert_that mbind res_bind].
  set (num := Z.to_nat (Z.min (Z.of_nat (length cs)) (cands g))).
  destruct (rp_rank_ok (numLines g) (Z.to_nat (cands g)) cc req (lineId <$> take num cs) (rp a) Hr)
    as (best & r' & Hrank & Hin & Hm).
  - intros He. apply (f_equal length) in He. rewrite length_fmap, length_take in He. cbn in He. lia.
  - rewrite length_fmap, length_take. lia.
  - apply Forall_fmap, Forall_forall. intros c Hc. cbn.
    assert (Hcs : c ∈ cs) by (apply list_elem_of_lookup_1 in Hc as [i Hc];
      apply lookup_take_Some in Hc as [Hc _]; by eapply list_elem_of_lookup_2).
    destruct (wi_line _ _ _ Hs c Hcs) as [Hp ->]. by apply (il_range _ _ Hi).
  - rewrite Hrank. cbn [mbind res_bind].
    destruct (min_idx_spec best (take num cs) 0 Hin) as (i & c & -> & Hl & Hf).
    apply first_take in Hf. rewrite Z.add_0_l.
    assert (Hic : (i < length cs)%nat) by (destruct Hf as [Hf _]; by eapply lookup_lt_Some).
    destruct (path_ok a addr s (length cs) i c Hs Hf Hic) as (P1 & P2 & P3 & _). fold cs in P1, P2, P3.
    destruct (wi_line _ _ _ Hs c) as [Hp Hlk].
    { destruct Hf as [Hf _]. by eapply list_elem_of_lookup_2. }
    assert (Hbest : inr best) by (rewrite <- Hl, Hlk; by apply (il_range _ _ Hi)).
    rewrite (proj2 (Z.ltb_lt best (numLines g))) by lia. cbn [assert_that mbind res_bind].
    destruct (path (length cs) cs (Z.of_nat i)) as [|p sw] eqn:Esw; [done|].
    cbn [length Nat.ltb Nat.leb assert_that mbind res_bind].
    eexists _, _, _. split_and!; [reflexivity| |lia|lia|done|done].
    split; cbn [array lookupArray rp swapArray]; try done.
    exists p. split; [done|]. injection P3 as ->. congruence.
Qed.

Lemma z_postinsert_ok addr req id a :
  mid a id addr -> inr id -> IsGet (type req) = true ->
  exists a', postinsert addr req id a = Ok a' /\ inv a' /\ array a' = <[id := addr]> (array a).
Proof.
  intros [Hi Hr Hc Hnd (h & Hh & Hlk) Hno] Hl Hq. unfold postinsert.
  destruct (swapArray a) as [|p sw] eqn:Esw; [done|]. injection Hh as ->.
  cbn [lookup_total list_lookup_total]. rewrite Hlk, Z.eqb_refl. cbn [assert_that mbind res_bind].
  pose proof (rp_replaced_ok _ _ id _ Hr Hl) as Hr'.
  destruct (rp_update_ok _ _ id req _ Hr' Hl Hq) as (r' & -> & Hr''). cbn [mbind res_bind].
  eexists. split_and!; [reflexivity| |done]. split; [|done].
  by apply (inv_lines_swapped _ _ _ _ _ h).
Qed.

(** C30: the zcache is a map, and its replacement walk is sound. From any consistent
    array, a lookup finds the line of an address or reports that there is none.
    Inserting an absent address always succeeds: the walk ends, every assertion
    holds, the relocations along the path from the evicted line leave a bijection
    between positions and lines with every line at one of its hash positions, and
    afterwards the array holds the new address in the evicted line and all others
    as before. *)
Theorem zcache_insert_lookup addr req cc a :
  inv a -> 0 < addr -> IsGet (type req) = true -> (forall x, inr x -> array a x <> addr) ->
  lookup addr req true a = Ok (-1, a) /\
  exists id wb a1 a2, preinsert cc addr req a = Ok (id, wb, a1) /\
    postinsert addr req id a1 = Ok a2 /\ inv a2 /\ inr id /\ wb = array a id /\
    array a2 = <[id := addr]> (array a) /\
    (exists a3, lookup addr req false a2 = Ok (id, a3)) /\
    (forall addr' x, 0 < addr' -> addr' <> addr -> inr x -> x <> id ->
       array a x = addr' -> exists a3, lookup addr' req false a2 = Ok (x, a3)).
Proof.
  intros Ha Haddr Hq Hno. split; [by apply lookup_absent|].
  destruct (z_preinsert_ok cc addr req a Ha Hno) as (id & wb & a1 & E1 & Hm & Hid & -> & Ea1).
  destruct (z_postinsert_ok addr req id a1 Hm Hid Hq) as (a2 & E2 & Hi2 & Ea2). rewrite Ea1 in Ea2.
  exists id, (array a id), a1, a2. split_and!; try done; [lia|lia|..].
  - destruct (z_lookup_ok addr req false a2 Hi2 Haddr ltac:(done)) as (x & a3 & E3 & _ & _ & Hx).
    exists a3. rewrite E3. do 2 f_equal. destruct Hx as [[_ Hx]|[Hx1 Hx2]].
    + destruct (Hx id Hid). rewrite Ea2. by rewrite fn_lookup_insert.
    + destruct Hi2 as [Hu _]. apply (il_unique _ _ Hu); try done; rewrite Hx2; [lia|].
      by rewrite Ea2, fn_lookup_insert.
  - intros addr' x Ha' Hne Hx Hxid Hxa.
    destruct (z_lookup_ok addr' req false a2 Hi2 Ha' ltac:(done)) as (y & a3 & E3 & _ & _ & Hy).
    assert (Hax : array a2 x = addr') by (by rewrite Ea2, fn_lookup_insert_ne by done).
    exists a3. rewrite E3. do 2 f_equal. destruct Hy as [[_ Hy]|[Hy1 Hy2]].
    + by destruct (Hy x Hx).
    + destruct Hi2 as [Hu _]. apply (il_unique _ _ Hu); try done; rewrite Hy2; [lia|done].
Qed.

Definition z_laws : CacheArrayLaws (ZArray R).
Proof.
  refine {| ca_size := numLines g; ca_line := array; ca_inv := inv; ca_mid := mid |}.
  - intros a x y [Hi _] Hx Hy Heq Hne. by apply (il_unique _ _ Hi).
  - intros addr req upd a Ha Haddr Hq.
    destruct (z_lookup_ok addr req upd a Ha Haddr Hq) as (id & a' & E & Hi & Hl & Hx).
    exists id, a'. rewrite Hl. by split_and!.
  - intros addr req a id a'. cbn. unfold lookup. destruct (addr =? 0); [done|].
    destruct (_ =? -1); by intros [= _ <-].
  - intros cc addr req a Ha Haddr Hno.
    destruct (z_preinsert_ok cc addr req a Ha Hno) as (id & wb & a' & E & Hm & Hid & Hwb & Hl).
    exists id, wb, a'. rewrite Hl. split_and!; (done || lia).
  - intros addr req id a Hm Hid Haddr Hq.
    destruct (z_postinsert_ok addr req id a Hm Hid Hq) as (a' & E & Hi & Hl).
    exists a'. rewrite Hl. split_and!; [done|done|]. intros x.
    destruct (decide (x = id)) as [->|]; [by rewrite fn_lookup_insert|by rewrite fn_lookup_insert_ne].
Defined.

End Ops.

#[local] Existing Instance LRU.lru_policy.
#[local] Existing Instance LRU.lru_laws.

(** Eight lines in two ways of four sets, four candidates. *)
Definition ex_cfg : config := mkCfg 8 2 4.
Definition ex_hash (w x : Z) : Z := if w =? 0 then x else x / 4 + x.
Definition ex_array : ZArray LRU.LRUReplPolicy :=
  mkZ (fun _ => 0) (fun i => i) (LRU.init true) [] 0 0.
Definition ex_req : MemReq := mkReq 9 GETS 0 Local 10 I 0 0.

Lemma ex_cfg_ok : cfg_ok ex_cfg.
Proof. split; cbn; [lia|lia|done|lia|by exists 2]. Qed.

Lemma ex_array_inv : inv ex_cfg ex_hash ex_array.
Proof.
  split; [|done]. split; cbn; try done. intros id Hid. by exists id.
Qed.

Lemma zcache_insert_lookup_witness :
  let cc := mkView (fun _ => 0) (fun _ => true) in
  lookup ex_cfg ex_hash 9 ex_req true ex_array = Ok (-1, ex_array) /\
  exists id wb a1 a2, preinsert ex_cfg ex_hash cc 9 ex_req ex_array = Ok (id, wb, a1) /\
    postinsert 9 ex_req id a1 = Ok a2 /\ inv ex_cfg ex_hash a2 /\ array a2 id = 9.
Proof.
  intros cc.
  destruct (zcache_insert_lookup ex_cfg ex_hash ex_cfg_ok 9 ex_req cc ex_array ex_array_inv)
    as (H1 & id & wb & a1 & a2 & E1 & E2 & Hi & _ & _ & Ha & _); [lia|done|cbn; lia|].
  split; [done|]. exists id, wb, a1, a2. split_and!; try done. by rewrite Ha, fn_lookup_insert.
Defined.

(** Insertions beyond the eight lines relocate lines. *)
Definition ex_insert (a : ZArray LRU.LRUReplPolicy) (addr : Z) : res (ZArray LRU.LRUReplPolicy) :=
  '(id, _, a) ← preinsert ex_cfg ex_hash (mkView (fun _ => 0) (fun _ => true)) addr ex_req a;
  postinsert addr ex_req id a.

Example relocation_happens :
  (fun a => (statSwaps a, lookupArray a <$> range 0 8)) <$>
    foldM ex_insert ex_array [1; 2; 3; 4; 17; 29; 33; 54; 71; 82; 93; 101; 115; 127] =
  Ok (4, [0; 5; 6; 7; 3; 1; 2; 4]).
Proof. vm_compute. reflexivity. Qed.

End ZCache.
