(* ===== verification/PrioQueue.v ===== *)
(** The priority queue of the contention simulation (prio_queue.h): a window of
    [B] blocks of 64 cycles around the current one, and a multimap for elements
    beyond it.  It refines a bag of (cycle, element) pairs from which the earliest
    is taken. *)
From Stdlib Require Import Sorted.
From S2P Require Import Prelude.

Module PrioQueue.

Section Queue.
Context {T : Type} (B : Z).

(** The intrusive list of each slot is a list of its elements. [occ] is the
    occupancy mask of a block, [feMap] the multimap in key order. *)
Record PrioQueue := mkPQ {
  slots : Z * Z -> list T;
  occ : Z -> Z;
  feMap : list (Z * T);
  curBlock : Z;
  elems : Z
}.

Definition new : PrioQueue := mkPQ (fun _ => []) (fun _ => 0) [] 0 0.

(** [__builtin_ctzl]; undefined for 0 (64 here). *)
Definition ctz (v : Z) : Z :=
  match list_find (fun i => Is_true (Z.testbit v (Z.of_nat i))) (seq 0 64) with
  | Some (i, _) => Z.of_nat i
  | None => 64
  end.

(** [PQBlock::enqueue] on block [i]. *)
Definition block_enqueue (obj : T) (i pos : Z) (q : PrioQueue) : PrioQueue :=
  mkPQ (<[(i, pos) := obj :: slots q (i, pos)]> (slots q))
    (<[i := Z.lor (occ q i) (Z.shiftl 1 pos)]> (occ q)) (feMap q) (curBlock q) (elems q).

(** [PQBlock::dequeue] on block [i]: the element and its offset. *)
Definition block_dequeue (i : Z) (q : PrioQueue) : res (T * Z * PrioQueue) :=
  _ ← assert_that (negb (occ q i =? 0));
  let pos := ctz (occ q i) in
  match slots q (i, pos) with
  | [] => Fail AssertFailed
  | res :: next =>
      let o := if decide (next = []) then Z.lxor (occ q i) (Z.shiftl 1 pos) else occ q i in
      Ok (res, pos, mkPQ (<[(i, pos) := next]> (slots q)) (<[i := o]> (occ q)) (feMap q)
                      (curBlock q) (elems q))
  end.

(** [std::multimap::insert]: after the elements of the same key. *)
Fixpoint fe_insert (k : Z) (x : T) (m : list (Z * T)) : list (Z * T) :=
  match m with
  | [] => [(k, x)]
  | e :: m => if fst e <=? k then e :: fe_insert k x m else (k, x) :: e :: m
  end.

Definition set_elems (n : Z) (q : PrioQueue) : PrioQueue :=
  mkPQ (slots q) (occ q) (feMap q) (curBlock q) n.
Definition set_feMap (m : list (Z * T)) (q : PrioQueue) : PrioQueue :=
  mkPQ (slots q) (occ q) m (curBlock q) (elems q).
Definition set_curBlock (b : Z) (q : PrioQueue) : PrioQueue :=
  mkPQ (slots q) (occ q) (feMap q) b (elems q).

Definition enqueue (obj : T) (cycle : Z) (q : PrioQueue) : res PrioQueue :=
  let absBlock := cycle / 64 in
  _ ← assert_that (curBlock q <=? absBlock);
  let q :=
    if absBlock <? curBlock q + B then block_enqueue obj (absBlock mod B) (cycle mod 64) q
    else set_feMap (fe_insert cycle obj (feMap q)) q in
  Ok (set_elems (u64 (elems q + 1)) q).

(** Move the elements before [topCycle] into the blocks. *)
Fixpoint migrate (topCycle : Z) (m : list (Z * T)) (q : PrioQueue) : res PrioQueue :=
  match m with
  | [] => Ok (set_feMap [] q)
  | (cycle, obj) :: m' =>
      if cycle <? topCycle then
        let absBlock := cycle / 64 in
        _ ← assert_that (curBlock q <=? absBlock);
        _ ← assert_that (absBlock <? curBlock q + B);
        migrate topCycle m' (block_enqueue obj (absBlock mod B) (cycle mod 64) q)
      else Ok (set_feMap m q)
  end.

(** The loop of [dequeue] that looks for the first populated block; [None] when it
    needs more than [fuel] iterations. *)
Fixpoint advance (fuel : nat) (q : PrioQueue) : res (option PrioQueue) :=
  if negb (occ q (curBlock q mod B) =? 0) then Ok (Some q)
  else
    match fuel with
    | O => Ok None
    | S fuel =>
        let q := set_curBlock (u64 (curBlock q + 1)) q in
        q ← (if (curBlock q mod (B / 2) =? 0) && negb (bool_decide (feMap q = [])) then
               migrate (u64 ((curBlock q + B) * 64)) (feMap q) q
             else Ok q);
        advance fuel q
    end.

Definition dequeue (fuel : nat) (q : PrioQueue) : res (option (T * Z * PrioQueue)) :=
  _ ← assert_that (negb (elems q =? 0));
  r ← advance fuel q;
  match r with
  | None => Ok None
  | Some q =>
      '(obj, offset, q) ← block_dequeue (curBlock q mod B) q;
      Ok (Some (obj, curBlock q * 64 + offset, set_elems (u64 (elems q - 1)) q))
  end.

Definition size (q : PrioQueue) : Z := elems q.

(** The two loops of [firstCycle]. *)
Fixpoint first_near (q : PrioQueue) (i : Z) (n : nat) : option Z :=
  match n with
  | O => None
  | S n =>
      let o := occ q ((curBlock q + i) mod B) in
      if negb (o =? 0) then Some ((curBlock q + i) * 64 + ctz o) else first_near q (i + 1) n
  end.

Definition firstCycle (q : PrioQueue) : res Z :=
  _ ← assert_that (negb (elems q =? 0));
  match first_near q 0 (Z.to_nat (B / 2)) with
  | Some c => Ok c
  | None =>
      match first_near q (B / 2) (Z.to_nat (B - B / 2)) with
      | Some c =>
          Ok (match feMap q with [] => c | (k, _) :: _ => Z.min c k end)
      | None =>
          match feMap q with [] => Fail AssertFailed | (k, _) :: _ => Ok k end
      end
  end.

(** ** The bag the queue stands for *)

(** The elements of a bag at a cycle. *)
Definition sel (c : Z) (l : list (Z * T)) : list T := snd <$> filter (fun e => fst e = c) l.

Definition in_window (q : PrioQueue) (c : Z) : Prop :=
  curBlock q <= c / 64 < curBlock q + B.
#[export] Instance in_window_dec q c : Decision (in_window q c).
Proof. unfold in_window. apply _. Defined.

Definition near (q : PrioQueue) (c : Z) : list T :=
  if decide (in_window q c) then slots q ((c / 64) mod B, c mod 64) else [].

Record inv (q : PrioQueue) : Prop := {
  inv_cur : 0 <= curBlock q;
  inv_occ : forall i, 0 <= i < B -> 0 <= occ q i < 2 ^ 64 /\
    forall p, 0 <= p < 64 -> Z.testbit (occ q i) p = true <-> slots q (i, p) <> [];
  inv_sorted : StronglySorted (fun e1 e2 => fst e1 <= fst e2) (feMap q);
  inv_elems : 0 <= elems q < 2 ^ 64
}.

(** The queue holds the bag [l]. *)
Record bagged (q : PrioQueue) (l : list (Z * T)) : Prop := {
  h_inv : inv q;
  h_bag : forall c, near q c ++ sel c (feMap q) ≡ₚ sel c l;
  h_size : elems q = Z.of_nat (length l);
  h_late : forall e, e ∈ l -> curBlock q * 64 <= fst e
}.

(** Nothing in the multimap is due before the next migration. *)
Definition far (q : PrioQueue) : Prop :=
  forall e, e ∈ feMap q -> (curBlock q - curBlock q mod (B / 2) + B) * 64 <= fst e.

Definition holds (q : PrioQueue) (l : list (Z * T)) : Prop := bagged q l /\ far q.

Context (HB : 2 <= B < 2 ^ 32).

(** ** Slots and cycles *)

Lemma mod_window a b : Z.abs (a - b) < B -> a mod B = b mod B -> a = b.
Proof.
  intros Hab Heq. pose proof (Z.div_mod a B ltac:(lia)) as Ha.
  pose proof (Z.div_mod b B ltac:(lia)) as Hb. rewrite Heq in Ha.
  assert (a / B = b / B) by nia. nia.
Qed.

Lemma slot_inj q c c' :
  in_window q c -> in_window q c' ->
  ((c / 64) mod B, c mod 64) = ((c' / 64) mod B, c' mod 64) -> c = c'.
Proof.
  unfold in_window. intros H1 H2 [= Hb Hp]. apply mod_window in Hb; [|lia].
  rewrite (Z.div_mod c 64), (Z.div_mod c' 64) by lia. congruence.
Qed.

Lemma ctz_spec v :
  0 < v < 2 ^ 64 ->
  0 <= ctz v < 64 /\ Z.testbit v (ctz v) = true /\
  forall i, 0 <= i < ctz v -> Z.testbit v i = false.
Proof.
  intros Hv. unfold ctz.
  destruct (list_find _ (seq 0 64)) as [[i x]|] eqn:E.
  - apply list_find_Some in E as (Hx & Hb & Hmin).
    apply lookup_seq in Hx as [-> Hi]. rewrite Nat.add_0_l in *. split_and!; [lia|lia|by apply Is_true_eq_true|].
    intros j Hj. destruct (Z.testbit v j) eqn:Ej; [|done].
    exfalso. apply (Hmin (Z.to_nat j) (Z.to_nat j)).
    + apply lookup_seq. split; [done|lia].
    + lia.
    + rewrite Z2Nat.id by lia. by rewrite Ej.
  - apply list_find_None in E. exfalso.
    assert (v = 0); [|lia]. apply Z.bits_inj'. intros i Hi. rewrite Z.bits_0.
    destruct (decide (i < 64)) as [Hlt|].
    + destruct (Z.testbit v i) eqn:Ei; [|done]. rewrite Forall_forall in E. exfalso.
      apply (E (Z.to_nat i)); [apply elem_of_seq; lia|]. rewrite Z2Nat.id by lia. by rewrite Ei.
    + apply (testbit_high 64); lia.
Qed.

Lemma pow2_bit p i : 0 <= p -> 0 <= i -> Z.testbit (Z.shiftl 1 p) i = bool_decide (i = p).
Proof.
  intros Hp Hi. rewrite Z.shiftl_spec by lia. case_bool_decide as He.
  - subst. by rewrite Z.sub_diag.
  - destruct (decide (i < p)); [by rewrite Z.testbit_neg_r by lia|].
    apply (testbit_high 1); lia.
Qed.

Lemma pow2_range p : 0 <= p < 64 -> 0 <= Z.shiftl 1 p < 2 ^ 64.
Proof.
  intros Hp. rewrite Z.shiftl_mul_pow2, Z.mul_1_l by lia. split; [apply Z.pow_nonneg; lia|].
  apply Z.pow_lt_mono_r; lia.
Qed.

Lemma block_range q c : in_window q c -> 0 <= (c / 64) mod B < B.
Proof. intros _. apply Z.mod_pos_bound. lia. Qed.

(** ** Bags *)

Lemma sel_cons c e l : sel c (e :: l) = if decide (fst e = c) then snd e :: sel c l else sel c l.
Proof. unfold sel. rewrite filter_cons. by destruct (decide _). Qed.

Lemma sel_app c l1 l2 : sel c (l1 ++ l2) = sel c l1 ++ sel c l2.
Proof. unfold sel. by rewrite filter_app, fmap_app. Qed.

Lemma sel_nil_iff c l : sel c l = [] <-> forall e, e ∈ l -> fst e <> c.
Proof.
  induction l as [|e l IH]; [split; [intros _ e He; by apply elem_of_nil in He|done]|].
  rewrite sel_cons. destruct (decide (fst e = c)) as [He|He].
  - split; [done|]. intros H. by destruct (H e (list_elem_of_here _ _)).
  - rewrite IH. split.
    + intros H x Hx. apply elem_of_cons in Hx as [->|Hx]; auto.
    + intros H x Hx. apply H. by right.
Qed.

Lemma sel_insert c k x m :
  sel c (fe_insert k x m) ≡ₚ if decide (k = c) then x :: sel c m else sel c m.
Proof.
  induction m as [|e m IH]; cbn [fe_insert].
  - rewrite sel_cons. cbn. by destruct (decide (k = c)).
  - destruct (fst e <=? k).
    + rewrite !sel_cons. destruct (decide (fst e = c)), (decide (k = c)); try done; rewrite IH;
        [by apply Permutation_swap|done].
    + rewrite (sel_cons c (k, x)). done.
Qed.

Lemma sorted_insert k x m :
  StronglySorted (fun e1 e2 : Z * T => fst e1 <= fst e2) m ->
  StronglySorted (fun e1 e2 => fst e1 <= fst e2) (fe_insert k x m).
Proof.
  induction 1 as [|e m Hs IH Hf]; cbn [fe_insert]; [by repeat constructor|].
  destruct (Z.leb_spec (fst e) k).
  - constructor; [done|]. clear IH Hs. induction m as [|e' m IHm]; cbn [fe_insert].
    + by repeat constructor.
    + apply Forall_cons in Hf as [Hf1 Hf2]. destruct (fst e' <=? k).
      * constructor; auto.
      * constructor; [cbn; lia|]. constructor; auto.
  - constructor; [by constructor|]. constructor; [cbn; lia|].
    eapply Forall_impl; [exact Hf|]. cbn. lia.
Qed.

Lemma elem_of_insert e k x m : e ∈ fe_insert k x m <-> e = (k, x) \/ e ∈ m.
Proof.
  induction m as [|e' m IH]; cbn [fe_insert].
  - rewrite list_elem_of_singleton, elem_of_nil. tauto.
  - destruct (fst e' <=? k); rewrite !elem_of_cons, ?IH; tauto.
Qed.

(** ** Enqueuing into a block *)

Lemma near_block_enqueue q obj cycle c :
  in_window q cycle ->
  near (block_enqueue obj ((cycle / 64) mod B) (cycle mod 64) q) c =
  if decide (cycle = c) then obj :: near q c else near q c.
Proof.
  intros Hw. unfold near.
  change (in_window (block_enqueue obj ((cycle / 64) mod B) (cycle mod 64) q) c) with (in_window q c).
  destruct (decide (in_window q c)) as [Hc|Hc]; cbn [slots block_enqueue].
  - destruct (decide (cycle = c)) as [->|Hne].
    + by rewrite fn_lookup_insert.
    + rewrite fn_lookup_insert_ne; [done|]. intros Heq. by apply Hne, (slot_inj q).
  - destruct (decide (cycle = c)) as [->|]; [|done]. done.
Qed.

Lemma block_enqueue_occ q obj i pos :
  0 <= i < B -> 0 <= pos < 64 ->
  (forall i, 0 <= i < B -> 0 <= occ q i < 2 ^ 64 /\
    forall p, 0 <= p < 64 -> Z.testbit (occ q i) p = true <-> slots q (i, p) <> []) ->
  let q' := block_enqueue obj i pos q in
  forall i, 0 <= i < B -> 0 <= occ q' i < 2 ^ 64 /\
    forall p, 0 <= p < 64 -> Z.testbit (occ q' i) p = true <-> slots q' (i, p) <> [].
Proof.
  intros Hi Hpos H q' j Hj. cbn. destruct (decide (j = i)) as [->|Hne].
  - rewrite fn_lookup_insert. destruct (H i Hj) as [Hr Hb]. split.
    + apply lor_range; [lia|done|by apply pow2_range].
    + intros p Hp. rewrite Z.lor_spec, pow2_bit, orb_true_iff, Hb, bool_decide_eq_true by lia.
      destruct (decide (p = pos)) as [->|Hpp].
      * rewrite fn_lookup_insert. split; [done|by right].
      * rewrite fn_lookup_insert_ne by congruence. split; [by intros [?|?]|by left].
  - rewrite fn_lookup_insert_ne by done. destruct (H j Hj) as [Hr Hb]. split; [done|].
    intros p Hp. rewrite fn_lookup_insert_ne by congruence. by apply Hb.
Qed.

Lemma enqueue_holds q l obj cycle :
  holds q l -> curBlock q * 64 <= cycle -> elems q + 1 < 2 ^ 64 ->
  exists q', enqueue obj cycle q = Ok q' /\ holds q' ((cycle, obj) :: l).
Proof.
  intros [[[I1 I2 I4 I5] H2 H3 H4] I3] Hc He. unfold enqueue.
  assert (Hb : curBlock q <= cycle / 64) by (apply Z.div_le_lower_bound; lia).
  rewrite (proj2 (Z.leb_le _ _) Hb). cbn [assert_that mbind res_bind].
  eexists. split; [reflexivity|].
  assert (Hu : u64 (elems q + 1) = elems q + 1) by (apply u64_id; unfold in_u64; lia).
  pose proof (Z.mod_pos_bound cycle 64 ltac:(lia)) as Hp.
  pose proof (Z.mod_pos_bound (cycle / 64) B ltac:(lia)) as Hi.
  destruct (Z.ltb_spec (cycle / 64) (curBlock q + B)) as [Hlt|Hge].
  - assert (Hw : in_window q cycle) by (unfold in_window; lia).
    split; [split; [split|..]|]; cbn [curBlock feMap elems set_elems block_enqueue].
    + done.
    + by apply (block_enqueue_occ q obj _ _ Hi Hp).
    + done.
    + lia.
    + intros c. change (near (set_elems ?n ?q0) c) with (near q0 c).
      rewrite near_block_enqueue, sel_cons by done. cbn [fst snd].
      specialize (H2 c). destruct (decide (cycle = c)); [|done]. cbn [app]. by rewrite H2.
    + rewrite Hu, H3. cbn [length]. lia.
    + intros e Hin. apply elem_of_cons in Hin as [->|Hin]; [done|by apply H4].
    + exact I3.
  - split; [split; [split|..]|]; cbn [curBlock feMap elems set_elems set_feMap].
    + done.
    + done.
    + by apply sorted_insert.
    + lia.
    + intros c. change (near (set_elems ?n (set_feMap ?m q)) c) with (near q c).
      rewrite sel_cons, sel_insert. cbn [fst snd]. specialize (H2 c).
      destruct (decide (cycle = c)); [|done]. by rewrite <- Permutation_middle, H2.
    + rewrite Hu, H3. cbn [length]. lia.
    + intros e Hin. apply elem_of_cons in Hin as [->|Hin]; [done|by apply H4].
    + intros e Hin. apply elem_of_insert in Hin as [->|Hin]; [|by apply I3].
      cbn [fst curBlock set_elems set_feMap].
      pose proof (Z.mod_pos_bound (curBlock q) (B / 2) ltac:(apply Z.div_str_pos; lia)).
      pose proof (Z.mul_div_le cycle 64 ltac:(lia)). lia.
Qed.

(** ** Taking the earliest element out *)

Lemma far_ge q : far q -> 0 <= curBlock q -> forall e, e ∈ feMap q ->
  (curBlock q + (B - B / 2) + 1) * 64 <= fst e.
Proof.
  intros Hf Hc e He. specialize (Hf e He).
  pose proof (Z.mod_pos_bound (curBlock q) (B / 2) ltac:(apply Z.div_str_pos; lia)). lia.
Qed.

Lemma half : 0 < B / 2 /\ B / 2 + B / 2 <= B.
Proof. split; [apply Z.div_str_pos; lia|]. pose proof (Z.mul_div_le B 2 ltac:(lia)). lia. Qed.

Lemma migrate_correct m : forall q l,
  bagged (set_feMap m q) l -> (forall e, e ∈ m -> curBlock q * 64 <= fst e) ->
  exists q', migrate ((curBlock q + B) * 64) m q = Ok q' /\ bagged q' l /\
    curBlock q' = curBlock q /\ forall e, e ∈ feMap q' -> (curBlock q + B) * 64 <= fst e.
Proof.
  induction m as [|[c x] m IH]; intros q l Hb Hm; cbn [migrate].
  - eexists. split_and!; [done|done|done|]. intros e He. by apply elem_of_nil in He.
  - pose proof (Hm _ (list_elem_of_here _ _)) as Hcx. cbn [fst] in Hcx.
    destruct (Z.ltb_spec c ((curBlock q + B) * 64)) as [Hlt|Hge].
    + assert (Hlo : curBlock q <= c / 64) by (apply Z.div_le_lower_bound; lia).
      assert (Hhi : c / 64 < curBlock q + B) by (apply Z.div_lt_upper_bound; lia).
      rewrite (proj2 (Z.leb_le _ _) Hlo), (proj2 (Z.ltb_lt _ _) Hhi).
      cbn [assert_that mbind res_bind].
      apply (IH (block_enqueue x ((c / 64) mod B) (c mod 64) q) l);
        [|intros e He; apply Hm; by right].
      destruct Hb as [[I1 I2 I4 I5] H2 H3 H4].
      split; [split|..]; cbn [curBlock feMap elems set_feMap block_enqueue] in *.
      * done.
      * apply (block_enqueue_occ q); [apply Z.mod_pos_bound; lia..|done].
      * by inversion I4.
      * done.
      * intros c'. change (near (set_feMap m ?q0) c') with (near q0 c').
        rewrite near_block_enqueue by (unfold in_window; lia). specialize (H2 c').
        change (near (set_feMap ?m0 q) c') with (near q c') in H2.
        rewrite sel_cons in H2. cbn [fst snd] in H2. destruct (decide (c = c')); [|done].
        rewrite <- H2. by rewrite <- Permutation_middle.
      * done.
      * done.
    + eexists. split_and!; [done|done|done|]. cbn [set_feMap feMap]. intros e He.
      apply elem_of_cons in He as [->|He]; [done|]. destruct Hb as [[_ _ I4 _] _ _ _].
      cbn in I4. inversion I4 as [|? ? _ Hf]; subst. rewrite Forall_forall in Hf.
      specialize (Hf e He). cbn in Hf. lia.
Qed.

(** What is not in the multimap is in a slot of the window, with its bit set. *)
Lemma near_bit q l e :
  bagged q l -> e ∈ l -> (forall e', e' ∈ feMap q -> fst e' <> fst e) ->
  in_window q (fst e) /\ Z.testbit (occ q ((fst e / 64) mod B)) (fst e mod 64) = true.
Proof.
  intros [[I1 I2 I4 I5] H2 H3 H4] He Hfar.
  pose proof (Z.mod_pos_bound (fst e / 64) B ltac:(lia)) as Hi.
  pose proof (Z.mod_pos_bound (fst e) 64 ltac:(lia)) as Hp.
  assert (Hsel : near q (fst e) <> []).
  { intros Hn. specialize (H2 (fst e)).
    rewrite Hn, (proj2 (sel_nil_iff _ _) Hfar) in H2. cbn in H2.
    symmetry in H2. apply Permutation_nil_r in H2.
    by apply (proj1 (sel_nil_iff _ _) H2 e He). }
  unfold near in Hsel. destruct (decide (in_window q (fst e))) as [Hw|]; [|done].
  split; [done|]. by apply (I2 _ Hi).
Qed.

(** What is due in the current block has its bit set. *)
Lemma due_bit q l e :
  bagged q l -> far q -> e ∈ l -> fst e / 64 = curBlock q ->
  Z.testbit (occ q (curBlock q mod B)) (fst e mod 64) = true.
Proof.
  intros Hb Hf He Hblk. pose proof half as [Hh Hh2].
  pose proof (Z.mod_pos_bound (fst e) 64 ltac:(lia)) as Hp.
  destruct (near_bit q l e Hb He) as [_ Hbit]; [|by rewrite Hblk in Hbit].
  intros e' He'. pose proof (far_ge q Hf (inv_cur _ (h_inv _ _ Hb)) e' He').
  pose proof (Z.div_mod (fst e) 64 ltac:(lia)). lia.
Qed.

(** Nothing is due in a current block without bits. *)
Lemma block_empty q l :
  bagged q l -> far q -> occ q (curBlock q mod B) = 0 ->
  forall e, e ∈ l -> (curBlock q + 1) * 64 <= fst e.
Proof.
  intros Hb Hf H0 e He. pose proof (h_late _ _ Hb e He).
  destruct (decide ((curBlock q + 1) * 64 <= fst e)) as [|Hlt]; [done|exfalso].
  assert (Hblk : fst e / 64 = curBlock q).
  { symmetry. apply (Z.div_unique _ _ _ (fst e - curBlock q * 64)); lia. }
  pose proof (due_bit q l e Hb Hf He Hblk) as Hbit. by rewrite H0, Z.testbit_0_l in Hbit.
Qed.

(** Moving on from an empty block. *)
Lemma bagged_next q l :
  bagged q l -> far q -> occ q (curBlock q mod B) = 0 ->
  bagged (set_curBlock (curBlock q + 1) q) l.
Proof.
  intros Hb Hf H0. pose proof (block_empty q l Hb Hf H0) as Hlate.
  destruct Hb as [[I1 I2 I4 I5] H2 H3 H4].
  assert (Hslot : forall p, 0 <= p < 64 -> slots q (curBlock q mod B, p) = []).
  { intros p Hp. destruct (slots q _) eqn:Es; [done|exfalso].
    assert (Hb : Z.testbit (occ q (curBlock q mod B)) p = true).
    { apply I2; [apply Z.mod_pos_bound; lia|done|by rewrite Es]. }
    by rewrite H0, Z.testbit_0_l in Hb. }
  split; [split|..]; cbn [curBlock feMap elems occ slots set_curBlock]; try done; try lia.
  intros c. rewrite <- H2. apply reflexive_eq. f_equal.
  pose proof (Z.mod_pos_bound c 64 ltac:(lia)) as Hp.
  unfold near, in_window. cbn [curBlock set_curBlock slots].
  destruct (decide (c / 64 = curBlock q)) as [He|Hne].
  - rewrite decide_False by lia. destruct (decide _); [|done]. by rewrite He, Hslot.
  - destruct (decide (c / 64 = curBlock q + B)) as [He|Hne'].
    + rewrite decide_True, decide_False by lia. rewrite He.
      replace ((curBlock q + B) mod B) with (curBlock q mod B); [by apply Hslot|].
      rewrite <- (Z.mod_add (curBlock q) 1 B) by lia. f_equal. lia.
    + by destruct (decide (curBlock q + 1 <= c / 64 < curBlock q + 1 + B)),
        (decide (curBlock q <= c / 64 < curBlock q + B)); try lia.
Qed.

Lemma advance_correct fuel : forall q l e,
  holds q l -> e ∈ l -> fst e < 2 ^ 62 ->
  fst e / 64 - curBlock q <= Z.of_nat fuel ->
  exists q', advance fuel q = Ok (Some q') /\ holds q' l /\ occ q' (curBlock q' mod B) <> 0.
Proof.
  induction fuel as [|fuel IH]; intros q l e [Hb Hf] He Hlt Hfuel; cbn [advance];
    (destruct (Z.eqb_spec (occ q (curBlock q mod B)) 0) as [H0|Hne]; cbn [negb]; [|by exists q]).
  - exfalso. pose proof (block_empty q l Hb Hf H0 e He).
    assert (curBlock q + 1 <= fst e / 64) by (apply Z.div_le_lower_bound; lia). lia.
  - pose proof (block_empty q l Hb Hf H0 e He) as Hlate. pose proof half as [Hh Hh2].
    pose proof (bagged_next q l Hb Hf H0) as Hb'.
    pose proof (inv_cur _ (h_inv _ _ Hb)) as Hcur.
    rewrite (u64_id (curBlock q + 1)) by (unfold in_u64; lia).
    cbn [curBlock feMap set_curBlock].
    pose proof (Z.mod_pos_bound (curBlock q) (B / 2) Hh) as Hm.
    destruct ((curBlock q + 1) mod (B / 2) =? 0) eqn:Em; cbn [andb];
      [apply Z.eqb_eq in Em|apply Z.eqb_neq in Em].
    + destruct (bool_decide_reflect (feMap q = [])) as [Hnil|Hnn];
        cbn [negb mbind res_bind].
      * apply (IH _ l e); [|done|done|cbn; lia]. split; [done|].
        intros e' He'. cbn in He'. rewrite Hnil in He'. by apply elem_of_nil in He'.
      * rewrite u64_id by (unfold in_u64; lia).
        destruct (migrate_correct (feMap q) (set_curBlock (curBlock q + 1) q) l)
          as (q' & Hmig & Hbq & Hcq & Hfq).
        { exact Hb'. }
        { intros e' He'. pose proof (far_ge q Hf Hcur e' He'). cbn. lia. }
        cbn [curBlock set_curBlock] in Hmig, Hcq, Hfq. rewrite Hmig. cbn [mbind res_bind].
        apply (IH q' l e); [|done|done|rewrite Hcq; lia]. split; [done|].
        intros e' He'. rewrite Hcq, Em. specialize (Hfq e' He'). lia.
    + cbn [mbind res_bind]. apply (IH _ l e); [|done|done|cbn; lia]. split; [done|].
      intros e' He'. cbn [curBlock feMap set_curBlock] in *. specialize (Hf e' He').
      assert (Hnx : (curBlock q + 1) mod (B / 2) = curBlock q mod (B / 2) + 1); [|lia].
      destruct (decide (curBlock q mod (B / 2) + 1 = B / 2)) as [Hw|Hw].
      * exfalso. apply Em. rewrite <- Z.add_mod_idemp_l, Hw by lia. apply Z.mod_same. lia.
      * rewrite <- Z.add_mod_idemp_l by lia. apply Z.mod_small. lia.
Qed.

#[local] Instance sel_perm c : Proper ((≡ₚ) ==> (≡ₚ)) (sel c).
Proof. intros l1 l2 H. unfold sel. by rewrite H. Qed.

Lemma elem_of_sel c x l : x ∈ sel c l -> (c, x) ∈ l.
Proof.
  unfold sel. rewrite list_elem_of_fmap. intros ([c' x'] & -> & [Hc Hin]%list_elem_of_filter).
  cbn in *. by subst.
Qed.

(** The mask of a block after its slot [pos] loses its head. *)
Lemma block_dequeue_occ q i pos next x :
  inv q -> 0 <= i < B -> 0 <= pos < 64 -> slots q (i, pos) = x :: next ->
  let o := if decide (next = []) then Z.lxor (occ q i) (Z.shiftl 1 pos) else occ q i in
  let q' := mkPQ (<[(i, pos) := next]> (slots q)) (<[i := o]> (occ q)) (feMap q)
              (curBlock q) (elems q) in
  inv q'.
Proof.
  intros [I1 I2 I4 I5] Hi Hpos Hs o q'. split; cbn; [done| |done|done].
  intros j Hj. destruct (I2 j Hj) as [Hr Hb]. destruct (decide (j = i)) as [->|Hne].
  - rewrite fn_lookup_insert. split.
    + subst o. destruct (decide _); [|done]. apply lxor_range; [lia|done|by apply pow2_range].
    + intros p Hp. specialize (Hb p Hp). subst o. destruct (decide (p = pos)) as [->|Hpp].
      * rewrite fn_lookup_insert. destruct (decide (next = [])) as [Hn|Hn].
        -- rewrite Z.lxor_spec, pow2_bit, bool_decide_true by lia.
           rewrite (proj2 Hb) by (by rewrite Hs). by rewrite Hn.
        -- rewrite (proj2 Hb) by (by rewrite Hs). done.
      * rewrite fn_lookup_insert_ne by congruence. rewrite <- Hb.
        destruct (decide (next = [])); [|done].
        rewrite Z.lxor_spec, pow2_bit, bool_decide_false by lia. by rewrite xorb_false_r.
  - rewrite fn_lookup_insert_ne by done. split; [done|]. intros p Hp.
    rewrite fn_lookup_insert_ne by congruence. by apply Hb.
Qed.

(** Taking an element out of the current block. *)
Lemma block_dequeue_correct q l :
  holds q l -> occ q (curBlock q mod B) <> 0 -> elems q <> 0 ->
  exists x pos q', block_dequeue (curBlock q mod B) q = Ok (x, pos, q') /\
    (forall e, e ∈ l -> curBlock q * 64 + pos <= fst e) /\
    curBlock q' = curBlock q /\ elems q' = elems q /\
    exists l', l ≡ₚ (curBlock q * 64 + pos, x) :: l' /\
      holds (set_elems (u64 (elems q - 1)) q') l'.
Proof.
  intros [Hb Hf] Hocc Hel. pose proof (Z.mod_pos_bound (curBlock q) B ltac:(lia)) as Hi.
  pose proof Hb as [Hinv H2 H3 H4]. pose proof Hinv as [I1 I2 I4 I5].
  destruct (I2 _ Hi) as [Hr Hbits].
  destruct (ctz_spec (occ q (curBlock q mod B)) ltac:(lia)) as (Hpos & Hset & Hlow).
  unfold block_dequeue. apply Z.eqb_neq in Hocc. rewrite Hocc.
  cbn [negb assert_that mbind res_bind].
  set (pos := ctz (occ q (curBlock q mod B))) in *.
  destruct (slots q (curBlock q mod B, pos)) as [|x next] eqn:Es.
  { exfalso. by apply (Hbits pos Hpos). }
  set (c0 := curBlock q * 64 + pos).
  assert (Hdiv : c0 / 64 = curBlock q) by (symmetry; apply (Z.div_unique _ _ _ pos); lia).
  assert (Hmod : c0 mod 64 = pos) by (symmetry; apply (Z.mod_unique _ _ (curBlock q)); lia).
  assert (Hw0 : in_window q c0) by (unfold in_window; lia).
  assert (Hn0 : near q c0 = x :: next).
  { unfold near. rewrite decide_True by done. by rewrite Hdiv, Hmod. }
  assert (Hin : (c0, x) ∈ l).
  { apply elem_of_sel. rewrite <- H2, Hn0. left. }
  apply elem_of_Permutation in Hin as [l' Hl].
  eexists x, pos, _. split; [reflexivity|]. split_and!; [|done|done|].
  - intros e He. pose proof (H4 e He). destruct (decide (c0 <= fst e)) as [|Hlt]; [done|exfalso].
    assert (Hblk : fst e / 64 = curBlock q).
    { symmetry. apply (Z.div_unique _ _ _ (fst e - curBlock q * 64)); lia. }
    pose proof (due_bit q l e Hb Hf He Hblk) as Hbit.
    rewrite Hlow in Hbit; [done|]. pose proof (Z.div_mod (fst e) 64 ltac:(lia)).
    pose proof (Z.mod_pos_bound (fst e) 64 ltac:(lia)). lia.
  - exists l'. split; [done|].
    assert (Hlen : length l = Datatypes.S (length l')) by (by rewrite Hl).
    assert (Hu : u64 (elems q - 1) = elems q - 1) by (apply u64_id; unfold in_u64; lia).
    pose proof (block_dequeue_occ q _ pos next x Hinv Hi Hpos Es) as [J1 J2 J4 J5].
    split; [split; [split|..]|]; cbn [curBlock feMap elems occ slots set_elems] in *; try done.
    + lia.
    + intros c. specialize (H2 c). rewrite Hl, sel_cons in H2. cbn [fst snd] in H2.
      unfold near, in_window in *. cbn [curBlock set_elems slots].
      destruct (decide (c0 = c)) as [<-|Hne].
      * rewrite decide_True in * by done. rewrite Hdiv, Hmod in *.
        rewrite fn_lookup_insert. rewrite Es in H2. by apply Permutation_cons_inv in H2.
      * rewrite <- H2. destruct (decide _) as [Hw|]; [|done].
        rewrite fn_lookup_insert_ne; [done|]. intros Heq. apply Hne, (slot_inj q); [done|done|].
        by rewrite Hdiv, Hmod.
    + lia.
    + intros e He. apply H4. rewrite Hl. by right.
Qed.

(** With fuel for the blocks up to any of its elements, taking from a nonempty queue
    ends without failing an assertion and gives an earliest pair. *)
Lemma dequeue_holds fuel q l e :
  holds q l -> e ∈ l -> fst e < 2 ^ 62 -> fst e / 64 - curBlock q <= Z.of_nat fuel ->
  exists x c q' l', dequeue fuel q = Ok (Some (x, c, q')) /\ l ≡ₚ (c, x) :: l' /\
    (forall e', e' ∈ l -> c <= fst e') /\ holds q' l'.
Proof.
  intros Hh He Hlt Hfuel. unfold dequeue.
  assert (Hne : elems q <> 0).
  { rewrite (h_size _ _ (proj1 Hh)). destruct l; [by apply elem_of_nil in He|cbn; lia]. }
  apply Z.eqb_neq in Hne. rewrite Hne. cbn [negb assert_that mbind res_bind].
  destruct (advance_correct fuel q l e Hh He Hlt Hfuel) as (q1 & Ha & Hh1 & Hocc).
  rewrite Ha. cbn [mbind res_bind].
  assert (Hne1 : elems q1 <> 0).
  { rewrite (h_size _ _ (proj1 Hh1)). destruct l; [by apply elem_of_nil in He|cbn; lia]. }
  destruct (block_dequeue_correct q1 l Hh1 Hocc Hne1)
    as (x & pos & q2 & Hd & Hmin & Hc & Hel & l' & Hl & Hh2).
  rewrite Hd. cbn [mbind res_bind]. rewrite Hc, Hel. by eauto 10.
Qed.

(** ** The first cycle *)

(** The window position of a due element. *)
Lemma first_near_spec q n : forall i,
  match first_near q i n with
  | Some c => exists j, i <= j < i + Z.of_nat n /\ occ q ((curBlock q + j) mod B) <> 0 /\
      (forall k, i <= k < j -> occ q ((curBlock q + k) mod B) = 0) /\
      c = (curBlock q + j) * 64 + ctz (occ q ((curBlock q + j) mod B))
  | None => forall k, i <= k < i + Z.of_nat n -> occ q ((curBlock q + k) mod B) = 0
  end.
Proof.
  induction n as [|n IH]; intros i; cbn [first_near]; [lia|].
  destruct (Z.eqb_spec (occ q ((curBlock q + i) mod B)) 0) as [H0|Hne]; cbn [negb].
  - specialize (IH (i + 1)). destruct (first_near q (i + 1) n) as [c|].
    + destruct IH as (j & Hj & Hne & Hz & Hc). exists j. split_and!; [lia|lia|done| |done].
      intros k Hk. destruct (decide (k = i)) as [->|]; [done|]. apply Hz. lia.
    + intros k Hk. destruct (decide (k = i)) as [->|]; [done|]. apply IH. lia.
  - exists i. split_and!; [lia|lia|done| |done]. intros k Hk. lia.
Qed.

Lemma ctz_zero_bit v i : 0 <= i -> v = 0 -> Z.testbit v i = false.
Proof. intros _ ->. apply Z.testbit_0_l. Qed.

(** The first populated block bounds what is not in the multimap. *)
Lemma near_min q l j e :
  bagged q l -> 0 <= j < B -> occ q ((curBlock q + j) mod B) <> 0 ->
  (forall k, 0 <= k < j -> occ q ((curBlock q + k) mod B) = 0) ->
  e ∈ l -> (forall e', e' ∈ feMap q -> fst e' <> fst e) ->
  (curBlock q + j) * 64 + ctz (occ q ((curBlock q + j) mod B)) <= fst e.
Proof.
  intros Hb Hj Hocc Hz He Hfar. destruct (near_bit q l e Hb He Hfar) as [[Hw1 Hw2] Hbit].
  pose proof (Z.div_mod (fst e) 64 ltac:(lia)) as Hdm.
  pose proof (Z.mod_pos_bound (fst e) 64 ltac:(lia)) as Hp.
  destruct (inv_occ _ (h_inv _ _ Hb) ((curBlock q + j) mod B)
    ltac:(apply Z.mod_pos_bound; lia)) as [Hr _].
  destruct (ctz_spec (occ q ((curBlock q + j) mod B)) ltac:(lia)) as (Hc & _ & Hlow).
  set (d := fst e / 64 - curBlock q). assert (Hd : fst e / 64 = curBlock q + d) by lia.
  rewrite Hd in Hbit. destruct (decide (d < j)) as [Hlt|].
  - exfalso. rewrite ctz_zero_bit in Hbit; [done|lia|apply Hz; lia].
  - destruct (decide (d = j)) as [Hdj|]; [|lia].
    destruct (decide (fst e mod 64 < ctz (occ q ((curBlock q + j) mod B)))); [|lia].
    exfalso. rewrite Hdj, Hlow in Hbit; [done|lia].
Qed.

(** The first populated slot holds an element of the bag. *)
Lemma near_in q l j :
  bagged q l -> 0 <= j < B -> occ q ((curBlock q + j) mod B) <> 0 ->
  exists x, ((curBlock q + j) * 64 + ctz (occ q ((curBlock q + j) mod B)), x) ∈ l.
Proof.
  intros Hb Hj Hocc. pose proof (Z.mod_pos_bound (curBlock q + j) B ltac:(lia)) as Hi.
  destruct (inv_occ _ (h_inv _ _ Hb) _ Hi) as [Hr Hbits].
  destruct (ctz_spec (occ q ((curBlock q + j) mod B)) ltac:(lia)) as (Hc & Hset & _).
  apply Hbits in Hset; [|done]. destruct (slots q _) as [|x next] eqn:Es; [done|].
  exists x. set (c := _ + ctz _) in *. apply elem_of_sel. rewrite <- (h_bag _ _ Hb).
  apply elem_of_app. left. unfold near.
  assert (Hdiv : c / 64 = curBlock q + j).
  { symmetry. apply (Z.div_unique _ _ _ (ctz (occ q ((curBlock q + j) mod B)))); lia. }
  assert (Hmod : c mod 64 = ctz (occ q ((curBlock q + j) mod B))).
  { symmetry. apply (Z.mod_unique _ _ (curBlock q + j)); lia. }
  rewrite decide_True by (unfold in_window; lia). rewrite Hdiv, Hmod, Es. left.
Qed.

Lemma far_in q l e : bagged q l -> e ∈ feMap q -> e ∈ l.
Proof.
  intros Hb He. destruct e as [c x]. apply elem_of_sel. rewrite <- (h_bag _ _ Hb).
  apply elem_of_app. right. unfold sel. apply list_elem_of_fmap. exists (c, x).
  split; [done|]. by apply list_elem_of_filter.
Qed.

Lemma far_head q l e m : bagged q l -> feMap q = e :: m -> forall e', e' ∈ feMap q -> fst e <= fst e'.
Proof.
  intros Hb Hm e' He'. pose proof (inv_sorted _ (h_inv _ _ Hb)) as Hs. rewrite Hm in *.
  inversion Hs as [|? ? _ Hf]; subst. rewrite Forall_forall in Hf.
  apply elem_of_cons in He' as [->|He']; [lia|auto].
Qed.

(** With nothing in the window, an element is in the multimap. *)
Lemma none_near q l e :
  bagged q l -> (forall k, 0 <= k < B -> occ q ((curBlock q + k) mod B) = 0) ->
  e ∈ l -> ~ (forall e', e' ∈ feMap q -> fst e' <> fst e).
Proof.
  intros Hb Hz He Hfar. destruct (near_bit q l e Hb He Hfar) as [[Hw1 Hw2] Hbit].
  pose proof (Z.mod_pos_bound (fst e) 64 ltac:(lia)) as Hp.
  rewrite ctz_zero_bit in Hbit; [done|lia|].
  replace (fst e / 64) with (curBlock q + (fst e / 64 - curBlock q)) by lia. apply Hz. lia.
Qed.

Lemma firstCycle_holds q l :
  holds q l -> l <> [] ->
  exists c x, firstCycle q = Ok c /\ (c, x) ∈ l /\ forall e, e ∈ l -> c <= fst e.
Proof.
  intros [Hb Hf] Hl. unfold firstCycle. pose proof half as [Hh Hh2].
  assert (Hne : elems q <> 0) by (rewrite (h_size _ _ Hb); destruct l; cbn; [done|lia]).
  apply Z.eqb_neq in Hne. rewrite Hne. cbn [negb assert_that mbind res_bind].
  pose proof (first_near_spec q (Z.to_nat (B / 2)) 0) as H1.
  destruct (first_near q 0 (Z.to_nat (B / 2))) as [c|].
  { destruct H1 as (j & Hj & Hocc & Hz & ->).
    destruct (near_in q l j Hb ltac:(lia) Hocc) as [x Hx].
    eexists _, x. split; [reflexivity|]. split; [done|]. intros e He.
    destruct (decide ((curBlock q + B / 2) * 64 <= fst e)).
    - destruct (inv_occ _ (h_inv _ _ Hb) ((curBlock q + j) mod B)
        ltac:(apply Z.mod_pos_bound; lia)) as [Hr _].
      destruct (ctz_spec (occ q ((curBlock q + j) mod B)) ltac:(lia)) as (Hc & _ & _). lia.
    - apply (near_min q l); [done|lia|done|done|done|]. intros e' He'.
      pose proof (far_ge q Hf (inv_cur _ (h_inv _ _ Hb)) e' He'). lia. }
  pose proof (first_near_spec q (Z.to_nat (B - B / 2)) (B / 2)) as H2.
  destruct (first_near q (B / 2) (Z.to_nat (B - B / 2))) as [c|].
  - destruct H2 as (j & Hj & Hocc & Hz & ->).
    assert (Hz' : forall k, 0 <= k < j -> occ q ((curBlock q + k) mod B) = 0).
    { intros k Hk. destruct (decide (k < B / 2)); [apply H1; lia|apply Hz; lia]. }
    destruct (near_in q l j Hb ltac:(lia) Hocc) as [x Hx].
    set (c := _ + ctz _) in *.
    destruct (feMap q) as [|[k y] m] eqn:Em.
    + exists c, x. split; [done|]. split; [done|]. intros e He.
      apply (near_min q l); [done|lia|done|done|done|]. rewrite Em. intros e' He'.
      by apply elem_of_nil in He'.
    + assert (Hhead : forall e', e' ∈ feMap q -> k <= fst e') by (by apply (far_head q l _ _ Hb Em)).
      assert (Hky : (k, y) ∈ l) by (apply (far_in q l _ Hb); rewrite Em; left).
      exists (Z.min c k), (if decide (c <= k) then x else y).
      split; [done|]. split; [destruct (decide _); [by rewrite Z.min_l by lia|by rewrite Z.min_r by lia]|].
      intros e He. destruct (decide (k <= fst e)); [lia|].
      transitivity c; [lia|]. apply (near_min q l); [done|lia|done|done|done|].
      intros e' He'. specialize (Hhead e' He'). lia.
  - assert (Hz' : forall k, 0 <= k < B -> occ q ((curBlock q + k) mod B) = 0).
    { intros k Hk. destruct (decide (k < B / 2)); [apply H1; lia|apply H2; lia]. }
    destruct (feMap q) as [|[k y] m] eqn:Em.
    + exfalso. destruct l as [|e l]; [done|].
      apply (none_near q (e :: l) e Hb Hz' (list_elem_of_here _ _)). rewrite Em.
      intros e' He'. by apply elem_of_nil in He'.
    + exists k, y. split; [done|]. split; [apply (far_in q l _ Hb); rewrite Em; left|].
      intros e He. destruct (decide (k <= fst e)); [done|exfalso].
      apply (none_near q l e Hb Hz' He). intros e' He'.
      pose proof (far_head q l _ _ Hb Em e' He') as Hle. cbn in Hle. lia.
Qed.

(** C40: the queue refines a bag of (cycle, element) pairs.  From a queue that holds
    the bag [l]: enqueuing an element for a cycle that is not before the current block
    never fails and adds the pair, near or far; and when [l] is not empty,
    [firstCycle] is the least cycle of [l], and [dequeue], with fuel for the blocks
    up to any element of [l], fails no assertion, returns a pair of [l] of least
    cycle, and leaves a queue that holds the rest. *)
Theorem queue_refines_bag q l :
  holds q l ->
  (forall obj cycle, curBlock q * 64 <= cycle -> elems q + 1 < 2 ^ 64 ->
    exists q', enqueue obj cycle q = Ok q' /\ holds q' ((cycle, obj) :: l)) /\
  (l <> [] -> exists c x, firstCycle q = Ok c /\ (c, x) ∈ l /\ forall e, e ∈ l -> c <= fst e) /\
  (forall fuel e, e ∈ l -> fst e < 2 ^ 62 -> fst e / 64 - curBlock q <= Z.of_nat fuel ->
    exists x c q' l', dequeue fuel q = Ok (Some (x, c, q')) /\ l ≡ₚ (c, x) :: l' /\
      (forall e', e' ∈ l -> c <= fst e') /\ holds q' l') /\
  size q = Z.of_nat (length l).
Proof.
  intros H. split_and!.
  - intros obj cycle. by apply enqueue_holds.
  - by apply firstCycle_holds.
  - intros fuel e. by apply dequeue_holds.
  - apply (h_size _ _ (proj1 H)).
Qed.

End Queue.

Lemma new_holds {T} B : holds (T := T) B new [].
Proof.
  split; [split; [split|..]|]; cbn; try done.
  - intros i Hi. split; [lia|]. intros p Hp. by rewrite Z.testbit_0_l.
  - constructor.
  - intros c. unfold near. cbn. by destruct (decide _).
  - intros e He. by apply elem_of_nil in He.
  - intros e He. by apply elem_of_nil in He.
Qed.

(** Two elements one window apart: the far one migrates and comes out second. *)
Definition two : res (PrioQueue (T := bool)) :=
  q ← enqueue 4 true 70 new;
  enqueue 4 false 600 q.

Lemma queue_refines_bag_witness :
  exists q, enqueue 4 true 70 new = Ok q /\ holds 4 q [(70, true)] /\
  exists x c q' l', dequeue 4 2 q = Ok (Some (x, c, q')) /\ [(70, true)] ≡ₚ (c, x) :: l' /\
    (forall e', e' ∈ [(70, true)] -> c <= fst e') /\ holds 4 q' l'.
Proof.
  assert (Hn : holds (T := bool) 4 new []) by apply new_holds.
  destruct (queue_refines_bag 4 ltac:(lia) new [] Hn) as [Henq _].
  destruct (Henq true 70 ltac:(cbn; lia) ltac:(cbn; lia)) as (q & Hq & Hh).
  exists q. split; [done|]. split; [done|].
  destruct (queue_refines_bag 4 ltac:(lia) q [(70, true)] Hh) as (_ & _ & Hdeq & _).
  apply (Hdeq 2%nat (70, true)).
  - left.
  - cbn. lia.
  - cbn in Hq. injection Hq as <-. vm_compute. discriminate.
Defined.

Example two_order :
  (q ← two; r ← dequeue 4 20 q;
   match r with
   | Some (x, c, q) =>
       r ← dequeue 4 20 q;
       Ok (match r with Some (x', c', q) => Some (x, c, x', c', elems q) | None => None end)
   | None => Ok None
   end) = Ok (Some (true, 70, false, 600, 0)).
Proof. vm_compute. reflexivity. Qed.

End PrioQueue.
