(* ===== verification/Timing.v ===== *)
(** Timing events and the contention simulator (timing_event.h, timing_event.cpp,
    event_recorder.h, contention_sim.cpp): the graph of events with its blocks of
    children, the propagation of completions through it, crossings between domains,
    and the weave loop of a simulation thread with one domain. *)
From S2P Require Import Prelude Effects MemHier PrioQueue.
Import MemHier (AccessType).

Module Timing.

Inductive EventState := EV_INVALID | EV_NONE | EV_QUEUED | EV_RUNNING | EV_HELD | EV_DONE.
#[export] Instance EventState_eq_dec : EqDecision EventState.
Proof. solve_decision. Defined.

(** A [TimingEventBlock]: three slots, [None] for null. The [next] pointers make a
    list of blocks. *)
Definition TIMING_BLOCK_EVENTS : nat := 3.
Definition TimingEventBlock : Type := list (option nat).
Definition newBlock : TimingEventBlock := replicate TIMING_BLOCK_EVENTS None.

(** The union of [child] and [children]; [numChildren] says which one is live. *)
Inductive links :=
  | Child (child : option nat)
  | Children (blocks : list TimingEventBlock).

(** The subclasses: [Simple] stands for every event that only implements
    [simulate]. *)
Inductive kind :=
  | Simple
  | DelayEvent
  | CrossingEvent (srcDomain : Z) (called : bool) (doneCycle : Z) (evRec : nat)
      (origStartCycle parentEv preSlack postSlack : Z)
  | CrossingSrcEvent (ce : nat).

Record TimingEvent := mkEv {
  ekind : kind;
  privCycle : Z;
  state : EventState;
  cycle : Z;
  minStartCycle : Z;
  childLinks : links;
  domain : Z;
  numChildren : Z;
  numParents : Z;
  preDelay : Z;
  postDelay : Z
}.

Definition newEvent (k : kind) (pre post dom : Z) : TimingEvent :=
  mkEv k 0 EV_NONE 0 (2 ^ 64 - 1) (Child None) dom 0 0 pre post.

Definition set_state (s : EventState) (e : TimingEvent) : TimingEvent :=
  mkEv (ekind e) (privCycle e) s (cycle e) (minStartCycle e) (childLinks e) (domain e)
    (numChildren e) (numParents e) (preDelay e) (postDelay e).
Definition set_privCycle (c : Z) (e : TimingEvent) : TimingEvent :=
  mkEv (ekind e) c (state e) (cycle e) (minStartCycle e) (childLinks e) (domain e)
    (numChildren e) (numParents e) (preDelay e) (postDelay e).
Definition set_cycle (c : Z) (e : TimingEvent) : TimingEvent :=
  mkEv (ekind e) (privCycle e) (state e) c (minStartCycle e) (childLinks e) (domain e)
    (numChildren e) (numParents e) (preDelay e) (postDelay e).
Definition set_minStartCycle (c : Z) (e : TimingEvent) : TimingEvent :=
  mkEv (ekind e) (privCycle e) (state e) (cycle e) c (childLinks e) (domain e)
    (numChildren e) (numParents e) (preDelay e) (postDelay e).
Definition set_links (l : links) (n : Z) (e : TimingEvent) : TimingEvent :=
  mkEv (ekind e) (privCycle e) (state e) (cycle e) (minStartCycle e) l (domain e)
    n (numParents e) (preDelay e) (postDelay e).
Definition set_domain (d : Z) (e : TimingEvent) : TimingEvent :=
  mkEv (ekind e) (privCycle e) (state e) (cycle e) (minStartCycle e) (childLinks e) d
    (numChildren e) (numParents e) (preDelay e) (postDelay e).
Definition set_numParents (n : Z) (e : TimingEvent) : TimingEvent :=
  mkEv (ekind e) (privCycle e) (state e) (cycle e) (minStartCycle e) (childLinks e) (domain e)
    (numChildren e) n (preDelay e) (postDelay e).
Definition set_kind (k : kind) (e : TimingEvent) : TimingEvent :=
  mkEv k (privCycle e) (state e) (cycle e) (minStartCycle e) (childLinks e) (domain e)
    (numChildren e) (numParents e) (preDelay e) (postDelay e).

(** ** Children *)

(** The links part of [addChild]. *)
Definition link (child : nat) (e : TimingEvent) : TimingEvent :=
  if numChildren e =? 0 then set_links (Child (Some child)) 1 e
  else if numChildren e =? 1 then
    let first := match childLinks e with Child c => c | Children _ => None end in
    set_links (Children [<[0%nat := first]> (<[1%nat := Some child]> newBlock)]) 2 e
  else
    let idx := Z.to_nat (numChildren e mod Z.of_nat TIMING_BLOCK_EVENTS) in
    let blocks := match childLinks e with Child _ => [] | Children b => b end in
    let blocks := if decide (idx = 0)%nat then newBlock :: blocks else blocks in
    let blocks := match blocks with
                  | [] => []
                  | b :: bs => <[idx := Some child]> b :: bs
                  end in
    set_links (Children blocks) (u32 (numChildren e + 1)) e.

(** The slots of a block up to the first null one. *)
Fixpoint block_children (b : TimingEventBlock) : list nat :=
  match b with
  | Some c :: b => c :: block_children b
  | _ => []
  end.

(** The children [visitChildren] calls its argument on, in order. *)
Definition visited (e : TimingEvent) : list nat :=
  if numChildren e =? 0 then []
  else if numChildren e =? 1 then
    match childLinks e with Child (Some c) => [c] | _ => [] end
  else
    match childLinks e with Child _ => [] | Children bs => bs ≫= block_children end.

(** Its assertion at the end. *)
Definition visit_ok (e : TimingEvent) : bool :=
  (numChildren e <? 2) || (Z.of_nat (length (visited e)) =? numChildren e).

(** [freeEvent]: the memory goes back to the slab. *)
Definition freeEvent (e : TimingEvent) : TimingEvent :=
  if 1 <? numChildren e then set_links (Children []) 0 e else e.

(** ** The simulator's state *)

Record TimingRecord := mkTR {
  tr_addr : Z;
  reqCycle : Z;
  respCycle : Z;
  tr_type : AccessType;
  startEvent : option nat;
  endEvent : option nat
}.

Definition isValid (tr : TimingRecord) : bool := bool_decide (is_Some (startEvent tr)).
Definition clear (tr : TimingRecord) : TimingRecord :=
  mkTR (tr_addr tr) (reqCycle tr) (respCycle tr) (tr_type tr) None (endEvent tr).

Record EventRecorder := mkER {
  er_tr : TimingRecord;
  srcId : nat;
  lastGapCycles : Z;
  lastStartSlack : Z
}.

Definition pushRecord (rec : TimingRecord) (r : EventRecorder) : res EventRecorder :=
  _ ← assert_that (negb (isValid (er_tr r)));
  _ ← assert_that (isValid rec);
  Ok (mkER rec (srcId r) (lastGapCycles r) (lastStartSlack r)).
Definition popRecord (r : EventRecorder) : TimingRecord * EventRecorder :=
  (er_tr r, mkER (clear (er_tr r)) (srcId r) (lastGapCycles r) (lastStartSlack r)).
Definition hasRecord (r : EventRecorder) : bool := isValid (er_tr r).
Definition getSlack (origStartCycle : Z) (r : EventRecorder) : Z :=
  u64 (origStartCycle + lastStartSlack r).
Definition setGapCycles (g : Z) (r : EventRecorder) : EventRecorder :=
  mkER (er_tr r) (srcId r) g (lastStartSlack r).
Definition setStartSlack (s : Z) (r : EventRecorder) : EventRecorder :=
  mkER (er_tr r) (srcId r) (lastGapCycles r) s.

Definition PQ_BLOCKS : Z := 1024.

Record DomainData := mkDom {
  pq : PrioQueue.PrioQueue (T := nat);
  curCycle : Z;
  prio : Z
}.

(** The events are numbered: number [numEvents] is the next to be allocated. *)
Record sim := mkSim {
  ev : nat -> TimingEvent;
  numEvents : nat;
  recorders : nat -> EventRecorder;
  domains : Z -> DomainData;
  numDomains : Z;
  limit : Z;
  lastLimit : Z;
  inCSim : bool;
  phaseLength : Z
}.

Notation P := (prog sim).

Definition get (e : nat) : P TimingEvent := gets (fun w => ev w e).
Definition upd (e : nat) (f : TimingEvent -> TimingEvent) : P unit :=
  modify (fun w => mkSim (<[e := f (ev w e)]> (ev w)) (numEvents w) (recorders w) (domains w)
    (numDomains w) (limit w) (lastLimit w) (inCSim w) (phaseLength w)).
Definition upd_domain (d : Z) (f : DomainData -> DomainData) : P unit :=
  modify (fun w => mkSim (ev w) (numEvents w) (recorders w) (<[d := f (domains w d)]> (domains w))
    (numDomains w) (limit w) (lastLimit w) (inCSim w) (phaseLength w)).
Definition alloc (e : TimingEvent) : P nat := fun w =>
  Ok (numEvents w, mkSim (<[numEvents w := e]> (ev w)) (Datatypes.S (numEvents w)) (recorders w)
    (domains w) (numDomains w) (limit w) (lastLimit w) (inCSim w) (phaseLength w)).

Definition set_pq (q : PrioQueue.PrioQueue) (d : DomainData) : DomainData :=
  mkDom q (curCycle d) (prio d).
Definition set_curCycle (c : Z) (d : DomainData) : DomainData := mkDom (pq d) c (prio d).
Definition set_prio (p : Z) (d : DomainData) : DomainData := mkDom (pq d) (curCycle d) p.

(** ** ContentionSim *)

Definition pq_enqueue (d : Z) (e : nat) (cyc : Z) : P unit :=
  q ← gets (fun w => pq (domains w d));
  q ← lift (PrioQueue.enqueue PQ_BLOCKS e cyc q);
  upd_domain d (set_pq q).

Definition enqueue (e : nat) (cyc : Z) : P unit :=
  c ← gets inCSim; _ ← require c;
  ll ← gets lastLimit; pl ← gets phaseLength;
  _ ← require (ll <=? cyc);
  _ ← require (cyc <? u64 (ll + 10 * pl + 1000000));
  x ← get e;
  cur ← gets (fun w => curCycle (domains w (domain x)));
  _ ← require (cur <=? cyc);
  _ ← upd e (set_privCycle cyc);
  _ ← require (numParents x =? 0);
  _ ← require (negb (domain x =? -1));
  nd ← gets numDomains;
  _ ← require (domain x <? nd);
  pq_enqueue (domain x) e cyc.

Definition enqueueSynced (e : nat) (cyc : Z) : P unit :=
  c ← gets inCSim; _ ← require (negb c);
  x ← get e;
  _ ← require (negb (domain x =? -1));
  nd ← gets numDomains; _ ← require (domain x <? nd);
  ll ← gets lastLimit; pl ← gets phaseLength;
  _ ← require (ll <=? cyc);
  _ ← require (cyc <? u64 (ll + 10 * pl + 10000));
  _ ← upd e (set_privCycle cyc);
  _ ← require (numParents x =? 0);
  pq_enqueue (domain x) e cyc.

Definition getCurCycle (d : Z) : P Z :=
  nd ← gets numDomains; _ ← require (d <? nd);
  c ← gets (fun w => curCycle (domains w d));
  _ ← require (c <? 2 ^ 63); mret c.

Definition setPrio (d p : Z) : P unit := upd_domain d (set_prio p).

(** ** Building the graph *)

(** [propagateDomain]: the recursion stops at events that have a domain. *)
Fixpoint propagateDomain (fuel : nat) (dom : Z) (e : nat) : P unit :=
  match fuel with
  | O => lift (Fail NoFuel)
  | Datatypes.S fuel =>
      x ← get e;
      _ ← require (domain x =? -1);
      _ ← upd e (set_domain dom);
      _ ← loop (fun _ c => x ← get c;
                  if domain x =? -1 then propagateDomain fuel dom c else mret tt)
            tt (visited x);
      require (visit_ok x)
  end.

Definition addChild (fuel : nat) (e child : nat) : P nat :=
  x ← get e;
  _ ← require (bool_decide (state x = EV_NONE \/ state x = EV_QUEUED));
  y ← get child;
  _ ← require (bool_decide (state y = EV_NONE));
  _ ← upd e (link child);
  x ← get e; y ← get child;
  _ ← (if negb (domain x =? -1) && (domain y =? -1) then propagateDomain fuel (domain x) child
       else mret tt);
  _ ← upd child (fun y => set_numParents (u32 (numParents y + 1)) y);
  mret child.

(** ** Running it *)

(** [TimingEvent::parentDone]. *)
Definition base_parentDone (e : nat) (startCycle : Z) : P unit :=
  _ ← upd e (fun x => set_cycle (Z.max (cycle x) startCycle) x);
  x ← get e;
  _ ← require (negb (numParents x =? 0));
  _ ← upd e (set_numParents (u32 (numParents x - 1)));
  x ← get e;
  if numParents x =? 0 then
    _ ← require (bool_decide (state x = EV_NONE));
    _ ← upd e (set_state EV_QUEUED);
    enqueue e (u64 (cycle x + preDelay x))
  else mret tt.

(** [CrossingEvent::markSrcEventDone] on event [ce]. *)
Definition markSrcEventDone (ce : nat) (cyc : Z) : P unit :=
  x ← get ce;
  match ekind x with
  | CrossingEvent srcDomain called _ r osc p pre post =>
      _ ← require (negb called);
      cur ← getCurCycle srcDomain;
      _ ← require (cur <=? cyc);
      upd ce (set_kind (CrossingEvent srcDomain true cyc r osc p pre post))
  | _ => stop
  end.

(** The overrides of [parentDone]; [done] is the method of that name. *)
Definition parentDone (done : nat -> Z -> P unit) (e : nat) (startCycle : Z) : P unit :=
  x ← get e;
  match ekind x with
  | Simple => base_parentDone e startCycle
  | DelayEvent =>
      _ ← upd e (fun x => set_cycle (Z.max (cycle x) startCycle) x);
      _ ← upd e (fun x => set_numParents (u32 (numParents x - 1)) x);
      x ← get e;
      if numParents x =? 0 then
        _ ← upd e (set_state EV_RUNNING);
        done e (u64 (cycle x + preDelay x))
      else mret tt
  | CrossingEvent srcDomain called doneCycle r osc p pre post =>
      let cyc := Z.max startCycle (minStartCycle x) in
      _ ← (if called && (doneCycle <? cyc) then
             upd e (set_kind (CrossingEvent srcDomain called cyc r osc p pre post))
           else mret tt);
      base_parentDone e cyc
  | CrossingSrcEvent ce =>
      _ ← require (numParents x =? 1);
      _ ← upd e (set_numParents 0);
      _ ← require (numChildren x =? 0);
      _ ← markSrcEventDone ce startCycle;
      x ← get e;
      _ ← require (bool_decide (state x = EV_NONE));
      _ ← upd e (set_state EV_RUNNING);
      done e startCycle
  end.

(** [done]; the recursion goes from a delay event to its children. *)
Fixpoint done (fuel : nat) (e : nat) (doneCycle : Z) : P unit :=
  match fuel with
  | O => lift (Fail NoFuel)
  | Datatypes.S fuel =>
      x ← get e;
      _ ← require (bool_decide (state x = EV_RUNNING));
      _ ← upd e (set_state EV_DONE);
      _ ← loop (fun _ c => parentDone (done fuel) c (u64 (doneCycle + postDelay x)))
            tt (visited x);
      _ ← require (visit_ok x);
      upd e freeEvent
  end.

Definition queue (e : nat) (nextCycle : Z) : P unit :=
  x ← get e;
  _ ← require (bool_decide (state x = EV_NONE) && (numParents x =? 0));
  _ ← upd e (set_state EV_QUEUED);
  enqueueSynced e nextCycle.

Definition requeue (e : nat) (nextCycle : Z) : P unit :=
  x ← get e;
  _ ← require (numParents x =? 0);
  _ ← require (bool_decide (state x = EV_RUNNING \/ state x = EV_HELD));
  _ ← upd e (set_state EV_QUEUED);
  enqueue e nextCycle.

Definition hold (e : nat) : P unit :=
  x ← get e;
  _ ← require (bool_decide (state x = EV_RUNNING)); upd e (set_state EV_HELD).
Definition release (e : nat) : P unit :=
  x ← get e;
  _ ← require (bool_decide (state x = EV_HELD)); upd e (set_state EV_RUNNING).

(** [CrossingEvent::simulate]; nobody else runs between the two reads of [called]. *)
Definition crossing_simulate (fuel : nat) (e : nat) (simCycle : Z) : P unit :=
  x ← get e;
  match ekind x with
  | CrossingEvent srcDomain called doneCycle r osc p preSlack postSlack =>
      if negb called then
        cur ← getCurCycle srcDomain;
        rec ← gets (fun w => recorders w r);
        let curSrcCycle := u64 (cur + preSlack + postSlack) in
        let coreRelCycle := u64 (getSlack osc rec + postSlack) in
        let nextCycle := Z.max coreRelCycle (Z.max curSrcCycle simCycle) in
        _ ← setPrio (domain x) (if nextCycle =? simCycle then 1 else 2);
        _ ← upd e (set_numParents 0);
        requeue e nextCycle
      else
        _ ← setPrio (domain x) 0;
        done fuel e (Z.max simCycle doneCycle)
  | _ => stop
  end.

Section Weave.
(** [simulate] of the subclasses defined elsewhere. *)
Context (simulate_other : nat -> Z -> P unit) (fuel : nat).

Definition simulate (e : nat) (simCycle : Z) : P unit :=
  x ← get e;
  match ekind x with
  | Simple => simulate_other e simCycle
  | CrossingEvent _ _ _ _ _ _ _ _ => crossing_simulate fuel e simCycle
  | DelayEvent | CrossingSrcEvent _ => stop
  end.

Definition run (e : nat) (startCycle : Z) : P unit :=
  x ← get e;
  _ ← require (bool_decide (state x = EV_NONE \/ state x = EV_QUEUED));
  _ ← upd e (set_state EV_RUNNING);
  x ← get e;
  _ ← require (minStartCycle x <=? startCycle);
  simulate e startCycle.

(** The PrioQueue calls of the loop. [fuel] bounds the search of [dequeue] too. *)
Definition pq_size (d : Z) : P Z := gets (fun w => PrioQueue.size (pq (domains w d))).
Definition pq_firstCycle (d : Z) : P Z :=
  q ← gets (fun w => pq (domains w d)); lift (PrioQueue.firstCycle PQ_BLOCKS q).
Definition pq_dequeue (d : Z) : P (nat * Z) :=
  q ← gets (fun w => pq (domains w d));
  r ← lift (PrioQueue.dequeue PQ_BLOCKS fuel q);
  match r with
  | Some (e, cyc, q) => _ ← upd_domain d (set_pq q); mret (e, cyc)
  | None => lift (Fail NoFuel)
  end.

(** The condition of the loop of [simulatePhaseThread] for a thread with one domain. *)
Definition pending (d : Z) : P bool :=
  n ← pq_size d;
  if n =? 0 then mret false
  else c ← pq_firstCycle d; l ← gets limit; mret (c <? l).

(** Its body; the result is what the thread ran. *)
Definition weave_step (d : Z) : P (nat * Z) :=
  domCycle ← gets (fun w => curCycle (domains w d));
  '(te, cyc) ← pq_dequeue d;
  _ ← require (domCycle <=? cyc);
  _ ← upd_domain d (set_curCycle cyc);
  _ ← run te cyc;
  n ← pq_size d; l ← gets limit;
  newCycle ← (if n =? 0 then mret l else pq_firstCycle d);
  _ ← require (cyc <=? newCycle);
  _ ← upd_domain d (set_curCycle newCycle);
  mret (te, cyc).

(** The loop, with the list of what it ran; at most [steps] iterations. *)
Fixpoint weave_loop (steps : nat) (d : Z) : P (list (nat * Z)) :=
  b ← pending d;
  if b : bool then
    match steps with
    | O => lift (Fail NoFuel)
    | Datatypes.S steps =>
        r ← weave_step d;
        l ← weave_loop steps d;
        mret (r :: l)
    end
  else mret [].

Definition simulatePhaseThread (steps : nat) (d : Z) : P (list (nat * Z)) :=
  r ← weave_loop steps d;
  l ← gets limit;
  _ ← upd_domain d (set_curCycle l);
  mret r.
End Weave.

(** ** The blocks of children *)

Definition mk_block (cs : list nat) : TimingEventBlock :=
  (Some <$> cs) ++ replicate (TIMING_BLOCK_EVENTS - length cs) None.

(** The representation: only the newest block may have free slots, at its end. *)
Inductive links_ok (e : TimingEvent) : Prop :=
  | no_child : numChildren e = 0 -> links_ok e
  | one_child c : numChildren e = 1 -> childLinks e = Child (Some c) -> links_ok e
  | many cs css :
      childLinks e = Children (mk_block cs :: (mk_block <$> css)) ->
      (1 <= length cs <= 3)%nat -> Forall (fun l => length l = 3%nat) css ->
      numChildren e = Z.of_nat (length cs + 3 * length css) -> 2 <= numChildren e ->
      links_ok e.

Lemma block_children_mk cs : block_children (mk_block cs) = cs.
Proof.
  unfold mk_block. generalize (TIMING_BLOCK_EVENTS - length cs)%nat as k. intros k.
  induction cs as [|c cs IH]; cbn; [by destruct k|by rewrite IH].
Qed.

Lemma concat_length3 (css : list (list nat)) :
  Forall (fun l => length l = 3%nat) css -> length (concat css) = (3 * length css)%nat.
Proof.
  induction 1 as [|l css Hl Hf IH]; cbn; [done|]. rewrite length_app, Hl, IH. lia.
Qed.

Lemma visited_many e cs css :
  childLinks e = Children (mk_block cs :: (mk_block <$> css)) -> 2 <= numChildren e ->
  visited e = cs ++ concat css.
Proof.
  intros Hl Hn. unfold visited. rewrite Hl.
  destruct (Z.eqb_spec (numChildren e) 0); [lia|]. destruct (Z.eqb_spec (numChildren e) 1); [lia|].
  cbn. rewrite block_children_mk. f_equal. clear. induction css as [|c css IH]; cbn; [done|].
  by rewrite block_children_mk, IH.
Qed.

Lemma links_count e : links_ok e -> Z.of_nat (length (visited e)) = numChildren e.
Proof.
  intros [Hn|c Hn Hl|cs css Hl Hc Hf Hn H2].
  - unfold visited. by rewrite Hn.
  - unfold visited. by rewrite Hn, Hl.
  - rewrite (visited_many e cs css) by done. rewrite length_app, concat_length3, Hn by done. lia.
Qed.

Lemma mk_block_insert c cs :
  (length cs < 3)%nat -> <[length cs := Some c]> (mk_block cs) = mk_block (cs ++ [c]).
Proof. intros H. destruct cs as [|x [|y [|z cs]]]; cbn in *; try done. lia. Qed.

(** Adding a child adds it to what [visitChildren] visits, and nothing else. *)
Lemma link_ok c e :
  links_ok e -> numChildren e + 1 < 2 ^ 32 ->
  links_ok (link c e) /\ numChildren (link c e) = numChildren e + 1 /\
  visited (link c e) ≡ₚ c :: visited e.
Proof.
  intros Hok Hr. unfold link. destruct Hok as [Hn|c0 Hn Hl|cs css Hl Hc Hf Hn H2].
  - rewrite Hn. cbn. split; [by eapply (one_child _ c)|]. split; [done|].
    unfold visited. by rewrite Hn.
  - rewrite Hn, Hl. cbn. split_and!; [|done|].
    + by apply (many _ [c0; c] []); cbn; [|lia|constructor| |].
    + unfold visited. rewrite Hn, Hl. cbn. by apply Permutation_swap.
  - destruct (Z.eqb_spec (numChildren e) 0); [lia|]. destruct (Z.eqb_spec (numChildren e) 1); [lia|].
    rewrite Hl. rewrite (visited_many e cs css) by done.
    rewrite (u32_id (numChildren e + 1)) by (unfold in_u32; lia).
    destruct (decide (length cs = 3)%nat) as [H3|H3].
    + assert (Hidx : Z.to_nat (numChildren e mod Z.of_nat TIMING_BLOCK_EVENTS) = 0%nat).
      { rewrite Hn, H3. replace (Z.of_nat (3 + 3 * length css)) with (Z.of_nat (1 + length css) * 3) by lia.
        by rewrite Z.mod_mul. }
      rewrite Hidx. cbn [decide]. rewrite decide_True by done. cbn [insert list_insert].
      set (e' := set_links _ _ _).
      assert (Hl' : childLinks e' = Children (mk_block [c] :: (mk_block <$> (cs :: css)))) by done.
      split_and!; [|done|].
      * apply (many _ [c] (cs :: css)); cbn; [done|lia|by constructor|lia|lia].
      * rewrite (visited_many e' [c] (cs :: css)) by (cbn; done || lia). cbn. done.
    + assert (Hidx : Z.to_nat (numChildren e mod Z.of_nat TIMING_BLOCK_EVENTS) = length cs).
      { rewrite Hn. rewrite Nat2Z.inj_add, Nat2Z.inj_mul, (Z.mul_comm (Z.of_nat 3)).
        change (Z.of_nat TIMING_BLOCK_EVENTS) with 3. change (Z.of_nat 3) with 3.
        rewrite Z.mod_add, Z.mod_small by lia. lia. }
      rewrite Hidx. rewrite decide_False by lia. rewrite mk_block_insert by lia.
      set (e' := set_links _ _ _). split_and!; [|done|].
      * apply (many _ (cs ++ [c]) css); cbn; [done|rewrite length_app; cbn; lia|done|
          rewrite length_app; cbn; lia|lia].
      * rewrite (visited_many e' (cs ++ [c]) css) by (cbn; done || lia).
        rewrite <- (app_assoc cs). symmetry. apply Permutation_middle.
Qed.

(** ** Counting over the events *)

Fixpoint total (f : nat -> nat) (n : nat) : nat :=
  match n with O => 0 | Datatypes.S n => total f n + f n end%nat.

Lemma total_ext f g n : (forall i, (i < n)%nat -> f i = g i) -> total f n = total g n.
Proof. induction n as [|n IH]; intros H; cbn; [done|]. rewrite IH, H by (intros; try apply H; lia). done. Qed.

(** Two functions that differ at one point. *)
Lemma total_point f g n x :
  (x < n)%nat -> (forall i, i <> x -> f i = g i) -> (total f n + g x = total g n + f x)%nat.
Proof.
  induction n as [|n IH]; intros Hx H; [lia|]. cbn. destruct (decide (x = n)) as [->|Hne].
  - rewrite (total_ext f g n) by (intros i Hi; apply H; lia). lia.
  - rewrite (H n) by lia. specialize (IH ltac:(lia) H). lia.
Qed.

Lemma total_pos f n x : (x < n)%nat -> (f x <= total f n)%nat.
Proof.
  induction n as [|n IH]; intros Hx; [lia|]. cbn. destruct (decide (x = n)) as [->|]; [lia|].
  specialize (IH ltac:(lia)). lia.
Qed.

Definition occurs (x : nat) (l : list nat) : nat := count_occ Nat.eq_dec l x.

Lemma occurs_here x l : occurs x (x :: l) <> 0%nat.
Proof. unfold occurs. cbn. by destruct (Nat.eq_dec x x). Qed.

(** The number of events in a state of [p], and of links to [x] from events that
    are not done. *)
Definition cnt (p : EventState -> bool) (w : sim) : nat :=
  total (fun e => if p (state (ev w e)) then 1%nat else 0%nat) (numEvents w).
Definition not_done (s : EventState) : bool := bool_decide (s <> EV_DONE).
Definition is_none (s : EventState) : bool := bool_decide (s = EV_NONE).
Definition indegree (w : sim) (x : nat) : nat :=
  total (fun p => if not_done (state (ev w p)) then occurs x (visited (ev w p)) else 0%nat)
    (numEvents w).

(** The events of [w'] are those of [w] with event [e] replaced by [x]. *)
Record only (w w' : sim) (e : nat) (x : TimingEvent) : Prop := {
  o_this : ev w' e = x;
  o_other y : y <> e -> ev w' y = ev w y;
  o_num : numEvents w' = numEvents w
}.

Definition env (w : sim) := (domains w, numDomains w, lastLimit w, inCSim w, phaseLength w).

Lemma wp_upd e f w (Q : unit -> sim -> Prop) :
  (forall w', only w w' e (f (ev w e)) -> env w' = env w -> Q tt w') -> wp (upd e f) w Q.
Proof.
  intros H. apply wp_modify, H; [|done]. split; cbn; try done; [by rewrite fn_lookup_insert|].
  intros y Hy. by rewrite fn_lookup_insert_ne.
Qed.

Lemma only_trans w w1 w2 e x1 x2 : only w w1 e x1 -> only w1 w2 e x2 -> only w w2 e x2.
Proof.
  intros [A1 A2 A3] [B1 B2 B3]. split; try congruence.
  intros y Hy. by rewrite B2, A2.
Qed.

Lemma cnt_only p w w' e x :
  only w w' e x -> (e < numEvents w)%nat ->
  (cnt p w' + (if p (state (ev w e)) then 1 else 0) = cnt p w + (if p (state x) then 1 else 0))%nat.
Proof.
  intros Ho He. unfold cnt. rewrite (o_num _ _ _ _ Ho).
  rewrite (total_point _ (fun e => if p (state (ev w e)) then 1%nat else 0%nat) _ e He).
  - by rewrite (o_this _ _ _ _ Ho).
  - intros i Hi. by rewrite (o_other _ _ _ _ Ho).
Qed.

Lemma indegree_only w w' e x y :
  only w w' e x -> (e < numEvents w)%nat ->
  (indegree w' y + (if not_done (state (ev w e)) then occurs y (visited (ev w e)) else 0) =
   indegree w y + (if not_done (state x) then occurs y (visited x) else 0))%nat.
Proof.
  intros Ho He. unfold indegree. rewrite (o_num _ _ _ _ Ho).
  rewrite (total_point _ (fun p => if not_done (state (ev w p))
    then occurs y (visited (ev w p)) else 0%nat) _ e He).
  - by rewrite (o_this _ _ _ _ Ho).
  - intros i Hi. by rewrite (o_other _ _ _ _ Ho).
Qed.

(** ** Propagation of a completion

    A domain [d] without crossings: [D] bounds the delays of an event, [Lo] is a
    cycle the simulation has reached and [Bd] one that it does not pass. *)

Section Propagate.
Context (d D Lo Bd : Z).

(** The graph is consistent, given the signals [pend] still to be delivered. *)
Record wf (w : sim) (pend : list nat) : Prop := {
  wf_links e : (e < numEvents w)%nat -> links_ok (ev w e);
  wf_kids e k : (e < numEvents w)%nat -> state (ev w e) <> EV_DONE -> k ∈ visited (ev w e) ->
    (k < numEvents w)%nat;
  wf_pend k : k ∈ pend -> (k < numEvents w)%nat;
  wf_kind e : (e < numEvents w)%nat -> ekind (ev w e) = Simple \/ ekind (ev w e) = DelayEvent;
  wf_dom e : (e < numEvents w)%nat -> domain (ev w e) = d;
  wf_parents e : (e < numEvents w)%nat ->
    numParents (ev w e) = Z.of_nat (indegree w e + occurs e pend) /\ numParents (ev w e) < 2 ^ 32;
  wf_none e : (e < numEvents w)%nat -> numParents (ev w e) <> 0 -> state (ev w e) = EV_NONE;
  wf_delays e : (e < numEvents w)%nat -> 0 <= preDelay (ev w e) /\ 0 <= postDelay (ev w e) /\
    preDelay (ev w e) + postDelay (ev w e) <= D;
  wf_time e : (e < numEvents w)%nat -> state (ev w e) <> EV_DONE ->
    0 <= cycle (ev w e) /\ cycle (ev w e) + D * Z.of_nat (cnt not_done w) <= Bd
}.

(** The simulator can take events of the domain, whose queue holds [l]. *)
Record ctx (w : sim) (l : list (Z * nat)) : Prop := {
  c_in : inCSim w = true;
  c_dom : 0 <= d < numDomains w;
  c_last : lastLimit w <= Lo;
  c_cur : curCycle (domains w d) <= Lo;
  c_lo : 0 <= Lo;
  c_top : Bd + D < lastLimit w + 10 * phaseLength w + 1000000 < 2 ^ 64;
  c_holds : PrioQueue.holds PQ_BLOCKS (pq (domains w d)) l;
  c_block : PrioQueue.curBlock (pq (domains w d)) * 64 <= Lo;
  c_room : Z.of_nat (length l + cnt is_none w) < 2 ^ 64
}.

Definition advance (s s' : EventState) : Prop :=
  s' = s \/ (s = EV_NONE /\ (s' = EV_QUEUED \/ s' = EV_DONE)) \/ (s = EV_RUNNING /\ s' = EV_DONE).

(** What a propagation does, [new] being what it enqueues. *)
Record adv (w w' : sim) (new : list (Z * nat)) : Prop := {
  a_num : numEvents w' = numEvents w;
  a_state x : advance (state (ev w x)) (state (ev w' x));
  a_cycle x : cycle (ev w x) <= cycle (ev w' x);
  a_frozen x : state (ev w x) = EV_QUEUED -> ev w' x = ev w x;
  a_new q x : (q, x) ∈ new -> (x < numEvents w)%nat /\ state (ev w x) = EV_NONE /\
    state (ev w' x) = EV_QUEUED /\ numParents (ev w' x) = 0 /\
    q = cycle (ev w' x) + preDelay (ev w' x);
  a_all x : state (ev w x) = EV_NONE -> state (ev w' x) = EV_QUEUED -> x ∈ new.*2;
  a_nodup : NoDup new.*2;
  a_ready x : state (ev w x) = EV_NONE -> numParents (ev w x) <> 0 ->
    numParents (ev w' x) = 0 -> state (ev w' x) <> EV_NONE
}.

Lemma advance_refl s : advance s s.
Proof. by left. Qed.

Lemma advance_trans s1 s2 s3 : advance s1 s2 -> advance s2 s3 -> advance s1 s3.
Proof. unfold advance. intuition (subst; try congruence; auto). Qed.

Lemma adv_refl w : adv w w [].
Proof.
  split; try done.
  - intros x. apply advance_refl.
  - intros q x Hx. by apply elem_of_nil in Hx.
  - intros x H1 H2. congruence.
  - constructor.
Qed.

Lemma adv_trans w w1 w2 new1 new2 :
  adv w w1 new1 -> adv w1 w2 new2 -> adv w w2 (new2 ++ new1).
Proof.
  intros A B. split.
  - by rewrite (a_num _ _ _ B), (a_num _ _ _ A).
  - intros x. eapply advance_trans; [apply A|apply B].
  - intros x. etransitivity; [apply A|apply B].
  - intros x Hx. rewrite (a_frozen _ _ _ B); [by apply (a_frozen _ _ _ A)|].
    by rewrite (a_frozen _ _ _ A).
  - intros q x [Hx|Hx]%elem_of_app.
    + destruct (a_new _ _ _ B q x Hx) as (H1 & H2 & H3 & H4 & H5).
      rewrite <- (a_num _ _ _ A). split_and!; try done.
      destruct (a_state _ _ _ A x) as [He|[[He _]|[He Hd]]]; congruence.
    + destruct (a_new _ _ _ A q x Hx) as (H1 & H2 & H3 & H4 & H5).
      rewrite (a_frozen _ _ _ B) by done. by split_and!.
  - intros x H1 H2. rewrite fmap_app. apply elem_of_app.
    destruct (decide (state (ev w1 x) = EV_NONE)) as [Hn|Hn].
    + left. by apply (a_all _ _ _ B).
    + right. apply (a_all _ _ _ A); [done|].
      destruct (a_state _ _ _ A x) as [He|[[_ [He|He]]|[He Hd]]]; [congruence|done| |congruence].
      exfalso. destruct (a_state _ _ _ B x) as [He'|[[He' _]|[He' _]]]; congruence.
  - rewrite fmap_app. apply NoDup_app. split_and!; [apply B| |apply A].
    intros x Hx2 Hx1. apply list_elem_of_fmap in Hx1 as ([q1 y1] & -> & Hx1).
    apply list_elem_of_fmap in Hx2 as ([q2 y2] & Hy & Hx2). cbn in Hy. subst y2.
    destruct (a_new _ _ _ A q1 y1 Hx1) as (_ & _ & Hq & _).
    destruct (a_new _ _ _ B q2 y1 Hx2) as (_ & Hq' & _). cbn in *. congruence.
  - intros x H1 H2 H3 Hn. destruct (decide (state (ev w1 x) = EV_NONE)) as [He|He].
    + apply (a_ready _ _ _ B x); [done| |done|done]. intros H0.
      by apply (a_ready _ _ _ A x).
    + destruct (a_state _ _ _ B x) as [He'|[[He' _]|[He' Hd']]]; congruence.
Qed.

Lemma not_done_true s : s <> EV_DONE -> not_done s = true.
Proof. intros H. by apply bool_decide_eq_true. Qed.

(** Delivering a signal to [k]. *)
Lemma wf_signal w w' k pend x :
  wf w (k :: pend) -> only w w' k x ->
  childLinks x = childLinks (ev w k) -> numChildren x = numChildren (ev w k) ->
  ekind x = ekind (ev w k) -> domain x = domain (ev w k) ->
  preDelay x = preDelay (ev w k) -> postDelay x = postDelay (ev w k) ->
  numParents x = numParents (ev w k) - 1 ->
  (numParents x <> 0 -> state x = EV_NONE) -> state x <> EV_DONE ->
  0 <= cycle x -> cycle x + D * Z.of_nat (cnt not_done w) <= Bd ->
  wf w' pend /\ cnt not_done w' = cnt not_done w.
Proof.
  intros [W1 W2 W3 W4 W5 W6 W7 W8 W9] Ho El En Ek Ed Epre Epost Ep Es Hnd Hc Ht.
  assert (Hk : (k < numEvents w)%nat) by (apply W3; left).
  pose proof (occurs_here k pend) as Hp.
  destruct (W6 k Hk) as [Hpk Hpk2]. assert (Hsk : state (ev w k) = EV_NONE) by (apply W7; [done|lia]).
  assert (Hv : visited x = visited (ev w k)) by (unfold visited; by rewrite El, En).
  assert (Hcnt : cnt not_done w' = cnt not_done w).
  { pose proof (cnt_only not_done w w' k x Ho Hk) as H.
    rewrite Hsk, not_done_true in H by done. rewrite not_done_true in H by done. lia. }
  assert (Hind : forall y, indegree w' y = indegree w y).
  { intros y. pose proof (indegree_only w w' k x y Ho Hk) as H.
    rewrite Hsk, Hv, !not_done_true in H by done. lia. }
  pose proof (o_num _ _ _ _ Ho) as On. split; [|done].
  assert (Hcase : forall (Q : nat -> TimingEvent -> Prop), Q k x ->
    (forall e, (e < numEvents w)%nat -> e <> k -> Q e (ev w e)) ->
    forall e, (e < numEvents w)%nat -> Q e (ev w' e)).
  { intros Q Hx Hy e He. destruct (decide (e = k)) as [->|Hne];
      [by rewrite (o_this _ _ _ _ Ho)|rewrite (o_other _ _ _ _ Ho) by done; by apply Hy]. }
  split; rewrite ?On, ?Hcnt.
  - apply (Hcase (fun _ y => links_ok y)); [|intros; by apply W1].
    destruct (W1 k Hk) as [Hn|c Hn Hl|cs css Hl Hcs Hf Hn H2]; rewrite <- ?En, <- ?El in *;
      [by apply no_child|by eapply one_child|by eapply many].
  - intros e j He Hs. revert Hs. revert j. revert e He.
    apply (Hcase (fun _ y => forall j, state y <> EV_DONE -> j ∈ visited y -> (j < numEvents w)%nat)).
    + intros j _ Hj. rewrite Hv in Hj. apply (W2 k); [done|congruence|done].
    + intros e He _ j Hs Hj. by apply (W2 e).
  - intros j Hj. apply W3. by right.
  - apply (Hcase (fun _ y => ekind y = Simple \/ ekind y = DelayEvent));
      [rewrite Ek; by apply W4|intros; by apply W4].
  - apply (Hcase (fun _ y => domain y = d)); [rewrite Ed; by apply W5|intros; by apply W5].
  - apply (Hcase (fun e y => numParents y = Z.of_nat (indegree w' e + occurs e pend) /\
      numParents y < 2 ^ 32)); rewrite ?Hind.
    + unfold occurs in *. cbn in Hpk. destruct (Nat.eq_dec k k); [|done]. lia.
    + intros e He Hne. rewrite Hind. destruct (W6 e He) as [H1 H2]. split; [|done].
      rewrite H1. unfold occurs. cbn. by destruct (Nat.eq_dec k e).
  - apply (Hcase (fun _ y => numParents y <> 0 -> state y = EV_NONE)); [done|].
    intros e He _. by apply W7.
  - apply (Hcase (fun _ y => 0 <= preDelay y /\ 0 <= postDelay y /\ preDelay y + postDelay y <= D));
      [rewrite Epre, Epost; by apply W8|intros; by apply W8].
  - apply (Hcase (fun _ y => state y <> EV_DONE ->
      0 <= cycle y /\ cycle y + D * Z.of_nat (cnt not_done w) <= Bd)); [done|].
    intros e He _. by apply W9.
Qed.

(** Marking a running event done hands its children over as signals to deliver. *)
Lemma wf_finish w w' e pend :
  wf w pend -> only w w' e (set_state EV_DONE (ev w e)) ->
  (e < numEvents w)%nat -> state (ev w e) = EV_RUNNING -> 0 <= D ->
  wf w' (visited (ev w e) ++ pend) /\ Datatypes.S (cnt not_done w') = cnt not_done w.
Proof.
  intros [W1 W2 W3 W4 W5 W6 W7 W8 W9] Ho He Hs HD. pose proof (o_num _ _ _ _ Ho) as On.
  assert (Hcnt : Datatypes.S (cnt not_done w') = cnt not_done w).
  { pose proof (cnt_only not_done w w' e _ Ho He) as H. rewrite Hs in H.
    change (not_done (state (set_state EV_DONE (ev w e)))) with false in H.
    change (not_done EV_RUNNING) with true in H. cbv iota in H. lia. }
  assert (Hind : forall y, (indegree w' y + occurs y (visited (ev w e)) = indegree w y)%nat).
  { intros y. pose proof (indegree_only w w' e _ y Ho He) as H. rewrite Hs in H.
    change (not_done (state (set_state EV_DONE (ev w e)))) with false in H.
    change (not_done EV_RUNNING) with true in H. cbv iota in H. lia. }
  split; [|done].
  assert (Hcase : forall (Q : nat -> TimingEvent -> Prop), Q e (set_state EV_DONE (ev w e)) ->
    (forall y, (y < numEvents w)%nat -> y <> e -> Q y (ev w y)) ->
    forall y, (y < numEvents w)%nat -> Q y (ev w' y)).
  { intros Q Hx Hy y Hye. destruct (decide (y = e)) as [->|Hne];
      [by rewrite (o_this _ _ _ _ Ho)|rewrite (o_other _ _ _ _ Ho) by done; by apply Hy]. }
  split; rewrite ?On.
  - apply (Hcase (fun _ y => links_ok y)); [|intros; by apply W1].
    destruct (W1 e He) as [Hn|c Hn Hl|cs css Hl Hcs Hf Hn H2];
      [by apply no_child|by eapply one_child|by eapply many].
  - intros y j Hy Hst. revert Hst. revert j. revert y Hy.
    apply (Hcase (fun _ y => forall j, state y <> EV_DONE -> j ∈ visited y -> (j < numEvents w)%nat)).
    + done.
    + intros y Hy _ j Hst Hj. by apply (W2 y).
  - intros j [Hj|Hj]%elem_of_app; [|by apply W3]. apply (W2 e); [done|congruence|done].
  - apply (Hcase (fun _ y => ekind y = Simple \/ ekind y = DelayEvent));
      [by apply W4|intros; by apply W4].
  - apply (Hcase (fun _ y => domain y = d)); [by apply W5|intros; by apply W5].
  - assert (Hpar : forall y, (y < numEvents w)%nat ->
      numParents (ev w y) = Z.of_nat (indegree w' y + occurs y (visited (ev w e) ++ pend)) /\
      numParents (ev w y) < 2 ^ 32).
    { intros y Hy. destruct (W6 y Hy) as [H1 H2]. split; [|done]. specialize (Hind y).
      unfold occurs in *. rewrite count_occ_app. lia. }
    apply (Hcase (fun y x => numParents x = Z.of_nat (indegree w' y + occurs y (visited (ev w e) ++ pend))
      /\ numParents x < 2 ^ 32)); [by apply Hpar|intros; by apply Hpar].
  - apply (Hcase (fun _ y => numParents y <> 0 -> state y = EV_NONE)).
    + cbn. intros Hne. apply W7 in Hne; [congruence|done].
    + intros y Hy _. by apply W7.
  - apply (Hcase (fun _ y => 0 <= preDelay y /\ 0 <= postDelay y /\ preDelay y + postDelay y <= D));
      [by apply W8|intros; by apply W8].
  - apply (Hcase (fun _ y => state y <> EV_DONE ->
      0 <= cycle y /\ cycle y + D * Z.of_nat (cnt not_done w') <= Bd)); [done|].
    intros y Hy _ Hst. destruct (W9 y Hy Hst). split; [done|]. nia.
Qed.

(** Freeing a done event. *)
Lemma wf_free w w' e pend :
  wf w pend -> only w w' e (freeEvent (ev w e)) ->
  (e < numEvents w)%nat -> state (ev w e) = EV_DONE -> wf w' pend.
Proof.
  intros [W1 W2 W3 W4 W5 W6 W7 W8 W9] Ho He Hs. pose proof (o_num _ _ _ _ Ho) as On.
  assert (Hst : forall y, state (ev w' y) = state (ev w y)).
  { intros y. destruct (decide (y = e)) as [->|Hne]; [|by rewrite (o_other _ _ _ _ Ho)].
    rewrite (o_this _ _ _ _ Ho). unfold freeEvent. by destruct (1 <? _). }
  assert (Hcnt : cnt not_done w' = cnt not_done w).
  { unfold cnt. rewrite On. apply total_ext. intros y _. by rewrite Hst. }
  assert (Hind : forall y, indegree w' y = indegree w y).
  { intros y. pose proof (indegree_only w w' e _ y Ho He) as H.
    assert (Hse : state (freeEvent (ev w e)) = EV_DONE) by (unfold freeEvent; by destruct (1 <? _)).
    rewrite Hs, Hse in H. change (not_done EV_DONE) with false in H. cbv iota in H. lia. }
  assert (Hcase : forall (Q : nat -> TimingEvent -> Prop), Q e (freeEvent (ev w e)) ->
    (forall y, (y < numEvents w)%nat -> y <> e -> Q y (ev w y)) ->
    forall y, (y < numEvents w)%nat -> Q y (ev w' y)).
  { intros Q Hx Hy y Hye. destruct (decide (y = e)) as [->|Hne];
      [by rewrite (o_this _ _ _ _ Ho)|rewrite (o_other _ _ _ _ Ho) by done; by apply Hy]. }
  assert (Hfree : forall (Q : TimingEvent -> Prop), Q (ev w e) -> Q (set_links (Children []) 0 (ev w e)) ->
    Q (freeEvent (ev w e))) by (intros Q H1 H2; unfold freeEvent; by destruct (1 <? _)).
  split; rewrite ?On, ?Hcnt; try done.
  - apply (Hcase (fun _ y => links_ok y)); [|intros; by apply W1].
    apply Hfree; [by apply W1|by apply no_child].
  - intros y j Hy Hsy Hj. rewrite Hst in Hsy. destruct (decide (y = e)) as [->|Hne]; [done|].
    rewrite (o_other _ _ _ _ Ho) in Hj by done. by apply (W2 y).
  - apply (Hcase (fun _ y => ekind y = Simple \/ ekind y = DelayEvent)); [|intros; by apply W4].
    apply Hfree; by apply W4.
  - apply (Hcase (fun _ y => domain y = d)); [|intros; by apply W5]. apply Hfree; by apply W5.
  - apply (Hcase (fun y x => numParents x = Z.of_nat (indegree w' y + occurs y pend)
      /\ numParents x < 2 ^ 32)).
    + rewrite Hind. apply Hfree; by apply W6.
    + intros y Hy _. rewrite Hind. by apply W6.
  - apply (Hcase (fun _ y => numParents y <> 0 -> state y = EV_NONE)); [|intros y Hy _; by apply W7].
    apply Hfree; by apply W7.
  - apply (Hcase (fun _ y => 0 <= preDelay y /\ 0 <= postDelay y /\ preDelay y + postDelay y <= D));
      [|intros; by apply W8]. apply Hfree; by apply W8.
  - apply (Hcase (fun _ y => state y <> EV_DONE ->
      0 <= cycle y /\ cycle y + D * Z.of_nat (cnt not_done w) <= Bd)); [|intros y Hy _; by apply W9].
    apply Hfree; by apply W9.
Qed.

Lemma ctx_only w w' l e x :
  ctx w l -> only w w' e x -> env w' = env w -> (e < numEvents w)%nat ->
  (state x = EV_NONE -> state (ev w e) = EV_NONE) -> ctx w' l.
Proof.
  intros [C1 C2 C3 C4 C5 C6 C7 C8 C9] Ho [= E1 E2 E3 E4 E5] He Hs.
  assert (Hc : (cnt is_none w' <= cnt is_none w)%nat).
  { pose proof (cnt_only is_none w w' e x Ho He) as H. unfold is_none at 2 4 in H.
    destruct (bool_decide_reflect (state x = EV_NONE)) as [Hn|Hn].
    - rewrite bool_decide_true in H by auto. lia.
    - destruct (bool_decide (state (ev w e) = EV_NONE)); lia. }
  split; rewrite ?E1, ?E2, ?E3, ?E4, ?E5; try done. lia.
Qed.

Lemma pq_blocks : 2 <= PQ_BLOCKS < 2 ^ 32.
Proof. unfold PQ_BLOCKS. lia. Qed.

Lemma enqueue_curBlock (e : nat) c q q' :
  PrioQueue.enqueue PQ_BLOCKS e c q = Ok q' -> PrioQueue.curBlock q' = PrioQueue.curBlock q.
Proof.
  unfold PrioQueue.enqueue. destruct (_ <=? c / 64); cbn [assert_that mbind res_bind]; [|done].
  intros [= <-]. by destruct (_ <? _).
Qed.

(** [enqueue] takes an event without parents at a cycle the simulation can reach. *)
Lemma enqueue_ok w l k q :
  ctx w l -> (k < numEvents w)%nat -> domain (ev w k) = d -> numParents (ev w k) = 0 ->
  Lo <= q <= Bd + D -> Z.of_nat (length l + 1 + cnt is_none w) < 2 ^ 64 ->
  wp (enqueue k q) w (fun _ w' =>
    only w w' k (set_privCycle q (ev w k)) /\ ctx w' ((q, k) :: l)).
Proof.
  intros [C1 C2 C3 C4 C5 C6 C7 C8 C9] Hk Hd Hp Hq Hroom. unfold enqueue.
  wp_steps; [done|apply Z.leb_le; lia
    |apply Z.ltb_lt; rewrite u64_id by (unfold in_u64; lia); lia|].
  unfold get. wp_steps; [rewrite Hd; apply Z.leb_le; lia|].
  apply wp_upd. intros w1 Ho He. rewrite Hp, Hd.
  assert (Hctx : ctx w1 l) by (eapply (ctx_only w w1 l k); [done|exact Ho|done|done|done]).
  destruct Hctx as [D1 D2 D3 D4 D5 D6 D7 D8 D9].
  wp_steps; [done|apply negb_true_iff, Z.eqb_neq; lia|apply Z.ltb_lt; lia|].
  unfold pq_enqueue. wp_steps.
  destruct (PrioQueue.enqueue_holds PQ_BLOCKS pq_blocks (pq (domains w1 d)) l k q D7)
    as (q' & Hq' & Hh).
  { lia. }
  { rewrite (PrioQueue.h_size _ _ _ (proj1 D7)). lia. }
  eapply wp_lift; [exact Hq'|]. apply wp_modify.
  pose proof (enqueue_curBlock _ _ _ _ Hq') as Hcb. split.
  - destruct Ho as [O1 O2 O3]. split; cbn; done.
  - assert (Hcnt : cnt is_none w1 = cnt is_none w).
    { pose proof (cnt_only is_none w w1 k _ Ho Hk) as H. 
      change (state (set_privCycle q (ev w k))) with (state (ev w k)) in H. lia. }
    split; cbn; rewrite ?fn_lookup_insert; cbn; try done; try lia.
    unfold cnt in *. lia.
Qed.

(** What a propagation from [w] ends in, [pend] being the signals left. *)
Definition settled (w : sim) (l : list (Z * nat)) (pend : list nat) (w' : sim) : Prop :=
  exists new, wf w' pend /\ ctx w' (new ++ l) /\ adv w w' new.

Lemma adv_only w w' k x new :
  only w w' k x -> advance (state (ev w k)) (state x) -> cycle (ev w k) <= cycle x ->
  (state (ev w k) = EV_QUEUED -> x = ev w k) ->
  (new = [] /\ (state (ev w k) = EV_NONE -> state x <> EV_QUEUED) \/
   new = [(cycle x + preDelay x, k)] /\ (k < numEvents w)%nat /\ state (ev w k) = EV_NONE /\
     state x = EV_QUEUED /\ numParents x = 0) ->
  (numParents x <> 0 \/ state x <> EV_NONE \/ numParents (ev w k) = 0) ->
  adv w w' new.
Proof.
  intros [O1 O2 O3] Ha Hc Hf Hn Hr.
  assert (Hcase : forall (Q : nat -> TimingEvent -> Prop), Q k x ->
    (forall y, y <> k -> Q y (ev w y)) -> forall y, Q y (ev w' y)).
  { intros Q Hx Hy y. destruct (decide (y = k)) as [->|Hne];
      [by rewrite O1|rewrite O2 by done; by apply Hy]. }
  split; [done|..].
  - by apply (Hcase (fun y z => advance (state (ev w y)) (state z))); [|intros; apply advance_refl].
  - by apply (Hcase (fun y z => cycle (ev w y) <= cycle z)).
  - by apply (Hcase (fun y z => state (ev w y) = EV_QUEUED -> z = ev w y)).
  - intros q y Hy. destruct Hn as [[-> _]|(-> & Hk & Hs & Hs' & Hp)].
    + by apply elem_of_nil in Hy.
    + apply list_elem_of_singleton in Hy as [= -> ->]. rewrite O1. by split_and!.
  - apply (Hcase (fun y z => state (ev w y) = EV_NONE -> state z = EV_QUEUED -> y ∈ new.*2)).
    + destruct Hn as [[-> Hn]|(-> & _)]; [intros H1 H2; by destruct (Hn H1)|by left].
    + intros y Hy H1 H2. congruence.
  - destruct Hn as [[-> _]|(-> & _)]; [constructor|apply NoDup_singleton].
  - apply (Hcase (fun y z => state (ev w y) = EV_NONE -> numParents (ev w y) <> 0 ->
      numParents z = 0 -> state z <> EV_NONE)); [|done].
    intros H1 H2 H3. destruct Hr as [Hr|[Hr|Hr]]; done.
Qed.

(** What [done] with less fuel does; the induction hypothesis. *)
Definition done_spec (fuel : nat) : Prop := forall w l pend e c,
  wf w pend -> ctx w l -> (e < numEvents w)%nat -> state (ev w e) = EV_RUNNING ->
  Lo <= c -> c + postDelay (ev w e) + D * (Z.of_nat (cnt not_done w) - 1) <= Bd ->
  (cnt not_done w <= fuel)%nat ->
  wp (done fuel e c) w (fun _ w' => settled w l pend w' /\ state (ev w' e) = EV_DONE /\
    forall k, k ∈ visited (ev w e) -> c + postDelay (ev w e) <= cycle (ev w' k)).

Lemma base_parentDone_ok w l pend k s :
  wf w (k :: pend) -> ctx w l -> Lo <= s -> 0 <= D -> s + D * Z.of_nat (cnt not_done w) <= Bd ->
  wp (base_parentDone k s) w (fun _ w' => settled w l pend w' /\ s <= cycle (ev w' k)).
Proof.
  intros Hwf Hctx Hs HD Ht. pose proof Hwf as [W1 W2 W3 W4 W5 W6 W7 W8 W9].
  assert (Hk : (k < numEvents w)%nat) by (apply W3; left).
  destruct (W6 k Hk) as [Hp Hp2].
  assert (Hne : numParents (ev w k) <> 0).
  { pose proof (occurs_here k pend). lia. }
  assert (Hst : state (ev w k) = EV_NONE) by (by apply W7).
  destruct (W9 k Hk ltac:(congruence)) as [Hc0 Hct]. destruct (W8 k Hk) as (Hd1 & Hd2 & Hd3).
  pose proof (c_lo _ _ Hctx) as HLo. pose proof (c_top _ _ Hctx) as Htop.
  unfold base_parentDone, get. apply wp_bind, wp_upd. intros w1 Ho1 He1. wp_steps.
  { rewrite (o_this _ _ _ _ Ho1). cbn. apply negb_true_iff, Z.eqb_neq. done. }
  apply wp_upd. intros w2 Ho2 He2. pose proof (only_trans _ _ _ _ _ _ Ho1 Ho2) as Ho. wp_steps.
  rewrite (o_this _ _ _ _ Ho) in *. rewrite (o_this _ _ _ _ Ho1) in Ho |- *. cbn in Ho |- *.
  rewrite (u32_id (numParents (ev w k) - 1)) in * by (unfold in_u32; lia).
  destruct (Z.eqb_spec (numParents (ev w k) - 1) 0) as [H0|H1].
  - rewrite Hst. wp_steps; [done|]. apply wp_upd. intros w3 Ho3 He3.
    rewrite (o_this _ _ _ _ Ho) in Ho3. pose proof (only_trans _ _ _ _ _ _ Ho Ho3) as Ho'.
    cbn in Ho'. set (q := Z.max (cycle (ev w k)) s + preDelay (ev w k)).
    rewrite u64_id by (unfold in_u64; nia). change (Z.max _ _ + preDelay _) with q.
    eapply wp_mono; [apply (enqueue_ok w3 l k q)|].
    + eapply (ctx_only w w3); [done|exact Ho'|congruence|done|done].
    + by rewrite (o_num _ _ _ _ Ho').
    + rewrite (o_this _ _ _ _ Ho'). cbn. by apply W5.
    + rewrite (o_this _ _ _ _ Ho'). cbn. lia.
    + unfold q. nia.
    + pose proof (c_room _ _ Hctx). pose proof (cnt_only is_none w w3 k _ Ho' Hk) as Hcn.
      rewrite Hst in Hcn. change (is_none EV_NONE) with true in Hcn.
      match type of Hcn with context [is_none (state ?x)] =>
        change (is_none (state x)) with false in Hcn end.
      cbv iota in Hcn. lia.
    + intros _ w4 [Ho4 Hctx4]. pose proof (only_trans _ _ _ _ _ _ Ho' Ho4) as Hof.
      rewrite (o_this _ _ _ _ Ho') in Hof. cbn in Hof.
      destruct (wf_signal w w4 k pend _ Hwf Hof) as [Hwf4 _]; cbn; try done; try lia; try nia.
      split; [|rewrite (o_this _ _ _ _ Hof); cbn; lia].
      exists [(q, k)]. split_and!; [done|done|].
      eapply adv_only; [exact Hof|..]; cbn; rewrite ?Hst.
      * right; left. split; [done|by left].
      * lia.
      * done.
      * right. by split_and!.
      * right; by left.
  - wp_steps. destruct (wf_signal w w2 k pend _ Hwf Ho) as [Hwf2 _]; cbn; try done; try lia; try congruence.
    split; [|rewrite (o_this _ _ _ _ Ho); cbn; lia].
    exists []. split_and!; [done| |].
    + cbn. eapply (ctx_only w w2); [done|exact Ho|congruence|done|done].
    + eapply adv_only; [exact Ho|..]; cbn; rewrite ?Hst; try done.
      * apply advance_refl.
      * lia.
      * left. split; done.
      * left. lia.
Qed.

Lemma total_le f g n : (forall i, (f i <= g i)%nat) -> (total f n <= total g n)%nat.
Proof. intros H. induction n as [|n IH]; cbn; [lia|]. specialize (H n). lia. Qed.

Lemma adv_cnt w w' new : adv w w' new -> (cnt not_done w' <= cnt not_done w)%nat.
Proof.
  intros A. unfold cnt. rewrite (a_num _ _ _ A). apply total_le. intros x.
  destruct (decide (state (ev w x) = EV_DONE)) as [Hd|Hd].
  - destruct (a_state _ _ _ A x) as [->|[[He _]|[He _]]]; [lia|congruence..].
  - rewrite (not_done_true _ Hd). destruct (not_done _); lia.
Qed.

(** A delay event that starts running and completes. *)
Lemma adv_run w w1 w' k x new :
  only w w1 k x -> state (ev w k) = EV_NONE -> state x = EV_RUNNING ->
  cycle (ev w k) <= cycle x -> adv w1 w' new -> state (ev w' k) = EV_DONE -> adv w w' new.
Proof.
  intros [O1 O2 O3] Hs Hx Hc A Hd. split.
  - rewrite <- O3. apply A.
  - intros y. destruct (decide (y = k)) as [->|Hne].
    + rewrite Hs, Hd. right; left. split; [done|by right].
    + rewrite <- O2 by done. apply A.
  - intros y. destruct (decide (y = k)) as [->|Hne].
    + pose proof (a_cycle _ _ _ A k) as H. rewrite O1 in H. lia.
    + rewrite <- O2 by done. apply A.
  - intros y Hy. destruct (decide (y = k)) as [->|Hne]; [congruence|].
    rewrite <- (O2 y) in * by done. by apply (a_frozen _ _ _ A).
  - intros q y Hy. destruct (a_new _ _ _ A q y Hy) as (H1 & H2 & H3 & H4 & H5).
    destruct (decide (y = k)) as [->|Hne]; [congruence|]. rewrite <- O2, <- O3 by done. by split_and!.
  - intros y H1 H2. destruct (decide (y = k)) as [->|Hne]; [congruence|].
    rewrite <- O2 in H1 by done. by apply (a_all _ _ _ A).
  - apply A.
  - intros y H1 H2 H3. destruct (decide (y = k)) as [->|Hne]; [congruence|].
    rewrite <- O2 in H1, H2 by done. by apply (a_ready _ _ _ A).
Qed.

Lemma parentDone_ok fuel w l pend k s :
  done_spec fuel -> wf w (k :: pend) -> ctx w l -> Lo <= s -> 0 <= D ->
  s + D * Z.of_nat (cnt not_done w) <= Bd -> (cnt not_done w <= fuel)%nat ->
  wp (parentDone (done fuel) k s) w (fun _ w' => settled w l pend w' /\ s <= cycle (ev w' k)).
Proof.
  intros IH Hwf Hctx Hs HD Ht Hf. pose proof Hwf as [W1 W2 W3 W4 W5 W6 W7 W8 W9].
  assert (Hk : (k < numEvents w)%nat) by (apply W3; left).
  unfold parentDone, get. wp_steps.
  destruct (W4 k Hk) as [Hkd|Hkd]; rewrite Hkd; [by apply base_parentDone_ok|].
  destruct (W6 k Hk) as [Hp Hp2].
  assert (Hne : numParents (ev w k) <> 0) by (pose proof (occurs_here k pend); lia).
  assert (Hst : state (ev w k) = EV_NONE) by (by apply W7).
  destruct (W9 k Hk ltac:(congruence)) as [Hc0 Hct]. destruct (W8 k Hk) as (Hd1 & Hd2 & Hd3).
  pose proof (c_lo _ _ Hctx) as HLo. pose proof (c_top _ _ Hctx) as Htop.
  apply wp_bind, wp_upd. intros w1 Ho1 He1. apply wp_bind, wp_upd. intros w2 Ho2 He2.
  pose proof (only_trans _ _ _ _ _ _ Ho1 Ho2) as Ho. wp_steps.
  rewrite (o_this _ _ _ _ Ho) in *. rewrite (o_this _ _ _ _ Ho1) in Ho |- *. cbn in Ho |- *.
  rewrite (u32_id (numParents (ev w k) - 1)) in * by (unfold in_u32; lia).
  destruct (Z.eqb_spec (numParents (ev w k) - 1) 0) as [H0|H1].
  - apply wp_bind, wp_upd. intros w3 Ho3 He3.
    rewrite (o_this _ _ _ _ Ho) in Ho3. pose proof (only_trans _ _ _ _ _ _ Ho Ho3) as Ho'.
    cbn in Ho'. rewrite u64_id by (unfold in_u64; nia).
    destruct (wf_signal w w3 k pend _ Hwf Ho') as [Hwf3 Hcnt3]; cbn; try done; try lia.
    assert (Hctx3 : ctx w3 l) by (eapply (ctx_only w w3); [done|exact Ho'|congruence|done|done]).
    eapply wp_mono; [apply (IH w3 l pend); [done|done|..]|]; rewrite ?Hcnt3; try done.
    + by rewrite (o_num _ _ _ _ Ho').
    + by rewrite (o_this _ _ _ _ Ho').
    + lia.
    + rewrite (o_this _ _ _ _ Ho'). cbn. nia.
    + intros _ w4 ((new & Hwf4 & Hctx4 & Hadv) & Hdone & _). split.
      * exists new. split_and!; [done|done|]. eapply adv_run; [exact Ho'|done|done|cbn; lia|done|done].
      * pose proof (a_cycle _ _ _ Hadv k) as H. rewrite (o_this _ _ _ _ Ho') in H. cbn in H. lia.
  - wp_steps. destruct (wf_signal w w2 k pend _ Hwf Ho) as [Hwf2 _]; cbn; try done; try lia; try congruence.
    split; [|rewrite (o_this _ _ _ _ Ho); cbn; lia].
    exists []. split_and!; [done| |].
    + cbn. eapply (ctx_only w w2); [done|exact Ho|congruence|done|done].
    + eapply adv_only; [exact Ho|..]; cbn; rewrite ?Hst; try done.
      * apply advance_refl.
      * lia.
      * left. split; done.
      * left. lia.
Qed.

Lemma settled_trans w w1 l pend pend1 l1 new1 w2 :
  adv w w1 new1 -> l1 = new1 ++ l -> settled w1 l1 pend w2 -> pend1 = pend -> settled w l pend1 w2.
Proof.
  intros A -> (new & Hwf & Hctx & B) ->. exists (new ++ new1). rewrite <- app_assoc.
  split_and!; [done|done|by eapply adv_trans].
Qed.

Lemma signals_ok fuel s ks : done_spec fuel -> forall w l pend,
  wf w (ks ++ pend) -> ctx w l -> Lo <= s -> 0 <= D ->
  s + D * Z.of_nat (cnt not_done w) <= Bd -> (cnt not_done w <= fuel)%nat ->
  wp (loop (fun _ k => parentDone (done fuel) k s) tt ks) w
    (fun _ w' => settled w l pend w' /\ forall k, k ∈ ks -> s <= cycle (ev w' k)).
Proof.
  intros IH. induction ks as [|k ks IHk]; intros w l pend Hwf Hctx Hs HD Ht Hf; cbn [loop].
  - apply wp_ret. split; [|intros k Hk; by apply elem_of_nil in Hk].
    exists []. split_and!; [done|done|apply adv_refl].
  - apply wp_bind. eapply wp_mono; [by apply (parentDone_ok fuel w l (ks ++ pend))|].
    intros [] w1 [(new & Hwf1 & Hctx1 & A) Hc1]. pose proof (adv_cnt _ _ _ A) as Hcnt.
    eapply wp_mono; [apply (IHk w1 (new ++ l) pend); try done; nia|].
    intros [] w2 [Hset Hc2]. split; [by eapply settled_trans|].
    intros k' [->|Hk']%elem_of_cons; [|by apply Hc2]. destruct Hset as (new2 & _ & _ & B).
    pose proof (a_cycle _ _ _ B k). lia.
Qed.

Lemma visit_ok_links e : links_ok e -> visit_ok e = true.
Proof.
  intros H. unfold visit_ok. rewrite (links_count e H), Z.eqb_refl. apply orb_true_r.
Qed.

Lemma done_ok fuel : 0 <= D -> done_spec fuel.
Proof.
  intros HD. induction fuel as [|fuel IH]; intros w l pend e c Hwf Hctx He Hst Hc Ht Hf.
  - exfalso. pose proof (total_pos (fun x => if not_done (state (ev w x)) then 1%nat else 0%nat) _ _ He) as H.
    cbn beta in H. rewrite Hst in H. change (not_done EV_RUNNING) with true in H.
    unfold cnt in Hf. cbv iota in H. lia.
  - cbn [done]. unfold get. wp_steps; [by rewrite Hst|]. apply wp_upd. intros w1 Ho1 He1.
    destruct (wf_finish w w1 e pend Hwf Ho1 He Hst HD) as [Hwf1 Hcnt1].
    assert (Hctx1 : ctx w1 l) by (eapply (ctx_only w w1); [done|exact Ho1|done|done|done]).
    assert (A1 : adv w w1 []).
    { eapply adv_only; [exact Ho1|..]; cbn; rewrite ?Hst; try done.
      - right; right. done.
      - left. done.
      - right; left. done. }
    destruct (wf_delays _ _ Hwf e He) as (Hd1 & Hd2 & Hd3).
    pose proof (c_lo _ _ Hctx) as HLo. pose proof (c_top _ _ Hctx) as Htop.
    rewrite u64_id by (unfold in_u64; nia). apply wp_bind.
    eapply wp_mono; [apply (signals_ok fuel _ _ IH w1 l pend); try done; nia|].
    intros [] w2 [(new & Hwf2 & Hctx2 & A2) Hc2].
    wp_steps; [by apply visit_ok_links, (wf_links _ _ Hwf)|]. apply wp_upd. intros w3 Ho3 He3.
    assert (He2 : (e < numEvents w2)%nat) by (by rewrite (a_num _ _ _ A2), (o_num _ _ _ _ Ho1)).
    assert (Hs2 : state (ev w2 e) = EV_DONE).
    { destruct (a_state _ _ _ A2 e) as [H|[[H _]|[H _]]]; rewrite (o_this _ _ _ _ Ho1) in H; done. }
    assert (Hfs : state (freeEvent (ev w2 e)) = EV_DONE) by (unfold freeEvent; by destruct (1 <? _)).
    assert (Hfc : cycle (freeEvent (ev w2 e)) = cycle (ev w2 e)) by (unfold freeEvent; by destruct (1 <? _)).
    assert (A3 : adv w2 w3 []).
    { eapply adv_only; [exact Ho3|..]; rewrite ?Hs2, ?Hfs, ?Hfc; try done.
      - apply advance_refl.
      - by left.
      - right; left. done. }
    split_and!.
    + exists new. split_and!.
      * by eapply wf_free.
      * eapply (ctx_only w2 w3); [done|exact Ho3|done|done|by rewrite Hfs].
      * rewrite <- (app_nil_l new), <- (app_nil_r new). eapply adv_trans; [|exact A3].
        rewrite app_nil_r. rewrite <- (app_nil_r new). by eapply adv_trans.
    + by rewrite (o_this _ _ _ _ Ho3).
    + intros k Hk. specialize (Hc2 k Hk). pose proof (a_cycle _ _ _ A3 k). lia.
Qed.

End Propagate.

(** The completion of an event.  In a consistent graph of one domain, with fuel
    for the events that are not done, [done] of a running event returns: the graph is
    consistent again (every [numParents] counts the links from events that are not
    done), the event is done, each of its children has seen the cycle of its
    completion, and the events enqueued are exactly those that became ready, each
    once and at the cycle its last parent and its delay ask for. *)
Theorem done_correct d D Lo Bd w l e c fuel :
  0 <= D -> wf d D Bd w [] -> ctx d D Lo Bd w l ->
  (e < numEvents w)%nat -> state (ev w e) = EV_RUNNING -> Lo <= c ->
  c + postDelay (ev w e) + D * (Z.of_nat (cnt not_done w) - 1) <= Bd ->
  (cnt not_done w <= fuel)%nat ->
  exists w' new, done fuel e c w = Ok (tt, w') /\
    wf d D Bd w' [] /\ ctx d D Lo Bd w' (new ++ l) /\ adv w w' new /\
    state (ev w' e) = EV_DONE /\
    forall k, k ∈ visited (ev w e) -> c + postDelay (ev w e) <= cycle (ev w' k).
Proof.
  intros HD Hwf Hctx He Hs Hc Ht Hf.
  destruct (proj1 (wp_Ok _ _ _) (done_ok d D Lo Bd fuel HD w l [] e c Hwf Hctx He Hs Hc Ht Hf))
    as ([] & w' & E & (new & H1 & H2 & H3) & H4 & H5).
  exists w', new. by split_and!.
Qed.

Lemma link_fields c e :
  ekind (link c e) = ekind e /\ state (link c e) = state e /\ cycle (link c e) = cycle e /\
  domain (link c e) = domain e /\ numParents (link c e) = numParents e /\
  preDelay (link c e) = preDelay e /\ postDelay (link c e) = postDelay e.
Proof. unfold link. destruct (_ =? 0); [|destruct (_ =? 1)]; done. Qed.

(** The graph after the two updates of [addChild]. *)
Lemma wf_link d D Bd w w1 w2 e c :
  wf d D Bd w [] -> (e < numEvents w)%nat -> (c < numEvents w)%nat -> e <> c ->
  state (ev w e) <> EV_DONE -> state (ev w c) = EV_NONE ->
  numChildren (ev w e) + 1 < 2 ^ 32 -> numParents (ev w c) + 1 < 2 ^ 32 ->
  only w w1 e (link c (ev w e)) ->
  only w1 w2 c (set_numParents (numParents (ev w c) + 1) (ev w c)) -> wf d D Bd w2 [].
Proof.
  intros [W1 W2 W3 W4 W5 W6 W7 W8 W9] He Hc Hec Hs Hsc Hn Hp Ho1 Ho2.
  destruct (link_ok c (ev w e) (W1 e He) Hn) as (Hlk & Hln & Hlv).
  destruct (link_fields c (ev w e)) as (F1 & F2 & F3 & F4 & F5 & F6 & F7).
  pose proof (o_num _ _ _ _ Ho1) as On1. pose proof (o_num _ _ _ _ Ho2) as On2.
  assert (Hc1 : ev w1 c = ev w c) by (apply Ho1; done).
  assert (Hcase : forall (Q : nat -> TimingEvent -> Prop), Q e (link c (ev w e)) ->
    Q c (set_numParents (numParents (ev w c) + 1) (ev w c)) ->
    (forall y, (y < numEvents w)%nat -> y <> e -> y <> c -> Q y (ev w y)) ->
    forall y, (y < numEvents w)%nat -> Q y (ev w2 y)).
  { intros Q Q1 Q2 Q3 y Hy. destruct (decide (y = c)) as [->|Hyc];
      [by rewrite (o_this _ _ _ _ Ho2)|]. rewrite (o_other _ _ _ _ Ho2) by done.
    destruct (decide (y = e)) as [->|Hye];
      [by rewrite (o_this _ _ _ _ Ho1)|]. rewrite (o_other _ _ _ _ Ho1) by done. by apply Q3. }
  assert (Hcnt : cnt not_done w2 = cnt not_done w).
  { pose proof (cnt_only not_done _ _ _ _ Ho1 He) as H1. rewrite F2 in H1.
    pose proof (cnt_only not_done _ _ _ _ Ho2 ltac:(lia)) as H2. rewrite Hc1 in H2.
    change (state (set_numParents _ (ev w c))) with (state (ev w c)) in H2. lia. }
  assert (Hind : forall y, (indegree w2 y = indegree w y + if decide (y = c) then 1 else 0)%nat).
  { intros y. pose proof (indegree_only _ _ _ _ y Ho1 He) as H1.
    rewrite F2, (not_done_true _ Hs) in H1. cbv iota in H1.
    pose proof (indegree_only _ _ _ _ y Ho2 ltac:(lia)) as H2. rewrite Hc1 in H2.
    change (state (set_numParents _ (ev w c))) with (state (ev w c)) in H2.
    change (visited (set_numParents _ (ev w c))) with (visited (ev w c)) in H2.
    assert (Hocc : occurs y (visited (link c (ev w e))) =
      (occurs y (visited (ev w e)) + if decide (y = c) then 1 else 0)%nat).
    { unfold occurs. rewrite (proj1 (Permutation_count_occ Nat.eq_dec _ _) Hlv).
      cbn [count_occ]. destruct (Nat.eq_dec c y), (decide (y = c)); subst; try done; lia. }
    lia. }
  assert (Hpar : forall y, (y < numEvents w)%nat -> y <> c ->
    numParents (ev w y) = Z.of_nat (indegree w2 y + occurs y []) /\ numParents (ev w y) < 2 ^ 32).
  { intros y Hy Hyc. rewrite Hind, decide_False by done. destruct (W6 y Hy). split; [lia|done]. }
  split; rewrite ?On2, ?On1, ?Hcnt.
  - apply (Hcase (fun _ y => links_ok y)); [done| |intros; by apply W1].
    destruct (W1 c Hc) as [H|x H Hl|cs css Hl Hcs Hf H H2];
      [by apply no_child|by eapply one_child|by eapply many].
  - intros y j Hy Hst. revert Hst. revert j. revert y Hy.
    apply (Hcase (fun _ y => forall j, state y <> EV_DONE -> j ∈ visited y -> (j < numEvents w)%nat)).
    + intros j _ Hj. rewrite Hlv in Hj. apply elem_of_cons in Hj as [->|Hj]; [done|by apply (W2 e)].
    + intros j H1 H2. by apply (W2 c).
    + intros y Hy _ _ j H1 H2. by apply (W2 y).
  - intros j Hj. by apply elem_of_nil in Hj.
  - apply (Hcase (fun _ y => ekind y = Simple \/ ekind y = DelayEvent)); [rewrite F1|..];
      intros; by apply W4.
  - apply (Hcase (fun _ y => domain y = d)); [rewrite F4|..]; intros; by apply W5.
  - apply (Hcase (fun y x => numParents x = Z.of_nat (indegree w2 y + occurs y []) /\
      numParents x < 2 ^ 32)).
    + rewrite F5. by apply Hpar.
    + cbn [numParents set_numParents]. rewrite Hind, decide_True by done.
      destruct (W6 c Hc) as [H1 H2]. split; lia.
    + intros y Hy _ Hyc. by apply Hpar.
  - apply (Hcase (fun _ y => numParents y <> 0 -> state y = EV_NONE)); [rewrite F5, F2|done|];
      intros; by apply W7.
  - apply (Hcase (fun _ y => 0 <= preDelay y /\ 0 <= postDelay y /\ preDelay y + postDelay y <= D));
      [rewrite F6, F7|..]; intros; by apply W8.
  - apply (Hcase (fun _ y => state y <> EV_DONE ->
      0 <= cycle y /\ cycle y + D * Z.of_nat (cnt not_done w) <= Bd)); [rewrite F2, F3|..];
      intros; by apply W9.
Qed.

(** Linking two events of a consistent graph keeps it consistent: the child is
    added once to what the parent's completion will visit, across the blocks of
    three, and its count of parents grows by one. *)
Theorem addChild_correct d D Bd w e c fuel :
  wf d D Bd w [] -> d <> -1 -> (e < numEvents w)%nat -> (c < numEvents w)%nat -> e <> c ->
  state (ev w e) = EV_NONE \/ state (ev w e) = EV_QUEUED -> state (ev w c) = EV_NONE ->
  numChildren (ev w e) + 1 < 2 ^ 32 -> numParents (ev w c) + 1 < 2 ^ 32 ->
  wp (addChild fuel e c) w (fun r w' => r = c /\ wf d D Bd w' [] /\
    visited (ev w' e) ≡ₚ c :: visited (ev w e) /\
    numParents (ev w' c) = numParents (ev w c) + 1).
Proof.
  intros Hwf Hd He Hc Hec Hs Hsc Hn Hp.
  destruct (link_ok c (ev w e) (wf_links _ _ _ _ _ Hwf e He) Hn) as (_ & _ & Hlv).
  destruct (link_fields c (ev w e)) as (_ & _ & _ & F4 & _). pose proof (wf_parents _ _ _ _ _ Hwf c Hc).
  unfold addChild, get. wp_steps; [by apply bool_decide_eq_true|by rewrite Hsc|].
  apply wp_upd. intros w1 Ho1 _. wp_steps.
  assert (Hc1 : ev w1 c = ev w c) by (apply Ho1; done).
  rewrite (o_this _ _ _ _ Ho1), F4, Hc1, !(wf_dom _ _ _ _ _ Hwf) by done.
  apply Z.eqb_neq in Hd. rewrite Hd. cbn [negb andb]. wp_steps.
  apply wp_upd. intros w2 Ho2 _. rewrite Hc1, u32_id in Ho2 by (unfold in_u32; lia).
  wp_steps. split_and!; [done| | |by rewrite (o_this _ _ _ _ Ho2)].
  - apply (wf_link d D Bd w w1 w2 e c); try done. destruct Hs as [H1|H1]; by rewrite H1.
  - rewrite (o_other _ _ _ _ Ho2), (o_this _ _ _ _ Ho1) by done. exact Hlv.
Qed.

(** ** An example

    A running event 0 with two children: the delay event 1, and event 2, which
    waits for both. *)
Definition ex_ev (e : nat) : TimingEvent :=
  match e with
  | 0 => mkEv Simple 0 EV_RUNNING 0 0 (Children [mk_block [1; 2]]) 0 2 0 0 3
  | 1 => mkEv DelayEvent 0 EV_NONE 0 0 (Child (Some 2)) 0 1 1 10 0
  | _ => mkEv Simple 0 EV_NONE 0 0 (Child None) 0 0 (if decide (e = 2) then 2 else 0) 1 0
  end%nat.

Definition ex_sim : sim :=
  mkSim ex_ev 3 (fun _ => mkER (mkTR 0 0 0 MemHier.GETS None None) 0 0 0)
    (fun _ => mkDom PrioQueue.new 0 0) 1 10000 0 true 1000.

Lemma ex_wf : wf 0 20 1000 ex_sim [].
Proof.
  assert (H3 : forall (Q : nat -> Prop), Q 0%nat -> Q 1%nat -> Q 2%nat ->
    forall e, (e < numEvents ex_sim)%nat -> Q e).
  { intros Q Q0 Q1 Q2 e He. cbn in He. destruct e as [|[|[|e]]]; [done..|lia]. }
  split.
  - apply H3; [|by eapply one_child|by apply no_child].
    apply (many _ [1; 2]%nat []); cbn; try done; lia.
  - intros e k He _ Hk. revert e He k Hk.
    apply (H3 (fun e => forall k, k ∈ visited (ev ex_sim e) -> (k < numEvents ex_sim)%nat));
      cbn; intros k Hk; repeat (apply elem_of_cons in Hk as [->|Hk]; [lia|]); by apply elem_of_nil in Hk.
  - intros k Hk. by apply elem_of_nil in Hk.
  - apply (H3 (fun e => ekind (ev ex_sim e) = Simple \/ ekind (ev ex_sim e) = DelayEvent));
      cbn; tauto.
  - by apply (H3 (fun e => domain (ev ex_sim e) = 0)).
  - by apply (H3 (fun e => numParents (ev ex_sim e) =
      Z.of_nat (indegree ex_sim e + occurs e []) /\ numParents (ev ex_sim e) < 2 ^ 32)).
  - by apply (H3 (fun e => numParents (ev ex_sim e) <> 0 -> state (ev ex_sim e) = EV_NONE)).
  - apply (H3 (fun e => 0 <= preDelay (ev ex_sim e) /\ 0 <= postDelay (ev ex_sim e) /\
      preDelay (ev ex_sim e) + postDelay (ev ex_sim e) <= 20)); cbn; lia.
  - intros e He _. revert e He.
    apply (H3 (fun e => 0 <= cycle (ev ex_sim e) /\
      cycle (ev ex_sim e) + 20 * Z.of_nat (cnt not_done ex_sim) <= 1000)); vm_compute; by split.
Qed.

Lemma ex_ctx : ctx 0 20 0 1000 ex_sim [].
Proof. split; cbn; try done; try lia. apply PrioQueue.new_holds. Qed.

Lemma done_correct_witness :
  exists w' new, done 3 0 5 ex_sim = Ok (tt, w') /\
    wf 0 20 1000 w' [] /\ ctx 0 20 0 1000 w' (new ++ []) /\ adv ex_sim w' new /\
    state (ev w' 0%nat) = EV_DONE /\
    forall k, k ∈ visited (ev ex_sim 0%nat) -> 5 + postDelay (ev ex_sim 0%nat) <= cycle (ev w' k).
Proof.
  apply (done_correct 0 20 0 1000 ex_sim [] 0 5 3); [lia|exact ex_wf|exact ex_ctx|cbn; lia|done|lia|..].
  - vm_compute. discriminate.
  - vm_compute. lia.
Defined.

(** Event 2 is enqueued once, one cycle after the delay event completes. *)
Example ex_done :
  (w ← (done 3 0 5 ex_sim : res (unit * sim));
   PrioQueue.firstCycle PQ_BLOCKS (pq (domains w.2 0))) = Ok 19.
Proof. vm_compute. reflexivity. Qed.

Lemma addChild_correct_witness :
  wp (addChild 1 1 2) ex_sim (fun r w' => r = 2%nat /\ wf 0 20 1000 w' [] /\
    visited (ev w' 1%nat) ≡ₚ 2%nat :: visited (ev ex_sim 1%nat) /\
    numParents (ev w' 2%nat) = numParents (ev ex_sim 2%nat) + 1).
Proof.
  apply (addChild_correct 0 20 1000 ex_sim 1 2 1 ex_wf); cbn; lia || done || auto.
Defined.

End Timing.
