(* ===== verification/Cache.v ===== *)
(** Caches (cache.h, cache.cpp) and the hierarchy they form: a cache puts together a
    coherence controller, a cache array and the stitching of timing records, and calls
    the caches and memories it is connected to. *)
From stdpp Require Import strings.
From S2P Require Import Prelude Effects MemHier Hash ReplPolicies Coherence CohLevel CacheArrays Timing.
Import MemHier Coherence.

Module Cache.

(** The second set of virtual methods of a [CacheArray], which the cache named
    [l2-0] calls. *)
Class CacheArrayL2 (A : Type) := {
  ca_lookupL2 : Z -> MemReq -> bool -> A -> res (Z * A);
  ca_preinsertL2 : cc_view -> Z -> MemReq -> A -> res (Z * Z * A);
  ca_postinsertL2 : Z -> MemReq -> Z -> A -> res A
}.

(** The globals of cache.cpp. *)
Record Globals := mkGlobals {
  l1 : Z;
  DirtyWB : Z;
  CleanWB : Z;
  load : Z;
  store : Z;
  evicted_line : Z
}.

(** What a [Cache] has besides its controller: its array ([arrays]), and the parts
    all caches share. *)
Record shared (A : Type) := mkShared {
  arrays : nat -> A;
  globals : Globals;
  tsim : Timing.sim
}.
Arguments mkShared {A}. Arguments arrays {A}. Arguments globals {A}. Arguments tsim {A}.

Record params := mkParams { accLat : Z; invLat : Z; name : string }.

Section Cache.
Context {A : Type} `{CacheArray A} `{CacheArrayL2 A}.
Notation P := (prog (world (shared A))).

(** Topology, parameters of each cache, and which requesters have an event recorder
    ([zinfo->eventRecorders]). *)
Context (topo : nat -> node) (cfg : nat -> params) (hasEvRec : Z -> bool).
(** The other objects. *)
Context (access_obj : nat -> MemReq -> P Z).
Context (invalidate_obj : nat -> InvReq -> P (Z * bool)).

Definition set_ext (f : shared A -> shared A) : P unit :=
  modify (fun w => mkWorld (states w) (dir w) (prof w) (f (ext w))).
Definition upd_globals (f : Globals -> Globals) : P unit :=
  set_ext (fun x => mkShared (arrays x) (f (globals x)) (tsim x)).

(** A call of a method of the array of cache [c]. *)
Definition on_array {B} (c : nat) (f : A -> res (B * A)) : P B :=
  a ← gets (fun w => arrays (ext w) c);
  '(b, a') ← lift (f a);
  _ ← set_ext (fun x => mkShared (<[c := a']> (arrays x)) (globals x) (tsim x));
  mret b.

(** A call into the timing events. *)
Definition on_events {B} (m : prog Timing.sim B) : P B :=
  t ← gets (fun w => tsim (ext w));
  '(b, t') ← lift (m t);
  _ ← set_ext (fun x => mkShared (arrays x) (globals x) t');
  mret b.

(** The view the replacement policy has of the controller. *)
Definition view (c : nat) (w : world (shared A)) : cc_view :=
  mkView (fun id => if terminal (topo c) then 0 else numSharers (dir w (c, id)))
         (fun id => bool_decide (states w (Line c id) <> I)).

Definition isL2 (c : nat) : bool := bool_decide (name (cfg c) = "l2-0"%string).

Definition do_lookup (c : nat) (addr : Z) (req : MemReq) (upd : bool) : P Z :=
  on_array c (if isL2 c then ca_lookupL2 addr req upd else ca_lookup addr req upd).
Definition do_preinsert (c : nat) (addr : Z) (req : MemReq) : P (Z * Z) :=
  v ← gets (view c);
  on_array c (if isL2 c then ca_preinsertL2 v addr req else ca_preinsert v addr req).
Definition do_postinsert (c : nat) (addr : Z) (req : MemReq) (id : Z) : P unit :=
  on_array c (fun a => a' ← (if isL2 c then ca_postinsertL2 addr req id a
                             else ca_postinsert addr req id a); Ok (tt, a')).

(** The counters by request type, then [l1] and [evicted_line]. *)
Definition count (t : AccessType) (g : Globals) : Globals :=
  match t with
  | PUTX => mkGlobals (l1 g) (i32 (DirtyWB g + 1)) (CleanWB g) (load g) (store g) (evicted_line g)
  | PUTS => mkGlobals (l1 g) (DirtyWB g) (i32 (CleanWB g + 1)) (load g) (store g) (evicted_line g)
  | GETS => mkGlobals (l1 g) (DirtyWB g) (CleanWB g) (i32 (load g + 1)) (store g) (evicted_line g)
  | GETX => mkGlobals (l1 g) (DirtyWB g) (CleanWB g) (load g) (i32 (store g + 1)) (evicted_line g)
  end.
Definition mark_l1 (t : AccessType) (g : Globals) : Globals :=
  if bool_decide (t = PUTX) then
    mkGlobals 1 (DirtyWB g) (CleanWB g) (load g) (store g) (evicted_line g)
  else mkGlobals 0 (DirtyWB g) (CleanWB g) (load g) (store g) 0.

(** ** Timing records *)

(** The record a writeback left, taken out before the access proper. *)
Definition pop_wb (srcId : Z) : P (option Timing.TimingRecord) :=
  if hasEvRec srcId then
    on_events (fun t =>
      let r := Timing.recorders t (Z.to_nat srcId) in
      if Timing.hasRecord r then
        let '(rec, r') := Timing.popRecord r in
        Ok (Some rec, Timing.mkSim (Timing.ev t) (Timing.numEvents t)
              (<[Z.to_nat srcId := r']> (Timing.recorders t)) (Timing.domains t)
              (Timing.numDomains t) (Timing.limit t) (Timing.lastLimit t) (Timing.inCSim t)
              (Timing.phaseLength t))
      else Ok (None, t))
  else mret None.

Definition set_recorder (i : nat) (f : Timing.EventRecorder -> res Timing.EventRecorder)
    : prog Timing.sim unit := fun t =>
  r ← f (Timing.recorders t i);
  Ok (tt, Timing.mkSim (Timing.ev t) (Timing.numEvents t) (<[i := r]> (Timing.recorders t))
            (Timing.domains t) (Timing.numDomains t) (Timing.limit t) (Timing.lastLimit t)
            (Timing.inCSim t) (Timing.phaseLength t)).

(** [new (evRec) DelayEvent(delay)] followed by [setMinStartCycle]. *)
Definition new_delay (delay minStart : Z) : prog Timing.sim nat :=
  Timing.alloc (Timing.set_minStartCycle minStart (Timing.newEvent Timing.DelayEvent (u32 delay) 0 (-1))).

(** Puts both records in one that starts when the request does. *)
Definition stitch (fuel : nat) (req : MemReq) (wb : Timing.TimingRecord) : prog Timing.sim unit :=
  let i := Z.to_nat (srcId req) in
  has ← gets (fun t => Timing.hasRecord (Timing.recorders t i));
  if negb has then
    set_recorder i (Timing.pushRecord (Timing.mkTR (Timing.tr_addr wb) (Timing.reqCycle wb)
      (Timing.respCycle wb) (Timing.tr_type wb) (Timing.startEvent wb) None))
  else
    acc ← gets (fun t => Timing.er_tr (Timing.recorders t i));
    _ ← set_recorder i (fun r => Ok (Timing.popRecord r).2);
    _ ← require (cycle req <=? Timing.reqCycle wb);
    _ ← require (cycle req <=? Timing.reqCycle acc);
    startEv ← new_delay 0 (cycle req);
    dWbEv ← new_delay (Timing.reqCycle wb - cycle req) (cycle req);
    dAccEv ← new_delay (Timing.reqCycle acc - cycle req) (cycle req);
    match Timing.startEvent wb, Timing.startEvent acc with
    | Some wbStart, Some accStart =>
        x ← Timing.addChild fuel startEv dWbEv; _ ← Timing.addChild fuel x wbStart;
        x ← Timing.addChild fuel startEv dAccEv; _ ← Timing.addChild fuel x accStart;
        set_recorder i (Timing.pushRecord (Timing.mkTR (Timing.tr_addr acc) (cycle req)
          (Timing.respCycle acc) (Timing.tr_type acc) (Some startEv) (Timing.endEvent acc)))
    | _, _ => require false
    end.

(** ** Cache::access *)

(** A miss: make room for the line. *)
Definition allocate (c : nat) (req : MemReq) (respCycle : Z) : P Z :=
  '(id, wbLineAddr) ← do_preinsert c (lineAddr req) req;
  _ ← cc_processEviction topo access_obj invalidate_obj c req wbLineAddr id respCycle;
  _ ← do_postinsert c (lineAddr req) req id;
  mret id.

Definition find_line (c : nat) (req : MemReq) (respCycle : Z) : P Z :=
  id ← do_lookup c (lineAddr req) req (IsGet (type req));
  _ ← upd_globals (count (type req));
  _ ← upd_globals (mark_l1 (type req));
  if id =? -1 then
    alloc ← cc_shouldAllocate topo c req;
    if alloc : bool then allocate c req respCycle else mret id
  else mret id.

(** [Cache::access]. [fuel] bounds the propagation of domains to the new events. *)
Definition cache_access (fuel : nat) (c : nat) (req : MemReq) : P Z :=
  '(skip, req) ← cc_startAccess topo c req;
  respCycle ←
    (if skip : bool then mret (cycle req)
     else
       let respCycle := u64 (cycle req + accLat (cfg c)) in
       id ← find_line c req respCycle;
       wbAcc ← pop_wb (srcId req);
       respCycle ← cc_processAccess topo access_obj invalidate_obj c req id respCycle;
       _ ← match wbAcc with
           | Some wb => on_events (stitch fuel req wb)
           | None => mret tt
           end;
       mret respCycle);
  _ ← require (cycle req <=? respCycle);
  mret respCycle.

(** The null request of [finishInvalidate]'s lookup; nothing reads it. *)
Definition null_req : MemReq := mkReq 0 GETS 0 Local 0 I 0 0.

(** A lookup that does not update the replacement policy changes nothing. *)
Definition peek (c : nat) (addr : Z) : P Z :=
  a ← gets (fun w => arrays (ext w) c);
  '(id, _) ← lift (ca_lookup addr null_req false a);
  mret id.

Definition finishInvalidate (c : nat) (req : InvReq) : P (Z * bool) :=
  id ← peek c (inv_lineAddr req);
  _ ← require (negb (id =? -1));
  cc_processInv topo invalidate_obj c req id (u64 (inv_cycle req + invLat (cfg c))).

End Cache.

(** ** The hierarchy *)

Inductive object := CacheObj | MemObj (latency : Z).

Section Hierarchy.
Context {A : Type} `{CacheArray A} `{CacheArrayL2 A}.
Notation P := (prog (world (shared A))).
Context (topo : nat -> node) (cfg : nat -> params) (hasEvRec : Z -> bool) (kind : nat -> object).
(** The number of levels below a cache. *)
Context (height : nat).

(** [Cache::invalidate] on cache [c], with its calls to the levels below. *)
Fixpoint invalidate (fuel : nat) (c : nat) (req : InvReq) : P (Z * bool) :=
  match fuel with
  | O => lift (Fail NoFuel)
  | Datatypes.S fuel => finishInvalidate topo cfg (invalidate fuel) c req
  end.

(** [MemObject::access] on object [c]. *)
Fixpoint access (fuel : nat) (c : nat) (req : MemReq) : P Z :=
  match fuel with
  | O => lift (Fail NoFuel)
  | Datatypes.S fuel =>
      match kind c with
      | MemObj latency =>
          '(st, resp) ← lift (SimpleMemory_access latency req);
          _ ← set_state (state req) st;
          mret resp
      | CacheObj =>
          cache_access topo cfg hasEvRec (access fuel) (invalidate height) fuel c req
      end
  end.
End Hierarchy.

(** ** Two levels

    A cache [c] whose children are terminal caches and whose parents are memories, for
    the line [l] that holds address [a]: the objects it calls keep the contracts that
    its correctness is proved from. *)

Section TwoLevels.
Context {A : Type} `{CacheArray A} `{CacheArrayL2 A} {AL : CacheArrayLaws A}.
Context (topo : nat -> node) (cfg : nat -> params) (hasEvRec : Z -> bool) (kind : nat -> object).
Context (height fuel : nat) (c : nat) (l a : Z) (lid : nat -> option Z) (L : Z).

Notation n := (length (children (topo c))).
Notation kid k := (children (topo c) !!! k).
Notation invalidate_kid := (invalidate topo cfg (Datatypes.S height)).
Notation access_parent := (access topo cfg hasEvRec kind (Datatypes.S height) (Datatypes.S fuel)).

(** The arrays agree with [lid], which says where each child holds the address. *)
Definition leaf_ok (x : shared A) : Prop := forall k, (k < n)%nat ->
  ca_inv (arrays x (kid k)) /\
  forall y, lid k = Some y -> 0 <= y < ca_size /\ ca_line (arrays x (kid k)) y = a.

Record two_levels : Prop := {
  tl_topo : Level.topo_ok topo c L;
  tl_leaf k : (k < n)%nat -> terminal (topo (kid k)) = true /\ 0 <= invLat (cfg (kid k)) <= L;
  tl_addr : 0 < a;
  tl_lat : L < 2 ^ 32;
  tl_mem : exists lat, kind (parent topo c a) = MemObj lat /\ 0 < lat < 2 ^ 32
}.
Context (Htl : two_levels).

Lemma leaf_kid_inj j k : (j < n)%nat -> (k < n)%nat -> kid j = kid k -> j = k.
Proof.
  intros Hj Hk Heq. pose proof (Level.kids_nodup _ _ _ (tl_topo Htl)) as Hnd.
  apply lookup_lt_is_Some in Hj as [x Hx]. apply lookup_lt_is_Some in Hk as [y Hy].
  rewrite (list_lookup_total_correct _ _ _ Hx), (list_lookup_total_correct _ _ _ Hy) in Heq.
  subst. by eapply NoDup_lookup.
Qed.

(** The arrays do not change while the line is served. *)
Context (x0 : shared A) (Hx0 : leaf_ok x0).
Notation J := (fun x => x = x0).
Notation K := (fun w : world (shared A) => ext w = x0).

(** A terminal cache keeps the contract of [BaseCache::invalidate]. *)
Lemma leaf_invalidate : Level.inv_contract topo invalidate_kid c a lid J L.
Proof.
  intros k t wb cyc src w Hk Ht HJ Hp Hc Hc'. destruct (tl_leaf Htl k Hk) as [Hterm Hlat].
  pose proof (tl_lat Htl) as HL. unfold Level.cst in Hp.
  destruct (lid k) as [y|] eqn:Hy; [|exfalso; destruct t; cbn in Hp; [by apply Hp|by destruct Hp|done]].
  destruct (Hx0 k Hk) as [Hai Hline]. destruct (Hline y Hy) as [Hyr Hya].
  cbn [invalidate]. unfold finishInvalidate, peek. wp_steps. rewrite HJ. cbn [inv_lineAddr].
  destruct (ca_lookup_ok a null_req false _ Hai (tl_addr Htl) ltac:(done))
    as (id & a' & Hlook & _ & _ & Hid).
  eapply wp_lift; [exact Hlook|]. cbn beta iota.
  assert (id = y) as ->.
  { destruct Hid as [[_ Hno]|[Hr Hl]]; [by destruct (Hno y Hyr)|].
    apply (ca_unique (arrays x0 (kid k))); try done; rewrite Hl; [done|]. pose proof (tl_addr Htl). lia. }
  wp_steps; [apply negb_true_iff, Z.eqb_neq; lia|].
  unfold cc_processInv. rewrite Hterm. wp_step. cbn [inv_type inv_writeback inv_cycle].
  eapply wp_mono; [apply (Level.bcc_processInval_ok (kid k) y t wb w Hp)|].
  intros b w' (E1 & E2 & E3 & ->). wp_step.
  rewrite u64_id by (unfold in_u64; lia).
  assert (Hcst : Level.cst topo c lid w k = states w (Line (kid k) y)) by (unfold Level.cst; by rewrite Hy).
  unfold Level.inv_post. cbn [fst snd]. split_and!; try lia.
  - split; [congruence|by rewrite E2|]. intros z. rewrite E3, decide_False; [done|].
    intros [= Heq _]. by apply (Level.kid_not_self topo c L (tl_topo Htl) k Hk).
  - intros j Hj. unfold Level.cst. destruct (lid j) as [z|] eqn:Hz.
    + rewrite E3. destruct (decide (j = k)) as [->|Hjk].
      * rewrite decide_True; [done|congruence].
      * rewrite decide_False; [done|]. intros [= Heq _]. by apply Hjk, (leaf_kid_inj j k).
    + destruct (decide (j = k)) as [->|]; [congruence|done].
  - rewrite Hcst. intros [->|HM]; [done|]. rewrite HM, bool_decide_eq_true_2, orb_true_r by done. done.
  - rewrite Hcst. intros [Hb|Hb]%orb_true_iff; [by left|].
    apply bool_decide_eq_true in Hb as [_ ->]. right. by right.
Qed.

(** A memory keeps the contract of [MemObject::access]. *)
Lemma memory_access :
  Level.acc_contract topo c l a lid L access_parent K (2 ^ 32).
Proof.
  intros t cyc src fl w HK Hfl Hp [Hc0 Hc1]. destruct (tl_mem Htl) as (lat & Hk & Hlat).
  pose proof (Level.L_nonneg _ _ _ (tl_topo Htl)) as HL.
  cbn [access]. rewrite Hk. wp_step. unfold SimpleMemory_access. cbn [cycle type flags].
  rewrite u64_id by (unfold in_u64; lia).
  apply (wp_lift _ _ _ (grant t fl, cyc + lat)).
  { unfold assert_that. by replace (cyc <? cyc + lat) with true by lia. }
  unfold set_state. wp_steps. cbn [states dir ext state]. rewrite fn_lookup_insert.
  split_and!; try done; try lia.
  - intros j Hj. unfold Level.cst. destruct (lid j); [|done]. cbn [states].
    rewrite fn_lookup_insert_ne; [done|]. intros [= Heq _].
    by apply (Level.kid_not_self topo c L (tl_topo Htl) j Hj).
  - destruct t; cbn; try done. destruct (is_flag fl NOEXCL) eqn:Ef; [by left|by right].
Qed.

Lemma leaf_K_ok : Level.K_ok c l J K.
Proof. by split. Qed.

End TwoLevels.

Lemma race_none t s : CheckForMESIRace t s s = Ok (false, t).
Proof. unfold CheckForMESIRace. by rewrite decide_True. Qed.


Lemma serve_post_ext {X} topo c l lid L t fl k cyc (w w1 : world X) r w' :
  states w1 = states w -> dir w1 = dir w ->
  Level.serve_post topo c l lid L t fl k cyc w1 r w' ->
  Level.serve_post topo c l lid L t fl k cyc w r w'.
Proof.
  intros Hs Hd [P1 P2 P3 P4 P5 P6 P7 P8 P9]. unfold Level.cst in *. rewrite Hs in *. rewrite Hd in *.
  by split.
Qed.

Section Hit.
Context {A : Type} `{CacheArray A} `{CacheArrayL2 A} {AL : CacheArrayLaws A}.
Context (topo : nat -> node) (cfg : nat -> params) (hasEvRec : Z -> bool) (kind : nat -> object).

(** The lookup of a line that is there. *)
Lemma find_line_hit {access_obj invalidate_obj} c l req cyc (w : world (shared A)) Q :
  isL2 cfg c = false -> ca_inv (arrays (ext w) c) -> 0 <= l < ca_size ->
  ca_line (arrays (ext w) c) l = lineAddr req -> 0 < lineAddr req ->
  (forall w', states w' = states w -> dir w' = dir w ->
     (forall j, j <> c -> arrays (ext w') j = arrays (ext w) j) -> Q l w') ->
  wp (find_line topo cfg access_obj invalidate_obj c req cyc) w Q.
Proof.
  intros HL2 Hinv Hl Hline Ha HQ. unfold find_line, do_lookup, on_array. rewrite HL2. wp_steps.
  destruct (ca_lookup_ok (lineAddr req) req (IsGet (type req)) _ Hinv Ha ltac:(done))
    as (id & a' & Hlook & _ & _ & Hid).
  eapply wp_lift; [exact Hlook|]. cbn beta iota.
  assert (id = l) as ->.
  { destruct Hid as [[_ Hno]|[Hr Hx]]; [by destruct (Hno l Hl)|].
    apply (ca_unique (arrays (ext w) c)); [done..|congruence|rewrite Hx; lia]. }
  unfold upd_globals, set_ext. wp_steps. replace (l =? -1) with false by lia. wp_step.
  apply HQ; cbn; [done|done|]. intros j Hj. by rewrite fn_lookup_insert_ne.
Qed.

(** C24: a hit in a two-level hierarchy, of a cache that is not the one named [l2-0] (its
    lookups are other functions of the array, [ca_lookupL2]) and records no events for the
    weave phase.  A cache over terminal caches and under a
    memory gets a legal request of child [k] for a line it holds, with a consistent
    directory entry: [Cache::access] returns, having called nothing but those caches
    and that memory, and the line has been served as the protocol demands, the
    access latency after the request. *)
Theorem hit_correct height fuel f c l a lid L w t k x cyc src fl :
  two_levels topo cfg kind c a L -> leaf_ok topo c a lid (ext w) ->
  terminal (topo c) = false -> isL2 cfg c = false -> hasEvRec src = false ->
  ca_inv (arrays (ext w) c) -> 0 <= l < ca_size -> ca_line (arrays (ext w) c) l = a ->
  Level.line_ok topo c l lid w ->
  (k < length (children (topo c)))%nat -> lid k = Some x ->
  acc_pre t (Level.cst topo c lid w k) -> (is_flag fl PREFETCH = true -> t = GETS) ->
  0 <= cyc -> 0 <= accLat (cfg c) -> Level.early L (cyc + accLat (cfg c) + 2 ^ 32) ->
  wp (cache_access topo cfg hasEvRec
        (access topo cfg hasEvRec kind (Datatypes.S height) (Datatypes.S fuel))
        (invalidate topo cfg (Datatypes.S height)) f c
        (mkReq a t k (Line (children (topo c) !!! k) x) cyc
           (states w (Line (children (topo c) !!! k) x)) src fl)) w
     (Level.serve_post topo c l lid L t fl k (cyc + accLat (cfg c)) w).
Proof.
  intros Htl Hleaf Hterm HL2 Hrec Hinv Hl Hline Hok Hk Hlid Hpre Hpf Hc Hlat [He1 He2].
  pose proof (Level.L_nonneg _ _ _ (tl_topo _ _ _ _ _ _ Htl)) as HL.
  unfold cache_access, cc_startAccess. rewrite Hterm. wp_steps.
  { by destruct t. }
  unfold get_state. wp_steps. cbn [state type initialState]. eapply wp_lift; [apply race_none|].
  cbn beta iota. wp_steps. cbn [set_type cycle lineAddr type childId state initialState srcId flags].
  rewrite u64_id by (unfold in_u64; lia).
  apply (find_line_hit c l); [done..|exact (tl_addr _ _ _ _ _ _ Htl)|].
  intros w1 Hs1 Hd1 Ha1. wp_step. unfold pop_wb. cbn [srcId]. rewrite Hrec. wp_steps.
  assert (Hleaf1 : leaf_ok topo c a lid (ext w1)).
  { intros j Hj. rewrite Ha1 by (by apply (Level.kid_not_self topo c L (tl_topo _ _ _ _ _ _ Htl))).
    by apply Hleaf. }
  assert (Hok1 : Level.line_ok topo c l lid w1).
  { unfold Level.line_ok, Level.cst in *. by rewrite Hs1, Hd1. }
  assert (Hpre1 : acc_pre t (Level.cst topo c lid w1 k)) by (unfold Level.cst in *; by rewrite Hs1).
  unfold cc_processAccess. rewrite Hterm. replace (l =? -1) with false by lia.
  unfold bcc_isValid, get_state. wp_steps.
  cbn [type lineAddr orb].
  assert (Hv : IsPut t && negb (bool_decide (states w1 (Line c l) <> I)) = false).
  { pose proof (Level.acc_pre_bcc topo c l lid t w1 k Hok1 Hk Hpre1) as Hb.
    destruct t; cbn in Hb |- *; try done; apply negb_false_iff, bool_decide_eq_true; [done|].
    destruct Hb; congruence. }
  unfold set_type in *. cbn [set_type cycle lineAddr type childId state initialState srcId flags].
  rewrite Hv.
  eapply wp_mono.
  { eapply (Level.access_serves topo (invalidate topo cfg (Datatypes.S height)) c l a lid
      (fun x => x = ext w1) L) with (K := fun w => ext w = ext w1) (Lp := 2 ^ 32).
    - by apply (leaf_invalidate topo cfg kind).
    - apply (tl_topo _ _ _ _ _ _ Htl).
    - by apply (memory_access topo cfg hasEvRec kind).
    - apply leaf_K_ok.
    - done.
    - by split.
    - lia.
    - exact Hok1.
    - exact Hk.
    - exact Hlid.
    - exact Hpre1.
    - exact Hpf. }
  intros r w2 HP. wp_steps.
  - apply Z.leb_le. pose proof (Level.sp_cycle _ _ _ _ _ _ _ _ _ _ _ _ HP). cbn [cycle]. lia.
  - by apply (serve_post_ext _ _ _ _ _ _ _ _ _ w w1).
Qed.

End Hit.

(** ** An example

    Cache 0 over the terminal caches 1 and 2 and under memory 3, all with arrays of
    four lines.  Line 0 of every array holds address 64, which cache 1 has modified,
    and cache 2 asks for it. *)

Section Example_cache.
#[local] Existing Instance LRU.lru_policy.
#[local] Existing Instance LRU.lru_laws.

Definition ex_g : SetAssoc.config := SetAssoc.mkCfg 4 2.
Definition ex_hash (_ x : Z) : Z := Z.max 0 x.
Notation Arr := (SetAssoc.SetAssocArray LRU.LRUReplPolicy).

#[local] Instance ex_arr : CacheArray Arr := SetAssoc.sa_array ex_g ex_hash.
#[local] Instance ex_arrL2 : CacheArrayL2 Arr :=
  {| ca_lookupL2 := ca_lookup; ca_preinsertL2 := ca_preinsert; ca_postinsertL2 := ca_postinsert |}.

Lemma ex_g_ok : SetAssoc.cfg_ok ex_g.
Proof. split; cbn; [lia|done|lia|by exists 1]. Qed.

#[local] Instance ex_laws : CacheArrayLaws Arr := SetAssoc.sa_laws ex_g ex_hash ex_g_ok.

Definition ex_array : Arr :=
  SetAssoc.mkSA (fun id => if id =? 0 then 64 else 0) (LRU.init true).

Definition ex_cfg (_ : nat) : params := mkParams 10 2 "c"%string.
Definition ex_kind (i : nat) : object := if decide (i = 3)%nat then MemObj 100 else CacheObj.
Definition ex_shared : shared Arr :=
  mkShared (fun _ => ex_array) (mkGlobals 0 0 0 0 0 0) Timing.ex_sim.
Definition ex_world : world (shared Arr) :=
  mkWorld (states Level.ex_world) (dir Level.ex_world) (prof Level.ex_world) ex_shared.

Lemma ex_shared_array_inv : ca_inv ex_array.
Proof.
  split; [|done]. split; cbn.
  - intros id Hid. destruct (Z.eqb_spec id 0) as [->|]; [|done]. intros _. by vm_compute.
  - intros x y Hx Hy. destruct (Z.eqb_spec x 0), (Z.eqb_spec y 0); congruence.
Qed.

Lemma ex_two_levels : two_levels Level.ex_topo ex_cfg ex_kind 0 64 2.
Proof.
  destruct Level.ex_topo_ok as [T1 T2 T3 T4 T5]. split.
  - by split.
  - intros [|[|k]] Hk; cbn in Hk |- *; [by split; [|lia]..|lia].
  - done.
  - done.
  - exists 100. split; [reflexivity|lia].
Qed.

Lemma ex_leaf : leaf_ok Level.ex_topo 0 64 Level.ex_lid ex_shared.
Proof. intros k Hk. split; [exact ex_shared_array_inv|]. intros y [= <-]. by split. Qed.

Lemma hit_correct_witness :
  wp (cache_access Level.ex_topo ex_cfg (fun _ => false)
        (access Level.ex_topo ex_cfg (fun _ => false) ex_kind 2 2)
        (invalidate Level.ex_topo ex_cfg 2) 1 0
        (mkReq 64 GETS 1 (Line 2 0) 10 I 7 0)) ex_world
     (Level.serve_post Level.ex_topo 0 0 Level.ex_lid 2 GETS 0 1 20 ex_world).
Proof.
  apply (hit_correct Level.ex_topo ex_cfg (fun _ => false) ex_kind 1 1 1 0 0 64 Level.ex_lid 2
           ex_world GETS 1 0 10 7 0).
  - exact ex_two_levels.
  - exact ex_leaf.
  - reflexivity.
  - reflexivity.
  - reflexivity.
  - exact ex_shared_array_inv.
  - split; reflexivity.
  - reflexivity.
  - exact Level.ex_line.
  - cbn. lia.
  - reflexivity.
  - reflexivity.
  - done.
  - lia.
  - cbn. lia.
  - split; cbn; lia.
Defined.

(** The states of the three caches after it: the writer is downgraded and the level
    above holds the dirty data. *)
Example ex_hit :
  (w ← (cache_access Level.ex_topo ex_cfg (fun _ => false)
          (access Level.ex_topo ex_cfg (fun _ => false) ex_kind 2 2)
          (invalidate Level.ex_topo ex_cfg 2) 1 0
          (mkReq 64 GETS 1 (Line 2 0) 10 I 7 0) ex_world : res (Z * world (shared Arr)));
   Ok (w.1, states w.2 (Line 0 0), states w.2 (Line 1 0), states w.2 (Line 2 0)))
  = Ok (24, M, S, S).
Proof. vm_compute. reflexivity. Qed.

End Example_cache.

End Cache.
