(* ===== verification/FilterCache.v ===== *)
(** The filter in front of a core's L1 (filter_cache.h): a direct-mapped array of the
    line used last in each set, which answers hits without going to the cache.  The
    cache behind it is a parameter with the contract [L1Contract].

    [procMask] is a global of each process (zsim.h): it belongs to the process whose thread
    runs the code.  Every operation takes that mask; an invalidation is run by the process
    whose access caused it, which may be another one than that of the filter's core. *)
From S2P Require Import Prelude Effects MemHier Hash.
Import MemHier.

Module FilterCache.

Record FilterEntry := mkFE { rdAddr : Z; wrAddr : Z; availCycle : Z }.
Definition clear : FilterEntry := mkFE 0 0 0.

(** [-1L] as an [Address]. *)
Definition NONE : Z := 2 ^ 64 - 1.

Record filter := mkFilter {
  filterArray : Z -> FilterEntry;
  fGETSHit : Z;
  fGETXHit : Z;
  profNumPrefetches : Z
}.

Record config := mkCfg {
  numSets : Z;
  isPrefetcher : bool;
  srcId : Z;
  reqFlags : Z;
  lineBits : Z
}.

Definition setMask (g : config) : Z := numSets g - 1.

Section Filter.
Context {W : Type} (g : config).
Notation P := (prog (filter * W)).

(** [Cache::access] and [Cache::invalidate] of the cache behind the filter. *)
Context (cache_access : MemReq -> prog W Z) (cache_invalidate : InvReq -> prog W (Z * bool)).

Definition new : filter := mkFilter (fun _ => clear) 0 0 0.

Definition get_entry (idx : Z) : P FilterEntry := gets (fun w => filterArray w.1 idx).
Definition set_entry (idx : Z) (e : FilterEntry) : P unit :=
  modify (fun w => (mkFilter (<[idx := e]> (filterArray w.1)) (fGETSHit w.1) (fGETXHit w.1)
                      (profNumPrefetches w.1), w.2)).
Definition inc_hits (gets_ : bool) : P unit :=
  modify (fun w => (mkFilter (filterArray w.1)
                      (if gets_ then u64 (fGETSHit w.1 + 1) else fGETSHit w.1)
                      (if gets_ then fGETXHit w.1 else u64 (fGETXHit w.1 + 1))
                      (profNumPrefetches w.1), w.2)).
Definition inc_prefetches : P unit :=
  modify (fun w => (mkFilter (filterArray w.1) (fGETSHit w.1) (fGETXHit w.1)
                      (u64 (profNumPrefetches w.1 + 1)), w.2)).

Definition on_cache {A} (m : prog W A) : P A := fun w =>
  match m w.2 with Ok (a, w') => Ok (a, (w.1, w')) | Fail e => Fail e end.

(** [FilterCache::invalidate], run by a process with the mask [procMask]. *)
Definition invalidate (procMask : Z) (req : InvReq) : P (Z * bool) :=
  let idx := Z.land (inv_lineAddr req) (setMask g) in
  e ← get_entry idx;
  _ ← (if Z.lor (rdAddr e) procMask =? inv_lineAddr req
       then set_entry idx (mkFE NONE NONE (availCycle e)) else mret tt);
  on_cache (cache_invalidate req).

(** [FilterCache::replace].  The request carries the filter's lock, and the cache
    drops it before it takes its own: [env] is what invalidates the cache then, and with
    which mask. *)
Definition replace (procMask : Z) (env : list (Z * InvReq)) (vLineAddr idx : Z) (isLoad : bool) (curCycle : Z) : P Z :=
  let pLineAddr := Z.lor procMask vLineAddr in
  let req := mkReq pLineAddr (if isLoad then GETS else GETX) 0 Local curCycle I (srcId g)
               (reqFlags g) in
  _ ← loop (fun _ r => _ ← invalidate r.1 r.2; mret tt) tt env;
  respCycle ← on_cache (cache_access req);
  e ← get_entry idx;
  _ ← set_entry idx (mkFE vLineAddr (if isLoad then NONE else vLineAddr)
                       (if rdAddr e =? vLineAddr then availCycle e else respCycle));
  mret respCycle.

(** [load] without the prefetch. *)
Definition load_line (procMask : Z) (env : list (Z * InvReq)) (vAddr curCycle : Z) : P Z :=
  let vLineAddr := Z.shiftr vAddr (lineBits g) in
  let idx := Z.land vLineAddr (setMask g) in
  e ← get_entry idx;
  if vLineAddr =? rdAddr e then
    _ ← inc_hits true; mret (Z.max curCycle (availCycle e))
  else replace procMask env vLineAddr idx true curCycle.

(** [load]: [env2] is the [env] of the prefetch, which is a [load] that does not
    prefetch in turn ([handlePrefetch]). *)
Definition load (procMask : Z) (env env2 : list (Z * InvReq)) (vAddr curCycle : Z) (prefetch : bool) : P Z :=
  respCycle ← load_line procMask env vAddr curCycle;
  if isPrefetcher g && negb prefetch then
    let vLineAddr := Z.shiftr vAddr (lineBits g) in
    let pfAddr := u64 (Z.shiftl (vLineAddr + 1) (lineBits g)) in
    _ ← inc_prefetches;
    load_line procMask env2 pfAddr respCycle
  else mret respCycle.

Definition store (procMask : Z) (env : list (Z * InvReq)) (vAddr curCycle : Z) : P Z :=
  let vLineAddr := Z.shiftr vAddr (lineBits g) in
  let idx := Z.land vLineAddr (setMask g) in
  e ← get_entry idx;
  if vLineAddr =? wrAddr e then
    _ ← inc_hits false; mret (Z.max curCycle (availCycle e))
  else replace procMask env vLineAddr idx false curCycle.

Definition contextSwitch : P unit :=
  modify (fun w => (mkFilter (fun i => if (0 <=? i) && (i <? numSets g) then clear
                                       else filterArray w.1 i)
                      (fGETSHit w.1) (fGETXHit w.1) (profNumPrefetches w.1), w.2)).

(** What the core, other caches and the operating system make of a filter cache, with the
    mask of the process that does it; after a context switch a thread of the process with
    the mask [next] may run on the core. *)
Inductive op :=
  | Load (procMask : Z) (env env2 : list (Z * InvReq)) (vAddr curCycle : Z) (prefetch : bool)
  | Store (procMask : Z) (env : list (Z * InvReq)) (vAddr curCycle : Z)
  | Invalidate (procMask : Z) (req : InvReq)
  | ContextSwitch (next : Z).

Definition run_op (o : op) : P unit :=
  match o with
  | Load pm env env2 a c pf => _ ← load pm env env2 a c pf; mret tt
  | Store pm env a c => _ ← store pm env a c; mret tt
  | Invalidate pm req => _ ← invalidate pm req; mret tt
  | ContextSwitch _ => contextSwitch
  end.

Definition run_ops (l : list op) : P unit := loop (fun _ o => run_op o) tt l.

(** ** The contract of the cache

    [readable w p] and [writable w p]: the cache holds line [p], with permission to
    write it.  A line leaves the cache on an invalidation of it, or when an access to
    another line of its set replaces it. *)
Class L1Contract (readable writable : W -> Z -> Prop) := {
  l1_access req w r w' : IsGet (type req) = true -> cache_access req w = Ok (r, w') ->
    readable w' (lineAddr req) /\ (type req = GETX -> writable w' (lineAddr req)) /\
    forall q, Z.land q (setMask g) <> Z.land (lineAddr req) (setMask g) ->
      (readable w q -> readable w' q) /\ (writable w q -> writable w' q);
  l1_invalidate req w r w' : cache_invalidate req w = Ok (r, w') ->
    forall q, q <> inv_lineAddr req ->
      (readable w q -> readable w' q) /\ (writable w q -> writable w' q)
}.

(** Sets are a power of two; the mask of a process is above the set bits. *)
Definition cfg_ok : Prop := exists k, 0 <= k /\ numSets g = 2 ^ k.
Definition mask_ok (pm : Z) : Prop := Z.land pm (setMask g) = 0.

(** With a process with mask [pm] on the core: an invalidation of one of its lines is run
    by a process with this mask. *)
Definition inv_ok (pm : Z) (i : Z * InvReq) : Prop :=
  i.1 = pm \/ forall v, inv_lineAddr i.2 <> Z.lor pm v.

(** The accesses are those of the process on the core, which context switches change. *)
Fixpoint ops_ok (pm : Z) (l : list op) : Prop :=
  match l with
  | [] => True
  | Load pm' env env2 _ _ _ :: l => pm' = pm /\ Forall (inv_ok pm) (env ++ env2) /\ ops_ok pm l
  | Store pm' env _ _ :: l => pm' = pm /\ Forall (inv_ok pm) env /\ ops_ok pm l
  | Invalidate pm' req :: l => inv_ok pm (pm', req) /\ ops_ok pm l
  | ContextSwitch next :: l => mask_ok next /\ ops_ok next l
  end.

(** The process on the core afterwards. *)
Fixpoint on_core (pm : Z) (l : list op) : Z :=
  match l with
  | [] => pm
  | ContextSwitch next :: l => on_core next l
  | _ :: l => on_core pm l
  end.

Context (readable writable : W -> Z -> Prop).
Context {L1 : L1Contract readable writable}.

(** The filter is sound: what it would hit on is in the cache, in the set of the
    entry.  A cleared entry holds address 0. *)
Definition entry_ok (pm : Z) (w : W) (idx : Z) (e : FilterEntry) : Prop :=
  (rdAddr e <> NONE -> rdAddr e <> 0 ->
     Z.land (rdAddr e) (setMask g) = idx /\ readable w (Z.lor pm (rdAddr e))) /\
  (wrAddr e <> NONE -> wrAddr e <> 0 ->
     wrAddr e = rdAddr e /\ writable w (Z.lor pm (wrAddr e))).

Definition sound (pm : Z) (s : filter * W) : Prop :=
  forall idx, 0 <= idx < numSets g -> entry_ok pm s.2 idx (filterArray s.1 idx).

Context (Hg : cfg_ok).

Lemma index_range x : 0 <= Z.land x (setMask g) < numSets g.
Proof.
  destruct Hg as (k & Hk & E). unfold setMask. rewrite E, Bits.land_mask_mod by done.
  apply Z.mod_pos_bound. apply Z.pow_pos_nonneg; lia.
Qed.

(** The set of a line is the set of its virtual address. *)
Lemma set_of_phys pm v : mask_ok pm -> Z.land (Z.lor pm v) (setMask g) = Z.land v (setMask g).
Proof. intros Hm. rewrite Z.land_lor_distr_l, Hm. apply Z.lor_0_l. Qed.

Definition drop_entry (pm : Z) (req : InvReq) (f : filter) : filter :=
  let idx := Z.land (inv_lineAddr req) (setMask g) in
  if Z.lor (rdAddr (filterArray f idx)) pm =? inv_lineAddr req then
    mkFilter (<[idx := mkFE NONE NONE (availCycle (filterArray f idx))]> (filterArray f))
      (fGETSHit f) (fGETXHit f) (profNumPrefetches f)
  else f.

Lemma invalidate_eq pm req f w :
  invalidate pm req (f, w) =
  match cache_invalidate req w with
  | Ok (b, w') => Ok (b, (drop_entry pm req f, w'))
  | Fail e => Fail e
  end.
Proof.
  unfold invalidate, drop_entry, get_entry, set_entry, on_cache, mbind, prog_bind, gets.
  cbn [fst snd]. destruct (_ =? _); reflexivity.
Qed.

Lemma sound_invalidate pm i s r s' :
  mask_ok pm -> inv_ok pm i -> sound pm s -> invalidate i.1 i.2 s = Ok (r, s') -> sound pm s'.
Proof.
  intros Hm Hi Hs. destruct s as [f w], i as [pm' req]. cbn [fst snd]. rewrite invalidate_eq. unfold drop_entry.
  set (idx := Z.land (inv_lineAddr req) (setMask g)).
  set (e := filterArray f idx).
  assert (Hp : forall q, q <> inv_lineAddr req -> forall b w', cache_invalidate req w = Ok (b, w') ->
    (readable w q -> readable w' q) /\ (writable w q -> writable w' q))
    by (intros q Hq b w' Hc; by eapply l1_invalidate).
  (* an entry of another line, or of another set, survives *)
  assert (Hkeep : forall i b w', 0 <= i < numSets g -> cache_invalidate req w = Ok (b, w') ->
    (i = idx -> Z.lor (rdAddr e) pm' <> inv_lineAddr req) -> entry_ok pm w' i (filterArray f i)).
  { intros i b w' Hri Hc Hne. destruct (Hs i Hri) as [H1 H2]. cbn [fst snd] in H1, H2.
    assert (Hother : rdAddr (filterArray f i) <> NONE -> rdAddr (filterArray f i) <> 0 ->
      Z.lor pm (rdAddr (filterArray f i)) <> inv_lineAddr req).
    { intros N0 N1 Heq. destruct (H1 N0 N1) as [Hset _].
      destruct Hi as [E|Hno]; cbn [fst snd] in *; [|by destruct (Hno (rdAddr (filterArray f i)))]. subst pm'.
      apply Hne; [unfold idx; by rewrite <- Heq, set_of_phys|].
      assert (i = idx) as -> by (unfold idx; by rewrite <- Heq, set_of_phys).
      by rewrite Z.lor_comm. }
    split.
    - intros N0 N1. destruct (H1 N0 N1) as [H3 H4]. split; [done|].
      destruct (Hp _ (Hother N0 N1) b w' Hc) as [K1 _]. by apply K1.
    - intros N0 N1. destruct (H2 N0 N1) as [H3 H4]. split; [done|]. rewrite H3 in *.
      destruct (Hp _ (Hother N0 N1) b w' Hc) as [_ K2]. by apply K2. }
  change (filterArray f (Z.land (inv_lineAddr req) (setMask g))) with e.
  destruct (cache_invalidate req w) as [[b w']|] eqn:Hc; [|done]. intros [= _ <-] i Hri.
  cbn [fst snd].
  destruct (Z.eqb_spec (Z.lor (rdAddr e) pm') (inv_lineAddr req)) as [Heq|Hne];
    cbn [filterArray].
  - destruct (decide (i = idx)) as [->|Hii].
    + rewrite fn_lookup_insert. split; cbn; done.
    + rewrite fn_lookup_insert_ne by done. eapply Hkeep; done.
  - eapply Hkeep; done.
Qed.

Lemma sound_env pm env : mask_ok pm -> Forall (inv_ok pm) env -> forall s r s', sound pm s ->
  loop (fun _ r => _ ← invalidate r.1 r.2; mret tt) tt env s = Ok (r, s') -> sound pm s'.
Proof.
  intros Hm. induction 1 as [|q env Hq _ IH]; intros s r s' Hs; cbn [loop]; [by intros [= _ <-]|].
  intros ([] & s1 & (b & s2 & E & [= <-])%prog_bind_Ok & E')%prog_bind_Ok.
  eapply IH; [|exact E']. by eapply sound_invalidate.
Qed.

Lemma sound_replace pm env v idx isLoad cyc s r s' : mask_ok pm -> Forall (inv_ok pm) env ->
  idx = Z.land v (setMask g) -> sound pm s -> replace pm env v idx isLoad cyc s = Ok (r, s') -> sound pm s'.
Proof.
  intros Hm He Hidx Hs. unfold replace. set (req := mkReq _ _ _ _ _ _ _ _).
  intros ([] & [f w] & E & (resp & s2 & E2 & E3)%prog_bind_Ok)%prog_bind_Ok.
  pose proof (sound_env pm env Hm He _ _ _ Hs E) as Hs1. clear Hs E.
  unfold on_cache in E2. cbn [fst snd] in E2.
  destruct (cache_access req w) as [[resp' w']|] eqn:Hc; [|done]. injection E2 as -> <-.
  injection E3 as _ <-. intros i Hi. cbn [fst snd filterArray].
  destruct (l1_access req w resp w') as (H1 & H2 & H3); [by destruct isLoad|done|].
  cbn [lineAddr type req] in H1, H2, H3. rewrite set_of_phys in H3 by done.
  destruct (decide (i = idx)) as [->|Hne].
  - rewrite fn_lookup_insert. split; cbn.
    + intros _ _. by split.
    + destruct isLoad; [done|]. intros _ _. split; [done|]. by apply H2.
  - rewrite fn_lookup_insert_ne by done. destruct (Hs1 i Hi) as [K1 K2]. cbn [fst snd] in K1, K2.
    split.
    + intros N0 N1. destruct (K1 N0 N1) as [J1 J2]. split; [done|].
      apply H3; [rewrite set_of_phys by done; congruence|done].
    + intros N0 N1. destruct (K2 N0 N1) as [J1 J2]. split; [done|]. rewrite J1 in *.
      destruct (K1 N0 N1) as [J3 _]. apply H3; [rewrite set_of_phys by done; congruence|done].
Qed.

Lemma sound_load_line pm env a c s r s' : mask_ok pm -> Forall (inv_ok pm) env ->
  sound pm s -> load_line pm env a c s = Ok (r, s') -> sound pm s'.
Proof.
  intros Hm He Hs (e & s2 & [= _ <-] & E2)%prog_bind_Ok.
  destruct (Z.shiftr a (lineBits g) =? rdAddr e); [by injection E2 as _ <-|].
  eapply (sound_replace pm env); [done|done| |done|exact E2]. done.
Qed.

Lemma sound_op pm o l s u s' : mask_ok pm -> ops_ok pm (o :: l) -> sound pm s -> run_op o s = Ok (u, s') ->
  let pm' := on_core pm [o] in mask_ok pm' /\ ops_ok pm' l /\ sound pm' s' /\ on_core pm (o :: l) = on_core pm' l.
Proof.
  intros Hm Ho Hs. destruct o as [pm' env env2 a c pf|pm' env a c|pm' req|next]; cbn [run_op ops_ok on_core] in *.
  - destruct Ho as (-> & [He He2]%Forall_app & Hl).
    intros (r & s1 & E & [= _ <-])%prog_bind_Ok. unfold load in E. split; [done|]. split; [done|]. split; [|done].
    apply prog_bind_Ok in E as (r1 & s2 & E1 & E2). apply (sound_load_line pm) in E1; [|done..].
    destruct (isPrefetcher g && negb pf); [|by injection E2 as _ <-].
    apply prog_bind_Ok in E2 as (r2 & s3 & [= _ <-] & E3).
    eapply (sound_load_line pm); [done|done| |exact E3]. exact E1.
  - destruct Ho as (-> & He & Hl).
    intros (r & s1 & E & [= _ <-])%prog_bind_Ok. unfold store in E. split; [done|]. split; [done|]. split; [|done].
    apply prog_bind_Ok in E as (e & s2 & [= _ <-] & E2).
    destruct (Z.shiftr a (lineBits g) =? wrAddr e); [by injection E2 as _ <-|].
    eapply (sound_replace pm env); [done|done| |done|exact E2]. done.
  - destruct Ho as (Hi & Hl). intros (r & s1 & E & [= _ <-])%prog_bind_Ok. split; [done|]. split; [done|]. split; [|done].
    by eapply (sound_invalidate pm (pm', req)).
  - destruct Ho as (Hn & Hl). intros [= _ <-]. split; [done|]. split; [done|]. split; [|done]. intros i Hi. cbn.
    replace ((0 <=? i) && (i <? numSets g)) with true by lia. split; done.
Qed.

Lemma sound_ops ops : forall pm s u s', mask_ok pm -> ops_ok pm ops -> sound pm s -> run_ops ops s = Ok (u, s') ->
  sound (on_core pm ops) s'.
Proof.
  unfold run_ops. induction ops as [|o ops IH]; intros pm s u s' Hm Ho Hs; cbn [loop]; [by intros [= _ <-]|].
  intros ([] & s1 & E & E')%prog_bind_Ok. destruct (sound_op pm o ops s () s1 Hm Ho Hs E) as (H1 & H2 & H3 & ->).
  eapply IH; done.
Qed.

(** C39: the filter hides no miss from the process on its core.  Whatever sequence of loads
    (with or without prefetch) and stores of that process, invalidations, also while a
    miss waits for the cache, and context switches to other processes a fresh filter has
    been through, as long as the lines of the process on the core are invalidated by this
    process, a load or a store that hits is of a line the cache holds, with write permission
    for the store; the hit returns without asking the cache, when the line is available.
    Line 0 is the exception: a cleared entry would hit on it.  An invalidation of such a line
    that another process runs leaves the filter with a stale hit ([stale_hit]). *)
Theorem filter_sound pm0 ops w0 f w u vAddr cyc env :
  mask_ok pm0 -> ops_ok pm0 ops -> run_ops ops (new, w0) = Ok (u, (f, w)) ->
  let pm := on_core pm0 ops in
  let v := Z.shiftr vAddr (lineBits g) in
  let e := filterArray f (Z.land v (setMask g)) in
  v <> 0 -> v <> NONE ->
  (v = rdAddr e -> readable w (Z.lor pm v) /\
     exists f', load_line pm env vAddr cyc (f, w) = Ok (Z.max cyc (availCycle e), (f', w)) /\
       filterArray f' = filterArray f) /\
  (v = wrAddr e -> writable w (Z.lor pm v) /\
     exists f', store pm env vAddr cyc (f, w) = Ok (Z.max cyc (availCycle e), (f', w)) /\
       filterArray f' = filterArray f).
Proof.
  intros Hm0 Ho Hrun pm v e Hv0 Hv1.
  assert (Hs : sound pm (f, w)) by (eapply (sound_ops ops pm0 (new, w0)); [done|done|intros i Hi; by split|exact Hrun]).
  destruct (Hs (Z.land v (setMask g)) (index_range v)) as [H1 H2]. cbn [fst snd] in H1, H2.
  fold e in H1, H2. split; intros Heq; rewrite <- Heq in H1, H2 || rewrite <- Heq in H2.
  - split; [by apply H1|]. unfold load_line, get_entry, mbind, prog_bind, gets. cbn [fst].
    subst v e. rewrite (proj2 (Z.eqb_eq _ _) Heq). by eexists.
  - split; [by apply H2|]. unfold store, get_entry, mbind, prog_bind, gets. cbn [fst].
    subst v e. rewrite (proj2 (Z.eqb_eq _ _) Heq). by eexists.
Qed.

End Filter.

(** ** An example

    A cache that never runs out of room: which lines it holds, and which of them it
    may write. *)

Definition ex_access (req : MemReq) : prog (Z -> option bool) Z := fun w =>
  let wr := bool_decide (type req = GETX) || default false (w (lineAddr req)) in
  Ok (cycle req + 4, <[lineAddr req := Some wr]> w).
Definition ex_invalidate (req : InvReq) : prog (Z -> option bool) (Z * bool) := fun w =>
  Ok ((inv_cycle req, false), <[inv_lineAddr req := None]> w).
Definition ex_cfg : config := mkCfg 4 true 0 0 6.

#[export] Instance ex_contract :
  L1Contract ex_cfg ex_access ex_invalidate (fun w p => w p <> None) (fun w p => w p = Some true).
Proof.
  split.
  - intros req w r w' Ht [= _ <-]. rewrite fn_lookup_insert. split_and!; [done| |].
    + intros ->. done.
    + intros q Hq. rewrite fn_lookup_insert_ne; [done|congruence].
  - intros req w r w' [= _ <-] q Hq. by rewrite fn_lookup_insert_ne.
Qed.

Lemma ex_filter_cfg_ok : cfg_ok ex_cfg.
Proof. by exists 2. Qed.

(** A load and a store of line 65 by the process with mask 4096, whose prefetches bring line
    66, which it invalidates; then stores to line 65 hit.  Before, another process ran on the
    core. *)
Definition ex_ops : list op :=
  [Load 8192 [] [] 640 2 true; ContextSwitch 4096;
   Load 4096 [] [] 4160 5 false; Store 4096 [] 4160 30; Invalidate 4096 (mkInv 4162 INV false 40 0)].

Lemma ex_ops_ok : ops_ok ex_cfg 8192 ex_ops.
Proof. repeat split; try constructor; done. Qed.

#[local] Notation ex_run := (run_ops ex_cfg ex_access ex_invalidate ex_ops (new, fun _ => None)).

Lemma filter_sound_witness :
  exists u f w, ex_run = Ok (u, (f, w)) /\ w (Z.lor 4096 65) = Some true /\
    exists f', store ex_cfg ex_access ex_invalidate 4096 [] 4163 50 (f, w) =
      Ok (Z.max 50 (availCycle (filterArray f 1)), (f', w)) /\ filterArray f' = filterArray f.
Proof.
  assert (Hr : match ex_run with Ok (_, (f, _)) => 65 = wrAddr (filterArray f 1) | Fail _ => False end)
    by (vm_compute; reflexivity).
  destruct ex_run as [[u [f w]]|] eqn:E; [|done]. exists u, f, w. split; [done|].
  pose proof (filter_sound ex_cfg ex_access ex_invalidate _ _ ex_filter_cfg_ok 8192 ex_ops (fun _ => None) f w u
    4163 50 [] eq_refl ex_ops_ok E) as H. cbv zeta in H.
  change (on_core 8192 ex_ops) with 4096 in H. change (Z.shiftr 4163 (lineBits ex_cfg)) with 65 in H.
  change (Z.land 65 (setMask ex_cfg)) with 1 in H.
  destruct (H ltac:(done) ltac:(done)) as [_ Hst]. exact (Hst Hr).
Defined.

(** The access of a process with another mask invalidates the line: the cache gives it up, and
    the filter, which looks for the line with the mask of that process, still hits. *)
Example stale_hit :
  match run_ops ex_cfg ex_access ex_invalidate
      [Load 4096 [] [] 4160 5 true; Invalidate 8192 (mkInv (Z.lor 4096 65) INV false 40 0)] (new, fun _ => None) with
  | Ok (_, (f, w)) =>
      (w (Z.lor 4096 65), match load_line ex_cfg ex_access ex_invalidate 4096 [] 4160 50 (f, w) with
                          | Ok (r, (f', w')) => (r, fGETSHit f', w' (Z.lor 4096 65))
                          | Fail _ => (0, 0, None)
                          end)
  | Fail _ => (Some true, (0, 0, None))
  end = (None, (50, 1, None)).
Proof. vm_compute. reflexivity. Qed.

End FilterCache.
