(* ===== verification/BarrierIface.v ===== *)
(** What the phase barrier promises to the scheduler that calls it: where each
    context is in the current phase, and how the calls move it.  Barrier.v
    implements the interface; Scheduler.v is proved against it. *)
From S2P Require Import Prelude.

Module BarrierIface.

(** Out of the barrier; waiting for its turn in this phase; waiting for the next
    phase; running. *)
Inductive turn := Away | Turn | Waits | Runs.
#[export] Instance turn_eq_dec : EqDecision turn.
Proof. solve_decision. Defined.

(** A thread moves by getting its turn only. *)
Definition adv (s s' : turn) : Prop := s' = s \/ (s = Turn /\ s' = Runs).

(** The phase goes to its next one. *)
Definition next (s s' : turn) : Prop :=
  s = Away /\ s' = Away \/ s = Waits /\ (s' = Turn \/ s' = Runs).

Class PhaseBarrier (B : Type) := {
  bar_join : nat -> B -> res B;
  bar_leave : nat -> B -> res B;
  bar_sync : nat -> B -> res B;
  bar_phases : B -> nat
}.

(** A call that stops context [c], leaving it at [s]: the phase goes on or ends. *)
Definition stop_spec {B} `{PhaseBarrier B} (inv : B -> Prop) (view : B -> nat -> turn)
    (c : nat) (s : turn) (b : B) (r : res B) : Prop :=
  match r with
  | Ok b' => inv b' /\
      (bar_phases b' = bar_phases b /\ view b' c = s /\
         (forall x, x <> c -> adv (view b x) (view b' x)) \/
       bar_phases b' = S (bar_phases b) /\ next s (view b' c) /\
         (forall x, x <> c -> next (view b x) (view b' x)))
  | Fail e => e = NoFuel
  end.

(** [N] is the number of contexts. *)
Class PhaseBarrierLaws (B : Type) `{PhaseBarrier B} (N : nat) := {
  bar_inv : B -> Prop;
  bar_view : B -> nat -> turn;
  bar_join_ok c b : bar_inv b -> (c < N)%nat -> bar_view b c = Away ->
    exists b', bar_join c b = Ok b' /\ bar_inv b' /\ bar_phases b' = bar_phases b /\
      (bar_view b' c = Turn \/ bar_view b' c = Runs) /\
      (forall x, x <> c -> adv (bar_view b x) (bar_view b' x));
  bar_sync_ok c b : bar_inv b -> (c < N)%nat -> bar_view b c = Runs ->
    stop_spec bar_inv bar_view c Waits b (bar_sync c b);
  bar_leave_ok c b : bar_inv b -> (c < N)%nat -> bar_view b c = Runs ->
    stop_spec bar_inv bar_view c Away b (bar_leave c b);
  bar_live b c : bar_inv b -> bar_view b c = Turn \/ bar_view b c = Waits ->
    exists c', (c' < N)%nat /\ bar_view b c' = Runs
}.

End BarrierIface.
