(* ===== verification/Barrier.v ===== *)
(** The phase barrier (barrier.h): at most [parallelThreads] of the threads that
    joined run at a time, every waiting thread runs once per phase, and the phase
    ends when the last of them stops. *)
From S2P Require Import Prelude Mtrand BarrierIface.

Module Barrier.
Import BarrierIface Rand.

Inductive State := OFFLINE | WAITING | RUNNING | LEFT.
#[export] Instance State_eq_dec : EqDecision State.
Proof. solve_decision. Defined.

Record ThreadSyncInfo := mkTSI { state : State; futexWord : Z; lastIdx : nat }.

Section Barrier.
Context {G : Type} `{RandSource G}.

(** [runList] holds its [runListSize] live entries; [phases] counts the calls of
    [sched->callback()]. *)
Record Barrier := mkBar {
  parallelThreads : Z;
  threadList : nat -> ThreadSyncInfo;
  runList : list nat;
  curThreadIdx : nat;
  runningThreads : Z;
  leftThreads : Z;
  phaseCount : Z;
  rnd : G;
  phases : nat
}.

Definition runListSize (b : Barrier) : nat := length (runList b).

Definition new (parallel : Z) (g : G) : Barrier :=
  mkBar parallel (fun _ => mkTSI OFFLINE 0 0) [] 0 0 0 0 g 0.

Definition set_thread (t : nat) (i : ThreadSyncInfo) (b : Barrier) : Barrier :=
  mkBar (parallelThreads b) (<[t := i]> (threadList b)) (runList b) (curThreadIdx b)
    (runningThreads b) (leftThreads b) (phaseCount b) (rnd b) (phases b).
Definition set_state (t : nat) (s : State) (b : Barrier) : Barrier :=
  let i := threadList b t in set_thread t (mkTSI s (futexWord i) (lastIdx i)) b.
Definition set_futexWord (t : nat) (x : Z) (b : Barrier) : Barrier :=
  let i := threadList b t in set_thread t (mkTSI (state i) x (lastIdx i)) b.
Definition set_lastIdx (t : nat) (x : nat) (b : Barrier) : Barrier :=
  let i := threadList b t in set_thread t (mkTSI (state i) (futexWord i) x) b.
Definition set_runList (l : list nat) (b : Barrier) : Barrier :=
  mkBar (parallelThreads b) (threadList b) l (curThreadIdx b)
    (runningThreads b) (leftThreads b) (phaseCount b) (rnd b) (phases b).
Definition set_cur (c : nat) (b : Barrier) : Barrier :=
  mkBar (parallelThreads b) (threadList b) (runList b) c
    (runningThreads b) (leftThreads b) (phaseCount b) (rnd b) (phases b).
Definition set_running (n : Z) (b : Barrier) : Barrier :=
  mkBar (parallelThreads b) (threadList b) (runList b) (curThreadIdx b)
    n (leftThreads b) (phaseCount b) (rnd b) (phases b).
Definition set_left (n : Z) (b : Barrier) : Barrier :=
  mkBar (parallelThreads b) (threadList b) (runList b) (curThreadIdx b)
    (runningThreads b) n (phaseCount b) (rnd b) (phases b).
Definition set_phaseCount (n : Z) (b : Barrier) : Barrier :=
  mkBar (parallelThreads b) (threadList b) (runList b) (curThreadIdx b)
    (runningThreads b) (leftThreads b) n (rnd b) (phases b).
Definition set_rnd (g : G) (b : Barrier) : Barrier :=
  mkBar (parallelThreads b) (threadList b) (runList b) (curThreadIdx b)
    (runningThreads b) (leftThreads b) (phaseCount b) g (phases b).
Definition callback (b : Barrier) : Barrier :=
  mkBar (parallelThreads b) (threadList b) (runList b) (curThreadIdx b)
    (runningThreads b) (leftThreads b) (phaseCount b) (rnd b) (S (phases b)).

(** Exchange positions [i] and [j] of the run list. *)
Definition swap_at (i j : nat) (b : Barrier) : Barrier :=
  let itid := runList b !!! i in
  let jtid := runList b !!! j in
  set_lastIdx jtid i (set_lastIdx itid j (set_runList (<[j := itid]> (<[i := jtid]> (runList b))) b)).

(** One iteration of [checkRunList]. *)
Definition wake_next (b : Barrier) : res Barrier :=
  let idx := curThreadIdx b in
  let b := set_cur (S idx) b in
  let wtid := runList b !!! idx in
  if decide (state (threadList b wtid) = WAITING) then
    let b := set_lastIdx wtid idx (set_state wtid RUNNING b) in
    if futexWord (threadList b wtid) =? 1 then
      Ok (set_running (u32 (runningThreads b + 1)) (set_futexWord wtid 0 b))
    else panic
  else Ok b.

Fixpoint checkRunList_loop (n : nat) (b : Barrier) : res Barrier :=
  if (runningThreads b <? parallelThreads b) && bool_decide (curThreadIdx b < runListSize b)%nat then
    match n with
    | O => Fail NoFuel
    | S n => b ← wake_next b; checkRunList_loop n b
    end
  else Ok b.

Definition checkRunList (b : Barrier) : res Barrier := checkRunList_loop (runListSize b) b.

(** The pass that takes the threads that left off the list: [n] bounds its
    iterations. *)
Fixpoint cleanup (n : nat) (idx : nat) (b : Barrier) : res Barrier :=
  if decide (idx < runListSize b)%nat then
    match n with
    | O => Fail NoFuel
    | S n =>
        let wtid := runList b !!! idx in
        if decide (state (threadList b wtid) = LEFT) then
          let b := set_state wtid OFFLINE b in
          let newSize := runListSize b in
          let stid := runList b !!! (newSize - 1)%nat in
          let b := set_runList (take (newSize - 1) (<[idx := stid]> (runList b))) b in
          cleanup n idx (set_lastIdx stid idx b)
        else cleanup n (S idx) b
    end
  else Ok b.

Definition cleanup_pass (b : Barrier) : res Barrier :=
  _ ← assert_that (bool_decide (0 < runListSize b)%nat);
  let size := runListSize b in
  b ← cleanup size 0 b;
  _ ← assert_that (Z.of_nat size - Z.of_nat (runListSize b) =? leftThreads b);
  Ok (set_left 0 b).

(** The Fisher-Yates shuffle, from position [i] down. *)
Fixpoint shuffle (i : nat) (b : Barrier) : res Barrier :=
  match i with
  | O => Ok b
  | S i' =>
      match randInt (rnd b) (Z.of_nat i) with
      | None => Fail NoFuel
      | Some (j, g) => shuffle i' (swap_at i (Z.to_nat j) (set_rnd g b))
      end
  end.

Definition checkEndPhase (b : Barrier) : res Barrier :=
  if bool_decide (curThreadIdx b = runListSize b) && (runningThreads b =? 0) then
    if leftThreads b =? Z.of_nat (runListSize b) then Ok b
    else
      let b := set_cur 0 (callback b) in
      let old := phaseCount b in
      let b := set_phaseCount (u32 (old + 1)) b in
      b ← (if Z.land old 31 =? 0 then cleanup_pass b else Ok b);
      if parallelThreads b <? Z.of_nat (runListSize b) then shuffle (runListSize b - 1) b
      else Ok b
  else Ok b.

Definition tryWakeNext (b : Barrier) : res Barrier :=
  b ← checkRunList b;
  b ← checkEndPhase b;
  checkRunList b.

(** The callers block until their thread is woken; the operation ends before. *)
Definition join (tid : nat) (b : Barrier) : res Barrier :=
  let s := state (threadList b tid) in
  _ ← assert_that (bool_decide (s = LEFT \/ s = OFFLINE));
  b ← (if decide (s = OFFLINE) then Ok (set_runList (runList b ++ [tid]) b)
       else
         let b := set_left (u32 (leftThreads b - 1)) b in
         let li := lastIdx (threadList b tid) in
         if decide (li < curThreadIdx b)%nat then
           let cur := (curThreadIdx b - 1)%nat in
           _ ← assert_that (bool_decide (runList b !! li = Some tid));
           Ok (swap_at li cur (set_cur cur b))
         else Ok b);
  tryWakeNext (set_futexWord tid 1 (set_state tid WAITING b)).

Definition leave (tid : nat) (b : Barrier) : res Barrier :=
  if decide (state (threadList b tid) = RUNNING) then
    tryWakeNext (set_running (u32 (runningThreads b - 1))
      (set_left (u32 (leftThreads b + 1)) (set_state tid LEFT b)))
  else
    _ ← assert_that (bool_decide (state (threadList b tid) = WAITING));
    Ok (set_left (u32 (leftThreads b + 1)) (set_state tid LEFT b)).

Definition sync (tid : nat) (b : Barrier) : res Barrier :=
  _ ← assert_that (bool_decide (state (threadList b tid) = RUNNING));
  tryWakeNext (set_running (u32 (runningThreads b - 1)) (set_state tid WAITING (set_futexWord tid 1 b))).

(** ** Counting threads by state *)

Definition count (s : State) (tl : nat -> ThreadSyncInfo) (l : list nat) : nat :=
  length (filter (fun t => state (tl t) = s) l).

#[local] Arguments count : simpl never.

#[local] Instance count_perm s tl : Proper ((≡ₚ) ==> eq) (count s tl).
Proof. intros l1 l2 Hl. unfold count. by rewrite Hl. Qed.

Lemma count_cons s tl t l :
  count s tl (t :: l) = ((if decide (state (tl t) = s) then 1 else 0) + count s tl l)%nat.
Proof. unfold count. rewrite filter_cons. by destruct (decide _). Qed.

Lemma count_ext s tl tl' l :
  (forall t, t ∈ l -> state (tl t) = state (tl' t)) -> count s tl l = count s tl' l.
Proof.
  induction l as [|t l IH]; intros Hl; [done|]. rewrite !count_cons, (Hl t) by left.
  rewrite IH; [done|]. intros x Hx. apply Hl. by right.
Qed.

Lemma count_upd s tl t i l :
  NoDup l -> t ∈ l ->
  (count s (<[t := i]> tl) l + (if decide (state (tl t) = s) then 1 else 0) =
   count s tl l + (if decide (state i = s) then 1 else 0))%nat.
Proof.
  intros Hnd Ht. apply elem_of_Permutation in Ht as [k Hk]. rewrite Hk in Hnd |- *.
  apply NoDup_cons in Hnd as [Hn _]. rewrite !count_cons, fn_lookup_insert.
  rewrite (count_ext s (<[t := i]> tl) tl); [destruct (decide _), (decide _); lia|].
  intros x Hx. rewrite fn_lookup_insert_ne; [done|congruence].
Qed.

Lemma count_notin s tl t i l : t ∉ l -> count s (<[t := i]> tl) l = count s tl l.
Proof. intros Ht. apply count_ext. intros x Hx. rewrite fn_lookup_insert_ne; [done|congruence]. Qed.

Lemma count_pos s tl t l : t ∈ l -> state (tl t) = s -> (0 < count s tl l)%nat.
Proof.
  intros Ht Hs. apply elem_of_Permutation in Ht as [k ->]. rewrite count_cons, decide_True by done. lia.
Qed.

Lemma count_ex s tl l : (0 < count s tl l)%nat -> exists t, t ∈ l /\ state (tl t) = s.
Proof.
  induction l as [|t l IH]; [unfold count; cbn; lia|]. rewrite count_cons.
  destruct (decide _) as [Hs|].
  - intros _. exists t. split; [left|done].
  - intros Hc. destruct IH as (x & Hx & Hs); [lia|]. exists x. split; [by right|done].
Qed.

Lemma count_app s tl l k : count s tl (l ++ k) = (count s tl l + count s tl k)%nat.
Proof. unfold count. by rewrite filter_app, length_app. Qed.

Lemma count_not s tl l : (forall t, t ∈ l -> state (tl t) <> s) -> count s tl l = 0%nat.
Proof.
  intros Hn. induction l as [|t l IH]; [done|]. rewrite count_cons, decide_False by (apply Hn; by left).
  apply IH. intros x Hx. apply Hn. by right.
Qed.

Lemma count_le s tl l : (count s tl l <= length l)%nat.
Proof. apply length_filter. Qed.

Lemma count_all s tl l t : count s tl l = length l -> t ∈ l -> state (tl t) = s.
Proof.
  induction l as [|x l IH]; [intros _ Ht; by apply elem_of_nil in Ht|].
  rewrite count_cons. cbn. pose proof (count_le s tl l).
  destruct (decide (state (tl x) = s)); intros Hc Ht; [|lia].
  apply elem_of_cons in Ht as [->|Ht]; [done|]. apply IH; [lia|done].
Qed.

(** ** The invariant *)

Context {GL : RandLaws G}.

Record inv (b : Barrier) : Prop := {
  i_par : 0 < parallelThreads b < 2 ^ 32;
  i_size : Z.of_nat (runListSize b) < 2 ^ 32;
  i_nodup : NoDup (runList b);
  i_mem t : t ∈ runList b <-> state (threadList b t) <> OFFLINE;
  i_running : runningThreads b = Z.of_nat (count RUNNING (threadList b) (runList b));
  i_left : leftThreads b = Z.of_nat (count LEFT (threadList b) (runList b));
  i_max : runningThreads b <= parallelThreads b;
  i_cur : (curThreadIdx b <= runListSize b)%nat;
  i_before i t : runList b !! i = Some t -> state (threadList b t) = RUNNING ->
    (i < curThreadIdx b)%nat;
  i_word t : state (threadList b t) = WAITING -> futexWord (threadList b t) = 1;
  i_placed t : state (threadList b t) = RUNNING \/ state (threadList b t) = LEFT ->
    runList b !! lastIdx (threadList b t) = Some t;
  i_rnd : rand_ok (rnd b)
}.

(** The stops left in this phase: threads that run, and threads whose turn is to come. *)
Definition work (b : Barrier) : Z :=
  runningThreads b + Z.of_nat (count WAITING (threadList b) (drop (curThreadIdx b) (runList b))).

(** What waking threads does not change, and what it does. *)
Record woke (b b' : Barrier) : Prop := {
  w_par : parallelThreads b' = parallelThreads b;
  w_list : runList b' = runList b;
  w_left : leftThreads b' = leftThreads b;
  w_phases : phases b' = phases b;
  w_count : phaseCount b' = phaseCount b;
  w_cur : (curThreadIdx b <= curThreadIdx b')%nat;
  w_running : runningThreads b <= runningThreads b';
  w_state t : state (threadList b' t) = state (threadList b t) \/
    (state (threadList b t) = WAITING /\ state (threadList b' t) = RUNNING /\
     exists i, (curThreadIdx b <= i)%nat /\ runList b !! i = Some t);
  w_seen i t : (curThreadIdx b <= i < curThreadIdx b')%nat -> runList b !! i = Some t ->
    state (threadList b' t) <> WAITING;
  w_work : work b' = work b
}.

Lemma woke_refl b : woke b b.
Proof. split; try done; [by left|lia]. Qed.

Lemma woke_trans b1 b2 b3 : woke b1 b2 -> woke b2 b3 -> woke b1 b3.
Proof.
  intros A B. split.
  - by rewrite (w_par _ _ B), (w_par _ _ A).
  - by rewrite (w_list _ _ B), (w_list _ _ A).
  - by rewrite (w_left _ _ B), (w_left _ _ A).
  - by rewrite (w_phases _ _ B), (w_phases _ _ A).
  - by rewrite (w_count _ _ B), (w_count _ _ A).
  - pose proof (w_cur _ _ A). pose proof (w_cur _ _ B). lia.
  - pose proof (w_running _ _ A). pose proof (w_running _ _ B). lia.
  - intros t. destruct (w_state _ _ A t) as [H1|(H1 & H2 & H5)], (w_state _ _ B t) as [H3|(H3 & H4 & i & Hi & Ht)].
    1: left; congruence.
    1: right; rewrite H3 in *; split_and!; [congruence|done|].
    2: right; by rewrite H3, H2.
    2: congruence.
    exists i. pose proof (w_cur _ _ A). split; [lia|by rewrite <- (w_list _ _ A)].
  - intros i t Hi Ht Hw. destruct (decide (i < curThreadIdx b2)%nat).
    + apply (w_seen _ _ A i t); [lia|done|].
      destruct (w_state _ _ B t) as [H1|(H1 & H2 & _)]; congruence.
    + apply (w_seen _ _ B i t); [lia|by rewrite (w_list _ _ A)|done].
  - by rewrite (w_work _ _ B), (w_work _ _ A).
Qed.

Lemma elem_drop (l : list nat) n t : t ∈ drop n l <-> exists i, (n <= i)%nat /\ l !! i = Some t.
Proof.
  rewrite list_elem_of_lookup. split.
  - intros [i Hi]. rewrite lookup_drop in Hi. exists (n + i)%nat. split; [lia|done].
  - intros (i & Hi & Ht). exists (i - n)%nat. rewrite lookup_drop. by replace (n + (i - n))%nat with i by lia.
Qed.

Lemma runList_total b i : (i < runListSize b)%nat -> runList b !! i = Some (runList b !!! i).
Proof. intros Hi. apply list_lookup_lookup_total_lt. exact Hi. Qed.

Lemma wake_next_ok b :
  inv b -> runningThreads b < parallelThreads b -> (curThreadIdx b < runListSize b)%nat ->
  exists b', wake_next b = Ok b' /\ inv b' /\ woke b b' /\ curThreadIdx b' = S (curThreadIdx b).
Proof.
  intros [I1 I2 I3 I4 I5 I6 I7 I8 I9 I10 I11 I12] Hr Hc. unfold wake_next.
  pose proof (runList_total b _ Hc) as Hl. set (t := runList b !!! curThreadIdx b) in *.
  cbn [threadList runList set_cur]. change (runList b !!! curThreadIdx b) with t.
  assert (Ht : t ∈ runList b) by (by eapply list_elem_of_lookup_2).
  destruct (decide (state (threadList b t) = WAITING)) as [Hw|Hw].
  - cbn. rewrite !fn_lookup_insert. cbn. rewrite (I10 t Hw). cbn.
    rewrite u32_id by (unfold in_u32; lia).
    eexists. split; [reflexivity|]. unfold set_running, set_futexWord, set_lastIdx, set_state, set_thread, set_cur.
    cbn. rewrite !fn_lookup_insert. cbn.
    set (tl := <[t := _]> (<[t := _]> (<[t := _]> (threadList b)))).
    assert (Htl : forall x, tl x = if decide (x = t) then mkTSI RUNNING 0 (curThreadIdx b) else threadList b x).
    { intros x. unfold tl. destruct (decide (x = t)) as [->|Hx]; [by rewrite fn_lookup_insert|].
      by rewrite !fn_lookup_insert_ne. }
    assert (Hcount : forall s, (count s tl (runList b) + (if decide (WAITING = s) then 1 else 0) =
      count s (threadList b) (runList b) + (if decide (RUNNING = s) then 1 else 0))%nat).
    { intros s. rewrite <- Hw. rewrite <- (count_upd s (threadList b) t (mkTSI RUNNING 0 (curThreadIdx b))) by done.
      f_equal. apply count_ext. intros x _. rewrite Htl. destruct (decide (x = t)) as [->|Hx];
        [by rewrite fn_lookup_insert|by rewrite fn_lookup_insert_ne]. }
    split_and!; [| |done].
    + split; cbn; try done.
      * intros x. rewrite Htl. destruct (decide (x = t)) as [->|Hx]; [by split|apply I4].
      * specialize (Hcount RUNNING). rewrite decide_False, decide_True in Hcount by done. lia.
      * specialize (Hcount LEFT). rewrite !decide_False in Hcount by done. lia.
      * lia.
      * intros i x Hx. rewrite Htl. destruct (decide (x = t)) as [->|Hne].
        -- intros _. rewrite (NoDup_lookup _ i (curThreadIdx b) t I3 Hx Hl). lia.
        -- intros Hs. specialize (I9 i x Hx Hs). lia.
      * intros x. rewrite Htl. destruct (decide (x = t)) as [->|Hne]; [done|apply I10].
      * intros x. rewrite Htl. destruct (decide (x = t)) as [->|Hne]; [done|apply I11].
    + split; cbn; try done; try lia.
      * intros x. rewrite Htl. destruct (decide (x = t)) as [->|Hne]; [right|by left]. split_and!; [done|done|by exists (curThreadIdx b)].
      * intros i x Hi Hx. assert (i = curThreadIdx b) as -> by lia. rewrite Hl in Hx.
        injection Hx as <-. rewrite Htl, decide_True by done. done.
      * unfold work. cbn. rewrite (drop_S _ t (curThreadIdx b)), count_cons, decide_True by done.
        rewrite (count_ext WAITING tl (threadList b)); [lia|]. intros x Hx. rewrite Htl.
        destruct (decide (x = t)) as [->|]; [|done].
        pose proof I3 as Hnd. rewrite <- (take_drop_middle _ _ _ Hl) in Hnd.
        apply NoDup_app in Hnd as (_ & _ & Hnd). apply NoDup_cons in Hnd as [Hn _]. done.
  - eexists. split; [reflexivity|]. split_and!; [| |done].
    + split; cbn; try done. intros i x Hx Hs. specialize (I9 i x Hx Hs). lia.
    + assert (Hwk : work (set_cur (S (curThreadIdx b)) b) = work b).
      { unfold work. cbn. by rewrite (drop_S _ t (curThreadIdx b)), count_cons, decide_False. }
      split; cbn; try done; try lia; [by left|].
      intros i x Hi Hx. assert (i = curThreadIdx b) as -> by lia. rewrite Hl in Hx.
      injection Hx as <-. done.
Qed.

Lemma checkRunList_loop_ok n : forall b,
  inv b -> (runListSize b <= n + curThreadIdx b)%nat ->
  exists b', checkRunList_loop n b = Ok b' /\ inv b' /\ woke b b' /\
    (runningThreads b' = parallelThreads b \/ curThreadIdx b' = runListSize b).
Proof.
  induction n as [|n IH]; intros b Hb Hn; cbn [checkRunList_loop];
    (destruct (Z.ltb_spec (runningThreads b) (parallelThreads b)) as [Hlt|Hge]; cbn [andb];
      [|exists b; split_and!; [done|done|apply woke_refl|left; pose proof (i_max _ Hb); lia]]);
    (destruct (bool_decide_reflect (curThreadIdx b < runListSize b)%nat) as [Hc|Hc];
      [|exists b; split_and!; [done|done|apply woke_refl|right; pose proof (i_cur _ Hb); lia]]).
  - lia.
  - destruct (wake_next_ok b Hb Hlt Hc) as (b1 & E & Hb1 & W1 & Hc1). rewrite E. cbn [mbind res_bind].
    destruct (IH b1 Hb1) as (b2 & E2 & Hb2 & W2 & Hend).
    { unfold runListSize. rewrite (w_list _ _ W1). unfold runListSize in Hn. lia. }
    exists b2. split_and!; [done|done|by eapply woke_trans|].
    unfold runListSize in *. rewrite (w_par _ _ W1), (w_list _ _ W1) in Hend. done.
Qed.

(** ** Exchanging and removing entries *)

Lemma swap_facts i j b :
  (i < runListSize b)%nat -> (j < runListSize b)%nat ->
  let b' := swap_at i j b in
  runList b' ≡ₚ runList b /\
  (forall t, state (threadList b' t) = state (threadList b t) /\
     futexWord (threadList b' t) = futexWord (threadList b t)) /\
  (forall t, runList b !! lastIdx (threadList b t) = Some t ->
     runList b' !! lastIdx (threadList b' t) = Some t) /\
  (forall k, k <> i -> k <> j -> runList b' !! k = runList b !! k) /\
  runList b' !! i = runList b !! j /\ runList b' !! j = runList b !! i.
Proof.
  intros Hi Hj b'. pose proof (runList_total b i Hi) as Ha. pose proof (runList_total b j Hj) as Hb.
  subst b'. unfold swap_at. set (x := runList b !!! i) in *. set (y := runList b !!! j) in *.
  unfold set_lastIdx, set_thread, set_runList. cbn. unfold runListSize in *.
  set (l' := <[j := x]> (<[i := y]> (runList b))).
  assert (Hlen : length (<[i := y]> (runList b)) = length (runList b)) by apply length_insert.
  assert (Hj' : l' !! j = Some x) by (apply list_lookup_insert_eq; lia).
  assert (Hi' : l' !! i = Some y).
  { unfold l'. destruct (decide (i = j)) as [->|Hne]; [rewrite list_lookup_insert_eq by lia; congruence|].
    rewrite list_lookup_insert_ne, list_lookup_insert_eq by (done || lia). done. }
  assert (Hk : forall k, k <> i -> k <> j -> l' !! k = runList b !! k).
  { intros k H1 H2. unfold l'. by rewrite !list_lookup_insert_ne. }
  set (tl := <[y := _]> (<[x := _]> (threadList b))).
  assert (Htl : forall t, tl t = mkTSI (state (threadList b t)) (futexWord (threadList b t))
    (if decide (t = y) then i else if decide (t = x) then j else lastIdx (threadList b t))).
  { intros t. unfold tl. destruct (decide (t = y)) as [->|Hy].
    - rewrite fn_lookup_insert. destruct (decide (y = x)) as [->|Hyx];
        [by rewrite fn_lookup_insert|by rewrite fn_lookup_insert_ne].
    - rewrite fn_lookup_insert_ne by done. destruct (decide (t = x)) as [->|Hx];
        [by rewrite fn_lookup_insert|rewrite fn_lookup_insert_ne by done; by destruct (threadList b t)]. }
  split_and!.
  - by apply Permutation_insert_swap.
  - intros t. by rewrite Htl.
  - intros t Ht. rewrite Htl. cbn. destruct (decide (t = y)) as [->|Hy]; [done|].
    destruct (decide (t = x)) as [->|Hx]; [done|]. rewrite Hk; [done|congruence..].
  - exact Hk.
  - congruence.
  - congruence.
Qed.

(** The barrier at the end of a phase: nobody runs. *)
Record rest (b : Barrier) : Prop := {
  r_par : 0 < parallelThreads b < 2 ^ 32;
  r_size : Z.of_nat (runListSize b) < 2 ^ 32;
  r_nodup : NoDup (runList b);
  r_mem t : t ∈ runList b <-> state (threadList b t) <> OFFLINE;
  r_none t : state (threadList b t) <> RUNNING;
  r_running : runningThreads b = 0;
  r_cur : curThreadIdx b = 0%nat;
  r_word t : state (threadList b t) = WAITING -> futexWord (threadList b t) = 1;
  r_placed t : state (threadList b t) = LEFT -> runList b !! lastIdx (threadList b t) = Some t;
  r_rnd : rand_ok (rnd b)
}.

Lemma count_none s tl l : (forall t, state (tl t) <> s) -> count s tl l = 0%nat.
Proof.
  intros Hn. destruct (count s tl l) eqn:E; [done|]. destruct (count_ex s tl l) as (t & _ & Ht); [lia|].
  by destruct (Hn t).
Qed.

Lemma rest_inv b :
  rest b -> leftThreads b = Z.of_nat (count LEFT (threadList b) (runList b)) -> inv b.
Proof.
  intros [R1 R2 R3 R4 R5 R6 R7 R8 R9 R10] Hl. split; try done.
  - by rewrite R6, count_none.
  - lia.
  - rewrite R7. lia.
  - intros i t _ Hr. by destruct (R5 t).
  - intros t [Ht|Ht]; [by destruct (R5 t)|by apply R9].
Qed.

Lemma insert_last {A} (x : A) l :
  l <> [] -> <[(length l - 1)%nat := x]> l = take (length l - 1) l ++ [x].
Proof.
  intros Hl. destruct (exists_last Hl) as (k & y & ->). rewrite length_app. cbn.
  replace (length k + 1 - 1)%nat with (length k + 0)%nat by lia.
  rewrite insert_app_r. cbn. rewrite Nat.add_0_r, take_app_length. done.
Qed.

Lemma cleanup_step b idx :
  rest b -> (idx < runListSize b)%nat ->
  let t := runList b !!! idx in
  let stid := runList b !!! (runListSize b - 1)%nat in
  let b1 := set_state t OFFLINE b in
  let b' := set_lastIdx stid idx
    (set_runList (take (runListSize b - 1) (<[idx := stid]> (runList b))) b1) in
  state (threadList b t) = LEFT ->
  rest b' /\ runList b ≡ₚ t :: runList b' /\
  (forall k, (k < idx)%nat -> runList b' !! k = runList b !! k) /\
  (forall x, x <> t -> state (threadList b' x) = state (threadList b x)) /\
  state (threadList b' t) = OFFLINE.
Proof.
  intros [R1 R2 R3 R4 R5 R6 R7 R8 R9 R10] Hidx t stid b1 b' Ht.
  assert (Hlast : (runListSize b - 1 < runListSize b)%nat) by lia.
  pose proof (runList_total b idx Hidx) as Hit. pose proof (runList_total b _ Hlast) as His.
  change (runList b !!! idx) with t in Hit. change (runList b !!! (runListSize b - 1)%nat) with stid in His.
  assert (Hl' : runList b' = take (runListSize b - 1) (<[idx := stid]> (runList b))) by done.
  assert (Hperm : runList b ≡ₚ t :: runList b').
  { rewrite Hl'. rewrite <- (Permutation_insert_swap (runList b) idx (runListSize b - 1) t stid Hit His) at 1.
    unfold runListSize in *.
    replace (length (runList b) - 1)%nat with (length (<[idx := stid]> (runList b)) - 1)%nat
      by (rewrite length_insert; done).
    rewrite insert_last; [by rewrite <- Permutation_cons_append|].
    intros He. apply (f_equal length) in He. rewrite length_insert in He. cbn in He. lia. }
  assert (Hnd : NoDup (t :: runList b')) by (by rewrite <- Hperm).
  apply NoDup_cons in Hnd as [Hnt Hnd].
  assert (Htl : forall x, threadList b' x = mkTSI (if decide (x = t) then OFFLINE else state (threadList b x))
    (futexWord (threadList b x)) (if decide (x = stid) then idx else lastIdx (threadList b x))).
  { intros x. unfold b', b1, set_lastIdx, set_state, set_thread, set_runList. cbn.
    destruct (decide (x = stid)) as [->|Hs].
    - rewrite fn_lookup_insert. destruct (decide (stid = t)) as [->|Hst];
        [by rewrite fn_lookup_insert|by rewrite fn_lookup_insert_ne].
    - rewrite fn_lookup_insert_ne by done. destruct (decide (x = t)) as [->|Hxt];
        [by rewrite fn_lookup_insert|rewrite fn_lookup_insert_ne by done; by destruct (threadList b x)]. }
  assert (Hlen : length (runList b') = (runListSize b - 1)%nat).
  { pose proof (Permutation_length Hperm) as HL. rewrite length_cons in HL. unfold runListSize. lia. }
  assert (Hlk : forall k, (k < runListSize b - 1)%nat -> k <> idx -> runList b' !! k = runList b !! k).
  { intros k Hk Hne. rewrite Hl', lookup_take by done.
    destruct (decide _); [by rewrite list_lookup_insert_ne|lia]. }
  assert (Hf : parallelThreads b' = parallelThreads b /\ runningThreads b' = runningThreads b /\
    curThreadIdx b' = curThreadIdx b /\ rnd b' = rnd b) by done.
  clearbody b'. destruct Hf as (F1 & F2 & F3 & F4).
  split_and!; [split|done| | |].
  - by rewrite F1.
  - unfold runListSize in *. lia.
  - done.
  - intros x. rewrite Htl. cbn. destruct (decide (x = t)) as [->|Hx]; [done|].
    rewrite <- R4, Hperm, elem_of_cons. naive_solver.
  - intros x. rewrite Htl. cbn. by destruct (decide (x = t)).
  - by rewrite F2.
  - by rewrite F3.
  - intros x. rewrite Htl. cbn. destruct (decide (x = t)); [done|apply R8].
  - intros x. rewrite Htl. cbn. destruct (decide (x = t)) as [|Hx]; [done|]. intros Hs.
    specialize (R9 x Hs). destruct (decide (x = stid)) as [->|Hxs].
    + assert (idx <> runListSize b - 1)%nat by (intros ->; congruence).
      rewrite Hl', lookup_take. destruct (decide _); [|lia].
      apply list_lookup_insert_eq. exact Hidx.
    + pose proof (lookup_lt_Some _ _ _ R9) as Hlt. fold (runListSize b) in Hlt.
      assert (lastIdx (threadList b x) <> runListSize b - 1)%nat by congruence.
      rewrite Hlk; [done|lia|congruence].
  - by rewrite F4.
  - intros k Hk. apply Hlk; lia.
  - intros x Hx. rewrite Htl. cbn. by rewrite decide_False.
  - rewrite Htl. cbn. by rewrite decide_True.
Qed.

(** Threads keep their state, except that a left one may go offline. *)
Definition same_or_off (b b' : Barrier) : Prop := forall t,
  state (threadList b' t) = state (threadList b t) \/
  (state (threadList b t) = LEFT /\ state (threadList b' t) = OFFLINE).

Lemma same_or_off_trans b1 b2 b3 : same_or_off b1 b2 -> same_or_off b2 b3 -> same_or_off b1 b3.
Proof.
  intros A B t. destruct (A t) as [<-|[H1 H2]]; [apply B|].
  destruct (B t) as [->|[H3 _]]; [by right|congruence].
Qed.

(** What the end of a phase leaves alone. *)
Record kept (b b' : Barrier) : Prop := {
  k_par : parallelThreads b' = parallelThreads b;
  k_left : leftThreads b' = leftThreads b;
  k_phases : phases b' = phases b;
  k_count : phaseCount b' = phaseCount b;
  k_state : same_or_off b b'
}.

Lemma k_waiting b b' t : kept b b' -> state (threadList b t) = WAITING -> state (threadList b' t) = WAITING.
Proof. intros K Ht. destruct (k_state _ _ K t) as [|[? _]]; congruence. Qed.

Lemma kept_refl b : kept b b.
Proof. split; try done. by left. Qed.
Lemma kept_trans b1 b2 b3 : kept b1 b2 -> kept b2 b3 -> kept b1 b3.
Proof.
  intros [] []. split; try congruence. by eapply same_or_off_trans.
Qed.

Lemma cleanup_ok n : forall b idx,
  rest b -> (forall k t, (k < idx)%nat -> runList b !! k = Some t -> state (threadList b t) <> LEFT) ->
  (runListSize b <= n + idx)%nat ->
  exists b', cleanup n idx b = Ok b' /\ rest b' /\ kept b b' /\
    (forall t, state (threadList b' t) <> LEFT) /\
    (runListSize b' + count LEFT (threadList b) (runList b) = runListSize b)%nat.
Proof.
  induction n as [|n IH]; intros b idx Hr Hpre Hn; cbn [cleanup].
  all: destruct (decide (idx < runListSize b)%nat) as [Hlt|Hge].
  1: lia.
  1,3: exists b; assert (Hno : forall t, state (threadList b t) <> LEFT);
    [intros t Ht; pose proof (r_placed _ Hr t Ht) as Hp; apply (Hpre _ t) in Hp; [done|];
       apply lookup_lt_Some in Hp; unfold runListSize in *; lia
    |split_and!; [done|done|apply kept_refl|done|rewrite count_none by done; lia]].
  destruct (decide (state (threadList b (runList b !!! idx)) = LEFT)) as [Hl|Hl].
  - destruct (cleanup_step b idx Hr Hlt Hl) as (H1 & H2 & H3 & H4 & H5).
    change (runListSize (set_state (runList b !!! idx) OFFLINE b)) with (runListSize b).
    change (runList (set_state (runList b !!! idx) OFFLINE b)) with (runList b).
    set (b1 := set_lastIdx _ _ _) in *. set (t := runList b !!! idx) in *.
    assert (Hlen : runListSize b = S (runListSize b1)).
    { unfold runListSize. by rewrite (Permutation_length H2). }
    assert (Hnt : t ∉ runList b1).
    { pose proof (r_nodup _ Hr) as Hnd. rewrite H2 in Hnd. by apply NoDup_cons in Hnd as [? _]. }
    assert (Hf : parallelThreads b1 = parallelThreads b /\ leftThreads b1 = leftThreads b /\
      phases b1 = phases b /\ phaseCount b1 = phaseCount b) by done.
    clearbody b1. destruct Hf as (F1 & F2 & F3 & F4).
    assert (Hk1 : kept b b1).
    { split; [done..|]. intros x. destruct (decide (x = t)) as [->|Hx]; [by right|left; by apply H4]. }
    destruct (IH b1 idx H1) as (b' & E & R & K & N & C).
    + intros k x Hk Hx. rewrite H3 in Hx by done. rewrite H4; [by apply (Hpre k)|].
      intros ->. apply (f_equal (fun o => o)) in Hx.
      pose proof (NoDup_lookup _ k idx t (r_nodup _ Hr) Hx (runList_total b idx Hlt)). lia.
    + lia.
    + exists b'. split_and!; [done|done|by eapply kept_trans|done|].
      assert (Hc : count LEFT (threadList b) (runList b) = S (count LEFT (threadList b1) (runList b1))).
      { rewrite H2, count_cons, decide_True by done. cbn. f_equal. apply count_ext.
        intros x Hx. rewrite H4; [done|]. by intros ->. }
      lia.
  - apply (IH b (S idx) Hr); [|lia]. intros k t Hk Ht.
    destruct (decide (k = idx)) as [->|]; [|apply (Hpre k); [lia|done]].
    rewrite (runList_total b idx Hlt) in Ht. by injection Ht as <-.
Qed.

Lemma swap_rest i j g b :
  rest b -> (i < runListSize b)%nat -> (j < runListSize b)%nat -> rand_ok g ->
  rest (swap_at i j (set_rnd g b)) /\ kept b (swap_at i j (set_rnd g b)) /\
  runListSize (swap_at i j (set_rnd g b)) = runListSize b /\
  (forall t, state (threadList (swap_at i j (set_rnd g b)) t) = state (threadList b t)).
Proof.
  intros [R1 R2 R3 R4 R5 R6 R7 R8 R9 R10] Hi Hj Hg.
  destruct (swap_facts i j (set_rnd g b) Hi Hj) as (S1 & S2 & S3 & _).
  cbn [runList threadList set_rnd] in S1, S2, S3.
  assert (Hf : rnd (swap_at i j (set_rnd g b)) = g /\
    parallelThreads (swap_at i j (set_rnd g b)) = parallelThreads b /\
    leftThreads (swap_at i j (set_rnd g b)) = leftThreads b /\
    phases (swap_at i j (set_rnd g b)) = phases b /\
    phaseCount (swap_at i j (set_rnd g b)) = phaseCount b /\
    runningThreads (swap_at i j (set_rnd g b)) = runningThreads b /\
    curThreadIdx (swap_at i j (set_rnd g b)) = curThreadIdx b) by done.
  set (b' := swap_at i j (set_rnd g b)) in *. clearbody b'.
  destruct Hf as (F1 & F2 & F3 & F4 & F5 & F6 & F7).
  assert (Hst : forall t, state (threadList b' t) = state (threadList b t)) by apply S2.
  assert (Hsz : runListSize b' = runListSize b) by (unfold runListSize; by rewrite S1).
  split_and!; [split|split|done|done]; rewrite ?F1, ?F2, ?F3, ?F4, ?F5, ?F6, ?F7, ?Hsz; try done.
  - by rewrite S1.
  - intros t. rewrite Hst, <- R4. by rewrite S1.
  - intros t. by rewrite Hst.
  - intros t. rewrite Hst. destruct (S2 t) as [_ ->]. apply R8.
  - intros t. rewrite Hst. intros Ht. by apply S3, R9.
  - intros t. left. by rewrite Hst.
Qed.

Lemma shuffle_ok i : forall b, rest b -> (i < runListSize b)%nat ->
  match shuffle i b with
  | Ok b' => rest b' /\ kept b b' /\ runListSize b' = runListSize b /\
      forall t, state (threadList b' t) = state (threadList b t)
  | Fail e => e = NoFuel
  end.
Proof.
  induction i as [|i IH]; intros b Hr Hi; cbn [shuffle]; [split_and!; try done; apply kept_refl|].
  destruct (randInt (rnd b) (Z.of_nat (S i))) as [[j g]|] eqn:E; [|done].
  pose proof (r_size _ Hr) as Hs.
  apply randInt_range in E as [Hj Hg]; [|apply (r_rnd _ Hr)|lia].
  destruct (swap_rest (S i) (Z.to_nat j) g b Hr Hi ltac:(lia) Hg) as (R & K & Hsz & Hst).
  specialize (IH _ R ltac:(lia)). destruct (shuffle i _) as [b'|]; [|done].
  destruct IH as (R' & K' & Hsz' & Hst'). split_and!; [done|by eapply kept_trans|congruence|].
  intros t. by rewrite Hst'.
Qed.

(** ** The end of a phase *)

Lemma count_others tl l :
  (forall t, state (tl t) <> OFFLINE \/ t ∉ l) -> (forall t, t ∈ l -> state (tl t) <> RUNNING) ->
  (count WAITING tl l + count LEFT tl l = length l)%nat.
Proof.
  intros Ho Hr. induction l as [|t l IH]; [done|]. rewrite !count_cons. cbn [length].
  rewrite <- IH.
  - assert (Ht : t ∈ t :: l) by left. specialize (Hr t Ht). destruct (Ho t) as [Hot|]; [|done].
    destruct (state (tl t)); try done; cbn; lia.
  - intros x. destruct (Ho x) as [|Hx]; [by left|right]. intros Hin. apply Hx. by right.
  - intros x Hx. apply Hr. by right.
Qed.

Lemma cleanup_pass_ok b t :
  rest b -> leftThreads b = Z.of_nat (count LEFT (threadList b) (runList b)) ->
  state (threadList b t) = WAITING ->
  exists b', cleanup_pass b = Ok b' /\ rest b' /\ phases b' = phases b /\
    parallelThreads b' = parallelThreads b /\
    leftThreads b' = Z.of_nat (count LEFT (threadList b') (runList b')) /\
    same_or_off b b'.
Proof.
  intros Hr Hl Ht. unfold cleanup_pass.
  assert (Hin : t ∈ runList b) by (apply (r_mem _ Hr); congruence).
  rewrite bool_decide_true; [|unfold runListSize; destruct (runList b); [by apply elem_of_nil in Hin|cbn; lia]].
  cbn [assert_that mbind res_bind].
  destruct (cleanup_ok (runListSize b) b 0 Hr) as (b2 & E & R2 & K2 & N2 & C2);
    [intros; lia|lia|]. rewrite E. cbn [mbind res_bind].
  rewrite (k_left _ _ K2), (proj2 (Z.eqb_eq _ _)) by lia. cbn [assert_that mbind res_bind].
  eexists. split; [reflexivity|]. split_and!.
  - destruct R2. by split.
  - cbn. by rewrite (k_phases _ _ K2).
  - cbn. by rewrite (k_par _ _ K2).
  - cbn. by rewrite count_none.
  - apply (k_state _ _ K2).
Qed.

Definition ended (b : Barrier) : Prop :=
  curThreadIdx b = runListSize b /\ runningThreads b = 0 /\
  leftThreads b <> Z.of_nat (runListSize b).

Lemma checkEndPhase_ok b :
  inv b ->
  match checkEndPhase b with
  | Ok b' => inv b' /\ parallelThreads b' = parallelThreads b /\
      ((b' = b /\ ~ ended b) \/
       (ended b /\ phases b' = S (phases b) /\ curThreadIdx b' = 0%nat /\
        same_or_off b b' /\ exists t, state (threadList b' t) = WAITING))
  | Fail e => e = NoFuel /\ ended b
  end.
Proof.
  intros Hb. unfold checkEndPhase.
  destruct (bool_decide_reflect (curThreadIdx b = runListSize b)) as [Hc|Hc]; cbn [andb];
    [|split_and!; try done; left; split; [done|by intros [??]]].
  destruct (Z.eqb_spec (runningThreads b) 0) as [Hr0|Hr0];
    [|split_and!; try done; left; split; [done|by intros (?&?&?)]].
  destruct (Z.eqb_spec (leftThreads b) (Z.of_nat (runListSize b))) as [Hl|Hl];
    [split_and!; try done; left; split; [done|by intros (?&?&?)]|].
  assert (Hend : ended b) by done. pose proof Hb as [I1 I2 I3 I4 I5 I6 I7 I8 I9 I10 I11 I12].
  assert (Hnone : forall t, state (threadList b t) <> RUNNING).
  { intros t Ht. assert (Hin : t ∈ runList b) by (apply I4; congruence).
    pose proof (count_pos RUNNING _ _ _ Hin Ht). lia. }
  assert (Hw : exists t, state (threadList b t) = WAITING).
  { destruct (count_ex WAITING (threadList b) (runList b)) as (t & _ & Ht); [|by exists t].
    pose proof (count_others (threadList b) (runList b)) as Hco.
    rewrite Hco in * || idtac. unfold runListSize in *.
    assert (count WAITING (threadList b) (runList b) + count LEFT (threadList b) (runList b) =
      length (runList b))%nat; [|lia].
    apply Hco; [|by intros t _]. intros t. destruct (decide (state (threadList b t) = OFFLINE)) as [Ho|Ho];
      [right; by rewrite I4; intros ?|by left]. }
  set (b1 := set_phaseCount _ _).
  assert (Hrest : rest b1) by (split; try done; intros t Ht; apply I11; by right).
  assert (Hcount : leftThreads b1 = Z.of_nat (count LEFT (threadList b1) (runList b1))) by done.
  assert (Hph : phases b1 = S (phases b)) by done.
  assert (Hpar : parallelThreads b1 = parallelThreads b) by done.
  assert (Hw1 : exists t, state (threadList b1 t) = WAITING) by done.
  assert (Hne : exists b2, (if Z.land (phaseCount b) 31 =? 0 then cleanup_pass b1 else Ok b1) = Ok b2 /\
      rest b2 /\ phases b2 = S (phases b) /\ parallelThreads b2 = parallelThreads b /\
      leftThreads b2 = Z.of_nat (count LEFT (threadList b2) (runList b2)) /\
      same_or_off b b2 /\ exists t, state (threadList b2 t) = WAITING).
  { destruct (_ =? 0); [|exists b1; split_and!; try done; by left].
    destruct Hw1 as [t Ht]. destruct (cleanup_pass_ok b1 t) as (b2 & E & R2 & P2 & Q2 & L2 & T2); try done.
    exists b2. rewrite P2, Q2, Hph, Hpar. split_and!; try done. exists t. destruct (T2 t) as [->|[? _]]; congruence. }
  change (phaseCount (set_cur 0 (callback b))) with (phaseCount b). fold b1.
  destruct Hne as (b2 & E & R2 & P2 & Q2 & L2 & O2 & t & Ht). rewrite E. cbn [mbind res_bind].
  destruct (Z.ltb_spec (parallelThreads b2) (Z.of_nat (runListSize b2))) as [Hlt|Hge].
  - pose proof (shuffle_ok (runListSize b2 - 1) b2 R2) as Hs.
    destruct (shuffle _ b2) as [b3|e]; [|split; [|done]; apply Hs; pose proof (r_par _ R2); lia].
    destruct Hs as (R3 & K3 & Hsz & Hst); [pose proof (r_par _ R2); lia|].
    split_and!; [|by rewrite (k_par _ _ K3)|].
    + apply rest_inv; [done|]. rewrite (k_left _ _ K3), L2. f_equal.
      rewrite (count_ext _ (threadList b3) (threadList b2)) by (intros; apply Hst).
      assert (Hp : runList b3 ≡ₚ runList b2).
      { apply NoDup_Permutation; [apply R3|apply R2|]. intros x.
        by rewrite (r_mem _ R3), (r_mem _ R2), Hst. }
      by rewrite Hp.
    + right. split_and!; [done|by rewrite (k_phases _ _ K3)|apply R3| |exists t; by rewrite Hst].
      eapply same_or_off_trans; [exact O2|apply (k_state _ _ K3)].
  - split_and!; [by apply rest_inv|done|]. right. split_and!; [done|done|apply R2|done|by exists t].
Qed.

(** ** [tryWakeNext] *)

Lemma checkRunList_ok b :
  inv b ->
  exists b', checkRunList b = Ok b' /\ inv b' /\ woke b b' /\
    (runningThreads b' = parallelThreads b \/ curThreadIdx b' = runListSize b).
Proof. intros Hb. apply checkRunList_loop_ok; [done|lia]. Qed.

(** A thread that is still to run in this phase. *)
Definition pending (b : Barrier) : Prop :=
  exists i t, (curThreadIdx b <= i)%nat /\ runList b !! i = Some t /\
    state (threadList b t) = WAITING.

(** Nobody runs and nobody is to run, but somebody waits: the phase is over. *)
Definition over (b : Barrier) : Prop :=
  runningThreads b = 0 /\ ~ pending b /\ exists t, state (threadList b t) = WAITING.

(** Somebody runs, or nobody waits. *)
Definition live (b : Barrier) : Prop :=
  0 < runningThreads b \/ forall t, state (threadList b t) <> WAITING.

Lemma in_runList b t : inv b -> state (threadList b t) <> OFFLINE -> exists i, runList b !! i = Some t.
Proof. intros Hb Ht. apply (i_mem _ Hb) in Ht. by apply list_elem_of_lookup_1 in Ht. Qed.

Lemma running_pos b t : inv b -> state (threadList b t) = RUNNING -> 0 < runningThreads b.
Proof.
  intros Hb Ht. assert (Hin : t ∈ runList b) by (apply (i_mem _ Hb); congruence).
  pose proof (count_pos RUNNING _ _ _ Hin Ht). pose proof (i_running _ Hb). lia.
Qed.

Lemma none_running b t : inv b -> runningThreads b = 0 -> state (threadList b t) <> RUNNING.
Proof. intros Hb Hr Ht. pose proof (running_pos b t Hb Ht). lia. Qed.

(** When nobody runs, the left threads are the whole list iff nobody waits. *)
Lemma all_left b :
  inv b -> runningThreads b = 0 ->
  leftThreads b = Z.of_nat (runListSize b) <-> forall t, state (threadList b t) <> WAITING.
Proof.
  intros Hb Hr. rewrite (i_left _ Hb). unfold runListSize.
  assert (Hco : (count WAITING (threadList b) (runList b) + count LEFT (threadList b) (runList b) =
    length (runList b))%nat).
  { apply count_others; [|intros t _; by apply none_running].
    intros t. destruct (decide (state (threadList b t) = OFFLINE)) as [Ho|Ho];
      [right; by rewrite (i_mem _ Hb); intros ?|by left]. }
  split; intros Hl.
  - intros t Ht. assert (Hin : t ∈ runList b) by (apply (i_mem _ Hb); congruence).
    pose proof (count_pos WAITING _ _ _ Hin Ht). lia.
  - rewrite (count_none WAITING) in Hco by done. lia.
Qed.

(** After a pass over the list, the phase is over iff it was before. *)
Lemma woke_over b b' :
  inv b -> inv b' -> woke b b' ->
  (runningThreads b' = parallelThreads b \/ curThreadIdx b' = runListSize b) ->
  (over b <-> ended b').
Proof.
  intros Hb Hb' W Hend. pose proof (i_par _ Hb) as Hpar. split.
  - intros (Hr & Hp & t & Ht).
    assert (Hst : forall x, state (threadList b' x) = state (threadList b x)).
    { intros x. destruct (w_state _ _ W x) as [|(H1 & H2 & i & Hi & Hx)]; [done|].
      destruct Hp. by exists i, x. }
    assert (Hr' : runningThreads b' = 0).
    { rewrite (i_running _ Hb'), count_none; [done|]. intros x. rewrite Hst. by apply none_running. }
    split_and!; [|done|].
    + unfold runListSize in *. rewrite (w_list _ _ W). lia.
    + rewrite all_left by done. intros Hn. apply (Hn t). by rewrite Hst.
  - intros (Hc & Hr & Hl). pose proof (w_running _ _ W) as Hm. pose proof (i_running _ Hb).
    assert (Hr0 : runningThreads b = 0) by lia.
    assert (Hst : forall x, state (threadList b' x) = state (threadList b x)).
    { intros x. destruct (w_state _ _ W x) as [|(H1 & H2 & _)]; [done|].
      pose proof (running_pos b' x Hb' H2). lia. }
    split_and!; [done| |].
    + intros (i & t & Hi & Ht & Hw). apply (w_seen _ _ W i t); [|done|by rewrite Hst].
      split; [done|]. apply lookup_lt_Some in Ht. unfold runListSize in *. rewrite (w_list _ _ W) in Hc. lia.
    + rewrite (w_left _ _ W) in Hl. unfold runListSize in Hl. rewrite (w_list _ _ W) in Hl.
      pose proof (count_others (threadList b) (runList b)) as Hco.
      destruct (count_ex WAITING (threadList b) (runList b)) as (t & _ & Ht); [|by exists t].
      rewrite (i_left _ Hb) in Hl. assert (Hq : (count WAITING (threadList b) (runList b) +
        count LEFT (threadList b) (runList b) = length (runList b))%nat); [|lia].
      apply Hco; [|intros t _; by apply none_running].
      intros t. destruct (decide (state (threadList b t) = OFFLINE)) as [Ho|Ho];
        [right; by rewrite (i_mem _ Hb); intros ?|by left].
Qed.

(** The start of a phase: everybody who waits has a turn to come. *)
Definition restarted (b b' : Barrier) : Prop :=
  (forall t, state (threadList b' t) = state (threadList b t) \/
     (state (threadList b t) = WAITING /\ state (threadList b' t) = RUNNING) \/
     (state (threadList b t) = LEFT /\ state (threadList b' t) = OFFLINE)) /\
  forall t i, state (threadList b' t) = WAITING -> runList b' !! i = Some t -> (curThreadIdx b' <= i)%nat.

Lemma tryWakeNext_ok b :
  inv b ->
  match tryWakeNext b with
  | Ok b' => inv b' /\ live b' /\ parallelThreads b' = parallelThreads b /\
      (phases b' = phases b /\ ~ over b /\ woke b b' \/ phases b' = S (phases b) /\ over b /\ restarted b b')
  | Fail e => e = NoFuel /\ over b
  end.
Proof.
  intros Hb. unfold tryWakeNext.
  destruct (checkRunList_ok b Hb) as (b1 & E1 & H1 & W1 & D1). rewrite E1. cbn [mbind res_bind].
  pose proof (woke_over b b1 Hb H1 W1 D1) as Ho.
  pose proof (checkEndPhase_ok b1 H1) as Hc. destruct (checkEndPhase b1) as [b2|]; [|cbn [mbind res_bind]; tauto].
  destruct Hc as (H2 & Hp2 & Hcase). cbn [mbind res_bind].
  destruct (checkRunList_ok b2 H2) as (b3 & E3 & H3 & W3 & D3). rewrite E3.
  pose proof (i_par _ H2) as Hpar.
  assert (Hpar3 : parallelThreads b3 = parallelThreads b).
  { by rewrite (w_par _ _ W3), Hp2, (w_par _ _ W1). }
  destruct Hcase as [[-> Hne]|(He & Hph & Hcur & Ho2 & t & Ht)]; split_and!; try done.
  - destruct D3 as [D3|D3]; [left; lia|]. pose proof (w_running _ _ W3). pose proof (i_running _ H1).
    destruct (decide (runningThreads b3 = 0)) as [Hz|]; [right|left; lia].
    intros x Hx. destruct (in_runList b3 x H3) as [i Hi]; [congruence|].
    rewrite (w_list _ _ W3) in Hi.
    assert (Hw : state (threadList b1 x) = WAITING).
    { destruct (w_state _ _ W3 x) as [H5|(H5&H6&_)]; congruence. }
    destruct (decide (curThreadIdx b1 <= i)%nat) as [Hle|Hgt].
    + apply (w_seen _ _ W3 i x); [|done|done]. apply lookup_lt_Some in Hi. unfold runListSize in *. lia.
    + apply Hne. split_and!; [|lia|].
      * destruct D1 as [D1|D1]; [rewrite <- (w_par _ _ W1) in D1; lia|].
        unfold runListSize in *. by rewrite (w_list _ _ W1).
      * rewrite all_left by (done || lia). intros Hn. by apply (Hn x).
  - left. split_and!; [|tauto|by eapply woke_trans].
    by rewrite (w_phases _ _ W3), (w_phases _ _ W1).
  - left. destruct D3 as [D3|D3]; [lia|].
    destruct (in_runList b2 t H2) as [i Hi]; [congruence|].
    apply (running_pos b3 t H3). destruct (w_state _ _ W3 t) as [H5|(H5&H6&_)]; [|done].
    exfalso. apply (w_seen _ _ W3 i t); [|done|congruence].
    rewrite Hcur. apply lookup_lt_Some in Hi. unfold runListSize in *. lia.
  - right. split_and!; [by rewrite (w_phases _ _ W3), Hph, (w_phases _ _ W1)|tauto|split].
    + intros x. apply Ho in He. pose proof (w_state _ _ W1 x). pose proof (Ho2 x). pose proof (w_state _ _ W3 x).
      destruct_or!; destruct_and?; intuition congruence.
    + intros x i Hx Hi. destruct (decide (curThreadIdx b3 <= i)%nat) as [|Hlt]; [done|].
      rewrite (w_list _ _ W3) in Hi. exfalso. apply (w_seen _ _ W3 i x); [lia|done..].
Qed.

(** ** The operations *)

Definition one_if (s : State) (s' : State) : Z := if decide (s' = s) then 1 else 0.

(** One thread changes its state, and the counters follow. *)
Lemma upd_inv b t i b' :
  inv b -> t ∈ runList b ->
  parallelThreads b' = parallelThreads b /\ runList b' = runList b /\
    curThreadIdx b' = curThreadIdx b /\ rnd b' = rnd b ->
  (forall x, threadList b' x = if decide (x = t) then i else threadList b x) ->
  runningThreads b' = u32 (runningThreads b - one_if RUNNING (state (threadList b t))) ->
  leftThreads b' = u32 (leftThreads b + one_if LEFT (state i) - one_if LEFT (state (threadList b t))) ->
  (state i = WAITING /\ futexWord i = 1 \/ state i = LEFT /\ runList b !! lastIdx i = Some t) ->
  inv b'.
Proof.
  intros [I1 I2 I3 I4 I5 I6 I7 I8 I9 I10 I11 I12] Ht (E1 & E2 & E3 & E4) Htl Hr Hl Hi.
  assert (Hcount : forall s, (count s (threadList b') (runList b) +
      (if decide (state (threadList b t) = s) then 1 else 0) =
      count s (threadList b) (runList b) + (if decide (state i = s) then 1 else 0))%nat).
  { intros s. rewrite <- (count_upd s (threadList b) t i) by done. f_equal. apply count_ext.
    intros x _. rewrite Htl. destruct (decide (x = t)) as [->|Hx];
      [by rewrite fn_lookup_insert|by rewrite fn_lookup_insert_ne]. }
  assert (HiR : state i <> RUNNING) by (destruct Hi as [[-> _]|[-> _]]; done).
  assert (HiO : state i <> OFFLINE) by (destruct Hi as [[-> _]|[-> _]]; done).
  pose proof (Hcount RUNNING) as HR. pose proof (Hcount LEFT) as HL.
  pose proof (count_le RUNNING (threadList b) (runList b)) as B1.
  pose proof (count_le LEFT (threadList b') (runList b)) as B2.
  unfold one_if, runListSize in *. rewrite (decide_False (P := state i = RUNNING)) in HR by done.
  split; unfold runListSize; rewrite ?E1, ?E2, ?E3, ?E4; try done.
  - intros x. rewrite Htl. destruct (decide (x = t)) as [->|]; [done|apply I4].
  - rewrite Hr, u32_id; [destruct (decide _); lia|unfold in_u32; destruct (decide _); lia].
  - rewrite Hl, u32_id; [|unfold in_u32]; repeat destruct (decide (_ = LEFT)); lia.
  - rewrite Hr, u32_id; [|unfold in_u32]; destruct (decide _); lia.
  - intros k x Hk. rewrite Htl. destruct (decide (x = t)); [done|by apply I9].
  - intros x. rewrite Htl. destruct (decide (x = t)) as [->|]; [|apply I10].
    intros Hw. destruct Hi as [[_ ?]|[? _]]; congruence.
  - intros x. rewrite Htl. destruct (decide (x = t)) as [->|]; [|apply I11].
    intros Hw. destruct Hi as [[? _]|[_ ?]]; [|done]. destruct Hw; congruence.
Qed.

(** A thread that joins for the first time goes to the end of the list. *)
Lemma join_offline_inv b t :
  inv b -> Z.of_nat (runListSize b) + 1 < 2 ^ 32 -> state (threadList b t) = OFFLINE ->
  inv (set_futexWord t 1 (set_state t WAITING (set_runList (runList b ++ [t]) b))).
Proof.
  intros [I1 I2 I3 I4 I5 I6 I7 I8 I9 I10 I11 I12] Hsz Ht.
  assert (Hn : t ∉ runList b) by (rewrite I4; tauto).
  set (b' := set_futexWord _ _ _).
  assert (Htl : forall x, threadList b' x =
    if decide (x = t) then mkTSI WAITING 1 (lastIdx (threadList b t)) else threadList b x).
  { intros x. unfold b', set_futexWord, set_state, set_thread, set_runList. cbn.
    rewrite !fn_lookup_insert. cbn. destruct (decide (x = t)) as [->|Hx];
      [by rewrite fn_lookup_insert|by rewrite !fn_lookup_insert_ne]. }
  assert (Hf : parallelThreads b' = parallelThreads b /\ runList b' = runList b ++ [t] /\
    curThreadIdx b' = curThreadIdx b /\ rnd b' = rnd b /\ runningThreads b' = runningThreads b /\
    leftThreads b' = leftThreads b) by done.
  clearbody b'. destruct Hf as (E1 & E2 & E3 & E4 & E5 & E6).
  assert (Hcount : forall s, s <> WAITING ->
    count s (threadList b') (runList b ++ [t]) = count s (threadList b) (runList b)).
  { intros s Hs. rewrite <- Permutation_cons_append, count_cons.
    rewrite decide_False; [cbn|rewrite Htl, decide_True by done; cbn; congruence]. apply count_ext. intros x Hx. rewrite Htl, decide_False; [done|].
    by intros ->. }
  split; unfold runListSize; rewrite ?E1, ?E2, ?E3, ?E4, ?E5, ?E6, ?length_app, ?Hcount by done;
    cbn [length]; try done; unfold runListSize in *.
  - lia.
  - apply NoDup_app. split_and!; [done| |apply NoDup_singleton].
    intros x Hx Hx'. apply list_elem_of_singleton in Hx'. by subst.
  - intros x. rewrite Htl, elem_of_app, list_elem_of_singleton. destruct (decide (x = t)) as [->|];
      [split; [done|by right]|]. rewrite I4. tauto.
  - lia.
  - intros k x Hk. rewrite Htl. destruct (decide (x = t)); [done|]. intros Hr.
    apply (I9 k x); [|done]. apply lookup_app_Some in Hk as [Hk|[_ Hk]]; [done|].
    apply list_lookup_singleton_Some in Hk as [_ ->]. done.
  - intros x. rewrite Htl. destruct (decide (x = t)); [done|apply I10].
  - intros x. rewrite Htl. destruct (decide (x = t)) as [->|]; [by intros [?|?]|].
    intros Hx. by apply lookup_app_l_Some, I11.
Qed.

(** A thread that had its turn is put back just before the cursor. *)
Lemma reschedule_inv b t :
  inv b -> state (threadList b t) = LEFT -> (lastIdx (threadList b t) < curThreadIdx b)%nat ->
  let cur := (curThreadIdx b - 1)%nat in
  let b' := swap_at (lastIdx (threadList b t)) cur (set_cur cur b) in
  inv b' /\ state (threadList b' t) = LEFT /\ runList b' !! cur = Some t /\
  (forall x, state (threadList b' x) = state (threadList b x)) /\
  (forall x, x <> t -> x ∈ drop cur (runList b') <-> x ∈ drop (curThreadIdx b) (runList b)).
Proof.
  intros [I1 I2 I3 I4 I5 I6 I7 I8 I9 I10 I11 I12] Ht Hli cur b'.
  pose proof (I11 t (or_intror Ht)) as Hat.
  destruct (swap_facts (lastIdx (threadList b t)) cur (set_cur cur b)) as (S1 & S2 & S3 & S4 & S5 & S6);
    [unfold runListSize in *; cbn; lia..|].
  cbn [runList threadList set_cur] in *. fold b' in S1, S2, S3, S4, S5, S6.
  assert (Hf : parallelThreads b' = parallelThreads b /\ curThreadIdx b' = cur /\ rnd b' = rnd b /\
    runningThreads b' = runningThreads b /\ leftThreads b' = leftThreads b) by done.
  clearbody b'. destruct Hf as (E1 & E2 & E3 & E4 & E5).
  assert (Hst : forall x, state (threadList b' x) = state (threadList b x)) by apply S2.
  assert (Hcount : forall s, count s (threadList b') (runList b') = count s (threadList b) (runList b)).
  { intros s. rewrite S1. apply count_ext. intros x _. apply Hst. }
  assert (Hsz : runListSize b' = runListSize b) by (unfold runListSize; by rewrite S1).
  split_and!; [split; rewrite ?E1, ?E2, ?E3, ?E4, ?E5, ?Hsz, ?Hcount; try done|by rewrite Hst|by rewrite S6|done|].
  - by rewrite S1.
  - intros x. by rewrite S1, Hst, I4.
  - unfold cur. lia.
  - intros k x Hk. rewrite Hst. intros Hr.
    destruct (decide (k = cur)) as [->|Hc]; [congruence|].
    destruct (decide (k = lastIdx (threadList b t))) as [->|Hl].
    + assert (lastIdx (threadList b t) <> cur) by done. unfold cur in *. lia.
    + rewrite S4 in Hk by done. specialize (I9 k x Hk Hr). unfold cur in *. lia.
  - intros x. rewrite Hst. destruct (S2 x) as [_ ->]. apply I10.
  - intros x. rewrite Hst. intros Hx. by apply S3, I11.
  - intros x Hx. rewrite !elem_drop. split; intros (k & Hk & Hkx).
    + assert (k <> cur) by (intros ->; congruence). exists k. rewrite <- S4; [|unfold cur in *; lia|done].
      split; [unfold cur in *; lia|done].
    + exists k. rewrite S4; [|unfold cur in *; lia..]. split; [unfold cur in *; lia|done].
Qed.

(** ** Where a thread is in its phase *)

Definition view (b : Barrier) (t : nat) : turn :=
  match state (threadList b t) with
  | OFFLINE | LEFT => Away
  | RUNNING => Runs
  | WAITING => if decide (t ∈ drop (curThreadIdx b) (runList b)) then Turn else Waits
  end.

Lemma view_turn b t :
  view b t = Turn <-> state (threadList b t) = WAITING /\
    exists i, (curThreadIdx b <= i)%nat /\ runList b !! i = Some t.
Proof.
  unfold view. rewrite <- elem_drop. destruct (state (threadList b t)); try naive_solver.
  destruct (decide (t ∈ drop (curThreadIdx b) (runList b))); naive_solver.
Qed.

Lemma woke_view b b' t : woke b b' -> adv (view b t) (view b' t).
Proof.
  intros W. unfold adv. destruct (w_state _ _ W t) as [Hs|(H1 & H2 & Hi)].
  - left. unfold view. rewrite Hs, (w_list _ _ W).
    destruct (state (threadList b t)) eqn:Ht; try done.
    destruct (decide (t ∈ drop (curThreadIdx b') (runList b))) as [Hd'|Hd'],
      (decide (t ∈ drop (curThreadIdx b) (runList b))) as [Hd|Hd]; try done; exfalso.
    + apply Hd. rewrite elem_drop in Hd' |- *. destruct Hd' as (i & Hi & Hx). exists i.
      pose proof (w_cur _ _ W). split; [lia|done].
    + rewrite elem_drop in Hd. destruct Hd as (i & Hi & Hx).
      apply (w_seen _ _ W i t); [|done|congruence]. split; [done|].
      apply Nat.lt_nge. intros Hle. apply Hd'. rewrite elem_drop. by exists i.
  - right. split; [by apply view_turn|unfold view; by rewrite H2].
Qed.

Lemma over_view b t : inv b -> over b -> view b t = Away \/ view b t = Waits.
Proof.
  intros Hb (Hr & Hp & _). pose proof (none_running b t Hb Hr) as Hn. unfold view.
  destruct (state (threadList b t)) eqn:Ht; try tauto. destruct (decide _) as [Hd|]; [|by right].
  destruct Hp. apply elem_drop in Hd as (i & Hi & Hx). by exists i, t.
Qed.

Lemma restarted_view b b' t :
  inv b -> inv b' -> over b -> restarted b b' ->
  view b t = Away /\ view b' t = Away \/ view b t = Waits /\ (view b' t = Turn \/ view b' t = Runs).
Proof.
  intros Hb Hb' Ho [Hs Hw]. specialize (Hs t). specialize (Hw t).
  assert (Hw' : state (threadList b' t) = WAITING -> view b' t = Turn).
  { intros Ht. apply view_turn. split; [done|].
    destruct (in_runList b' t Hb') as [i Hi]; [congruence|]. exists i. split; [by apply Hw|done]. }
  destruct (over_view b t Hb Ho) as [Hv|Hv]; [left|right]; (split; [done|]); unfold view in Hv |- *;
    destruct (state (threadList b t)) eqn:Ht; try done;
    destruct_or!; destruct_and?; try congruence; try (by rewrite Hs).
  all: try (by rewrite H1). all: try (by destruct (decide _)).
  - left. specialize (Hw' Hs). unfold view in Hw'. exact Hw'.
  - right. by rewrite H1.
Qed.

(** What an operation of [t] does to the other threads. *)
Definition others (t : nat) (R : turn -> turn -> Prop) (b b' : Barrier) : Prop :=
  forall x, x <> t -> R (view b x) (view b' x) /\
    (state (threadList b x) = OFFLINE -> state (threadList b' x) = OFFLINE).

Lemma view_ext b b' x :
  state (threadList b' x) = state (threadList b x) ->
  (x ∈ drop (curThreadIdx b') (runList b') <-> x ∈ drop (curThreadIdx b) (runList b)) ->
  view b' x = view b x.
Proof.
  intros Hs Hd. unfold view. rewrite Hs. destruct (state (threadList b x)); try done.
  by rewrite (decide_ext _ _ _ _ Hd).
Qed.

(** A thread that was put on the list with its turn to come: the phase goes on. *)
Lemma wake_pending b b0 t i :
  inv b0 -> (curThreadIdx b0 <= i)%nat -> runList b0 !! i = Some t ->
  state (threadList b0 t) = WAITING -> phases b0 = phases b ->
  (forall x, x <> t -> state (threadList b0 x) = state (threadList b x) /\
     (x ∈ drop (curThreadIdx b0) (runList b0) <-> x ∈ drop (curThreadIdx b) (runList b))) ->
  exists b', tryWakeNext b0 = Ok b' /\ inv b' /\ live b' /\ phases b' = phases b /\
    (view b' t = Turn \/ view b' t = Runs) /\ others t adv b b'.
Proof.
  intros Hb Hi Ht Hw Hph Ho.
  assert (Hv : view b0 t = Turn) by (apply view_turn; eauto).
  assert (Hn : ~ over b0) by (intros [?|?]%(over_view b0 t Hb); congruence).
  pose proof (tryWakeNext_ok b0 Hb) as Hok. destruct (tryWakeNext b0) as [b'|]; [|by destruct Hok].
  destruct Hok as (H1 & H2 & _ & [(H3 & _ & W)|(_ & Ho' & _)]); [|done].
  exists b'. split_and!; [done|done|done|congruence| |].
  - pose proof (woke_view _ _ t W) as [->|[_ ->]]; auto.
  - intros x Hx. destruct (Ho x Hx) as [Hs Hd]. rewrite <- (view_ext b b0 x Hs Hd). split; [by apply woke_view|].
    rewrite <- Hs. intros Hoff. destruct (w_state _ _ W x) as [->|[? _]]; congruence.
Qed.

Lemma join_ok t b :
  inv b -> Z.of_nat (runListSize b) + 1 < 2 ^ 32 ->
  state (threadList b t) = OFFLINE \/ state (threadList b t) = LEFT ->
  exists b', join t b = Ok b' /\ inv b' /\ live b' /\ phases b' = phases b /\
    (view b' t = Turn \/ view b' t = Runs) /\ others t adv b b'.
Proof.
  intros Hb Hsz Ht. unfold join. cbv zeta.
  rewrite (bool_decide_true (state (threadList b t) = LEFT \/ state (threadList b t) = OFFLINE)) by tauto.
  cbn [assert_that mbind res_bind]. pose proof (i_cur _ Hb) as Hcur.
  assert (Hst : forall b0 x, x <> t ->
    state (threadList (set_futexWord t 1 (set_state t WAITING b0)) x) = state (threadList b0 x)).
  { intros b0 x Hx. cbn. by rewrite !fn_lookup_insert_ne by done. }
  assert (Hwt : forall b0, state (threadList (set_futexWord t 1 (set_state t WAITING b0)) t) = WAITING).
  { intros b0. cbn. by rewrite !fn_lookup_insert. }
  destruct (decide (state (threadList b t) = OFFLINE)) as [Ho|Ho].
  - cbn [mbind res_bind]. eapply (wake_pending b _ t (runListSize b)); [by apply join_offline_inv|done| |apply Hwt|done|].
    + cbn. rewrite lookup_app_r by (unfold runListSize; lia). by rewrite Nat.sub_diag.
    + intros x Hx. split; [exact (Hst _ x Hx)|]. cbn. rewrite drop_app_le by done.
      rewrite elem_of_app, list_elem_of_singleton. tauto.
  - assert (Hl : state (threadList b t) = LEFT) by tauto. clear Ht Ho.
    assert (Hin : t ∈ runList b) by (apply (i_mem _ Hb); congruence).
    pose proof (i_placed _ Hb t (or_intror Hl)) as Hp.
    assert (Hupd : forall b0, inv b0 -> state (threadList b0 t) = LEFT ->
      inv (set_futexWord t 1 (set_state t WAITING (set_left (u32 (leftThreads b0 - 1)) b0)))).
    { intros b0 H0 HL0. eapply (upd_inv b0 t (mkTSI WAITING 1 (lastIdx (threadList b0 t))));
        [done|apply (i_mem _ H0); congruence|done| | | |by left].
      - intros x. cbn. rewrite !fn_lookup_insert. cbn. destruct (decide (x = t)) as [->|Hx];
          [by rewrite fn_lookup_insert|by rewrite !fn_lookup_insert_ne].
      - cbn. rewrite HL0. unfold one_if. cbn. pose proof (i_max _ H0). pose proof (i_par _ H0).
        pose proof (i_running _ H0). rewrite Z.sub_0_r, u32_id; [done|unfold in_u32; lia].
      - cbn. rewrite HL0. unfold one_if. cbn. by rewrite Z.add_0_r. }
    cbn [threadList set_left curThreadIdx runList].
    destruct (decide (lastIdx (threadList b t) < curThreadIdx b)%nat) as [Hlt|Hge].
    + rewrite bool_decide_true by done. cbn [assert_that mbind res_bind].
      destruct (reschedule_inv b t Hb Hl Hlt) as (R1 & R2 & R3 & R4 & R5).
      specialize (Hupd _ R1 R2).
      eapply (wake_pending b _ t (curThreadIdx b - 1)%nat); [exact Hupd|done|exact R3|apply Hwt|done|].
      intros x Hx. split; [rewrite Hst by done; exact (R4 x)|exact (R5 x Hx)].
    + cbn [mbind res_bind]. eapply (wake_pending b _ t (lastIdx (threadList b t)));
        [by apply Hupd|cbn; lia|done|apply Hwt|done|]. intros x Hx. split; [exact (Hst _ x Hx)|done].
Qed.

Lemma stop_pending b t i b' :
  inv b -> state (threadList b t) = RUNNING -> state i <> RUNNING ->
  runList b' = runList b -> curThreadIdx b' = curThreadIdx b ->
  (forall x, threadList b' x = if decide (x = t) then i else threadList b x) ->
  pending b' <-> pending b.
Proof.
  intros Hb Ht Hi E1 E2 Htl. unfold pending. rewrite E1, E2.
  assert (Hbef : forall k, runList b !! k = Some t -> (k < curThreadIdx b)%nat).
  { intros k Hk. by apply (i_before _ Hb k t). }
  split; intros (k & x & Hk & Hx & Hw); exists k, x; (split_and!; [done|done|]).
  - rewrite Htl in Hw. destruct (decide (x = t)) as [->|]; [|done]. specialize (Hbef k Hx). lia.
  - rewrite Htl. destruct (decide (x = t)) as [->|]; [|done]. congruence.
Qed.

(** A running thread stops, to wait ([sync]) or to leave. *)
Lemma stop_work b t i b0 :
  inv b -> state (threadList b t) = RUNNING ->
  runList b0 = runList b -> curThreadIdx b0 = curThreadIdx b ->
  (forall x, threadList b0 x = if decide (x = t) then i else threadList b x) ->
  runningThreads b0 = runningThreads b - 1 -> work b0 = work b - 1.
Proof.
  intros Hb Ht E1 E2 Htl Hr. unfold work. rewrite E1, E2, Hr, (count_ext WAITING (threadList b0) (threadList b)); [lia|].
  intros x Hx. rewrite Htl. destruct (decide (x = t)) as [->|]; [|done].
  apply list_elem_of_lookup_1 in Hx as [k Hk]. rewrite lookup_drop in Hk.
  pose proof (i_before _ Hb _ _ Hk Ht). lia.
Qed.

(** Where the thread that stops is left until the phase ends. *)
Definition stopped (i : ThreadSyncInfo) : turn := if decide (state i = WAITING) then Waits else Away.

(** A running thread stops: either the phase goes on, or it ends. *)
Definition goes_on (b b' : Barrier) (t : nat) (s : turn) : Prop :=
  phases b' = phases b /\ work b' = work b - 1 /\ view b' t = s /\ others t adv b b'.
Definition ends (b b' : Barrier) (t : nat) (s : turn) : Prop :=
  phases b' = S (phases b) /\ next s (view b' t) /\ others t next b b'.

Lemma stop_ok b t i b0 :
  inv b -> state (threadList b t) = RUNNING ->
  parallelThreads b0 = parallelThreads b /\ runList b0 = runList b /\
    curThreadIdx b0 = curThreadIdx b /\ rnd b0 = rnd b ->
  phases b0 = phases b ->
  (forall x, threadList b0 x = if decide (x = t) then i else threadList b x) ->
  runningThreads b0 = u32 (runningThreads b - 1) ->
  leftThreads b0 = u32 (leftThreads b + one_if LEFT (state i)) ->
  (state i = WAITING /\ futexWord i = 1 \/ state i = LEFT /\ runList b !! lastIdx i = Some t) ->
  let last := runningThreads b = 1 /\ ~ pending b /\ exists x, state (threadList b0 x) = WAITING in
  match tryWakeNext b0 with
  | Ok b' => inv b' /\ live b' /\
      (goes_on b b' t (stopped i) /\ ~ last \/ ends b b' t (stopped i) /\ last)
  | Fail e => e = NoFuel /\ last
  end.
Proof.
  intros Hb Ht Hf Hph Htl Hr Hl Hi last. pose proof Hf as (F1 & F2 & F3 & F4).
  assert (Hin : t ∈ runList b) by (apply (i_mem _ Hb); congruence).
  pose proof (running_pos b t Hb Ht) as Hpos. pose proof (i_max _ Hb) as Hmax. pose proof (i_par _ Hb) as Hpar.
  assert (HiR : state i <> RUNNING) by (destruct Hi as [[-> _]|[-> _]]; done).
  assert (H0 : inv b0).
  { apply (upd_inv b t i); try done; rewrite Ht; unfold one_if; cbn; [done|]. by rewrite Hl, Z.sub_0_r. }
  assert (Hlast : over b0 <-> last).
  { unfold over, last. rewrite (stop_pending b t i b0) by done.
    rewrite Hr, u32_id by (unfold in_u32; lia). split; intros (? & ? & ?); split_and!; try done; lia. }
  assert (Hvt : view b0 t = stopped i).
  { assert (Hnt : t ∉ drop (curThreadIdx b) (runList b)).
    { rewrite elem_drop. intros (k & Hk & Hkt). pose proof (i_before _ Hb k t Hkt Ht). lia. }
    unfold view, stopped. rewrite Htl, F2, F3, (decide_True (P := t = t)) by done.
    destruct Hi as [[-> _]|[-> _]]; cbn; [|done]. by rewrite decide_False. }
  assert (Hox : forall x, x <> t -> view b0 x = view b x /\ state (threadList b0 x) = state (threadList b x)).
  { intros x Hx. assert (Hs : state (threadList b0 x) = state (threadList b x)) by (by rewrite Htl, decide_False).
    split; [|done]. apply view_ext; [done|by rewrite F2, F3]. }
  pose proof (tryWakeNext_ok b0 H0) as Hok. destruct (tryWakeNext b0) as [b'|]; [|by rewrite <- Hlast].
  destruct Hok as (H1 & H2 & _ & Hc). rewrite <- Hlast. split_and!; [done|done|].
  destruct Hc as [(H3 & H4 & W)|(H3 & H4 & R)]; [left|right]; (split; [split_and!|done]).
  - congruence.
  - rewrite (w_work _ _ W). apply (stop_work b t i b0); try done.
    rewrite Hr, u32_id; [done|unfold in_u32; lia].
  - rewrite <- Hvt. pose proof (woke_view _ _ t W) as [Hv|[Hv _]]; [done|].
    rewrite Hvt in Hv. unfold stopped in Hv. by destruct (decide _).
  - intros x Hx. destruct (Hox x Hx) as [<- Hs]. split; [by apply woke_view|]. rewrite <- Hs.
    intros Hoff. destruct (w_state _ _ W x) as [->|[? _]]; congruence.
  - congruence.
  - rewrite <- Hvt. by apply restarted_view.
  - intros x Hx. destruct (Hox x Hx) as [<- Hs]. split; [by apply restarted_view|]. rewrite <- Hs.
    intros Hoff. destruct (proj1 R x) as [->|[[? _]|[? _]]]; congruence.
Qed.

Lemma work_size b : inv b -> work b <= Z.of_nat (runListSize b).
Proof.
  intros Hb. unfold work, runListSize. rewrite (i_running _ Hb).
  rewrite <- (take_drop (curThreadIdx b) (runList b)) at 1 3. rewrite count_app, length_app.
  rewrite (count_not RUNNING _ (drop _ _)).
  - pose proof (count_le RUNNING (threadList b) (take (curThreadIdx b) (runList b))).
    pose proof (count_le WAITING (threadList b) (drop (curThreadIdx b) (runList b))). lia.
  - intros x Hx Hr. apply list_elem_of_lookup_1 in Hx as [k Hk]. rewrite lookup_drop in Hk.
    pose proof (i_before _ Hb _ _ Hk Hr). lia.
Qed.

(** The calls of the scheduler, made under its lock. *)
Inductive step (b : Barrier) : Barrier -> Prop :=
| step_join t b' :
    state (threadList b t) = OFFLINE \/ state (threadList b t) = LEFT ->
    Z.of_nat (runListSize b) + 1 < 2 ^ 32 -> join t b = Ok b' -> step b b'
| step_sync t b' : state (threadList b t) = RUNNING -> sync t b = Ok b' -> step b b'
| step_leave t b' : state (threadList b t) = RUNNING -> leave t b = Ok b' -> step b b'
| step_leave_waiting t b' :
    state (threadList b t) = WAITING -> runList b !! lastIdx (threadList b t) = Some t ->
    leave t b = Ok b' -> step b b'.

Definition to_wait (b : Barrier) (t : nat) : ThreadSyncInfo := mkTSI WAITING 1 (lastIdx (threadList b t)).
Definition to_leave (b : Barrier) (t : nat) : ThreadSyncInfo :=
  mkTSI LEFT (futexWord (threadList b t)) (lastIdx (threadList b t)).

(** [t], running alone, was the last to stop in this phase, and [w] tells
    whether a thread waits for the next one. *)
Definition last_of_phase (b : Barrier) (w : Prop) : Prop :=
  runningThreads b = 1 /\ ~ pending b /\ w.

Definition phase_end (b : Barrier) (t : nat) (s : turn) (w : Prop) (r : res Barrier) : Prop :=
  match r with
  | Ok b' => inv b' /\ live b' /\
      (goes_on b b' t s /\ ~ last_of_phase b w \/ ends b b' t s /\ last_of_phase b w)
  | Fail e => e = NoFuel /\ last_of_phase b w
  end.

Lemma sync_ok t b :
  inv b -> state (threadList b t) = RUNNING -> phase_end b t Waits True (sync t b).
Proof.
  intros Hb Ht. unfold sync. rewrite bool_decide_true by done. cbn [assert_that mbind res_bind].
  set (b0 := set_running _ _).
  assert (Htl : forall x, threadList b0 x = if decide (x = t) then to_wait b t else threadList b x).
  { intros x. cbn. rewrite !fn_lookup_insert. cbn. destruct (decide (x = t)) as [->|Hx];
      [by rewrite fn_lookup_insert|by rewrite !fn_lookup_insert_ne]. }
  pose proof (i_left _ Hb) as Hl. pose proof (count_le LEFT (threadList b) (runList b)) as Hc.
  pose proof (i_size _ Hb) as Hs. unfold runListSize in Hs.
  pose proof (stop_ok b t (to_wait b t) b0 Hb Ht) as Hok. cbv zeta in Hok.
  assert (Hw : (exists x, state (threadList b0 x) = WAITING) <-> True).
  { split; [done|]. intros _. exists t. by rewrite Htl, decide_True. }
  assert (Hlast : last_of_phase b True <->
    runningThreads b = 1 /\ ~ pending b /\ exists x, state (threadList b0 x) = WAITING).
  { unfold last_of_phase. by rewrite Hw. }
  unfold phase_end. destruct (tryWakeNext b0); rewrite Hlast; apply Hok; try done; try by left.
  all: change (leftThreads b0) with (leftThreads b); unfold one_if; cbn.
  all: rewrite Z.add_0_r, u32_id; [done|unfold in_u32; lia].
Qed.

Lemma leave_running_ok t b :
  inv b -> state (threadList b t) = RUNNING ->
  phase_end b t Away (exists x, state (threadList b x) = WAITING) (leave t b).
Proof.
  intros Hb Ht. unfold leave. rewrite decide_True by done.
  set (b0 := set_running _ _).
  assert (Htl : forall x, threadList b0 x = if decide (x = t) then to_leave b t else threadList b x).
  { intros x. cbn. destruct (decide (x = t)) as [->|Hx];
      [by rewrite fn_lookup_insert|by rewrite !fn_lookup_insert_ne]. }
  pose proof (stop_ok b t (to_leave b t) b0 Hb Ht) as Hok. cbv zeta in Hok.
  assert (Hw : (exists x, state (threadList b0 x) = WAITING) <-> exists x, state (threadList b x) = WAITING).
  { split; intros [x Hx]; exists x; rewrite Htl in *; destruct (decide (x = t)) as [->|]; try done; congruence. }
  assert (Hlast : last_of_phase b (exists x, state (threadList b x) = WAITING) <->
    runningThreads b = 1 /\ ~ pending b /\ exists x, state (threadList b0 x) = WAITING).
  { unfold last_of_phase. by rewrite Hw. }
  unfold phase_end. destruct (tryWakeNext b0); rewrite Hlast; apply Hok; try done; right.
  all: split; [done|apply (i_placed _ Hb); by left].
Qed.

Lemma leave_waiting_ok t b :
  inv b -> live b -> state (threadList b t) = WAITING -> runList b !! lastIdx (threadList b t) = Some t ->
  exists b', leave t b = Ok b' /\ inv b' /\ live b' /\ phases b' = phases b.
Proof.
  intros Hb Hlive Ht Hp. unfold leave. rewrite decide_False, bool_decide_true by congruence.
  cbn [assert_that mbind res_bind]. eexists. split; [reflexivity|].
  assert (Htl : forall x, threadList (set_left (u32 (leftThreads b + 1)) (set_state t LEFT b)) x =
    if decide (x = t) then to_leave b t else threadList b x).
  { intros x. cbn. destruct (decide (x = t)) as [->|Hx];
      [by rewrite fn_lookup_insert|by rewrite !fn_lookup_insert_ne]. }
  split_and!; [|destruct Hlive as [?|Hn]; [by left|right]|done].
  - eapply (upd_inv b t (to_leave b t)); [done|apply (i_mem _ Hb); congruence|done|exact Htl| | |by right].
    + cbn. rewrite Ht. unfold one_if. cbn. pose proof (i_max _ Hb). pose proof (i_par _ Hb).
      pose proof (i_running _ Hb). rewrite Z.sub_0_r, u32_id; [done|unfold in_u32; lia].
    + cbn. rewrite Ht. unfold one_if. cbn. by rewrite Z.sub_0_r.
  - intros x. rewrite Htl. by destruct (decide (x = t)).
Qed.

Lemma new_inv p g : 0 < p < 2 ^ 32 -> rand_ok g -> inv (new p g) /\ live (new p g).
Proof.
  intros Hp Hg. split; [|by right]. split; cbn; try done; try lia.
  - by constructor.
  - intros t. split; [by intros ?%elem_of_nil|done].
  - by intros t [|].
Qed.

Lemma step_inv b b' : inv b /\ live b -> step b b' -> inv b' /\ live b'.
Proof.
  intros [Hb Hl] Hs. destruct Hs as [t b' Ht Hsz E|t b' Ht E|t b' Ht E|t b' Ht Hp E].
  - destruct (join_ok t b Hb Hsz Ht) as (b1 & E1 & H1 & H2 & _).
    assert (b' = b1) as -> by congruence. done.
  - pose proof (sync_ok t b Hb Ht) as Hok. rewrite E in Hok. by destruct Hok as (? & ? & _).
  - pose proof (leave_running_ok t b Hb Ht) as Hok. rewrite E in Hok. by destruct Hok as (? & ? & _).
  - destruct (leave_waiting_ok t b Hb Hl Ht Hp) as (b1 & E1 & H1 & H2 & _).
    assert (b' = b1) as -> by congruence. done.
Qed.

(** ** Properties *)

(** C27: every state the barrier reaches from its creation by joins, syncs and
    leaves is consistent (the counters count the threads of each state, the list
    holds each thread that is not offline once, at most [parallelThreads] threads
    run, and all of those are before the cursor), and it is live: when a thread
    waits, another one is running. *)
Theorem reachable_inv p g b :
  0 < p < 2 ^ 32 -> rand_ok g -> rtc step (new p g) b ->
  inv b /\ live b /\ runningThreads b <= parallelThreads b.
Proof.
  intros Hp Hg Hr.
  assert (Hi : inv b /\ live b).
  { pose proof (new_inv p g Hp Hg) as H0. induction Hr as [b|b b1 b2 Hs _ IH]; [done|].
    apply IH. by apply (step_inv b). }
  destruct Hi as [Hi Hl]. split_and!; [done|done|apply Hi].
Qed.

(** [join] succeeds on a thread that is offline or left (its assertions hold
    and no wake-up is lost), never ends the phase, and gives the thread a turn in
    the current one: it runs, or its turn is to come.  Of the other threads, some
    get their turn; the rest stay where they are. *)
Theorem join_correct t b :
  inv b -> Z.of_nat (runListSize b) + 1 < 2 ^ 32 ->
  state (threadList b t) = OFFLINE \/ state (threadList b t) = LEFT ->
  exists b', join t b = Ok b' /\ inv b' /\ live b' /\ phases b' = phases b /\
    (view b' t = Turn \/ view b' t = Runs) /\ others t adv b b'.
Proof. apply join_ok. Qed.

(** When a running thread calls [sync] or [leave], the phase ends, once, iff no
    other thread runs, no thread of the rest of the list still waits for its turn,
    and (for [leave]) some thread waits for the next phase.  If it ends, every
    thread that was waiting for the next phase has a turn in it; if not, no thread
    gets a second turn, and one stop less is left in the phase.  The only failure is
    a draw of the shuffle that does not finish. *)
Theorem stop_correct t b :
  inv b -> state (threadList b t) = RUNNING ->
  phase_end b t Waits True (sync t b) /\
  phase_end b t Away (exists x, state (threadList b x) = WAITING) (leave t b).
Proof. intros Hb Ht. split; [by apply sync_ok|by apply leave_running_ok]. Qed.

(** A running thread stops, and the phase goes on. *)
Definition stop (b b' : Barrier) : Prop :=
  phases b' = phases b /\ exists t, state (threadList b t) = RUNNING /\
    (sync t b = Ok b' \/ leave t b = Ok b').

(** C31: a phase ends after at most as many stops as there are threads running or
    with their turn to come, and the threads that still have their turn to come
    never wait for it alone: another thread is running. *)
Theorem phase_terminates n b b' :
  inv b -> live b -> nsteps stop n b b' ->
  Z.of_nat n + work b' = work b /\ 0 <= work b' /\ live b' /\ work b <= Z.of_nat (runListSize b).
Proof.
  intros Hb Hl Hn. assert (Hsize : work b <= Z.of_nat (runListSize b)) by (by apply work_size).
  enough (Z.of_nat n + work b' = work b /\ inv b' /\ live b').
  { destruct_and!. split_and!; try done. unfold work. rewrite (i_running b') by done. lia. }
  clear Hsize. induction Hn as [b|n b b1 b2 (Hp & t & Ht & Hs) Hn IH]; [by rewrite Z.add_0_l|].
  assert (H1 : inv b1 /\ live b1 /\ work b1 = work b - 1).
  { pose proof (sync_ok t b Hb Ht) as A. pose proof (leave_running_ok t b Hb Ht) as B.
    unfold phase_end in A, B. destruct Hs as [E|E]; rewrite E in A || rewrite E in B;
      [destruct A as (? & ? & [((_ & ? & _) & _)|[(? & _) _]])|destruct B as (? & ? & [((_ & ? & _) & _)|[(? & _) _]])];
      split_and!; done || lia. }
  destruct H1 as (H1 & H2 & H3). destruct (IH H1 H2) as (H4 & H5). split; [lia|done].
Qed.

(** ** The interface *)

#[export] Instance barrier_iface : PhaseBarrier Barrier := {
  bar_join := join; bar_leave := leave; bar_sync := sync; bar_phases := phases
}.

(** Only the contexts of the machine are ever on the list. *)
Definition bar_ok (N : nat) (b : Barrier) : Prop :=
  inv b /\ live b /\ forall t, (N <= t)%nat -> state (threadList b t) = OFFLINE.

Lemma bar_ok_size N b : Z.of_nat N < 2 ^ 32 - 1 -> bar_ok N b -> Z.of_nat (runListSize b) + 1 < 2 ^ 32.
Proof.
  intros HN (Hi & _ & Ho). unfold runListSize. enough (length (runList b) <= N)%nat by lia.
  rewrite <- (length_seq N 0). apply submseteq_length, NoDup_submseteq; [apply Hi|].
  intros x Hx. apply elem_of_seq. split; [lia|]. apply Nat.lt_nge. intros Hle.
  by apply (i_mem _ Hi) in Hx; apply Hx, Ho.
Qed.

Lemma bar_ok_others N (R : turn -> turn -> Prop) t b b' :
  (t < N)%nat -> bar_ok N b -> inv b' -> live b' -> others t R b b' -> bar_ok N b'.
Proof.
  intros Ht (_ & _ & Ho) H1 H2 H3. split_and!; [done|done|]. intros x Hx.
  apply H3; [lia|by apply Ho].
Qed.

Lemma bar_stop_ok N t s w b r :
  (t < N)%nat -> bar_ok N b -> phase_end b t s w r -> stop_spec (bar_ok N) view t s b r.
Proof.
  intros Ht Hb. unfold phase_end, stop_spec. destruct r as [b'|]; [|by intros [? _]].
  intros (H1 & H2 & Hc). destruct Hc as [((G1 & _ & G3 & G4) & _)|((E1 & E2 & E3) & _)].
  - split; [by eapply bar_ok_others|]. left. split_and!; [done|done|]. intros x Hx. by apply G4.
  - split; [by eapply bar_ok_others|]. right. split_and!; [done|done|]. intros x Hx. by apply E3.
Qed.

Lemma view_runs b t : view b t = Runs -> state (threadList b t) = RUNNING.
Proof. unfold view. destruct (state _); try done. by destruct (decide _). Qed.

Lemma view_away b t :
  view b t = Away -> state (threadList b t) = OFFLINE \/ state (threadList b t) = LEFT.
Proof. unfold view. destruct (state _); try done; try tauto. by destruct (decide _). Qed.

#[export] Program Instance barrier_laws (N : nat) (HN : Z.of_nat N < 2 ^ 32 - 1) : PhaseBarrierLaws Barrier N := {
  bar_inv := bar_ok N; bar_view := view
}.
Next Obligation.
  intros N HN c b Hb Hc Hv.
  destruct (join_ok c b (proj1 Hb) (bar_ok_size N b HN Hb) (view_away b c Hv)) as (b' & E & H1 & H2 & H3 & H4 & H5).
  exists b'. split_and!; [done|by eapply bar_ok_others|done|done|]. intros x Hx. by apply H5.
Qed.
Next Obligation.
  intros N HN c b Hb Hc Hv. eapply bar_stop_ok; [done|done|]. by apply sync_ok; [apply Hb|apply view_runs].
Qed.
Next Obligation.
  intros N HN c b Hb Hc Hv. eapply bar_stop_ok; [done|done|].
  by apply leave_running_ok; [apply Hb|apply view_runs].
Qed.
Next Obligation.
  intros N HN b c (Hi & Hl & Ho) Hv. cbn in Hv.
  assert (Hw : state (threadList b c) = WAITING).
  { unfold view in Hv. destruct (state (threadList b c)); naive_solver. }
  destruct Hl as [Hr|Hn]; [|by destruct (Hn c)].
  destruct (count_ex RUNNING (threadList b) (runList b)) as (t & _ & Ht).
  { pose proof (i_running _ Hi). lia. }
  exists t. cbn. split; [|unfold view; by rewrite Ht].
  apply Nat.lt_nge. intros Hle. rewrite Ho in Ht by done. done.
Qed.

End Barrier.

(** The generator of the simulator, with a bound on the draws of [randInt]. *)
Definition draws : nat := 64.
#[local] Instance mt_source : RandSource MTRand.MTRand := fun g n => MTRand.randInt_upto draws n g.

#[local] Instance mt_laws : RandLaws MTRand.MTRand.
Proof.
  refine {| rand_ok := MTRand.wf |}.
  intros g n j g' Hg Hn Hj. exact (MTRand.randInt_upto_bound draws n g j g' (proj1 Hn) Hg Hj).
Defined.

Definition result (r : res (Barrier (G := MTRand.MTRand))) : Barrier :=
  match r with Ok b => b | Fail _ => new 0 (MTRand.seed 0) end.

(** Three threads on one core: the first phase runs them one by one, the last
    [sync] ends it and shuffles the list. *)
Definition b0 : Barrier := new 1 (MTRand.seed 195522871).
Definition b1 : Barrier := result (join 0 b0).
Definition b2 : Barrier := result (join 1 b1).
Definition b3 : Barrier := result (join 2 b2).
Definition b4 : Barrier := result (sync 0 b3).
Definition b5 : Barrier := result (leave 1 b4).
Definition b6 : Barrier := result (sync 2 b5).

Ltac compute_op := vm_compute; reflexivity.

Lemma b0_ok : inv b0 /\ live b0.
Proof. apply new_inv; [lia|apply MTRand.seed_wf]. Qed.

Lemma b3_reached : rtc step b0 b3.
Proof.
  eapply rtc_l; [apply (step_join _ 0%nat b1); [by left|vm_compute; done|compute_op]|].
  eapply rtc_l; [apply (step_join _ 1%nat b2); [by left|vm_compute; done|compute_op]|].
  apply rtc_once, (step_join _ 2%nat b3); [by left|vm_compute; done|compute_op].
Qed.

Lemma b5_reached : rtc step b0 b5.
Proof.
  eapply rtc_r; [eapply rtc_r; [apply b3_reached|apply (step_sync _ 0%nat b4); compute_op]|].
  apply (step_leave _ 1%nat b5); compute_op.
Qed.

Lemma reached_ok b : rtc step b0 b -> inv b /\ live b.
Proof.
  intros Hr. pose proof b0_ok as H0. induction Hr as [b|b b' b'' Hs _ IH]; [done|].
  apply IH. by apply (step_inv b).
Qed.

Lemma reachable_inv_witness :
  inv b6 /\ live b6 /\ runningThreads b6 <= parallelThreads b6.
Proof.
  apply (reachable_inv 1 (MTRand.seed 195522871)); [lia|apply MTRand.seed_wf|].
  eapply rtc_r; [apply b5_reached|]. apply (step_sync _ 2%nat b6); compute_op.
Defined.

(** Thread 1 left after its turn, and joins again in the same phase. *)
Lemma join_correct_witness :
  state (threadList b5 1) = LEFT /\ exists b', join 1 b5 = Ok b' /\ inv b' /\ live b' /\
    phases b' = phases b5 /\ (view b' 1 = Turn \/ view b' 1 = Runs) /\ others 1 adv b5 b'.
Proof.
  split; [compute_op|]. apply (join_correct 1 b5); [apply reached_ok, b5_reached|vm_compute; done|right; compute_op].
Defined.

(** Thread 2 runs alone: its [sync] ends the phase. *)
Lemma stop_correct_witness :
  phases b5 = 0%nat /\ phases b6 = 1%nat /\ phase_end b5 2 Waits True (sync 2 b5).
Proof.
  split_and!; [compute_op|compute_op|].
  apply (proj1 (stop_correct 2 b5 (proj1 (reached_ok b5 b5_reached)) ltac:(compute_op))).
Defined.

Lemma phase_terminates_witness :
  Z.of_nat 2 + work b5 = work b3 /\ 0 <= work b5 /\ live b5 /\ work b3 <= Z.of_nat (runListSize b3).
Proof.
  apply (phase_terminates 2 b3 b5); [apply reached_ok, b3_reached..|].
  apply (nsteps_l _ 1 b3 b4 b5); [split; [compute_op|]; exists 0%nat; split; [compute_op|left; compute_op]|].
  apply nsteps_once. split; [compute_op|]. exists 1%nat. split; [compute_op|right; compute_op].
Defined.

(** A thread that leaves while it waits keeps the index of an earlier turn: its
    next [join] fails its assertion. *)
Lemma leave_waiting_stale :
  let b := new 1 (MTRand.seed 195522871) in
  (b ← join 7 b; b ← join 8 b; b ← leave 8 b; join 8 b) = Fail AssertFailed.
Proof. compute_op. Qed.

End Barrier.
