(* ===== verification/InList.v ===== *)
(** The intrusive doubly linked list (intrusive_list.h): the queues of the
    scheduler.  The model is the heap of nodes with their [next], [prev] and [owner]
    fields, shared by all lists; each operation refines the operation on sequences
    that a client reasons with. *)
From S2P Require Import Prelude.

Module InList.

Record node := mkNode { next : option nat; prev : option nat; owner : option nat }.
#[export] Instance node_eq_dec : EqDecision node.
Proof. solve_decision. Defined.

(** The nodes, and the fields of each list. *)
Record heap := mkHeap {
  nodes : nat -> node;
  head : nat -> option nat;
  tail : nat -> option nat;
  elems : nat -> Z
}.

Definition unlinked : node := mkNode None None None.
Definition new_list (l : nat) (h : heap) : heap :=
  mkHeap (nodes h) (<[l := None]> (head h)) (<[l := None]> (tail h)) (<[l := 0]> (elems h)).

Definition set_node (x : nat) (f : node -> node) (h : heap) : heap :=
  mkHeap (<[x := f (nodes h x)]> (nodes h)) (head h) (tail h) (elems h).
(** A write through a pointer that may be null, guarded by its test. *)
Definition set_if (x : option nat) (f : node -> node) (h : heap) : heap :=
  match x with Some x => set_node x f h | None => h end.
Definition set_next (n : option nat) (x : node) : node := mkNode n (prev x) (owner x).
Definition set_prev (p : option nat) (x : node) : node := mkNode (next x) p (owner x).
Definition set_owner (o : option nat) (x : node) : node := mkNode (next x) (prev x) o.
Definition set_head (l : nat) (x : option nat) (h : heap) : heap :=
  mkHeap (nodes h) (<[l := x]> (head h)) (tail h) (elems h).
Definition set_tail (l : nat) (x : option nat) (h : heap) : heap :=
  mkHeap (nodes h) (head h) (<[l := x]> (tail h)) (elems h).
Definition add_elems (l : nat) (d : Z) (h : heap) : heap :=
  mkHeap (nodes h) (head h) (tail h) (<[l := u64 (elems h l + d)]> (elems h)).

Definition empty (l : nat) (h : heap) : bool := bool_decide (head h l = None).
Definition front (l : nat) (h : heap) : option nat := head h l.
Definition back (l : nat) (h : heap) : option nat := tail h l.
Definition size (l : nat) (h : heap) : Z := elems h l.

Definition unlink (e l : nat) (h : heap) : res heap :=
  let h := set_if (next (nodes h e)) (set_prev (prev (nodes h e))) h in
  let h := set_if (prev (nodes h e)) (set_next (next (nodes h e))) h in
  let h := set_node e (fun n => set_prev None (set_next None n)) h in
  _ ← assert_that (bool_decide (owner (nodes h e) = Some l));
  Ok (set_node e (set_owner None) h).

Definition linkPrev (e p l : nat) (h : heap) : res heap :=
  _ ← assert_that (bool_decide (owner (nodes h e) = None));
  _ ← assert_that (bool_decide (prev (nodes h e) = None /\ next (nodes h e) = None));
  h ← match next (nodes h p) with
      | Some n =>
          _ ← assert_that (bool_decide (prev (nodes h n) = Some p));
          Ok (set_node e (set_next (Some n)) (set_node n (set_prev (Some e)) h))
      | None => Ok h
      end;
  Ok (set_node e (fun n => set_owner (Some l) (set_prev (Some p) n)) (set_node p (set_next (Some e)) h)).

Definition check_unlinked (e : nat) (h : heap) : res unit :=
  assert_that (bool_decide (nodes h e = unlinked)).

Definition push_front (l e : nat) (h : heap) : res heap :=
  _ ← check_unlinked e h;
  h ← match head h l with
      | None => Ok (set_tail l (Some e) (set_head l (Some e) h))
      | Some hd =>
          _ ← assert_that (bool_decide (prev (nodes h hd) = None /\ owner (nodes h hd) = Some l));
          Ok (set_head l (Some e) (set_node hd (set_prev (Some e)) (set_node e (set_next (Some hd)) h)))
      end;
  Ok (add_elems l 1 (set_node e (set_owner (Some l)) h)).

Definition push_back (l e : nat) (h : heap) : res heap :=
  _ ← check_unlinked e h;
  h ← (if empty l h then
         Ok (set_node e (set_owner (Some l)) (set_tail l (Some e) (set_head l (Some e) h)))
       else
         match tail h l with
         | None => Fail AssertFailed
         | Some t => h ← linkPrev e t l h; Ok (set_tail l (Some e) h)
         end);
  Ok (add_elems l 1 h).

Definition pop_front (l : nat) (h : heap) : res heap :=
  match head h l with
  | None => Ok h
  | Some e =>
      h ← unlink e l (set_head l (next (nodes h e)) h);
      let h := if empty l h then set_tail l None h else h in
      Ok (add_elems l (-1) h)
  end.

Definition pop_back (l : nat) (h : heap) : res heap :=
  match head h l, tail h l with
  | None, _ => Ok h
  | Some _, None => Fail AssertFailed
  | Some _, Some e =>
      h ← unlink e l (set_tail l (prev (nodes h e)) h);
      let h := if bool_decide (tail h l = None) then set_head l None h else h in
      Ok (add_elems l (-1) h)
  end.

Definition remove (l e : nat) (h : heap) : res heap :=
  let h := if bool_decide (head h l = Some e) then set_head l (next (nodes h e)) h else h in
  let h := if bool_decide (tail h l = Some e) then set_tail l (prev (nodes h e)) h else h in
  h ← unlink e l h;
  Ok (add_elems l (-1) h).

Definition insertAfter (l p e : nat) (h : heap) : res heap :=
  _ ← assert_that (bool_decide (owner (nodes h e) = None));
  _ ← assert_that (bool_decide (owner (nodes h p) = Some l));
  h ← linkPrev e p l h;
  let h := if bool_decide (tail h l = Some p) then set_tail l (Some e) h else h in
  Ok (add_elems l 1 h).

(** ** The sequence a list holds *)

(** The fields of the element at position [i] of [xs]. *)
Definition node_at (l : nat) (xs : list nat) (i : nat) : node :=
  mkNode (xs !! S i) (match i with O => None | S j => xs !! j end) (Some l).

Record is_list (h : heap) (l : nat) (xs : list nat) : Prop := {
  l_nodup : NoDup xs;
  l_head : head h l = xs !! 0%nat;
  l_tail : tail h l = last xs;
  l_elems : elems h l = Z.of_nat (length xs);
  l_node i x : xs !! i = Some x -> nodes h x = node_at l xs i;
  l_owner x : owner (nodes h x) = Some l -> x ∈ xs
}.

(** ** Two primitive updates *)

Definition pred_of (xs : list nat) (k : nat) : option nat := match k with O => None | S j => xs !! j end.

Definition ins (k e : nat) (xs : list nat) : list nat := take k xs ++ e :: drop k xs.

Lemma lookup_ins k e xs i :
  (k <= length xs)%nat ->
  ins k e xs !! i = if decide (i < k)%nat then xs !! i else if decide (i = k) then Some e else xs !! (i - 1)%nat.
Proof.
  intros Hk. unfold ins. destruct (decide (i < k)%nat) as [Hi|Hi].
  - rewrite lookup_app_l by (rewrite length_take; lia). rewrite lookup_take. by rewrite decide_True.
  - rewrite lookup_app_r by (rewrite length_take; lia). rewrite length_take, Nat.min_l by lia.
    destruct (decide (i = k)) as [->|Hne]; [by rewrite Nat.sub_diag|].
    replace (i - k)%nat with (S (i - k - 1)) by lia.
    change (drop k xs !! (i - k - 1)%nat = xs !! (i - 1)%nat). rewrite lookup_drop. f_equal. lia.
Qed.

Lemma ins_perm k e xs : ins k e xs ≡ₚ e :: xs.
Proof. unfold ins. by rewrite <- Permutation_middle, take_drop. Qed.

(** [e] was linked between positions [k - 1] and [k]. *)
Record inserted (l k e : nat) (xs : list nat) (h h' : heap) : Prop := {
  in_node x : nodes h' x =
    if decide (x = e) then mkNode (xs !! k) (pred_of xs k) (Some l)
    else if decide (xs !! k = Some x) then set_prev (Some e) (nodes h x)
    else if decide (pred_of xs k = Some x) then set_next (Some e) (nodes h x)
    else nodes h x;
  in_head : head h' l = if decide (k = O) then Some e else head h l;
  in_tail : tail h' l = if decide (k = length xs) then Some e else tail h l;
  in_elems : elems h' l = u64 (elems h l + 1);
  in_others m : m <> l -> head h' m = head h m /\ tail h' m = tail h m /\ elems h' m = elems h m
}.

Lemma inserted_list l k e xs h h' :
  is_list h l xs -> e ∉ xs -> (k <= length xs)%nat -> Z.of_nat (length xs) + 1 < 2 ^ 64 ->
  inserted l k e xs h h' -> is_list h' l (ins k e xs).
Proof.
  intros [L1 L2 L3 L4 L5 L6] He Hk Hsz [N1 N2 N3 N4 N5].
  assert (Hlen : length (ins k e xs) = S (length xs)) by (by rewrite (Permutation_length (ins_perm k e xs))).
  split.
  - rewrite ins_perm. by constructor.
  - rewrite N2, lookup_ins by done. destruct (decide (k = O)) as [->|]; [done|].
    by rewrite decide_True by lia.
  - rewrite N3, last_lookup, Hlen, lookup_ins by done. cbn.
    destruct (decide (k = length xs)) as [->|]; [by rewrite decide_False, decide_True by lia|].
    rewrite decide_False, decide_False, L3, last_lookup by lia. f_equal. lia.
  - rewrite N4, L4, u64_id, Hlen by (unfold in_u64; lia). lia.
  - intros i x Hx. rewrite lookup_ins in Hx by done. unfold node_at. rewrite N1.
    assert (Hpred : match i with O => None | S j => ins k e xs !! j end =
      if decide (i <= k)%nat then pred_of xs i else if decide (i = S k) then Some e else xs !! (i - 2)%nat).
    { destruct i as [|j]; [by rewrite decide_True by lia|]. rewrite lookup_ins by done. cbn [pred_of].
      repeat destruct (decide _); try lia; try done; f_equal; lia. }
    rewrite Hpred, lookup_ins by done. clear Hpred.
    destruct (decide (i < k)%nat) as [Hik|Hik].
    + assert (x <> e) by (intros ->; by apply He; eapply list_elem_of_lookup_2).
      assert (xs !! k <> Some x) by (intros Hkx; pose proof (NoDup_lookup _ _ _ _ L1 Hx Hkx); lia).
      rewrite (L5 i x Hx). rewrite (decide_False (P := x = e)), (decide_False (P := xs !! k = Some x)) by done.
      rewrite (decide_True (P := (i <= k)%nat)) by lia.
      destruct (decide (pred_of xs k = Some x)) as [Hp|Hp].
      * destruct k as [|j]; [done|]. cbn in Hp. pose proof (NoDup_lookup _ _ _ _ L1 Hx Hp) as ->.
        rewrite decide_False, decide_True by lia. done.
      * rewrite decide_True; [done|]. destruct (decide (S i = k)) as [<-|]; [done|lia].
    + destruct (decide (i = k)) as [->|Hne].
      * injection Hx as <-. rewrite !(decide_True (P := e = e)) by done.
        rewrite decide_False, decide_False, decide_True by lia. f_equal. f_equal. lia.
      * assert (x <> e) by (intros ->; by apply He; eapply list_elem_of_lookup_2).
        rewrite (decide_False (P := x = e)) by done. rewrite (L5 _ x Hx).
        rewrite (decide_False (P := (i <= k)%nat)), (decide_False (P := (S i < k)%nat)),
          (decide_False (P := S i = k)) by lia.
        assert (Hp : pred_of xs k <> Some x).
        { destruct k as [|j]; [done|]. cbn. intros Hp. pose proof (NoDup_lookup _ _ _ _ L1 Hx Hp). lia. }
        rewrite (decide_False (P := pred_of xs k = Some x)) by done.
        replace (S i - 1)%nat with (S (i - 1)) by lia.
        destruct (decide (xs !! k = Some x)) as [Hkx|Hkx].
        -- pose proof (NoDup_lookup _ _ _ _ L1 Hx Hkx). rewrite decide_True by lia. done.
        -- assert (i <> S k) by (intros ->; apply Hkx; rewrite <- Hx; f_equal; lia).
           rewrite decide_False by done. unfold node_at. destruct (i - 1)%nat as [|j] eqn:Ej; [lia|].
           by replace (i - 2)%nat with j by lia.
  - intros x. rewrite N1, ins_perm, elem_of_cons. destruct (decide (x = e)) as [->|]; [by left|].
    intros Hx. right. apply L6. destruct (decide (xs !! k = Some x)); [exact Hx|].
    destruct (decide (pred_of xs k = Some x)); exact Hx.
Qed.

(** [e] was unlinked from position [k]. *)
Record deleted (l k e : nat) (xs : list nat) (h h' : heap) : Prop := {
  de_node x : nodes h' x =
    if decide (x = e) then unlinked
    else if decide (xs !! S k = Some x) then set_prev (pred_of xs k) (nodes h x)
    else if decide (pred_of xs k = Some x) then set_next (xs !! S k) (nodes h x)
    else nodes h x;
  de_head : head h' l = if decide (k = O) then xs !! 1%nat else head h l;
  de_tail : tail h' l = if decide (S k = length xs) then pred_of xs k else tail h l;
  de_elems : elems h' l = u64 (elems h l + -1);
  de_others m : m <> l -> head h' m = head h m /\ tail h' m = tail h m /\ elems h' m = elems h m
}.

Lemma deleted_list l k e xs h h' :
  is_list h l xs -> xs !! k = Some e -> Z.of_nat (length xs) < 2 ^ 64 ->
  deleted l k e xs h h' -> is_list h' l (delete k xs).
Proof.
  intros [L1 L2 L3 L4 L5 L6] Hk Hsz [N1 N2 N3 N4 N5].
  pose proof (lookup_lt_Some _ _ _ Hk) as Hlt.
  assert (Hlen : length (delete k xs) = (length xs - 1)%nat) by (rewrite length_delete; [done|by eexists]).
  assert (Hinj : forall i j x, xs !! i = Some x -> xs !! j = Some x -> i = j)
    by (intros i j x; apply NoDup_lookup, L1).
  split.
  - pose proof (delete_Permutation _ _ _ Hk) as Hp. rewrite Hp in L1. by apply NoDup_cons in L1 as [_ ?].
  - rewrite N2, list_lookup_delete. destruct (decide (k = O)) as [->|]; [done|].
    by rewrite decide_True by lia.
  - rewrite N3, last_lookup, Hlen, list_lookup_delete.
    destruct (decide (S k = length xs)) as [He|].
    + destruct k as [|j]; [rewrite decide_False by lia; symmetry; apply lookup_ge_None_2; lia|].
      rewrite decide_True by lia. cbn. f_equal. lia.
    + rewrite decide_False, L3, last_lookup by lia. f_equal. lia.
  - rewrite N4, L4, u64_id, Hlen by (unfold in_u64; lia). lia.
  - intros i x. rewrite list_lookup_delete. intros Hx. unfold node_at. rewrite N1, list_lookup_delete.
    set (i0 := if decide (i < k)%nat then i else S i).
    assert (Hx0 : xs !! i0 = Some x) by (unfold i0; by destruct (decide (i < k)%nat)).
    assert (Hi0 : i0 <> k) by (unfold i0; destruct (decide (i < k)%nat); lia).
    assert (x <> e) by (intros ->; by apply Hi0, (Hinj _ _ _ Hx0 Hk)).
    rewrite (decide_False (P := x = e)) by done. rewrite (L5 _ _ Hx0).
    assert (Hpred : match i with O => None | S j => delete k xs !! j end =
      if decide (i <= k)%nat then pred_of xs i else xs !! i).
    { destruct i as [|j]; [by rewrite decide_True by lia|]. rewrite list_lookup_delete. cbn [pred_of].
      repeat destruct (decide _); try lia; done. }
    rewrite Hpred. clear Hpred. unfold node_at, set_prev, set_next; cbn [next prev owner].
    destruct (decide (xs !! S k = Some x)) as [Hn|Hn].
    + pose proof (Hinj _ _ _ Hx0 Hn) as Hi1. unfold i0 in *. destruct (decide (i < k)%nat); [lia|].
      assert (i = k) as -> by lia. rewrite decide_False, (decide_True (P := (k <= k)%nat)) by lia. done.
    + destruct (decide (pred_of xs k = Some x)) as [Hp|Hp].
      * destruct k as [|j]; [done|]. cbn in Hp. pose proof (Hinj _ _ _ Hx0 Hp) as Hi1. unfold i0 in *.
        destruct (decide (i < S j)%nat); [|lia]. subst i.
        by rewrite decide_False, decide_True by lia.
      * unfold i0 in *. destruct (decide (i < k)%nat) as [Hik|Hik].
        -- rewrite decide_True, decide_True; [done|lia|].
           assert (S i <> k) by (intros <-; done). lia.
        -- assert (i <> k) by (intros ->; done). by rewrite !decide_False by lia.
  - intros x. rewrite N1. destruct (decide (x = e)) as [->|Hne]; [done|]. intros Hx.
    assert (Hin : x ∈ xs).
    { apply L6. destruct (decide (xs !! S k = Some x)); [exact Hx|].
      destruct (decide (pred_of xs k = Some x)); exact Hx. }
    rewrite (delete_Permutation _ _ _ Hk), elem_of_cons in Hin. by destruct Hin.
Qed.

(** Other lists are left alone. *)
Lemma frame_list l e xs h h' m ys :
  is_list h l xs -> m <> l -> owner (nodes h e) <> Some m -> owner (nodes h' e) <> Some m ->
  (forall x, x <> e -> x ∉ xs -> nodes h' x = nodes h x) ->
  (forall x, x ∈ xs -> x <> e -> owner (nodes h' x) = owner (nodes h x)) ->
  head h' m = head h m /\ tail h' m = tail h m /\ elems h' m = elems h m ->
  is_list h m ys -> is_list h' m ys.
Proof.
  intros L Hm He He' Hn Hx (E1 & E2 & E3) [M1 M2 M3 M4 M5 M6].
  assert (Howner : forall x, x ∈ xs -> owner (nodes h x) = Some l).
  { intros x [i Hi]%list_elem_of_lookup. by rewrite (l_node _ _ _ L i x Hi). }
  split; rewrite ?E1, ?E2, ?E3; try done.
  - intros i x Hi. pose proof (M5 i x Hi) as Hnx. rewrite <- Hnx. apply Hn.
    + intros ->. apply He. by rewrite Hnx.
    + intros Hin. apply Howner in Hin. rewrite Hnx in Hin. cbn in Hin. congruence.
  - intros x Ho. destruct (decide (x = e)) as [->|Hne]; [done|]. apply M6.
    destruct (decide (x ∈ xs)) as [Hin|Hin]; [by rewrite <- Hx|by rewrite <- Hn].
Qed.

Lemma pred_of_in xs k x : pred_of xs k = Some x -> x ∈ xs.
Proof. destruct k; [done|]. apply list_elem_of_lookup_2. Qed.

Lemma inserted_frame l k e xs h h' m ys :
  is_list h l xs -> nodes h e = unlinked -> inserted l k e xs h h' -> m <> l ->
  is_list h m ys -> is_list h' m ys.
Proof.
  intros L He [N1 _ _ _ N5] Hm. apply (frame_list l e xs h h' m ys L Hm); [by rewrite He| | | |by apply N5].
  - rewrite N1, decide_True by done. cbn. congruence.
  - intros x Hx Hin. rewrite N1, decide_False by done.
    rewrite decide_False by (intros ?; by apply Hin, (list_elem_of_lookup_2 _ k)).
    rewrite decide_False; [done|]. intros Hp. by apply Hin, (pred_of_in xs k).
  - intros x _ Hx. rewrite N1, decide_False by done. by repeat destruct (decide _).
Qed.

Lemma deleted_frame l k e xs h h' m ys :
  is_list h l xs -> xs !! k = Some e -> deleted l k e xs h h' -> m <> l ->
  is_list h m ys -> is_list h' m ys.
Proof.
  intros L He [N1 _ _ _ N5] Hm. apply (frame_list l e xs h h' m ys L Hm); [| | | |by apply N5].
  - rewrite (l_node _ _ _ L k e He). cbn. congruence.
  - by rewrite N1, decide_True.
  - intros x Hx Hin. rewrite N1, decide_False by done.
    rewrite decide_False by (intros ?; by apply Hin, (list_elem_of_lookup_2 _ (S k))).
    rewrite decide_False; [done|]. intros Hp. by apply Hin, (pred_of_in xs k).
  - intros x _ Hx. rewrite N1, decide_False by done. by repeat destruct (decide _).
Qed.

(** ** The operations *)

Ltac at_node x y := destruct (decide (x = y)) as [->|?];
  [rewrite ?fn_lookup_insert|rewrite ?fn_lookup_insert_ne by done].

(** The neighbours of a position are distinct, and distinct from its element. *)
Lemma neighbours xs k e :
  NoDup xs -> xs !! k = Some e ->
  xs !! S k <> Some e /\ pred_of xs k <> Some e /\
  forall x, xs !! S k = Some x -> pred_of xs k = Some x -> False.
Proof.
  intros Hnd Hk. pose proof (fun i j x => NoDup_lookup xs i j x Hnd) as Hinj. split_and!.
  - intros Hn. pose proof (Hinj _ _ _ Hk Hn). lia.
  - destruct k; [done|]. intros Hn. pose proof (Hinj _ _ _ Hk Hn). lia.
  - intros x Hn. destruct k; [done|]. intros Hp. pose proof (Hinj _ _ _ Hn Hp). lia.
Qed.

Lemma unlink_ok h h0 l xs k e :
  is_list h l xs -> xs !! k = Some e -> nodes h0 = nodes h ->
  exists h', unlink e l h0 = Ok h' /\
    head h' = head h0 /\ tail h' = tail h0 /\ elems h' = elems h0 /\
    forall x, nodes h' x =
      if decide (x = e) then unlinked
      else if decide (xs !! S k = Some x) then set_prev (pred_of xs k) (nodes h x)
      else if decide (pred_of xs k = Some x) then set_next (xs !! S k) (nodes h x)
      else nodes h x.
Proof.
  intros L Hk Hn0. destruct (neighbours xs k e (l_nodup _ _ _ L) Hk) as (Hne & Hpe & Hnp).
  unfold unlink. rewrite Hn0, (l_node _ _ _ L k e Hk). cbn [node_at next prev].
  change (match k with O => None | S j => xs !! j end) with (pred_of xs k).
  set (h1 := set_if (xs !! S k) (set_prev (pred_of xs k)) h0).
  assert (H1 : forall x, nodes h1 x = if decide (xs !! S k = Some x) then set_prev (pred_of xs k) (nodes h x)
    else nodes h x).
  { intros x. subst h1. destruct (xs !! S k) as [n|]; cbn; rewrite Hn0; [|done].
    at_node x n; [by rewrite decide_True|by rewrite decide_False by congruence]. }
  assert (F1 : head h1 = head h0 /\ tail h1 = tail h0 /\ elems h1 = elems h0) by (subst h1; by destruct (xs !! S k)).
  assert (He1 : nodes h1 e = node_at l xs k) by (rewrite H1, decide_False by done; by apply (l_node _ _ _ L)).
  rewrite He1. cbn [node_at next].
  set (h2 := set_if (prev (node_at l xs k)) (set_next (xs !! S k)) h1).
  assert (H2 : forall x, nodes h2 x = if decide (xs !! S k = Some x) then set_prev (pred_of xs k) (nodes h x)
    else if decide (pred_of xs k = Some x) then set_next (xs !! S k) (nodes h x) else nodes h x).
  { intros x. subst h2. change (prev (node_at l xs k)) with (pred_of xs k).
    destruct (pred_of xs k) as [p|] eqn:Hp; cbn; [|by rewrite H1; repeat destruct (decide _)].
    at_node x p; rewrite H1.
    - rewrite !(decide_False (P := xs !! S k = Some p)) by (intros ?; eauto). by rewrite decide_True.
    - by rewrite (decide_False (P := Some p = Some x)) by congruence. }
  assert (F2 : head h2 = head h0 /\ tail h2 = tail h0 /\ elems h2 = elems h0).
  { subst h2. destruct F1 as (<- & <- & <-). by destruct (prev _). }
  assert (He2 : nodes h2 e = node_at l xs k).
  { rewrite H2, !decide_False by done. by apply (l_node _ _ _ L). }
  clearbody h2. cbn. rewrite fn_lookup_insert, He2. cbn. rewrite bool_decide_true by done. cbn [assert_that mbind res_bind].
  eexists. split; [reflexivity|]. cbn. destruct F2 as (-> & -> & ->). split_and!; try done.
  intros x. at_node x e; [done|apply H2].
Qed.

Lemma linkPrev_ok h l xs j p e :
  is_list h l xs -> xs !! j = Some p -> nodes h e = unlinked ->
  exists h', linkPrev e p l h = Ok h' /\
    head h' = head h /\ tail h' = tail h /\ elems h' = elems h /\
    forall x, nodes h' x =
      if decide (x = e) then mkNode (xs !! S j) (Some p) (Some l)
      else if decide (xs !! S j = Some x) then set_prev (Some e) (nodes h x)
      else if decide (p = x) then set_next (Some e) (nodes h x)
      else nodes h x.
Proof.
  intros L Hj He. unfold linkPrev. rewrite He. cbn [unlinked owner prev next].
  rewrite !bool_decide_true by done. cbn [assert_that mbind res_bind].
  assert (Hmem : forall i x, xs !! i = Some x -> x <> e).
  { intros i x Hi ->. pose proof (l_node _ _ _ L i e Hi) as Hx. rewrite He in Hx. done. }
  rewrite (l_node _ _ _ L j p Hj). cbn [node_at next].
  pose proof (Hmem _ _ Hj) as Hpe.
  destruct (xs !! S j) as [n|] eqn:Hn.
  - rewrite (l_node _ _ _ L (S j) n Hn). cbn [node_at prev]. rewrite Hj, bool_decide_true by done.
    cbn [assert_that mbind res_bind]. pose proof (Hmem _ _ Hn) as Hne.
    assert (Hpn : p <> n) by (intros ->; pose proof (NoDup_lookup _ _ _ _ (l_nodup _ _ _ L) Hj Hn); lia).
    eexists. split; [reflexivity|]. split_and!; try done. intros x. cbn.
    at_node x e.
    + rewrite (fn_lookup_insert_ne _ p e), fn_lookup_insert by done.
      by rewrite (fn_lookup_insert_ne _ n e), He by done.
    + at_node x p.
      * rewrite (fn_lookup_insert_ne _ e p), (fn_lookup_insert_ne _ n p) by done.
        rewrite (decide_False (P := Some n = Some p)) by congruence. by rewrite decide_True.
      * at_node x n.
        -- by rewrite decide_True.
        -- by rewrite decide_False, decide_False by congruence.
  - eexists. split; [reflexivity|]. split_and!; try done. intros x. cbn.
    at_node x e; [by rewrite fn_lookup_insert_ne, He by done|].
    at_node x p; [by rewrite decide_False, decide_True by done|by rewrite !decide_False by congruence].
Qed.

Lemma push_back_ok h l xs e :
  is_list h l xs -> nodes h e = unlinked ->
  exists h', push_back l e h = Ok h' /\ inserted l (length xs) e xs h h'.
Proof.
  intros L He. unfold push_back, check_unlinked. rewrite bool_decide_true by done.
  cbn [assert_that mbind res_bind]. unfold empty. rewrite (l_head _ _ _ L), (l_tail _ _ _ L).
  destruct xs as [|y ys].
  - rewrite bool_decide_true by done. cbn. eexists. split; [reflexivity|]. split; cbn.
    + intros x. at_node x e; [by rewrite He|by rewrite !decide_False by done].
    + by rewrite fn_lookup_insert.
    + by rewrite fn_lookup_insert.
    + by rewrite fn_lookup_insert.
    + intros m Hm. by rewrite !fn_lookup_insert_ne by done.
  - rewrite bool_decide_false by done. set (xs := y :: ys) in *.
    destruct (last xs) as [p|] eqn:Hp; [|by apply last_None in Hp].
    rewrite last_lookup in Hp. destruct (linkPrev_ok h l xs _ p e L Hp He) as (h1 & E & F1 & F2 & F3 & F4).
    rewrite E. cbn [mbind res_bind]. eexists. split; [reflexivity|].
    assert (Hlen : S (pred (length xs)) = length xs) by done.
    split; cbn [set_tail add_elems nodes head tail elems].
    + intros x. rewrite F4, Hlen. change (pred_of xs (length xs)) with (xs !! pred (length xs)). rewrite Hp.
      at_node x e; [done|]. repeat destruct (decide _); congruence.
    + by rewrite F1.
    + by rewrite fn_lookup_insert, decide_True.
    + by rewrite fn_lookup_insert, F3.
    + intros m Hm. rewrite F1, F2, F3. by rewrite !fn_lookup_insert_ne by done.
Qed.

Lemma insertAfter_ok h l xs j p e :
  is_list h l xs -> xs !! j = Some p -> nodes h e = unlinked ->
  exists h', insertAfter l p e h = Ok h' /\ inserted l (S j) e xs h h'.
Proof.
  intros L Hj He. unfold insertAfter. rewrite He, (l_node _ _ _ L j p Hj).
  rewrite !bool_decide_true by done. cbn [assert_that mbind res_bind].
  destruct (linkPrev_ok h l xs j p e L Hj He) as (h1 & E & F1 & F2 & F3 & F4).
  rewrite E. cbn [mbind res_bind]. eexists. split; [reflexivity|].
  rewrite F2, (l_tail _ _ _ L), last_lookup.
  assert (Hlast : xs !! pred (length xs) = Some p <-> S j = length xs).
  { pose proof (lookup_lt_Some _ _ _ Hj). split.
    - intros Hl. pose proof (NoDup_lookup _ _ _ _ (l_nodup _ _ _ L) Hj Hl). lia.
    - intros Hl. by replace (pred (length xs)) with j by lia. }
  split.
  - intros x. replace (nodes _ x) with (nodes h1 x) by (by destruct (bool_decide _)). rewrite F4.
    change (pred_of xs (S j)) with (xs !! j). rewrite Hj. repeat destruct (decide _); congruence.
  - rewrite <- F1. by destruct (bool_decide _).
  - destruct (bool_decide_reflect (xs !! pred (length xs) = Some p)) as [Hl|Hl]; cbn.
    + rewrite fn_lookup_insert. by rewrite decide_True by (by apply Hlast).
    + rewrite F2. by rewrite decide_False by (by rewrite <- Hlast).
  - rewrite <- F3. by destruct (bool_decide _); cbn; rewrite fn_lookup_insert.
  - intros m Hm. rewrite <- F1, <- F2, <- F3. destruct (bool_decide _); cbn; by rewrite ?fn_lookup_insert_ne by done.
Qed.

Lemma push_front_ok h l xs e :
  is_list h l xs -> nodes h e = unlinked ->
  exists h', push_front l e h = Ok h' /\ inserted l 0 e xs h h'.
Proof.
  intros L He. unfold push_front, check_unlinked. rewrite bool_decide_true by done.
  cbn [assert_that mbind res_bind]. rewrite (l_head _ _ _ L).
  destruct (xs !! 0%nat) as [hd|] eqn:Hd.
  - rewrite (l_node _ _ _ L 0 hd Hd), bool_decide_true by done. cbn.
    assert (Hne : hd <> e) by (intros ->; pose proof (l_node _ _ _ L _ _ Hd); rewrite He in *; done).
    eexists. split; [reflexivity|]. split; cbn.
    + intros x. rewrite Hd. at_node x e.
      * rewrite fn_lookup_insert_ne, fn_lookup_insert, He by done. done.
      * at_node x hd; [|by rewrite !decide_False by congruence].
        rewrite decide_True by done. by rewrite fn_lookup_insert_ne by done.
    + by rewrite fn_lookup_insert.
    + rewrite decide_False; [done|]. intros Hl. apply lookup_lt_Some in Hd. lia.
    + by rewrite fn_lookup_insert.
    + intros m Hm. by rewrite !fn_lookup_insert_ne by done.
  - cbn. assert (xs = []) as -> by (by apply nil_length_inv, Nat.le_0_r, lookup_ge_None_1).
    eexists. split; [reflexivity|]. split; cbn.
    + intros x. at_node x e; [by rewrite He|by rewrite !decide_False by done].
    + by rewrite fn_lookup_insert.
    + by rewrite fn_lookup_insert.
    + by rewrite fn_lookup_insert.
    + intros m Hm. by rewrite !fn_lookup_insert_ne by done.
Qed.

Lemma remove_ok h l xs k e :
  is_list h l xs -> xs !! k = Some e ->
  exists h', remove l e h = Ok h' /\ deleted l k e xs h h'.
Proof.
  intros L Hk. unfold remove.
  assert (Hhd : head h l = Some e <-> k = O).
  { rewrite (l_head _ _ _ L). split; [|by intros ->]. intros Hl.
    by pose proof (NoDup_lookup _ _ _ _ (l_nodup _ _ _ L) Hk Hl). }
  assert (Htl : tail h l = Some e <-> S k = length xs).
  { rewrite (l_tail _ _ _ L), last_lookup. pose proof (lookup_lt_Some _ _ _ Hk). split.
    - intros Hl. pose proof (NoDup_lookup _ _ _ _ (l_nodup _ _ _ L) Hk Hl). lia.
    - intros Hl. by replace (pred (length xs)) with k by lia. }
  set (h1 := if bool_decide (head h l = Some e) then _ else h).
  assert (A : nodes h1 = nodes h /\ tail h1 = tail h /\ elems h1 = elems h /\
    (head h1 l = if decide (k = O) then xs !! 1%nat else head h l) /\
    forall m, m <> l -> head h1 m = head h m).
  { subst h1. destruct (bool_decide_reflect (head h l = Some e)) as [Hb|Hb]; cbn.
    - rewrite decide_True by tauto. split_and!; try done.
      + rewrite fn_lookup_insert, (l_node _ _ _ L k e Hk). cbn. f_equal. f_equal. tauto.
      + intros m Hm. by rewrite fn_lookup_insert_ne.
    - by rewrite decide_False by tauto. }
  clearbody h1. destruct A as (A1 & A2 & A3 & A4 & A5).
  set (h2 := if bool_decide (tail h1 l = Some e) then _ else h1).
  assert (B : nodes h2 = nodes h /\ head h2 = head h1 /\ elems h2 = elems h /\
    (tail h2 l = if decide (S k = length xs) then pred_of xs k else tail h l) /\
    forall m, m <> l -> tail h2 m = tail h m).
  { subst h2. rewrite A2. destruct (bool_decide_reflect (tail h l = Some e)) as [Hb|Hb]; cbn.
    - rewrite decide_True by tauto. split_and!; try done.
      + rewrite A2, A1, fn_lookup_insert, (l_node _ _ _ L k e Hk). done.
      + intros m Hm. by rewrite A2, fn_lookup_insert_ne.
    - rewrite decide_False by tauto. split_and!; try done; [by rewrite A2|]. intros m Hm. by rewrite A2. }
  clearbody h2. destruct B as (B1 & B2 & B3 & B4 & B5).
  destruct (unlink_ok h h2 l xs k e L Hk B1) as (h3 & E & F1 & F2 & F3 & F4).
  rewrite E. cbn [mbind res_bind]. eexists. split; [reflexivity|]. split; cbn [add_elems nodes head tail elems].
  - exact F4.
  - by rewrite F1, B2, A4.
  - by rewrite F2, B4.
  - by rewrite fn_lookup_insert, F3, B3.
  - intros m Hm. rewrite F1, B2, A5, F2, B5, F3, B3 by done. by rewrite fn_lookup_insert_ne.
Qed.

Lemma pop_front_ok h l xs e :
  is_list h l (e :: xs) ->
  exists h', pop_front l h = Ok h' /\ deleted l 0 e (e :: xs) h h'.
Proof.
  intros L. unfold pop_front. rewrite (l_head _ _ _ L). cbn [lookup list_lookup].
  rewrite (l_node _ _ _ L 0 e eq_refl). cbn [node_at next].
  destruct (unlink_ok h (set_head l ((e :: xs) !! 1%nat) h) l (e :: xs) 0 e L eq_refl eq_refl) as (h3 & E & F1 & F2 & F3 & F4).
  rewrite E. cbn [mbind res_bind]. eexists. split; [reflexivity|]. unfold empty.
  rewrite F1. cbn [set_head head]. rewrite fn_lookup_insert.
  assert (Hone : (e :: xs) !! 1%nat = None <-> 1%nat = length (e :: xs)).
  { destruct xs; cbn; split; try done; lia. }
  split.
  - intros x. rewrite <- F4. by destruct (bool_decide _).
  - transitivity (head h3 l); [by destruct (bool_decide _)|]. rewrite F1. cbn. by rewrite fn_lookup_insert.
  - destruct (bool_decide_reflect ((e :: xs) !! 1%nat = None)) as [Hb|Hb]; cbn [set_tail add_elems tail].
    + rewrite fn_lookup_insert. by rewrite decide_True by (by apply Hone).
    + rewrite F2. by rewrite decide_False by (by rewrite <- Hone).
  - destruct (bool_decide _); cbn; by rewrite fn_lookup_insert, F3.
  - intros m Hm. destruct (bool_decide _); cbn; rewrite F1, F2, F3; cbn; by rewrite ?fn_lookup_insert_ne by done.
Qed.

Lemma pop_back_ok h l xs e :
  is_list h l (xs ++ [e]) ->
  exists h', pop_back l h = Ok h' /\ deleted l (length xs) e (xs ++ [e]) h h'.
Proof.
  intros L. set (ys := xs ++ [e]) in *. unfold pop_back.
  assert (He : ys !! length xs = Some e) by (subst ys; by rewrite lookup_app_r, Nat.sub_diag by lia).
  assert (Hlen : length ys = S (length xs)) by (subst ys; rewrite length_app; cbn; lia).
  assert (Htail : tail h l = Some e) by (rewrite (l_tail _ _ _ L); subst ys; by rewrite last_snoc).
  destruct (head h l) as [hd|] eqn:Hhd; [|rewrite (l_head _ _ _ L) in Hhd; apply lookup_ge_None_1 in Hhd; lia].
  rewrite Htail, (l_node _ _ _ L _ e He). cbn [node_at prev].
  change (match length xs with O => None | S j => ys !! j end) with (pred_of ys (length xs)).
  destruct (unlink_ok h (set_tail l (pred_of ys (length xs)) h) l ys _ e L He eq_refl) as (h3 & E & F1 & F2 & F3 & F4).
  rewrite E. cbn [mbind res_bind]. eexists. split; [reflexivity|].
  rewrite F2. cbn [set_tail tail]. rewrite fn_lookup_insert.
  assert (Hone : pred_of ys (length xs) = None <-> length xs = O).
  { destruct (length xs) as [|j] eqn:Hj; [done|]. cbn. split; [|done]. rewrite lookup_ge_None. lia. }
  split.
  - intros x. rewrite <- F4. by destruct (bool_decide _).
  - destruct (bool_decide_reflect (pred_of ys (length xs) = None)) as [Hb|Hb]; cbn [set_head add_elems head].
    + rewrite fn_lookup_insert. rewrite decide_True by (by apply Hone).
      symmetry. apply lookup_ge_None_2. apply Hone in Hb. lia.
    + rewrite F1. cbn. rewrite Hhd. by rewrite decide_False by (by rewrite <- Hone).
  - transitivity (tail h3 l); [by destruct (bool_decide _)|]. rewrite F2. cbn.
    by rewrite fn_lookup_insert, decide_True.
  - destruct (bool_decide _); cbn; by rewrite fn_lookup_insert, F3.
  - intros m Hm. destruct (bool_decide _); cbn; rewrite F1, F2, F3; cbn; by rewrite ?fn_lookup_insert_ne by done.
Qed.

(** ** Properties *)

(** The operation returned a heap where list [l] holds [xs'], and every other list
    what it held. *)
Definition lists_become (h : heap) (l : nat) (xs' : list nat) (r : res heap) : Prop :=
  exists h', r = Ok h' /\ is_list h' l xs' /\
    forall m ys, m <> l -> is_list h m ys -> is_list h' m ys.

Lemma inserted_become h l k e xs r :
  is_list h l xs -> nodes h e = unlinked -> (k <= length xs)%nat -> Z.of_nat (length xs) + 1 < 2 ^ 64 ->
  (exists h', r = Ok h' /\ inserted l k e xs h h') -> lists_become h l (ins k e xs) r.
Proof.
  intros L He Hk Hsz (h' & -> & Hins). exists h'. split_and!; [done| |].
  - eapply inserted_list; [done| |done..]. intros [i Hi]%list_elem_of_lookup.
    pose proof (l_node _ _ _ L i e Hi) as Hn. by rewrite He in Hn.
  - intros m ys Hm. by eapply inserted_frame.
Qed.

Lemma deleted_become h l k e xs r :
  is_list h l xs -> xs !! k = Some e -> Z.of_nat (length xs) < 2 ^ 64 ->
  (exists h', r = Ok h' /\ deleted l k e xs h h') ->
  lists_become h l (delete k xs) r /\ forall h', r = Ok h' -> nodes h' e = unlinked.
Proof.
  intros L Hk Hsz (h' & -> & Hdel). split.
  - exists h'. split_and!; [done|by eapply deleted_list|]. intros m ys Hm. by eapply deleted_frame.
  - intros ? [= <-]. by rewrite (de_node _ _ _ _ _ _ Hdel), decide_True.
Qed.

(** C34: the intrusive list implements a sequence.  On a heap where list [l] holds
    [xs], every insertion of an unlinked element and every removal of an element of
    the list succeeds (all its assertions hold), makes the list hold the sequence
    with that element inserted or removed, and leaves what the other lists of the
    heap hold alone; a removed element is unlinked, so it can be inserted again. *)
Theorem inlist_refines h l xs e :
  is_list h l xs -> Z.of_nat (length xs) + 1 < 2 ^ 64 ->
  (nodes h e = unlinked ->
     lists_become h l (e :: xs) (push_front l e h) /\
     lists_become h l (xs ++ [e]) (push_back l e h) /\
     (forall j p, xs !! j = Some p ->
        lists_become h l (take (S j) xs ++ e :: drop (S j) xs) (insertAfter l p e h))) /\
  (forall k, xs !! k = Some e ->
     lists_become h l (delete k xs) (remove l e h) /\
     (forall h', remove l e h = Ok h' -> nodes h' e = unlinked)) /\
  lists_become h l (delete 0%nat xs) (pop_front l h) /\
  lists_become h l (delete (length xs - 1)%nat xs) (pop_back l h) /\
  (front l h = xs !! 0%nat /\ back l h = last xs /\ size l h = Z.of_nat (length xs)).
Proof.
  intros L Hsz. split_and!; [| |destruct xs as [|y ys]| | | |].
  - intros He. split_and!.
    + apply (inserted_become h l 0 e xs); [done..|lia|done|by apply push_front_ok].
    + replace (xs ++ [e]) with (ins (length xs) e xs) by (unfold ins; by rewrite firstn_all, drop_all).
      apply inserted_become; [done..|by apply push_back_ok].
    + intros j p Hj. apply (inserted_become h l (S j) e xs); [done..| |done|by eapply insertAfter_ok].
      by apply lookup_lt_Some in Hj.
  - intros k Hk. apply deleted_become; [done..|lia|by eapply remove_ok].
  - exists h. split_and!; try done. unfold pop_front. by rewrite (l_head _ _ _ L).
  - apply (deleted_become h l 0 y (y :: ys)); [done..|lia|by apply pop_front_ok].
  - destruct (decide (xs = [])) as [->|Hne].
    + exists h. split_and!; try done. unfold pop_back. by rewrite (l_head _ _ _ L).
    + destruct (exists_last Hne) as (ys & y & ->).
      replace (length (ys ++ [y]) - 1)%nat with (length ys) by (rewrite length_app; cbn; lia).
      apply (deleted_become h l (length ys) y); [done| |lia|by apply pop_back_ok].
      by rewrite lookup_app_r, Nat.sub_diag by lia.
  - apply (l_head _ _ _ L).
  - apply (l_tail _ _ _ L).
  - apply (l_elems _ _ _ L).
Qed.

Definition ex_heap : heap := new_list 0 (new_list 1 (mkHeap (fun _ => unlinked) (fun _ => None) (fun _ => None) (fun _ => 0))).

Lemma inlist_refines_witness :
  is_list ex_heap 0 [] /\ lists_become ex_heap 0 [5%nat] (push_back 0 5 ex_heap).
Proof.
  assert (L : is_list ex_heap 0 []) by (split; [constructor|done..]).
  split; [exact L|]. apply (inlist_refines ex_heap 0 [] 5 L); [cbn; lia|reflexivity].
Defined.

End InList.
