(* ===== verification/Scheduler.v ===== *)
(** The scheduler of simulated threads on simulated contexts (scheduler.h): the
    states of threads and contexts, the run, out and sleep queues, time slices, and
    the phase barrier they share. *)
From S2P Require Import Prelude Effects Mtrand BarrierIface.

Module Scheduler.
Import BarrierIface Rand.

Inductive ThreadState := STARTED | RUNNING | OUT | BLOCKED | SLEEPING | QUEUED.
Inductive ContextState := IDLE | USED.
Inductive FutexJoinAction := FJA_NONE | FJA_WAKE | FJA_WAIT.

#[export] Instance ThreadState_eq_dec : EqDecision ThreadState.
Proof. solve_decision. Defined.
#[export] Instance ContextState_eq_dec : EqDecision ContextState.
Proof. solve_decision. Defined.
#[export] Instance FutexJoinAction_eq_dec : EqDecision FutexJoinAction.
Proof. solve_decision. Defined.

Record FutexJoinInfo := mkFJ { action : FutexJoinAction; maxWakes : Z; wokenUp : Z }.

(** [fakeLeave] is the pc of the thread's entry in [fakeLeaves], if it has one. *)
Record ThreadInfo := mkTh {
  state : ThreadState;
  cid : nat;
  handoffThread : option Z;
  futexWord : Z;
  needsJoin : bool;
  markedForSleep : bool;
  wakeupPhase : Z;
  mask : list bool;
  fakeLeave : option Z;
  futexJoin : FutexJoinInfo
}.

Record ContextInfo := mkCtx { cstate : ContextState; curThread : option Z }.
#[export] Instance ContextInfo_eq_dec : EqDecision ContextInfo.
Proof. solve_decision. Defined.

(** [ThreadInfo] updates. *)
Definition set_state (x : ThreadState) (t : ThreadInfo) : ThreadInfo :=
  mkTh x (cid t) (handoffThread t) (futexWord t) (needsJoin t) (markedForSleep t) (wakeupPhase t)
    (mask t) (fakeLeave t) (futexJoin t).
Definition set_cid (x : nat) (t : ThreadInfo) : ThreadInfo :=
  mkTh (state t) x (handoffThread t) (futexWord t) (needsJoin t) (markedForSleep t) (wakeupPhase t)
    (mask t) (fakeLeave t) (futexJoin t).
Definition set_handoff (x : option Z) (t : ThreadInfo) : ThreadInfo :=
  mkTh (state t) (cid t) x (futexWord t) (needsJoin t) (markedForSleep t) (wakeupPhase t)
    (mask t) (fakeLeave t) (futexJoin t).
Definition set_word (x : Z) (t : ThreadInfo) : ThreadInfo :=
  mkTh (state t) (cid t) (handoffThread t) x (needsJoin t) (markedForSleep t) (wakeupPhase t)
    (mask t) (fakeLeave t) (futexJoin t).
Definition set_needsJoin (x : bool) (t : ThreadInfo) : ThreadInfo :=
  mkTh (state t) (cid t) (handoffThread t) (futexWord t) x (markedForSleep t) (wakeupPhase t)
    (mask t) (fakeLeave t) (futexJoin t).
Definition set_marked (x : bool) (t : ThreadInfo) : ThreadInfo :=
  mkTh (state t) (cid t) (handoffThread t) (futexWord t) (needsJoin t) x (wakeupPhase t)
    (mask t) (fakeLeave t) (futexJoin t).
Definition set_wakeupPhase (x : Z) (t : ThreadInfo) : ThreadInfo :=
  mkTh (state t) (cid t) (handoffThread t) (futexWord t) (needsJoin t) (markedForSleep t) x
    (mask t) (fakeLeave t) (futexJoin t).
Definition set_mask (x : list bool) (t : ThreadInfo) : ThreadInfo :=
  mkTh (state t) (cid t) (handoffThread t) (futexWord t) (needsJoin t) (markedForSleep t) (wakeupPhase t)
    x (fakeLeave t) (futexJoin t).
Definition set_fakeLeave (x : option Z) (t : ThreadInfo) : ThreadInfo :=
  mkTh (state t) (cid t) (handoffThread t) (futexWord t) (needsJoin t) (markedForSleep t) (wakeupPhase t)
    (mask t) x (futexJoin t).
Definition set_futexJoin (x : FutexJoinInfo) (t : ThreadInfo) : ThreadInfo :=
  mkTh (state t) (cid t) (handoffThread t) (futexWord t) (needsJoin t) (markedForSleep t) (wakeupPhase t)
    (mask t) (fakeLeave t) x.

Section Scheduler.
Context {B G : Type} `{PhaseBarrier B} `{RandSource G}.
Context (numCores : nat) (schedQuantum : Z).

Record Scheduler := mkSched {
  bar : B;
  gidMap : gmap Z ThreadInfo;
  contexts : nat -> ContextInfo;
  freeList : list nat;
  runQueue : list Z;
  outQueue : list Z;
  sleepQueue : list Z;
  curPhase : Z;
  rnd : G;
  scheduledThreads : Z;
  fakeLeaves : list Z;
  blockingSyscalls : gset (Z * Z);
  maxAllowedFutexWakeups : Z;
  unmatchedFutexWakeups : Z
}.
Notation P := (prog Scheduler).

Definition upd_bar (b : B) (s : Scheduler) : Scheduler :=
  mkSched b (gidMap s) (contexts s) (freeList s) (runQueue s) (outQueue s) (sleepQueue s) (curPhase s) (rnd s)
    (scheduledThreads s) (fakeLeaves s) (blockingSyscalls s) (maxAllowedFutexWakeups s) (unmatchedFutexWakeups s).
Definition upd_threads (f : gmap Z ThreadInfo -> gmap Z ThreadInfo) (s : Scheduler) : Scheduler :=
  mkSched (bar s) (f (gidMap s)) (contexts s) (freeList s) (runQueue s) (outQueue s) (sleepQueue s) (curPhase s) (rnd s)
    (scheduledThreads s) (fakeLeaves s) (blockingSyscalls s) (maxAllowedFutexWakeups s) (unmatchedFutexWakeups s).
Definition upd_context (c : nat) (x : ContextInfo) (s : Scheduler) : Scheduler :=
  mkSched (bar s) (gidMap s) (<[c := x]> (contexts s)) (freeList s) (runQueue s) (outQueue s) (sleepQueue s) (curPhase s) (rnd s)
    (scheduledThreads s) (fakeLeaves s) (blockingSyscalls s) (maxAllowedFutexWakeups s) (unmatchedFutexWakeups s).
Definition upd_free (f : list nat -> list nat) (s : Scheduler) : Scheduler :=
  mkSched (bar s) (gidMap s) (contexts s) (f (freeList s)) (runQueue s) (outQueue s) (sleepQueue s) (curPhase s) (rnd s)
    (scheduledThreads s) (fakeLeaves s) (blockingSyscalls s) (maxAllowedFutexWakeups s) (unmatchedFutexWakeups s).
Definition upd_run (f : list Z -> list Z) (s : Scheduler) : Scheduler :=
  mkSched (bar s) (gidMap s) (contexts s) (freeList s) (f (runQueue s)) (outQueue s) (sleepQueue s) (curPhase s) (rnd s)
    (scheduledThreads s) (fakeLeaves s) (blockingSyscalls s) (maxAllowedFutexWakeups s) (unmatchedFutexWakeups s).
Definition upd_out (f : list Z -> list Z) (s : Scheduler) : Scheduler :=
  mkSched (bar s) (gidMap s) (contexts s) (freeList s) (runQueue s) (f (outQueue s)) (sleepQueue s) (curPhase s) (rnd s)
    (scheduledThreads s) (fakeLeaves s) (blockingSyscalls s) (maxAllowedFutexWakeups s) (unmatchedFutexWakeups s).
Definition upd_sleep (f : list Z -> list Z) (s : Scheduler) : Scheduler :=
  mkSched (bar s) (gidMap s) (contexts s) (freeList s) (runQueue s) (outQueue s) (f (sleepQueue s)) (curPhase s) (rnd s)
    (scheduledThreads s) (fakeLeaves s) (blockingSyscalls s) (maxAllowedFutexWakeups s) (unmatchedFutexWakeups s).
Definition upd_phase (x : Z) (s : Scheduler) : Scheduler :=
  mkSched (bar s) (gidMap s) (contexts s) (freeList s) (runQueue s) (outQueue s) (sleepQueue s) x (rnd s)
    (scheduledThreads s) (fakeLeaves s) (blockingSyscalls s) (maxAllowedFutexWakeups s) (unmatchedFutexWakeups s).
Definition upd_rnd (x : G) (s : Scheduler) : Scheduler :=
  mkSched (bar s) (gidMap s) (contexts s) (freeList s) (runQueue s) (outQueue s) (sleepQueue s) (curPhase s) x
    (scheduledThreads s) (fakeLeaves s) (blockingSyscalls s) (maxAllowedFutexWakeups s) (unmatchedFutexWakeups s).
Definition upd_scheduled (d : Z) (s : Scheduler) : Scheduler :=
  mkSched (bar s) (gidMap s) (contexts s) (freeList s) (runQueue s) (outQueue s) (sleepQueue s) (curPhase s) (rnd s)
    (u32 (scheduledThreads s + d)) (fakeLeaves s) (blockingSyscalls s) (maxAllowedFutexWakeups s) (unmatchedFutexWakeups s).
Definition upd_fake (f : list Z -> list Z) (s : Scheduler) : Scheduler :=
  mkSched (bar s) (gidMap s) (contexts s) (freeList s) (runQueue s) (outQueue s) (sleepQueue s) (curPhase s) (rnd s)
    (scheduledThreads s) (f (fakeLeaves s)) (blockingSyscalls s) (maxAllowedFutexWakeups s) (unmatchedFutexWakeups s).
Definition upd_wakeups (m u : Z) (s : Scheduler) : Scheduler :=
  mkSched (bar s) (gidMap s) (contexts s) (freeList s) (runQueue s) (outQueue s) (sleepQueue s) (curPhase s) (rnd s)
    (scheduledThreads s) (fakeLeaves s) (blockingSyscalls s) (u32 m) (u32 u).

Definition new (b : B) (g : G) : Scheduler :=
  mkSched b ∅ (fun _ => mkCtx IDLE None) (seq 0 numCores) [] [] [] 0 g 0 [] ∅ 0 0.

Definition getGid (pid tid : Z) : Z := u32 (Z.lor (Z.shiftl pid 16) tid).
Definition getPid (gid : Z) : Z := Z.shiftr gid 16.
Definition getTid (gid : Z) : Z := Z.land gid 65535.

(** A thread that is dereferenced. *)
Definition get_thread (t : Z) : P ThreadInfo := fun s =>
  match gidMap s !! t with Some th => Ok (th, s) | None => Fail AssertFailed end.
Definition upd_thread (t : Z) (f : ThreadInfo -> ThreadInfo) : P unit :=
  modify (upd_threads (alter f t)).
Definition mask_at (th : ThreadInfo) (c : nat) : bool := default false (mask th !! c).

(** The queues are intrusive lists, which hold an element at most once and are
    disjoint (InList.v): [push] needs an unlinked element, [remove] one of this list. *)
Definition on_queue (t : Z) (s : Scheduler) : bool :=
  bool_decide (t ∈ runQueue s) || bool_decide (t ∈ outQueue s) || bool_decide (t ∈ sleepQueue s).
Definition unqueued (t : Z) : P unit := s ← gets id; require (negb (on_queue t s)).
Definition remove {A} `{EqDecision A} (x : A) (l : list A) : list A := filter (fun y => y <> x) l.
Definition push_run (t : Z) : P unit := _ ← unqueued t; modify (upd_run (fun q => q ++ [t])).
Definition push_out (t : Z) : P unit := _ ← unqueued t; modify (upd_out (fun q => q ++ [t])).
Definition push_free (c : nat) : P unit :=
  s ← gets id; _ ← require (negb (bool_decide (c ∈ freeList s))); modify (upd_free (fun q => q ++ [c])).
Definition remove_run (t : Z) : P unit :=
  s ← gets id; _ ← require (bool_decide (t ∈ runQueue s)); modify (upd_run (remove t)).
Definition remove_out (t : Z) : P unit :=
  s ← gets id; _ ← require (bool_decide (t ∈ outQueue s)); modify (upd_out (remove t)).
Definition remove_sleep (t : Z) : P unit :=
  s ← gets id; _ ← require (bool_decide (t ∈ sleepQueue s)); modify (upd_sleep (remove t)).
Definition remove_free (c : nat) : P unit :=
  s ← gets id; _ ← require (bool_decide (c ∈ freeList s)); modify (upd_free (remove c)).

(** ** Threads and contexts *)

Definition schedule (t : Z) (c : nat) : P unit :=
  th ← get_thread t;
  _ ← require (bool_decide (state th = STARTED \/ state th = BLOCKED \/ state th = QUEUED));
  ctx ← gets (fun s => contexts s c);
  _ ← require (bool_decide (cstate ctx = IDLE));
  _ ← require (bool_decide (curThread ctx = None));
  _ ← upd_thread t (fun th => set_cid c (set_state RUNNING th));
  _ ← modify (upd_context c (mkCtx USED (Some t)));
  modify (upd_scheduled 1).

Definition deschedule (t : Z) (c : nat) (targetState : ThreadState) : P unit :=
  th ← get_thread t;
  _ ← require (bool_decide (state th = RUNNING \/ state th = OUT));
  ctx ← gets (fun s => contexts s c);
  _ ← require (bool_decide (cstate ctx = USED));
  _ ← require (bool_decide (c = cid th));
  _ ← require (bool_decide (curThread ctx = Some t));
  _ ← require (bool_decide (targetState = BLOCKED \/ targetState = QUEUED \/ targetState = SLEEPING));
  _ ← upd_thread t (set_state targetState);
  _ ← modify (upd_context c (mkCtx IDLE None));
  modify (upd_scheduled (-1)).

(** The first thread of [q] that may run on context [c]; the first context of [q]
    that thread [th] may run on. *)
Definition runs_on (threads : gmap Z ThreadInfo) (c : nat) (t : Z) : bool :=
  match threads !! t with Some th => mask_at th c | None => false end.
Definition first_thread (threads : gmap Z ThreadInfo) (c : nat) (q : list Z) : option Z :=
  List.find (runs_on threads c) q.
Definition first_context (th : ThreadInfo) (q : list nat) : option nat :=
  List.find (mask_at th) q.
(** The first out thread whose context [th] may run on. *)
Definition first_out (threads : gmap Z ThreadInfo) (th : ThreadInfo) (q : list Z) : option Z :=
  List.find (fun o => match threads !! o with Some oth => mask_at th (cid oth) | None => false end) q.

Definition schedThread (t : Z) : P (option nat) :=
  th ← get_thread t;
  _ ← require (bool_decide (cid th < numCores)%nat);
  s ← gets id;
  if bool_decide (cstate (contexts s (cid th)) = IDLE) && mask_at th (cid th) then
    _ ← remove_free (cid th);
    mret (Some (cid th))
  else
    match first_context th (freeList s) with
    | Some c => _ ← remove_free c; mret (Some c)
    | None =>
        match first_out (gidMap s) th (outQueue s) with
        | Some o =>
            oth ← get_thread o;
            _ ← remove_out o;
            _ ← deschedule o (cid oth) BLOCKED;
            mret (Some (cid oth))
        | None => mret None
        end
    end.

Definition schedContext (c : nat) : P (option Z) :=
  s ← gets id;
  match first_thread (gidMap s) c (runQueue s) with
  | Some t => _ ← remove_run t; mret (Some t)
  | None => mret None
  end.

(** Wakes a thread that waits on its futex word; [waitUntilQueued] only delays the
    caller. *)
Definition wakeup (t : Z) (join : bool) : P unit :=
  _ ← upd_thread t (set_needsJoin join);
  th ← get_thread t;
  if futexWord th =? 1 then upd_thread t (set_word 0) else stop.

(** The first part of [waitForContext]. *)
Definition waitForContext (t : Z) : P unit := upd_thread t (set_word 1).

(** ** The end of a phase *)

(** The cores in the random order of [schedTick]: a Fisher-Yates shuffle. *)
Fixpoint shuffle (i : nat) (v : list nat) (g : G) : res (list nat * G) :=
  match i with
  | O => Ok (v, g)
  | S i' =>
      match randInt g (Z.of_nat i) with
      | None => Fail NoFuel
      | Some (j, g) =>
          let j := Z.to_nat j in
          shuffle i' (<[j := v !!! i]> (<[i := v !!! j]> v)) g
      end
  end.

(** One thread of the run queue: hand it the context of a running thread. *)
Definition tick_thread (avail : list nat) (t : Z) : P (list nat) :=
  th ← get_thread t;
  match first_context th avail with
  | Some c =>
      ctx ← gets (fun s => contexts s c);
      match curThread ctx with
      | None => require false ≫= fun _ => mret avail
      | Some victim =>
          _ ← upd_thread victim (set_handoff (Some t));
          _ ← remove_run t;
          mret (remove c avail)
      end
  | None => mret avail
  end.

Fixpoint tick_loop (q : list Z) (avail : list nat) : P unit :=
  match q with
  | [] => mret tt
  | t :: q =>
      if bool_decide (avail = []) then mret tt
      else avail ← tick_thread avail t; tick_loop q avail
  end.

Definition schedTick : P unit :=
  s ← gets id;
  '(avail, g) ← lift (shuffle (numCores - 1) (seq 0 numCores) (rnd s));
  _ ← modify (upd_rnd g);
  tick_loop (runQueue s) avail.

(** The sleepers whose deadline is met, from the front of the queue. *)
Fixpoint wake_sleepers (q : list Z) : P unit :=
  match q with
  | [] => mret tt
  | t :: q =>
      th ← get_thread t;
      now ← gets curPhase;
      if wakeupPhase th <=? now then
        _ ← require (wakeupPhase th =? now);
        _ ← upd_thread t (set_state BLOCKED);
        _ ← wakeup t false;
        _ ← modify (upd_sleep (drop 1));
        wake_sleepers q
      else mret tt
  end.

Definition callback : P unit :=
  s ← gets id;
  _ ← require (scheduledThreads s <=? Z.of_nat numCores);
  _ ← modify (upd_phase (u64 (curPhase s + 1)));
  _ ← wake_sleepers (sleepQueue s);
  s ← gets id;
  if bool_decide (runQueue s = []) then mret tt
  else if curPhase s mod schedQuantum =? 0 then schedTick else mret tt.

(** A call of the barrier, which calls back when it ends the phase. *)
Definition on_bar (f : B -> res B) : P unit :=
  s ← gets id;
  b ← lift (f (bar s));
  _ ← modify (upd_bar b);
  if bool_decide (bar_phases b = bar_phases (bar s)) then mret tt else callback.

(** ** Joining, leaving, synchronizing *)

(** The matching of futex wakes and waits, at the start of a [join].  The loop of
    [futexWakeJoin] is left when enough waits were matched, or after a timeout. *)
Definition futexWaitJoin (t : Z) : P unit :=
  th ← get_thread t;
  _ ← require (bool_decide (action (futexJoin th) = FJA_WAIT));
  s ← gets id;
  if maxAllowedFutexWakeups s <=? unmatchedFutexWakeups s then mret tt
  else modify (upd_wakeups (maxAllowedFutexWakeups s) (unmatchedFutexWakeups s + 1)).

Definition futexWakeJoin (t : Z) : P unit :=
  th ← get_thread t;
  let m := maxWakes (futexJoin th) in
  let w := wokenUp (futexJoin th) in
  _ ← require (bool_decide (action (futexJoin th) = FJA_WAKE));
  s ← gets id;
  _ ← require (m <=? maxAllowedFutexWakeups s);
  _ ← require (w <=? m);
  _ ← modify (upd_wakeups (maxAllowedFutexWakeups s - (m - w)) (unmatchedFutexWakeups s));
  s ← gets id;
  _ ← require (unmatchedFutexWakeups s <=? maxAllowedFutexWakeups s);
  if w <=? unmatchedFutexWakeups s then
    modify (upd_wakeups (maxAllowedFutexWakeups s - w) (unmatchedFutexWakeups s - w))
  else modify (upd_wakeups (maxAllowedFutexWakeups s - w) 0).

Definition futex_join (t : Z) : P unit :=
  th ← get_thread t;
  match action (futexJoin th) with
  | FJA_NONE => mret tt
  | FJA_WAIT => _ ← futexWaitJoin t; upd_thread t (set_futexJoin (mkFJ FJA_NONE (maxWakes (futexJoin th)) (wokenUp (futexJoin th))))
  | FJA_WAKE => _ ← futexWakeJoin t; upd_thread t (set_futexJoin (mkFJ FJA_NONE (maxWakes (futexJoin th)) (wokenUp (futexJoin th))))
  end.

Definition finishFakeLeave (t : Z) : P unit :=
  th ← get_thread t;
  _ ← require (bool_decide (fakeLeave th <> None));
  _ ← require (bool_decide (state th = RUNNING));
  s ← gets id;
  _ ← require (bool_decide (t ∈ fakeLeaves s));
  _ ← modify (upd_fake (remove t));
  upd_thread t (set_fakeLeave None).

Definition start (pid tid : Z) (m : list bool) : P unit :=
  let gid := getGid pid tid in
  s ← gets id;
  _ ← require (bool_decide (gidMap s !! gid = None));
  _ ← require (bool_decide (length m = numCores));
  if existsb id m then
    modify (upd_threads (insert gid
      (mkTh STARTED 0 None 0 false false 0 m None (mkFJ FJA_NONE 0 0))))
  else stop.

(** Up to the point where the thread waits, for its turn in the barrier or for a
    context. *)
Definition join (pid tid : Z) : P unit :=
  let t := getGid pid tid in
  th ← get_thread t;
  _ ← futex_join t;
  if bool_decide (fakeLeave th <> None) then finishFakeLeave t
  else
    _ ← require (negb (markedForSleep th));
    _ ← (if bool_decide (state th = SLEEPING) then
           _ ← remove_sleep t; upd_thread t (set_state BLOCKED)
         else mret tt);
    if bool_decide (state th = OUT) then
      _ ← upd_thread t (set_state RUNNING);
      _ ← remove_out t;
      on_bar (bar_join (cid th))
    else
      th ← get_thread t;
      _ ← require (bool_decide (state th = BLOCKED \/ state th = STARTED));
      ctx ← schedThread t;
      match ctx with
      | Some c => _ ← schedule t c; on_bar (bar_join c)
      | None =>
          _ ← upd_thread t (set_state QUEUED);
          _ ← push_run t;
          waitForContext t
      end.

(** What a thread woken in [waitForContext] does. *)
Definition resume (t : Z) : P unit :=
  th ← get_thread t;
  _ ← require (negb (futexWord th =? 1));
  if needsJoin th then on_bar (bar_join (cid th)) else mret tt.

(** The place of a sleeper: before the first one that wakes up after it. *)
Fixpoint sleep_insert (threads : gmap Z ThreadInfo) (deadline : Z) (t : Z) (q : list Z) : list Z :=
  match q with
  | [] => [t]
  | x :: q' =>
      match threads !! x with
      | Some th => if deadline <? wakeupPhase th then t :: q else x :: sleep_insert threads deadline t q'
      | None => t :: q
      end
  end.

(** A thread marked for sleep gives up its context. *)
Definition go_to_sleep (t : Z) (th : ThreadInfo) (c : nat) : P unit :=
  _ ← upd_thread t (set_marked false);
  _ ← deschedule t c SLEEPING;
  _ ← unqueued t;
  modify (fun s => upd_sleep (sleep_insert (gidMap s) (wakeupPhase th) t) s).

(** The context goes to a waiting thread, which is already in the barrier. *)
Definition hand_context (t : Z) (c : nat) : P unit :=
  _ ← schedule t c; wakeup t false.

Definition leave (pid tid : Z) (c : nat) : P unit :=
  ctx ← gets (fun s => contexts s c);
  match curThread ctx with
  | None => require false
  | Some t =>
      th ← get_thread t;
      _ ← require (t =? getGid pid tid);
      _ ← require (bool_decide (state th = RUNNING));
      if markedForSleep th then
        _ ← go_to_sleep t th c;
        inTh ← schedContext c;
        match inTh with
        | Some i => hand_context i c
        | None => _ ← push_free c; on_bar (bar_leave c)
        end
      else
        inTh ← schedContext c;
        match inTh with
        | Some i => _ ← deschedule t c BLOCKED; hand_context i c
        | None =>
            if negb (mask_at th (cid th)) then
              _ ← deschedule t c BLOCKED; _ ← push_free c; on_bar (bar_leave c)
            else
              _ ← upd_thread t (set_state OUT); _ ← push_out t; on_bar (bar_leave c)
        end
  end.

(** [sync], up to the wait in the barrier; and from there, when the thread runs
    again: if its context was given away, it hands it over. *)
Definition sync (c : nat) : P unit :=
  ctx ← gets (fun s => contexts s c);
  match curThread ctx with
  | None => require false
  | Some t =>
      th ← get_thread t;
      _ ← require (negb (markedForSleep th));
      on_bar (bar_sync c)
  end.

Definition hand_over (t : Z) (c : nat) (dst : Z) : P unit :=
  _ ← upd_thread t (set_handoff None);
  _ ← deschedule t c QUEUED;
  hand_context dst c.

Definition sync_end (t : Z) : P unit :=
  th ← get_thread t;
  match handoffThread th with
  | None => require (bool_decide (state th = RUNNING))
  | Some dst =>
      _ ← hand_over t (cid th) dst;
      ctx ← schedThread t;
      match ctx with
      | Some c => _ ← schedule t c; on_bar (bar_join c)
      | None => _ ← push_run t; waitForContext t
      end
  end.

(** ** The end of a thread *)

(** The last part of [finish]: the thread is out of the barrier. *)
Definition finish_out (t : Z) : P unit :=
  th ← get_thread t;
  _ ← require (bool_decide (state th = STARTED \/ state th = OUT \/ state th = BLOCKED \/ state th = QUEUED));
  s ← gets id;
  _ ← (if bool_decide (state th = QUEUED) then remove_run t
       else if on_queue t s then
         _ ← remove_out t;
         _ ← deschedule t (cid th) BLOCKED;
         push_free (cid th)
       else mret tt);
  modify (upd_threads (delete t)).

(** The source erases the thread from [gidMap] first and deletes it last; the model keeps
    its record in [gidMap] until then, because contexts and queues still point to it. *)
Definition finish (pid tid : Z) : P unit :=
  let t := getGid pid tid in
  th ← get_thread t;
  _ ← (if bool_decide (fakeLeave th <> None) then
         _ ← finishFakeLeave t; leave pid tid (cid th)
       else mret tt);
  th ← get_thread t;
  _ ← (if bool_decide (state th = RUNNING) then leave pid tid (cid th) else mret tt);
  finish_out t.

(** ** Sleeping, masks, system calls *)

Definition markForSleep (pid tid wakeup : Z) : P unit :=
  let t := getGid pid tid in
  th ← get_thread t;
  _ ← require (negb (markedForSleep th));
  upd_thread t (fun th => set_word 1 (set_wakeupPhase wakeup (set_marked true th))).

Definition isSleeping (pid tid : Z) : P bool :=
  th ← get_thread (getGid pid tid);
  mret (bool_decide (state th = SLEEPING)).

Definition notifySleepEnd (pid tid : Z) : P unit :=
  let t := getGid pid tid in
  th ← get_thread t;
  _ ← require (negb (markedForSleep th));
  _ ← require (bool_decide (state th = SLEEPING \/ state th = BLOCKED));
  if bool_decide (state th = BLOCKED) then mret tt
  else _ ← remove_sleep t; upd_thread t (set_state BLOCKED).

Definition getScheduledPid (c : nat) (s : Scheduler) : Z :=
  match contexts s c with
  | mkCtx USED (Some t) => getPid t
  | _ => 2 ^ 32 - 1
  end.

Definition getMask (pid tid : Z) (s : Scheduler) : list bool :=
  match gidMap s !! getGid pid tid with
  | Some th => mask th
  | None => replicate numCores true
  end.

Definition updateMask (pid tid : Z) (m : list bool) : P unit :=
  let t := getGid pid tid in
  s ← gets id;
  match gidMap s !! t with
  | None => mret tt
  | Some th =>
      _ ← require (bool_decide (length m = numCores));
      if existsb id m then upd_thread t (set_mask m) else stop
  end.

Definition syscallLeave (pid tid : Z) (c : nat) (pc : Z) : P unit :=
  s ← gets id;
  match curThread (contexts s c) with
  | None => require false
  | Some t =>
      th ← get_thread t;
      _ ← require (t =? getGid pid tid);
      _ ← require (bool_decide (cid th = c));
      _ ← require (bool_decide (state th = RUNNING));
      if bool_decide ((pid, pc) ∈ blockingSyscalls s) || markedForSleep th || negb (mask_at th c)
      then leave pid tid c
      else
        _ ← require (bool_decide (fakeLeave th = None));
        _ ← upd_thread t (set_fakeLeave (Some pc));
        _ ← require (negb (bool_decide (t ∈ fakeLeaves s)));
        modify (upd_fake (fun q => q ++ [t]))
  end.

Definition notifyFutexWakeStart (pid tid maxWakes_ : Z) : P unit :=
  let t := getGid pid tid in
  th ← get_thread t;
  _ ← require (bool_decide (action (futexJoin th) = FJA_NONE));
  let m := Z.min maxWakes_ (2 ^ 24) in
  _ ← modify (fun s => upd_wakeups (maxAllowedFutexWakeups s + m) (unmatchedFutexWakeups s) s);
  upd_thread t (set_futexJoin (mkFJ FJA_NONE m (wokenUp (futexJoin th)))).

Definition notifyFutexWakeEnd (pid tid wokenUp_ : Z) : P unit :=
  upd_thread (getGid pid tid) (fun th => set_futexJoin (mkFJ FJA_WAKE (maxWakes (futexJoin th)) wokenUp_) th).

Definition notifyFutexWaitWoken (pid tid : Z) : P unit :=
  upd_thread (getGid pid tid) (set_futexJoin (mkFJ FJA_WAIT 0 0)).

(** The watchdog drives time forward while nobody runs and the first sleeper is
    still asleep. *)
Definition drive_time : P unit :=
  s ← gets id;
  if (scheduledThreads s =? Z.of_nat (length (outQueue s))) && negb (bool_decide (sleepQueue s = []))
  then callback else mret tt.

End Scheduler.
End Scheduler.
