(* ===== verification/SchedInv.v ===== *)
(** The scheduler's invariant: contexts, threads and queues agree, no thread is
    lost, no thread waits while a context it may use is free, and the barrier knows
    exactly the contexts whose thread runs. *)
From Stdlib Require Import Sorted.
From S2P Require Import Prelude Effects Mtrand BarrierIface Scheduler.

Module SchedInv.
Import BarrierIface Rand Scheduler.

(** ** Queues *)

Lemma elem_remove {A} `{EqDecision A} (x y : A) l : y ∈ remove x l <-> y ∈ l /\ y <> x.
Proof. unfold remove. rewrite list_elem_of_filter. tauto. Qed.

Lemma nodup_remove {A} `{EqDecision A} (x : A) l : NoDup l -> NoDup (remove x l).
Proof. apply NoDup_filter. Qed.

Lemma nodup_snoc {A} (x : A) l : NoDup l -> x ∉ l -> NoDup (l ++ [x]).
Proof.
  intros Hl Hx. apply NoDup_app. split_and!; [done| |apply NoDup_singleton].
  intros y Hy ->%list_elem_of_singleton. done.
Qed.

Lemma elem_snoc {A} (x y : A) l : y ∈ l ++ [x] <-> y ∈ l \/ y = x.
Proof. by rewrite elem_of_app, list_elem_of_singleton. Qed.

Lemma find_some_elem {A} (f : A -> bool) l x : List.find f l = Some x -> x ∈ l /\ f x = true.
Proof. intros Hf. apply List.find_some in Hf as [H1 H2]. split; [by apply list_elem_of_In|done]. Qed.

Lemma find_none_elem {A} (f : A -> bool) l x : List.find f l = None -> x ∈ l -> f x = false.
Proof. intros Hf Hx. eapply List.find_none; [done|]. by apply list_elem_of_In. Qed.

Lemma lookup_alter_if (m : gmap Z ThreadInfo) f (t u : Z) :
  alter f t m !! u = if decide (u = t) then f <$> m !! t else m !! u.
Proof. destruct (decide (u = t)) as [->|Hne]; [apply lookup_alter_eq|by apply lookup_alter_ne]. Qed.

Section SchedInv.
Context {B G : Type} `{PhaseBarrier B} `{RandSource G}.
Context (numCores : nat) (schedQuantum : Z).
Context {BL : PhaseBarrierLaws B numCores} {GL : RandLaws G}.
Notation Scheduler := (Scheduler (B := B) (G := G)).
Notation N := numCores.

Definition st (s : Scheduler) (t : Z) : option ThreadState := state <$> gidMap s !! t.
Definition wk (s : Scheduler) (t : Z) : Z := from_option wakeupPhase 0 (gidMap s !! t).

Definition on_context (th : ThreadInfo) : Prop := state th = RUNNING \/ state th = OUT.
Definition used (s : Scheduler) (c : nat) (t : Z) : Prop := contexts s c = mkCtx USED (Some t).
Definition idle (s : Scheduler) (c : nat) : Prop := contexts s c = mkCtx IDLE None.

Definition used_count (s : Scheduler) : nat :=
  length (filter (fun c => cstate (contexts s c) = USED) (seq 0 N)).

(** Between the steps of an operation, context [hc] may be idle off the free list,
    thread [ht] off its queue, and thread [ho] off the out queue. *)
Record core (hc : option nat) (ht ho : option Z) (s : Scheduler) : Prop := {
  k_range t th : gidMap s !! t = Some th -> (cid th < N)%nat /\ length (mask th) = N;
  k_used c t : used s c t <-> exists th, gidMap s !! t = Some th /\ cid th = c /\ on_context th;
  k_form c : idle s c \/ exists t, used s c t;
  k_free_nodup : NoDup (freeList s);
  k_free c : c ∈ freeList s <-> (c < N)%nat /\ idle s c /\ hc <> Some c;
  k_out_nodup : NoDup (outQueue s);
  k_out t : t ∈ outQueue s <-> st s t = Some OUT /\ ho <> Some t;
  k_sleep_nodup : NoDup (sleepQueue s);
  k_sleep t : t ∈ sleepQueue s <-> st s t = Some SLEEPING /\ ht <> Some t;
  k_sorted : StronglySorted (fun a b => wk s a <= wk s b) (sleepQueue s);
  k_run_nodup : NoDup (runQueue s);
  k_run t : t ∈ runQueue s -> st s t = Some QUEUED /\ ht <> Some t;
  k_queued t : st s t = Some QUEUED -> ht <> Some t ->
    t ∈ runQueue s \/ exists v th, gidMap s !! v = Some th /\ handoffThread th = Some t;
  k_hand v th d : gidMap s !! v = Some th -> handoffThread th = Some d ->
    state th = RUNNING /\ st s d = Some QUEUED /\ d ∉ runQueue s /\ ht <> Some d;
  k_hand_inj v1 v2 th1 th2 d : gidMap s !! v1 = Some th1 -> gidMap s !! v2 = Some th2 ->
    handoffThread th1 = Some d -> handoffThread th2 = Some d -> v1 = v2;
  k_work q th c : q ∈ runQueue s -> gidMap s !! q = Some th -> mask_at th c = true ->
    hc = Some c \/ exists t th', used s c t /\ gidMap s !! t = Some th' /\ state th' = RUNNING;
  k_word t th : gidMap s !! t = Some th -> ht <> Some t ->
    state th = QUEUED \/ state th = SLEEPING -> futexWord th = 1;
  k_late t th : gidMap s !! t = Some th -> state th = SLEEPING -> curPhase s < wakeupPhase th;
  k_marked t th : gidMap s !! t = Some th -> markedForSleep th = true ->
    state th = RUNNING /\ futexWord th = 1 /\ curPhase s < wakeupPhase th /\ fakeLeave th = None /\
    handoffThread th = None;
  k_fake_nodup : NoDup (fakeLeaves s);
  k_fake t : t ∈ fakeLeaves s <-> exists th, gidMap s !! t = Some th /\ fakeLeave th <> None;
  k_fake_running t th : gidMap s !! t = Some th -> fakeLeave th <> None ->
    state th = RUNNING /\ handoffThread th = None;
  k_scheduled : scheduledThreads s = Z.of_nat (used_count s);
  k_rnd : rand_ok (rnd s)
}.

(** *** Facts *)

Lemma st_Some s t x : st s t = Some x <-> exists th, gidMap s !! t = Some th /\ state th = x.
Proof. unfold st. rewrite fmap_Some. naive_solver. Qed.

Lemma used_inj s c t u : used s c t -> used s c u -> t = u.
Proof. unfold used. congruence. Qed.

Lemma idle_used s c t : idle s c -> used s c t -> False.
Proof. unfold idle, used. congruence. Qed.

Lemma on_queue_false hc ht ho s t :
  core hc ht ho s -> (st s t = Some QUEUED -> ht = Some t) -> (st s t = Some OUT -> ho = Some t) ->
  (st s t = Some SLEEPING -> ht = Some t) -> on_queue t s = false.
Proof.
  intros K Hq Ho Hs. unfold on_queue.
  rewrite !bool_decide_false; [done| | |].
  - rewrite (k_sleep _ _ _ _ K). naive_solver.
  - rewrite (k_out _ _ _ _ K). naive_solver.
  - intros Hr. apply (k_run _ _ _ _ K) in Hr as [? ?]. naive_solver.
Qed.

(** A thread that is not queued, sleeping or out is on no queue anyway. *)
Lemma core_hold hc ho s t :
  core hc None ho s -> st s t <> Some QUEUED -> st s t <> Some SLEEPING -> core hc (Some t) ho s.
Proof.
  intros [] Hq Hs. split; try done.
  - intros u. rewrite k_sleep0. naive_solver.
  - intros u Hu. destruct (k_run0 u Hu) as [Hst _]. split; [done|congruence].
  - intros u Hu _. by apply k_queued0.
  - intros v th d Hv Hd. destruct (k_hand0 v th d Hv Hd) as (? & ? & ? & _). split_and!; congruence.
  - intros u th Hu _. by apply (k_word0 u).
Qed.

Lemma core_unhold hc ho s t :
  core hc (Some t) ho s -> st s t <> Some QUEUED -> st s t <> Some SLEEPING -> core hc None ho s.
Proof.
  intros [] Hq Hs. split; try done.
  - intros u. rewrite k_sleep0. naive_solver.
  - intros u Hu. by destruct (k_run0 u Hu) as [Hst _].
  - intros u Hu _. apply k_queued0; [done|congruence].
  - intros v th d Hv Hd. by destruct (k_hand0 v th d Hv Hd) as (? & ? & ? & _).
  - intros u th Hu _ Hst. apply (k_word0 u); [done| |done]. intros [= ->]. unfold st in *. rewrite Hu in *. cbn in *.
    destruct Hst; congruence.
Qed.

Lemma used_count_set (s s' : Scheduler) c x :
  (c < N)%nat -> contexts s' = <[c := x]> (contexts s) ->
  (used_count s' + (if decide (cstate (contexts s c) = USED) then 1 else 0) =
   used_count s + (if decide (cstate x = USED) then 1 else 0))%nat.
Proof.
  intros Hc Hs. unfold used_count. rewrite Hs.
  assert (Hin : c ∈ seq 0 N) by (apply elem_of_seq; lia). pose proof (NoDup_seq 0 N) as Hnd.
  apply elem_of_Permutation in Hin as [l Hl]. rewrite Hl in Hnd |- *. apply NoDup_cons in Hnd as [Hn _].
  rewrite !filter_cons, fn_lookup_insert.
  assert (Heq : filter (fun d => cstate (<[c := x]> (contexts s) d) = USED) l =
    filter (fun d => cstate (contexts s d) = USED) l).
  { clear Hl. induction l as [|d l IH]; [done|]. rewrite !filter_cons.
    rewrite fn_lookup_insert_ne by (intros ->; apply Hn; by left).
    rewrite IH by (intros ?; apply Hn; by right). done. }
  rewrite Heq. repeat destruct (decide _); cbn; lia.
Qed.

Lemma used_count_le s : (used_count s <= N)%nat.
Proof. unfold used_count. etransitivity; [apply length_filter|]. by rewrite length_seq. Qed.

(** *** Changes of one thread *)

Definition put (t : Z) (th : ThreadInfo) (s : Scheduler) : Scheduler := upd_threads (insert t th) s.

Lemma lookup_put t th s u :
  gidMap (put t th s) !! u = if decide (u = t) then Some th else gidMap s !! u.
Proof.
  cbn. destruct (decide (u = t)) as [->|Hne]; [apply lookup_insert_eq|by apply lookup_insert_ne].
Qed.

Lemma st_put t th s u : st (put t th s) u = if decide (u = t) then Some (state th) else st s u.
Proof. unfold st. rewrite lookup_put. by destruct (decide (u = t)). Qed.

Lemma wk_put t th s u : wk (put t th s) u = if decide (u = t) then wakeupPhase th else wk s u.
Proof. unfold wk. rewrite lookup_put. by destruct (decide (u = t)). Qed.

Lemma upd_thread_put t f th (s : Scheduler) :
  gidMap s !! t = Some th -> upd_thread t f s = Ok (tt, put t (f th) s).
Proof.
  intros Ht. unfold upd_thread, modify, put, upd_threads. do 3 f_equal.
  apply map_eq. intros u. rewrite lookup_alter_if.
  destruct (decide (u = t)) as [->|Hne]; [by rewrite Ht, lookup_insert_eq|by rewrite lookup_insert_ne].
Qed.

Lemma ws_upd_thread t f th (s : Scheduler) Q :
  gidMap s !! t = Some th -> Q tt (put t (f th) s) -> wsafe (upd_thread t f) s Q.
Proof. intros Ht HQ. unfold wsafe. by rewrite (upd_thread_put t f th s Ht). Qed.

Lemma ws_get_thread t th (s : Scheduler) Q :
  gidMap s !! t = Some th -> Q th s -> wsafe (get_thread t) s Q.
Proof. intros Ht HQ. unfold wsafe, get_thread. by rewrite Ht. Qed.

Lemma sorted_ext (R R' : Z -> Z -> Prop) l :
  (forall a b, a ∈ l -> b ∈ l -> R a b -> R' a b) -> StronglySorted R l -> StronglySorted R' l.
Proof.
  induction l as [|x l IH]; intros HR Hl; [constructor|]. apply StronglySorted_inv in Hl as [Hs Hf].
  constructor.
  - apply IH; [|done]. intros a b Ha Hb. apply HR; by right.
  - rewrite Forall_forall in Hf |- *. intros b Hb. apply HR; [by left|by right|by apply Hf].
Qed.

Ltac on_thread u t :=
  rewrite ?lookup_put, ?st_put, ?wk_put in *; destruct (decide (u = t)) as [->|?].

(** A change that leaves the state, the context and the hand-off of a thread alone. *)
(** Some running thread is on the context [c]. *)
Definition busy (s : Scheduler) (c : nat) : Prop :=
  exists u x, used s c u /\ gidMap s !! u = Some x /\ state x = RUNNING.

Lemma core_update_mask hc ht ho s t th th' :
  core hc ht ho s -> gidMap s !! t = Some th ->
  state th' = state th -> cid th' = cid th -> length (mask th') = N ->
  (t ∈ runQueue s -> forall c, mask_at th' c = true -> mask_at th c = true \/ busy s c) ->
  handoffThread th' = handoffThread th ->
  (state th = SLEEPING -> wakeupPhase th' = wakeupPhase th) ->
  (fakeLeave th' <> None <-> fakeLeave th <> None) ->
  (ht <> Some t -> state th = QUEUED \/ state th = SLEEPING -> futexWord th' = 1) ->
  (markedForSleep th' = true -> state th = RUNNING /\ futexWord th' = 1 /\ curPhase s < wakeupPhase th' /\
     fakeLeave th' = None /\ handoffThread th' = None) ->
  core hc ht ho (put t th' s).
Proof.
  intros K Ht Es Ec Em Emr Eh Ew Ef Hw Hm. pose proof K as [].
  assert (Hst : forall u, st (put t th' s) u = st s u).
  { intros u. rewrite st_put. destruct (decide (u = t)) as [->|]; [|done]. unfold st. rewrite Ht. cbn. congruence. }
  split; try done; try (intros *; rewrite ?Hst; auto; fail).
  - intros u x. rewrite lookup_put. destruct (decide (u = t)) as [->|]; [intros [= <-]|by apply k_range0].
    split; [rewrite Ec; by apply (k_range0 t)|done].
  - intros c u. rewrite (k_used0 c u). rewrite lookup_put. destruct (decide (u = t)) as [->|]; [|done].
    rewrite Ht. unfold on_context. split; intros (x & [= <-] & ? & ?); eexists; (split; [done|]);
      rewrite ?Ec, ?Es in *; done.
  - eapply sorted_ext; [|done]. intros a b Ha Hb. rewrite !wk_put.
    apply k_sleep0 in Ha as [Ha _], Hb as [Hb _]. apply st_Some in Ha as (x & Hx & Hxs), Hb as (y & Hy & Hys).
    unfold wk. destruct (decide (a = t)) as [->|], (decide (b = t)) as [->|]; rewrite ?Ht; cbn;
      rewrite ?Ew by congruence; done.
  - intros u Hu. rewrite Hst in Hu. intros Hn. destruct (k_queued0 u Hu Hn) as [|(v & x & Hv & Hx)]; [by left|right].
    exists v. rewrite lookup_put. destruct (decide (v = t)) as [->|]; [|by exists x].
    exists th'. split; [done|]. congruence.
  - intros v x d. rewrite lookup_put, Hst. destruct (decide (v = t)) as [->|]; [|apply k_hand0].
    intros [= <-]. rewrite Eh, Es. by apply (k_hand0 t).
  - intros v1 v2 x1 x2 d. rewrite !lookup_put.
    destruct (decide (v1 = t)) as [->|], (decide (v2 = t)) as [->|]; intros H1 H2; simplify_eq; rewrite ?Eh;
      eauto.
  - intros q x c Hq. rewrite lookup_put. intros Hx Hmk.
    assert (hc = Some c \/ busy s c) as [|(u & z & Hu & Hz & Hr)]; [|by left|right].
    { destruct (decide (q = t)) as [->|]; [|by apply (k_work0 q x)]. injection Hx as <-.
      destruct (Emr Hq c Hmk) as [Hmk'|]; [by apply (k_work0 t th)|by right]. }
    exists u. destruct (decide (u = t)) as [->|Hne].
    + exists th'. rewrite lookup_put, decide_True by done. split_and!; [done|done|]. congruence.
    + exists z. by rewrite lookup_put, decide_False.
  - intros u x. rewrite lookup_put. destruct (decide (u = t)) as [->|]; [intros [= <-]|by apply k_word0].
    rewrite Es. exact Hw.
  - intros u x. rewrite lookup_put. destruct (decide (u = t)) as [->|]; [intros [= <-]|by apply k_late0].
    rewrite Es. intros Hs. rewrite Ew by done. by apply (k_late0 t).
  - intros u x. rewrite lookup_put. destruct (decide (u = t)) as [->|]; [intros [= <-]|by apply k_marked0].
    rewrite Es. exact Hm.
  - intros u. rewrite lookup_put, (k_fake0 u). destruct (decide (u = t)) as [->|]; [|done].
    rewrite Ht. split; intros (x & [= <-] & ?); eexists; (split; [done|]); by apply Ef.
  - intros u x. rewrite lookup_put. destruct (decide (u = t)) as [->|]; [intros [= <-]|by apply k_fake_running0].
    rewrite Es, Eh, Ef. by apply (k_fake_running0 t).
Qed.

Lemma core_update hc ht ho s t th th' :
  core hc ht ho s -> gidMap s !! t = Some th ->
  state th' = state th -> cid th' = cid th -> length (mask th') = N ->
  (t ∈ runQueue s -> mask th' = mask th) ->
  handoffThread th' = handoffThread th ->
  (state th = SLEEPING -> wakeupPhase th' = wakeupPhase th) ->
  (fakeLeave th' <> None <-> fakeLeave th <> None) ->
  (ht <> Some t -> state th = QUEUED \/ state th = SLEEPING -> futexWord th' = 1) ->
  (markedForSleep th' = true -> state th = RUNNING /\ futexWord th' = 1 /\ curPhase s < wakeupPhase th' /\
     fakeLeave th' = None /\ handoffThread th' = None) ->
  core hc ht ho (put t th' s).
Proof.
  intros K Ht Es Ec Em Emr. apply (core_update_mask hc ht ho s t th th' K Ht Es Ec Em).
  intros Hr c Hc. left. unfold mask_at in *. by rewrite <- Emr.
Qed.

(** Threads do not matter to the counters and lists. *)
Lemma used_count_put t th s : used_count (put t th s) = used_count s.
Proof. done. Qed.

(** *** Putting a thread on a context, and taking it off *)

Definition put_on (t : Z) (c : nat) (th : ThreadInfo) (s : Scheduler) : Scheduler :=
  upd_scheduled 1 (upd_context c (mkCtx USED (Some t)) (put t (set_cid c (set_state RUNNING th)) s)).
Definition take_off (t : Z) (c : nat) (th : ThreadInfo) (s : Scheduler) : Scheduler :=
  upd_scheduled (-1) (upd_context c (mkCtx IDLE None) (put t th s)).

Lemma schedule_wp t c th s Q :
  gidMap s !! t = Some th -> state th = STARTED \/ state th = BLOCKED \/ state th = QUEUED -> idle s c ->
  Q tt (put_on t c th s) -> wsafe (schedule t c) s Q.
Proof.
  unfold idle. intros Ht Hs Hc HQ. unfold schedule. ws_step. eapply ws_get_thread; [done|]. cbn beta.
  ws_steps; [by apply bool_decide_true|by rewrite Hc|by rewrite Hc|].
  eapply ws_upd_thread; [done|]. cbn beta. ws_steps. exact HQ.
Qed.

Lemma deschedule_wp t c th x s Q :
  gidMap s !! t = Some th -> on_context th -> used s c t -> cid th = c ->
  x = BLOCKED \/ x = QUEUED \/ x = SLEEPING ->
  Q tt (take_off t c (set_state x th) s) -> wsafe (deschedule t c x) s Q.
Proof.
  unfold used. intros Ht Hs Hc Hcid Hx HQ. unfold deschedule. ws_step. eapply ws_get_thread; [done|]. cbn beta.
  ws_steps; [by apply bool_decide_true|by rewrite Hc|by apply bool_decide_true|by rewrite Hc; apply bool_decide_true|by apply bool_decide_true|].
  eapply ws_upd_thread; [done|]. cbn beta. ws_steps. exact HQ.
Qed.

Lemma used_contexts (s s' : Scheduler) c x : contexts s' = <[c := x]> (contexts s) ->
  forall d t, used s' d t <-> if decide (d = c) then x = mkCtx USED (Some t) else used s d t.
Proof.
  intros Hs d t. unfold used. rewrite Hs. destruct (decide (d = c)) as [->|]; [by rewrite fn_lookup_insert|].
  by rewrite fn_lookup_insert_ne.
Qed.

Lemma idle_contexts (s s' : Scheduler) c x : contexts s' = <[c := x]> (contexts s) ->
  forall d, idle s' d <-> if decide (d = c) then x = mkCtx IDLE None else idle s d.
Proof.
  intros Hs d. unfold idle. rewrite Hs. destruct (decide (d = c)) as [->|]; [by rewrite fn_lookup_insert|].
  by rewrite fn_lookup_insert_ne.
Qed.

Context (HN : Z.of_nat N < 2 ^ 32).

Lemma take_off_core ht ht' ho s t th c x :
  core None ht ho s -> gidMap s !! t = Some th -> on_context th -> cid th = c -> ht <> Some t ->
  (state th = RUNNING /\ ho = None \/ state th = OUT /\ ho = Some t) ->
  handoffThread th = None -> fakeLeave th = None -> markedForSleep th = false ->
  (x = BLOCKED /\ ht' = ht \/ (x = QUEUED \/ x = SLEEPING /\ curPhase s < wakeupPhase th) /\ ht = None /\ ht' = Some t) ->
  core (Some c) ht' None (take_off t c (set_state x th) s).
Proof using HN.
  intros K Ht Hon Hcid Hht Hho Hh Hf Hm Hx. pose proof K as [].
  set (s' := take_off _ _ _ _).
  assert (Hctx : contexts s' = <[c := mkCtx IDLE None]> (contexts s)) by done.
  pose proof (used_contexts _ _ _ _ Hctx) as Hu. pose proof (idle_contexts _ _ _ _ Hctx) as Hi.
  assert (Hth : forall u, gidMap s' !! u = if decide (u = t) then Some (set_state x th) else gidMap s !! u)
    by (intros u; apply lookup_put).
  assert (Hst : forall u, st s' u = if decide (u = t) then Some x else st s u) by (intros u; apply (st_put t (set_state x th) s)).
  assert (Hwk : forall u, wk s' u = wk s u).
  { intros u. transitivity (wk (put t (set_state x th) s) u); [done|]. rewrite wk_put. destruct (decide (u = t)) as [->|]; [|done].
    unfold wk. by rewrite Ht. }
  destruct (k_range0 t th Ht) as [Hc Hmask]. rewrite Hcid in Hc.
  assert (Hused : used s c t) by (apply k_used0; eauto).
  assert (Hstt : st s t = Some RUNNING \/ st s t = Some OUT) by (unfold st; rewrite Ht; cbn; destruct Hon as [->| ->]; auto).
  assert (Hrunt : t ∉ runQueue s) by (intros Hr; apply k_run0 in Hr as [? _]; destruct Hstt; congruence).
  assert (Hnox : x <> RUNNING /\ x <> OUT) by (destruct Hx as [[-> _]|[[->|[-> _]] _]]; done).
  assert (Hcnt := used_count_set s s' c _ Hc Hctx). unfold used in Hused. rewrite Hused in Hcnt. cbn [cstate] in Hcnt.
  rewrite decide_True, decide_False in Hcnt by done.
  assert (Hle := used_count_le s).
  assert (Hhandt : forall v thv d, gidMap s !! v = Some thv -> handoffThread thv = Some d -> v <> t /\ d <> t).
  { intros v thv d Hv Hd. split; [intros ->; congruence|]. intros ->.
    destruct (k_hand0 v thv t Hv Hd) as (_ & Hq & _). destruct Hstt; congruence. }
  split.
  - intros u y. rewrite Hth. destruct (decide (u = t)) as [->|]; [intros [= <-]|by apply k_range0].
    split; [by cbn; rewrite Hcid|done].
  - intros d u. rewrite Hu, Hth. destruct (decide (d = c)) as [->|Hd].
    + split; [done|]. intros (y & Hy & Hyc & Hyon). destruct (decide (u = t)) as [->|Hne].
      * injection Hy as <-. destruct Hnox, Hyon; done.
      * exfalso. apply Hne. apply (used_inj s c); [|done]. apply k_used0; eauto.
    + rewrite k_used0. destruct (decide (u = t)) as [->|Hne]; [|done].
      split; intros (y & Hy & Hyc & Hyon); simplify_eq.
  - intros d. rewrite Hi. setoid_rewrite Hu. destruct (decide (d = c)); [by left|apply k_form0].
  - exact k_free_nodup0.
  - intros d. change (freeList s') with (freeList s). rewrite k_free0, Hi. destruct (decide (d = c)) as [->|Hd].
    + split; [intros (_ & Hidle & _); unfold idle in Hidle; congruence|]. intros (_ & _ & Hne). done.
    + split; intros (? & ? & ?); split_and!; congruence.
  - exact k_out_nodup0.
  - intros u. change (outQueue s') with (outQueue s). rewrite k_out0, Hst. destruct (decide (u = t)) as [->|Hne].
    + split; [|intros [[= ?] _]; by destruct Hnox]. intros [Hout Hn]. unfold st in Hout. rewrite Ht in Hout.
      cbn in Hout. destruct Hho as [[? _]|[_ ->]]; congruence.
    + split; [by intros [? _]|]. intros [? _]. split; [done|]. destruct Hho as [[_ ->]|[_ ->]]; congruence.
  - exact k_sleep_nodup0.
  - intros u. change (sleepQueue s') with (sleepQueue s). rewrite k_sleep0, Hst. destruct (decide (u = t)) as [->|Hne].
    + split; [intros [? _]; destruct Hstt; congruence|]. intros [[= ->] Hn].
      by destruct Hx as [[? _]|[_ [_ ->]]].
    + destruct Hx as [[_ ->]|[_ [-> ->]]]; [done|]. split; intros [? _]; split; congruence.
  - eapply sorted_ext; [|exact k_sorted0]. intros a b _ _. by rewrite !Hwk.
  - exact k_run_nodup0.
  - intros u Hur. change (runQueue s') with (runQueue s) in Hur. destruct (k_run0 u Hur) as [Hq Hn].
    assert (u <> t) by congruence. rewrite Hst, decide_False by done. split; [done|].
    destruct Hx as [[_ ->]|[_ [_ ->]]]; congruence.
  - intros u. rewrite Hst. change (runQueue s') with (runQueue s). destruct (decide (u = t)) as [->|Hne].
    + intros [= ->] Hn. by destruct Hx as [[? _]|[_ [_ ->]]].
    + intros Hq Hn. assert (Hn' : ht <> Some u) by (destruct Hx as [[_ <-]|[_ [-> _]]]; done).
      destruct (k_queued0 u Hq Hn') as [|(v & y & Hv & Hy)]; [by left|right]. exists v, y.
      destruct (Hhandt v y u Hv Hy). by rewrite Hth, decide_False.
  - intros v y d. rewrite Hth, Hst. change (runQueue s') with (runQueue s).
    destruct (decide (v = t)) as [->|Hne]; [intros [= <-]; cbn; congruence|]. intros Hv Hd.
    destruct (Hhandt v y d Hv Hd) as [_ Hdt]. rewrite decide_False by done.
    destruct (k_hand0 v y d Hv Hd) as (? & ? & ? & ?). split_and!; try done.
    destruct Hx as [[_ ->]|[_ [_ ->]]]; congruence.
  - intros v1 v2 y1 y2 d. rewrite !Hth.
    destruct (decide (v1 = t)) as [->|]; [intros [= <-]; cbn; congruence|].
    destruct (decide (v2 = t)) as [->|]; [intros _ [= <-]; cbn; congruence|]. by apply k_hand_inj0.
  - intros q y d Hq. change (runQueue s') with (runQueue s) in Hq. rewrite Hth.
    assert (q <> t) by congruence. rewrite decide_False by done. intros Hy Hmk.
    destruct (decide (d = c)) as [->|Hd]; [by left|right].
    destruct (k_work0 q y d Hq Hy Hmk) as [|(u & z & Hz1 & Hz2 & Hz3)]; [done|]. exists u, z.
    assert (u <> t).
    { intros ->. apply k_used0 in Hz1 as (w & Hw & Hwc & _). simplify_eq. }
    rewrite Hth, Hu, !decide_False by done. done.
  - intros u y. rewrite Hth. destruct (decide (u = t)) as [->|Hne].
    + intros [= <-] Hn. cbn. destruct Hx as [[-> _]|[_ [_ ->]]]; [by intros [?|?]|done].
    + intros Hu' Hn. apply (k_word0 u y Hu'). destruct Hx as [[_ <-]|[_ [-> _]]]; done.
  - intros u y. rewrite Hth. change (curPhase s') with (curPhase s). destruct (decide (u = t)) as [->|Hne]; [|apply k_late0].
    intros [= <-]. cbn. intros ->. destruct Hx as [[? _]|[[?|[_ ?]] _]]; done.
  - intros u y. rewrite Hth. change (curPhase s') with (curPhase s). destruct (decide (u = t)) as [->|Hne]; [|apply k_marked0].
    intros [= <-]. cbn. congruence.
  - exact k_fake_nodup0.
  - intros u. change (fakeLeaves s') with (fakeLeaves s). rewrite k_fake0, Hth. destruct (decide (u = t)) as [->|Hne]; [|done].
    rewrite Ht. split; intros (y & [= <-] & ?); cbn in *; congruence.
  - intros u y. rewrite Hth. destruct (decide (u = t)) as [->|Hne]; [|apply k_fake_running0].
    intros [= <-]. cbn. congruence.
  - change (scheduledThreads s') with (u32 (scheduledThreads s + -1)). rewrite k_scheduled0, u32_id; [lia|].
    unfold in_u32. lia.
  - exact k_rnd0.
Qed.

Lemma put_on_core s t th c :
  core (Some c) (Some t) None s -> gidMap s !! t = Some th -> (c < N)%nat -> idle s c ->
  state th = STARTED \/ state th = BLOCKED \/ state th = QUEUED ->
  core None None None (put_on t c th s).
Proof using HN.
  intros K Ht Hc Hidle Hs. pose proof K as [].
  set (x := set_cid c (set_state RUNNING th)). set (s' := put_on _ _ _ _).
  assert (Hctx : contexts s' = <[c := mkCtx USED (Some t)]> (contexts s)) by done.
  pose proof (used_contexts _ _ _ _ Hctx) as Hu. pose proof (idle_contexts _ _ _ _ Hctx) as Hi.
  assert (Hth : forall u, gidMap s' !! u = if decide (u = t) then Some x else gidMap s !! u)
    by (intros u; apply lookup_put).
  assert (Hst : forall u, st s' u = if decide (u = t) then Some RUNNING else st s u) by (intros u; apply (st_put t x s)).
  assert (Hwk : forall u, wk s' u = wk s u).
  { intros u. transitivity (wk (put t x s) u); [done|]. rewrite wk_put. destruct (decide (u = t)) as [->|]; [|done].
    unfold wk. by rewrite Ht. }
  assert (Hrs : state th <> RUNNING /\ state th <> OUT) by (destruct Hs as [->|[->| ->]]; done).
  assert (Hon : ~ on_context th) by (intros []; tauto).
  assert (Hstt : st s t = Some (state th)) by (unfold st; by rewrite Ht).
  assert (Hrunt : t ∉ runQueue s) by (intros Hr; apply k_run0 in Hr as [_ ?]; done).
  assert (Hh : handoffThread th = None).
  { destruct (handoffThread th) as [d|] eqn:Hd; [|done]. destruct (k_hand0 t th d Ht Hd). tauto. }
  assert (Hf : fakeLeave th = None).
  { destruct (fakeLeave th) eqn:Hd; [|done]. destruct (k_fake_running0 t th Ht); [congruence|tauto]. }
  assert (Hm : markedForSleep th = false).
  { destruct (markedForSleep th) eqn:Hd; [|done]. destruct (k_marked0 t th Ht Hd). tauto. }
  assert (Hcnt := used_count_set s s' c _ Hc Hctx). unfold idle in Hidle. rewrite Hidle in Hcnt. cbn [cstate] in Hcnt.
  rewrite decide_False, decide_True in Hcnt by done.
  assert (Hle := used_count_le s').
  split.
  - intros u y. rewrite Hth. destruct (decide (u = t)) as [->|]; [intros [= <-]|by apply k_range0].
    split; [exact Hc|exact (proj2 (k_range0 t th Ht))].
  - intros d u. rewrite Hu, Hth. destruct (decide (d = c)) as [->|Hd], (decide (u = t)) as [->|Hne].
    + split; [|done]. intros _. exists x. split_and!; [done|done|by left].
    + split; [congruence|]. intros Hy. apply k_used0 in Hy. unfold used in Hy. congruence.
    + rewrite k_used0. split; intros (y & Hy & Hyc & Hyon); simplify_eq.
    + apply k_used0.
  - intros d. rewrite Hi. setoid_rewrite Hu. destruct (decide (d = c)); [right; by exists t|apply k_form0].
  - exact k_free_nodup0.
  - intros d. change (freeList s') with (freeList s). rewrite k_free0, Hi. destruct (decide (d = c)) as [->|Hd].
    + split; [intros (_ & _ & ?); done|]. intros (_ & ? & _). done.
    + split; intros (? & ? & ?); split_and!; congruence.
  - exact k_out_nodup0.
  - intros u. change (outQueue s') with (outQueue s). rewrite k_out0, Hst. destruct (decide (u = t)) as [->|Hne]; [|done].
    rewrite Hstt. split; intros [[=] _]; tauto.
  - exact k_sleep_nodup0.
  - intros u. change (sleepQueue s') with (sleepQueue s). rewrite k_sleep0, Hst. destruct (decide (u = t)) as [->|Hne].
    + split; [by intros [_ ?]|]. by intros [[=] _].
    + split; intros [? _]; split; congruence.
  - eapply sorted_ext; [|exact k_sorted0]. intros a b _ _. by rewrite !Hwk.
  - exact k_run_nodup0.
  - intros u Hur. change (runQueue s') with (runQueue s) in Hur. destruct (k_run0 u Hur) as [Hq Hn].
    assert (u <> t) by congruence. by rewrite Hst, decide_False.
  - intros u. rewrite Hst. change (runQueue s') with (runQueue s). destruct (decide (u = t)) as [->|Hne]; [done|].
    intros Hq _. destruct (k_queued0 u Hq) as [|(v & y & Hv & Hy)]; [congruence|by left|right]. exists v, y.
    split; [|done]. rewrite Hth, decide_False; [done|]. intros ->. congruence.
  - intros v y d. rewrite Hth, Hst. change (runQueue s') with (runQueue s).
    destruct (decide (v = t)) as [->|Hne]; [intros [= <-]; cbn; congruence|]. intros Hv Hd.
    destruct (k_hand0 v y d Hv Hd) as (? & ? & ? & ?). rewrite decide_False by congruence. done.
  - intros v1 v2 y1 y2 d. rewrite !Hth.
    destruct (decide (v1 = t)) as [->|]; [intros [= <-]; cbn; congruence|].
    destruct (decide (v2 = t)) as [->|]; [intros _ [= <-]; cbn; congruence|]. by apply k_hand_inj0.
  - intros q y d Hq. change (runQueue s') with (runQueue s) in Hq. rewrite Hth.
    assert (q <> t) by congruence. rewrite decide_False by done. intros Hy Hmk. right.
    destruct (decide (d = c)) as [->|Hd].
    + exists t, x. by rewrite Hu, Hth, !decide_True by done.
    + destruct (k_work0 q y d Hq Hy Hmk) as [|(u & z & Hz1 & Hz2 & Hz3)]; [congruence|]. exists u, z.
      assert (u <> t) by (intros ->; simplify_eq; tauto).
      by rewrite Hth, Hu, !decide_False by done.
  - intros u y. rewrite Hth. destruct (decide (u = t)) as [->|Hne].
    + intros [= <-] _. cbn. by intros [|].
    + intros Hu' _. apply (k_word0 u y Hu'). congruence.
  - intros u y. rewrite Hth. change (curPhase s') with (curPhase s). destruct (decide (u = t)) as [->|Hne]; [|apply k_late0].
    by intros [= <-].
  - intros u y. rewrite Hth. change (curPhase s') with (curPhase s). destruct (decide (u = t)) as [->|Hne]; [|apply k_marked0].
    intros [= <-]. cbn. congruence.
  - exact k_fake_nodup0.
  - intros u. change (fakeLeaves s') with (fakeLeaves s). rewrite k_fake0, Hth. destruct (decide (u = t)) as [->|Hne]; [|done].
    rewrite Ht. split; intros (y & [= <-] & ?); cbn in *; congruence.
  - intros u y. rewrite Hth. destruct (decide (u = t)) as [->|Hne]; [|apply k_fake_running0].
    intros [= <-]. cbn. congruence.
  - change (scheduledThreads s') with (u32 (scheduledThreads s + 1)). rewrite k_scheduled0, u32_id; [lia|].
    unfold in_u32. lia.
  - exact k_rnd0.
Qed.

(** *** Queues *)

Lemma core_remove_run hc ho s t :
  core hc None ho s -> t ∈ runQueue s -> core hc (Some t) ho (upd_run (remove t) s).
Proof.
  intros K Hr. pose proof K as []. destruct (k_run0 t Hr) as [Hq _].
  split; try done; cbn.
  - intros u. change (st (upd_run (remove t) s) u) with (st s u). rewrite k_sleep0. split; intros [? _]; split; (done || congruence).
  - by apply nodup_remove.
  - intros u [Hu Hne]%elem_remove. destruct (k_run0 u Hu) as [? _]. split; [done|congruence].
  - intros u Hu Hn. destruct (k_queued0 u Hu) as [|]; [congruence| |by right]. left. apply elem_remove. split; (done || congruence).
  - intros v th d Hv Hd. destruct (k_hand0 v th d Hv Hd) as (? & ? & Hnr & _). split_and!; [done|done| |congruence].
    by intros [? _]%elem_remove.
  - intros q th c [Hq' _]%elem_remove. by apply k_work0.
  - intros u th Hu _. by apply (k_word0 u).
Qed.

Lemma core_push_run hc ho s t th :
  core hc (Some t) ho s -> gidMap s !! t = Some th -> state th = QUEUED -> futexWord th = 1 ->
  (forall c, mask_at th c = true -> hc = Some c \/ exists u th', used s c u /\ gidMap s !! u = Some th' /\ state th' = RUNNING) ->
  core hc None ho (upd_run (fun q => q ++ [t]) s).
Proof.
  intros K Ht Hs Hw Hwork. pose proof K as [].
  assert (Hst : st s t = Some QUEUED) by (unfold st; rewrite Ht; cbn; congruence).
  assert (Hnr : t ∉ runQueue s) by (intros Hr; by apply k_run0 in Hr as [_ ?]).
  split; try done; cbn.
  - intros u. change (st (upd_run _ s) u) with (st s u). rewrite k_sleep0. split; intros [? _]; split; (done || congruence).
  - by apply nodup_snoc.
  - intros u [Hu| ->]%elem_snoc; [|done]. by destruct (k_run0 u Hu).
  - intros u Hu _. rewrite elem_snoc. destruct (decide (u = t)) as [->|]; [left; by right|].
    destruct (k_queued0 u Hu) as [|]; [congruence|left; by left|by right].
  - intros v x d Hv Hd. destruct (k_hand0 v x d Hv Hd) as (? & ? & ? & ?). split_and!; [done|done| |done].
    intros [?| ->]%elem_snoc; congruence.
  - intros q x c [Hq| ->]%elem_snoc; [by apply k_work0|]. intros Hx. simplify_eq. apply Hwork.
  - intros u x Hu _. destruct (decide (u = t)) as [->|]; [by simplify_eq|]. apply (k_word0 u); [done|congruence].
Qed.

Lemma core_remove_free ht ho s c :
  core None ht ho s -> c ∈ freeList s -> core (Some c) ht ho (upd_free (remove c) s).
Proof.
  intros K Hc. pose proof K as []. split; try done; cbn.
  - by apply nodup_remove.
  - intros d. rewrite elem_remove, k_free0. split; [intros ((? & ? & _) & ?); split_and!; (done || congruence)|].
    intros (? & ? & ?). split_and!; (done || congruence).
  - intros q x d Hq Hx Hm. destruct (k_work0 q x d Hq Hx Hm) as [|]; [done|by right].
Qed.

Lemma core_push_free ht ho s c :
  core (Some c) ht ho s -> (c < N)%nat -> idle s c ->
  (forall q x, q ∈ runQueue s -> gidMap s !! q = Some x -> mask_at x c = false) ->
  core None ht ho (upd_free (fun q => q ++ [c]) s).
Proof.
  intros K Hc Hi Hno. pose proof K as []. split; try done; cbn.
  - apply nodup_snoc; [done|]. rewrite k_free0. naive_solver.
  - intros d. rewrite elem_snoc, k_free0. change (idle (upd_free _ s) d) with (idle s d).
    destruct (decide (d = c)) as [->|]; [split; [done|by right]|].
    split; [intros [(? & ? & ?)| ->]; done|]. intros (? & ? & _). left. split_and!; (done || congruence).
  - intros q x d Hq Hx Hm. destruct (k_work0 q x d Hq Hx Hm) as [[= ->]|]; [|by right].
    rewrite (Hno q x Hq Hx) in Hm. done.
Qed.

Lemma core_remove_out hc ht s t :
  core hc ht None s -> t ∈ outQueue s -> core hc ht (Some t) (upd_out (remove t) s).
Proof.
  intros K Ht. pose proof K as []. split; try done; cbn.
  - by apply nodup_remove.
  - intros u. rewrite elem_remove, k_out0. change (st (upd_out _ s) u) with (st s u).
    split; [intros ((? & _) & ?)|intros (? & ?)]; split_and!; (done || congruence).
Qed.

(** Any thread not on a queue may change between states that are not on one. *)
Lemma core_state hc ht s t th x :
  core hc ht None s -> gidMap s !! t = Some th -> ~ on_context th -> state th <> SLEEPING \/ ht = Some t ->
  x = QUEUED /\ ht = Some t \/ x = BLOCKED /\ (state th = QUEUED -> ht = Some t) ->
  core hc ht None (put t (set_state x th) s).
Proof.
  intros K Ht Hon Hsl Hx. pose proof K as [].
  assert (Hrs : state th <> RUNNING /\ state th <> OUT) by (unfold on_context in Hon; tauto).
  assert (Hh : handoffThread th = None).
  { destruct (handoffThread th) as [d|] eqn:Hd; [|done]. destruct (k_hand0 t th d Ht Hd). tauto. }
  assert (Hf : fakeLeave th = None).
  { destruct (fakeLeave th) eqn:Hd; [|done]. destruct (k_fake_running0 t th Ht); [congruence|tauto]. }
  assert (Hm : markedForSleep th = false).
  { destruct (markedForSleep th) eqn:Hd; [|done]. destruct (k_marked0 t th Ht Hd). tauto. }
  assert (Hstt : st s t = Some (state th)) by (unfold st; by rewrite Ht).
  assert (Hnx : x <> RUNNING /\ x <> OUT /\ x <> SLEEPING) by (destruct Hx as [[-> _]|[-> _]]; done).
  assert (Hst : forall u, st (put t (set_state x th) s) u = if decide (u = t) then Some x else st s u) by (intros u; apply st_put).
  assert (Hrun : t ∈ runQueue s -> False).
  { intros Hr. apply k_run0 in Hr as [Hq Hn]. rewrite Hstt in Hq. injection Hq as Hq.
    destruct Hx as [[_ ?]|[_ Hq']]; [done|]. by apply Hn, Hq'. }
  split; try done.
  - intros u y. rewrite lookup_put. destruct (decide (u = t)) as [->|]; [intros [= <-]; exact (k_range0 t th Ht)|by apply k_range0].
  - intros d u. rewrite lookup_put. change (used (put t (set_state x th) s) d u) with (used s d u). rewrite k_used0.
    destruct (decide (u = t)) as [->|]; [|done]. rewrite Ht.
    split; intros (y & [= <-] & ? & Hy); [done|]. unfold on_context in Hy. cbn in Hy. tauto.
  - intros u. rewrite Hst. cbn. rewrite k_out0. destruct (decide (u = t)) as [->|]; [|done].
    rewrite Hstt. split; intros [Hq _]; injection Hq as Hq; tauto.
  - intros u. rewrite Hst. cbn. rewrite k_sleep0. destruct (decide (u = t)) as [->|]; [|done].
    rewrite Hstt. split; intros [Hq ?]; injection Hq as Hq; destruct Hsl; tauto.
  - eapply sorted_ext; [|exact k_sorted0]. intros a b _ _. rewrite !wk_put.
    unfold wk. destruct (decide (a = t)) as [->|], (decide (b = t)) as [->|]; rewrite ?Ht; done.
  - intros u Hu. rewrite Hst. cbn in Hu. destruct (decide (u = t)) as [->|]; [by destruct Hrun|by apply k_run0].
  - intros u. rewrite Hst. destruct (decide (u = t)) as [->|Hne].
    + intros [= ->] Hn. by destruct Hx as [[_ ?]|[? _]].
    + intros Hq Hn. destruct (k_queued0 u Hq Hn) as [|(v & y & Hv & Hy)]; [by left|right]. exists v, y.
      rewrite lookup_put, decide_False; [done|]. intros ->. congruence.
  - intros v y d. rewrite lookup_put, Hst. destruct (decide (v = t)) as [->|]; [intros [= <-]; cbn; congruence|].
    intros Hv Hd. destruct (k_hand0 v y d Hv Hd) as (? & Hq & Hnr & ?).
    destruct (decide (d = t)) as [->|]; [|done]. exfalso. rewrite Hstt in Hq. injection Hq as Hq.
    destruct Hx as [[_ ?]|[_ Hq']]; [done|tauto].
  - intros v1 v2 y1 y2 d. rewrite !lookup_put.
    destruct (decide (v1 = t)) as [->|]; [intros [= <-]; cbn; congruence|].
    destruct (decide (v2 = t)) as [->|]; [intros _ [= <-]; cbn; congruence|]. by apply k_hand_inj0.
  - intros q y d Hq. rewrite lookup_put. cbn in Hq. destruct (decide (q = t)) as [->|]; [by destruct Hrun|].
    intros Hy Hmk. destruct (k_work0 q y d Hq Hy Hmk) as [|(u & z & Hz1 & Hz2 & Hz3)]; [by left|right]. exists u, z.
    rewrite lookup_put, decide_False; [done|]. intros ->. simplify_eq. tauto.
  - intros u y. rewrite lookup_put. destruct (decide (u = t)) as [->|]; [intros [= <-]; cbn|by apply k_word0].
    intros Hn [->| ->]; destruct Hx as [[? ?]|[? _]]; congruence.
  - intros u y. rewrite lookup_put. destruct (decide (u = t)) as [->|]; [intros [= <-]; cbn|by apply k_late0]. tauto.
  - intros u y. rewrite lookup_put. destruct (decide (u = t)) as [->|]; [intros [= <-]; cbn; congruence|by apply k_marked0].
  - intros u. rewrite lookup_put. cbn. rewrite k_fake0. destruct (decide (u = t)) as [->|]; [|done].
    rewrite Ht. split; intros (y & [= <-] & ?); cbn in *; congruence.
  - intros u y. rewrite lookup_put. destruct (decide (u = t)) as [->|]; [intros [= <-]; cbn; congruence|by apply k_fake_running0].
Qed.

(** A thread on a context leaves for the out queue, or comes back from it. *)
Lemma core_out_state s t th x f :
  core None None None s -> gidMap s !! t = Some th -> on_context th -> x = RUNNING \/ x = OUT ->
  handoffThread th = None -> fakeLeave th = None -> markedForSleep th = false ->
  (x = OUT -> forall q y, q ∈ runQueue s -> gidMap s !! q = Some y -> mask_at y (cid th) = false) ->
  NoDup (f (outQueue s)) ->
  (forall u, u ∈ f (outQueue s) <-> if decide (u = t) then x = OUT else u ∈ outQueue s) ->
  core None None None (upd_out f (put t (set_state x th) s)).
Proof.
  intros K Ht Hon Hx Hh Hf Hm Hno Hnd Hout. pose proof K as []. set (s' := upd_out _ _).
  assert (Hstt : st s t = Some (state th)) by (unfold st; by rewrite Ht).
  assert (Hst : forall u, st s' u = if decide (u = t) then Some x else st s u) by (intros u; apply (st_put t (set_state x th) s)).
  assert (Hth : forall u, gidMap s' !! u = if decide (u = t) then Some (set_state x th) else gidMap s !! u)
    by (intros u; apply lookup_put).
  assert (Hon' : on_context (set_state x th)) by (destruct Hx as [->| ->]; [by left|by right]).
  assert (Hrs : state th <> QUEUED /\ state th <> SLEEPING) by (destruct Hon as [->| ->]; done).
  assert (Hxs : x <> QUEUED /\ x <> SLEEPING) by (destruct Hx as [->| ->]; done).
  assert (Hrun : t ∈ runQueue s -> False) by (intros Hr; apply k_run0 in Hr as [Hq _]; rewrite Hstt in Hq; injection Hq; tauto).
  split; try done.
  - intros u y. rewrite Hth. destruct (decide (u = t)) as [->|]; [intros [= <-]; exact (k_range0 t th Ht)|by apply k_range0].
  - intros d u. change (used s' d u) with (used s d u). rewrite k_used0, Hth. destruct (decide (u = t)) as [->|]; [|done].
    rewrite Ht. split; intros (y & [= <-] & ? & Hy); eexists; split_and!; done.
  - intros u. change (outQueue s') with (f (outQueue s)). rewrite Hout, Hst. destruct (decide (u = t)) as [->|].
    + split; [by intros ->|]. by intros [[=] _].
    + rewrite k_out0. done.
  - intros u. rewrite Hst. change (sleepQueue s') with (sleepQueue s). rewrite k_sleep0. destruct (decide (u = t)) as [->|]; [|done].
    rewrite Hstt. split; intros [Hq ?]; injection Hq as Hq; tauto.
  - eapply sorted_ext; [|exact k_sorted0]. intros a b _ _.
    change (wk s' a) with (wk (put t (set_state x th) s) a). change (wk s' b) with (wk (put t (set_state x th) s) b).
    rewrite !wk_put. unfold wk. destruct (decide (a = t)) as [->|], (decide (b = t)) as [->|]; rewrite ?Ht; done.
  - intros u Hu. rewrite Hst. destruct (decide (u = t)) as [->|]; [by destruct Hrun|by apply k_run0].
  - intros u. rewrite Hst. destruct (decide (u = t)) as [->|Hne]; [intros [=]; tauto|].
    intros Hq Hn. destruct (k_queued0 u Hq Hn) as [|(v & y & Hv & Hy)]; [by left|right]. exists v, y.
    rewrite Hth, decide_False; [done|]. intros ->. congruence.
  - intros v y d. rewrite Hth, Hst. destruct (decide (v = t)) as [->|]; [intros [= <-]; cbn; congruence|].
    intros Hv Hd. destruct (k_hand0 v y d Hv Hd) as (? & Hq & ? & ?).
    rewrite decide_False; [done|]. intros ->. rewrite Hstt in Hq. injection Hq; tauto.
  - intros v1 v2 y1 y2 d. rewrite !Hth.
    destruct (decide (v1 = t)) as [->|]; [intros [= <-]; cbn; congruence|].
    destruct (decide (v2 = t)) as [->|]; [intros _ [= <-]; cbn; congruence|]. by apply k_hand_inj0.
  - intros q y d Hq. rewrite Hth. change (runQueue s') with (runQueue s) in Hq.
    destruct (decide (q = t)) as [->|]; [by destruct Hrun|]. intros Hy Hmk. right.
    destruct (k_work0 q y d Hq Hy Hmk) as [|(u & z & Hz1 & Hz2 & Hz3)]; [done|]. exists u.
    destruct (decide (u = t)) as [->|].
    + exists (set_state x th). rewrite Hth, decide_True by done. split_and!; [done|done|]. cbn.
      destruct Hx as [->| ->]; [done|]. exfalso. simplify_eq.
      apply k_used0 in Hz1 as (w & Hw & <- & _). simplify_eq. by rewrite (Hno eq_refl q y) in Hmk.
    + exists z. by rewrite Hth, decide_False.
  - intros u y. rewrite Hth. destruct (decide (u = t)) as [->|]; [intros [= <-] _; cbn; tauto|by apply k_word0].
  - intros u y. rewrite Hth. destruct (decide (u = t)) as [->|]; [intros [= <-]; cbn; tauto|by apply k_late0].
  - intros u y. rewrite Hth. destruct (decide (u = t)) as [->|]; [intros [= <-]; cbn; congruence|by apply k_marked0].
  - intros u. rewrite Hth. change (fakeLeaves s') with (fakeLeaves s). rewrite k_fake0. destruct (decide (u = t)) as [->|]; [|done].
    rewrite Ht. split; intros (y & [= <-] & ?); cbn in *; congruence.
  - intros u y. rewrite Hth. destruct (decide (u = t)) as [->|]; [intros [= <-]; cbn; congruence|by apply k_fake_running0].
Qed.

Lemma sleep_insert_perm threads d t q : sleep_insert threads d t q ≡ₚ t :: q.
Proof.
  induction q as [|x q IH]; [done|]. cbn. destruct (threads !! x) as [th|]; [|done].
  destruct (d <? wakeupPhase th); [done|]. rewrite IH. apply Permutation_swap.
Qed.

Lemma sleep_insert_sorted s t q :
  (forall x, x ∈ q -> is_Some (gidMap s !! x)) ->
  StronglySorted (fun a b => wk s a <= wk s b) q ->
  StronglySorted (fun a b => wk s a <= wk s b) (sleep_insert (gidMap s) (wk s t) t q).
Proof.
  intros Hin Hq. induction Hq as [|x q Hq IH Hx]; [constructor; constructor|].
  cbn. destruct (Hin x) as [th Hth]; [by left|]. rewrite Hth.
  assert (Hwx : wk s x = wakeupPhase th) by (unfold wk; by rewrite Hth).
  rewrite Forall_forall in Hx. destruct (Z.ltb_spec (wk s t) (wakeupPhase th)).
  - constructor; [by constructor; [|by apply Forall_forall]|]. constructor; [lia|]. apply Forall_forall.
    intros y Hy. specialize (Hx y Hy). lia.
  - constructor; [apply IH; intros y Hy; apply Hin; by right|]. apply Forall_forall. intros y.
    rewrite sleep_insert_perm, elem_of_cons. intros [->|Hy]; [lia|by apply Hx].
Qed.

Lemma core_sleep_add hc ho s t th :
  core hc (Some t) ho s -> gidMap s !! t = Some th -> state th = SLEEPING -> futexWord th = 1 ->
  core hc None ho (upd_sleep (sleep_insert (gidMap s) (wakeupPhase th) t) s).
Proof.
  intros K Ht Hs Hw. pose proof K as [].
  assert (Hstt : st s t = Some SLEEPING) by (unfold st; rewrite Ht; cbn; congruence).
  assert (Hwt : wakeupPhase th = wk s t) by (unfold wk; by rewrite Ht).
  split; try done; cbn.
  - rewrite sleep_insert_perm. constructor; [|done]. rewrite k_sleep0. tauto.
  - intros u. rewrite sleep_insert_perm, elem_of_cons, k_sleep0. change (st (upd_sleep _ s) u) with (st s u).
    split; [intros [->|[? _]]; done|]. intros [? _]. destruct (decide (u = t)); [by left|right; split; congruence].
  - eapply (sorted_ext (fun a b => wk s a <= wk s b)); [done|]. rewrite Hwt. apply sleep_insert_sorted; [|done]. intros x Hx. apply k_sleep0 in Hx as [Hx _].
    apply st_Some in Hx as (y & -> & _). done.
  - intros u Hu. by destruct (k_run0 u Hu).
  - intros u Hu _. apply k_queued0; [done|]. intros [= ->]. change (st (upd_sleep _ s) u) with (st s u) in Hu. congruence.
  - intros v x d Hv Hd. by destruct (k_hand0 v x d Hv Hd) as (? & ? & ? & _).
  - intros u x Hu _. destruct (decide (u = t)) as [->|]; [by simplify_eq|]. apply (k_word0 u); [done|congruence].
Qed.

Lemma core_remove_sleep hc ho s t f :
  core hc None ho s -> st s t = Some SLEEPING -> f (sleepQueue s) = remove t (sleepQueue s) ->
  core hc (Some t) ho (upd_sleep f s).
Proof.
  intros K Ht Hf. pose proof K as []. split; try done; cbn; rewrite ?Hf.
  - by apply nodup_remove.
  - intros u. rewrite elem_remove, k_sleep0. change (st (upd_sleep _ s) u) with (st s u).
    split; [intros ((? & _) & ?)|intros (? & ?)]; split_and!; (done || congruence).
  - unfold remove. clear -k_sorted0. induction k_sorted0 as [|x q Hq IH Hx]; [constructor|]. rewrite filter_cons.
    destruct (decide _); [|done]. constructor; [done|]. rewrite Forall_forall in Hx |- *.
    intros y [_ Hy]%list_elem_of_filter. by apply Hx.
  - intros u Hu. destruct (k_run0 u Hu) as [Hq _]. split; [done|]. change (st (upd_sleep _ s) u) with (st s u). congruence.
  - intros u Hu _. by apply k_queued0.
  - intros v x d Hv Hd. destruct (k_hand0 v x d Hv Hd) as (? & Hq & ? & _). split_and!; [done|done|done|]. congruence.
  - intros u x Hu _. by apply (k_word0 u).
Qed.

(** A sleeper is awake, off the queue. *)
Lemma core_awake s t th f :
  core None None None s -> gidMap s !! t = Some th -> state th = SLEEPING ->
  f (sleepQueue s) = remove t (sleepQueue s) ->
  core None None None (upd_sleep f (put t (set_state BLOCKED th) s)).
Proof.
  intros K Ht Hs Hf.
  assert (Hst : st s t = Some SLEEPING) by (unfold st; rewrite Ht; cbn; congruence).
  pose proof (core_remove_sleep _ _ s t f K Hst Hf) as K1.
  apply (core_unhold _ _ _ t).
  - change (core None (Some t) None (put t (set_state BLOCKED th) (upd_sleep f s))).
    apply core_state; [done|done| |by right|right; split; [done|congruence]]. unfold on_context. rewrite Hs. intros [|]; done.
  - change (st (upd_sleep f (put t (set_state BLOCKED th) s)) t) with (st (put t (set_state BLOCKED th) s) t).
    by rewrite st_put, decide_True.
  - change (st (upd_sleep f (put t (set_state BLOCKED th) s)) t) with (st (put t (set_state BLOCKED th) s) t).
    by rewrite st_put, decide_True.
Qed.

(** *** Time slices, phases, and the life of a thread *)

Lemma core_tick s t v th :
  core None None None s -> t ∈ runQueue s -> gidMap s !! v = Some th -> state th = RUNNING ->
  handoffThread th = None -> fakeLeave th = None -> markedForSleep th = false ->
  core None None None (upd_run (remove t) (put v (set_handoff (Some t) th) s)).
Proof.
  intros K Hr Hv Hs Hh Hf Hm. pose proof K as []. set (s' := upd_run _ _).
  destruct (k_run0 t Hr) as [Hq _].
  assert (Hsv : st s v = Some RUNNING) by (unfold st; rewrite Hv; cbn; congruence).
  assert (Hst : forall u, st s' u = st s u).
  { intros u. transitivity (st (put v (set_handoff (Some t) th) s) u); [done|]. rewrite st_put.
    destruct (decide (u = v)) as [->|]; [|done]. cbn. congruence. }
  assert (Hth : forall u, gidMap s' !! u = if decide (u = v) then Some (set_handoff (Some t) th) else gidMap s !! u)
    by (intros u; apply lookup_put).
  assert (Hnot : forall w y, gidMap s !! w = Some y -> handoffThread y <> Some t).
  { intros w y Hw Hy. destruct (k_hand0 w y t Hw Hy) as (_ & _ & ? & _). done. }
  split; try done.
  - intros u y. rewrite Hth. destruct (decide (u = v)) as [->|]; [intros [= <-]; exact (k_range0 v th Hv)|by apply k_range0].
  - intros d u. change (used s' d u) with (used s d u). rewrite k_used0, Hth. destruct (decide (u = v)) as [->|]; [|done].
    rewrite Hv. split; intros (y & [= <-] & ? & Hy); eexists; split_and!; done.
  - intros u. rewrite Hst. apply k_out0.
  - intros u. rewrite Hst. apply k_sleep0.
  - eapply sorted_ext; [|exact k_sorted0]. intros a b _ _.
    change (wk s' a) with (wk (put v (set_handoff (Some t) th) s) a).
    change (wk s' b) with (wk (put v (set_handoff (Some t) th) s) b).
    rewrite !wk_put. unfold wk. destruct (decide (a = v)) as [->|], (decide (b = v)) as [->|]; rewrite ?Hv; done.
  - by apply nodup_remove.
  - intros u [Hu _]%elem_remove. rewrite Hst. by apply k_run0.
  - intros u. rewrite Hst. intros Hu Hn. change (runQueue s') with (remove t (runQueue s)). rewrite elem_remove.
    destruct (decide (u = t)) as [->|].
    + right. exists v, (set_handoff (Some t) th). by rewrite Hth, decide_True.
    + destruct (k_queued0 u Hu Hn) as [|(w & y & Hw & Hy)]; [by left|right]. exists w, y.
      rewrite Hth, decide_False; [done|]. intros ->. congruence.
  - intros w y d. rewrite Hth, Hst. change (runQueue s') with (remove t (runQueue s)). rewrite elem_remove.
    destruct (decide (w = v)) as [->|].
    + intros [= <-] [= <-]. split_and!; [done|done|tauto|done].
    + intros Hw Hd. destruct (k_hand0 w y d Hw Hd) as (? & ? & ? & ?). split_and!; tauto.
  - intros v1 v2 y1 y2 d. rewrite !Hth.
    destruct (decide (v1 = v)) as [->|], (decide (v2 = v)) as [->|]; intros H1 H2 Hd1 Hd2; simplify_eq; [done| | |by eapply k_hand_inj0].
    + cbn in Hd1. simplify_eq. by destruct (Hnot v2 y2).
    + cbn in Hd2. simplify_eq. by destruct (Hnot v1 y1).
  - intros q y d [Hq' _]%elem_remove. rewrite Hth. intros Hy Hmk. right.
    assert (Hold : gidMap s !! q = Some y).
    { destruct (decide (q = v)) as [->|]; [|done]. destruct (k_run0 v Hq'). congruence. }
    destruct (k_work0 q y d Hq' Hold Hmk) as [|(u & z & Hz1 & Hz2 & Hz3)]; [done|]. exists u.
    destruct (decide (u = v)) as [->|].
    + exists (set_handoff (Some t) th). by rewrite Hth, decide_True.
    + exists z. by rewrite Hth, decide_False.
  - intros u y. rewrite Hth. destruct (decide (u = v)) as [->|]; [intros [= <-] _; cbn; intros [|]; congruence|by apply k_word0].
  - intros u y. rewrite Hth. destruct (decide (u = v)) as [->|]; [intros [= <-]; cbn; congruence|by apply k_late0].
  - intros u y. rewrite Hth. destruct (decide (u = v)) as [->|]; [intros [= <-]; cbn; congruence|by apply k_marked0].
  - intros u. rewrite Hth. change (fakeLeaves s') with (fakeLeaves s). rewrite k_fake0. destruct (decide (u = v)) as [->|]; [|done].
    rewrite Hv. split; intros (y & [= <-] & ?); cbn in *; congruence.
  - intros u y. rewrite Hth. destruct (decide (u = v)) as [->|]; [intros [= <-]; cbn; congruence|by apply k_fake_running0].
Qed.

Lemma core_rnd hc ht ho s g : core hc ht ho s -> rand_ok g -> core hc ht ho (upd_rnd g s).
Proof. intros [] Hg. by split. Qed.

Lemma core_bar hc ht ho s b : core hc ht ho s -> core hc ht ho (upd_bar b s).
Proof. intros []. by split. Qed.

Lemma core_wakeups hc ht ho s m u : core hc ht ho s -> core hc ht ho (upd_wakeups m u s).
Proof. intros []. by split. Qed.

Lemma core_phase s p :
  core None None None s ->
  (forall t th, gidMap s !! t = Some th -> state th = SLEEPING -> p < wakeupPhase th) ->
  (forall t th, gidMap s !! t = Some th -> markedForSleep th = false) ->
  core None None None (upd_phase p s).
Proof.
  intros [] Hl Hm. split; try done. intros t th Ht Hmk. by rewrite (Hm t th Ht) in Hmk.
Qed.

Lemma core_start s t m :
  core None None None s -> gidMap s !! t = None -> length m = N -> (0 < N)%nat ->
  core None None None (put t (mkTh STARTED 0 None 0 false false 0 m None (mkFJ FJA_NONE 0 0)) s).
Proof.
  intros K Ht Hm HN0. pose proof K as []. set (th := mkTh _ _ _ _ _ _ _ _ _ _). set (s' := put t th s).
  assert (Hth : forall u, gidMap s' !! u = if decide (u = t) then Some th else gidMap s !! u)
    by (intros u; apply lookup_put).
  assert (Hst : forall u, st s' u = if decide (u = t) then Some STARTED else st s u) by (intros u; apply (st_put t th s)).
  assert (Hstt : st s t = None) by (unfold st; by rewrite Ht).
  split; try done.
  - intros u y. rewrite Hth. destruct (decide (u = t)) as [->|]; [by intros [= <-]|by apply k_range0].
  - intros d u. change (used s' d u) with (used s d u). rewrite k_used0, Hth. destruct (decide (u = t)) as [->|]; [|done].
    rewrite Ht. split; [by intros (y & ? & _)|]. intros (y & [= <-] & _ & Hy). by destruct Hy.
  - intros u. change (outQueue s') with (outQueue s). rewrite k_out0, Hst. destruct (decide (u = t)) as [->|]; [|done].
    rewrite Hstt. by split; intros [? _].
  - intros u. change (sleepQueue s') with (sleepQueue s). rewrite k_sleep0, Hst. destruct (decide (u = t)) as [->|]; [|done].
    rewrite Hstt. by split; intros [? _].
  - eapply sorted_ext; [|exact k_sorted0]. intros a b [Ha _]%k_sleep0 [Hb _]%k_sleep0. unfold s'. rewrite !wk_put.
    rewrite !decide_False by (intros ->; congruence). done.
  - intros u Hu. destruct (k_run0 u Hu). rewrite Hst, decide_False by (intros ->; congruence). done.
  - intros u. rewrite Hst. destruct (decide (u = t)) as [->|]; [done|]. intros Hq Hn.
    destruct (k_queued0 u Hq Hn) as [|(v & y & Hv & Hy)]; [by left|right]. exists v, y.
    by rewrite Hth, decide_False by (intros ->; congruence).
  - intros v y d. rewrite Hth, Hst. destruct (decide (v = t)) as [->|]; [by intros [= <-]|]. intros Hv Hd.
    destruct (k_hand0 v y d Hv Hd) as (? & ? & ? & ?). by rewrite decide_False by (intros ->; congruence).
  - intros v1 v2 y1 y2 d. rewrite !Hth.
    destruct (decide (v1 = t)) as [->|]; [by intros [= <-]|].
    destruct (decide (v2 = t)) as [->|]; [by intros _ [= <-]|]. by apply k_hand_inj0.
  - intros q y d Hq. destruct (k_run0 q Hq). rewrite Hth, decide_False by (intros ->; congruence). intros Hy Hmk.
    destruct (k_work0 q y d Hq Hy Hmk) as [|(u & z & Hz1 & Hz2 & Hz3)]; [done|right]. exists u, z.
    by rewrite Hth, decide_False by (intros ->; congruence).
  - intros u y. rewrite Hth. destruct (decide (u = t)) as [->|]; [intros [= <-] _; by intros [|]|by apply k_word0].
  - intros u y. rewrite Hth. destruct (decide (u = t)) as [->|]; [by intros [= <-]|by apply k_late0].
  - intros u y. rewrite Hth. destruct (decide (u = t)) as [->|]; [by intros [= <-]|by apply k_marked0].
  - intros u. rewrite Hth. change (fakeLeaves s') with (fakeLeaves s). rewrite k_fake0. destruct (decide (u = t)) as [->|]; [|done].
    rewrite Ht. split; [by intros (y & ? & _)|]. by intros (y & [= <-] & ?).
  - intros u y. rewrite Hth. destruct (decide (u = t)) as [->|]; [by intros [= <-]|by apply k_fake_running0].
Qed.

Lemma core_delete ht s t th :
  core None ht None s -> gidMap s !! t = Some th -> ~ on_context th -> state th <> SLEEPING ->
  (state th = QUEUED -> ht = Some t) -> ht = None \/ ht = Some t ->
  core None None None (upd_threads (delete t) s).
Proof.
  intros K Ht Hon Hsl Hq Hht. pose proof K as []. set (s' := upd_threads _ _).
  assert (Hrs : state th <> RUNNING /\ state th <> OUT) by (unfold on_context in Hon; tauto).
  assert (Hth : forall u, gidMap s' !! u = if decide (u = t) then None else gidMap s !! u).
  { intros u. cbn. destruct (decide (u = t)) as [->|]; [apply lookup_delete_eq|by apply lookup_delete_ne]. }
  assert (Hst : forall u, st s' u = if decide (u = t) then None else st s u).
  { intros u. unfold st. rewrite Hth. by destruct (decide (u = t)). }
  assert (Hstt : st s t = Some (state th)) by (unfold st; by rewrite Ht).
  assert (Hh : handoffThread th = None).
  { destruct (handoffThread th) as [d|] eqn:Hd; [|done]. destruct (k_hand0 t th d Ht Hd). tauto. }
  assert (Hf : fakeLeave th = None).
  { destruct (fakeLeave th) eqn:Hd; [|done]. destruct (k_fake_running0 t th Ht); [congruence|tauto]. }
  assert (Hnt : forall u, ht <> Some u \/ u = t) by (intros u; destruct (decide (u = t)); [by right|left]; destruct Hht as [->| ->]; congruence).
  assert (Hrun : t ∈ runQueue s -> False).
  { intros Hr. destruct (k_run0 t Hr) as [Hx Hn]. rewrite Hstt in Hx. injection Hx as Hx. by apply Hn, Hq. }
  split; try done.
  - intros u y. rewrite Hth. destruct (decide (u = t)); [done|by apply k_range0].
  - intros d u. change (used s' d u) with (used s d u). rewrite k_used0, Hth. destruct (decide (u = t)) as [->|]; [|done].
    rewrite Ht. split; [intros (y & [= <-] & _ & Hy); tauto|]. by intros (y & ? & _).
  - intros u. change (outQueue s') with (outQueue s). rewrite k_out0, Hst. destruct (decide (u = t)) as [->|]; [|done].
    rewrite Hstt. split; [intros [[=] _]; tauto|by intros [? _]].
  - intros u. change (sleepQueue s') with (sleepQueue s). rewrite k_sleep0, Hst. destruct (decide (u = t)) as [->|].
    + rewrite Hstt. split; [intros [[=] _]; tauto|by intros [? _]].
    + destruct (Hnt u) as [Hu|Hu]; [|done]. split; intros [? _]; by split.
  - eapply sorted_ext; [|exact k_sorted0]. intros a b [Ha _]%k_sleep0 [Hb _]%k_sleep0. unfold wk. rewrite !Hth.
    rewrite !decide_False by (intros ->; congruence). done.
  - intros u Hu. destruct (k_run0 u Hu). rewrite Hst, decide_False; [done|]. by intros ->.
  - intros u. rewrite Hst. destruct (decide (u = t)) as [->|]; [done|]. intros Hqu _.
    destruct (k_queued0 u Hqu) as [|(v & y & Hv & Hy)]; [by destruct (Hnt u)|by left|right]. exists v, y.
    by rewrite Hth, decide_False by (intros ->; congruence).
  - intros v y d. rewrite Hth, Hst. destruct (decide (v = t)) as [->|]; [done|]. intros Hv Hd.
    destruct (k_hand0 v y d Hv Hd) as (? & Hqd & ? & Hnd). rewrite decide_False; [done|]. intros ->.
    rewrite Hstt in Hqd. injection Hqd as Hqd. by apply Hnd, Hq.
  - intros v1 v2 y1 y2 d. rewrite !Hth.
    destruct (decide (v1 = t)); [done|]. destruct (decide (v2 = t)); [done|]. by apply k_hand_inj0.
  - intros q y d Hqr. assert (q <> t) by (by intros ->). rewrite Hth, decide_False by done. intros Hy Hmk.
    destruct (k_work0 q y d Hqr Hy Hmk) as [|(u & z & Hz1 & Hz2 & Hz3)]; [done|right]. exists u, z.
    rewrite Hth, decide_False; [done|]. intros ->. simplify_eq. tauto.
  - intros u y. rewrite Hth. destruct (decide (u = t)); [done|]. intros Hu _. apply (k_word0 u y Hu). by destruct (Hnt u).
  - intros u y. rewrite Hth. destruct (decide (u = t)); [done|by apply k_late0].
  - intros u y. rewrite Hth. destruct (decide (u = t)); [done|by apply k_marked0].
  - intros u. rewrite Hth. change (fakeLeaves s') with (fakeLeaves s). rewrite k_fake0. destruct (decide (u = t)) as [->|]; [|done].
    rewrite Ht. split; [intros (y & [= <-] & ?); congruence|by intros (y & ? & _)].
  - intros u y. rewrite Hth. destruct (decide (u = t)); [done|by apply k_fake_running0].
Qed.

(** A thread off the contexts has no hand-off, suppressed leave or sleep pending. *)
Lemma not_running_clean hc ht ho s t th :
  core hc ht ho s -> gidMap s !! t = Some th -> state th <> RUNNING ->
  handoffThread th = None /\ fakeLeave th = None /\ markedForSleep th = false.
Proof.
  intros K Ht Hs. split_and!.
  - destruct (handoffThread th) as [d|] eqn:Hd; [|done]. by destruct (k_hand _ _ _ _ K t th d Ht Hd).
  - destruct (fakeLeave th) eqn:Hd; [|done]. destruct (k_fake_running _ _ _ _ K t th Ht); [congruence|done].
  - destruct (markedForSleep th) eqn:Hd; [|done]. by destruct (k_marked _ _ _ _ K t th Ht Hd).
Qed.

(** A running thread's hand-off and suppressed leave. *)
Lemma core_running s t th x f ht :
  core None None None s -> gidMap s !! t = Some th -> state th = RUNNING -> markedForSleep th = false ->
  state x = RUNNING -> cid x = cid th -> mask x = mask th -> markedForSleep x = false ->
  handoffThread x = None -> ht = handoffThread th ->
  NoDup (f (fakeLeaves s)) -> (forall u, u ∈ f (fakeLeaves s) <-> if decide (u = t) then fakeLeave x <> None else u ∈ fakeLeaves s) ->
  core None ht None (upd_fake f (put t x s)).
Proof.
  intros K Ht Hs Hm Hxs Hxc Hxm Hxk Hxh Hht Hnd Hf. pose proof K as []. set (s' := upd_fake _ _).
  assert (Hth : forall u, gidMap s' !! u = if decide (u = t) then Some x else gidMap s !! u) by (intros u; apply lookup_put).
  assert (Hstt : st s t = Some RUNNING) by (unfold st; rewrite Ht; cbn; congruence).
  assert (Hst : forall u, st s' u = st s u).
  { intros u. transitivity (st (put t x s) u); [done|]. rewrite st_put. destruct (decide (u = t)) as [->|]; congruence. }
  assert (Hd : forall d, ht = Some d -> st s d = Some QUEUED /\ d ∉ runQueue s).
  { intros d ->. destruct (k_hand0 t th d Ht (eq_sym Hht)) as (_ & ? & ? & _). done. }
  split; try done.
  - intros u y. rewrite Hth. destruct (decide (u = t)) as [->|]; [intros [= <-]|by apply k_range0].
    rewrite Hxc, Hxm. by apply (k_range0 t).
  - intros d u. change (used s' d u) with (used s d u). rewrite k_used0, Hth. destruct (decide (u = t)) as [->|]; [|done].
    rewrite Ht. unfold on_context. split; intros (y & [= <-] & ? & Hy); eexists; split_and!; (done || congruence || auto).
  - intros u. rewrite Hst. apply k_out0.
  - intros u. rewrite Hst. change (sleepQueue s') with (sleepQueue s). rewrite k_sleep0. split; intros [Hu _]; (split; [done|]); [|done].
    intros Hd'. destruct (Hd u Hd'). congruence.
  - eapply sorted_ext; [|exact k_sorted0]. intros a b [Ha _]%k_sleep0 [Hb _]%k_sleep0. unfold wk. rewrite !Hth.
    rewrite !decide_False by (intros ->; congruence). done.
  - intros u Hu. rewrite Hst. split; [by apply k_run0|]. intros Hd'. by destruct (Hd u Hd').
  - intros u. rewrite Hst. intros Hu Hn. destruct (k_queued0 u Hu) as [|(v & y & Hv & Hy)]; [done|by left|right].
    exists v, y. rewrite Hth, decide_False; [done|]. intros ->. congruence.
  - intros v y d. rewrite Hth, Hst. destruct (decide (v = t)) as [->|Hne]; [intros [= <-]; congruence|].
    intros Hv Hyd. destruct (k_hand0 v y d Hv Hyd) as (? & ? & ? & _). split_and!; try done.
    intros ->. apply Hne. by apply (k_hand_inj0 v t y th d).
  - intros v1 v2 y1 y2 d. rewrite !Hth.
    destruct (decide (v1 = t)) as [->|]; [intros [= <-]; congruence|].
    destruct (decide (v2 = t)) as [->|]; [intros _ [= <-]; congruence|]. by apply k_hand_inj0.
  - intros q y d Hq. change (runQueue s') with (runQueue s) in Hq. destruct (k_run0 q Hq) as [Hqs _].
    rewrite Hth, decide_False by (intros ->; congruence). intros Hy Hmk. right.
    destruct (k_work0 q y d Hq Hy Hmk) as [|(u & z & Hz1 & Hz2 & Hz3)]; [done|]. exists u.
    destruct (decide (u = t)) as [->|]; [exists x|exists z]; rewrite Hth; [by rewrite decide_True|by rewrite decide_False].
  - intros u y. rewrite Hth. destruct (decide (u = t)) as [->|]; [intros [= <-] _; rewrite Hxs; by intros []|].
    intros Hu _. by apply (k_word0 u).
  - intros u y. rewrite Hth. destruct (decide (u = t)) as [->|]; [intros [= <-]; congruence|by apply k_late0].
  - intros u y. rewrite Hth. destruct (decide (u = t)) as [->|]; [intros [= <-]; congruence|by apply k_marked0].
  - intros u. change (fakeLeaves s') with (f (fakeLeaves s)). rewrite Hf, Hth. destruct (decide (u = t)) as [->|]; [|apply k_fake0].
    split; [by exists x|]. by intros (y & [= <-] & ?).
  - intros u y. rewrite Hth. destruct (decide (u = t)) as [->|]; [by intros [= <-]|by apply k_fake_running0].
Qed.

End SchedInv.
End SchedInv.
