(* ===== verification/SchedProof.v ===== *)
(** The scheduler and the phase barrier together: every operation of the scheduler
    keeps their joint invariant and trips none of its assertions. *)
From Stdlib Require Import Sorted.
From S2P Require Import Prelude Effects Mtrand BarrierIface Scheduler SchedInv.

Module SchedProof.
Import BarrierIface Rand Scheduler SchedInv.

Section SchedProof.
Context {B G : Type} `{PhaseBarrier B} `{RandSource G}.
Context (numCores : nat) (schedQuantum : Z).
Context {BL : PhaseBarrierLaws B numCores} {GL : RandLaws G}.
Context (HN : Z.of_nat numCores < 2 ^ 32).
Notation Scheduler := (Scheduler (B := B) (G := G)).
Notation N := numCores.
Notation core := (core numCores).

(** ** The running threads *)

(** What the barrier cares about: a running thread's context, whether it is marked
    for sleep, its suppressed leave, and its pending hand-off. *)
Record run := mkRun { r_cid : nat; r_marked : bool; r_fake : option Z; r_hand : option Z }.

Definition run_of (th : ThreadInfo) : option run :=
  if decide (state th = RUNNING) then
    Some (mkRun (cid th) (markedForSleep th) (fakeLeave th) (handoffThread th))
  else None.
Definition rv (s : Scheduler) (t : Z) : option run := gidMap s !! t ≫= run_of.

Lemma rv_Some s t r :
  rv s t = Some r <-> exists th, gidMap s !! t = Some th /\ state th = RUNNING /\
    r = mkRun (cid th) (markedForSleep th) (fakeLeave th) (handoffThread th).
Proof.
  unfold rv, run_of. destruct (gidMap s !! t) as [th|]; cbn; [|naive_solver].
  destruct (decide (state th = RUNNING)); naive_solver.
Qed.

Lemma rv_put t th s u : rv (put t th s) u = if decide (u = t) then run_of th else rv s u.
Proof. unfold rv. rewrite lookup_put. by destruct (decide (u = t)). Qed.

Lemma rv_cid hc ht ho s t u r q : core hc ht ho s -> rv s t = Some r -> rv s u = Some q -> r_cid r = r_cid q -> t = u.
Proof.
  intros K (th & Ht & Hs & ->)%rv_Some (x & Hu & Hx & ->)%rv_Some Hc. cbn in Hc.
  assert (H1 : used s (cid th) t) by (apply (k_used _ _ _ _ _ K); exists th; split_and!; [done|done|by left]).
  assert (H2 : used s (cid th) u) by (apply (k_used _ _ _ _ _ K); exists x; split_and!; [done|done|by left]).
  by eapply used_inj.
Qed.

Lemma rv_range hc ht ho s t r : core hc ht ho s -> rv s t = Some r -> (r_cid r < N)%nat.
Proof. intros K (th & Ht & _ & ->)%rv_Some. by apply (k_range _ _ _ _ _ K t). Qed.

(** ** The joint invariant

    [ins] are the threads inside [sync], [V] is where the barrier has each context. *)
Record agrees (ins : gset Z) (r : Z -> option run) (V : nat -> turn) : Prop := {
  v_view c : (c < N)%nat -> V c <> Away <-> exists t x, r t = Some x /\ r_cid x = c;
  v_user t x : r t = Some x -> t ∉ ins -> V (r_cid x) = Turn \/ V (r_cid x) = Runs;
  v_hand t x d : r t = Some x -> r_hand x = Some d -> t ∈ ins /\ (V (r_cid x) = Turn \/ V (r_cid x) = Runs);
  v_ins t : t ∈ ins -> exists x, r t = Some x /\ r_marked x = false /\ r_fake x = None
}.

Record sys (ins : gset Z) (s : Scheduler) : Prop := {
  y_core : core None None None s;
  y_bar : bar_inv (bar s);
  y_phase : 0 <= curPhase s;
  y_agrees : agrees ins (rv s) (bar_view (bar s))
}.

Lemma agrees_ext ins r r' V V' :
  (forall t, r' t = r t) -> (forall c, V' c = V c) -> agrees ins r V -> agrees ins r' V'.
Proof.
  intros Hr HV []. split.
  - intros c Hc. rewrite HV. setoid_rewrite Hr. by apply v_view0.
  - intros t x. rewrite Hr, HV. apply v_user0.
  - intros t x d. rewrite Hr, HV. apply v_hand0.
  - intros t. rewrite Hr. apply v_ins0.
Qed.

(** Getting a turn keeps the agreement. *)
Lemma agrees_adv ins r V V' : (forall c, adv (V c) (V' c)) -> agrees ins r V -> agrees ins r V'.
Proof.
  intros HV [A1 A2 A3 A4].
  assert (Hup : forall c, V c = Turn \/ V c = Runs -> V' c = Turn \/ V' c = Runs).
  { intros c Hc. destruct (HV c) as [->|[_ ->]]; auto. }
  split; try done.
  - intros c Hc. rewrite <- A1 by done. destruct (HV c) as [->|[-> ->]]; [done|]. by split.
  - intros t x Hx Ht. apply Hup. by apply (A2 t).
  - intros t x d Hx Hd. destruct (A3 t x d Hx Hd) as [? ?]. split; [done|by apply Hup].
Qed.

(** ** The end of a phase *)

(** Only hand-offs change on the running threads. *)
Definition same_run (s s' : Scheduler) : Prop := forall t,
  match rv s t, rv s' t with
  | Some x, Some y => r_cid y = r_cid x /\ r_marked y = r_marked x /\ r_fake y = r_fake x
  | None, None => True
  | _, _ => False
  end.
(** The end of a phase changes no thread's state but a sleeper's. *)
Definition calm (s s' : Scheduler) : Prop :=
  forall t x, st s t = Some x -> x <> SLEEPING -> st s' t = Some x.
Definition same_but_hand (s s' : Scheduler) : Prop :=
  bar s' = bar s /\ curPhase s' = curPhase s /\ same_run s s' /\ calm s s'.

Lemma calm_refl s : calm s s.
Proof. by intros t x. Qed.

Lemma calm_trans s1 s2 s3 : calm s1 s2 -> calm s2 s3 -> calm s1 s3.
Proof. intros A1 A2 t x Ht Hx. apply A2; [by apply A1|done]. Qed.

Lemma calm_put s t th th' : gidMap s !! t = Some th -> state th' = state th \/ state th = SLEEPING -> calm s (put t th' s).
Proof.
  intros Ht Hs u x Hu Hx. rewrite st_put. destruct (decide (u = t)) as [->|]; [|done].
  unfold st in Hu. rewrite Ht in Hu. cbn in Hu. destruct Hs; congruence.
Qed.

Lemma same_run_eq (s s' : Scheduler) : (forall t, rv s' t = rv s t) -> same_run s s'.
Proof. intros Hr t. rewrite Hr. by destruct (rv s t). Qed.

Lemma same_run_trans (s1 s2 s3 : Scheduler) : same_run s1 s2 -> same_run s2 s3 -> same_run s1 s3.
Proof.
  intros A1 A2 t. specialize (A1 t). specialize (A2 t).
  destruct (rv s1 t), (rv s2 t), (rv s3 t); try done. destruct_and!. split_and!; congruence.
Qed.

Lemma sbh_refl s : same_but_hand s s.
Proof. split_and!; [done|done|by apply same_run_eq|apply calm_refl]. Qed.

Lemma sbh_trans s1 s2 s3 : same_but_hand s1 s2 -> same_but_hand s2 s3 -> same_but_hand s1 s3.
Proof.
  intros (A1 & A2 & A3 & A4) (B1 & B2 & B3 & B4). split_and!; [congruence|congruence| |].
  - by eapply same_run_trans.
  - by eapply calm_trans.
Qed.

Lemma remove_head {A} `{EqDecision A} (x : A) l : x ∉ l -> remove x (x :: l) = l.
Proof.
  intros Hx. unfold remove. rewrite filter_cons, decide_False by tauto.
  induction l as [|y l IH]; [done|]. rewrite filter_cons, decide_True by (intros ->; apply Hx; by left).
  f_equal. apply IH. intros ?. apply Hx. by right.
Qed.

Lemma remove_ne {A} `{EqDecision A} (x y : A) l : y ∈ l -> y <> x -> y ∈ remove x l.
Proof. rewrite elem_remove. by split. Qed.

Lemma tick_loop_ok q : forall avail s,
  core None None None s -> NoDup q -> (forall t, t ∈ q -> t ∈ runQueue s) ->
  (forall t x, rv s t = Some x -> r_marked x = false /\ r_fake x = None) ->
  (forall t x, rv s t = Some x -> r_cid x ∈ avail -> r_hand x = None) ->
  wsafe (tick_loop q avail) s (fun _ s' => core None None None s' /\ same_but_hand s s').
Proof.
  induction q as [|t q IH]; intros avail s K Hnd Hq Hmf Hh; cbn [tick_loop].
  { apply ws_ret. split; [done|apply sbh_refl]. }
  case_bool_decide as Hav; [apply ws_ret; split; [done|apply sbh_refl]|].
  apply NoDup_cons in Hnd as [Hnt Hnd].
  assert (Hrun : t ∈ runQueue s) by (apply Hq; by left).
  destruct (k_run _ _ _ _ _ K t Hrun) as [Hst _]. apply st_Some in Hst as (th & Hth & Hths).
  ws_step. unfold tick_thread. ws_step. eapply ws_get_thread; [done|]. cbn beta.
  destruct (first_context th avail) as [c|] eqn:Hf.
  - apply find_some_elem in Hf as [Hc Hm]. ws_steps.
    destruct (k_work _ _ _ _ _ K t th c Hrun Hth Hm) as [|(v & y & Hu & Hv & Hy)]; [done|].
    unfold used in Hu. rewrite Hu. cbn [curThread]. ws_step.
    assert (Hcid : cid y = c).
    { apply (k_used _ _ _ _ _ K) in Hu as (z & Hz & <- & _). by simplify_eq. }
    assert (Hrv : rv s v = Some (mkRun (cid y) (markedForSleep y) (fakeLeave y) (handoffThread y))) by (apply rv_Some; eauto).
    destruct (Hmf v _ Hrv) as [Hym Hyf]. cbn in Hym, Hyf.
    pose proof (Hh v _ Hrv) as Hyh. cbn in Hyh. rewrite Hcid in Hyh. specialize (Hyh Hc).
    eapply ws_upd_thread; [done|]. cbn beta. unfold remove_run. ws_steps.
    { apply bool_decide_true. exact Hrun. }
    pose proof (core_tick _ s t v y K Hrun Hv Hy Hyh Hyf Hym) as K'.
    set (s' := upd_run (remove t) (put v (set_handoff (Some t) y) s)) in *.
    assert (Hrv' : forall u, rv s' u = if decide (u = v) then
      Some (mkRun (cid y) (markedForSleep y) (fakeLeave y) (Some t)) else rv s u).
    { intros u. transitivity (rv (put v (set_handoff (Some t) y) s) u); [done|]. rewrite rv_put.
      destruct (decide (u = v)); [|done]. unfold run_of. cbn. by rewrite decide_True. }
    assert (Hsb : same_but_hand s s').
    { split_and!; [done|done| |].
      - intros u. rewrite Hrv'. destruct (decide (u = v)) as [->|]; [by rewrite Hrv|]. by destruct (rv s u).
      - exact (calm_put s v y (set_handoff (Some t) y) Hv (or_introl eq_refl)). }
    eapply ws_mono; [apply (IH (remove c avail) s' K' Hnd)|].
    + intros u Hu'. apply remove_ne; [apply Hq; by right|]. by intros ->.
    + intros u x. rewrite Hrv'. destruct (decide (u = v)) as [->|]; [|apply Hmf]. intros [= <-]. by cbn.
    + intros u x. rewrite Hrv'. destruct (decide (u = v)) as [->|Hne].
      * intros [= <-]. cbn. rewrite Hcid. by intros [_ ?]%elem_remove.
      * intros Hx [Hx' _]%elem_remove. by apply (Hh u).
    + intros _ s2 [K2 S2]. split; [done|]. by eapply sbh_trans.
  - ws_steps. apply IH; [done|done| |done|done]. intros u Hu. apply Hq. by right.
Qed.

Lemma sched_shuffle_ok i : forall v g, rand_ok g -> Z.of_nat i < 2 ^ 32 ->
  match shuffle i v g with Ok (_, g') => rand_ok g' | Fail e => e = NoFuel end.
Proof.
  induction i as [|i IH]; intros v g Hg Hi; cbn [shuffle]; [done|].
  destruct (randInt g (Z.of_nat (S i))) as [[j g1]|] eqn:E; [|done].
  apply randInt_range in E as [_ Hg1]; [|done|lia]. apply IH; [done|lia].
Qed.

Definition quiet (s : Scheduler) : Prop :=
  forall t x, rv s t = Some x -> r_marked x = false /\ r_fake x = None /\ r_hand x = None.

Lemma schedTick_ok s :
  core None None None s -> quiet s ->
  wsafe (schedTick numCores) s (fun _ s' => core None None None s' /\ same_but_hand s s').
Proof using HN.
  intros K Hq. unfold schedTick. ws_steps. cbn [id].
  pose proof (sched_shuffle_ok (N - 1) (seq 0 N) (rnd s) (k_rnd _ _ _ _ _ K) ltac:(lia)) as Hsh.
  apply ws_lift_safe. revert Hsh. destruct (shuffle _ _ _) as [[avail g]|e]; [|done]. intros Hg. ws_steps.
  apply (tick_loop_ok _ avail (upd_rnd g s)).
  - by apply core_rnd.
  - apply (k_run_nodup _ _ _ _ _ K).
  - done.
  - intros t x Hx. destruct (Hq t x Hx) as (? & ? & ?). done.
  - intros t x Hx _. destruct (Hq t x Hx) as (? & ? & ?). done.
Qed.

Lemma upd_phase_id (s : Scheduler) : upd_phase (curPhase s) s = s.
Proof. by destruct s. Qed.

Lemma rv_not_running s t th : gidMap s !! t = Some th -> state th <> RUNNING -> rv s t = None.
Proof. intros Ht Hs. unfold rv. rewrite Ht. cbn. unfold run_of. by rewrite decide_False. Qed.

Lemma lookup_upd_sleep f (s : Scheduler) : gidMap (upd_sleep f s) = gidMap s.
Proof. done. Qed.
Lemma rv_upd_sleep f (s : Scheduler) t : rv (upd_sleep f s) t = rv s t.
Proof. done. Qed.

Lemma put_put t x y (s : Scheduler) : put t x (put t y s) = put t x s.
Proof. unfold put, upd_threads. cbn. by rewrite insert_insert_eq. Qed.

(** A thread is woken up: its futex word is released. *)
Definition woken (b : bool) (th : ThreadInfo) : ThreadInfo := set_word 0 (set_needsJoin b th).

Lemma wakeup_wp t b th (s : Scheduler) (Q : unit -> Scheduler -> Prop) :
  gidMap s !! t = Some th -> futexWord th = 1 -> Q tt (put t (woken b th) s) -> wsafe (wakeup t b) s Q.
Proof.
  intros Ht Hw HQ. unfold wakeup. ws_step. eapply ws_upd_thread; [done|]. cbn beta. ws_step.
  eapply ws_get_thread; [by rewrite lookup_put, decide_True|]. cbn beta. cbn [futexWord set_needsJoin]. rewrite Hw. cbn [Z.eqb].
  eapply ws_upd_thread; [by rewrite lookup_put, decide_True|]. by rewrite put_put.
Qed.

Lemma wakeup_core (s : Scheduler) t th b :
  core None None None s -> gidMap s !! t = Some th -> state th <> QUEUED -> state th <> SLEEPING ->
  markedForSleep th = false -> core None None None (put t (woken b th) s).
Proof.
  intros K Ht Hq Hs Hm. eapply (core_update numCores); [exact K|exact Ht|try done..].
  - apply (k_range _ _ _ _ _ K t th Ht).
  - intros _ [?|?]; done.
  - cbn. congruence.
Qed.

(** The sleepers whose deadline is this phase are awake afterwards, the others sleep on. *)
Lemma wake_sleepers_ok q : forall s p,
  sleepQueue s = q -> core None None None (upd_phase p s) -> curPhase s = p + 1 -> 
  wsafe (wake_sleepers q) s (fun _ s' => core None None None (upd_phase p s') /\
    (bar s' = bar s /\ curPhase s' = curPhase s /\ (forall t, rv s' t = rv s t) /\ calm s s') /\
    (forall t, t ∈ sleepQueue s' -> p + 1 < wk s' t)).
Proof.
  induction q as [|t q IH]; intros s p Hq K Hp; cbn [wake_sleepers].
  { apply ws_ret. split; [done|]. split; [split_and!; (done || apply calm_refl)|]. rewrite Hq. by intros t ?%elem_of_nil. }
  assert (Hst : st s t = Some SLEEPING).
  { apply (k_sleep _ _ _ _ _ K t). cbn. rewrite Hq. by left. }
  apply st_Some in Hst as (th & Hth & Hs). ws_step. eapply ws_get_thread; [done|]. cbn beta. ws_steps.
  pose proof (k_late _ _ _ _ _ K t th Hth Hs) as Hlate. cbn in Hlate.
  pose proof (k_sorted _ _ _ _ _ K) as Hso. cbn in Hso. rewrite Hq in Hso.
  apply StronglySorted_inv in Hso as [_ Hso]. rewrite Forall_forall in Hso.
  destruct (Z.leb_spec (wakeupPhase th) (curPhase s)) as [Hle|Hgt].
  - assert (Hw : futexWord th = 1) by (apply (k_word _ _ _ _ _ K t); [done|done|by right]).
    assert (Hm : markedForSleep th = false).
    { destruct (markedForSleep th) eqn:Hm; [|done]. destruct (k_marked _ _ _ _ _ K t th Hth Hm). congruence. }
    ws_steps; [lia|]. eapply ws_upd_thread; [done|]. cbn beta. ws_step.
    apply (wakeup_wp _ _ (set_state BLOCKED th)); [by rewrite lookup_put, decide_True|done|]. rewrite put_put. ws_steps.
    assert (Hd : drop 1 (sleepQueue s) = remove t (sleepQueue s)).
    { pose proof (k_sleep_nodup _ _ _ _ _ K) as Hnd. cbn in Hnd. rewrite Hq in *.
      apply NoDup_cons in Hnd as [Hn _]. by rewrite remove_head. }
    pose proof (core_awake _ (upd_phase p s) t th (drop 1) K Hth Hs Hd) as K1.
    apply (wakeup_core _ t (set_state BLOCKED th) false) in K1; [|by rewrite lookup_upd_sleep, lookup_put, decide_True|done|done|done].
    set (s3 := upd_sleep _ _).
    assert (K3 : core None None None (upd_phase p s3)).
    { revert K1. unfold put, upd_sleep, upd_threads, s3. cbn. by rewrite insert_insert_eq. }
    eapply ws_mono.
    + apply (IH s3 p); [|exact K3|done]. unfold s3. cbn. by rewrite Hq.
    + cbn beta. intros _ s' (K' & (B' & P' & Hsb & C') & Hl). split; [done|]. split; [|done]. split; [by rewrite B'|].
      split; [by rewrite P'|]. split.
      2:{ eapply calm_trans; [|exact C'].
          exact (calm_put s t th (woken false (set_state BLOCKED th)) Hth (or_intror Hs)). }
      intros u. rewrite Hsb. unfold s3. rewrite rv_upd_sleep, rv_put.
      destruct (decide (u = t)) as [->|]; [|done]. rewrite (rv_not_running s t th) by (done || congruence). done.
  - ws_steps. split; [done|]. split; [split_and!; (done || apply calm_refl)|]. rewrite Hq. intros u Hu.
    assert (Hwt : wk s t = wakeupPhase th) by (unfold wk; by rewrite Hth).
    apply elem_of_cons in Hu as [->|Hu]; [rewrite Hwt; lia|]. specialize (Hso u Hu).
    change (wk (upd_phase p s)) with (wk s) in Hso. lia.
Qed.

Lemma callback_ok (s : Scheduler) :
  core None None None s -> quiet s -> 0 <= curPhase s < 2 ^ 64 - 1 ->
  wsafe (callback numCores schedQuantum) s (fun _ s' =>
    core None None None s' /\ bar s' = bar s /\ curPhase s' = curPhase s + 1 /\ same_run s s' /\ calm s s').
Proof using HN.
  intros K Hq Hp. unfold callback. ws_steps.
  { cbn [id]. rewrite (k_scheduled _ _ _ _ _ K). pose proof (used_count_le numCores s). lia. }
  cbn [id]. rewrite u64_id by (unfold in_u64; lia).
  assert (K0 : core None None None (upd_phase (curPhase s) (upd_phase (curPhase s + 1) s))).
  { change (core None None None (upd_phase (curPhase s) s)). by rewrite upd_phase_id. }
  eapply ws_mono; [apply (wake_sleepers_ok _ (upd_phase (curPhase s + 1) s) (curPhase s) eq_refl K0 eq_refl)|].
  cbn beta. intros _ s1 (K1 & (B1 & P1 & R1 & C1) & L1). cbn in B1, P1.
  assert (R : forall t, rv s1 t = rv s t) by (intros t; rewrite R1; done).
  assert (Q1 : quiet s1) by (intros t x; rewrite R; apply Hq).
  assert (K2 : core None None None s1).
  { rewrite <- (upd_phase_id s1), P1.
    change (core None None None (upd_phase (curPhase s + 1) (upd_phase (curPhase s) s1))).
    apply core_phase; [done| |].
    - intros t th Ht Hs. change (gidMap s1 !! t = Some th) in Ht.
      assert (Hin : t ∈ sleepQueue s1).
      { apply (k_sleep _ _ _ _ _ K1). split; [|done]. apply st_Some. by exists th. }
      specialize (L1 t Hin). unfold wk in L1. rewrite Ht in L1. exact L1.
    - intros t th Ht. destruct (markedForSleep th) eqn:Hm; [|done].
      destruct (k_marked _ _ _ _ _ K1 t th Ht Hm) as (Hs & _). rewrite <- Hm.
      by destruct (Q1 t (mkRun (cid th) (markedForSleep th) (fakeLeave th) (handoffThread th)) ltac:(apply rv_Some; eauto)). }
  assert (C : calm s s1) by (eapply calm_trans; [|exact C1]; by intros t x).
  assert (S1 : same_run s s1) by (apply same_run_eq; exact R).
  ws_steps. cbn [id]. case_bool_decide as Hrq; [apply ws_ret; split_and!; (done || congruence)|].
  destruct (_ =? 0); [|apply ws_ret; by split_and!].
  eapply ws_mono; [by apply schedTick_ok|]. cbn beta. intros _ s2 (K3 & B3 & P3 & R3 & C3).
  split; [done|]. split; [by rewrite B3|]. split; [by rewrite P3|]. split; [by eapply same_run_trans|by eapply calm_trans].
Qed.

(** ** Calls of the barrier *)

Lemma rv_bar b (s : Scheduler) t : rv (upd_bar b s) t = rv s t.
Proof. done. Qed.

Lemma on_bar_same f (s : Scheduler) b' (Q : unit -> Scheduler -> Prop) :
  f (bar s) = Ok b' -> bar_phases b' = bar_phases (bar s) -> Q tt (upd_bar b' s) ->
  wsafe (on_bar numCores schedQuantum f) s Q.
Proof.
  intros Hf Hp HQ. unfold on_bar. ws_steps. eapply ws_lift; [exact Hf|]. ws_steps. cbn [id].
  by rewrite bool_decide_true.
Qed.

(** Context [c] joins the barrier: its thread was just put to RUNNING. *)
Lemma on_bar_join_ok (s : Scheduler) c ins :
  core None None None s -> 0 <= curPhase s -> (c < N)%nat -> bar_inv (bar s) -> bar_view (bar s) c = Away ->
  agrees ins (rv s) (<[c := Turn]> (bar_view (bar s))) ->
  wsafe (on_bar numCores schedQuantum (bar_join c)) s (fun _ s' => sys ins s' /\ calm s s').
Proof.
  intros K Hp Hc Hi Hv HA. destruct (bar_join_ok c (bar s) Hi Hc Hv) as (b' & Hb & Hi' & Hph & Hvc & Hadv).
  eapply on_bar_same; [done|done|]. split; [|by intros ? ?]. split; [by apply core_bar|done|done|].
  eapply agrees_adv; [|exact HA]. intros x. cbn. destruct (decide (x = c)) as [->|Hne].
  - rewrite fn_lookup_insert. unfold adv. destruct Hvc; auto.
  - rewrite fn_lookup_insert_ne by done. by apply Hadv.
Qed.

(** Context [c] stops, at [w]; the phase may end. *)
Lemma on_bar_stop_ok f (s : Scheduler) c w ins :
  core None None None s -> 0 <= curPhase s < 2 ^ 64 - 1 -> w = Waits \/ w = Away ->
  stop_spec bar_inv bar_view c w (bar s) (f (bar s)) ->
  agrees ins (rv s) (<[c := w]> (bar_view (bar s))) ->
  wsafe (on_bar numCores schedQuantum f) s (fun _ s' => sys ins s' /\ calm s s').
Proof using HN.
  intros K Hp Hw Hstop HA. unfold on_bar. ws_steps. cbn [id]. apply ws_lift_safe.
  unfold stop_spec in Hstop. destruct (f (bar s)) as [b'|e]; [|done]. ws_steps.
  destruct Hstop as [Hi [(Hph & Hvc & Hadv)|(Hph & Hvc & Hnext)]].
  - rewrite bool_decide_true by done. apply ws_ret. split; [|by intros ? ?]. split; [by apply core_bar|done|exact (proj1 Hp)|].
    eapply agrees_adv; [|exact HA]. intros x. cbn. destruct (decide (x = c)) as [->|Hne].
    + rewrite fn_lookup_insert, Hvc. by left.
    + rewrite fn_lookup_insert_ne by done. by apply Hadv.
  - rewrite bool_decide_false by lia. set (V := <[c := w]> (bar_view (bar s))) in *.
    assert (HV : forall x, next (V x) (bar_view b' x)).
    { intros x. unfold V. destruct (decide (x = c)) as [->|Hne]; [by rewrite fn_lookup_insert|].
      rewrite fn_lookup_insert_ne by done. by apply Hnext. }
    assert (HVn : forall x, V x = Turn \/ V x = Runs -> False).
    { intros x Hx. destruct (HV x) as [[? _]|[? _]]; destruct Hx; congruence. }
    assert (Hins : forall t x, rv s t = Some x -> t ∈ ins).
    { intros t x Hx. destruct (decide (t ∈ ins)) as [|Hn]; [done|]. destruct (HVn (r_cid x)). by apply (v_user _ _ _ HA t x). }
    assert (Hq : quiet (upd_bar b' s)).
    { intros t x Hx. rewrite rv_bar in Hx. destruct (v_ins _ _ _ HA t (Hins t x Hx)) as (y & Hy & ? & ?).
      simplify_eq. split_and!; [done|done|]. destruct (r_hand x) as [d|] eqn:Hd; [|done].
      destruct (HVn (r_cid x)). by apply (v_hand _ _ _ HA t x d). }
    eapply ws_mono; [apply callback_ok; [by apply core_bar|done|done]|]. cbn beta.
    intros _ s' (K' & B' & P' & R' & C'). cbn in B', P'. rewrite <- B' in Hi, HV.
    split; [|eapply calm_trans; [|exact C']; by intros ? ?]. split; [done|done|lia|]. clear Hvc Hnext.
    assert (Hr : forall t x, rv s t = Some x -> exists y, rv s' t = Some y /\ r_cid y = r_cid x /\ r_marked y = r_marked x /\ r_fake y = r_fake x).
    { intros t x Hx. specialize (R' t). rewrite rv_bar, Hx in R'. destruct (rv s' t) as [y|]; [|done]. by exists y. }
    assert (Hr' : forall t y, rv s' t = Some y -> exists x, rv s t = Some x /\ r_cid y = r_cid x).
    { intros t y Hy. specialize (R' t). rewrite rv_bar, Hy in R'. destruct (rv s t) as [x|]; [|done]. exists x. tauto. }
    assert (Hup : forall t y, rv s' t = Some y -> bar_view (bar s') (r_cid y) = Turn \/ bar_view (bar s') (r_cid y) = Runs).
    { intros t y Hy. destruct (Hr' t y Hy) as (x & Hx & Hc).
      destruct (HV (r_cid y)) as [[Ha _]|[_ ?]]; [|done]. exfalso.
      pose proof (rv_range _ _ _ _ _ _ K Hx) as Hlt. rewrite Hc in Ha.
      refine (proj2 (v_view _ _ _ HA (r_cid x) Hlt) _ Ha). by exists t, x. }
    split.
    + intros x Hx. transitivity (V x <> Away).
      { destruct (HV x) as [[-> ->]|[-> [-> | ->]]]; by split. }
      rewrite (v_view _ _ _ HA x Hx). split.
      * intros (t & y & Hy & Hyc). destruct (Hr t y Hy) as (z & Hz & Hzc & _). exists t, z. split; [done|congruence].
      * intros (t & y & Hy & Hyc). destruct (Hr' t y Hy) as (z & Hz & Hzc). exists t, z. split; [done|congruence].
    + intros t y Hy _. by apply (Hup t).
    + intros t y d Hy _. split; [|by apply (Hup t)]. destruct (Hr' t y Hy) as (x & Hx & _). by apply (Hins t x).
    + intros t Ht. destruct (v_ins _ _ _ HA t Ht) as (x & Hx & ? & ?). destruct (Hr t x Hx) as (y & ? & ? & ? & ?).
      exists y. split_and!; congruence.
Qed.

End SchedProof.
End SchedProof.
