(* ===== verification/SchedOps.v ===== *)
(** How each operation of the scheduler changes the running threads and the
    barrier's view of their contexts, and the joint invariant after it. *)
From S2P Require Import Prelude Effects Mtrand BarrierIface Scheduler SchedInv SchedProof.

Module SchedOps.
Import BarrierIface Rand Scheduler SchedInv SchedProof.

(** ** Changes of the agreement *)

Definition uniq (r : Z -> option run) (t : Z) (c : nat) : Prop :=
  forall u x, r u = Some x -> r_cid x = c -> u = t.

Section agreement.
Context (N : nat).
Notation agrees := (agrees N).
Implicit Types (ins : gset Z) (r : Z -> option run) (V : nat -> turn).

Lemma agrees_off ins r r' V t x :
  agrees ins r V -> r t = Some x -> uniq r t (r_cid x) ->
  (forall u, r' u = if decide (u = t) then None else r u) ->
  agrees (ins ∖ {[t]}) r' (<[r_cid x := Away]> V).
Proof.
  intros [A1 A2 A3 A4] Hx Hun Hr.
  assert (Hne : forall u y, r' u = Some y -> u <> t /\ r u = Some y /\ r_cid y <> r_cid x).
  { intros u y. rewrite Hr. destruct (decide (u = t)) as [->|Hu]; [done|]. intros Hy. split_and!; [done|done|].
    intros Hc. by apply Hu, (Hun u y). }
  split.
  - intros c Hc. destruct (decide (c = r_cid x)) as [->|Hcx].
    + rewrite fn_lookup_insert. split; [done|]. intros (u & y & Hy & Hyc). by destruct (Hne u y Hy) as (_ & _ & ?).
    + rewrite fn_lookup_insert_ne by done. rewrite A1 by done. split; intros (u & y & Hy & Hyc).
      * exists u, y. split; [|done]. rewrite Hr, decide_False; [done|]. intros ->. congruence.
      * destruct (Hne u y Hy) as (_ & ? & _). by exists u, y.
  - intros u y Hy Hu. destruct (Hne u y Hy) as (? & Hy' & ?). rewrite fn_lookup_insert_ne by done.
    apply (A2 u); [done|]. set_solver.
  - intros u y d Hy Hd. destruct (Hne u y Hy) as (? & Hy' & ?). rewrite fn_lookup_insert_ne by done.
    destruct (A3 u y d Hy' Hd). split; [set_solver|done].
  - intros u Hu. destruct (A4 u) as (y & Hy & ? & ?); [set_solver|]. exists y. rewrite Hr, decide_False by set_solver. done.
Qed.

Lemma agrees_on ins r r' V t x w :
  agrees ins r V -> r t = None -> (r_cid x < N)%nat -> r_hand x = None -> V (r_cid x) = Away ->
  w = Turn \/ w = Runs ->
  (forall u, r' u = if decide (u = t) then Some x else r u) ->
  agrees ins r' (<[r_cid x := w]> V).
Proof.
  intros [A1 A2 A3 A4] Ht Hlt Hh HV Hw Hr.
  assert (Hne : forall u y, r u = Some y -> r_cid y <> r_cid x).
  { intros u y Hy Hc. apply (A1 _ Hlt); [|done]. by exists u, y. }
  split.
  - intros c Hc. destruct (decide (c = r_cid x)) as [->|Hcx].
    + rewrite fn_lookup_insert. split; [intros _; exists t, x; by rewrite Hr, decide_True|]. intros _. by destruct Hw as [->| ->].
    + rewrite fn_lookup_insert_ne by done. rewrite A1 by done. split; intros (u & y & Hy & Hyc).
      * exists u, y. split; [|done]. rewrite Hr, decide_False; [done|]. intros ->. congruence.
      * rewrite Hr in Hy. destruct (decide (u = t)); [simplify_eq|by exists u, y].
  - intros u y. rewrite Hr. destruct (decide (u = t)) as [->|].
    + intros [= <-] _. by rewrite fn_lookup_insert.
    + intros Hy Hu. rewrite fn_lookup_insert_ne by (apply not_eq_sym; eauto). by apply (A2 u).
  - intros u y d. rewrite Hr. destruct (decide (u = t)) as [->|]; [intros [= <-]; congruence|].
    intros Hy Hd. rewrite fn_lookup_insert_ne by (apply not_eq_sym; eauto). by apply (A3 u y d).
  - intros u Hu. destruct (A4 u Hu) as (y & Hy & ? & ?). exists y. rewrite Hr, decide_False by (intros ->; congruence). done.
Qed.

Lemma agrees_sync ins r V t x :
  agrees ins r V -> r t = Some x -> uniq r t (r_cid x) -> t ∉ ins -> r_marked x = false -> r_fake x = None ->
  agrees ({[t]} ∪ ins) r (<[r_cid x := Waits]> V).
Proof.
  intros [A1 A2 A3 A4] Hx Hun Ht Hm Hf.
  split.
  - intros c Hc. destruct (decide (c = r_cid x)) as [->|Hcx].
    + rewrite fn_lookup_insert. split; [by exists t, x|done].
    + rewrite fn_lookup_insert_ne by done. by apply A1.
  - intros u y Hy Hu. rewrite fn_lookup_insert_ne; [apply (A2 u); [done|set_solver]|].
    intros Hc. apply Hu. rewrite (Hun u y Hy (eq_sym Hc)). set_solver.
  - intros u y d Hy Hd. destruct (A3 u y d Hy Hd) as [Hu Hv]. split; [set_solver|].
    rewrite fn_lookup_insert_ne; [done|]. intros Hc. by rewrite (Hun u y Hy (eq_sym Hc)) in Hu.
  - intros u [->%elem_of_singleton|Hu]%elem_of_union; [by exists x|by apply A4].
Qed.

Lemma agrees_unsync ins r V t x :
  agrees ins r V -> r t = Some x -> r_hand x = None -> V (r_cid x) = Turn \/ V (r_cid x) = Runs ->
  agrees (ins ∖ {[t]}) r V.
Proof.
  intros [A1 A2 A3 A4] Hx Hh Hv. split; [done| | |].
  - intros u y Hy Hu. destruct (decide (u = t)) as [->|]; [by simplify_eq|]. apply (A2 u); [done|set_solver].
  - intros u y d Hy Hd. destruct (A3 u y d Hy Hd). split; [|done].
    assert (u <> t) by (intros ->; congruence). set_solver.
  - intros u Hu. apply A4. set_solver.
Qed.

Lemma agrees_upd ins r r' V t x y :
  agrees ins r V -> r t = Some x -> t ∉ ins -> r_cid y = r_cid x -> r_hand y = r_hand x ->
  (forall u, r' u = if decide (u = t) then Some y else r u) ->
  agrees ins r' V.
Proof.
  intros [A1 A2 A3 A4] Hx Ht Hc Hh Hr. split.
  - intros c Hlt. rewrite A1 by done. split; intros (u & z & Hz & Hzc).
    + destruct (decide (u = t)) as [->|Hu].
      * exists t, y. rewrite Hr, decide_True by done. split; congruence.
      * exists u, z. by rewrite Hr, decide_False.
    + rewrite Hr in Hz. destruct (decide (u = t)) as [->|]; [exists t, x; split; congruence|by exists u, z].
  - intros u z. rewrite Hr. destruct (decide (u = t)) as [->|]; [intros [= <-]; rewrite Hc; by apply A2|by apply A2].
  - intros u z d. rewrite Hr. destruct (decide (u = t)) as [->|]; [|by apply A3].
    intros [= <-]. rewrite Hh, Hc. by apply (A3 t x d).
  - intros u Hu. destruct (A4 u Hu) as (z & Hz & ? & ?). exists z. rewrite Hr, decide_False by (intros ->; congruence). done.
Qed.

(** A context changes hands while it runs. *)
Lemma agrees_swap ins r r' V t x i y :
  agrees ins r V -> r t = Some x -> uniq r t (r_cid x) -> r i = None -> r_cid y = r_cid x -> r_hand y = None ->
  (r_cid x < N)%nat -> V (r_cid x) = Runs ->
  (forall u, r' u = if decide (u = i) then Some y else if decide (u = t) then None else r u) ->
  agrees (ins ∖ {[t]}) r' V.
Proof.
  intros HA Hx Hun Hi Hc Hh Hlt HV Hr.
  apply (agrees_ext N _ r' r' (<[r_cid y := Runs]> (<[r_cid x := Away]> V)) V); [done| |].
  - intros c. rewrite Hc. destruct (decide (c = r_cid x)) as [->|]; [by rewrite fn_lookup_insert|].
    by rewrite !fn_lookup_insert_ne.
  - eapply (agrees_on _ (fun u => if decide (u = t) then None else r u)); [by eapply agrees_off| | |done| |by right|exact Hr].
    + by destruct (decide (i = t)).
    + by rewrite Hc.
    + by rewrite Hc, fn_lookup_insert.
Qed.
End agreement.

Section ops.
Context {B G : Type} `{PhaseBarrier B} `{RandSource G}.
Context (numCores : nat) (schedQuantum : Z).
Context {BL : PhaseBarrierLaws B numCores} {GL : RandLaws G}.
Context (HN : Z.of_nat numCores < 2 ^ 32).
Notation Scheduler := (Scheduler (B := B) (G := G)).
Notation N := numCores.
Notation core := (core numCores).
Notation sys := (sys numCores).
Implicit Types s : Scheduler.

(** Nothing the barrier cares about changes. *)
Definition still (s s' : Scheduler) : Prop :=
  bar s' = bar s /\ curPhase s' = curPhase s /\ forall t, rv s' t = rv s t.

Lemma rv_uniq hc ht ho s t x : core hc ht ho s -> rv s t = Some x -> uniq (rv s) t (r_cid x).
Proof. intros K Hx u y Hy Hc. by eapply rv_cid. Qed.

Lemma rv_running s t th :
  gidMap s !! t = Some th -> state th = RUNNING ->
  rv s t = Some (mkRun (cid th) (markedForSleep th) (fakeLeave th) (handoffThread th)).
Proof. intros. apply rv_Some. eauto. Qed.

Lemma mask_lt hc ht ho s t th c : core hc ht ho s -> gidMap s !! t = Some th -> mask_at th c = true -> (c < N)%nat.
Proof.
  intros K Ht Hm. destruct (k_range _ _ _ _ _ K t th Ht) as [_ Hl]. unfold mask_at in Hm.
  destruct (mask th !! c) eqn:E; [|done]. apply lookup_lt_Some in E. lia.
Qed.

(** A context its thread can be taken off: nobody in the run queue may use it. *)
Lemma out_no_work s o oth c :
  core None None None s -> gidMap s !! o = Some oth -> state oth = OUT -> cid oth = c ->
  forall q y, q ∈ runQueue s -> gidMap s !! q = Some y -> mask_at y c = false.
Proof.
  intros K Ho Hs Hc q y Hq Hy. destruct (mask_at y c) eqn:Hm; [|done].
  destruct (k_work _ _ _ _ _ K q y c Hq Hy Hm) as [|(u & z & Hu & Hz & Hzs)]; [done|].
  assert (Hoc : used s c o) by (apply (k_used _ _ _ _ _ K); exists oth; split_and!; [done|done|by right]).
  rewrite (used_inj _ _ _ _ Hu Hoc) in Hz. congruence.
Qed.

(** Whom a free context goes to. *)
Lemma schedContext_wp c (s : Scheduler) (Q : option Z -> Scheduler -> Prop) :
  (forall i y, i ∈ runQueue s -> gidMap s !! i = Some y -> mask_at y c = true -> Q (Some i) (upd_run (remove i) s)) ->
  ((forall q y, q ∈ runQueue s -> gidMap s !! q = Some y -> mask_at y c = false) -> Q None s) ->
  wsafe (schedContext c) s Q.
Proof.
  intros H1 H2. unfold schedContext. ws_steps. cbn [id]. unfold first_thread.
  destruct (List.find _ _) as [i|] eqn:E.
  - apply find_some_elem in E as [Hi Hm]. unfold runs_on in Hm. destruct (gidMap s !! i) as [y|] eqn:Hy; [|done].
    ws_steps. unfold remove_run. ws_steps; [by apply bool_decide_true|]. eauto.
  - ws_steps. apply H2. intros q y Hq Hy. pose proof (find_none_elem _ _ q E Hq) as Hf. unfold runs_on in Hf. by rewrite Hy in Hf.
Qed.

(** What [schedThread] finds: a context that is now idle, or every context the thread may
    use has a running thread. *)
Lemma schedThread_ok t th s :
  core None (Some t) None s -> gidMap s !! t = Some th ->
  ~ on_context th ->
  wsafe (schedThread numCores t) s (fun r s' =>
    match r with
    | Some c => core (Some c) (Some t) None s' /\ idle s' c /\ (c < N)%nat /\ mask_at th c = true /\
        gidMap s' !! t = Some th /\ still s s' /\ (forall u x, rv s u = Some x -> r_cid x <> c)
    | None => s' = s /\ forall c, mask_at th c = true ->
        exists u z, used s c u /\ gidMap s !! u = Some z /\ state z = RUNNING
    end).
Proof using HN.
  intros K Ht Hon. unfold schedThread. ws_step. eapply ws_get_thread; [done|]. cbn beta. ws_step.
  apply ws_require; [apply bool_decide_true; apply (k_range _ _ _ _ _ K t th Ht)|]. cbn beta. ws_steps. cbn [id].
  assert (Hfree : forall c, c ∈ freeList s -> mask_at th c = true ->
    wsafe (remove_free c ≫= fun _ => mret (Some c)) s (fun r s' =>
    match r with
    | Some c => core (Some c) (Some t) None s' /\ idle s' c /\ (c < N)%nat /\ mask_at th c = true /\
        gidMap s' !! t = Some th /\ still s s' /\ (forall u x, rv s u = Some x -> r_cid x <> c)
    | None => s' = s /\ forall c, mask_at th c = true ->
        exists u z, used s c u /\ gidMap s !! u = Some z /\ state z = RUNNING
    end)).
  { intros c Hc Hm. unfold remove_free. ws_steps; [by apply bool_decide_true|].
    pose proof Hc as Hc'. apply (k_free _ _ _ _ _ K) in Hc' as (Hlt & Hi & _).
    split; [by apply core_remove_free|]. split_and!; try done.
    intros u x (z & Hz & Hzs & ->)%rv_Some Hcid. cbn in Hcid. apply (idle_used s c u Hi).
    apply (k_used _ _ _ _ _ K). exists z. split_and!; [done|done|by left]. }
  assert (Hcf : forall c, (c < N)%nat -> idle s c -> c ∈ freeList s) by (intros c Hlt Hi; by apply (k_free _ _ _ _ _ K)).
  destruct (bool_decide _ && _) eqn:E.
  { apply andb_true_iff in E as [E1%bool_decide_eq_true Hm]. apply Hfree; [|done].
    apply Hcf; [by apply (k_range _ _ _ _ _ K t)|]. destruct (k_form _ _ _ _ _ K (cid th)) as [|[u Hu]]; [done|].
    unfold used in Hu. rewrite Hu in E1. done. }
  destruct (first_context th (freeList s)) as [c|] eqn:Ef.
  { apply find_some_elem in Ef as [Hc Hm]. by apply Hfree. }
  destruct (first_out (gidMap s) th (outQueue s)) as [o|] eqn:Eo.
  - apply find_some_elem in Eo as [Ho Hm]. pose proof Ho as Ho'. apply (k_out _ _ _ _ _ K) in Ho' as [Hos _].
    apply st_Some in Hos as (oth & Hoth & Hos). rewrite Hoth in Hm. ws_step. eapply ws_get_thread; [done|]. cbn beta.
    unfold remove_out. ws_steps; [by apply bool_decide_true|].
    set (s1 := upd_out (remove o) s). assert (K1 : core None (Some t) (Some o) s1) by (by apply core_remove_out).
    assert (Hot : o <> t) by (intros ->; simplify_eq; apply Hon; by right).
    assert (Hclean := not_running_clean _ _ _ _ _ o oth K Hoth ltac:(congruence)). destruct Hclean as (C1 & C2 & C3).
    assert (Hu : used s (cid oth) o) by (apply (k_used _ _ _ _ _ K); exists oth; split_and!; [done|done|by right]).
    eapply (deschedule_wp o (cid oth) oth); [done|by right|done|done|by left|]. ws_steps.
    assert (Hg : forall u, gidMap (take_off o (cid oth) (set_state BLOCKED oth) s1) !! u =
      if decide (u = o) then Some (set_state BLOCKED oth) else gidMap s !! u) by (intros u; apply (lookup_put o _ s)).
    split_and!.
    + eapply take_off_core; try done; [by right|congruence|by right|by left].
    + unfold idle. cbn. by rewrite fn_lookup_insert.
    + apply (k_range _ _ _ _ _ K o oth Hoth).
    + done.
    + rewrite Hg, decide_False by done. done.
    + split; [done|]. split; [done|]. intros u. unfold rv. rewrite Hg. destruct (decide (u = o)) as [->|]; [|done]. rewrite Hoth. cbn.
      unfold run_of. cbn. rewrite decide_False by done. by rewrite decide_False by congruence.
    + intros u x (z & Hz & Hzs & ->)%rv_Some Hcid. cbn in Hcid.
      assert (Huz : used s (cid oth) u) by (apply (k_used _ _ _ _ _ K); exists z; split_and!; [done|done|by left]).
      rewrite (used_inj _ _ _ _ Hu Huz) in Hoth. congruence.
  - ws_steps. split; [done|]. intros c Hm. pose proof (mask_lt _ _ _ _ _ _ _ K Ht Hm) as Hlt.
    destruct (k_form _ _ _ _ _ K c) as [Hi|[u Hu]].
    { exfalso. pose proof (find_none_elem _ _ c Ef (Hcf c Hlt Hi)). congruence. }
    pose proof Hu as Hu'. apply (k_used _ _ _ _ _ K) in Hu' as (z & Hz & Hzc & [Hzs|Hzs]); [by exists u, z|].
    exfalso. assert (Ho : u ∈ outQueue s) by (apply (k_out _ _ _ _ _ K); split; [by apply st_Some; exists z|done]).
    pose proof (find_none_elem _ _ u Eo Ho) as Hf. cbn in Hf. rewrite Hz, Hzc in Hf. congruence.
Qed.

Lemma lookup_put_on t c th s u :
  gidMap (put_on t c th s) !! u = if decide (u = t) then Some (set_cid c (set_state RUNNING th)) else gidMap s !! u.
Proof. exact (lookup_put t _ s u). Qed.
Lemma lookup_take_off t c th s u :
  gidMap (take_off t c th s) !! u = if decide (u = t) then Some th else gidMap s !! u.
Proof. exact (lookup_put t _ s u). Qed.

(** A free or freed context goes to thread [i], which waits for it. *)
Lemma hand_context_ok i c s y :
  core (Some c) (Some i) None s -> gidMap s !! i = Some y -> state y = QUEUED -> futexWord y = 1 ->
  idle s c -> (c < N)%nat ->
  wsafe (hand_context i c) s (fun _ s' => core None None None s' /\ bar s' = bar s /\ curPhase s' = curPhase s /\
    (forall u, gidMap s' !! u = if decide (u = i) then Some (woken false (set_cid c (set_state RUNNING y))) else gidMap s !! u)).
Proof using HN.
  intros K Hi Hs Hw Hc Hlt. unfold hand_context. ws_steps.
  eapply (schedule_wp i c y); [done|by auto|done|].
  pose proof (put_on_core numCores HN s i y c K Hi Hlt Hc ltac:(auto)) as K1.
  assert (Hi1 : gidMap (put_on i c y s) !! i = Some (set_cid c (set_state RUNNING y))) by (by rewrite lookup_put_on, decide_True).
  eapply wakeup_wp; [exact Hi1|done|].
  destruct (not_running_clean _ _ _ _ _ i y K Hi ltac:(congruence)) as (_ & _ & Hm).
  split_and!; [by apply wakeup_core|done|done|]. intros u. rewrite lookup_put.
  destruct (decide (u = i)) as [->|Hne]; [done|]. by rewrite lookup_put_on, decide_False.
Qed.

Lemma rv_woken c y : markedForSleep y = false -> fakeLeave y = None -> handoffThread y = None ->
  run_of (woken false (set_cid c (set_state RUNNING y))) = Some (mkRun c false None None).
Proof. intros Hm Hf Hh. unfold run_of. cbn. by rewrite decide_True, Hm, Hf, Hh. Qed.

(** A thread that finds no context waits in the run queue. *)
Lemma wait_in_queue_ok t th s :
  core None (Some t) None s -> gidMap s !! t = Some th -> state th = QUEUED ->
  (forall c, mask_at th c = true -> exists u z, used s c u /\ gidMap s !! u = Some z /\ state z = RUNNING) ->
  wsafe (push_run t ≫= fun _ => waitForContext t) s (fun _ s' => core None None None s' /\ still s s').
Proof.
  intros K Ht Hs Hm. unfold push_run, unqueued, waitForContext. ws_steps.
  { cbn [id]. assert (Hst : st s t = Some QUEUED) by (unfold st; rewrite Ht; cbn; congruence).
    rewrite (on_queue_false numCores None (Some t) None s t); try done. congruence. }
  eapply ws_upd_thread; [done|]. cbn beta.
  assert (Hclean := not_running_clean _ _ _ _ _ t th K Ht ltac:(congruence)). destruct Hclean as (C1 & C2 & C3).
  assert (K1 : core None (Some t) None (put t (set_word 1 th) s)).
  { eapply (core_update numCores); [exact K|exact Ht|try done..].
    - apply (k_range _ _ _ _ _ K t th Ht).
    - cbn. congruence. }
  split.
  - eapply (core_push_run numCores _ _ _ t (set_word 1 th)) in K1; [exact K1|by rewrite lookup_put, decide_True|done|done|].
    intros c Hc. right. destruct (Hm c Hc) as (u & z & Hu & Hz & Hzs). exists u, z.
    rewrite lookup_put, decide_False; [done|]. intros ->. simplify_eq. congruence.
  - split; [done|]. split; [done|]. intros u.
    transitivity (rv (put t (set_word 1 th) s) u); [done|]. rewrite rv_put. destruct (decide (u = t)) as [->|]; [|done].
    rewrite (rv_not_running s t th) by (done || congruence). unfold run_of. cbn. by rewrite decide_False by congruence.
Qed.

(** A thread that found a context joins the barrier there. *)
Lemma place_ok t th c ins s :
  core (Some c) (Some t) None s -> gidMap s !! t = Some th ->
  state th = STARTED \/ state th = BLOCKED \/ state th = QUEUED ->
  idle s c -> (c < N)%nat -> (forall u x, rv s u = Some x -> r_cid x <> c) ->
  bar_inv (bar s) -> 0 <= curPhase s -> agrees N ins (rv s) (bar_view (bar s)) ->
  wsafe (schedule t c ≫= fun _ => on_bar numCores schedQuantum (bar_join c)) s (fun _ s' => sys ins s').
Proof using HN.
  intros K Ht Hs Hi Hlt Hno Hbi Hp HA. ws_steps. eapply (schedule_wp t c th); [done|done|done|].
  assert (Hnr : state th <> RUNNING) by (destruct Hs as [->|[->| ->]]; done).
  assert (Haway : bar_view (bar s) c = Away).
  { destruct (decide (bar_view (bar s) c = Away)) as [|Hne]; [done|]. apply (v_view _ _ _ _ HA c Hlt) in Hne as (u & x & Hx & Hc).
    by destruct (Hno u x Hx). }
  destruct (not_running_clean _ _ _ _ _ t th K Ht Hnr) as (C1 & C2 & C3).
  eapply ws_mono.
  - apply (on_bar_join_ok N schedQuantum _ c ins); [by apply (put_on_core numCores HN)|done|done|done|done|].
    apply (agrees_on N ins (rv s) _ (bar_view (bar s)) t (mkRun c false None None) Turn); [done| |done|done|done|by left|].
    + by apply (rv_not_running s t th).
    + intros u. transitivity (rv (put t (set_cid c (set_state RUNNING th)) s) u); [done|]. rewrite rv_put.
      destruct (decide (u = t)); [|done]. unfold run_of. cbn. by rewrite decide_True, C1, C2, C3.
  - by intros _ s' [? _].
Qed.

Lemma sys_still ins s s' : sys ins s -> core None None None s' -> still s s' -> sys ins s'.
Proof.
  intros [K Hb Hp HA] K' (Eb & Ep & Er). split; [done|by rewrite Eb|by rewrite Ep|].
  rewrite Eb. eapply agrees_ext; [exact Er|done|exact HA].
Qed.

(** ** Leaving *)

(** [s1] is [s] with thread [t] off context [c]. *)
Definition off_context (t : Z) (s s1 : Scheduler) : Prop :=
  bar s1 = bar s /\ curPhase s1 = curPhase s /\ forall u, rv s1 u = if decide (u = t) then None else rv s u.

Lemma leave_free_ok t x ins s s1 :
  sys ins s -> curPhase s < 2 ^ 64 - 1 -> rv s t = Some x -> t ∉ ins -> bar_view (bar s) (r_cid x) = Runs ->
  core None None None s1 -> off_context t s s1 ->
  wsafe (on_bar numCores schedQuantum (bar_leave (r_cid x))) s1 (fun _ s' => sys ins s' /\ calm s1 s').
Proof using HN.
  intros [K Hb Hp HA] Hp' Hx Ht Hv K1 (Eb & Ep & Er).
  apply (on_bar_stop_ok N schedQuantum HN _ s1 (r_cid x) Away); [done|rewrite Ep; lia|by right| |].
  - rewrite Eb. apply bar_leave_ok; [done| |done]. exact (rv_range _ _ _ _ _ _ _ K Hx).
  - rewrite Eb. assert (Hins : ins = ins ∖ {[t]}) by set_solver. rewrite Hins.
    eapply agrees_off; [done|done|by eapply rv_uniq|done].
Qed.

Lemma push_free_wp c s (Q : unit -> Scheduler -> Prop) ht :
  core (Some c) ht None s -> idle s c -> (c < N)%nat ->
  (forall q y, q ∈ runQueue s -> gidMap s !! q = Some y -> mask_at y c = false) ->
  (core None ht None (upd_free (fun q => q ++ [c]) s) -> Q tt (upd_free (fun q => q ++ [c]) s)) ->
  wsafe (push_free c) s Q.
Proof.
  intros K Hi Hlt Hno HQ. unfold push_free. ws_steps.
  - cbn [id]. rewrite bool_decide_false; [done|]. rewrite (k_free _ _ _ _ _ K). tauto.
  - apply HQ. by apply core_push_free.
Qed.

Lemma leave_hand_ok t x i y ins s s1 :
  sys ins s -> rv s t = Some x -> bar_view (bar s) (r_cid x) = Runs ->
  core (Some (r_cid x)) (Some i) None s1 -> gidMap s1 !! i = Some y -> state y = QUEUED -> futexWord y = 1 ->
  idle s1 (r_cid x) -> off_context t s s1 -> t <> i ->
  wsafe (hand_context i (r_cid x)) s1 (fun _ s' => sys (ins ∖ {[t]}) s' /\
    forall u, u <> i -> gidMap s' !! u = gidMap s1 !! u).
Proof using HN.
  intros [K Hb Hp HA] Hx Hv K1 Hy Hys Hyw Hi Hoff Hne. pose proof Hoff as (Eb & Ep & Er).
  pose proof (rv_range _ _ _ _ _ _ _ K Hx) as Hlt.
  eapply ws_mono; [by eapply hand_context_ok|]. cbn beta. intros _ s' (K' & Eb' & Ep' & Eg).
  destruct (not_running_clean _ _ _ _ _ i y K1 Hy ltac:(congruence)) as (C1 & C2 & C3).
  rewrite Eb in Eb'. rewrite Ep in Ep'.
  split; [|by intros u Hu; rewrite Eg, decide_False].
  split; [done|by rewrite Eb'|by rewrite Ep'|]. rewrite Eb'.
  eapply (agrees_swap N ins _ _ _ t x i (mkRun (r_cid x) false None None)); [done|done|by eapply rv_uniq| |done|done|done|done|].
  - transitivity (rv s1 i); [by rewrite Er, decide_False by done|]. by apply (rv_not_running s1 i y); [|congruence].
  - intros u. unfold rv at 1. rewrite Eg. destruct (decide (u = i)) as [->|]; [by apply rv_woken|]. apply Er.
Qed.

(** A thread in simulated code: on its context, its barrier turn taken. *)
Record runs (ins : gset Z) (s : Scheduler) (t : Z) (th : ThreadInfo) (c : nat) : Prop := {
  n_thread : gidMap s !! t = Some th;
  n_running : state th = RUNNING;
  n_cid : cid th = c;
  n_ins : t ∉ ins;
  n_turn : bar_view (bar s) c = Runs;
  n_fake : fakeLeave th = None
}.

Lemma runs_used ins s t th c : sys ins s -> runs ins s t th c -> used s c t.
Proof. intros Y [Ht Hs Hc _ _ _]. apply (k_used _ _ _ _ _ (y_core _ _ _ Y)). exists th. split_and!; [done|done|by left]. Qed.

Lemma runs_hand ins s t th c : sys ins s -> runs ins s t th c -> handoffThread th = None.
Proof.
  intros Y [Ht Hs Hc Hi _ _]. destruct (handoffThread th) as [d|] eqn:Hd; [|done].
  destruct (v_hand _ _ _ _ (y_agrees _ _ _ Y) t _ d (rv_running s t th Ht Hs) Hd). done.
Qed.

(** The thread that left is off its context, for a while or until it is scheduled. *)
Definition left_as (t : Z) (th : ThreadInfo) (s' : Scheduler) : Prop :=
  markedForSleep th = false -> st s' t = Some BLOCKED \/ st s' t = Some OUT.

Lemma left_calm t th s s' : left_as t th s -> calm s s' -> left_as t th s'.
Proof. intros Hl Hc Hm. destruct (Hl Hm) as [Hs|Hs]; [left|right]; by apply (Hc t _ Hs). Qed.

Lemma off_take_off t c x th s s0 :
  gidMap s !! t = Some th -> x <> RUNNING -> bar s = bar s0 -> curPhase s = curPhase s0 ->
  (forall u, u <> t -> rv s u = rv s0 u) -> off_context t s0 (take_off t c (set_state x th) s).
Proof.
  intros Ht Hx Hb Hp Hr. split_and!; [done|done|]. intros u.
  transitivity (rv (put t (set_state x th) s) u); [done|]. rewrite rv_put.
  destruct (decide (u = t)) as [->|Hne]; [|by apply Hr]. unfold run_of. by rewrite decide_False.
Qed.

(** The context goes to the first waiting thread that may use it; [t] leaves it blocked. *)
Lemma leave_blocked_hand_ok ins s t th c i y :
  sys ins s -> runs ins s t th c -> markedForSleep th = false ->
  i ∈ runQueue s -> gidMap s !! i = Some y -> state y = QUEUED ->
  wsafe (deschedule t c BLOCKED ≫= fun _ => hand_context i c) (upd_run (remove i) s)
    (fun _ s' => sys ins s' /\ left_as t th s').
Proof using HN.
  intros Y R Hm Hi Hy Hys. pose proof Y as [K Hb Hp HA]. pose proof R as [Ht Hs Hc Hn Hv Hf].
  assert (Hne : t <> i) by (intros ->; congruence).
  ws_steps. eapply (deschedule_wp t c th); [done|by left|exact (runs_used ins s t th c Y R)|done|by left|].
  set (s1 := take_off _ _ _ _).
  assert (K1 : core (Some c) (Some i) None s1).
  { eapply take_off_core; [done|by apply core_remove_run|done|by left|done|congruence|by left|by eapply runs_hand|done|done|by left]. }
  assert (Hc' : c = r_cid (mkRun c false (fakeLeave th) (handoffThread th))) by done.
  pose proof (rv_running s t th Ht Hs) as Hx. rewrite Hm, Hc in Hx.
  assert (Hi1 : gidMap s1 !! i = Some y) by (transitivity (gidMap (put t (set_state BLOCKED th) s) !! i); [done|]; by rewrite lookup_put, decide_False by done).
  eapply ws_mono.
  - rewrite Hc'. eapply (leave_hand_ok t _ i y ins s s1); [done|exact Hx|done|done|done|done| | | |done].
    + apply (k_word _ _ _ _ _ K i y Hy); [done|by left].
    + unfold idle. cbn. by rewrite fn_lookup_insert.
    + by apply (off_take_off t c BLOCKED th (upd_run (remove i) s) s).
  - cbn beta. intros _ s' [Y' Hg]. split; [by replace ins with (ins ∖ {[t]}) by set_solver|]. intros _. left.
    unfold st. rewrite Hg by done. transitivity (st (put t (set_state BLOCKED th) s) t); [done|]. by rewrite st_put, decide_True.
Qed.

(** Nobody waits for the context, and [t] may not use it any more: it becomes free. *)
Lemma leave_blocked_free_ok ins s t th c :
  sys ins s -> curPhase s < 2 ^ 64 - 1 -> runs ins s t th c -> markedForSleep th = false ->
  (forall q y, q ∈ runQueue s -> gidMap s !! q = Some y -> mask_at y c = false) ->
  wsafe (deschedule t c BLOCKED ≫= fun _ => push_free c ≫= fun _ => on_bar numCores schedQuantum (bar_leave c)) s
    (fun _ s' => sys ins s' /\ left_as t th s').
Proof using HN.
  intros Y Hp' R Hm Hno. pose proof Y as [K Hb Hp HA]. pose proof R as [Ht Hs Hc Hn Hv Hf].
  pose proof (rv_running s t th Ht Hs) as Hx. rewrite Hc in Hx.
  assert (Hlt : (c < N)%nat) by (rewrite <- Hc; apply (k_range _ _ _ _ _ K t th Ht)).
  ws_steps. eapply (deschedule_wp t c th); [done|by left|exact (runs_used ins s t th c Y R)|done|by left|]. ws_step.
  set (s1 := take_off _ _ _ _).
  assert (K1 : core (Some c) None None s1).
  { eapply take_off_core; [done|done|done|by left|done|done|by left|by eapply runs_hand|done|done|by left]. }
  assert (Hg : forall u, gidMap s1 !! u = if decide (u = t) then Some (set_state BLOCKED th) else gidMap s !! u) by (intros u; apply (lookup_put t)).
  eapply push_free_wp; [exact K1|unfold idle; cbn; by rewrite fn_lookup_insert|done| |].
  - intros q y Hq Hy. change (runQueue s1) with (runQueue s) in Hq. rewrite Hg in Hy. destruct (decide (q = t)) as [->|]; [|by apply (Hno q)].
    destruct (k_run _ _ _ _ _ K t Hq) as [Hqs _]. unfold st in Hqs. rewrite Ht in Hqs. cbn in Hqs. congruence.
  - intros K2. eapply ws_mono.
    + apply (leave_free_ok t _ ins s _ Y Hp' Hx Hn Hv K2). by apply (off_take_off t c BLOCKED th s s).
    + cbn beta. intros _ s' [Y' C']. split; [done|]. eapply left_calm; [|exact C']. intros _. left.
      transitivity (st (put t (set_state BLOCKED th) s) t); [done|]. by rewrite st_put, decide_True.
Qed.

(** Nobody waits for the context: [t] keeps it, out of the barrier. *)
Lemma leave_out_ok ins s t th c :
  sys ins s -> curPhase s < 2 ^ 64 - 1 -> runs ins s t th c -> markedForSleep th = false ->
  (forall q y, q ∈ runQueue s -> gidMap s !! q = Some y -> mask_at y c = false) ->
  wsafe (upd_thread t (set_state OUT) ≫= fun _ => push_out t ≫= fun _ => on_bar numCores schedQuantum (bar_leave c)) s
    (fun _ s' => sys ins s' /\ left_as t th s').
Proof using HN.
  intros Y Hp' R Hm Hno. pose proof Y as [K Hb Hp HA]. pose proof R as [Ht Hs Hc Hn Hv Hf].
  pose proof (rv_running s t th Ht Hs) as Hx. rewrite Hc in Hx.
  assert (Hst : st s t = Some RUNNING) by (unfold st; rewrite Ht; cbn; congruence).
  ws_steps. eapply ws_upd_thread; [done|]. cbn beta. unfold push_out, unqueued. ws_steps.
  { cbn [id]. change (on_queue t (put t (set_state OUT th) s)) with (on_queue t s).
    rewrite (on_queue_false numCores None None None s t); (done || congruence). }
  set (s1 := upd_out _ _).
  assert (Hin : t ∉ outQueue s) by (rewrite (k_out _ _ _ _ _ K); intros [? _]; congruence).
  assert (K1 : core None None None s1).
  { apply core_out_state; try done; [by left|by right|by eapply runs_hand|by rewrite Hc| |].
    - apply nodup_snoc; [apply (k_out_nodup _ _ _ _ _ K)|done].
    - intros u. rewrite elem_snoc. destruct (decide (u = t)) as [->|]; [split; [done|by right]|].
      split; [by intros [|]|by left]. }
  eapply ws_mono.
  - apply (leave_free_ok t _ ins s s1 Y Hp' Hx Hn Hv K1). exact (off_take_off t c OUT th s s Ht ltac:(done) eq_refl eq_refl (fun _ _ => eq_refl)).
  - cbn beta. intros _ s' [Y' C']. split; [done|]. eapply left_calm; [|exact C']. intros _. right.
    transitivity (st (put t (set_state OUT th) s) t); [done|]. by rewrite st_put, decide_True.
Qed.

Lemma go_to_sleep_ok ins s t th c (Q : unit -> Scheduler -> Prop) :
  sys ins s -> runs ins s t th c -> markedForSleep th = true ->
  (forall s1, core (Some c) None None s1 -> off_context t s s1 -> idle s1 c -> runQueue s1 = runQueue s ->
    Q tt s1) ->
  wsafe (go_to_sleep t th c) s Q.
Proof using HN.
  intros Y R Hm HQ. pose proof Y as [K Hb Hp HA]. pose proof R as [Ht Hs Hc Hn Hv Hf].
  destruct (k_marked _ _ _ _ _ K t th Ht Hm) as (_ & Hw & Hl & _ & Hh).
  pose proof (runs_used _ _ _ _ _ Y R) as Hu. unfold go_to_sleep, unqueued. ws_steps. eapply ws_upd_thread; [done|]. cbn beta.
  set (x := set_marked false th). set (s0 := put t x s). ws_step.
  assert (K0 : core None None None s0).
  { eapply (core_update numCores); [exact K|exact Ht|try done..].
    apply (k_range _ _ _ _ _ K t th Ht). }
  assert (Ht0 : gidMap s0 !! t = Some x) by (unfold s0; by rewrite lookup_put, decide_True).
  eapply (deschedule_wp t c x); [done|by left|done|done|by auto|]. set (s1 := take_off _ _ _ _).
  assert (K1 : core (Some c) (Some t) None s1).
  { eapply take_off_core; [done|exact K0|done|by left|done|done|by left|done|done|done|]. right. split_and!; [|done|done]. right. split; [done|exact Hl]. }
  assert (Hg1 : gidMap s1 !! t = Some (set_state SLEEPING x)) by (unfold s1; by rewrite lookup_take_off, decide_True).
  assert (Hst1 : st s1 t = Some SLEEPING) by (unfold st; by rewrite Hg1).
  ws_steps; [cbn [id]; rewrite (on_queue_false numCores (Some c) (Some t) None s1 t); (done || congruence)|].
  apply HQ.
  - exact (core_sleep_add numCores _ _ s1 t (set_state SLEEPING x) K1 Hg1 eq_refl Hw).
  - assert (Ho : off_context t s s1).
    { apply (off_take_off t c SLEEPING x s0 s); try done. intros u Hne. unfold s0. by rewrite rv_put, decide_False. }
    destruct Ho as (? & ? & ?). split_and!; done.
  - unfold idle. cbn. by rewrite fn_lookup_insert.
  - done.
Qed.

Lemma leave_sleep_ok ins s t th c :
  sys ins s -> curPhase s < 2 ^ 64 - 1 -> runs ins s t th c -> markedForSleep th = true ->
  wsafe (go_to_sleep t th c ≫= fun _ => schedContext c ≫= fun inTh =>
    match inTh with
    | Some i => hand_context i c
    | None => push_free c ≫= fun _ => on_bar numCores schedQuantum (bar_leave c)
    end) s (fun _ s' => sys ins s').
Proof using HN.
  intros Y Hp' R Hm. pose proof Y as [K Hb Hp HA]. pose proof R as [Ht Hs Hc Hn Hv Hf].
  pose proof (rv_running s t th Ht Hs) as Hx. rewrite Hc in Hx.
  assert (Hlt : (c < N)%nat) by (rewrite <- Hc; apply (k_range _ _ _ _ _ K t th Ht)).
  ws_step. apply (go_to_sleep_ok ins s t th c _ Y R Hm). intros s1 K1 Ho Hi Hr. ws_step. apply schedContext_wp.
  - intros i y Hiq Hy Hyc. pose proof Hiq as Hiq'. apply (k_run _ _ _ _ _ K1) in Hiq' as [Hys _].
    apply st_Some in Hys as (y' & Hy' & Hys). simplify_eq.
    eapply ws_mono.
    + apply (leave_hand_ok t _ i y ins s (upd_run (remove i) s1) Y Hx Hv); try done; [by apply core_remove_run| |].
      * apply (k_word _ _ _ _ _ K1 i y Hy); [done|by left].
      * intros ->. rewrite Hr in Hiq. apply (k_run _ _ _ _ _ K) in Hiq as [Hq _]. unfold st in Hq. rewrite Ht in Hq. cbn in Hq. congruence.
    + cbn beta. intros _ s' [Y' _]. by replace ins with (ins ∖ {[t]}) by set_solver.
  - intros Hno. ws_step. eapply push_free_wp; [exact K1|done|done|done|]. intros K2.
    eapply ws_mono; [apply (leave_free_ok t _ ins s _ Y Hp' Hx Hn Hv K2); exact Ho|]. by intros _ s' [? _].
Qed.

Lemma leave_ok ins s pid tid c th :
  sys ins s -> curPhase s < 2 ^ 64 - 1 -> runs ins s (getGid pid tid) th c ->
  wsafe (leave numCores schedQuantum pid tid c) s (fun _ s' => sys ins s' /\ left_as (getGid pid tid) th s').
Proof using HN.
  intros Y Hp' R. set (t := getGid pid tid) in *. pose proof Y as [K Hb Hp HA]. pose proof R as [Ht Hs Hc Hn Hv Hf].
  pose proof (runs_used _ _ _ _ _ Y R) as Hu. pose proof (runs_hand _ _ _ _ _ Y R) as Hh.
  pose proof (rv_running s t th Ht Hs) as Hx. rewrite Hc in Hx.
  assert (Hlt : (c < N)%nat) by (rewrite <- Hc; apply (k_range _ _ _ _ _ K t th Ht)).
  unfold leave. ws_steps. unfold used in Hu. rewrite Hu. cbn [curThread]. ws_step. eapply ws_get_thread; [done|]. cbn beta. ws_steps.
  { apply Z.eqb_refl. }
  { by apply bool_decide_true. }
  destruct (markedForSleep th) eqn:Hm.
  - eapply ws_mono; [apply (leave_sleep_ok ins s t th c Y Hp' R Hm)|]. cbn beta. intros _ s' Y'. split; [done|]. unfold left_as. congruence.
  - ws_steps. apply schedContext_wp.
    + intros i y Hi Hy Hyc. apply leave_blocked_hand_ok with (y := y); try done.
      destruct (k_run _ _ _ _ _ K i Hi) as [Hq _]. unfold st in Hq. rewrite Hy in Hq. cbn in Hq. congruence.
    + intros Hno. destruct (mask_at th (cid th)); cbn [negb]; [by apply leave_out_ok|by apply leave_blocked_free_ok].
Qed.

End ops.

End SchedOps.
