(* ===== verification/SchedSys.v ===== *)
(** The scheduler as a system: the operations its clients may call in each state, the
    states they reach, and what holds in all of them. *)
From S2P Require Import Prelude Effects Mtrand BarrierIface Scheduler SchedInv SchedProof SchedOps.

Module SchedSys.
Import BarrierIface Rand Scheduler SchedInv SchedProof SchedOps.

Section SchedSys.
Context {B G : Type} `{PhaseBarrier B} `{RandSource G}.
Context (numCores : nat) (schedQuantum : Z).
Context {BL : PhaseBarrierLaws B numCores} {GL : RandLaws G}.
Context (HN : Z.of_nat numCores < 2 ^ 32).
Notation Scheduler := (Scheduler (B := B) (G := G)).
Notation N := numCores.
Notation core := (core numCores).
Notation sys := (sys numCores).
Notation runs := (runs numCores).
Implicit Types (s : Scheduler) (ins : gset Z).

(** A change of one thread that the barrier does not see. *)
Lemma still_put t th x s :
  gidMap s !! t = Some th -> run_of x = run_of th -> still s (put t x s).
Proof.
  intros Ht Hx. split; [done|]. split; [done|]. intros u. rewrite rv_put.
  destruct (decide (u = t)) as [->|]; [|done]. unfold rv. by rewrite Ht.
Qed.

Lemma start_ok ins s pid tid m :
  sys ins s -> gidMap s !! getGid pid tid = None -> length m = N -> existsb id m = true ->
  wsafe (start numCores pid tid m) s (fun _ s' => sys ins s').
Proof.
  intros Y Ht Hl Hm. unfold start. ws_steps; [by apply bool_decide_true|by apply bool_decide_true|]. rewrite Hm. ws_steps.
  apply (sys_still _ _ s); [done| |].
  - apply (core_start numCores); [apply Y|done|done|]. destruct m; [done|cbn in Hl; lia].
  - set (x := mkTh _ _ _ _ _ _ _ _ _ _). change (still s (put (getGid pid tid) x s)).
    split; [done|]. split; [done|]. intros u. rewrite rv_put. destruct (decide (u = getGid pid tid)) as [->|]; [|done].
    unfold rv. by rewrite Ht.
Qed.

(** ** Joining *)

Lemma futexJoin_ok ins s s1 t th j :
  sys ins s -> core None None None s1 -> still s s1 -> gidMap s1 !! t = Some th -> sys ins (put t (set_futexJoin j th) s1).
Proof.
  intros Y K (Eb & Ep & Er) Ht. apply (sys_still _ _ s); [done| |].
  - eapply (core_update numCores); [exact K|exact Ht|try done..].
    + apply (k_range _ _ _ _ _ K t th Ht).
    + intros Hn Hs. exact (k_word _ _ _ _ _ K t th Ht Hn Hs).
    + intros Hm. exact (k_marked _ _ _ _ _ K t th Ht Hm).
  - split; [done|]. split; [done|]. intros u. rewrite <- Er. by apply (still_put t th (set_futexJoin j th) s1).
Qed.

(** The account of the wakes admits that [th] returns from its own: the threads it may wake
    are in the account, it woke no more of them, and no more waits were counted against all
    wakes than its [wokenUp] and the wakes of the others leave. *)
Definition wake_counted s (th : ThreadInfo) : Prop :=
  let m := maxWakes (futexJoin th) in let w := wokenUp (futexJoin th) in
  0 <= w <= m /\ m <= maxAllowedFutexWakeups s /\ 0 <= unmatchedFutexWakeups s /\
  unmatchedFutexWakeups s + (m - w) <= maxAllowedFutexWakeups s < 2 ^ 32.

(** A futex wake is matched with the waits that it ended, or a wait with its wake. *)
Lemma futex_join_ok ins s t th :
  sys ins s -> gidMap s !! t = Some th -> (action (futexJoin th) = FJA_WAKE -> wake_counted s th) ->
  wsafe (futex_join t) s (fun _ s' => sys ins s' /\ exists j, gidMap s' !! t = Some (set_futexJoin j th)).
Proof.
  intros Y Ht Ha. unfold futex_join. ws_step. eapply ws_get_thread; [done|]. cbn beta.
  destruct (action (futexJoin th)) eqn:E.
  { ws_steps. split; [done|]. exists (futexJoin th). rewrite Ht. by destruct th. }
  { destruct (Ha eq_refl) as (A0 & A1 & A2 & A3). unfold futexWakeJoin. ws_steps. eapply ws_get_thread; [done|]. cbn beta.
    set (m := maxWakes (futexJoin th)) in *. set (w := wokenUp (futexJoin th)) in *.
    ws_steps; [by rewrite E|cbn [id]; apply Z.leb_le; lia|cbn [id]; apply Z.leb_le; lia|cbn [id upd_wakeups unmatchedFutexWakeups maxAllowedFutexWakeups]; apply Z.leb_le; rewrite !u32_id by (unfold in_u32; lia); lia|].
    cbn [id]. destruct (_ <=? _); ws_steps; (eapply ws_upd_thread; [done|]; cbn beta; split; [|eexists; by rewrite lookup_put, decide_True]).
    all: by apply (futexJoin_ok ins s); [|apply core_wakeups, core_wakeups, Y| |]. }
  unfold futexWaitJoin. ws_steps. eapply ws_get_thread; [done|]. cbn beta. ws_steps; [by rewrite E|]. cbn [id].
  destruct (_ <=? _); ws_steps; (eapply ws_upd_thread; [done|]; cbn beta; split; [|eexists; by rewrite lookup_put, decide_True]).
  - by apply (futexJoin_ok ins s); [|apply Y| |].
  - by apply (futexJoin_ok ins s); [|apply core_wakeups, Y| |].
Qed.

(** The end of a suppressed leave: the thread is in simulated code again. *)
Lemma finishFakeLeave_ok ins s t th pc :
  sys ins s -> gidMap s !! t = Some th -> fakeLeave th = Some pc ->
  wsafe (finishFakeLeave t) s (fun _ s' => sys ins s' /\ gidMap s' !! t = Some (set_fakeLeave None th) /\
    bar s' = bar s /\ curPhase s' = curPhase s /\ state th = RUNNING /\ t ∉ ins).
Proof.
  intros Y Ht Hf. pose proof Y as [K Hb Hp HA].
  destruct (k_fake_running _ _ _ _ _ K t th Ht ltac:(congruence)) as [Hs Hh].
  assert (Hin : t ∈ fakeLeaves s) by (apply (k_fake _ _ _ _ _ K); exists th; split; congruence).
  assert (Hm : markedForSleep th = false).
  { destruct (markedForSleep th) eqn:Hm; [|done]. destruct (k_marked _ _ _ _ _ K t th Ht Hm) as (_ & _ & _ & ? & _). congruence. }
  assert (Hni : t ∉ ins).
  { intros Hi. destruct (v_ins _ _ _ _ HA t Hi) as (x & Hx & _ & Hxf). rewrite (rv_running s t th Ht Hs) in Hx. simplify_eq. cbn in Hxf. congruence. }
  unfold finishFakeLeave. ws_step. eapply ws_get_thread; [done|]. cbn beta.
  ws_steps; [apply bool_decide_true; congruence|by apply bool_decide_true|by apply bool_decide_true|].
  eapply ws_upd_thread; [done|]. cbn beta. split_and!; [|by rewrite lookup_put, decide_True|done|done|done|done].
  split; [|done|done|].
  - apply (core_running numCores s t th (set_fakeLeave None th) (remove t) None K); try done.
    + by apply nodup_remove, (k_fake_nodup _ _ _ _ _ K).
    + intros u. rewrite elem_remove. destruct (decide (u = t)) as [->|]; [split; [tauto|done]|tauto].
  - eapply (agrees_upd N ins _ _ _ t _ (mkRun (cid th) false None None) HA); [exact (rv_running s t th Ht Hs)|done|done|done|].
    intros u. transitivity (rv (put t (set_fakeLeave None th) s) u); [done|]. rewrite rv_put.
    destruct (decide (u = t)); [|done]. unfold run_of. cbn. by rewrite decide_True, Hm, Hh.
Qed.

(** Which threads may join: one in a suppressed leave, or one off its context or out. *)
Definition may_join s (th : ThreadInfo) : Prop :=
  (action (futexJoin th) = FJA_WAKE -> wake_counted s th) /\
  (fakeLeave th <> None \/ state th = STARTED \/ state th = OUT \/ state th = BLOCKED \/ state th = SLEEPING).

(** [t] is blocked or new, and looks for a context. *)
Lemma join_context_ok ins s t th :
  sys ins s -> gidMap s !! t = Some th -> state th = BLOCKED \/ state th = STARTED ->
  wsafe (ctx ← schedThread numCores t;
      match ctx with
      | Some c => _ ← schedule t c; on_bar numCores schedQuantum (bar_join c)
      | None =>
          _ ← upd_thread t (set_state QUEUED);
          _ ← push_run t;
          waitForContext t
      end) s (fun _ s' => sys ins s').
Proof using HN.
  intros Y Ht Hs. pose proof Y as [K Hb Hp HA].
  assert (Hon : ~ on_context th) by (unfold on_context; destruct Hs as [->| ->]; intros [|]; done).
  assert (Hst : st s t = Some (state th)) by (unfold st; by rewrite Ht).
  assert (K1 : core None (Some t) None s).
  { apply core_hold; [done| |]; rewrite Hst; destruct Hs as [->| ->]; done. }
  ws_step. eapply ws_mono; [by apply (schedThread_ok numCores HN t th s)|]. cbn beta. intros [c|] s1.
  - intros (K2 & Hi & Hlt & _ & Ht2 & (Eb & Ep & Er) & Hno).
    eapply (place_ok numCores schedQuantum HN t th c ins s1); try done.
    + destruct Hs; auto.
    + intros u x. rewrite Er. apply Hno.
    + by rewrite Eb.
    + by rewrite Ep.
    + rewrite Eb. by eapply (agrees_ext N).
  - intros [-> Hm]. ws_step. eapply ws_upd_thread; [done|]. cbn beta.
    set (s1 := put t (set_state QUEUED th) s).
    assert (K2 : core None (Some t) None s1).
    { apply core_state; [done|done|done|by right|by left]. }
    eapply ws_mono; [apply (wait_in_queue_ok numCores t (set_state QUEUED th) s1 K2); [unfold s1; by rewrite lookup_put, decide_True|done|]|].
    + intros c Hc. destruct (Hm c Hc) as (u & z & Hu & Hz & Hzs). exists u, z. unfold s1.
      rewrite lookup_put, decide_False; [done|]. intros ->. simplify_eq. destruct Hs; congruence.
    + cbn beta. intros _ s2 (K3 & Eb & Ep & Er). apply (sys_still _ _ s); [done|done|]. split; [done|]. split; [done|].
      intros u. rewrite Er. apply (still_put t th (set_state QUEUED th) s Ht). unfold run_of. cbn.
      rewrite !decide_False; [done| |done]. destruct Hs as [->| ->]; done.
Qed.

(** No running thread is on an out thread's context. *)
Lemma out_away ins s t th :
  sys ins s -> gidMap s !! t = Some th -> state th = OUT -> bar_view (bar s) (cid th) = Away.
Proof.
  intros [K Hb Hp HA] Ht Hs. destruct (decide (bar_view (bar s) (cid th) = Away)) as [|Hne]; [done|].
  destruct (k_range _ _ _ _ _ K t th Ht) as [Hlt _].
  apply (v_view _ _ _ _ HA _ Hlt) in Hne as (u & x & (z & Hz & Hzs & ->)%rv_Some & Hc). cbn in Hc.
  assert (Hu : used s (cid th) u) by (apply (k_used _ _ _ _ _ K); exists z; split_and!; [done|done|by left]).
  assert (Hu' : used s (cid th) t) by (apply (k_used _ _ _ _ _ K); exists th; split_and!; [done|done|by right]).
  rewrite (used_inj _ _ _ _ Hu Hu') in Hz. congruence.
Qed.

(** An out thread comes back to its context. *)
Lemma join_out_ok ins s t th :
  sys ins s -> gidMap s !! t = Some th -> state th = OUT ->
  wsafe (_ ← upd_thread t (set_state RUNNING); _ ← remove_out t; on_bar numCores schedQuantum (bar_join (cid th)))
    s (fun _ s' => sys ins s').
Proof.
  intros Y Ht Hs. pose proof (out_away _ _ _ _ Y Ht Hs) as Hv. pose proof Y as [K Hb Hp HA].
  destruct (k_range _ _ _ _ _ K t th Ht) as [Hlt _].
  destruct (not_running_clean _ _ _ _ _ t th K Ht ltac:(congruence)) as (C1 & C2 & C3).
  ws_step. eapply ws_upd_thread; [done|]. cbn beta. unfold remove_out. ws_steps.
  { apply bool_decide_true. cbn [id]. apply (k_out _ _ _ _ _ K). split; [|done]. unfold st. rewrite Ht. cbn. congruence. }
  eapply ws_mono; [apply (on_bar_join_ok N schedQuantum _ (cid th) ins); try done|].
  - apply core_out_state; try done; [by right|by left|apply nodup_remove, (k_out_nodup _ _ _ _ _ K)|].
    intros u. rewrite elem_remove. destruct (decide (u = t)) as [->|]; [split; [tauto|done]|tauto].
  - apply (agrees_on N ins (rv s) _ (bar_view (bar s)) t (mkRun (cid th) false None None) Turn); try done; [|by left|].
    + apply (rv_not_running s t th Ht). congruence.
    + intros u. transitivity (rv (put t (set_state RUNNING th) s) u); [done|]. rewrite rv_put.
      destruct (decide (u = t)); [|done]. unfold run_of. cbn. by rewrite decide_True, C1, C2, C3.
  - by intros _ s' [? _].
Qed.

Lemma sched_join_ok ins s pid tid th :
  sys ins s -> gidMap s !! getGid pid tid = Some th -> may_join s th ->
  wsafe (join numCores schedQuantum pid tid) s (fun _ s' => sys ins s').
Proof using HN.
  set (t := getGid pid tid). intros Y0 Ht0 [Ha Hj]. unfold join. fold t. ws_step. eapply ws_get_thread; [done|]. cbn beta.
  ws_step. eapply ws_mono; [by apply (futex_join_ok ins s t th)|]. cbn beta. intros _ s1 (Y & j & Ht).
  case_bool_decide as Hf.
  { destruct (fakeLeave th) as [pc|] eqn:E; [|done].
    eapply ws_mono; [by apply (finishFakeLeave_ok ins s1 t _ pc Y Ht)|]. by intros _ s' (? & _). }
  assert (Hs : state th = STARTED \/ state th = OUT \/ state th = BLOCKED \/ state th = SLEEPING) by tauto.
  pose proof Y as [K Hb Hp HA].
  assert (Hnr : state (set_futexJoin j th) <> RUNNING) by (cbn; destruct Hs as [->|[->|[->| ->]]]; done).
  destruct (not_running_clean _ _ _ _ _ t _ K Ht Hnr) as (C1 & C2 & C3). ws_steps; [cbn in C3; by rewrite C3|].
  case_bool_decide as Hsl.
  - unfold remove_sleep. ws_steps.
    { apply bool_decide_true. cbn [id]. apply (k_sleep _ _ _ _ _ K). split; [|done]. unfold st. rewrite Ht. cbn. congruence. }
    eapply ws_upd_thread; [done|]. cbn beta. rewrite bool_decide_false by congruence.
    set (x := set_state BLOCKED (set_futexJoin j th)).
    change (put t x (upd_sleep (remove t) s1)) with (upd_sleep (remove t) (put t x s1)). set (s2 := upd_sleep _ _).
    assert (Ht2 : gidMap s2 !! t = Some x) by (unfold s2; by rewrite lookup_upd_sleep, lookup_put, decide_True).
    ws_step. eapply ws_get_thread; [exact Ht2|]. cbn beta. ws_step. apply ws_require; [by apply bool_decide_true; left|]. cbn beta.
    apply join_context_ok with (th := x); [|done|by left].
    apply (sys_still _ _ s1); [done|by apply core_awake|]. 
    apply (still_put t _ x s1 Ht). unfold run_of, x. cbn. by rewrite !decide_False by congruence.
  - ws_steps. case_bool_decide as Ho.
    + by apply (join_out_ok ins s1 t (set_futexJoin j th)).
    + ws_step. eapply ws_get_thread; [exact Ht|]. cbn beta. ws_step.
      assert (Hs' : state (set_futexJoin j th) = BLOCKED \/ state (set_futexJoin j th) = STARTED) by (cbn; tauto).
      apply ws_require; [by apply bool_decide_true|]. cbn beta. by apply join_context_ok with (th := set_futexJoin j th).
Qed.

(** ** Synchronizing *)

Lemma sched_sync_ok ins s t th c :
  sys ins s -> curPhase s < 2 ^ 64 - 1 -> runs ins s t th c -> markedForSleep th = false ->
  wsafe (sync numCores schedQuantum c) s (fun _ s' => sys ({[t]} ∪ ins) s').
Proof using HN.
  intros Y Hp' R Hm. pose proof Y as [K Hb Hp HA]. pose proof R as [Ht Hs Hc Hn Hv Hf].
  pose proof (runs_used _ _ _ _ _ _ Y R) as Hu. pose proof (rv_running s t th Ht Hs) as Hx. rewrite Hc in Hx.
  destruct (k_range _ _ _ _ _ K t th Ht) as [Hlt _]. rewrite Hc in Hlt.
  unfold sync. ws_steps. unfold used in Hu. rewrite Hu. cbn [curThread]. ws_step. eapply ws_get_thread; [done|]. cbn beta.
  ws_step. apply ws_require; [by rewrite Hm|]. cbn beta.
  eapply ws_mono; [apply (on_bar_stop_ok N schedQuantum HN _ s c Waits ({[t]} ∪ ins)); [done|lia|by left|by apply bar_sync_ok|]|].
  - by apply (agrees_sync N ins (rv s) _ t _ HA Hx (rv_uniq N _ _ _ _ _ _ K Hx)).
  - by intros _ s' [? _].
Qed.

(** Updates of different threads commute. *)
Lemma put_comm t u x y s : t <> u -> put t x (put u y s) = put u y (put t x s).
Proof. intros Hne. unfold put, upd_threads. cbn. by rewrite insert_insert_ne. Qed.

Lemma put_put_on t x d c z s : t <> d -> put t x (put_on d c z s) = put_on d c z (put t x s).
Proof.
  intros Hne. unfold put_on. rewrite (put_comm d t) by done. generalize (put d (set_cid c (set_state RUNNING z)) s). by intros [].
Qed.

Lemma put_take_off t x y c s : put t x (take_off t c y s) = take_off t c x s.
Proof.
  unfold take_off. rewrite <- (put_put t x y s). generalize (put t y s). intros []; reflexivity.
Qed.

Lemma put_swap d x t y y' z c s : d <> t ->
  put d x (put_on d c z (take_off t c y s)) = put t y (put d x (put_on d c z (take_off t c y' s))).
Proof. intros Hne. assert (t <> d) by congruence. by rewrite (put_comm t d), (put_put_on t), put_take_off. Qed.

(** The context of a running thread goes to the one it was told to hand it to. *)
Lemma handoff_ok ins s t th d :
  sys ins s -> gidMap s !! t = Some th -> handoffThread th = Some d -> bar_view (bar s) (cid th) = Runs ->
  wsafe (hand_over t (cid th) d) s
    (fun _ s' => core None (Some t) None s' /\ gidMap s' !! t = Some (set_state QUEUED (set_handoff None th)) /\
      bar s' = bar s /\ curPhase s' = curPhase s /\ agrees N (ins ∖ {[t]}) (rv s') (bar_view (bar s))).
Proof using HN.
  intros [K Hb Hp HA] Ht Hh Hv. destruct (k_hand _ _ _ _ _ K t th d Ht Hh) as (Hs & Hd & Hdr & _).
  apply st_Some in Hd as (y & Hy & Hys). assert (Hne : d <> t) by (intros ->; congruence).
  destruct (k_range _ _ _ _ _ K t th Ht) as [Hlt _]. set (c := cid th) in *.
  assert (Hf : fakeLeave th = None).
  { destruct (fakeLeave th) eqn:E; [|done]. destruct (k_fake_running _ _ _ _ _ K t th Ht); congruence. }
  assert (Hm : markedForSleep th = false).
  { destruct (markedForSleep th) eqn:E; [|done]. destruct (k_marked _ _ _ _ _ K t th Ht E) as (_ & _ & _ & _ & ?). congruence. }
  assert (Hu : used s c t) by (apply (k_used _ _ _ _ _ K); exists th; split_and!; [done|done|by left]).
  pose proof (rv_running s t th Ht Hs) as Hx. fold c in Hx. set (x := set_handoff None th). set (s1 := put t x s).
  assert (K1 : core None (Some d) None s1).
  { apply (core_running numCores s t th x id (Some d) K); try done; [apply (k_fake_nodup _ _ _ _ _ K)|].
    intros u. unfold id. destruct (decide (u = t)) as [->|]; [|done]. rewrite (k_fake _ _ _ _ _ K), Ht.
    split; [by intros (z & [= <-] & ?)|]. by intros []. }
  assert (Ht1 : gidMap s1 !! t = Some x) by (unfold s1; by rewrite lookup_put, decide_True).
  assert (K2 : core (Some c) (Some d) None (take_off t c (set_state BLOCKED x) s1)).
  { eapply take_off_core; [done|exact K1|done|by left|done|congruence|by left|done|done|done|by left]. }
  assert (Hg1 : forall u, u <> t -> gidMap s1 !! u = gidMap s !! u) by (intros u Hut; unfold s1; by rewrite lookup_put, decide_False).
  assert (Hg2 : forall z, gidMap (take_off t c z s1) !! d = Some y) by (intros z; by rewrite lookup_take_off, decide_False, Hg1).
  assert (Hi2 : forall z, idle (take_off t c z s1) c) by (intros z; unfold idle; cbn; by rewrite fn_lookup_insert).
  unfold hand_over. ws_step. eapply ws_upd_thread; [done|]. cbn beta. ws_step. eapply (deschedule_wp t c x); [done|by left|done|done|by auto|].
  unfold hand_context. ws_step. eapply (schedule_wp d c y); [done|by auto|done|].
  assert (Hw : futexWord y = 1) by (apply (k_word _ _ _ _ _ K d y Hy); [done|by left]).
  set (z := set_cid c (set_state RUNNING y)).
  eapply (wakeup_wp d false z); [by rewrite lookup_put_on, decide_True|done|].
  rewrite (put_swap d _ t _ (set_state BLOCKED x)) by done.
  destruct (not_running_clean _ _ _ _ _ d y K Hy ltac:(congruence)) as (D1 & D2 & D3).
  pose proof (put_on_core numCores HN _ d y c K2 (Hg2 _) Hlt (Hi2 _) ltac:(auto)) as K3.
  pose proof (wakeup_core numCores _ d z false K3 ltac:(by rewrite lookup_put_on, decide_True) ltac:(done) ltac:(done) D3) as K4.
  set (s4 := put d _ _) in *.
  assert (Ht4 : gidMap s4 !! t = Some (set_state BLOCKED x)).
  { unfold s4. by rewrite lookup_put, decide_False, lookup_put_on, decide_False, lookup_take_off, decide_True by done. }
  assert (Hst4 : st s4 t = Some BLOCKED) by (unfold st; by rewrite Ht4).
  split_and!; [|by rewrite lookup_put, decide_True|done|done|].
  - apply (core_hold _ _ _ _ t) in K4; [|congruence|congruence].
    apply (core_state numCores None (Some t) s4 t _ QUEUED K4 Ht4); [intros [|]; done|by left|by left].
  - eapply (agrees_swap N ins (rv s) _ _ t _ d (mkRun c false None None) HA Hx);
      [exact (rv_uniq N _ _ _ _ _ _ K Hx)|apply (rv_not_running s d y Hy); congruence|done|done|done|done|].
    intros u. rewrite rv_put. unfold s4. rewrite rv_put.
    destruct (decide (u = d)) as [->|Hud]; [rewrite decide_False by done; by apply rv_woken|].
    destruct (decide (u = t)) as [->|Hut]; [done|].
    unfold rv. by rewrite lookup_put_on, decide_False, lookup_take_off, decide_False, Hg1 by done.
Qed.

Lemma sync_end_ok ins s t th :
  sys ins s -> gidMap s !! t = Some th -> t ∈ ins -> bar_view (bar s) (cid th) = Runs ->
  wsafe (sync_end numCores schedQuantum t) s (fun _ s' => sys (ins ∖ {[t]}) s').
Proof using HN.
  intros Y Ht Hin Hv. pose proof Y as [K Hb Hp HA]. unfold sync_end. ws_step. eapply ws_get_thread; [done|]. cbn beta.
  destruct (v_ins _ _ _ _ HA t Hin) as (x & Hx & _ & _). pose proof Hx as (th' & Ht' & Hs & ->)%rv_Some. simplify_eq.
  destruct (handoffThread th) as [d|] eqn:Hh.
  2:{ apply ws_require; [by apply bool_decide_true|]. split; [done|done|done|]. by eapply (agrees_unsync N); [exact HA|exact Hx|done|by right]. }
  pose proof (handoff_ok ins s t th d Y Ht Hh Hv) as Hho.
  apply ws_bind.
  eapply ws_mono; [exact Hho|]. cbn beta. intros _ s1 (K1 & Ht1 & Eb & Ep & HA1). rewrite <- Eb in Hb, HA1.
  ws_step. eapply ws_mono; [by apply (schedThread_ok numCores HN t _ s1 K1 Ht1); intros [|]|]. cbn beta. intros [c|] s2.
  - intros (K2 & Hi & Hlt & _ & Ht2 & (Eb2 & Ep2 & Er2) & Hno).
    eapply (place_ok numCores schedQuantum HN t _ c _ s2 K2 Ht2); try done; [by auto| |by rewrite Eb2|rewrite Ep2; lia|].
    + intros u x. rewrite Er2. apply Hno.
    + rewrite Eb2. by eapply (agrees_ext N).
  - intros [-> Hm]. eapply ws_mono; [by apply (wait_in_queue_ok numCores t _ s1 K1 Ht1)|]. cbn beta. intros _ s3 (K3 & Eb3 & Ep3 & Er3).
    split; [done|by rewrite Eb3|rewrite Ep3; lia|]. rewrite Eb3. by eapply (agrees_ext N).
Qed.

(** ** The end of a thread *)

Lemma delete_ok ht ins s s1 t th :
  sys ins s -> core None ht None s1 -> gidMap s1 !! t = Some th -> ~ on_context th -> state th <> SLEEPING ->
  (state th = QUEUED -> ht = Some t) -> ht = None \/ ht = Some t -> still s s1 ->
  sys ins (upd_threads (delete t) s1).
Proof.
  intros Y K Ht Hon Hsl Hq Hht (Eb & Ep & Er). apply (sys_still _ _ s); [done|by eapply core_delete|].
  split; [done|]. split; [done|]. intros u. rewrite <- Er. unfold rv. cbn.
  destruct (decide (u = t)) as [->|Hne]; [|by rewrite lookup_delete_ne]. rewrite lookup_delete_eq, Ht. cbn. unfold run_of.
  rewrite decide_False; [done|]. intros Hs. apply Hon. by left.
Qed.

Definition may_finish_out (s : Scheduler) (t : Z) (th : ThreadInfo) : Prop :=
  state th = STARTED \/ state th = OUT \/ state th = BLOCKED \/ state th = QUEUED /\ t ∈ runQueue s.

Lemma finish_out_ok ins s t th :
  sys ins s -> gidMap s !! t = Some th -> may_finish_out s t th ->
  wsafe (finish_out t) s (fun _ s' => sys ins s').
Proof using HN.
  intros Y Ht Hm. pose proof Y as [K Hb Hp HA]. assert (Hst : st s t = Some (state th)) by (unfold st; by rewrite Ht).
  unfold finish_out. ws_step. eapply ws_get_thread; [done|]. cbn beta. ws_step. apply ws_require.
  { apply bool_decide_true. destruct Hm as [?|[?|[?|[? _]]]]; auto. }
  cbn beta. ws_steps. cbn [id]. case_bool_decide as Hq.
  - unfold remove_run. destruct Hm as [?|[?|[?|[_ Hr]]]]; [congruence..|]. ws_steps; [by apply bool_decide_true|].
    eapply (delete_ok (Some t) ins s (upd_run (remove t) s)); try done; [by apply core_remove_run| | |by right].
    + unfold on_context. rewrite Hq. by intros [].
    + by rewrite Hq.
  - destruct (decide (state th = OUT)) as [Ho|Hno].
    + assert (Hin : t ∈ outQueue s) by (apply (k_out _ _ _ _ _ K); split; congruence).
      assert (Hon : on_queue t s = true).
      { unfold on_queue. rewrite (bool_decide_true (t ∈ outQueue s)) by done. by rewrite orb_true_r. }
      rewrite Hon. unfold remove_out. ws_steps; [by apply bool_decide_true|].
      destruct (not_running_clean _ _ _ _ _ t th K Ht ltac:(congruence)) as (C1 & C2 & C3).
      destruct (k_range _ _ _ _ _ K t th Ht) as [Hlt _]. set (c := cid th) in *.
      assert (Hu : used s c t) by (apply (k_used _ _ _ _ _ K); exists th; split_and!; [done|done|by right]).
      set (s1 := upd_out (remove t) s). assert (K1 : core None None (Some t) s1) by (by apply core_remove_out).
      eapply (deschedule_wp t c th); [done|by right|exact Hu|done|by left|]. set (s2 := take_off _ _ _ _).
      assert (K2 : core (Some c) None None s2).
      { eapply take_off_core; [done|exact K1|done|by right|done|done|by right|done|done|done|by left]. }
      assert (Hr2 : forall q y, q ∈ runQueue s2 -> gidMap s2 !! q = Some y -> mask_at y c = false).
      { intros q y Hqr Hy. unfold s2 in Hy. rewrite lookup_take_off in Hy. change (runQueue s2) with (runQueue s) in Hqr.
        destruct (decide (q = t)) as [->|]; [|by apply (out_no_work N s t th c K Ht Ho eq_refl q)].
        destruct (k_run _ _ _ _ _ K t Hqr). congruence. }
      eapply push_free_wp; [exact K2|unfold idle; cbn; by rewrite fn_lookup_insert|done|exact Hr2|]. intros K3. ws_steps.
      assert (Hg2 : gidMap s2 !! t = Some (set_state BLOCKED th)) by (unfold s2; by rewrite lookup_take_off, decide_True).
      assert (Hnon : ~ on_context (set_state BLOCKED th)) by (unfold on_context; cbn; by intros [|]).
      apply (delete_ok None ins s _ t (set_state BLOCKED th) Y K3 Hg2 Hnon); [done|done|by left|].
      split; [done|]. split; [done|]. intros u. change (rv s2 u = rv s u). unfold rv, s2. rewrite lookup_take_off.
      destruct (decide (u = t)) as [->|]; [|done]. rewrite Ht. cbn. unfold run_of. cbn. by rewrite !decide_False by congruence.
    + assert (Hsb : state th = STARTED \/ state th = BLOCKED) by (unfold may_finish_out in Hm; tauto).
      rewrite (on_queue_false N None None None s t); [|done|rewrite Hst; destruct Hsb as [->| ->]; done..].
      ws_steps. eapply (delete_ok None ins s s); try done; [| |by left].
      * unfold on_context. destruct Hsb as [->| ->]; by intros [].
      * destruct Hsb as [->| ->]; done.
Qed.

(** A thread may finish in simulated code, or when it is off the barrier. *)
Definition may_finish ins s (t : Z) (th : ThreadInfo) : Prop :=
  state th = RUNNING /\ t ∉ ins /\ bar_view (bar s) (cid th) = Runs /\ markedForSleep th = false \/
  may_finish_out s t th.

Lemma finish_ok ins s pid tid th :
  sys ins s -> curPhase s < 2 ^ 64 - 1 -> gidMap s !! getGid pid tid = Some th -> may_finish ins s (getGid pid tid) th ->
  wsafe (finish numCores schedQuantum pid tid) s (fun _ s' => sys ins s').
Proof using HN.
  set (t := getGid pid tid). intros Y Hp' Ht Hm. unfold finish. fold t. ws_step. eapply ws_get_thread; [exact Ht|]. cbn beta.
  assert (Hleft : forall s1 th1, sys ins s1 -> curPhase s1 < 2 ^ 64 - 1 -> runs ins s1 t th1 (cid th1) ->
    markedForSleep th1 = false ->
    wsafe (leave numCores schedQuantum pid tid (cid th1)) s1 (fun _ s' => sys ins s' /\
      exists th', gidMap s' !! t = Some th' /\ state th' <> RUNNING /\ may_finish_out s' t th')).
  { intros s1 th1 Y1 P1 R1 M1. eapply ws_mono; [by apply (leave_ok numCores schedQuantum HN ins s1 pid tid (cid th1) th1)|].
    cbn beta. intros _ s' [Y' Hl]. split; [done|]. fold t in Hl. unfold may_finish_out.
    destruct (Hl M1) as [Hl'|Hl']; apply st_Some in Hl' as (th' & Ht' & Hs'); exists th'; rewrite Hs'; (split; [done|]; split; [done|]; auto). }
  assert (Hout : forall s1 th1, sys ins s1 -> gidMap s1 !! t = Some th1 -> state th1 <> RUNNING -> may_finish_out s1 t th1 ->
    wsafe (th ← get_thread t; _ ← (if bool_decide (state th = RUNNING) then leave numCores schedQuantum pid tid (cid th) else mret tt); finish_out t)
      s1 (fun _ s' => sys ins s')).
  { intros s1 th1 Y1 H1 Hs1 M1. ws_step. eapply ws_get_thread; [exact H1|]. cbn beta. rewrite bool_decide_false by done.
    ws_steps. by eapply finish_out_ok. }
  pose proof Y as [K Hb Hp HA].
  destruct Hm as [(Hs & Hn & Hv & Hmk)|Hm].
  - ws_step. case_bool_decide as Hf.
    + destruct (fakeLeave th) as [pc|] eqn:E; [|done]. ws_step.
      eapply ws_mono; [by apply (finishFakeLeave_ok ins s t th pc Y Ht)|]. cbn beta. intros _ s1 (Y1 & H1 & Eb & Ep & _ & _).
      eapply ws_mono; [apply (Hleft s1 (set_fakeLeave None th) Y1); [by rewrite Ep| |done]|].
      * split; try done. cbn. by rewrite Eb.
      * cbn beta. intros _ s2 (Y2 & th2 & H2 & Hs2 & M2). by eapply Hout.
    + ws_steps. eapply ws_get_thread; [exact Ht|]. cbn beta. rewrite bool_decide_true by done. ws_step.
      eapply ws_mono; [apply (Hleft s th Y Hp'); [|done]|].
      * split; done.
      * cbn beta. intros _ s2 (Y2 & th2 & H2 & Hs2 & M2). by eapply finish_out_ok.
  - assert (Hnr : state th <> RUNNING) by (destruct Hm as [->|[->|[->|[-> _]]]]; done).
    destruct (not_running_clean _ _ _ _ _ t th K Ht Hnr) as (_ & C2 & _). rewrite bool_decide_false by (rewrite C2; tauto).
    do 2 ws_step. by eapply Hout.
Qed.

(** ** Sleeping, masks, system calls *)

Lemma markForSleep_ok ins s pid tid th c w :
  sys ins s -> runs ins s (getGid pid tid) th c -> markedForSleep th = false -> curPhase s < w ->
  wsafe (markForSleep pid tid w) s (fun _ s' => sys ins s').
Proof.
  set (t := getGid pid tid). intros Y R Hm Hw. pose proof (runs_hand _ _ _ _ _ _ Y R) as Hh. destruct R as [Ht Hs Hc Hn Hv Hf].
  pose proof Y as [K Hb Hp HA]. unfold markForSleep. fold t. ws_step. eapply ws_get_thread; [exact Ht|]. cbn beta.
  ws_step. apply ws_require; [by rewrite Hm|]. cbn beta. eapply ws_upd_thread; [exact Ht|]. cbn beta.
  split; [|done|done|].
  - eapply (core_update numCores); [exact K|exact Ht|try done..].
    + apply (k_range _ _ _ _ _ K t th Ht).
    + congruence.
  - eapply (agrees_upd N ins _ _ _ t _ (mkRun (cid th) true (fakeLeave th) (handoffThread th)) HA); [exact (rv_running s t th Ht Hs)|done|done|done|].
    intros u. rewrite rv_put. destruct (decide (u = t)); [|done]. unfold run_of. cbn. by rewrite decide_True.
Qed.

Lemma notifySleepEnd_ok ins s pid tid th :
  sys ins s -> gidMap s !! getGid pid tid = Some th -> state th = SLEEPING \/ state th = BLOCKED ->
  wsafe (notifySleepEnd pid tid) s (fun _ s' => sys ins s').
Proof.
  set (t := getGid pid tid). intros Y Ht Hs. pose proof Y as [K Hb Hp HA].
  assert (Hnr : state th <> RUNNING) by (destruct Hs as [->| ->]; done).
  destruct (not_running_clean _ _ _ _ _ t th K Ht Hnr) as (_ & _ & C3).
  unfold notifySleepEnd. fold t. ws_step. eapply ws_get_thread; [exact Ht|]. cbn beta.
  ws_step. apply ws_require; [by rewrite C3|]. cbn beta. ws_step. apply ws_require; [by apply bool_decide_true|]. cbn beta.
  case_bool_decide as Hbl; [by ws_step|]. assert (Hsl : state th = SLEEPING) by tauto.
  unfold remove_sleep. ws_steps.
  { apply bool_decide_true. cbn [id]. apply (k_sleep _ _ _ _ _ K). split; [|done]. unfold st. rewrite Ht. cbn. congruence. }
  eapply ws_upd_thread; [done|]. cbn beta.
  apply (sys_still _ _ s); [done|exact (core_awake numCores s t th (remove t) K Ht Hsl eq_refl)|].
  apply (still_put t th (set_state BLOCKED th) s Ht). unfold run_of. cbn. by rewrite !decide_False.
Qed.

(** The mask of a thread may change, as long as one that waits for a context is not allowed
    on a context that nobody runs on: it would wait for a context that is free. *)
Definition may_allow s (t : Z) (th : ThreadInfo) (m : list bool) : Prop :=
  t ∈ runQueue s -> forall c, m !! c = Some true -> mask_at th c = true \/ busy s c.

Lemma updateMask_ok ins s pid tid th m :
  sys ins s -> gidMap s !! getGid pid tid = Some th -> may_allow s (getGid pid tid) th m ->
  length m = N -> existsb id m = true ->
  wsafe (updateMask numCores pid tid m) s (fun _ s' => sys ins s').
Proof.
  set (t := getGid pid tid). intros Y Ht Hs Hl Hm. pose proof Y as [K Hb Hp HA].
  unfold updateMask. fold t. ws_steps. cbn [id]. rewrite Ht. ws_steps; [by apply bool_decide_true|]. rewrite Hm.
  eapply ws_upd_thread; [exact Ht|]. apply (sys_still _ _ s); [done| |by apply (still_put t th)].
  eapply (core_update_mask numCores); [exact K|exact Ht|try done..].
  - intros Hr c Hc. apply (Hs Hr). unfold mask_at in Hc. cbn in Hc. by destruct (m !! c) as [[]|].
  - intros Hn Hq. exact (k_word _ _ _ _ _ K t th Ht Hn Hq).
  - exact (k_marked _ _ _ _ _ K t th Ht).
Qed.

Lemma syscallLeave_ok ins s pid tid th c pc :
  sys ins s -> curPhase s < 2 ^ 64 - 1 -> runs ins s (getGid pid tid) th c ->
  wsafe (syscallLeave numCores schedQuantum pid tid c pc) s (fun _ s' => sys ins s').
Proof using HN.
  set (t := getGid pid tid). intros Y Hp' R. pose proof (runs_hand _ _ _ _ _ _ Y R) as Hh.
  pose proof (runs_used _ _ _ _ _ _ Y R) as Hu. pose proof R as [Ht Hs Hc Hn Hv Hf]. pose proof Y as [K Hb Hp HA].
  unfold syscallLeave. ws_steps. cbn [id]. unfold used in Hu. rewrite Hu. cbn [curThread]. ws_step.
  eapply ws_get_thread; [exact Ht|]. cbn beta. ws_steps; [apply Z.eqb_refl|by apply bool_decide_true|by apply bool_decide_true|].
  destruct (_ || _) eqn:E.
  { eapply ws_mono; [by apply (leave_ok numCores schedQuantum HN ins s pid tid c th)|]. by intros _ s' [? _]. }
  apply orb_false_iff in E as [[_ Hm]%orb_false_iff _].
  assert (Hnf : t ∉ fakeLeaves s) by (rewrite (k_fake _ _ _ _ _ K); intros (z & Hz & ?); congruence).
  ws_steps; [by apply bool_decide_true|]. eapply ws_upd_thread; [exact Ht|]. cbn beta. ws_steps.
  { cbn [id]. by rewrite bool_decide_false. }
  split; [|done|done|].
  - apply (core_running numCores s t th (set_fakeLeave (Some pc) th) (fun q => q ++ [t]) None K); try done.
    + apply nodup_snoc; [apply (k_fake_nodup _ _ _ _ _ K)|done].
    + intros u. rewrite elem_snoc. destruct (decide (u = t)) as [->|]; [split; [done|by right]|].
      split; [by intros [|]|by left].
  - eapply (agrees_upd N ins _ _ _ t _ (mkRun (cid th) false (Some pc) None) HA); [exact (rv_running s t th Ht Hs)|done|done|done|].
    intros u. transitivity (rv (put t (set_fakeLeave (Some pc) th) s) u); [done|]. rewrite rv_put.
    destruct (decide (u = t)); [|done]. unfold run_of. cbn. by rewrite decide_True, Hm, Hh.
Qed.

(** ** Futex wakes *)

Lemma notifyFutexWakeStart_ok ins s pid tid th m :
  sys ins s -> gidMap s !! getGid pid tid = Some th -> action (futexJoin th) = FJA_NONE ->
  wsafe (notifyFutexWakeStart pid tid m) s (fun _ s' => sys ins s').
Proof.
  intros Y Ht Ha. unfold notifyFutexWakeStart. ws_step. eapply ws_get_thread; [exact Ht|]. cbn beta.
  ws_steps; [by apply bool_decide_true|]. eapply ws_upd_thread; [exact Ht|]. cbn beta.
  apply (futexJoin_ok ins s); [done|apply core_wakeups, Y|done|done].
Qed.

Lemma notifyFutexWakeEnd_ok ins s pid tid th w :
  sys ins s -> gidMap s !! getGid pid tid = Some th ->
  wsafe (notifyFutexWakeEnd pid tid w) s (fun _ s' => sys ins s').
Proof.
  intros Y Ht. unfold notifyFutexWakeEnd. eapply ws_upd_thread; [exact Ht|]. cbn beta.
  apply (futexJoin_ok ins s); [done|apply Y|done|done].
Qed.

Lemma notifyFutexWaitWoken_ok ins s pid tid th :
  sys ins s -> gidMap s !! getGid pid tid = Some th ->
  wsafe (notifyFutexWaitWoken pid tid) s (fun _ s' => sys ins s').
Proof.
  intros Y Ht. unfold notifyFutexWaitWoken. eapply ws_upd_thread; [exact Ht|]. cbn beta.
  apply (futexJoin_ok ins s); [done|apply Y|done|done].
Qed.

(** ** Driving time while nobody runs *)

Definition cid_of s (t : Z) : nat := from_option cid 0%nat (gidMap s !! t).

(** If as many contexts are used as threads are out, nobody runs. *)
Lemma all_out s t th :
  core None None None s -> scheduledThreads s = Z.of_nat (length (outQueue s)) ->
  gidMap s !! t = Some th -> state th <> RUNNING.
Proof.
  intros K He Ht Hs. rewrite (k_scheduled _ _ _ _ _ K) in He. apply Nat2Z.inj in He.
  assert (Hu : forall u z, gidMap s !! u = Some z -> on_context z -> used s (cid_of s u) u).
  { intros u z Hz Hon. apply (k_used _ _ _ _ _ K). exists z. unfold cid_of. rewrite Hz. done. }
  assert (Hall : forall u, u ∈ t :: outQueue s -> exists z, gidMap s !! u = Some z /\ on_context z).
  { intros u [->|Hu']%elem_of_cons; [exists th; split; [done|by left]|].
    apply (k_out _ _ _ _ _ K) in Hu' as [Hu' _]. apply st_Some in Hu' as (z & Hz & Hzs). exists z. split; [done|by right]. }
  assert (Hle : (length (cid_of s <$> t :: outQueue s) <= used_count N s)%nat).
  { apply NoDup_incl_length.
    - apply NoDup_ListNoDup. apply NoDup_fmap_2_strong.
      + intros u v Hu1 Hv1 Heq. destruct (Hall u Hu1) as (z & Hz & Hzo), (Hall v Hv1) as (w & Hw & Hwo).
        pose proof (Hu u z Hz Hzo) as H1. rewrite Heq in H1. exact (used_inj _ _ _ _ H1 (Hu v w Hw Hwo)).
      + constructor; [|apply (k_out_nodup _ _ _ _ _ K)]. rewrite (k_out _ _ _ _ _ K).
        intros [Hx _]. unfold st in Hx. rewrite Ht in Hx. cbn in Hx. congruence.
    - intros c Hc%list_elem_of_In. apply list_elem_of_In. apply list_elem_of_fmap in Hc as (u & -> & Hu1).
      destruct (Hall u Hu1) as (z & Hz & Hzo). apply list_elem_of_filter. split.
      + pose proof (Hu u z Hz Hzo) as H1. unfold used in H1. by rewrite H1.
      + apply elem_of_seq. split; [lia|]. unfold cid_of. rewrite Hz. cbn. apply (k_range _ _ _ _ _ K u z Hz). }
  rewrite length_fmap in Hle. cbn in Hle. lia.
Qed.

Lemma drive_time_ok ins s :
  sys ins s -> curPhase s < 2 ^ 64 - 1 ->
  wsafe (drive_time numCores schedQuantum) s (fun _ s' => sys ins s').
Proof using HN.
  intros Y Hp'. pose proof Y as [K Hb Hp HA]. unfold drive_time. ws_steps. cbn [id].
  destruct (_ && _) eqn:E; [|by ws_step]. apply andb_true_iff in E as [E%Z.eqb_eq _].
  assert (Hno : forall t, rv s t = None).
  { intros t. unfold rv. destruct (gidMap s !! t) as [th|] eqn:Ht; [|done]. cbn. unfold run_of.
    rewrite decide_False; [done|]. by eapply all_out. }
  eapply ws_mono; [apply (callback_ok N schedQuantum HN s K); [by intros t x; rewrite Hno|lia]|].
  cbn beta. intros _ s' (K' & Eb & Ep & Er & _). split; [done|by rewrite Eb|lia|].
  rewrite Eb. eapply (agrees_ext N); [|done|exact HA]. intros t. specialize (Er t). rewrite Hno in Er |- *. by destruct (rv s' t).
Qed.

(** ** The system *)

Inductive op :=
  | Start (pid tid : Z) (m : list bool) | Join (pid tid : Z) | Leave (pid tid : Z) (c : nat)
  | Sync (c : nat) | SyncEnd (t : Z) | Finish (pid tid : Z)
  | MarkForSleep (pid tid w : Z) | NotifySleepEnd (pid tid : Z) | UpdateMask (pid tid : Z) (m : list bool)
  | SyscallLeave (pid tid : Z) (c : nat) (pc : Z)
  | WakeStart (pid tid m : Z) | WakeEnd (pid tid w : Z) | WaitWoken (pid tid : Z) | DriveTime.

Definition exec (o : op) : prog Scheduler unit :=
  match o with
  | Start pid tid m => start numCores pid tid m
  | Join pid tid => join numCores schedQuantum pid tid
  | Leave pid tid c => leave numCores schedQuantum pid tid c
  | Sync c => sync numCores schedQuantum c
  | SyncEnd t => sync_end numCores schedQuantum t
  | Finish pid tid => finish numCores schedQuantum pid tid
  | MarkForSleep pid tid w => markForSleep pid tid w
  | NotifySleepEnd pid tid => notifySleepEnd pid tid
  | UpdateMask pid tid m => updateMask numCores pid tid m
  | SyscallLeave pid tid c pc => syscallLeave numCores schedQuantum pid tid c pc
  | WakeStart pid tid m => notifyFutexWakeStart pid tid m
  | WakeEnd pid tid w => notifyFutexWakeEnd pid tid w
  | WaitWoken pid tid => notifyFutexWaitWoken pid tid
  | DriveTime => drive_time numCores schedQuantum
  end.

(** When a call may be made: by a thread in simulated code ([runs]), by one that
    returns from a system call, or by the runtime for a thread that is not running.  Three
    kinds of calls that the code can make are left out, because they break the scheduler:
    a return from a futex wake that the account does not admit ([wake_counted];
    [late_wait_asserts] of SchedRun.v), an update of the mask that lets a thread of the run
    queue on a context that nobody runs on ([may_allow]; [updateMask_queued_asserts]), and
    the end of a thread that is marked for sleep ([may_finish]; [finish_marked_asserts]). *)
Definition enabled ins s (o : op) : Prop :=
  match o with
  | Start pid tid m => gidMap s !! getGid pid tid = None /\ length m = N /\ existsb id m = true
  | Join pid tid => exists th, gidMap s !! getGid pid tid = Some th /\ may_join s th
  | Leave pid tid c => exists th, runs ins s (getGid pid tid) th c
  | Sync c => exists t th, runs ins s t th c /\ markedForSleep th = false
  | SyncEnd t => exists th, gidMap s !! t = Some th /\ t ∈ ins /\ bar_view (bar s) (cid th) = Runs
  | Finish pid tid => exists th, gidMap s !! getGid pid tid = Some th /\ may_finish ins s (getGid pid tid) th
  | MarkForSleep pid tid w => exists th c, runs ins s (getGid pid tid) th c /\ markedForSleep th = false /\ curPhase s < w
  | NotifySleepEnd pid tid => exists th, gidMap s !! getGid pid tid = Some th /\ (state th = SLEEPING \/ state th = BLOCKED)
  | UpdateMask pid tid m =>
      exists th, gidMap s !! getGid pid tid = Some th /\ may_allow s (getGid pid tid) th m /\
        length m = N /\ existsb id m = true
  | SyscallLeave pid tid c pc => exists th, runs ins s (getGid pid tid) th c
  | WakeStart pid tid m => exists th, gidMap s !! getGid pid tid = Some th /\ action (futexJoin th) = FJA_NONE
  | WakeEnd pid tid _ | WaitWoken pid tid => is_Some (gidMap s !! getGid pid tid)
  | DriveTime => True
  end.

(** The threads inside [sync] afterwards. *)
Definition ins_after ins s (o : op) : gset Z :=
  match o with
  | Sync c => match curThread (contexts s c) with Some t => {[t]} ∪ ins | None => ins end
  | SyncEnd t => ins ∖ {[t]}
  | _ => ins
  end.

Lemma exec_ok ins s o :
  sys ins s -> curPhase s < 2 ^ 64 - 1 -> enabled ins s o ->
  wsafe (exec o) s (fun _ s' => sys (ins_after ins s o) s').
Proof using HN.
  intros Y Hp He. destruct o; cbn [exec ins_after]; cbn [enabled] in He.
  - destruct He as (? & ? & ?). by apply start_ok.
  - destruct He as (th & Ht & Hj). by eapply sched_join_ok.
  - destruct He as (th & R). eapply ws_mono; [by eapply (leave_ok numCores schedQuantum HN)|]. by intros _ s' [? _].
  - destruct He as (t & th & R & Hm). pose proof (runs_used _ _ _ _ _ _ Y R) as Hu. unfold used in Hu. rewrite Hu. by eapply sched_sync_ok.
  - destruct He as (th & ? & ? & ?). by eapply sync_end_ok.
  - destruct He as (th & ? & ?). by eapply finish_ok.
  - destruct He as (th & c & ? & ? & ?). by eapply markForSleep_ok.
  - destruct He as (th & ? & ?). by eapply notifySleepEnd_ok.
  - destruct He as (th & ? & ? & ? & ?). by eapply updateMask_ok.
  - destruct He as (th & ?). by eapply syscallLeave_ok.
  - destruct He as (th & ? & ?). by eapply notifyFutexWakeStart_ok.
  - destruct He as [th ?]. by eapply notifyFutexWakeEnd_ok.
  - destruct He as [th ?]. by eapply notifyFutexWaitWoken_ok.
  - by apply drive_time_ok.
Qed.

(** The states the simulator can reach, with the threads inside [sync]. *)
Inductive reach : gset Z -> Scheduler -> Prop :=
  | reach_new b g : bar_inv b -> (forall c, bar_view b c = Away) -> rand_ok g -> reach ∅ (new numCores b g)
  | reach_op ins s o s' : reach ins s -> curPhase s < 2 ^ 64 - 1 -> enabled ins s o -> exec o s = Ok (tt, s') ->
      reach (ins_after ins s o) s'.

Lemma new_sys b g : bar_inv b -> (forall c, bar_view b c = Away) -> rand_ok g -> sys ∅ (new numCores b g).
Proof.
  intros Hb Hv Hg. assert (Hrv : forall t, rv (new numCores b g) t = None) by (intros t; unfold rv; cbn; by rewrite lookup_empty).
  split; [|done|done|].
  - split; cbn; try done.
    + intros c t. unfold used. cbn. split; [done|]. by intros (th & Ht & _).
    + intros c. by left.
    + apply NoDup_seq.
    + intros c. rewrite elem_of_seq. unfold idle. cbn. split; [intros; split_and!; (done || lia)|intros (? & _); lia].
    + constructor.
    + intros t. unfold st. cbn. rewrite lookup_empty. split; [by intros ?%elem_of_nil|by intros [? _]].
    + constructor.
    + intros t. unfold st. cbn. rewrite lookup_empty. split; [by intros ?%elem_of_nil|by intros [? _]].
    + constructor.
    + constructor.
    + by intros t ?%elem_of_nil.
    + constructor.
    + intros t. split; [by intros ?%elem_of_nil|]. by intros (th & Ht & _).
    + unfold used_count. cbn. clear. generalize 0%nat. induction numCores as [|n IH]; intros i; [done|].
      cbn [seq]. rewrite filter_cons. by rewrite decide_False.
  - split.
    + intros c _. cbn. rewrite Hv. split; [done|]. intros (t & x & Hx & _). by rewrite Hrv in Hx.
    + intros t x. by rewrite Hrv.
    + intros t x d. by rewrite Hrv.
    + intros t. by intros ?%elem_of_empty.
Qed.

Lemma reach_sys ins s : reach ins s -> sys ins s.
Proof using HN.
  induction 1 as [b g Hb Hv Hg|ins s o s' _ IH Hp He Ho]; [by apply new_sys|].
  pose proof (exec_ok ins s o IH Hp He) as Hx. unfold wsafe in Hx. by rewrite Ho in Hx.
Qed.

(** ** Properties *)

(** C16: in every reachable state, every operation its caller may make ([enabled]) trips none
    of the scheduler's assertions and panics, and leads to a reachable state; the model's
    bound on the random draws is the only way not to get a result.  Not among them are
    returns from a futex wake whose waits were miscounted, mask updates that let a waiting
    thread on a context nobody runs on, and the end of a thread marked for sleep. *)
Theorem sched_safe ins s o :
  reach ins s -> curPhase s < 2 ^ 64 - 1 -> enabled ins s o ->
  (exists s', exec o s = Ok (tt, s') /\ reach (ins_after ins s o) s') \/ exec o s = Fail NoFuel.
Proof using HN.
  intros Hr Hp He. pose proof (exec_ok ins s o (reach_sys _ _ Hr) Hp He) as Hx. unfold wsafe in Hx.
  destruct (exec o s) as [[[] s']|e] eqn:E; [|right; congruence].
  left. exists s'. split; [done|]. by apply (reach_op ins s o s').
Qed.

(** In every reachable state threads, contexts and queues agree.  A context is used by
    the one running or out thread that has its number, and idle exactly when it is on the free
    list; the out queue holds the out threads, the sleep queue the sleeping ones in the order
    of their deadlines, none of which has passed; the run queue holds queued threads; a thread
    is on its queue once; and [scheduledThreads] is the number of used contexts. *)
Theorem sched_invariant ins s :
  reach ins s ->
  (forall c t, contexts s c = mkCtx USED (Some t) <->
    exists th, gidMap s !! t = Some th /\ cid th = c /\ (state th = RUNNING \/ state th = OUT)) /\
  (forall c, c ∈ freeList s <-> (c < N)%nat /\ contexts s c = mkCtx IDLE None) /\
  (forall t, t ∈ outQueue s <-> exists th, gidMap s !! t = Some th /\ state th = OUT) /\
  (forall t, t ∈ sleepQueue s <-> exists th, gidMap s !! t = Some th /\ state th = SLEEPING) /\
  (forall t th, gidMap s !! t = Some th -> state th = SLEEPING -> curPhase s < wakeupPhase th) /\
  Sorted.StronglySorted (fun a b => wk s a <= wk s b) (sleepQueue s) /\
  (forall t, t ∈ runQueue s -> exists th, gidMap s !! t = Some th /\ state th = QUEUED) /\
  NoDup (freeList s) /\ NoDup (outQueue s) /\ NoDup (sleepQueue s) /\ NoDup (runQueue s) /\
  scheduledThreads s = Z.of_nat (used_count N s) /\ (used_count N s <= N)%nat.
Proof using HN.
  intros [K Hb Hp HA]%reach_sys. split_and!; try apply K.
  - intros c. rewrite (k_free _ _ _ _ _ K). unfold idle. split; [tauto|]. intros [? ?]. split_and!; done.
  - intros t. rewrite (k_out _ _ _ _ _ K), st_Some. split; [tauto|]. intros ?. by split.
  - intros t. rewrite (k_sleep _ _ _ _ _ K), st_Some. split; [tauto|]. intros ?. by split.
  - intros t Ht. apply st_Some. by apply (k_run _ _ _ _ _ K).
  - apply used_count_le.
Qed.

(** C17: no thread is lost.  In every reachable state a queued thread is on the run queue, or
    exactly one thread, which runs and is inside [sync], will hand its context to it. *)
Theorem sched_no_thread_lost ins s t th :
  reach ins s -> gidMap s !! t = Some th -> state th = QUEUED ->
  (t ∈ runQueue s /\ forall v x, gidMap s !! v = Some x -> handoffThread x <> Some t) \/
  (t ∉ runQueue s /\ exists v x, gidMap s !! v = Some x /\ handoffThread x = Some t /\ state x = RUNNING /\ v ∈ ins /\
    forall v' x', gidMap s !! v' = Some x' -> handoffThread x' = Some t -> v' = v).
Proof using HN.
  intros [K Hb Hp HA]%reach_sys Ht Hs. assert (Hst : st s t = Some QUEUED) by (unfold st; rewrite Ht; cbn; congruence).
  destruct (k_queued _ _ _ _ _ K t Hst ltac:(done)) as [Hr|(v & x & Hv & Hx)].
  - left. split; [done|]. intros v x Hv Hx. by destruct (k_hand _ _ _ _ _ K v x t Hv Hx) as (_ & _ & ? & _).
  - right. destruct (k_hand _ _ _ _ _ K v x t Hv Hx) as (Hxs & _ & Hr & _). split; [done|]. exists v, x. split_and!; try done.
    + by apply (v_hand _ _ _ _ HA v _ t (rv_running s v x Hv Hxs)).
    + intros v' x' Hv' Hx'. by apply (k_hand_inj _ _ _ _ _ K v' v x' x t).
Qed.

(** C18: no context idles while a thread waits for it, unless an update of its mask lets it:
    as long as no update lets a waiting thread on a context that nobody runs on (and with
    the other limits of [enabled]), a context that a thread of the run queue may use is
    neither free nor kept by an out thread: it runs a thread. *)
Theorem sched_work_conserving ins s q th c :
  reach ins s -> q ∈ runQueue s -> gidMap s !! q = Some th -> mask_at th c = true ->
  c ∉ freeList s /\ exists t x, contexts s c = mkCtx USED (Some t) /\ gidMap s !! t = Some x /\ state x = RUNNING.
Proof using HN.
  intros [K Hb Hp HA]%reach_sys Hq Ht Hm.
  destruct (k_work _ _ _ _ _ K q th c Hq Ht Hm) as [|(t & x & Hu & Hx & Hs)]; [done|]. split; [|by exists t, x].
  rewrite (k_free _ _ _ _ _ K). intros (_ & Hi & _). by apply (idle_used s c t).
Qed.

(** C19: the simulation does not deadlock, unless an update of a mask makes it: as long as
    none lets a waiting thread on a context that nobody runs on (and with the other limits
    of [enabled]), where a thread runs, or waits for a context it may use, the barrier lets
    some running thread execute. *)
Theorem sched_no_deadlock ins s t th :
  reach ins s -> gidMap s !! t = Some th ->
  state th = RUNNING \/ state th = QUEUED /\ (exists c, mask_at th c = true) ->
  exists u x, gidMap s !! u = Some x /\ state x = RUNNING /\ bar_view (bar s) (cid x) = Runs.
Proof using HN.
  intros [K Hb Hp HA]%reach_sys Ht Hs.
  assert (Hr : exists v y, gidMap s !! v = Some y /\ state y = RUNNING).
  { destruct Hs as [Hs|[Hs [c Hm]]]; [by exists t, th|].
    assert (Hst : st s t = Some QUEUED) by (unfold st; rewrite Ht; cbn; congruence).
    destruct (k_queued _ _ _ _ _ K t Hst ltac:(done)) as [Hr|(v & x & Hv & Hx)].
    - destruct (k_work _ _ _ _ _ K t th c Hr Ht Hm) as [|(v & y & _ & Hv & Hy)]; [done|]. by exists v, y.
    - exists v, x. split; [done|]. by apply (k_hand _ _ _ _ _ K v x t). }
  destruct Hr as (v & y & Hv & Hy). destruct (k_range _ _ _ _ _ K v y Hv) as [Hlt _].
  assert (Hex : exists c, (c < N)%nat /\ bar_view (bar s) c = Runs).
  { assert (Hne : bar_view (bar s) (cid y) <> Away) by (apply (v_view _ _ _ _ HA _ Hlt); exists v, (mkRun (cid y) (markedForSleep y) (fakeLeave y) (handoffThread y)); split; [by apply rv_running|done]).
    destruct (bar_view (bar s) (cid y)) eqn:E; [done| | |by exists (cid y)]; apply (bar_live (bar s) (cid y) Hb); auto. }
  destruct Hex as (c & Hc & Hcv). assert (Hne : bar_view (bar s) c <> Away) by congruence.
  apply (v_view _ _ _ _ HA c Hc) in Hne as (u & x & (z & Hz & Hzs & ->)%rv_Some & Hcid). exists u, z. cbn in Hcid.
  by rewrite Hcid.
Qed.

End SchedSys.
End SchedSys.
