(* ===== verification/SchedRun.v ===== *)
(** The scheduler on the phase barrier of Barrier.v and the generator of Mtrand.v: runs of
    a machine with two contexts, at which the scheduler's theorems are applied. *)
From S2P Require Import Prelude Effects Mtrand BarrierIface Barrier Scheduler SchedInv SchedProof SchedOps SchedSys.

Module SchedRun.
Import BarrierIface Rand Scheduler SchedInv SchedProof SchedOps SchedSys.
#[local] Existing Instance Barrier.mt_source.
#[local] Existing Instance Barrier.mt_laws.
#[local] Existing Instance Barrier.barrier_iface.

Definition cores : nat := 2.
Definition quantum : Z := 1.
Notation machine := (Scheduler (B := Barrier.Barrier.Barrier (G := MTRand.MTRand)) (G := MTRand.MTRand)).
Lemma cores_fit : Z.of_nat cores < 2 ^ 32 - 1.
Proof. done. Qed.
#[local] Instance laws : PhaseBarrierLaws (Barrier.Barrier.Barrier (G := MTRand.MTRand)) cores := Barrier.Barrier.barrier_laws cores cores_fit.

Definition s0 : machine := new cores (Barrier.Barrier.new 2 (MTRand.seed 195522871)) (MTRand.seed 24817537332).
Definition after (s : machine) (o : op) : machine :=
  match exec cores quantum o s with Ok (_, s') => s' | Fail _ => s end.
Definition ok (s : machine) (o : op) : bool :=
  match exec cores quantum o s with Ok _ => true | Fail _ => false end.
Definition thr (s : machine) (t : Z) : ThreadInfo :=
  default (mkTh STARTED 0 None 0 false false 0 [] None (mkFJ FJA_NONE 0 0)) (gidMap s !! t).

(** Two threads that may only use context 0: the first one runs there, the second one waits. *)
Definition on0 : list bool := [true; false].
Definition s1 := after s0 (Start 0 0 on0).
Definition s2 := after s1 (Start 0 1 on0).
Definition s3 := after s2 (Join 0 0).
Definition s4 := after s3 (Join 0 1).
(** The first one ends its phase, and is told to hand the context over. *)
Definition s5 := after s4 (Sync 0).

Definition in5 : gset Z := ins_after ∅ s4 (Sync 0).
Definition s6 := after s5 (SyncEnd 0).

Ltac compute_op := vm_compute; reflexivity.

Lemma reach_after ins (s : machine) o :
  reach cores quantum ins s -> curPhase s < 2 ^ 64 - 1 -> enabled cores ins s o -> ok s o = true ->
  reach cores quantum (ins_after ins s o) (after s o).
Proof.
  intros Hr Hp He Hok. apply (reach_op cores quantum ins s o); [done..|]. unfold ok, after in *.
  by destruct (exec cores quantum o s) as [[[] s']|].
Qed.

Lemma reach_s2 : reach cores quantum ∅ s2.
Proof.
  apply (reach_after ∅ s1 (Start 0 1 on0)).
  - apply (reach_after ∅ s0 (Start 0 0 on0)); [|vm_compute; done|split_and!; compute_op|compute_op].
    apply reach_new; [|done|apply MTRand.seed_wf].
    split_and!; [apply Barrier.new_inv; [lia|apply MTRand.seed_wf]..|done].
  - vm_compute. done.
  - split_and!; compute_op.
  - compute_op.
Qed.

Lemma may_join_started (s : machine) th : futexJoin th = mkFJ FJA_NONE 0 0 -> state th = STARTED -> may_join s th.
Proof. intros Hj Hs. split; [by rewrite Hj|auto]. Qed.

Lemma reach_s4 : reach cores quantum ∅ s4.
Proof.
  apply (reach_after ∅ s3 (Join 0 1)); [apply (reach_after ∅ s2 (Join 0 0)); [apply reach_s2| | |]| | |];
    try compute_op; try (vm_compute; done).
  - exists (thr s2 0). split; [compute_op|]. apply may_join_started; compute_op.
  - exists (thr s3 1). split; [compute_op|]. apply may_join_started; compute_op.
Qed.

Lemma runs_s4 : runs cores ∅ s4 0 (thr s4 0) 0.
Proof. split; try compute_op. set_solver. Qed.

Lemma enabled_sync : enabled cores ∅ s4 (Sync 0).
Proof. exists 0, (thr s4 0). split; [apply runs_s4|compute_op]. Qed.

Lemma reach_s5 : reach cores quantum in5 s5.
Proof.
  apply (reach_after ∅ s4 (Sync 0)); [apply reach_s4|vm_compute; done|apply enabled_sync|compute_op].
Qed.

(** Thread 0 ends its phase: the time slice is over. *)
Lemma sched_safe_witness :
  (exists s', exec cores quantum (Sync 0) s4 = Ok (tt, s') /\ reach cores quantum (ins_after ∅ s4 (Sync 0)) s') \/
  exec cores quantum (Sync 0) s4 = Fail NoFuel.
Proof. apply (sched_safe cores quantum ltac:(done) ∅ s4 (Sync 0)); [apply reach_s4|vm_compute; done|apply enabled_sync]. Defined.

Lemma sched_invariant_witness :
  contexts s5 0 = mkCtx USED (Some 0) /\ 1%nat ∈ freeList s5 /\ scheduledThreads s5 = 1 /\ (used_count cores s5 <= cores)%nat.
Proof.
  destruct (sched_invariant cores quantum ltac:(done) in5 s5 reach_s5) as (_ & Hf & _ & _ & _ & _ & _ & _ & _ & _ & _ & Hc & Hle).
  split_and!; [compute_op|apply Hf; split; [unfold cores; lia|compute_op]|compute_op|exact Hle].
Defined.

(** Thread 1 is off the run queue: thread 0 will hand it the context. *)
Lemma sched_no_thread_lost_witness :
  1 ∉ runQueue s5 /\ ((1 ∈ runQueue s5 /\ forall v x, gidMap s5 !! v = Some x -> handoffThread x <> Some 1) \/
  (1 ∉ runQueue s5 /\ exists v x, gidMap s5 !! v = Some x /\ handoffThread x = Some 1 /\ state x = RUNNING /\ v ∈ in5 /\
    forall v' x', gidMap s5 !! v' = Some x' -> handoffThread x' = Some 1 -> v' = v)).
Proof.
  split; [by vm_compute; intros ?%elem_of_nil|].
  apply (sched_no_thread_lost cores quantum ltac:(done) in5 s5 1 (thr s5 1)); [apply reach_s5|compute_op|compute_op].
Defined.

Lemma sched_work_conserving_witness :
  0%nat ∉ freeList s4 /\ exists t x, contexts s4 0 = mkCtx USED (Some t) /\ gidMap s4 !! t = Some x /\ state x = RUNNING.
Proof.
  apply (sched_work_conserving cores quantum ltac:(done) ∅ s4 1 (thr s4 1)); [apply reach_s4| |compute_op|compute_op].
  vm_compute. by left.
Defined.

Lemma sched_no_deadlock_witness :
  exists u x, gidMap s5 !! u = Some x /\ state x = RUNNING /\ bar_view (bar s5) (cid x) = Runs.
Proof.
  apply (sched_no_deadlock cores quantum ltac:(done) in5 s5 1 (thr s5 1)); [apply reach_s5|compute_op|].
  right. split; [compute_op|]. exists 0%nat. compute_op.
Defined.

(** After the hand-off the threads have changed places. *)
Example handed_over : map (state ∘ thr s6) [0; 1] = [QUEUED; RUNNING] /\ runQueue s6 = [0].
Proof. split; compute_op. Qed.

(** A mask update of a thread that waits in the run queue, which [sched_setaffinity] on
    another thread makes, breaks the scheduler: no context is offered to the thread though
    context 1 is free and allowed, and the end of the time slice trips [assert(victimTh)]. *)
Theorem updateMask_queued_asserts :
  reach cores quantum ∅ s4 /\ enabled cores ∅ s4 (Sync 0) /\ state (thr s4 1) = QUEUED /\
  ok s4 (UpdateMask 0 1 [false; true]) = true /\
  let s := after s4 (UpdateMask 0 1 [false; true]) in
  1%nat ∈ freeList s /\ 1 ∈ runQueue s /\ mask_at (thr s 1) 1 = true /\
  exec cores quantum (Sync 0) s = Fail AssertFailed.
Proof.
  split; [apply reach_s4|]. split; [apply enabled_sync|]. split; [compute_op|]. split; [compute_op|]. cbv zeta.
  split; [apply (bool_decide_unpack _); vm_compute; exact I|]. split; [apply (bool_decide_unpack _); vm_compute; exact I|].
  split; compute_op.
Qed.

(** ** Futex wakes

    Thread 1 waits and thread 0 wakes it: when the wait has been counted, the wake is
    matched with it and the account is empty again. *)
Definition both : list bool := [true; true].
Fixpoint after_all (s : machine) (l : list op) : machine :=
  match l with [] => s | o :: l => after_all (after s o) l end.
Fixpoint all_ok (s : machine) (l : list op) : bool :=
  match l with [] => true | o :: l => ok s o && all_ok (after s o) l end.
Definition two_run : list op := [Start 0 0 both; Start 0 1 both; Join 0 0; Join 0 1; Leave 0 1 1].
Definition wake (n woken : Z) : list op := [WakeStart 0 0 n; Leave 0 0 0; WakeEnd 0 0 woken].

Example wake_matches :
  let l := two_run ++ wake 1 1 ++ [WaitWoken 0 1; Join 0 1] in let s := after_all s0 l in
  all_ok s0 l = true /\ (unmatchedFutexWakeups s, maxAllowedFutexWakeups s) = (1, 1) /\
  wake_counted s (thr s 0) /\ ok s (Join 0 0) = true /\
  (unmatchedFutexWakeups (after s (Join 0 0)), maxAllowedFutexWakeups (after s (Join 0 0))) = (0, 0).
Proof.
  cbv zeta. split; [compute_op|]. split; [compute_op|]. split; [|split; compute_op].
  vm_compute. by split_and!.
Qed.

(** Thread 0 gives up on its wait, which then is counted against its next wake, of nobody:
    the assertion that no more waits were matched than allowed fails. *)
Example late_wait_asserts :
  let l := two_run ++ wake 1 1 ++ [Join 0 0] ++ firstn 2 (wake 1 0) ++ [WaitWoken 0 1; Join 0 1; WakeEnd 0 0 0] in
  all_ok s0 l = true /\ exec cores quantum (Join 0 0) (after_all s0 l) = Fail AssertFailed.
Proof. split; compute_op. Qed.

(** A thread that is marked for sleep and finishes is put on the sleep queue. *)
Example finish_marked_asserts :
  let l := [Start 0 0 both; Join 0 0; MarkForSleep 0 0 5] in
  all_ok s0 l = true /\ exec cores quantum (Finish 0 0) (after_all s0 l) = Fail AssertFailed.
Proof. split; compute_op. Qed.

End SchedRun.
