(* ===== verification/UMon.v ===== *)
(** The utility monitor (utility_monitor.h, utility_monitor.cpp): sampled sets of
    recency stacks that count the hits at each depth.  Its miss curve is what the
    sampled accesses would miss in an LRU cache of every associativity. *)
From S2P Require Import Prelude Mtrand Hash.

Module UMon.
Import H3.

(** A node of a set's list; [next] is the index of another node of the set. *)
Record Node := mkNode { addr : Z; next : option nat }.

Record UMon := mkUMon {
  umonLines : Z;
  samplingFactor : Z;
  buckets : nat;
  sets : Z;
  samplingFactorBits : Z;
  setsBits : Z;
  curWayHits : nat -> Z;
  curMisses : Z;
  array : nat -> nat -> Node;
  heads : nat -> nat;
  hf : H3HashFamily
}.

Definition set_hits (f : nat -> Z) (u : UMon) : UMon :=
  mkUMon (umonLines u) (samplingFactor u) (buckets u) (sets u) (samplingFactorBits u) (setsBits u)
    f (curMisses u) (array u) (heads u) (hf u).
Definition set_misses (m : Z) (u : UMon) : UMon :=
  mkUMon (umonLines u) (samplingFactor u) (buckets u) (sets u) (samplingFactorBits u) (setsBits u)
    (curWayHits u) m (array u) (heads u) (hf u).
Definition set_node (s i : nat) (x : Node) (u : UMon) : UMon :=
  mkUMon (umonLines u) (samplingFactor u) (buckets u) (sets u) (samplingFactorBits u) (setsBits u)
    (curWayHits u) (curMisses u) (<[s := <[i := x]> (array u s)]> (array u)) (heads u) (hf u).
Definition set_head (s i : nat) (u : UMon) : UMon :=
  mkUMon (umonLines u) (samplingFactor u) (buckets u) (sets u) (samplingFactorBits u) (setsBits u)
    (curWayHits u) (curMisses u) (array u) (<[s := i]> (heads u)) (hf u).

(** [while (tmp >>= 1) bits++] of a [uint32_t]. *)
Fixpoint count_bits (fuel : nat) (tmp : Z) : Z :=
  match fuel with
  | O => 0
  | S fuel => let tmp := Z.shiftr tmp 1 in if tmp =? 0 then 0 else 1 + count_bits fuel tmp
  end.

Definition init_node (b j : nat) : Node := mkNode 0 (if (S j <? b)%nat then Some (S j) else None).

Definition new (bankLines umonLines : Z) (buckets : nat) : res UMon :=
  let samplingFactor := bankLines / umonLines in
  let sets := umonLines / Z.of_nat buckets in
  hf ← H3HashFamily_new 2 32 0xF000BAAD;
  Ok (mkUMon umonLines samplingFactor buckets sets (count_bits 32 samplingFactor) (count_bits 32 sets)
        (fun _ => 0) 0 (fun _ => init_node buckets) (fun _ => 0%nat) hf).

(** [~(((uint64_t)-1LL) << bits)]. *)
Definition mask (bits : Z) : Z := Z.lxor (2 ^ 64 - 1) (u64 (Z.shiftl (2 ^ 64 - 1) bits)).

Definition sampled (lineAddr : Z) (u : UMon) : res bool :=
  h ← hash (hf u) 0 lineAddr; Ok (Z.land h (mask (samplingFactorBits u)) =? 0).
Definition set_of (lineAddr : Z) (u : UMon) : res nat :=
  h ← hash (hf u) 1 lineAddr; Ok (Z.to_nat (Z.land h (mask (setsBits u)))).

(** The loop that checks for a hit, from depth [b] with [n] steps to go: the depth of
    the hit, [prev] and [cur]. *)
Fixpoint walk (arr : nat -> Node) (bs : nat) (lineAddr : Z) (n b : nat) (prev : option nat) (cur : nat)
    : res (option nat * option nat * nat) :=
  match n with
  | O => Ok (None, prev, cur)
  | S n =>
      if addr (arr cur) =? lineAddr then Ok (Some b, prev, cur)
      else if (b <? bs - 1)%nat then
        match next (arr cur) with
        | Some nx => walk arr bs lineAddr n (S b) (Some cur) nx
        | None => Fail AssertFailed
        end
      else walk arr bs lineAddr n (S b) prev cur
  end.

Definition access (lineAddr : Z) (u : UMon) : res UMon :=
  smp ← sampled lineAddr u;
  if smp : bool then
    s ← set_of lineAddr u;
    '(hit, prev, cur) ← walk (array u s) (buckets u) lineAddr (buckets u) 0 None (heads u s);
    u ← match hit with
        | Some b => Ok (set_hits (<[b := u64 (curWayHits u b + 1)]> (curWayHits u)) u)
        | None =>
            let u := set_misses (u64 (curMisses u + 1)) u in
            _ ← assert_that (bool_decide (next (array u s cur) = None));
            Ok (set_node s cur (mkNode lineAddr (next (array u s cur))) u)
        end;
    match prev with
    | Some p =>
        let u := set_node s p (mkNode (addr (array u s p)) (next (array u s cur))) u in
        let u := set_node s cur (mkNode (addr (array u s cur)) (Some (heads u s))) u in
        Ok (set_head s cur u)
    | None => Ok u
    end
  else Ok u.

Definition getNumAccesses (u : UMon) : Z :=
  fold_left (fun total i => u64 (total + curWayHits u (buckets u - i - 1)%nat)) (seq 0 (buckets u)) (curMisses u).

(** The array [misses] and [total]. *)
Definition getMisses_step (u : UMon) (st : (nat -> Z) * Z) (i : nat) : (nat -> Z) * Z :=
  let '(misses, total) := st in
  (<[(buckets u - i)%nat := total]> misses, u64 (total + curWayHits u (buckets u - i - 1)%nat)).
Definition getMisses (misses : nat -> Z) (u : UMon) : nat -> Z :=
  let '(misses, total) := fold_left (getMisses_step u) (seq 0 (buckets u)) (misses, curMisses u) in
  <[0%nat := total]> misses.

Definition startNextInterval (u : UMon) : UMon :=
  set_hits (fun b => if (b <? buckets u)%nat then 0 else curWayHits u b) (set_misses 0 u).

(** * The recency stack of a set *)

Definition first (x : Z) (l : list Z) : option nat := fst <$> list_find (x =.) l.

(** [xs] are the nodes of a list, from its head. *)
Record linked (arr : nat -> Node) (head : nat) (xs : list nat) : Prop := {
  k_head : xs !! 0%nat = Some head;
  k_next k x : xs !! k = Some x -> next (arr x) = xs !! S k;
  k_nodup : NoDup xs
}.
Definition stack (arr : nat -> Node) (xs : list nat) : list Z := (fun i => addr (arr i)) <$> xs.

Definition before (xs : list nat) (k : nat) : option nat := match k with O => None | S j => xs !! j end.

Lemma first_Some x l k : first x l = Some k <-> l !! k = Some x /\ forall j y, (j < k)%nat -> l !! j = Some y -> y <> x.
Proof.
  unfold first. rewrite fmap_Some. split.
  - intros ([i y] & (Hl & <- & Hj)%list_find_Some & ->). cbn. split; [done|]. intros j y Hlt Hy ->. by apply (Hj j x Hy Hlt).
  - intros [Hl Hj]. exists (k, x). split; [|done]. apply list_find_Some. split_and!; [done|done|].
    intros j y Hy Hlt <-. by apply (Hj j x Hlt Hy).
Qed.

Lemma first_None x l : first x l = None <-> x ∉ l.
Proof.
  unfold first. rewrite fmap_None, list_find_None, Forall_forall. split; [by intros Hf Hx; apply (Hf x Hx)|].
  by intros Hx y Hy <-.
Qed.

Lemma walk_ok arr head xs lineAddr n : forall b cur,
  linked arr head xs -> (b + n = length xs)%nat -> (0 < n)%nat -> xs !! b = Some cur ->
  (forall j y, (j < b)%nat -> stack arr xs !! j = Some y -> y <> lineAddr) ->
  walk arr (length xs) lineAddr n b (before xs b) cur =
    match first lineAddr (stack arr xs) with
    | Some k => Ok (Some k, before xs k, default 0%nat (xs !! k))
    | None => Ok (None, before xs (length xs - 1), default 0%nat (xs !! (length xs - 1)%nat))
    end.
Proof.
  induction n as [|n IH]; intros b cur L Hn Hpos Hb Hj; [lia|]. cbn [walk].
  assert (Hsb : stack arr xs !! b = Some (addr (arr cur))) by (unfold stack; by rewrite list_lookup_fmap, Hb).
  destruct (Z.eqb_spec (addr (arr cur)) lineAddr) as [Heq|Hne].
  - assert (first lineAddr (stack arr xs) = Some b) as ->; [|by rewrite Hb].
    apply first_Some. rewrite Hsb. split; [congruence|done].
  - assert (Hj' : forall j y, (j < S b)%nat -> stack arr xs !! j = Some y -> y <> lineAddr).
    { intros j y Hlt Hy. destruct (decide (j = b)) as [->|]; [congruence|]. apply (Hj j); [lia|done]. }
    destruct (Nat.ltb_spec b (length xs - 1)).
    + destruct (lookup_lt_is_Some_2 xs (S b)) as [nx Hnx]; [lia|].
      rewrite (k_next _ _ _ L b cur Hb), Hnx.
      rewrite <- (IH (S b) nx L); [|lia|lia|done|done]. cbn [before]. by rewrite Hb.
    + assert (n = 0%nat) by lia. subst n. cbn [walk]. assert (b = (length xs - 1)%nat) as -> by lia.
      assert (first lineAddr (stack arr xs) = None) as ->; [|by rewrite Hb].
      apply first_None. intros (j & Hjl)%list_elem_of_lookup. apply (Hj' j lineAddr); [|done|done].
      apply lookup_lt_Some in Hjl. unfold stack in Hjl. rewrite length_fmap in Hjl. lia.
Qed.

(** The node at depth [k] goes to the head. *)
Definition moved (arr : nat -> Node) (p cur head : nat) : nat -> Node :=
  let arr := <[p := mkNode (addr (arr p)) (next (arr cur))]> arr in
  <[cur := mkNode (addr (arr cur)) (Some head)]> arr.

Lemma moved_ok arr head xs k p cur :
  linked arr head xs -> xs !! k = Some p -> xs !! S k = Some cur ->
  linked (moved arr p cur head) cur (cur :: delete (S k) xs) /\
  forall i, addr (moved arr p cur head i) = addr (arr i).
Proof.
  intros L Hp Hc. assert (Hne : cur <> p).
  { intros ->. pose proof (NoDup_lookup xs (S k) k p (k_nodup _ _ _ L) Hc Hp). lia. }
  assert (Hnd : NoDup (cur :: delete (S k) xs)).
  { rewrite <- (delete_Permutation xs (S k) cur Hc). apply L. }
  assert (Hnext : forall x, next (moved arr p cur head x) =
    if decide (x = cur) then Some head else if decide (x = p) then next (arr cur) else next (arr x)).
  { intros x. unfold moved. destruct (decide (x = cur)) as [->|Hx]; [by rewrite fn_lookup_insert|].
    rewrite fn_lookup_insert_ne by done. destruct (decide (x = p)) as [->|Hxp]; [by rewrite fn_lookup_insert|].
    by rewrite fn_lookup_insert_ne. }
  assert (Hlo : forall j, (j < S k)%nat -> delete (S k) xs !! j = xs !! j) by (intros; by apply list_lookup_delete_lt).
  assert (Hhi : forall j, (S k <= j)%nat -> delete (S k) xs !! j = xs !! S j) by (intros; by apply list_lookup_delete_ge).
  pose proof (k_next _ _ _ L) as Hk. pose proof (k_head _ _ _ L) as Hh. pose proof (k_nodup _ _ _ L) as Hnx.
  revert Hnd Hlo Hhi. generalize (delete (S k) xs) as D. intros D Hnd Hlo Hhi.
  split.
  - split; [done| |done]. intros [|j] x Hx; cbn in Hx |- *; rewrite Hnext.
    + injection Hx as <-. rewrite decide_True by done. rewrite Hlo by lia. by rewrite Hh.
    + assert (Hxc : x <> cur).
      { intros ->. apply NoDup_cons in Hnd as [Hn _]. apply Hn. by apply list_elem_of_lookup_2 in Hx. }
      rewrite decide_False by done. destruct (decide (j < S k)%nat) as [Hlt|Hge].
      * rewrite Hlo in Hx by done. destruct (decide (x = p)) as [->|Hxp].
        -- pose proof (NoDup_lookup xs j k p Hnx Hx Hp) as ->. rewrite Hhi by lia. by apply Hk.
        -- assert (j <> k) by (intros ->; congruence). rewrite Hlo by lia. by apply Hk.
      * rewrite Hhi in Hx by lia. destruct (decide (x = p)) as [->|Hxp].
        { pose proof (NoDup_lookup xs (S j) k p Hnx Hx Hp). lia. }
        rewrite Hhi by lia. by apply Hk.
  - intros i. unfold moved. destruct (decide (i = cur)) as [->|Hi].
    + rewrite fn_lookup_insert. cbn. by rewrite fn_lookup_insert_ne.
    + rewrite fn_lookup_insert_ne by done. destruct (decide (i = p)) as [->|Hip]; [by rewrite fn_lookup_insert|].
      by rewrite fn_lookup_insert_ne.
Qed.

Lemma stack_ext arr arr' xs : (forall i, addr (arr' i) = addr (arr i)) -> stack arr' xs = stack arr xs.
Proof. intros He. unfold stack. apply list_fmap_ext. intros; apply He. Qed.

Lemma fmap_delete' {A C} (f : A -> C) (l : list A) (k : nat) : f <$> delete k l = delete k (f <$> l).
Proof. revert k. induction l as [|x l IH]; intros [|k]; cbn; [done..|]. by rewrite IH. Qed.

(** Both branches at the end of [access]: the node at depth [k] is at the head. *)
Lemma to_front_ok arr head xs k cur :
  linked arr head xs -> xs !! k = Some cur ->
  match before xs k with
  | Some p => linked (moved arr p cur head) cur (cur :: delete k xs) /\
      stack (moved arr p cur head) (cur :: delete k xs) = addr (arr cur) :: delete k (stack arr xs)
  | None => head = cur /\ stack arr xs = addr (arr cur) :: delete k (stack arr xs)
  end.
Proof.
  intros L Hc. destruct k as [|k]; cbn [before].
  - rewrite (k_head _ _ _ L) in Hc. injection Hc as ->. split; [done|].
    destruct xs as [|x xs]; [destruct L; discriminate|]. pose proof (k_head _ _ _ L) as [= ->]. done.
  - destruct (lookup_lt_is_Some_2 xs k) as [p Hp]; [apply lookup_lt_Some in Hc; lia|]. rewrite Hp.
    destruct (moved_ok arr head xs k p cur L Hp Hc) as [L' Ha]. split; [done|].
    rewrite (stack_ext arr) by done. unfold stack. cbn. by rewrite fmap_delete'.
Qed.

(** The abstract set: its stack, after an access. *)
Definition touch (x : Z) (l : list Z) : list Z :=
  match first x l with
  | Some k => x :: delete k l
  | None => x :: delete (length l - 1)%nat l
  end.

Record same_config (u u' : UMon) : Prop := {
  s_buckets : buckets u' = buckets u;
  s_sampling : samplingFactorBits u' = samplingFactorBits u;
  s_sets : setsBits u' = setsBits u;
  s_hf : hf u' = hf u
}.

(** [st] are the stacks. *)
Record repr (u : UMon) (st : nat -> list Z) : Prop := {
  r_pos : (0 < buckets u)%nat;
  r_sets s : exists xs, linked (array u s) (heads u s) xs /\ length xs = buckets u /\ stack (array u s) xs = st s
}.

Lemma repr_len u st s : repr u st -> length (st s) = buckets u.
Proof. intros [_ R]. destruct (R s) as (xs & _ & <- & <-). unfold stack. by rewrite length_fmap. Qed.

Definition counted (hit : option nat) (u u' : UMon) : Prop :=
  match hit with
  | Some k => curWayHits u' = <[k := u64 (curWayHits u k + 1)]> (curWayHits u) /\ curMisses u' = curMisses u
  | None => curWayHits u' = curWayHits u /\ curMisses u' = u64 (curMisses u + 1)
  end.

(** The end of [access]. *)
Definition to_front (s : nat) (prev : option nat) (cur : nat) (u : UMon) : UMon :=
  match prev with
  | Some p =>
      let u := set_node s p (mkNode (addr (array u s p)) (next (array u s cur))) u in
      let u := set_node s cur (mkNode (addr (array u s cur)) (Some (heads u s))) u in
      set_head s cur u
  | None => u
  end.

Lemma to_front_set u s xs k cur :
  linked (array u s) (heads u s) xs -> xs !! k = Some cur ->
  let u' := to_front s (before xs k) cur u in
  exists ys, linked (array u' s) (heads u' s) ys /\ length ys = length xs /\
    stack (array u' s) ys = addr (array u s cur) :: delete k (stack (array u s) xs).
Proof.
  intros L Hc. pose proof (to_front_ok _ _ xs k cur L Hc) as Hf. unfold to_front.
  destruct (before xs k) as [p|] eqn:Eb.
  - destruct Hf as [L' Hs]. set (u' := set_head s cur _).
    assert (array u' s = moved (array u s) p cur (heads u s)) as ->.
    { subst u'. unfold set_head, set_node. cbn [array]. by rewrite !fn_lookup_insert. }
    assert (heads u' s = cur) as -> by (subst u'; cbn; by rewrite fn_lookup_insert).
    exists (cur :: delete k xs). split_and!; [exact L'| |exact Hs]. cbn. rewrite length_delete by eauto. apply lookup_lt_Some in Hc. lia.
  - destruct Hf as [_ Hs]. by exists xs.
Qed.

Lemma to_front_frame u s prev cur s' :
  s' <> s -> array (to_front s prev cur u) s' = array u s' /\ heads (to_front s prev cur u) s' = heads u s'.
Proof. intros Hne. destruct prev; cbn; [|done]. by rewrite !fn_lookup_insert_ne. Qed.

Lemma to_front_config u s prev cur :
  same_config u (to_front s prev cur u) /\ curWayHits (to_front s prev cur u) = curWayHits u /\
  curMisses (to_front s prev cur u) = curMisses u.
Proof. by destruct prev. Qed.

(** Putting an address in a node leaves the links. *)
Lemma linked_addr arr head xs cur x :
  linked arr head xs -> linked (<[cur := mkNode x (next (arr cur))]> arr) head xs.
Proof.
  intros [Hh Hn Hd]. split; [done| |done]. intros k y Hy. rewrite <- (Hn k y Hy).
  destruct (decide (y = cur)) as [->|]; [by rewrite fn_lookup_insert|by rewrite fn_lookup_insert_ne].
Qed.

Lemma stack_addr arr xs k cur nx x :
  NoDup xs -> xs !! k = Some cur -> stack (<[cur := mkNode x nx]> arr) xs = <[k := x]> (stack arr xs).
Proof.
  intros Hd Hc. unfold stack. apply list_eq. intros j. rewrite list_lookup_fmap.
  destruct (decide (j = k)) as [->|Hj].
  - rewrite Hc, list_lookup_insert_eq by (rewrite length_fmap; by apply lookup_lt_Some in Hc). cbn.
    by rewrite fn_lookup_insert.
  - rewrite list_lookup_insert_ne, list_lookup_fmap by done. destruct (xs !! j) as [y|] eqn:Ey; [|done]. cbn.
    rewrite fn_lookup_insert_ne; [done|]. intros ->. by pose proof (NoDup_lookup xs _ _ _ Hd Ey Hc).
Qed.

Lemma delete_insert_eq' {A} (l : list A) (k : nat) (x : A) : delete k (<[k := x]> l) = delete k l.
Proof. revert k. induction l as [|y l IH]; intros [|k]; cbn; [done..|]. by rewrite IH. Qed.

Lemma access_ok u st x s :
  repr u st -> sampled x u = Ok true -> set_of x u = Ok s ->
  exists u', access x u = Ok u' /\ repr u' (<[s := touch x (st s)]> st) /\ same_config u u' /\ counted (first x (st s)) u u'.
Proof.
  intros [Hpos R] Hsm Hset. destruct (R s) as (xs & L & Hlen & Hst). unfold access. rewrite Hsm. cbn [mbind res_bind].
  rewrite Hset. cbn [mbind res_bind]. unfold mbind, res_bind.
  pose proof (walk_ok (array u s) (heads u s) xs x (buckets u) 0 (heads u s) L ltac:(lia) Hpos (k_head _ _ _ L) ltac:(lia)) as Hw.
  rewrite Hlen in Hw. cbn [before] in Hw. rewrite Hw, Hst. clear Hw.
  assert (Hgo : forall v k cur, (forall s', s' <> s -> array v s' = array u s' /\ heads v s' = heads u s') ->
    same_config u v -> linked (array v s) (heads v s) xs -> xs !! k = Some cur ->
    addr (array v s cur) :: delete k (stack (array v s) xs) = touch x (st s) ->
    repr (to_front s (before xs k) cur v) (<[s := touch x (st s)]> st)).
  { intros v k cur Hfr Hcf Lv Hc Ht. pose proof (to_front_config v s (before xs k) cur) as [[Hb _ _ _] _].
    split; [rewrite Hb, (s_buckets _ _ Hcf); done|]. intros s'. rewrite Hb, (s_buckets _ _ Hcf).
    destruct (decide (s' = s)) as [->|Hne].
    - rewrite fn_lookup_insert, <- Ht, <- Hlen. by apply to_front_set.
    - rewrite fn_lookup_insert_ne by done. destruct (to_front_frame v s (before xs k) cur s' Hne) as [-> ->].
      destruct (Hfr s' Hne) as [-> ->]. apply R. }
  destruct (first x (st s)) as [k|] eqn:E.
  - pose proof E as E'. apply first_Some in E' as [Hk _]. rewrite <- Hst in Hk. unfold stack in Hk.
    apply list_lookup_fmap_Some in Hk as (cur & Ha & Hc). rewrite Hc. cbn [default].
    set (v := set_hits _ u). exists (to_front s (before xs k) cur v). split; [by destruct (before xs k)|].
    destruct (to_front_config v s (before xs k) cur) as ([] & Hch & Hcm). split; [|split; [by split|by split]].
    apply Hgo; [done|done|done|done|]. cbn. unfold touch. by rewrite E, Hst, Ha.
  - destruct (lookup_lt_is_Some_2 xs (buckets u - 1)) as [cur Hc]; [lia|]. rewrite Hc. cbn [default id from_option].
    rewrite bool_decide_eq_true_2 by (cbn; rewrite (k_next _ _ _ L _ _ Hc); apply lookup_ge_None_2; lia).
    cbn [assert_that].
    set (v := set_node s cur _ _). exists (to_front s (before xs (buckets u - 1)) cur v).
    split; [by destruct (before xs (buckets u - 1))|].
    destruct (to_front_config v s (before xs (buckets u - 1)) cur) as ([] & Hch & Hcm). split; [|split; [by split|by split]].
    apply Hgo; [|done| |done|]; subst v; cbn.
    + intros s' Hne. by rewrite fn_lookup_insert_ne.
    + rewrite fn_lookup_insert. by apply linked_addr.
    + rewrite !fn_lookup_insert. cbn. rewrite (stack_addr _ _ _ _ _ _ (k_nodup _ _ _ L) Hc), delete_insert_eq', Hst.
      unfold touch. rewrite E. do 2 f_equal. rewrite <- Hst. unfold stack. rewrite length_fmap. lia.
Qed.

(** * LRU caches of [w] ways, one per set *)

Definition lru_touch (w : nat) (x : Z) (c : list Z) : list Z := take w (x :: filter (fun y => y <> x) c).
Definition missed (x : Z) (c : list Z) : Z := if decide (x ∈ c) then 0 else 1.
Fixpoint lru_misses (w : nat) (c : nat -> list Z) (t : list (nat * Z)) : Z :=
  match t with
  | [] => 0
  | (s, x) :: t => missed x (c s) + lru_misses w (<[s := lru_touch w x (c s)]> c) t
  end.

Lemma filter_ne_id (l : list Z) x : x ∉ l -> filter (fun y => y <> x) l = l.
Proof.
  induction l as [|y l IH]; intros Hx; [done|]. apply not_elem_of_cons in Hx as [Hy Hx].
  rewrite filter_cons_True by congruence. by rewrite IH.
Qed.

Lemma filter_delete (l : list Z) (k : nat) (x : Z) : NoDup l -> l !! k = Some x -> filter (fun y => y <> x) l = delete k l.
Proof.
  revert k. induction l as [|y l IH]; intros [|k] Hd Hk; [done|done| |]; apply NoDup_cons in Hd as [Hy Hd].
  - cbn in Hk. injection Hk as ->. rewrite filter_cons_False by (intros Hn; by apply Hn). by apply filter_ne_id.
  - cbn in Hk. rewrite filter_cons_True by (intros ->; apply Hy; by eapply list_elem_of_lookup_2).
    cbn. by rewrite (IH k).
Qed.

Lemma take_filter_take n (x : Z) (l : list Z) : NoDup l ->
  take n (filter (fun y => y <> x) (take (S n) l)) = take n (filter (fun y => y <> x) l).
Proof.
  revert n. induction l as [|y l IH]; intros n Hd; [done|]. apply NoDup_cons in Hd as [Hy Hd].
  rewrite firstn_cons. destruct (decide (y = x)) as [->|Hne].
  - rewrite !filter_cons_False by (intros Hn; by apply Hn). rewrite (filter_ne_id l) by done.
    rewrite filter_ne_id by (intros Hx; apply Hy; by eapply elem_of_take in Hx as (? & ? & _); eapply list_elem_of_lookup_2).
    by rewrite take_take, Nat.min_id.
  - rewrite !filter_cons_True by done. destruct n as [|n]; [done|]. cbn [take]. by rewrite IH.
Qed.

(** The content of a smaller LRU cache is the front of a larger one's. *)
Lemma lru_touch_take w b x l : (w <= b)%nat -> NoDup l ->
  lru_touch w x (take w l) = take w (lru_touch b x l).
Proof.
  intros Hw Hd. unfold lru_touch. rewrite take_take, Nat.min_l by done.
  destruct w as [|w]; [done|]. rewrite !firstn_cons. by rewrite take_filter_take.
Qed.

Lemma lru_touch_nodup w x l : NoDup l -> NoDup (lru_touch w x l).
Proof.
  intros Hd. unfold lru_touch. eapply sublist_NoDup; [|apply sublist_take].
  apply NoDup_cons. split; [|by apply NoDup_filter]. rewrite list_elem_of_filter. naive_solver.
Qed.

(** A set's stack: its lines, then the nodes never used. *)
Definition padded (b : nat) (l : list Z) : list Z := l ++ replicate (b - length l) 0.

Record lru_state (b : nat) (l : list Z) : Prop := {
  ls_nodup : NoDup l;
  ls_len : (length l <= b)%nat;
  ls_zero : 0 ∉ l
}.

Lemma lru_state_touch b x l : x <> 0 -> lru_state b l -> lru_state b (lru_touch b x l).
Proof.
  intros Hx [Hd Hl Hz]. split; [by apply lru_touch_nodup|unfold lru_touch; rewrite length_take; lia|].
  unfold lru_touch. intros (k & Hk & _)%elem_of_take. apply list_elem_of_lookup_2, elem_of_cons in Hk as [?|Hk]; [done|].
  by apply list_elem_of_filter in Hk as [_ Hk].
Qed.

Lemma first_padded b x l : x <> 0 -> lru_state b l -> first x (padded b l) = first x l.
Proof.
  intros Hx [Hd Hl Hz]. destruct (first x l) as [k|] eqn:E.
  - apply first_Some in E as [Hk Hj]. apply first_Some. unfold padded. split; [by apply lookup_app_l_Some|].
    intros j y Hlt Hy. apply (Hj j y Hlt). apply lookup_lt_Some in Hk. by rewrite lookup_app_l in Hy by lia.
  - apply first_None in E. apply first_None. unfold padded. rewrite elem_of_app. intros [?|Hr]; [done|].
    by apply elem_of_replicate in Hr as [-> _].
Qed.

Lemma touch_padded b x l : (0 < b)%nat -> x <> 0 -> lru_state b l ->
  touch x (padded b l) = padded b (lru_touch b x l).
Proof.
  intros Hb Hx Hs. unfold touch. rewrite first_padded by done. destruct Hs as [Hd Hl Hz].
  destruct (first x l) as [k|] eqn:E.
  - apply first_Some in E as [Hk _]. pose proof (lookup_lt_Some _ _ _ Hk) as Hlt.
    unfold lru_touch. rewrite (filter_delete l k x) by done. pose proof (length_delete l k ltac:(eauto)) as Hld.
    rewrite take_ge by (cbn; lia). unfold padded. cbn. rewrite delete_take_drop, drop_app_le, take_app_le, app_assoc by lia.
    rewrite <- delete_take_drop, Hld. do 3 f_equal. lia.
  - apply first_None in E. unfold lru_touch. rewrite (filter_ne_id l x) by done. unfold padded at 1 2.
    rewrite length_app, length_replicate. destruct (decide (length l = b)) as [Hf|Hf].
    + unfold padded. rewrite length_take. cbn [length]. replace (b - length l)%nat with 0%nat by lia.
      replace (b - b `min` S (length l))%nat with 0%nat by lia. cbn [replicate]. rewrite !app_nil_r.
      destruct b as [|b]; [lia|]. rewrite firstn_cons, delete_take_drop. f_equal.
      rewrite (drop_ge l) by lia. rewrite app_nil_r. f_equal. lia.
    + rewrite take_ge by (cbn; lia). unfold padded. cbn [length app]. f_equal. rewrite delete_take_drop.
      rewrite take_app_ge, drop_ge by (rewrite ?length_app, ?length_replicate; lia). rewrite take_replicate, app_nil_r.
      do 2 f_equal. lia.
Qed.

(** * The miss curve *)

Definition sum (l : list Z) : Z := foldr Z.add 0 l.

(** The misses and the hits at depth [w] or more. *)
Definition curve (u : UMon) (w : nat) : Z := curMisses u + sum (curWayHits u <$> seq w (buckets u - w)).

Lemma u64_add_l a b : u64 (u64 a + b) = u64 (a + b).
Proof. unfold u64. by rewrite Z.add_mod_idemp_l. Qed.
Lemma u64_add_r a b : u64 (a + u64 b) = u64 (a + b).
Proof. unfold u64. by rewrite Z.add_mod_idemp_r. Qed.

Lemma curve_S u i : (i < buckets u)%nat -> curve u (buckets u - S i) = curve u (buckets u - i) + curWayHits u (buckets u - i - 1)%nat.
Proof.
  intros Hi. unfold curve. replace (buckets u - (buckets u - S i))%nat with (S i) by lia.
  replace (buckets u - (buckets u - i))%nat with i by lia. cbn [seq fmap list_fmap sum foldr].
  replace (S (buckets u - S i)) with (buckets u - i)%nat by lia. replace (buckets u - i - 1)%nat with (buckets u - S i)%nat by lia. unfold sum. lia.
Qed.

Lemma getMisses_fold u f n : (n <= buckets u)%nat -> in_u64 (curMisses u) ->
  exists g, fold_left (getMisses_step u) (seq 0 n) (f, curMisses u) = (g, u64 (curve u (buckets u - n))) /\
  forall i, (i < n)%nat -> g (buckets u - i)%nat = u64 (curve u (buckets u - i)).
Proof.
  intros Hn Hm. induction n as [|n IH].
  - exists f. split; [|lia]. cbn. f_equal. unfold curve. rewrite Nat.sub_0_r, Nat.sub_diag. cbn. rewrite Z.add_0_r.
    by rewrite u64_id.
  - destruct IH as (g & Hf & Hg); [lia|]. rewrite seq_S, fold_left_app, Hf. cbn.
    eexists. split; [by rewrite curve_S, u64_add_l by lia|]. intros i Hi.
    destruct (decide (i = n)) as [->|Hne]; [by rewrite fn_lookup_insert|].
    rewrite fn_lookup_insert_ne by lia. apply Hg. lia.
Qed.

Lemma getMisses_curve u f w : in_u64 (curMisses u) -> (w <= buckets u)%nat -> getMisses f u w = u64 (curve u w).
Proof.
  intros Hm Hw. unfold getMisses. destruct (getMisses_fold u f (buckets u) ltac:(lia) Hm) as (g & -> & Hg).
  rewrite Nat.sub_diag. destruct w as [|w]; [by rewrite fn_lookup_insert|]. rewrite fn_lookup_insert_ne by done.
  specialize (Hg (buckets u - S w)%nat ltac:(lia)). by replace (buckets u - (buckets u - S w))%nat with (S w) in Hg by lia.
Qed.

Lemma sum_insert (f : nat -> Z) k v w n :
  sum (<[k := v]> f <$> seq w n) = sum (f <$> seq w n) + (if decide (w <= k < w + n)%nat then v - f k else 0).
Proof.
  revert w. induction n as [|n IH]; intros w; cbn [seq fmap list_fmap sum foldr].
  - rewrite decide_False by lia. done.
  - unfold sum in IH. setoid_rewrite IH. destruct (decide (k = w)) as [->|Hne].
    + rewrite fn_lookup_insert, (decide_False (P := (S w <= w < _)%nat)), decide_True by lia. lia.
    + rewrite fn_lookup_insert_ne by done. destruct (decide (S w <= k < S w + n)%nat).
      * rewrite decide_True by lia. lia.
      * rewrite decide_False by lia. lia.
Qed.

(** What one access adds to the curve at [w]. *)
Lemma curve_counted u u' h w : (w <= buckets u)%nat -> buckets u' = buckets u ->
  (forall k, h = Some k -> (k < buckets u)%nat) -> counted h u u' ->
  u64 (curve u' w) = u64 (curve u w + match h with Some k => if decide (k < w)%nat then 0 else 1 | None => 1 end).
Proof.
  intros Hw Hb Hk Hc. unfold curve. rewrite Hb. destruct h as [k|]; destruct Hc as [-> ->].
  - specialize (Hk k eq_refl). rewrite sum_insert. replace (w + (buckets u - w))%nat with (buckets u) by lia.
    destruct (decide (k < w)%nat); [rewrite decide_False by lia; f_equal; lia|]. rewrite decide_True by lia.
    rewrite <- (u64_add_l (curMisses u + _)).
    match goal with |- u64 (?m + (?s + (u64 ?x - ?y))) = _ => replace (m + (s + (u64 x - y))) with (m + s - y + u64 x) by lia end.
    rewrite u64_add_r, u64_add_l. f_equal. lia.
  - rewrite u64_add_l. f_equal. lia.
Qed.

Lemma missed_first w x l : NoDup l ->
  missed x (take w l) = match first x l with Some k => if decide (k < w)%nat then 0 else 1 | None => 1 end.
Proof.
  intros Hd. unfold missed. destruct (first x l) as [k|] eqn:E.
  - apply first_Some in E as [Hk _]. destruct (decide (k < w)%nat) as [Hlt|Hge].
    + rewrite decide_True; [done|]. apply elem_of_take. eauto.
    + rewrite decide_False; [done|]. intros (j & Hj & Hlt)%elem_of_take.
      pose proof (NoDup_lookup l j k x Hd Hj Hk). lia.
  - apply first_None in E. rewrite decide_False; [done|]. intros (j & Hj & _)%elem_of_take. by apply list_elem_of_lookup_2 in Hj.
Qed.

(** The sampled accesses, with the set of each. *)
Definition trace (u : UMon) (l : list Z) : list (nat * Z) :=
  omap (fun x => match sampled x u, set_of x u with Ok true, Ok s => Some (s, x) | _, _ => None end) l.

Lemma trace_config u u' l : same_config u u' -> trace u' l = trace u l.
Proof.
  intros [_ H1 H2 H3]. unfold trace. apply list_omap_ext. clear -H1 H2 H3. induction l; constructor; [|done].
  unfold sampled, set_of. by rewrite H1, H2, H3.
Qed.

Definition hashes (u : UMon) : Prop := forall x, exists b s, sampled x u = Ok b /\ set_of x u = Ok s.

Lemma hashes_config u u' : same_config u u' -> hashes u -> hashes u'.
Proof. intros [_ H1 H2 H3] Hu x. destruct (Hu x) as (b & s & Hb & Hs). exists b, s. revert Hb Hs. unfold sampled, set_of. by rewrite H1, H2, H3. Qed.

Lemma run_ok l : forall u st, repr u (fun s => padded (buckets u) (st s)) -> (forall s, lru_state (buckets u) (st s)) ->
  hashes u -> in_u64 (curMisses u) -> Forall (fun x => x <> 0) l ->
  exists u', foldM (fun u x => access x u) u l = Ok u' /\ in_u64 (curMisses u') /\ buckets u' = buckets u /\
    forall w c, (w <= buckets u)%nat -> (forall s, c s = take w (st s)) ->
      u64 (curve u' w) = u64 (curve u w + lru_misses w c (trace u l)).
Proof.
  induction l as [|x l IH]; intros u st R Hst Hh Hm Hl.
  { exists u. split_and!; [done..|]. intros. cbn. by rewrite Z.add_0_r. }
  apply Forall_cons in Hl as [Hx Hl]. cbn [foldM]. destruct (Hh x) as (b & s & Hsm & Hs).
  assert (Htr : trace u (x :: l) = if b then (s, x) :: trace u l else trace u l).
  { unfold trace. cbn. rewrite Hsm, Hs. by destruct b. }
  rewrite Htr. destruct b; last first.
  { destruct (IH u st R Hst Hh Hm Hl) as (u' & Hf & H). exists u'. split; [|done].
    assert (access x u = Ok u) as -> by (unfold access; by rewrite Hsm). done. }
  destruct (access_ok u _ x s R Hsm Hs) as (v & Hv & Rv & Hcf & Hct). unfold mbind, res_bind. rewrite Hv.
  set (b := buckets u) in *. pose proof (s_buckets _ _ Hcf) as Hbv. fold b in Hbv.
  rewrite touch_padded in Rv by (done || apply R). rewrite first_padded in Hct by done.
  destruct (IH v (<[s := lru_touch b x (st s)]> st)) as (u' & Hf & Hm' & Hb' & Hcv).
  - destruct Rv as [Rp Rs]. split; [done|]. rewrite Hbv in *. intros s'. specialize (Rs s').
    destruct (decide (s' = s)) as [->|Hne]; [by rewrite fn_lookup_insert in *|by rewrite fn_lookup_insert_ne in * by done].
  - rewrite Hbv. intros s'. destruct (decide (s' = s)) as [->|Hne];
      [rewrite fn_lookup_insert; by apply lru_state_touch|by rewrite fn_lookup_insert_ne].
  - by eapply hashes_config.
  - destruct (first x (st s)); destruct Hct as [_ ->]; [done|apply u64_range].
  - done.
  - exists u'. split_and!; [done|done|by rewrite Hb'|]. intros w c Hw Hc. cbn [lru_misses].
    rewrite (Hcv w (<[s := lru_touch w x (c s)]> c)); [|by rewrite Hbv|].
    + rewrite <- u64_add_l, (curve_counted u v (first x (st s)) w Hw Hbv); [| |done].
      * rewrite u64_add_l, (trace_config u v) by done. rewrite (Hc s), missed_first by apply Hst. f_equal. lia.
      * intros k [Hk _]%first_Some. apply lookup_lt_Some in Hk. pose proof (ls_len _ _ (Hst s)). lia.
    + intros s'. destruct (decide (s' = s)) as [->|Hne]; [|by rewrite !fn_lookup_insert_ne].
      rewrite !fn_lookup_insert, (Hc s). apply lru_touch_take; [done|apply Hst].
Qed.

(** * Every access succeeds *)

Definition wf (u : UMon) : Prop := (exists st, repr u st) /\ hashes u.

Lemma access_wf u x : wf u -> exists u', access x u = Ok u' /\ wf u' /\ buckets u' = buckets u.
Proof.
  intros [[st R] Hh]. destruct (Hh x) as (b & s & Hb & Hs). destruct b.
  - destruct (access_ok u st x s R Hb Hs) as (u' & Ha & R' & Hc & _). exists u'.
    split_and!; [done|split; [eauto|by eapply hashes_config]|apply Hc].
  - exists u. split_and!; [unfold access; by rewrite Hb|by split; [exists st|]|done].
Qed.

Lemma startNextInterval_wf u : wf u -> wf (startNextInterval u).
Proof. intros [[st [Hp R]] Hh]. split; [exists st; by split|done]. Qed.

Lemma new_linked b : (0 < b)%nat ->
  linked (init_node b) 0 (seq 0 b) /\ stack (init_node b) (seq 0 b) = padded b [].
Proof.
  intros Hb. split.
  - split; [by apply lookup_seq| |apply NoDup_seq].
    intros k x [-> Hk]%lookup_seq. unfold init_node. cbn [next Nat.add]. destruct (Nat.ltb_spec (S k) b).
    + symmetry. by apply lookup_seq.
    + symmetry. apply lookup_ge_None. by rewrite length_seq.
  - unfold stack, padded. cbn [length app]. rewrite Nat.sub_0_r.
    transitivity (replicate (length (seq 0 b)) 0); [|by rewrite length_seq].
    generalize (seq 0 b). intros q. induction q; [done|]. cbn in *. by f_equal.
Qed.

Lemma count_bits_bound fuel : forall t, 0 < t -> 0 <= count_bits fuel t /\ 2 ^ count_bits fuel t <= t.
Proof.
  induction fuel as [|fuel IH]; intros t Ht; cbn [count_bits]; [cbn; lia|].
  rewrite Z.shiftr_div_pow2 by lia. change (2 ^ 1) with 2.
  destruct (Z.eqb_spec (t / 2) 0) as [|Hne]; [cbn; lia|].
  assert (0 < t / 2) as Hp by (pose proof (Z.div_pos t 2); lia). destruct (IH (t / 2) Hp) as [H1 H2].
  split; [lia|]. rewrite Z.pow_add_r by lia. change (2 ^ 1) with 2. pose proof (Z.mul_div_le t 2 ltac:(lia)). lia.
Qed.

#[local] Arguments count_bits : simpl never.

Lemma mask_ones bits : 0 <= bits < 64 -> mask bits = Z.ones bits.
Proof.
  intros Hb. unfold mask. change (2 ^ 64 - 1) with (Z.ones 64). apply Z.bits_inj'. intros i Hi.
  unfold u64. rewrite Z.lxor_spec, testbit_mod_pow2, Z.shiftl_spec, (Z.testbit_ones_nonneg 64 i), (Z.testbit_ones_nonneg bits i) by lia.
  case_bool_decide; [|destruct (Z.ltb_spec i 64), (Z.ltb_spec i bits); (done || lia)].
  destruct (Z.ltb_spec i 64); [|lia]. destruct (Z.ltb_spec i bits); cbn.
  - rewrite Z.testbit_neg_r by lia. done.
  - rewrite Z.testbit_ones_nonneg by lia. destruct (Z.ltb_spec (i - bits) 64); done || lia.
Qed.

Lemma new_ok bankLines lines b u : new bankLines lines b = Ok u ->
  u = mkUMon lines (bankLines / lines) b (lines / Z.of_nat b) (count_bits 32 (bankLines / lines))
        (count_bits 32 (lines / Z.of_nat b)) (fun _ => 0) 0 (fun _ => init_node b) (fun _ => 0%nat) (hf u) /\
  H3HashFamily_new 2 32 0xF000BAAD = Ok (hf u).
Proof.
  unfold new. generalize (H3HashFamily_new 2 32 0xF000BAAD). intros [h|e] H.
  - apply (f_equal (fun r => match r with Ok a => a | Fail _ => u end)) in H. cbn beta iota delta [mbind res_bind] in H.
    subst u. split; reflexivity.
  - cbn beta iota delta [mbind res_bind] in H. discriminate H.
Qed.

Lemma new_hashes bankLines lines b u : new bankLines lines b = Ok u -> hashes u.
Proof.
  intros [_ Hh]%new_ok x. revert Hh. generalize 0xF000BAAD. intros seed Hh. assert (Hn : numFuncs (hf u) = 2).
  { revert Hh. unfold H3HashFamily_new. rewrite bind_Ok. intros (sh & _ & Heq).
    destruct (random_words _ _). by injection Heq as <-. }
  unfold sampled, set_of. rewrite !hash_eq by lia. cbn [mbind res_bind]. eauto.
Qed.

(** The index of a sampled set is within the arrays of [sets] entries. *)
Lemma set_of_bound bankLines lines b u x s :
  new bankLines lines b = Ok u -> (0 < b)%nat -> Z.of_nat b <= lines < 2 ^ 32 -> set_of x u = Ok s -> Z.of_nat s < sets u.
Proof.
  intros [-> _]%new_ok Hb Hl. unfold set_of. cbn [setsBits sets hf]. rewrite bind_Ok. intros (h & _ & [= <-]).
  assert (0 < lines / Z.of_nat b) as Hp by (apply Z.div_str_pos; lia).
  assert (lines / Z.of_nat b <= lines) as Hle by (apply Z.div_le_upper_bound; nia).
  destruct (count_bits_bound 32 _ Hp) as [H0 H1]. set (k := count_bits 32 _) in *.
  assert (k < 32) as Hk by (apply (Z.pow_lt_mono_r_iff 2); lia).
  rewrite mask_ones, Z.land_ones by lia. pose proof (Z.mod_pos_bound h (2 ^ k)). lia.
Qed.

Lemma curve_zero u w : curMisses u = 0 -> curWayHits u = (fun _ => 0) -> curve u w = 0.
Proof.
  intros Hm Hh. unfold curve. rewrite Hm, Hh. generalize (seq w (buckets u - w)). intros q.
  induction q; cbn in *; [done|]. unfold sum in *. cbn. lia.
Qed.

(** The initial state has empty stacks and no counts. *)
Lemma new_repr bankLines lines b u : new bankLines lines b = Ok u -> (0 < b)%nat ->
  repr u (fun _ => padded (buckets u) []) /\ buckets u = b /\ curMisses u = 0 /\ curWayHits u = (fun _ => 0).
Proof.
  intros [Hu _]%new_ok Hb. assert (Hbu : buckets u = b) by (rewrite Hu; reflexivity).
  split_and!; [|done|rewrite Hu; reflexivity|rewrite Hu; reflexivity]. split; [by rewrite Hbu|]. intros s.
  assert (array u s = init_node b) as -> by (rewrite Hu; reflexivity).
  assert (heads u s = 0%nat) as -> by (rewrite Hu; reflexivity).
  exists (seq 0 b). destruct (new_linked b Hb). rewrite Hbu, length_seq. done.
Qed.

(** The curve of [getMisses] is Mattson's: after any sequence of accesses to nonzero
    lines, entry [w] of the curve, for every [w] up to the number of buckets, is the
    number of misses that LRU caches of [w] ways, one for each sampled set, have on the
    sampled accesses (modulo 2^64).  No access fails, and each stays within the
    arrays. *)
Theorem umon_counts_lru_misses bankLines lines b u l :
  new bankLines lines b = Ok u -> (0 < b)%nat -> Z.of_nat b <= lines < 2 ^ 32 -> Forall (fun x => x <> 0) l ->
  Forall (fun a => Z.of_nat (fst a) < sets u) (trace u l) /\
  exists u', foldM (fun u x => access x u) u l = Ok u' /\
    forall w f, (w <= b)%nat -> getMisses f u' w = u64 (lru_misses w (fun _ => []) (trace u l)).
Proof.
  intros Hn Hb Hlines Hl. split.
  - apply Forall_forall. intros [s x]. unfold trace. rewrite list_elem_of_omap. intros (y & _ & Hy).
    destruct (sampled y u) as [[]|]; [|done..]. destruct (set_of y u) as [s'|] eqn:E; [|done]. injection Hy as -> ->.
    by eapply set_of_bound.
  - pose proof (new_hashes _ _ _ _ Hn) as Hh. destruct (new_repr _ _ _ _ Hn Hb) as (R & Hbu & Hm0 & Hh0). clear Hn.
    destruct (run_ok l u (fun _ => []) R) as (u' & Hf & Hm & Hb' & Hc); [|done|by rewrite Hm0|done|].
    + intros s. split; [constructor|cbn; lia|apply not_elem_of_nil].
    + exists u'. split; [done|]. intros w f Hw. rewrite getMisses_curve by (done || lia).
      rewrite (Hc w (fun _ => [])); [|lia|by intros; rewrite take_nil]. by rewrite curve_zero.
Qed.

Lemma example_misses :
  match new 2 2 2 with
  | Ok u => map (fun w => u64 (lru_misses w (fun _ => []) (trace u [5; 6; 5; 7; 6]))) [0; 1; 2]%nat = [5; 5; 4]
  | Fail _ => False
  end.
Proof. vm_compute. reflexivity. Qed.

(** One set of two buckets that samples every line: 5 and 6 are loaded, 5 is at depth 1
    when it is accessed again, and 7 replaces 6. *)
Lemma umon_counts_lru_misses_witness :
  exists u, new 2 2 2 = Ok u /\ exists u', foldM (fun u x => access x u) u [5; 6; 5; 7; 6] = Ok u' /\
    map (getMisses (fun _ => 0) u') [0; 1; 2]%nat = [5; 5; 4].
Proof.
  pose proof example_misses as Hex. destruct (new 2 2 2) as [u|] eqn:E; [|destruct Hex].
  exists u. split; [reflexivity|].
  destruct (umon_counts_lru_misses 2 2 2 u [5; 6; 5; 7; 6] E) as (_ & u' & Hu & Hc); [lia|lia|by repeat constructor|].
  exists u'. split; [exact Hu|]. rewrite <- Hex. cbn [map]. rewrite !Hc by lia. reflexivity.
Defined.

End UMon.
