(* ===== verification/Doubles.v ===== *)
(** [double]: the binary64 format of the Standard Library's specification of
    floating-point numbers, as far as the partitioning code uses it: conversions,
    arithmetic, comparisons, and when a quotient is not below zero. *)
From Stdlib Require Import Floats.SpecFloat.
From S2P Require Import Prelude.

Module Doubles.

Definition double := spec_float.

Definition of_Z (n : Z) : double := binary_normalize 53 1024 n 0 false.
Definition fadd : double -> double -> double := SFadd 53 1024.
Definition fsub : double -> double -> double := SFsub 53 1024.
Definition fmul : double -> double -> double := SFmul 53 1024.
Definition fdiv : double -> double -> double := SFdiv 53 1024.
Definition flt (a b : double) : bool := SFltb a b.
Definition fle (a b : double) : bool := SFleb a b.
Definition minus_one : double := of_Z (-1).

(** Conversion to an integer: towards zero.  Out of the range of the target it is
    undefined in the language; the callers wrap the result. *)
Definition to_Z (x : double) : Z :=
  match x with
  | S754_finite s m e =>
      let v := if 0 <=? e then Z.shiftl (Zpos m) e else Z.shiftr (Zpos m) (- e) in
      if s then - v else v
  | _ => 0
  end.

(** Not a NaN, and not below zero: what division of counts yields. *)
Definition nonneg (x : double) : Prop :=
  match x with
  | S754_zero s | S754_infinity s | S754_finite s _ _ => s = false
  | S754_nan => False
  end.

Lemma shr_1_nonneg r : 0 <= shr_m r -> 0 <= shr_m (shr_1 r).
Proof. destruct r as [[|[]|[]] ? ?]; cbn; lia. Qed.

Lemma iter_pos_inv {A} (P : A -> Prop) f (n : positive) : forall x, (forall x, P x -> P (f x)) -> P x -> P (SpecFloat.iter_pos f n x).
Proof. induction n; intros x Hf Hx; cbn; auto. Qed.

Lemma shr_fexp_nonneg m e l : 0 <= m -> 0 <= shr_m (fst (shr_fexp 53 1024 m e l)).
Proof.
  intros Hm. unfold shr_fexp, shr. assert (0 <= shr_m (shr_record_of_loc m l)) by (destruct l as [|[]]; cbn; lia).
  destruct (_ - _); cbn [fst]; [done| |done]. apply (iter_pos_inv (fun r => 0 <= shr_m r)); [apply shr_1_nonneg|done].
Qed.

Lemma round_aux_nonneg m e l : 0 <= m -> nonneg (binary_round_aux 53 1024 false m e l).
Proof.
  intros Hm. unfold binary_round_aux. pose proof (shr_fexp_nonneg m e l Hm) as H1.
  destruct (shr_fexp 53 1024 m e l) as [r e']. cbn in H1.
  set (n := round_nearest_even _ _). assert (Hn : 0 <= n).
  { unfold n, round_nearest_even. destruct (loc_of_shr_record r) as [|[]]; try case_match; lia. }
  pose proof (shr_fexp_nonneg n e' loc_Exact Hn) as H2.
  destruct (shr_fexp 53 1024 n e' loc_Exact) as [r' e'']. cbn in H2.
  destruct (shr_m r'); [done| |lia]. by destruct (e'' <=? _).
Qed.

Lemma digits_lower m : 2 ^ (Zpos (digits2_pos m) - 1) <= Zpos m.
Proof.
  induction m as [m IH|m IH|]; cbn [digits2_pos]; [| |done];
    replace (Zpos (Pos.succ (digits2_pos m)) - 1) with (Z.succ (Zpos (digits2_pos m) - 1)) by lia;
    rewrite Z.pow_succ_r by lia; lia.
Qed.

Lemma digits_shift m k : digits2_pos (Pos.iter xO m k) = (digits2_pos m + k)%positive.
Proof.
  revert k. apply Pos.peano_ind; [cbn; lia|]. intros k IH. rewrite Pos.iter_succ. cbn [digits2_pos]. rewrite IH. lia.
Qed.

Lemma iter_xO m k : Zpos (Pos.iter xO m k) = Zpos m * 2 ^ Zpos k.
Proof.
  revert k. apply Pos.peano_ind; [cbn; lia|]. intros k IH. rewrite Pos.iter_succ, Pos2Z.inj_xO, IH, Pos2Z.inj_succ, Z.pow_succ_r by lia. lia.
Qed.

Lemma fexp_normal e : -1000 <= e -> fexp 53 1024 e = e - 53.
Proof. intros. unfold fexp, emin. lia. Qed.

(** A 53-bit mantissa needs no rounding. *)
Lemma round_aux_exact q e : Zpos (digits2_pos q) = 53 -> -900 <= e <= 900 ->
  binary_round_aux 53 1024 false (Zpos q) e loc_Exact = S754_finite false q e.
Proof.
  intros Hq He. unfold binary_round_aux, shr_fexp. cbn [Zdigits2]. rewrite fexp_normal by lia.
  replace (Zpos (digits2_pos q) + e - 53 - e) with 0 by lia. cbn [shr shr_record_of_loc shr_m loc_of_shr_record round_nearest_even].
  cbn [Zdigits2]. rewrite fexp_normal by lia. replace (Zpos (digits2_pos q) + e - 53 - e) with 0 by lia.
  cbn [shr shr_record_of_loc shr_m]. destruct (Z.leb_spec e (1024 - 53)); [done|lia].
Qed.

(** A positive count of at most 53 bits is represented exactly. *)
Lemma of_Z_exact n : 0 < n < 2 ^ 53 ->
  exists q e, of_Z n = S754_finite false q e /\ Zpos (digits2_pos q) = 53 /\ -53 <= e <= 0 /\ Zpos q = n * 2 ^ (- e).
Proof.
  intros [Hp Hlt]. destruct n as [|p|]; [lia| |lia]. unfold of_Z, binary_normalize, binary_round, shl_align.
  pose proof (digits_lower p) as Hd. set (d := Zpos (digits2_pos p)) in *.
  assert (Hd53 : d <= 53) by (apply Z.lt_succ_r, Z.lt_pred_lt_succ; apply (Z.pow_lt_mono_r_iff 2); lia).
  rewrite Z.add_0_r, fexp_normal by lia. destruct (d - 53 - 0) as [|k|k] eqn:E; [|lia|].
  - exists p, 0. split_and!; [apply round_aux_exact; lia|lia..].
  - assert (Hk : Zpos (digits2_pos (Pos.iter xO p k)) = 53) by (rewrite digits_shift; lia).
    exists (Pos.iter xO p k), (d - 53). split_and!; [apply round_aux_exact; lia|done|lia|lia|].
    rewrite iter_xO. do 2 f_equal. lia.
Qed.

Lemma of_Z_pos n : 0 < n < 2 ^ 53 -> exists m e, of_Z n = S754_finite false m e.
Proof. intros Hn. destruct (of_Z_exact n Hn) as (q & e & -> & _). eauto. Qed.

(** Converting a count and back. *)
Lemma to_Z_of_Z n : 0 < n < 2 ^ 53 -> to_Z (of_Z n) = n.
Proof.
  intros Hn. destruct (of_Z_exact n Hn) as (q & e & -> & _ & He & Hq). unfold to_Z.
  destruct (Z.leb_spec 0 e) as [H0|H0].
  - assert (e = 0) as -> by lia. rewrite Z.shiftl_0_r. lia.
  - rewrite Z.shiftr_div_pow2 by lia. rewrite Hq. apply Z.div_mul. assert (0 < 2 ^ (- e)) by (apply Z.pow_pos_nonneg; lia). lia.
Qed.

Lemma fmul_one n : 0 < n < 2 ^ 53 -> fmul (of_Z 1) (of_Z n) = of_Z n.
Proof.
  intros Hn. destruct (of_Z_exact n Hn) as (q & e & -> & Hd & He & _).
  change (of_Z 1) with (S754_finite false 4503599627370496 (-52)). unfold fmul, SFmul. cbn [xorb].
  unfold binary_round_aux, shr_fexp. cbn [Zdigits2].
  assert (Hdd : Zpos (digits2_pos (4503599627370496 * q)) = 105) .
  { replace (4503599627370496 * q)%positive with (Pos.iter xO q 52) by reflexivity. rewrite digits_shift. lia. }
  rewrite Hdd, fexp_normal by lia. replace (105 + (-52 + e) - 53 - (-52 + e)) with 52 by lia.
  assert (shr (shr_record_of_loc (Zpos (4503599627370496 * q)) loc_Exact) (-52 + e) 52 =
    (Build_shr_record (Zpos q) false false, -52 + e + 52)) as -> by reflexivity.
  cbn [shr_m loc_of_shr_record round_nearest_even Zdigits2]. rewrite Hd, fexp_normal by lia.
  replace (53 + (-52 + e + 52) - 53 - (-52 + e + 52)) with 0 by lia. cbn [shr shr_record_of_loc shr_m].
  destruct (Z.leb_spec (-52 + e + 52) (1024 - 53)); [f_equal; lia|lia].
Qed.

(** A quotient of counts is a number that is not below zero. *)
Lemma fdiv_counts a b : 0 <= a < 2 ^ 53 -> 0 < b < 2 ^ 53 -> nonneg (fdiv (of_Z a) (of_Z b)).
Proof.
  intros Ha Hb. destruct (of_Z_pos b Hb) as (mb & eb & ->).
  destruct (decide (a = 0)) as [->|Hne]; [done|]. destruct (of_Z_pos a ltac:(lia)) as (ma & ea & ->).
  unfold fdiv, SFdiv, SFdiv_core_binary. cbn [xorb].
  set (e' := Z.min _ _). set (m' := match _ - _ - _ with Z0 => _ | Zpos _ => _ | Zneg _ => _ end).
  assert (Hm : 0 <= m').
  { unfold m'. destruct (ea - eb - e') eqn:E; [lia| |lia]. apply Z.shiftl_nonneg. lia. }
  pose proof (Z_div_mod m' (Zpos mb) ltac:(lia)) as Hdm. destruct (Z.div_eucl m' (Zpos mb)) as [q r].
  apply round_aux_nonneg. nia.
Qed.

Lemma minus_one_lt x : nonneg x -> flt minus_one x = true.
Proof. destruct x as [s|s| |s m e]; cbn; intros Hx; subst; done. Qed.

Lemma counts_above_minus_one a b : 0 <= a < 2 ^ 53 -> 0 < b < 2 ^ 53 -> flt minus_one (fdiv (of_Z a) (of_Z b)) = true.
Proof. intros. by apply minus_one_lt, fdiv_counts. Qed.

Lemma flt_trans x y z : nonneg x -> nonneg y -> nonneg z -> flt x y = true -> flt y z = true -> flt x z = true.
Proof.
  destruct x as [?|?| |? mx ex], y as [?|?| |? my ey], z as [?|?| |? mz ez]; cbn; intros; try done; subst; try done.
  unfold flt, SFltb, SFcompare in *. revert H2 H3.
  destruct (Z.compare_spec ex ey), (Z.compare_spec ey ez), (Z.compare_spec ex ez); try done; try lia; subst;
    fold (Pos.compare mx my) (Pos.compare my mz) (Pos.compare mx mz);
    destruct (Pos.compare_spec mx my), (Pos.compare_spec my mz), (Pos.compare_spec mx mz); subst; done || lia.
Qed.

Lemma flt_weak x y z : nonneg x -> nonneg y -> nonneg z -> flt x z = true -> flt y z = false -> flt x y = true.
Proof.
  destruct x as [?|?| |? mx ex], y as [?|?| |? my ey], z as [?|?| |? mz ez]; cbn; intros; try done; subst; try done.
  unfold flt, SFltb, SFcompare in *. revert H2 H3.
  destruct (Z.compare_spec ex ez), (Z.compare_spec ey ez), (Z.compare_spec ex ey); try done; try lia; subst;
    fold (Pos.compare mx mz) (Pos.compare my mz) (Pos.compare mx my);
    destruct (Pos.compare_spec mx mz), (Pos.compare_spec my mz), (Pos.compare_spec mx my); subst; done || lia.
Qed.

Lemma flt_irrefl x : flt x x = false.
Proof.
  unfold flt, SFltb. destruct x as [[]|[]| |[] m e]; cbn; try done; rewrite Z.compare_refl;
    change (Pos.compare_cont Eq m m) with (Pos.compare m m); by rewrite Pos.compare_refl.
Qed.

Example div_example : fdiv (of_Z 7) (of_Z 2) = S754_finite false 7881299347898368 (-51) /\ to_Z (fdiv (of_Z 7) (of_Z 2)) = 3.
Proof. vm_compute. done. Qed.

End Doubles.
