(* ===== verification/PartMon.v ===== *)
(** Who owns a line and how much a partition would gain from space
    (partition_mapper.h, partition_mapper.cpp, partitioner.h, monitor.cpp): the mappers
    from requests to partitions, the interface of a partition monitor, and the monitor
    made of one utility monitor per partition. *)
From S2P Require Import Prelude Hash MemHier UMon Doubles.

(** * Mappers from requests to partitions *)

(** [PartInfo]: the size and the target size of a partition, and its event counts. *)
Record PartInfo := mkInfo {
  size : Z;
  targetSize : Z;
  profHits : Z;
  profMisses : Z;
  profSelfEvictions : Z;
  profExtEvictions : Z
}.

Module PartMapper.
Import MemHier.

(** [procIdx] is a global of the process that makes the request; [groupIdx] stands for
    [zinfo->procArray[procIdx]->getGroupIdx()]. *)
Inductive PartMapper :=
  | CorePartMapper (numCores : nat)
  | InstrDataPartMapper
  | InstrDataCorePartMapper (numCores : nat)
  | ProcessPartMapper (numProcs : nat)
  | InstrDataProcessPartMapper (numProcs : nat)
  | ProcessGroupPartMapper (numProcGroups : nat) (groupIdx : nat -> nat).

Definition getNumPartitions (mp : PartMapper) : nat :=
  match mp with
  | CorePartMapper n => n
  | InstrDataPartMapper => 2
  | InstrDataCorePartMapper n => 2 * n
  | ProcessPartMapper n => n
  | InstrDataProcessPartMapper n => 2 * n
  | ProcessGroupPartMapper n _ => n
  end.

Definition getPartition (procIdx : nat) (mp : PartMapper) (req : MemReq) : res nat :=
  match mp with
  | CorePartMapper _ => Ok (Z.to_nat (srcId req))
  | InstrDataPartMapper => Ok (Z.to_nat (Z.land (flags req) IFETCH))
  | InstrDataCorePartMapper n => Ok (Z.to_nat (srcId req) + (if is_flag (flags req) IFETCH then n else 0))%nat
  | ProcessPartMapper n => _ ← assert_that (procIdx <? n)%nat; Ok procIdx
  | InstrDataProcessPartMapper n =>
      _ ← assert_that (procIdx <? n)%nat; Ok (procIdx + (if is_flag (flags req) IFETCH then n else 0))%nat
  | ProcessGroupPartMapper n groupIdx => _ ← assert_that (groupIdx procIdx <? n)%nat; Ok (groupIdx procIdx)
  end.

(** The partition is one of the mapper's, for every mapper but [InstrDataPartMapper]. *)
Lemma getPartition_range procIdx mp req p :
  mp <> InstrDataPartMapper -> (forall n, mp = CorePartMapper n \/ mp = InstrDataCorePartMapper n -> (Z.to_nat (srcId req) < n)%nat) ->
  getPartition procIdx mp req = Ok p -> (p < getNumPartitions mp)%nat.
Proof.
  intros Hne Hsrc. destruct mp as [n| |n|n|n|n g]; cbn [getPartition getNumPartitions]; [| done | | | |];
    rewrite ?bind_Ok; intros Hp.
  - injection Hp as <-. apply Hsrc. by left.
  - injection Hp as <-. specialize (Hsrc n ltac:(by right)). case_match; lia.
  - destruct Hp as (u & Hn%assert_that_Ok & [= <-]). by apply Nat.ltb_lt.
  - destruct Hp as (u & Hn%assert_that_Ok%Nat.ltb_lt & [= <-]). case_match; lia.
  - destruct Hp as (u & Hn%assert_that_Ok & [= <-]). by apply Nat.ltb_lt.
Qed.

(** An instruction fetch has partition 2, of the two that [InstrDataPartMapper] has. *)
Lemma instr_data_out_of_range procIdx req :
  is_flag (flags req) IFETCH = true -> getPartition procIdx InstrDataPartMapper req = Ok 2%nat.
Proof.
  cbn [getPartition]. unfold is_flag. change IFETCH with (2 ^ 1). rewrite negb_true_iff, Z.eqb_neq. intros Hf.
  assert (Hl : Z.land (flags req) (2 ^ 1) = if Z.testbit (flags req) 1 then 2 ^ 1 else 0).
  { apply Z.bits_inj'. intros i Hi. rewrite Z.land_spec, Z.pow2_bits_eqb by lia.
    destruct (Z.eqb_spec 1 i) as [<-|Hne]; [by destruct (Z.testbit (flags req) 1)|].
    rewrite andb_false_r. destruct (Z.testbit (flags req) 1); [by rewrite Z.pow2_bits_false by lia|by rewrite Z.bits_0]. }
  rewrite Hl in Hf |- *. by destruct (Z.testbit (flags req) 1).
Qed.

End PartMapper.

(** * The interface of a partition monitor *)

(** [PartitionMonitor]. *)
Class PartitionMonitor (M : Type) := {
  mon_partitions : M -> nat;
  mon_buckets : M -> nat;
  mon_access : nat -> Z -> M -> res M;
  mon_get : nat -> nat -> M -> res (Z * M);
  mon_getNumAccesses : nat -> M -> res Z;
  mon_reset : M -> M
}.

(** From one reset to the next, first accesses and then reads: each read of entry [b] of
    the curve of [p] gives the same value, for the entries from 0 to the number of
    buckets, and an access may come only while nothing was read. *)
Class PartitionMonitorLaws (M : Type) `{PartitionMonitor M} := {
  mon_wf : M -> Prop;
  mon_open : M -> Prop;
  mon_curve : M -> nat -> nat -> Z;
  mon_curve_u32 m p b : mon_wf m -> in_u32 (mon_curve m p b);
  mon_get_ok m p b : mon_wf m -> (p < mon_partitions m)%nat -> (b <= mon_buckets m)%nat ->
    exists m', mon_get p b m = Ok (mon_curve m p b, m') /\ mon_wf m' /\ mon_curve m' = mon_curve m /\
      mon_partitions m' = mon_partitions m /\ mon_buckets m' = mon_buckets m;
  mon_access_ok m p x : mon_wf m -> mon_open m -> (p < mon_partitions m)%nat ->
    exists m', mon_access p x m = Ok m' /\ mon_wf m' /\ mon_open m' /\
      mon_partitions m' = mon_partitions m /\ mon_buckets m' = mon_buckets m;
  mon_reset_ok m : mon_wf m -> mon_wf (mon_reset m) /\ mon_open (mon_reset m) /\
      mon_partitions (mon_reset m) = mon_partitions m /\ mon_buckets (mon_reset m) = mon_buckets m
}.

(** * The monitor of monitor.cpp *)

Module UMonMonitor.

Record UMonMonitor := mkMon {
  buckets : nat;
  missCache : nat -> Z;
  missCacheValid : bool;
  monitors : list UMon.UMon
}.
Definition set_cache (c : nat -> Z) (m : UMonMonitor) : UMonMonitor :=
  mkMon (buckets m) c (missCacheValid m) (monitors m).
Definition set_valid (v : bool) (m : UMonMonitor) : UMonMonitor :=
  mkMon (buckets m) (missCache m) v (monitors m).
Definition set_monitors (l : list UMon.UMon) (m : UMonMonitor) : UMonMonitor :=
  mkMon (buckets m) (missCache m) (missCacheValid m) l.

Definition getNumPartitions (m : UMonMonitor) : nat := length (monitors m).

Definition new (numLines umonLines : Z) (umonBuckets numPartitions buckets : nat) : res UMonMonitor :=
  _ ← assert_that (0 <? numPartitions)%nat;
  u ← UMon.new numLines umonLines umonBuckets;
  Ok (mkMon buckets (fun _ => 0) false (replicate numPartitions u)).

(** [monitors[partition]], after [assert(partition < monitors.size())]. *)
Definition monitor_at (p : nat) (m : UMonMonitor) : res UMon.UMon :=
  match monitors m !! p with Some u => Ok u | None => Fail AssertFailed end.

Definition access (p : nat) (lineAddr : Z) (m : UMonMonitor) : res UMonMonitor :=
  u ← monitor_at p m;
  u ← UMon.access lineAddr u;
  let m := set_monitors (<[p := u]> (monitors m)) m in
  _ ← assert_that (negb (missCacheValid m));
  Ok (set_valid false m).

Definition getNumAccesses (p : nat) (m : UMonMonitor) : res Z :=
  u ← monitor_at p m; Ok (u32 (UMon.getNumAccesses u)).

(** Interpolation between two points of the curve. *)
Definition interpolate (m0 m1 : Z) (k ratio : nat) : Z :=
  let m0 := Doubles.of_Z m0 in
  let m1 := Doubles.of_Z m1 in
  let frac := Doubles.fdiv (Doubles.of_Z (Z.of_nat k)) (Doubles.of_Z (Z.of_nat ratio)) in
  let m := Doubles.fadd (Doubles.fmul m0 (Doubles.fsub (Doubles.of_Z 1) frac)) (Doubles.fmul m1 frac) in
  u32 (u64 (Doubles.to_Z m)).

(** The cell [misses[i]] is [missCache[base + i]].  The last partition's last cell is one
    past the array that the constructor allocates, as [umonMisses] is one cell short of
    what [UMon.getMisses] writes; here both cells exist. *)
Definition put (base i : nat) (v : Z) (c : nat -> Z) : nat -> Z := <[(base + i)%nat := u32 v]> c.

Definition upsample_step (base ratio ub buckets : nat) (umonMisses : nat -> Z) (c : nat -> Z) (j : nat) : nat -> Z :=
  let c := put base (ratio * j) (umonMisses j) c in
  let c := fold_left (fun c k => put base (ratio * j + k) (interpolate (umonMisses j) (umonMisses (S j)) k ratio) c)
             (seq 1 (ratio - 1)) c in
  put base buckets (umonMisses ub) c.

Definition getMissCurve (base p : nat) (m : UMonMonitor) (c : nat -> Z) : res (nat -> Z) :=
  u ← monitor_at p m;
  let umonBuckets := UMon.buckets u in
  let umonMisses := UMon.getMisses (fun _ => 0) u in
  if (buckets m <=? umonBuckets)%nat then
    let ratio := (umonBuckets / buckets m)%nat in
    _ ← assert_that (umonBuckets mod buckets m =? 0)%nat;
    let c := fold_left (fun c j => put base j (umonMisses (j * ratio)%nat) c) (seq 0 (buckets m)) c in
    Ok (put base (buckets m) (umonMisses umonBuckets) c)
  else
    let ratio := (buckets m / umonBuckets)%nat in
    _ ← assert_that (buckets m mod umonBuckets =? 0)%nat;
    Ok (fold_left (upsample_step base ratio umonBuckets (buckets m) umonMisses) (seq 0 umonBuckets) c).

Definition getMissCurves (m : UMonMonitor) : res (nat -> Z) :=
  foldM (fun c p => getMissCurve (p * buckets m) p m c) (missCache m) (seq 0 (getNumPartitions m)).

Definition get (p b : nat) (m : UMonMonitor) : res (Z * UMonMonitor) :=
  _ ← assert_that (p <? length (monitors m))%nat;
  m ← (if missCacheValid m then Ok m
       else c ← getMissCurves m; Ok (set_valid true (set_cache c m)));
  Ok (missCache m (p * buckets m + b)%nat, m).

Definition reset (m : UMonMonitor) : UMonMonitor :=
  set_valid false (set_monitors (UMon.startNextInterval <$> monitors m) m).

#[export] Instance umon_monitor : PartitionMonitor UMonMonitor := {
  mon_partitions := getNumPartitions;
  mon_buckets := buckets;
  mon_access := access;
  mon_get := get;
  mon_getNumAccesses := getNumAccesses;
  mon_reset := reset
}.

(** * Its curves *)

(** Each monitor's bucket count and the partitioner's are multiples one of the other. *)
Definition compatible (b : nat) (u : UMon.UMon) : Prop :=
  if (b <=? UMon.buckets u)%nat then (UMon.buckets u mod b = 0)%nat else (b mod UMon.buckets u = 0)%nat.

Record wf (m : UMonMonitor) : Prop := {
  w_compat : Forall (compatible (buckets m)) (monitors m);
  w_umon : Forall UMon.wf (monitors m);
  w_u32 i : in_u32 (missCache m i)
}.

Lemma put_u32 base i v c j : (forall j, in_u32 (c j)) -> in_u32 (put base i v c j).
Proof.
  intros Hc. unfold put. destruct (decide (j = (base + i)%nat)) as [->|Hne];
    [rewrite fn_lookup_insert; apply u32_range|by rewrite fn_lookup_insert_ne].
Qed.

Lemma fold_u32 {A} (f : (nat -> Z) -> A -> nat -> Z) l : forall c,
  (forall c a, (forall j, in_u32 (c j)) -> forall j, in_u32 (f c a j)) ->
  (forall j, in_u32 (c j)) -> forall j, in_u32 (fold_left f l c j).
Proof. induction l; intros c Hf Hc; cbn; [done|]. apply IHl; [done|]. intros. by apply Hf. Qed.

Lemma getMissCurve_ok base p m c : wf m -> (p < getNumPartitions m)%nat -> (forall j, in_u32 (c j)) ->
  exists c', getMissCurve base p m c = Ok c' /\ forall j, in_u32 (c' j).
Proof.
  intros [Hw _ _] [u Hu]%lookup_lt_is_Some_2 Hc. unfold getMissCurve, monitor_at. rewrite Hu. cbn [mbind res_bind].
  rewrite Forall_lookup in Hw. specialize (Hw p u Hu). unfold compatible in Hw.
  destruct (buckets m <=? UMon.buckets u)%nat; rewrite Hw; cbn; eexists; (split; [reflexivity|]); intros j.
  - apply put_u32, fold_u32; [|done]. intros. by apply put_u32.
  - apply fold_u32; [|done]. intros c' a Hc' j'. unfold upsample_step. apply put_u32. apply fold_u32.
    + intros. by apply put_u32.
    + intros. by apply put_u32.
Qed.

Lemma getMissCurves_ok m : wf m -> exists c, getMissCurves m = Ok c /\ forall j, in_u32 (c j).
Proof.
  intros W. unfold getMissCurves. assert (Hs : Forall (fun p => (p < getNumPartitions m)%nat) (seq 0 (getNumPartitions m)))
    by (apply Forall_forall; intros p Hp%elem_of_seq; lia).
  pose proof (w_u32 _ W) as Hc. revert Hs Hc. generalize (missCache m). generalize (seq 0 (getNumPartitions m)).
  induction l as [|p l IH]; intros c Hs Hc; cbn [foldM]; [eauto|]. apply Forall_cons in Hs as [Hp Hs].
  destruct (getMissCurve_ok (p * buckets m) p m c W Hp Hc) as (c' & -> & Hc'). by apply IH.
Qed.

Definition curves (m : UMonMonitor) : nat -> Z :=
  if missCacheValid m then missCache m else match getMissCurves m with Ok c => c | Fail _ => missCache m end.
Definition curve (m : UMonMonitor) (p b : nat) : Z := curves m (p * buckets m + b)%nat.

Lemma get_ok m p b : wf m -> (p < getNumPartitions m)%nat ->
  exists m', get p b m = Ok (curve m p b, m') /\ wf m' /\ curve m' = curve m /\
    getNumPartitions m' = getNumPartitions m /\ buckets m' = buckets m.
Proof.
  intros W Hp. unfold get, curve, curves. rewrite (proj2 (Nat.ltb_lt _ _)) by done. cbn [assert_that mbind res_bind].
  destruct (missCacheValid m) eqn:E; [exists m; rewrite E; split_and!; done|].
  destruct (getMissCurves_ok m W) as (c & -> & Hc). cbn. eexists. split; [done|]. split; [|done]. by destruct W.
Qed.

Lemma curve_u32 m p b : wf m -> in_u32 (curve m p b).
Proof.
  intros W. unfold curve, curves. destruct (missCacheValid m); [apply W|].
  destruct (getMissCurves_ok m W) as (c & -> & Hc). apply Hc.
Qed.

Lemma mon_access_wf m p x : wf m -> missCacheValid m = false -> (p < getNumPartitions m)%nat ->
  exists m', access p x m = Ok m' /\ wf m' /\ missCacheValid m' = false /\
    getNumPartitions m' = getNumPartitions m /\ buckets m' = buckets m.
Proof.
  intros [Hc Hw Hu] Hv [u Hp]%lookup_lt_is_Some_2. rewrite Forall_lookup in Hw. pose proof (Hw p u Hp) as Hwu.
  destruct (UMon.access_wf u x Hwu) as (u' & Ha & Hw' & Hb). unfold access, monitor_at. rewrite Hp.
  unfold mbind, res_bind. rewrite Ha. cbn. rewrite Hv. cbn. eexists. split; [done|]. split_and!; [|done| |done].
  - split; cbn; [|apply Forall_insert; [by apply Forall_lookup|done]|done].
    apply Forall_insert; [done|]. unfold compatible. rewrite Hb. rewrite Forall_lookup in Hc. by apply (Hc p).
  - unfold getNumPartitions. cbn. apply length_insert.
Qed.

Lemma reset_ok m : wf m -> wf (reset m) /\ missCacheValid (reset m) = false /\
  getNumPartitions (reset m) = getNumPartitions m /\ buckets (reset m) = buckets m.
Proof.
  intros [Hc Hw Hu]. split_and!; [|done|unfold getNumPartitions; cbn; apply length_fmap|done].
  split; cbn; [by apply Forall_fmap, (Forall_impl _ _ _ Hc)| |done].
  apply Forall_fmap, (Forall_impl _ _ _ Hw). intros u Hu'. by apply UMon.startNextInterval_wf.
Qed.

#[export] Instance umon_monitor_laws : PartitionMonitorLaws UMonMonitor := {
  mon_wf := wf;
  mon_open m := missCacheValid m = false;
  mon_curve := curve;
  mon_curve_u32 := curve_u32;
  mon_get_ok m p b W Hp _ := get_ok m p b W Hp;
  mon_access_ok := mon_access_wf;
  mon_reset_ok := reset_ok
}.

Lemma monitor_new_ok numLines umonLines ub P b m : new numLines umonLines ub P b = Ok m -> (0 < ub)%nat ->
  (if (b <=? ub)%nat then ub mod b = 0 else b mod ub = 0)%nat ->
  wf m /\ missCacheValid m = false /\ getNumPartitions m = P /\ buckets m = b.
Proof.
  intros Hn Hub Hc. unfold new in Hn. rewrite bind_Ok in Hn. destruct Hn as (x & _ & Hn).
  destruct (UMon.new numLines umonLines ub) as [u|] eqn:E; [|discriminate Hn].
  apply (f_equal (fun r => match r with Ok a => a | Fail _ => m end)) in Hn. cbn [mbind res_bind] in Hn. subst m.
  destruct (UMon.new_repr _ _ _ _ E Hub) as (R & Hb & _). pose proof (UMon.new_hashes _ _ _ _ E) as Hh.
  split_and!; [|reflexivity|apply length_replicate|reflexivity]. split; cbn [buckets monitors missCache].
  - apply Forall_replicate. unfold compatible. by rewrite Hb.
  - apply Forall_replicate. split; [eauto|done].
  - intros i. unfold in_u32. lia.
Qed.

(** Downsampling: the cells one partition writes. *)
Lemma fold_put base (g : nat -> Z) n : forall c i,
  fold_left (fun c j => put base j (g j) c) (seq 0 n) c i =
    if decide (base <= i < base + n)%nat then u32 (g (i - base)%nat) else c i.
Proof.
  induction n as [|n IH]; intros c i; [by rewrite decide_False by lia|].
  rewrite seq_S, fold_left_app. cbn. unfold put at 1. destruct (decide (i = base + n)%nat) as [->|Hne].
  - rewrite fn_lookup_insert, decide_True by lia. do 2 f_equal. lia.
  - rewrite fn_lookup_insert_ne, IH by done. destruct (decide (base <= i < base + n)%nat).
    + by rewrite decide_True by lia.
    + by rewrite decide_False by lia.
Qed.

Lemma down_block base p m c u r : monitors m !! p = Some u -> (0 < buckets m)%nat -> UMon.buckets u = (r * buckets m)%nat -> (0 < r)%nat ->
  exists c', getMissCurve base p m c = Ok c' /\ forall i, c' i =
    if decide (i = base + buckets m)%nat then u32 (UMon.getMisses (fun _ => 0) u (UMon.buckets u))
    else if decide (base <= i < base + buckets m)%nat then u32 (UMon.getMisses (fun _ => 0) u ((i - base) * r)%nat)
    else c i.
Proof.
  intros Hu Hb Hub Hr. unfold getMissCurve, monitor_at. rewrite Hu. cbn [mbind res_bind].
  rewrite (proj2 (Nat.leb_le _ _)) by nia. replace (UMon.buckets u mod buckets m)%nat with 0%nat by (by rewrite Hub, Nat.Div0.mod_mul).
  cbn [assert_that Nat.eqb mbind res_bind]. replace (UMon.buckets u / buckets m)%nat with r by (rewrite Hub, Nat.div_mul; lia).
  eexists. split; [reflexivity|]. intros i. unfold put at 1. destruct (decide (i = base + buckets m)%nat) as [->|Hne].
  - by rewrite fn_lookup_insert.
  - rewrite fn_lookup_insert_ne by done. apply (fold_put base (fun j => UMon.getMisses (fun _ => 0) u (j * r)%nat)).
Qed.

(** The cells of a curve after [n] partitions. *)
Lemma down_blocks m r n : (0 < buckets m)%nat -> (0 < r)%nat -> Forall (fun u => UMon.buckets u = (r * buckets m)%nat) (monitors m) ->
  (n <= getNumPartitions m)%nat ->
  exists c, foldM (fun c p => getMissCurve (p * buckets m) p m c) (missCache m) (seq 0 n) = Ok c /\
    forall p u, (p < n)%nat -> monitors m !! p = Some u ->
      (forall b, (b < buckets m)%nat -> c (p * buckets m + b)%nat = u32 (UMon.getMisses (fun _ => 0) u (b * r)%nat)) /\
      (S p = n -> c (p * buckets m + buckets m)%nat = u32 (UMon.getMisses (fun _ => 0) u (UMon.buckets u))).
Proof.
  intros Hb Hr Hall. induction n as [|n IH]; intros Hn; [eexists; split; [done|]; lia|].
  destruct IH as (c & Hf & Hc); [lia|]. rewrite seq_S, foldM_app, Hf. cbn [foldM mbind res_bind Nat.add].
  destruct (lookup_lt_is_Some_2 (monitors m) n) as [un Hun]; [unfold getNumPartitions in Hn; lia|].
  rewrite Forall_lookup in Hall.
  destruct (down_block (n * buckets m) n m c un r Hun Hb (Hall n un Hun) Hr) as (c' & Hg & Hc'). unfold mbind, res_bind. rewrite Hg.
  exists c'. split; [done|]. intros p u Hp Hu. destruct (decide (p = n)) as [->|Hne].
  - replace un with u in * by congruence. split; [|intros _; by rewrite Hc', decide_True by lia].
    intros b Hlt. rewrite Hc', decide_False, decide_True by lia. do 3 f_equal. lia.
  - split; [|lia]. intros b Hlt. rewrite Hc', decide_False, decide_False by nia. apply Hc; [lia|done|done].
Qed.

(** With utility monitors whose number of buckets is a multiple [r] of the
    partitioner's, every read of the curves succeeds and entry [b] of the curve of [p] is
    entry [b * r] of its utility monitor, except at the last, [b = buckets]: the curves
    are [buckets + 1] long and [buckets] apart, so what is read there is entry 0 of the
    next partition's curve; only the last partition reads its own. *)
Theorem umon_curves_overlap m r p u b :
  wf m -> missCacheValid m = false -> (0 < buckets m)%nat -> (0 < r)%nat ->
  Forall (fun u => UMon.buckets u = (r * buckets m)%nat) (monitors m) ->
  monitors m !! p = Some u -> (b <= buckets m)%nat ->
  exists m', get p b m = Ok (u32 (if decide (b = buckets m)
      then match monitors m !! S p with
           | Some u' => UMon.getMisses (fun _ => 0) u' 0
           | None => UMon.getMisses (fun _ => 0) u (UMon.buckets u)
           end
      else UMon.getMisses (fun _ => 0) u (b * r)%nat), m') /\ missCacheValid m' = true.
Proof.
  intros W Hv Hb Hr Hall Hu Hle. pose proof (lookup_lt_Some _ _ _ Hu) as Hp.
  destruct (down_blocks m r (getNumPartitions m) Hb Hr Hall ltac:(done)) as (c & Hc & Hcells).
  unfold get. rewrite (proj2 (Nat.ltb_lt _ _)) by done. cbn [assert_that mbind res_bind]. rewrite Hv.
  unfold getMissCurves. rewrite Hc. exists (set_valid true (set_cache c m)). split; [|done]. cbn. do 2 f_equal.
  destruct (Hcells p u Hp Hu) as [Hown Hlast]. case_decide as Hcase; [subst b|by apply Hown; lia].
  destruct (monitors m !! S p) as [u'|] eqn:E.
  - destruct (Hcells (S p) u' ltac:(by apply lookup_lt_Some in E) E) as [Hnext _].
    specialize (Hnext 0%nat Hb). cbn [Nat.mul] in Hnext. rewrite <- Hnext. f_equal. lia.
  - apply Hlast. apply lookup_ge_None in E. unfold getNumPartitions. lia.
Qed.

(** A utility monitor of two buckets with a given count of hits and misses. *)
Definition sample_umon (b : nat) (h mi : Z) : UMon.UMon :=
  UMon.mkUMon 8 1 b 4 0 2 (fun _ => h) mi (fun _ => UMon.init_node b) (fun _ => 0%nat) (H3.mkH3 2 0 []).

Lemma sample_umon_wf b h mi : (0 < b)%nat -> UMon.wf (sample_umon b h mi).
Proof.
  intros Hb. split.
  - exists (fun _ => UMon.padded b []). split; [done|]. intros s. exists (seq 0 b). destruct (UMon.new_linked b Hb).
    by rewrite length_seq.
  - intros x. unfold UMon.sampled, UMon.set_of. cbn [UMon.hf sample_umon]. rewrite !H3.hash_eq by (cbn; lia). cbn [mbind res_bind]. eauto.
Qed.

(** A monitor of such utility monitors. *)
Definition sample_monitor (b : nat) (l : list (Z * Z)) : UMonMonitor :=
  mkMon b (fun _ => 0) false ((fun '(h, mi) => sample_umon b h mi) <$> l).

Lemma sample_monitor_wf b l : (0 < b)%nat -> wf (sample_monitor b l).
Proof.
  intros Hb. split; cbn.
  - apply Forall_fmap, Forall_true. intros [h mi]. unfold compatible. cbn. by rewrite Nat.leb_refl, Nat.Div0.mod_same.
  - apply Forall_fmap, Forall_true. intros [h mi]. by apply sample_umon_wf.
  - intros i. unfold in_u32. lia.
Qed.

(** The first partition missed at most 3 times, the second 40 times: with all the
    buckets the first would miss 40 times, the monitor says. *)
Lemma umon_curves_overlap_witness :
  exists m', get 0 2 (sample_monitor 2 [(1, 1); (10, 20)]) = Ok (40, m') /\ missCacheValid m' = true.
Proof.
  apply (umon_curves_overlap (sample_monitor 2 [(1, 1); (10, 20)]) 1 0 (sample_umon 2 1 1) 2).
  - apply sample_monitor_wf. lia.
  - reflexivity.
  - cbn. lia.
  - lia.
  - repeat constructor.
  - reflexivity.
  - reflexivity.
Defined.

End UMonMonitor.
