(* ===== verification/Lookahead.v ===== *)
(** The lookahead allocation (lookahead.cpp, partitioner.h), over any partition monitor:
    it ends, hands out all of its balance, and each of its steps is a greedy choice. *)
From S2P Require Import Prelude Doubles PartMon.

Module Lookahead.
Import Doubles.

(** A [uint32_t] held as a natural number. *)
Definition w32 (n : nat) : nat := Z.to_nat (u32 (Z.of_nat n)).

Section lookahead.
Context {M : Type} `{PartitionMonitor M}.

(** * The source's functions *)

Definition mu_step (part partAlloc : nat) (st : double * nat * M) (i : nat) : res (double * nat * M) :=
  let '(maxMu, maxMuAlloc, m) := st in
  '(h0, m) ← mon_get part partAlloc m;
  '(h1, m) ← mon_get part (w32 (partAlloc + i)) m;
  let extraHits := u32 (h0 - h1) in
  let mu := fdiv (of_Z extraHits) (of_Z (Z.of_nat i)) in
  Ok (if flt maxMu mu then (mu, i, m) else (maxMu, maxMuAlloc, m)).

Definition getMaxMarginalUtility (part partAlloc balance : nat) (m : M) : res (double * nat * M) :=
  foldM (mu_step part partAlloc) (minus_one, 0%nat, m) (seq 1 balance).

Definition util_step (parts : list nat) (st : Z * Z * M) (p : nat) : res (Z * Z * M) :=
  let '(noCacheMisses, curPartMisses, m) := st in
  '(h0, m) ← mon_get p 0 m;
  '(h1, m) ← mon_get p (parts !!! p) m;
  Ok (u64 (noCacheMisses + h0), u64 (curPartMisses + h1), m).

Definition computePartitioningTotalUtility (numPartitions : nat) (parts : list nat) (m : M) : res (Z * M) :=
  '(noCacheMisses, curPartMisses, m) ← foldM (util_step parts) (0, 0, m) (seq 0 numPartitions);
  Ok (u64 (noCacheMisses - curPartMisses), m).

(** One partition of the inner loop; no partition yet is the source's [numPartitions]. *)
Definition best_step (forbidden : nat -> bool) (allocs : list nat) (balance : nat) (st : double * option nat * nat * M) (i : nat)
    : res (double * option nat * nat * M) :=
  let '(maxMu, maxMuPart, maxMuAlloc, m) := st in
  if forbidden i then Ok st
  else
    '(mu, muAlloc, m) ← getMaxMarginalUtility i (allocs !!! i) balance m;
    Ok (if flt maxMu mu then (mu, Some i, muAlloc, m) else (maxMu, maxMuPart, maxMuAlloc, m)).

Fixpoint allocate (fuel numPartitions : nat) (forbidden : nat -> bool) (allocs : list nat) (balance : nat) (m : M)
    : res (list nat * M) :=
  if (balance =? 0)%nat then Ok (allocs, m)
  else
    match fuel with
    | O => Fail NoFuel
    | S fuel =>
        '(_, maxMuPart, maxMuAlloc, m) ←
          foldM (best_step forbidden allocs balance) (minus_one, None, 0%nat, m) (seq 0 numPartitions);
        match maxMuPart with
        | None => Fail AssertFailed
        | Some p =>
            allocate fuel numPartitions forbidden (<[p := w32 ((allocs !!! p) + maxMuAlloc)]> allocs)
              (balance - maxMuAlloc) m
        end
    end.

(** Each iteration takes at least one bucket of the balance, which is the fuel. *)
Definition computeBestPartitioning (numPartitions buckets minAlloc : nat) (forbidden : nat -> bool) (m : M) : res (list nat * M) :=
  let balance := Z.to_nat (u32 (Z.of_nat buckets - Z.of_nat minAlloc)) in
  allocate balance numPartitions forbidden (replicate numPartitions minAlloc) balance m.

End lookahead.

(** * The largest of some numbers *)

Definition scan {A} (score : A -> double) (st : double * A) (a : A) : double * A :=
  if flt (fst st) (score a) then (score a, a) else st.

(** The element kept scores at least as much as any other. *)
Lemma scan_max {A} (score : A -> double) l : forall a, nonneg (score a) -> Forall (fun b => nonneg (score b)) l ->
  exists w, fold_left (scan score) l (score a, a) = (score w, w) /\ w ∈ a :: l /\
    Forall (fun b => flt (score w) (score b) = false) (a :: l).
Proof.
  induction l as [|b l IH]; intros a Ha Hl; cbn.
  - exists a. split_and!; [done|by left|]. constructor; [apply flt_irrefl|constructor].
  - apply Forall_cons in Hl as [Hb Hl]. unfold scan at 2. cbn [fst].
    assert (Hn : forall w, w ∈ a :: b :: l -> nonneg (score w)).
    { intros w Hw. rewrite Forall_forall in Hl. rewrite !elem_of_cons in Hw. destruct Hw as [->|[->|Hw]]; auto. }
    destruct (flt (score a) (score b)) eqn:E.
    + destruct (IH b Hb Hl) as (w & Hf & Hw & Hall). exists w. assert (w ∈ a :: b :: l) by (by right).
      split_and!; [done..|]. constructor; [|done]. apply Forall_cons in Hall as [Hwb _].
      destruct (flt (score w) (score a)) eqn:E2; [|done]. rewrite <- Hwb. symmetry. apply (flt_trans _ (score a)); auto.
    + destruct (IH a Ha Hl) as (w & Hf & Hw & Hall). exists w.
      assert (w ∈ a :: b :: l) by (apply elem_of_cons in Hw as [->|Hw]; [left|by right; right]).
      split_and!; [done..|]. apply Forall_cons in Hall as [Hwa Hall]. constructor; [done|]. constructor; [|done].
      destruct (flt (score w) (score b)) eqn:E2; [|done]. rewrite <- Hwa. symmetry. apply (flt_weak _ _ (score b)); auto.
Qed.

(** From [-1.0], which any count beats. *)
Lemma scan_max_start {A} (score : A -> double) l a0 : l <> [] -> Forall (fun b => nonneg (score b)) l ->
  exists w, fold_left (scan score) l (minus_one, a0) = (score w, w) /\ w ∈ l /\
    Forall (fun b => flt (score w) (score b) = false) l.
Proof.
  destruct l as [|b l]; [done|]. intros _ [Hb Hl]%Forall_cons. cbn. unfold scan at 2. cbn [fst].
  rewrite minus_one_lt by done. by apply scan_max.
Qed.

Lemma w32_id n : Z.of_nat n < 2 ^ 32 -> w32 n = n.
Proof. intros Hn. unfold w32. rewrite u32_id by (unfold in_u32; lia). lia. Qed.

(** * The greedy specification *)

Section greedy.
Variables (P : nat) (forbidden : nat -> bool) (util : list nat -> nat -> nat -> double).

(** Each step gives [i] buckets to [p], where no partition and no number of buckets has
    a larger marginal utility per bucket. *)
Inductive greedy : list nat -> nat -> list nat -> Prop :=
  | greedy_done allocs : greedy allocs 0 allocs
  | greedy_step allocs balance p i allocs' :
      (p < P)%nat -> forbidden p = false -> (1 <= i <= balance)%nat ->
      (forall q j, (q < P)%nat -> forbidden q = false -> (1 <= j <= balance)%nat ->
         flt (util allocs p i) (util allocs q j) = false) ->
      greedy (<[p := ((allocs !!! p) + i)%nat]> allocs) (balance - i) allocs' ->
      greedy allocs balance allocs'.

Lemma greedy_sum allocs balance allocs' : length allocs = P -> greedy allocs balance allocs' ->
  length allocs' = P /\ sum_list allocs' = (sum_list allocs + balance)%nat.
Proof.
  intros Hl Hg. induction Hg as [allocs|allocs balance p i allocs' Hp Hfp Hi _ _ IH]; [lia|].
  destruct IH as [H1 H2]; [by rewrite length_insert|]. split; [done|]. rewrite H2.
  assert (Hpl : (p < length allocs)%nat) by lia.
  destruct (lookup_lt_is_Some_2 allocs p Hpl) as [v Hv]. rewrite (list_lookup_total_correct _ _ _ Hv).
  pose proof (take_drop_middle _ _ _ Hv) as Htd. rewrite insert_take_drop by done. rewrite <- Htd at 3.
  rewrite !sum_list_with_app. cbn. lia.
Qed.

Lemma greedy_bounds allocs balance allocs' q : length allocs = P -> greedy allocs balance allocs' -> (q < P)%nat ->
  (allocs !!! q <= allocs' !!! q <= (allocs !!! q) + balance)%nat /\ (forbidden q = true -> allocs' !!! q = allocs !!! q).
Proof.
  intros Hl Hg Hq. induction Hg as [allocs|allocs balance p i allocs' Hp Hfp Hi _ _ IH]; [split; [lia|done]|].
  destruct IH as [H1 H2]; [by rewrite length_insert|].
  destruct (decide (p = q)) as [->|Hne].
  - rewrite list_lookup_total_insert_eq in H1, H2 by lia. split; [lia|]. congruence.
  - rewrite list_lookup_total_insert_ne in H1, H2 by done. split; [lia|done].
Qed.

End greedy.

(** * The code follows it *)

Section correct.
Context {M : Type} `{PartitionMonitorLaws M}.

Definition same_monitor (m m' : M) : Prop :=
  mon_wf m' /\ mon_curve m' = mon_curve m /\ mon_partitions m' = mon_partitions m /\ mon_buckets m' = mon_buckets m.

(** The marginal utility per bucket the code computes: 32-bit differences of misses,
    divided as doubles. *)
Definition utility (m : M) (allocs : list nat) (p i : nat) : double :=
  fdiv (of_Z (u32 (mon_curve m p (allocs !!! p) - mon_curve m p ((allocs !!! p) + i)))) (of_Z (Z.of_nat i)).

Lemma utility_nonneg m allocs p i : (0 < i)%nat -> Z.of_nat i < 2 ^ 32 -> nonneg (utility m allocs p i).
Proof.
  intros Hi Hi2. apply fdiv_counts; [|lia]. pose proof (u32_range (mon_curve m p (allocs !!! p) - mon_curve m p ((allocs !!! p) + i))) as Hr.
  unfold in_u32 in Hr. lia.
Qed.

Lemma get_same m0 m p b : same_monitor m0 m -> (p < mon_partitions m0)%nat -> (b <= mon_buckets m0)%nat ->
  exists m', mon_get p b m = Ok (mon_curve m0 p b, m') /\ same_monitor m0 m'.
Proof.
  intros (W & Hc & Hp & Hb) Hlt Hle. destruct (mon_get_ok m p b W) as (m' & Hg & W' & Hc' & Hp' & Hb'); [congruence..|].
  exists m'. rewrite Hg, Hc. split; [done|]. split_and!; [done|congruence..].
Qed.

Lemma marginal_fold m0 allocs p l : forall m st, same_monitor m0 m -> (p < mon_partitions m0)%nat ->
  Z.of_nat (mon_buckets m0) < 2 ^ 32 -> Forall (fun i => (allocs !!! p) + i <= mon_buckets m0)%nat l ->
  ((allocs !!! p) <= mon_buckets m0)%nat ->
  exists m', foldM (mu_step p (allocs !!! p)) (st, m) l = Ok (fold_left (scan (utility m0 allocs p)) l st, m') /\
    same_monitor m0 m'.
Proof.
  induction l as [|i l IH]; intros m [mu k] Hs Hp Hlt Hl Ha; cbn [foldM fold_left]; [eauto|].
  apply Forall_cons in Hl as [Hi Hl].
  destruct (get_same m0 m p (allocs !!! p) Hs Hp Ha) as (m1 & Hg1 & Hs1).
  destruct (get_same m0 m1 p ((allocs !!! p) + i) Hs1 Hp Hi) as (m2 & Hg2 & Hs2).
  assert (mu_step p (allocs !!! p) (mu, k, m) i = Ok (scan (utility m0 allocs p) (mu, k) i, m2)) as ->.
  { unfold mu_step. rewrite w32_id by lia. unfold mbind, res_bind. rewrite Hg1, Hg2. fold (utility m0 allocs p i).
    unfold scan. cbn [fst]. by destruct (flt mu _). }
  by apply IH.
Qed.

(** The best number of buckets for one partition. *)
Definition best_of (m0 : M) (allocs : list nat) (balance p : nat) : double * nat :=
  fold_left (scan (utility m0 allocs p)) (seq 1 balance) (minus_one, 0%nat).

Lemma best_of_ok m0 allocs balance p : (0 < balance)%nat -> Z.of_nat balance < 2 ^ 32 ->
  let '(mu, i) := best_of m0 allocs balance p in
  mu = utility m0 allocs p i /\ nonneg mu /\ (1 <= i <= balance)%nat /\
  forall j, (1 <= j <= balance)%nat -> flt mu (utility m0 allocs p j) = false.
Proof.
  intros Hb Hlt. unfold best_of. destruct (scan_max_start (utility m0 allocs p) (seq 1 balance) 0%nat) as (i & -> & Hi & Hall).
  { by destruct balance; [lia|]. }
  { apply Forall_forall. intros i Hi%elem_of_seq. apply utility_nonneg; lia. }
  apply elem_of_seq in Hi. split_and!; [done|apply utility_nonneg; lia|lia|lia|].
  intros j Hj. rewrite Forall_forall in Hall. apply Hall, elem_of_seq. lia.
Qed.

Lemma getMax_ok m0 m allocs p balance : same_monitor m0 m -> (p < mon_partitions m0)%nat ->
  Z.of_nat (mon_buckets m0) < 2 ^ 32 -> ((allocs !!! p) + balance <= mon_buckets m0)%nat ->
  exists m', getMaxMarginalUtility p (allocs !!! p) balance m = Ok (best_of m0 allocs balance p, m') /\ same_monitor m0 m'.
Proof.
  intros Hs Hp Hlt Hle. apply marginal_fold; [done..| |lia]. apply Forall_forall. intros i Hi%elem_of_seq. lia.
Qed.

(** The state of the inner loop whose best partition so far is [p], [P] being none. *)
Definition picked (P : nat) (m0 : M) (allocs : list nat) (balance : nat) (st : double * nat) : double * option nat * nat :=
  if decide (snd st = P) then (fst st, None, 0%nat) else (fst st, Some (snd st), snd (best_of m0 allocs balance (snd st))).

Lemma best_fold m0 P forbidden allocs balance l : forall m st, same_monitor m0 m -> P = mon_partitions m0 ->
  Z.of_nat (mon_buckets m0) < 2 ^ 32 -> (forall p, (p < P)%nat -> (allocs !!! p) + balance <= mon_buckets m0)%nat ->
  Forall (fun p => (p < P)%nat) l ->
  exists m', foldM (best_step forbidden allocs balance) (picked P m0 allocs balance st, m) l =
      Ok (picked P m0 allocs balance
            (fold_left (scan (fun p => fst (best_of m0 allocs balance p))) (filter (fun p => forbidden p = false) l) st), m') /\
    same_monitor m0 m'.
Proof.
  intros m st Hs HP Hlt Hle. revert m st Hs. induction l as [|p l IH]; intros m st Hs Hl; [by exists m|].
  apply Forall_cons in Hl as [Hp Hl]. cbn [foldM]. destruct (forbidden p) eqn:Ef.
  - assert (best_step forbidden allocs balance (picked P m0 allocs balance st, m) p = Ok (picked P m0 allocs balance st, m)) as ->.
    { unfold best_step. destruct (picked P m0 allocs balance st) as [[mu o] k]. by rewrite Ef. }
    rewrite filter_cons_False by congruence. by apply IH.
  - destruct (getMax_ok m0 m allocs p balance Hs ltac:(congruence) Hlt (Hle p Hp)) as (m' & Hg & Hs').
    rewrite filter_cons_True by done. cbn [fold_left].
    destruct (IH m' (scan (fun p => fst (best_of m0 allocs balance p)) st p) Hs' Hl) as (m2 & Hf & Hs2).
    exists m2. split; [|done]. rewrite <- Hf.
    assert (best_step forbidden allocs balance (picked P m0 allocs balance st, m) p =
      Ok (picked P m0 allocs balance (scan (fun p => fst (best_of m0 allocs balance p)) st p), m')) as ->; [|done].
    destruct (picked P m0 allocs balance st) as [[mu o] k] eqn:Ep.
    assert (Hmu : mu = fst st) by (unfold picked in Ep; case_decide; congruence).
    unfold best_step. rewrite Ef. unfold mbind, res_bind. rewrite Hg. destruct (best_of m0 allocs balance p) as [bm bi] eqn:Eb.
    unfold scan. cbn [fst]. rewrite Eb. subst mu. cbn [fst]. destruct (flt (fst st) bm).
    + do 2 f_equal. unfold picked. cbn [fst snd]. rewrite decide_False by lia. by rewrite Eb.
    + by rewrite Ep.
Qed.

(** An iteration of the outer loop. *)
Lemma iteration m0 m P forbidden allocs balance : same_monitor m0 m -> P = mon_partitions m0 ->
  Z.of_nat (mon_buckets m0) < 2 ^ 32 -> (forall p, (p < P)%nat -> (allocs !!! p) + balance <= mon_buckets m0)%nat ->
  (0 < balance)%nat -> (exists p, (p < P)%nat /\ forbidden p = false) ->
  exists mu p i m', foldM (best_step forbidden allocs balance) (minus_one, None, 0%nat, m) (seq 0 P) = Ok (mu, Some p, i, m') /\
    same_monitor m0 m' /\ (p < P)%nat /\ forbidden p = false /\ (1 <= i <= balance)%nat /\
    forall q j, (q < P)%nat -> forbidden q = false -> (1 <= j <= balance)%nat ->
      flt (utility m0 allocs p i) (utility m0 allocs q j) = false.
Proof.
  intros Hs HP Hlt Hle Hb (p0 & Hp0 & Hf0).
  assert (Hlb : Z.of_nat balance < 2 ^ 32) by (specialize (Hle p0 Hp0); lia).
  set (score := fun p => fst (best_of m0 allocs balance p)). set (l := filter (fun p => forbidden p = false) (seq 0 P)).
  assert (Hl : forall q, q ∈ l <-> (q < P)%nat /\ forbidden q = false).
  { intros q. unfold l. rewrite list_elem_of_filter, elem_of_seq. intuition lia. }
  destruct (best_fold m0 P forbidden allocs balance (seq 0 P) m (minus_one, P) Hs HP Hlt Hle) as (m' & Hf & Hs').
  { apply Forall_forall. intros q Hq%elem_of_seq. lia. }
  destruct (scan_max_start score l P) as (p & Hw & Hp & Hall).
  { intros E. assert (p0 ∈ l) as Hin by (by apply Hl). rewrite E in Hin. by apply elem_of_nil in Hin. }
  { apply Forall_forall. intros q _. unfold score. pose proof (best_of_ok m0 allocs balance q Hb Hlb) as Hq.
    destruct (best_of m0 allocs balance q). apply Hq. }
  apply Hl in Hp as [Hp Hfp]. fold score l in Hf. rewrite Hw in Hf.
  unfold picked in Hf. cbn [fst snd] in Hf. rewrite decide_True, decide_False in Hf by (done || lia).
  pose proof (best_of_ok m0 allocs balance p Hb Hlb) as Hbp.
  exists (score p), p, (snd (best_of m0 allocs balance p)), m'. unfold score in Hall.
  destruct (best_of m0 allocs balance p) as [mu i] eqn:Ebp. destruct Hbp as (Hmu & _ & Hi & _).
  split_and!; [done|done|done|done|cbn; lia|cbn; lia|]. intros q j Hq Hfq Hj. rewrite Forall_forall in Hall.
  specialize (Hall q ltac:(by apply Hl)). pose proof (best_of_ok m0 allocs balance q Hb Hlb) as Hbq. cbn [snd].
  destruct (best_of m0 allocs balance q) as [muq k]. destruct Hbq as (Hmq & Hnq & Hk & Hmax). cbn in Hall.
  rewrite <- Hmu.
  destruct (flt mu (utility m0 allocs q j)) eqn:E; [|done]. rewrite <- Hall. symmetry.
  apply (flt_weak _ _ (utility m0 allocs q j)); [rewrite Hmu; apply utility_nonneg; lia|done|apply utility_nonneg; lia|done|by apply Hmax].
Qed.

Lemma allocate_ok m0 P forbidden fuel : forall m allocs balance, same_monitor m0 m -> P = mon_partitions m0 ->
  length allocs = P -> Z.of_nat (mon_buckets m0) < 2 ^ 32 ->
  (forall p, (p < P)%nat -> (allocs !!! p) + balance <= mon_buckets m0)%nat ->
  (exists p, (p < P)%nat /\ forbidden p = false) -> (balance <= fuel)%nat ->
  exists allocs' m', allocate fuel P forbidden allocs balance m = Ok (allocs', m') /\ same_monitor m0 m' /\
    greedy P forbidden (utility m0) allocs balance allocs'.
Proof.
  induction fuel as [|fuel IH]; intros m allocs balance Hs HP Hl Hlt Hle Hex Hfuel; cbn [allocate];
    destruct (Nat.eqb_spec balance 0) as [->|Hb].
  1, 3: exists allocs, m; split_and!; [done|done|constructor].
  { lia. }
  destruct (iteration m0 m P forbidden allocs balance Hs HP Hlt Hle ltac:(lia) Hex) as (mu & p & i & m' & Hf & Hs' & Hp & Hfp & Hi & Hmax).
  unfold mbind, res_bind. rewrite Hf. assert (Hpb := Hle p Hp). rewrite w32_id by lia.
  destruct (IH m' (<[p := ((allocs !!! p) + i)%nat]> allocs) (balance - i)%nat Hs' HP) as (a' & m2 & Ha & Hs2 & Hg);
    [by rewrite length_insert|done| |done|lia|].
  { intros q Hq. destruct (decide (p = q)) as [->|Hne].
    - rewrite list_lookup_total_insert_eq by lia. lia.
    - rewrite list_lookup_total_insert_ne by done. specialize (Hle q Hq). lia. }
  exists a', m2. split_and!; [done|done|]. by eapply greedy_step.
Qed.

Lemma best_partitioning_ok m buckets minAlloc forbidden :
  let P := mon_partitions m in
  mon_wf m -> (minAlloc <= buckets <= mon_buckets m)%nat -> Z.of_nat (mon_buckets m) < 2 ^ 32 ->
  (exists p, (p < P)%nat /\ forbidden p = false) ->
  exists allocs m', computeBestPartitioning P buckets minAlloc forbidden m = Ok (allocs, m') /\ same_monitor m m' /\
    greedy P forbidden (utility m) (replicate P minAlloc) (buckets - minAlloc) allocs.
Proof.
  intros P W Hmin Hlt Hex. unfold computeBestPartitioning. rewrite u32_id by (unfold in_u32; lia).
  replace (Z.to_nat (Z.of_nat buckets - Z.of_nat minAlloc)) with (buckets - minAlloc)%nat by lia.
  apply allocate_ok; [by split_and!|done|by rewrite length_replicate|done| |done|done].
  intros p Hp. rewrite lookup_total_replicate_2 by done. lia.
Qed.

Lemma lookahead_sizes m buckets minAlloc forbidden :
  let P := mon_partitions m in
  mon_wf m -> (minAlloc <= buckets <= mon_buckets m)%nat -> Z.of_nat (mon_buckets m) < 2 ^ 32 ->
  (exists p, (p < P)%nat /\ forbidden p = false) ->
  exists allocs m', computeBestPartitioning P buckets minAlloc forbidden m = Ok (allocs, m') /\ same_monitor m m' /\
    length allocs = P /\ sum_list allocs = (P * minAlloc + (buckets - minAlloc))%nat /\
    forall p, (p < P)%nat -> (minAlloc <= allocs !!! p <= buckets)%nat /\ (forbidden p = true -> allocs !!! p = minAlloc).
Proof.
  intros P W Hmin Hlt Hex. destruct (best_partitioning_ok m buckets minAlloc forbidden W Hmin Hlt Hex) as (al & m' & Ha & Hs & Hg).
  exists al, m'. fold P in Ha, Hg. destruct (greedy_sum P forbidden (utility m) _ _ _ (length_replicate P minAlloc) Hg) as [Hl Hsum].
  split_and!; [done|done|done|by rewrite Hsum, sum_list_replicate|].
  intros p Hp. destruct (greedy_bounds P forbidden (utility m) _ _ _ p (length_replicate P minAlloc) Hg Hp) as [H1 H2].
  rewrite lookup_total_replicate_2 in H1, H2 by done. split; [lia|done].
Qed.

(** C32: on any monitor, for a minimum of at most [buckets] and at least one partition that
    is not forbidden, the allocation ends, trips no assertion and reads only entries the
    curves have.  It is the result of greedy steps: each gives the partition and the number
    of buckets with the largest marginal utility per bucket, as the doubles compare.  It
    adds up to [buckets - minAlloc] more than the minima, since the balance pays for one
    minimum only, and a forbidden partition keeps its minimum. *)
Theorem lookahead_allocates m buckets minAlloc forbidden :
  let P := mon_partitions m in
  mon_wf m -> (minAlloc <= buckets <= mon_buckets m)%nat -> Z.of_nat (mon_buckets m) < 2 ^ 32 ->
  (exists p, (p < P)%nat /\ forbidden p = false) ->
  exists allocs m', computeBestPartitioning P buckets minAlloc forbidden m = Ok (allocs, m') /\ same_monitor m m' /\
    greedy P forbidden (utility m) (replicate P minAlloc) (buckets - minAlloc) allocs /\
    length allocs = P /\ sum_list allocs = (P * minAlloc + (buckets - minAlloc))%nat /\
    forall p, (p < P)%nat -> (minAlloc <= allocs !!! p <= buckets)%nat /\ (forbidden p = true -> allocs !!! p = minAlloc).
Proof.
  intros P W Hmin Hlt Hex. destruct (best_partitioning_ok m buckets minAlloc forbidden W Hmin Hlt Hex) as (al & m1 & Ha & Hs & Hg).
  destruct (lookahead_sizes m buckets minAlloc forbidden W Hmin Hlt Hex) as (al' & m' & Ha' & _ & Hrest).
  fold P in Ha, Hg, Ha', Hrest. rewrite Ha in Ha'. injection Ha' as <- <-. by exists al, m1.
Qed.

Lemma util_fold_ok m0 parts l : forall m a b, same_monitor m0 m -> Forall (fun p => (p < mon_partitions m0)%nat) l ->
  (forall p, (p < mon_partitions m0)%nat -> (parts !!! p <= mon_buckets m0)%nat) ->
  exists a' b' m', foldM (util_step parts) (a, b, m) l = Ok (a', b', m') /\ same_monitor m0 m'.
Proof.
  induction l as [|p l IH]; intros m a b Hs Hl Hparts; [by exists a, b, m|]. apply Forall_cons in Hl as [Hp Hl].
  destruct (get_same m0 m p 0 Hs Hp ltac:(lia)) as (m1 & Hg1 & Hs1).
  destruct (get_same m0 m1 p (parts !!! p) Hs1 Hp (Hparts p Hp)) as (m2 & Hg2 & Hs2).
  cbn [foldM]. assert (exists a' b', util_step parts (a, b, m) p = Ok (a', b', m2)) as (a1 & b1 & ->); [|by apply IH].
  unfold util_step, mbind, res_bind. rewrite Hg1, Hg2. eauto.
Qed.

(** The total utility reads the curves, without failing. *)
Lemma total_utility_ok m0 m parts : same_monitor m0 m ->
  (forall p, (p < mon_partitions m0)%nat -> (parts !!! p <= mon_buckets m0)%nat) ->
  exists v m', computePartitioningTotalUtility (mon_partitions m0) parts m = Ok (v, m') /\ same_monitor m0 m'.
Proof.
  intros Hs Hparts. unfold computePartitioningTotalUtility.
  destruct (util_fold_ok m0 parts (seq 0 (mon_partitions m0)) m 0 0 Hs) as (a & b & m' & Hf & Hs'); [|done|].
  { apply Forall_forall. intros p Hp%elem_of_seq. lia. }
  unfold mbind, res_bind. rewrite Hf. eauto.
Qed.

End correct.

#[local] Existing Instances UMonMonitor.umon_monitor UMonMonitor.umon_monitor_laws.

(** Four buckets and a minimum of one for two partitions: five buckets are given. *)
Lemma lookahead_allocates_witness :
  exists allocs m', computeBestPartitioning 2 4 1 (fun _ => false) (UMonMonitor.sample_monitor 4 [(5, 1); (10, 20)]) = Ok (allocs, m') /\
    sum_list allocs = 5%nat.
Proof.
  destruct (lookahead_allocates (UMonMonitor.sample_monitor 4 [(5, 1); (10, 20)]) 4 1 (fun _ => false)) as (allocs & m' & Ha & _ & _ & _ & Hs & _).
  - apply UMonMonitor.sample_monitor_wf. lia.
  - cbn. lia.
  - reflexivity.
  - exists 0%nat. split; [cbn; lia|done].
  - exists allocs, m'. split; [exact Ha|exact Hs].
Defined.

(** * The partitioner *)

(** What the partitioner calls of a partitioned policy: its monitor and the new sizes. *)
Class PartReplPolicy (R M : Type) := {
  getMonitor : R -> M;
  putMonitor : M -> R -> R;
  setPartitionSizes : list nat -> R -> res R
}.

Record LookaheadPartitioner := mkPart {
  numPartitions : nat;
  buckets : nat;
  minAlloc : nat;
  allocPortion : double;
  forbidden : nat -> bool;
  curAllocs : list nat
}.
Definition set_cur (l : list nat) (lp : LookaheadPartitioner) : LookaheadPartitioner :=
  mkPart (numPartitions lp) (buckets lp) (minAlloc lp) (allocPortion lp) (forbidden lp) l.

(** [gm_calloc<uint32_t>(buckets + 1)]; [forbidden] is null in the constructor's callers. *)
Definition new (numPartitions buckets minAlloc : nat) (allocPortion : double) (forbidden : nat -> bool) : res LookaheadPartitioner :=
  _ ← assert_that (0 <? buckets)%nat;
  Ok (mkPart numPartitions buckets minAlloc allocPortion forbidden (replicate (S buckets) 0%nat)).

Definition partition {R M} `{PartitionMonitor M} `{PartReplPolicy R M} (lp : LookaheadPartitioner) (r : R)
    : res (LookaheadPartitioner * R) :=
  let m := getMonitor r in
  '(bestAllocs, m) ← computeBestPartitioning (numPartitions lp)
      (Z.to_nat (u32 (to_Z (fmul (allocPortion lp) (of_Z (Z.of_nat (buckets lp)))))))
      (w32 (minAlloc lp * numPartitions lp)) (forbidden lp) m;
  '(newUtility, m) ← computePartitioningTotalUtility (numPartitions lp) bestAllocs m;
  '(curUtility, m) ← computePartitioningTotalUtility (numPartitions lp) (curAllocs lp) m;
  let switchAllocs := u64 (102 * curUtility) / 100 <? newUtility in
  let switchAllocs := if curUtility =? 0 then true else switchAllocs in
  let switchAllocs := true in
  let cur := if switchAllocs : bool then bestAllocs ++ drop (length bestAllocs) (curAllocs lp) else curAllocs lp in
  r ← setPartitionSizes cur (putMonitor m r);
  Ok (set_cur cur lp, putMonitor (mon_reset (getMonitor r)) r).

End Lookahead.
