(* ===== verification/WayPart.v ===== *)
(** Way partitioning (part_repl_policies.h): each way belongs to a partition, a partition
    fills its own ways, and the policy counts the lines of each.  The partitioner's sizes
    do not fit it. *)
From S2P Require Import Prelude MemHier Doubles PartMon Lookahead.

(** * Counting *)

Module Cnt.

(** How many of the lines [0 .. n-1] have [f i = q]. *)
Fixpoint cnt (f : Z -> nat) (n q : nat) : Z :=
  match n with
  | O => 0
  | S k => cnt f k q + (if decide (f (Z.of_nat k) = q) then 1 else 0)
  end.

Lemma cnt_range f n q : 0 <= cnt f n q <= Z.of_nat n.
Proof. induction n; cbn [cnt]; [lia|]. case_decide; lia. Qed.

Lemma cnt_ext f g n q : (forall i, 0 <= i < Z.of_nat n -> f i = g i) -> cnt f n q = cnt g n q.
Proof. induction n; intros He; cbn [cnt]; [done|]. rewrite IHn, He by (intros; try apply He; lia). done. Qed.

Lemma cnt_insert f n q id v : 0 <= id < Z.of_nat n ->
  cnt (<[id := v]> f) n q = cnt f n q + (if decide (v = q) then 1 else 0) - (if decide (f id = q) then 1 else 0).
Proof.
  induction n as [|n IH]; intros Hid; cbn [cnt]; [lia|]. destruct (decide (id = Z.of_nat n)) as [->|Hne].
  - rewrite fn_lookup_insert, (cnt_ext _ f); [lia|]. intros i Hi. by rewrite fn_lookup_insert_ne by lia.
  - rewrite fn_lookup_insert_ne, IH by lia. lia.
Qed.

Lemma cnt_pos f n id : 0 <= id < Z.of_nat n -> 0 < cnt f n (f id).
Proof.
  induction n as [|n IH]; intros Hid; cbn [cnt]; [lia|]. destruct (decide (id = Z.of_nat n)) as [->|Hne].
  - rewrite decide_True by done. pose proof (cnt_range f n (f (Z.of_nat n))). lia.
  - specialize (IH ltac:(lia)). case_decide; lia.
Qed.

Lemma cnt_all f n q : (forall i, 0 <= i < Z.of_nat n -> f i = q) -> forall q', cnt f n q' = if decide (q' = q) then Z.of_nat n else 0.
Proof.
  intros Hf q'. induction n as [|n IH]; cbn [cnt]; [by case_decide|]. rewrite IH, Hf by (intros; try apply Hf; lia).
  destruct (decide (q' = q)) as [->|Hne]; [rewrite decide_True by done; lia|rewrite decide_False by done; lia].
Qed.

(** The counts of all the values add up to the number of lines. *)
Lemma cnt_sum f n P : (forall i, 0 <= i < Z.of_nat n -> (f i < P)%nat) -> foldr Z.add 0 (cnt f n <$> seq 0 P) = Z.of_nat n.
Proof.
  intros Hf. induction n as [|n IH].
  - cbn [cnt]. generalize (seq 0 P). induction l; cbn; [done|]. cbn in IHl. lia.
  - assert (Hone : forall l a, NoDup l -> a ∈ l ->
      foldr Z.add 0 ((fun q => cnt f n q + (if decide (a = q) then 1 else 0)) <$> l) = foldr Z.add 0 (cnt f n <$> l) + 1).
    { assert (Hz : forall l a, a ∉ l -> foldr Z.add 0 ((fun q => cnt f n q + (if decide (a = q) then 1 else 0)) <$> l) = foldr Z.add 0 (cnt f n <$> l)).
      { induction l as [|b l IHl]; intros a Ha; [done|]. apply not_elem_of_cons in Ha as [Hab Ha]. cbn.
        rewrite decide_False by done. cbn in IHl. rewrite IHl by done. lia. }
      induction l as [|b l IHl]; intros a Hd Ha; [by apply elem_of_nil in Ha|]. apply NoDup_cons in Hd as [Hb Hd]. cbn.
      destruct (decide (a = b)) as [->|Hne].
      - cbn in Hz. rewrite Hz by done. lia.
      - apply elem_of_cons in Ha as [|Ha]; [done|]. cbn in IHl. rewrite IHl by done. lia. }
    cbn [cnt]. rewrite Hone; [rewrite IH by (intros; apply Hf; lia); lia|apply NoDup_seq|].
    apply elem_of_seq. specialize (Hf (Z.of_nat n) ltac:(lia)). lia.
Qed.

End Cnt.

Module WayPart.
Import PartMapper Cnt.

Record WayPartInfo := mkLine { addr : Z; ts : Z; p : nat }.

(** The fields of the policy; [array], [partInfo] and [wayPartIndex] are indexed by
    numbers within their allocation. *)
Record WayPartReplPolicy (M : Type) := mkWP {
  monitor : M;
  mapper : PartMapper;
  partInfo : nat -> PartInfo;
  partitions : nat;
  totalSize : Z;
  waySize : Z;
  ways : nat;
  array : Z -> WayPartInfo;
  wayPartIndex : nat -> nat;
  testMode : bool;
  bestId : Z;
  candIdx : nat;
  incomingLinePart : nat;
  incomingLineAddr : Z;
  timestamp : Z
}.
Arguments monitor {M}. Arguments mapper {M}. Arguments partInfo {M}. Arguments partitions {M}. Arguments totalSize {M}.
Arguments waySize {M}. Arguments ways {M}. Arguments array {M}. Arguments wayPartIndex {M}. Arguments testMode {M}.
Arguments bestId {M}. Arguments candIdx {M}. Arguments incomingLinePart {M}. Arguments incomingLineAddr {M}. Arguments timestamp {M}.
Arguments mkWP {M}.

Section policy.
Context {M : Type} `{PartitionMonitor M} (procIdx : nat).
Implicit Types w : WayPartReplPolicy M.

Definition set_monitor (m : M) w : WayPartReplPolicy M :=
  mkWP m (mapper w) (partInfo w) (partitions w) (totalSize w) (waySize w) (ways w) (array w) (wayPartIndex w)
    (testMode w) (bestId w) (candIdx w) (incomingLinePart w) (incomingLineAddr w) (timestamp w).
Definition set_info (f : nat -> PartInfo) w : WayPartReplPolicy M :=
  mkWP (monitor w) (mapper w) f (partitions w) (totalSize w) (waySize w) (ways w) (array w) (wayPartIndex w)
    (testMode w) (bestId w) (candIdx w) (incomingLinePart w) (incomingLineAddr w) (timestamp w).
Definition set_array (f : Z -> WayPartInfo) w : WayPartReplPolicy M :=
  mkWP (monitor w) (mapper w) (partInfo w) (partitions w) (totalSize w) (waySize w) (ways w) f (wayPartIndex w)
    (testMode w) (bestId w) (candIdx w) (incomingLinePart w) (incomingLineAddr w) (timestamp w).
Definition set_index (f : nat -> nat) w : WayPartReplPolicy M :=
  mkWP (monitor w) (mapper w) (partInfo w) (partitions w) (totalSize w) (waySize w) (ways w) (array w) f
    (testMode w) (bestId w) (candIdx w) (incomingLinePart w) (incomingLineAddr w) (timestamp w).
Definition set_cand (best : Z) (idx : nat) w : WayPartReplPolicy M :=
  mkWP (monitor w) (mapper w) (partInfo w) (partitions w) (totalSize w) (waySize w) (ways w) (array w) (wayPartIndex w)
    (testMode w) best idx (incomingLinePart w) (incomingLineAddr w) (timestamp w).
Definition set_incoming (pt : nat) (a : Z) w : WayPartReplPolicy M :=
  mkWP (monitor w) (mapper w) (partInfo w) (partitions w) (totalSize w) (waySize w) (ways w) (array w) (wayPartIndex w)
    (testMode w) (bestId w) (candIdx w) pt a (timestamp w).
Definition set_ts (t : Z) w : WayPartReplPolicy M :=
  mkWP (monitor w) (mapper w) (partInfo w) (partitions w) (totalSize w) (waySize w) (ways w) (array w) (wayPartIndex w)
    (testMode w) (bestId w) (candIdx w) (incomingLinePart w) (incomingLineAddr w) t.

Definition upd_size (d : Z) (i : PartInfo) : PartInfo :=
  mkInfo (u64 (size i + d)) (targetSize i) (profHits i) (profMisses i) (profSelfEvictions i) (profExtEvictions i).
Definition set_target (t : Z) (i : PartInfo) : PartInfo :=
  mkInfo (size i) t (profHits i) (profMisses i) (profSelfEvictions i) (profExtEvictions i).
Definition inc_hits (i : PartInfo) : PartInfo :=
  mkInfo (size i) (targetSize i) (u64 (profHits i + 1)) (profMisses i) (profSelfEvictions i) (profExtEvictions i).
Definition inc_misses (i : PartInfo) : PartInfo :=
  mkInfo (size i) (targetSize i) (profHits i) (u64 (profMisses i + 1)) (profSelfEvictions i) (profExtEvictions i).
Definition inc_self (i : PartInfo) : PartInfo :=
  mkInfo (size i) (targetSize i) (profHits i) (profMisses i) (u64 (profSelfEvictions i + 1)) (profExtEvictions i).
Definition inc_ext (i : PartInfo) : PartInfo :=
  mkInfo (size i) (targetSize i) (profHits i) (profMisses i) (profSelfEvictions i) (u64 (profExtEvictions i + 1)).
Definition at_part (q : nat) (f : PartInfo -> PartInfo) w : WayPartReplPolicy M :=
  set_info (<[q := f (partInfo w q)]> (partInfo w)) w.

(** The initial assignment of way [i]. *)
Definition initial_way (partitions : nat) (ways : nat) (i : nat) : nat :=
  Z.to_nat (u32 (Z.of_nat i * Z.of_nat partitions) / Z.of_nat ways).

Definition new (mon : M) (mp : PartMapper) (lines : Z) (ways : nat) (testMode : bool) : res (WayPartReplPolicy M) :=
  let totalSize := u32 lines in
  let partitions := getNumPartitions mp in
  let waySize := totalSize / Z.of_nat ways in
  _ ← assert_that (u32 (waySize * Z.of_nat ways) =? totalSize);
  let info := <[0%nat := mkInfo totalSize 0 0 0 0 0]> (fun _ => mkInfo 0 0 0 0 0 0) in
  let '(index, info) := fold_left
    (fun '(index, info) i =>
       let pt := initial_way partitions ways i in
       (<[i := pt]> index, <[pt := set_target (u64 (targetSize (info pt) + waySize)) (info pt)]> info))
    (seq 0 ways) (fun _ => 0%nat, info) in
  Ok (mkWP mon mp info partitions totalSize waySize ways (fun _ => mkLine 0 0 0) index testMode (-1) 0 0 0 1).

Definition update (id : Z) w : res (WayPartReplPolicy M) :=
  let e := array w id in
  let w :=
    if 0 <? ts e then at_part (p e) inc_hits w
    else
      let oldPart := p e in
      let newPart := incomingLinePart w in
      let w :=
        if negb (oldPart =? newPart)%nat
        then at_part newPart (upd_size 1) (at_part oldPart inc_ext (at_part oldPart (upd_size (-1)) w))
        else at_part oldPart inc_self w in
      let w := at_part newPart inc_misses w in
      set_array (<[id := mkLine (addr e) (ts e) newPart]> (array w)) w in
  let e := array w id in
  let w := set_array (<[id := mkLine (addr e) (timestamp w) (p e)]> (array w)) w in
  let w := set_ts (u64 (timestamp w + 1)) w in
  m ← mon_access (p e) (addr e) (monitor w);
  Ok (set_monitor m w).

Definition startReplacement (req : MemHier.MemReq) w : res (WayPartReplPolicy M) :=
  _ ← assert_that (candIdx w =? 0)%nat;
  _ ← assert_that (bestId w =? -1);
  pt ← getPartition procIdx (mapper w) req;
  Ok (set_incoming pt (MemHier.lineAddr req) w).

Definition recordCandidate w (id : Z) : res (WayPartReplPolicy M) :=
  _ ← assert_that (candIdx w <? ways w)%nat;
  let c := array w id in
  let way := candIdx w in
  let w := set_cand (bestId w) (S way) w in
  let take := set_cand (i32 id) (S way) w in
  Ok (if testMode w || (wayPartIndex w way =? incomingLinePart w)%nat then
        if 0 <=? bestId w then
          let best := array w (bestId w) in
          let mine := (p c =? incomingLinePart w)%nat in
          let best_mine := (p best =? incomingLinePart w)%nat in
          if testMode w || (mine && best_mine) then
            if ts c <? ts best then take else w
          else if mine && negb best_mine then w
          else if negb mine && best_mine then take
          else if ts c <? ts best then take else w
        else take
      else w).

Definition getBestCandidate w : res Z :=
  _ ← assert_that (0 <=? bestId w);
  Ok (u32 (bestId w)).

(** [LegacyReplPolicy::rank]. *)
Definition rank (req : MemHier.MemReq) (cands : list Z) w : res (Z * WayPartReplPolicy M) :=
  w ← startReplacement req w;
  w ← foldM recordCandidate w cands;
  id ← getBestCandidate w;
  Ok (id, w).

Definition replaced (id : Z) w : WayPartReplPolicy M :=
  let w := set_cand (-1) 0 w in
  set_array (<[id := mkLine (incomingLineAddr w) 0 (p (array w id))]> (array w)) w.

(** [wayPartIndex[curWay++] = p], [n] times. *)
Fixpoint fill_ways (n q curWay : nat) (index : nat -> nat) : nat * (nat -> nat) :=
  match n with
  | O => (curWay, index)
  | S n => fill_ways n q (S curWay) (<[curWay := q]> index)
  end.

Definition size_step (waysPart : list nat) (st : nat * WayPartReplPolicy M) (q : nat) : nat * WayPartReplPolicy M :=
  let '(curWay, w) := st in
  let w := at_part q (set_target (u32 (totalSize w * Z.of_nat (waysPart !!! q)) / Z.of_nat (ways w))) w in
  let '(curWay, index) := fill_ways (waysPart !!! q) q curWay (wayPartIndex w) in
  (curWay, set_index index w).

Definition setPartitionSizes (waysPart : list nat) w : res (WayPartReplPolicy M) :=
  let '(curWay, w) := fold_left (size_step waysPart) (seq 0 (partitions w)) (0%nat, w) in
  _ ← assert_that (curWay =? ways w)%nat;
  Ok w.

#[export] Instance way_part_policy : Lookahead.PartReplPolicy (WayPartReplPolicy M) M := {
  getMonitor := monitor;
  putMonitor := set_monitor;
  setPartitionSizes := setPartitionSizes
}.

(** What the cache does on a hit of line [id] and on a miss. *)
Definition miss (req : MemHier.MemReq) (cands : list Z) w : res (Z * WayPartReplPolicy M) :=
  '(id, w) ← rank req cands w;
  w ← update id (replaced id w);
  Ok (id, w).

(** * The choice of a victim *)

(** The incoming partition may fill way [i]. *)
Definition fillable w (i : nat) : bool := testMode w || (wayPartIndex w i =? incomingLinePart w)%nat.

(** Lines of other partitions go first, then the least recently used. *)
Definition key w (id : Z) : Z :=
  (if testMode w then 0 else if (p (array w id) =? incomingLinePart w)%nat then 2 ^ 64 else 0) + ts (array w id).

Definition chosen w (cs : list Z) (best : Z) : Prop :=
  (best = -1 /\ forall j, (j < length cs)%nat -> fillable w j = false) \/
  (0 <= best /\ exists i, cs !! i = Some best /\ fillable w i = true /\
     forall j c, cs !! j = Some c -> fillable w j = true -> key w best <= key w c /\ ((j < i)%nat -> key w best < key w c)).

Lemma record_ok w seen best id : chosen w seen best -> (forall i, in_u64 (ts (array w i))) -> (length seen < ways w)%nat ->
  0 <= id < 2 ^ 31 ->
  exists best', recordCandidate (set_cand best (length seen) w) id = Ok (set_cand best' (S (length seen)) w) /\
    chosen w (seen ++ [id]) best'.
Proof.
  intros Hch Hts Hlt Hid. unfold recordCandidate. cbn [candIdx ways set_cand]. rewrite (proj2 (Nat.ltb_lt _ _)) by done.
  cbn [assert_that mbind res_bind]. cbn [array testMode wayPartIndex incomingLinePart bestId set_cand].
  fold (fillable w (length seen)). assert (Hi32 : i32 id = id) by (unfold i32; rewrite Z.mod_small by lia; lia). rewrite Hi32.
  destruct (fillable w (length seen)) eqn:Ef; last first.
  { exists best. split; [done|]. destruct Hch as [[-> Hn]|(Hb & i & Hi & Hfi & Hmin)].
    - left. split; [done|]. intros j Hj. rewrite length_app in Hj. cbn in Hj.
      destruct (decide (j = length seen)) as [->|]; [done|]. apply Hn. lia.
    - right. split; [done|]. exists i. split_and!; [by apply lookup_app_l_Some|done|].
      intros j c [Hj|[Hge Hj]]%lookup_app_Some; [by apply Hmin|]. apply list_lookup_singleton_Some in Hj as [Hj _].
      assert (j = length seen) as -> by lia. congruence. }
  destruct Hch as [[-> Hn]|(Hb & i & Hi & Hfi & Hmin)].
  - exists id. split; [done|]. right. split; [lia|]. exists (length seen). split_and!; [by rewrite list_lookup_middle|done|].
    intros j c [Hj|[Hge Hj]]%lookup_app_Some.
    + apply lookup_lt_Some in Hj. intros Hf. rewrite Hn in Hf by done. done.
    + apply list_lookup_singleton_Some in Hj as [Hj <-]. intros _. split; lia.
  - rewrite (proj2 (Z.leb_le _ _)) by done.
    assert (Hcmp : exists b : bool, b = (key w id <? key w best) /\
      forall A (x y : A), (if testMode w || ((p (array w id) =? incomingLinePart w)%nat && (p (array w best) =? incomingLinePart w)%nat)
         then if ts (array w id) <? ts (array w best) then x else y
         else if (p (array w id) =? incomingLinePart w)%nat && negb (p (array w best) =? incomingLinePart w)%nat then y
         else if negb (p (array w id) =? incomingLinePart w)%nat && (p (array w best) =? incomingLinePart w)%nat then x
         else if ts (array w id) <? ts (array w best) then x else y) = if b then x else y).
    { eexists. split; [reflexivity|]. intros A x y. unfold key. pose proof (Hts id) as H1. pose proof (Hts best) as H2.
      unfold in_u64 in *. destruct (testMode w), (p (array w id) =? _)%nat, (p (array w best) =? _)%nat; cbn [orb andb negb];
        repeat match goal with |- context [?a <? ?b] => destruct (Z.ltb_spec a b) end; done || lia. }
    destruct Hcmp as (b & Hb' & Hif). rewrite Hif. clear Hif.
    destruct b; symmetry in Hb'; [apply Z.ltb_lt in Hb'|apply Z.ltb_ge in Hb'].
    + exists id. split; [done|]. right. split; [lia|]. exists (length seen). split_and!; [by rewrite list_lookup_middle|done|].
      intros j c [Hj|[Hge Hj]]%lookup_app_Some Hf.
      * destruct (Hmin j c Hj Hf). lia.
      * apply list_lookup_singleton_Some in Hj as [Hj <-]. split; lia.
    + exists best. split; [done|]. right. split; [done|]. exists i. split_and!; [by apply lookup_app_l_Some|done|].
      intros j c [Hj|[Hge Hj]]%lookup_app_Some Hf; [by apply Hmin|].
      apply list_lookup_singleton_Some in Hj as [Hj <-]. apply lookup_lt_Some in Hi. split; lia.
Qed.

Lemma record_all_ok w cs : forall seen best, chosen w seen best -> (forall i, in_u64 (ts (array w i))) ->
  (length seen + length cs <= ways w)%nat -> Forall (fun id => 0 <= id < 2 ^ 31) cs ->
  exists best', foldM recordCandidate (set_cand best (length seen) w) cs = Ok (set_cand best' (length (seen ++ cs)) w) /\
    chosen w (seen ++ cs) best'.
Proof.
  induction cs as [|id cs IH]; intros seen best Hch Hts Hlt Hcs; cbn [foldM]; [exists best; by rewrite app_nil_r|].
  apply Forall_cons in Hcs as [Hid Hcs]. cbn [length] in Hlt.
  destruct (record_ok w seen best id Hch Hts ltac:(lia) Hid) as (b & -> & Hb). cbn [mbind res_bind].
  destruct (IH (seen ++ [id]) b Hb Hts) as (b' & Hf & Hb'); [rewrite length_app; cbn; lia|done|].
  rewrite length_app in Hf. cbn [length] in Hf. rewrite Nat.add_1_r, <- app_assoc in Hf. rewrite <- app_assoc in Hb'. eauto.
Qed.

(** The victim is in a way the incoming line's partition may fill, and among the
    candidates there it is the first of those that come first in the order "lines of other
    partitions, then least recently used" (in test mode, plain least recently used).  The
    ranking fails, with the assertion, exactly when the partition has no way. *)
Theorem way_victim w req cands pt :
  candIdx w = 0%nat -> bestId w = -1 -> (forall i, in_u64 (ts (array w i))) ->
  getPartition procIdx (mapper w) req = Ok pt ->
  (length cands <= ways w)%nat -> Forall (fun id => 0 <= id < 2 ^ 31) cands ->
  let w1 := set_incoming pt (MemHier.lineAddr req) w in
  match rank req cands w with
  | Ok (id, w') => w' = set_cand id (length cands) w1 /\ exists i, cands !! i = Some id /\ fillable w1 i = true /\
      forall j c, cands !! j = Some c -> fillable w1 j = true -> key w1 id <= key w1 c /\ ((j < i)%nat -> key w1 id < key w1 c)
  | Fail e => e = AssertFailed /\ forall j, (j < length cands)%nat -> fillable w1 j = false
  end.
Proof.
  intros Hc Hb Hts Hp Hlen Hcs w1. unfold rank, startReplacement. rewrite Hc, Hb, Hp. cbn [assert_that Nat.eqb Z.eqb Pos.eqb mbind res_bind].
  fold w1. destruct (record_all_ok w1 cands [] (-1)) as (best & Hf & Hch); [left; split; [done|cbn; lia]|done|done|done|].
  assert (set_cand (-1) (length (@nil Z)) w1 = w1) as Hw1 by (unfold w1, set_cand, set_incoming; cbn; by rewrite Hc, Hb).
  rewrite Hw1 in Hf. unfold mbind, res_bind. rewrite Hf. cbn [app] in Hch. unfold getBestCandidate. cbn [bestId set_cand].
  destruct Hch as [[-> Hn]|(Hge & i & Hi & Hfi & Hmin)]; [done|].
  rewrite (proj2 (Z.leb_le _ _)) by done. cbn [assert_that mbind res_bind].
  assert (Hbest : 0 <= best < 2 ^ 31) by (rewrite Forall_lookup in Hcs; by apply (Hcs i)).
  rewrite u32_id by (unfold in_u32; lia). split; [done|]. eauto.
Qed.

End policy.
(** * The sizes of the partitions *)

Section sizes.
Context {M : Type} `{PartitionMonitorLaws M} (procIdx : nat).
Implicit Types w : WayPartReplPolicy M.

Record wf w : Prop := {
  v_mon : mon_wf (monitor w);
  v_open : mon_open (monitor w);
  v_mparts : mon_partitions (monitor w) = partitions w;
  v_total : 0 <= totalSize w < 2 ^ 31;
  v_size q : (q < partitions w)%nat -> size (partInfo w q) = cnt (fun i => p (array w i)) (Z.to_nat (totalSize w)) q;
  v_line i : 0 <= i < totalSize w -> (p (array w i) < partitions w)%nat;
  v_ts i : in_u64 (ts (array w i));
  v_time : in_u64 (timestamp w);
  v_inc : (incomingLinePart w < partitions w)%nat;
  v_ways q : (q < partitions w)%nat -> exists i, (i < ways w)%nat /\ fillable (set_incoming q 0 w) i = true
}.

Lemma line_eta l : l = mkLine (addr l) (ts l) (p l).
Proof. by destruct l. Qed.

Lemma at_part_size q f w r : size (partInfo (at_part q f w) r) = if decide (r = q) then size (f (partInfo w q)) else size (partInfo w r).
Proof.
  cbn. destruct (decide (r = q)) as [->|Hne]; [by rewrite fn_lookup_insert|by rewrite fn_lookup_insert_ne].
Qed.

(** The line is the new partition's. *)
Lemma update_ok w id : wf w -> 0 <= id < totalSize w ->
  exists w', update id w = Ok w' /\ wf w' /\ candIdx w' = candIdx w /\ bestId w' = bestId w /\
    partitions w' = partitions w /\ mapper w' = mapper w /\ ways w' = ways w /\ totalSize w' = totalSize w /\
    p (array w' id) = if 0 <? ts (array w id) then p (array w id) else incomingLinePart w.
Proof.
  intros W Hid. pose proof (v_line _ W id Hid) as Hold. pose proof (v_inc _ W) as Hnew. unfold update.
  set (e := array w id) in *. set (old := p e) in *. set (new := incomingLinePart w) in *.
  set (w1 := if 0 <? ts e then _ else _).
  assert (H1 : monitor w1 = monitor w /\ (forall i, array w1 i = if decide (i = id) then mkLine (addr e) (ts e) (if 0 <? ts e then old else new) else array w i) /\
    timestamp w1 = timestamp w /\ partitions w1 = partitions w /\ totalSize w1 = totalSize w /\ incomingLinePart w1 = new /\
    ways w1 = ways w /\ wayPartIndex w1 = wayPartIndex w /\ testMode w1 = testMode w /\ candIdx w1 = candIdx w /\ bestId w1 = bestId w /\ mapper w1 = mapper w).
  { subst w1. destruct (0 <? ts e).
    - split_and!; try done. intros i. cbn. case_decide; [subst i|done]. apply line_eta.
    - destruct (negb (old =? new)%nat); split_and!; try done; intros i; cbn;
        (destruct (decide (i = id)) as [->|]; [by rewrite fn_lookup_insert|by rewrite fn_lookup_insert_ne]). }
  assert (Hs : forall q, (q < partitions w)%nat -> size (partInfo w1 q) = cnt (fun i => p (array w1 i)) (Z.to_nat (totalSize w)) q).
  { intros q Hq. pose proof (v_total _ W) as Ht. assert (Hidn : 0 <= id < Z.of_nat (Z.to_nat (totalSize w))) by lia.
    rewrite (cnt_ext _ (<[id := if 0 <? ts e then old else new]> (fun i => p (array w i)))).
    2: { intros i Hi. destruct H1 as (_ & Ha & _). rewrite Ha. destruct (decide (i = id)) as [->|];
           [by rewrite fn_lookup_insert|by rewrite fn_lookup_insert_ne]. }
    rewrite cnt_insert by done.
    fold e old. pose proof (v_size _ W q Hq) as Hsq. pose proof (cnt_range (fun i => p (array w i)) (Z.to_nat (totalSize w)) q) as Hr.
    pose proof (cnt_pos (fun i => p (array w i)) (Z.to_nat (totalSize w)) id Hidn) as Hpos.
    cbn beta in Hpos. fold e old in Hpos. subst w1. destruct (0 <? ts e).
    - rewrite at_part_size. case_decide; [subst q; cbn; lia|lia].
    - destruct (Nat.eqb_spec old new) as [Heq|Hne]; cbn [negb]; change (partInfo (set_array ?f ?x)) with (partInfo x);
        repeat (rewrite at_part_size; cbn [upd_size inc_ext inc_misses inc_self size]);
        rewrite ?(decide_True (P := new = new)), ?(decide_True (P := old = old)) by done.
      + rewrite <- Heq. repeat case_decide; subst; try congruence; lia.
      + rewrite ?(decide_False (P := new = old)) by done. rewrite (v_size _ W new) by done. rewrite (v_size _ W old) by done.
        pose proof (cnt_range (fun i => p (array w i)) (Z.to_nat (totalSize w)) new).
        repeat case_decide; subst; try congruence; rewrite ?u64_id by (unfold in_u64; lia); lia. }
  destruct H1 as (Hm & Ha & Ht & Hp & Htot & Hinc & Hw & Hidx & Htm & Hci & Hb & Hmp).
  set (e1 := array w1 id). set (w2 := set_ts _ _).
  destruct (mon_access_ok (monitor w) (p e1) (addr e1)) as (m' & Hacc & Hmw & Hmo & Hmp' & _); [apply W|apply W| |].
  { rewrite (v_mparts _ W). subst e1. rewrite Ha, decide_True by done. cbn. by destruct (0 <? ts e). }
  cbn [monitor set_ts set_array] in *. unfold mbind, res_bind. subst w2. cbn [monitor set_ts set_array]. rewrite Hm.
  rewrite Hacc. eexists. split; [reflexivity|]. cbn.
  split; [|split_and!; try done].
  - split; cbn; rewrite ?Hp, ?Htot.
    + done.
    + done.
    + by rewrite Hmp', (v_mparts _ W).
    + apply W.
    + intros q Hq. rewrite Hs by done. apply cnt_ext. intros i Hi.
      destruct (decide (i = id)) as [->|]; [by rewrite fn_lookup_insert|by rewrite fn_lookup_insert_ne].
    + intros i Hi. destruct (decide (i = id)) as [->|Hne].
      * rewrite fn_lookup_insert. cbn. subst e1. rewrite Ha, decide_True by done. cbn. by destruct (0 <? ts e).
      * rewrite fn_lookup_insert_ne, Ha, decide_False by done. by apply W.
    + intros i. destruct (decide (i = id)) as [->|Hne].
      * rewrite fn_lookup_insert. cbn. rewrite Ht. apply W.
      * rewrite fn_lookup_insert_ne, Ha, decide_False by done. apply W.
    + apply u64_range.
    + by rewrite Hinc.
    + intros q Hq. destruct (v_ways _ W q Hq) as (i & Hi & Hf). exists i. rewrite Hw. split; [done|].
      unfold fillable in *. cbn in *. by rewrite Htm, Hidx.
  - rewrite fn_lookup_insert. cbn. subst e1. rewrite Ha, decide_True by done. done.
Qed.

Lemma wf_cand best idx w : wf w -> wf (set_cand best idx w).
Proof. intros []. by split. Qed.

Lemma wf_incoming pt a w : (pt < partitions w)%nat -> wf w -> wf (set_incoming pt a w).
Proof. intros Hp []. by split. Qed.

Lemma wf_replaced id w : wf w -> wf (replaced id w).
Proof.
  intros W. unfold replaced. pose proof (wf_cand (-1) 0 w W) as W'.
  assert (Hp : forall i, p (array (set_array (<[id := mkLine (incomingLineAddr w) 0 (p (array w id))]> (array w)) w) i) = p (array w i)).
  { intros i. cbn. destruct (decide (i = id)) as [->|]; [by rewrite fn_lookup_insert|by rewrite fn_lookup_insert_ne]. }
  cbn in Hp. destruct W'. split; cbn in *; try done.
  - intros q Hq. rewrite v_size0 by done. apply cnt_ext. intros i _. by rewrite Hp.
  - intros i Hi. rewrite Hp. by apply v_line0.
  - intros i. destruct (decide (i = id)) as [->|]; [rewrite fn_lookup_insert; cbn; unfold in_u64; lia|by rewrite fn_lookup_insert_ne].
Qed.

(** What may come: hits of any line of the array, misses with all the candidates of a set
    from a partition the mapper knows. *)
Inductive op := Hit (id : Z) | Miss (req : MemHier.MemReq) (cands : list Z).

Definition exec (o : op) w : res (WayPartReplPolicy M) :=
  match o with
  | Hit id => update id w
  | Miss req cands => '(_, w) ← miss procIdx req cands w; Ok w
  end.

Definition valid w (o : op) : Prop :=
  match o with
  | Hit id => 0 <= id < totalSize w
  | Miss req cands => length cands = ways w /\ Forall (fun id => 0 <= id < totalSize w) cands /\
      exists pt, (pt < partitions w)%nat /\ getPartition procIdx (mapper w) req = Ok pt
  end.

Definition idle w : Prop := candIdx w = 0%nat /\ bestId w = -1.
Definition same_shape w w' : Prop :=
  partitions w' = partitions w /\ mapper w' = mapper w /\ ways w' = ways w /\ totalSize w' = totalSize w.

Lemma way_exec_ok o w : wf w -> idle w -> valid w o ->
  exists w', exec o w = Ok w' /\ wf w' /\ idle w' /\ same_shape w w'.
Proof.
  intros W [Hc Hb] Hv. destruct o as [id|req cands]; cbn [exec valid] in *.
  - destruct (update_ok w id W Hv) as (w' & Hu & W' & Hc' & Hb' & Hp & Hm & Hw & Ht & _).
    exists w'. split_and!; [done|done|split; congruence|done].
  - destruct Hv as (Hl & Hcs & pt & Hpt & Hg). unfold miss.
    assert (Hcs' : Forall (fun id => 0 <= id < 2 ^ 31) cands).
    { eapply Forall_impl; [exact Hcs|]. intros id Hid. pose proof (v_total _ W). cbn in Hid. lia. }
    pose proof (way_victim procIdx w req cands pt Hc Hb (v_ts _ W) Hg ltac:(lia) Hcs') as Hvic.
    set (w1 := set_incoming pt (MemHier.lineAddr req) w) in *. cbn zeta in Hvic.
    destruct (rank procIdx req cands w) as [[id w2]|e]; last first.
    { destruct Hvic as [_ Hno]. destruct (v_ways _ W pt Hpt) as (i & Hi & Hf). specialize (Hno i ltac:(lia)).
      unfold fillable in *. cbn in *. congruence. }
    destruct Hvic as (-> & i & Hi & _ & _). cbn [mbind res_bind].
    assert (Hid : 0 <= id < totalSize w) by (rewrite Forall_lookup in Hcs; by apply (Hcs i)).
    assert (W3 : wf (replaced id (set_cand id (length cands) w1))) by (apply wf_replaced, wf_cand, wf_incoming; done).
    destruct (update_ok _ id W3 Hid) as (w' & Hu & W' & Hc' & Hb' & Hp & Hm & Hw & Ht & _).
    unfold mbind, res_bind. rewrite Hu. exists w'. split_and!; [done|done| |done]. by split; rewrite ?Hc', ?Hb'.
Qed.

Lemma exec_all_ok ops : forall w, wf w -> idle w -> Forall (valid w) ops ->
  exists w', foldM (fun w o => exec o w) w ops = Ok w' /\ wf w' /\ idle w' /\ same_shape w w'.
Proof.
  induction ops as [|o ops IH]; intros w W Hi Hv; cbn [foldM]; [by exists w|].
  apply Forall_cons in Hv as [Ho Hv]. destruct (way_exec_ok o w W Hi Ho) as (w1 & -> & W1 & Hi1 & Hs).
  destruct (IH w1 W1 Hi1) as (w' & Hf & W' & Hi' & Hs').
  - eapply Forall_impl; [exact Hv|]. intros o'. destruct Hs as (H1 & H2 & H3 & H4). destruct o'; cbn; by rewrite ?H1, ?H2, ?H3, ?H4.
  - exists w'. cbn. split_and!; [done|done|done|]. destruct Hs as (?&?&?&?), Hs' as (?&?&?&?). split_and!; congruence.
Qed.

(** Every partition gets a way at the start, if there are enough. *)
Lemma initial_way_onto P W q : (q < P <= W)%nat -> Z.of_nat W * Z.of_nat P < 2 ^ 32 ->
  exists i, (i < W)%nat /\ initial_way P W i = q.
Proof.
  intros Hq Hlt. pose proof (Z.div_mod (Z.of_nat q * Z.of_nat W + Z.of_nat P - 1) (Z.of_nat P) ltac:(lia)) as Hd.
  pose proof (Z.mod_pos_bound (Z.of_nat q * Z.of_nat W + Z.of_nat P - 1) (Z.of_nat P) ltac:(lia)) as Hm.
  set (i := (Z.of_nat q * Z.of_nat W + Z.of_nat P - 1) / Z.of_nat P) in *.
  set (r := (_ mod _)) in *. assert (Hi0 : 0 <= i) by (apply Z.div_pos; nia).
  assert (Hi : i < Z.of_nat W) by nia. exists (Z.to_nat i). split; [lia|]. unfold initial_way.
  rewrite Z2Nat.id by done. rewrite u32_id by (unfold in_u32; nia).
  assert (i * Z.of_nat P / Z.of_nat W = Z.of_nat q) as ->; [|lia].
  symmetry. apply (Z.div_unique _ _ _ (i * Z.of_nat P - Z.of_nat q * Z.of_nat W)); nia.
Qed.

Lemma initial_way_lt P W i : (i < W)%nat -> (0 < P)%nat -> Z.of_nat W * Z.of_nat P < 2 ^ 32 -> (initial_way P W i < P)%nat.
Proof.
  intros Hi HP Hlt. unfold initial_way. rewrite u32_id by (unfold in_u32; nia).
  assert (Z.of_nat i * Z.of_nat P / Z.of_nat W < Z.of_nat P) by (apply Z.div_lt_upper_bound; nia).
  assert (0 <= Z.of_nat i * Z.of_nat P / Z.of_nat W) by (apply Z.div_pos; lia). lia.
Qed.

Lemma new_fold P W waySize n : forall st info0,
  st = fold_left (fun '(index, info) i =>
       let pt := initial_way P W i in
       (<[i := pt]> index, <[pt := set_target (u64 (targetSize (info pt) + waySize)) (info pt)]> info))
    (seq 0 n) (fun _ => 0%nat, info0) ->
  (forall i, (i < n)%nat -> fst st i = initial_way P W i) /\ (forall q, size (snd st q) = size (info0 q)).
Proof.
  induction n as [|n IH]; intros st info0 ->; [split; [lia|done]|].
  rewrite seq_S, fold_left_app. cbn [fold_left Nat.add]. specialize (IH _ info0 eq_refl).
  destruct (fold_left _ (seq 0 n) _) as [index info]. cbn [fst snd] in *. destruct IH as [H1 H2]. split.
  - intros i Hi. destruct (decide (i = n)) as [->|]; [by rewrite fn_lookup_insert|]. rewrite fn_lookup_insert_ne by done. apply H1. lia.
  - intros q. destruct (decide (q = initial_way P W n)) as [->|]; [rewrite fn_lookup_insert; apply H2|by rewrite fn_lookup_insert_ne].
Qed.

Lemma way_new_ok mon mp lines W tm w : new mon mp lines W tm = Ok w ->
  mon_wf mon -> mon_open mon -> mon_partitions mon = getNumPartitions mp -> (0 < getNumPartitions mp <= W)%nat ->
  Z.of_nat W * Z.of_nat (getNumPartitions mp) < 2 ^ 32 -> 0 <= lines < 2 ^ 31 ->
  wf w /\ idle w /\ partitions w = getNumPartitions mp /\ mapper w = mp /\ ways w = W /\ totalSize w = lines /\ testMode w = tm.
Proof.
  intros Hn Hw Ho Hp HP Hlt Hl. unfold new in Hn. rewrite bind_Ok in Hn. destruct Hn as (x & _ & Hn).
  rewrite u32_id in Hn by (unfold in_u32; lia).
  pose proof (new_fold (getNumPartitions mp) W (lines / Z.of_nat W) W _ (<[0%nat := mkInfo lines 0 0 0 0 0]> (fun _ => mkInfo 0 0 0 0 0 0)) eq_refl) as [H1 H2].
  destruct (fold_left _ (seq 0 W) _) as [index info]. cbn [fst snd] in *. injection Hn as <-.
  split_and!; try done. split; cbn; try done; try lia.
  - intros q Hq. rewrite H2. rewrite (cnt_all (fun _ => 0%nat) _ 0%nat) by done.
    destruct (decide (q = 0%nat)) as [->|]; [rewrite fn_lookup_insert; cbn; lia|by rewrite fn_lookup_insert_ne].
  - intros q Hq. destruct (initial_way_onto (getNumPartitions mp) W q) as (i & Hi & Hq'); [lia|done|].
    exists i. split; [done|]. unfold fillable. cbn. rewrite H1, Hq' by done. rewrite Nat.eqb_refl. by destruct tm.
Qed.

(** From the constructor on, with at least a way for each partition, every sequence of
    hits and misses succeeds, and the size the policy keeps for a partition is the number
    of lines of the array that are its own; the sizes add up to the number of lines. *)
Theorem way_sizes mon mp lines W tm w ops :
  new mon mp lines W tm = Ok w ->
  mon_wf mon -> mon_open mon -> mon_partitions mon = getNumPartitions mp -> (0 < getNumPartitions mp <= W)%nat ->
  Z.of_nat W * Z.of_nat (getNumPartitions mp) < 2 ^ 32 -> 0 <= lines < 2 ^ 31 -> Forall (valid w) ops ->
  exists w', foldM (fun w o => exec o w) w ops = Ok w' /\
    (forall q, (q < partitions w)%nat -> size (partInfo w' q) = cnt (fun i => p (array w' i)) (Z.to_nat lines) q) /\
    foldr Z.add 0 ((fun q => size (partInfo w' q)) <$> seq 0 (partitions w)) = lines.
Proof.
  intros Hn Hm Ho Hp HP Hlt Hl Hv. destruct (way_new_ok _ _ _ _ _ _ Hn Hm Ho Hp HP Hlt Hl) as (Wf & Hi & _ & _ & _ & Ht & _).
  destruct (exec_all_ok ops w Wf Hi Hv) as (w' & Hf & W' & _ & Hps & _ & _ & Ht'). exists w'. split; [done|].
  assert (Hs : forall q, (q < partitions w)%nat -> size (partInfo w' q) = cnt (fun i => p (array w' i)) (Z.to_nat lines) q).
  { intros q Hq. rewrite (v_size _ W' q) by congruence. by rewrite Ht', Ht. }
  split; [done|].
  rewrite (list_fmap_ext _ (cnt (fun i => p (array w' i)) (Z.to_nat lines)) (seq 0 (partitions w)));
    [|intros i q Hq%lookup_seq; apply Hs; lia].
  rewrite cnt_sum; [lia|]. intros i Hir. rewrite <- Hps. apply (v_line _ W'). lia.
Qed.

(** * Repartitioning *)

Lemma fill_ways_count n q : forall cur index, fst (fill_ways n q cur index) = (cur + n)%nat.
Proof. induction n as [|n IH]; intros cur index; cbn; [lia|]. rewrite IH. lia. Qed.

Lemma size_fold_count l sizes : forall cur w,
  fst (fold_left (size_step sizes) l (cur, w)) = (cur + sum_list ((fun q => sizes !!! q) <$> l))%nat /\
  ways (snd (fold_left (size_step sizes) l (cur, w))) = ways w.
Proof.
  induction l as [|q l IH]; intros cur w; cbn [fold_left]; [cbn; split; [lia|done]|].
  unfold size_step at 2 4. pose proof (fill_ways_count (sizes !!! q) q cur (wayPartIndex w)) as Hc.
  cbn [wayPartIndex at_part set_info]. destruct (fill_ways _ _ _ _) as [cur' index]. cbn in Hc. subst cur'.
  destruct (IH (cur + sizes !!! q)%nat (set_index index (at_part q (set_target (u32 (totalSize w * Z.of_nat (sizes !!! q)) / Z.of_nat (ways w))) w))) as [H1 H2].
  rewrite H1, H2. cbn. split; [lia|done].
Qed.

(** New sizes are taken exactly when they add up to the number of ways. *)
Lemma setPartitionSizes_spec sizes w :
  let total := sum_list ((fun q => sizes !!! q) <$> seq 0 (partitions w)) in
  (total = ways w -> is_ok (setPartitionSizes sizes w)) /\ (total <> ways w -> setPartitionSizes sizes w = Fail AssertFailed).
Proof.
  unfold setPartitionSizes. destruct (size_fold_count (seq 0 (partitions w)) sizes 0 w) as [H1 H2].
  destruct (fold_left _ _ _) as [cur w']. cbn in H1, H2. subst cur. rewrite H2. split; intros Hd.
  - rewrite Hd, Nat.eqb_refl. cbn. by eexists.
  - by rewrite (proj2 (Nat.eqb_neq _ _)).
Qed.

Lemma sum_lookup_total (l l' : list nat) : sum_list ((fun q => (l ++ l') !!! q) <$> seq 0 (length l)) = sum_list l.
Proof.
  f_equal. apply list_eq. intros i. rewrite list_lookup_fmap. destruct (decide (i < length l)%nat) as [Hi|Hi].
  - rewrite (lookup_seq_lt _ _ _ Hi). cbn. destruct (lookup_lt_is_Some_2 l i Hi) as [v Hv]. rewrite Hv. f_equal.
    apply list_lookup_total_correct. by apply lookup_app_l_Some.
  - rewrite (lookup_ge_None_2 l i), lookup_seq_ge by lia. done.
Qed.

(** With the whole cache to share out and a minimum per partition, the partitioner
    can only give this policy its sizes when there is one partition.  From two on, every
    run of the partitioner ends in the failed assertion of [setPartitionSizes]: the minimum
    handed to the allocation is already multiplied by the number of partitions, each
    partition gets it, and the balance pays for it once. *)
Theorem way_partition_fails (lp : Lookahead.LookaheadPartitioner) w :
  mon_wf (monitor w) -> mon_partitions (monitor w) = partitions w -> Lookahead.numPartitions lp = partitions w ->
  Lookahead.buckets lp = ways w -> (ways w <= mon_buckets (monitor w))%nat -> Z.of_nat (mon_buckets (monitor w)) < 2 ^ 32 ->
  Lookahead.allocPortion lp = Doubles.of_Z 1 -> (forall q, Lookahead.forbidden lp q = false) ->
  (1 <= Lookahead.minAlloc lp * partitions w <= ways w)%nat -> (forall q, Lookahead.curAllocs lp !!! q <= ways w)%nat ->
  if decide (partitions w = 1%nat) then is_ok (Lookahead.partition lp w) else Lookahead.partition lp w = Fail AssertFailed.
Proof.
  intros Wm Hmp Hnp Hb Hle Hlt Hap Hfb Hmin Hcur. unfold Lookahead.partition. cbn [Lookahead.getMonitor way_part_policy].
  rewrite Hnp, Hb, Hap, Doubles.fmul_one, Doubles.to_Z_of_Z, u32_id, Nat2Z.id, Lookahead.w32_id by (unfold in_u32; lia).
  destruct (Lookahead.lookahead_sizes (monitor w) (ways w) (Lookahead.minAlloc lp * partitions w) (Lookahead.forbidden lp) Wm)
    as (best & m1 & Hbest & Hs1 & Hl & Hsum & Hbd); [lia|done|exists 0%nat; split; [nia|done]|].
  rewrite Hmp in *. cbn zeta in Hbest. unfold mbind, res_bind. rewrite Hbest.
  destruct (Lookahead.total_utility_ok (monitor w) m1 best Hs1) as (nu & m2 & Hnu & Hs2).
  { intros q Hq. rewrite Hmp in Hq. destruct (Hbd q Hq) as [? _]. lia. }
  rewrite Hmp in Hnu. rewrite Hnu.
  destruct (Lookahead.total_utility_ok (monitor w) m2 (Lookahead.curAllocs lp) Hs2) as (cu & m3 & Hcu & Hs3).
  { intros q _. specialize (Hcur q). lia. }
  rewrite Hmp in Hcu. rewrite Hcu. cbn [Lookahead.setPartitionSizes Lookahead.putMonitor way_part_policy].
  pose proof (setPartitionSizes_spec (best ++ drop (length best) (Lookahead.curAllocs lp)) (set_monitor m3 w)) as Hsp.
  cbn [partitions ways set_monitor] in Hsp. rewrite <- Hl, sum_lookup_total, Hsum in Hsp. destruct Hsp as [Hok Hfail].
  destruct (decide (partitions w = 1%nat)) as [H1|H1].
  - destruct Hok as [w' ->]; [rewrite H1 in *; lia|]. cbn. by eexists.
  - by rewrite Hfail by nia.
Qed.

End sizes.
(** * Two cores, eight lines in four ways *)

#[local] Existing Instances UMonMonitor.umon_monitor UMonMonitor.umon_monitor_laws.

Definition sample_policy : res (WayPartReplPolicy UMonMonitor.UMonMonitor) :=
  new (UMonMonitor.sample_monitor 4 [(5, 1); (10, 20)]) (CorePartMapper 2) 8 4 false.

Definition sample_req (core : Z) (line : Z) : MemHier.MemReq :=
  MemHier.mkReq line MemHier.GETS 0 MemHier.Local 0 MemHier.I core 0.

(** Core 1 fills way 2, the first of its two, and evicts a line of partition 0. *)
Lemma way_victim_witness :
  match sample_policy with
  | Ok w => exists w', rank 0 (sample_req 1 77) [0; 1; 2; 3] w = Ok (2, w')
  | Fail _ => False
  end.
Proof.
  destruct sample_policy as [w|e] eqn:E; [|vm_compute in E; discriminate E].
  assert (Hts : forall i, in_u64 (ts (array w i))) by (injection E as <-; intros i; cbn; unfold in_u64; lia).
  pose proof (way_victim 0 w (sample_req 1 77) [0; 1; 2; 3] 1) as Hv.
  injection E as <-. specialize (Hv eq_refl eq_refl Hts eq_refl ltac:(vm_compute; lia) ltac:(repeat constructor; lia)).
  vm_compute in Hv. vm_compute. eexists. reflexivity.
Defined.

Lemma way_sizes_witness :
  match sample_policy with
  | Ok w => exists w', foldM (fun w o => exec 0 o w) w [Miss (sample_req 1 77) [0; 1; 2; 3]; Hit 2] = Ok w' /\
      foldr Z.add 0 ((fun q => size (partInfo w' q)) <$> seq 0 2) = 8
  | Fail _ => False
  end.
Proof.
  destruct sample_policy as [w|e] eqn:E; [|vm_compute in E; discriminate E].
  destruct (way_sizes 0 (UMonMonitor.sample_monitor 4 [(5, 1); (10, 20)]) (CorePartMapper 2) 8 4 false w
    [Miss (sample_req 1 77) [0; 1; 2; 3]; Hit 2] E) as (w' & Hf & _ & Hs).
  - apply UMonMonitor.sample_monitor_wf. lia.
  - reflexivity.
  - reflexivity.
  - cbn. lia.
  - reflexivity.
  - lia.
  - assert (totalSize w = 8 /\ partitions w = 2%nat /\ ways w = 4%nat /\ mapper w = CorePartMapper 2) as (Ht & Hp & Hw & Hm)
      by (injection E as <-; split_and!; reflexivity).
    constructor; [|constructor; [cbn; rewrite Ht; lia|constructor]]. cbn [valid]. rewrite Ht, Hp, Hw, Hm.
    split; [reflexivity|]. split; [repeat constructor; lia|]. exists 1%nat. split; [lia|reflexivity].
  - exists w'. split; [exact Hf|]. injection E as <-. exact Hs.
Defined.

Lemma way_partition_fails_witness :
  match sample_policy with
  | Ok w => Lookahead.partition (Lookahead.mkPart 2 4 1 (Doubles.of_Z 1) (fun _ => false) (replicate 5 0%nat)) w = Fail AssertFailed
  | Fail _ => False
  end.
Proof.
  destruct sample_policy as [w|e] eqn:E; [|vm_compute in E; discriminate E].
  assert (partitions w = 2%nat /\ ways w = 4%nat /\ monitor w = UMonMonitor.sample_monitor 4 [(5, 1); (10, 20)]) as (Hp & Hw & Hm)
    by (injection E as <-; split_and!; reflexivity).
  pose proof (way_partition_fails (Lookahead.mkPart 2 4 1 (Doubles.of_Z 1) (fun _ => false) (replicate 5 0%nat)) w) as Hf.
  rewrite Hp, Hw, Hm in Hf. apply Hf; clear Hf; try reflexivity.
  - apply UMonMonitor.sample_monitor_wf. lia.
  - cbn. lia.
  - intros q. cbn [Lookahead.curAllocs]. rewrite list_lookup_total_alt.
    destruct (replicate 5 0%nat !! q) as [v|] eqn:Ev; [apply lookup_replicate in Ev as [-> _]|]; cbn; lia.
Defined.

End WayPart.
