(* ===== verification/EventQueue.v ===== *)
(** The queue of periodic events (event_queue.h), run once at the end of each phase, and
    the events that adapt their period to reach a target. *)
From Stdlib Require Import Sorting.Sorted.
From S2P Require Import Prelude.

Module EventQueue.

Section queue.
Context {E St : Type} (getPeriod : E -> Z) (callback : E -> St -> res (E * St)).
Implicit Types q : list (Z * E).

(** [g_multimap<uint64_t, Event*>] in the order of its iterators: an insertion goes after
    the entries of an equal key. *)
Fixpoint mm_insert (k : Z) (ev : E) q : list (Z * E) :=
  match q with
  | [] => [(k, ev)]
  | (k', ev') :: q' => if k' <=? k then (k', ev') :: mm_insert k ev q' else (k, ev) :: q
  end.

(** [tick]: each iteration erases an event that is due. *)
Fixpoint tick_loop (fuel : nat) (curPhase : Z) q (st : St) : res (list (Z * E) * St) :=
  match q with
  | [] => Ok (q, st)
  | (first, ev) :: q' =>
      if curPhase <? first then Ok (q, st)
      else
        match fuel with
        | O => Fail NoFuel
        | S fuel =>
            if negb (first =? curPhase) then panic
            else
              '(ev, st) ← callback ev st;
              tick_loop fuel curPhase
                (if negb (getPeriod ev =? 0) then mm_insert (u64 (curPhase + getPeriod ev)) ev q' else q') st
        end
  end.
Definition tick (curPhase : Z) q (st : St) : res (list (Z * E) * St) := tick_loop (length q) curPhase q st.

Definition insert (curPhase : Z) (ev : E) (startDelay : Z) q : res (list (Z * E)) :=
  let eventPhase := u64 (curPhase + (if startDelay =? -1 then getPeriod ev else startDelay)) in
  _ ← assert_that (curPhase <=? eventPhase);
  Ok (mm_insert eventPhase ev q).

(** * A tick runs the events of its phase *)

Definition due (cur : Z) q : list (Z * E) := filter (fun x => fst x = cur) q.
Definition later (cur : Z) q : list (Z * E) := filter (fun x => cur < fst x) q.

(** The events called, in order, and what is left of each. *)
Fixpoint call_all (l : list (Z * E)) (st : St) : res (list E * St) :=
  match l with
  | [] => Ok ([], st)
  | (_, ev) :: l => '(ev, st) ← callback ev st; '(evs, st) ← call_all l st; Ok (ev :: evs, st)
  end.

Definition reinsert (cur : Z) q (evs : list E) : list (Z * E) :=
  fold_left (fun q ev => if negb (getPeriod ev =? 0) then mm_insert (cur + getPeriod ev) ev q else q) evs q.

Definition sorted q : Prop := StronglySorted Z.le (fst <$> q).

Lemma elem_mm_insert k ev q x : x ∈ mm_insert k ev q <-> x = (k, ev) \/ x ∈ q.
Proof.
  induction q as [|[k' ev'] q IH]; cbn [mm_insert]; [rewrite list_elem_of_singleton; set_solver|].
  destruct (k' <=? k); rewrite ?elem_of_cons, ?IH; naive_solver.
Qed.

Lemma mm_insert_sorted k ev q : sorted q -> sorted (mm_insert k ev q).
Proof.
  unfold sorted. induction q as [|[k' ev'] q IH]; intros Hs; cbn [mm_insert]; [repeat constructor|].
  cbn in Hs. apply StronglySorted_inv in Hs as [Hs Hall]. rewrite Forall_forall in Hall.
  destruct (Z.leb_spec k' k); cbn; constructor; [by apply IH| |by constructor; [|apply Forall_forall]|].
  - apply Forall_forall. intros z (x & -> & Hx)%list_elem_of_fmap. apply elem_mm_insert in Hx as [->|Hx]; [done|].
    apply Hall. by apply list_elem_of_fmap_2.
  - constructor; [lia|]. apply Forall_forall. intros z Hz. specialize (Hall z Hz). lia.
Qed.

(** An entry of a later phase goes behind the due ones. *)
Lemma mm_insert_due cur k ev q : cur < k -> due cur (mm_insert k ev q) = due cur q.
Proof.
  intros Hk. unfold due. induction q as [|[k' ev'] q IH]; cbn [mm_insert].
  - by rewrite filter_cons_False by (cbn; lia).
  - destruct (k' <=? k).
    + destruct (decide (k' = cur)); [rewrite !filter_cons_True by done | rewrite !filter_cons_False by done]; by rewrite IH.
    + by rewrite (filter_cons_False _ (k, ev)) by (cbn; lia).
Qed.

Lemma mm_insert_later cur k ev q : cur < k -> sorted q -> later cur (mm_insert k ev q) = mm_insert k ev (later cur q).
Proof.
  intros Hk. unfold later, sorted. induction q as [|[k' ev'] q IH]; intros Hs; cbn [mm_insert].
  - by rewrite filter_cons_True by (cbn; lia).
  - cbn in Hs. apply StronglySorted_inv in Hs as [Hs Hall]. destruct (Z.leb_spec k' k) as [Hle|Hlt].
    + destruct (decide (cur < k')).
      * rewrite !filter_cons_True by done. cbn [mm_insert]. rewrite (proj2 (Z.leb_le _ _)) by done. by rewrite IH.
      * rewrite !filter_cons_False by done. by apply IH.
    + rewrite (filter_cons_True _ (k, ev)) by (cbn; lia). rewrite (filter_cons_True _ (k', ev')) by (cbn; lia).
      cbn [mm_insert]. by rewrite (proj2 (Z.leb_gt _ _)) by done.
Qed.

(** Every key is at least the phase's: then the due entries come first. *)
Lemma due_first cur k ev q : sorted ((k, ev) :: q) -> cur <= k ->
  if decide (k = cur) then due cur ((k, ev) :: q) = (k, ev) :: due cur q /\ later cur ((k, ev) :: q) = later cur q
  else due cur ((k, ev) :: q) = [] /\ later cur ((k, ev) :: q) = (k, ev) :: q.
Proof.
  intros Hs Hk. unfold sorted in Hs. cbn in Hs. apply StronglySorted_inv in Hs as [_ Hall]. rewrite Forall_forall in Hall. unfold due, later.
  destruct (decide (k = cur)) as [->|Hne].
  - by rewrite filter_cons_True, filter_cons_False by (done || cbn; lia).
  - assert (Hl : forall x, x ∈ (k, ev) :: q -> cur < fst x).
    { intros x [->|Hx]%elem_of_cons; [cbn; lia|]. specialize (Hall (fst x) ltac:(by apply list_elem_of_fmap_2)). lia. }
    revert Hl. generalize ((k, ev) :: q). induction l as [|x l IH]; intros Hl; [done|].
    pose proof (Hl x ltac:(by left)) as Hx. destruct IH as [IH1 IH2]; [intros y Hy; apply Hl; by right|].
    by rewrite filter_cons_False, IH1, filter_cons_True, IH2 by (done || lia).
Qed.

Lemma tick_due_ok cur : 0 <= cur ->
  (forall ev st ev' st', callback ev st = Ok (ev', st') -> 0 <= getPeriod ev' /\ cur + getPeriod ev' < 2 ^ 64) ->
  forall fuel q st, sorted q -> Forall (fun x => cur <= fst x) q -> (length (due cur q) <= fuel)%nat ->
  tick_loop fuel cur q st = ('(evs, st') ← call_all (due cur q) st; Ok (reinsert cur (later cur q) evs, st')).
Proof.
  intros Hcur Hper. induction fuel as [|fuel IH]; intros q st Hs Hall Hfuel; (destruct q as [|[k ev] q]; [done|]);
    pose proof (due_first cur k ev q Hs ltac:(by apply Forall_cons in Hall as [? _])) as Hdue; cbn [tick_loop].
  - destruct (decide (k = cur)) as [->|Hne]; destruct Hdue as [Hd Hl]; rewrite Hd in *; [cbn in Hfuel; lia|].
    apply Forall_cons in Hall as [Hk _]. cbn in Hk. rewrite (proj2 (Z.ltb_lt _ _)) by lia. rewrite Hl. done.
  - apply Forall_cons in Hall as [Hk Hall]. cbn in Hk. destruct (decide (k = cur)) as [->|Hne]; destruct Hdue as [Hd Hl]; rewrite Hd, Hl in *.
    + rewrite Z.ltb_irrefl, Z.eqb_refl. cbn [negb call_all length] in *.
      destruct (callback ev st) as [[ev' st']|e] eqn:Ecb; [|done]. cbn [mbind res_bind].
      destruct (Hper _ _ _ _ Ecb) as [Hp0 Hp1]. unfold sorted in Hs. cbn in Hs. apply StronglySorted_inv in Hs as [Hs _].
      rewrite u64_id by (unfold in_u64; lia).
      set (q1 := if negb (getPeriod ev' =? 0) then _ else q).
      assert (Hq1 : due cur q1 = due cur q /\ later cur q1 = (if negb (getPeriod ev' =? 0) then mm_insert (cur + getPeriod ev') ev' (later cur q) else later cur q) /\
        sorted q1 /\ Forall (fun x => cur <= fst x) q1).
      { subst q1. destruct (Z.eqb_spec (getPeriod ev') 0); cbn [negb]; [done|].
        rewrite mm_insert_due, mm_insert_later by (done || lia). split_and!; [done|done|by apply mm_insert_sorted|].
        rewrite Forall_forall in Hall |- *. intros x [->|Hx]%elem_mm_insert; [cbn; lia|by apply Hall]. }
      destruct Hq1 as (Hd1 & Hl1 & Hs1 & Ha1). rewrite (IH q1 st' Hs1 Ha1), Hd1, Hl1 by (rewrite Hd1; lia).
      by destruct (call_all (due cur q) st') as [[evs st2]|e].
    + rewrite (proj2 (Z.ltb_lt _ _)) by lia. done.
Qed.

Lemma reinsert_ok cur evs : forall q, sorted q -> Forall (fun x => cur + 1 <= fst x) q -> Forall (fun ev => 0 <= getPeriod ev) evs ->
  sorted (reinsert cur q evs) /\ Forall (fun x => cur + 1 <= fst x) (reinsert cur q evs).
Proof.
  induction evs as [|ev evs IH]; intros q Hs Hq Hp; [done|]. apply Forall_cons in Hp as [Hp0 Hp]. cbn.
  destruct (Z.eqb_spec (getPeriod ev) 0); cbn [negb]; [by apply IH|]. apply IH; [by apply mm_insert_sorted| |done].
  rewrite Forall_forall in Hq |- *. intros x [->|Hx]%elem_mm_insert; [cbn; lia|by apply Hq].
Qed.

Lemma later_sorted cur q : sorted q -> sorted (later cur q) /\ Forall (fun x => cur + 1 <= fst x) (later cur q).
Proof.
  unfold sorted, later. intros Hs. split.
  - induction q as [|[k ev] q IH]; [constructor|]. cbn in Hs. apply StronglySorted_inv in Hs as [Hs Hall].
    destruct (decide (cur < k)); [rewrite filter_cons_True by done|rewrite filter_cons_False by done; by apply IH].
    cbn. constructor; [by apply IH|]. rewrite Forall_forall in Hall |- *. intros z (x & -> & Hx)%list_elem_of_fmap.
    apply list_elem_of_filter in Hx as [_ Hx]. apply Hall. by apply list_elem_of_fmap_2.
  - apply Forall_forall. intros x [Hx _]%list_elem_of_filter. lia.
Qed.

Lemma call_all_periods l : forall st evs st', (forall ev st ev' st', callback ev st = Ok (ev', st') -> 0 <= getPeriod ev') ->
  call_all l st = Ok (evs, st') -> Forall (fun ev => 0 <= getPeriod ev) evs.
Proof.
  induction l as [|[k ev] l IH]; intros st evs st' Hp; cbn [call_all]; [by intros [= <- <-]|].
  rewrite bind_Ok. intros ([ev1 st1] & H1 & H2). apply bind_Ok in H2 as ([evs2 st2] & H2 & [= <- <-]).
  constructor; [by eapply Hp|by eapply IH].
Qed.

(** On a queue in order whose entries are for this phase or later ones, [tick] calls
    exactly the events of the phase, once each and in the order they were inserted, and
    puts those with a period back at the phase their new period says, behind the entries
    of that phase; the others are disposed of and the entries of later phases stay.  It
    neither panics nor runs out of steps, fails only where a callback does, and leaves a
    queue in order for the next phase. *)
Theorem tick_correct cur q st :
  0 <= cur -> sorted q -> Forall (fun x => cur <= fst x) q ->
  (forall ev st ev' st', callback ev st = Ok (ev', st') -> 0 <= getPeriod ev' /\ cur + getPeriod ev' < 2 ^ 64) ->
  tick cur q st = ('(evs, st') ← call_all (due cur q) st; Ok (reinsert cur (later cur q) evs, st')) /\
  forall q' st', tick cur q st = Ok (q', st') -> sorted q' /\ Forall (fun x => cur + 1 <= fst x) q'.
Proof.
  intros Hcur Hs Hall Hper.
  assert (Ht : tick cur q st = ('(evs, st') ← call_all (due cur q) st; Ok (reinsert cur (later cur q) evs, st'))).
  { apply tick_due_ok; [done..|]. unfold due. apply length_filter. }
  split; [done|]. intros q' st'. rewrite Ht, bind_Ok. intros ([evs st1] & Hc & [= <- <-]).
  destruct (later_sorted cur q Hs) as [H1 H2]. apply reinsert_ok; [done|done|].
  apply (call_all_periods _ _ _ _ (fun ev st ev' st' Hcb => proj1 (Hper ev st ev' st' Hcb)) Hc).
Qed.

End queue.
(** * Events that adapt *)

Section adaptive.
Context {St : Type} (get : St -> Z) (fire : St -> St).

Record AdaptiveEvent := mkAdaptive { period : Z; target : Z; maxRate : Z }.

(** [if (!period) period = 1]. *)
Definition at_least_one (p : Z) : Z := if p =? 0 then 1 else p.

Definition newAdaptive (start target maxRate : Z) : res AdaptiveEvent :=
  _ ← assert_that (start <=? target);
  Ok (mkAdaptive (at_least_one (u64 (target - start) / maxRate)) target maxRate).

Definition callback (ev : AdaptiveEvent) (st : St) : res (AdaptiveEvent * St) :=
  let cur := get st in
  if target ev <=? cur then
    _ ← assert_that (u64 (cur - target ev) <=? maxRate ev);
    Ok (mkAdaptive 0 (target ev) (maxRate ev), fire st)
  else Ok (mkAdaptive (at_least_one (u64 (target ev - cur) / maxRate ev)) (target ev) (maxRate ev), st).

End adaptive.

(** The counter the event reads is [g n] at the end of phase [n]; the phases in which it
    fired are recorded. *)
Record World := mkWorld { phase : Z; count : Z; fired : list Z }.
Definition fire (w : World) : World := mkWorld (phase w) (count w) (fired w ++ [phase w]).

(** The ends of the phases from [n] on, [k] of them. *)
Fixpoint run (g : Z -> Z) (n : Z) (k : nat) (q : list (Z * AdaptiveEvent)) (f : list Z) : res (list (Z * AdaptiveEvent) * list Z) :=
  match k with
  | O => Ok (q, f)
  | S k =>
      '(q, w) ← tick period (callback count fire) n q (mkWorld n (g n) f);
      run g (n + 1) k q (fired w)
  end.

Lemma run_empty g k : forall n f, run g n k [] f = Ok ([], f).
Proof. induction k as [|k IH]; intros n f; cbn; [done|apply IH]. Qed.

(** One tick with one event. *)
Lemma tick_wait g n m ev f : n < m -> tick period (callback count fire) n [(m, ev)] (mkWorld n (g n) f) = Ok ([(m, ev)], mkWorld n (g n) f).
Proof. intros Hlt. unfold tick. cbn [length tick_loop]. by rewrite (proj2 (Z.ltb_lt _ _)). Qed.

Lemma tick_fire g n ev f : target ev <= g n -> g n - target ev <= maxRate ev -> 0 <= g n - target ev < 2 ^ 64 ->
  tick period (callback count fire) n [(n, ev)] (mkWorld n (g n) f) = Ok ([], mkWorld n (g n) (f ++ [n])).
Proof.
  intros Ht Hr H64. unfold tick. cbn [length tick_loop]. rewrite Z.ltb_irrefl, Z.eqb_refl. cbn [negb]. unfold callback. cbn [count].
  rewrite (proj2 (Z.leb_le _ _)), u64_id by (done || unfold in_u64; lia). by rewrite (proj2 (Z.leb_le _ _)).
Qed.

Lemma tick_adapt g n ev f : g n < target ev -> 0 <= n ->
  let p := at_least_one (u64 (target ev - g n) / maxRate ev) in 1 <= p -> n + p < 2 ^ 64 ->
  tick period (callback count fire) n [(n, ev)] (mkWorld n (g n) f) =
    Ok ([(n + p, mkAdaptive p (target ev) (maxRate ev))], mkWorld n (g n) f).
Proof.
  intros Ht Hn p Hp H64. unfold tick. cbn [length tick_loop]. rewrite Z.ltb_irrefl, Z.eqb_refl. cbn [negb]. unfold callback. cbn [count].
  rewrite (proj2 (Z.leb_gt _ _)) by done. fold p. cbn [mbind res_bind period].
  rewrite (proj2 (Z.eqb_neq p 0)), u64_id by (unfold in_u64; lia). cbn [negb mm_insert tick_loop].
  by rewrite (proj2 (Z.ltb_lt _ _)) by lia.
Qed.

Section exact.
Variables (g : Z -> Z) (n0 start T R : Z).
Hypotheses (Hn0 : 0 <= n0) (HR : 0 < R) (HT : start + R <= T) (HT64 : 0 <= start /\ T + R < 2 ^ 64).
(** The counter does not go back nor faster than [R] in a phase, the first included. *)
Hypotheses (Hg0 : start <= g n0 <= start + R) (Hg : forall n, n0 <= n -> g n <= g (n + 1) <= g n + R).

Lemma count_steps n k : n0 <= n -> g n <= g (n + Z.of_nat k) <= g n + Z.of_nat k * R.
Proof using Hg HR.
  intros Hn. induction k as [|k IH]; [rewrite Z.add_0_r; lia|].
  replace (n + Z.of_nat (S k)) with (n + Z.of_nat k + 1) by lia. specialize (Hg (n + Z.of_nat k) ltac:(lia)). lia.
Qed.

Lemma count_between n m : n0 <= n <= m -> g n <= g m <= g n + (m - n) * R.
Proof using Hg HR.
  intros Hn. pose proof (count_steps n (Z.to_nat (m - n)) ltac:(lia)) as Hc.
  replace (n + Z.of_nat (Z.to_nat (m - n))) with m in Hc by lia. rewrite Z2Nat.id in Hc by lia. done.
Qed.

(** [N] is the first phase with the target reached, [F] the one of the event. *)
Variables (N F : Z).
Hypotheses (HN0 : n0 <= N) (HN : T <= g N) (Hfirst : forall n, n0 <= n < N -> g n < T).
Hypotheses (HF : F = Z.max N (n0 + (T - start) / R)) (HF64 : F < 2 ^ 64).

Lemma run_from k : forall n m ev f, target ev = T -> maxRate ev = R -> n0 <= n <= m -> m <= F -> n0 + (T - start) / R <= m ->
  (Z.to_nat (F - n) < k)%nat -> run g n k [(m, ev)] f = Ok ([], f ++ [F]).
Proof using All.
  assert (Hp1 : 1 <= (T - start) / R) by (apply Z.div_le_lower_bound; lia).
  assert (Hdm : R * ((T - start) / R) <= T - start) by (apply Z.mul_div_le; lia).
  induction k as [|k IH]; intros n m ev f Ht Hr Hn Hm Hp Hk; [lia|]. cbn [run].
  destruct (decide (n < m)) as [Hlt|Hge]; [rewrite tick_wait by done; cbn [mbind res_bind fired]; apply IH; (done || lia)|].
  assert (m = n) as -> by lia. destruct (decide (T <= g n)) as [Hle|Hlt].
  - assert (HnN : N <= n) by (destruct (decide (N <= n)); [done|]; specialize (Hfirst n ltac:(lia)); lia).
    assert (n = F) as -> by lia.
    assert (HgF : g F <= T + R).
    { destruct (decide (F = N)) as [->|Hne].
      - specialize (Hfirst (N - 1) ltac:(lia)). specialize (Hg (N - 1) ltac:(lia)). replace (N - 1 + 1) with N in Hg by lia. lia.
      - pose proof (count_between n0 F ltac:(lia)) as [_ Hb]. replace (F - n0) with ((T - start) / R) in Hb by lia. nia. }
    rewrite tick_fire by lia. cbn [mbind res_bind fired]. apply run_empty.
  - assert (HnN : n < N) by (destruct (decide (n < N)); [done|]; pose proof (count_between N n ltac:(lia)); lia).
    assert (Hgn : start <= g n) by (pose proof (count_between n0 n ltac:(lia)); lia).
    set (d := (T - g n) / R).
    pose proof (count_between n N ltac:(lia)) as [_ Hb].
    assert (Hd : 0 <= d <= N - n).
    { unfold d. split; [apply Z.div_pos; lia|]. apply Z.div_le_upper_bound; lia. }
    assert (Hal : 1 <= at_least_one d <= N - n) by (unfold at_least_one; destruct (Z.eqb_spec d 0); lia).
    rewrite tick_adapt; rewrite ?Ht, ?Hr, ?u64_id by (unfold in_u64; lia); fold d; try lia. cbn [mbind res_bind fired].
    apply IH; (done || lia).
Qed.

End exact.

(** An adaptive event inserted in phase [n0], when its counter is [start], with a
    target at least one phase of the maximum rate away, fires exactly once, trips no
    assertion and is disposed of.  The phase is the first with the target reached, or the
    next one if the counter ran at the maximum rate from the start. *)
Theorem adaptive_fires_once g n0 start T R N k :
  let F := Z.max N (n0 + (T - start) / R) in
  0 <= n0 -> 0 < R -> 0 <= start -> start + R <= T -> T + R < 2 ^ 64 ->
  start <= g n0 <= start + R -> (forall n, n0 <= n -> g n <= g (n + 1) <= g n + R) ->
  n0 <= N -> T <= g N -> (forall n, n0 <= n < N -> g n < T) -> F < 2 ^ 64 -> F - n0 < Z.of_nat k ->
  N <= F <= N + 1 /\
  exists ev q, newAdaptive start T R = Ok ev /\ insert period n0 ev (-1) [] = Ok q /\ run g n0 k q [] = Ok ([], [F]).
Proof.
  intros F Hn0 HR Hst HT H64 Hg0 Hg HN0 HN Hfirst HF64 Hk.
  assert (Hp1 : 1 <= (T - start) / R) by (apply Z.div_le_lower_bound; lia).
  assert (Hdm : R * ((T - start) / R) <= T - start) by (apply Z.mul_div_le; lia).
  assert (HNF : n0 + (T - start) / R <= N + 1).
  { pose proof (count_between g n0 R HR Hg n0 N ltac:(lia)) as [_ Hb].
    assert ((T - start) / R <= N - n0 + 1); [|lia]. apply Z.div_le_upper_bound; lia. }
  split; [lia|]. eexists _, _. split; [|split].
  - unfold newAdaptive. rewrite (proj2 (Z.leb_le _ _)) by lia. reflexivity.
  - unfold insert. cbn [Z.eqb Pos.eqb period]. rewrite (u64_id (T - start)) by (unfold in_u64; lia).
    unfold at_least_one. rewrite (proj2 (Z.eqb_neq ((T - start) / R) 0)) by lia. rewrite u64_id by (unfold in_u64; lia).
    rewrite (proj2 (Z.leb_le _ _)) by lia. reflexivity.
  - cbn [mm_insert]. change [F] with ([] ++ [F]). apply (run_from g n0 start T R) with (N := N); done || cbn; lia.
Qed.

(** Ten instructions a phase at most, eight of them in each: 25 are reached in phase 3. *)
Lemma adaptive_fires_once_witness :
  exists ev q, newAdaptive 0 25 10 = Ok ev /\ insert period 0 ev (-1) [] = Ok q /\ run (fun n => 8 * (n + 1)) 0 6 q [] = Ok ([], [3]).
Proof.
  apply (adaptive_fires_once (fun n => 8 * (n + 1)) 0 0 25 10 3 6); first [cbn; lia | reflexivity].
Defined.

(** A target nearer than a phase of the maximum rate: the event first looks after two
    phases, and the counter may by then be more than a phase beyond the target. *)
Lemma adaptive_near_target_asserts :
  exists ev q, newAdaptive 0 5 10 = Ok ev /\ insert period 0 ev (-1) [] = Ok q /\ run (fun n => 10 * (n + 1)) 0 2 q [] = Fail AssertFailed.
Proof. by eexists _, _. Qed.

(** Two events of one phase, in their order, and one of a later phase; an event is its
    period and a name, and being called leaves the name in the state. *)
Definition log_name (ev : Z * Z) (st : list Z) : res (Z * Z * list Z) :=
  if (0 <=? fst ev) && (fst ev <=? 100) then Ok (ev, st ++ [snd ev]) else Fail AssertFailed.

Lemma tick_correct_witness :
  tick fst log_name 4 [(4, (3, 10)); (4, (0, 20)); (7, (1, 30))] [] = Ok ([(7, (1, 30)); (7, (3, 10))], [10; 20]).
Proof.
  destruct (tick_correct fst log_name 4 [(4, (3, 10)); (4, (0, 20)); (7, (1, 30))] []) as [Ht _].
  - lia.
  - repeat constructor; cbn; lia.
  - repeat constructor; cbn; lia.
  - intros ev st ev' st'. unfold log_name. destruct (Z.leb_spec 0 (fst ev)), (Z.leb_spec (fst ev) 100); cbn; try discriminate.
    intros [= <- <-]. lia.
  - rewrite Ht. vm_compute. reflexivity.
Defined.

End EventQueue.
