(* ===== verification/Window.v ===== *)
(** The instruction window of the out-of-order core (ooo_core.h, [WindowStructure]): which
    execution ports are taken in each future cycle.  The window of the source is two arrays
    of [H] cycles and a map for the cycles past them; the theorems are about [slot], the
    table from cycles to ports that the three represent.  Cycles are 64-bit counters that
    do not wrap; positions and delays are [uint32_t]. *)
From Stdlib Require Import Sorted.
From S2P Require Import Prelude.

Module Window.

Record WinCycle := mkWC { occUnits : Z; count : Z }.
Definition zero : WinCycle := mkWC 0 0.
#[export] Instance WinCycle_inhabited : Inhabited WinCycle := populate zero.

Record Window := mkWin {
  curWin : list WinCycle;
  nextWin : list WinCycle;
  ubWin : list (Z * WinCycle); (* by increasing cycle *)
  occupancy : Z;
  curPos : Z;
  lastPort : Z
}.

(** [__builtin_ffs] of an 8-bit value. *)
Fixpoint ffs_from (n : nat) (i m : Z) : Z :=
  match n with
  | O => 0
  | S n => if Z.testbit m i then i + 1 else ffs_from n (i + 1) m
  end.
Definition ffs (m : Z) : Z := ffs_from 8 0 m.
#[global] Arguments ffs : simpl never.

(** [trySchedule<touchOccupancy, recordPort>]: the mask of free ports (zero when it fails),
    the cycle as it leaves it, and [lastPort]. *)
Definition trySchedule (touch record : bool) (wc : WinCycle) (portMask port : Z)
    : Z * WinCycle * Z :=
  let availMask := Z.land (Z.lnot (occUnits wc)) portMask in
  if touch then
    if availMask =? 0 then (availMask, wc, port)
    else
      let firstAvail := ffs availMask - 1 in
      (availMask,
       mkWC (u8 (Z.lor (occUnits wc) (Z.shiftl 1 firstAvail))) (u8 (count wc + 1)),
       if record then firstAvail else port)
  else (availMask, mkWC (Z.lor (occUnits wc) portMask) (count wc), port).

Section Window.
Context (H WSZ : Z).

Definition new : Window :=
  mkWin (replicate (Z.to_nat H) zero) (replicate (Z.to_nat H) zero) [] 0 0 0.

(** The loop of the rebase that moves entries of [ubWin] to [nextWin]. *)
Fixpoint ubMove (horizon curCycle : Z) (ub : list (Z * WinCycle)) (next : list WinCycle)
    : res (list (Z * WinCycle) * list WinCycle) :=
  match ub with
  | [] => mret ([], next)
  | (k, wc) :: rest =>
      if k <? horizon then
        let nextWinPos := u32 (k - H - curCycle) in
        _ ← assert_that (nextWinPos <? H);
        ubMove horizon curCycle rest (<[Z.to_nat nextWinPos := wc]> next)
      else mret (ub, next)
  end.

Definition advancePos (w : Window) (curCycle : Z) : res (Window * Z) :=
  let occ := u32 (occupancy w - count (curWin w !!! Z.to_nat (curPos w))) in
  let cw := <[Z.to_nat (curPos w) := zero]> (curWin w) in
  let pos := curPos w + 1 in
  let cur := curCycle + 1 in
  if pos =? H then
    '(ub, next) ← ubMove (cur + 2 * H) cur (ubWin w) cw;
    mret (mkWin (nextWin w) next ub occ 0 (lastPort w), cur)
  else mret (mkWin cw (nextWin w) (ubWin w) occ pos (lastPort w), cur).

(** The search for a free port from position [pos] of an array. *)
Fixpoint scan (touch record : bool) (portMask : Z) (n : nat) (pos : Z) (win : list WinCycle)
    (port : Z) : option Z * list WinCycle * Z :=
  match n with
  | O => (None, win, port)
  | S n =>
      let '(avail, wc, port) := trySchedule touch record (win !!! Z.to_nat pos) portMask port in
      let win := <[Z.to_nat pos := wc]> win in
      if avail =? 0 then scan touch record portMask n (pos + 1) win port
      else (Some pos, win, port)
  end.

(** The search in the map from [lower_bound(schedCycle)]. *)
Fixpoint ubSchedule (touch record : bool) (portMask schedCycle : Z) (ub : list (Z * WinCycle))
    (port : Z) : res (Z * list (Z * WinCycle) * Z) :=
  let fresh :=
    let '(avail, wc, port) := trySchedule touch record zero portMask port in
    _ ← assert_that (negb (avail =? 0));
    mret (schedCycle, (schedCycle, wc) :: ub, port) in
  match ub with
  | [] => fresh
  | (k, wc) :: rest =>
      if k <? schedCycle then
        '(c, rest, port) ← ubSchedule touch record portMask schedCycle rest port;
        mret (c, (k, wc) :: rest, port)
      else if k =? schedCycle then
        let '(avail, wc, port) := trySchedule touch record wc portMask port in
        if avail =? 0 then
          '(c, rest, port) ← ubSchedule touch record portMask (schedCycle + 1) rest port;
          mret (c, (k, wc) :: rest, port)
        else mret (schedCycle, (k, wc) :: rest, port)
      else fresh
  end.

(** [while (touchOccupancy && occupancy == WSZ) advancePos(curCycle)]. *)
Fixpoint waitRoom (fuel : nat) (w : Window) (curCycle : Z) : res (Window * Z) :=
  if occupancy w =? WSZ then
    match fuel with
    | O => Fail NoFuel
    | S fuel => '(w, cur) ← advancePos w curCycle; waitRoom fuel w cur
    end
  else mret (w, curCycle).

(** Cycles until everything in the window has run. *)
Definition drainFuel (w : Window) (curCycle : Z) : nat :=
  Z.to_nat (foldr (fun e => Z.max (e.1 + 1 - curCycle)) (2 * H) (ubWin w)).

(** [scheduleInternal] once there is room: the new window and [schedCycle]. *)
Definition place (touch record : bool) (w : Window) (cur schedCycle portMask : Z)
    : res (Window * Z) :=
  let delay := if cur <? schedCycle then u32 (schedCycle - cur) else 0 in
  let curWinPos := u32 (curPos w + delay) in
  let occ := if touch then u32 (occupancy w + 1) else occupancy w in
  match scan touch record portMask (Z.to_nat (H - curWinPos)) curWinPos (curWin w) (lastPort w) with
  | (Some p, cw, port) =>
      mret (mkWin cw (nextWin w) (ubWin w) occ (curPos w) port, cur + (p - curPos w))
  | (None, cw, port) =>
      let nextWinPos := Z.max curWinPos H - H in
      match scan touch record portMask (Z.to_nat (H - nextWinPos)) nextWinPos (nextWin w) port with
      | (Some p, nw, port) =>
          mret (mkWin cw nw (ubWin w) occ (curPos w) port, cur + (p + H - curPos w))
      | (None, nw, port) =>
          let c := cur + (Z.max nextWinPos H + H - curPos w) in
          '(c, ub, port) ← ubSchedule touch record portMask c (ubWin w) port;
          mret (mkWin cw nw ub occ (curPos w) port, c)
      end
  end.

(** [scheduleInternal]: the new window, [curCycle] and [schedCycle]. *)
Definition scheduleInternal (touch record : bool) (w : Window) (curCycle schedCycle portMask : Z)
    : res (Window * Z * Z) :=
  '(w, cur) ← (if touch then waitRoom (drainFuel w curCycle) w curCycle
               else mret (w, curCycle));
  '(w, c) ← place touch record w cur schedCycle portMask;
  mret (w, cur, c).

(** The loop over the extra slots. *)
Fixpoint extraLoop (n : nat) (w : Window) (cur slotCycle mask : Z) : res (Window * Z) :=
  match n with
  | O => mret (w, cur)
  | S n =>
      '(w, cur, c) ← scheduleInternal false false w cur slotCycle mask;
      extraLoop n w cur (c + 1) mask
  end.

Definition schedule (w : Window) (curCycle schedCycle portMask extraSlots : Z)
    : res (Window * Z * Z) :=
  '(w, cur, c) ← scheduleInternal true (negb (extraSlots =? 0)) w curCycle schedCycle portMask;
  '(w, cur) ← extraLoop (Z.to_nat extraSlots) w cur (c + 1) (u8 (Z.shiftl 1 (lastPort w)));
  _ ← assert_that (occupancy w <=? WSZ);
  mret (w, cur, c).

(** [longAdvance]: the drain loop runs at most [targetCycle - curCycle] times. *)
Fixpoint drain (fuel : nat) (w : Window) (curCycle targetCycle : Z) : res (Window * Z) :=
  if negb (occupancy w =? 0) && (curCycle <? targetCycle) then
    match fuel with
    | O => Fail NoFuel
    | S fuel => '(w, cur) ← advancePos w curCycle; drain fuel w cur targetCycle
    end
  else mret (w, curCycle).

Definition longAdvance (w : Window) (curCycle targetCycle : Z) : res (Window * Z) :=
  _ ← assert_that (curCycle <=? targetCycle);
  '(w, cur) ← drain (Z.to_nat (targetCycle - curCycle)) w curCycle targetCycle;
  if negb (occupancy w =? 0) then
    _ ← assert_that (cur =? targetCycle); mret (w, cur)
  else
    _ ← assert_that (cur <=? targetCycle); mret (w, targetCycle).

(** [poisonRange]: every round takes a later cycle. *)
Fixpoint poisonLoop (fuel : nat) (w : Window) (curCycle poisonCycle targetCycle portMask : Z)
    : res (Window * Z) :=
  if poisonCycle <? targetCycle then
    match fuel with
    | O => Fail NoFuel
    | S fuel =>
        '(w, cur, c) ← scheduleInternal false false w curCycle poisonCycle portMask;
        poisonLoop fuel w cur c targetCycle portMask
    end
  else mret (w, curCycle).

Definition poisonRange (w : Window) (curCycle targetCycle portMask : Z) : res Window :=
  '(w, cur) ← poisonLoop (Z.to_nat (targetCycle - curCycle + 1)) w curCycle curCycle targetCycle
               portMask;
  _ ← assert_that (cur =? curCycle);
  mret w.

(** ** The table the window represents *)

Fixpoint ub_get (k : Z) (ub : list (Z * WinCycle)) : WinCycle :=
  match ub with
  | [] => zero
  | (k', wc) :: rest => if k' =? k then wc else ub_get k rest
  end.

Definition slot (w : Window) (cur k : Z) : WinCycle :=
  let i := k - cur + curPos w in
  if i <? H then curWin w !!! Z.to_nat i
  else if i <? 2 * H then nextWin w !!! Z.to_nat (i - H)
  else ub_get k (ubWin w).

Definition counts (l : list WinCycle) : Z := foldr (fun e a => count e + a) 0 l.
#[local] Arguments counts : simpl never.
Definition total (w : Window) : Z :=
  counts (curWin w) + counts (nextWin w) + counts (ubWin w).*2.

Definition avail (wc : WinCycle) (mask : Z) : Z := Z.land (Z.lnot (occUnits wc)) mask.

Definition slot_ok (wc : WinCycle) : Prop := in_u8 (occUnits wc) /\ 0 <= count wc.

Definition keys_sorted (ub : list (Z * WinCycle)) : Prop :=
  StronglySorted (fun a b => a.1 < b.1) ub.

(** The state between two operations, at cycle [cur]. *)
Record wf (w : Window) (cur : Z) : Prop := {
  wf_cur : length (curWin w) = Z.to_nat H;
  wf_next : length (nextWin w) = Z.to_nat H;
  wf_pos : 0 <= curPos w < H;
  wf_past : forall i, 0 <= i < curPos w -> curWin w !!! Z.to_nat i = zero;
  wf_sorted : keys_sorted (ubWin w);
  wf_far : Forall (fun e => cur - curPos w + 2 * H <= e.1) (ubWin w);
  wf_ok : Forall slot_ok (curWin w ++ nextWin w ++ (ubWin w).*2);
  wf_occ : occupancy w = total w;
  wf_room : occupancy w <= WSZ;
  wf_port : 0 <= lastPort w < 8
}.

(** The lowest free port of a cycle. *)
Definition first_port (wc : WinCycle) (mask p : Z) : Prop :=
  0 <= p < 8 /\ Z.testbit mask p = true /\ Z.testbit (occUnits wc) p = false /\
  forall q, 0 <= q < p -> Z.testbit mask q = true -> Z.testbit (occUnits wc) q = true.

(** [k] is the first cycle from [c] on that has a port of [mask] free. *)
Definition first_fit (S : Z -> WinCycle) (c mask k : Z) : Prop :=
  c <= k /\ avail (S k) mask <> 0 /\ forall j, c <= j < k -> avail (S j) mask = 0.

(** [n] extra slots from cycle [c] on, on the ports [mask]. *)
Inductive extra_slots (mask : Z) : nat -> Z -> (Z -> WinCycle) -> (Z -> WinCycle) -> Prop :=
  | extra_nil c S : extra_slots mask 0 c S S
  | extra_cons n c S S' k : first_fit S c mask k ->
      extra_slots mask n (k + 1)
        (<[k := mkWC (Z.lor (occUnits (S k)) mask) (count (S k))]> S) S' ->
      extra_slots mask (Datatypes.S n) c S S'.

Hypothesis H_pos : 0 < H < 2 ^ 31.
Hypothesis WSZ_pos : 0 < WSZ < 255.

Lemma avail_0 wc mask : slot_ok wc -> in_u8 mask ->
  avail wc mask = 0 <-> forall p, 0 <= p -> Z.testbit mask p = true ->
    Z.testbit (occUnits wc) p = true.
Proof.
  intros [Ho _] Hm. split.
  - intros Ha p Hp Hmp. apply (f_equal (fun x => Z.testbit x p)) in Ha. unfold avail in Ha.
    rewrite Z.land_spec, Z.lnot_spec, Hmp, Z.bits_0 in Ha by lia.
    by destruct (Z.testbit (occUnits wc) p).
  - intros Ha. apply Z.bits_inj'. intros p Hp. unfold avail.
    rewrite Z.land_spec, Z.lnot_spec, Z.bits_0 by lia.
    destruct (Z.testbit mask p) eqn:Em; [|by rewrite andb_false_r]. by rewrite Ha.
Qed.

Lemma avail_range wc mask : in_u8 mask -> in_u8 (avail wc mask).
Proof. intros Hm. unfold avail, in_u8. apply land_range_r; [lia|]. exact Hm. Qed.

Lemma ffs_from_spec n i m : 0 <= i ->
  (forall j, i <= j < i + Z.of_nat n -> Z.testbit m j = false) \/
  exists p, ffs_from n i m = p + 1 /\ i <= p < i + Z.of_nat n /\ Z.testbit m p = true /\
    forall j, i <= j < p -> Z.testbit m j = false.
Proof.
  revert i. induction n as [|n IH]; intros i Hi; cbn.
  { left. lia. }
  destruct (Z.testbit m i) eqn:E.
  { right. exists i. repeat split; auto; lia. }
  destruct (IH (i + 1)) as [Hn|(p & Hp & Hr & Hb & Hlow)]; [lia| |].
  - left. intros j Hj. destruct (decide (j = i)) as [->|]; [done|]. apply Hn. lia.
  - right. exists p. split; [done|]. split; [lia|]. split; [done|].
    intros j Hj. destruct (decide (j = i)) as [->|]; [done|]. apply Hlow. lia.
Qed.

Lemma ffs_first_port wc mask : in_u8 mask -> avail wc mask <> 0 ->
  first_port wc mask (ffs (avail wc mask) - 1).
Proof.
  intros Hm Ha. pose proof (avail_range wc mask Hm) as Hr.
  destruct (ffs_from_spec 8 0 (avail wc mask)) as [Hn|(p & Hp & Hb & Ht & Hl)]; [lia| |].
  - destruct Ha. apply Z.bits_inj'. intros j Hj. rewrite Z.bits_0.
    destruct (decide (j < 8)); [apply Hn; lia|]. eapply testbit_high; [exact Hr|lia].
  - unfold ffs. rewrite Hp. replace (p + 1 - 1) with p by lia.
    unfold avail in Ht. rewrite Z.land_spec, Z.lnot_spec in Ht by lia.
    apply andb_true_iff in Ht as [Ht1 Ht2]. repeat split; try lia; [done| |].
    { by destruct (Z.testbit (occUnits wc) p). }
    intros q Hq Hmq. specialize (Hl q ltac:(lia)). unfold avail in Hl.
    rewrite Z.land_spec, Z.lnot_spec, Hmq, andb_true_r in Hl by lia.
    by destruct (Z.testbit (occUnits wc) q).
Qed.

(** The cycle after a uop, or the shadow of one, takes it. *)
Definition taken (touch : bool) (mask : Z) (wc : WinCycle) : WinCycle :=
  if touch then mkWC (Z.lor (occUnits wc) (2 ^ (ffs (avail wc mask) - 1))) (count wc + 1)
  else mkWC (Z.lor (occUnits wc) mask) (count wc).

Definition port_after (touch record : bool) (wc : WinCycle) (mask port : Z) : Z :=
  if touch && record then ffs (avail wc mask) - 1 else port.

Lemma trySchedule_taken touch record wc mask port :
  slot_ok wc -> count wc <= WSZ -> in_u8 mask -> avail wc mask <> 0 ->
  trySchedule touch record wc mask port =
    (avail wc mask, taken touch mask wc, port_after touch record wc mask port).
Proof.
  intros [Ho Hc] Hw Hm Ha. unfold trySchedule, taken, port_after. fold (avail wc mask).
  destruct touch; cbn; [|done]. rewrite (proj2 (Z.eqb_neq _ _) Ha).
  pose proof (ffs_first_port wc mask Hm Ha) as (Hp & _).
  assert (0 < 2 ^ (ffs (avail wc mask) - 1) <= 2 ^ 7).
  { split; [apply Z.pow_pos_nonneg; lia|apply Z.pow_le_mono_r; lia]. }
  rewrite Z.shiftl_1_l, (u8_id (count wc + 1)) by (unfold in_u8; lia).
  rewrite u8_id; [by destruct record|]. apply (lor_range 8); [lia|exact Ho|lia].
Qed.

Lemma trySchedule_full touch record wc mask port :
  slot_ok wc -> in_u8 mask -> avail wc mask = 0 ->
  trySchedule touch record wc mask port = (0, wc, port).
Proof.
  intros Hok Hm Ha. unfold trySchedule. fold (avail wc mask). rewrite Ha.
  destruct touch; [done|]. destruct wc as [o c]; cbn. repeat f_equal.
  apply Z.bits_inj'. intros p Hp. rewrite Z.lor_spec.
  destruct (Z.testbit mask p) eqn:Em; [|by rewrite orb_false_r].
  rewrite orb_true_r. symmetry. by apply (proj1 (avail_0 (mkWC o c) mask Hok Hm) Ha).
Qed.

Lemma taken_ok touch mask wc : slot_ok wc -> in_u8 mask -> avail wc mask <> 0 ->
  slot_ok (taken touch mask wc).
Proof.
  intros [Ho Hc] Hm Ha. pose proof (ffs_first_port wc mask Hm Ha) as (Hp & _).
  unfold taken, slot_ok. destruct touch; cbn; (split; [|lia]); apply (lor_range 8); try done; try lia.
  split; [apply Z.pow_nonneg; lia|]. apply Z.pow_lt_mono_r; lia.
Qed.

Lemma zero_ok : slot_ok zero.
Proof. done. Qed.

Lemma avail_zero mask : in_u8 mask -> mask <> 0 -> avail zero mask <> 0.
Proof.
  intros Hm H0 Ha. apply H0. apply Z.bits_inj'. intros p Hp. rewrite Z.bits_0.
  destruct (Z.testbit mask p) eqn:E; [|done].
  pose proof (proj1 (avail_0 zero mask zero_ok Hm) Ha p Hp E) as Hz. by rewrite Z.bits_0 in Hz.
Qed.

(** ** Sums of counts *)

Lemma counts_cons e l : counts (e :: l) = count e + counts l.
Proof. done. Qed.

Lemma counts_app l1 l2 : counts (l1 ++ l2) = counts l1 + counts l2.
Proof. induction l1 as [|e l1 IH]; cbn; [done|]. rewrite !counts_cons. lia. Qed.

Lemma counts_insert i x (l : list WinCycle) : (i < length l)%nat ->
  counts (<[i := x]> l) = counts l - count (l !!! i) + count x.
Proof.
  revert i. induction l as [|e l IH]; intros [|i] Hi; cbn in Hi; try lia.
  { cbn. rewrite !counts_cons. lia. }
  specialize (IH i ltac:(lia)). change ((e :: l) !!! S i) with (l !!! i).
  change (count e + counts (<[i := x]> l) = count e + counts l - count (l !!! i) + count x). lia.
Qed.

Lemma counts_nonneg l : Forall slot_ok l -> 0 <= counts l.
Proof.
  induction 1 as [|e l [_ He] _ IH]; [done|]. rewrite counts_cons. lia.
Qed.

Lemma counts_elem e l : Forall slot_ok l -> e ∈ l -> count e <= counts l.
Proof.
  intros Hf Hin. apply list_elem_of_split in Hin as (l1 & l2 & ->).
  rewrite counts_app, counts_cons.
  apply Forall_app in Hf as [Hf1 Hf2]. inversion Hf2; subst.
  pose proof (counts_nonneg l1 Hf1). pose proof (counts_nonneg l2 ltac:(done)). lia.
Qed.

Lemma counts_replicate n : counts (replicate n zero) = 0.
Proof. induction n as [|n IH]; cbn; [done|]. rewrite counts_cons. cbn. lia. Qed.

Lemma counts_pos l : Forall slot_ok l -> 0 < counts l ->
  exists i, (i < length l)%nat /\ 0 < count (l !!! i).
Proof.
  induction 1 as [|e l [_ He] _ IH]; [done|]. rewrite counts_cons. intros Hp.
  destruct (decide (0 < count e)); [by exists 0%nat; split; [cbn; lia|]|].
  destruct IH as (i & Hi & Hc); [lia|]. exists (S i). split; [cbn; lia|done].
Qed.

(** ** The searches *)

Lemma window_scan_spec touch record mask n pos (win : list WinCycle) port :
  in_u8 mask -> Forall slot_ok win -> Forall (fun e => count e <= WSZ) win ->
  0 <= pos -> n = O \/ pos + Z.of_nat n <= Z.of_nat (length win) ->
  (scan touch record mask n pos win port = (None, win, port) /\
   forall i, pos <= i < pos + Z.of_nat n -> avail (win !!! Z.to_nat i) mask = 0) \/
  exists p, pos <= p < pos + Z.of_nat n /\ avail (win !!! Z.to_nat p) mask <> 0 /\
    (forall i, pos <= i < p -> avail (win !!! Z.to_nat i) mask = 0) /\
    scan touch record mask n pos win port =
      (Some p, <[Z.to_nat p := taken touch mask (win !!! Z.to_nat p)]> win,
       port_after touch record (win !!! Z.to_nat p) mask port).
Proof.
  intros Hm Hok Hle. revert pos. induction n as [|n IH]; intros pos Hp Hl.
  { left. split; [done|]. lia. }
  destruct Hl as [|Hl]; [done|].
  assert (is_Some (win !! Z.to_nat pos)) as [e He] by (apply lookup_lt_is_Some; lia).
  pose proof (list_lookup_total_correct _ _ _ He) as Ht.
  pose proof (proj1 (Forall_lookup _ _) Hok _ _ He) as Heok.
  pose proof (proj1 (Forall_lookup _ _) Hle _ _ He) as Hele. cbn in Hele.
  cbn [scan]. rewrite Ht. destruct (decide (avail e mask = 0)) as [Ha|Ha].
  - rewrite trySchedule_full by done. rewrite Z.eqb_refl, list_insert_id by done.
    destruct (IH (pos + 1)) as [[-> Hn]|(p & Hpr & Hpa & Hlow & ->)]; [lia|lia| |].
    + left. split; [done|]. intros i Hi. destruct (decide (i = pos)) as [->|]; [by rewrite Ht|].
      apply Hn. lia.
    + right. exists p. split; [lia|]. split; [done|]. split; [|done].
      intros i Hi. destruct (decide (i = pos)) as [->|]; [by rewrite Ht|]. apply Hlow. lia.
  - rewrite trySchedule_taken by done. rewrite (proj2 (Z.eqb_neq _ _) Ha).
    right. exists pos. rewrite Ht. split; [lia|]. split; [done|]. split; [lia|done].
Qed.

Lemma ub_get_below k ub : Forall (fun e => k < e.1) ub -> ub_get k ub = zero.
Proof.
  induction 1 as [|[k' wc] ub Hk _ IH]; cbn in *; [done|].
  by rewrite (proj2 (Z.eqb_neq k' k)) by lia.
Qed.


(** What a search of the map from cycle [c] on leaves. *)
Record ub_post (touch : bool) (mask c : Z) (ub : list (Z * WinCycle)) (k : Z)
    (ub' : list (Z * WinCycle)) : Prop := {
  ubp_fit : first_fit (fun j => ub_get j ub) c mask k;
  ubp_sorted : keys_sorted ub';
  ubp_low : forall lo, lo <= c -> Forall (fun e => lo <= e.1) ub -> Forall (fun e => lo <= e.1) ub';
  ubp_get : forall j, ub_get j ub' =
    if decide (j = k) then taken touch mask (ub_get k ub) else ub_get j ub;
  ubp_counts : counts ub'.*2 =
    counts ub.*2 - count (ub_get k ub) + count (taken touch mask (ub_get k ub));
  ubp_ok : Forall (fun e => slot_ok e.2) ub'
}.

Definition ub_ok (ub : list (Z * WinCycle)) : Prop :=
  Forall (fun e => slot_ok e.2 /\ count e.2 <= WSZ) ub.

Lemma ub_post_fresh touch mask c ub : in_u8 mask -> mask <> 0 -> keys_sorted ub ->
  ub_ok ub -> Forall (fun e => c < e.1) ub ->
  ub_post touch mask c ub c ((c, taken touch mask zero) :: ub).
Proof.
  intros Hm Hm0 Hs Hok Hab. pose proof (ub_get_below c ub Hab) as Hz. split.
  - split; [lia|]. rewrite Hz. split; [by apply avail_zero|lia].
  - by constructor.
  - intros lo Hl Hf. by constructor.
  - intros j. rewrite Hz. cbn [ub_get]. destruct (Z.eqb_spec c j); case_decide; congruence || done.
  - rewrite Hz. cbn. rewrite !counts_cons. cbn. lia.
  - constructor; [by apply taken_ok, avail_zero|]. eapply Forall_impl; [exact Hok|]. by intros ? [? _].
Qed.

Lemma ub_post_skip touch mask c c' k1 wc1 ub k ub' :
  k1 < c' -> c <= c' -> slot_ok wc1 -> Forall (fun e => k1 < e.1) ub ->
  (forall j, c <= j < c' -> avail (ub_get j ((k1, wc1) :: ub)) mask = 0) ->
  ub_post touch mask c' ub k ub' -> ub_post touch mask c ((k1, wc1) :: ub) k ((k1, wc1) :: ub').
Proof.
  intros Hk1 Hc Hok Hall Hbusy [(Hck & Hka & Hkl) Hs Hlo Hget Hcnt Hok'].
  assert (forall j, c' <= j -> ub_get j ((k1, wc1) :: ub) = ub_get j ub) as Hsk.
  { intros j Hj. cbn. by rewrite (proj2 (Z.eqb_neq k1 j)) by lia. }
  split; rewrite ?(Hsk k) by lia.
  - split; [lia|]. split; [by rewrite Hsk by lia|]. intros j Hj.
    destruct (decide (j < c')); [apply Hbusy; lia|]. rewrite Hsk by lia. apply Hkl. lia.
  - constructor; [done|]. eapply Forall_impl; [apply (Hlo (k1 + 1)); [lia|]|cbn; lia].
    eapply Forall_impl; [exact Hall|cbn; lia].
  - intros lo Hl Hf. inversion Hf; subst. constructor; [done|]. apply Hlo; [lia|done].
  - intros j. cbn. destruct (Z.eqb_spec k1 j) as [->|]; [|apply Hget].
    by rewrite decide_False by lia.
  - cbn. rewrite !counts_cons. lia.
  - by constructor.
Qed.

Lemma ub_post_here touch mask c wc1 ub : in_u8 mask -> avail wc1 mask <> 0 ->
  keys_sorted ((c, wc1) :: ub) -> ub_ok ((c, wc1) :: ub) ->
  ub_post touch mask c ((c, wc1) :: ub) c ((c, taken touch mask wc1) :: ub).
Proof.
  intros Hm Ha Hs Hok. inversion Hs; inversion Hok as [|? ? [? _] Hok']; subst. cbn in *.
  assert (ub_get c ((c, wc1) :: ub) = wc1) as Hc by (cbn; by rewrite Z.eqb_refl).
  split; rewrite ?Hc.
  - split; [lia|]. cbv beta. rewrite Hc. split; [done|lia].
  - by constructor.
  - intros lo Hl Hf. inversion Hf; subst. by constructor.
  - intros j. cbn. destruct (Z.eqb_spec c j); case_decide; congruence || done.
  - cbn. rewrite !counts_cons. cbn. lia.
  - constructor; [by apply taken_ok|]. eapply Forall_impl; [exact Hok'|]. by intros ? [? _].
Qed.

Lemma ubSchedule_spec touch record mask ub : in_u8 mask -> mask <> 0 ->
  keys_sorted ub -> ub_ok ub -> forall c port, exists k ub',
    ubSchedule touch record mask c ub port =
      Ok (k, ub', port_after touch record (ub_get k ub) mask port) /\
    ub_post touch mask c ub k ub'.
Proof.
  intros Hm Hm0 Hs Hok. induction ub as [|[k1 wc1] ub IH]; intros c port.
  { exists c, [(c, taken touch mask zero)]. cbn [ubSchedule].
    rewrite trySchedule_taken by first [done|by apply avail_zero|cbn; lia].
    rewrite (proj2 (Z.eqb_neq _ _) (avail_zero mask Hm Hm0)).
    split; [done|]. by apply ub_post_fresh. }
  pose proof Hs as Hs0. pose proof Hok as Hok0.
  inversion Hs as [|? ? Hs' Hall]; inversion Hok as [|? ? [Hok1 Hle1] Hok']; subst.
  cbn in Hall, Hok1, Hle1. specialize (IH Hs' Hok'). cbn [ubSchedule].
  destruct (Z.ltb_spec k1 c) as [Hlt|Hge].
  { destruct (IH c port) as (k & ub' & -> & Hp). exists k, ((k1, wc1) :: ub').
    assert (k1 < k) by (destruct (ubp_fit _ _ _ _ _ _ Hp); lia).
    cbn [ub_get]. rewrite (proj2 (Z.eqb_neq k1 k)) by lia.
    split; [done|]. apply (ub_post_skip touch mask c c); try done; lia. }
  destruct (Z.eqb_spec k1 c) as [->|Hne].
  { destruct (decide (avail wc1 mask = 0)) as [Ha|Ha].
    - rewrite trySchedule_full by done. rewrite Z.eqb_refl.
      destruct (IH (c + 1) port) as (k & ub' & -> & Hp). exists k, ((c, wc1) :: ub').
      assert (c < k) by (destruct (ubp_fit _ _ _ _ _ _ Hp); lia).
      cbn [ub_get]. rewrite (proj2 (Z.eqb_neq c k)) by lia.
      split; [done|]. apply (ub_post_skip touch mask c (c + 1)); try done; try lia.
      intros j Hj. replace j with c by lia. cbn. by rewrite Z.eqb_refl.
    - rewrite trySchedule_taken by done. rewrite (proj2 (Z.eqb_neq _ _) Ha).
      exists c, ((c, taken touch mask wc1) :: ub). cbn [ub_get]. rewrite Z.eqb_refl.
      split; [done|]. by apply ub_post_here. }
  assert (Forall (fun e => c < e.1) ((k1, wc1) :: ub)) as Hab.
  { constructor; [cbn; lia|]. eapply Forall_impl; [exact Hall|cbn; lia]. }
  exists c, ((c, taken touch mask zero) :: (k1, wc1) :: ub).
  rewrite (ub_get_below c) by done.
  rewrite trySchedule_taken by first [done|by apply avail_zero|cbn; lia].
  rewrite (proj2 (Z.eqb_neq _ _) (avail_zero mask Hm Hm0)).
  split; [done|]. by apply ub_post_fresh.
Qed.

(** ** One uop finds its slot *)

Section place.
Context (w : Window) (cur : Z) (Hwf : wf w cur).

Lemma slot_cur j : cur - curPos w <= j < cur - curPos w + H ->
  slot w cur j = curWin w !!! Z.to_nat (j - cur + curPos w).
Proof. intros Hj. unfold slot. by rewrite (proj2 (Z.ltb_lt _ _)) by lia. Qed.

Lemma slot_next j : cur - curPos w + H <= j < cur - curPos w + 2 * H ->
  slot w cur j = nextWin w !!! Z.to_nat (j - cur + curPos w - H).
Proof.
  intros Hj. unfold slot.
  by rewrite (proj2 (Z.ltb_ge _ _)), (proj2 (Z.ltb_lt _ (2 * H))) by lia.
Qed.

Lemma slot_far j : cur - curPos w + 2 * H <= j -> slot w cur j = ub_get j (ubWin w).
Proof. intros Hj. unfold slot. by rewrite !(proj2 (Z.ltb_ge _ _)) by lia. Qed.

Lemma all_ok : Forall slot_ok (curWin w) /\ Forall slot_ok (nextWin w) /\
  Forall slot_ok (ubWin w).*2.
Proof. pose proof (wf_ok w cur Hwf) as Hf. rewrite !Forall_app in Hf. tauto. Qed.

Lemma all_counts : 0 <= counts (curWin w) <= WSZ /\ 0 <= counts (nextWin w) <= WSZ /\
  0 <= counts (ubWin w).*2 <= WSZ.
Proof.
  destruct all_ok as (H1 & H2 & H3). pose proof (wf_room w cur Hwf) as Hr.
  rewrite (wf_occ w cur Hwf) in Hr. unfold total in Hr.
  pose proof (counts_nonneg _ H1). pose proof (counts_nonneg _ H2). pose proof (counts_nonneg _ H3).
  lia.
Qed.

Lemma counts_le l : Forall slot_ok l -> counts l <= WSZ -> Forall (fun e => count e <= WSZ) l.
Proof.
  intros Hok Hle. apply list.Forall_forall. intros e He.
  pose proof (counts_elem e l Hok He). lia.
Qed.

Lemma ub_all_ok : ub_ok (ubWin w).
Proof.
  destruct all_ok as (_ & _ & H3). destruct all_counts as (_ & _ & Hc).
  pose proof (counts_le _ H3 ltac:(lia)) as Hl. rewrite Forall_fmap in H3, Hl.
  unfold ub_ok. apply Forall_and. by split.
Qed.

Lemma ub_get_ok k : slot_ok (ub_get k (ubWin w)).
Proof.
  pose proof ub_all_ok as Hf. induction Hf as [|[k' wc] l [Hok _] _ IH]; cbn; [apply zero_ok|].
  destruct (k' =? k); [exact Hok|exact IH].
Qed.

Lemma slot_all_ok j : cur - curPos w <= j -> slot_ok (slot w cur j).
Proof.
  intros Hj. destruct all_ok as (H1 & H2 & _).
  pose proof (wf_cur w cur Hwf). pose proof (wf_next w cur Hwf).
  destruct (decide (j < cur - curPos w + H)).
  { rewrite slot_cur by lia. eapply (Forall_lookup_total_1 slot_ok); [done|lia]. }
  destruct (decide (j < cur - curPos w + 2 * H)).
  { rewrite slot_next by lia. eapply (Forall_lookup_total_1 slot_ok); [done|lia]. }
  rewrite slot_far by lia. apply ub_get_ok.
Qed.

(** The three arrays with one entry changed. *)
Context (x : WinCycle) (port : Z) (Hx : slot_ok x) (Hport : 0 <= port < 8).

Lemma wf_set_cur p occ : curPos w <= p < H ->
  occ = occupancy w - count (curWin w !!! Z.to_nat p) + count x -> occ <= WSZ ->
  wf (mkWin (<[Z.to_nat p := x]> (curWin w)) (nextWin w) (ubWin w) occ (curPos w) port) cur.
Proof.
  intros Hp Ho Hr. pose proof Hwf as [Hl1 Hl2 Hpos Hpast Hs Hfar Hok Hocc _ _].
  destruct all_ok as (H1 & H2 & H3). split; cbn; try done.
  - by rewrite length_insert.
  - intros i Hi. rewrite list_lookup_total_insert_ne by lia. by apply Hpast.
  - rewrite !Forall_app. split; [by apply Forall_insert|done].
  - unfold total in *; cbn. rewrite counts_insert by lia. lia.
Qed.

Lemma wf_set_next p occ : 0 <= p < H ->
  occ = occupancy w - count (nextWin w !!! Z.to_nat p) + count x -> occ <= WSZ ->
  wf (mkWin (curWin w) (<[Z.to_nat p := x]> (nextWin w)) (ubWin w) occ (curPos w) port) cur.
Proof.
  intros Hp Ho Hr. pose proof Hwf as [Hl1 Hl2 Hpos Hpast Hs Hfar Hok Hocc _ _].
  destruct all_ok as (H1 & H2 & H3). split; cbn; try done.
  - by rewrite length_insert.
  - rewrite !Forall_app. split; [done|]. split; [by apply Forall_insert|done].
  - unfold total in *; cbn. rewrite counts_insert by lia. lia.
Qed.

Lemma wf_set_ub ub occ : keys_sorted ub ->
  Forall (fun e => cur - curPos w + 2 * H <= e.1) ub -> Forall (fun e => slot_ok e.2) ub ->
  occ = occupancy w - counts (ubWin w).*2 + counts ub.*2 -> occ <= WSZ ->
  wf (mkWin (curWin w) (nextWin w) ub occ (curPos w) port) cur.
Proof.
  intros Hks Hlo Hoks Ho Hr. pose proof Hwf as [Hl1 Hl2 Hpos Hpast Hs Hfar Hok Hocc _ _].
  destruct all_ok as (H1 & H2 & H3). split; cbn; try done.
  - rewrite !Forall_app. split; [done|]. split; [done|]. by rewrite Forall_fmap.
  - unfold total in *; cbn. lia.
Qed.
End place.

Definition bump (touch : bool) : Z := if touch then 1 else 0.

Lemma count_taken touch mask wc : count (taken touch mask wc) = count wc + bump touch.
Proof. destruct touch; cbn; lia. Qed.

Lemma port_after_range touch record wc mask port :
  in_u8 mask -> avail wc mask <> 0 -> 0 <= port < 8 ->
  0 <= port_after touch record wc mask port < 8.
Proof.
  intros Hm Ha Hp. unfold port_after. destruct (touch && record); [|done].
  by destruct (ffs_first_port wc mask Hm Ha).
Qed.

Record placed (touch record : bool) (w : Window) (cur sched mask : Z) (w' : Window) (k : Z)
    : Prop := {
  pl_fit : first_fit (slot w cur) (Z.max sched cur) mask k;
  pl_wf : wf w' cur;
  pl_slot : forall j, cur <= j -> slot w' cur j =
    if decide (j = k) then taken touch mask (slot w cur k) else slot w cur j;
  pl_occ : occupancy w' = occupancy w + bump touch;
  pl_pos : curPos w' = curPos w;
  pl_port : lastPort w' = port_after touch record (slot w cur k) mask (lastPort w)
}.

Section window_place_spec.
Context (touch record : bool) (w : Window) (cur sched mask : Z) (Hwf : wf w cur).
Context (Hm : in_u8 mask) (Hroom : touch = true -> occupancy w < WSZ).
Context (Hnear : sched - cur < 2 ^ 31).

Definition from : Z := Z.max sched cur - cur + curPos w.

Lemma place_start :
  u32 (curPos w + (if cur <? sched then u32 (sched - cur) else 0)) = from.
Proof.
  destruct (wf_pos w cur Hwf). unfold from. destruct (Z.ltb_spec cur sched).
  - rewrite (u32_id (sched - cur)) by (unfold in_u32; lia).
    rewrite u32_id by (unfold in_u32; lia). lia.
  - rewrite u32_id by (unfold in_u32; lia). lia.
Qed.

Lemma place_occ : (if touch then u32 (occupancy w + 1) else occupancy w) = occupancy w + bump touch
  /\ occupancy w + bump touch <= WSZ.
Proof.
  destruct (all_counts w cur Hwf) as (H1 & H2 & H3). pose proof (wf_occ w cur Hwf) as Ho.
  pose proof (wf_room w cur Hwf) as Hr. unfold total in Ho. unfold bump.
  destruct touch; [|lia]. specialize (Hroom eq_refl). rewrite u32_id by (unfold in_u32; lia). lia.
Qed.

Lemma place_in_cur p : from <= p < H -> avail (curWin w !!! Z.to_nat p) mask <> 0 ->
  (forall i, from <= i < p -> avail (curWin w !!! Z.to_nat i) mask = 0) ->
  placed touch record w cur sched mask
    (mkWin (<[Z.to_nat p := taken touch mask (curWin w !!! Z.to_nat p)]> (curWin w)) (nextWin w)
       (ubWin w) (occupancy w + bump touch) (curPos w)
       (port_after touch record (curWin w !!! Z.to_nat p) mask (lastPort w)))
    (cur + (p - curPos w)).
Proof.
  intros Hp Ha Hlow. destruct (wf_pos w cur Hwf) as [Hp0 Hp1]. pose proof (wf_port w cur Hwf) as Hlp.
  pose proof (wf_cur w cur Hwf) as Hlen. unfold from in *. destruct place_occ as [_ Hocc].
  assert (Hsl : forall j, cur - curPos w <= j < cur - curPos w + H ->
    slot w cur j = curWin w !!! Z.to_nat (j - cur + curPos w)) by (apply slot_cur).
  assert (Hk : slot w cur (cur + (p - curPos w)) = curWin w !!! Z.to_nat p).
  { rewrite Hsl by lia. do 2 f_equal. lia. }
  assert (Hok : slot_ok (curWin w !!! Z.to_nat p)).
  { rewrite <- Hk. by apply slot_all_ok; [|lia]. }
  split; rewrite ?Hk; try done.
  - split; [lia|]. split; [by rewrite Hk|]. intros j Hj. rewrite Hsl by lia. apply Hlow. lia.
  - apply wf_set_cur; try done; [by apply taken_ok|by apply port_after_range|lia|].
    rewrite count_taken. lia.
  - intros j Hj. unfold slot; cbn.
    case_decide; subst.
    + replace (cur + (p - curPos w) - cur + curPos w) with p by lia.
      rewrite (proj2 (Z.ltb_lt p H)) by lia. by rewrite list_lookup_total_insert_eq by lia.
    + destruct (Z.ltb_spec (j - cur + curPos w) H); [|done].
      by rewrite list_lookup_total_insert_ne by lia.
Qed.

Lemma place_in_next p : from <= H + p -> 0 <= p < H -> avail (nextWin w !!! Z.to_nat p) mask <> 0 ->
  (forall i, from <= i < H -> avail (curWin w !!! Z.to_nat i) mask = 0) ->
  (forall i, Z.max from H - H <= i < p -> avail (nextWin w !!! Z.to_nat i) mask = 0) ->
  placed touch record w cur sched mask
    (mkWin (curWin w) (<[Z.to_nat p := taken touch mask (nextWin w !!! Z.to_nat p)]> (nextWin w))
       (ubWin w) (occupancy w + bump touch) (curPos w)
       (port_after touch record (nextWin w !!! Z.to_nat p) mask (lastPort w)))
    (cur + (p + H - curPos w)).
Proof.
  intros Hf Hp Ha Hlow Hlow2. destruct (wf_pos w cur Hwf) as [Hp0 Hp1].
  pose proof (wf_port w cur Hwf) as Hlp. pose proof (wf_next w cur Hwf) as Hlen.
  unfold from in *. destruct place_occ as [_ Hocc].
  assert (Hk : slot w cur (cur + (p + H - curPos w)) = nextWin w !!! Z.to_nat p).
  { rewrite slot_next by lia. do 2 f_equal. lia. }
  assert (Hok : slot_ok (nextWin w !!! Z.to_nat p)).
  { rewrite <- Hk. by apply slot_all_ok; [|lia]. }
  split; rewrite ?Hk; try done.
  - split; [lia|]. split; [by rewrite Hk|]. intros j Hj.
    destruct (decide (j < cur - curPos w + H)).
    + rewrite slot_cur by lia. apply Hlow. lia.
    + rewrite slot_next by lia. apply Hlow2. lia.
  - apply wf_set_next; try done; [by apply taken_ok|by apply port_after_range|].
    rewrite count_taken. lia.
  - intros j Hj. unfold slot; cbn.
    case_decide; subst.
    + replace (cur + (p + H - curPos w) - cur + curPos w) with (p + H) by lia.
      rewrite (proj2 (Z.ltb_ge (p + H) H)), (proj2 (Z.ltb_lt (p + H) (2 * H))) by lia.
      replace (p + H - H) with p by lia. by rewrite list_lookup_total_insert_eq by lia.
    + destruct (Z.ltb_spec (j - cur + curPos w) H); [done|].
      destruct (Z.ltb_spec (j - cur + curPos w) (2 * H)); [|done].
      by rewrite list_lookup_total_insert_ne by lia.
Qed.

Lemma place_in_ub c k ub : c = Z.max (Z.max sched cur) (cur - curPos w + 2 * H) ->
  (forall i, from <= i < H -> avail (curWin w !!! Z.to_nat i) mask = 0) ->
  (forall i, Z.max from H - H <= i < H -> avail (nextWin w !!! Z.to_nat i) mask = 0) ->
  ub_post touch mask c (ubWin w) k ub ->
  placed touch record w cur sched mask
    (mkWin (curWin w) (nextWin w) ub (occupancy w + bump touch) (curPos w)
       (port_after touch record (ub_get k (ubWin w)) mask (lastPort w))) k.
Proof.
  intros Hc Hlow Hlow2 [(Hck & Hka & Hkl) Hs Hlo Hget Hcnt Hok].
  destruct (wf_pos w cur Hwf) as [Hp0 Hp1].
  pose proof (wf_port w cur Hwf) as Hlp. pose proof (wf_far w cur Hwf) as Hfar.
  unfold from in *. destruct place_occ as [_ Hocc].
  assert (Hk : slot w cur k = ub_get k (ubWin w)) by (apply slot_far; lia).
  split; rewrite ?Hk; try done.
  - split; [lia|]. split; [by rewrite Hk|]. intros j Hj.
    destruct (decide (j < cur - curPos w + H)); [rewrite slot_cur by lia; apply Hlow; lia|].
    destruct (decide (j < cur - curPos w + 2 * H)); [rewrite slot_next by lia; apply Hlow2; lia|].
    rewrite slot_far by lia. apply Hkl. lia.
  - apply wf_set_ub; try done; [by apply port_after_range|apply Hlo; [lia|done]|].
    rewrite Hcnt, count_taken. lia.
  - intros j Hj. unfold slot; cbn.
    destruct (Z.ltb_spec (j - cur + curPos w) H); [by rewrite decide_False by lia|].
    destruct (Z.ltb_spec (j - cur + curPos w) (2 * H)); [by rewrite decide_False by lia|].
    apply Hget.
Qed.

Lemma window_place_spec : mask <> 0 ->
  exists w' k, place touch record w cur sched mask = Ok (w', k) /\
    placed touch record w cur sched mask w' k.
Proof.
  intros Hm0. destruct (wf_pos w cur Hwf) as [Hp0 Hp1]. unfold place.
  rewrite place_start, (proj1 place_occ).
  destruct (all_ok w cur Hwf) as (H1 & H2 & H3). destruct (all_counts w cur Hwf) as (C1 & C2 & C3).
  pose proof (wf_cur w cur Hwf) as L1. pose proof (wf_next w cur Hwf) as L2.
  assert (0 <= from) by (unfold from; lia).
  destruct (window_scan_spec touch record mask (Z.to_nat (H - from)) from (curWin w) (lastPort w)
    Hm H1 (counts_le _ H1 (proj2 C1)) ltac:(lia) ltac:(lia)) as [[-> Hlow]|(p & Hp & Ha & Hlow & ->)].
  2: { eexists _, _. split; [done|]. apply place_in_cur; [lia|done..]. }
  assert (Hlow' : forall i, from <= i < H -> avail (curWin w !!! Z.to_nat i) mask = 0).
  { intros i Hi. apply Hlow. lia. }
  set (pos := Z.max from H - H).
  destruct (window_scan_spec touch record mask (Z.to_nat (H - pos)) pos (nextWin w) (lastPort w)
    Hm H2 (counts_le _ H2 (proj2 C2)) ltac:(lia) ltac:(lia)) as [[-> Hlow2]|(p & Hp & Ha & Hlow2 & ->)].
  2: { eexists _, _. split; [done|]. apply place_in_next; try done; lia. }
  assert (Hlow2' : forall i, pos <= i < H -> avail (nextWin w !!! Z.to_nat i) mask = 0).
  { intros i Hi. apply Hlow2. lia. }
  destruct (ubSchedule_spec touch record mask (ubWin w) Hm Hm0 (wf_sorted w cur Hwf)
    (ub_all_ok w cur Hwf) (cur + (Z.max pos H + H - curPos w)) (lastPort w)) as (k & ub & -> & Hp).
  eexists _, _. split; [done|]. eapply place_in_ub; [|exact Hlow'|exact Hlow2'|exact Hp]. unfold pos, from. lia.
Qed.
End window_place_spec.

(** ** The passing of a cycle *)

Record moved (cur lo : Z) (ub : list (Z * WinCycle)) (next : list WinCycle)
    (ub' : list (Z * WinCycle)) (next' : list WinCycle) : Prop := {
  mv_len : length next' = Z.to_nat H;
  mv_next : forall j, cur + H <= j < cur + 2 * H -> next' !!! Z.to_nat (j - H - cur) =
    if decide (lo <= j) then ub_get j ub else next !!! Z.to_nat (j - H - cur);
  mv_far : forall j, cur + 2 * H <= j -> ub_get j ub' = ub_get j ub;
  mv_keys : Forall (fun e => cur + 2 * H <= e.1) ub';
  mv_sorted : keys_sorted ub';
  mv_counts : counts next' + counts ub'.*2 = counts next + counts ub.*2;
  mv_ok : Forall slot_ok (next' ++ ub'.*2)
}.

Lemma ubMove_spec cur ub : keys_sorted ub -> forall next lo,
  length next = Z.to_nat H -> Forall slot_ok (next ++ ub.*2) ->
  cur + H <= lo -> Forall (fun e => lo <= e.1) ub ->
  (forall j, lo <= j < cur + 2 * H -> next !!! Z.to_nat (j - H - cur) = zero) ->
  exists ub' next', ubMove (cur + 2 * H) cur ub next = Ok (ub', next') /\
    moved cur lo ub next ub' next'.
Proof.
  induction 1 as [|[k wc] ub Hs IH Hall]; intros next lo Hlen Hok Hlo Hge Hz; cbn [ubMove].
  { eexists _, _. split; [done|]. split; try done; try constructor.
    intros j Hj. case_decide; [|done]. cbn. apply Hz. lia. }
  inversion Hge as [|? ? Hk Hge']; subst. cbn in Hk. destruct (Z.ltb_spec k (cur + 2 * H)) as [Hlt|Hge2].
  - rewrite u32_id by (unfold in_u32; lia). rewrite (proj2 (Z.ltb_lt _ _)) by lia. cbn [assert_that].
    apply Forall_app in Hok as [Hok1 Hok2]. cbn in Hok2. inversion Hok2; subst.
    destruct (IH (<[Z.to_nat (k - H - cur) := wc]> next) (k + 1)) as (ub' & next' & E & [M1 M2 M3 M4 M5 M6 M7]).
    + by rewrite length_insert.
    + rewrite Forall_app. split; [by apply Forall_insert|done].
    + lia.
    + eapply Forall_impl; [exact Hall|cbn; lia].
    + intros j Hj. rewrite list_lookup_total_insert_ne by lia. apply Hz. lia.
    + exists ub', next'. split; [exact E|]. split; try done.
      * intros j Hj. rewrite M2 by done. cbn [ub_get].
        destruct (Z.eqb_spec k j) as [->|Hne].
        { rewrite decide_False, decide_True by lia. by rewrite list_lookup_total_insert_eq by lia. }
        rewrite (list_lookup_total_insert_ne _ _ _ _) by lia.
        repeat case_decide; try lia; try done. rewrite Hz by lia.
        symmetry. apply ub_get_below. eapply Forall_impl; [exact Hall|cbn; lia].
      * intros j Hj. rewrite M3 by done. cbn [ub_get]. by rewrite (proj2 (Z.eqb_neq k j)) by lia.
      * rewrite M6, counts_insert, Hz by lia. cbn. rewrite counts_cons. lia.
  - eexists _, _. split; [done|]. split; try done.
    + intros j Hj. case_decide; [|done]. cbn [ub_get]. rewrite (proj2 (Z.eqb_neq k j)) by lia.
      rewrite Hz by lia. symmetry. apply ub_get_below. eapply Forall_impl; [exact Hall|cbn; lia].
    + constructor; [cbn; lia|]. eapply Forall_impl; [exact Hall|cbn; lia].
    + by constructor.
Qed.

Record advanced (w : Window) (cur : Z) (w' : Window) : Prop := {
  ad_wf : wf w' (cur + 1);
  ad_slot : forall j, cur < j -> slot w' (cur + 1) j = slot w cur j;
  ad_occ : occupancy w' = occupancy w - count (slot w cur cur);
  ad_port : lastPort w' = lastPort w
}.

Section advance.
Context (w : Window) (cur : Z) (Hwf : wf w cur).
Let cw : list WinCycle := <[Z.to_nat (curPos w) := zero]> (curWin w).

Lemma slot_now : slot w cur cur = curWin w !!! Z.to_nat (curPos w).
Proof. pose proof (wf_pos w cur Hwf). rewrite slot_cur by lia. do 2 f_equal. lia. Qed.

Lemma now_count : 0 <= count (curWin w !!! Z.to_nat (curPos w)) <= counts (curWin w).
Proof.
  destruct (all_ok w cur Hwf) as (O1 & _ & _). pose proof (wf_pos w cur Hwf).
  pose proof (wf_cur w cur Hwf).
  split; [rewrite <- slot_now; by apply slot_all_ok; [|lia]|].
  apply counts_elem; [done|]. apply list_elem_of_lookup_total_2. lia.
Qed.

Lemma pop_ok : Forall slot_ok cw /\ length cw = Z.to_nat H /\
  counts cw = counts (curWin w) - count (curWin w !!! Z.to_nat (curPos w)).
Proof.
  destruct (all_ok w cur Hwf) as (O1 & _ & _). pose proof (wf_pos w cur Hwf).
  pose proof (wf_cur w cur Hwf). unfold cw. split; [by apply Forall_insert|].
  rewrite length_insert, counts_insert by lia. split; [done|]. cbn. lia.
Qed.

Lemma pop_past i : 0 <= i <= curPos w -> cw !!! Z.to_nat i = zero.
Proof.
  intros Hi. pose proof (wf_pos w cur Hwf). pose proof (wf_cur w cur Hwf). unfold cw.
  destruct (decide (i = curPos w)) as [->|]; [by rewrite list_lookup_total_insert_eq by lia|].
  rewrite list_lookup_total_insert_ne by lia. apply (wf_past w cur Hwf). lia.
Qed.

Lemma advance_step occ : curPos w + 1 <> H ->
  occ = occupancy w - count (curWin w !!! Z.to_nat (curPos w)) ->
  advanced w cur (mkWin cw (nextWin w) (ubWin w) occ (curPos w + 1) (lastPort w)).
Proof.
  intros Hne Ho. pose proof Hwf as [L1 L2 Hpos Hpast Hs Hfar Hok Hocc Hroom Hport].
  destruct (all_ok w cur Hwf) as (O1 & O2 & O3). destruct pop_ok as (P1 & P2 & P3).
  pose proof now_count. split; cbn; try done.
  - split; cbn; try done; try lia.
    + intros i Hi. apply pop_past. lia.
    + eapply Forall_impl; [exact Hfar|cbn; lia].
    + by rewrite !Forall_app.
    + unfold total in *; cbn. lia.
  - intros j Hj. unfold slot; cbn.
    replace (j - (cur + 1) + (curPos w + 1)) with (j - cur + curPos w) by lia.
    destruct (Z.ltb_spec (j - cur + curPos w) H); [|done].
    unfold cw. by rewrite list_lookup_total_insert_ne by lia.
  - by rewrite slot_now.
Qed.

Lemma advance_rebase occ ub next : curPos w + 1 = H ->
  occ = occupancy w - count (curWin w !!! Z.to_nat (curPos w)) ->
  moved (cur + 1) (cur + 1 + H) (ubWin w) cw ub next ->
  advanced w cur (mkWin (nextWin w) next ub occ 0 (lastPort w)).
Proof.
  intros Heq Ho [M1 M2 M3 M4 M5 M6 M7].
  pose proof Hwf as [L1 L2 Hpos Hpast Hs Hfar Hok Hocc Hroom Hport].
  destruct (all_ok w cur Hwf) as (O1 & O2 & O3). destruct pop_ok as (P1 & P2 & P3).
  pose proof now_count. split; cbn; try done.
  - split; cbn; try done; try lia.
    + eapply Forall_impl; [exact M4|cbn; lia].
    + rewrite !Forall_app in *. tauto.
    + unfold total in *; cbn. lia.
  - intros j Hj. unfold slot; cbn. replace (j - (cur + 1) + 0) with (j - cur - 1) by lia.
    destruct (Z.ltb_spec (j - cur - 1) H); destruct (Z.ltb_spec (j - cur + curPos w) H);
      destruct (Z.ltb_spec (j - cur + curPos w) (2 * H));
      destruct (Z.ltb_spec (j - cur - 1) (2 * H)); try lia.
    + do 2 f_equal. lia.
    + replace (j - cur - 1 - H) with (j - H - (cur + 1)) by lia.
      rewrite M2 by lia. by rewrite decide_True by lia.
    + apply M3. lia.
  - by rewrite slot_now.
Qed.

Lemma advancePos_spec :
  exists w', advancePos w cur = Ok (w', cur + 1) /\ advanced w cur w'.
Proof.
  pose proof Hwf as [L1 L2 Hpos Hpast Hs Hfar Hok Hocc Hroom Hport].
  destruct (all_ok w cur Hwf) as (O1 & O2 & O3). destruct (all_counts w cur Hwf) as (C1 & C2 & C3).
  destruct pop_ok as (P1 & P2 & P3). pose proof now_count as Hc.
  unfold advancePos. fold cw. rewrite u32_id by (unfold in_u32, total in *; lia).
  destruct (Z.eqb_spec (curPos w + 1) H) as [Heq|Hne].
  - destruct (ubMove_spec (cur + 1) (ubWin w) Hs cw (cur + 1 + H)) as (ub & next & -> & M).
    + done.
    + by rewrite Forall_app.
    + lia.
    + eapply Forall_impl; [exact Hfar|cbn; lia].
    + intros j Hj. apply pop_past. lia.
    + eexists. split; [done|]. by apply advance_rebase.
  - eexists. split; [done|]. by apply advance_step.
Qed.
End advance.

(** ** Waiting for room *)

Lemma ub_get_elem k wc ub : keys_sorted ub -> (k, wc) ∈ ub -> ub_get k ub = wc.
Proof.
  induction 1 as [|[k' wc'] ub _ IH Hall]; intros Hin; [by apply not_elem_of_nil in Hin|]. cbn.
  apply elem_of_cons in Hin as [[= -> ->]|Hin]; [by rewrite Z.eqb_refl|].
  pose proof (proj1 (list.Forall_forall _ _) Hall _ Hin) as Hlt. cbn in Hlt.
  rewrite (proj2 (Z.eqb_neq k' k)) by lia. by apply IH.
Qed.

Lemma drainFuel_ge w cur : 2 * H <= Z.of_nat (drainFuel w cur) /\
  forall e, e ∈ ubWin w -> e.1 < cur + Z.of_nat (drainFuel w cur).
Proof.
  unfold drainFuel. set (f := foldr _ _ _).
  assert (2 * H <= f /\ forall e, e ∈ ubWin w -> e.1 + 1 - cur <= f) as [Hf He].
  { unfold f. clear. induction (ubWin w) as [|e l [IH1 IH2]]; cbn.
    { split; [lia|]. intros e He. by apply not_elem_of_nil in He. }
    split; [lia|]. intros e' [->|He]%elem_of_cons; [lia|]. specialize (IH2 _ He). lia. }
  split; [lia|]. intros e Hin. specialize (He e Hin). lia.
Qed.

Lemma busy_slot w cur : wf w cur -> 0 < occupancy w ->
  exists k, cur <= k < cur + Z.of_nat (drainFuel w cur) /\ 0 < count (slot w cur k).
Proof.
  intros Hwf Hpos. pose proof Hwf as [L1 L2 Hp Hpast Hs Hfar Hok Hocc Hroom Hport].
  destruct (all_ok w cur Hwf) as (O1 & O2 & O3). destruct (all_counts w cur Hwf) as (C1 & C2 & C3).
  destruct (drainFuel_ge w cur) as [Hf1 Hf2]. unfold total in Hocc.
  assert (0 < counts (curWin w) \/ 0 < counts (nextWin w) \/ 0 < counts (ubWin w).*2)
    as [Hc|[Hc|Hc]] by lia.
  - destruct (counts_pos _ O1 Hc) as (i & Hi & Hci).
    assert (curPos w <= Z.of_nat i).
    { apply Z.nlt_ge. intros Hlt. specialize (Hpast (Z.of_nat i) ltac:(lia)).
      rewrite Nat2Z.id in Hpast. rewrite Hpast in Hci. by cbn in Hci. }
    exists (cur - curPos w + Z.of_nat i). split; [lia|]. rewrite slot_cur by lia.
    replace (Z.to_nat _) with i by lia. done.
  - destruct (counts_pos _ O2 Hc) as (i & Hi & Hci).
    exists (cur - curPos w + H + Z.of_nat i). split; [lia|]. rewrite slot_next by lia.
    replace (Z.to_nat _) with i by lia. done.
  - destruct (counts_pos _ O3 Hc) as (i & Hi & Hci). rewrite length_fmap in Hi.
    apply lookup_lt_is_Some in Hi as [[k wc] Hl].
    rewrite (list_lookup_total_correct _ _ wc) in Hci by (rewrite list_lookup_fmap, Hl; done).
    assert (Hin : (k, wc) ∈ ubWin w) by by eapply list_elem_of_lookup_2.
    exists k. pose proof (proj1 (list.Forall_forall _ _) Hfar _ Hin) as Hfk. cbn in Hfk.
    specialize (Hf2 _ Hin). cbn in Hf2. split; [lia|].
    rewrite slot_far by lia. by rewrite (ub_get_elem k wc).
Qed.

(** A full window waits until the first cycle with uops has passed. *)
Record roomy (w : Window) (cur : Z) (w' : Window) (cur' : Z) : Prop := {
  ro_wf : wf w' cur';
  ro_room : occupancy w' < WSZ;
  ro_slot : forall j, cur' <= j -> slot w' cur' j = slot w cur j;
  ro_same : occupancy w < WSZ -> cur' = cur /\ w' = w;
  ro_wait : occupancy w = WSZ -> cur < cur' /\ 0 < count (slot w cur (cur' - 1)) /\
    (forall j, cur <= j < cur' - 1 -> count (slot w cur j) = 0) /\
    occupancy w' = WSZ - count (slot w cur (cur' - 1));
  ro_port : lastPort w' = lastPort w
}.

Lemma waitRoom_spec n : forall w cur, wf w cur ->
  (occupancy w = WSZ -> exists k, cur <= k < cur + Z.of_nat n /\ 0 < count (slot w cur k)) ->
  exists w' cur', waitRoom n w cur = Ok (w', cur') /\ roomy w cur w' cur'.
Proof.
  induction n as [|n IH]; intros w cur Hwf Hbusy; cbn [waitRoom];
    destruct (Z.eqb_spec (occupancy w) WSZ) as [Heq|Hne].
  - destruct (Hbusy Heq) as (k & Hk & _). lia.
  - pose proof (wf_room w cur Hwf). eexists _, _. split; [done|]. split; try done; lia.
  - destruct (advancePos_spec w cur Hwf) as (w1 & -> & [A1 A2 A3 A4]). cbn [mbind res_bind].
    destruct (Hbusy Heq) as (k & Hk & Hck). pose proof (wf_room w1 _ A1) as Hr1.
    assert (Hok : 0 <= count (slot w cur cur)).
    { pose proof (wf_pos w cur Hwf). by apply slot_all_ok; [|lia]. }
    destruct (IH w1 (cur + 1) A1) as (w' & cur' & -> & [B1 B2 B3 B4 B5 B6]).
    { intros Hfull. exists k. assert (k <> cur) by (intros ->; lia).
      split; [lia|]. by rewrite A2 by lia. }
    eexists _, _. split; [done|].
    destruct (decide (occupancy w1 = WSZ)) as [Hf1|Hf1].
    + destruct (B5 Hf1) as (D1 & D2 & D3 & D4). rewrite A2 in D2, D4 by lia.
      split; try done; try lia.
      * intros j Hj. rewrite B3, A2 by lia. done.
      * intros _. split; [lia|]. split; [done|]. split; [|done]. intros j Hj.
        destruct (decide (j = cur)) as [->|]; [lia|]. rewrite <- A2 by lia. apply D3. lia.
    + destruct (B4 ltac:(lia)) as [-> ->]. split; try done; try lia.
      * intros j Hj. apply A2. lia.
      * intros _. replace (cur + 1 - 1) with cur by lia. split; [lia|]. split; [lia|].
        split; [lia|]. lia.
  - pose proof (wf_room w cur Hwf). eexists _, _. split; [done|]. split; try done; lia.
Qed.

(** ** A uop with its extra slots *)

(** Nothing is scheduled from cycle [b] on. *)
Definition quiet (S : Z -> WinCycle) (b : Z) : Prop := forall j, b <= j -> S j = zero.

Lemma first_fit_quiet S c mask k b :
  in_u8 mask -> mask <> 0 -> quiet S b -> first_fit S c mask k -> k <= Z.max c b.
Proof.
  intros Hm H0 Hq (Hck & Ha & Hlow). apply Z.nlt_ge. intros Hlt.
  assert (avail (S (Z.max c b)) mask = 0) as Hz by (apply Hlow; lia).
  rewrite Hq in Hz by lia. by apply (avail_zero mask).
Qed.

Lemma first_fit_ext S S' c lo mask k : lo <= c -> (forall j, lo <= j -> S j = S' j) ->
  first_fit S c mask k -> first_fit S' c mask k.
Proof.
  intros Hlo He (Hck & Ha & Hlow). split; [done|]. split; [by rewrite <- He by lia|].
  intros j Hj. rewrite <- He by lia. by apply Hlow.
Qed.

Lemma extraLoop_spec mask n : in_u8 mask -> mask <> 0 -> forall w cur c S b,
  wf w cur -> cur <= c -> (forall j, cur <= j -> slot w cur j = S j) -> quiet S b ->
  Z.max c b + Z.of_nat n < cur + 2 ^ 31 ->
  exists w' S', extraLoop n w cur c mask = Ok (w', cur) /\ wf w' cur /\
    extra_slots mask n c S S' /\ (forall j, cur <= j -> slot w' cur j = S' j) /\
    occupancy w' = occupancy w.
Proof.
  intros Hm Hm0. induction n as [|n IH]; intros w cur c S b Hwf Hc HS Hq Hb; cbn [extraLoop].
  { exists w, S. split_and!; try done. apply extra_nil. }
  unfold scheduleInternal. cbn [mbind res_bind mret res_ret].
  destruct (window_place_spec false false w cur c mask Hwf Hm ltac:(done) ltac:(lia) Hm0)
    as (w1 & k & -> & [P1 P2 P3 P4 P5 P6]). cbn [mbind res_bind mret res_ret].
  rewrite Z.max_l in P1 by lia. cbn [taken] in P3.
  pose proof (first_fit_ext _ S c cur mask k Hc HS P1) as P1'.
  pose proof (first_fit_quiet _ _ _ _ _ Hm Hm0 Hq P1') as Hkb.
  assert (Hck : c <= k) by by destruct P1.
  set (S1 := <[k := mkWC (Z.lor (occUnits (S k)) mask) (count (S k))]> S : Z -> WinCycle).
  destruct (IH w1 cur (k + 1) S1 (Z.max b (k + 1))) as (w' & S' & -> & Q1 & Q2 & Q3 & Q4); try done.
  - lia.
  - intros j Hj. rewrite P3 by done. unfold S1. case_decide; subst.
    + rewrite fn_lookup_insert. by rewrite (HS k) by lia.
    + rewrite fn_lookup_insert_ne by done. by apply HS.
  - intros j Hj. unfold S1. rewrite fn_lookup_insert_ne by lia. apply Hq. lia.
  - lia.
  - exists w', S'. split_and!; try done.
    + by eapply extra_cons.
    + rewrite Q4, P4. cbn. lia.
Qed.

(** How far a full window moves the current cycle: past the first cycle with uops. *)
Definition room_at (w : Window) (cur cur' : Z) : Prop :=
  if occupancy w <? WSZ then cur' = cur
  else cur < cur' /\ 0 < count (slot w cur (cur' - 1)) /\
    forall j, cur <= j < cur' - 1 -> count (slot w cur j) = 0.

Lemma roomy_at w cur w' cur' : wf w cur -> roomy w cur w' cur' -> room_at w cur cur' /\ cur <= cur'.
Proof.
  intros Hwf [R1 R2 R3 R4 R5 R6]. pose proof (wf_room w cur Hwf). unfold room_at.
  destruct (Z.ltb_spec (occupancy w) WSZ) as [Hl|Hg].
  - destruct (R4 Hl) as [-> _]. split; [done|lia].
  - destruct (R5 ltac:(lia)) as (? & ? & ? & _). split; [done|lia].
Qed.

Lemma room_at_quiet w cur cur' b : quiet (slot w cur) b -> room_at w cur cur' ->
  cur' <= Z.max cur b.
Proof.
  intros Hq. unfold room_at. destruct (Z.ltb_spec (occupancy w) WSZ); [lia|].
  intros (Hlt & Hc & _). apply Z.nlt_ge. intros Hb. rewrite Hq in Hc by lia. by cbn in Hc.
Qed.

Lemma taken_touch mask wc p : p = ffs (avail wc mask) - 1 ->
  taken true mask wc = mkWC (Z.lor (occUnits wc) (2 ^ p)) (count wc + 1).
Proof. by intros ->. Qed.

(** The table after a uop took cycle [k], in terms of the table before. *)
Definition takes_slot (w : Window) (cur sched mask extra : Z) (w' : Window) (cur' k : Z) : Prop :=
  room_at w cur cur' /\
  first_fit (slot w cur) (Z.max sched cur') mask k /\
  exists p S', first_port (slot w cur k) mask p /\
    extra_slots (2 ^ p) (Z.to_nat extra) (k + 1)
      (<[k := mkWC (Z.lor (occUnits (slot w cur k)) (2 ^ p)) (count (slot w cur k) + 1)]>
         (slot w cur)) S' /\
    forall j, cur' <= j -> slot w' cur' j = S' j.

Lemma schedule_spec w cur sched mask extra b :
  wf w cur -> in_u8 mask -> mask <> 0 -> in_u8 extra ->
  quiet (slot w cur) b -> Z.max sched b < cur + 2 ^ 30 ->
  exists w' cur' k, schedule w cur sched mask extra = Ok (w', cur', k) /\ wf w' cur' /\
    takes_slot w cur sched mask extra w' cur' k.
Proof.
  intros Hwf Hm Hm0 Hx Hq Hb. unfold in_u8 in Hx. unfold schedule, scheduleInternal.
  destruct (waitRoom_spec (drainFuel w cur) w cur Hwf) as (w1 & cur' & -> & HR).
  { intros Hf. apply busy_slot; [done|lia]. }
  destruct (roomy_at _ _ _ _ Hwf HR) as [Hrm Hcc]. pose proof (room_at_quiet _ _ _ _ Hq Hrm) as Hcb.
  destruct HR as [R1 R2 R3 _ _ _]. cbn [mbind res_bind].
  destruct (window_place_spec true (negb (extra =? 0)) w1 cur' sched mask R1 Hm ltac:(done) ltac:(lia) Hm0)
    as (w2 & k & -> & [P1 P2 P3 P4 P5 P6]). cbn [mbind res_bind mret res_ret].
  assert (Hfit : first_fit (slot w cur) (Z.max sched cur') mask k).
  { eapply first_fit_ext; [|exact R3|exact P1]. lia. }
  pose proof (first_fit_quiet _ _ _ _ _ Hm Hm0 Hq Hfit) as Hkb.
  assert (Hck : Z.max sched cur' <= k) by by destruct Hfit.
  rewrite (R3 k) in P3, P6 by lia. unfold port_after in P6. cbn [andb] in P6.
  set (p := ffs (avail (slot w cur k) mask) - 1) in *.
  assert (Hp : first_port (slot w cur k) mask p) by (apply ffs_first_port; [done|by destruct Hfit as (_ & ? & _)]).
  assert (Hp8 : 0 <= p < 8) by by destruct Hp.
  rewrite (taken_touch mask _ p) in P3 by done. clearbody p.
  set (S1 := <[k := mkWC (Z.lor (occUnits (slot w cur k)) (2 ^ p)) (count (slot w cur k) + 1)]> (slot w cur)).
  assert (HS1 : forall j, cur' <= j -> slot w2 cur' j = S1 j).
  { intros j Hj. rewrite P3 by done. unfold S1. case_decide; subst.
    - by rewrite fn_lookup_insert.
    - rewrite fn_lookup_insert_ne by done. by apply R3. }
  destruct (Z.eqb_spec extra 0) as [->|Hne].
  { change (Z.to_nat 0) with O. cbn [extraLoop mbind res_bind mret res_ret].
    rewrite (proj2 (Z.leb_le _ _)) by (destruct P2; lia). cbn [assert_that].
    exists w2, cur', k. split; [done|]. split; [done|]. split; [done|]. split; [done|].
    exists p, S1. split; [done|]. split; [apply extra_nil|done]. }
  cbn [negb] in P6. rewrite P6, Z.shiftl_1_l.
  assert (0 < 2 ^ p <= 2 ^ 7) by (split; [apply Z.pow_pos_nonneg|apply Z.pow_le_mono_r]; lia).
  rewrite u8_id by (unfold in_u8; lia).
  destruct (extraLoop_spec (2 ^ p) (Z.to_nat extra) ltac:(unfold in_u8; lia) ltac:(lia)
    w2 cur' (k + 1) S1 (Z.max b (k + 1)) P2 ltac:(lia) HS1) as (w3 & S' & -> & Q1 & Q2 & Q3 & Q4).
  { intros j Hj. unfold S1. rewrite fn_lookup_insert_ne by lia. apply Hq. lia. }
  { lia. }
  cbn [mbind res_bind mret res_ret].
  rewrite (proj2 (Z.leb_le _ _)) by (destruct Q1; lia). cbn [assert_that].
  exists w3, cur', k. split; [done|]. split; [done|]. split; [done|]. split; [done|].
  by exists p, S'.
Qed.

(** C9: scheduling a uop takes the first cycle, from the wanted one and the current one
    on, with a free port among those of its mask, and there the lowest free port; its
    extra slots take that port in the first free cycles after it.  Every other cycle keeps
    its ports.  The current cycle only moves when the window is full, past the first cycle
    with uops, and the window never holds more than [WSZ] uops. *)
Theorem window_schedule w cur sched mask extra b :
  wf w cur -> in_u8 mask -> mask <> 0 -> in_u8 extra ->
  quiet (slot w cur) b -> Z.max sched b < cur + 2 ^ 30 ->
  exists w' cur' k p S',
    schedule w cur sched mask extra = Ok (w', cur', k) /\ wf w' cur' /\
    room_at w cur cur' /\
    first_fit (slot w cur) (Z.max sched cur') mask k /\
    first_port (slot w cur k) mask p /\
    extra_slots (2 ^ p) (Z.to_nat extra) (k + 1)
      (<[k := mkWC (Z.lor (occUnits (slot w cur k)) (2 ^ p)) (count (slot w cur k) + 1)]>
         (slot w cur)) S' /\
    forall j, cur' <= j -> slot w' cur' j = S' j.
Proof.
  intros Hwf Hm Hm0 Hx Hq Hb.
  destruct (schedule_spec w cur sched mask extra b Hwf Hm Hm0 Hx Hq Hb)
    as (w' & cur' & k & E & Hw & Hr & Hf & p & S' & Hp & He & Hs).
  by exists w', cur', k, p, S'.
Qed.

(** ** Long advances *)

Lemma ubMove_suffix horizon cur ub : forall next ub' next',
  ubMove horizon cur ub next = Ok (ub', next') -> exists far, ub = far ++ ub'.
Proof.
  induction ub as [|[k wc] ub IH]; intros next ub' next'; cbn [ubMove].
  { intros [= <- <-]. by exists []. }
  destruct (k <? horizon).
  - destruct (assert_that _); [|done]. cbn. intros E. destruct (IH _ _ _ E) as (far & ->).
    by exists ((k, wc) :: far).
  - intros [= <- <-]. by exists [].
Qed.

Lemma advancePos_ub w cur w' cur' : advancePos w cur = Ok (w', cur') ->
  exists far, ubWin w = far ++ ubWin w'.
Proof.
  unfold advancePos. destruct (_ =? H).
  - rewrite bind_Ok. intros ([ub next] & E & [= <- <-]). by eapply ubMove_suffix.
  - intros [= <- <-]. by exists [].
Qed.

Lemma drain_spec n : forall w cur target, wf w cur -> cur <= target -> target - cur <= Z.of_nat n ->
  exists w' cur', drain n w cur target = Ok (w', cur') /\ wf w' cur' /\ cur <= cur' <= target /\
    (occupancy w' = 0 \/ cur' = target) /\
    (forall j, cur' <= j -> slot w' cur' j = slot w cur j) /\
    (exists far, ubWin w = far ++ ubWin w').
Proof.
  induction n as [|n IH]; intros w cur target Hwf Hc Hn; cbn [drain].
  - assert (cur = target) as <- by lia. rewrite Z.ltb_irrefl, andb_false_r.
    exists w, cur. split_and!; first [done|lia|by exists []].
  - destruct (Z.eqb_spec (occupancy w) 0) as [Ho|Ho]; cbn [negb andb].
    { exists w, cur. split_and!; first [done|lia|by exists []]. }
    destruct (Z.ltb_spec cur target) as [Hlt|Hge].
    2: { exists w, cur. split_and!; first [done|lia|by exists []]. }
    destruct (advancePos_spec w cur Hwf) as (w1 & E & [A1 A2 A3 A4]). rewrite E. cbn [mbind res_bind].
    destruct (IH w1 (cur + 1) target A1 ltac:(lia) ltac:(lia))
      as (w' & cur' & -> & B1 & B2 & B3 & B4 & (far & B5)).
    exists w', cur'. split_and!; try done; try lia.
    + intros j Hj. rewrite B4 by done. apply A2. lia.
    + destruct (advancePos_ub w cur w1 _ E) as (far' & ->). exists (far' ++ far).
      by rewrite B5, app_assoc.
Qed.

Lemma drained_counts w cur : wf w cur -> occupancy w = 0 ->
  (forall j, cur - curPos w <= j -> count (slot w cur j) = 0) /\
  Forall (fun e => count e.2 = 0) (ubWin w).
Proof.
  intros Hwf H0. destruct (all_ok w cur Hwf) as (O1 & O2 & O3). pose proof Hwf as [L1 L2 Hp _ Hs _ _ Hocc _ _].
  pose proof (counts_nonneg _ O1). pose proof (counts_nonneg _ O2). pose proof (counts_nonneg _ O3).
  unfold total in Hocc.
  assert (forall l e, Forall slot_ok l -> counts l = 0 -> e ∈ l -> count e = 0) as Hz.
  { intros l e Hok Hc He. pose proof (counts_elem e l Hok He).
    pose proof (proj1 (list.Forall_forall _ _) Hok e He) as [_ ?]. lia. }
  assert (Hub : Forall (fun e => count e.2 = 0) (ubWin w)).
  { apply list.Forall_forall. intros e He. apply (Hz (ubWin w).*2); [done|lia|].
    apply list_elem_of_fmap. by exists e. }
  split; [|done]. intros j Hj. unfold slot.
  destruct (Z.ltb_spec (j - cur + curPos w) H).
  { eapply Hz; [exact O1|lia|]. apply list_elem_of_lookup_total_2. lia. }
  destruct (Z.ltb_spec (j - cur + curPos w) (2 * H)).
  { eapply Hz; [exact O2|lia|]. apply list_elem_of_lookup_total_2. lia. }
  clear -Hub. induction Hub as [|[k wc] l Hk _ IH]; cbn; [done|]. destruct (k =? j); [exact Hk|exact IH].
Qed.

(** No cycle past the two arrays holds only extra slots. *)
Definition no_far_shadows (w : Window) : Prop := Forall (fun e => 0 < count e.2) (ubWin w).

Lemma longAdvance_spec w cur target :
  wf w cur -> no_far_shadows w -> cur <= target ->
  exists w' d, longAdvance w cur target = Ok (w', target) /\ wf w' target /\
    cur <= d <= target /\
    (forall j, target <= j -> slot w' target j = slot w cur (j - (target - d))) /\
    (d < target -> forall j, d <= j -> count (slot w cur j) = 0).
Proof.
  intros Hwf Hns Hc. unfold longAdvance. rewrite (proj2 (Z.leb_le _ _) Hc). cbn [assert_that mbind res_bind].
  destruct (drain_spec (Z.to_nat (target - cur)) w cur target Hwf Hc ltac:(lia))
    as (w' & d & -> & B1 & B2 & B3 & B4 & (far & B5)). cbn [mbind res_bind].
  destruct (Z.eqb_spec (occupancy w') 0) as [H0|H0]; cbn [negb].
  - rewrite (proj2 (Z.leb_le _ _)) by lia. cbn. exists w', d.
    destruct (drained_counts w' d B1 H0) as [Hz Hub].
    assert (Hnil : ubWin w' = []).
    { unfold no_far_shadows in Hns. rewrite B5 in Hns. apply Forall_app in Hns as [_ Hns].
      destruct (ubWin w') as [|e l]; [done|]. inversion Hns; inversion Hub; subst. lia. }
    split_and!; try done; try lia.
    + destruct B1 as [L1 L2 Hp Hpast Hs Hfar Hok Hocc Hroom Hport]. split; try done.
      by rewrite Hnil.
    + intros j Hj. rewrite <- B4 by lia. unfold slot. rewrite Hnil.
      by replace (j - (target - d) - d + curPos w') with (j - target + curPos w') by lia.
    + intros _ j Hj. rewrite <- B4 by done. apply Hz. pose proof (wf_pos w' d B1). lia.
  - destruct B3 as [| ->]; [done|]. rewrite Z.eqb_refl. cbn. exists w', target.
    split_and!; try done; try lia.
    intros j Hj. rewrite Z.sub_diag, Z.sub_0_r. by apply B4.
Qed.

(** A long advance ends exactly at its target and trips no assertion.  It drops the
    cycles before the target; when the window drains first, at [d], it jumps, and what is
    left of the table, extra slots only, moves along with the current cycle. *)
Theorem window_longAdvance w cur target :
  wf w cur -> no_far_shadows w -> cur <= target ->
  exists w' d, longAdvance w cur target = Ok (w', target) /\ wf w' target /\
    cur <= d <= target /\
    (forall j, target <= j -> slot w' target j = slot w cur (j - (target - d))) /\
    (d < target -> forall j, d <= j -> count (slot w cur j) = 0).
Proof.
  apply longAdvance_spec.
Qed.

Lemma window_new_wf : wf new 0.
Proof.
  split; cbn; try done; try lia; rewrite ?length_replicate; try done.
  - constructor.
  - rewrite app_nil_r, Forall_app. split; apply Forall_replicate, zero_ok.
  - unfold total; cbn. rewrite !counts_replicate. done.
Qed.

Lemma new_slot j : slot new 0 j = zero.
Proof.
  assert (forall n i, replicate n zero !!! i = zero) as Hr.
  { induction n as [|n IH]; intros [|i]; try done. apply IH. }
  unfold slot; cbn. by repeat case_match.
Qed.

(** ** Backpressure *)

Record poisoned (mask : Z) (w : Window) (cur : Z) (w' : Window) : Prop := {
  po_wf : wf w' cur;
  po_occ : occupancy w' = occupancy w;
  po_slot : forall j, cur <= j -> slot w' cur j = slot w cur j \/
    slot w' cur j = mkWC (Z.lor (occUnits (slot w cur j)) mask) (count (slot w cur j))
}.

Lemma poisonLoop_spec mask target n : in_u8 mask -> mask <> 0 -> forall w cur c,
  wf w cur -> cur <= c -> target < cur + 2 ^ 31 ->
  (c < target -> target - c + (if decide (avail (slot w cur c) mask = 0) then 0 else 1)
                 <= Z.of_nat n) ->
  (forall j, cur <= j < c -> avail (slot w cur j) mask = 0) ->
  exists w', poisonLoop n w cur c target mask = Ok (w', cur) /\ poisoned mask w cur w' /\
    (forall j, cur <= j < target -> avail (slot w' cur j) mask = 0).
Proof.
  intros Hm Hm0. induction n as [|n IH]; intros w cur c Hwf Hc Ht Hn Hlow; cbn [poisonLoop];
    destruct (Z.ltb_spec c target) as [Hlt|Hge].
  1: { specialize (Hn Hlt). case_decide; lia. }
  1, 3: exists w; (split_and!; [done| |intros j Hj; apply Hlow; lia]); by split; auto.
  unfold scheduleInternal. cbn [mbind res_bind mret res_ret].
  destruct (window_place_spec false false w cur c mask Hwf Hm ltac:(done) ltac:(lia) Hm0)
    as (w1 & k & -> & [P1 P2 P3 P4 P5 P6]). cbn [mbind res_bind mret res_ret].
  rewrite Z.max_l in P1 by lia. cbn [taken] in P3. destruct P1 as (Hck & Hka & Hkl).
  assert (Hk1 : avail (slot w1 cur k) mask = 0).
  { apply avail_0; [pose proof (wf_pos w1 cur P2); by apply slot_all_ok; [|lia]|done|].
    intros p Hp Hpm. rewrite P3, decide_True by first [lia|done]. cbn.
    by rewrite Z.lor_spec, Hpm, orb_true_r. }
  destruct (IH w1 cur k P2 ltac:(lia) Ht) as (w' & -> & [Q1 Q2 Q3] & Q4).
  - intros Hkt. specialize (Hn Hlt). rewrite (decide_True _ _ Hk1). case_decide; [|lia].
    destruct (decide (k = c)) as [->|]; [done|lia].
  - intros j Hj. rewrite P3, decide_False by lia. destruct (decide (j < c)); [apply Hlow; lia|].
    apply Hkl. lia.
  - exists w'. split_and!; try done. split; [done|rewrite Q2, P4; cbn; lia|].
    intros j Hj. specialize (P3 j Hj). destruct (Q3 j Hj) as [-> | ->]; rewrite P3;
      case_decide; subst; auto.
    right. cbn. by rewrite <- Z.lor_assoc, Z.lor_diag.
Qed.

Lemma poisonRange_spec mask w cur target : in_u8 mask -> mask <> 0 -> wf w cur ->
  target < cur + 2 ^ 31 ->
  exists w', poisonRange w cur target mask = Ok w' /\ poisoned mask w cur w' /\
    (forall j, cur <= j < target -> avail (slot w' cur j) mask = 0).
Proof.
  intros Hm Hm0 Hwf Ht. unfold poisonRange.
  destruct (poisonLoop_spec mask target (Z.to_nat (target - cur + 1)) Hm Hm0 w cur cur Hwf)
    as (w' & -> & Hp); [lia|done|case_decide; lia|lia|].
  cbn [mbind res_bind]. rewrite Z.eqb_refl. by exists w'.
Qed.

End Window.

Lemma window_schedule_witness :
  exists w' cur' k p S',
    schedule 1024 36 (new 1024) 0 5 35 2 = Ok (w', cur', k) /\ wf 1024 36 w' cur' /\
    room_at 1024 36 (new 1024) 0 cur' /\
    first_fit (slot 1024 (new 1024) 0) (Z.max 5 cur') 35 k /\
    first_port (slot 1024 (new 1024) 0 k) 35 p /\
    extra_slots (2 ^ p) 2 (k + 1)
      (<[k := mkWC (Z.lor (occUnits (slot 1024 (new 1024) 0 k)) (2 ^ p))
                (count (slot 1024 (new 1024) 0 k) + 1)]> (slot 1024 (new 1024) 0)) S' /\
    forall j, cur' <= j -> slot 1024 w' cur' j = S' j.
Proof.
  apply (window_schedule 1024 36 ltac:(lia) ltac:(lia) (new 1024) 0 5 35 2 0).
  - apply window_new_wf; lia.
  - done.
  - done.
  - done.
  - intros j _. by apply new_slot.
  - lia.
Defined.

(** Three uops of one port in a window of two: the third waits for the first. *)
Definition three_uops (H WSZ : Z) : res (Window * Z * Z) :=
  '(w, cur, _) ← schedule H WSZ (new H) 0 3 1 0;
  '(w, cur, _) ← schedule H WSZ w cur 3 1 0;
  schedule H WSZ w cur 0 1 0.

Example three_uops_run :
  ('(w, cur, k) ← three_uops 4 2; mret (occupancy w, cur, k)) = Ok (2, 4, 5).
Proof. vm_compute. reflexivity. Qed.

Lemma window_longAdvance_witness :
  exists w' d, longAdvance 4 (new 4) 0 9 = Ok (w', 9) /\ wf 4 2 w' 9 /\
    0 <= d <= 9 /\
    (forall j, 9 <= j -> slot 4 w' 9 j = slot 4 (new 4) 0 (j - (9 - d))) /\
    (d < 9 -> forall j, d <= j -> count (slot 4 (new 4) 0 j) = 0).
Proof.
  apply (window_longAdvance 4 2 ltac:(lia) ltac:(lia) (new 4) 0 9).
  - apply window_new_wf; lia.
  - constructor.
  - lia.
Defined.

(** What [no_far_shadows] excludes: nine uops of one port with 255 extra slots each leave
    extra slots more than two windows ahead; after they run and the core jumps to cycle
    3000, the rebase finds these cycles in its past and trips its assertion.  (The decoder
    gives a uop at most 62 extra slots.) *)
Definition stale_uops : res (Window * Z) :=
  '(w, cur) ← foldM (fun s c => '(w, cur, _) ← schedule 1024 36 s.1 s.2 c 1 255; mret (w, cur))
               (new 1024, 0) (rev (seqZ 1 9));
  longAdvance 1024 w cur 3000.

Example stale_slots_assert :
  is_ok stale_uops /\
  (s ← stale_uops; foldM (fun s _ => advancePos 1024 s.1 s.2) s (seq 0 1024)) = Fail AssertFailed.
Proof.
  split; [|vm_compute; reflexivity].
  assert ((_ ← stale_uops; mret true) = Ok true) as Hs by (vm_compute; reflexivity).
  destruct stale_uops as [s|]; [by exists s|done].
Qed.

End Window.
