(* ===== verification/OooParts.v ===== *)
(** The smaller structures of the out-of-order core (ooo_core.h): the two-level branch
    predictor, the reorder buffer (also the load and store queues) and the queue of issue
    cycles.  A read or write past the end of an array is [None]: C++ leaves it undefined. *)
From Stdlib Require Import Sorted.
From S2P Require Import Prelude Hash.
Import Bits.

(** ** BranchPredictorPAg *)

Module BranchPredictorPAg.

Record BranchPredictor := mkBP {
  bhsr : list Z; (* [2^NB] shift registers of [HB] bits *)
  pht : list Z   (* [2^LB] counters *)
}.

Section BranchPredictor.
Context (NB HB LB : Z).

Definition new : BranchPredictor :=
  mkBP (replicate (Z.to_nat (2 ^ NB)) 0) (replicate (Z.to_nat (2 ^ LB)) 1).

Definition bhsrIdx (branchPc : Z) : Z := Z.land (u32 (Z.shiftr branchPc 1)) (2 ^ NB - 1).

(** The shift-XOR-mask of the history. *)
Definition phtIdx (hist : Z) : Z :=
  let phtMask := 2 ^ LB - 1 in
  Z.land (Z.lxor hist (Z.shiftr (Z.land hist (2 ^ 32 - 1 - phtMask)) (HB - LB))) phtMask.

Definition next_counter (c : Z) (taken : bool) : Z :=
  let pred := 1 <? c in
  if taken then (if pred then 3 else c + 1) else (if pred then c - 1 else 0).

Definition next_history (h : Z) (taken : bool) : Z :=
  Z.lor (Z.land (u32 (Z.shiftl h 1)) (2 ^ HB - 1)) (if taken then 1 else 0).

(** [predict]: [false] if the branch was mispredicted. *)
Definition predict (b : BranchPredictor) (branchPc : Z) (taken : bool)
    : option (BranchPredictor * bool) :=
  let i := Z.to_nat (bhsrIdx branchPc) in
  h ← bhsr b !! i;
  let j := Z.to_nat (phtIdx h) in
  c ← pht b !! j;
  let pred := 1 <? c in
  Some (mkBP (<[i := next_history h taken]> (bhsr b)) (<[j := u8 (next_counter c taken)]> (pht b)),
        Bool.eqb taken pred).

Record wf (b : BranchPredictor) : Prop := {
  wf_bhsr : length (bhsr b) = Z.to_nat (2 ^ NB);
  wf_pht : length (pht b) = Z.to_nat (2 ^ LB);
  wf_hist : Forall (fun h => 0 <= h < 2 ^ HB) (bhsr b);
  wf_count : Forall (fun c => 0 <= c <= 3) (pht b)
}.

(** The [static_assert]s, and histories that fit their [uint32_t]. *)
Hypothesis widths : 0 <= NB <= LB /\ LB <= HB /\ HB < 32.

Lemma pow_pos n : 0 <= n -> 0 < 2 ^ n.
Proof. intros Hn. apply Z.pow_pos_nonneg; lia. Qed.

Lemma predictor_new_wf : wf new.
Proof.
  split; cbn; rewrite ?length_replicate; try done; apply Forall_replicate; [|lia].
  split; [done|apply pow_pos; lia].
Qed.

Lemma mask_range n x : 0 <= n -> 0 <= Z.land x (2 ^ n - 1) < 2 ^ n.
Proof. intros Hn. rewrite land_mask_mod by done. by apply mod_range. Qed.

Lemma bhsrIdx_range pc : 0 <= bhsrIdx pc < 2 ^ NB.
Proof. apply mask_range. lia. Qed.

Lemma phtIdx_range h : 0 <= phtIdx h < 2 ^ LB.
Proof. apply mask_range. lia. Qed.

Lemma next_counter_sat c taken : 0 <= c <= 3 ->
  next_counter c taken = if taken then Z.min 3 (c + 1) else Z.max 0 (c - 1).
Proof. intros Hc. unfold next_counter. destruct (Z.ltb_spec 1 c), taken; lia. Qed.

Lemma lor_bit x (b : bool) : Z.lor (2 * x) (if b then 1 else 0) = 2 * x + (if b then 1 else 0).
Proof.
  destruct b; [|by rewrite Z.lor_0_r, Z.add_0_r].
  assert (Z.land (2 * x) 1 = 0) as H0.
  { change 1 with (Z.ones 1) at 1. rewrite Z.land_ones by lia. change (2 ^ 1) with 2.
    rewrite Z.mul_comm. by apply Z.mod_mul. }
  by rewrite Z.add_nocarry_lxor, Z.lxor_lor by done.
Qed.

Lemma next_history_shift h taken : 0 <= h < 2 ^ HB -> 0 < HB ->
  next_history h taken = (2 * h + (if taken then 1 else 0)) mod 2 ^ HB.
Proof.
  intros Hh HB0. unfold next_history. rewrite Z.shiftl_mul_pow2 by lia.
  assert (2 ^ HB <= 2 ^ 31) by (apply Z.pow_le_mono_r; lia).
  rewrite u32_id by (unfold in_u32; lia). rewrite land_mask_mod by lia.
  replace HB with (Z.succ (HB - 1)) by lia. rewrite Z.pow_succ_r by lia.
  set (m := 2 ^ (HB - 1)). assert (0 < m) by (apply pow_pos; lia).
  rewrite (Z.mul_comm h (2 ^ 1)). change (2 ^ 1) with 2.
  rewrite Zmult_mod_distr_l, lor_bit.
  pose proof (Z.mod_pos_bound h m ltac:(lia)).
  rewrite (Z.div_mod h m) at 2 by lia.
  replace (2 * (m * (h / m) + h mod m) + (if taken then 1 else 0))
    with (2 * (h mod m) + (if taken then 1 else 0) + h / m * (2 * m)) by ring.
  rewrite Z.mod_add by lia. symmetry. apply Z.mod_small. destruct taken; lia.
Qed.

Lemma next_history_range h taken : 0 <= h < 2 ^ HB -> 0 < HB -> 0 <= next_history h taken < 2 ^ HB.
Proof. intros Hh H0. rewrite next_history_shift by done. apply mod_range. lia. Qed.

(** One prediction, in a well-formed state. *)
Lemma predict_spec b pc taken : wf b -> 0 < HB ->
  exists h c, bhsr b !! Z.to_nat (bhsrIdx pc) = Some h /\ 0 <= h < 2 ^ HB /\
    pht b !! Z.to_nat (phtIdx h) = Some c /\ 0 <= c <= 3 /\
    predict b pc taken = Some
      (mkBP (<[Z.to_nat (bhsrIdx pc) := (2 * h + (if taken then 1 else 0)) mod 2 ^ HB]> (bhsr b))
            (<[Z.to_nat (phtIdx h) := if taken then Z.min 3 (c + 1) else Z.max 0 (c - 1)]> (pht b)),
       Bool.eqb taken (1 <? c)).
Proof.
  intros [L1 L2 Hh Hc] H0. pose proof (bhsrIdx_range pc).
  assert (is_Some (bhsr b !! Z.to_nat (bhsrIdx pc))) as [h Eh] by (apply lookup_lt_is_Some; lia).
  pose proof (phtIdx_range h).
  assert (is_Some (pht b !! Z.to_nat (phtIdx h))) as [c Ec] by (apply lookup_lt_is_Some; lia).
  pose proof (proj1 (Forall_lookup _ _) Hh _ _ Eh) as Hh1. cbn in Hh1.
  pose proof (proj1 (Forall_lookup _ _) Hc _ _ Ec) as Hc1. cbn in Hc1.
  exists h, c. split_and!; try done; try lia. unfold predict. rewrite Eh. cbn. rewrite Ec. cbn.
  rewrite next_history_shift, next_counter_sat by done.
  rewrite u8_id; [done|]. unfold in_u8. destruct taken; lia.
Qed.

Lemma predict_wf b pc taken b' ok : wf b -> 0 < HB ->
  predict b pc taken = Some (b', ok) -> wf b'.
Proof.
  intros Hw H0. destruct (predict_spec b pc taken Hw H0) as (h & c & Eh & Hh & Ec & Hc & ->).
  intros [= <- <-]. destruct Hw as [L1 L2 Fh Fc]. split; cbn; rewrite ?length_insert; try done.
  - apply Forall_insert; [done|]. apply mod_range. lia.
  - apply Forall_insert; [done|]. destruct taken; lia.
Qed.

(** The runs of a program's branches. *)
Fixpoint predicts (b : BranchPredictor) (l : list (Z * bool)) : option (BranchPredictor * list bool) :=
  match l with
  | [] => Some (b, [])
  | (pc, taken) :: l =>
      '(b, ok) ← predict b pc taken;
      '(b, oks) ← predicts b l;
      Some (b, ok :: oks)
  end.

(** The predictor never reads or writes past its arrays; its counters stay between 0
    and 3 and its histories within [HB] bits, whatever branches it is given. *)
Theorem predictor_well_typed l : 0 < HB ->
  exists b oks, predicts new l = Some (b, oks) /\ wf b /\ length oks = length l.
Proof.
  intros H0. cut (forall b, wf b ->
    exists b' oks, predicts b l = Some (b', oks) /\ wf b' /\ length oks = length l).
  { intros Hc. apply Hc, predictor_new_wf. }
  induction l as [|[pc taken] l IH]; intros b Hw; cbn [predicts].
  { by exists b, []. }
  destruct (predict b pc taken) as [[b1 ok]|] eqn:E.
  2: { destruct (predict_spec b pc taken Hw H0) as (h & c & _ & _ & _ & _ & E'). congruence. }
  cbn. destruct (IH b1 (predict_wf _ _ _ _ _ Hw H0 E)) as (b' & oks & -> & Hw' & Hl).
  exists b', (ok :: oks). split_and!; try done. cbn. by rewrite Hl.
Qed.

(** *** Learning *)

(** [n] runs of one branch that always goes the same way, and the outcome of the next. *)
Lemma hist_run h n (taken : bool) : 0 <= h < 2 ^ HB -> 0 <= n < HB ->
  h mod 2 ^ n = (if taken then 2 ^ n - 1 else 0) ->
  (2 * h + (if taken then 1 else 0)) mod 2 ^ HB mod 2 ^ (n + 1) =
  if taken then 2 ^ (n + 1) - 1 else 0.
Proof.
  intros Hh Hn Hm. pose proof (pow_pos n ltac:(lia)).
  rewrite Z.mod_mod_divide.
  2: { exists (2 ^ (HB - (n + 1))). rewrite <- Z.pow_add_r by lia. f_equal. lia. }
  rewrite Z.pow_add_r by lia. change (2 ^ 1) with 2.
  rewrite (Z.div_mod h (2 ^ n)) by lia. rewrite Hm.
  destruct taken.
  - replace (2 * (2 ^ n * (h / 2 ^ n) + (2 ^ n - 1)) + 1)
      with (2 ^ n * 2 - 1 + h / 2 ^ n * (2 ^ n * 2)) by ring.
    rewrite Z.mod_add by lia. rewrite Z.mod_small; lia.
  - replace (2 * (2 ^ n * (h / 2 ^ n) + 0) + 0) with (h / 2 ^ n * (2 ^ n * 2)) by ring.
    by rewrite Z.mod_mul by lia.
Qed.

Definition full_history (taken : bool) : Z := if taken then 2 ^ HB - 1 else 0.

(** What [n] runs of a branch at [pc], always [taken] or never, have taught. *)
Record learnt (pc : Z) (taken : bool) (n : Z) (b : BranchPredictor) : Prop := {
  le_wf : wf b;
  le_hist : exists h, bhsr b !! Z.to_nat (bhsrIdx pc) = Some h /\ 0 <= h < 2 ^ HB /\
    (n <= HB -> h mod 2 ^ n = if taken then 2 ^ n - 1 else 0) /\
    (HB <= n -> h = full_history taken);
  le_count : exists c, pht b !! Z.to_nat (phtIdx (full_history taken)) = Some c /\
    (HB <= n -> if taken then Z.min 3 (n - HB) <= c else c <= Z.max 0 (3 - (n - HB)))
}.

Lemma full_history_range taken : 0 <= full_history taken < 2 ^ HB.
Proof. pose proof (pow_pos HB ltac:(lia)). unfold full_history. destruct taken; lia. Qed.

Lemma full_history_step (taken : bool) : 0 < HB ->
  (2 * full_history taken + (if taken then 1 else 0)) mod 2 ^ HB = full_history taken.
Proof.
  intros H0. pose proof (pow_pos HB ltac:(lia)). unfold full_history. destruct taken.
  - replace (2 * (2 ^ HB - 1) + 1) with (2 ^ HB - 1 + 1 * 2 ^ HB) by ring.
    rewrite Z.mod_add by lia. apply Z.mod_small. lia.
  - apply Z.mod_0_l. lia.
Qed.

Lemma learnt_0 pc taken b : wf b -> 0 < HB -> learnt pc taken 0 b.
Proof.
  intros Hw H0. split; [done| |].
  - destruct (predict_spec b pc taken Hw H0) as (h & _ & Eh & Hh & _). exists h.
    split_and!; try done; try lia. intros _. rewrite Z.mod_1_r. by destruct taken.
  - destruct Hw as [_ L2 _ Hc]. pose proof (phtIdx_range (full_history taken)).
    assert (is_Some (pht b !! Z.to_nat (phtIdx (full_history taken)))) as [c Ec]
      by (apply lookup_lt_is_Some; lia).
    exists c. split; [done|lia].
Qed.

Lemma learnt_step pc taken n b : 0 < HB -> 0 <= n -> learnt pc taken n b ->
  exists b' ok, predict b pc taken = Some (b', ok) /\ learnt pc taken (n + 1) b' /\
    (HB + 2 <= n -> ok = true).
Proof.
  intros H0 Hn [Hw (h0 & Eh0 & Hh0 & Hlow & Hfull) (c0 & Ec0 & Hcnt)].
  destruct (predict_spec b pc taken Hw H0) as (h & c & Eh & Hh & Ec & Hc & E).
  rewrite Eh in Eh0. injection Eh0 as <-. eexists _, _. split; [exact E|].
  pose proof (lookup_lt_Some _ _ _ Eh). pose proof (lookup_lt_Some _ _ _ Ec).
  split; [split; cbn|].
  - by eapply predict_wf.
  - eexists. rewrite list_lookup_insert_eq by done. split; [done|].
    split; [apply mod_range; lia|]. split.
    + intros Hle. apply hist_run; [done|lia|]. apply Hlow. lia.
    + intros Hge. destruct (decide (HB <= n)) as [Hg|Hg].
      * rewrite (Hfull Hg). by apply full_history_step.
      * assert (n + 1 = HB) as Heq by lia.
        pose proof (hist_run h n taken Hh ltac:(lia) (Hlow ltac:(lia))) as Hr.
        rewrite Heq, Zmod_mod in Hr. exact Hr.
  - destruct (decide (HB <= n)) as [Hg|Hg].
    + rewrite <- (Hfull Hg) in *. rewrite Ec in Ec0. injection Ec0 as <-.
      eexists. rewrite list_lookup_insert_eq by done. split; [done|]. intros _.
      specialize (Hcnt Hg). destruct taken; lia.
    + set (c1 := if taken then Z.min 3 (c + 1) else Z.max 0 (c - 1)).
      assert (0 <= c1 <= 3) by (unfold c1; destruct taken; lia). clearbody c1.
      assert (exists c2, <[Z.to_nat (phtIdx h) := c1]> (pht b)
        !! Z.to_nat (phtIdx (full_history taken)) = Some c2 /\ 0 <= c2 <= 3) as (c2 & E2 & Hc2).
      { destruct (decide (Z.to_nat (phtIdx h) = Z.to_nat (phtIdx (full_history taken)))) as [<-|Hne].
        - exists c1. by rewrite list_lookup_insert_eq.
        - exists c0. rewrite list_lookup_insert_ne by done. split; [done|].
          by apply (proj1 (Forall_lookup _ _) (wf_count b Hw) _ _ Ec0). }
      exists c2. split; [done|]. intros Hge. destruct taken; lia.
  - intros Hge. specialize (Hcnt ltac:(lia)). rewrite <- (Hfull ltac:(lia)) in *.
    rewrite Ec in Ec0. injection Ec0 as <-.
    destruct taken, (Z.ltb_spec 1 c); try done; lia.
Qed.

(** A branch that always goes the same way, run on its own, is mispredicted at most in
    its first [HB + 2] runs. *)
Theorem predictor_learns b pc taken m : wf b -> 0 < HB ->
  exists b' oks, predicts b (replicate m (pc, taken)) = Some (b', oks) /\
    forall i, HB + 2 <= i < Z.of_nat m -> oks !! Z.to_nat i = Some true.
Proof.
  intros Hw H0. cut (forall m n b, 0 <= n -> learnt pc taken n b ->
    exists b' oks, predicts b (replicate m (pc, taken)) = Some (b', oks) /\
      forall i, HB + 2 <= n + i -> 0 <= i < Z.of_nat m -> oks !! Z.to_nat i = Some true).
  { intros Hc. destruct (Hc m 0 b ltac:(lia) (learnt_0 pc taken b Hw H0)) as (b' & oks & E & Hi).
    exists b', oks. split; [done|]. intros i Hi'. apply Hi; lia. }
  clear m b Hw. induction m as [|m IH]; intros n b Hn Hl; cbn [replicate predicts].
  { exists b, []. split; [done|]. lia. }
  destruct (learnt_step pc taken n b H0 Hn Hl) as (b1 & ok & -> & Hl1 & Hok).
  destruct (IH (n + 1) b1 ltac:(lia) Hl1) as (b' & oks & E & Hi). cbn. rewrite E.
  exists b', (ok :: oks). split; [done|]. intros i Hge Hi'.
  destruct (decide (i = 0)) as [->|]; [change (Some ok = Some true); f_equal; apply Hok; lia|].
  replace (Z.to_nat i) with (S (Z.to_nat (i - 1))) by lia. cbn. apply Hi; lia.
Qed.
End BranchPredictor.

Lemma predictor_well_typed_witness :
  exists b oks, predicts 11 18 14 (new 11 14) [(4198400, true); (4198400, false)] = Some (b, oks) /\
    wf 11 18 14 b /\ length oks = 2%nat.
Proof. apply (predictor_well_typed 11 18 14 ltac:(lia) [(4198400, true); (4198400, false)]). lia. Defined.

Lemma predictor_learns_witness :
  exists b' oks, predicts 11 18 14 (new 11 14) (replicate 30 (4198400, true)) = Some (b', oks) /\
    forall i, 18 + 2 <= i < Z.of_nat 30 -> oks !! Z.to_nat i = Some true.
Proof. apply (predictor_learns 11 18 14); [lia|apply predictor_new_wf; lia|lia]. Defined.

End BranchPredictorPAg.

(** ** A ring of the last [SZ] values

    The buffers are written in turn; [log] is everything written so far. *)

Record ring (SZ : Z) (log buf : list Z) (idx : Z) : Prop := {
  ring_len : length buf = Z.to_nat SZ;
  ring_idx : idx = Z.of_nat (length log) mod SZ;
  ring_last : forall n, 0 <= n < Z.of_nat (length log) -> Z.of_nat (length log) - SZ <= n ->
    buf !!! Z.to_nat (n mod SZ) = log !!! Z.to_nat n;
  ring_rest : forall i, Z.of_nat (length log) <= i < SZ -> buf !!! Z.to_nat i = 0
}.

(** The value written [SZ] writes ago, or 0. *)
Definition oldest (SZ : Z) (log : list Z) : Z :=
  if Z.of_nat (length log) <? SZ then 0 else log !!! Z.to_nat (Z.of_nat (length log) - SZ).

Section ring.
Context (SZ : Z) (SZ_pos : 0 < SZ).

Lemma ring_new : ring SZ [] (replicate (Z.to_nat SZ) 0) 0.
Proof.
  split; cbn.
  - apply length_replicate.
  - by rewrite Z.mod_0_l by lia.
  - lia.
  - intros i Hi. by rewrite lookup_total_replicate_2 by lia.
Qed.

Lemma ring_oldest log buf idx : ring SZ log buf idx -> buf !!! Z.to_nat idx = oldest SZ log.
Proof.
  intros [Hl -> Hlast Hrest]. unfold oldest. destruct (Z.ltb_spec (Z.of_nat (length log)) SZ).
  - rewrite Z.mod_small by lia. apply Hrest. lia.
  - rewrite <- Hlast by lia. do 2 f_equal.
    rewrite <- (Z.mod_add (Z.of_nat (length log) - SZ) 1) by lia. f_equal. lia.
Qed.

Lemma ring_mod_window m n : m - SZ < n < m -> n mod SZ <> m mod SZ.
Proof.
  intros Hn Heq. pose proof (Z.div_mod n SZ ltac:(lia)). pose proof (Z.div_mod m SZ ltac:(lia)).
  destruct (Z.le_gt_cases (m / SZ) (n / SZ)); nia.
Qed.

Lemma ring_write log buf idx x : ring SZ log buf idx ->
  ring SZ (log ++ [x]) (<[Z.to_nat idx := x]> buf) (if idx + 1 =? SZ then 0 else idx + 1).
Proof.
  intros [Hl -> Hlast Hrest]. set (m := Z.of_nat (length log)) in *.
  pose proof (Z.mod_pos_bound m SZ SZ_pos) as Hb. pose proof (Z.div_mod m SZ ltac:(lia)) as Hd.
  assert (Hlen : Z.of_nat (length (log ++ [x])) = m + 1) by (rewrite length_app; cbn; lia).
  split; rewrite ?Hlen.
  - by rewrite length_insert.
  - destruct (Z.eqb_spec (m mod SZ + 1) SZ) as [He|He].
    + replace (m + 1) with (0 + (m / SZ + 1) * SZ) by lia.
      by rewrite Z.mod_add, Z.mod_0_l by lia.
    + replace (m + 1) with (m mod SZ + 1 + m / SZ * SZ) by lia.
      rewrite Z.mod_add by lia. symmetry. apply Z.mod_small. lia.
  - intros n Hn Hge. destruct (decide (n = m)) as [->|Hne].
    + rewrite list_lookup_total_insert_eq by lia. unfold m. by rewrite Nat2Z.id, list_lookup_total_middle.
    + pose proof (Z.mod_pos_bound n SZ SZ_pos).
      assert (n mod SZ <> m mod SZ) by (apply ring_mod_window; lia).
      rewrite list_lookup_total_insert_ne by lia.
      rewrite lookup_total_app_l by lia. apply Hlast; lia.
  - intros i Hi. rewrite list_lookup_total_insert_ne; [apply Hrest; lia|].
    rewrite Z.mod_small by lia. lia.
Qed.
End ring.

(** ** ReorderBuffer *)

Module ReorderBuffer.

Record rob := mkRob {
  buf : list Z;
  curRetireCycle : Z;
  curCycleRetires : Z;
  idx : Z
}.

Section ReorderBuffer.
Context (SZ W : Z).

Definition new : rob := mkRob (replicate (Z.to_nat SZ) 0) 0 1 0.

Definition minAllocCycle (r : rob) : Z := buf r !!! Z.to_nat (idx r).

Definition markRetire (minRetireCycle : Z) (r : rob) : rob :=
  let '(cycle, retires) :=
    if minRetireCycle <=? curRetireCycle r then
      if curCycleRetires r =? W then (curRetireCycle r + 1, 0)
      else (curRetireCycle r, curCycleRetires r + 1)
    else (minRetireCycle, 1) in
  mkRob (<[Z.to_nat (idx r) := cycle]> (buf r)) cycle retires
    (if idx r + 1 =? SZ then 0 else idx r + 1).

(** A run of retirements, and the cycle of each. *)
Fixpoint retire_all (r : rob) (l : list Z) : rob * list Z :=
  match l with
  | [] => (r, [])
  | m :: l =>
      let r := markRetire m r in
      let '(r', log) := retire_all r l in (r', curRetireCycle r :: log)
  end.

(** How many of [log] retire in cycle [c]. *)
Definition retired_in (c : Z) (log : list Z) : Z := Z.of_nat (length (filter (fun x => x = c) log)).

(** The state after [log] was retired. *)
Record inv (log : list Z) (r : rob) : Prop := {
  inv_ring : ring SZ log (buf r) (idx r);
  inv_max : Forall (fun c => c <= curRetireCycle r) log;
  inv_cur : retired_in (curRetireCycle r) log <= curCycleRetires r + 1;
  inv_width : forall c, retired_in c log <= W + 1;
  inv_retires : 0 <= curCycleRetires r <= W
}.

Hypothesis SZ_pos : 0 < SZ.
Hypothesis W_pos : 0 < W.

Lemma retired_in_snoc c log x :
  retired_in c (log ++ [x]) = retired_in c log + (if decide (x = c) then 1 else 0).
Proof.
  unfold retired_in. rewrite filter_app, length_app, filter_cons, filter_nil.
  case_decide; cbn; lia.
Qed.

Lemma retired_in_above c log : Forall (fun x => x < c) log -> retired_in c log = 0.
Proof.
  unfold retired_in. induction 1 as [|x log Hx _ IH]; [done|].
  rewrite filter_cons, decide_False by lia. exact IH.
Qed.

Lemma rob_new_inv : inv [] new.
Proof.
  split; cbn; try done; [by apply ring_new| |lia].
  intros c. unfold retired_in. cbn. lia.
Qed.

Lemma markRetire_inv log m r : inv log r ->
  let r' := markRetire m r in
  inv (log ++ [curRetireCycle r']) r' /\ m <= curRetireCycle r' /\ curRetireCycle r <= curRetireCycle r'.
Proof.
  intros [Hring Hmax Hcur Hw Hret]. cbv zeta.
  set (r' := markRetire m r).
  assert (buf r' = <[Z.to_nat (idx r) := curRetireCycle r']> (buf r) /\
    idx r' = if idx r + 1 =? SZ then 0 else idx r + 1) as [Eb Ei].
  { unfold r', markRetire. by repeat case_match; simplify_eq/=. }
  assert (m <= curRetireCycle r' /\ curRetireCycle r <= curRetireCycle r' /\
    0 <= curCycleRetires r' <= W /\
    retired_in (curRetireCycle r') log <= curCycleRetires r') as (Hm & Hge & Hr' & Hc').
  { unfold r', markRetire. destruct (Z.leb_spec m (curRetireCycle r)) as [Hle|Hgt].
    - destruct (Z.eqb_spec (curCycleRetires r) W); cbn.
      + rewrite retired_in_above; [lia|]. eapply Forall_impl; [exact Hmax|cbn; lia].
      + lia.
    - cbn. rewrite retired_in_above; [lia|]. eapply Forall_impl; [exact Hmax|cbn; lia]. }
  clearbody r'. split; [|done]. split; try done.
  - rewrite Eb, Ei. by apply ring_write.
  - apply Forall_app. split; [|by repeat constructor]. eapply Forall_impl; [exact Hmax|cbn; lia].
  - rewrite retired_in_snoc, decide_True by done. lia.
  - intros c. rewrite retired_in_snoc. case_decide; [subst; lia|]. specialize (Hw c). lia.
Qed.

Lemma retire_all_inv l : forall log r, inv log r ->
  let '(r', rs) := retire_all r l in
  inv (log ++ rs) r' /\ Forall2 (fun m c => m <= c) l rs /\
  Forall (fun c => curRetireCycle r <= c) rs /\ StronglySorted Z.le rs.
Proof.
  induction l as [|m l IH]; intros log r Hi; cbn.
  { rewrite app_nil_r. split_and!; try done; constructor. }
  destruct (markRetire_inv log m r Hi) as (Hi1 & Hm & Hge). cbv zeta in *.
  specialize (IH _ _ Hi1). destruct (retire_all (markRetire m r) l) as [r' rs].
  destruct IH as (J1 & J2 & J3 & J4). rewrite <- app_assoc in J1.
  split; [done|]. split; [by constructor|]. split; [|by constructor].
  constructor; [done|]. eapply Forall_impl; [exact J3|cbn; lia].
Qed.

(** A bundle: [n] uops that may retire at once, while the cycle has room for them. *)
Lemma retire_bundle n : forall r, 0 <= curRetireCycle r ->
  0 <= curCycleRetires r -> curCycleRetires r + Z.of_nat n <= W ->
  exists r', retire_all r (replicate n 0) = (r', replicate n (curRetireCycle r)) /\
    curRetireCycle r' = curRetireCycle r /\ curCycleRetires r' = curCycleRetires r + Z.of_nat n.
Proof.
  induction n as [|n IH]; intros r Hc H0 Hn; cbn [replicate retire_all].
  { exists r. split_and!; [done..|lia]. }
  assert (curRetireCycle (markRetire 0 r) = curRetireCycle r /\
    curCycleRetires (markRetire 0 r) = curCycleRetires r + 1) as [E1 E2].
  { unfold markRetire. rewrite (proj2 (Z.leb_le _ _)), (proj2 (Z.eqb_neq _ _)) by lia. done. }
  destruct (IH (markRetire 0 r)) as (r' & E & F1 & F2); [lia..|]. rewrite E, E1.
  exists r'. split_and!; [done|congruence|lia].
Qed.

Lemma retire_all_app r l1 l2 :
  retire_all r (l1 ++ l2) =
  let '(r1, a) := retire_all r l1 in let '(r2, b) := retire_all r1 l2 in (r2, a ++ b).
Proof.
  revert r. induction l1 as [|m l1 IH]; intros r; cbn; [by destruct (retire_all r l2)|].
  rewrite IH. destruct (retire_all (markRetire m r) l1) as [r1 a]. by destruct (retire_all r1 l2).
Qed.

Lemma retired_in_replicate c n : retired_in c (replicate n c) = Z.of_nat n.
Proof.
  unfold retired_in. induction n as [|n IH]; [done|]. cbn [replicate].
  rewrite filter_cons, decide_True by done. cbn [length]. lia.
Qed.

Lemma retired_in_app c l1 l2 : retired_in c (l1 ++ l2) = retired_in c l1 + retired_in c l2.
Proof. unfold retired_in. rewrite filter_app, length_app. lia. Qed.

Lemma too_wide : retired_in 1 (retire_all new (replicate (2 * Z.to_nat W) 0)).2 = W + 1.
Proof.
  replace (2 * Z.to_nat W)%nat with ((Z.to_nat W - 1) + (1 + Z.to_nat W))%nat by lia.
  rewrite !replicate_add, retire_all_app.
  destruct (retire_bundle (Z.to_nat W - 1) new) as (r1 & -> & C1 & R1); [cbn; lia..|].
  cbn in C1, R1. rewrite retire_all_app. cbn [replicate retire_all].
  assert (curRetireCycle (markRetire 0 r1) = 1 /\ curCycleRetires (markRetire 0 r1) = 0) as [E1 E2].
  { unfold markRetire. rewrite C1, (proj2 (Z.eqb_eq _ _)) by lia. done. }
  destruct (retire_bundle (Z.to_nat W) (markRetire 0 r1)) as (r2 & -> & _ & _); [lia..|].
  cbn [snd]. rewrite E1, !retired_in_app. cbn [curRetireCycle new].
  rewrite retired_in_replicate. rewrite (retired_in_above 1 (replicate (Z.to_nat W - 1) 0)).
  { change (retired_in 1 [1]) with 1. lia. }
  apply Forall_replicate. lia.
Qed.

(** Uops retire in program order, none before it may, and a uop finds its entry free
    when the uop [SZ] places before it has retired.  A cycle retires one uop more than the
    width [W]: the counter restarts at 0, not 1, for the uop that opens a new cycle. *)
Theorem rob_correct l :
  let '(r, rs) := retire_all new l in
  Forall2 (fun m c => m <= c) l rs /\ StronglySorted Z.le rs /\
  minAllocCycle r = oldest SZ rs /\
  (forall c, retired_in c rs <= W + 1) /\
  retired_in 1 (retire_all new (replicate (2 * Z.to_nat W) 0)).2 = W + 1.
Proof.
  pose proof (retire_all_inv l [] new rob_new_inv) as Hi. destruct (retire_all new l) as [r rs].
  destruct Hi as ([Hring _ _ Hw _] & H2 & _ & Hs). cbn [app] in *.
  split_and!; try done; [|apply too_wide]. by apply ring_oldest.
Qed.
End ReorderBuffer.

Lemma rob_correct_witness :
  let '(r, rs) := retire_all 6 4 (new 6) [3; 1; 1; 7; 2; 2; 2; 9] in
  rs = [3; 3; 3; 7; 7; 7; 7; 9] /\
  Forall2 (fun m c => m <= c) [3; 1; 1; 7; 2; 2; 2; 9] rs /\ StronglySorted Z.le rs /\
  minAllocCycle r = oldest 6 rs /\
  (forall c, retired_in c rs <= 4 + 1) /\
  retired_in 1 (retire_all 6 4 (new 6) (replicate (2 * Z.to_nat 4) 0)).2 = 4 + 1.
Proof.
  split; [reflexivity|]. exact (rob_correct 6 4 ltac:(lia) ltac:(lia) [3; 1; 1; 7; 2; 2; 2; 9]).
Defined.
End ReorderBuffer.

(** ** CycleQueue *)

Module CycleQueue.

Record queue := mkQueue { buf : list Z; idx : Z }.

Section CycleQueue.
Context (SZ : Z).

Definition new : queue := mkQueue (replicate (Z.to_nat SZ) 0) 0.
Definition minAllocCycle (q : queue) : Z := buf q !!! Z.to_nat (idx q).
Definition markLeave (leaveCycle : Z) (q : queue) : queue :=
  mkQueue (<[Z.to_nat (idx q) := leaveCycle]> (buf q)) (if idx q + 1 =? SZ then 0 else idx q + 1).

Lemma queue_oldest l : 0 < SZ ->
  minAllocCycle (foldl (fun q c => markLeave c q) new l) = oldest SZ l.
Proof.
  intros Hs. cut (ring SZ l (buf (foldl (fun q c => markLeave c q) new l))
    (idx (foldl (fun q c => markLeave c q) new l))).
  { intros Hr. by apply ring_oldest. }
  induction l as [|c l IH] using rev_ind; [by apply ring_new|].
  rewrite foldl_snoc. by apply ring_write.
Qed.
End CycleQueue.
End CycleQueue.
