(* ===== verification/OooCore.v ===== *)
(** The out-of-order core (ooo_core.h and ooo_core.cpp): the timing of the uops of a basic
    block through decode, issue, dispatch and retirement, its loads and stores, and the
    fetches of the next block.  The filter caches, the recorder and the barrier are behind
    the interface [CorePorts].  The registers of the scoreboard are numbered by the Pin
    headers, so the scoreboard is a function.  An index past an array, undefined in C++,
    is a failure here. *)
From S2P Require Import Prelude Effects Window OooParts.

Module OooCore.

(** ** decoder.h: what the decoder gives the core *)

Inductive UopType := UOP_GENERAL | UOP_LOAD | UOP_STORE | UOP_STORE_ADDR | UOP_FENCE.

Record DynUop := mkUop {
  rs0 : Z; rs1 : Z;
  rd0 : Z; rd1 : Z;
  lat : Z;
  decCycle : Z;
  utype : UopType;
  portMask : Z;
  extraSlots : Z
}.

Record DynBbl := mkBbl { uop : list DynUop; bblApprox : Z }.
(** core.h *)
Record BblInfo := mkInfo { binstrs : Z; bytes : Z; oooBbl : DynBbl }.

(** The stages and limits. *)
Definition FETCH_STAGE := 1.
Definition DECODE_STAGE := 4.
Definition ISSUE_STAGE := 7.
Definition DISPATCH_STAGE := 13.
Definition L1D_LAT := 4.
Definition FETCH_BYTES_PER_CYCLE := 16.
Definition ISSUES_PER_CYCLE := 4.
Definition RF_READS_PER_CYCLE := 3.
Definition FWD_ENTRIES := 32.
Definition H := 1024.
Definition WSZ := 36.

(** ** The core's state, in groups *)

(** Issue and dispatch. *)
Record pipe := mkPipe {
  curCycle : Z;
  decodeCycle : Z;
  curCycleRFReads : Z;
  curCycleIssuedUops : Z;
  insWindow : Window.Window;
  uopQueue : CycleQueue.queue
}.

(** Registers and retirement. *)
Record backend := mkBack {
  regScoreboard : Z -> Z;
  rob : ReorderBuffer.rob
}.

(** Loads and stores. *)
Record lsu := mkLsu {
  loadQueue : ReorderBuffer.rob;
  storeQueue : ReorderBuffer.rob;
  lastStoreCommitCycle : Z;
  lastStoreAddrCommitCycle : Z;
  fwdArray : list (Z * Z) (* addr, storeCycle *)
}.

(** The memory operations of the block that ran. *)
Record memops := mkOps {
  loadAddrs : list Z;
  storeAddrs : list Z;
  loads : Z;
  stores : Z
}.

(** The branch that ended the block that ran. *)
Record frontend := mkFront {
  branchPred : BranchPredictorPAg.BranchPredictor;
  branchPc : Z; (* 0 if the last block did not end in a conditional branch *)
  branchTaken : bool;
  branchTakenNpc : Z;
  branchNotTakenNpc : Z
}.

Record stats := mkStats { instrs : Z; uops : Z; bbls : Z; approxInstrs : Z; mispredBranches : Z }.

Record core := mkCore {
  cpipe : pipe;
  cback : backend;
  clsu : lsu;
  cops : memops;
  cfront : frontend;
  cstats : stats;
  prevBbl : option BblInfo;
  phaseEndCycle : Z
}.

Definition NOADDR : Z := 2 ^ 64 - 1.

Definition new (phaseLength : Z) : core :=
  mkCore (mkPipe 0 DECODE_STAGE 0 0 (Window.new H) (CycleQueue.new 28))
    (mkBack (fun _ => 0) (ReorderBuffer.new 128))
    (mkLsu (ReorderBuffer.new 32) (ReorderBuffer.new 32) 0 0
       (replicate (Z.to_nat FWD_ENTRIES) (NOADDR, 0)))
    (mkOps (replicate 256 0) (replicate 256 0) 0 0)
    (mkFront (BranchPredictorPAg.new 11 14) 0 false 0 0)
    (mkStats 0 0 0 0 0) None phaseLength.

(** ** The interface of the core: filter caches, recorder *)

Class CorePorts (Env : Type) := {
  l1i_load : Z -> Z -> prog Env Z;
  l1d_load : Z -> Z -> prog Env Z;
  l1d_store : Z -> Z -> prog Env Z;
  contextSwitch_caches : prog Env unit;
  rec_record : Z -> Z -> Z -> prog Env unit;
  rec_notifyJoin : Z -> prog Env Z;
  rec_notifyLeave : Z -> prog Env unit;
  rec_cSimStart : Z -> prog Env Z;
  rec_cSimEnd : Z -> prog Env Z
}.

Section OooCore.
Context {Env : Type} {ports : CorePorts Env}.

(** ** Memory operations of the running block *)

Definition array_set (l : list Z) (i x : Z) : res (list Z) :=
  _ ← assert_that (bool_decide (0 <= i < Z.of_nat (length l)));
  mret (<[Z.to_nat i := x]> l).
Definition array_get (l : list Z) (i : Z) : res Z :=
  _ ← assert_that (bool_decide (0 <= i < Z.of_nat (length l)));
  mret (l !!! Z.to_nat i).

Definition load (addr : Z) (m : memops) : res memops :=
  l ← array_set (loadAddrs m) (loads m) addr;
  mret (mkOps l (storeAddrs m) (loads m + 1) (stores m)).
Definition store (addr : Z) (m : memops) : res memops :=
  l ← array_set (storeAddrs m) (stores m) addr;
  mret (mkOps (loadAddrs m) l (loads m) (stores m + 1)).
(** [predFalseMemOp]: stores too are recorded as loads. *)
Definition predFalseMemOp (m : memops) : res memops := load NOADDR m.

(** [PredLoadFunc], [PredStoreFunc]. *)
Definition predLoad (addr : Z) (pred : bool) (m : memops) : res memops :=
  if pred then load addr m else predFalseMemOp m.
Definition predStore (addr : Z) (pred : bool) (m : memops) : res memops :=
  if pred then store addr m else predFalseMemOp m.

Definition branch (pc : Z) (taken : bool) (takenNpc notTakenNpc : Z) (f : frontend) : frontend :=
  mkFront (branchPred f) pc taken takenNpc notTakenNpc.

(** ** The stages of a uop *)

Fixpoint advance_n (n : nat) (w : Window.Window) (cur : Z) : res (Window.Window * Z) :=
  match n with
  | O => mret (w, cur)
  | S n => '(w, cur) ← Window.advancePos H w cur; advance_n n w cur
  end.

(** Decode stalls. *)
Definition decode (u : DynUop) (prevDecCycle : Z) (p : pipe) : res pipe :=
  let decDiff := u32 (decCycle u - prevDecCycle) in
  let dec := Z.max (decodeCycle p + decDiff) (CycleQueue.minAllocCycle (uopQueue p)) in
  p ← (if curCycle p <? dec then
         '(w, cur) ← advance_n (Z.to_nat (u32 (dec - curCycle p))) (insWindow p) (curCycle p);
         mret (mkPipe cur dec 0 0 w (uopQueue p))
       else mret (mkPipe (curCycle p) dec (curCycleRFReads p) (curCycleIssuedUops p)
                    (insWindow p) (uopQueue p)));
  mret (mkPipe (curCycle p) (decodeCycle p) (curCycleRFReads p) (curCycleIssuedUops p)
          (insWindow p) (CycleQueue.markLeave 28 (curCycle p) (uopQueue p))).

(** The issue width. *)
Definition issue (p : pipe) : res pipe :=
  p ← (if ISSUES_PER_CYCLE <=? curCycleIssuedUops p then
         '(w, cur) ← Window.advancePos H (insWindow p) (curCycle p);
         mret (mkPipe cur (decodeCycle p) 0 0 w (uopQueue p))
       else mret p);
  mret (mkPipe (curCycle p) (decodeCycle p) (curCycleRFReads p) (curCycleIssuedUops p + 1)
          (insWindow p) (uopQueue p)).

(** Register file reads: sources that are not forwarded. *)
Definition readRegs (c0 c1 : Z) (p : pipe) : res pipe :=
  let reads := curCycleRFReads p + (if c0 <? curCycle p then 1 else 0)
               + (if c1 <? curCycle p then 1 else 0) in
  if RF_READS_PER_CYCLE <? reads then
    '(w, cur) ← Window.advancePos H (insWindow p) (curCycle p);
    mret (mkPipe cur (decodeCycle p) (reads - RF_READS_PER_CYCLE) 0 w (uopQueue p))
  else mret (mkPipe (curCycle p) (decodeCycle p) reads (curCycleIssuedUops p) (insWindow p)
               (uopQueue p)).

(** Dispatch: the cycle the window gives the uop. *)
Definition dispatch (u : DynUop) (cOps c2 : Z) (p : pipe) : res (pipe * Z) :=
  let c3 := curCycle p in
  let dispatchCycle := Z.max cOps (Z.max c2 c3 + (DISPATCH_STAGE - ISSUE_STAGE)) in
  '(w, cur, d) ← Window.schedule H WSZ (insWindow p) c3 dispatchCycle (portMask u) (extraSlots u);
  mret (if c3 <? cur then mkPipe cur (decodeCycle p) 0 0 w (uopQueue p)
        else mkPipe cur (decodeCycle p) (curCycleRFReads p) (curCycleIssuedUops p) w (uopQueue p), d).

(** The cycles a block's loop carries. *)
Record carried := mkCarried {
  loadIdx : Z;
  storeIdx : Z;
  prevDecCycle : Z;
  lastCommitCycle : Z
}.

Definition fwdIdx (addr : Z) : nat := Z.to_nat (Z.land (Z.shiftr addr 2) (FWD_ENTRIES - 1)).

(** [UOP_LOAD]: when it commits. *)
Definition do_load (addr cur dispatchCycle : Z) (l : lsu) : prog Env (lsu * Z) :=
  let d := Z.max (lastStoreAddrCommitCycle l + 1)
             (Z.max (ReorderBuffer.minAllocCycle (loadQueue l)) dispatchCycle) in
  req ← (if negb (addr =? NOADDR) then
           r ← l1d_load addr d;
           let satisfied := r + L1D_LAT in
           _ ← rec_record cur d satisfied;
           mret satisfied
         else mret d);
  let '(fa, fc) := fwdArray l !!! fwdIdx addr in
  let commit := if fa =? addr then Z.max req fc else req in
  mret (mkLsu (ReorderBuffer.markRetire 32 4 commit (loadQueue l)) (storeQueue l)
          (lastStoreCommitCycle l) (lastStoreAddrCommitCycle l) (fwdArray l), commit).

(** [UOP_STORE]. *)
Definition do_store (addr cur dispatchCycle : Z) (l : lsu) : prog Env (lsu * Z) :=
  let d := Z.max (lastStoreAddrCommitCycle l + 1)
             (Z.max (ReorderBuffer.minAllocCycle (storeQueue l)) dispatchCycle) in
  r ← l1d_store addr d;
  let commit := r + L1D_LAT in
  _ ← rec_record cur d commit;
  mret (mkLsu (loadQueue l) (ReorderBuffer.markRetire 32 4 commit (storeQueue l))
          (Z.max (lastStoreCommitCycle l) commit) (lastStoreAddrCommitCycle l)
          (<[fwdIdx addr := (addr, commit)]> (fwdArray l)), commit).

Definition set_storeAddr (c : Z) (l : lsu) : lsu :=
  mkLsu (loadQueue l) (storeQueue l) (lastStoreCommitCycle l) c (fwdArray l).

(** The switch on the type of the uop. *)
Definition execute (u : DynUop) (m : memops) (v : carried) (cur d : Z) (l : lsu)
    : prog Env (lsu * Z * carried) :=
  match utype u with
  | UOP_GENERAL => mret (l, d + lat u, v)
  | UOP_LOAD =>
      addr ← lift (array_get (loadAddrs m) (loadIdx v));
      '(l, commit) ← do_load addr cur d l;
      mret (l, commit, mkCarried (loadIdx v + 1) (storeIdx v) (prevDecCycle v) (lastCommitCycle v))
  | UOP_STORE =>
      addr ← lift (array_get (storeAddrs m) (storeIdx v));
      '(l, commit) ← do_store addr cur d l;
      mret (l, commit, mkCarried (loadIdx v) (storeIdx v + 1) (prevDecCycle v) (lastCommitCycle v))
  | UOP_STORE_ADDR =>
      let commit := d + lat u in
      mret (set_storeAddr (Z.max (lastStoreAddrCommitCycle l) commit) l, commit, v)
  | UOP_FENCE =>
      let commit := d + lat u in
      mret (set_storeAddr (Z.max commit (Z.max (lastStoreAddrCommitCycle l)
              (lastStoreCommitCycle l + lat u))) l, commit, v)
  end.

(** The body of the loop over the block's uops. *)
Definition run_uop (m : memops) (s : pipe * backend * lsu * carried) (u : DynUop)
    : prog Env (pipe * backend * lsu * carried) :=
  let '(p, b, l, v) := s in
  p ← lift (decode u (prevDecCycle v) p);
  p ← lift (issue p);
  let regs := <[0 := curCycle p]> (regScoreboard b) in
  let c0 := regs (rs0 u) in
  let c1 := regs (rs1 u) in
  p ← lift (readRegs c0 c1 p);
  '(p, d) ← lift (dispatch u (Z.max c0 c1) (ReorderBuffer.minAllocCycle (rob b)) p);
  '(l, commit, v) ← execute u m v (curCycle p) d l;
  mret (p, mkBack (<[rd1 u := commit]> (<[rd0 u := commit]> regs))
             (ReorderBuffer.markRetire 128 4 commit (rob b)), l,
        mkCarried (loadIdx v) (storeIdx v) (decCycle u) commit).

(** ** The frontend: fetch of the block that comes *)

Section fetch.
Context (lineSize : Z).

(** Wrong-path fetches of a mispredicted branch, until the branch resolves. *)
Fixpoint wrongPath (n : nat) (i addr cur lastCommit reqCycle : Z) : prog Env unit :=
  match n with
  | O => mret tt
  | S n =>
      r ← l1i_load (u64 (addr + lineSize * i)) cur;
      let fetchLat := r - cur in
      _ ← rec_record cur cur (cur + fetchLat);
      let respCycle := reqCycle + fetchLat in
      if lastCommit <? respCycle then mret tt
      else wrongPath n (i + 1) addr cur lastCommit (respCycle + lineSize / FETCH_BYTES_PER_CYCLE)
  end.

(** The fetches of the block, one per line. *)
Fixpoint ifetch (fuel : nat) (fetchAddr endAddr cur fetchCycle : Z) : prog Env Z :=
  if fetchAddr <? endAddr then
    match fuel with
    | O => lift (Fail NoFuel)
    | S fuel =>
        r ← l1i_load fetchAddr cur;
        let fetchLat := r - cur in
        _ ← rec_record cur cur (cur + fetchLat);
        ifetch fuel (u64 (fetchAddr + lineSize)) endAddr cur (fetchCycle + fetchLat)
    end
  else mret fetchCycle.

(** Branch prediction; the cycle fetch restarts at, and whether the branch was missed. *)
Definition predictBranch (lastCommit cur fetchCycle : Z) (f : frontend)
    : prog Env (frontend * Z * bool) :=
  if negb (branchPc f =? 0) then
    match BranchPredictorPAg.predict 11 18 14 (branchPred f) (branchPc f) (branchTaken f) with
    | None => lift (Fail AssertFailed)
    | Some (bp, true) =>
        mret (mkFront bp 0 (branchTaken f) (branchTakenNpc f) (branchNotTakenNpc f), fetchCycle, false)
    | Some (bp, false) =>
        let addr := if branchTaken f then branchNotTakenNpc f else branchTakenNpc f in
        _ ← wrongPath (Z.to_nat (5 * 64 / lineSize)) 0 addr cur lastCommit fetchCycle;
        mret (mkFront bp 0 (branchTaken f) (branchTakenNpc f) (branchNotTakenNpc f), lastCommit, true)
    end
  else mret (mkFront (branchPred f) 0 (branchTaken f) (branchTakenNpc f) (branchNotTakenNpc f),
             fetchCycle, false).

(** The rest of [bbl] once the uops of the previous block have run: the new frontend,
    [decodeCycle], and whether the branch was mispredicted. *)
Definition fetchBbl (bblAddr : Z) (info : BblInfo) (lastCommit cur dec : Z) (f : frontend)
    : prog Env (frontend * Z * bool) :=
  '(f, fetchCycle, missed) ← predictBranch lastCommit cur (dec - (DECODE_STAGE - FETCH_STAGE)) f;
  fetchCycle ← ifetch (Z.to_nat (bytes info)) bblAddr (u64 (bblAddr + bytes info)) cur fetchCycle;
  mret (f, Z.max (dec + 1) (fetchCycle + (DECODE_STAGE - FETCH_STAGE)), missed).
End fetch.

(** ** A basic block *)

Definition set_decode (dec : Z) (p : pipe) : pipe :=
  mkPipe (curCycle p) dec (curCycleRFReads p) (curCycleIssuedUops p) (insWindow p) (uopQueue p).

Definition bbl (lineSize bblAddr : Z) (info : BblInfo) (c : core) : prog Env core :=
  match prevBbl c with
  | None =>
      mret (mkCore (cpipe c) (cback c) (clsu c)
              (mkOps (loadAddrs (cops c)) (storeAddrs (cops c)) 0 0)
              (cfront c) (cstats c) (Some info) (phaseEndCycle c))
  | Some prev =>
      let m := cops c in
      '(p, b, l, v) ← loop (run_uop m) (cpipe c, cback c, clsu c, mkCarried 0 0 0 0)
                       (uop (oooBbl prev));
      _ ← require (loadIdx v =? loads m);
      _ ← require (storeIdx v =? stores m);
      '(f, dec, missed) ← fetchBbl lineSize bblAddr info (lastCommitCycle v) (curCycle p)
                           (decodeCycle p) (cfront c);
      let st := cstats c in
      mret (mkCore (set_decode dec p) b l (mkOps (loadAddrs m) (storeAddrs m) 0 0) f
              (mkStats (u64 (instrs st + binstrs prev))
                 (u64 (uops st + Z.of_nat (length (uop (oooBbl prev))))) (u64 (bbls st + 1))
                 (u64 (approxInstrs st + bblApprox (oooBbl prev)))
                 (if (missed : bool) then u64 (mispredBranches st + 1) else mispredBranches st))
              (Some info) (phaseEndCycle c))
  end.

(** [BblFunc]: the barrier at the end of each phase the core has passed. [TakeBarrier]
    runs the rest of the simulator, which may come back to this core. *)
Section phases.
Context (phaseLength cid : Z) (takeBarrier : core -> prog Env (core * Z)).

Fixpoint phases (fuel : nat) (c : core) : prog Env core :=
  if phaseEndCycle c <? curCycle (cpipe c) then
    match fuel with
    | O => lift (Fail NoFuel)
    | S fuel =>
        let c := mkCore (cpipe c) (cback c) (clsu c) (cops c) (cfront c) (cstats c) (prevBbl c)
                   (phaseEndCycle c + phaseLength) in
        '(c, newCid) ← takeBarrier c;
        if newCid =? cid then phases fuel c else mret c
    end
  else mret c.
End phases.

(** ** Phases and context switches *)

Definition set_pipe (c : core) (p : pipe) : core :=
  mkCore p (cback c) (clsu c) (cops c) (cfront c) (cstats c) (prevBbl c) (phaseEndCycle c).

Definition advance (targetCycle : Z) (c : core) : res core :=
  let p := cpipe c in
  _ ← assert_that (curCycle p <? targetCycle);
  '(w, cur) ← Window.longAdvance H (insWindow p) (curCycle p) targetCycle;
  _ ← assert_that (targetCycle =? cur);
  mret (set_pipe c (mkPipe cur (decodeCycle p + (targetCycle - curCycle p)) 0 0 w (uopQueue p))).

Definition advance_to (targetCycle : Z) (c : core) : res core :=
  if curCycle (cpipe c) <? targetCycle then advance targetCycle c else mret c.

Definition join (globPhaseCycles phaseLength : Z) (c : core) : prog Env core :=
  targetCycle ← rec_notifyJoin (curCycle (cpipe c));
  c ← lift (advance_to targetCycle c);
  mret (mkCore (cpipe c) (cback c) (clsu c) (cops c) (cfront c) (cstats c) (prevBbl c)
          (globPhaseCycles + phaseLength)).

Definition leave (c : core) : prog Env core :=
  _ ← rec_notifyLeave (curCycle (cpipe c)); mret c.

Definition cSimStart (c : core) : prog Env core :=
  targetCycle ← rec_cSimStart (curCycle (cpipe c));
  _ ← require (curCycle (cpipe c) <=? targetCycle);
  lift (advance_to targetCycle c).

Definition cSimEnd (c : core) : prog Env core :=
  targetCycle ← rec_cSimEnd (curCycle (cpipe c));
  _ ← require (curCycle (cpipe c) <=? targetCycle);
  lift (advance_to targetCycle c).

Definition contextSwitch (gid : Z) (c : core) : prog Env core :=
  if gid =? -1 then
    _ ← contextSwitch_caches;
    mret (mkCore (cpipe c) (cback c) (clsu c) (cops c) (cfront c) (cstats c) None (phaseEndCycle c))
  else mret c.

Definition getPhaseCycles (phaseLength : Z) (c : core) : Z := curCycle (cpipe c) mod phaseLength.

(** ** Well-formed states

    [B] bounds every cycle the core has a record of.  The window keeps its delays in 32
    bits, so the theorems ask that nothing is [2^30] cycles ahead of the core. *)

Record queue_ok (B : Z) (q : CycleQueue.queue) : Prop := {
  qo_len : length (CycleQueue.buf q) = 28%nat;
  qo_idx : 0 <= CycleQueue.idx q < 28;
  qo_le : Forall (fun c => c <= B) (CycleQueue.buf q)
}.

Record rob_ok (SZ B : Z) (r : ReorderBuffer.rob) : Prop := {
  ro_len : length (ReorderBuffer.buf r) = Z.to_nat SZ;
  ro_idx : 0 <= ReorderBuffer.idx r < SZ;
  ro_cur : ReorderBuffer.curRetireCycle r <= B;
  ro_le : Forall (fun c => c <= B) (ReorderBuffer.buf r)
}.

Record pipe_ok (B : Z) (p : pipe) : Prop := {
  po_wf : Window.wf H WSZ (insWindow p) (curCycle p);
  po_quiet : Window.quiet (Window.slot H (insWindow p) (curCycle p)) B;
  po_cur : curCycle p <= B;
  po_dec : decodeCycle p <= B;
  po_rf : 0 <= curCycleRFReads p <= RF_READS_PER_CYCLE;
  po_issued : 0 <= curCycleIssuedUops p <= ISSUES_PER_CYCLE;
  po_queue : queue_ok B (uopQueue p)
}.

Record back_ok (B : Z) (b : backend) : Prop := {
  bo_regs : forall r, regScoreboard b r <= B;
  bo_rob : rob_ok 128 B (rob b)
}.

Record lsu_ok (B : Z) (l : lsu) : Prop := {
  lo_loads : rob_ok 32 B (loadQueue l);
  lo_stores : rob_ok 32 B (storeQueue l);
  lo_commit : lastStoreCommitCycle l <= B;
  lo_addr : lastStoreAddrCommitCycle l <= B;
  lo_len : length (fwdArray l) = Z.to_nat FWD_ENTRIES;
  lo_fwd : Forall (fun e => e.2 <= B) (fwdArray l)
}.

(** A uop of the decoder. *)
Record uop_ok (u : DynUop) : Prop := {
  uo_mask : in_u8 (portMask u) /\ portMask u <> 0;
  uo_extra : in_u8 (extraSlots u);
  uo_lat : 0 <= lat u < 2 ^ 16;
  uo_dec : 0 <= decCycle u < 2 ^ 16
}.

Lemma H_ok : 0 < H < 2 ^ 31.
Proof. unfold H. lia. Qed.
Lemma WSZ_ok : 0 < WSZ < 255.
Proof. unfold WSZ. lia. Qed.

Lemma Forall_le_mono (l : list Z) B B' : B <= B' -> Forall (fun c => c <= B) l ->
  Forall (fun c => c <= B') l.
Proof. intros Hb Hf. eapply Forall_impl; [exact Hf|cbn; lia]. Qed.

Lemma rob_ok_mono SZ B B' r : B <= B' -> rob_ok SZ B r -> rob_ok SZ B' r.
Proof. intros Hb [H1 H2 H3 H4]. split; try done; [lia|by eapply Forall_le_mono]. Qed.

Lemma minAlloc_le SZ B r : 0 < SZ -> rob_ok SZ B r -> ReorderBuffer.minAllocCycle r <= B.
Proof.
  intros Hs [H1 H2 H3 H4]. unfold ReorderBuffer.minAllocCycle.
  apply (Forall_lookup_total_1 (fun c => c <= B)); [done|lia].
Qed.

Lemma markRetire_ok SZ W B m r : 0 < SZ -> m <= B -> rob_ok SZ B r ->
  rob_ok SZ (B + 1) (ReorderBuffer.markRetire SZ W m r).
Proof.
  intros Hs Hm [H1 H2 H3 H4]. unfold ReorderBuffer.markRetire.
  set (cr := if _ <=? _ then _ else _). assert (cr.1 <= B + 1) as Hc.
  { unfold cr. repeat case_match; cbn; lia. }
  destruct cr as [c r']. cbn in Hc. split; cbn; try done.
  - by rewrite length_insert.
  - destruct (Z.eqb_spec (ReorderBuffer.idx r + 1) SZ); lia.
  - apply Forall_insert; [|done]. eapply Forall_le_mono; [|exact H4]. lia.
Qed.

Lemma queue_ok_mono B B' q : B <= B' -> queue_ok B q -> queue_ok B' q.
Proof. intros Hb [H1 H2 H3]. split; try done. by eapply Forall_le_mono. Qed.

Lemma queue_min_le B q : queue_ok B q -> CycleQueue.minAllocCycle q <= B.
Proof.
  intros [H1 H2 H3]. apply (Forall_lookup_total_1 (fun c => c <= B)); [done|lia].
Qed.

Lemma markLeave_ok B c q : c <= B -> queue_ok B q -> queue_ok B (CycleQueue.markLeave 28 c q).
Proof.
  intros Hc [H1 H2 H3]. split; cbn.
  - by rewrite length_insert.
  - destruct (Z.eqb_spec (CycleQueue.idx q + 1) 28); lia.
  - by apply Forall_insert.
Qed.

Lemma quiet_mono S b b' : b <= b' -> Window.quiet S b -> Window.quiet S b'.
Proof. intros Hb Hq j Hj. apply Hq. lia. Qed.

Lemma quiet_agree S S' c b : (forall j, c <= j -> S' j = S j) -> c <= b ->
  Window.quiet S b -> Window.quiet S' b.
Proof. intros Ha Hc Hq j Hj. rewrite Ha by lia. by apply Hq. Qed.

Lemma extra_slots_quiet mask n c S S' b : in_u8 mask -> mask <> 0 ->
  Window.extra_slots mask n c S S' -> Window.quiet S b -> Window.quiet S' (Z.max c b + Z.of_nat n).
Proof.
  intros Hm H0 Hx. revert b. induction Hx as [c S|n c S S' k Hf _ IH]; intros b Hq.
  { eapply quiet_mono; [|exact Hq]. lia. }
  pose proof (Window.first_fit_quiet _ _ _ _ _ Hm H0 Hq Hf) as Hk.
  assert (c <= k) by by destruct Hf.
  eapply quiet_mono; [|apply (IH (Z.max b (k + 1)))]; [lia|].
  intros j Hj. rewrite fn_lookup_insert_ne by lia. apply Hq. lia.
Qed.

(** ** The stages keep the pipe well-formed *)

Lemma advance_n_spec n : forall w cur, Window.wf H WSZ w cur ->
  exists w', advance_n n w cur = Ok (w', cur + Z.of_nat n) /\
    Window.wf H WSZ w' (cur + Z.of_nat n) /\
    forall j, cur + Z.of_nat n <= j ->
      Window.slot H w' (cur + Z.of_nat n) j = Window.slot H w cur j.
Proof.
  induction n as [|n IH]; intros w cur Hw; cbn [advance_n].
  { exists w. rewrite Z.add_0_r. done. }
  destruct (Window.advancePos_spec H WSZ H_ok WSZ_ok w cur Hw) as (w1 & -> & [A1 A2 _ _]). cbn [mbind res_bind].
  destruct (IH w1 (cur + 1) A1) as (w' & E & Hw' & Hs).
  replace (cur + 1 + Z.of_nat n) with (cur + Z.of_nat (S n)) in * by lia.
  exists w'. split; [done|]. split; [done|]. intros j Hj. rewrite Hs by done. apply A2. lia.
Qed.

Lemma advance1 w cur : Window.wf H WSZ w cur -> exists w', Window.advancePos H w cur = Ok (w', cur + 1) /\
  Window.wf H WSZ w' (cur + 1) /\
  forall j, cur + 1 <= j -> Window.slot H w' (cur + 1) j = Window.slot H w cur j.
Proof.
  intros Hw. destruct (Window.advancePos_spec H WSZ H_ok WSZ_ok w cur Hw) as (w1 & -> & [A1 A2 _ _]).
  exists w1. split; [done|]. split; [done|]. intros j Hj. apply A2. lia.
Qed.

Lemma decode_spec u prev B p : pipe_ok B p -> uop_ok u -> 0 <= prev <= decCycle u ->
  B + 2 ^ 16 < curCycle p + 2 ^ 31 ->
  exists p', decode u prev p = Ok p' /\ pipe_ok (B + 2 ^ 16) p' /\ curCycle p <= curCycle p' /\
    decodeCycle p' <= curCycle p'.
Proof.
  intros [Hw Hq Hc Hd Hrf Hi Hqu] [Hm Hx Hl Hdc] Hprev HB. unfold decode.
  rewrite (u32_id (decCycle u - prev)) by (unfold in_u32; lia).
  pose proof (queue_min_le _ _ Hqu) as Hmin.
  set (dec := Z.max _ _). assert (dec <= B + 2 ^ 16) by (unfold dec; lia).
  destruct (Z.ltb_spec (curCycle p) dec) as [Hlt|Hge].
  - rewrite u32_id by (unfold in_u32; lia).
    destruct (advance_n_spec (Z.to_nat (dec - curCycle p)) _ _ Hw) as (w & -> & Hw' & Hs).
    replace (curCycle p + Z.of_nat (Z.to_nat (dec - curCycle p))) with dec in * by lia.
    cbn [mbind res_bind mret res_ret]. eexists. split; [done|]. cbn. split; [|lia].
    split; cbn; try done; try lia.
    + eapply quiet_agree; [exact Hs|lia|]. eapply quiet_mono; [|exact Hq]. lia.
    + apply markLeave_ok; [lia|]. eapply queue_ok_mono; [|exact Hqu]. lia.
  - eexists. split; [done|]. cbn. split; [|lia]. split; cbn; try done; try lia.
    + eapply quiet_mono; [|exact Hq]. lia.
    + apply markLeave_ok; [lia|]. eapply queue_ok_mono; [|exact Hqu]. lia.
Qed.

Lemma issue_spec B p : pipe_ok B p ->
  exists p', issue p = Ok p' /\ pipe_ok (B + 1) p' /\ curCycle p <= curCycle p' /\
    decodeCycle p' = decodeCycle p.
Proof.
  intros [Hw Hq Hc Hd Hrf Hi Hqu]. unfold issue.
  destruct (Z.leb_spec ISSUES_PER_CYCLE (curCycleIssuedUops p)) as [Hle|Hgt];
    unfold ISSUES_PER_CYCLE in *.
  - destruct (advance1 _ _ Hw) as (w & -> & Hw' & Hs). cbn [mbind res_bind mret res_ret].
    eexists. split; [done|]. cbn. split; [|lia].
    split; cbn; try done; try (unfold RF_READS_PER_CYCLE, ISSUES_PER_CYCLE; lia).
    + eapply quiet_agree; [exact Hs|lia|]. eapply quiet_mono; [|exact Hq]. lia.
    + eapply queue_ok_mono; [|exact Hqu]. lia.
  - eexists. split; [done|]. cbn. split; [|lia].
    split; cbn; try done; try (unfold ISSUES_PER_CYCLE; lia).
    + eapply quiet_mono; [|exact Hq]. lia.
    + eapply queue_ok_mono; [|exact Hqu]. lia.
Qed.

Lemma readRegs_spec c0 c1 B p : pipe_ok B p ->
  exists p', readRegs c0 c1 p = Ok p' /\ pipe_ok (B + 1) p' /\ curCycle p <= curCycle p' /\
    decodeCycle p' = decodeCycle p.
Proof.
  intros [Hw Hq Hc Hd Hrf Hi Hqu]. unfold readRegs, RF_READS_PER_CYCLE in *.
  set (reads := _ + _ + _). assert (0 <= reads <= 5) by (unfold reads; repeat case_match; lia).
  destruct (Z.ltb_spec 3 reads) as [Hlt|Hge].
  - destruct (advance1 _ _ Hw) as (w & -> & Hw' & Hs). cbn [mbind res_bind mret res_ret].
    eexists. split; [done|]. cbn. split; [|lia].
    split; cbn; try done; try (unfold RF_READS_PER_CYCLE, ISSUES_PER_CYCLE; lia).
    + eapply quiet_agree; [exact Hs|lia|]. eapply quiet_mono; [|exact Hq]. lia.
    + eapply queue_ok_mono; [|exact Hqu]. lia.
  - eexists. split; [done|]. cbn. split; [|lia].
    split; cbn; try done; try (unfold RF_READS_PER_CYCLE, ISSUES_PER_CYCLE; lia).
    + eapply quiet_mono; [|exact Hq]. lia.
    + eapply queue_ok_mono; [|exact Hqu]. lia.
Qed.

Lemma dispatch_spec u cOps c2 B p : pipe_ok B p -> uop_ok u -> cOps <= B -> c2 <= B ->
  B + 300 < curCycle p + 2 ^ 30 ->
  exists p' d, dispatch u cOps c2 p = Ok (p', d) /\ pipe_ok (B + 300) p' /\
    curCycle p <= curCycle p' <= d /\ decodeCycle p' = decodeCycle p /\
    Z.max cOps (Z.max c2 (curCycle p) + 6) <= d <= B + 6.
Proof.
  intros [Hw Hq Hc Hd Hrf Hi Hqu] [[Hm Hm0] Hx Hl Hdc] H1 H2 HB. unfold dispatch.
  change (DISPATCH_STAGE - ISSUE_STAGE) with 6.
  destruct (Window.schedule_spec H WSZ H_ok WSZ_ok (insWindow p) (curCycle p)
    (Z.max cOps (Z.max c2 (curCycle p) + 6)) (portMask u) (extraSlots u) B Hw Hm Hm0 Hx Hq)
    as (w' & cur' & d & -> & Hw' & Hroom & Hfit & q & S' & Hport & Hext & Hs); [lia|].
  cbn [mbind res_bind mret res_ret].
  pose proof (Window.room_at_quiet H WSZ _ _ _ B Hq Hroom) as Hcb.
  pose proof (Window.first_fit_quiet _ _ _ _ _ Hm Hm0 Hq Hfit) as Hdb.
  assert (curCycle p <= cur').
  { unfold Window.room_at in Hroom. destruct (_ <? _); lia. }
  assert (Z.max (Z.max cOps (Z.max c2 (curCycle p) + 6)) cur' <= d) by by destruct Hfit.
  assert (Hq' : Window.quiet (Window.slot H w' cur') (B + 300)).
  { destruct Hport as (Hq8 & _). unfold in_u8 in Hx.
    assert (0 < 2 ^ q <= 2 ^ 7) by (split; [apply Z.pow_pos_nonneg|apply Z.pow_le_mono_r]; lia).
    eapply (quiet_agree S' _ cur'); [exact Hs|lia|].
    eapply quiet_mono; [|eapply (extra_slots_quiet _ _ _ _ _ (B + 7)); [| |exact Hext|]].
    - lia.
    - unfold in_u8. lia.
    - lia.
    - intros j Hj. rewrite fn_lookup_insert_ne by lia. apply Hq. lia. }
  destruct (Z.ltb_spec (curCycle p) cur').
  - eexists _, d. split; [done|]. cbn. split; [|lia]. split; cbn; try done; try lia.
    all: unfold RF_READS_PER_CYCLE, ISSUES_PER_CYCLE; try lia.
    eapply queue_ok_mono; [|exact Hqu]. lia.
  - eexists _, d. split; [done|]. cbn. split; [|lia]. split; cbn; try done; try lia.
    eapply queue_ok_mono; [|exact Hqu]. lia.
Qed.

(** ** What the core relies on

    A port answers no earlier than it is asked, and [M] bounds its latency beyond the
    cycles it has a record of. *)
Class PortLaws (M : Z) (Inv : Z -> Env -> Prop) := {
  pl_nonneg : 0 <= M;
  pl_mono B B' e : B <= B' -> Inv B e -> Inv B' e;
  pl_iload a c B e : c <= B -> Inv B e ->
    wp (l1i_load a c) e (fun r e' => c <= r <= B + M /\ Inv (B + M) e');
  pl_dload a c B e : c <= B -> Inv B e ->
    wp (l1d_load a c) e (fun r e' => c <= r <= B + M /\ Inv (B + M) e');
  pl_dstore a c B e : c <= B -> Inv B e ->
    wp (l1d_store a c) e (fun r e' => c <= r <= B + M /\ Inv (B + M) e');
  pl_record c d r B e : c <= d -> d <= r -> r <= B -> Inv B e ->
    wp (rec_record c d r) e (fun _ e' => Inv B e')
}.

Section laws.
Context (M : Z) (Inv : Z -> Env -> Prop) {laws : PortLaws M Inv}.

Definition is_load (u : DynUop) : Z := match utype u with UOP_LOAD => 1 | _ => 0 end.
Definition is_store (u : DynUop) : Z := match utype u with UOP_STORE => 1 | _ => 0 end.

Record ops_ok (m : memops) : Prop := {
  oo_loads : length (loadAddrs m) = 256%nat;
  oo_stores : length (storeAddrs m) = 256%nat;
  oo_nloads : 0 <= loads m <= 256;
  oo_nstores : 0 <= stores m <= 256
}.

Lemma array_get_ok l i : 0 <= i < Z.of_nat (length l) -> array_get l i = Ok (l !!! Z.to_nat i).
Proof. intros Hi. unfold array_get. by rewrite bool_decide_true. Qed.

Lemma lsu_ok_mono B B' l : B <= B' -> lsu_ok B l -> lsu_ok B' l.
Proof.
  intros Hb [H1 H2 H3 H4 H5 H6]. split; try done; try lia; try by eapply rob_ok_mono.
  eapply Forall_impl; [exact H6|cbn; lia].
Qed.

Lemma fwdIdx_range addr : (fwdIdx addr < Z.to_nat FWD_ENTRIES)%nat.
Proof.
  unfold fwdIdx, FWD_ENTRIES. pose proof (land_range_r 5 ltac:(lia) (Z.shiftr addr 2) 31 ltac:(lia)).
  change (32 - 1) with 31. lia.
Qed.

(** What a load that commits at [c] does to the load/store unit: it waits for a free slot
    of the load queue and for the store that forwards to it, and only takes the slot. *)
Record loaded (addr c : Z) (l l' : lsu) : Prop := {
  lo_slot : ReorderBuffer.minAllocCycle (loadQueue l) <= c;
  lo_forward : forall t, fwdArray l !!! fwdIdx addr = (addr, t) -> t <= c;
  lo_lsu : l' = mkLsu (ReorderBuffer.markRetire 32 4 c (loadQueue l)) (storeQueue l)
    (lastStoreCommitCycle l) (lastStoreAddrCommitCycle l) (fwdArray l)
}.

(** A store: it waits for a slot of the store queue, and leaves its commit cycle for the
    loads of its address and for the fences. *)
Record stored (addr c : Z) (l l' : lsu) : Prop := {
  st_slot : ReorderBuffer.minAllocCycle (storeQueue l) <= c;
  st_lsu : l' = mkLsu (loadQueue l) (ReorderBuffer.markRetire 32 4 c (storeQueue l))
    (Z.max (lastStoreCommitCycle l) c) (lastStoreAddrCommitCycle l)
    (<[fwdIdx addr := (addr, c)]> (fwdArray l))
}.

Lemma do_load_spec addr cur d B l e : lsu_ok B l -> cur <= d <= B -> Inv B e ->
  wp (do_load addr cur d l) e (fun r e' =>
    lsu_ok (B + M + 6) r.1 /\ Z.max d (lastStoreAddrCommitCycle l + 1) <= r.2 <= B + M + 5 /\
    loaded addr r.2 l r.1 /\ Inv (B + M + 6) e').
Proof.
  intros [H1 H2 H3 H4 H5 H6] Hd He. unfold do_load.
  pose proof (minAlloc_le 32 B _ ltac:(lia) H1) as Hmin. pose proof pl_nonneg as HM.
  set (d2 := Z.max _ _). assert (Hd2 : d <= d2 <= B + 1) by (unfold d2; lia).
  assert (lastStoreAddrCommitCycle l + 1 <= d2) by (unfold d2; lia).
  assert (Hslot : ReorderBuffer.minAllocCycle (loadQueue l) <= d2) by (unfold d2; lia). clearbody d2.
  destruct (fwdArray l !!! fwdIdx addr) as [fa fc] eqn:Ef.
  assert (fc <= B).
  { pose proof (Forall_lookup_total_1 (fun e => e.2 <= B) _ (fwdIdx addr) H6) as Hf.
    cbn beta in Hf. rewrite Ef in Hf. apply Hf. pose proof (fwdIdx_range addr). lia. }
  apply wp_bind. apply wp_mono with (fun req e' => d2 <= req <= B + M + 5 /\ Inv (B + M + 5) e').
  - destruct (negb (addr =? NOADDR)).
    + apply wp_bind. eapply wp_mono; [apply (pl_dload addr d2 (B + 1)); [lia|]|].
      { eapply pl_mono; [|exact He]. lia. }
      cbn. intros r e1 [Hr He1]. apply wp_bind. unfold L1D_LAT.
      eapply wp_mono; [apply (pl_record cur d2 (r + 4) (B + M + 5)); try lia|].
      { eapply pl_mono; [|exact He1]. lia. }
      cbn. intros _ e2 He2. apply wp_ret. split; [lia|done].
    + apply wp_ret. split; [lia|]. eapply pl_mono; [|exact He]. lia.
  - cbn. intros req e' [Hreq He']. apply wp_ret. cbn.
    assert (d2 <= (if fa =? addr then Z.max req fc else req) <= B + M + 5) as Hc by (case_match; lia).
    split; [|split; [lia|split; [|eapply pl_mono; [|exact He']; lia]]].
    2: { split; [cbn; lia| |done]. intros t Ht. rewrite Ef in Ht. injection Ht as -> ->.
         rewrite Z.eqb_refl. lia. }
    split; cbn; try done; try lia.
    + replace (B + M + 6) with (B + M + 5 + 1) by lia. apply markRetire_ok; [lia|lia|].
      eapply rob_ok_mono; [|exact H1]. lia.
    + eapply rob_ok_mono; [|exact H2]. lia.
    + eapply Forall_impl; [exact H6|cbn; lia].
Qed.

Lemma do_store_spec addr cur d B l e : lsu_ok B l -> cur <= d <= B -> Inv B e ->
  wp (do_store addr cur d l) e (fun r e' =>
    lsu_ok (B + M + 6) r.1 /\ Z.max d (lastStoreAddrCommitCycle l + 1) <= r.2 <= B + M + 5 /\
    stored addr r.2 l r.1 /\ Inv (B + M + 6) e').
Proof.
  intros [H1 H2 H3 H4 H5 H6] Hd He. unfold do_store.
  pose proof (minAlloc_le 32 B _ ltac:(lia) H2) as Hmin. pose proof pl_nonneg as HM.
  set (d2 := Z.max _ _). assert (Hd2 : d <= d2 <= B + 1) by (unfold d2; lia).
  assert (lastStoreAddrCommitCycle l + 1 <= d2) by (unfold d2; lia).
  assert (Hslot : ReorderBuffer.minAllocCycle (storeQueue l) <= d2) by (unfold d2; lia). clearbody d2.
  apply wp_bind. eapply wp_mono; [apply (pl_dstore addr d2 (B + 1)); [lia|]|].
  { eapply pl_mono; [|exact He]. lia. }
  cbn. intros r e1 [Hr He1]. apply wp_bind. unfold L1D_LAT.
  eapply wp_mono; [apply (pl_record cur d2 (r + 4) (B + M + 5)); try lia|].
  { eapply pl_mono; [|exact He1]. lia. }
  cbn. intros _ e2 He2. apply wp_ret. cbn.
  split; [|split; [lia|split; [by split; [lia|]|eapply pl_mono; [|exact He2]; lia]]].
  split; cbn; try done; try lia.
  + eapply rob_ok_mono; [|exact H1]. lia.
  + replace (B + M + 6) with (B + M + 5 + 1) by lia. apply markRetire_ok; [lia|lia|].
    eapply rob_ok_mono; [|exact H2]. lia.
  + by rewrite length_insert.
  + apply Forall_insert; [|cbn; lia]. eapply Forall_impl; [exact H6|cbn; lia].
Qed.

Definition step_bound : Z := M + 2 ^ 18.

(** What a uop that commits at [c] does to the load/store unit: the uops that compute the
    address of a store, and the fences, move the cycle every later load and store waits
    for; a fence moves it past the stores that have not committed. *)
Definition lsu_after (u : DynUop) (m : memops) (v : carried) (c : Z) (l l' : lsu) : Prop :=
  match utype u with
  | UOP_GENERAL => l' = l
  | UOP_LOAD => loaded (loadAddrs m !!! Z.to_nat (loadIdx v)) c l l'
  | UOP_STORE => stored (storeAddrs m !!! Z.to_nat (storeIdx v)) c l l'
  | UOP_STORE_ADDR => l' = set_storeAddr (Z.max (lastStoreAddrCommitCycle l) c) l
  | UOP_FENCE => l' = set_storeAddr (lastStoreAddrCommitCycle l') l /\
      c <= lastStoreAddrCommitCycle l' /\
      lastStoreAddrCommitCycle l <= lastStoreAddrCommitCycle l' /\
      lastStoreCommitCycle l + lat u <= lastStoreAddrCommitCycle l'
  end.

(** What the switch leaves, from dispatch at [d]. *)
Record executed (u : DynUop) (m : memops) (v : carried) (d B : Z) (l : lsu)
    (r : lsu * Z * carried) : Prop := {
  ex_after : lsu_after u m v r.1.2 l r.1.1;
  ex_lsu : lsu_ok B r.1.1;
  ex_commit : d + (match utype u with UOP_LOAD | UOP_STORE => 0 | _ => lat u end) <= r.1.2 <= B;
  ex_order : (utype u = UOP_LOAD \/ utype u = UOP_STORE) -> lastStoreAddrCommitCycle l < r.1.2;
  ex_idx : loadIdx r.2 = loadIdx v + is_load u /\ storeIdx r.2 = storeIdx v + is_store u
}.

Lemma execute_spec u m v cur d B l e : uop_ok u -> ops_ok m -> lsu_ok B l -> cur <= d <= B -> Inv B e ->
  0 <= loadIdx v -> loadIdx v + is_load u <= 256 -> 0 <= storeIdx v -> storeIdx v + is_store u <= 256 ->
  wp (execute u m v cur d l) e (fun r e' =>
    executed u m v d (B + M + 2 ^ 16) l r /\ Inv (B + M + 2 ^ 16) e').
Proof.
  intros [_ _ Hlat _] [Ol Os _ _] Hl Hd He Hli Hlm Hsi Hsm. pose proof pl_nonneg as HM.
  unfold is_load, is_store in *.
  assert (He' : Inv (B + M + 2 ^ 16) e) by (eapply pl_mono; [|exact He]; lia).
  pose proof (lsu_ok_mono B (B + M + 2 ^ 16) l ltac:(lia) Hl) as Hl'.
  unfold execute. destruct (utype u) eqn:Et; cbn in Hlm, Hsm.
  - apply wp_ret. split; [|done]. split; unfold lsu_after, is_load, is_store; rewrite ?Et; cbn; try done; try lia.
    by intros [|].
  - rewrite array_get_ok by lia. apply wp_bind. eapply wp_lift; [done|].
    apply wp_bind. eapply wp_mono; [by apply (do_load_spec _ cur d B)|].
    cbn. intros [l1 commit] e1 (K1 & K2 & K4 & K3). cbn in *. apply wp_ret.
    split; [|eapply pl_mono; [|exact K3]; lia].
    split; unfold lsu_after, is_load, is_store; rewrite ?Et; cbn; try done; try lia.
    eapply lsu_ok_mono; [|exact K1]. lia.
  - rewrite array_get_ok by lia. apply wp_bind. eapply wp_lift; [done|].
    apply wp_bind. eapply wp_mono; [by apply (do_store_spec _ cur d B)|].
    cbn. intros [l1 commit] e1 (K1 & K2 & K4 & K3). cbn in *. apply wp_ret.
    split; [|eapply pl_mono; [|exact K3]; lia].
    split; unfold lsu_after, is_load, is_store; rewrite ?Et; cbn; try done; try lia.
    eapply lsu_ok_mono; [|exact K1]. lia.
  - apply wp_ret. split; [|done]. destruct Hl as [? ? ? ? ? ?], Hl' as [? ? ? ? ? ?].
    split; unfold lsu_after, is_load, is_store; rewrite ?Et; cbn; try done; try lia; [|by intros [|]].
    split; cbn; try done. lia.
  - apply wp_ret. split; [|done]. destruct Hl as [? ? ? ? ? ?], Hl' as [? ? ? ? ? ?].
    split; unfold lsu_after, is_load, is_store; rewrite ?Et; cbn; try done; try lia;
      [split_and!; [done|lia..]| |by intros [|]].
    split; cbn; try done. lia.
Qed.

Definition state_ok (B : Z) (s : pipe * backend * lsu * carried) : Prop :=
  let '(p, b, l, v) := s in
  pipe_ok B p /\ back_ok B b /\ lsu_ok B l /\ lastCommitCycle v <= B /\
  0 <= loadIdx v /\ 0 <= storeIdx v /\ 0 <= prevDecCycle v.

(** How a uop ran: dispatched at [d], committed at [lastCommitCycle]. *)
Record dataflow (m : memops) (u : DynUop) (s s' : pipe * backend * lsu * carried) : Prop := {
  df_dispatch : exists d,
    (rs0 u <> 0 -> regScoreboard s.1.1.2 (rs0 u) <= d) /\
    (rs1 u <> 0 -> regScoreboard s.1.1.2 (rs1 u) <= d) /\
    ReorderBuffer.minAllocCycle (rob s.1.1.2) + 6 <= d /\
    curCycle s.1.1.1 + 6 <= d /\ curCycle s'.1.1.1 <= d /\
    d + (match utype u with UOP_LOAD | UOP_STORE => 0 | _ => lat u end) <= lastCommitCycle s'.2;
  df_order : (utype u = UOP_LOAD \/ utype u = UOP_STORE) ->
    lastStoreAddrCommitCycle s.1.2 < lastCommitCycle s'.2;
  df_lsu : lsu_after u m s.2 (lastCommitCycle s'.2) s.1.2 s'.1.2;
  df_regs : regScoreboard s'.1.1.2 (rd0 u) = lastCommitCycle s'.2 /\
    regScoreboard s'.1.1.2 (rd1 u) = lastCommitCycle s'.2 /\
    forall r, r <> 0 -> r <> rd0 u -> r <> rd1 u ->
      regScoreboard s'.1.1.2 r = regScoreboard s.1.1.2 r;
  df_retire : rob s'.1.1.2 = ReorderBuffer.markRetire 128 4 (lastCommitCycle s'.2) (rob s.1.1.2)
}.

Lemma pipe_stages u v regs b B p : pipe_ok B p -> back_ok B b -> uop_ok u ->
  0 <= prevDecCycle v <= decCycle u -> regs = regScoreboard b ->
  B + step_bound < curCycle p + 2 ^ 30 ->
  exists p1 p2 p3 p4 d, decode u (prevDecCycle v) p = Ok p1 /\ issue p1 = Ok p2 /\
    let regs' := <[0 := curCycle p2]> regs in
    readRegs (regs' (rs0 u)) (regs' (rs1 u)) p2 = Ok p3 /\
    dispatch u (Z.max (regs' (rs0 u)) (regs' (rs1 u))) (ReorderBuffer.minAllocCycle (rob b)) p3
      = Ok (p4, d) /\
    pipe_ok (B + 2 ^ 16 + 302) p4 /\ (forall r, regs' r <= B + 2 ^ 16 + 1) /\
    curCycle p <= curCycle p4 <= d /\ d <= B + 2 ^ 16 + 8 /\
    (rs0 u <> 0 -> regs (rs0 u) <= d) /\ (rs1 u <> 0 -> regs (rs1 u) <= d) /\
    ReorderBuffer.minAllocCycle (rob b) + 6 <= d /\ curCycle p + 6 <= d.
Proof.
  intros Hp [Hr Hb] Hu Hprev -> HB. pose proof pl_nonneg as HM. unfold step_bound in HB.
  destruct (decode_spec u (prevDecCycle v) B p Hp Hu Hprev) as (p1 & E1 & P1 & C1 & _); [lia|].
  destruct (issue_spec _ _ P1) as (p2 & E2 & P2 & C2 & _).
  set (regs' := <[0 := curCycle p2]> (regScoreboard b) : Z -> Z).
  assert (Hregs : forall r, regs' r <= B + 2 ^ 16 + 1).
  { intros r. unfold regs'. destruct (decide (r = 0)) as [->|].
    - rewrite fn_lookup_insert. apply P2.
    - rewrite fn_lookup_insert_ne by done. specialize (Hr r). lia. }
  assert (Hne : forall r, r <> 0 -> regs' r = regScoreboard b r).
  { intros r Hr0. unfold regs'. by rewrite fn_lookup_insert_ne by done. }
  destruct (readRegs_spec (regs' (rs0 u)) (regs' (rs1 u)) _ _ P2) as (p3 & E3 & P3 & C3 & _).
  pose proof (minAlloc_le 128 B (rob b) ltac:(lia) Hb) as Hmin.
  pose proof (Hregs (rs0 u)). pose proof (Hregs (rs1 u)).
  destruct (dispatch_spec u (Z.max (regs' (rs0 u)) (regs' (rs1 u)))
    (ReorderBuffer.minAllocCycle (rob b)) _ p3 P3 Hu) as (p4 & d & E4 & P4 & C4 & _ & Hd); [lia..|].
  exists p1, p2, p3, p4, d. cbv zeta. fold regs'. split_and!; try done; try lia.
  - replace (B + 2 ^ 16 + 302) with (B + 2 ^ 16 + 1 + 1 + 300) by lia. done.
  - intros Hz. rewrite <- Hne by done. lia.
  - intros Hz. rewrite <- Hne by done. lia.
Qed.

Lemma run_uop_spec u m B s e : state_ok B s -> Inv B e -> uop_ok u -> ops_ok m ->
  prevDecCycle s.2 <= decCycle u ->
  loadIdx s.2 + is_load u <= 256 -> storeIdx s.2 + is_store u <= 256 ->
  B + step_bound < curCycle s.1.1.1 + 2 ^ 30 ->
  wp (run_uop m s u) e (fun s' e' => state_ok (B + step_bound) s' /\ Inv (B + step_bound) e' /\
    curCycle s.1.1.1 <= curCycle s'.1.1.1 /\ dataflow m u s s' /\
    prevDecCycle s'.2 = decCycle u /\ loadIdx s'.2 = loadIdx s.2 + is_load u /\
    storeIdx s'.2 = storeIdx s.2 + is_store u).
Proof.
  destruct s as [[[p b] l] v]. cbn [fst snd].
  intros (Hp & Hb & Hl & Hlc & Hli & Hsi & Hpd) He Hu Hm Hdec Hlm Hsm HB.
  pose proof pl_nonneg as HM. unfold step_bound in HB.
  destruct (pipe_stages u v (regScoreboard b) b B p Hp Hb Hu ltac:(lia) eq_refl HB)
    as (p1 & p2 & p3 & p4 & d & E1 & E2 & E3 & E4 & P4 & Hregs & Hc & Hd & Hs0 & Hs1 & Hrob & Hcd).
  cbv zeta in *. unfold run_uop.
  apply wp_bind. eapply wp_lift; [exact E1|]. apply wp_bind. eapply wp_lift; [exact E2|]. cbv zeta.
  apply wp_bind. eapply wp_lift; [exact E3|]. apply wp_bind. eapply wp_lift; [exact E4|].
  apply wp_bind. eapply wp_mono.
  { apply (execute_spec u m v (curCycle p4) d (B + 2 ^ 16 + 302)); try done; try lia.
    - eapply lsu_ok_mono; [|exact Hl]. lia.
    - eapply pl_mono; [|exact He]. lia. }
  cbn beta. intros [[l' commit] v'] e' [[X0 X1 X2 X3 [X4 X5]] He']. cbn [fst snd] in *.
  apply wp_ret. cbn [fst snd loadIdx storeIdx prevDecCycle lastCommitCycle regScoreboard rob].
  destruct Hb as [Hr Hb].
  assert (Hil : 0 <= is_load u <= 1 /\ 0 <= is_store u <= 1).
  { unfold is_load, is_store. destruct (utype u); lia. }
  assert (Hle : d <= commit) by (destruct Hu as [_ _ ? _]; destruct (utype u); lia).
  split_and!; try done; try lia.
  - unfold state_ok. cbn. split_and!; try lia.
    + destruct P4 as [W1 W2 W3 W4 W5 W6 W7]. split; try done; try (unfold step_bound; lia).
      * eapply quiet_mono; [|exact W2]. unfold step_bound. lia.
      * eapply queue_ok_mono; [|exact W7]. unfold step_bound. lia.
    + split; cbn.
      * intros r. unfold step_bound. specialize (Hregs r).
        destruct (decide (r = rd1 u)) as [->|]; [rewrite fn_lookup_insert; lia|].
        rewrite fn_lookup_insert_ne by done.
        destruct (decide (r = rd0 u)) as [->|]; [rewrite fn_lookup_insert; lia|].
        rewrite fn_lookup_insert_ne by done. lia.
      * eapply rob_ok_mono; [|eapply (markRetire_ok 128 4 (B + 2 ^ 16 + 302 + M + 2 ^ 16)); [lia|lia|]].
        { unfold step_bound. lia. }
        eapply rob_ok_mono; [|exact Hb]. lia.
    + eapply lsu_ok_mono; [|exact X1]. unfold step_bound. lia.
    + unfold step_bound. lia.
  - eapply pl_mono; [|exact He']. unfold step_bound. lia.
  - split; cbn.
    + exists d. split_and!; try done; lia.
    + exact X3.
    + exact X0.
    + split; [|split; [by rewrite fn_lookup_insert|]].
      * destruct (decide (rd0 u = rd1 u)) as [->|]; [by rewrite fn_lookup_insert|].
        rewrite fn_lookup_insert_ne by done. by rewrite fn_lookup_insert.
      * intros r H0 Hr0 Hr1. by rewrite !fn_lookup_insert_ne by done.
    + done.
Qed.

(** ** The uops of a block *)

Inductive dataflow_run (m : memops) : list DynUop -> pipe * backend * lsu * carried ->
    pipe * backend * lsu * carried -> Prop :=
  | run_nil s : dataflow_run m [] s s
  | run_cons u us s s1 s' : dataflow m u s s1 -> dataflow_run m us s1 s' ->
      dataflow_run m (u :: us) s s'.

Fixpoint dec_sorted (prev : Z) (us : list DynUop) : Prop :=
  match us with
  | [] => True
  | u :: us => prev <= decCycle u /\ dec_sorted (decCycle u) us
  end.

Definition nloads (us : list DynUop) : Z := foldr (fun u n => is_load u + n) 0 us.
Definition nstores (us : list DynUop) : Z := foldr (fun u n => is_store u + n) 0 us.

Lemma nloads_cons u us : nloads (u :: us) = is_load u + nloads us.
Proof. done. Qed.
Lemma nstores_cons u us : nstores (u :: us) = is_store u + nstores us.
Proof. done. Qed.

Lemma nloads_nonneg us : 0 <= nloads us.
Proof.
  induction us as [|u us IH]; [done|]. rewrite nloads_cons. unfold is_load. destruct (utype u); lia.
Qed.
Lemma nstores_nonneg us : 0 <= nstores us.
Proof.
  induction us as [|u us IH]; [done|]. rewrite nstores_cons. unfold is_store. destruct (utype u); lia.
Qed.

Lemma run_uops_spec m us : ops_ok m -> forall B s e, state_ok B s -> Inv B e ->
  Forall uop_ok us -> dec_sorted (prevDecCycle s.2) us ->
  loadIdx s.2 + nloads us <= 256 -> storeIdx s.2 + nstores us <= 256 ->
  B + Z.of_nat (length us) * step_bound < curCycle s.1.1.1 + 2 ^ 30 ->
  wp (loop (run_uop m) s us) e (fun s' e' =>
    let B' := B + Z.of_nat (length us) * step_bound in
    state_ok B' s' /\ Inv B' e' /\ curCycle s.1.1.1 <= curCycle s'.1.1.1 /\
    dataflow_run m us s s' /\ loadIdx s'.2 = loadIdx s.2 + nloads us /\
    storeIdx s'.2 = storeIdx s.2 + nstores us).
Proof.
  intros Hm. pose proof pl_nonneg as HM.
  induction us as [|u us IH]; intros B s e Hs He Hu Hdec Hl Hst HB; cbn [loop].
  { apply wp_ret. change (Z.of_nat (length [])) with 0. change (nloads []) with 0.
    change (nstores []) with 0. rewrite Z.mul_0_l, !Z.add_0_r. split_and!; try done. apply run_nil. }
  inversion Hu as [|? ? Hu1 Hus]; subst. destruct Hdec as [Hd1 Hd2].
  rewrite nloads_cons in Hl. rewrite nstores_cons in Hst.
  pose proof (nloads_nonneg us). pose proof (nstores_nonneg us).
  assert (0 <= step_bound) by (unfold step_bound; lia).
  cbn [length] in HB. rewrite Nat2Z.inj_succ in HB.
  apply wp_bind. eapply wp_mono; [apply (run_uop_spec u m B); try done; try lia|].
  cbn beta. intros s1 e1 (S1 & S2 & S3 & S4 & S5 & S6 & S7).
  eapply wp_mono; [apply (IH (B + step_bound) s1 e1); try done; try lia|].
  { by rewrite S5. }
  cbv zeta. intros s' e' (T1 & T2 & T3 & T4 & T5 & T6).
  replace (B + Z.of_nat (length (u :: us)) * step_bound)
    with (B + step_bound + Z.of_nat (length us) * step_bound) by (cbn [length]; lia).
  rewrite nloads_cons, nstores_cons.
  split_and!; try done; try lia. by eapply run_cons.
Qed.

(** ** The frontend *)

Lemma wrongPath_spec lineSize n : forall i addr cur lastCommit reqCycle B e, cur <= B -> Inv B e ->
  wp (wrongPath lineSize n i addr cur lastCommit reqCycle) e (fun _ e' => exists B', B <= B' /\ Inv B' e').
Proof.
  pose proof pl_nonneg as HM.
  induction n as [|n IH]; intros i addr cur lastCommit reqCycle B e Hc He; cbn [wrongPath].
  { apply wp_ret. by exists B. }
  apply wp_bind. eapply wp_mono; [apply (pl_iload _ cur B); [lia|done]|]. cbn beta.
  intros r e1 [Hr He1]. cbv zeta. apply wp_bind.
  eapply wp_mono; [apply (pl_record cur cur (cur + (r - cur)) (B + M)); [lia|lia|lia|done]|].
  cbn beta. intros _ e2 He2. case_match.
  - apply wp_ret. exists (B + M). split; [lia|done].
  - eapply wp_mono; [apply (IH _ _ _ _ _ (B + M)); [lia|done]|]. cbn beta.
    intros _ e' (B' & HB' & He'). exists B'. split; [lia|done].
Qed.

Lemma ifetch_spec lineSize fuel : 0 < lineSize -> forall fetchAddr endAddr cur fetchCycle B e,
  0 <= fetchAddr -> endAddr + lineSize < 2 ^ 64 -> endAddr - fetchAddr <= Z.of_nat fuel ->
  cur <= B -> Inv B e ->
  wp (ifetch lineSize fuel fetchAddr endAddr cur fetchCycle) e (fun c e' =>
    fetchCycle <= c /\ exists B', B <= B' /\ Inv B' e').
Proof.
  pose proof pl_nonneg as HM. intros Hls.
  induction fuel as [|fuel IH]; intros fetchAddr endAddr cur fetchCycle B e H1 H2 H3 Hc He;
    cbn [ifetch]; destruct (Z.ltb_spec fetchAddr endAddr); try lia.
  1, 3: apply wp_ret; split; [lia|by exists B].
  apply wp_bind. eapply wp_mono; [apply (pl_iload _ cur B); [lia|done]|]. cbn beta.
  intros r e1 [Hr He1]. cbv zeta. apply wp_bind.
  eapply wp_mono; [apply (pl_record cur cur (cur + (r - cur)) (B + M)); [lia|lia|lia|done]|].
  cbn beta. intros _ e2 He2. rewrite u64_id by (unfold in_u64; lia).
  eapply wp_mono; [apply (IH _ _ _ _ (B + M)); [lia|lia|lia|lia|done]|]. cbn beta.
  intros c e' (Hcc & B' & HB' & He'). split; [lia|]. exists B'. split; [lia|done].
Qed.

Definition front_ok (f : frontend) : Prop := BranchPredictorPAg.wf 11 18 14 (branchPred f).

Lemma predictBranch_spec lineSize lastCommit cur fetchCycle f B e : front_ok f -> cur <= B -> Inv B e ->
  wp (predictBranch lineSize lastCommit cur fetchCycle f) e (fun r e' =>
    front_ok r.1.1 /\ branchPc r.1.1 = 0 /\ r.1.2 = (if r.2 then lastCommit else fetchCycle) /\
    exists B', B <= B' /\ Inv B' e').
Proof.
  intros Hf Hc He. unfold predictBranch.
  destruct (negb (branchPc f =? 0)).
  2: { apply wp_ret. cbn. split_and!; try done. by exists B. }
  destruct (BranchPredictorPAg.predict_spec 11 18 14 ltac:(lia) (branchPred f) (branchPc f)
    (branchTaken f) Hf ltac:(lia)) as (h & c & _ & _ & _ & _ & E).
  destruct (BranchPredictorPAg.predict 11 18 14 (branchPred f) (branchPc f) (branchTaken f))
    as [[bp ok]|] eqn:Ep; [|done].
  pose proof (BranchPredictorPAg.predict_wf 11 18 14 ltac:(lia) _ _ _ _ _ Hf ltac:(lia) Ep) as Hbp.
  destruct ok.
  - apply wp_ret. cbn. split_and!; try done. by exists B.
  - apply wp_bind. eapply wp_mono; [by apply (wrongPath_spec _ _ _ _ _ _ _ B)|].
    cbn beta. intros _ e' He'. apply wp_ret. cbn. by split_and!.
Qed.

Lemma fetchBbl_spec lineSize bblAddr info lastCommit cur dec f B e :
  0 < lineSize -> 0 <= bblAddr -> 0 <= bytes info -> bblAddr + bytes info + lineSize < 2 ^ 64 ->
  front_ok f -> cur <= B -> Inv B e ->
  wp (fetchBbl lineSize bblAddr info lastCommit cur dec f) e (fun r e' =>
    front_ok r.1.1 /\ branchPc r.1.1 = 0 /\ dec < r.1.2 /\ (r.2 = true -> lastCommit < r.1.2) /\
    exists B', B <= B' /\ Inv B' e').
Proof.
  intros Hls Ha Hb Hend Hf Hc He. unfold fetchBbl.
  apply wp_bind. eapply wp_mono; [by apply (predictBranch_spec _ _ _ _ _ B)|]. cbn beta.
  intros [[f1 fc] missed] e1 (F1 & F2 & F3 & B1 & HB1 & He1). cbn [fst snd] in *.
  rewrite u64_id by (unfold in_u64; lia).
  apply wp_bind. eapply wp_mono; [apply (ifetch_spec lineSize _ Hls _ _ _ _ B1); [lia|lia|lia|lia|done]|].
  cbn beta. intros fc2 e2 (Hfc & B2 & HB2 & He2). apply wp_ret. cbn [fst snd].
  unfold DECODE_STAGE, FETCH_STAGE in *. split_and!; try done; try lia.
  - intros ->. lia.
  - exists B2. split; [lia|done].
Qed.

(** ** The block *)

Definition start (c : core) : pipe * backend * lsu * carried :=
  (cpipe c, cback c, clsu c, mkCarried 0 0 0 0).

Record core_ok (B : Z) (c : core) : Prop := {
  co_state : state_ok B (start c);
  co_ops : ops_ok (cops c);
  co_front : front_ok (cfront c)
}.

Definition block_ok (i : BblInfo) : Prop :=
  Forall uop_ok (uop (oooBbl i)) /\ dec_sorted 0 (uop (oooBbl i)) /\
  nloads (uop (oooBbl i)) <= 256 /\ nstores (uop (oooBbl i)) <= 256.

Lemma state_ok_mono B B' s : B <= B' -> state_ok B s -> state_ok B' s.
Proof.
  destruct s as [[[p b] l] v]. intros Hb (Hp & [Hr Hrob] & Hl & Hlc & Hv).
  destruct Hp as [W1 W2 W3 W4 W5 W6 W7]. unfold state_ok. split_and!; try tauto; try lia.
  - split; try done; try lia; [by eapply quiet_mono|by eapply queue_ok_mono].
  - split; [|by eapply rob_ok_mono]. intros r. specialize (Hr r). lia.
  - by eapply lsu_ok_mono.
Qed.

Lemma state_next B B' p b l v dec : state_ok B (p, b, l, v) -> B <= B' -> dec <= B' -> 0 <= B' ->
  state_ok B' (set_decode dec p, b, l, mkCarried 0 0 0 0).
Proof.
  intros Hs Hb Hd H0. apply (state_ok_mono _ _ _ Hb) in Hs as ([W1 W2 W3 W4 W5 W6 W7] & Hk & Hl & _).
  by split_and!.
Qed.


(** C8: a block runs the uops of the previous one in order, each as [dataflow] says, and
    fetches the new one: decode moves on by a cycle at least, past the last commit when the
    branch was mispredicted.  It fails, by its own assertion, exactly when the loads and
    stores recorded are not as many as those of the uops. *)
Theorem bbl_correct lineSize bblAddr info prev B c e :
  core_ok B c -> Inv B e -> prevBbl c = Some prev -> block_ok prev -> 0 < lineSize ->
  0 <= bblAddr -> 0 <= bytes info -> bblAddr + bytes info + lineSize < 2 ^ 64 ->
  let us := uop (oooBbl prev) in
  B + Z.of_nat (length us) * step_bound < curCycle (cpipe c) + 2 ^ 30 ->
  if decide (nloads us = loads (cops c) /\ nstores us = stores (cops c)) then
    wp (bbl lineSize bblAddr info c) e (fun c' e' =>
      prevBbl c' = Some info /\ loads (cops c') = 0 /\ stores (cops c') = 0 /\
      branchPc (cfront c') = 0 /\ curCycle (cpipe c) <= curCycle (cpipe c') /\
      (exists s', dataflow_run (cops c) us (start c) s' /\ decodeCycle s'.1.1.1 < decodeCycle (cpipe c') /\
        (mispredBranches (cstats c') <> mispredBranches (cstats c) ->
           lastCommitCycle s'.2 < decodeCycle (cpipe c')) /\
        (cpipe c', cback c', clsu c') = (set_decode (decodeCycle (cpipe c')) s'.1.1.1, s'.1.1.2, s'.1.2)) /\
      exists B', core_ok B' c' /\ Inv B' e')
  else bbl lineSize bblAddr info c e = Fail AssertFailed.
Proof.
  intros [Hs Hm Hf] He Hprev (Hu & Hdec & Hl & Hst) Hls Ha Hb Hend us HB. unfold bbl.
  rewrite Hprev. fold (start c). fold us in Hu, Hdec, Hl, Hst |- *.
  pose proof (run_uops_spec (cops c) us Hm B (start c) e Hs He Hu Hdec ltac:(cbn; lia)
    ltac:(cbn; lia) HB) as Hrun. cbv zeta in Hrun.
  apply wp_Ok in Hrun as ([[[p b] l] v] & e1 & Erun & S1 & I1 & C1 & D1 & L1 & T1).
  cbn [fst snd start loadIdx storeIdx] in L1, T1, C1.
  case_decide as Hcount.
  - destruct Hcount as [Hc1 Hc2]. apply wp_bind. unfold wp at 1. rewrite Erun.
    apply wp_bind, wp_require; [apply Z.eqb_eq; lia|].
    apply wp_bind, wp_require; [apply Z.eqb_eq; lia|].
    set (B1 := B + Z.of_nat (length us) * step_bound) in *.
    pose proof S1 as (P1 & _). pose proof (po_cur _ _ P1) as Hcur.
    apply wp_bind. eapply wp_mono; [by apply (fetchBbl_spec _ _ _ _ _ _ _ B1)|]. cbn beta.
    intros [[f dec] missed] e2 (F1 & F2 & F3 & F4 & B2 & HB2 & He2). cbn [fst snd] in *.
    apply wp_ret. cbn. split_and!; try done.
    + exists (p, b, l, v). cbn. split_and!; try done. intros Hne. apply F4. by destruct missed.
    + exists (Z.max B2 dec). split; [|eapply pl_mono; [|exact He2]; lia].
      split; [|by destruct Hm; split; cbn; try done; lia|done].
      apply (state_next B1 _ p b l v); [done|lia|lia|].
      destruct Hs as (_ & _ & _ & H0 & _). cbn in H0. pose proof pl_nonneg as HM.
      assert (0 <= Z.of_nat (length us) * step_bound) by (unfold step_bound; lia).
      unfold B1 in *. lia.
  - unfold mbind, prog_bind. rewrite Erun. unfold require.
    destruct (Z.eqb_spec (loadIdx v) (loads (cops c))); [|done].
    rewrite (proj2 (Z.eqb_neq _ _)); [done|]. intros Heq. apply Hcount. lia.
Qed.

(** ** Phases *)

Lemma advance_spec target B c : pipe_ok B (cpipe c) ->
  Window.no_far_shadows (insWindow (cpipe c)) -> curCycle (cpipe c) < target ->
  exists p, advance target c = Ok (set_pipe c p) /\
    pipe_ok (B + (target - curCycle (cpipe c))) p /\ curCycle p = target /\
    decodeCycle p - curCycle p = decodeCycle (cpipe c) - curCycle (cpipe c).
Proof.
  intros [W1 W2 W3 W4 W5 W6 W7] Hns Hlt. unfold advance.
  rewrite (proj2 (Z.ltb_lt _ _) Hlt). cbn [assert_that mbind res_bind].
  destruct (Window.longAdvance_spec H WSZ H_ok WSZ_ok _ _ target W1 Hns ltac:(lia))
    as (w & d & -> & Hw & Hd & Hs & _). cbn [mbind res_bind].
  rewrite Z.eqb_refl. cbn [assert_that mbind res_bind mret res_ret].
  eexists. split; [done|]. cbn. split; [|lia].
  split; cbn; try done; try (unfold RF_READS_PER_CYCLE, ISSUES_PER_CYCLE; lia).
  - intros j Hj. rewrite Hs by lia. apply W2. lia.
  - eapply queue_ok_mono; [|exact W7]. lia.
Qed.

Lemma advance_to_spec target B c : pipe_ok B (cpipe c) ->
  Window.no_far_shadows (insWindow (cpipe c)) -> curCycle (cpipe c) <= target ->
  exists p, advance_to target c = Ok (set_pipe c p) /\
    pipe_ok (B + (target - curCycle (cpipe c))) p /\ curCycle p = target /\
    decodeCycle p - curCycle p = decodeCycle (cpipe c) - curCycle (cpipe c).
Proof.
  intros Hp Hns Hle. unfold advance_to. destruct (Z.ltb_spec (curCycle (cpipe c)) target).
  - by apply advance_spec.
  - assert (target = curCycle (cpipe c)) as -> by lia. exists (cpipe c).
    rewrite Z.sub_diag, Z.add_0_r. by destruct c.
Qed.
End laws.
End OooCore.
End OooCore.
