(* ===== verification/Cores.v ===== *)
(** The filter caches of FilterCache behind the interface of the out-of-order core, and a
    run of the core with them.  The caches behind the filters are parameters with the
    contract [CacheTiming]. *)
From S2P Require Import Prelude Effects MemHier Hash FilterCache Window OooParts OooCore.
Import MemHier.

(** ** A core's two filter caches *)

Module CorePort.

Record world (W : Type) := mkWorld { fi : FilterCache.filter; fd : FilterCache.filter; wmem : W }.
Arguments mkWorld {W}.
Arguments fi {W}.
Arguments fd {W}.
Arguments wmem {W}.

Section CorePort.
Context {W : Type} (gi gd : FilterCache.config).
(** The mask of the process whose threads the core runs. *)
Context (procMask : Z).
Context (cache_access : MemReq -> prog W Z) (cache_invalidate : InvReq -> prog W (Z * bool)).

Definition on_i {A} (m : prog (FilterCache.filter * W) A) : prog (world W) A := fun w =>
  match m (fi w, wmem w) with
  | Ok (a, (f, v)) => Ok (a, mkWorld f (fd w) v)
  | Fail e => Fail e
  end.
Definition on_d {A} (m : prog (FilterCache.filter * W) A) : prog (world W) A := fun w =>
  match m (fd w, wmem w) with
  | Ok (a, (f, v)) => Ok (a, mkWorld (fi w) f v)
  | Fail e => Fail e
  end.

Definition iload (addr cyc : Z) : prog (world W) Z :=
  on_i (FilterCache.load gi cache_access cache_invalidate procMask [] [] addr cyc false).
Definition dload (addr cyc : Z) : prog (world W) Z :=
  on_d (FilterCache.load gd cache_access cache_invalidate procMask [] [] addr cyc false).
Definition dstore (addr cyc : Z) : prog (world W) Z :=
  on_d (FilterCache.store gd cache_access cache_invalidate procMask [] addr cyc).
Definition switch_caches : prog (world W) unit :=
  _ ← on_i (FilterCache.contextSwitch gi); on_d (FilterCache.contextSwitch gd).

(** The cache answers no earlier than it is asked, and at most [L] cycles after everything
    it has a record of, which [InvW] bounds. *)
Class CacheTiming (L : Z) (InvW : Z -> W -> Prop) := {
  ct_nonneg : 0 <= L;
  ct_mono B B' w : B <= B' -> InvW B w -> InvW B' w;
  ct_access req B w : cycle req <= B -> InvW B w ->
    wp (cache_access req) w (fun r w' => cycle req <= r <= B + L /\ InvW (B + L) w')
}.

Context (L : Z) (InvW : Z -> W -> Prop) {timing : CacheTiming L InvW}.

Definition filter_bound (B : Z) (f : FilterCache.filter) : Prop :=
  forall i, FilterCache.availCycle (FilterCache.filterArray f i) <= B.

Definition InvF (B : Z) (s : FilterCache.filter * W) : Prop := filter_bound B s.1 /\ InvW B s.2.

Lemma InvF_mono B B' s : B <= B' -> InvF B s -> InvF B' s.
Proof. intros Hb [H1 H2]. split; [intros i; specialize (H1 i); lia|by eapply ct_mono]. Qed.

(** A miss. *)
Lemma replace_spec g v idx isLoad c B s : c <= B -> InvF B s ->
  wp (FilterCache.replace g cache_access cache_invalidate procMask [] v idx isLoad c) s
    (fun r s' => c <= r <= B + L /\ InvF (B + L) s').
Proof.
  destruct s as [f w]. intros Hc [Hf Hw]. cbn [fst snd] in Hf, Hw. pose proof ct_nonneg as HL.
  unfold FilterCache.replace. cbn [loop].
  set (req := mkReq _ _ _ _ _ _ _ _). pose proof (ct_access req B w Hc Hw) as Ha.
  apply wp_Ok in Ha as (r & w' & E & Hr & Hw'). cbn [cycle req] in Hr.
  apply wp_Ok. exists r. eexists. split.
  { unfold FilterCache.on_cache, FilterCache.get_entry, FilterCache.set_entry, gets, modify.
    unfold mbind, prog_bind, mret, prog_ret. cbn [fst snd]. rewrite E. reflexivity. }
  split; [done|]. split; [|done]. intros i. cbn.
  destruct (decide (i = idx)) as [->|].
  - rewrite fn_lookup_insert. cbn. specialize (Hf idx). case_match; lia.
  - rewrite fn_lookup_insert_ne by done. specialize (Hf i). lia.
Qed.

Lemma load_line_spec g a c B s : c <= B -> InvF B s ->
  wp (FilterCache.load_line g cache_access cache_invalidate procMask [] a c) s
    (fun r s' => c <= r <= B + L /\ InvF (B + L) s').
Proof.
  intros Hc Hs. pose proof ct_nonneg as HL. unfold FilterCache.load_line.
  apply wp_bind, wp_gets. set (e := FilterCache.filterArray s.1 _).
  assert (FilterCache.availCycle e <= B) by apply Hs.
  destruct (_ =? FilterCache.rdAddr e); [|by apply replace_spec].
  apply wp_bind, wp_modify, wp_ret. split; [lia|].
  apply (InvF_mono B); [lia|]. destruct Hs as [Hf Hw]. split; [exact Hf|exact Hw].
Qed.

Lemma load_spec g a c B s : c <= B -> InvF B s ->
  wp (FilterCache.load g cache_access cache_invalidate procMask [] [] a c false) s
    (fun r s' => c <= r <= B + 2 * L /\ InvF (B + 2 * L) s').
Proof.
  intros Hc Hs. pose proof ct_nonneg as HL. unfold FilterCache.load.
  apply wp_bind. eapply wp_mono; [by apply (load_line_spec g a c B)|]. cbn beta.
  intros r s1 [Hr Hs1]. destruct (FilterCache.isPrefetcher g && negb false).
  - apply wp_bind, wp_modify.
    eapply wp_mono; [apply (load_line_spec _ _ _ (B + L)); [lia|]|].
    { destruct Hs1 as [Hf Hw]. split; [exact Hf|exact Hw]. }
    cbn beta. intros r2 s2 [Hr2 Hs2]. replace (B + 2 * L) with (B + L + L) by lia. split; [lia|done].
  - apply wp_ret. split; [lia|]. eapply InvF_mono; [|exact Hs1]. lia.
Qed.

Lemma store_spec g a c B s : c <= B -> InvF B s ->
  wp (FilterCache.store g cache_access cache_invalidate procMask [] a c) s
    (fun r s' => c <= r <= B + L /\ InvF (B + L) s').
Proof.
  intros Hc Hs. pose proof ct_nonneg as HL. unfold FilterCache.store.
  apply wp_bind, wp_gets. set (e := FilterCache.filterArray s.1 _).
  assert (FilterCache.availCycle e <= B) by apply Hs.
  destruct (_ =? FilterCache.wrAddr e); [|by apply replace_spec].
  apply wp_bind, wp_modify, wp_ret. split; [lia|].
  apply (InvF_mono B); [lia|]. destruct Hs as [Hf Hw]. split; [exact Hf|exact Hw].
Qed.

(** The interface of the out-of-order core, without contention models: nothing to record. *)
#[export] Instance filter_ports : OooCore.CorePorts (world W) := {
  OooCore.l1i_load := iload;
  OooCore.l1d_load := dload;
  OooCore.l1d_store := dstore;
  OooCore.contextSwitch_caches := switch_caches;
  OooCore.rec_record _ _ _ := mret tt;
  OooCore.rec_notifyJoin c := mret c;
  OooCore.rec_notifyLeave _ := mret tt;
  OooCore.rec_cSimStart c := mret c;
  OooCore.rec_cSimEnd c := mret c
}.

Definition Inv (B : Z) (w : world W) : Prop :=
  filter_bound B (fi w) /\ filter_bound B (fd w) /\ InvW B (wmem w).

Lemma on_i_spec B B' (m : prog (FilterCache.filter * W) Z) w (Q : Z -> Prop) : B <= B' -> Inv B w ->
  wp m (fi w, wmem w) (fun r s' => Q r /\ InvF B' s') ->
  wp (on_i m) w (fun r w' => Q r /\ Inv B' w').
Proof.
  intros Hb (H1 & H2 & H3) Hm. apply wp_Ok in Hm as (r & [f v] & E & HQ & Hf & Hv).
  unfold wp, on_i. rewrite E. split; [done|]. split; [done|]. split; [|done].
  intros i. specialize (H2 i). cbn. lia.
Qed.

Lemma on_d_spec B B' (m : prog (FilterCache.filter * W) Z) w (Q : Z -> Prop) : B <= B' -> Inv B w ->
  wp m (fd w, wmem w) (fun r s' => Q r /\ InvF B' s') ->
  wp (on_d m) w (fun r w' => Q r /\ Inv B' w').
Proof.
  intros Hb (H1 & H2 & H3) Hm. apply wp_Ok in Hm as (r & [f v] & E & HQ & Hf & Hv).
  unfold wp, on_d. rewrite E. split; [done|]. split; [|by split].
  intros i. specialize (H1 i). cbn. lia.
Qed.

#[export] Instance filter_laws : OooCore.PortLaws (2 * L) Inv.
Proof.
  pose proof ct_nonneg as HL. split.
  - lia.
  - intros B B' w Hb (H1 & H2 & H3). split_and!; [| |by eapply ct_mono];
      intros i; [specialize (H1 i)|specialize (H2 i)]; lia.
  - intros a c B w Hc Hw. apply (on_i_spec B); [lia|done|]. apply load_spec; [done|].
    destruct Hw as (H1 & H2 & H3). by split.
  - intros a c B w Hc Hw. apply (on_d_spec B); [lia|done|]. apply load_spec; [done|].
    destruct Hw as (H1 & H2 & H3). by split.
  - intros a c B w Hc Hw. apply (on_d_spec B); [lia|done|].
    destruct Hw as (H1 & H2 & H3).
    eapply wp_mono; [by apply (store_spec gd a c B)|]. cbn beta. intros r s' [Hr Hs].
    split; [lia|]. eapply InvF_mono; [|exact Hs]. lia.
  - intros c d r B w _ _ _ Hw. by apply wp_ret.
Qed.
End CorePort.
End CorePort.

(** ** A run of the out-of-order core

    Filters of 4 lines over a memory that always takes 40 cycles. *)
Module OooRun.
Import OooCore.

Definition mem_access (req : MemReq) : prog unit Z := fun w => Ok (cycle req + 40, w).
Definition mem_invalidate (req : InvReq) : prog unit (Z * bool) := fun w => Ok ((inv_cycle req, false), w).
Definition mem_inv (B : Z) (_ : unit) : Prop := True.

#[export] Instance mem_timing : CorePort.CacheTiming mem_access 40 mem_inv.
Proof.
  split; [lia|done|]. intros req B w Hc _. unfold wp, mem_access. split; [lia|done].
Qed.

Definition filter_cfg : FilterCache.config := FilterCache.mkCfg 4 false 0 0 6.
Definition W : Type := CorePort.world unit.
Definition ports : CorePorts W := CorePort.filter_ports filter_cfg filter_cfg 4096 mem_access mem_invalidate.
Definition Inv : Z -> W -> Prop := CorePort.Inv mem_inv.
#[export] Instance laws : @PortLaws W ports (2 * 40) Inv :=
  CorePort.filter_laws filter_cfg filter_cfg 4096 mem_access mem_invalidate 40 mem_inv.

Definition w0 : W := CorePort.mkWorld FilterCache.new FilterCache.new tt.

(** [add r1, [mem]]: a load and an addition. *)
Definition uop_ld : DynUop := mkUop 5 0 9 0 0 0 UOP_LOAD 4 0.
Definition uop_add : DynUop := mkUop 9 6 6 0 1 0 UOP_GENERAL 35 0.
Definition info : BblInfo := mkInfo 1 4 (mkBbl [uop_ld; uop_add] 0).

(** The core after one block and a load. *)
Definition core0 : core := OooCore.new 10000.
Definition ops1 : memops := mkOps (<[0%nat := 4096]> (loadAddrs (cops core0))) (storeAddrs (cops core0)) 1 0.
Definition core1 : core :=
  mkCore (cpipe core0) (cback core0) (clsu core0) ops1 (cfront core0) (cstats core0) (Some info)
    (phaseEndCycle core0).

Example core1_reached :
  ((c ← @bbl W ports 64 256 info core0; mret (prevBbl c, load 4096 (mkOps (loadAddrs (cops c))
     (storeAddrs (cops c)) (loads (cops c)) (stores (cops c))))) w0) = Ok ((Some info, Ok ops1), w0).
Proof. reflexivity. Qed.

(** The load reaches the L1 four cycles late and waits for memory; the addition follows. *)
Example block_run :
  match (@bbl W ports 64 256 info core1 w0) with
  | Ok (c, _) => (curCycle (cpipe c), regScoreboard (cback c) 9, regScoreboard (cback c) 6,
                  decodeCycle (cpipe c), uops (cstats c))
  | Fail _ => (0, 0, 0, 0, 0)
  end = (4, 54, 55, 44, 2).
Proof. vm_compute. reflexivity. Qed.

Lemma core1_ok : core_ok 4 core1.
Proof.
  assert (rob_ok 128 4 (ReorderBuffer.new 128)) as H1.
  { split; try done. apply Forall_replicate. lia. }
  assert (rob_ok 32 4 (ReorderBuffer.new 32)) as H2.
  { split; try done. apply Forall_replicate. lia. }
  split; [|by split|by apply BranchPredictorPAg.predictor_new_wf].
  split_and!; try done.
  - split; cbn; try done.
    + apply Window.window_new_wf; [apply H_ok|apply WSZ_ok].
    + intros j _. by apply Window.new_slot.
    + split; try done. apply Forall_replicate. lia.
  - split; try done. apply Forall_replicate. cbn. lia.
Qed.

Lemma w0_inv : Inv 4 w0.
Proof. by split_and!. Qed.

Lemma uop_ld_ok : uop_ok uop_ld.
Proof. by repeat split. Qed.
Lemma uop_add_ok : uop_ok uop_add.
Proof. by repeat split. Qed.


Lemma bbl_correct_witness :
  nloads (uop (oooBbl info)) = 1 /\
  if decide (nloads (uop (oooBbl info)) = loads (cops core1) /\
             nstores (uop (oooBbl info)) = stores (cops core1)) then
  wp (@bbl W ports 64 256 info core1) w0 (fun c' e' =>
    prevBbl c' = Some info /\ loads (cops c') = 0 /\ stores (cops c') = 0 /\
    branchPc (cfront c') = 0 /\ curCycle (cpipe core1) <= curCycle (cpipe c') /\
    (exists s', dataflow_run (cops core1) (uop (oooBbl info)) (start core1) s' /\
      decodeCycle s'.1.1.1 < decodeCycle (cpipe c') /\
      (mispredBranches (cstats c') <> mispredBranches (cstats core1) ->
         lastCommitCycle s'.2 < decodeCycle (cpipe c')) /\
      (cpipe c', cback c', clsu c') = (set_decode (decodeCycle (cpipe c')) s'.1.1.1, s'.1.1.2, s'.1.2)) /\
    exists B', core_ok B' c' /\ Inv B' e')
  else @bbl W ports 64 256 info core1 w0 = Fail AssertFailed.
Proof.
  split; [done|]. apply (bbl_correct (2 * 40) Inv 64 256 info info 4 core1 w0); try done.
  - apply core1_ok.
  - split; [|by split_and!]. constructor; [apply uop_ld_ok|]. constructor; [apply uop_add_ok|done].
Defined.
End OooRun.
