(* ===== verification/DdrTiming.v ===== *)
(** The DDR controller's parameters (ddr_mem.h and ddr_mem.cpp): the device timings, the
    translation between system and memory cycles, the mapping of line addresses to rank,
    bank, column and row, and the activation window of a rank.  Cycles are 64-bit counters
    that do not wrap. *)
From Stdlib Require Import String Sorted.
From S2P Require Import Prelude Hash Doubles.
Import Bits.

Module DdrTiming.

(** ** initTech *)

Record tech := mkTech {
  tBL : Z; tCL : Z; tRCD : Z; tRTP : Z; tRP : Z; tRRD : Z; tRAS : Z; tFAW : Z;
  tWTR : Z; tWR : Z; tRFC : Z; tREFI : Z
}.

(** [tCK] of the source is 1.5 or 1.875 nanoseconds; here its numerator over 8. *)
Definition tech_params (techName : string) : res (Z * tech) :=
  if String.eqb techName "DDR3-1333-CL10" then
    mret (12, mkTech 4 10 10 5 10 4 24 20 5 10 74 5200)
  else if String.eqb techName "DDR3-1066-CL7" then
    mret (15, mkTech 4 7 7 4 7 4 18 18 4 7 59 4160)
  else if String.eqb techName "DDR3-1066-CL8" then
    mret (15, mkTech 4 8 8 4 8 4 20 20 4 8 59 4160)
  else panic.

Definition set_tBL (b : Z) (t : tech) : tech :=
  mkTech b (tCL t) (tRCD t) (tRTP t) (tRP t) (tRRD t) (tRAS t) (tFAW t) (tWTR t) (tWR t)
    (tRFC t) (tREFI t).

Definition burst (lineSize bl : Z) : res Z :=
  if isPow2 32 lineSize && (64 <=? lineSize) then mret (u32 (lineSize * bl) / 64)
  else if lineSize =? 32 then mret (bl / 2)
  else panic.

(** [(uint64_t)(1e9/tCK/1e3)]. *)
Definition memFreq (ck : Z) : Z :=
  let tCK := Doubles.fdiv (Doubles.of_Z ck) (Doubles.of_Z 8) in
  Doubles.to_Z (Doubles.fdiv (Doubles.fdiv (Doubles.of_Z (10 ^ 9)) tCK) (Doubles.of_Z 1000)).

(** The timings and [memFreqKHz]. *)
Definition initTech (techName : string) (lineSize : Z) : res (tech * Z) :=
  '(ck, t) ← tech_params techName;
  _ ← assert_that (0 <? ck);
  bl ← burst lineSize (tBL t);
  mret (set_tBL bl t, memFreq ck).

Lemma memFreq_values : memFreq 12 = 666666 /\ memFreq 15 = 533333.
Proof. by vm_compute. Qed.

(** What the controller relies on: [initTech] asserts the first part of it. *)
Record tech_ok (t : tech) : Prop := {
  to_pos : 0 < tBL t /\ 0 < tCL t /\ 0 < tRCD t /\ 0 < tRTP t /\ 0 < tRP t /\ 0 < tRRD t /\
    0 < tRAS t /\ 0 < tFAW t /\ 0 < tWTR t /\ 0 < tWR t /\ 0 < tRFC t /\ 0 < tREFI t;
  to_refresh : tRP t <= tRFC t
}.

Lemma burst_pos ls bl : 32 <= ls < 2 ^ 28 -> burst ls 4 = Ok bl -> 0 < bl.
Proof.
  intros Hls. unfold burst. destruct (isPow2 32 ls && (64 <=? ls)) eqn:E.
  - intros [= <-]. apply andb_true_iff in E as [_ E]. apply Z.leb_le in E.
    rewrite u32_id by (unfold in_u32; lia). apply Z.div_str_pos. lia.
  - destruct (ls =? 32); [|done]. by intros [= <-].
Qed.

Lemma tech_params_ok n ck t bl : tech_params n = Ok (ck, t) -> 0 < bl ->
  (ck = 12 \/ ck = 15) /\ tBL t = 4 /\ tech_ok (set_tBL bl t).
Proof.
  unfold tech_params. intros H Hbl.
  destruct (String.eqb _ _); [injection H as <- <-|destruct (String.eqb _ _);
    [injection H as <- <-|destruct (String.eqb _ _); [injection H as <- <-|discriminate H]]];
    (split; [lia|split; [done|split; cbn; lia]]).
Qed.

Lemma initTech_ok n ls t f : 32 <= ls < 2 ^ 28 -> initTech n ls = Ok (t, f) ->
  tech_ok t /\ (f = 666666 \/ f = 533333).
Proof.
  intros Hls. unfold initTech. rewrite bind_Ok. intros ([ck p] & Hp & H).
  apply bind_Ok in H as (u & _ & H). apply bind_Ok in H as (bl & Hb & H).
  assert (tBL p = 4) as E4 by (by destruct (tech_params_ok n ck p 1 Hp ltac:(lia)) as (_ & ? & _)).
  rewrite E4 in Hb. pose proof (burst_pos ls bl Hls Hb) as Hbl.
  destruct (tech_params_ok n ck p bl Hp Hbl) as (Hck & _ & Hok). destruct memFreq_values as [F1 F2].
  injection H as <- <-. split; [done|]. destruct Hck as [-> | ->]; auto.
Qed.

(** ** Clocks *)

Section Clocks.
Context (sysFreqKHz memFreqKHz : Z).

Definition sysToMemCycle (sysCycle : Z) : Z := sysCycle * memFreqKHz / sysFreqKHz + 1.
Definition memToSysCycle (memCycle : Z) : Z := (memCycle + 1) * sysFreqKHz / memFreqKHz.
Definition matchingMemToSysCycle (memCycle : Z) : Z :=
  (2 * memCycle - 1) * sysFreqKHz / memFreqKHz / 2.

(** The constructor's panic: [memFreqKHz >= sysFreqKHz / 2]. *)
Definition freqs_ok : Prop := 0 < memFreqKHz < sysFreqKHz / 2.

Context (Hf : freqs_ok).

Lemma freq_bounds : 0 < memFreqKHz /\ 2 * memFreqKHz < sysFreqKHz.
Proof.
  destruct Hf as [H1 H2]. split; [done|].
  pose proof (Z.mul_div_le sysFreqKHz 2 ltac:(lia)). lia.
Qed.

Lemma sysToMem_mono a b : a <= b -> sysToMemCycle a <= sysToMemCycle b.
Proof.
  intros Hab. destruct freq_bounds. unfold sysToMemCycle.
  apply Zplus_le_compat_r, Z.div_le_mono; [lia|]. nia.
Qed.

Lemma matching_roundtrip m : sysToMemCycle (matchingMemToSysCycle m) = m.
Proof.
  destruct freq_bounds as [Hm Hs]. unfold sysToMemCycle, matchingMemToSysCycle.
  rewrite Z.div_div by lia.
  set (n := (2 * m - 1) * sysFreqKHz). set (s := n / (memFreqKHz * 2)).
  pose proof (Z.mul_div_le n (memFreqKHz * 2) ltac:(lia)) as H1. fold s in H1.
  pose proof (Z.mul_succ_div_gt n (memFreqKHz * 2) ltac:(lia)) as H2. fold s in H2.
  enough (s * memFreqKHz / sysFreqKHz = m - 1) by lia.
  symmetry. apply (Z.div_unique_pos _ _ _ (s * memFreqKHz - (m - 1) * sysFreqKHz)); [|lia].
  unfold n in *. nia.
Qed.

Lemma matching_later m now : sysToMemCycle now <= m ->
  sysToMemCycle (Z.max (matchingMemToSysCycle m) now) = m.
Proof.
  intros Hn. pose proof (matching_roundtrip m) as Hr.
  destruct (Z.le_ge_cases now (matchingMemToSysCycle m)) as [Hl|Hg].
  - by rewrite Z.max_l.
  - rewrite Z.max_r by done. pose proof (sysToMem_mono _ _ Hg). lia.
Qed.

(** The cycle at which the controller asks for its next tick translates back to the
    memory cycle it asked for, also when that is the cycle it asks in: what the comment
    claims can be proved "with inequalities". *)
Theorem tick_cycle_matches m now : sysToMemCycle now <= m ->
  now <= Z.max (matchingMemToSysCycle m) now /\
  sysToMemCycle (Z.max (matchingMemToSysCycle m) now) = m.
Proof. intros Hn. split; [lia|by apply matching_later]. Qed.

Lemma memToSys_after s m : 0 <= s -> sysToMemCycle s <= m -> s <= memToSysCycle m.
Proof.
  intros Hs0 Hs. destruct freq_bounds as [Hm Hsf]. unfold sysToMemCycle, memToSysCycle in *.
  apply Z.div_le_lower_bound; [lia|].
  pose proof (Z.mul_succ_div_gt (s * memFreqKHz) sysFreqKHz ltac:(lia)). nia.
Qed.

Lemma memToSys_mono a b : a <= b -> memToSysCycle a <= memToSysCycle b.
Proof.
  intros Hab. destruct freq_bounds. unfold memToSysCycle. apply Z.div_le_mono; [lia|]. nia.
Qed.
End Clocks.

Lemma tick_cycle_matches_witness :
  sysToMemCycle 2000000 666666 41 <= 20 /\
  41 <= Z.max (matchingMemToSysCycle 2000000 666666 20) 41 /\
  sysToMemCycle 2000000 666666 (Z.max (matchingMemToSysCycle 2000000 666666 20) 41) = 20.
Proof.
  split; [by vm_compute|]. apply (tick_cycle_matches 2000000 666666).
  - split; by vm_compute.
  - by vm_compute.
Defined.

(** ** Address mapping *)

Definition JEDEC_BUS_WIDTH : Z := 64.

Record addrmap := mkMap {
  colShift : Z; colMask : Z;
  rankShift : Z; rankMask : Z;
  bankShift : Z; bankMask : Z;
  rowShift : Z
}.

Record AddrLoc := mkLoc { row : Z; bank : Z; rank : Z; col : Z }.

(** [computeShiftAndMask]: the mask of the field before; its new shift and mask, and the
    new [startBit]. *)
Definition computeShiftAndMask (fieldBits startBit mask : Z) : res (Z * Z * Z) :=
  if negb (mask =? 0) then panic
  else mret (startBit, u32 (Z.shiftl 1 fieldBits) - 1, startBit + fieldBits).

Section Mapping.
Context (colBits rankBits bankBits : Z).

(** The loop over the fields, lowest first; [rowShift] is [startBit]. *)
Definition map_token (m : addrmap) (t : string) : res addrmap :=
  if String.eqb t "col" then
    '(sh, mask, b) ← computeShiftAndMask colBits (rowShift m) (colMask m);
    mret (mkMap sh mask (rankShift m) (rankMask m) (bankShift m) (bankMask m) b)
  else if String.eqb t "rank" then
    '(sh, mask, b) ← computeShiftAndMask rankBits (rowShift m) (rankMask m);
    mret (mkMap (colShift m) (colMask m) sh mask (bankShift m) (bankMask m) b)
  else if String.eqb t "bank" then
    '(sh, mask, b) ← computeShiftAndMask bankBits (rowShift m) (bankMask m);
    mret (mkMap (colShift m) (colMask m) (rankShift m) (rankMask m) sh mask b)
  else panic.

Definition map_tokens (tokens : list string) : res addrmap :=
  _ ← (if (length tokens =? 3)%nat then mret tt else panic);
  foldM map_token (mkMap 0 0 0 0 0 0 0) (rev tokens).
End Mapping.

(** The mapping the constructor builds from the parts of its [addrMapping] string. *)
Definition new_mapping (lineSize colSize ranksPerChannel banksPerRank : Z) (tokens : list string)
    : res addrmap :=
  map_tokens (ilog2 32 (u32 (colSize / (JEDEC_BUS_WIDTH / 8) * 64) / lineSize))
    (ilog2 32 ranksPerChannel) (ilog2 32 banksPerRank) tokens.

Definition mapLineAddr (m : addrmap) (ranksPerChannel banksPerRank lineAddr : Z) : res AddrLoc :=
  let l := mkLoc (Z.shiftr lineAddr (rowShift m))
             (Z.land (Z.shiftr lineAddr (bankShift m)) (bankMask m))
             (Z.land (Z.shiftr lineAddr (rankShift m)) (rankMask m))
             (Z.land (Z.shiftr lineAddr (colShift m)) (colMask m)) in
  _ ← assert_that (rank l <? ranksPerChannel);
  _ ← assert_that (bank l <? banksPerRank);
  mret l.

(** The address at a location. *)
Definition unmap (m : addrmap) (l : AddrLoc) : Z :=
  Z.shiftl (row l) (rowShift m) + Z.shiftl (bank l) (bankShift m) +
  Z.shiftl (rank l) (rankShift m) + Z.shiftl (col l) (colShift m).

Lemma split_fields a w1 w2 w3 : 0 <= w1 -> 0 <= w2 -> 0 <= w3 ->
  a = Z.shiftl (Z.shiftr a (w1 + w2 + w3)) (w1 + w2 + w3)
    + Z.shiftl (Z.land (Z.shiftr a (w1 + w2)) (2 ^ w3 - 1)) (w1 + w2)
    + Z.shiftl (Z.land (Z.shiftr a w1) (2 ^ w2 - 1)) w1
    + Z.shiftl (Z.land (Z.shiftr a 0) (2 ^ w1 - 1)) 0.
Proof.
  intros H1 H2 H3. rewrite !land_mask_mod, Z.shiftr_0_r, Z.shiftl_0_r by done.
  rewrite !Z.shiftl_mul_pow2, !Z.shiftr_div_pow2 by lia.
  assert (0 < 2 ^ w1) by (apply Z.pow_pos_nonneg; lia).
  assert (0 < 2 ^ w2) by (apply Z.pow_pos_nonneg; lia).
  assert (0 < 2 ^ w3) by (apply Z.pow_pos_nonneg; lia).
  rewrite (Z.pow_add_r 2 (w1 + w2)), (Z.pow_add_r 2 w1) by lia.
  rewrite <- !Z.div_div by lia.
  pose proof (Z.div_mod a (2 ^ w1) ltac:(lia)).
  pose proof (Z.div_mod (a / 2 ^ w1) (2 ^ w2) ltac:(lia)).
  pose proof (Z.div_mod (a / 2 ^ w1 / 2 ^ w2) (2 ^ w3) ltac:(lia)). nia.
Qed.

Lemma mask_below n : 0 < n < 2 ^ 32 -> 0 <= ilog2 32 n /\ u32 (Z.shiftl 1 (ilog2 32 n)) = 2 ^ ilog2 32 n
  /\ 2 ^ ilog2 32 n <= n.
Proof.
  intros Hn. pose proof (ilog2_spec 32 n ltac:(lia)) as [Hl Hh].
  assert (0 <= ilog2 32 n) as H0.
  { unfold ilog2, clz. destruct (n =? 0); [lia|]. pose proof (Z.log2_nonneg n). lia. }
  split; [done|]. rewrite Z.shiftl_1_l, u32_id; [done|].
  assert (0 < 2 ^ ilog2 32 n) by (apply Z.pow_pos_nonneg; lia). unfold in_u32. lia.
Qed.

Lemma ilog2_nonneg n : 0 <= ilog2 32 n.
Proof. unfold ilog2, clz. destruct (n =? 0); [lia|]. pose proof (Z.log2_nonneg n). lia. Qed.

Lemma field_bound x k n : 0 <= k -> 2 ^ k <= n -> 0 <= Z.land x (2 ^ k - 1) < n.
Proof. intros Hk Hn. rewrite land_mask_mod by done. pose proof (Z.mod_pos_bound x (2 ^ k)). lia. Qed.

Lemma new_mapping_spec lineSize colSize ranks banks tokens :
  tokens ≡ₚ ["col"; "rank"; "bank"]%string ->
  0 < ranks < 2 ^ 32 -> 0 < banks < 2 ^ 32 ->
  let cols := u32 (colSize / (JEDEC_BUS_WIDTH / 8) * 64) / lineSize in
  0 < cols < 2 ^ 32 ->
  exists m, new_mapping lineSize colSize ranks banks tokens = Ok m /\
    forall addr, exists l, mapLineAddr m ranks banks addr = Ok l /\
      0 <= rank l < ranks /\ 0 <= bank l < banks /\ 0 <= col l < cols /\ unmap m l = addr.
Proof.
  intros Ht Hr Hb cols Hc. destruct (mask_below _ Hr) as (R0 & R1 & R2).
  destruct (mask_below _ Hb) as (B0 & B1 & B2). destruct (mask_below _ Hc) as (C0 & C1 & C2).
  unfold new_mapping. fold cols.
  set (rb := ilog2 32 ranks) in *. set (bb := ilog2 32 banks) in *. set (cb := ilog2 32 cols) in *.
  clearbody rb bb cb. symmetry in Ht. apply permutations_Permutation in Ht. cbn in Ht.
  assert (forall m addr, rankMask m = 2 ^ rb - 1 -> bankMask m = 2 ^ bb - 1 -> colMask m = 2 ^ cb - 1 ->
    (forall a, unmap m (mkLoc (Z.shiftr a (rowShift m))
             (Z.land (Z.shiftr a (bankShift m)) (bankMask m))
             (Z.land (Z.shiftr a (rankShift m)) (rankMask m))
             (Z.land (Z.shiftr a (colShift m)) (colMask m))) = a) ->
    exists l, mapLineAddr m ranks banks addr = Ok l /\
      0 <= rank l < ranks /\ 0 <= bank l < banks /\ 0 <= col l < cols /\ unmap m l = addr) as Hm.
  { intros m addr E1 E2 E3 Hu. specialize (Hu addr). unfold mapLineAddr. rewrite E1, E2, E3 in *.
    pose proof (field_bound (Z.shiftr addr (rankShift m)) rb ranks R0 R2).
    pose proof (field_bound (Z.shiftr addr (bankShift m)) bb banks B0 B2).
    pose proof (field_bound (Z.shiftr addr (colShift m)) cb cols C0 C2).
    cbn [rank bank]. rewrite !(proj2 (Z.ltb_lt _ _)) by lia. by eexists. }
  repeat (apply elem_of_cons in Ht as [->|Ht]); [..|by apply not_elem_of_nil in Ht].
  all: unfold map_tokens; cbn -[Z.land Z.shiftr Z.shiftl u32 Z.sub Z.add]; unfold computeShiftAndMask;
    cbn -[Z.land Z.shiftr Z.shiftl u32 Z.sub Z.add]; rewrite ?R1, ?B1, ?C1; eexists; (split; [reflexivity|]);
    intros addr; apply Hm; try done; clear addr; intros a;
    unfold unmap; cbn [row bank rank col rowShift bankShift rankShift colShift bankMask rankMask colMask];
    rewrite !Z.add_0_l; symmetry.
  all: first
    [ etransitivity; [apply (split_fields a bb rb cb); done|ring]
    | etransitivity; [apply (split_fields a bb cb rb); done|ring]
    | etransitivity; [apply (split_fields a rb bb cb); done|ring]
    | etransitivity; [apply (split_fields a rb cb bb); done|ring]
    | etransitivity; [apply (split_fields a cb bb rb); done|ring]
    | etransitivity; [apply (split_fields a cb rb bb); done|ring] ].
Qed.

(** Whatever the order of the fields, and whether or not the numbers of ranks and banks
    are powers of two, every line address maps to a rank and a bank that exist, and no two
    line addresses map to the same location. *)
Theorem mapping_roundtrip lineSize colSize ranks banks tokens :
  tokens ≡ₚ ["col"; "rank"; "bank"]%string ->
  0 < ranks < 2 ^ 32 -> 0 < banks < 2 ^ 32 ->
  let cols := u32 (colSize / (JEDEC_BUS_WIDTH / 8) * 64) / lineSize in
  0 < cols < 2 ^ 32 ->
  exists m, new_mapping lineSize colSize ranks banks tokens = Ok m /\
    forall addr, exists l, mapLineAddr m ranks banks addr = Ok l /\
      0 <= rank l < ranks /\ 0 <= bank l < banks /\ 0 <= col l < cols /\ unmap m l = addr.
Proof. apply new_mapping_spec. Qed.

Lemma mapping_roundtrip_witness :
  exists m, new_mapping 64 1024 3 8 ["rank"; "col"; "bank"]%string = Ok m /\
    forall addr, exists l, mapLineAddr m 3 8 addr = Ok l /\
      0 <= rank l < 3 /\ 0 <= bank l < 8 /\ 0 <= col l < 128 /\ unmap m l = addr.
Proof.
  apply (mapping_roundtrip 64 1024 3 8 ["rank"; "col"; "bank"]%string); [|lia|lia|by vm_compute].
  apply perm_swap.
Defined.

(** A field of width zero may be named twice, in place of one that matters: with one rank
    the bank bits become part of the row. *)
Example repeated_field : exists m,
  new_mapping 64 1024 1 8 ["rank"; "col"; "rank"]%string = Ok m /\ bankMask m = 0.
Proof. eexists. split; reflexivity. Qed.

(** ** ActWindow *)

Module ActWindow.

Record window := mkWin { buf : list Z; idx : Z }.

Definition init (size : Z) : window := mkWin (replicate (Z.to_nat size) 0) 0.

Definition minActCycle (w : window) : Z := buf w !!! Z.to_nat (idx w).

Definition inc (size i : Z) : Z := if i <? size - 1 then i + 1 else 0.
Definition dec (size i : Z) : Z := if negb (i =? 0) then i - 1 else size - 1.

(** The loop that keeps the activations ordered: the buffer, and the position for the new
    one.  It moves at most once around. *)
Fixpoint reorder (fuel : nat) (size idx actCycle : Z) (buf : list Z) (cur : Z) : list Z * Z :=
  match fuel with
  | O => (buf, cur)
  | S fuel =>
      let prev := buf !!! Z.to_nat (dec size cur) in
      if actCycle <? prev then
        let buf := <[Z.to_nat cur := prev]> buf in
        let cur := dec size cur in
        if cur =? idx then (buf, cur) else reorder fuel size idx actCycle buf cur
      else (buf, cur)
  end.

Definition addActivation (actCycle : Z) (w : window) : res window :=
  let size := Z.of_nat (length (buf w)) in
  _ ← assert_that (minActCycle w <=? actCycle);
  let '(b, cur) := reorder (length (buf w)) size (idx w) actCycle (buf w) (idx w) in
  mret (mkWin (<[Z.to_nat cur := actCycle]> b) (inc size (idx w))).

(** The order is lost when the new activation precedes all but the oldest: the loop goes
    one step too far, and the newest activation counts as the oldest. *)
Example reorder_too_far :
  addActivation 25 (mkWin [0; 30; 34; 38] 0) = Ok (mkWin [25; 38; 30; 34] 1) /\
  minActCycle (mkWin [25; 38; 30; 34] 1) = 38.
Proof. by split. Qed.

Definition wf (w : window) : Prop := 0 <= idx w < Z.of_nat (length (buf w)).

Lemma dec_range size i : 0 <= i < size -> 0 <= dec size i < size.
Proof. intros Hi. unfold dec. destruct (Z.eqb_spec i 0); cbn; lia. Qed.

Lemma inc_range size i : 0 <= i < size -> 0 <= inc size i < size.
Proof. intros Hi. unfold inc. destruct (Z.ltb_spec i (size - 1)); lia. Qed.

(** Whatever the order, the new activation takes the place of the one at [idx]. *)
Lemma reorder_spec fuel size id x : forall buf cur b c, size = Z.of_nat (length buf) ->
  0 <= cur < size -> reorder fuel size id x buf cur = (b, c) ->
  length b = length buf /\ 0 <= c < size /\
  <[Z.to_nat c := x]> b ≡ₚ <[Z.to_nat cur := x]> buf.
Proof.
  induction fuel as [|fuel IH]; intros buf cur b c Hs Hc; cbn [reorder]; [by intros [= <- <-]|].
  pose proof (dec_range size cur Hc) as Hd. set (d := dec size cur) in *. clearbody d.
  destruct (Z.ltb_spec x (buf !!! Z.to_nat d)) as [Hlt|Hge]; [|by intros [= <- <-]].
  set (buf1 := <[Z.to_nat cur := buf !!! Z.to_nat d]> buf).
  assert (length buf1 = length buf) as L1 by (unfold buf1; by rewrite length_insert).
  assert (<[Z.to_nat d := x]> buf1 ≡ₚ <[Z.to_nat cur := x]> buf) as P1.
  { unfold buf1. destruct (decide (d = cur)) as [->|Hne]; [by rewrite list_insert_insert_eq|].
    rewrite <- (list_insert_insert_eq buf (Z.to_nat cur) _ x).
    apply (Permutation_insert_swap _ (Z.to_nat cur)).
    - apply list_lookup_insert_eq. lia.
    - rewrite list_lookup_insert_ne by lia. apply list_lookup_lookup_total_lt. lia. }
  destruct (d =? id).
  - intros [= <- <-]. split; [exact L1|]. split; [exact Hd|exact P1].
  - intros E. destruct (IH buf1 d b c ltac:(lia) Hd E) as (K1 & K2 & K3).
    split_and!; [lia|lia|lia|]. by rewrite K3.
Qed.

Lemma addActivation_spec x w : wf w -> minActCycle w <= x ->
  exists w', addActivation x w = Ok w' /\ wf w' /\ length (buf w') = length (buf w) /\
    exists rest, buf w ≡ₚ minActCycle w :: rest /\ buf w' ≡ₚ x :: rest.
Proof.
  intros Hw Hx. unfold addActivation. rewrite (proj2 (Z.leb_le _ _) Hx). cbn [assert_that mbind res_bind].
  destruct (reorder _ _ _ _ _ _) as [b c] eqn:E. unfold wf in Hw.
  destruct (reorder_spec _ _ _ _ _ _ _ _ eq_refl Hw E) as (K1 & K2 & K3).
  eexists. split; [done|]. unfold wf. cbn. rewrite length_insert, K1.
  split; [by apply inc_range|]. split; [done|].
  assert (buf w !! Z.to_nat (idx w) = Some (minActCycle w)) as Hi.
  { apply list_lookup_lookup_total_lt. lia. }
  exists (delete (Z.to_nat (idx w)) (buf w)). split; [by apply delete_Permutation|].
  rewrite K3. rewrite (delete_Permutation _ (Z.to_nat (idx w)) x) by (apply list_lookup_insert_eq; lia).
  by rewrite !delete_take_drop, take_insert_ge, drop_insert_lt by lia.
Qed.

(** ** Activations per window *)

Section faw.
Context (F : Z) (F_pos : 0 < F).

(** Activations, latest first, any two at least [F] cycles apart. *)
Definition spaced (l : list Z) : Prop := StronglySorted (fun a b => b + F <= a) l.
Definition latest (l : list Z) : Z := match l with [] => 0 | a :: _ => a end.

(** The activations so far, in as many chains as the window has entries: an entry is the
    latest of its chain. *)
Definition chained (log : list Z) (w : window) : Prop :=
  wf w /\ exists chains, Forall spaced chains /\ latest <$> chains ≡ₚ buf w /\ concat chains ≡ₚ log /\
    length chains = length (buf w).

Lemma chained_init size : 0 < size -> chained [] (init size).
Proof.
  intros Hs. split; [unfold wf; cbn; rewrite length_replicate; lia|].
  exists (replicate (Z.to_nat size) []). cbn. rewrite !length_replicate, fmap_replicate. split_and!; try done.
  - apply Forall_replicate. constructor.
  - induction (Z.to_nat size); [done|]. cbn. done.
Qed.

Lemma chained_add log w x : chained log w -> minActCycle w + F <= x -> 0 <= x ->
  exists w', addActivation x w = Ok w' /\ chained (x :: log) w' /\ length (buf w') = length (buf w).
Proof.
  intros (Hw & chains & Hsp & Hl & Hc & Hn) Hx H0.
  destruct (addActivation_spec x w Hw ltac:(lia)) as (w' & E & Hw' & Hlen & rest & R1 & R2).
  exists w'. split; [done|]. split; [|done]. split; [done|].
  rewrite R1 in Hl. symmetry in Hl. apply Permutation_cons_inv_l in Hl as (k1 & k2 & Hf & Hk).
  apply fmap_app_inv in Hf as (c1 & c2' & -> & Hc2 & ->).
  destruct c2' as [|c c2]; [done|]. cbn in Hc2. injection Hc2 as Hlast ->.
  exists (c1 ++ (x :: c) :: c2). apply Forall_app in Hsp as [S1 S2]. inversion S2 as [|? ? S3 S4]; subst.
  split_and!.
  - apply Forall_app. split; [done|]. constructor; [|done]. constructor; [done|].
    destruct c as [|a c]; [constructor|]. cbn in Hlast. inversion S3 as [|? ? S5 S6]; subst.
    constructor; [lia|]. eapply Forall_impl; [exact S6|cbn; lia].
  - rewrite fmap_app. cbn. rewrite <- Permutation_middle, R2. by rewrite Hk.
  - rewrite !concat_app in *. cbn in *. rewrite <- Hc. by rewrite <- Permutation_middle.
  - rewrite Hlen, <- Hn, !length_app. done.
Qed.

Definition within (t : Z) (a : Z) : Prop := t <= a < t + F.
#[export] Instance within_dec t a : Decision (within t a).
Proof. unfold within. apply _. Defined.

Lemma spaced_within t l : spaced l -> (length (filter (within t) l) <= 1)%nat.
Proof.
  induction 1 as [|a l Hs IH Hall]; [cbn; lia|]. rewrite filter_cons. case_decide as Ha; [|done].
  cbn. enough (filter (within t) l = []) as -> by (cbn; lia).
  clear -Hall Ha. induction Hall as [|b l Hb _ IH]; [done|].
  rewrite filter_cons, decide_False; [done|]. unfold within in *. lia.
Qed.

Lemma chained_within t log w : chained log w ->
  (length (filter (within t) log) <= length (buf w))%nat.
Proof.
  intros (_ & chains & Hsp & _ & Hc & Hn). rewrite <- Hc, <- Hn. clear Hc Hn.
  induction Hsp as [|c chains Hs _ IH]; [cbn; lia|]. cbn. rewrite filter_app, length_app.
  pose proof (spaced_within t c Hs). lia.
Qed.

(** A run of activations, each at least [F] after what the window gives. *)
Fixpoint activations (l : list Z) (w : window) : res window :=
  match l with
  | [] => mret w
  | x :: l => w ← addActivation x w; activations l w
  end.

Fixpoint respects (l : list Z) (w : window) : Prop :=
  match l with
  | [] => True
  | x :: l => minActCycle w + F <= x /\ 0 <= x /\
      match addActivation x w with Ok w => respects l w | Fail _ => True end
  end.

(** Activations that wait for [tFAW] after the cycle the window gives never fail its
    assertion, and no [tFAW] cycles hold more of them than the window has entries, whatever
    the order of their cycles, and although the window may lose its order. *)
Theorem faw_safe size l t : 0 < size -> respects l (init size) ->
  is_ok (activations l (init size)) /\
  Z.of_nat (length (filter (within t) l)) <= size.
Proof.
  intros Hs Hr. cut (forall l log w, chained log w -> length (buf w) = Z.to_nat size -> respects l w ->
    is_ok (activations l w) /\ Z.of_nat (length (filter (within t) (rev l ++ log))) <= size).
  { intros Hc. destruct (Hc l [] (init size) (chained_init size Hs)) as [H1 H2]; [|done|].
    - cbn. by rewrite length_replicate.
    - split; [done|]. rewrite app_nil_r in H2. by rewrite <- (Permutation_rev l) in H2. }
  clear l Hr. induction l as [|x l IH]; intros log w Hc Hn Hr; cbn [activations rev].
  - split; [by eexists|]. cbn. pose proof (chained_within t log w Hc). lia.
  - destruct Hr as (Hx & H0 & Hr). destruct (chained_add log w x Hc Hx H0) as (w' & E & Hc' & Hn').
    rewrite E in Hr |- *. cbn. rewrite <- app_assoc. apply (IH (x :: log) w'); [done|lia|done].
Qed.
End faw.

Lemma faw_safe_witness :
  respects 20 [20; 50; 54; 58; 45; 78] (init 4) /\
  is_ok (activations [20; 50; 54; 58; 45; 78] (init 4)) /\
  Z.of_nat (length (filter (within 20 40) [20; 50; 54; 58; 45; 78])) <= 4.
Proof.
  assert (respects 20 [20; 50; 54; 58; 45; 78] (init 4)) as Hr by (vm_compute; intuition discriminate).
  split; [exact Hr|]. apply (faw_safe 20 ltac:(lia) 4 _ 40); [lia|exact Hr].
Defined.
End ActWindow.
End DdrTiming.
