(* ===== verification/DdrMem.v ===== *)
(** The DDR memory controller (ddr_mem.h and ddr_mem.cpp): its request queues, the FR-FCFS
    scheduler, refreshes, and the event that ticks it.  Requests are numbered nodes of the
    two pools; [-1ul] as a cycle is [None]; cycles are 64-bit counters that do not wrap.
    Three fields of the state are not in the source: [agenda], the scheduling events queued
    in the contention simulation, [outs], what the controller told the events of its
    requests, and [cmds], the commands it recorded as sent to the memory. *)
From S2P Require Import Prelude MemHier DdrTiming.
Import MemHier DdrTiming.

Module DdrMem.

Record Request := mkRequest {
  r_addr : Z;
  r_loc : AddrLoc;
  r_write : bool;
  rowHitSeq : Z;
  arrivalCycle : Z;
  startSysCycle : Z;
  r_ev : option nat
}.

Record Bank := mkBank {
  openRow : Z;
  open : bool;
  minPreCycle : Z;
  lastActCycle : Z;
  lastCmdCycle : Z;
  curRowHits : Z;
  rdReqs : list nat;
  wrReqs : list nat
}.

(** [RequestQueue]: the requests in order of arrival, and the free nodes, last first. *)
Record RequestQueue := mkRQ { reqList : list nat; freeList : list nat }.

Inductive SchedState := IDLE | QUEUED | RUNNING | ANNULLED.
#[export] Instance SchedState_eq_dec : EqDecision SchedState.
Proof. solve_decision. Defined.

Inductive cmd :=
  | PRE (t rk bk : Z)
  | ACT (t rk bk r : Z)
  | CAS (wr : bool) (t rk bk r : Z)
  | REF (start done : Z).

Inductive out :=
  | Hold (ev : nat)
  | Release (ev : nat)
  | Done (ev : nat) (cyc : Z).

Record stats := mkStats {
  profReads : Z; profWrites : Z; profTotalRdLat : Z; profTotalWrLat : Z;
  profReadHits : Z; profWriteHits : Z; latencyHist : Z -> Z
}.

Record ddr := mkDdr {
  minRespCycle : Z;
  lastCmdWasWrite : bool;
  reqs : nat -> Request;
  rdQueue : RequestQueue;
  wrQueue : RequestQueue;
  overflowQueue : list Request;
  banks : Z * Z -> Bank; (* by rank and bank *)
  actWindows : Z -> ActWindow.window;
  sched : nat -> SchedState; (* of the scheduling events *)
  numSched : nat;
  nextSchedEvent : option nat;
  nextSchedCycle : option Z;
  eventFreelist : list nat;
  profs : stats;
  agenda : list (Z * nat);
  outs : list out;
  cmds : list cmd
}.

Record config := mkCfg {
  T : tech;
  ranksPerChannel : Z;
  banksPerRank : Z;
  controllerSysLatency : Z;
  queueDepth : Z;
  rowHitLimit : Z;
  deferredWrites : bool;
  closedPage : bool;
  amap : addrmap;
  sysFreqKHz : Z;
  memFreqKHz : Z
}.

(** ** RequestQueue *)

Definition rq_empty (q : RequestQueue) : bool := bool_decide (reqList q = []).
Definition rq_full (q : RequestQueue) : bool := bool_decide (freeList q = []).
Definition rq_size (q : RequestQueue) : Z := Z.of_nat (length (reqList q)).

Definition alloc (q : RequestQueue) : res (nat * RequestQueue) :=
  match last (freeList q) with
  | None => Fail AssertFailed
  | Some n => mret (n, mkRQ (reqList q ++ [n]) (removelast (freeList q)))
  end.

Fixpoint list_remove (n : nat) (l : list nat) : list nat :=
  match l with
  | [] => []
  | x :: l => if (x =? n)%nat then l else x :: list_remove n l
  end.

Definition rq_remove (n : nat) (q : RequestQueue) : RequestQueue :=
  mkRQ (list_remove n (reqList q)) (freeList q ++ [n]).

(** ** Parts of the state *)

Section fields.
Context (d : ddr).
Definition set_reqs (r : nat -> Request) : ddr :=
  mkDdr (minRespCycle d) (lastCmdWasWrite d) r (rdQueue d) (wrQueue d) (overflowQueue d)
    (banks d) (actWindows d) (sched d) (numSched d) (nextSchedEvent d) (nextSchedCycle d)
    (eventFreelist d) (profs d) (agenda d) (outs d) (cmds d).
Definition set_queues (rd wr : RequestQueue) (ovf : list Request) : ddr :=
  mkDdr (minRespCycle d) (lastCmdWasWrite d) (reqs d) rd wr ovf
    (banks d) (actWindows d) (sched d) (numSched d) (nextSchedEvent d) (nextSchedCycle d)
    (eventFreelist d) (profs d) (agenda d) (outs d) (cmds d).
Definition set_bank (k : Z * Z) (b : Bank) : ddr :=
  mkDdr (minRespCycle d) (lastCmdWasWrite d) (reqs d) (rdQueue d) (wrQueue d) (overflowQueue d)
    (<[k := b]> (banks d)) (actWindows d) (sched d) (numSched d) (nextSchedEvent d)
    (nextSchedCycle d) (eventFreelist d) (profs d) (agenda d) (outs d) (cmds d).
Definition add_outs (o : list out) : ddr :=
  mkDdr (minRespCycle d) (lastCmdWasWrite d) (reqs d) (rdQueue d) (wrQueue d) (overflowQueue d)
    (banks d) (actWindows d) (sched d) (numSched d) (nextSchedEvent d) (nextSchedCycle d)
    (eventFreelist d) (profs d) (agenda d) (outs d ++ o) (cmds d).
(** The fields of the scheduling events. *)
Definition set_sched (s : nat -> SchedState) (n : nat) (e : option nat) (c : option Z)
    (fl : list nat) (ag : list (Z * nat)) : ddr :=
  mkDdr (minRespCycle d) (lastCmdWasWrite d) (reqs d) (rdQueue d) (wrQueue d) (overflowQueue d)
    (banks d) (actWindows d) s n e c fl (profs d) ag (outs d) (cmds d).
(** What serving a request changes besides its bank. *)
Definition set_service (resp : Z) (wr : bool) (w : Z -> ActWindow.window) (p : stats)
    (c : list cmd) : ddr :=
  mkDdr resp wr (reqs d) (rdQueue d) (wrQueue d) (overflowQueue d)
    (banks d) w (sched d) (numSched d) (nextSchedEvent d) (nextSchedCycle d)
    (eventFreelist d) p (agenda d) (outs d) (cmds d ++ c).
End fields.

Section DdrMem.
Context (g : config).

Definition sysToMem := sysToMemCycle (sysFreqKHz g) (memFreqKHz g).
Definition memToSys := memToSysCycle (sysFreqKHz g) (memFreqKHz g).
Definition matching := matchingMemToSysCycle (sysFreqKHz g) (memFreqKHz g).

Definition minRdLatency : Z := controllerSysLatency g + memToSys (tCL (T g) + tBL (T g) - 1).
Definition minWrLatency : Z := controllerSysLatency g.
Definition preDelay : Z := controllerSysLatency g.
Definition postDelayRd : Z := minRdLatency - preDelay.
Definition postDelayWr : Z := 0.

Definition no_request : Request := mkRequest 0 (mkLoc 0 0 0 0) false 0 0 0 None.
Definition new_bank : Bank := mkBank 0 false 0 0 0 0 [] [].

(** The constructor, after the frequencies are checked. *)
Definition new : ddr :=
  let n := Z.to_nat (queueDepth g) in
  mkDdr (tCL (T g) + tBL (T g) + 1) false (fun _ => no_request)
    (mkRQ [] (seq 0 n)) (mkRQ [] (seq n n)) [] (fun _ => new_bank) (fun _ => ActWindow.init 4)
    (fun _ => IDLE) 0 None None [] (mkStats 0 0 0 0 0 0 (fun _ => 0)) [] [] [].

(** [access], in the bound phase: the state it grants, the cycle of the response, and the
    event it records for the weave phase: whether a write, its delays, its first cycle. *)
Definition access (recorder : bool) (req : MemReq) : MESIState * Z * option (bool * Z * Z * Z) :=
  let st := grant (type req) (flags req) in
  if bool_decide (type req = PUTS) then (st, cycle req, None)
  else
    let isWrite := bool_decide (type req = PUTX) in
    let respCycle := cycle req + (if isWrite then minWrLatency else minRdLatency) in
    (st, respCycle,
     if recorder then Some (isWrite, preDelay, if isWrite then postDelayWr else postDelayRd, cycle req)
     else None).

(** ** Requests and banks *)

Definition loc_key (l : AddrLoc) : Z * Z := (rank l, bank l).
Definition bank_of (d : ddr) (r : Request) : Bank := banks d (loc_key (r_loc r)).

(** Which pool and which list of its bank a request is in. *)
Definition useWr (r : Request) : bool := deferredWrites g && r_write r.
Definition bank_queue (wr : bool) (b : Bank) : list nat := if wr then wrReqs b else rdReqs b.
Definition set_bank_queue (wr : bool) (q : list nat) (b : Bank) : Bank :=
  mkBank (openRow b) (open b) (minPreCycle b) (lastActCycle b) (lastCmdCycle b) (curRowHits b)
    (if wr then rdReqs b else q) (if wr then q else wrReqs b).

(** [!req->prev]: first of its bank. *)
Definition is_first (d : ddr) (id : nat) : bool :=
  let r := reqs d id in bool_decide (head (bank_queue (useWr r) (bank_of d r)) = Some id).

Fixpoint insert_after (m id : nat) (q : list nat) : list nat :=
  match q with
  | [] => []
  | x :: q => if (x =? m)%nat then x :: id :: q else x :: insert_after m id q
  end.

(** Where [queue] puts a request in the list [q] of its bank, and its [rowHitSeq]. *)
Definition enqueue_bank (rqs : nat -> Request) (b : Bank) (r : Request) (id : nat) (q : list nat)
    : list nat * Z :=
  match List.find (fun m => row (r_loc (rqs m)) =? row (r_loc r)) (rev q) with
  | Some m =>
      if rowHitSeq (rqs m) <? rowHitLimit g then (insert_after m id q, rowHitSeq (rqs m) + 1)
      else (q ++ [id], 0)
  | None =>
      if open b && (row (r_loc r) =? openRow b) && (curRowHits b <? rowHitLimit g)
         && bool_decide (q = [])
      then (id :: q, curRowHits b + 1)
      else (q ++ [id], 0)
  end.

(** [queue]: the request, in node [id] of its pool, joins the list of its bank; a write is
    answered. *)
Definition queue (id : nat) (memCycle : Z) (d : ddr) : res ddr :=
  let r := reqs d id in
  d ← (if r_write r then
         match r_ev r with
         | None => Fail AssertFailed
         | Some ev =>
             mret (add_outs d [Release ev; Done ev (memToSys memCycle + minWrLatency - preDelay - postDelayWr)])
         end
       else mret d);
  let b := bank_of d r in
  let '(q, seq) := enqueue_bank (reqs d) b r id (bank_queue (useWr r) b) in
  let r' := mkRequest (r_addr r) (r_loc r) (r_write r) seq memCycle (startSysCycle r)
              (if r_write r then None else r_ev r) in
  mret (set_bank (set_reqs d (<[id := r']> (reqs d))) (loc_key (r_loc r))
          (set_bank_queue (useWr r) q b)).

(** ** Timing constraints *)

(** The precharge, if one is needed, and the activation of a request that misses the row
    buffer. *)
Definition pre_cycle (d : ddr) (r : Request) : res Z :=
  let b := bank_of d r in
  if negb (open b) then mret (minPreCycle b)
  else
    _ ← assert_that (negb (row (r_loc r) =? openRow b));
    mret (Z.max (arrivalCycle r) (minPreCycle b)).

Definition act_cycle (d : ddr) (r : Request) (preCycle : Z) : Z :=
  let b := bank_of d r in
  Z.max (Z.max (arrivalCycle r) (Z.max (preCycle + tRP (T g)) (lastActCycle b + tRRD (T g))))
    (ActWindow.minActCycle (actWindows d (rank (r_loc r))) + tFAW (T g)).

Definition row_hit (d : ddr) (r : Request) : bool :=
  (row (r_loc r) =? openRow (bank_of d r)) && open (bank_of d r).

Definition findMinCmdCycle (d : ddr) (r : Request) : res Z :=
  if row_hit d r then mret (Z.max (arrivalCycle r) (lastCmdCycle (bank_of d r) + 1))
  else
    preCycle ← pre_cycle d r;
    mret (act_cycle d r preCycle + tRCD (T g)).

(** ** trySchedule *)

(** [None] is [-1ul]. *)
Definition min_opt (a : option Z) (b : Z) : option Z :=
  match a with None => Some b | Some a => Some (Z.min a b) end.

(** The loop over the queue: the request that can issue, or else the first cycle at which
    one can. *)
Fixpoint pick (d : ddr) (curCycle : Z) (l : list nat) (minSched : option Z)
    : res (option nat * option Z) :=
  match l with
  | [] => mret (None, minSched)
  | id :: l =>
      if is_first d id then
        minCmdCycle ← findMinCmdCycle d (reqs d id);
        let minSched := min_opt minSched minCmdCycle in
        if minCmdCycle <=? curCycle then mret (Some id, minSched)
        else pick d curCycle l minSched
      else pick d curCycle l minSched
  end.

Definition is_write_queue (d : ddr) : bool :=
  let n := rq_size (wrQueue d) in
  rq_empty (rdQueue d) || (3 * queueDepth g / 4 <? n)
  || (lastCmdWasWrite d && (queueDepth g / 4 <? n)).

(** Opening the row: the commands it takes, the bank, the activation window, and the first
    cycle for the column access. *)
Definition open_row (d : ddr) (r : Request) (minCmd : Z)
    : res (list cmd * Bank * ActWindow.window * Z) :=
  let b := bank_of d r in
  let rk := rank (r_loc r) in
  let bk := bank (r_loc r) in
  if row_hit d r then mret ([], b, actWindows d rk, minCmd)
  else
    preCycle ← pre_cycle d r;
    let preIssued := open b in
    let actCycle := act_cycle d r preCycle in
    w ← ActWindow.addActivation actCycle (actWindows d rk);
    mret ((if preIssued then [PRE preCycle rk bk] else []) ++ [ACT actCycle rk bk (row (r_loc r))],
          mkBank (row (r_loc r)) true (if preIssued then preCycle + tRAS (T g) else minPreCycle b)
            actCycle (lastCmdCycle b) (curRowHits b) (rdReqs b) (wrReqs b),
          w, Z.max minCmd (actCycle + tRCD (T g))).

(** [r->next && r->next->rowHitSeq != 0]. *)
Definition next_hits (d : ddr) (q : list nat) : bool :=
  match q with _ :: n :: _ => negb (rowHitSeq (reqs d n) =? 0) | _ => false end.

Definition count_service (r : Request) (hit : bool) (scDelay : Z) (p : stats) : stats :=
  match r_ev r with
  | Some _ =>
      mkStats (u64 (profReads p + 1)) (profWrites p) (u64 (profTotalRdLat p + scDelay))
        (profTotalWrLat p) (if hit then u64 (profReadHits p + 1) else profReadHits p) (profWriteHits p)
        (<[Z.min 99 (scDelay / 10) := u64 (latencyHist p (Z.min 99 (scDelay / 10)) + 1)]> (latencyHist p))
  | None =>
      mkStats (profReads p) (u64 (profWrites p + 1)) (profTotalRdLat p)
        (u64 (profTotalWrLat p + scDelay)) (profReadHits p)
        (if hit then u64 (profWriteHits p + 1) else profWriteHits p) (latencyHist p)
  end.

(** Serving request [id], found ready. *)
Definition serve (id : nat) (isWriteQueue : bool) (curCycle sysCycle : Z) (d : ddr) : res ddr :=
  let r := reqs d id in
  let key := loc_key (r_loc r) in
  let minCmd0 := Z.max curCycle (minRespCycle d - tCL (T g)) in
  let minCmd1 := if lastCmdWasWrite d && negb (r_write r)
                 then Z.max minCmd0 (minRespCycle d + tWTR (T g)) else minCmd0 in
  '(opening, b, w, minCmd) ← open_row d r minCmd1;
  let cmdCycle := Z.max minCmd (minRespCycle d - tCL (T g)) in
  let resp := cmdCycle + tCL (T g) + tBL (T g) in
  let closes := closedPage g && negb (next_hits d (bank_queue isWriteQueue b)) in
  let minPre := Z.max (minPreCycle b) (Z.max (lastActCycle b + tRAS (T g))
                  (if r_write r then resp + tWR (T g) else cmdCycle + tRTP (T g))) in
  _ ← assert_that (lastCmdCycle b <? cmdCycle);
  let doneSys := memToSys resp + controllerSysLatency g in
  let hit := row_hit d r in
  d ← match r_ev r with
      | Some ev =>
          _ ← assert_that (negb (r_write r));
          _ ← assert_that (sysCycle <=? doneSys);
          mret (add_outs d [Release ev; Done ev (doneSys - preDelay - postDelayRd)])
      | None => mret d
      end;
  let d := set_service d resp (r_write r) (<[rank (r_loc r) := w]> (actWindows d))
             (count_service r hit (u32 (doneSys - startSysCycle r)) (profs d))
             (opening ++ [CAS (r_write r) cmdCycle (rank (r_loc r)) (bank (r_loc r)) (row (r_loc r))]
              ++ (if closes then [PRE minPre (rank (r_loc r)) (bank (r_loc r))] else [])) in
  let d := set_queues d (if isWriteQueue then rdQueue d else rq_remove id (rdQueue d))
             (if isWriteQueue then rq_remove id (wrQueue d) else wrQueue d) (overflowQueue d) in
  mret (set_bank d key
          (set_bank_queue isWriteQueue (tail (bank_queue isWriteQueue b))
             (mkBank (openRow b) (if closes then false else open b) minPre (lastActCycle b) cmdCycle
                (rowHitSeq r) (rdReqs b) (wrReqs b)))).

Definition trySchedule (curCycle sysCycle : Z) (d : ddr) : res (ddr * option Z) :=
  if rq_empty (rdQueue d) && rq_empty (wrQueue d) then mret (d, None)
  else if curCycle + tCL (T g) <? minRespCycle d then mret (d, Some (minRespCycle d - tCL (T g)))
  else
    let isWriteQueue := is_write_queue d in
    let q := if isWriteQueue then wrQueue d else rdQueue d in
    _ ← assert_that (negb (rq_empty q));
    '(r, minSched) ← pick d curCycle (reqList q) None;
    match r with
    | None => mret (d, minSched)
    | Some id =>
        d ← serve id isWriteQueue curCycle sysCycle d;
        mret (d, if rq_empty (rdQueue d) && rq_empty (wrQueue d) then None
                 else Some (minRespCycle d - tCL (T g)))
    end.

(** ** Scheduling events *)

Definition later (a : option Z) (b : Z) : bool := match a with None => true | Some a => b <? a end.

(** The part of [enqueue] that schedules a tick at [minSchedCycle]. *)
Definition schedule_tick (minSchedCycle sysCycle : Z) (d : ddr) : res ddr :=
  s ← match nextSchedEvent d with
      | None => mret (sched d)
      | Some e => (* annul *)
          _ ← assert_that (bool_decide (sched d e = QUEUED));
          mret (<[e := ANNULLED]> (sched d))
      end;
  let '(e, fl, n) := match eventFreelist d with
                     | e :: fl => (e, fl, numSched d)
                     | [] => (numSched d, [], (numSched d + 1)%nat)
                     end in
  let enqSysCycle := Z.max (matching minSchedCycle) sysCycle in
  _ ← assert_that (bool_decide (s e = IDLE));
  mret (set_sched d (<[e := QUEUED]> s) n (Some e) (Some minSchedCycle) fl
          ((enqSysCycle, e) :: agenda d)).

(** [enqueue], for the event [ev] of a read or write of [addr]. *)
Definition enqueue (ev : nat) (addr : Z) (write : bool) (sysCycle : Z) (d : ddr) : res ddr :=
  let memCycle := sysToMem sysCycle in
  let overflow := rq_full (rdQueue d) || rq_full (wrQueue d) in
  loc ← mapLineAddr (amap g) (ranksPerChannel g) (banksPerRank g) addr;
  let r := mkRequest addr loc write 0 memCycle sysCycle (Some ev) in
  let d := add_outs d [Hold ev] in
  if overflow then mret (set_queues d (rdQueue d) (wrQueue d) (overflowQueue d ++ [r]))
  else
    '(id, q) ← alloc (if useWr r then wrQueue d else rdQueue d);
    let d := set_queues d (if useWr r then rdQueue d else q) (if useWr r then q else wrQueue d)
               (overflowQueue d) in
    d ← queue id memCycle (set_reqs d (<[id := r]> (reqs d)));
    if is_first d id then
      let minSched := Z.max memCycle (minRespCycle d - tCL (T g) - tBL (T g)) in
      minSched ← (if later (nextSchedCycle d) minSched then
                    c ← findMinCmdCycle d (reqs d id); mret (Z.max minSched c)
                  else mret minSched);
      if later (nextSchedCycle d) minSched then schedule_tick minSched sysCycle d else mret d
    else mret d.

(** The part of [tick] that moves a request out of the overflow queue. *)
Definition pull_overflow (memCycle : Z) (d : ddr) (minSched : option Z) : res (ddr * option Z) :=
  match negb (rq_full (rdQueue d)) && negb (rq_full (wrQueue d)), overflowQueue d with
  | true, r :: ovf =>
      '(id, q) ← alloc (if useWr r then wrQueue d else rdQueue d);
      let d := set_queues d (if useWr r then rdQueue d else q) (if useWr r then q else wrQueue d) ovf in
      d ← queue id memCycle (set_reqs d (<[id := r]> (reqs d)));
      if is_first d id then
        let minQueued := Z.max memCycle (minRespCycle d - tCL (T g) - tBL (T g)) in
        minSched ← (if later minSched minQueued then
                      c ← findMinCmdCycle d (reqs d id); mret (Some (Z.max minQueued c))
                    else mret minSched);
        mret (d, if later minSched minQueued then Some minQueued else minSched)
      else mret (d, minSched)
  | _, _ => mret (d, minSched)
  end.

(** [tick]: the cycle of the next one, [None] for 0. *)
Definition tick (sysCycle : Z) (d : ddr) : res (ddr * option Z) :=
  let memCycle := sysToMem sysCycle in
  _ ← assert_that (bool_decide (nextSchedCycle d = Some memCycle));
  '(d, minSched) ← trySchedule memCycle sysCycle d;
  _ ← assert_that (match minSched with Some c => memCycle <=? c | None => true end);
  '(d, minSched) ← pull_overflow memCycle d minSched;
  mret (match minSched with
        | None => (set_sched d (sched d) (numSched d) None None (eventFreelist d) (agenda d), None)
        | Some c =>
            (set_sched d (sched d) (numSched d) (nextSchedEvent d) (Some c) (eventFreelist d) (agenda d),
             Some (Z.max (matching c) sysCycle))
        end).

(** [recycleEvent]: an event on the free list has a successor, or is its last. *)
Definition recycleEvent (e : nat) (d : ddr) : res ddr :=
  _ ← assert_that (negb (bool_decide (nextSchedEvent d = Some e)));
  _ ← assert_that (negb (bool_decide (e ∈ eventFreelist d)));
  mret (set_sched d (<[e := IDLE]> (sched d)) (numSched d) (nextSchedEvent d) (nextSchedCycle d)
          (e :: eventFreelist d) (agenda d)).

Fixpoint unqueue (a : Z * nat) (l : list (Z * nat)) : list (Z * nat) :=
  match l with
  | [] => []
  | b :: l => if bool_decide (a = b) then l else b :: unqueue a l
  end.

(** [SchedEvent::simulate], when the contention simulation takes the event off its queue. *)
Definition simulate (e : nat) (startCycle : Z) (d : ddr) : res ddr :=
  let d := set_sched d (sched d) (numSched d) (nextSchedEvent d) (nextSchedCycle d)
             (eventFreelist d) (unqueue (startCycle, e) (agenda d)) in
  match sched d e with
  | QUEUED =>
      let d := set_sched d (<[e := RUNNING]> (sched d)) (numSched d) (nextSchedEvent d)
                 (nextSchedCycle d) (eventFreelist d) (agenda d) in
      '(d, next) ← tick startCycle d;
      match next with
      | Some c =>
          mret (set_sched d (<[e := QUEUED]> (sched d)) (numSched d) (nextSchedEvent d)
                  (nextSchedCycle d) (eventFreelist d) ((c, e) :: agenda d))
      | None => recycleEvent e d
      end
  | ANNULLED => recycleEvent e d
  | _ => Fail AssertFailed
  end.

(** ** Refresh *)

Definition all_banks : list (Z * Z) :=
  rk ← seqZ 0 (ranksPerChannel g); bk ← seqZ 0 (banksPerRank g); [(rk, bk)].

Definition refresh (sysCycle : Z) (d : ddr) : res ddr :=
  let memCycle := sysToMem sysCycle in
  let minRefresh := foldl (fun m k => Z.max m (Z.max (minPreCycle (banks d k)) (lastCmdCycle (banks d k))))
                      memCycle all_banks in
  _ ← assert_that (memCycle <=? minRefresh);
  let refreshDone := minRefresh + tRFC (T g) in
  _ ← assert_that (tRP (T g) <=? tRFC (T g));
  let close b := mkBank (openRow b) false (refreshDone - tRP (T g)) (lastActCycle b) (lastCmdCycle b)
                   (curRowHits b) (rdReqs b) (wrReqs b) in
  let d := foldl (fun d k => set_bank d k (close (banks d k))) d all_banks in
  mret (set_service d (minRespCycle d) (lastCmdWasWrite d) (actWindows d) (profs d)
          [REF minRefresh refreshDone]).

(** ** The controller in the weave phase

    The contention simulation calls it in the order of cycles: a request, a refresh, or the
    scheduling event at the head of the agenda. *)
Inductive op :=
  | Enqueue (ev : nat) (addr : Z) (write : bool) (cyc : Z)
  | Refresh (cyc : Z)
  | Fire (cyc : Z) (e : nat).

Definition op_cycle (o : op) : Z :=
  match o with Enqueue _ _ _ c | Refresh c | Fire c _ => c end.

Definition run_op (o : op) (d : ddr) : res ddr :=
  match o with
  | Enqueue ev addr write c => enqueue ev addr write c d
  | Refresh c => refresh c d
  | Fire c e => simulate e c d
  end.

(** An operation may come at this point: not before the last one, and nothing on the agenda
    is left behind. *)
Definition may_run (now : Z) (o : op) (d : ddr) : Prop :=
  now <= op_cycle o /\ (forall a, a ∈ agenda d -> op_cycle o <= a.1) /\
  match o with
  | Enqueue _ addr _ _ => 0 <= addr
  | Refresh _ => True
  | Fire c e => (c, e) ∈ agenda d
  end.

Inductive reachable : Z -> ddr -> Prop :=
  | reach_new : reachable 0 new
  | reach_op now o d d' : reachable now d -> may_run now o d -> run_op o d = Ok d' ->
      reachable (op_cycle o) d'.

End DdrMem.
End DdrMem.
