(* ===== verification/DdrSafe.v ===== *)
(** What the DDR controller of DdrMem promises: the commands it records obey the protocol of
    the memory devices, none of its assertions fails, and as long as it has requests it has
    a tick to come. *)
From S2P Require Import Prelude MemHier DdrTiming DdrMem.
Import DdrTiming DdrMem.

Module DdrSafe.

(** ** The memory devices

    A bank is closed or has a row open; it remembers when it was last precharged and
    activated, its last read command and the end of its last write burst.  The channel has
    one data bus; a rank remembers its activations. *)

Record dbank := mkDB {
  b_open : option Z;
  b_pre : option Z;
  b_act : option Z;
  b_rd : option Z;
  b_wr : option Z
}.

Record device := mkDev {
  dv_banks : Z * Z -> dbank;
  dv_bus : option (Z * bool); (* end of the last burst; whether a write *)
  dv_acts : Z -> list Z
}.

Definition idle_bank : dbank := mkDB None None None None None.
Definition device0 : device := mkDev (fun _ => idle_bank) None (fun _ => []).

Definition after (o : option Z) (wait t : Z) : Prop :=
  match o with None => True | Some c => c + wait <= t end.

Section Device.
Context (t : tech) (nranks nbanks : Z).

(** A bank may be precharged: tRAS, tRTP and tWR have passed. *)
Definition may_precharge (b : dbank) (c : Z) : Prop :=
  after (b_act b) (tRAS t) c /\ after (b_rd b) (tRTP t) c /\ after (b_wr b) (tWR t) c.

Definition valid_bank (k : Z * Z) : Prop := 0 <= k.1 < nranks /\ 0 <= k.2 < nbanks.

Inductive accepts (v : device) : cmd -> device -> Prop :=
  | acc_pre c rk bk r b : dv_banks v (rk, bk) = b -> b_open b = Some r -> may_precharge b c ->
      accepts v (PRE c rk bk)
        (mkDev (<[(rk, bk) := mkDB None (Some c) (b_act b) (b_rd b) (b_wr b)]> (dv_banks v))
           (dv_bus v) (dv_acts v))
  | acc_act c rk bk r b : dv_banks v (rk, bk) = b -> b_open b = None -> after (b_pre b) (tRP t) c ->
      (forall u, (length (filter (ActWindow.within (tFAW t) u) (c :: dv_acts v rk)) <= 4)%nat) ->
      accepts v (ACT c rk bk r)
        (mkDev (<[(rk, bk) := mkDB (Some r) (b_pre b) (Some c) (b_rd b) (b_wr b)]> (dv_banks v))
           (dv_bus v) (<[rk := c :: dv_acts v rk]> (dv_acts v)))
  | acc_cas wr c rk bk r b : dv_banks v (rk, bk) = b -> b_open b = Some r ->
      after (b_act b) (tRCD t) c ->
      match dv_bus v with
      | None => True
      | Some (e, w) => e <= c + tCL t /\ (w = true -> wr = false -> e + tWTR t <= c)
      end ->
      accepts v (CAS wr c rk bk r)
        (mkDev (<[(rk, bk) := mkDB (b_open b) (b_pre b) (b_act b)
                    (if wr then b_rd b else Some c)
                    (if wr then Some (c + tCL t + tBL t) else b_wr b)]> (dv_banks v))
           (Some (c + tCL t + tBL t, wr)) (dv_acts v))
  | acc_ref s done v' : s + tRFC t <= done ->
      (forall k, valid_bank k -> may_precharge (dv_banks v k) s /\ after (b_pre (dv_banks v k)) 0 s) ->
      (forall k, valid_bank k -> v' k = mkDB None (Some (done - tRP t)) (b_act (dv_banks v k))
                                   (b_rd (dv_banks v k)) (b_wr (dv_banks v k))) ->
      (forall k, ~ valid_bank k -> v' k = dv_banks v k) ->
      accepts v (REF s done) (mkDev v' (dv_bus v) (dv_acts v)).

Inductive accepts_all : device -> list cmd -> device -> Prop :=
  | accs_nil v : accepts_all v [] v
  | accs_snoc v l v1 c v2 : accepts_all v l v1 -> accepts v1 c v2 -> accepts_all v (l ++ [c]) v2.

Lemma accepts_all_app v l1 v1 l2 v2 :
  accepts_all v l1 v1 -> accepts_all v1 l2 v2 -> accepts_all v (l1 ++ l2) v2.
Proof.
  intros H1 H2. induction H2 as [v1|v1 l v3 c v4 H2 IH Hc]; [by rewrite app_nil_r|].
  rewrite app_assoc. eapply accs_snoc; [by apply IH|done].
Qed.

Lemma accepts_one v c v' : accepts v c v' -> accepts_all v [c] v'.
Proof. intros H. apply (accs_snoc v [] v c v'); [constructor|done]. Qed.

(** ** The controller's view of the devices *)

Record bank_view (resp : Z) (b : Bank) (db : dbank) : Prop := {
  bv_open : b_open db = if open b then Some (openRow b) else None;
  bv_nonneg : 0 <= minPreCycle b;
  bv_pre : after (b_pre db) 0 (minPreCycle b);
  bv_act : b_act db = None \/ b_act db = Some (lastActCycle b);
  bv_rcd : open b = true -> after (b_act db) (tRCD t) (lastCmdCycle b);
  bv_may : may_precharge db (minPreCycle b);
  bv_last : lastCmdCycle b + tCL t + tBL t <= resp
}.

Definition acts_view (w : Z -> ActWindow.window) (v : device) : Prop :=
  forall rk, ActWindow.chained (tFAW t) (dv_acts v rk) (w rk) /\
    length (ActWindow.buf (w rk)) = 4%nat.

Record view (d : ddr) (v : device) : Prop := {
  vw_banks : forall k, bank_view (minRespCycle d) (banks d k) (dv_banks v k);
  vw_bus : match dv_bus v with
           | None => True
           | Some (e, w) => e = minRespCycle d /\ w = lastCmdWasWrite d
           end;
  vw_acts : acts_view (actWindows d) v
}.

Hypothesis Ht : tech_ok t.

Lemma after_mono o w c c' : c <= c' -> after o w c -> after o w c'.
Proof. destruct o; cbn; lia. Qed.

Lemma after_later o w c c' : c + w <= c' -> after o 0 c -> after o w c'.
Proof. destruct o; cbn; lia. Qed.

Lemma may_precharge_mono b c c' : c <= c' -> may_precharge b c -> may_precharge b c'.
Proof. intros Hc (H1 & H2 & H3). split_and!; by eapply after_mono. Qed.

Lemma bank_view_mono resp resp' b db : resp <= resp' -> bank_view resp b db -> bank_view resp' b db.
Proof. intros Hr [? ? ? ? ? ? ?]. split; try done. lia. Qed.


(** The fields of a bank that timing depends on. *)
Definition timing (b : Bank) : Z * bool * Z * Z * Z :=
  (openRow b, open b, minPreCycle b, lastActCycle b, lastCmdCycle b).

Lemma bank_view_timing resp b b' db : timing b = timing b' -> bank_view resp b db -> bank_view resp b' db.
Proof.
  destruct b, b'. unfold timing. cbn. intros [= -> -> -> -> ->] [? ? ? ? ? ? ?]. by split.
Qed.

(** States that differ in requests, queues, and scheduling events only. *)
Record same (d d' : ddr) : Prop := {
  sm_resp : minRespCycle d' = minRespCycle d;
  sm_wr : lastCmdWasWrite d' = lastCmdWasWrite d;
  sm_win : actWindows d' = actWindows d;
  sm_cmds : cmds d' = cmds d;
  sm_banks : forall k, timing (banks d' k) = timing (banks d k)
}.

#[global] Instance same_preorder : PreOrder same.
Proof.
  split; [by intros d; split|]. intros a b c [E1 E2 E3 E4 Hb] [F1 F2 F3 F4 Hc].
  split; [congruence..|]. intros k. by rewrite Hc.
Qed.

Lemma view_same d d' v : same d d' -> view d v -> view d' v.
Proof.
  intros [E1 E2 E3 E4 E5] [Hb Hbus Ha]. split.
  - intros k. rewrite E1. by apply (bank_view_timing _ (banks d k)).
  - by rewrite E1, E2.
  - by rewrite E3.
Qed.

(** A state of the devices after [cmds d] that the controller describes rightly. *)
Definition tracked (d : ddr) : Prop := exists v, accepts_all device0 (cmds d) v /\ view d v.

Lemma tracked_same d d' : same d d' -> tracked d -> tracked d'.
Proof.
  intros Hs (v & Ha & Hv). exists v. rewrite (sm_cmds _ _ Hs). split; [done|].
  by eapply view_same.
Qed.

(** ** Opening a row *)

Lemma acts_view_same w v k : acts_view w v -> acts_view (<[k := w k]> w) v.
Proof.
  intros Ha rk. destruct (decide (rk = k)) as [->|];
    [rewrite fn_lookup_insert|rewrite fn_lookup_insert_ne by done]; apply Ha.
Qed.

Lemma act_view w v key r act w' (db := dv_banks v key) :
  acts_view w v -> b_open db = None -> after (b_pre db) (tRP t) act ->
  0 <= act -> ActWindow.minActCycle (w key.1) + tFAW t <= act ->
  ActWindow.addActivation act (w key.1) = Ok w' ->
  exists v', accepts v (ACT act key.1 key.2 r) v' /\
    dv_banks v' = <[key := mkDB (Some r) (b_pre db) (Some act) (b_rd db) (b_wr db)]> (dv_banks v) /\
    dv_bus v' = dv_bus v /\ acts_view (<[key.1 := w']> w) v'.
Proof.
  intros Ha Hclosed Hpre H0 Hmin Hw.
  destruct (Ha key.1) as [Hch Hlen]. destruct Ht as [Hpos _].
  destruct (ActWindow.chained_add (tFAW t) ltac:(lia) _ _ act Hch Hmin H0) as (w1 & E & Hch' & Hlen').
  rewrite Hw in E. injection E as <-. destruct key as [rk bk]. cbn [fst snd] in *.
  exists (mkDev (<[(rk, bk) := mkDB (Some r) (b_pre db) (Some act) (b_rd db) (b_wr db)]> (dv_banks v))
            (dv_bus v) (<[rk := act :: dv_acts v rk]> (dv_acts v))).
  split; [|split; [done|split; [done|]]].
  - apply acc_act; [done|done|done|].
    intros u. pose proof (ActWindow.chained_within (tFAW t) u _ _ Hch') as HH.
    by rewrite Hlen', Hlen in HH.
  - intros rk'. cbn. destruct (decide (rk' = rk)) as [->|].
    + rewrite !fn_lookup_insert. split; [done|lia].
    + rewrite !fn_lookup_insert_ne by done. apply Ha.
Qed.

(** A precharge, if there is one. *)
Lemma pre_view v key pre (b : bool) row (db := dv_banks v key) :
  (b = true -> b_open db = Some row) -> (b = true -> may_precharge db pre) -> after (b_pre db) 0 pre ->
  exists v', accepts_all v (if b then [PRE pre key.1 key.2] else []) v' /\
    dv_bus v' = dv_bus v /\ dv_acts v' = dv_acts v /\
    (forall k, k <> key -> dv_banks v' k = dv_banks v k) /\
    let db' := dv_banks v' key in
    b_open db' = (if b then None else b_open db) /\ after (b_pre db') 0 pre /\
    b_act db' = b_act db /\ b_rd db' = b_rd db /\ b_wr db' = b_wr db.
Proof.
  intros Ho Hm Hp. destruct b.
  - destruct key as [rk bk].
    exists (mkDev (<[(rk, bk) := mkDB None (Some pre) (b_act db) (b_rd db) (b_wr db)]> (dv_banks v))
            (dv_bus v) (dv_acts v)). split_and!; try done.
    + apply accepts_one. eapply acc_pre; [done|by apply Ho|by apply Hm].
    + intros k Hk. cbn. by rewrite fn_lookup_insert_ne.
    + cbn. rewrite fn_lookup_insert. cbn. split_and!; try done. lia.
  - exists v. split_and!; try done. constructor.
Qed.
End Device.

Section Protocol.
Context (g : config) (Ht : tech_ok (T g)).
Local Notation t := (T g).
Local Notation nranks := (ranksPerChannel g).
Local Notation nbanks := (banksPerRank g).

(** The bank when the row of the request is open, and its device. *)
Record opened (r : Request) (old b : Bank) (cm : Z) (db : dbank) : Prop := {
  op_row : openRow b = row (r_loc r) /\ open b = true;
  op_open : b_open db = Some (row (r_loc r));
  op_nonneg : 0 <= minPreCycle b;
  op_pre : after (b_pre db) 0 (minPreCycle b);
  op_act : b_act db = None \/ b_act db = Some (lastActCycle b);
  op_rcd : forall c, cm <= c -> lastCmdCycle old < c -> after (b_act db) (tRCD t) c;
  op_rd : after (b_rd db) (tRTP t) (minPreCycle b);
  op_wr : after (b_wr db) (tWR t) (minPreCycle b);
  op_last : lastCmdCycle b = lastCmdCycle old
}.

Lemma pre_cycle_spec d r c : pre_cycle d r = Ok c ->
  minPreCycle (bank_of d r) <= c /\ (open (bank_of d r) = false -> c = minPreCycle (bank_of d r)).
Proof.
  unfold pre_cycle. destruct (open (bank_of d r)); cbn [negb].
  - rewrite bind_Ok. intros (u & _ & [= <-]). split; [lia|done].
  - intros [= <-]. split; [lia|done].
Qed.

Lemma open_row_view d v r minCmd opening b w cm (key := loc_key (r_loc r)) :
  view t d v -> open_row g d r minCmd = Ok (opening, b, w, cm) ->
  minCmd <= cm /\
  exists v', accepts_all t nranks nbanks v opening v' /\ dv_bus v' = dv_bus v /\
    opened r (banks d key) b cm (dv_banks v' key) /\
    (forall k, k <> key -> dv_banks v' k = dv_banks v k) /\
    forall rk, ActWindow.chained (tFAW t) (dv_acts v' rk) (<[key.1 := w]> (actWindows d) rk) /\
      length (ActWindow.buf (<[key.1 := w]> (actWindows d) rk)) = 4%nat.
Proof.
  intros Hv. destruct (vw_banks _ _ _ Hv key) as [Bo B0 Bp Ba Br (M1 & M2 & M3) Bl].
  unfold open_row. change (bank_of d r) with (banks d key). destruct (row_hit d r) eqn:Hhit.
  - intros [= <- <- <- <-]. split; [lia|]. apply andb_true_iff in Hhit as [Hrow Hop].
    apply Z.eqb_eq in Hrow. change (bank_of d r) with (banks d key) in *.
    exists v. split_and!; [constructor|done| |done|].
    + rewrite Hop in Bo. split; try done; [congruence|].
      intros c _ Hc. eapply after_mono; [|by apply Br]. lia.
    + intros rk. destruct (decide (rk = key.1)) as [->|];
        [rewrite fn_lookup_insert|rewrite fn_lookup_insert_ne by done]; apply (vw_acts _ _ _ Hv).
  - rewrite bind_Ok. intros (pre & Hpre & H). apply bind_Ok in H as (w' & Hw & [= <- <- <- <-]).
    split; [lia|]. apply pre_cycle_spec in Hpre as [Hp1 Hp2].
    change (bank_of d r) with (banks d key) in *.
    set (act := act_cycle g d r pre) in *.
    assert (pre + tRP t <= act /\ ActWindow.minActCycle (actWindows d key.1) + tFAW t <= act) as [Ha1 Ha2].
    { unfold act, act_cycle. change (rank (r_loc r)) with key.1. lia. }
    destruct Ht as [(? & ? & ? & ? & ? & ? & ?) _].
    destruct (pre_view t nranks nbanks v key pre (open (banks d key)) (openRow (banks d key)))
      as (v1 & X1 & X2 & X3 & X4 & Y1 & Y2 & Y3 & Y4 & Y5);
      [rewrite Bo; by destruct (open _)|intros _; split_and!; by eapply after_mono|by eapply after_mono|].
    assert (b_open (dv_banks v1 key) = None) as Y1' by (rewrite Y1, Bo; by destruct (open _)).
    assert (acts_view t (actWindows d) v1) as Hav by (intros rk; rewrite X3; apply (vw_acts _ _ _ Hv)).
    destruct (act_view t nranks nbanks Ht _ v1 key (row (r_loc r)) act w' Hav Y1') as (v2 & Z1 & Z2 & Z3 & Z4);
      [eapply after_later; [|exact Y2]; lia|lia|done|done|].
    exists v2. split_and!; [|congruence| | |done].
    + eapply accepts_all_app; [exact X1|]. by apply accepts_one.
    + rewrite Z2, fn_lookup_insert. split; cbn -[Z.max]; rewrite ?Y3, ?Y4, ?Y5; try done.
      * destruct (open (banks d key)); lia.
      * eapply after_mono; [|exact Y2]. destruct (open _) eqn:E; [lia|]. rewrite Hp2 by done. lia.
      * by right.
      * intros c Hc _. unfold after. lia.
      * eapply after_mono; [|exact M2]. destruct (open _); lia.
      * eapply after_mono; [|exact M3]. destruct (open _); lia.
    + intros k Hk. rewrite Z2, fn_lookup_insert_ne by done. by apply X4.
Qed.

(** The column access. *)
Lemma cas_view v r old b cm db wr c resp lastWr (key := loc_key (r_loc r)) :
  dv_banks v key = db -> opened r old b cm db -> cm <= c -> lastCmdCycle old < c ->
  match dv_bus v with None => True | Some (e, w) => e = resp /\ w = lastWr end ->
  resp <= c + tCL t -> (lastWr = true -> wr = false -> resp + tWTR t <= c) ->
  accepts t nranks nbanks v (CAS wr c (rank (r_loc r)) (bank (r_loc r)) (row (r_loc r)))
    (mkDev (<[key := mkDB (b_open db) (b_pre db) (b_act db) (if wr then b_rd db else Some c)
                       (if wr then Some (c + tCL t + tBL t) else b_wr db)]> (dv_banks v))
       (Some (c + tCL t + tBL t, wr)) (dv_acts v)).
Proof.
  intros Hdb Ho Hcm Hc Hbus Hr Hw. apply acc_cas; [done|apply (op_open _ _ _ _ _ Ho)| |].
  - by apply (op_rcd _ _ _ _ _ Ho).
  - destruct (dv_bus v) as [[e w]|]; [|done]. destruct Hbus as [-> ->]. split; [lia|done].
Qed.

Lemma serve_tracked id wq cur sys d d' :
  serve g id wq cur sys d = Ok d' -> tracked t nranks nbanks d -> tracked t nranks nbanks d'.
Proof.
  unfold serve. set (r := reqs d id). set (key := loc_key (r_loc r)).
  rewrite bind_Ok. intros ([[[opening b] w] cm] & Hopen & H). rewrite bind_Ok in H.
  set (m1 := if lastCmdWasWrite d && negb (r_write r) then _ else _) in *.
  set (c := Z.max cm (minRespCycle d - tCL t)) in *.
  set (closes := closedPage g && _) in *. set (resp := c + tCL t + tBL t) in *.
  set (mp := Z.max (minPreCycle b) _) in *.
  destruct H as ([] & Hlast & H). apply assert_that_Ok, Z.ltb_lt in Hlast.
  apply bind_Ok in H as (d1 & Hd1 & [= <-]). intros (v & Hall & Hv).
  destruct (open_row_view _ _ _ _ _ _ _ _ Hv Hopen) as (Hm & v1 & A1 & Bus1 & Ho & Hoth & Hac).
  fold key in Ho, Hoth, Hac. change (key.1) with (rank (r_loc r)) in Hac.
  assert (banks d1 = banks d /\ actWindows d1 = actWindows d /\ cmds d1 = cmds d) as (Eb & Ew & Ec).
  { destruct (r_ev r); [|by injection Hd1 as <-].
    apply bind_Ok in Hd1 as (? & _ & Hd1). by apply bind_Ok in Hd1 as (? & _ & [= <-]). }
  pose proof Ho as [[Or Oo] Oop O0 Opre Oact Orcd Ord Owr Olast].
  set (db := dv_banks v1 key) in *.
  set (db2 := mkDB (b_open db) (b_pre db) (b_act db) (if r_write r then b_rd db else Some c)
                (if r_write r then Some (c + tCL t + tBL t) else b_wr db)).
  assert (accepts t nranks nbanks v1 (CAS (r_write r) c key.1 key.2 (row (r_loc r)))
            (mkDev (<[key := db2]> (dv_banks v1)) (Some (resp, r_write r)) (dv_acts v1))) as A2.
  { apply (cas_view v1 r (banks d key) b cm db (r_write r) c (minRespCycle d) (lastCmdWasWrite d));
      [done|done|lia|lia| |lia|].
    - rewrite Bus1. apply (vw_bus _ _ _ Hv).
    - intros E1 E2. subst m1. rewrite E1, E2 in Hm. cbn in Hm. lia. }
  assert (may_precharge t db2 mp) as Hmay.
  { split_and!.
    - destruct Oact as [E|E]; cbn; rewrite E; cbn; [done|lia].
    - cbn. destruct (r_write r); [eapply after_mono; [|exact Ord]|cbn]; lia.
    - cbn. destruct (r_write r); [cbn|eapply after_mono; [|exact Owr]]; unfold resp in *; lia. }
  set (v2 := mkDev _ _ _) in A2.
  assert (dv_banks v2 key = db2) as E2 by (cbn; by rewrite fn_lookup_insert).
  destruct (pre_view t nranks nbanks v2 key mp closes (row (r_loc r)))
    as (v3 & A3 & Bus3 & Acts3 & Oth3 & Y1 & Y2 & Y3 & Y4 & Y5).
  { rewrite E2. by intros _. }
  { by rewrite E2. }
  { rewrite E2. cbn. eapply after_mono; [|exact Opre]. lia. }
  exists v3. split.
  - cbn. rewrite Ec. eapply accepts_all_app; [exact Hall|]. eapply accepts_all_app; [exact A1|].
    change (CAS ?a ?b ?c ?d ?e :: ?l) with ([CAS a b c d e] ++ l).
    eapply accepts_all_app; [by apply accepts_one|exact A3].
  - rewrite E2 in *. split.
    + intros k. cbn. rewrite Eb. destruct (decide (k = key)) as [->|Hk].
      * rewrite fn_lookup_insert. split; cbn -[Z.max].
        -- rewrite Y1. cbn. rewrite Oop, Oo, Or. by destruct closes.
        -- lia.
        -- done.
        -- by rewrite Y3.
        -- intros _. rewrite Y3. apply Orcd; lia.
        -- destruct Hmay as (? & ? & ?). split_and!; rewrite ?Y3, ?Y4, ?Y5; done.
        -- lia.
      * rewrite fn_lookup_insert_ne, Oth3 by done. cbn. rewrite fn_lookup_insert_ne, Hoth by done.
        eapply bank_view_mono; [|apply (vw_banks _ _ _ Hv)]. unfold resp. destruct Ht as [Hpos _]. lia.
    + rewrite Bus3. done.
    + cbn. rewrite Ew. intros rk. rewrite Acts3. apply Hac.
Qed.

Lemma trySchedule_tracked cur sys d d' m :
  trySchedule g cur sys d = Ok (d', m) -> tracked t nranks nbanks d -> tracked t nranks nbanks d'.
Proof.
  unfold trySchedule. destruct (rq_empty _ && _); [by intros [= <- <-]|].
  destruct (_ <? _); [by intros [= <- <-]|]. rewrite bind_Ok. intros ([] & _ & H).
  apply bind_Ok in H as ([[id|] m'] & _ & H); [|by injection H as <- <-].
  apply bind_Ok in H as (d1 & Hs & [= <- <-]). by apply (serve_tracked id _ _ _ _ _ Hs).
Qed.

(** ** What leaves the commands alone *)

Lemma same_reqs d r : same d (set_reqs d r). Proof. by split. Qed.
Lemma same_queues d rd wr o : same d (set_queues d rd wr o). Proof. by split. Qed.
Lemma same_outs d o : same d (add_outs d o). Proof. by split. Qed.
Lemma same_sched d s n e c fl ag : same d (set_sched d s n e c fl ag). Proof. by split. Qed.

Lemma queue_same id m d d' : queue g id m d = Ok d' -> same d d'.
Proof.
  unfold queue. rewrite bind_Ok. intros (d1 & Hd & H).
  assert (same d d1) as H1.
  { destruct (r_write _); [|by injection Hd as <-]. destruct (r_ev _); [|done].
    injection Hd as <-. apply same_outs. }
  etransitivity; [exact H1|]. destruct (enqueue_bank _ _ _ _ _ _) as [q sq]. injection H as <-.
  split; [done..|]. intros k. cbn. destruct (decide (k = loc_key (r_loc (reqs d id)))) as [->|Hk].
  - rewrite fn_lookup_insert. done.
  - by rewrite fn_lookup_insert_ne.
Qed.

Lemma schedule_tick_same m sys d d' : schedule_tick g m sys d = Ok d' -> same d d'.
Proof.
  unfold schedule_tick. rewrite bind_Ok. intros (s & _ & H).
  destruct (match eventFreelist d with [] => _ | _ => _ end) as [[e fl] n].
  apply bind_Ok in H as (u & _ & [= <-]). apply same_sched.
Qed.

Lemma enqueue_same ev addr wr sys d d' : enqueue g ev addr wr sys d = Ok d' -> same d d'.
Proof.
  unfold enqueue. rewrite bind_Ok. intros (loc & _ & H). destruct (_ || _).
  { injection H as <-. etransitivity; [apply same_outs|apply same_queues]. }
  apply bind_Ok in H as ([id q] & _ & H). apply bind_Ok in H as (d1 & Hq & H).
  assert (same d d1) as H1.
  { etransitivity; [|by eapply queue_same]. etransitivity; [|apply same_reqs].
    etransitivity; [apply same_outs|apply same_queues]. }
  destruct (is_first _ _ _); [|by injection H as <-]. apply bind_Ok in H as (m & _ & H).
  destruct (later _ _); [|by injection H as <-]. etransitivity; [exact H1|].
  by eapply schedule_tick_same.
Qed.

Lemma recycleEvent_same e d d' : recycleEvent e d = Ok d' -> same d d'.
Proof.
  unfold recycleEvent. rewrite bind_Ok. intros (u & _ & H). apply bind_Ok in H as (u' & _ & [= <-]).
  apply same_sched.
Qed.

(** After [trySchedule], a tick moves a request out of the overflow queue. *)
Lemma tick_split sys d d' n : tick g sys d = Ok (d', n) ->
  exists d1 m, trySchedule g (sysToMem g sys) sys d = Ok (d1, m) /\ same d1 d'.
Proof.
  unfold tick. rewrite bind_Ok. intros (u & _ & H). apply bind_Ok in H as ([d1 m] & Ht1 & H).
  exists d1, m. split; [done|]. apply bind_Ok in H as (u' & _ & H).
  apply bind_Ok in H as ([d2 m2] & Ho & H). transitivity d2.
  - unfold pull_overflow in Ho. destruct (_ && _); [|by injection Ho as <- <-].
    destruct (overflowQueue d1) as [|r ovf]; [by injection Ho as <- <-|].
    apply bind_Ok in Ho as ([id q] & _ & Ho). apply bind_Ok in Ho as (d3 & Hq & Ho).
    assert (same d1 d3) as H3.
    { etransitivity; [|by eapply queue_same]. etransitivity; [|apply same_reqs]. apply same_queues. }
    destruct (is_first _ _ _); [|by injection Ho as <- <-].
    by apply bind_Ok in Ho as (m3 & _ & [= <- <-]).
  - destruct m2; injection H as <- <-; apply same_sched.
Qed.

Lemma simulate_tracked e c d d' : simulate g e c d = Ok d' ->
  tracked t nranks nbanks d -> tracked t nranks nbanks d'.
Proof.
  unfold simulate. intros H Htr. destruct (sched _ e); [done| |done|].
  - apply bind_Ok in H as ([d1 n] & Htick & H).
    destruct (tick_split _ _ _ _ Htick) as (d2 & m & Hs & Hsame).
    assert (same d1 d') as H1.
    { destruct n; [injection H as <-; apply same_sched|by eapply recycleEvent_same]. }
    eapply tracked_same; [exact H1|]. eapply tracked_same; [exact Hsame|].
    eapply trySchedule_tracked; [exact Hs|]. eapply tracked_same; [|exact Htr].
    etransitivity; apply same_sched.
  - eapply tracked_same; [|exact Htr]. etransitivity; [|by eapply recycleEvent_same]. apply same_sched.
Qed.

(** ** Refresh *)

Lemma elem_of_all_banks k : k ∈ all_banks g <-> valid_bank nranks nbanks k.
Proof.
  unfold all_banks, valid_bank. rewrite list_elem_of_bind. split.
  - intros (rk & (bk & Hk & Hbk)%list_elem_of_bind & Hrk).
    apply list_elem_of_singleton in Hk as ->. rewrite !elem_of_seqZ in *. cbn. lia.
  - destruct k as [rk bk]. cbn. intros [H1 H2]. exists rk. rewrite list_elem_of_bind, elem_of_seqZ.
    split; [|lia]. exists bk. rewrite elem_of_seqZ, list_elem_of_singleton. split; [done|lia].
Qed.

Lemma foldl_max_le (f : Z * Z -> Z) l : forall m, m <= foldl (fun m k => Z.max m (f k)) m l /\
  forall k, k ∈ l -> f k <= foldl (fun m k => Z.max m (f k)) m l.
Proof.
  induction l as [|x l IH]; intros m; cbn; [split; [lia|by intros k ?%not_elem_of_nil]|].
  destruct (IH (Z.max m (f x))) as [I1 I2]. split; [lia|].
  intros k [->|Hk]%elem_of_cons; [lia|by apply I2].
Qed.

Lemma close_banks (f : Bank -> Bank) l : forall d, NoDup l ->
  let d' := foldl (fun d k => set_bank d k (f (banks d k))) d l in
  minRespCycle d' = minRespCycle d /\ lastCmdWasWrite d' = lastCmdWasWrite d /\
  actWindows d' = actWindows d /\ cmds d' = cmds d /\
  (forall k, k ∈ l -> banks d' k = f (banks d k)) /\ (forall k, k ∉ l -> banks d' k = banks d k).
Proof.
  induction l as [|x l IH]; intros d Hnd; cbn.
  - split_and!; try done. by intros k ?%not_elem_of_nil.
  - apply NoDup_cons in Hnd as [Hx Hnd]. destruct (IH (set_bank d x (f (banks d x))) Hnd)
      as (E1 & E2 & E3 & E4 & E5 & E6). split_and!; try done.
    + intros k [->|Hk]%elem_of_cons.
      * rewrite E6 by done. cbn. by rewrite fn_lookup_insert.
      * rewrite E5 by done. cbn. rewrite fn_lookup_insert_ne; [done|]. by intros ->.
    + intros k [Hkx Hk]%not_elem_of_cons. rewrite E6 by done. cbn. by rewrite fn_lookup_insert_ne.
Qed.

Lemma NoDup_all_banks : NoDup (all_banks g).
Proof.
  unfold all_banks. apply NoDup_bind.
  - intros x y k Hx Hy (b1 & H1 & _)%list_elem_of_bind (b2 & H2 & _)%list_elem_of_bind.
    apply list_elem_of_singleton in H1, H2. congruence.
  - intros x _. apply NoDup_bind; [|intros; apply NoDup_singleton|apply NoDup_seqZ].
    intros b1 b2 k _ _ H1%list_elem_of_singleton H2%list_elem_of_singleton. congruence.
  - apply NoDup_seqZ.
Qed.

Lemma refresh_tracked sys d d' : refresh g sys d = Ok d' ->
  tracked t nranks nbanks d -> tracked t nranks nbanks d'.
Proof.
  unfold refresh. set (m := foldl (fun m k => Z.max m _) _ (all_banks g)). rewrite bind_Ok. intros (u & _ & H).
  apply bind_Ok in H as ([] & Hrp & [= <-]). apply assert_that_Ok, Z.leb_le in Hrp.
  assert (forall k, valid_bank nranks nbanks k -> minPreCycle (banks d k) <= m) as Hm.
  { intros k Hk%elem_of_all_banks.
    pose proof (proj2 (foldl_max_le (fun k => Z.max (minPreCycle (banks d k)) (lastCmdCycle (banks d k)))
      (all_banks g) (sysToMem g sys)) k Hk). cbn beta in *. subst m. lia. }
  set (f := fun b => mkBank (openRow b) false (m + tRFC t - tRP t) (lastActCycle b) (lastCmdCycle b)
                       (curRowHits b) (rdReqs b) (wrReqs b)).
  change (foldl _ d (all_banks g)) with (foldl (fun d k => set_bank d k (f (banks d k))) d (all_banks g)).
  destruct (close_banks f (all_banks g) d NoDup_all_banks)
    as (E1 & E2 & E3 & E4 & E5 & E6).
  set (d1 := foldl _ d (all_banks g)) in *. intros (v & Hall & Hv).
  set (fin := m + tRFC t) in *.
  set (v' := fun k => if decide (k ∈ all_banks g) then
    mkDB None (Some (fin - tRP t)) (b_act (dv_banks v k)) (b_rd (dv_banks v k)) (b_wr (dv_banks v k))
    else dv_banks v k).
  exists (mkDev v' (dv_bus v) (dv_acts v)). split.
  - cbn. rewrite E4. eapply accepts_all_app; [exact Hall|]. apply accepts_one.
    apply acc_ref; unfold v'.
    + lia.
    + intros k Hk. destruct (vw_banks _ _ _ Hv k) as [? ? Bp ? ? Bm ?].
      specialize (Hm k Hk). split; [by eapply may_precharge_mono|by eapply after_mono].
    + intros k Hk. by rewrite decide_True by (by apply elem_of_all_banks).
    + intros k Hk. by rewrite decide_False by (by rewrite elem_of_all_banks).
  - split; cbn; rewrite ?E1, ?E2, ?E3; [|apply (vw_bus _ _ _ Hv)|apply (vw_acts _ _ _ Hv)].
    intros k. pose proof (vw_banks _ _ _ Hv k) as Hb. unfold v'. case_decide as Hk.
    + rewrite E5 by done. apply elem_of_all_banks in Hk. specialize (Hm k Hk).
      destruct Hb as [? ? Bp Ba Br Bm Bl]. split; cbn; try done; [lia|lia|].
      destruct Bm as (? & ? & ?). split_and!; (eapply after_mono; [|done]); lia.
    + by rewrite E6.
Qed.

Lemma run_op_tracked o d d' : run_op g o d = Ok d' ->
  tracked t nranks nbanks d -> tracked t nranks nbanks d'.
Proof.
  destruct o; cbn; intros H.
  - apply tracked_same. by eapply enqueue_same.
  - by eapply refresh_tracked.
  - by eapply simulate_tracked.
Qed.

Lemma new_tracked : tracked t nranks nbanks (new g).
Proof.
  exists device0. split; [constructor|]. destruct Ht as [Hpos _]. split.
  - intros k. split; cbn; try done; [by left|lia].
  - done.
  - intros rk. split; [|done]. apply (ActWindow.chained_init _ 4). lia.
Qed.

Lemma reachable_tracked now d : reachable g now d -> tracked t nranks nbanks d.
Proof.
  induction 1 as [|now o d d' _ IH _ Hop]; [apply new_tracked|by eapply run_op_tracked].
Qed.
End Protocol.
End DdrSafe.
