(* ===== verification/DdrInv.v ===== *)
(** The requests of the DDR controller of DdrMem.v: every queued request is in the list of
    its bank and in one pool, every request that came is answered once or still waits. *)
From stdpp Require Import gmultiset.
From S2P Require Import Prelude MemHier DdrTiming DdrMem DdrSafe.
Import DdrTiming DdrMem DdrSafe.

Module DdrInv.

(** ** Lists *)

Lemma list_remove_perm n l : n ∈ l -> l ≡ₚ n :: list_remove n l.
Proof.
  induction l as [|x l IH]; cbn; [by intros ?%not_elem_of_nil|].
  destruct (Nat.eqb_spec x n) as [->|Hx]; [done|].
  intros [->|Hn]%elem_of_cons; [done|]. rewrite (IH Hn) at 1. apply perm_swap.
Qed.

Lemma insert_after_perm m id q : m ∈ q -> insert_after m id q ≡ₚ id :: q.
Proof.
  induction q as [|x q IH]; cbn; [by intros ?%not_elem_of_nil|].
  destruct (Nat.eqb_spec x m) as [->|Hx]; [intros _; apply perm_swap|].
  intros [->|Hn]%elem_of_cons; [done|]. rewrite (IH Hn). apply perm_swap.
Qed.

Lemma alloc_spec q : freeList q <> [] -> exists id fl,
  alloc q = Ok (id, mkRQ (reqList q ++ [id]) fl) /\ freeList q = fl ++ [id].
Proof.
  intros Hq. unfold alloc. destruct (last (freeList q)) as [id|] eqn:E.
  - exists id, (removelast (freeList q)). split; [done|].
    apply last_Some in E as [fl E]. rewrite E. f_equal. symmetry. apply removelast_last.
  - by apply last_None in E.
Qed.

Lemma filter_reqs_eq (P : Request -> Prop) `{forall r, Decision (P r)} (f f' : nat -> Request)
    (l : list nat) :
  (forall i, i ∈ l -> f' i = f i) -> filter (fun i => P (f' i)) l = filter (fun i => P (f i)) l.
Proof.
  induction l as [|x l IH]; [done|]. intros Hf. rewrite !filter_cons, (Hf x) by (by left).
  rewrite IH; [done|]. intros i Hi. apply Hf. by right.
Qed.

Lemma omap_reqs_eq {A} (h : Request -> option A) (f f' : nat -> Request) (l : list nat) :
  (forall i, i ∈ l -> f' i = f i) -> omap (fun i => h (f' i)) l = omap (fun i => h (f i)) l.
Proof.
  induction l as [|x l IH]; [done|]. intros Hf. cbn. rewrite (Hf x) by (by left).
  rewrite IH; [done|]. intros i Hi. apply Hf. by right.
Qed.

(** ** The pools and the lists of the banks *)

Definition pool (wr : bool) (d : ddr) : RequestQueue := if wr then wrQueue d else rdQueue d.
Definition queued (d : ddr) : list nat := reqList (rdQueue d) ++ reqList (wrQueue d).

(** The events that wait in a queue; those held and those answered so far. *)
Definition waiting (d : ddr) : gmultiset nat :=
  list_to_set_disj (omap (fun i => r_ev (reqs d i)) (queued d)).
Definition waiting_ovf (d : ddr) : gmultiset nat := list_to_set_disj (omap r_ev (overflowQueue d)).
Definition held (d : ddr) : gmultiset nat :=
  list_to_set_disj (omap (fun o => match o with Hold e => Some e | _ => None end) (outs d)).
Definition released (d : ddr) : gmultiset nat :=
  list_to_set_disj (omap (fun o => match o with Release e => Some e | _ => None end) (outs d)).
Definition answered (d : ddr) : gmultiset nat :=
  list_to_set_disj (omap (fun o => match o with Done e _ => Some e | _ => None end) (outs d)).

Section Inv.
Context (g : config).
Local Notation n := (Z.to_nat (queueDepth g)).

Definition at_bank (k : Z * Z) (r : Request) : Prop := loc_key (r_loc r) = k.
#[export] Instance at_bank_dec k r : Decision (at_bank k r).
Proof. unfold at_bank. apply _. Defined.

(** A request in a queue: of the right pool; a write was answered, a read was not. *)
Record req_ok (wr : bool) (r : Request) : Prop := {
  rk_class : useWr g r = wr;
  rk_ev : r_ev r = None <-> r_write r = true;
  rk_bank : valid_bank (ranksPerChannel g) (banksPerRank g) (loc_key (r_loc r))
}.

Definition ovf_ok (r : Request) : Prop :=
  r_ev r <> None /\ valid_bank (ranksPerChannel g) (banksPerRank g) (loc_key (r_loc r)).

Record pools (d : ddr) : Prop := {
  po_nodes : forall wr, reqList (pool wr d) ++ freeList (pool wr d) ≡ₚ seq (if wr then n else 0) n;
  po_banks : forall wr k, bank_queue wr (banks d k) ≡ₚ
    filter (fun i => at_bank k (reqs d i)) (reqList (pool wr d));
  po_reqs : forall wr i, i ∈ reqList (pool wr d) -> req_ok wr (reqs d i);
  po_ovf : Forall ovf_ok (overflowQueue d)
}.

(** The same requests and queues. *)
Record same_reqs (d d' : ddr) : Prop := {
  sr_reqs : reqs d' = reqs d;
  sr_rd : rdQueue d' = rdQueue d;
  sr_wr : wrQueue d' = wrQueue d;
  sr_ovf : overflowQueue d' = overflowQueue d;
  sr_banks : forall wr k, bank_queue wr (banks d' k) = bank_queue wr (banks d k)
}.

Lemma same_reqs_pool d d' wr : same_reqs d d' -> pool wr d' = pool wr d.
Proof. intros [? ? ? ? ?]. by destruct wr. Qed.

Lemma pools_same d d' : same_reqs d d' -> pools d -> pools d'.
Proof.
  intros Hs [P1 P2 P3 P4]. pose proof (fun wr => same_reqs_pool d d' wr Hs) as Ep.
  destruct Hs as [E1 E2 E3 E4 E5]. split; intros *; rewrite ?E1, ?E4, ?E5, ?Ep; auto.
Qed.

Lemma pool_fresh d wr wr' i : pools d -> i ∈ freeList (pool wr d) -> i ∉ reqList (pool wr' d).
Proof.
  intros Hp Hi Hi'. pose proof (po_nodes _ Hp wr) as H1. pose proof (po_nodes _ Hp wr') as H2.
  destruct (decide (wr = wr')) as [<-|Hne].
  - pose proof (NoDup_seq (if wr then n else 0) n) as Hnd. rewrite <- H1 in Hnd.
    apply NoDup_app in Hnd as (_ & Hd & _). by apply (Hd i).
  - assert (i ∈ seq (if wr then n else 0) n) as K1 by (rewrite <- H1; apply elem_of_app; auto).
    assert (i ∈ seq (if wr' then n else 0) n) as K2 by (rewrite <- H2; apply elem_of_app; auto).
    apply elem_of_seq in K1, K2. destruct wr, wr'; try done; lia.
Qed.

Lemma pool_disjoint d i : pools d -> i ∈ reqList (pool true d) -> i ∈ reqList (pool false d) -> False.
Proof.
  intros Hp H1 H2. pose proof (rk_class _ _ (po_reqs _ Hp _ _ H1)).
  pose proof (rk_class _ _ (po_reqs _ Hp _ _ H2)). congruence.
Qed.

Lemma pool_NoDup d wr : pools d -> NoDup (reqList (pool wr d)).
Proof.
  intros Hp. pose proof (NoDup_seq (if wr then n else 0) n) as Hnd.
  rewrite <- (po_nodes _ Hp wr) in Hnd. by apply NoDup_app in Hnd as (? & _ & _).
Qed.

(** ** A request joins a queue *)

Lemma enqueue_bank_perm rqs b r id q q' sq : enqueue_bank g rqs b r id q = (q', sq) ->
  q' ≡ₚ id :: q.
Proof.
  unfold enqueue_bank. destruct (List.find _ _) as [m|] eqn:E.
  - apply find_some in E as [E _]. rewrite <- in_rev in E. apply list_elem_of_In in E.
    destruct (_ <? _); intros [= <- _]; [by apply insert_after_perm|].
    by rewrite Permutation_app_comm.
  - destruct (_ && _); intros [= <- _]; [done|]. by rewrite Permutation_app_comm.
Qed.

Lemma perm_cons_head {A} (x : A) q' q : q' ≡ₚ x :: q -> head q' <> Some x -> q <> [].
Proof. intros Hp Hh ->. apply Permutation_singleton_r in Hp as ->. by apply Hh. Qed.

(** The scheduling events are the same. *)
Definition events_of (d : ddr) := (sched d, numSched d, nextSchedEvent d, nextSchedCycle d,
  eventFreelist d, agenda d).

Record admitted (d d1 : ddr) (r : Request) (id : nat) (m : Z) (ovf : list Request) : Prop := {
  ad_pools : pools d1;
  ad_in : id ∈ reqList (pool (useWr g r) d1);
  ad_queued : queued d1 ≡ₚ id :: queued d;
  ad_waiting : r_write r = false -> forall ev, r_ev r = Some ev ->
     waiting d1 = {[+ ev +]} ⊎ waiting d /\ outs d1 = outs d;
  ad_write : r_write r = true -> forall ev, r_ev r = Some ev ->
     waiting d1 = waiting d /\ exists c, outs d1 = outs d ++ [Release ev; Done ev c];
  ad_ovf : overflowQueue d1 = ovf;
  ad_events : events_of d1 = events_of d;
  ad_same : same d d1;
  ad_arrival : arrivalCycle (reqs d1 id) = m;
  ad_first : is_first g d1 id = false -> queued d <> []
}.

Lemma queued_pool wr i d : i ∈ reqList (pool wr d) -> i ∈ queued d.
Proof. destruct wr; intros Hi; apply elem_of_app; auto. Qed.

Lemma admit_spec d r m ev ovf : pools d -> r_ev r = Some ev -> ovf_ok r -> Forall ovf_ok ovf ->
  freeList (pool (useWr g r) d) <> [] ->
  exists id q d1, alloc (if useWr g r then wrQueue d else rdQueue d) = Ok (id, q) /\
    (let d0 := set_queues d (if useWr g r then rdQueue d else q)
                 (if useWr g r then q else wrQueue d) ovf in
     queue g id m (set_reqs d0 (<[id := r]> (reqs d0))) = Ok d1) /\
    admitted d d1 r id m ovf.
Proof.
  intros Hp Hev [_ Hvalid] Hovf Hfree. set (wq := useWr g r) in *.
  destruct (alloc_spec _ Hfree) as (id & fl & Ha & Hfl).
  exists id, (mkRQ (reqList (pool wq d) ++ [id]) fl).
  set (d0 := set_queues _ _ _ _).
  assert (forall wr, id ∉ reqList (pool wr d)) as Hfresh.
  { intros wr. apply (pool_fresh d wq); [done|]. rewrite Hfl. apply elem_of_app. right. by left. }
  set (out := if r_write r then [Release ev; Done ev (memToSys g m + minWrLatency g - preDelay g - postDelayWr)]
              else []).
  set (b := banks d (loc_key (r_loc r))).
  destruct (enqueue_bank g (<[id := r]> (reqs d)) b r id (bank_queue wq b)) as [bq sq] eqn:Eq.
  set (r' := mkRequest (r_addr r) (r_loc r) (r_write r) sq m (startSysCycle r)
               (if r_write r then None else r_ev r)).
  set (d1 := set_bank (set_reqs (add_outs d0 out) (<[id := r']> (<[id := r]> (reqs d))))
               (loc_key (r_loc r)) (set_bank_queue wq bq b)).
  exists d1. split; [exact Ha|]. split.
  { cbn zeta. unfold queue. cbn [set_reqs reqs]. change (reqs d0) with (reqs d).
    rewrite fn_lookup_insert, Hev. fold wq.
    destruct (r_write r) eqn:Ew; cbn [mbind res_bind mret res_ret]; unfold bank_of; cbn -[enqueue_bank].
    - fold b. rewrite Eq. unfold d1, out, r'. by rewrite ?Ew.
    - fold b. rewrite Eq. unfold d1, out, r', add_outs, set_bank, set_reqs. cbn. rewrite ?Ew, ?Hev, app_nil_r.
      done. }
  apply enqueue_bank_perm in Eq as Hperm.
  assert (forall wr, reqList (pool wr d1) = reqList (pool wr d) ++ (if Bool.eqb wr wq then [id] else [])) as Hrl.
  { intros wr. destruct wr, wq; cbn; by rewrite ?app_nil_r. }
  assert (reqs d1 id = r') as Hid by (cbn; by rewrite fn_lookup_insert).
  assert (forall i, i <> id -> reqs d1 i = reqs d i) as Hoth by (intros i Hi; cbn; by rewrite !fn_lookup_insert_ne).
  assert (queued d1 ≡ₚ id :: queued d) as Hqd.
  { unfold queued. change (rdQueue ?x) with (pool false x). change (wrQueue ?x) with (pool true x).
    rewrite !Hrl. destruct wq; cbn [Bool.eqb]; rewrite ?app_nil_r, <- ?app_assoc, ?app_assoc;
      by rewrite ?(Permutation_app_comm _ [id]), ?(Permutation_app_comm (_ ++ [id])), ?app_assoc. }
  assert (id ∉ queued d) as Hidq.
  { unfold queued. intros [H|H]%elem_of_app; [by apply (Hfresh false)|by apply (Hfresh true)]. }
  assert (waiting d1 = list_to_set_disj (omap (fun i => r_ev (reqs d1 i)) (id :: queued d))) as Hwait.
  { unfold waiting. by rewrite Hqd. }
  assert (omap (fun i => r_ev (reqs d1 i)) (queued d) = omap (fun i => r_ev (reqs d i)) (queued d)) as Hom.
  { apply omap_reqs_eq. intros i Hi. apply Hoth. by intros ->. }
  cbn [omap list_omap] in Hwait. rewrite Hid in Hwait. change (list_omap _ _ _ ?l) with (omap (fun i => r_ev (reqs d1 i)) l) in Hwait. 
  assert (forall wr, freeList (pool wr d1) = if Bool.eqb wr wq then fl else freeList (pool wr d)) as Hfree1.
  { intros wr. by destruct wr, wq. }
  assert (forall wr k, wr = wq -> k = loc_key (r_loc r) -> bank_queue wr (banks d1 k) = bq) as Hb1.
  { intros wr k -> ->. cbn. rewrite fn_lookup_insert. by destruct wq. }
  assert (forall wr k, wr <> wq \/ k <> loc_key (r_loc r) ->
    bank_queue wr (banks d1 k) = bank_queue wr (banks d k)) as Hb2.
  { intros wr k Hk. cbn. destruct (decide (k = loc_key (r_loc r))) as [->|Hne].
    - rewrite fn_lookup_insert. destruct Hk as [Hk|]; [|done]. by destruct wr, wq.
    - by rewrite fn_lookup_insert_ne. }
  rewrite Hom in Hwait. unfold r' in Hwait. cbn [r_ev] in Hwait.
  split; [split| | | | | | | | |].
  - intros wr. rewrite Hrl, Hfree1, <- (po_nodes _ Hp wr). destruct (Bool.eqb_spec wr wq) as [->|Hw].
    + rewrite Hfl, <- app_assoc. by rewrite (Permutation_app_comm fl).
    + by rewrite app_nil_r.
  - intros wr k. rewrite Hrl, filter_app, (filter_reqs_eq (at_bank k) (reqs d)).
    2: { intros i Hi. apply Hoth. intros ->. by apply (Hfresh wr). }
    rewrite <- (po_banks _ Hp). destruct (Bool.eqb_spec wr wq) as [->|Hw].
    + rewrite filter_cons, Hid. destruct (decide (k = loc_key (r_loc r))) as [->|Hk].
      * rewrite Hb1, decide_True, Hperm by done. by rewrite Permutation_app_comm.
      * rewrite Hb2, decide_False by auto. by rewrite app_nil_r.
    + rewrite Hb2 by auto. by rewrite app_nil_r.
  - intros wr i. rewrite Hrl. intros [Hi|Hi]%elem_of_app.
    + rewrite Hoth by (intros ->; by apply (Hfresh wr)). by apply (po_reqs _ Hp).
    + destruct (Bool.eqb_spec wr wq) as [->|Hw]; [|by apply not_elem_of_nil in Hi].
      apply list_elem_of_singleton in Hi as ->. rewrite Hid. split; [done| |done].
      cbn. rewrite Hev. by destruct (r_write r).
  - done.
  - fold wq. rewrite Hrl, Bool.eqb_reflx. apply elem_of_app. right. by left.
  - done.
  - intros Hw ev' E. split.
    + rewrite Hwait, Hw, E. apply list_to_set_disj_cons.
    + cbn. unfold out. by rewrite Hw, app_nil_r.
  - intros Hw ev' E. split.
    + by rewrite Hwait, Hw.
    + assert (ev' = ev) as -> by congruence. cbn. unfold out. rewrite Hw. by eexists.
  - done.
  - done.
  - split; [done..|]. intros k. cbn. destruct (decide (k = loc_key (r_loc r))) as [->|Hk];
      [by rewrite fn_lookup_insert|by rewrite fn_lookup_insert_ne].
  - by rewrite Hid.
  - unfold is_first. rewrite Hid. intros Hf. apply bool_decide_eq_false in Hf.
    unfold bank_of in Hf. rewrite Hb1 in Hf by done.
    pose proof (perm_cons_head _ _ _ Hperm Hf) as Hne. intros E. apply Hne.
    assert (reqList (pool wq d) = []) as E'.
    { unfold queued in E. apply app_eq_nil in E as [E1 E2]. by destruct wq. }
    pose proof (po_banks _ Hp wq (loc_key (r_loc r))) as P. rewrite E' in P. cbn in P.
    by apply Permutation_nil_r in P.
Qed.

(** ** A request is served *)

Local Notation t := (T g).

Record config_ok : Prop := {
  ok_tech : tech_ok t;
  ok_freqs : freqs_ok (sysFreqKHz g) (memFreqKHz g);
  ok_depth : 0 < queueDepth g;
  ok_latency : 0 <= controllerSysLatency g;
  ok_map : forall addr, 0 <= addr -> exists l,
    mapLineAddr (amap g) (ranksPerChannel g) (banksPerRank g) addr = Ok l /\
    valid_bank (ranksPerChannel g) (banksPerRank g) (loc_key l)
}.
Hypothesis Hg : config_ok.

Lemma pre_cycle_ok d r : row_hit d r = false -> exists c, pre_cycle d r = Ok c.
Proof.
  unfold pre_cycle, row_hit. destruct (open _); cbn; [|by eexists].
  rewrite andb_true_r. intros ->. by eexists.
Qed.

Lemma findMinCmdCycle_ok d r : exists c, findMinCmdCycle g d r = Ok c.
Proof.
  unfold findMinCmdCycle. destruct (row_hit d r) eqn:E; [by eexists|].
  destruct (pre_cycle_ok d r E) as [c ->]. by eexists.
Qed.

Lemma open_row_ok d v r m (old := bank_of d r) : view t d v -> exists opening b w cm,
  open_row g d r m = Ok (opening, b, w, cm) /\ rdReqs b = rdReqs old /\ wrReqs b = wrReqs old /\
  lastCmdCycle b = lastCmdCycle old.
Proof.
  intros Hv. unfold open_row. fold old. destruct (row_hit d r) eqn:E; [by repeat eexists|].
  destruct (pre_cycle_ok d r E) as [c ->]. cbn [mbind res_bind].
  destruct (ok_tech Hg) as [Hpos _].
  destruct (vw_acts _ _ _ Hv (rank (r_loc r))) as [[Hwf _] _].
  destruct (ActWindow.addActivation_spec (act_cycle g d r c) _ Hwf) as (w' & -> & _).
  { unfold act_cycle. lia. }
  by repeat eexists.
Qed.

Record served (d d' : ddr) (id : nat) (wq : bool) (cur : Z) : Prop := {
  sv_pools : pools d';
  sv_queued : queued d ≡ₚ id :: queued d';
  sv_waiting : r_ev (reqs d id) = None -> waiting d' = waiting d /\ outs d' = outs d;
  sv_read : forall ev, r_ev (reqs d id) = Some ev -> waiting d = {[+ ev +]} ⊎ waiting d' /\
     exists c, outs d' = outs d ++ [Release ev; Done ev c];
  sv_ovf : overflowQueue d' = overflowQueue d;
  sv_events : events_of d' = events_of d;
  sv_resp : cur < minRespCycle d' - tCL t
}.

Lemma serve_runs id wq cur sys d v : view t d v ->
  (r_ev (reqs d id) = None <-> r_write (reqs d id) = true) ->
  0 <= sys -> sysToMem g sys <= cur -> exists d', serve g id wq cur sys d = Ok d'.
Proof.
  intros Hv Hev Hs0 Hs. unfold serve. set (m1 := if _ && _ then _ else _).
  assert (cur <= m1) as Hm1 by (unfold m1; destruct (_ && _); lia).
  destruct (open_row_ok d v (reqs d id) m1 Hv) as (op & b & w & cm & Ho & Hrd & Hwr & Hl).
  rewrite Ho. cbn [mbind res_bind].
  destruct (open_row_view g (ok_tech Hg) _ _ _ _ _ _ _ _ Hv Ho) as [Hcm _].
  pose proof (bv_last _ _ _ _ (vw_banks _ _ _ Hv (loc_key (r_loc (reqs d id))))) as Hbl.
  change (banks d _) with (bank_of d (reqs d id)) in Hbl.
  destruct (ok_tech Hg) as [Hpos _]. pose proof (ok_freqs Hg) as Hf.
  rewrite (proj2 (Z.ltb_lt _ _)) by lia. cbn [assert_that mbind res_bind].
  destruct (r_ev (reqs d id)) as [ev|] eqn:E; [|by eexists].
  destruct (r_write (reqs d id)) eqn:Ew; [by destruct Hev as [_ Hev]; specialize (Hev eq_refl)|].
  cbn [negb assert_that mbind res_bind]. rewrite (proj2 (Z.leb_le _ _)); [by eexists|].
  set (resp := Z.max cm _ + tCL t + tBL t). pose proof (ok_latency Hg).
  pose proof (memToSys_after _ _ Hf sys resp Hs0 ltac:(unfold sysToMem in Hs; lia)). unfold memToSys. lia.
Qed.

Lemma list_remove_elem i id l : NoDup l -> i ∈ list_remove id l -> i ∈ l /\ i <> id.
Proof.
  intros Hnd. induction Hnd as [|x l Hx Hnd IH]; cbn; [by intros ?%not_elem_of_nil|].
  destruct (Nat.eqb_spec x id) as [->|Hne].
  - intros Hi. split; [by right|]. by intros ->.
  - intros [->|Hi]%elem_of_cons; [split; [by left|done]|]. destruct (IH Hi). split; [by right|done].
Qed.

Lemma serve_spec id wq cur sys d v d' : view t d v -> pools d ->
  id ∈ reqList (pool wq d) -> is_first g d id = true ->
  serve g id wq cur sys d = Ok d' -> served d d' id wq cur.
Proof.
  intros Hv Hp Hin Hfirst. unfold serve. set (r := reqs d id). set (key := loc_key (r_loc r)).
  set (m1 := if _ && _ then _ else _).
  assert (cur <= m1) as Hm1 by (unfold m1; destruct (_ && _); lia).
  destruct (open_row_ok d v r m1 Hv) as (op & b & w & cm & Ho & Hrd & Hwr & Hl).
  destruct (open_row_view g (ok_tech Hg) _ _ _ _ _ _ _ _ Hv Ho) as [Hcm _].
  rewrite Ho. cbn [mbind res_bind].
  set (c := Z.max cm _). set (resp := c + tCL t + tBL t).
  rewrite bind_Ok. intros (u & _ & H). apply bind_Ok in H as (d1 & Hd1 & [= <-]).
  assert (d1 = d \/ exists o, d1 = add_outs d o) as Hd.
  { destruct (r_ev r); [|by injection Hd1 as <-; left].
    apply bind_Ok in Hd1 as (? & _ & Hd1). apply bind_Ok in Hd1 as (? & _ & [= <-]). right. by eexists. }
  set (d' := set_bank _ _ _).
  assert (reqs d' = reqs d) as Er by (cbn; by destruct Hd as [->|[? ->]]).
  assert (overflowQueue d' = overflowQueue d) as Eo by (cbn; by destruct Hd as [->|[? ->]]).
  assert (events_of d' = events_of d) as Ee by (cbn; by destruct Hd as [->|[? ->]]).
  assert (forall wr, pool wr d' = if Bool.eqb wr wq then rq_remove id (pool wr d) else pool wr d) as Epool.
  { intros wr. by destruct Hd as [->|[? ->]], wr, wq. }
  pose proof (list_remove_perm id _ Hin) as Hperm.
  remember (list_remove id (reqList (pool wq d))) as rest eqn:Erest.
  assert (reqList (pool wq d') = rest) as Erest' by (by rewrite Epool, Bool.eqb_reflx).
  pose proof (po_reqs _ Hp wq id Hin) as [Hclass Hev Hvalid]. fold r in Hclass, Hev, Hvalid.
  assert (exists q, bank_queue wq (banks d key) = id :: q) as [q Hq].
  { unfold is_first in Hfirst. apply bool_decide_eq_true in Hfirst. fold r in Hfirst.
    rewrite Hclass in Hfirst. change (bank_of d r) with (banks d key) in Hfirst.
    destruct (bank_queue wq (banks d key)); [done|]. injection Hfirst as ->. by eexists. }
  assert (forall wr k, bank_queue wr (banks d' k) =
    if decide (k = key) then if Bool.eqb wr wq then q else bank_queue wr (banks d k) else bank_queue wr (banks d k)) as Hbq.
  { intros wr k. assert (banks d1 = banks d) as Eb by (by destruct Hd as [->|[? ->]]).
    cbn. rewrite Eb. destruct (decide (k = key)) as [->|Hk]; [|by rewrite fn_lookup_insert_ne].
    rewrite fn_lookup_insert. change (bank_of d r) with (banks d key) in Hrd, Hwr.
    assert (bank_queue wq b = id :: q) as -> by (rewrite <- Hq; by destruct wq).
    by destruct wr, wq. }
  assert (queued d ≡ₚ id :: queued d') as Hqd.
  { unfold queued. change (rdQueue ?x) with (pool false x). change (wrQueue ?x) with (pool true x).
    destruct wq; [rewrite (Epool false)|rewrite (Epool true)]; cbn [Bool.eqb]; rewrite Erest', Hperm; [|done].
    by rewrite <- Permutation_middle. }
  assert (waiting d = list_to_set_disj (omap (fun i => r_ev (reqs d i)) (id :: queued d'))) as Hw.
  { unfold waiting. by rewrite Hqd. }
  cbn [omap list_omap] in Hw. fold r in Hw.
  assert (minRespCycle d' - tCL t = c + tBL t) as Eresp.
  { cbn. fold resp. unfold resp. lia. }
  split; [split| | | | | | ].
  - intros wr. rewrite Epool, <- (po_nodes _ Hp wr). destruct (Bool.eqb_spec wr wq) as [->|_]; [|done].
    cbn [rq_remove reqList freeList]. rewrite <- Erest, Hperm.
    by rewrite app_assoc, (Permutation_app_comm _ [id]).
  - intros wr k. rewrite Hbq, Epool, Er.
    destruct (Bool.eqb_spec wr wq) as [->|_]; [|case_decide; apply (po_banks _ Hp)].
    cbn [rq_remove reqList]. rewrite <- Erest. pose proof (po_banks _ Hp wq k) as P.
    rewrite Hperm, filter_cons in P.
    fold r in P. destruct (decide (k = key)) as [->|Hk].
    + rewrite decide_True, Hq in P by done. by apply Permutation_cons_inv in P.
    + rewrite decide_False in P; [done|]. intros Hat. apply Hk. by rewrite <- Hat.
  - intros wr i. rewrite Epool, Er. intros Hi. apply (po_reqs _ Hp). revert Hi.
    destruct (Bool.eqb_spec wr wq) as [->|_]; [|done].
    intros Hi. apply (list_remove_elem i id); [by apply pool_NoDup|done].
  - rewrite Eo. apply (po_ovf _ Hp).
  - done.
  - intros E. fold r in E. rewrite E in Hw, Hd1. split; [rewrite Hw; unfold waiting; by rewrite Er|].
    by injection Hd1 as <-.
  - intros ev E. fold r in E. rewrite E in Hw, Hd1. split.
    + rewrite Hw. unfold waiting. rewrite Er. apply list_to_set_disj_cons.
    + apply bind_Ok in Hd1 as (? & _ & Hd1). apply bind_Ok in Hd1 as (? & _ & [= <-]).
      cbn. by eexists.
  - done.
  - done.
  - rewrite Eresp. destruct (ok_tech Hg) as [Hpos _]. unfold c. lia.
Qed.

(** ** Choosing a request *)

Lemma exists_first d wq : pools d -> reqList (pool wq d) <> [] ->
  exists id, id ∈ reqList (pool wq d) /\ is_first g d id = true.
Proof.
  intros Hp Hne. destruct (reqList (pool wq d)) as [|i l] eqn:E; [done|].
  set (k := loc_key (r_loc (reqs d i))).
  assert (i ∈ bank_queue wq (banks d k)) as Hi.
  { rewrite (po_banks _ Hp). apply list_elem_of_filter. split; [done|]. rewrite E. by left. }
  destruct (bank_queue wq (banks d k)) as [|id q] eqn:Eq; [by apply not_elem_of_nil in Hi|].
  assert (id ∈ bank_queue wq (banks d k)) as Hid by (rewrite Eq; by left).
  rewrite (po_banks _ Hp) in Hid. apply list_elem_of_filter in Hid as [Hat Hid].
  rewrite <- E. exists id. split; [done|]. unfold is_first.
  rewrite (rk_class _ _ (po_reqs _ Hp _ _ Hid)). unfold bank_of. rewrite Hat, Eq. by apply bool_decide_eq_true.
Qed.

Lemma pick_spec d cur l : forall ms, (forall c, ms = Some c -> cur < c) ->
  exists o m, pick g d cur l ms = Ok (o, m) /\
    match o with
    | Some id => id ∈ l /\ is_first g d id = true
    | None => (forall c, m = Some c -> cur < c) /\
        (m = None -> ms = None /\ forall i, i ∈ l -> is_first g d i = false)
    end.
Proof.
  induction l as [|id l IH]; intros ms Hms; cbn [pick].
  - exists None, ms. split; [done|]. split; [done|]. intros ->. split; [done|].
    by intros i ?%not_elem_of_nil.
  - destruct (is_first g d id) eqn:Ef.
    + destruct (findMinCmdCycle_ok d (reqs d id)) as [c ->]. cbn [mbind res_bind].
      destruct (Z.leb_spec c cur) as [Hc|Hc].
      * exists (Some id), (min_opt ms c). split; [done|]. split; [by left|done].
      * destruct (IH (min_opt ms c)) as (o & m & Hpick & Ho).
        { intros c'. destruct ms as [a|]; cbn; intros [= <-]; [|lia]. specialize (Hms a eq_refl). lia. }
        exists o, m. split; [done|]. destruct o as [id'|]; [by destruct Ho; split; [right|]|].
        destruct Ho as [Ho1 Ho2]. split; [done|]. intros Hm. destruct (Ho2 Hm) as [Hn _]. by destruct ms.
    + destruct (IH ms Hms) as (o & m & Hpick & Ho). exists o, m. split; [done|].
      destruct o as [id'|]; [by destruct Ho; split; [right|]|].
      destruct Ho as [Ho1 Ho2]. split; [done|]. intros Hm. destruct (Ho2 Hm) as [Hn Hl].
      split; [done|]. intros i [->|Hi]%elem_of_cons; [done|by apply Hl].
Qed.

(** At the cycle it gives when nothing is ready, something is. *)
Lemma pick_again d cur m l : forall ms ms', pick g d cur l ms = Ok (None, Some m) ->
  ms = Some m \/ exists id m', pick g d m l ms' = Ok (Some id, m').
Proof.
  induction l as [|id l IH]; intros ms ms'; cbn [pick]; [intros [= ->]; by left|].
  destruct (is_first g d id); [|by apply IH].
  destruct (findMinCmdCycle_ok d (reqs d id)) as [c ->]. cbn [mbind res_bind].
  destruct (c <=? cur); [done|]. intros H. destruct (Z.leb_spec c m) as [Hc|Hc].
  - right. by repeat eexists.
  - destruct (IH _ (min_opt ms' c) H) as [Hm|Hr]; [|by right]. left.
    destruct ms as [a|]; cbn in Hm; injection Hm as Hm; [f_equal|]; lia.
Qed.

Lemma both_empty d : rq_empty (rdQueue d) && rq_empty (wrQueue d) = true <-> queued d = [].
Proof.
  unfold rq_empty, queued. rewrite andb_true_iff, !bool_decide_eq_true. split.
  - by intros [-> ->].
  - apply app_eq_nil.
Qed.

Lemma is_write_queue_nonempty d : queued d <> [] -> reqList (pool (is_write_queue g d) d) <> [].
Proof.
  intros Hq. unfold is_write_queue. pose proof (ok_depth Hg).
  destruct (rq_empty (rdQueue d)) eqn:E1; cbn [orb].
  - intros E2. apply Hq, both_empty. rewrite E1. by apply bool_decide_eq_true.
  - destruct (_ || _) eqn:E2; cbn [pool].
    + intros E3. unfold rq_size in E2. rewrite E3 in E2. cbn [length Z.of_nat] in E2.
      assert (0 <= 3 * queueDepth g / 4) by (apply Z.div_pos; lia).
      assert (0 <= queueDepth g / 4) by (apply Z.div_pos; lia).
      apply orb_true_iff in E2 as [E2|E2]; [apply Z.ltb_lt in E2; lia|]. apply andb_true_iff in E2 as [_ E2]. apply Z.ltb_lt in E2. lia.
    + intros E3. by apply bool_decide_eq_false in E1.
Qed.

(** A call that serves nothing, and the cycle it asks for. *)
Definition idle (d : ddr) (cur : Z) (m : option Z) : Prop :=
  let l := reqList (pool (is_write_queue g d) d) in
  (queued d = [] /\ m = None) \/
  (cur + tCL t < minRespCycle d /\ m = Some (minRespCycle d - tCL t)) \/
  (minRespCycle d <= cur + tCL t /\ exists m', m = Some m' /\ cur < m' /\
     pick g d cur l None = Ok (None, m) /\ exists id m'', pick g d m' l None = Ok (Some id, m'')).

Lemma trySchedule_spec sys d v (cur := sysToMem g sys) : view t d v -> pools d -> 0 <= sys ->
  exists d' m, trySchedule g cur sys d = Ok (d', m) /\
    (forall c, m = Some c -> cur <= c) /\ (m = None -> queued d' = []) /\
    ((d' = d /\ idle d cur m) \/ exists id wq, served d d' id wq cur).
Proof.
  intros Hv Hp Hs0. unfold trySchedule. destruct (_ && _) eqn:Ee.
  { apply both_empty in Ee as Hq. exists d, None. split_and!; [done|done|done|]. left. split; [done|by left]. }
  assert (queued d <> []) as Hq by (intros E; apply both_empty in E; congruence).
  destruct (Z.ltb_spec (cur + tCL t) (minRespCycle d)).
  { exists d, (Some (minRespCycle d - tCL t)). split_and!; [done| |done|].
    - intros c [= <-]. lia.
    - left. split; [done|]. right. by left. }
  pose proof (is_write_queue_nonempty d Hq) as Hne. unfold idle. set (wq := is_write_queue g d) in *.
  change (if wq then wrQueue d else rdQueue d) with (pool wq d).
  assert (rq_empty (pool wq d) = false) as -> by (by apply bool_decide_eq_false).
  cbn [negb assert_that mbind res_bind].
  destruct (pick_spec d cur (reqList (pool wq d)) None) as (o & m & Epick & Ho); [done|].
  rewrite Epick. cbn [mbind res_bind]. destruct o as [id|].
  - destruct Ho as [Hin Hfirst].
    destruct (serve_runs id wq cur sys d v Hv (rk_ev _ _ (po_reqs _ Hp _ _ Hin)) Hs0) as [d' Hd']; [done|].
    pose proof (serve_spec id wq cur sys d v d' Hv Hp Hin Hfirst Hd') as Hsv. rewrite Hd'.
    cbn [mbind res_bind]. eexists d', _. split; [done|]. split_and!.
    + intros c Hc. destruct (_ && _) in Hc; [done|]. injection Hc as <-. pose proof (sv_resp _ _ _ _ _ Hsv). lia.
    + intros Hm. destruct (_ && _) eqn:E in Hm; [|done]. by apply both_empty.
    + right. by exists id, wq.
  - destruct Ho as [Ho1 Ho2]. destruct m as [m|].
    + exists d, (Some m). pose proof (Ho1 m eq_refl). split_and!; [done| |done|].
      * intros c [= <-]. lia.
      * left. split; [done|]. right. right. split; [done|]. exists m. split_and!; try done.
        destruct (pick_again d cur m _ None None Epick) as [|Hr]; done.
    + destruct (Ho2 eq_refl) as [_ Hno]. destruct (exists_first d wq Hp Hne) as (i & Hi & Hf).
      by rewrite (Hno i Hi) in Hf.
Qed.
End Inv.
End DdrInv.
