(* ===== verification/DdrSched.v ===== *)
(** The scheduling events of the DDR controller of DdrMem.v, and what follows for its
    operations: none fails, every request is answered, and a tick is to come as long as a
    request waits. *)
From stdpp Require Import gmultiset.
From S2P Require Import Prelude MemHier DdrTiming DdrMem DdrSafe DdrInv.
Import DdrTiming DdrMem DdrSafe DdrInv.

Module DdrSched.

Lemma unqueue_perm a l : a ∈ l -> l ≡ₚ a :: unqueue a l.
Proof.
  induction l as [|b l IH]; cbn; [by intros ?%not_elem_of_nil|].
  case_bool_decide as Hb; [by subst|]. intros [->|Ha]%elem_of_cons; [done|].
  rewrite (IH Ha) at 1. apply perm_swap.
Qed.

Section Sched.
Context (g : config) (Hg : config_ok g).
Local Notation t := (T g).
Local Notation nranks := (ranksPerChannel g).
Local Notation nbanks := (banksPerRank g).

(** At most one scheduling event is to tick, [nextSchedEvent], and it is on the agenda at a
    cycle that falls in [nextSchedCycle]; others on the agenda were annulled, and those
    nowhere are free. *)
Record sched_ok (d : ddr) : Prop := {
  so_next : match nextSchedEvent d with
            | Some e => sched d e = QUEUED /\
                exists s, (s, e) ∈ agenda d /\ nextSchedCycle d = Some (sysToMem g s)
            | None => nextSchedCycle d = None
            end;
  so_agenda : forall s e, (s, e) ∈ agenda d ->
    (e < numSched d)%nat /\ (nextSchedEvent d = Some e \/ sched d e = ANNULLED);
  so_nodup : NoDup ((agenda d).*2 ++ eventFreelist d);
  so_free : forall e, e ∈ eventFreelist d -> sched d e = IDLE /\ (e < numSched d)%nat;
  so_fresh : forall e, (numSched d <= e)%nat -> sched d e = IDLE
}.

Lemma sched_ok_events d d' : events_of d' = events_of d -> sched_ok d -> sched_ok d'.
Proof.
  unfold events_of. intros [= E1 E2 E3 E4 E5 E6] [? ? ? ? ?].
  split; rewrite ?E1, ?E2, ?E3, ?E4, ?E5, ?E6; done.
Qed.

Lemma agenda_cycle d s s' e : sched_ok d -> (s, e) ∈ agenda d -> (s', e) ∈ agenda d -> s = s'.
Proof.
  intros Hs H1 H2. pose proof (so_nodup _ Hs) as Hnd. apply NoDup_app in Hnd as (Hnd & _ & _).
  clear -H1 H2 Hnd. induction (agenda d) as [|[a b] l IH]; [by apply not_elem_of_nil in H1|].
  cbn in Hnd. apply NoDup_cons in Hnd as [Hb Hnd].
  assert (forall c, (c, b) ∈ l -> False) as Hno.
  { intros c Hc. apply Hb. apply list_elem_of_fmap. by exists (c, b). }
  apply elem_of_cons in H1, H2. destruct H1 as [E1|H1], H2 as [E2|H2]; simplify_eq; try done.
  - by destruct (Hno s').
  - by destruct (Hno s).
  - by apply IH.
Qed.

(** ** A new tick *)

(** What an operation at [sys] puts on the agenda is not before it. *)
Definition later_agenda (sys : Z) (ag ag' : list (Z * nat)) : Prop :=
  forall a, a ∈ ag' -> a ∈ ag \/ sys <= a.1.

Lemma later_agenda_refl sys ag : later_agenda sys ag ag.
Proof. intros a Ha. by left. Qed.

Lemma schedule_tick_spec d c sys : sched_ok d -> sysToMem g sys <= c ->
  exists s n e fl ag, schedule_tick g c sys d = Ok (set_sched d s n (Some e) (Some c) fl ag) /\
    sched_ok (set_sched d s n (Some e) (Some c) fl ag) /\ later_agenda sys (agenda d) ag.
Proof.
  intros Hs Hc. unfold schedule_tick. destruct Hs as [S1 S2 S3 S4 S5].
  set (s0 := match nextSchedEvent d with Some e => <[e := ANNULLED]> (sched d) | None => sched d end).
  assert (match nextSchedEvent d with
          | Some e => assert_that (bool_decide (sched d e = QUEUED)) ≫= fun _ => mret (<[e := ANNULLED]> (sched d))
          | None => mret (sched d) end = Ok s0) as ->.
  { unfold s0. destruct (nextSchedEvent d) as [e|]; [|done]. destruct S1 as [S1 _].
    by rewrite bool_decide_true. }
  cbn [mbind res_bind].
  assert (forall e, sched d e = IDLE -> s0 e = IDLE) as Hidle.
  { intros e He. unfold s0. destruct (nextSchedEvent d) as [e'|]; [|done].
    destruct S1 as [S1 _]. rewrite fn_lookup_insert_ne; [done|]. by intros <-; rewrite S1 in He. }
  assert (forall s e, (s, e) ∈ agenda d -> s0 e = ANNULLED) as Hann.
  { intros s e He. unfold s0. destruct (S2 s e He) as [_ [->|Ha]]; [by rewrite fn_lookup_insert|].
    destruct (nextSchedEvent d) as [e'|]; [|done].
    destruct (decide (e = e')) as [->|]; [by rewrite fn_lookup_insert|by rewrite fn_lookup_insert_ne]. }
  set (cyc := Z.max (matching g c) sys).
  assert (sysToMem g cyc = c) as Ecyc by (apply matching_later; [apply (ok_freqs g Hg)|done]).
  destruct (match eventFreelist d with [] => _ | _ => _ end) as [[e fl] n] eqn:Efl.
  assert (sched d e = IDLE /\ (numSched d <= n)%nat /\ (e < n)%nat /\
    (forall s, (s, e) ∉ agenda d) /\ e ∉ fl /\ (forall e', e' ∈ fl -> e' ∈ eventFreelist d) /\
    NoDup ((agenda d).*2 ++ fl)) as (He & Hn & Hen & Heag & Hefl & Hfl & Hnd).
  { destruct (eventFreelist d) as [|e1 fl1]; injection Efl as <- <- <-.
    - split_and!; try done; try lia; [by apply S5| |by apply not_elem_of_nil].
      intros s Hin. pose proof (S2 _ _ Hin). lia.
    - destruct (S4 e1) as [H1 H2]; [by left|]. rewrite <- Permutation_middle in S3.
      apply NoDup_cons in S3 as [H3 H4]. rewrite elem_of_app in H3.
      split_and!; try done; [|by auto|by right].
      intros s Hin. apply H3. left. apply list_elem_of_fmap. by exists (s, e1). }
  rewrite bool_decide_true by auto. cbn [assert_that mbind res_bind].
  exists (<[e := QUEUED]> s0), n, e, fl, ((cyc, e) :: agenda d). split; [done|].
  split; [|intros a [->|Ha]%elem_of_cons; [right; cbn; lia|by left]].
  split; cbn [nextSchedEvent sched numSched nextSchedCycle eventFreelist agenda set_sched].
  - rewrite fn_lookup_insert. split; [done|]. exists cyc. rewrite Ecyc. split; [by left|done].
  - intros s e' [[= -> ->]|Hin]%elem_of_cons; [by auto|]. destruct (S2 _ _ Hin) as [H1 _].
    split; [lia|]. right. rewrite fn_lookup_insert_ne; [by eapply Hann|]. intros ->. by apply (Heag s).
  - cbn. apply NoDup_cons. split; [|done]. intros [Hin|Hin]%elem_of_app; [|done].
    apply list_elem_of_fmap in Hin as ([s e'] & -> & Hin). by apply (Heag s).
  - intros e' Hin. destruct (S4 e') as [H1 H2]; [by apply Hfl|]. split; [|lia].
    rewrite fn_lookup_insert_ne; [by apply Hidle|]. by intros ->.
  - intros e' Hin. rewrite fn_lookup_insert_ne by lia. apply Hidle, S5. lia.
Qed.

(** ** Accounts *)

(** Every event held was answered, once, or waits; and it was released when answered. *)
Record accounts (d : ddr) : Prop := {
  ac_held : held d = answered d ⊎ waiting d ⊎ waiting_ovf d;
  ac_released : released d = answered d
}.

Lemma accounts_same d d' : outs d' = outs d -> waiting d' = waiting d ->
  overflowQueue d' = overflowQueue d -> accounts d -> accounts d'.
Proof.
  intros E1 E2 E3 [A1 A2]. unfold held, released, answered, waiting_ovf in *.
  split; unfold held, released, answered, waiting_ovf; by rewrite E1, ?E2, ?E3.
Qed.

Lemma outs_read d d' ev c : outs d' = outs d ++ [Release ev; Done ev c] ->
  held d' = held d /\ released d' = released d ⊎ {[+ ev +]} /\ answered d' = answered d ⊎ {[+ ev +]}.
Proof.
  intros E. unfold held, released, answered. rewrite E, !omap_app, !list_to_set_disj_app.
  cbn [omap list_omap]. rewrite !list_to_set_disj_cons, list_to_set_disj_nil.
  split_and!; multiset_solver.
Qed.

Lemma served_accounts d d' id wq cur : served g d d' id wq cur -> accounts d -> accounts d'.
Proof.
  intros Hs Ha. destruct (r_ev (reqs d id)) as [ev|] eqn:E.
  - destruct (sv_read _ _ _ _ _ _ Hs ev E) as [Hw [c Ho]].
    destruct (outs_read d d' ev c Ho) as (E1 & E2 & E3). destruct Ha as [A1 A2].
    assert (waiting_ovf d' = waiting_ovf d) as Eo by (unfold waiting_ovf; by rewrite (sv_ovf _ _ _ _ _ _ Hs)).
    split; [|by rewrite E2, E3, A2]. rewrite E1, E3, A1, Eo, Hw. multiset_solver.
  - destruct (sv_waiting _ _ _ _ _ _ Hs E) as [Hw Ho].
    by apply (accounts_same d); [..|apply (sv_ovf _ _ _ _ _ _ Hs)|].
Qed.

Lemma admitted_accounts d d1 r id m ovf ev : admitted g d d1 r id m ovf -> r_ev r = Some ev ->
  held d1 = held d /\ answered d1 ⊎ waiting d1 = {[+ ev +]} ⊎ (answered d ⊎ waiting d) /\
  (released d = answered d -> released d1 = answered d1).
Proof.
  intros Ha Hev. destruct (r_write r) eqn:Ew.
  - destruct (ad_write _ _ _ _ _ _ _ Ha Ew ev Hev) as [Hw [c Ho]].
    destruct (outs_read d d1 ev c Ho) as (E1 & E2 & E3). rewrite E1, E2, E3, Hw.
    split_and!; [done|multiset_solver|by intros ->].
  - destruct (ad_waiting _ _ _ _ _ _ _ Ha Ew ev Hev) as [Hw Ho].
    unfold held, released, answered. rewrite Ho, Hw. split_and!; [done|multiset_solver|done].
Qed.

(** ** A tick *)

(** As long as a request waits in a queue, a tick is to come; the overflow queue is used
    only behind other requests. *)
Record live (d : ddr) : Prop := {
  lv_next : queued d <> [] -> nextSchedEvent d <> None;
  lv_ovf : overflowQueue d <> [] -> queued d <> []
}.

Lemma full_queued d wq : pools g d -> rq_full (pool wq d) = true -> queued d <> [].
Proof.
  intros Hp Hf E. apply bool_decide_eq_true in Hf. pose proof (po_nodes _ _ Hp wq) as P.
  unfold queued in E. apply app_eq_nil in E as [E1 E2].
  assert (reqList (pool wq d) = []) as E by (by destruct wq). rewrite E, Hf in P. cbn in P.
  apply Permutation_length in P. rewrite length_seq in P. cbn in P. pose proof (ok_depth g Hg). lia.
Qed.

Lemma not_full_free d wq : rq_full (rdQueue d) = false -> rq_full (wrQueue d) = false ->
  freeList (pool wq d) <> [].
Proof. intros H1 H2. apply bool_decide_eq_false in H1, H2. by destruct wq. Qed.

(** How far the controller is from having answered every request, if it is left alone: how
    many wait, how many of these in the overflow queue, and how many ticks before one is
    served. *)
Definition pend (d : ddr) : nat := length (queued d) + length (overflowQueue d).
Definition phase (d : ddr) : nat :=
  match nextSchedCycle d with
  | None => 0
  | Some c =>
      if c + tCL t <? minRespCycle d then 2
      else match pick g d c (reqList (pool (is_write_queue g d) d)) None with
           | Ok (Some _, _) => 0
           | _ => 1
           end
  end.
Definition distance (d : ddr) : nat :=
  4 * (pend d + length (overflowQueue d)) + phase d + length (agenda d).

Lemma phase_le d : (phase d <= 2)%nat.
Proof.
  unfold phase. destruct (nextSchedCycle d); [|lia]. destruct (_ <? _); [lia|].
  destruct (pick _ _ _ _ _) as [[[?|] ?]|]; lia.
Qed.

Record ticked (d d' : ddr) (n : option Z) (sys : Z) : Prop := {
  tk_progress : (length (overflowQueue d') <= length (overflowQueue d))%nat /\
    ((pend d' < pend d)%nat \/
     (pend d' = pend d /\ length (overflowQueue d') < length (overflowQueue d))%nat \/
     (pend d' = pend d /\ (n = None \/ (phase d' < phase d)%nat)));
  tk_pools : pools g d';
  tk_accounts : accounts d';
  tk_ovf : overflowQueue d' <> [] -> queued d' <> [];
  tk_events : match n with
    | None => queued d' = [] /\
        events_of d' = (sched d, numSched d, None, None, eventFreelist d, agenda d)
    | Some c' => exists c, c' = Z.max (matching g c) sys /\ sysToMem g sys <= c /\
        events_of d' = (sched d, numSched d, nextSchedEvent d, Some c, eventFreelist d, agenda d)
    end
}.

Lemma overflow_spec d minSched now : pools g d -> accounts d ->
  (forall c, minSched = Some c -> now <= c) -> (minSched = None -> queued d = []) ->
  exists d' m, pull_overflow g now d minSched = Ok (d', m) /\
    pools g d' /\ accounts d' /\ (overflowQueue d' <> [] -> queued d' <> []) /\
    (forall c, m = Some c -> now <= c) /\ (m = None -> queued d' = []) /\ events_of d' = events_of d /\
    ((d' = d /\ m = minSched) \/
     (length (overflowQueue d) = S (length (overflowQueue d')) /\
      length (queued d') = S (length (queued d)))).
Proof.
  intros Hp Ha Hms Hmn. unfold pull_overflow. destruct (negb _ && negb _) eqn:Ef.
  - apply andb_true_iff in Ef as [F1 F2]. apply negb_true_iff in F1, F2.
    destruct (overflowQueue d) as [|r ovf] eqn:Eovf.
    { exists d, minSched. split_and!; try done. by left. }
    pose proof (po_ovf _ _ Hp) as Hovf. rewrite Eovf in Hovf. apply Forall_cons in Hovf as [Hr Hovf].
    destruct (r_ev r) as [ev|] eqn:Eev; [|by destruct Hr].
    destruct (admit_spec g d r now ev ovf Hp Eev Hr Hovf (not_full_free d _ F1 F2))
      as (id & q & d1 & -> & Hq & Had).
    cbn [mbind res_bind]. rewrite Hq. cbn [mbind res_bind]. clear Hq.
    destruct (admitted_accounts _ _ _ _ _ _ _ Had Eev) as (A1 & A2 & A3).
    assert (queued d1 <> []) as Hne.
    { intros E. pose proof (ad_queued _ _ _ _ _ _ _ Had) as P. rewrite E in P.
      by apply Permutation_nil_cons in P. }
    assert (length (ovf) = length (overflowQueue d1) /\ length (queued d1) = S (length (queued d))) as [Hlo Hlq].
    { rewrite (ad_ovf _ _ _ _ _ _ _ Had). split; [done|].
      by rewrite (Permutation_length (ad_queued _ _ _ _ _ _ _ Had)). }
    assert (accounts d1) as Ha1.
    { destruct Ha as [B1 B2]. split; [|by apply A3]. rewrite A1, B1, A2.
      assert (waiting_ovf d = {[+ ev +]} ⊎ waiting_ovf d1) as ->; [|multiset_solver].
      unfold waiting_ovf. rewrite Eovf, (ad_ovf _ _ _ _ _ _ _ Had). cbn [omap list_omap]. rewrite Eev.
      apply list_to_set_disj_cons. }
    pose proof (ad_pools _ _ _ _ _ _ _ Had) as Hp1. pose proof (ad_events _ _ _ _ _ _ _ Had) as He1.
    destruct (is_first g d1 id) eqn:Efirst.
    + set (mq := Z.max now _). assert (now <= mq) as Hmq by lia.
      assert (exists m0, (if later minSched mq then
                        c ← findMinCmdCycle g d1 (reqs d1 id); mret (Some (Z.max mq c))
                      else mret minSched) = Ok m0 /\ m0 <> None /\ (forall c, m0 = Some c -> now <= c))
        as (m0 & -> & Hm0 & Hm0').
      { destruct (later minSched mq) eqn:El.
        - destruct (findMinCmdCycle_ok g d1 (reqs d1 id)) as [c ->]. eexists. split; [done|].
          split; [done|]. intros c' [= <-]. lia.
        - exists minSched. split; [done|]. split; [|done]. by intros ->. }
      cbn [mbind res_bind]. eexists d1, _. split; [done|]. split_and!; try done.
      * intros c. destruct (later m0 mq); [by intros [= <-]|by apply Hm0'].
      * by destruct (later m0 mq).
      * right. cbn. by rewrite Hlo.
    + exists d1, minSched. split_and!; try done.
      * intros E. exfalso. by apply (ad_first _ _ _ _ _ _ _ Had Efirst), Hmn.
      * right. cbn. by rewrite Hlo.
  - exists d, minSched. split_and!; try done; [|by left]. intros _. apply andb_false_iff in Ef as [F|F].
    + apply negb_false_iff in F. by apply (full_queued d false).
    + apply negb_false_iff in F. by apply (full_queued d true).
Qed.

Lemma pick_sched d s n nx nc fl ag cur l : forall ms,
  pick g (set_sched d s n nx nc fl ag) cur l ms = pick g d cur l ms.
Proof.
  induction l as [|id l IH]; intros ms; [done|]. cbn [pick]. rewrite IH.
  change (is_first g (set_sched d s n nx nc fl ag) id) with (is_first g d id).
  change (findMinCmdCycle g (set_sched d s n nx nc fl ag) (reqs (set_sched d s n nx nc fl ag) id))
    with (findMinCmdCycle g d (reqs d id)).
  destruct (is_first g d id); [|done]. destruct (findMinCmdCycle_ok g d (reqs d id)) as [c ->].
  cbn. destruct (c <=? cur); [done|]. apply IH.
Qed.

Lemma phase_sched d s n nx nc fl ag : nc = nextSchedCycle d -> phase (set_sched d s n nx nc fl ag) = phase d.
Proof.
  intros ->. unfold phase. cbn [nextSchedCycle set_sched minRespCycle].
  destruct (nextSchedCycle d) as [c|]; [|done].
  change (is_write_queue g (set_sched d s n nx (Some c) fl ag)) with (is_write_queue g d).
  change (pool ?w (set_sched d s n nx (Some c) fl ag)) with (pool w d). by rewrite pick_sched.
Qed.

(** An idle tick asks for a cycle at which fewer ticks are left. *)
Lemma idle_phase d cur c s n nx fl ag : nextSchedCycle d = Some cur -> idle g d cur (Some c) ->
  (phase (set_sched d s n nx (Some c) fl ag) < phase d)%nat.
Proof.
  intros Hn Hidle. unfold phase. rewrite Hn. cbn [nextSchedCycle set_sched minRespCycle].
  destruct Hidle as [[_ ?]|[[H1 H2]|(H1 & m' & [= <-] & H2 & H3 & id & m'' & H4)]]; [done| |].
  - injection H2 as ->. rewrite (proj2 (Z.ltb_ge (_ - _ + _) _)) by lia. rewrite (proj2 (Z.ltb_lt (cur + _) _)) by lia.
    destruct (pick _ _ _ _ _) as [[[?|] ?]|]; lia.
  - rewrite !(proj2 (Z.ltb_ge _ _)) by lia. rewrite H3.
    change (is_write_queue g (set_sched d s n nx (Some c) fl ag)) with (is_write_queue g d).
    change (pool ?w (set_sched d s n nx (Some c) fl ag)) with (pool w d). rewrite pick_sched.
    rewrite H4. lia.
Qed.

Lemma tick_spec d v sys : view t d v -> pools g d -> accounts d -> 0 <= sys ->
  nextSchedCycle d = Some (sysToMem g sys) ->
  exists d' n, tick g sys d = Ok (d', n) /\ ticked d d' n sys.
Proof.
  intros Hv Hp Ha Hs0 Hn. unfold tick. rewrite bool_decide_true by done. cbn [assert_that mbind res_bind].
  destruct (trySchedule_spec g Hg sys d v Hv Hp Hs0) as (d1 & m1 & -> & Hm1 & Hm1' & Hd1).
  cbn [mbind res_bind].
  assert (match m1 with Some c => sysToMem g sys <=? c | None => true end = true) as ->.
  { destruct m1; [|done]. apply Z.leb_le. by apply Hm1. }
  cbn [assert_that mbind res_bind].
  assert (pools g d1 /\ accounts d1 /\ events_of d1 = events_of d) as (Hp1 & Ha1 & He1).
  { destruct Hd1 as [[-> _]|(id & wq & Hsv)]; [done|]. split; [apply (sv_pools _ _ _ _ _ _ Hsv)|].
    split; [by eapply served_accounts|apply (sv_events _ _ _ _ _ _ Hsv)]. }
  destruct (overflow_spec d1 m1 (sysToMem g sys) Hp1 Ha1 Hm1 Hm1')
    as (d2 & m2 & Hov & Hp2 & Ha2 & Ho2 & Hm2 & Hm2' & He2 & Hpr).
  rewrite Hov. cbn [mbind res_bind]. rewrite He1 in He2. injection He2 as E1 E2 E3 E4 E5 E6.
  assert ((length (overflowQueue d2) <= length (overflowQueue d))%nat /\
    ((pend d2 < pend d)%nat \/
     (pend d2 = pend d /\ length (overflowQueue d2) < length (overflowQueue d))%nat \/
     (d2 = d /\ idle g d (sysToMem g sys) m2))) as [Hle Hprog].
  { unfold pend. destruct Hd1 as [[-> Hidle]|(id & wq & Hsv)].
    - destruct Hpr as [[-> ->]|[H1 H2]]; [by auto|lia].
    - pose proof (Permutation_length (sv_queued _ _ _ _ _ _ Hsv)) as Hl. cbn in Hl.
      rewrite (sv_ovf _ _ _ _ _ _ Hsv) in Hpr. destruct Hpr as [[-> ->]|[H1 H2]]; [|lia].
      rewrite (sv_ovf _ _ _ _ _ _ Hsv). lia. }
  destruct m2 as [c|]; (eexists _, _; split; [done|]; split; cbn).
  - split; [exact Hle|]. destruct Hprog as [H|[H|[-> Hidle]]]; [by left|by right; left|].
    right. right. split; [done|]. right. by apply (idle_phase d (sysToMem g sys)).
  - by apply (pools_same g d2).
  - by apply (accounts_same d2).
  - done.
  - exists c. split; [done|]. split; [by apply Hm2|]. unfold events_of. cbn. congruence.
  - split; [exact Hle|]. destruct Hprog as [H|[H|[-> _]]]; [by left|by right; left|].
    right. right. split; [done|by left].
  - by apply (pools_same g d2).
  - by apply (accounts_same d2).
  - done.
  - split; [by apply Hm2'|]. unfold events_of. cbn. congruence.
Qed.

(** ** Operations *)

Lemma recycle_spec e d : nextSchedEvent d <> Some e -> e ∉ eventFreelist d ->
  recycleEvent e d = Ok (set_sched d (<[e := IDLE]> (sched d)) (numSched d) (nextSchedEvent d)
    (nextSchedCycle d) (e :: eventFreelist d) (agenda d)).
Proof.
  intros H1 H2. unfold recycleEvent. by rewrite !bool_decide_false by done.
Qed.

(** An event taken off the agenda that is then free. *)
Lemma sched_ok_recycle d s e nx nc : sched_ok d -> (s, e) ∈ agenda d ->
  (nx = None /\ nc = None /\ (forall e', nextSchedEvent d = Some e' -> e' = e)) \/
  (nx = nextSchedEvent d /\ nc = nextSchedCycle d /\ nextSchedEvent d <> Some e) ->
  forall d0 st, (forall e', e' <> e -> st e' = sched d e') -> st e = IDLE ->
  sched_ok (set_sched d0 st (numSched d) nx nc (e :: eventFreelist d) (unqueue (s, e) (agenda d))).
Proof.
  intros [S1 S2 S3 S4 S5] Hin Hnx d0 st Hst He. pose proof (unqueue_perm _ _ Hin) as Hp.
  assert (forall a, a ∈ unqueue (s, e) (agenda d) -> a ∈ agenda d /\ a.2 <> e) as Hun.
  { intros [s' e'] Ha. split; [rewrite Hp; by right|]. cbn. intros ->.
    rewrite Hp in S3. cbn in S3. apply NoDup_cons in S3 as [S3 _]. apply S3, elem_of_app. left.
    apply list_elem_of_fmap. by exists (s', e). }
  split; cbn.
  - destruct Hnx as [(-> & -> & _)|(-> & -> & Hne)]; [done|].
    destruct (nextSchedEvent d) as [e'|]; [|done]. assert (e' <> e) as Hd by congruence.
    destruct S1 as [S1 (s' & H1 & H2)]. rewrite Hst by done. split; [done|].
    exists s'. split; [|done]. rewrite Hp in H1. apply elem_of_cons in H1 as [[= -> ->]|H1]; done.
  - intros s' e' Ha. destruct (Hun _ Ha) as [H1 H2]. cbn in H2. destruct (S2 _ _ H1) as [H3 H4].
    split; [done|]. rewrite Hst by done. destruct Hnx as [(-> & -> & Hone)|(-> & -> & Hne)]; [|done].
    right. destruct H4 as [H4|]; [|done]. by destruct H2; apply Hone.
  - rewrite <- Permutation_middle. rewrite Hp in S3. exact S3.
  - intros e' [->|Ha]%elem_of_cons; [destruct (S2 _ _ Hin); by rewrite He|].
    destruct (S4 _ Ha) as [H1 H2]. split; [|done]. rewrite Hst; [done|]. intros ->.
    rewrite Hp in S3. cbn in S3. apply NoDup_cons in S3 as [S3 _]. apply S3, elem_of_app. by right.
  - intros e' Ha. destruct (decide (e' = e)) as [->|]; [done|]. rewrite Hst by done. by apply S5.
Qed.

(** What an operation keeps, besides the timing of the devices. *)
Record kept (d : ddr) : Prop := {
  kp_pools : pools g d;
  kp_accounts : accounts d;
  kp_sched : sched_ok d;
  kp_live : live d
}.

Lemma kept_same d d' : same_reqs d d' -> outs d' = outs d -> events_of d' = events_of d ->
  kept d -> kept d'.
Proof.
  intros Hs Ho He [K1 K2 K3 [K4 K5]].
  assert (queued d' = queued d) as Eq by (unfold queued; by rewrite (sr_rd _ _ Hs), (sr_wr _ _ Hs)).
  split.
  - by apply (pools_same g d).
  - apply (accounts_same d); [done| |apply (sr_ovf _ _ Hs)|done].
    unfold waiting. by rewrite Eq, (sr_reqs _ _ Hs).
  - by apply (sched_ok_events d).
  - unfold events_of in He. injection He as _ _ He _ _ _. split; rewrite Eq, ?He, ?(sr_ovf _ _ Hs); done.
Qed.

Lemma close_kept (f : Bank -> Bank) l : (forall wr b, bank_queue wr (f b) = bank_queue wr b) ->
  forall d, let d' := foldl (fun d k => set_bank d k (f (banks d k))) d l in
  same_reqs d d' /\ outs d' = outs d /\ events_of d' = events_of d.
Proof.
  intros Hf. induction l as [|x l IH]; intros d; cbn; [by split_and!|].
  destruct (IH (set_bank d x (f (banks d x)))) as ([S1 S2 S3 S4 S5] & E1 & E2).
  split; [|done]. split; try done. intros wr k. rewrite S5. cbn.
  destruct (decide (k = x)) as [->|]; [by rewrite fn_lookup_insert|by rewrite fn_lookup_insert_ne].
Qed.

Lemma refresh_spec sys d : kept d -> exists d', refresh g sys d = Ok d' /\ kept d' /\ later_agenda sys (agenda d) (agenda d').
Proof.
  intros Hk. unfold refresh. set (m := foldl (fun m k => Z.max m _) _ (all_banks g)).
  pose proof (proj1 (foldl_max_le (fun k => Z.max (minPreCycle (banks d k)) (lastCmdCycle (banks d k)))
    (all_banks g) (sysToMem g sys))) as Hm. cbn beta in Hm. fold m in Hm.
  rewrite (proj2 (Z.leb_le _ _) Hm). rewrite (proj2 (Z.leb_le _ _) (to_refresh _ (ok_tech g Hg))).
  cbn [assert_that mbind res_bind]. eexists. split; [done|].
  set (f := fun b => mkBank (openRow b) false (m + tRFC t - tRP t) (lastActCycle b) (lastCmdCycle b)
                       (curRowHits b) (rdReqs b) (wrReqs b)).
  change (foldl (fun d k => set_bank d k _) d (all_banks g))
    with (foldl (fun d k => set_bank d k (f (banks d k))) d (all_banks g)).
  destruct (close_kept f (all_banks g) ltac:(by intros []) d) as ([S1 S2 S3 S4 S5] & E1 & E2).
  injection E2 as F1 F2 F3 F4 F5 F6. split.
  - apply (kept_same d); [by split|done| |done]. unfold events_of. cbn. congruence.
  - cbn. rewrite F6. apply later_agenda_refl.
Qed.

Lemma simulate_spec e s d v : view t d v -> kept d -> (s, e) ∈ agenda d -> 0 <= s ->
  exists d', simulate g e s d = Ok d' /\ kept d' /\ (distance d' < distance d)%nat /\
    later_agenda s (agenda d) (agenda d').
Proof.
  intros Hv [Hp Ha Hs Hl] Hin Hs0. unfold simulate. cbn [sched set_sched].
  destruct (so_agenda _ Hs _ _ Hin) as [Hen Hst].
  assert (forall a, a ∈ unqueue (s, e) (agenda d) -> a ∈ agenda d) as Hsub.
  { intros a Hi. rewrite (unqueue_perm _ _ Hin). by right. }
  assert (e ∉ eventFreelist d) as Hfree.
  { pose proof (so_nodup _ Hs) as Hnd. apply NoDup_app in Hnd as (_ & Hd & _).
    apply Hd. apply list_elem_of_fmap. by exists (s, e). }
  pose proof (so_next _ Hs) as Hnext. destruct Hst as [Hn|Hann].
  - rewrite Hn in Hnext. destruct Hnext as [Hq (s' & Hin' & Hc)].
    rewrite (agenda_cycle d s' s e Hs Hin' Hin) in Hc. rewrite Hq.
    set (d0 := set_sched (set_sched _ _ _ _ _ _ _) _ _ _ _ _ _).
    assert (view t d0 v) as Hv0 by (destruct Hv; by split).
    assert (pools g d0) as Hp0 by (by apply (pools_same g d)).
    assert (accounts d0) as Ha0 by (by apply (accounts_same d)).
    destruct (tick_spec d0 v s Hv0 Hp0 Ha0 Hs0 Hc) as (d1 & n & -> & [K0 K1 K2 K3 K4]).
    change (pend d0) with (pend d) in K0. change (overflowQueue d0) with (overflowQueue d) in K0.
    assert (phase d0 = phase d) as Eph by (unfold d0; by rewrite !phase_sched).
    rewrite Eph in K0. destruct K0 as [Ko K0].
    pose proof (phase_le d) as Hph. pose proof (phase_le d1) as Hph1.
    pose proof (Permutation_length (unqueue_perm _ _ Hin)) as Hlen. cbn [length] in Hlen.
    cbn [mbind res_bind]. destruct n as [c'|].
    + destruct K4 as (c & -> & Hcs & Hev). injection Hev as E1 E2 E3 E4 E5 E6.
      eexists. split; [done|]. split; [|split].
      3: { intros a. cbn. rewrite E6. cbn. intros [->|Hi]%elem_of_cons; [right; cbn; lia|left; by apply Hsub]. }
      2: { unfold distance. change (pend (set_sched d1 ?s ?n ?e ?c ?f ?a)) with (pend d1).
           change (overflowQueue (set_sched d1 ?s ?n ?e ?c ?f ?a)) with (overflowQueue d1).
           rewrite phase_sched by done.
           cbn [agenda set_sched]. rewrite E6. cbn [agenda set_sched length]. cbn in Hlen. rewrite Hlen.
           destruct K0 as [?|[?|[? [?|?]]]]; [lia|lia|done|lia]. }
      split; [by apply (pools_same g d1)|by apply (accounts_same d1)| |].
      2: { split; cbn; [|done]. intros _. rewrite E3. cbn. by rewrite Hn. }
      pose proof (unqueue_perm _ _ Hin) as Hperm. destruct Hs as [S1 S2 S3 S4 S5].
      rewrite Hperm in S3. cbn in S3. apply NoDup_cons in S3 as [S3 S3'].
      assert (forall a, a ∈ unqueue (s, e) (agenda d) -> a ∈ agenda d /\ a.2 <> e) as Hun.
      { intros [s2 e2] Hi. split; [rewrite Hperm; by right|]. cbn. intros ->.
        apply S3, elem_of_app. left. apply list_elem_of_fmap. by exists (s2, e). }
      split; cbn; rewrite ?E1, ?E2, ?E3, ?E4, ?E5, ?E6; cbn.
      * rewrite Hn, fn_lookup_insert. split; [done|]. eexists. split; [by left|].
        f_equal. symmetry. apply matching_later; [apply (ok_freqs g Hg)|done].
      * intros s2 e2 [[= -> ->]|Hi]%elem_of_cons; [by auto|]. destruct (Hun _ Hi) as [H1 H2].
        cbn in H2. destruct (S2 _ _ H1) as [H3 [H4|H4]]; [congruence|]. split; [done|]. right. by rewrite !fn_lookup_insert_ne by done.
      * apply NoDup_cons. done.
      * intros e2 Hi. destruct (S4 _ Hi). by rewrite !fn_lookup_insert_ne by (by intros <-).
      * intros e2 Hi. rewrite !fn_lookup_insert_ne by (intros <-; lia). by apply S5.
    + destruct K4 as [Hqd Hev]. injection Hev as E1 E2 E3 E4 E5 E6.
      rewrite recycle_spec by (by rewrite ?E3, ?E5).
      eexists. split; [done|]. split; [|split].
      3: { intros a. cbn. rewrite E6. cbn. intros Hi. left. by apply Hsub. }
      2: { unfold distance. rewrite E4. cbn [phase nextSchedCycle set_sched agenda].
           change (pend (set_sched d1 ?s ?n ?e ?c ?f ?a)) with (pend d1).
           rewrite E6. cbn [overflowQueue agenda set_sched]. destruct K0 as [?|[?|[? _]]]; lia. }
      split; [by apply (pools_same g d1)|by apply (accounts_same d1)| |].
      2: { split; cbn; [by intros ?|done]. }
      rewrite E1, E2, E3, E4, E5, E6. cbn. apply (sched_ok_recycle d s e None None Hs Hin).
      * left. split_and!; [done|done|]. intros e' E. congruence.
      * intros e' He. by rewrite !fn_lookup_insert_ne by done.
      * by rewrite fn_lookup_insert.
  - assert (nextSchedEvent d <> Some e) as Hne by (intros E; rewrite E in Hnext; destruct Hnext; congruence).
    rewrite Hann, recycle_spec by done. eexists. split; [done|].
    pose proof (Permutation_length (unqueue_perm _ _ Hin)) as Hlen. cbn [length] in Hlen. split; [|split].
    3: { intros a. cbn. intros Hi. left. by apply Hsub. }
    2: { unfold distance. rewrite !phase_sched by done.
         change (pend (set_sched ?d0 ?s ?n ?e ?c ?f ?a)) with (pend d).
         cbn [overflowQueue agenda set_sched]. lia. }
    split; [by apply (pools_same g d)|by apply (accounts_same d)| |destruct Hl; by split].
    cbn. apply (sched_ok_recycle d s e _ _ Hs Hin); [by right| |by rewrite fn_lookup_insert].
    intros e' He. by rewrite fn_lookup_insert_ne.
Qed.

Lemma enqueue_spec ev addr wr sys d : kept d -> 0 <= addr ->
  exists d', enqueue g ev addr wr sys d = Ok d' /\ kept d' /\ later_agenda sys (agenda d) (agenda d').
Proof.
  intros [Hp Ha Hs Hl] Haddr. unfold enqueue.
  destruct (ok_map g Hg addr Haddr) as (loc & -> & Hvalid). cbn [mbind res_bind].
  set (r := mkRequest addr loc wr 0 _ _ _). set (d0 := add_outs d [Hold ev]).
  assert (pools g d0) as Hp0 by (by apply (pools_same g d)).
  assert (ovf_ok g r) as Hr by done.
  assert (held d0 = held d ⊎ {[+ ev +]} /\ answered d0 = answered d /\ released d0 = released d) as (B1 & B2 & B3).
  { unfold held, answered, released. cbn [d0 outs add_outs]. rewrite !omap_app, !list_to_set_disj_app.
    cbn [omap list_omap]. rewrite list_to_set_disj_cons, list_to_set_disj_nil.
    split_and!; multiset_solver. }
  destruct Ha as [A1 A2].
  destruct (rq_full (rdQueue d) || rq_full (wrQueue d)) eqn:Ef.
  - eexists. split; [done|]. split; [|apply later_agenda_refl].
    assert (queued d <> []) as Hq.
    { apply orb_true_iff in Ef as [F|F]; [by apply (full_queued d false)|by apply (full_queued d true)]. }
    split.
    + destruct Hp as [P1 P2 P3 P4]. split; try done. cbn. apply Forall_app. split; [done|by constructor].
    + split; [|change (released d0 = answered d0); by rewrite B3, B2]. change (held d0 = answered d0 ⊎ waiting d ⊎
        waiting_ovf (set_queues d0 (rdQueue d0) (wrQueue d0) (overflowQueue d0 ++ [r]))).
      assert (waiting_ovf (set_queues d0 (rdQueue d0) (wrQueue d0) (overflowQueue d0 ++ [r])) =
              waiting_ovf d ⊎ {[+ ev +]}) as ->; [|rewrite B1, B2, A1; multiset_solver].
      unfold waiting_ovf. cbn [overflowQueue set_queues]. rewrite omap_app, list_to_set_disj_app.
      cbn [omap list_omap r r_ev]. by rewrite list_to_set_disj_cons, list_to_set_disj_nil, gmultiset_disj_union_right_id.
    + by apply (sched_ok_events d).
    + destruct Hl as [L1 L2]. split; cbn; [by intros _; apply L1|done].
  - apply orb_false_iff in Ef as [F1 F2].
    destruct (admit_spec g d0 r (sysToMem g sys) ev (overflowQueue d0) Hp0 eq_refl Hr (po_ovf _ _ Hp)
      (not_full_free d _ F1 F2)) as (id & q & d1 & -> & Hq & Had).
    cbn [mbind res_bind]. rewrite Hq. cbn [mbind res_bind]. clear Hq.
    destruct (admitted_accounts _ _ _ _ _ _ _ Had eq_refl) as (C1 & C2 & C3).
    assert (sched_ok d1) as Hs1.
    { apply (sched_ok_events d0); [apply (ad_events _ _ _ _ _ _ _ Had)|by apply (sched_ok_events d)]. }
    assert (queued d1 <> []) as Hne.
    { intros E. pose proof (ad_queued _ _ _ _ _ _ _ Had) as P. rewrite E in P.
      by apply Permutation_nil_cons in P. }
    assert (accounts d1) as Ha1.
    { split; [|apply C3; by rewrite B3, B2]. rewrite C1, B1, C2, B2, A1.
      change (waiting d0) with (waiting d).
      assert (waiting_ovf d1 = waiting_ovf d) as ->; [|multiset_solver].
      unfold waiting_ovf. by rewrite (ad_ovf _ _ _ _ _ _ _ Had). }
    pose proof (ad_pools _ _ _ _ _ _ _ Had) as Hp1.
    pose proof (ad_events _ _ _ _ _ _ _ Had) as He1. injection He1 as _ _ En _ _ Eag.
    assert (nextSchedEvent d1 <> None -> kept d1) as Hdone.
    { intros Hnx. by split. }
    destruct (is_first g d1 id) eqn:Efirst.
    + set (m0 := Z.max (sysToMem g sys) _). assert (sysToMem g sys <= m0) as Hm0 by lia.
      assert (exists m1, (if later (nextSchedCycle d1) m0 then
                 c ← findMinCmdCycle g d1 (reqs d1 id); mret (Z.max m0 c) else mret m0) = Ok m1 /\
               sysToMem g sys <= m1) as (m1 & -> & Hm1).
      { destruct (later _ _); [|by eexists]. destruct (findMinCmdCycle_ok g d1 (reqs d1 id)) as [c ->].
        eexists. split; [done|]. lia. }
      cbn [mbind res_bind]. destruct (later (nextSchedCycle d1) m1) eqn:El.
      * destruct (schedule_tick_spec d1 m1 sys Hs1 Hm1) as (s' & n & e & fl & ag & -> & Hs2 & Hlag).
        eexists. split; [done|]. split; [|cbn; by rewrite <- Eag]. split; [by apply (pools_same g d1)|by apply (accounts_same d1)|done|by split].
      * exists d1. split; [done|]. split; [|rewrite Eag; apply later_agenda_refl]. apply Hdone. intros E. pose proof (so_next _ Hs1) as Hn.
        rewrite E in Hn. by rewrite Hn in El.
    + exists d1. split; [done|]. split; [|rewrite Eag; apply later_agenda_refl]. apply Hdone. rewrite En. apply (lv_next _ Hl).
      apply (ad_first _ _ _ _ _ _ _ Had Efirst).
Qed.
End Sched.
End DdrSched.
