(* ===== verification/DdrRun.v ===== *)
(** The DDR controller of DdrMem.v in operation: what holds in every state it reaches, from
    the lemmas of DdrSafe.v, DdrInv.v and DdrSched.v, and runs of a small channel. *)
From stdpp Require Import strings gmultiset.
From S2P Require Import Prelude MemHier DdrTiming DdrMem DdrSafe DdrInv DdrSched.
Import DdrTiming DdrMem DdrSafe DdrInv DdrSched.

Module DdrRun.

Section Run.
Context (g : config) (Hg : config_ok g).

Record inv (now : Z) (d : ddr) : Prop := {
  in_now : 0 <= now;
  in_tracked : tracked (T g) (ranksPerChannel g) (banksPerRank g) d;
  in_kept : kept g d;
  in_agenda : forall a, a ∈ agenda d -> now <= a.1
}.

Lemma ddr_new_inv : inv 0 (new g).
Proof.
  split; [lia|apply new_tracked; apply (ok_tech g Hg)| |by intros a ?%not_elem_of_nil].
  split.
  - split; cbn; try done; [by intros []|by intros [] k|by intros [] i ?%not_elem_of_nil].
  - by split.
  - split; cbn; try done; [by intros s e ?%not_elem_of_nil|constructor|by intros e ?%not_elem_of_nil].
  - by split.
Qed.

Lemma run_op_inv now o d : inv now d -> may_run now o d ->
  exists d', run_op g o d = Ok d' /\ inv (op_cycle o) d' /\
    match o with Fire _ _ => (distance g d' < distance g d)%nat | _ => True end.
Proof.
  intros [Hn Htr Hk Hag] (Hnow & Hall & Ho).
  assert (exists d', run_op g o d = Ok d' /\ kept g d' /\
            later_agenda (op_cycle o) (agenda d) (agenda d') /\
            match o with Fire _ _ => (distance g d' < distance g d)%nat | _ => True end)
    as (d' & Hrun & Hk' & Hl & Hd).
  { destruct o as [ev addr wr c|c|c e]; cbn [run_op op_cycle] in *.
    - destruct (enqueue_spec g Hg ev addr wr c d Hk Ho) as (d' & E & K & L). by exists d'.
    - destruct (refresh_spec g Hg c d Hk) as (d' & E & K & L). by exists d'.
    - destruct Htr as (v & _ & Hv).
      destruct (simulate_spec g Hg e c d v Hv Hk Ho ltac:(lia)) as (d' & E & K & D & L). by exists d'. }
  exists d'. split; [done|]. split; [|done]. split; [lia| |done|].
  - by eapply run_op_tracked; [apply (ok_tech g Hg)|..].
  - intros a Ha. destruct (Hl a Ha) as [Ha'|]; [by apply Hall|done].
Qed.

Lemma reachable_inv' now d : reachable g now d -> inv now d.
Proof.
  induction 1 as [|now o d d' _ IH Hmay Hrun]; [apply ddr_new_inv|].
  destruct (run_op_inv now o d IH Hmay) as (d1 & E & Hi & _). congruence.
Qed.

(** C10: the commands that the controller sends, over any sequence of requests, refreshes and
    ticks, are commands that the memory devices accept one after the other: precharges,
    activations, bursts and refreshes respect the timing of their banks, of the data bus, and
    of the four-activation windows, and every access finds its row open. *)
Theorem ddr_protocol now d : reachable g now d ->
  exists v, accepts_all (T g) (ranksPerChannel g) (banksPerRank g) device0 (cmds d) v.
Proof. intros Hr. destruct (in_tracked _ _ (reachable_inv' _ _ Hr)) as (v & Ha & _). by exists v. Qed.

(** C11: in every state the controller reaches, whatever operation may come next runs: no
    assertion of the controller fails, on the scheduling events, the queues, the order of
    commands and of cycles, or the activation windows. *)
Theorem ddr_safe now o d : reachable g now d -> may_run now o d -> exists d', run_op g o d = Ok d'.
Proof.
  intros Hr Hm. destruct (run_op_inv _ _ _ (reachable_inv' _ _ Hr) Hm) as (d' & E & _). by exists d'.
Qed.

(** In every state the controller reaches, each event it holds was released and answered
    once or waits in one queue, each node of the pools is free or in the list of one bank,
    and a tick is scheduled as long as a request waits. *)
Theorem ddr_accounts now d : reachable g now d ->
  held d = answered d ⊎ waiting d ⊎ waiting_ovf d /\ released d = answered d /\
  pools g d /\
  (queued d <> [] \/ overflowQueue d <> [] -> exists e s, nextSchedEvent d = Some e /\
     sched d e = QUEUED /\ (s, e) ∈ agenda d /\ now <= s /\ nextSchedCycle d = Some (sysToMem g s)).
Proof.
  intros Hr. destruct (reachable_inv' _ _ Hr) as [_ _ [Kp [Ka Ka'] Ks [L1 L2]] Hag].
  split_and!; [done..|]. intros Hw. pose proof (so_next _ _ Ks) as Hs.
  assert (nextSchedEvent d <> None) as Hne by (destruct Hw; auto).
  destruct (nextSchedEvent d) as [e|]; [|done]. destruct Hs as [Hq (s & Hin & Hc)].
  exists e, s. split_and!; try done. by apply (Hag (s, e)).
Qed.

(** Left alone, with no new request or refresh, the controller comes to rest on every order
    in which its events may fire; then every event it held is answered. *)
Inductive drains : Z -> ddr -> Prop :=
  | drains_rest now d : agenda d = [] -> held d = answered d -> drains now d
  | drains_fire now d : (exists c e, may_run now (Fire c e) d) ->
      (forall c e, may_run now (Fire c e) d -> exists d', simulate g e c d = Ok d' /\ drains c d') ->
      drains now d.

Lemma list_min (l : list (Z * nat)) : l <> [] -> exists a, a ∈ l /\ forall b, b ∈ l -> a.1 <= b.1.
Proof.
  induction l as [|x l IH]; [done|]. intros _. destruct l as [|y l].
  - exists x. split; [by left|]. by intros b ->%list_elem_of_singleton.
  - destruct IH as (a & Ha & Hmin); [done|]. destruct (Z.le_ge_cases x.1 a.1) as [Hx|Hx].
    + exists x. split; [by left|]. intros b [->|Hb]%elem_of_cons; [lia|]. specialize (Hmin b Hb). lia.
    + exists a. split; [by right|]. intros b [->|Hb]%elem_of_cons; [lia|by apply Hmin].
Qed.

Lemma inv_drains m : forall now d, (distance g d <= m)%nat -> inv now d -> drains now d.
Proof.
  induction m as [m IH] using lt_wf_ind. intros now d Hm Hi.
  destruct (decide (agenda d = [])) as [Ha|Ha].
  - apply drains_rest; [done|]. destruct Hi as [_ _ [_ [Ka _] Ks [L1 L2]] _].
    assert (queued d = []) as Hq.
    { destruct (decide (queued d = [])) as [|Hne]; [done|]. specialize (L1 Hne).
      pose proof (so_next _ _ Ks) as Hn. destruct (nextSchedEvent d); [|done].
      destruct Hn as [_ (s & Hin & _)]. rewrite Ha in Hin. by apply not_elem_of_nil in Hin. }
    assert (overflowQueue d = []) as Ho.
    { destruct (overflowQueue d); [done|]. by destruct L2. }
    rewrite Ka. unfold waiting, waiting_ovf. rewrite Hq, Ho. multiset_solver.
  - apply drains_fire.
    + destruct (list_min _ Ha) as ([c e] & Hin & Hmin). exists c, e. split_and!; [|done|done].
      apply (in_agenda _ _ Hi (c, e) Hin).
    + intros c e Hmay. destruct (run_op_inv now (Fire c e) d Hi Hmay) as (d' & E & Hi' & Hd).
      exists d'. split; [done|]. by apply (IH (distance g d') ltac:(lia)).
Qed.

(** C12: left alone in any state it reaches, the controller fires only finitely many events,
    whatever their order, none of them fails, and when none is left every event it held has
    been answered. *)
Theorem ddr_drains now d : reachable g now d -> drains now d.
Proof. intros Hr. apply (inv_drains (distance g d)); [done|by apply reachable_inv']. Qed.
End Run.

(** ** A small channel

    Two ranks of eight banks, two nodes in each pool, closed pages and deferred writes. *)

Definition may_runb (now : Z) (o : op) (d : ddr) : bool :=
  (now <=? op_cycle o) && forallb (fun a : Z * nat => op_cycle o <=? a.1) (agenda d) &&
  match o with
  | Enqueue _ addr _ _ => 0 <=? addr
  | Refresh _ => true
  | Fire c e => bool_decide ((c, e) ∈ agenda d)
  end.

Lemma may_runb_spec now o d : may_runb now o d = true -> may_run now o d.
Proof.
  unfold may_runb. intros [[H1 H2]%andb_true_iff H3]%andb_true_iff. split_and!.
  - by apply Z.leb_le.
  - intros a Ha. rewrite forallb_forall in H2. apply Z.leb_le, H2. by apply list_elem_of_In.
  - destruct o; [by apply Z.leb_le|done|by apply bool_decide_eq_true in H3].
Qed.

Fixpoint run_ops (g : config) (now : Z) (ops : list op) (d : ddr) : res (Z * ddr) :=
  match ops with
  | [] => mret (now, d)
  | o :: ops => _ ← assert_that (may_runb now o d); d ← run_op g o d; run_ops g (op_cycle o) ops d
  end.

Lemma run_ops_reachable g ops : forall now d now' d', reachable g now d ->
  run_ops g now ops d = Ok (now', d') -> reachable g now' d'.
Proof.
  induction ops as [|o ops IH]; intros now d now' d' Hr; cbn; [by intros [= <- <-]|].
  rewrite bind_Ok. intros ([] & Hm & H). apply assert_that_Ok, may_runb_spec in Hm.
  apply bind_Ok in H as (d1 & Ho & H). by eapply IH; [eapply reach_op|].
Qed.

Definition small_map : addrmap := mkMap 4 127 0 1 1 7 11.
Definition small : config :=
  mkCfg (mkTech 4 10 10 5 10 4 24 20 5 10 74 5200) 2 8 10 2 4 true true small_map 2000000 666666.

Lemma small_ok : config_ok small.
Proof.
  split; [by split; cbn|by split; vm_compute|done|done|]. intros addr _.
  destruct (new_mapping_spec 64 1024 2 8 ["col"; "bank"; "rank"]%string) as (m & Hm & Hl);
    [apply Permutation_skip, perm_swap|done|done|by vm_compute|].
  assert (new_mapping 64 1024 2 8 ["col"; "bank"; "rank"]%string = Ok small_map) as E by (by vm_compute).
  rewrite E in Hm. injection Hm as <-. destruct (Hl addr) as (l & H1 & H2 & H3 & _).
  by exists l.
Qed.

(** Three reads and a write, the last two of which overflow; a refresh comes in between. *)
Definition small_ops : list op :=
  [Enqueue 1 0 false 10; Enqueue 2 1 false 11; Enqueue 3 4096 true 12; Enqueue 4 64 false 12;
   Fire 88 0; Refresh 88; Fire 88 0].

Definition final (r : res (Z * ddr)) : Z * ddr := match r with Ok x => x | Fail _ => (0, new small) end.
Definition small_run (ops : list op) : Z * ddr := final (run_ops small 0 ops (new small)).

Lemma small_reachable ops : match run_ops small 0 ops (new small) with Ok _ => True | Fail _ => False end ->
  reachable small (small_run ops).1 (small_run ops).2.
Proof.
  unfold small_run. destruct (run_ops small 0 ops (new small)) as [[now d]|] eqn:E; [intros _|done].
  cbn. by eapply run_ops_reachable; [apply reach_new|].
Qed.

Definition rest_ops : list op :=
  [Fire 88 0; Fire 100 0; Fire 382 0; Fire 394 0; Fire 406 0; Fire 484 0].

Lemma ddr_protocol_witness :
  let s := small_run (small_ops ++ rest_ops) in
  config_ok small /\ reachable small s.1 s.2 /\
  cmds s.2 = [ACT 20 0 0 0; CAS false 30 0 0 0; PRE 44 0 0; REF 44 118;
              ACT 118 1 0 0; CAS false 128 1 0 0; PRE 142 1 0;
              ACT 118 0 0 0; CAS false 132 0 0 0; PRE 142 0 0;
              ACT 152 0 0 2; CAS true 162 0 0 2; PRE 186 0 0] /\
  exists v, accepts_all (T small) 2 8 device0 (cmds s.2) v.
Proof.
  assert (reachable small (small_run (small_ops ++ rest_ops)).1 (small_run (small_ops ++ rest_ops)).2) as Hr
    by (apply small_reachable; by vm_compute).
  split; [exact small_ok|]. split; [exact Hr|]. split; [by vm_compute|].
  exact (ddr_protocol small small_ok _ _ Hr).
Defined.

Lemma ddr_safe_witness :
  let s := small_run small_ops in
  reachable small s.1 s.2 /\ may_run s.1 (Fire 88 0) s.2 /\ may_run s.1 (Enqueue 5 7 true 88) s.2 /\
  (exists d, run_op small (Fire 88 0) s.2 = Ok d) /\ (exists d, run_op small (Enqueue 5 7 true 88) s.2 = Ok d).
Proof.
  assert (reachable small (small_run small_ops).1 (small_run small_ops).2) as Hr
    by (apply small_reachable; by vm_compute).
  assert (may_run (small_run small_ops).1 (Fire 88 0) (small_run small_ops).2) as H1
    by (apply may_runb_spec; by vm_compute).
  assert (may_run (small_run small_ops).1 (Enqueue 5 7 true 88) (small_run small_ops).2) as H2
    by (apply may_runb_spec; by vm_compute).
  split; [exact Hr|]. split; [exact H1|]. split; [exact H2|].
  split; [exact (ddr_safe small small_ok _ _ _ Hr H1)|exact (ddr_safe small small_ok _ _ _ Hr H2)].
Defined.

Lemma ddr_accounts_witness :
  let s := small_run small_ops in let d := s.2 in
  reachable small s.1 d /\ queued d = [0; 1; 3]%nat /\
  held d = answered d ⊎ waiting d ⊎ waiting_ovf d /\ released d = answered d /\
  pools small d /\
  (queued d <> [] \/ overflowQueue d <> [] -> exists e c, nextSchedEvent d = Some e /\
     sched d e = QUEUED /\ (c, e) ∈ agenda d /\ s.1 <= c /\ nextSchedCycle d = Some (sysToMem small c)).
Proof.
  assert (reachable small (small_run small_ops).1 (small_run small_ops).2) as Hr
    by (apply small_reachable; by vm_compute).
  split; [exact Hr|]. split; [by vm_compute|]. exact (ddr_accounts small small_ok _ _ Hr).
Defined.

Lemma ddr_drains_witness :
  let s := small_run small_ops in reachable small s.1 s.2 /\ drains small s.1 s.2.
Proof.
  assert (reachable small (small_run small_ops).1 (small_run small_ops).2) as Hr
    by (apply small_reachable; by vm_compute).
  split; [exact Hr|exact (ddr_drains small small_ok _ _ Hr)].
Defined.

(** The spacing tRRD between activations is kept within a bank only: two banks of one rank
    are activated in the same cycle. *)
Example activations_together :
  cmds (small_run [Enqueue 1 0 false 10; Enqueue 2 2 false 10; Fire 88 0; Fire 100 0]).2 =
  [ACT 20 0 0 0; CAS false 30 0 0 0; PRE 44 0 0; ACT 20 0 1 0; CAS false 34 0 1 0; PRE 44 0 1].
Proof. by vm_compute. Qed.
End DdrRun.
