(* ===== verification/CoreRec.v ===== *)
(** The core recorder (core_recorder.h and core_recorder.cpp): it links the accesses that a
    core recorded in the bound phase into a chain of events, and after the weave phase moves
    the core's clock by the delay that contention added.

    The events of a core form a chain: every one is the child of the one before.  The chain
    is kept as the list of the events that the weave phase has not simulated yet; the first
    one is put on a queue when the thread joins ([queuedAt]), and [prevRespEvent] is the last
    one.  The accesses of writebacks hang from the chain on the side.  Cycles are 64-bit
    counters that do not wrap; a null [prevRespEvent] is [None], and a call through it fails
    here as an assertion does. *)
From S2P Require Import Prelude MemHier Timing.
Import MemHier (AccessType(..), IsGet, IsPut).
Import Timing (TimingRecord, reqCycle, respCycle, tr_type, startEvent, endEvent).

Module CoreRecorder.

Inductive State := HALTED | RUNNING | DRAINING.
#[export] Instance State_eq_dec : EqDecision State.
Proof. solve_decision. Defined.

(** A [TimingCoreEvent]. *)
Record coreEvent := mkCE {
  ce_id : nat;
  delay : Z;
  origStartCycle : Z;
  ce_domain : Z;
  minStartCycle : Z
}.

(** An event by its number, or the last event of a recorded access. *)
Inductive evref := ECore (id : nat) | EResp (ev : nat).
#[export] Instance evref_eq_dec : EqDecision evref.
Proof. solve_decision. Defined.

Inductive item :=
  | Core (e : coreEvent)
  | Get (tr : TimingRecord)
  | Put (delay minStart : Z) (tr : TimingRecord).

Record rec := mkRec {
  state : State;
  gapCycles : Z;
  er : Timing.EventRecorder;
  prevRespCycle : Z;
  prevRespEvent : option evref;
  lastEventSimulatedStartCycle : Z;
  lastEventSimulatedOrigStartCycle : Z;
  totalGapCycles : Z;
  totalHaltedCycles : Z;
  lastUnhaltedCycle : Z;
  domain : Z;
  (* the events *)
  chain : list item;
  queuedAt : Z;
  numEvents : nat;
  crossings : list evref (* those that [produceCrossings] was called on *)
}.

Section fields.
Context (r : rec).
Definition set_state (s : State) : rec :=
  mkRec s (gapCycles r) (er r) (prevRespCycle r) (prevRespEvent r) (lastEventSimulatedStartCycle r)
    (lastEventSimulatedOrigStartCycle r) (totalGapCycles r) (totalHaltedCycles r)
    (lastUnhaltedCycle r) (domain r) (chain r) (queuedAt r) (numEvents r) (crossings r).
Definition set_er (e : Timing.EventRecorder) : rec :=
  mkRec (state r) (gapCycles r) e (prevRespCycle r) (prevRespEvent r) (lastEventSimulatedStartCycle r)
    (lastEventSimulatedOrigStartCycle r) (totalGapCycles r) (totalHaltedCycles r)
    (lastUnhaltedCycle r) (domain r) (chain r) (queuedAt r) (numEvents r) (crossings r).
Definition set_prev (c : Z) (e : option evref) : rec :=
  mkRec (state r) (gapCycles r) (er r) c e (lastEventSimulatedStartCycle r)
    (lastEventSimulatedOrigStartCycle r) (totalGapCycles r) (totalHaltedCycles r)
    (lastUnhaltedCycle r) (domain r) (chain r) (queuedAt r) (numEvents r) (crossings r).
Definition set_chain (l : list item) (q : Z) (n : nat) : rec :=
  mkRec (state r) (gapCycles r) (er r) (prevRespCycle r) (prevRespEvent r) (lastEventSimulatedStartCycle r)
    (lastEventSimulatedOrigStartCycle r) (totalGapCycles r) (totalHaltedCycles r)
    (lastUnhaltedCycle r) (domain r) l q n (crossings r).
Definition produceCrossings (e : evref) : rec :=
  mkRec (state r) (gapCycles r) (er r) (prevRespCycle r) (prevRespEvent r) (lastEventSimulatedStartCycle r)
    (lastEventSimulatedOrigStartCycle r) (totalGapCycles r) (totalHaltedCycles r)
    (lastUnhaltedCycle r) (domain r) (chain r) (queuedAt r) (numEvents r) (crossings r ++ [e]).
(** The gap, here and in the event recorder. *)
Definition set_gap (g t h : Z) : rec :=
  mkRec (state r) g (Timing.setGapCycles g (er r)) (prevRespCycle r) (prevRespEvent r)
    (lastEventSimulatedStartCycle r) (lastEventSimulatedOrigStartCycle r) t h
    (lastUnhaltedCycle r) (domain r) (chain r) (queuedAt r) (numEvents r) (crossings r).
Definition set_last (s o : Z) : rec :=
  mkRec (state r) (gapCycles r) (er r) (prevRespCycle r) (prevRespEvent r) s o (totalGapCycles r)
    (totalHaltedCycles r) (lastUnhaltedCycle r) (domain r) (chain r) (queuedAt r) (numEvents r)
    (crossings r).
Definition set_halted (c : Z) : rec :=
  mkRec HALTED (gapCycles r) (er r) (prevRespCycle r) (prevRespEvent r) (lastEventSimulatedStartCycle r)
    (lastEventSimulatedOrigStartCycle r) (totalGapCycles r) (totalHaltedCycles r) c (domain r)
    (chain r) (queuedAt r) (numEvents r) (crossings r).
End fields.

Definition no_record : TimingRecord := Timing.mkTR 0 0 0 GETS None None.

Definition new (dom : Z) (src : nat) : rec :=
  mkRec HALTED 0 (Timing.setGapCycles 0 (Timing.mkER no_record src 0 0)) 0 None 0 0 0 0 0 dom [] 0 0 [].

(** [prevRespEvent->addChild(ev)], with [ev] a new [TimingCoreEvent]. *)
Definition addCore (dly orig min : Z) (r : rec) : res rec :=
  match prevRespEvent r with
  | None => Fail AssertFailed
  | Some _ =>
      mret (set_chain r (chain r ++ [Core (mkCE (numEvents r) dly orig (-1) min)]) (queuedAt r)
              (S (numEvents r)))
  end.

(** The number of the last event that was made. *)
Definition lastCore (r : rec) : evref := ECore (pred (numEvents r)).

Definition notifyJoin (globPhaseCycles curCycle : Z) (r : rec) : res (Z * rec) :=
  match state r with
  | HALTED =>
      _ ← assert_that (bool_decide (prevRespEvent r = None));
      let curCycle := globPhaseCycles in
      _ ← assert_that (lastUnhaltedCycle r <=? curCycle);
      let r := set_gap r 0 (totalGapCycles r + gapCycles r)
                 (totalHaltedCycles r + (curCycle - lastUnhaltedCycle r)) in
      let r := set_chain r [Core (mkCE (numEvents r) 0 curCycle (domain r) curCycle)] curCycle
                 (S (numEvents r)) in
      let r := set_prev r curCycle (Some (lastCore r)) in
      mret (curCycle, set_state (set_er r (Timing.setStartSlack 0 (er r))) RUNNING)
  | DRAINING =>
      _ ← assert_that (globPhaseCycles <=? curCycle);
      mret (curCycle, set_state r RUNNING)
  | RUNNING => panic
  end.

(** The two steps that [notifyLeave] and [cSimStart] share: an event that covers the delay
    up to [curCycle], and one of delay zero. *)
Definition coverDelay (curCycle : Z) (r : rec) : res rec :=
  r ← addCore (curCycle - prevRespCycle r) (prevRespCycle r - gapCycles r) (prevRespCycle r) r;
  mret (set_prev r curCycle (Some (lastCore r))).
Definition addZero (r : rec) : res rec :=
  r ← addCore 0 (prevRespCycle r - gapCycles r) (prevRespCycle r) r;
  mret (set_prev r (prevRespCycle r) (Some (lastCore r))).

Definition notifyLeave (curCycle : Z) (r : rec) : res rec :=
  _ ← assert_that (bool_decide (state r = RUNNING));
  let r := set_state r DRAINING in
  _ ← assert_that (bool_decide (is_Some (prevRespEvent r)));
  r ← coverDelay curCycle r;
  addZero r.

Definition recordAccess (startCycle : Z) (r : rec) : res rec :=
  _ ← assert_that (Timing.hasRecord (er r));
  let '(tr, e) := Timing.popRecord (er r) in
  let r := set_er r e in
  let origPrevResp := prevRespEvent r in
  _ ← assert_that (prevRespCycle r <=? startCycle);
  _ ← assert_that (startCycle <=? reqCycle tr);
  r ← (if IsGet (tr_type tr) then
         r ← addCore (reqCycle tr - prevRespCycle r) (prevRespCycle r - gapCycles r) (prevRespCycle r) r;
         let r := set_chain r (chain r ++ [Get tr]) (queuedAt r) (numEvents r) in
         let r := set_prev r (respCycle tr) (EResp <$> endEvent tr) in
         _ ← assert_that (bool_decide (is_Some (prevRespEvent r)));
         mret r
       else
         _ ← assert_that (IsPut (tr_type tr));
         match prevRespEvent r with
         | None => Fail AssertFailed
         | Some _ =>
             mret (set_chain r (chain r ++ [Put (reqCycle tr - prevRespCycle r) (prevRespCycle r) tr])
                     (queuedAt r) (numEvents r))
         end);
  match origPrevResp with
  | None => Fail AssertFailed
  | Some e => mret (produceCrossings r e)
  end.

Definition record (startCycle : Z) (r : rec) : res rec :=
  if Timing.hasRecord (er r) then recordAccess startCycle r else mret r.

Definition cSimStart (globPhaseCycles phaseLength curCycle : Z) (r : rec) : res (Z * rec) :=
  let nextPhaseCycle := globPhaseCycles + phaseLength in
  match state r with
  | HALTED => mret (curCycle, r)
  | RUNNING =>
      _ ← assert_that (nextPhaseCycle <=? curCycle);
      r ← (if prevRespCycle r <? curCycle then coverDelay curCycle r else mret r);
      r ← addZero r;
      mret (curCycle, r)
  | DRAINING => mret (if curCycle <? nextPhaseCycle then nextPhaseCycle else curCycle, r)
  end.

Definition cSimEnd (curCycle : Z) (r : rec) : res (Z * rec) :=
  if bool_decide (state r = HALTED) then mret (curCycle, r)
  else
    let lastEvCycle1 := lastEventSimulatedOrigStartCycle r + gapCycles r in
    let lastEvCycle2 := lastEventSimulatedStartCycle r in
    _ ← assert_that (lastEvCycle1 <=? curCycle);
    _ ← assert_that (lastEvCycle2 <=? curCycle);
    if lastEvCycle2 <? lastEvCycle1 then panic
    else
      let skew := lastEvCycle2 - lastEvCycle1 in
      let curCycle := curCycle + skew in
      let r := set_gap r (gapCycles r + skew) (totalGapCycles r) (totalHaltedCycles r) in
      let r := set_prev r (prevRespCycle r + skew) (prevRespEvent r) in
      match prevRespEvent r with
      | Some _ => mret (curCycle, r)
      | None =>
          _ ← assert_that (bool_decide (state r = DRAINING));
          mret (curCycle, set_halted r (lastEventSimulatedStartCycle r))
      end.

(** Event [e] was simulated at [startCycle]. *)
Definition reportEventSimulated (e : coreEvent) (startCycle : Z) (r : rec) : res rec :=
  let r := set_last r startCycle (origStartCycle e) in
  r ← (if bool_decide (prevRespEvent r = Some (ECore (ce_id e))) then
         _ ← assert_that (bool_decide (state r = DRAINING));
         mret (set_prev r (prevRespCycle r) None)
       else mret r);
  mret (set_er r (Timing.setStartSlack (startCycle - origStartCycle e) (er r))).

Definition getUnhaltedCycles (globPhaseCycles curCycle : Z) (r : rec) : Z :=
  let cycle := Z.max curCycle globPhaseCycles in
  let haltedCycles := totalHaltedCycles r +
    (if bool_decide (state r = HALTED) then cycle - lastUnhaltedCycle r else 0) in
  cycle - haltedCycles.

Definition getContentionCycles (r : rec) : Z := totalGapCycles r + gapCycles r.

(** ** A core and its recorder, phase by phase

    In the bound phase the thread of the core joins, runs and leaves; what it runs takes the
    clock from [cur] to a later cycle and may leave a record of an access in between.  In the
    weave phase the events of the chain are simulated in order, each when the one before is
    done: [ready] is that cycle.  An access may take longer than its record says, by any
    number of cycles; [extra] sums these up, and [zll] is the clock without them. *)

Record sys := mkSys {
  rc : rec;
  cur : Z;
  glob : Z;
  weaving : bool;
  ready : Z;
  extra : Z;
  zll : Z
}.

Inductive sysop :=
  | Join
  | Run (cur' : Z) (o : option TimingRecord)
  | Leave
  | StartWeave
  | Sim (fin : Z)
  | EndWeave.

Section System.
Context (PL : Z) (PL_pos : 0 < PL).

Definition limit (s : sys) : Z := glob s + PL.

(** The first event of the chain, and what is left. *)
Definition pop_chain (l : list item) (r : rec) : rec := set_chain r l (queuedAt r) (numEvents r).

Definition simulate (fin : Z) (s : sys) : res sys :=
  match chain (rc s) with
  | [] => mret s
  | Core e :: l =>
      _ ← assert_that (minStartCycle e <=? ready s);
      r ← reportEventSimulated e (ready s) (pop_chain l (rc s));
      mret (mkSys r (cur s) (glob s) (weaving s) (ready s + delay e) (extra s) (zll s))
  | Get tr :: l =>
      _ ← assert_that (reqCycle tr <=? ready s);
      mret (mkSys (pop_chain l (rc s)) (cur s) (glob s) (weaving s) fin
              (extra s + (fin - ready s - (respCycle tr - reqCycle tr))) (zll s))
  | Put _ _ tr :: l =>
      mret (mkSys (pop_chain l (rc s)) (cur s) (glob s) (weaving s) (ready s) (extra s) (zll s))
  end.

Definition run (o : sysop) (s : sys) : res sys :=
  match o with
  | Join =>
      '(c, r) ← notifyJoin (glob s) (cur s) (rc s);
      mret (if decide (state (rc s) = HALTED)
            then mkSys r c (glob s) (weaving s) (queuedAt r) 0 c
            else mkSys r c (glob s) (weaving s) (ready s) (extra s) (zll s))
  | Run cur' o =>
      e ← match o with Some tr => Timing.pushRecord tr (er (rc s)) | None => mret (er (rc s)) end;
      r ← record (cur s) (set_er (rc s) e);
      mret (mkSys r cur' (glob s) (weaving s) (ready s) (extra s) (zll s + (cur' - cur s)))
  | Leave =>
      r ← notifyLeave (cur s) (rc s);
      mret (mkSys r (cur s) (glob s) (weaving s) (ready s) (extra s) (zll s))
  | StartWeave =>
      '(c, r) ← cSimStart (glob s) PL (cur s) (rc s);
      mret (mkSys r c (glob s) true (ready s) (extra s) (zll s + (c - cur s)))
  | Sim fin => simulate fin s
  | EndWeave =>
      '(c, r) ← cSimEnd (cur s) (rc s);
      mret (mkSys r c (glob s + PL) false (ready s) (extra s) (zll s))
  end.

Definition good_record (c c' : Z) (tr : TimingRecord) : Prop :=
  c <= reqCycle tr /\ reqCycle tr <= respCycle tr /\ respCycle tr <= c' /\
  is_Some (startEvent tr) /\ is_Some (endEvent tr).

Definition may (o : sysop) (s : sys) : Prop :=
  match o with
  | Join => weaving s = false /\ state (rc s) <> RUNNING
  | Run cur' o => weaving s = false /\ state (rc s) = RUNNING /\ cur s <= cur' /\
      match o with Some tr => good_record (cur s) cur' tr | None => True end
  | Leave => weaving s = false /\ state (rc s) = RUNNING
  | StartWeave => weaving s = false /\ (state (rc s) = RUNNING -> limit s <= cur s)
  | Sim fin => weaving s = true /\ ready s < limit s /\
      match chain (rc s) with
      | [] => False
      | Get tr :: _ => ready s + (respCycle tr - reqCycle tr) <= fin
      | _ => True
      end
  | EndWeave => weaving s = true /\ (chain (rc s) = [] \/ limit s <= ready s)
  end.

Definition start (dom : Z) (src : nat) : sys := mkSys (new dom src) 0 0 false 0 0 0.

Inductive reachable (dom : Z) (src : nat) : sys -> Prop :=
  | reach_start : reachable dom src (start dom src)
  | reach_run o s s' : reachable dom src s -> may o s -> run o s = Ok s' -> reachable dom src s'.

(** ** The invariant *)

(** The events of the chain start, on the clock without contention, at [p] and one after
    the other, and none is to start before its minimum even with no more delay than
    [gap]; the last ends at [pe]. *)
Fixpoint placed (gap p : Z) (l : list item) (pe : Z) : Prop :=
  match l with
  | [] => p = pe
  | Core e :: l => origStartCycle e = p /\ 0 <= delay e /\ minStartCycle e <= p + gap /\
      placed gap (p + delay e) l pe
  | Get tr :: l => reqCycle tr <= p + gap /\ reqCycle tr <= respCycle tr /\
      placed gap (p + (respCycle tr - reqCycle tr)) l pe
  | Put _ _ _ :: l => placed gap p l pe
  end.

Lemma placed_app gap l1 l2 pe : forall p q, placed gap p l1 q -> placed gap q l2 pe -> placed gap p (l1 ++ l2) pe.
Proof. induction l1 as [|[e|tr|d m tr] l1 IH]; cbn; [by intros p q ->|intuition eauto..]. Qed.

Lemma placed_mono gap gap' l pe : gap <= gap' -> forall p, placed gap p l pe -> placed gap' p l pe.
Proof.
  intros Hg. induction l as [|[e|tr|d m tr] l IH]; intros p; cbn; [done| | |apply IH].
  - intros (H1 & H2 & H3 & H4). split_and!; [done..|lia|by apply IH].
  - intros (H1 & H2 & H3). split_and!; [lia|done|by apply IH].
Qed.

Lemma placed_le gap l pe : forall p, placed gap p l pe -> p <= pe.
Proof.
  induction l as [|[e|tr|d m tr] l IH]; intros p; cbn; [lia| | |apply IH].
  - intros (_ & H2 & _ & H4). specialize (IH _ H4). lia.
  - intros (_ & H2 & H3). specialize (IH _ H3). lia.
Qed.

Definition core_id (i : item) : option nat := match i with Core e => Some (ce_id e) | _ => None end.
Definition ids_ok (r : rec) : Prop :=
  NoDup (omap core_id (chain r)) /\ Forall (fun i => (i < numEvents r)%nat) (omap core_id (chain r)).

(** The chain ends in an event of delay zero, [prevRespEvent]. *)
Definition tail_ok (r : rec) : Prop :=
  exists front e, chain r = front ++ [Core e] /\ prevRespEvent r = Some (ECore (ce_id e)) /\ delay e = 0.

(** What the last report of the weave phase says, if there was one since the thread joined. *)
Inductive reported (s : sys) : Prop :=
  | rep_fresh e l : gapCycles (rc s) = 0 -> extra s = 0 -> ready s < limit s ->
      chain (rc s) = Core e :: l -> reported s
  | rep_some :
      let start := lastEventSimulatedStartCycle (rc s) in
      let orig := lastEventSimulatedOrigStartCycle (rc s) in
      gapCycles (rc s) <= start - orig <= extra s -> start < limit s -> orig <= ready s - extra s ->
      reported s.

Record linked (s : sys) (r := rc s) : Prop := {
  lk_glob : glob s <= cur s;
  lk_prev : prevRespCycle r <= cur s;
  lk_placed : placed (gapCycles r) (ready s - extra s) (chain r) (prevRespCycle r - gapCycles r);
  lk_gap : 0 <= gapCycles r <= extra s;
  lk_zll : cur s = zll s + gapCycles r;
  lk_ids : ids_ok r;
  lk_last : reported s;
  lk_mode : match state r, weaving s with
    | HALTED, _ => False
    | RUNNING, false => chain r <> [] /\ is_Some (prevRespEvent r)
    | RUNNING, true => tail_ok r /\ limit s <= prevRespCycle r
    | DRAINING, false => tail_ok r
    | DRAINING, true => (tail_ok r \/ (chain r = [] /\ prevRespEvent r = None)) /\ limit s <= cur s
    end
}.

Definition inv (s : sys) : Prop :=
  Timing.hasRecord (er (rc s)) = false /\
  if decide (state (rc s) = HALTED)
  then prevRespEvent (rc s) = None /\ chain (rc s) = [] /\ lastUnhaltedCycle (rc s) <= glob s
  else linked s.

(** ** The operations of the recorder *)

Lemma addCore_ok dly orig min r : is_Some (prevRespEvent r) ->
  addCore dly orig min r =
    Ok (set_chain r (chain r ++ [Core (mkCE (numEvents r) dly orig (-1) min)]) (queuedAt r) (S (numEvents r))).
Proof. unfold addCore. by intros [e ->]. Qed.

Lemma ids_snoc r e : ids_ok r -> ce_id e = numEvents r ->
  ids_ok (set_chain r (chain r ++ [Core e]) (queuedAt r) (S (numEvents r))).
Proof.
  intros [H1 H2] He. unfold ids_ok. cbn. rewrite omap_app. cbn. rewrite He. split.
  - apply NoDup_app. split; [done|]. split; [|apply NoDup_singleton].
    intros i Hi ->%list_elem_of_singleton. rewrite Forall_forall in H2. specialize (H2 _ Hi). lia.
  - apply Forall_app. split; [|constructor; [lia|done]].
    eapply Forall_impl; [exact H2|]. cbn. lia.
Qed.

Lemma ids_other r i q : core_id i = None -> ids_ok r -> ids_ok (set_chain r (chain r ++ [i]) q (numEvents r)).
Proof. intros Hi. unfold ids_ok. cbn. rewrite omap_app. cbn. rewrite Hi, app_nil_r. done. Qed.

(** The chain of [r] reaches, from [p], the time [prevRespCycle r] of its clock. *)
Record chained (p : Z) (r : rec) : Prop := {
  cd_placed : placed (gapCycles r) p (chain r) (prevRespCycle r - gapCycles r);
  cd_ids : ids_ok r;
  cd_prev : is_Some (prevRespEvent r)
}.

(** What the building of events leaves alone. *)
Definition base (r : rec) := (state r, gapCycles r, er r, lastEventSimulatedStartCycle r,
  lastEventSimulatedOrigStartCycle r, totalGapCycles r, totalHaltedCycles r, lastUnhaltedCycle r, queuedAt r).

Lemma coverDelay_spec p c r : chained p r -> prevRespCycle r <= c ->
  exists r', coverDelay c r = Ok r' /\ chained p r' /\ prevRespCycle r' = c /\ base r' = base r /\
    exists i l, chain r' = chain r ++ i :: l.
Proof.
  intros [H1 H2 H3] Hc. unfold coverDelay. rewrite addCore_ok by done. cbn [mbind res_bind].
  eexists. split; [done|]. split; [|split; [done|split; [done|by repeat eexists]]]. split; cbn.
  - eapply placed_app; [exact H1|]. cbn. split_and!; [done|lia|lia|lia].
  - by apply ids_snoc.
  - done.
Qed.

Lemma addZero_spec p r : chained p r ->
  exists r', addZero r = Ok r' /\ chained p r' /\ prevRespCycle r' = prevRespCycle r /\ base r' = base r /\
    tail_ok r' /\ exists i l, chain r' = chain r ++ i :: l.
Proof.
  intros [H1 H2 H3]. unfold addZero. rewrite addCore_ok by done. cbn [mbind res_bind].
  eexists. split; [done|]. split; [|split; [done|split; [done|split; [|by repeat eexists]]]]; [split; cbn|].
  - eapply placed_app; [exact H1|]. cbn. split_and!; [done|lia|lia|lia].
  - by apply ids_snoc.
  - done.
  - unfold tail_ok. cbn. by eexists _, _.
Qed.

Lemma chained_er p r e : chained p r -> chained p (set_er r e).
Proof. intros [H1 H2 H3]. by split. Qed.

Lemma record_spec p c r tr : chained p r -> Timing.hasRecord (er r) = true -> Timing.er_tr (er r) = tr ->
  prevRespCycle r <= c -> c <= reqCycle tr -> reqCycle tr <= respCycle tr -> is_Some (endEvent tr) ->
  exists r', record c r = Ok r' /\ chained p r' /\
    prevRespCycle r' = (if IsGet (tr_type tr) then respCycle tr else prevRespCycle r) /\
    base r' = base (set_er r (Timing.popRecord (er r)).2) /\
    Timing.hasRecord (er r') = false /\ exists i l, chain r' = chain r ++ i :: l.
Proof.
  intros Hch Hrec <- Hp Hc Hr He. set (tr := Timing.er_tr (er r)) in *.
  unfold record. rewrite Hrec. unfold recordAccess. rewrite Hrec.
  cbn [assert_that mbind res_bind Timing.popRecord]. fold tr.
  set (r0 := set_er r _). assert (chained p r0) as [H1 H2 H3] by (by apply chained_er).
  rewrite (proj2 (Z.leb_le _ _)) by done. cbn [assert_that mbind res_bind].
  rewrite (proj2 (Z.leb_le _ _)) by done. cbn [assert_that mbind res_bind].
  pose proof H3 as [pe Hpe]. change (prevRespEvent r = Some pe) in Hpe. destruct (IsGet (tr_type tr)) eqn:Eg.
  - rewrite addCore_ok by done. cbn [mbind res_bind]. destruct He as [ev Hev]. rewrite Hev.
    cbn -[Timing.clear]. rewrite Hpe.
    eexists. split; [done|]. split; [|split; [done|split; [done|split; [done|]]]].
    + split; cbn.
      * rewrite <- app_assoc. eapply placed_app; [exact H1|]. cbn. split_and!; try lia; done.
      * pose proof (ids_snoc r0 (mkCE (numEvents r0) (reqCycle tr - prevRespCycle r0)
          (prevRespCycle r0 - gapCycles r0) (-1) (prevRespCycle r0)) H2 eq_refl) as Hi.
        by apply (ids_other _ (Get tr) 0) in Hi.
      * done.
    + cbn. rewrite <- app_assoc. by repeat eexists.
  - assert (IsPut (tr_type tr) = true) as -> by (by destruct (tr_type tr)).
    cbn [assert_that mbind res_bind]. change (prevRespEvent r0) with (prevRespEvent r). rewrite Hpe.
    cbn -[Timing.clear]. eexists. split; [done|]. split; [|split; [done|split; [done|split; [done|by repeat eexists]]]].
    split; cbn; [|by apply (ids_other r0)|done]. eapply placed_app; [exact H1|]. cbn. lia.
Qed.

Lemma pushRecord_ok tr e : Timing.hasRecord e = false -> is_Some (startEvent tr) ->
  exists e', Timing.pushRecord tr e = Ok e' /\ Timing.hasRecord e' = true /\ Timing.er_tr e' = tr.
Proof.
  intros He Hs. unfold Timing.pushRecord. unfold Timing.hasRecord in He. rewrite He.
  cbn [negb assert_that mbind res_bind]. unfold Timing.isValid at 1. rewrite bool_decide_true by done.
  cbn. eexists. split; [done|]. split; [|done]. unfold Timing.hasRecord, Timing.isValid. cbn.
  by rewrite bool_decide_true.
Qed.

(** ** Each operation runs, and keeps the invariant *)

Lemma not_halted s : inv s -> state (rc s) <> HALTED -> linked s.
Proof. intros [_ H] Hn. by rewrite decide_False in H. Qed.

Lemma linked_inv s : Timing.hasRecord (er (rc s)) = false -> linked s -> inv s.
Proof.
  intros He Hl. split; [done|]. rewrite decide_False; [done|].
  intros E. pose proof (lk_mode _ Hl) as Hm. by rewrite E in Hm.
Qed.

Lemma running_chained s : linked s -> weaving s = false -> state (rc s) = RUNNING ->
  chained (ready s - extra s) (rc s).
Proof.
  intros Hl Hw Hs. pose proof (lk_mode _ Hl) as Hm. rewrite Hw, Hs in Hm.
  split; [apply (lk_placed _ Hl)|apply (lk_ids _ Hl)|apply Hm].
Qed.

Lemma tail_prev r : tail_ok r -> chain r <> [] /\ is_Some (prevRespEvent r).
Proof. intros (f & e & -> & -> & _). split; [by destruct f|done]. Qed.

(** An operation of the bound phase that only extends the chain. *)
Lemma extend_linked s s' : linked s -> weaving s = false ->
  chained (ready s - extra s) (rc s') -> base (rc s') = base (set_er (set_state (rc s) (state (rc s'))) (er (rc s'))) ->
  (exists l, chain (rc s') = chain (rc s) ++ l) ->
  glob s' = glob s -> ready s' = ready s -> extra s' = extra s ->
  cur s <= cur s' -> prevRespCycle (rc s') <= cur s' -> cur s' - zll s' = cur s - zll s ->
  match state (rc s'), weaving s' with
    | HALTED, _ => False
    | RUNNING, false => chain (rc s') <> [] /\ is_Some (prevRespEvent (rc s'))
    | RUNNING, true => tail_ok (rc s') /\ limit s' <= prevRespCycle (rc s')
    | DRAINING, false => tail_ok (rc s')
    | DRAINING, true => (tail_ok (rc s') \/ (chain (rc s') = [] /\ prevRespEvent (rc s') = None)) /\ limit s' <= cur s'
  end -> linked s'.
Proof.
  intros [L1 L2 L3 L4 L5 L6 L7 L8] Hw [C1 C2 C3] Hb [l Hc] Eg Er Ee Hcur Hp Hz Hm.
  unfold base in Hb. cbn in Hb. injection Hb as B1 B2 B3 B4 B5 B6 B7.
  split; try done; try lia.
  - rewrite Er, Ee. done.
  - destruct L7 as [e l' F1 F2 F3 F4|st og F1 F2 F3].
    + apply (rep_fresh s' e (l' ++ l)); [lia|lia|unfold limit in *; lia|]. rewrite Hc, F4. done.
    + apply rep_some; unfold limit in *; rewrite ?B2, ?B3; lia.
Qed.

Lemma join_inv s : inv s -> may Join s -> exists s', run Join s = Ok s' /\ inv s'.
Proof.
  intros [He Hi] [Hw Hs]. cbn [run]. unfold notifyJoin.
  destruct (decide (state (rc s) = HALTED)) as [Hh|Hh].
  - destruct Hi as (H1 & H2 & H3). rewrite Hh, bool_decide_true by done.
    cbn [assert_that mbind res_bind]. rewrite (proj2 (Z.leb_le _ _)) by done.
    cbn [assert_that mbind res_bind mret res_ret]. eexists. split; [done|].
    apply linked_inv; [done|]. split; cbn; try lia.
    + unfold ids_ok. cbn. split; [apply NoDup_singleton|]. constructor; [lia|constructor].
    + eapply rep_fresh; cbn; [done|done|unfold limit; cbn; lia|done].
    + by rewrite Hw.
  - assert (state (rc s) = DRAINING) as Ed by (by destruct (state (rc s))).
    pose proof (lk_glob _ Hi) as Hg. rewrite Ed. rewrite (proj2 (Z.leb_le _ _)) by done.
    cbn [assert_that mbind res_bind mret res_ret].
    destruct (decide (DRAINING = HALTED)); [done|]. eexists. split; [done|].
    pose proof (lk_mode _ Hi) as Hm. rewrite Ed, Hw in Hm. apply linked_inv; [done|].
    apply (extend_linked s); try done; cbn; try lia.
    + split; [apply (lk_placed _ Hi)|apply (lk_ids _ Hi)|by apply tail_prev].
    + exists []. by rewrite app_nil_r.
    + apply (lk_prev _ Hi).
    + rewrite Hw. by apply tail_prev.
Qed.

Lemma leave_inv s : inv s -> may Leave s -> exists s', run Leave s = Ok s' /\ inv s'.
Proof.
  intros Hi [Hw Hs]. pose proof (not_halted s Hi ltac:(by rewrite Hs)) as Hl. destruct Hi as [He _].
  pose proof (running_chained s Hl Hw Hs) as Hch. cbn [run]. unfold notifyLeave.
  rewrite (bool_decide_true (state (rc s) = RUNNING)) by done. cbn [assert_that mbind res_bind].
  assert (chained (ready s - extra s) (set_state (rc s) DRAINING)) as Hch0 by (destruct Hch; by split).
  rewrite bool_decide_true by apply Hch. cbn [assert_that mbind res_bind].
  destruct (coverDelay_spec _ (cur s) _ Hch0 (lk_prev _ Hl)) as (r1 & -> & Hc1 & P1 & B1 & i1 & l1 & E1).
  cbn [mbind res_bind]. destruct (addZero_spec _ _ Hc1) as (r2 & -> & Hc2 & P2 & B2 & Ht & i2 & l2 & E2).
  cbn [mbind res_bind mret res_ret]. eexists. split; [done|]. rewrite B1 in B2.
  pose proof B2 as B2'. unfold base in B2'. cbn in B2'. injection B2' as S1 S2 S3 S4 S5 S6 S7 S8 S9.
  apply linked_inv; [cbn; by rewrite S3|]. apply (extend_linked s); try done; cbn; try lia.
  - rewrite S1, S3, B2. done.
  - exists (i1 :: l1 ++ i2 :: l2). rewrite E2, E1, <- app_assoc. done.
  - by rewrite S1, Hw.
Qed.

Lemma record_state c r r' : record c r = Ok r' -> state r' = state r.
Proof.
  unfold record. destruct (Timing.hasRecord (er r)); [|by intros [= <-]].
  unfold recordAccess. intros (? & _ & H)%bind_Ok. cbn [Timing.popRecord] in H.
  apply bind_Ok in H as (? & _ & H). apply bind_Ok in H as (? & _ & H). apply bind_Ok in H as (r1 & H1 & H).
  assert (state r1 = state r) as <-.
  { destruct (IsGet _).
    - unfold addCore in H1. destruct (prevRespEvent _); [|done]. cbn [mbind res_bind mret res_ret] in H1.
      apply bind_Ok in H1 as (? & _ & [= <-]). done.
    - apply bind_Ok in H1 as (? & _ & H1). destruct (prevRespEvent _); [|done]. by injection H1 as <-. }
  destruct (prevRespEvent _); [|done]. by injection H as <-.
Qed.

Lemma run_inv s cur' o : inv s -> may (Run cur' o) s -> exists s', run (Run cur' o) s = Ok s' /\ inv s'.
Proof.
  intros Hi (Hw & Hs & Hc & Ho). pose proof (not_halted s Hi ltac:(by rewrite Hs)) as Hl.
  destruct Hi as [He _]. pose proof (running_chained s Hl Hw Hs) as Hch. pose proof (lk_prev _ Hl) as Hp.
  cbn [run]. destruct o as [tr|].
  - destruct Ho as (H1 & H2 & H3 & H4 & H5).
    destruct (pushRecord_ok tr (er (rc s)) He H4) as (e & -> & He1 & He2). cbn [mbind res_bind].
    destruct (record_spec _ (cur s) _ tr (chained_er _ _ e Hch) He1 He2 Hp H1 H2 H5)
      as (r' & -> & Hc' & P' & B' & Hh & i & l & E).
    cbn [mbind res_bind mret res_ret]. eexists. split; [done|].
    pose proof B' as B2'. unfold base in B2'. cbn in B2'. injection B2' as S1 S2 S3 S4 S5 S6 S7 S8 S9.
    apply linked_inv; [done|]. cbn in P'. apply (extend_linked s); try done; cbn; try lia.
    + rewrite B', S1, S3. done.
    + by exists (i :: l).
    + rewrite P'. destruct (IsGet _); lia.
    + rewrite S1, Hw, Hs. cbn in E. rewrite E. split; [by destruct (chain (rc s))|apply Hc'].
  - cbn [mbind res_bind mret res_ret]. unfold record. cbn. rewrite He. cbn.
    eexists. split; [done|]. apply linked_inv; [done|]. apply (extend_linked s); try done; cbn; try lia.
    + by apply chained_er.
    + exists []. by rewrite app_nil_r.
    + rewrite Hs, Hw. pose proof (lk_mode _ Hl) as Hm. by rewrite Hs, Hw in Hm.
Qed.

Lemma startWeave_inv s : inv s -> may StartWeave s -> exists s', run StartWeave s = Ok s' /\ inv s'.
Proof.
  intros Hi [Hw Hr]. cbn [run]. unfold cSimStart. change (glob s + PL) with (limit s).
  destruct (state (rc s)) eqn:Es.
  - cbn [mbind res_bind mret res_ret]. eexists. split; [done|]. destruct Hi as [He Hi]. split; [done|].
    cbn. rewrite decide_True in Hi |- * by done. done.
  - specialize (Hr eq_refl). pose proof (not_halted s Hi ltac:(by rewrite Es)) as Hl. destruct Hi as [He _].
    pose proof (running_chained s Hl Hw Es) as Hch. rewrite (proj2 (Z.leb_le _ _)) by done.
    cbn [assert_that mbind res_bind]. pose proof (lk_prev _ Hl) as Hp.
    assert (exists r1, (if prevRespCycle (rc s) <? cur s then coverDelay (cur s) (rc s) else mret (rc s)) = Ok r1 /\
      chained (ready s - extra s) r1 /\ prevRespCycle r1 = cur s /\ base r1 = base (rc s) /\
      exists l, chain r1 = chain (rc s) ++ l) as (r1 & -> & Hc1 & P1 & B1 & l1 & E1).
    { destruct (Z.ltb_spec (prevRespCycle (rc s)) (cur s)).
      - destruct (coverDelay_spec _ (cur s) _ Hch Hp) as (r1 & -> & Hc1 & P1 & B1 & i1 & l1 & E1).
        exists r1. split_and!; try done. by exists (i1 :: l1).
      - exists (rc s). split_and!; try done; [lia|]. exists []. by rewrite app_nil_r. }
    cbn [mbind res_bind]. destruct (addZero_spec _ _ Hc1) as (r2 & -> & Hc2 & P2 & B2 & Ht & i2 & l2 & E2).
    cbn [mbind res_bind mret res_ret]. eexists. split; [done|]. rewrite B1 in B2.
    pose proof B2 as B2'. unfold base in B2'. injection B2' as S1 S2 S3 S4 S5 S6 S7 S8 S9.
    apply linked_inv; [cbn; by rewrite S3|]. apply (extend_linked s); try done; cbn; try lia.
    + rewrite B2, S1, S3. done.
    + exists (l1 ++ i2 :: l2). by rewrite E2, E1, <- app_assoc.
    + rewrite S1, Es. unfold limit in *. cbn. split; [done|lia].
  - cbn [mbind res_bind mret res_ret]. eexists. split; [done|].
    pose proof (not_halted s Hi ltac:(by rewrite Es)) as Hl. destruct Hi as [He _].
    pose proof (lk_mode _ Hl) as Hm. rewrite Es, Hw in Hm. pose proof (lk_prev _ Hl).
    set (c := if cur s <? limit s then limit s else cur s).
    assert (cur s <= c /\ limit s <= c) as [Hc1 Hc2] by (unfold c; destruct (Z.ltb_spec (cur s) (limit s)); lia).
    apply linked_inv; [done|]. apply (extend_linked s); try done; cbn; try lia.
    + split; [apply (lk_placed _ Hl)|apply (lk_ids _ Hl)|by apply tail_prev].
    + exists []. by rewrite app_nil_r.
    + rewrite Es. split; [by left|done].
Qed.

Lemma tail_ok_cons r i l : tail_ok r -> chain r = i :: l ->
  (l = [] /\ exists z, i = Core z /\ prevRespEvent r = Some (ECore (ce_id z)) /\ delay z = 0) \/
  tail_ok (pop_chain l r).
Proof.
  intros (front & z & Hc & Hp & Hd) E. rewrite E in Hc. destruct front as [|j front]; cbn in Hc.
  - injection Hc as -> ->. left. split; [done|]. by exists z.
  - injection Hc as -> ->. right. by exists front, z.
Qed.

(** The event of [prevRespEvent], at the end of the chain, is not the first of a longer one. *)
Lemma tail_ok_other r e l : tail_ok r -> ids_ok r -> chain r = Core e :: l -> l <> [] ->
  prevRespEvent r <> Some (ECore (ce_id e)).
Proof.
  intros (front & z & Hc & Hp & Hd) [Hn _] E Hl. rewrite Hp. intros [= Heq]. rewrite Hc in E.
  destruct front as [|j front]; cbn in E; injection E as E1 E2; [by symmetry in E2|]. subst j.
  rewrite Hc in Hn. cbn in Hn. apply NoDup_cons in Hn as [Hn _]. apply Hn. rewrite omap_app.
  apply elem_of_app. right. cbn. rewrite Heq. by left.
Qed.

Lemma pop_ids r i l : ids_ok r -> chain r = i :: l -> ids_ok (pop_chain l r).
Proof.
  unfold ids_ok. intros [H1 H2] E. rewrite E in H1, H2. cbn. destruct i; cbn in H1, H2; [|done..].
  apply NoDup_cons in H1 as [_ H1]. by apply Forall_cons in H2 as [_ H2].
Qed.

(** The chain moves on by one event, to the time [rd'] with the delays [ex']. *)
Lemma advance_linked s i l rd' ex' r' : linked s -> weaving s = true -> chain (rc s) = i :: l ->
  let s' := mkSys r' (cur s) (glob s) true rd' ex' (zll s) in
  chain r' = l -> numEvents r' = numEvents (rc s) -> state r' = state (rc s) ->
  gapCycles r' = gapCycles (rc s) -> prevRespCycle r' = prevRespCycle (rc s) ->
  extra s <= ex' -> placed (gapCycles (rc s)) (rd' - ex') l (prevRespCycle (rc s) - gapCycles (rc s)) ->
  reported s' ->
  match state r' with
  | HALTED => False
  | RUNNING => tail_ok r'
  | DRAINING => tail_ok r' \/ (chain r' = [] /\ prevRespEvent r' = None)
  end -> linked s'.
Proof.
  intros [L1 L2 L3 L4 L5 L6 L7 L8] Hw E s' E1 E2 E3 E4 E5 Hex Hpl Hrep Hm.
  split; cbn; rewrite ?E1, ?E2, ?E4, ?E5; try done; try lia.
  - pose proof (pop_ids _ _ _ L6 E) as Hi. unfold ids_ok in *. by rewrite E1, E2.
  - rewrite Hw in L8. rewrite E3 in *. destruct (state (rc s)); [done| |].
    + split; [done|]. apply L8.
    + rewrite <- E1. split; [done|]. apply L8.
Qed.

Lemma sim_core_inv s fin e l : inv s -> may (Sim fin) s -> chain (rc s) = Core e :: l ->
  exists s', run (Sim fin) s = Ok s' /\ inv s'.
Proof.
  intros [He Hi] (Hw & Hlim & _) E. cbn [run]. unfold simulate. rewrite E.
  destruct (decide (state (rc s) = HALTED)) as [Hh|Hh]; [destruct Hi as (_ & E' & _); by rewrite E' in E|].
  pose proof Hi as [L1 L2 L3 L4 L5 L6 L7 L8]. rewrite E in L3. cbn [placed] in L3.
  destruct L3 as (P1 & P2 & P3 & P4). rewrite (proj2 (Z.leb_le _ _)) by lia.
  cbn [assert_that mbind res_bind]. unfold reportEventSimulated.
  rewrite Hw in L8. cbn [prevRespEvent set_last pop_chain set_chain].
  assert (forall r', chain r' = l -> numEvents r' = numEvents (rc s) -> state r' = state (rc s) ->
    gapCycles r' = gapCycles (rc s) -> prevRespCycle r' = prevRespCycle (rc s) ->
    lastEventSimulatedStartCycle r' = ready s -> lastEventSimulatedOrigStartCycle r' = origStartCycle e ->
    Timing.hasRecord (er r') = false ->
    match state r' with
    | HALTED => False
    | RUNNING => tail_ok r'
    | DRAINING => tail_ok r' \/ (chain r' = [] /\ prevRespEvent r' = None)
    end -> inv (mkSys r' (cur s) (glob s) (weaving s) (ready s + delay e) (extra s) (zll s))) as Hstep.
  { intros r' F1 F2 F3 F4 F5 F6 F7 F8 F9. rewrite Hw. apply linked_inv; [done|].
    apply (advance_linked s (Core e) l); try done; try lia.
    - by replace (ready s + delay e - extra s) with (ready s - extra s + delay e) by lia.
    - apply rep_some; unfold limit in *; cbn; rewrite ?F4, ?F6, ?F7; lia. }
  destruct l as [|j l'].
  - (* the last event *)
    cbn in P4. destruct (state (rc s)) eqn:Es; [done| |].
    { destruct L8 as [Ht Hp]. destruct (tail_ok_cons _ _ _ Ht E) as [[_ (z & [= <-] & _ & Hd)]|(f & z & Hc & _)];
        [lia|by destruct f]. }
    destruct L8 as [[Ht|[E' _]] _]; [|by rewrite E' in E].
    destruct (tail_ok_cons _ _ _ Ht E) as [[_ (z & [= <-] & Hz & _)]|(f & z & Hc & _)]; [|by destruct f].
    rewrite bool_decide_true by done. cbn [state set_last pop_chain set_chain].
    rewrite bool_decide_true by done. cbn [assert_that mbind res_bind mret res_ret].
    eexists. split; [done|]. apply Hstep; try done. cbn. rewrite Es. by right.
  - assert (tail_ok (rc s)) as Ht.
    { destruct (state (rc s)); [done|apply L8|]. destruct L8 as [[Ht|[E' _]] _]; [done|by rewrite E' in E]. }
    rewrite bool_decide_false by (by eapply tail_ok_other). cbn [mbind res_bind mret res_ret].
    eexists. split; [done|]. apply Hstep; try done.
    destruct (tail_ok_cons _ _ _ Ht E) as [[? _]|Ht']; [done|].
    cbn. destruct (state (rc s)); [done|done|by left].
Qed.

Lemma sim_inv s fin : inv s -> may (Sim fin) s -> exists s', run (Sim fin) s = Ok s' /\ inv s'.
Proof.
  intros Hinv Hmay. destruct (chain (rc s)) as [|[e|tr|dl mn tr] l] eqn:E.
  - destruct Hmay as (_ & _ & Hm). by rewrite E in Hm.
  - by apply (sim_core_inv s fin e l).
  - destruct Hinv as [He Hi]. destruct Hmay as (Hw & Hlim & Hm). rewrite E in Hm.
    destruct (decide (state (rc s) = HALTED)) as [Hh|Hh]; [destruct Hi as (_ & E' & _); by rewrite E' in E|].
    pose proof Hi as [L1 L2 L3 L4 L5 L6 L7 L8]. rewrite E in L3. cbn [placed] in L3.
    destruct L3 as (P1 & P2 & P3). cbn [run]. unfold simulate. rewrite E.
    rewrite (proj2 (Z.leb_le _ _)) by lia. cbn [assert_that mbind res_bind mret res_ret].
    eexists. split; [done|]. rewrite Hw in L8 |- *. apply linked_inv; [done|].
    apply (advance_linked s (Get tr) l); try done; try lia.
    + by replace (fin - (extra s + (fin - ready s - (respCycle tr - reqCycle tr))))
        with (ready s - extra s + (respCycle tr - reqCycle tr)) by lia.
    + destruct L7 as [e l' F1 F2 F3 F4|st og F1 F2 F3]; [by rewrite E in F4|].
      apply rep_some; unfold limit in *; cbn; lia.
    + cbn. assert (forall r, tail_ok r -> chain r = Get tr :: l -> tail_ok (pop_chain l r)) as Ht.
      { intros r Ht Er. destruct (tail_ok_cons _ _ _ Ht Er) as [[_ (z & ? & _)]|]; done. }
      destruct (state (rc s)); [done|apply Ht; [apply L8|done]|].
      left. apply Ht; [|done]. destruct L8 as [[?|[E' _]] _]; [done|by rewrite E' in E].
  - destruct Hinv as [He Hi]. destruct Hmay as (Hw & Hlim & Hm).
    destruct (decide (state (rc s) = HALTED)) as [Hh|Hh]; [destruct Hi as (_ & E' & _); by rewrite E' in E|].
    pose proof Hi as [L1 L2 L3 L4 L5 L6 L7 L8]. rewrite E in L3. cbn [placed] in L3.
    cbn [run]. unfold simulate. rewrite E. cbn [mret res_ret]. eexists. split; [done|].
    rewrite Hw in L8 |- *. apply linked_inv; [done|].
    apply (advance_linked s (Put dl mn tr) l); try done; try lia.
    + destruct L7 as [e l' F1 F2 F3 F4|st og F1 F2 F3]; [by rewrite E in F4|].
      apply rep_some; unfold limit in *; cbn; lia.
    + cbn. assert (forall r, tail_ok r -> chain r = Put dl mn tr :: l -> tail_ok (pop_chain l r)) as Ht.
      { intros r Ht Er. destruct (tail_ok_cons _ _ _ Ht Er) as [[_ (z & ? & _)]|]; done. }
      destruct (state (rc s)); [done|apply Ht; [apply L8|done]|].
      left. apply Ht; [|done]. destruct L8 as [[?|[E' _]] _]; [done|by rewrite E' in E].
Qed.

(** The clock after the weave phase. *)
Lemma skewed_linked s : linked s -> limit s <= cur s ->
  let st := lastEventSimulatedStartCycle (rc s) in
  let og := lastEventSimulatedOrigStartCycle (rc s) in
  gapCycles (rc s) <= st - og <= extra s -> st < limit s -> og <= ready s - extra s ->
  match state (rc s) with
  | HALTED => False
  | RUNNING => chain (rc s) <> [] /\ is_Some (prevRespEvent (rc s))
  | DRAINING => tail_ok (rc s)
  end ->
  let skew := st - (og + gapCycles (rc s)) in
  linked (mkSys (set_prev (set_gap (rc s) (gapCycles (rc s) + skew) (totalGapCycles (rc s)) (totalHaltedCycles (rc s)))
                   (prevRespCycle (rc s) + skew) (prevRespEvent (rc s)))
            (cur s + skew) (glob s + PL) false (ready s) (extra s) (zll s)).
Proof.
  intros [L1 L2 L3 L4 L5 L6 L7 L8] Hcur st og F1 F2 F3 Hm skew. unfold limit in *.
  split; cbn; try (unfold skew; lia).
  - apply (placed_mono (gapCycles (rc s))); [unfold skew; lia|].
    by replace (prevRespCycle (rc s) + skew - (gapCycles (rc s) + skew))
      with (prevRespCycle (rc s) - gapCycles (rc s)) by lia.
  - done.
  - apply rep_some; unfold limit, skew; cbn; fold st og; lia.
  - done.
Qed.

Lemma endWeave_inv s : inv s -> may EndWeave s -> exists s', run EndWeave s = Ok s' /\ inv s' /\
  zll s' = zll s /\
  (state (rc s) = HALTED \/
   gapCycles (rc s') = lastEventSimulatedStartCycle (rc s) - lastEventSimulatedOrigStartCycle (rc s) /\
   gapCycles (rc s) <= gapCycles (rc s') /\
   state (rc s') = (if decide (chain (rc s) = []) then HALTED else state (rc s))).
Proof.
  intros [He Hi] [Hw Hend]. cbn [run]. unfold cSimEnd. destruct (decide (state (rc s) = HALTED)) as [Hh|Hh].
  - rewrite bool_decide_true by done. cbn [mbind res_bind mret res_ret]. eexists. split; [done|].
    split; [|split; [done|by left]]. split; [done|]. cbn. rewrite decide_True by done.
    destruct Hi as (H1 & H2 & H3). split_and!; [done|done|lia].
  - rewrite bool_decide_false by done. pose proof Hi as [L1 L2 L3 L4 L5 L6 L7 L8].
    pose proof (placed_le _ _ _ _ L3) as Hle. rewrite Hw in L8.
    assert (limit s <= cur s) as Hcur.
    { destruct (state (rc s)); [done| |apply L8]. destruct L8. lia. }
    destruct L7 as [e l F1 F2 F3 F4|st og F1 F2 F3].
    { destruct Hend as [E|E]; [by rewrite E in F4|lia]. }
    assert ((prevRespEvent (rc s) = None /\ state (rc s) = DRAINING /\ chain (rc s) = []) \/
      (is_Some (prevRespEvent (rc s)) /\ chain (rc s) <> [] /\
       match state (rc s) with
       | HALTED => False
       | RUNNING => chain (rc s) <> [] /\ is_Some (prevRespEvent (rc s))
       | DRAINING => tail_ok (rc s)
       end)) as Hmode.
    { destruct (state (rc s)); [done| |].
      - right. destruct L8 as [Ht _]. apply tail_prev in Ht as [H1 H2]. done.
      - destruct L8 as [[Ht|[H1 H2]] _]; [right|by left]. by pose proof (tail_prev _ Ht) as [H1 H2]. }
    pose proof (skewed_linked s Hi Hcur F1 F2 F3) as Hlk. fold st og in Hlk |- *.
    rewrite (proj2 (Z.leb_le (og + _) _)) by lia. rewrite (proj2 (Z.leb_le st _)) by lia.
    cbn [assert_that mbind res_bind]. rewrite (proj2 (Z.ltb_ge _ _)) by lia.
    cbn [prevRespEvent set_prev set_gap state]. cbn zeta in Hlk.
    destruct Hmode as [(Hp & Hd & Hc)|([pe Hp] & Hne & Hm)]; rewrite Hp.
    + rewrite bool_decide_true by done. cbn [assert_that mbind res_bind mret res_ret]. eexists.
      split; [done|]. split; [|split; [done|]].
      * split; [done|]. cbn. unfold limit in *. split_and!; [done|done|]. fold st. lia.
      * right. cbn. rewrite decide_True by done. fold st og. split_and!; [lia|lia|done].
    + specialize (Hlk Hm). rewrite Hp in Hlk. cbn [mbind res_bind mret res_ret]. eexists.
      split; [done|]. split; [by apply linked_inv|]. split; [done|]. right. cbn. fold st og.
      rewrite decide_False by done. split_and!; [lia|lia|done].
Qed.

(** ** Reachable states *)

Context (dom : Z) (src : nat).

Lemma start_inv : inv (start dom src).
Proof. split; [done|]. cbn. by split_and!. Qed.

Lemma run_keeps s o : inv s -> may o s -> exists s', run o s = Ok s' /\ inv s'.
Proof.
  intros Hi Hm. destruct o; [by apply join_inv|by apply run_inv|by apply leave_inv|by apply startWeave_inv|
    by apply sim_inv|]. destruct (endWeave_inv s Hi Hm) as (s' & H1 & H2 & _). by exists s'.
Qed.

Lemma rec_reachable_inv s : reachable dom src s -> inv s.
Proof.
  induction 1 as [|o s s' _ IH Hm Hr]; [apply start_inv|].
  destruct (run_keeps s o IH Hm) as (s1 & H1 & H2). congruence.
Qed.

(** The run of a list of operations, each allowed where it is done. *)
Fixpoint run_all (l : list sysop) (s : sys) : res sys :=
  match l with
  | [] => mret s
  | o :: l => s ← run o s; run_all l s
  end.
Fixpoint allowed (l : list sysop) (s : sys) : Prop :=
  match l with
  | [] => True
  | o :: l => may o s /\ match run o s with Ok s' => allowed l s' | Fail _ => False end
  end.

Lemma reach_all l : forall s, reachable dom src s -> allowed l s ->
  exists s', run_all l s = Ok s' /\ reachable dom src s'.
Proof.
  induction l as [|o l IH]; cbn; intros s Hr; [by eexists|]. intros [Hm Ha].
  destruct (run o s) as [s1|] eqn:E; [|done]. apply IH; [by eapply reach_run|done].
Qed.

(** C13: whatever a core does in its bound phases, and however much longer than recorded its
    accesses take in the weave phases, no assertion of the recorder fails, no event starts
    before its minimum, and contention never moves the clock back. *)
Theorem recorder_safe s o : reachable dom src s -> may o s -> exists s', run o s = Ok s'.
Proof.
  intros Hr Hm. destruct (run_keeps s o (rec_reachable_inv _ Hr) Hm) as (s' & H & _). by exists s'.
Qed.

(** The clock of a core is always the clock without contention plus the gap, which is at
    most what its accesses took longer than recorded; the weave phase leaves the first as
    it is, sets the gap to the delay of the last event it simulated, never lowers it, and
    halts a core that left when its chain is simulated; a join adds no unhalted cycle. *)
Theorem recorder_clock s : reachable dom src s ->
  (state (rc s) <> HALTED -> glob s <= cur s /\ cur s = zll s + gapCycles (rc s) /\
     0 <= gapCycles (rc s) <= extra s) /\
  (may EndWeave s -> state (rc s) <> HALTED -> exists s', run EndWeave s = Ok s' /\ zll s' = zll s /\
     gapCycles (rc s') = lastEventSimulatedStartCycle (rc s) - lastEventSimulatedOrigStartCycle (rc s) /\
     gapCycles (rc s) <= gapCycles (rc s') /\
     state (rc s') = (if decide (chain (rc s) = []) then HALTED else state (rc s))) /\
  (may Join s -> exists s', run Join s = Ok s' /\
     getUnhaltedCycles (glob s) (cur s') (rc s') = getUnhaltedCycles (glob s) (cur s) (rc s)).
Proof.
  intros Hr. pose proof (rec_reachable_inv _ Hr) as Hi. split_and!.
  - intros Hh. destruct (not_halted _ Hi Hh) as [L1 L2 L3 L4 L5 L6 L7 L8]. done.
  - intros Hm Hh. destruct (endWeave_inv s Hi Hm) as (s' & H1 & H2 & H3 & [?|(H4 & H5 & H6)]); [done|].
    by exists s'.
  - intros Hm. destruct (join_inv s Hi Hm) as (s' & H1 & H2). exists s'. split; [done|].
    cbn [run] in H1. apply bind_Ok in H1 as ([c r] & H1 & [= <-]).
    unfold notifyJoin in H1. destruct Hi as [_ Hi].
    destruct (decide (state (rc s) = HALTED)) as [Hh|Hh].
    + rewrite Hh in H1. apply bind_Ok in H1 as (? & _ & H1). apply bind_Ok in H1 as (? & _ & [= <- <-]).
      unfold getUnhaltedCycles. rewrite Hh.
      change (Z.max (glob s) (glob s) - (totalHaltedCycles (rc s) + (glob s - lastUnhaltedCycle (rc s)) + 0) =
        Z.max (cur s) (glob s) - (totalHaltedCycles (rc s) + (Z.max (cur s) (glob s) - lastUnhaltedCycle (rc s)))).
      lia.
    + destruct Hm as [_ Hm]. destruct (state (rc s)) eqn:Es; [done|done|].
      apply bind_Ok in H1 as (? & _ & [= <- <-]). unfold getUnhaltedCycles. cbn. by rewrite Es.
Qed.
End System.

(** ** A core with one contended access

    A read that the bound phase completes in 100 cycles takes 150 in the weave phase. *)

Definition one_read : TimingRecord := Timing.mkTR 0 100 200 GETS (Some 0%nat) (Some 1%nat).
Definition first_phase (fin : Z) : list sysop :=
  [Join; Run 300 (Some one_read); Run 1050 None; StartWeave; Sim 0; Sim 0; Sim fin; Sim 0].

Definition after (l : list sysop) : sys :=
  match run_all 1000 l (start 0 0) with Ok s => s | Fail _ => start 0 0 end.

Lemma first_reachable : reachable 1000 0 0 (after (first_phase 250)).
Proof.
  destruct (reach_all 1000 0 0 (first_phase 250) (start 0 0)) as (s & H & Hr); [constructor|vm_compute; intuition congruence + (try by eexists)|].
  unfold after. by rewrite H.
Qed.

Example contended_gap :
  let s := after (first_phase 250 ++ [EndWeave]) in (cur s, gapCycles (rc s), zll s) = (1100, 50, 1050).
Proof. vm_compute. reflexivity. Qed.
Example uncontended_gap :
  let s := after (first_phase 200 ++ [EndWeave]) in (cur s, gapCycles (rc s), zll s) = (1050, 0, 1050).
Proof. vm_compute. reflexivity. Qed.

Lemma recorder_safe_witness : exists s', run 1000 EndWeave (after (first_phase 250)) = Ok s'.
Proof.
  apply (recorder_safe 1000 ltac:(lia) 0 0); [apply first_reachable|]. vm_compute. intuition congruence.
Defined.

Lemma recorder_clock_witness : exists s', run 1000 EndWeave (after (first_phase 250)) = Ok s' /\
  gapCycles (rc s') = 50.
Proof.
  destruct (recorder_clock 1000 ltac:(lia) 0 0 _ first_reachable) as (_ & H & _).
  destruct H as (s' & H1 & _ & H2 & _).
  - vm_compute. intuition congruence.
  - vm_compute. congruence.
  - exists s'. split; [exact H1|]. rewrite H2. vm_compute. reflexivity.
Defined.

End CoreRecorder.
