(* ===== verification/SimpleCores.v ===== *)
(** The simpler core models: NullCore (null_core.h and .cpp), SimpleCore (simple_core.h and
    .cpp) and TimingCore (timing_core.h and .cpp), which is a SimpleCore with the recorder of
    CoreRec.  The first-level caches are the interface [L1Caches]; [TakeBarrier], which runs
    the rest of the simulator, is a parameter with a contract.

    Cycles do not wrap; addresses are 64 bits wide, [instrs] too. *)
From S2P Require Import Prelude Effects MemHier Timing CoreRec.
Import MemHier (AccessType(..)).

Record BblInfo := mkBblInfo { binstrs : Z; bbytes : Z }.

(** ** The interface to the caches *)

Class L1Caches (Env : Type) := {
  l1i_load : Z -> Z -> prog Env Z;
  l1d_load : Z -> Z -> prog Env Z;
  l1d_store : Z -> Z -> prog Env Z;
  l1_contextSwitch : prog Env unit
}.

(** Each access keeps [Inv], is no faster than no time, and leaves [R] between before and after. *)
Class L1Laws {Env} (caches : L1Caches Env) (Inv : Env -> Prop) (R : Z -> Env -> Z -> Env -> Prop) := {
  ll_iload a c e : Inv e -> wp (l1i_load a c) e (fun r e' => c <= r /\ R c e r e');
  ll_dload a c e : Inv e -> wp (l1d_load a c) e (fun r e' => c <= r /\ R c e r e');
  ll_dstore a c e : Inv e -> wp (l1d_store a c) e (fun r e' => c <= r /\ R c e r e')
}.

(** ** The loop at the end of a basic block

    The three models share it: pass a barrier for each phase that the core has run past. *)

Class Phased (core : Type) := {
  ph_cur : core -> Z;
  ph_end : core -> Z;
  ph_setEnd : Z -> core -> core;
  ph_cur_setEnd x c : ph_cur (ph_setEnd x c) = ph_cur c;
  ph_end_setEnd x c : ph_end (ph_setEnd x c) = x
}.

Section PhaseLoop.
Context {Env core : Type} {phased : Phased core}.
Context (glob : Env -> Z) (PL cid : Z) (PL_pos : 0 < PL).
Context (takeBarrier : core -> prog Env (core * Z)) (asserts : bool).

Fixpoint phases (fuel : nat) (c : core) : prog Env (core * Z) :=
  if ph_end c <? ph_cur c then
    match fuel with
    | O => lift (Fail NoFuel)
    | S fuel =>
        g ← gets glob;
        _ ← require (negb asserts || (ph_end c =? g + PL));
        '(c, newCid) ← takeBarrier (ph_setEnd (ph_end c + PL) c);
        if newCid =? cid then phases fuel c else mret (c, newCid)
    end
  else mret (c, cid).

(** What the loop relies on: a barrier that gives the core back to the thread keeps [J] and
    leaves [I] between before and after; a budget [d] of cycles bounds how far it moved the
    clock, unless the core is within its phase; the phase ends where the core says. *)
Context (J : core -> Env -> Prop) (I : core -> Env -> core -> Env -> Prop) (d : Env -> Z).

Record barrier_spec : Prop := {
  bs_refl c e : I c e c e;
  bs_trans c e c1 e1 c2 e2 : I c e c1 e1 -> I c1 e1 c2 e2 -> I c e c2 e2;
  bs_nonneg e : 0 <= d e;
  bs_take c e : J c e -> ph_end c = glob e + PL -> ph_end c < ph_cur c ->
    wp (takeBarrier (ph_setEnd (ph_end c + PL) c)) e (fun '(c', n) e' => n = cid ->
      J c' e' /\ I c e c' e' /\ ph_end c' = glob e' + PL /\ ph_end c + PL <= ph_end c' /\
      (ph_cur c' + d e' <= ph_cur c + d e \/ ph_cur c' <= ph_end c'))
}.

Context (bs : barrier_spec).

Lemma phases_done fuel c : ph_cur c <= ph_end c -> phases fuel c = mret (c, cid).
Proof. intros H. destruct fuel; cbn [phases]; by rewrite (proj2 (Z.ltb_ge _ _)). Qed.

Lemma phases_spec fuel : forall c e, J c e -> ph_end c = glob e + PL ->
  ph_cur c + d e - ph_end c <= Z.of_nat fuel * PL ->
  wp (phases fuel c) e (fun '(c', n) e' => n = cid ->
    J c' e' /\ I c e c' e' /\ ph_end c' = glob e' + PL /\ ph_cur c' <= ph_end c').
Proof.
  induction fuel as [|fuel IH]; intros c e Hj He Hf; pose proof (bs_nonneg bs e).
  { rewrite phases_done by lia. apply wp_ret. intros _. split; [done|]. split; [apply (bs_refl bs)|lia]. }
  destruct (Z.lt_ge_cases (ph_end c) (ph_cur c)) as [Hlt|Hle].
  2: { rewrite phases_done by lia. apply wp_ret. intros _. split; [done|]. split; [apply (bs_refl bs)|lia]. }
  cbn [phases]. rewrite (proj2 (Z.ltb_lt _ _) Hlt). apply wp_bind, wp_gets, wp_bind, wp_require.
  { rewrite (proj2 (Z.eqb_eq _ _) He). apply orb_true_r. }
  apply wp_bind. eapply wp_mono; [by apply (bs_take bs c e)|].
  intros [c' n] e' H1. destruct (Z.eqb_spec n cid) as [->|Hn]; [|by apply wp_ret].
  destruct (H1 eq_refl) as (Hj' & H2 & H3 & H4 & [H5|H5]).
  - eapply wp_mono; [apply IH; [done|done|lia]|]. intros [c2 n2] e2 H6 Hn.
    destruct (H6 Hn) as (H7 & H8 & H9). split; [done|]. split; [by eapply (bs_trans bs)|done].
  - rewrite phases_done by done. by apply wp_ret.
Qed.
End PhaseLoop.

(** ** The lines of a basic block *)

Section Fetch.
Context {S Env : Type} (lineBits : Z) (fetch : Z -> S -> prog Env S).

(** [for (fetchAddr = bblAddr; fetchAddr < endBblAddr; fetchAddr += (1 << lineBits))] *)
Fixpoint fetchLines (fuel : nat) (fetchAddr endBblAddr : Z) (s : S) : prog Env S :=
  if fetchAddr <? endBblAddr then
    match fuel with
    | O => lift (Fail NoFuel)
    | Datatypes.S fuel =>
        s ← fetch fetchAddr s;
        fetchLines fuel (u64 (fetchAddr + Z.shiftl 1 lineBits)) endBblAddr s
    end
  else mret s.

Lemma fetchLines_spec (I : S -> Env -> Prop) fuel : 0 <= lineBits -> forall a b s e,
  0 <= a -> b + 2 ^ lineBits <= 2 ^ 64 -> b - a <= Z.of_nat fuel -> I s e ->
  (forall x s e, I s e -> wp (fetch x s) e I) -> wp (fetchLines fuel a b s) e I.
Proof.
  intros Hl. induction fuel as [|fuel IH]; intros a b s e Ha Hb Hf Hi Hfetch; cbn [fetchLines];
    destruct (Z.ltb_spec a b); try (by apply wp_ret); try lia.
  apply wp_bind. eapply wp_mono; [by apply Hfetch|]. intros s' e' Hi'.
  rewrite Z.shiftl_1_l. pose proof (Z.pow_pos_nonneg 2 lineBits). unfold u64. rewrite Z.mod_small by lia.
  apply IH; [lia|lia|lia|done|done].
Qed.
End Fetch.

(** ** NullCore: one cycle per instruction, no memory *)

Module NullCore.
Record core := mkCore { instrs : Z; curCycle : Z; phaseEndCycle : Z }.

Definition new : core := mkCore 0 0 0.
Definition getInstrs (c : core) : Z := instrs c.
Definition getCycles (c : core) : Z := instrs c.
Definition getPhaseCycles (globPhaseCycles : Z) (c : core) : Z := curCycle c - globPhaseCycles.

Definition bbl (info : BblInfo) (c : core) : core :=
  mkCore (u64 (instrs c + binstrs info)) (curCycle c + binstrs info) (phaseEndCycle c).
Definition join (globPhaseCycles phaseLength : Z) (c : core) : core :=
  mkCore (instrs c) (Z.max (curCycle c) globPhaseCycles) (globPhaseCycles + phaseLength).

#[export] Instance phased : Phased core := {
  ph_cur := curCycle;
  ph_end := phaseEndCycle;
  ph_setEnd x c := mkCore (instrs c) (curCycle c) x;
  ph_cur_setEnd x c := eq_refl;
  ph_end_setEnd x c := eq_refl
}.

Definition BblFunc {Env} (glob : Env -> Z) (PL cid : Z) (takeBarrier : core -> prog Env (core * Z))
    (fuel : nat) (info : BblInfo) (c : core) : prog Env (core * Z) :=
  phases glob PL cid takeBarrier true fuel (bbl info c).
End NullCore.

(** ** SimpleCore: one cycle per instruction, and the caches *)

Module SimpleCore.
Record core := mkCore { instrs : Z; curCycle : Z; phaseEndCycle : Z; haltedCycles : Z }.

Definition getInstrs (c : core) : Z := instrs c.
Definition getPhaseCycles (phaseLength : Z) (c : core) : Z := curCycle c mod phaseLength.
Definition getCycles (c : core) : Z := curCycle c - haltedCycles c.

Definition set_cycle (c : core) (r : Z) : core := mkCore (instrs c) r (phaseEndCycle c) (haltedCycles c).

#[export] Instance phased : Phased core := {
  ph_cur := curCycle;
  ph_end := phaseEndCycle;
  ph_setEnd x c := mkCore (instrs c) (curCycle c) x (haltedCycles c);
  ph_cur_setEnd x c := eq_refl;
  ph_end_setEnd x c := eq_refl
}.

(** The constructor leaves [phaseEndCycle] to [join]. *)
Definition new (phaseEndCycle : Z) : core := mkCore 0 0 phaseEndCycle 0.

Definition join (globPhaseCycles phaseLength : Z) (c : core) : core :=
  let c := if curCycle c <? globPhaseCycles
           then mkCore (instrs c) globPhaseCycles (phaseEndCycle c)
                  (haltedCycles c + (globPhaseCycles - curCycle c))
           else c in
  mkCore (instrs c) (curCycle c) (globPhaseCycles + phaseLength) (haltedCycles c).

Section Ops.
Context {Env : Type} {caches : L1Caches Env}.

Definition load (addr : Z) (c : core) : prog Env core :=
  r ← l1d_load addr (curCycle c); mret (set_cycle c r).
Definition store (addr : Z) (c : core) : prog Env core :=
  r ← l1d_store addr (curCycle c); mret (set_cycle c r).
Definition PredLoadFunc (addr : Z) (pred : bool) (c : core) : prog Env core :=
  if pred then load addr c else mret c.
Definition PredStoreFunc (addr : Z) (pred : bool) (c : core) : prog Env core :=
  if pred then store addr c else mret c.

Definition fetch (addr : Z) (c : core) : prog Env core :=
  r ← l1i_load addr (curCycle c); mret (set_cycle c r).
Definition bbl (lineBits bblAddr : Z) (info : BblInfo) (c : core) : prog Env core :=
  let c := mkCore (u64 (instrs c + binstrs info)) (curCycle c + binstrs info) (phaseEndCycle c)
             (haltedCycles c) in
  fetchLines lineBits fetch (Z.to_nat (bbytes info)) bblAddr (u64 (bblAddr + bbytes info)) c.

Definition contextSwitch (gid : Z) (c : core) : prog Env core :=
  if gid =? -1 then _ ← l1_contextSwitch; mret c else mret c.

Definition BblFunc (glob : Env -> Z) (PL cid : Z) (takeBarrier : core -> prog Env (core * Z))
    (lineBits : Z) (fuel : nat) (bblAddr : Z) (info : BblInfo) (c : core) : prog Env (core * Z) :=
  c ← bbl lineBits bblAddr info c;
  phases glob PL cid takeBarrier true fuel c.
End Ops.

(** The lines that the loop of a block fetches, with caches that only note the address. *)
#[local] Instance noting : L1Caches (list Z) := {
  l1i_load a c l := Ok (c, l ++ [a]);
  l1d_load a c l := Ok (c, l);
  l1d_store a c l := Ok (c, l);
  l1_contextSwitch l := Ok (tt, l)
}.
(** A block of 8 bytes at 60 reaches into the line at 64, which is not fetched. *)
Example straddling_block : snd <$> (match bbl 6 60 (mkBblInfo 2 8) (new 1000) [] with
  Ok r => Some r | Fail _ => None end) = Some [60].
Proof. reflexivity. Qed.

(** *** Cycles *)

Section Cycles.
Context {Env : Type} {caches : L1Caches Env} (glob : Env -> Z) (PL cid : Z) (PL_pos : 0 < PL).
Context (Inv : Env -> Prop).
Context {laws : L1Laws caches Inv (fun _ e _ e' => Inv e' /\ glob e' = glob e)}.

(** What [TakeBarrier] promises: it returns a core it has kept for the thread at the next
    phase; a core it took away and gave back joins in the phase it is given back in. *)
Definition barrier_ok (takeBarrier : core -> prog Env (core * Z)) : Prop :=
  forall c e, phaseEndCycle c = glob e + 2 * PL -> glob e + PL < curCycle c -> Inv e ->
  wp (takeBarrier c) e (fun '(c', n) e' => n = cid -> Inv e' /\
    ((c' = c /\ glob e' = glob e + PL) \/ (c' = join (glob e') PL c /\ glob e + PL <= glob e'))).

(** What a thread did between two states of its core: [k] cycles and [n] instructions. *)
Definition did (n k : Z) (c c' : core) : Prop :=
  instrs c' = u64 (instrs c + n) /\ getCycles c + k <= getCycles c' /\ haltedCycles c <= haltedCycles c'.

Lemma fetch_spec (lineBits : Z) (fuel : nat) a n c e : 0 <= lineBits -> 0 <= a -> 0 <= n ->
  a + n + 2 ^ lineBits <= 2 ^ 64 -> n <= Z.of_nat fuel -> Inv e ->
  wp (fetchLines lineBits fetch fuel a (u64 (a + n)) c) e (fun c' e' => Inv e' /\ glob e' = glob e /\
    instrs c' = instrs c /\ phaseEndCycle c' = phaseEndCycle c /\ haltedCycles c' = haltedCycles c /\
    curCycle c <= curCycle c').
Proof.
  intros Hl Ha Hn Hb Hf Hi. pose proof (Z.pow_pos_nonneg 2 lineBits).
  unfold u64. rewrite Z.mod_small by lia. apply (fetchLines_spec lineBits fetch); try lia.
  - by split_and!.
  - intros x c1 e1 (H1 & H2 & H3 & H4 & H5 & H6). unfold fetch. apply wp_bind.
    eapply wp_mono; [by apply ll_iload|]. intros r e2 (H7 & H8 & H9). apply wp_ret. cbn.
    split_and!; try done; lia.
Qed.

Lemma bbl_spec lineBits bblAddr info c e : 0 <= lineBits -> 0 <= bblAddr ->
  0 <= bbytes info -> bblAddr + bbytes info + 2 ^ lineBits <= 2 ^ 64 -> Inv e ->
  wp (bbl lineBits bblAddr info c) e (fun c' e' => Inv e' /\ glob e' = glob e /\
    instrs c' = u64 (instrs c + binstrs info) /\ phaseEndCycle c' = phaseEndCycle c /\
    haltedCycles c' = haltedCycles c /\ curCycle c + binstrs info <= curCycle c').
Proof. intros. unfold bbl. apply (fetch_spec lineBits (Z.to_nat (bbytes info)) bblAddr (bbytes info)); by try lia. Qed.

Lemma join_cycles g c : getCycles (join g PL c) = getCycles c /\ haltedCycles c <= haltedCycles (join g PL c) /\
  instrs (join g PL c) = instrs c /\ phaseEndCycle (join g PL c) = g + PL /\
  curCycle (join g PL c) = Z.max (curCycle c) g.
Proof. unfold join, getCycles. destruct (Z.ltb_spec (curCycle c) g); cbn; split_and!; lia. Qed.

Definition same (c : core) (_ : Env) (c' : core) (_ : Env) : Prop :=
  getCycles c' = getCycles c /\ instrs c' = instrs c /\ haltedCycles c <= haltedCycles c'.

Lemma barrier_loops takeBarrier : barrier_ok takeBarrier ->
  barrier_spec glob PL cid takeBarrier (fun _ => Inv) same (fun _ => 0).
Proof.
  intros Hb. split; unfold same; [intros; by split_and!| |lia|].
  - intros c e c1 e1 c2 e2 (H1 & H2 & H3) (H4 & H5 & H6). split_and!; [congruence|congruence|lia].
  - intros c e Hi He Hlt. cbn in *. eapply wp_mono; [apply Hb; cbn; [lia|lia|done]|].
    intros [c' n] e' H Hn. destruct (H Hn) as (Hi' & [[-> Hg]|[-> Hg]]).
    + cbn. split; [done|]. split; [by split_and!|]. lia.
    + destruct (join_cycles (glob e') (mkCore (instrs c) (curCycle c) (phaseEndCycle c + PL) (haltedCycles c)))
        as (H1 & H2 & H3 & H4 & H5). cbn in *. split; [done|]. split; [by split_and!|]. lia.
Qed.

(** A block of a simple core ends within its phase, unless the thread was switched out:
    the loop of barriers terminates, its assertion holds, and the cycles of the core, which
    leave out those it was halted for, are at least one more per instruction. *)
Theorem simple_core_block takeBarrier lineBits bblAddr info c e :
  barrier_ok takeBarrier -> Inv e -> phaseEndCycle c = glob e + PL ->
  0 <= lineBits -> 0 <= bblAddr -> 0 <= bbytes info -> bblAddr + bbytes info + 2 ^ lineBits <= 2 ^ 64 ->
  exists fuel0, forall fuel, (fuel0 <= fuel)%nat ->
  wp (BblFunc glob PL cid takeBarrier lineBits fuel bblAddr info c) e (fun '(c', n) e' => n = cid ->
    Inv e' /\ did (binstrs info) (binstrs info) c c' /\
    curCycle c' <= phaseEndCycle c' /\ phaseEndCycle c' = glob e' + PL).
Proof.
  intros Hb Hi He Hl Ha Hn Hw. pose proof (barrier_loops _ Hb) as Hbs.
  pose proof (bbl_spec lineBits bblAddr info c e Hl Ha Hn Hw Hi) as Hbbl.
  apply wp_Ok in Hbbl as (c1 & e1 & E & Hi1 & Hg1 & H1 & H2 & H3 & H4).
  exists (Z.to_nat (curCycle c1 - phaseEndCycle c1)). intros fuel Hf. unfold BblFunc.
  apply wp_bind. unfold wp at 1. rewrite E.
  eapply wp_mono; [apply (phases_spec glob PL cid takeBarrier true _ _ _ Hbs); cbn; [done|lia|nia]|].
  cbn. intros [c' n] e' H Hn'. destruct (H Hn') as (Hi' & (H5 & H6 & H7) & H8 & H9).
  split; [done|]. unfold did, getCycles in *. split_and!; [congruence|lia|lia|done|done].
Qed.

End Cycles.
End SimpleCore.

(** ** TimingCore: a simple core with a recorder *)

Module TimingCore.
Import CoreRecorder (rec, sys, mkSys, rc, cur, glob, weaving, state, er, run, may, reachable, State(..), sysop(..)).

Record core := mkCore { instrs : Z; curCycle : Z; phaseEndCycle : Z; cRec : rec }.

Definition getInstrs (c : core) : Z := instrs c.
Definition getPhaseCycles (phaseLength : Z) (c : core) : Z := curCycle c mod phaseLength.
Definition getCycles (globPhaseCycles : Z) (c : core) : Z :=
  CoreRecorder.getUnhaltedCycles globPhaseCycles (curCycle c) (cRec c).

(** The constructor leaves [phaseEndCycle] to [join]. *)
Definition new (domain : Z) (src : nat) (phaseEndCycle : Z) : core :=
  mkCore 0 0 phaseEndCycle (CoreRecorder.new domain src).

#[export] Instance phased : Phased core := {
  ph_cur := curCycle;
  ph_end := phaseEndCycle;
  ph_setEnd x c := mkCore (instrs c) (curCycle c) x (cRec c);
  ph_cur_setEnd x c := eq_refl;
  ph_end_setEnd x c := eq_refl
}.

Definition set_recorded (c : core) (p : Z * rec) : core := mkCore (instrs c) p.1 (phaseEndCycle c) p.2.

Definition join (globPhaseCycles phaseLength : Z) (c : core) : res core :=
  p ← CoreRecorder.notifyJoin globPhaseCycles (curCycle c) (cRec c);
  mret (mkCore (instrs c) p.1 (globPhaseCycles + phaseLength) p.2).
Definition leave (c : core) : res core :=
  r ← CoreRecorder.notifyLeave (curCycle c) (cRec c); mret (set_recorded c (curCycle c, r)).
Definition cSimStart (globPhaseCycles phaseLength : Z) (c : core) : res core :=
  p ← CoreRecorder.cSimStart globPhaseCycles phaseLength (curCycle c) (cRec c); mret (set_recorded c p).
Definition cSimEnd (c : core) : res core :=
  p ← CoreRecorder.cSimEnd (curCycle c) (cRec c); mret (set_recorded c p).

Section Ops.
(** The caches put the records of their accesses in the event recorder of the core. *)
Context {Env : Type} {caches : L1Caches (Timing.EventRecorder * Env)}.

Definition with_recorder (m : prog (Timing.EventRecorder * Env) Z) (r : rec) : prog Env (Z * rec) := fun e =>
  match m (er r, e) with
  | Ok (c, (er', e')) => Ok ((c, CoreRecorder.set_er r er'), e')
  | Fail err => Fail err
  end.

(** An access at the current cycle, and its record. *)
Definition access (m : Z -> prog (Timing.EventRecorder * Env) Z) (c : core) : prog Env core :=
  let startCycle := curCycle c in
  '(cyc, r) ← with_recorder (m startCycle) (cRec c);
  r ← lift (CoreRecorder.record startCycle r);
  mret (set_recorded c (cyc, r)).

Definition loadAndRecord (addr : Z) : core -> prog Env core := access (l1d_load addr).
Definition storeAndRecord (addr : Z) : core -> prog Env core := access (l1d_store addr).
Definition PredLoadAndRecordFunc (addr : Z) (pred : bool) (c : core) : prog Env core :=
  if pred then loadAndRecord addr c else mret c.
Definition PredStoreAndRecordFunc (addr : Z) (pred : bool) (c : core) : prog Env core :=
  if pred then storeAndRecord addr c else mret c.

Definition bblAndRecord (lineBits bblAddr : Z) (info : BblInfo) (c : core) : prog Env core :=
  let c := mkCore (u64 (instrs c + binstrs info)) (curCycle c + binstrs info) (phaseEndCycle c) (cRec c) in
  fetchLines lineBits (fun addr => access (l1i_load addr)) (Z.to_nat (bbytes info)) bblAddr
    (u64 (bblAddr + bbytes info)) c.

Definition contextSwitch (gid : Z) (c : core) : prog Env core :=
  if gid =? -1
  then fun e => match l1_contextSwitch (er (cRec c), e) with
    | Ok (_, (er', e')) => Ok (set_recorded c (curCycle c, CoreRecorder.set_er (cRec c) er'), e')
    | Fail err => Fail err
    end
  else mret c.

Definition BblAndRecordFunc (glob : Env -> Z) (PL cid : Z) (takeBarrier : core -> prog Env (core * Z))
    (lineBits : Z) (fuel : nat) (bblAddr : Z) (info : BblInfo) (c : core) : prog Env (core * Z) :=
  c ← bblAndRecord lineBits bblAddr info c;
  phases glob PL cid takeBarrier false fuel c.
End Ops.

(** *** The core does what the system of CoreRec does *)

Section Refinement.
Context {Env : Type} {caches : L1Caches (Timing.EventRecorder * Env)}.
Context (globOf : Env -> Z) (PL cid : Z) (PL_pos : 0 < PL) (dom : Z) (src : nat).

(** An access leaves a record of itself or none. *)
Definition leaves_record (c : Z) (e : Timing.EventRecorder * Env) (r : Z) (e' : Timing.EventRecorder * Env) : Prop :=
  globOf e'.2 = globOf e.2 /\
  (e'.1 = e.1 \/ exists tr, Timing.pushRecord tr e.1 = Ok e'.1 /\ CoreRecorder.good_record c r tr).

Context {laws : L1Laws caches (fun e => Timing.hasRecord e.1 = false) leaves_record}.

Definition sstep (s s' : sys) : Prop := exists o, may PL o s /\ run PL o s = Ok s'.

(** The core is the one of the state [s] of the system, in a weave phase or a bound phase. *)
Record rep (w : bool) (c : core) (e : Env) (s : sys) : Prop := {
  rp_reach : reachable PL dom src s;
  rp_rec : rc s = cRec c;
  rp_cur : cur s = curCycle c;
  rp_glob : glob s = globOf e;
  rp_weaving : weaving s = w
}.

(** The core went on from [s]: it ran, as the thread on it. *)
Definition runs (c c' : core) (e' : Env) (s : sys) : Prop :=
  exists s', rtc sstep s s' /\ rep false c' e' s' /\ state (rc s') = RUNNING /\
    curCycle c <= curCycle c' /\ phaseEndCycle c' = phaseEndCycle c.

Lemma access_spec (m : Z -> prog (Timing.EventRecorder * Env) Z) c e s :
  (forall cyc w, Timing.hasRecord w.1 = false -> wp (m cyc) w (fun r w' => cyc <= r /\ leaves_record cyc w r w')) ->
  rep false c e s -> state (rc s) = RUNNING ->
  wp (access m c) e (fun c' e' => runs c c' e' s /\ globOf e' = globOf e /\ instrs c' = instrs c).
Proof.
  intros Hm [H1 H2 H3 H4 H5] Hr. unfold access. apply wp_bind.
  pose proof (CoreRecorder.rec_reachable_inv PL PL_pos _ _ _ H1) as Hi.
  pose proof (proj1 Hi) as Hrec. rewrite H2 in Hrec.
  specialize (Hm (curCycle c) (er (cRec c), e) Hrec). apply wp_Ok in Hm as (r & [e1 v1] & E & Hle & Hg & Hl).
  cbn [fst snd] in *. unfold wp at 1, with_recorder. rewrite E. apply wp_bind.
  assert (exists o, may PL (Run r o) s /\
    match o with Some tr => Timing.pushRecord tr (er (rc s)) | None => mret (er (rc s)) end = Ok e1) as (o & Ho & He).
  { destruct Hl as [->|(tr & Hp & Hgood)].
    - exists None. split; [|by rewrite H2]. split_and!; try done. lia.
    - exists (Some tr). split; [|by rewrite H2]. cbn. rewrite H3. done. }
  destruct (CoreRecorder.run_keeps PL PL_pos s (Run r o) Hi Ho) as (s' & Hrun & Hi').
  pose proof Hrun as Hrun'. cbn [run] in Hrun. rewrite He in Hrun. cbn [mbind res_bind] in Hrun.
  apply bind_Ok in Hrun as (r1 & Hrec1 & [= <-]). pose proof (CoreRecorder.record_state _ _ _ Hrec1) as Hst.
  rewrite H2, H3 in Hrec1. eapply wp_lift; [exact Hrec1|]. apply wp_ret. split; [|done].
  eexists. split; [apply rtc_once; exists (Run r o); by split|].
  split; [split; cbn; try done; [by eapply CoreRecorder.reach_run|congruence]|].
  split; [by cbn; rewrite Hst|done].
Qed.

Lemma runs_trans c1 c2 e2 c3 e3 s : runs c1 c2 e2 s ->
  (forall s2, rep false c2 e2 s2 -> state (rc s2) = RUNNING -> runs c2 c3 e3 s2) -> runs c1 c3 e3 s.
Proof.
  intros (s2 & H1 & H2 & H3 & H4 & H5) H. destruct (H s2 H2 H3) as (s3 & H6 & H7 & H8 & H9 & H10).
  exists s3. split_and!; [by etrans|done|done|lia|congruence].
Qed.

(** The cycles of the instructions of a block. *)
Lemma run_ahead c c' e s : rep false c e s -> state (rc s) = RUNNING ->
  curCycle c <= curCycle c' -> cRec c' = cRec c -> phaseEndCycle c' = phaseEndCycle c -> runs c c' e s.
Proof.
  intros [H1 H2 H3 H4 H5] Hr Hc Hrec He.
  pose proof (CoreRecorder.rec_reachable_inv PL PL_pos _ _ _ H1) as Hi.
  assert (may PL (Run (curCycle c') None) s) as Hm by (split_and!; try done; lia).
  destruct (CoreRecorder.run_keeps PL PL_pos s _ Hi Hm) as (s' & Hrun & Hi').
  pose proof Hrun as Hrun'. pose proof (proj1 Hi) as Hn. cbn [run mbind res_bind] in Hrun.
  unfold CoreRecorder.record in Hrun. cbn in Hrun. rewrite Hn in Hrun. injection Hrun as <-.
  eexists. split; [apply rtc_once; eexists; by split|].
  split; [split; cbn; try done; [by eapply CoreRecorder.reach_run|]|done].
  rewrite Hrec, <- H2. by destruct (rc s).
Qed.

Lemma timing_bbl_spec lineBits bblAddr info c e s : 0 <= lineBits -> 0 <= bblAddr -> 0 <= bbytes info ->
  0 <= binstrs info -> bblAddr + bbytes info + 2 ^ lineBits <= 2 ^ 64 ->
  rep false c e s -> state (rc s) = RUNNING ->
  wp (bblAndRecord lineBits bblAddr info c) e (fun c' e' => runs c c' e' s /\ globOf e' = globOf e /\
    instrs c' = u64 (instrs c + binstrs info)).
Proof.
  intros Hl Ha Hb Hn Hw Hrep Hr. pose proof (Z.pow_pos_nonneg 2 lineBits).
  unfold bblAndRecord. replace (u64 (bblAddr + bbytes info)) with (bblAddr + bbytes info)
    by (unfold u64; rewrite Z.mod_small; lia).
  apply (fetchLines_spec lineBits (fun addr => access (l1i_load addr))); try lia.
  - split; [|done]. apply run_ahead; try done. cbn. lia.
  - intros x c1 e1 (H1 & H2 & H3). destruct H1 as (s1 & H4 & H5 & H6 & H7 & H8).
    eapply wp_mono; [apply (access_spec (l1i_load x) c1 e1 s1); [intros; by apply ll_iload|done|done]|].
    cbn beta. intros c2 e2 ((s2 & H9 & H10 & H11 & H12 & H13) & H14 & H15).
    split; [|split; congruence]. exists s2. split_and!; [by etrans|done|done|lia|congruence].
Qed.

(** The calls of a thread that leave the phase alone. *)
Inductive call :=
  | Load (addr : Z) | Store (addr : Z)
  | PredLoad (addr : Z) (pred : bool) | PredStore (addr : Z) (pred : bool)
  | Bbl (bblAddr : Z) (info : BblInfo).

Definition do_call (lineBits : Z) (o : call) (c : core) : prog Env core :=
  match o with
  | Load addr => loadAndRecord addr c
  | Store addr => storeAndRecord addr c
  | PredLoad addr pred => PredLoadAndRecordFunc addr pred c
  | PredStore addr pred => PredStoreAndRecordFunc addr pred c
  | Bbl bblAddr info => bblAndRecord lineBits bblAddr info c
  end.

Definition call_ok (lineBits : Z) (o : call) : Prop :=
  match o with
  | Bbl bblAddr info => 0 <= bblAddr /\ 0 <= bbytes info /\ 0 <= binstrs info /\
      bblAddr + bbytes info + 2 ^ lineBits <= 2 ^ 64
  | _ => True
  end.

Lemma do_call_spec lineBits o c e s : 0 <= lineBits -> call_ok lineBits o ->
  rep false c e s -> state (rc s) = RUNNING ->
  wp (do_call lineBits o c) e (fun c' e' => runs c c' e' s /\ globOf e' = globOf e).
Proof.
  intros Hl Ho Hrep Hr.
  assert (wp (mret c) e (fun c' e' => runs c c' e' s /\ globOf e' = globOf e)) as Hret.
  { apply wp_ret. split; [|done]. by apply run_ahead. }
  assert (forall a, wp (loadAndRecord a c) e (fun c' e' => runs c c' e' s /\ globOf e' = globOf e)) as Hload.
  { intros a. eapply wp_mono; [apply (access_spec (l1d_load a) c e s); [intros; by apply ll_dload|done|done]|].
    naive_solver. }
  assert (forall a, wp (storeAndRecord a c) e (fun c' e' => runs c c' e' s /\ globOf e' = globOf e)) as Hstore.
  { intros a. eapply wp_mono; [apply (access_spec (l1d_store a) c e s); [intros; by apply ll_dstore|done|done]|].
    naive_solver. }
  destruct o as [a|a|a [|]|a [|]|a info]; cbn [do_call]; try first [apply Hload|apply Hstore|exact Hret].
  destruct Ho as (H1 & H2 & H3 & H4). eapply wp_mono; [by apply timing_bbl_spec|]. naive_solver.
Qed.

(** A call of the recorder on behalf of the core is an operation of the system. *)
Lemma rep_step w w' o c c' e e' s s' : rep w c e s -> may PL o s -> run PL o s = Ok s' ->
  rc s' = cRec c' -> cur s' = curCycle c' -> glob s' = globOf e' -> weaving s' = w' -> rep w' c' e' s'.
Proof. intros [H1 H2 H3 H4 H5] Hm Hr E1 E2 E3 E4. split; try done. by eapply CoreRecorder.reach_run. Qed.

(** C22: the timing core does to its recorder, on every path, what the system of the recorder
    does to its own: a call of the thread is a sequence of its operations, and the thread's
    joining and leaving and the two ends of the weave phase are its operations; no
    assertion fails, of the core or of the recorder. *)
Theorem timing_core_refines lineBits w c e s : 0 <= lineBits -> rep w c e s ->
  (forall o, w = false -> state (rc s) = RUNNING -> call_ok lineBits o ->
     wp (do_call lineBits o c) e (fun c' e' => globOf e' = globOf e /\ phaseEndCycle c' = phaseEndCycle c /\
       exists s', rtc sstep s s' /\ rep false c' e' s' /\ state (rc s') = RUNNING)) /\
  (may PL Join s -> exists c' s', join (globOf e) PL c = Ok c' /\ run PL Join s = Ok s' /\ rep w c' e s' /\
     phaseEndCycle c' = globOf e + PL) /\
  (may PL Leave s -> exists c' s', leave c = Ok c' /\ run PL Leave s = Ok s' /\ rep w c' e s') /\
  (may PL StartWeave s -> exists c' s', cSimStart (globOf e) PL c = Ok c' /\ run PL StartWeave s = Ok s' /\
     rep true c' e s') /\
  (may PL EndWeave s -> exists c' s', cSimEnd c = Ok c' /\ run PL EndWeave s = Ok s' /\
     forall e', globOf e' = globOf e + PL -> rep false c' e' s').
Proof.
  intros Hl Hrep. pose proof Hrep as [H1 H2 H3 H4 H5].
  pose proof (CoreRecorder.rec_reachable_inv PL PL_pos _ _ _ H1) as Hi.
  split_and!.
  - intros o -> Hr Ho. eapply wp_mono; [by apply (do_call_spec lineBits o c e s)|].
    cbn beta. intros c' e' ((s' & ? & ? & ? & ? & ?) & ?). eauto 10.
  - intros Hm. destruct (CoreRecorder.run_keeps PL PL_pos s _ Hi Hm) as (s' & Hrun & _).
    pose proof Hrun as E. cbn [run] in E. rewrite H2, H3, H4 in E. apply bind_Ok in E as ([x r] & E1 & E2).
    exists (mkCore (instrs c) x (globOf e + PL) r), s'. unfold join. rewrite E1. split; [done|].
    split; [done|]. split; [|done]. destruct (decide _) in E2; injection E2 as <-; by eapply rep_step.
  - intros Hm. destruct (CoreRecorder.run_keeps PL PL_pos s _ Hi Hm) as (s' & Hrun & _).
    pose proof Hrun as E. cbn [run] in E. rewrite H2, H3 in E. apply bind_Ok in E as (r & E1 & [= <-]).
    eexists _, _. unfold leave. rewrite E1. split; [done|]. split; [done|]. by eapply rep_step.
  - intros Hm. destruct (CoreRecorder.run_keeps PL PL_pos s _ Hi Hm) as (s' & Hrun & _).
    pose proof Hrun as E. cbn [run] in E. rewrite H2, H3, H4 in E. apply bind_Ok in E as ([x r] & E1 & [= <-]).
    eexists _, _. unfold cSimStart. rewrite E1. split; [done|]. split; [done|]. by eapply rep_step.
  - intros Hm. destruct (CoreRecorder.run_keeps PL PL_pos s _ Hi Hm) as (s' & Hrun & _).
    pose proof Hrun as E. cbn [run] in E. rewrite H2, H3 in E. apply bind_Ok in E as ([x r] & E1 & [= <-]).
    eexists _, _. unfold cSimEnd. rewrite E1. split; [done|]. split; [done|]. intros e' He.
    eapply rep_step; try done. cbn. lia.
Qed.

(** *** The end of a block *)

(** What [TakeBarrier] promises of the recorder: what happens to the core until the thread
    has it back is a sequence of the operations of the system, at the end of which the
    thread runs on it, in a later phase; [d] bounds the cycles that contention can still add
    to its clock. *)
Definition barrier_ok (takeBarrier : core -> prog Env (core * Z)) (d : Env -> Z) : Prop :=
  (forall e, 0 <= d e) /\
  forall c e s, rep false c e s -> state (rc s) = RUNNING -> phaseEndCycle c = globOf e + 2 * PL ->
    globOf e + PL < curCycle c ->
  wp (takeBarrier c) e (fun '(c', n) e' => n = cid ->
    (exists s', rtc sstep s s' /\ rep false c' e' s' /\ state (rc s') = RUNNING) /\
    phaseEndCycle c' = globOf e' + PL /\ globOf e + PL <= globOf e' /\
    (curCycle c' + d e' <= curCycle c + d e \/ curCycle c' <= phaseEndCycle c')).

Definition running (s0 : sys) (c : core) (e : Env) : Prop :=
  exists s, rtc sstep s0 s /\ rep false c e s /\ state (rc s) = RUNNING.

Lemma timing_barrier_loops takeBarrier d s0 : barrier_ok takeBarrier d ->
  barrier_spec globOf PL cid takeBarrier (running s0) (fun _ _ _ _ => True) d.
Proof.
  intros [Hd Hb]. split; [done|done|done|]. intros c e (s & Hs & Hrep & Hr) He Hlt. cbn in *.
  eapply wp_mono; [apply (Hb _ e s); cbn; [by destruct Hrep; split|done|lia|lia]|].
  intros [c' n] e' H Hn. destruct (H Hn) as ((s' & H1 & H2 & H3) & H4 & H5 & H6). cbn in *.
  split; [exists s'; split_and!; [by etrans|done|done]|]. split_and!; [done|done|lia|done].
Qed.

(** A block of a timing core ends within its phase, unless the thread was switched out,
    however many barriers it passes: the loop terminates and the recorder stays in the
    states that the recorder's system reaches. *)
Lemma timing_core_block takeBarrier d lineBits bblAddr info c e s :
  barrier_ok takeBarrier d -> rep false c e s -> state (rc s) = RUNNING ->
  phaseEndCycle c = globOf e + PL -> 0 <= lineBits -> call_ok lineBits (Bbl bblAddr info) ->
  exists fuel0, forall fuel, (fuel0 <= fuel)%nat ->
  wp (BblAndRecordFunc globOf PL cid takeBarrier lineBits fuel bblAddr info c) e (fun '(c', n) e' => n = cid ->
    running s c' e' /\ curCycle c' <= phaseEndCycle c' /\ phaseEndCycle c' = globOf e' + PL).
Proof.
  intros Hb Hrep Hr He Hl (Ha1 & Ha2 & Ha3 & Ha4). pose proof (timing_barrier_loops _ _ s Hb) as Hbs.
  pose proof (timing_bbl_spec lineBits bblAddr info c e s Hl Ha1 Ha2 Ha3 Ha4 Hrep Hr) as Hbbl.
  apply wp_Ok in Hbbl as (c1 & e1 & E & (s1 & H1 & H2 & H3 & H4 & H5) & H6 & H7).
  exists (Z.to_nat (curCycle c1 + d e1 - phaseEndCycle c1)). intros fuel Hf. unfold BblAndRecordFunc.
  apply wp_bind. unfold wp at 1. rewrite E.
  eapply wp_mono; [apply (phases_spec globOf PL cid takeBarrier false _ _ _ Hbs); cbn; [|lia|nia]|].
  - by exists s1.
  - cbn. intros [c' n] e' H Hn. destruct (H Hn) as (H8 & _ & H9 & H10). done.
Qed.
End Refinement.
End TimingCore.

(** ** Runs

    Caches that always answer after 4 cycles, or 100 for a read that leaves a record. *)

Module SimpleRun.
#[export] Instance flat : L1Caches Z := {
  l1i_load a c g := Ok (c + 4, g);
  l1d_load a c g := Ok (c + 4, g);
  l1d_store a c g := Ok (c + 4, g);
  l1_contextSwitch g := Ok (tt, g)
}.
#[export] Instance flat_laws : L1Laws flat (fun _ => True) (fun _ e _ e' => True /\ id e' = id e).
Proof. split; intros; unfold wp; cbn; split; [lia|done..|lia|done|lia|done]. Qed.

(** A barrier that keeps the core for the thread. *)
Definition next_phase (PL : Z) {core} (c : core) : prog Z (core * Z) := fun g => Ok ((c, 0), g + PL).

Lemma next_phase_ok PL : 0 < PL -> SimpleCore.barrier_ok id PL 0 (fun _ => True) (next_phase PL).
Proof. intros HP c e _ _ _. cbn. intros _. split; [done|]. by left. Qed.

Import SimpleCore.

(** 2500 instructions and one fetch, in phases of 1000 cycles: two barriers. *)
Example block_two_barriers :
  BblFunc id 1000 0 (next_phase 1000) 6 9 4096 (mkBblInfo 2500 16) (mkCore 0 0 1000 0) 0 =
  Ok ((mkCore 2500 2504 3000 0, 0), 2000).
Proof. vm_compute. reflexivity. Qed.

Lemma simple_core_block_witness : exists fuel0, forall fuel, (fuel0 <= fuel)%nat ->
  wp (BblFunc id 1000 0 (next_phase 1000) 6 fuel 4096 (mkBblInfo 2500 16) (mkCore 0 0 1000 0)) 0
    (fun '(c', n) e' => n = 0 -> True /\ did 2500 2500 (mkCore 0 0 1000 0) c' /\
      curCycle c' <= phaseEndCycle c' /\ phaseEndCycle c' = e' + 1000).
Proof.
  apply (simple_core_block id 1000 0 ltac:(lia) (fun _ => True) (next_phase 1000) 6 4096 (mkBblInfo 2500 16)
    (mkCore 0 0 1000 0) 0).
  - by apply next_phase_ok.
  - done.
  - done.
  - done.
  - done.
  - done.
  - done.
Defined.

(** Reads that take 100 cycles and leave a record. *)
#[export] Instance recorded : L1Caches (Timing.EventRecorder * Z) := {
  l1i_load a c w := Ok (c + 4, w);
  l1d_load a c w :=
    match Timing.pushRecord (Timing.mkTR a c (c + 100) GETS (Some 0%nat) (Some 1%nat)) w.1 with
    | Ok e => Ok (c + 100, (e, w.2))
    | Fail err => Fail err
    end;
  l1d_store a c w := Ok (c + 4, w);
  l1_contextSwitch w := Ok (tt, w)
}.
#[export] Instance recorded_laws :
  L1Laws recorded (fun e => Timing.hasRecord e.1 = false) (TimingCore.leaves_record id).
Proof.
  split.
  - intros a c e H. unfold wp. cbn. split; [lia|]. split; [done|by left].
  - intros a c [e g] H. unfold wp. cbn in *.
    destruct (CoreRecorder.pushRecord_ok (Timing.mkTR a c (c + 100) GETS (Some 0%nat) (Some 1%nat)) e H)
      as (e' & E & _); [done|]. rewrite E. split; [lia|]. split; [done|]. right. eexists.
    split; [exact E|]. split_and!; cbn; try done; lia.
  - intros a c e H. unfold wp. cbn. split; [lia|]. split; [done|by left].
Qed.

Definition core0 : TimingCore.core := TimingCore.new 0 0 1000.

Lemma core0_rep : TimingCore.rep id 1000 0 0 false core0 0 (CoreRecorder.start 0 0).
Proof. split; try done. constructor. Qed.

(** The core joins, reads, and runs a block of 900 instructions. *)
Definition core_run : prog Z TimingCore.core :=
  c ← lift (TimingCore.join 0 1000 core0);
  c ← TimingCore.loadAndRecord 64 c;
  TimingCore.bblAndRecord 6 4096 (mkBblInfo 900 16) c.
Example core_run_cycles :
  match core_run 0 with
  | Ok (c, _) => (TimingCore.curCycle c, length (CoreRecorder.chain (TimingCore.cRec c)))
  | Fail _ => (0, 0%nat)
  end = (1004, 3%nat).
Proof. vm_compute. reflexivity. Qed.

Lemma timing_core_refines_witness : exists c' s',
  TimingCore.join 0 1000 core0 = Ok c' /\
  CoreRecorder.run 1000 CoreRecorder.Join (CoreRecorder.start 0 0) = Ok s' /\
  TimingCore.rep id 1000 0 0 false c' 0 s' /\ TimingCore.phaseEndCycle c' = 0 + 1000.
Proof.
  pose proof (TimingCore.timing_core_refines id 1000 ltac:(lia) 0 0 6 false core0 0 (CoreRecorder.start 0 0)
    ltac:(lia) core0_rep) as (_ & H & _). apply H. by split.
Defined.
End SimpleRun.
