(* ===== verification/OooRec.v ===== *)
(** The recorder of the out-of-order core (ooo_core_recorder.h and ooo_core_recorder.cpp).

    Its events form a graph: an issue event for each access and for each join, leave and end
    of a phase, each after the one before by the difference of their cycles on the clock
    without contention; a dispatch and a response event for each access; an issue event
    also waits for the responses that came before it.  The graph is kept as the list [links]
    of the edges, a [DelayEvent] between two events being the delay of their edge, and
    [pending] lists the issue events that the weave phase has not simulated yet.

    [futureResponses] is a heap ordered by cycle; it is kept as a sorted list.  The events'
    delays are 32-bit counters, cycles are 64-bit ones that do not wrap.  A response event
    clears its [cRec] when it is simulated: [simulated] lists those that did. *)
From S2P Require Import Prelude MemHier Timing CoreRec.
Import MemHier (AccessType(..), IsGet, IsPut).
Import Timing (TimingRecord, reqCycle, respCycle, tr_type, startEvent, endEvent).
Import CoreRecorder (State(..)).
#[local] Existing Instance CoreRecorder.State_eq_dec.

Module OOOCoreRecorder.

(** An [OOOIssueEvent]. *)
Record issueEvent := mkIssue {
  ie_id : nat;
  zllStartCycle : Z;
  minStartCycle : Z;
  preDelay : Z
}.

(** The events by their numbers, and the first and the last event of an access. *)
Inductive node := NIssue (id : nat) | NDisp (id : nat) | NResp (id : nat) | NEvent (ev : nat).
#[export] Instance node_eq_dec : EqDecision node.
Proof. solve_decision. Defined.

(** [src] has the child [dst], [delay] cycles after it. *)
Record link := mkLink { src : node; delay : Z; dst : node }.

Record FutureResponse := mkFR { fr_zll : Z; fr_ev : option nat }.

Record rec := mkRec {
  curId : nat;
  state : State;
  gapCycles : Z;
  er : Timing.EventRecorder;
  lastEvProduced : option issueEvent;
  futureResponses : list FutureResponse;
  lastEvSimulatedZllStartCycle : Z;
  lastEvSimulatedStartCycle : Z;
  totalGapCycles : Z;
  totalHaltedCycles : Z;
  lastUnhaltedCycle : Z;
  domain : Z;
  (* the events *)
  links : list link;
  pending : list issueEvent;
  simulated : list nat;
  crossings : list node (* those that [produceCrossings] was called on *)
}.

Section fields.
Context (r : rec).
Definition set_state (s : State) : rec :=
  mkRec (curId r) s (gapCycles r) (er r) (lastEvProduced r) (futureResponses r) (lastEvSimulatedZllStartCycle r)
    (lastEvSimulatedStartCycle r) (totalGapCycles r) (totalHaltedCycles r) (lastUnhaltedCycle r) (domain r)
    (links r) (pending r) (simulated r) (crossings r).
Definition set_er (e : Timing.EventRecorder) : rec :=
  mkRec (curId r) (state r) (gapCycles r) e (lastEvProduced r) (futureResponses r) (lastEvSimulatedZllStartCycle r)
    (lastEvSimulatedStartCycle r) (totalGapCycles r) (totalHaltedCycles r) (lastUnhaltedCycle r) (domain r)
    (links r) (pending r) (simulated r) (crossings r).
(** The gap, here and in the event recorder. *)
Definition set_gap (g t h : Z) : rec :=
  mkRec (curId r) (state r) g (Timing.setGapCycles g (er r)) (lastEvProduced r) (futureResponses r)
    (lastEvSimulatedZllStartCycle r) (lastEvSimulatedStartCycle r) t h (lastUnhaltedCycle r) (domain r)
    (links r) (pending r) (simulated r) (crossings r).
(** A new issue event, the last one produced. *)
Definition add_issue (e : issueEvent) (ls : list link) : rec :=
  mkRec (S (curId r)) (state r) (gapCycles r) (er r) (Some e) (futureResponses r) (lastEvSimulatedZllStartCycle r)
    (lastEvSimulatedStartCycle r) (totalGapCycles r) (totalHaltedCycles r) (lastUnhaltedCycle r) (domain r)
    (links r ++ ls) (pending r ++ [e]) (simulated r) (crossings r).
Definition set_future (l : list FutureResponse) : rec :=
  mkRec (curId r) (state r) (gapCycles r) (er r) (lastEvProduced r) l (lastEvSimulatedZllStartCycle r)
    (lastEvSimulatedStartCycle r) (totalGapCycles r) (totalHaltedCycles r) (lastUnhaltedCycle r) (domain r)
    (links r) (pending r) (simulated r) (crossings r).
(** [n] new events, linked by [ls]. *)
Definition add_links (n : nat) (ls : list link) : rec :=
  mkRec (n + curId r) (state r) (gapCycles r) (er r) (lastEvProduced r) (futureResponses r)
    (lastEvSimulatedZllStartCycle r) (lastEvSimulatedStartCycle r) (totalGapCycles r) (totalHaltedCycles r)
    (lastUnhaltedCycle r) (domain r) (links r ++ ls) (pending r) (simulated r) (crossings r).
Definition produceCrossings (e : issueEvent) : rec :=
  mkRec (curId r) (state r) (gapCycles r) (er r) (lastEvProduced r) (futureResponses r) (lastEvSimulatedZllStartCycle r)
    (lastEvSimulatedStartCycle r) (totalGapCycles r) (totalHaltedCycles r) (lastUnhaltedCycle r) (domain r)
    (links r) (pending r) (simulated r) (crossings r ++ [NIssue (ie_id e)]).
Definition set_last (zll start : Z) (l : option issueEvent) (slack : Z) : rec :=
  mkRec (curId r) (state r) (gapCycles r) (Timing.setStartSlack slack (er r)) l (futureResponses r) zll start
    (totalGapCycles r) (totalHaltedCycles r) (lastUnhaltedCycle r) (domain r) (links r) (pending r) (simulated r) (crossings r).
Definition set_halted (c : Z) : rec :=
  mkRec (curId r) HALTED (gapCycles r) (er r) (lastEvProduced r) (futureResponses r) (lastEvSimulatedZllStartCycle r)
    (lastEvSimulatedStartCycle r) (totalGapCycles r) (totalHaltedCycles r) c (domain r) (links r) (pending r)
    (simulated r) (crossings r).
Definition set_pending (l : list issueEvent) (sim : list nat) : rec :=
  mkRec (curId r) (state r) (gapCycles r) (er r) (lastEvProduced r) (futureResponses r) (lastEvSimulatedZllStartCycle r)
    (lastEvSimulatedStartCycle r) (totalGapCycles r) (totalHaltedCycles r) (lastUnhaltedCycle r) (domain r)
    (links r) l sim (crossings r).
End fields.

Definition new (dom : Z) (source : nat) : rec :=
  mkRec 0 HALTED 0 (Timing.setGapCycles 0 (Timing.mkER CoreRecorder.no_record source 0 0)) None [] 0 0 0 0 0 dom [] [] [] [].

(** ** The heap of responses *)

Fixpoint push (f : FutureResponse) (l : list FutureResponse) : list FutureResponse :=
  match l with
  | [] => [f]
  | g :: l => if fr_zll g <=? fr_zll f then g :: push f l else f :: g :: l
  end.

(** ** Issue events *)

(** The responses before [zllCycle] are taken off the heap and linked to the event
    [ev]; what is left, the links, and [maxCycle]. *)
Fixpoint linkResponses (zllCycle lastZll : Z) (ev : node) (maxCycle : Z) (l : list FutureResponse)
    : res (list FutureResponse * list link * Z) :=
  match l with
  | [] => mret ([], [], maxCycle)
  | f :: l' =>
      if zllCycle <=? fr_zll f then mret (l, [], maxCycle)
      else match fr_ev f with
      | Some id =>
          _ ← assert_that (maxCycle <=? fr_zll f);
          _ ← assert_that (lastZll <=? fr_zll f);
          '(rest, ls, m) ← linkResponses zllCycle lastZll ev (fr_zll f) l';
          mret (rest, mkLink (NResp id) 0 ev :: ls, m)
      | None => linkResponses zllCycle lastZll ev maxCycle l'
      end
  end.

Definition addIssueEvent (evCycle : Z) (r : rec) : res rec :=
  match lastEvProduced r with
  | None => Fail AssertFailed
  | Some last =>
      let zllCycle := evCycle - gapCycles r in
      _ ← assert_that (zllStartCycle last <=? zllCycle);
      let ev := NIssue (curId r) in
      '(rest, ls, maxCycle) ← linkResponses zllCycle (zllStartCycle last) ev 0 (futureResponses r);
      let preDelay := if negb (maxCycle =? 0) && (maxCycle <? zllCycle) then u32 (zllCycle - maxCycle) else 0 in
      let issueDelay := u32 (zllCycle - zllStartCycle last - preDelay) in
      let e := mkIssue (curId r) zllCycle evCycle preDelay in
      mret (add_issue (set_future r rest) e (ls ++ [mkLink (NIssue (ie_id last)) issueDelay ev]))
  end.

(** ** Methods called in the bound phase *)

Definition notifyJoin (globPhaseCycles curCycle : Z) (r : rec) : res (Z * rec) :=
  match state r with
  | HALTED =>
      _ ← assert_that (bool_decide (lastEvProduced r = None));
      let curCycle := globPhaseCycles in
      _ ← assert_that (lastUnhaltedCycle r <=? curCycle);
      let r := set_gap r 0 (totalGapCycles r + gapCycles r)
                 (totalHaltedCycles r + (curCycle - lastUnhaltedCycle r)) in
      let r := add_issue r (mkIssue (curId r) (curCycle - gapCycles r) curCycle 0) [] in
      mret (curCycle, set_state (set_er r (Timing.setStartSlack 0 (er r))) RUNNING)
  | DRAINING =>
      _ ← assert_that (globPhaseCycles <=? curCycle);
      r ← addIssueEvent curCycle r;
      mret (curCycle, set_state r RUNNING)
  | RUNNING => panic
  end.

Definition notifyLeave (curCycle : Z) (r : rec) : res rec :=
  _ ← assert_that (bool_decide (state r = RUNNING));
  let r := set_state r DRAINING in
  match lastEvProduced r with
  | None => Fail AssertFailed
  | Some last =>
      _ ← assert_that (zllStartCycle last <=? curCycle - gapCycles r);
      addIssueEvent curCycle r
  end.

(** The links of a response that precedes the dispatch at [zllDispatchCycle]. *)
Definition dispatchLink (zllDispatchCycle : Z) (disp : node) (f : FutureResponse) : option link :=
  match fr_ev f with
  | Some id =>
      if fr_zll f <? zllDispatchCycle
      then Some (mkLink (NResp id) (u32 (zllDispatchCycle - fr_zll f)) disp) else None
  | None => None
  end.

Definition recordGet (curCycle dispatchCycle resp : Z) (tr : TimingRecord) (start fin : nat) (r : rec) : res rec :=
  r ← addIssueEvent curCycle r;
  match lastEvProduced r with
  | None => Fail AssertFailed
  | Some last =>
      let disp := NDisp (curId r) in
      let zllDispatchCycle := dispatchCycle - gapCycles r in
      let before := omap (dispatchLink zllDispatchCycle disp) (futureResponses r) in
      _ ← assert_that (respCycle tr <=? resp);
      let respEv := S (curId r) in
      let ls := before ++ [mkLink (NIssue (ie_id last)) (u32 (dispatchCycle - curCycle)) disp;
                  mkLink disp (u32 (reqCycle tr - dispatchCycle)) (NEvent start);
                  mkLink (NEvent fin) (u32 (resp - respCycle tr)) (NResp respEv)] in
      let r := add_links r 2 ls in
      mret (set_future r (push (mkFR (resp - gapCycles r) (Some respEv)) (futureResponses r)))
  end.

Definition recordAccess (curCycle dispatchCycle resp : Z) (r : rec) : res rec :=
  _ ← assert_that (Timing.hasRecord (er r));
  let '(tr, e) := Timing.popRecord (er r) in
  let r := set_er r e in
  r ← (if IsGet (tr_type tr) then
         match startEvent tr, endEvent tr with
         | Some start, Some fin => recordGet curCycle dispatchCycle resp tr start fin r
         | _, _ => Fail AssertFailed
         end
       else
         _ ← assert_that (IsPut (tr_type tr));
         match lastEvProduced r, startEvent tr with
         | Some last, Some start =>
             mret (add_links r 0 [mkLink (NIssue (ie_id last)) (u32 (reqCycle tr - curCycle)) (NEvent start)])
         | _, _ => Fail AssertFailed
         end);
  match lastEvProduced r with
  | None => Fail AssertFailed
  | Some last => mret (produceCrossings r last)
  end.

Definition record (curCycle dispatchCycle resp : Z) (r : rec) : res rec :=
  if Timing.hasRecord (er r) then recordAccess curCycle dispatchCycle resp r else mret r.

(** ** Methods called between the phases, and in the weave phase *)

Definition cSimStart (globPhaseCycles phaseLength curCycle : Z) (r : rec) : res (Z * rec) :=
  let nextPhaseCycle := globPhaseCycles + phaseLength in
  match state r with
  | HALTED => mret (curCycle, r)
  | RUNNING =>
      _ ← assert_that (nextPhaseCycle <? curCycle);
      match lastEvProduced r with
      | None => Fail AssertFailed
      | Some last =>
          _ ← assert_that (zllStartCycle last <=? curCycle - gapCycles r);
          r ← (if zllStartCycle last <? nextPhaseCycle - gapCycles r
               then addIssueEvent nextPhaseCycle r else mret r);
          mret (curCycle, r)
      end
  | DRAINING =>
      mret (if curCycle <? nextPhaseCycle then nextPhaseCycle else curCycle, set_future r [])
  end.

(** A response that was simulated is forgotten. *)
Definition forget (sim : list nat) (f : FutureResponse) : FutureResponse :=
  match fr_ev f with
  | Some id => if decide (id ∈ sim) then mkFR (fr_zll f) None else f
  | None => f
  end.

Definition cSimEnd (curCycle : Z) (r : rec) : res (Z * rec) :=
  if bool_decide (state r = HALTED) then mret (curCycle, r)
  else
    let lastEvCycle1 := lastEvSimulatedZllStartCycle r + gapCycles r in
    let lastEvCycle2 := lastEvSimulatedStartCycle r in
    _ ← assert_that (lastEvCycle1 <=? curCycle);
    _ ← assert_that (lastEvCycle2 <=? curCycle);
    if lastEvCycle2 <? lastEvCycle1 then panic
    else
      let skew := lastEvCycle2 - lastEvCycle1 in
      let curCycle := curCycle + skew in
      let r := set_gap r (gapCycles r + skew) (totalGapCycles r) (totalHaltedCycles r) in
      let r := set_future r (map (forget (simulated r)) (futureResponses r)) in
      match lastEvProduced r with
      | Some _ => mret (curCycle, r)
      | None =>
          _ ← assert_that (bool_decide (state r = DRAINING));
          let r := set_halted r (lastEvSimulatedStartCycle r) in
          _ ← assert_that (bool_decide (length (futureResponses r) = 0%nat));
          mret (curCycle, r)
      end.

Definition reportIssueEventSimulated (e : issueEvent) (startCycle : Z) (r : rec) : rec :=
  let last := match lastEvProduced r with
    | Some l => if decide (ie_id l = ie_id e) then None else Some l
    | None => None
    end in
  set_last r (zllStartCycle e) startCycle last (startCycle - zllStartCycle e).

Definition getUnhaltedCycles (globPhaseCycles curCycle : Z) (r : rec) : Z :=
  let cycle := Z.max curCycle globPhaseCycles in
  let haltedCycles := totalHaltedCycles r +
    (if bool_decide (state r = HALTED) then cycle - lastUnhaltedCycle r else 0) in
  cycle - haltedCycles.

Definition getContentionCycles (r : rec) : Z := totalGapCycles r + gapCycles r.

(** ** A core and its recorder, phase by phase

    In the bound phase the thread of the core joins, runs and leaves; the core records an
    access at its cycle [cur], with the cycles of the dispatch and of the response, and then
    moves its clock to a later cycle.  In the weave phase an issue event starts no earlier
    than its parents and their delays allow, and responses are simulated at any time: the
    contention model behind them is not part of the recorder.  [started] has the cycles at
    which events started, [fresh] says that the first event since the thread joined, which
    has no parent and was queued at its cycle, was not simulated yet. *)

Record sys := mkSys {
  rc : rec;
  cur : Z;
  glob : Z;
  weaving : bool;
  started : node -> option Z;
  prevId : nat (* the issue event simulated last *);
  fresh : bool;
  zll : Z
}.

Record access := mkAccess { a_tr : TimingRecord; a_dispatch : Z; a_resp : Z }.

Inductive sysop :=
  | Join
  | Run (cur' : Z) (o : option access)
  | Leave
  | StartWeave
  | SimIssue (t : Z)
  | SimResp (id : nat) (t : Z)
  | EndWeave.

Section System.
Context (PL : Z) (PL_pos : 0 < PL).

Definition limit (s : sys) : Z := glob s + PL.

Definition simIssue (t : Z) (s : sys) : res sys :=
  match pending (rc s) with
  | [] => mret s
  | e :: l =>
      _ ← assert_that (minStartCycle e <=? t);
      let r := reportIssueEventSimulated e t (set_pending (rc s) l (simulated (rc s))) in
      mret (mkSys r (cur s) (glob s) (weaving s) (<[NIssue (ie_id e) := Some t]> (started s)) (ie_id e) false (zll s))
  end.

Definition run (o : sysop) (s : sys) : res sys :=
  match o with
  | Join =>
      '(c, r) ← notifyJoin (glob s) (cur s) (rc s);
      mret (if decide (state (rc s) = HALTED)
            then mkSys r c (glob s) (weaving s) (started s) (prevId s) true c
            else mkSys r c (glob s) (weaving s) (started s) (prevId s) (fresh s) (zll s))
  | Run cur' o =>
      r ← match o with
          | Some a => e ← Timing.pushRecord (a_tr a) (er (rc s));
                      record (cur s) (a_dispatch a) (a_resp a) (set_er (rc s) e)
          | None => mret (rc s)
          end;
      mret (mkSys r cur' (glob s) (weaving s) (started s) (prevId s) (fresh s) (zll s + (cur' - cur s)))
  | Leave =>
      r ← notifyLeave (cur s) (rc s);
      mret (mkSys r (cur s) (glob s) (weaving s) (started s) (prevId s) (fresh s) (zll s))
  | StartWeave =>
      '(c, r) ← cSimStart (glob s) PL (cur s) (rc s);
      mret (mkSys r c (glob s) true (started s) (prevId s) (fresh s) (zll s + (c - cur s)))
  | SimIssue t => simIssue t s
  | SimResp id t =>
      mret (mkSys (set_pending (rc s) (pending (rc s)) (id :: simulated (rc s))) (cur s) (glob s) (weaving s)
              (<[NResp id := Some t]> (started s)) (prevId s) (fresh s) (zll s))
  | EndWeave =>
      '(c, r) ← cSimEnd (cur s) (rc s);
      mret (mkSys r c (glob s + PL) false (started s) (prevId s) (fresh s) (zll s))
  end.

Definition good_access (c : Z) (a : access) : Prop :=
  c <= a_dispatch a <= reqCycle (a_tr a) /\ reqCycle (a_tr a) <= respCycle (a_tr a) <= a_resp a /\
  is_Some (startEvent (a_tr a)) /\ is_Some (endEvent (a_tr a)).

(** The cycle [c] is less than 2^32 cycles past the last issue event. *)
Definition near (c : Z) (r : rec) : Prop :=
  match lastEvProduced r with
  | Some last => c - gapCycles r - zllStartCycle last < 2 ^ 32
  | None => True
  end.

(** The issue event [e] may start at [t]: its parents are done, with their delays. *)
Definition may_start (e : issueEvent) (t : Z) (s : sys) : Prop :=
  if fresh s then t = minStartCycle e
  else forall l, l ∈ links (rc s) -> dst l = NIssue (ie_id e) ->
    exists c, started s (src l) = Some c /\ c + delay l + preDelay e <= t.

Definition may (o : sysop) (s : sys) : Prop :=
  match o with
  | Join => weaving s = false /\ state (rc s) <> RUNNING /\ near (cur s) (rc s)
  | Run cur' o => weaving s = false /\ state (rc s) = RUNNING /\ cur s <= cur' /\ near cur' (rc s) /\
      match o with Some a => good_access (cur s) a | None => True end
  | Leave => weaving s = false /\ state (rc s) = RUNNING
  | StartWeave => weaving s = false /\ (state (rc s) = RUNNING -> limit s < cur s)
  | SimIssue t => weaving s = true /\ t < limit s /\
      match pending (rc s) with [] => False | e :: _ => may_start e t s end
  | SimResp id t => weaving s = true
  | EndWeave => weaving s = true /\ (state (rc s) = HALTED \/ fresh s = false)
  end.

Definition start (dom : Z) (source : nat) : sys :=
  mkSys (new dom source) 0 0 false (fun _ => None) 0 false 0.

Inductive reachable (dom : Z) (source : nat) : sys -> Prop :=
  | reach_start : reachable dom source (start dom source)
  | reach_run o s s' : reachable dom source s -> may o s -> run o s = Ok s' -> reachable dom source s'.
End System.
End OOOCoreRecorder.
