(* ===== verification/OooRecInv.v ===== *)
(** The recorder of the out-of-order core runs without a failed assertion, whatever the
    weave phase does, its clock moves by the delay of the last issue event, and the links it
    adds for an access carry the differences of the recorded cycles. *)
From S2P Require Import Prelude MemHier Timing CoreRec OooRec.
Import MemHier (AccessType(..), IsGet, IsPut).
Import Timing (TimingRecord, reqCycle, respCycle, tr_type, startEvent, endEvent).
Import CoreRecorder (State(..)).
#[local] Existing Instance CoreRecorder.State_eq_dec.

Module OooRecInv.
Import OOOCoreRecorder.

(** ** The heap and the links *)

(** The responses are in order, and none is before [z]. *)
Fixpoint heap_ok (z : Z) (l : list FutureResponse) : Prop :=
  match l with [] => True | f :: l => z <= fr_zll f /\ heap_ok (fr_zll f) l end.

Lemma heap_mono z z' l : z' <= z -> heap_ok z l -> heap_ok z' l.
Proof. destruct l; cbn; [done|]. intros Hz [H1 H2]. split; [lia|done]. Qed.

Lemma push_ok z f l : heap_ok z l -> z <= fr_zll f -> heap_ok z (push f l).
Proof.
  revert z. induction l as [|g l IH]; intros z; cbn; [done|]. intros [H1 H2] Hf.
  destruct (Z.leb_spec (fr_zll g) (fr_zll f)); cbn; [split; [done|by apply IH]|].
  split; [done|]. split; [lia|done].
Qed.

Lemma forget_ok sim l : forall z, heap_ok z l -> heap_ok z (map (forget sim) l).
Proof.
  induction l as [|f l IH]; intros z; cbn; [done|]. intros [H1 H2].
  assert (fr_zll (forget sim f) = fr_zll f) as E by (unfold forget; by repeat case_match).
  rewrite E. split; [done|by apply IH].
Qed.

Lemma linkResponses_ok zc lastZll ev l : forall mc, heap_ok lastZll l -> heap_ok mc l ->
  exists rest ls m, linkResponses zc lastZll ev mc l = Ok (rest, ls, m) /\ heap_ok zc rest /\
    (m = mc \/ lastZll <= m < zc) /\ Forall (fun k => exists id, src k = NResp id) ls.
Proof.
  induction l as [|f l IH]; intros mc H1 H2; cbn [linkResponses]; [exists [], [], mc; split; [done|split; [done|split; [by left|constructor]]]|].
  cbn in H1, H2. destruct (Z.leb_spec zc (fr_zll f)) as [Hle|Hgt].
  { exists (f :: l), [], mc. split; [done|]. split; [split; [done|apply H1]|]. split; [by left|constructor]. }
  destruct H1 as [H1 Hl], H2 as [H2 _].
  destruct (fr_ev f) as [id|].
  - rewrite (proj2 (Z.leb_le _ _)), (proj2 (Z.leb_le _ _)) by done. cbn [assert_that mbind res_bind].
    destruct (IH (fr_zll f)) as (rest & ls & m & E & H3 & H4 & H5); [by eapply heap_mono|done|].
    rewrite E. cbn. eexists rest, _, m. split; [done|]. split; [done|]. split; [right; lia|].
    constructor; [by eexists|done].
  - destruct (IH mc) as (rest & ls & m & E & H3 & H4 & H5); [by eapply heap_mono|by eapply heap_mono|].
    exists rest, ls, m. by rewrite E.
Qed.

(** ** The chain of issue events *)

Definition edge (ls : list link) (id : nat) (z : Z) (e : issueEvent) : Prop :=
  z <= zllStartCycle e /\
  exists d, mkLink (NIssue id) d (NIssue (ie_id e)) ∈ ls /\ d + preDelay e = zllStartCycle e - z.

(** Each event is linked to the one before, by the difference of their cycles. *)
Fixpoint chained (ls : list link) (id : nat) (z : Z) (l : list issueEvent) : Prop :=
  match l with
  | [] => True
  | e :: l => edge ls id z e /\ chained ls (ie_id e) (zllStartCycle e) l
  end.

Lemma chained_mono ls ls' l : (forall k, k ∈ ls -> k ∈ ls') -> forall id z, chained ls id z l -> chained ls' id z l.
Proof.
  intros Hs. induction l as [|e l IH]; intros id z; cbn; [done|].
  intros [[H1 (d & H2 & H3)] H4]. split; [|by apply IH]. split; [done|]. exists d. auto.
Qed.

Lemma chained_snoc ls l last e : forall id z, chained ls id z (l ++ [last]) ->
  edge ls (ie_id last) (zllStartCycle last) e -> chained ls id z ((l ++ [last]) ++ [e]).
Proof.
  induction l as [|a l IH]; intros id z; cbn; [intros [H1 _] H2; done|].
  intros [H1 H2] H3. split; [done|]. by apply IH.
Qed.

Lemma chained_le ls l last : forall id z, chained ls id z (l ++ [last]) -> z <= zllStartCycle last.
Proof.
  induction l as [|a l IH]; intros id z; cbn; [by intros [[H _] _]|].
  intros [[H1 _] H2]. specialize (IH _ _ H2). lia.
Qed.

Definition ids_ok (r : rec) : Prop :=
  NoDup (map ie_id (pending r)) /\ Forall (fun i => (i < curId r)%nat) (map ie_id (pending r)).

(** What the building of events leaves alone. *)
Definition base (r : rec) := (state r, gapCycles r, er r, lastEvSimulatedZllStartCycle r,
  lastEvSimulatedStartCycle r, totalGapCycles r, totalHaltedCycles r, lastUnhaltedCycle r, simulated r).

(** The last event produced is the last one pending, at the cycle [c] or before; the heap
    has the responses from there on. *)
Record built (c : Z) (r : rec) : Prop := {
  bt_last : exists l e, pending r = l ++ [e] /\ lastEvProduced r = Some e /\
    0 <= zllStartCycle e <= c - gapCycles r /\ heap_ok (zllStartCycle e) (futureResponses r);
  bt_gap : 0 <= gapCycles r;
  bt_ids : ids_ok r;
  bt_min : Forall (fun e => minStartCycle e <= zllStartCycle e + gapCycles r) (pending r)
}.

(** [r'] has more events than [r], each linked to the one before. *)
Record extends (r r' : rec) : Prop := {
  ex_base : base r' = base r;
  ex_links : exists ls, links r' = links r ++ ls;
  ex_pending : exists l, pending r' = pending r ++ l;
  ex_chain id z : chained (links r) id z (pending r) -> chained (links r') id z (pending r');
  ex_tail e l : pending r = e :: l -> exists l', pending r' = e :: l' /\
    (chained (links r) (ie_id e) (zllStartCycle e) l -> chained (links r') (ie_id e) (zllStartCycle e) l')
}.

Lemma addIssue_ok c r : built c r -> near c r ->
  exists r' e, addIssueEvent c r = Ok r' /\ built c r' /\ extends r r' /\ lastEvProduced r' = Some e /\
    zllStartCycle e = c - gapCycles r.
Proof.
  intros [(l & last & Hp & Hl & Hz & Hh) Hg Hi Hm] Hn. unfold near in Hn. rewrite Hl in Hn.
  unfold addIssueEvent. rewrite Hl. rewrite (proj2 (Z.leb_le _ _)) by lia. cbn [assert_that mbind res_bind].
  set (zc := c - gapCycles r) in *.
  destruct (linkResponses_ok zc (zllStartCycle last) (NIssue (curId r)) (futureResponses r) 0 Hh
    ltac:(eapply heap_mono; [|exact Hh]; lia)) as (rest & ls & m & E & H1 & H2 & _).
  rewrite E. cbn [mbind res_bind].
  set (pd := if negb (m =? 0) && (m <? zc) then u32 (zc - m) else 0).
  assert (0 <= pd <= zc - zllStartCycle last) as Hpd.
  { unfold pd. destruct (Z.eqb_spec m 0), (Z.ltb_spec m zc); cbn [negb andb]; try lia.
    destruct H2 as [->|H2]; [done|]. rewrite u32_id by (unfold in_u32; lia). lia. }
  set (e := mkIssue (curId r) zc c pd). set (dl := u32 _).
  assert (dl = zc - zllStartCycle last - pd) as Hdl by (unfold dl; rewrite u32_id by (unfold in_u32; lia); done).
  set (ls' := ls ++ [mkLink (NIssue (ie_id last)) dl (NIssue (curId r))]).
  assert (edge (links r ++ ls') (ie_id last) (zllStartCycle last) e) as Hedge.
  { split; [cbn; lia|]. exists dl. split; [|cbn; lia]. apply elem_of_app. right. apply elem_of_app. right. by left. }
  assert (forall k, k ∈ links r -> k ∈ links r ++ ls') as Hsub by (intros k Hk; apply elem_of_app; by left).
  eexists _, e. split; [done|]. split; [|split; [|done]].
  - split; cbn; try done.
    + exists (pending r), e. split_and!; try done; cbn; lia.
    + destruct Hi as [I1 I2]. unfold ids_ok. cbn. rewrite map_app. cbn. split.
      * apply NoDup_app. split; [done|]. split; [|apply NoDup_singleton].
        intros i Hin ->%list_elem_of_singleton. rewrite Forall_forall in I2. specialize (I2 _ Hin). lia.
      * apply Forall_app. split; [|constructor; [lia|done]]. eapply Forall_impl; [exact I2|]. cbn. lia.
    + apply Forall_app. split; [done|]. constructor; [|done]. cbn. lia.
  - split; cbn; try done; [by eexists|by eexists| |].
    + intros id z Hc. rewrite Hp in *. apply chained_snoc; [|done]. by eapply chained_mono.
    + intros a l' Ha. rewrite Ha. exists (l' ++ [e]). split; [done|]. intros Hc.
      assert (l' = [] \/ exists l2, l' = l2 ++ [last]) as [->|[l2 ->]].
      { rewrite Hp in Ha. destruct l as [|b l2]; injection Ha as <- <-; [by left|]. right. by exists l2. }
      * rewrite Hp in Ha. assert (last = a) as -> by (destruct l as [|? [|]]; by injection Ha). by split.
      * apply chained_snoc; [|done]. by eapply chained_mono.
Qed.

Lemma extends_refl r r' : base r' = base r -> (exists ls, links r' = links r ++ ls) -> pending r' = pending r -> extends r r'.
Proof.
  intros H1 [ls H2] H3.
  assert (forall k, k ∈ links r -> k ∈ links r') as Hsub by (rewrite H2; intros k Hk; apply elem_of_app; by left).
  split; [done|by exists ls|by exists []; rewrite app_nil_r| |].
  - intros id z Hc. rewrite H3. by eapply chained_mono.
  - intros e l E. exists l. rewrite H3. split; [done|]. by apply chained_mono.
Qed.

Lemma extends_trans r1 r2 r3 : extends r1 r2 -> extends r2 r3 -> extends r1 r3.
Proof.
  intros [A1 [l1 B1] [p1 P1] C1 D1] [A2 [l2 B2] [p2 P2] C2 D2]. split.
  - congruence.
  - exists (l1 ++ l2). by rewrite B2, B1, app_assoc.
  - exists (p1 ++ p2). by rewrite P2, P1, app_assoc.
  - auto.
  - intros e l E. destruct (D1 e l E) as (l' & E' & H1). destruct (D2 e l' E') as (l'' & E'' & H2). eauto.
Qed.

Lemma built_mono c c' r : c <= c' -> built c r -> built c' r.
Proof.
  intros Hc [(l & e & H1 & H2 & H3 & H4) H5 H6 H7]. split; [|done..]. exists l, e. split_and!; [done|done|lia|lia|done].
Qed.

Lemma built_er c r e : built c r -> built c (set_er r e).
Proof. intros [H1 H2 H3 H4]. by split. Qed.

Lemma near_er c r e : near c r -> near c (set_er r e).
Proof. done. Qed.

Lemma built_state c r s : built c r -> built c (set_state r s).
Proof. intros [H1 H2 H3 H4]. by split. Qed.

Lemma extends_state r r' st : extends r r' -> extends (set_state r st) (set_state r' st).
Proof.
  intros [H1 H2 H3 H4 H5]. split; try done. unfold base in *. cbn. congruence.
Qed.

(** A new issue event at [c] keeps what is near. *)
Lemma near_add c c' r r' e : built c r -> near c' r -> gapCycles r' = gapCycles r ->
  lastEvProduced r' = Some e -> zllStartCycle e = c - gapCycles r -> near c' r'.
Proof.
  intros [(l & last & _ & Hl & Hz & _) _ _ _] Hn Hg He Hze. unfold near in *. rewrite He, Hg, Hze. rewrite Hl in Hn. lia.
Qed.

Definition after_pop (r : rec) : rec := set_er r (Timing.popRecord (er r)).2.

Lemma ooo_record_ok c c' a r : built c r -> near c r -> near c' r -> c <= c' -> Timing.hasRecord (er r) = true ->
  Timing.er_tr (er r) = a_tr a -> good_access c a ->
  exists r', record c (a_dispatch a) (a_resp a) r = Ok r' /\ built c r' /\ near c' r' /\ extends (after_pop r) r'.
Proof.
  intros Hb Hn Hn' Hc Hrec Htr (G1 & G2 & [sv G3] & [fv G4]). unfold record. rewrite Hrec.
  unfold recordAccess. rewrite Hrec. cbn [assert_that mbind res_bind Timing.popRecord].
  set (r0 := set_er r _). change r0 with (after_pop r). clear r0. rewrite Htr.
  assert (built c (after_pop r)) as Hb0 by (by apply built_er).
  pose proof Hb0 as [(l & last & Hp & Hl & Hz & Hh) Hg Hi Hm]. rewrite G3, G4.
  destruct (IsGet (tr_type (a_tr a))) eqn:Eg.
  - unfold recordGet. destruct (addIssue_ok c (after_pop r) Hb0 Hn) as (r1 & e & E1 & Hb1 & Hx1 & Hl1 & Hz1).
    rewrite E1. cbn [mbind res_bind]. rewrite Hl1. rewrite (proj2 (Z.leb_le _ _)) by lia.
    cbn [assert_that mbind res_bind mret res_ret lastEvProduced set_future add_links]. rewrite Hl1.
    pose proof (ex_base _ _ Hx1) as Bs. unfold base in Bs. injection Bs as B1 B2 B3 B4 B5 B6 B7 B8 B9.
    eexists. split; [done|]. split; [|split].
    + destruct Hb1 as [(l1 & e1 & P1 & P2 & P3 & P4) P5 [P6 P7] P8]. rewrite Hl1 in P2. injection P2 as <-.
      split; cbn; try done.
      * exists l1, e. split_and!; try done; try lia. apply push_ok; [done|]. cbn. lia.
      * split; [done|]. cbn. eapply Forall_impl; [exact P7|]. cbn. lia.
    + eapply (near_add c c' (after_pop r)); [exact Hb0|exact Hn'|exact B2|exact Hl1|exact Hz1].
    + eapply extends_trans; [exact Hx1|]. apply extends_refl; [done|by eexists|done].
  - assert (IsPut (tr_type (a_tr a)) = true) as -> by (by destruct (tr_type (a_tr a))).
    cbn [assert_that mbind res_bind]. rewrite Hl. cbn [mbind res_bind mret res_ret add_links lastEvProduced]. rewrite Hl.
    eexists. split; [done|]. split; [|split].
    + split; cbn; try done. by exists l, last.
    + unfold near in *. cbn in *. done.
    + apply extends_refl; [done|by eexists|done].
Qed.

(** ** The links an access adds

    [q] is a response that is on the heap of [r] before the cycle [z]. *)
Definition before (z : Z) (l : list FutureResponse) (f : FutureResponse) (q : nat) : Prop :=
  f ∈ l /\ fr_ev f = Some q /\ fr_zll f < z.

(** The issue event [e] made at [c]: it follows the last one, after the difference of their
    cycles, and every response before it, [preDelay] cycles after the last of these. *)
Record issued (c : Z) (r : rec) (e : issueEvent) (ls : list link) (rest : list FutureResponse) : Prop := {
  is_at : ie_id e = curId r /\ zllStartCycle e = c - gapCycles r /\ minStartCycle e = c;
  is_links k : k ∈ ls <->
    (exists last, lastEvProduced r = Some last /\
       k = mkLink (NIssue (ie_id last)) (zllStartCycle e - zllStartCycle last - preDelay e) (NIssue (ie_id e))) \/
    (exists f q, before (zllStartCycle e) (futureResponses r) f q /\ k = mkLink (NResp q) 0 (NIssue (ie_id e)));
  is_rest : rest = filter (fun f => zllStartCycle e <= fr_zll f) (futureResponses r);
  is_pre_le f q : before (zllStartCycle e) (futureResponses r) f q -> preDelay e <= zllStartCycle e - fr_zll f;
  is_pre : preDelay e = 0 \/ exists f q, before (zllStartCycle e) (futureResponses r) f q /\
    preDelay e = zllStartCycle e - fr_zll f
}.

(** What recording the access [a] adds.  A read: its issue event, the dispatch [a_dispatch]
    after it and after the responses in between, then the request, and the response after
    the end of the request.  A writeback: its request. *)
Definition recorded (c : Z) (a : access) (r r' : rec) : Prop :=
  let i := curId r in let disp := S i in let resp := S disp in
  if IsGet (tr_type (a_tr a)) then
    exists e ls rest waits start fin, issued c r e ls rest /\
      startEvent (a_tr a) = Some start /\ endEvent (a_tr a) = Some fin /\
      pending r' = pending r ++ [e] /\ lastEvProduced r' = Some e /\
      (forall k, k ∈ waits <-> exists f q, before (a_dispatch a - gapCycles r) rest f q /\
         k = mkLink (NResp q) (a_dispatch a - gapCycles r - fr_zll f) (NDisp disp)) /\
      links r' = links r ++ ls ++ waits ++
        [mkLink (NIssue i) (a_dispatch a - c) (NDisp disp);
         mkLink (NDisp disp) (reqCycle (a_tr a) - a_dispatch a) (NEvent start);
         mkLink (NEvent fin) (a_resp a - respCycle (a_tr a)) (NResp resp)] /\
      futureResponses r' = push (mkFR (a_resp a - gapCycles r) (Some resp)) rest
  else
    exists last start, lastEvProduced r = Some last /\ startEvent (a_tr a) = Some start /\
      pending r' = pending r /\ futureResponses r' = futureResponses r /\
      links r' = links r ++ [mkLink (NIssue (ie_id last)) (reqCycle (a_tr a) - c) (NEvent start)].

(** The delays of the access fit the events' 32-bit counters. *)
Definition short (c : Z) (a : access) : Prop :=
  reqCycle (a_tr a) - c < 2 ^ 32 /\ a_resp a - respCycle (a_tr a) < 2 ^ 32.

Lemma filter_heap zc l : forall z, heap_ok z l -> zc <= z -> filter (fun f => zc <= fr_zll f) l = l.
Proof.
  induction l as [|f l IH]; intros z; cbn [heap_ok]; [done|]. intros [H1 H2] Hz.
  rewrite filter_cons_True by lia. f_equal. eapply IH; [exact H2|lia].
Qed.

Lemma linkResponses_links zc lastZll ev l : forall mc rest ls m, heap_ok lastZll l -> heap_ok mc l ->
  linkResponses zc lastZll ev mc l = Ok (rest, ls, m) ->
  rest = filter (fun f => zc <= fr_zll f) l /\
  (forall k, k ∈ ls <-> exists f q, before zc l f q /\ k = mkLink (NResp q) 0 ev) /\
  mc <= m /\ (forall f q, before zc l f q -> fr_zll f <= m) /\
  (m = mc \/ exists f q, before zc l f q /\ m = fr_zll f).
Proof.
  unfold before. induction l as [|f l IH]; intros mc rest ls m H1 H2; cbn [linkResponses].
  { intros [= <- <- <-]. split_and!; [done| |lia| |by left].
    - intros k. split; [by intros ?%not_elem_of_nil|]. by intros (f & q & (?%not_elem_of_nil & _) & _).
    - by intros f q (?%not_elem_of_nil & _). }
  cbn [heap_ok] in H1, H2. destruct (Z.leb_spec zc (fr_zll f)) as [Hle|Hgt].
  { intros [= <- <- <-].
    assert (heap_ok zc (f :: l)) as Hh by (split; [done|apply H1]).
    assert (forall g q, ~ (g ∈ f :: l /\ fr_ev g = Some q /\ fr_zll g < zc)) as Hno.
    { intros g q (Hg & _ & Hlt). rewrite <- (filter_heap zc _ zc Hh ltac:(lia)) in Hg.
      apply list_elem_of_filter in Hg as [Hg _]. lia. }
    split_and!; [by rewrite (filter_heap zc _ zc)| |lia| |by left].
    - intros k. split; [by intros ?%not_elem_of_nil|]. intros (g & q & Hg & _). by destruct (Hno g q).
    - intros g q Hg. by destruct (Hno g q). }
  destruct H1 as [H1 Hl], H2 as [H2 _]. rewrite filter_cons_False by lia.
  destruct (fr_ev f) as [id|] eqn:Ef.
  - rewrite (proj2 (Z.leb_le _ _)), (proj2 (Z.leb_le _ _)) by done. cbn [assert_that mbind res_bind].
    destruct (linkResponses _ _ _ _ l) as [[[rest' ls'] m']|] eqn:E; [|done]. cbn [mbind res_bind mret res_ret].
    intros [= <- <- <-].
    destruct (IH (fr_zll f) rest' ls' m') as (I1 & I2 & I3 & I4 & I5); [by eapply heap_mono|done|done|].
    split_and!; [done| |lia| |].
    + intros k. rewrite elem_of_cons, I2. split.
      * intros [->|(g & q & (G1 & G2 & G3) & ->)]; [exists f, id|exists g, q]; split_and!; try done; [by left|by right].
      * intros (g & q & ([->|G1]%elem_of_cons & G2 & G3) & ->); [left; congruence|right; by exists g, q].
    + intros g q ([->|G1]%elem_of_cons & G2 & G3); [lia|by eapply I4].
    + right. destruct I5 as [->|(g & q & (G1 & G2 & G3) & ->)]; [exists f, id|exists g, q]; split_and!; try done; [by left|by right].
  - intros E. destruct (IH mc rest ls m) as (I1 & I2 & I3 & I4 & I5); [by eapply heap_mono|by eapply heap_mono|done|].
    assert (forall g q, (g ∈ f :: l /\ fr_ev g = Some q /\ fr_zll g < zc) <-> (g ∈ l /\ fr_ev g = Some q /\ fr_zll g < zc)) as Heq.
    { intros g q. rewrite elem_of_cons. split; [|tauto]. intros ([->|G1] & G2 & G3); [congruence|done]. }
    setoid_rewrite Heq. split_and!; done.
Qed.

Lemma addIssue_links c r r' : built c r -> near c r -> addIssueEvent c r = Ok r' ->
  exists e ls rest, issued c r e ls rest /\ r' = add_issue (set_future r rest) e ls.
Proof.
  intros [(l & last & _ & Hl & Hz & Hh) Hg _ _] Hn. unfold near in Hn. rewrite Hl in Hn.
  unfold addIssueEvent. rewrite Hl. rewrite (proj2 (Z.leb_le _ _)) by lia. cbn [assert_that mbind res_bind].
  set (zc := c - gapCycles r) in *.
  destruct (linkResponses zc _ _ 0 _) as [[[rest ls] m]|] eqn:E; [|done]. cbn [mbind res_bind mret res_ret].
  destruct (linkResponses_links _ _ _ _ 0 _ _ _ Hh ltac:(eapply heap_mono; [|exact Hh]; lia) E)
    as (I1 & I2 & I3 & I4 & I5).
  assert (m = 0 \/ zllStartCycle last <= m < zc) as Hm.
  { destruct I5 as [->|(f & q & (G1 & G2 & G3) & ->)]; [by left|right]. split; [|done].
    rewrite <- (filter_heap (zllStartCycle last) _ _ Hh) in G1 by lia. by apply list_elem_of_filter in G1 as [G1 _]. }
  set (pd := if negb (m =? 0) && (m <? zc) then u32 (zc - m) else 0).
  assert (pd = if decide (m = 0) then 0 else zc - m) as Hpd.
  { unfold pd. destruct (Z.eqb_spec m 0), (decide (m = 0)); cbn [negb andb]; try lia.
    rewrite (proj2 (Z.ltb_lt _ _)) by lia. rewrite u32_id by (unfold in_u32; lia). lia. }
  assert (0 <= pd <= zc - zllStartCycle last) as Hpd2 by (rewrite Hpd; case_decide; lia).
  intros [= <-]. eexists _, _, rest. split; [|done]. split; cbn.
  - done.
  - intros k. rewrite elem_of_app, list_elem_of_singleton, I2, u32_id by (unfold in_u32; lia).
    split; [intros [H| ->]; [by right|left; by exists last]|]. intros [(la & E1 & ->)|H]; [right|by left].
    rewrite Hl in E1. by injection E1 as <-.
  - exact I1.
  - intros f q Hf. specialize (I4 f q Hf). destruct Hf as (_ & _ & Hf). fold zc in Hf. rewrite Hpd. case_decide; lia.
  - rewrite Hpd. case_decide as Hm0; [by left|right]. destruct I5 as [->|(f & q & Hf & ->)]; [done|]. by exists f, q.
Qed.

Lemma issued_er c r x e ls rest : issued c (set_er r x) e ls rest -> issued c r e ls rest.
Proof. intros [A B C D E]. split; [exact A|exact B|exact C|exact D|exact E]. Qed.

Lemma record_links c a r r' : built c r -> near c r -> Timing.hasRecord (er r) = true ->
  Timing.er_tr (er r) = a_tr a -> good_access c a -> short c a ->
  record c (a_dispatch a) (a_resp a) r = Ok r' -> recorded c a r r'.
Proof.
  intros Hb Hn Hrec Htr (G1 & G2 & [sv G3] & [fv G4]) [S1 S2]. unfold record. rewrite Hrec.
  unfold recordAccess. rewrite Hrec. cbn [assert_that mbind res_bind Timing.popRecord].
  set (r0 := set_er r _). rewrite Htr.
  assert (built c r0) as Hb0 by (by apply built_er).
  pose proof Hb0 as [(l & last & Hp & Hl & Hz & Hh) Hg _ _]. rewrite G3, G4. unfold recorded.
  destruct (IsGet (tr_type (a_tr a))) eqn:Eg.
  - unfold recordGet. destruct (addIssueEvent c r0) as [r1|] eqn:E1; [|done].
    destruct (addIssue_links c r0 r1 Hb0 Hn E1) as (e & ls & rest & Hi & ->).
    cbn [mbind res_bind add_issue set_future lastEvProduced]. rewrite (proj2 (Z.leb_le _ _)) by lia.
    cbn [assert_that mbind res_bind mret res_ret]. intros [= <-].
    pose proof (is_at _ _ _ _ _ Hi) as (A1 & A2 & A3). cbn in A1, A2.
    pose proof (is_rest _ _ _ _ _ Hi) as Hr.
    eexists e, ls, rest, (omap (dispatchLink (a_dispatch a - gapCycles r) (NDisp (S (curId r)))) rest), sv, fv.
    split; [exact (issued_er _ _ _ _ _ _ Hi)|]. split; [exact G3|].
    split; [exact G4|]. cbn. split; [reflexivity|]. split; [reflexivity|].
    split; [|split; [|done]].
    2: { rewrite A1, (u32_id (a_dispatch a - c)), (u32_id (reqCycle _ - _)), (u32_id (a_resp a - _))
           by (unfold in_u32; lia). by rewrite <- !app_assoc. }
    intros k. rewrite list_elem_of_omap. unfold before, dispatchLink. split.
    + intros (f & Hf & E). destruct (fr_ev f) as [q|] eqn:Eq; [|done].
      destruct (Z.ltb_spec (fr_zll f) (a_dispatch a - gapCycles r)) as [Hlt|]; [|done]. injection E as <-.
      exists f, q. split; [done|]. f_equal. rewrite Hr in Hf. apply list_elem_of_filter in Hf as [Hf _].
      rewrite A2 in Hf. apply u32_id. unfold in_u32. lia.
    + intros (f & q & (F1 & F2 & F3) & ->). exists f. split; [done|]. rewrite F2.
      rewrite (proj2 (Z.ltb_lt _ _)) by done. f_equal. f_equal.
      rewrite Hr in F1. apply list_elem_of_filter in F1 as [F1 _].
      rewrite A2 in F1. apply u32_id. unfold in_u32. lia.
  - assert (IsPut (tr_type (a_tr a)) = true) as -> by (by destruct (tr_type (a_tr a))).
    cbn [assert_that mbind res_bind]. rewrite Hl. cbn [mbind res_bind mret res_ret add_links lastEvProduced]. rewrite Hl.
    intros [= <-]. exists last, sv. cbn. split_and!; try done. by rewrite u32_id by (unfold in_u32; lia).
Qed.

(** ** The invariant *)

Section Inv.
Context (PL : Z) (PL_pos : 0 < PL).
Notation limit := (limit PL).
Notation may := (may PL).
Notation run := (run PL).

(** Where the weave phase stands: the first event since the join comes, or the last one
    simulated is known, and was at least the gap late. *)
Definition stage (s : sys) : Prop :=
  let r := rc s in
  if fresh s then
    exists e l, pending r = e :: l /\ gapCycles r = 0 /\ minStartCycle e = zllStartCycle e /\
      chained (links r) (ie_id e) (zllStartCycle e) l
  else
    started s (NIssue (prevId s)) = Some (lastEvSimulatedStartCycle r) /\
    chained (links r) (prevId s) (lastEvSimulatedZllStartCycle r) (pending r) /\
    lastEvSimulatedZllStartCycle r + gapCycles r <= lastEvSimulatedStartCycle r < limit s.

Record linked (s : sys) (r := rc s) : Prop := {
  lk_glob : glob s <= cur s;
  lk_zll : cur s = zll s + gapCycles r;
  lk_stage : stage s;
  lk_mode : match state r, weaving s with
    | HALTED, _ => False
    | RUNNING, false => built (cur s) r /\ near (cur s) r
    | RUNNING, true => built (cur s) r /\ near (cur s) r /\ limit s <= cur s /\
        forall e, lastEvProduced r = Some e -> limit s <= zllStartCycle e + gapCycles r
    | DRAINING, false => built (cur s) r
    | DRAINING, true => limit s <= cur s /\ futureResponses r = [] /\ 0 <= gapCycles r /\
        (built (cur s) r \/ (pending r = [] /\ lastEvProduced r = None /\ fresh s = false))
    end
}.

Definition inv (s : sys) : Prop :=
  Timing.hasRecord (er (rc s)) = false /\ 0 <= glob s /\
  if decide (state (rc s) = HALTED)
  then lastEvProduced (rc s) = None /\ pending (rc s) = [] /\ futureResponses (rc s) = [] /\
    lastUnhaltedCycle (rc s) <= glob s
  else linked s.

Lemma ooo_not_halted s : inv s -> state (rc s) <> HALTED -> linked s.
Proof. intros (_ & _ & H) Hn. by rewrite decide_False in H. Qed.

Lemma ooo_linked_inv s : Timing.hasRecord (er (rc s)) = false -> 0 <= glob s -> linked s -> inv s.
Proof.
  intros He Hg Hl. split; [done|]. split; [done|]. rewrite decide_False; [done|].
  intros E. pose proof (lk_mode _ Hl) as Hm. by rewrite E in Hm.
Qed.

Lemma stage_extends s s' r : stage s -> base (set_state r HALTED) = base (set_state (set_er (rc s) (er r)) HALTED) -> links r = links (rc s) -> pending r = pending (rc s) ->
  extends r (rc s') -> glob s' = glob s -> fresh s' = fresh s ->
  started s' = started s -> prevId s' = prevId s -> stage s'.
Proof.
  intros Hs Hr Hlk Hpk Hx Eg Ef Es Ep. unfold stage in *. unfold OOOCoreRecorder.limit in *. rewrite Ef, Es, Ep, Eg.
  pose proof (ex_base _ _ Hx) as Bs. unfold base in Bs, Hr. cbn in Hr. injection Hr as R2 R4 R5 R6 R7 R8 R9.
  injection Bs as B1 B2 B3 B4 B5 B6 B7 B8 B9. rewrite R2 in B2. rewrite R4 in B4. rewrite R5 in B5.
  destruct (fresh s).
  - destruct Hs as (e & l & H1 & H2 & H3 & H4). rewrite <- Hpk in H1. rewrite <- Hlk in H4.
    destruct (ex_tail _ _ Hx e l H1) as (l' & E & H5). exists e, l'. split; [done|]. split; [congruence|]. split; [done|]. by apply H5.
  - destruct Hs as (H1 & H2 & H3). rewrite B4, B5, B2. split; [done|]. split; [|done].
    apply (ex_chain _ _ Hx). by rewrite Hlk, Hpk.
Qed.

(** *** The bound phase *)

Lemma ooo_join_inv s : inv s -> may Join s -> exists s', run Join s = Ok s' /\ inv s'.
Proof.
  intros Hi (Hw & Hs & Hn). cbn [OOOCoreRecorder.run]. unfold notifyJoin. destruct (state (rc s)) eqn:Es; [| |].
  - destruct Hi as (He & Hg & Hi). rewrite decide_True in Hi by done. destruct Hi as (H1 & H2 & H3 & H4).
    rewrite bool_decide_true by done. rewrite (proj2 (Z.leb_le _ _)) by done.
    cbn [assert_that mbind res_bind mret res_ret]. rewrite decide_True by done. eexists. split; [done|].
    apply ooo_linked_inv; [done|done|]. split; cbn; [lia|lia| |].
    + unfold stage. cbn. rewrite H2. cbn. eexists _, []. split; [done|]. split; [done|]. split; [cbn; lia|done].
    + rewrite Hw. split; [|unfold near; cbn; lia]. split; cbn; [|lia| |].
      * exists [], (mkIssue (curId (rc s)) (glob s - 0) (glob s) 0). rewrite H2, H3. cbn. split_and!; try done; lia.
      * unfold ids_ok. cbn. rewrite H2. cbn. split; [apply NoDup_singleton|]. constructor; [lia|done].
      * rewrite H2. cbn. constructor; [cbn; lia|done].
  - done.
  - pose proof (ooo_not_halted s Hi ltac:(by rewrite Es)) as Hl. destruct Hi as (He & Hg & _).
    pose proof (lk_mode _ Hl) as Hm. rewrite Es, Hw in Hm. pose proof (lk_glob _ Hl) as Hgl.
    rewrite (proj2 (Z.leb_le _ _)) by done. cbn [assert_that mbind res_bind].
    destruct (addIssue_ok (cur s) (rc s) Hm Hn) as (r' & e & E & Hb & Hx & Hle & Hze).
    rewrite E. cbn [mbind res_bind mret res_ret]. rewrite decide_False by done. eexists. split; [done|].
    pose proof (ex_base _ _ Hx) as Bs. unfold base in Bs. injection Bs as B1 B2 B3 B4 B5 B6 B7 B8 B9.
    apply ooo_linked_inv; [cbn; by rewrite B3|done|]. split; cbn.
    + done.
    + rewrite B2. apply (lk_zll _ Hl).
    + eapply (stage_extends s _ (set_state (rc s) RUNNING)); try done; [apply (lk_stage _ Hl)|cbn].
      by apply extends_state.
    + rewrite Hw. split; [by apply built_state|]. unfold near. cbn. rewrite Hle, B2, Hze. lia.
Qed.

Lemma ooo_run_inv s cur' o : inv s -> may (Run cur' o) s -> exists s', run (Run cur' o) s = Ok s' /\ inv s'.
Proof.
  intros Hi (Hw & Hs & Hc & Hn & Ho). pose proof (ooo_not_halted s Hi ltac:(by rewrite Hs)) as Hl.
  destruct Hi as (He & Hg & _). pose proof (lk_mode _ Hl) as Hm. rewrite Hs, Hw in Hm. destruct Hm as [Hb Hnc].
  pose proof (lk_glob _ Hl) as Hgl. pose proof (lk_zll _ Hl) as Hz. cbn [OOOCoreRecorder.run]. destruct o as [a|].
  - destruct (CoreRecorder.pushRecord_ok (a_tr a) (er (rc s)) He) as (e & -> & He1 & He2).
    { by destruct Ho as (_ & _ & H3 & _). }
    cbn [mbind res_bind].
    destruct (ooo_record_ok (cur s) cur' a (set_er (rc s) e)) as (r' & -> & Hb' & Hn' & Hx);
      [by apply built_er|done|done|done|done|done|done|].
    cbn [mbind res_bind mret res_ret]. eexists. split; [done|].
    pose proof (ex_base _ _ Hx) as Bs. unfold base in Bs. cbn in Bs. injection Bs as B1 B2 B3 B4 B5 B6 B7 B8 B9.
    apply ooo_linked_inv; [cbn; rewrite B3; done|done|]. split; cbn.
    + lia.
    + rewrite B2. lia.
    + eapply (stage_extends s _ (after_pop (set_er (rc s) e))); try done. apply (lk_stage _ Hl).
    + rewrite B1, Hs, Hw. split; [by eapply built_mono|done].
  - cbn [mbind res_bind mret res_ret]. eexists. split; [done|]. apply ooo_linked_inv; [done|done|]. split; cbn.
    + lia.
    + lia.
    + apply (lk_stage _ Hl).
    + rewrite Hs, Hw. split; [by eapply built_mono|done].
Qed.

Lemma ooo_leave_inv s : inv s -> may Leave s -> exists s', run Leave s = Ok s' /\ inv s'.
Proof.
  intros Hi (Hw & Hs). pose proof (ooo_not_halted s Hi ltac:(by rewrite Hs)) as Hl.
  destruct Hi as (He & Hg & _). pose proof (lk_mode _ Hl) as Hm. rewrite Hs, Hw in Hm. destruct Hm as [Hb Hnc].
  cbn [OOOCoreRecorder.run]. unfold notifyLeave. rewrite Hs, bool_decide_true by done. cbn [assert_that mbind res_bind].
  assert (built (cur s) (set_state (rc s) DRAINING)) as Hb' by (by apply built_state).
  pose proof Hb' as [(l & last & _ & Hlast & Hz & _) _ _ _]. rewrite Hlast. rewrite (proj2 (Z.leb_le _ _)) by lia.
  cbn [assert_that mbind res_bind].
  destruct (addIssue_ok (cur s) (set_state (rc s) DRAINING) Hb' Hnc) as (r' & e & E & Hb1 & Hx & Hle & Hze).
  rewrite E. cbn [mbind res_bind mret res_ret]. eexists. split; [done|].
  pose proof (ex_base _ _ Hx) as Bs. unfold base in Bs. cbn in Bs. injection Bs as B1 B2 B3 B4 B5 B6 B7 B8 B9.
  apply ooo_linked_inv; [cbn; rewrite B3; done|done|]. split; cbn.
  - apply (lk_glob _ Hl).
  - rewrite B2. apply (lk_zll _ Hl).
  - eapply (stage_extends s _ (set_state (rc s) DRAINING)); try done. apply (lk_stage _ Hl).
  - by rewrite B1, Hw.
Qed.

(** *** Into the weave phase and out of it *)

Lemma stage_set_future s l : stage s ->
  stage (mkSys (set_future (rc s) l) (cur s) (glob s) (weaving s) (started s) (prevId s) (fresh s) (zll s)).
Proof. done. Qed.

Lemma ooo_startWeave_inv s : inv s -> may StartWeave s -> exists s', run StartWeave s = Ok s' /\ inv s'.
Proof.
  intros Hi (Hw & Hs). cbn [OOOCoreRecorder.run]. unfold cSimStart. destruct (state (rc s)) eqn:Es.
  - cbn [mbind res_bind mret res_ret]. eexists. split; [done|]. destruct Hi as (He & Hg & Hi).
    split; [done|]. split; [done|]. cbn. by rewrite decide_True in Hi |- * by done.
  - pose proof (ooo_not_halted s Hi ltac:(by rewrite Es)) as Hl. destruct Hi as (He & Hg & _). specialize (Hs eq_refl).
    pose proof (lk_mode _ Hl) as Hm. rewrite Es, Hw in Hm. destruct Hm as [Hb Hnc]. pose proof (lk_zll _ Hl) as Hz.
    pose proof (lk_glob _ Hl) as Hgl.
    unfold OOOCoreRecorder.limit in Hs. rewrite (proj2 (Z.ltb_lt _ _)) by done. cbn [assert_that mbind res_bind].
    pose proof Hb as [(l & last & Hp & Hlast & Hzl & Hh) Hgap Hids Hmin]. rewrite Hlast.
    rewrite (proj2 (Z.leb_le _ _)) by lia. cbn [assert_that mbind res_bind].
    destruct (Z.ltb_spec (zllStartCycle last) (glob s + PL - gapCycles (rc s))) as [Hlt|Hge].
    + assert (built (glob s + PL) (rc s)) as Hb1 by (split; [exists l, last; split_and!; try done; lia|done..]).
      assert (near (glob s + PL) (rc s)) as Hn1 by (unfold near in *; rewrite Hlast in *; lia).
      destruct (addIssue_ok _ _ Hb1 Hn1) as (r' & e & E & Hb2 & Hx & Hle & Hze). rewrite E. cbn [mbind res_bind mret res_ret].
      eexists. split; [done|]. pose proof (ex_base _ _ Hx) as Bs. unfold base in Bs.
      injection Bs as B1 B2 B3 B4 B5 B6 B7 B8 B9. apply ooo_linked_inv; [cbn; rewrite B3; done|done|]. split; cbn.
      * done.
      * rewrite B2. lia.
      * eapply (stage_extends s _ (rc s)); try done. apply (lk_stage _ Hl).
      * rewrite B1, Es. unfold OOOCoreRecorder.limit. cbn. split_and!.
        -- eapply built_mono; [|exact Hb2]. lia.
        -- eapply (near_add _ _ (rc s)); [exact Hb1|exact Hnc|exact B2|exact Hle|exact Hze].
        -- lia.
        -- intros e' He'. rewrite Hle in He'. injection He' as <-. rewrite B2. lia.
    + cbn [mbind res_bind mret res_ret]. eexists. split; [done|]. apply ooo_linked_inv; [done|done|]. split; cbn.
      * done.
      * lia.
      * apply (lk_stage _ Hl).
      * rewrite Es. unfold OOOCoreRecorder.limit. cbn. split_and!; [done|done|lia|].
        intros e' He'. rewrite Hlast in He'. injection He' as <-. lia.
  - pose proof (ooo_not_halted s Hi ltac:(by rewrite Es)) as Hl. destruct Hi as (He & Hg & _).
    pose proof (lk_mode _ Hl) as Hm. rewrite Es, Hw in Hm. pose proof (lk_zll _ Hl) as Hz. pose proof (lk_glob _ Hl) as Hgl.
    cbn [mbind res_bind mret res_ret]. eexists. split; [done|]. apply ooo_linked_inv; [done|done|].
    assert (built (if cur s <? glob s + PL then glob s + PL else cur s) (set_future (rc s) [])) as Hb.
    { eapply built_mono; [|].
      2: { destruct Hm as [(l & last & H1 & H2 & H3 & H4) H5 H6 H7]. split; [|done..].
           exists l, last. split_and!; [done|done|apply H3|apply H3|done]. }
      destruct (Z.ltb_spec (cur s) (glob s + PL)); lia. }
    split; cbn.
    + destruct (Z.ltb_spec (cur s) (glob s + PL)); lia.
    + lia.
    + apply (lk_stage _ Hl).
    + rewrite Es. unfold OOOCoreRecorder.limit. cbn. split; [destruct (Z.ltb_spec (cur s) (glob s + PL)); lia|].
      split; [done|]. split; [apply (bt_gap _ _ Hm)|]. by left.
Qed.

Lemma ooo_simResp_inv s id t : inv s -> may (SimResp id t) s -> exists s', run (SimResp id t) s = Ok s' /\ inv s'.
Proof.
  intros (He & Hg & Hi) Hm. eexists. split; [done|]. split; [done|]. split; [done|]. cbn.
  destruct (decide (state (rc s) = HALTED)); [done|]. destruct Hi as [L1 L2 L3 L4]. split; cbn; [done|done| |].
  - unfold stage in *. cbn. destruct (fresh s); [done|]. rewrite fn_lookup_insert_ne by done. done.
  - cbn in L4. destruct (state (rc s)); [done| |]; destruct (weaving s); try (destruct L4 as [[B1 B2 B3 B4] L4]; split; [by split|done]).
    + destruct L4 as (A1 & A2 & A3 & [[B1 B2 B3 B4]|A4]); split_and!; try done; [left; by split|by right].
    + destruct L4 as [B1 B2 B3 B4]. by split.
Qed.

(** The first pending event is simulated: it was the last one produced, or that one is still
    pending. *)
Lemma pop_built c r e l t : built c r -> pending r = e :: l ->
  let r' := reportIssueEventSimulated e t (set_pending r l (simulated r)) in
  (l = [] /\ lastEvProduced r = Some e /\ lastEvProduced r' = None) \/
  (l <> [] /\ lastEvProduced r' = lastEvProduced r /\ built c r').
Proof.
  intros [(l1 & last & H1 & H2 & H3 & H4) Hg [I1 I2] Hm] Hp r'. unfold r', reportIssueEventSimulated. cbn.
  rewrite Hp in *. cbn in I1, I2. apply NoDup_cons in I1 as [I3 I4]. apply Forall_cons in I2 as [I5 I6].
  apply Forall_cons in Hm as [_ Hm]. rewrite H2. destruct l1 as [|a l1]; cbn in H1; injection H1 as H1 H5.
  - left. subst. by rewrite decide_True.
  - right. subst. assert (ie_id last <> ie_id a) as Hne.
    { intros E. apply I3. rewrite <- E. apply list_elem_of_fmap. exists last. split; [done|]. apply elem_of_app. right. by left. }
    rewrite decide_False by done. split; [by destruct l1|]. split; [done|]. split; try done. cbn. by exists l1, last.
Qed.

(** An issue event starts no earlier than its cycle, with the gap. *)
Lemma issue_late s e l t : stage s -> pending (rc s) = e :: l -> may_start e t s -> t < limit s ->
  zllStartCycle e + gapCycles (rc s) <= t /\ chained (links (rc s)) (ie_id e) (zllStartCycle e) l.
Proof.
  intros Hs Hp Hm Ht. unfold stage, may_start in *. destruct (fresh s).
  - destruct Hs as (e' & l' & E & Hg & Hmin & Hc). rewrite Hp in E. injection E as <- <-. split; [lia|done].
  - destruct Hs as (H1 & H2 & H3 & H4). rewrite Hp in H2. destruct H2 as [[H5 (d & H6 & H7)] H8].
    destruct (Hm _ H6 eq_refl) as (c & H9 & H10). cbn in H9, H10. rewrite H1 in H9. injection H9 as <-. split; [lia|done].
Qed.

Lemma ooo_simIssue_inv s t : inv s -> may (SimIssue t) s -> exists s', run (SimIssue t) s = Ok s' /\ inv s'.
Proof.
  intros Hi (Hw & Ht & Hm). destruct (decide (state (rc s) = HALTED)) as [Hh|Hh].
  { destruct Hi as (_ & _ & Hi). rewrite decide_True in Hi by done. destruct Hi as (_ & E & _). by rewrite E in Hm. }
  pose proof (ooo_not_halted s Hi Hh) as Hl. destruct Hi as (He & Hg & _). pose proof (lk_mode _ Hl) as Hmode.
  pose proof (lk_zll _ Hl) as Hz. pose proof (lk_glob _ Hl) as Hgl.
  cbn [OOOCoreRecorder.run]. unfold simIssue. destruct (pending (rc s)) as [|e l] eqn:Ep; [done|].
  destruct (issue_late s e l t (lk_stage _ Hl) Ep Hm Ht) as [Hlate Hc].
  assert (exists c, built c (rc s) /\ (state (rc s) = RUNNING -> near (cur s) (rc s) /\ limit s <= cur s /\ c = cur s /\
      forall e, lastEvProduced (rc s) = Some e -> limit s <= zllStartCycle e + gapCycles (rc s)) /\
      (state (rc s) = DRAINING -> limit s <= cur s /\ c = cur s /\ futureResponses (rc s) = [])) as (c & Hb & Hr & Hd).
  { rewrite Hw in Hmode. destruct (state (rc s)); [done| |].
    - destruct Hmode as (B1 & B2 & B3 & B4). exists (cur s). by split_and!.
    - destruct Hmode as (B1 & B2 & B3 & [B4|(B4 & _)]); [|congruence]. exists (cur s). by split_and!. }
  assert (minStartCycle e <= t) as Hmin.
  { pose proof (bt_min _ _ Hb) as Hf. rewrite Ep in Hf. apply Forall_cons in Hf as [Hf _]. lia. }
  rewrite (proj2 (Z.leb_le _ _)) by done. cbn [assert_that mbind res_bind mret res_ret]. eexists. split; [done|].
  apply ooo_linked_inv; [done|done|]. split; cbn; [done|done| |].
  - unfold stage. cbn. rewrite fn_lookup_insert. split; [done|]. split; [done|]. unfold OOOCoreRecorder.limit in *. cbn. lia.
  - rewrite Hw. pose proof (pop_built c (rc s) e l t Hb Ep) as Hpop. cbn zeta in Hpop.
    destruct (state (rc s)) eqn:Es; [done| |].
    + destruct (Hr eq_refl) as (R1 & R2 & R3 & R4). subst c. destruct Hpop as [(_ & P2 & _)|(P1 & P2 & P3)].
      { specialize (R4 _ P2). unfold OOOCoreRecorder.limit in *. lia. }
      split; [exact P3|]. unfold near in *. cbn in P2 |- *. rewrite P2. unfold OOOCoreRecorder.limit in *. cbn. split; [exact R1|]. split; [done|].
      intros e' He'. apply R4. congruence.
    + destruct (Hd eq_refl) as (R1 & R2 & R3). subst c. unfold OOOCoreRecorder.limit in *. cbn. split; [done|]. split; [done|].
      split; [apply (bt_gap _ _ Hb)|]. destruct Hpop as [(-> & _ & P3)|(P1 & P2 & P3)]; [right; split_and!; done|left; exact P3].
Qed.

Lemma ooo_endWeave_inv s : inv s -> may EndWeave s ->
  exists s', run EndWeave s = Ok s' /\ inv s' /\
    (state (rc s) <> HALTED -> zll s' = zll s /\ cur s' - cur s = gapCycles (rc s') - gapCycles (rc s) /\
       gapCycles (rc s') = lastEvSimulatedStartCycle (rc s) - lastEvSimulatedZllStartCycle (rc s) /\
       gapCycles (rc s) <= gapCycles (rc s') /\
       state (rc s') = (if decide (pending (rc s) = []) then HALTED else state (rc s))).
Proof.
  intros Hi (Hw & Hf). cbn [OOOCoreRecorder.run]. unfold cSimEnd. destruct (decide (state (rc s) = HALTED)) as [Hh|Hh].
  { rewrite bool_decide_true by done. cbn [mbind res_bind mret res_ret]. eexists. split; [done|]. split; [|done].
    destruct Hi as (He & Hg & Hi). split; [done|]. split; [cbn; lia|]. cbn. rewrite decide_True in Hi |- * by done.
    destruct Hi as (H1 & H2 & H3 & H4). split_and!; [done|done|done|lia]. }
  rewrite bool_decide_false by done. destruct Hf as [?|Hf]; [done|].
  pose proof (ooo_not_halted s Hi Hh) as Hl. destruct Hi as (He & Hg & _). pose proof (lk_mode _ Hl) as Hm.
  pose proof (lk_zll _ Hl) as Hz. pose proof (lk_glob _ Hl) as Hgl. pose proof (lk_stage _ Hl) as Hs.
  unfold stage in Hs. rewrite Hf in Hs. destruct Hs as (S1 & S2 & S3). rewrite Hw in Hm.
  set (st := lastEvSimulatedStartCycle (rc s)) in *. set (og := lastEvSimulatedZllStartCycle (rc s)) in *.
  assert (limit s <= cur s) as Hlim by (destruct (state (rc s)); [done|apply Hm|apply Hm]).
  rewrite (proj2 (Z.leb_le (og + _) _)) by lia. rewrite (proj2 (Z.leb_le st _)) by lia.
  cbn [assert_that mbind res_bind]. rewrite (proj2 (Z.ltb_ge _ _)) by lia. cbn zeta.
  set (r1 := set_future _ _). unfold OOOCoreRecorder.limit in *.
  assert (forall c, built c (rc s) -> built (c + (st - (og + gapCycles (rc s)))) r1) as Hbuilt.
  { intros c [(l & last & P1 & P2 & P3 & P4) P5 P6 P7]. split; cbn.
    - exists l, last. split_and!; [done|done|lia|lia|by apply forget_ok].
    - lia.
    - done.
    - eapply Forall_impl; [exact P7|]. cbn. intros; lia. }
  assert ((state (rc s) = RUNNING /\ built (cur s) (rc s) /\ near (cur s) (rc s)) \/ (state (rc s) = DRAINING /\ built (cur s) (rc s)) \/
    (state (rc s) = DRAINING /\ pending (rc s) = [] /\ lastEvProduced (rc s) = None /\ futureResponses (rc s) = [])) as Hcase.
  { destruct (state (rc s)); [done|left; by destruct Hm as (? & ? & _)|].
    destruct Hm as (M1 & M2 & M3 & [M4|(M4 & M5 & M6)]); [right; left|right; right]; done. }
  change (lastEvProduced r1) with (lastEvProduced (rc s)).
  destruct Hcase as [(C1 & C2 & C3)|[(C1 & C2)|(C1 & C2 & C3 & C4)]].
  1, 2: pose proof C2 as [(l & last & P1 & P2 & _) _ _ _]; rewrite P2; cbn [mbind res_bind mret res_ret]; eexists;
    (split; [done|]); (split; [|intros _; cbn; rewrite decide_False by (rewrite P1; by destruct l); fold st og; split_and!; try done; lia]);
    (apply ooo_linked_inv; [done|cbn; lia|]); split; cbn; [lia|lia|unfold stage; cbn; rewrite Hf; fold st og;
      split_and!; [done|done|lia|unfold OOOCoreRecorder.limit; cbn; lia]|].
  - rewrite C1. split; [by apply Hbuilt|]. unfold near in *. cbn. rewrite P2 in *. lia.
  - rewrite C1. by apply Hbuilt.
  - rewrite C3. change (state r1) with (state (rc s)). rewrite C1.
    change (bool_decide (DRAINING = DRAINING)) with true. cbn [assert_that mbind res_bind].
    assert (futureResponses (set_halted r1 st) = []) as Hfut by (unfold r1; cbn; by rewrite C4).
    change (lastEvSimulatedStartCycle r1) with st. rewrite Hfut. cbn [length]. rewrite bool_decide_true by done.
    cbn [assert_that mbind res_bind mret res_ret]. eexists. split; [done|]. split.
    + split; [done|]. split; [cbn; lia|]. cbn. rewrite C4. cbn. split_and!; try done. fold st. lia.
    + intros _. cbn. rewrite decide_True by done. fold st og. split_and!; try done; lia.
Qed.

(** ** Reachable states *)

Context (dom : Z) (source : nat).

Lemma ooo_start_inv : inv (start dom source).
Proof. split; [done|]. split; [done|]. cbn. by split_and!. Qed.

Lemma ooo_run_keeps s o : inv s -> may o s -> exists s', run o s = Ok s' /\ inv s'.
Proof.
  intros Hi Hm. destruct o; [by apply ooo_join_inv|by apply ooo_run_inv|by apply ooo_leave_inv|by apply ooo_startWeave_inv|
    by apply ooo_simIssue_inv|by apply ooo_simResp_inv|]. destruct (ooo_endWeave_inv s Hi Hm) as (s' & H1 & H2 & _). by exists s'.
Qed.

Lemma ooo_reachable_inv s : reachable PL dom source s -> inv s.
Proof.
  induction 1 as [|o s s' _ IH Hm Hr]; [apply ooo_start_inv|].
  destruct (ooo_run_keeps s o IH Hm) as (s1 & H1 & H2). congruence.
Qed.

(** *** What is recorded *)

Lemma ooo_run_records s s' cur' a : inv s -> may (Run cur' (Some a)) s -> short (cur s) a ->
  run (Run cur' (Some a)) s = Ok s' -> recorded (cur s) a (rc s) (rc s').
Proof.
  intros Hi (Hw & Hs & Hc & Hn & Ho) Hsh. pose proof (ooo_not_halted s Hi ltac:(by rewrite Hs)) as Hl.
  destruct Hi as (He & Hg & _). pose proof (lk_mode _ Hl) as Hm. rewrite Hs, Hw in Hm. destruct Hm as [Hb Hnc].
  cbn [OOOCoreRecorder.run]. destruct (CoreRecorder.pushRecord_ok (a_tr a) (er (rc s)) He) as (e & -> & He1 & He2).
  { by destruct Ho as (_ & _ & H3 & _). }
  cbn [mbind res_bind].
  destruct (record (cur s) (a_dispatch a) (a_resp a) (set_er (rc s) e)) as [r'|] eqn:E; [|done].
  cbn [mbind res_bind mret res_ret]. intros [= <-]. cbn [rc].
  pose proof (record_links (cur s) a (set_er (rc s) e) r' (built_er _ _ _ Hb) Hnc He1 He2 Ho Hsh E) as Hr.
  unfold recorded in *. destruct (IsGet (tr_type (a_tr a))); [|exact Hr].
  destruct Hr as (ev & ls & rest & waits & st & fin & H1 & H2). exists ev, ls, rest, waits, st, fin.
  split; [exact (issued_er _ _ _ _ _ _ H1)|exact H2].
Qed.

(** C15: whatever accesses an out-of-order core records in its bound phases (each
    dispatched, requested and answered in that order, less than 2^32 cycles after the last
    issue event), and however late its issue events start in the weave phases, as long as
    each waits for its parents, no assertion of the recorder fails: no issue event starts
    before its minimum, contention never moves the clock back, and the end of a weave phase
    sets the gap between the two clocks to the delay of the last issue event and halts a
    core whose events are all done.  A recorded access adds exactly the links of
    [recorded]: its dispatch waits for its issue event and for every response before it,
    each by the difference of their cycles, the request and the response follow by theirs. *)
Theorem ooo_recorder_safe s o : reachable PL dom source s -> may o s ->
  exists s', run o s = Ok s' /\
    (o = EndWeave -> state (rc s) <> HALTED -> zll s' = zll s /\
       cur s' - cur s = gapCycles (rc s') - gapCycles (rc s) /\
       gapCycles (rc s') = lastEvSimulatedStartCycle (rc s) - lastEvSimulatedZllStartCycle (rc s) /\
       gapCycles (rc s) <= gapCycles (rc s') /\
       state (rc s') = (if decide (pending (rc s) = []) then HALTED else state (rc s))) /\
    (forall cur' a, o = Run cur' (Some a) -> short (cur s) a -> recorded (cur s) a (rc s) (rc s')).
Proof.
  intros Hr Hm. pose proof (ooo_reachable_inv _ Hr) as Hi. destruct (ooo_run_keeps s o Hi Hm) as (s' & H & _).
  exists s'. split; [done|]. split; [|intros cur' a -> Hsh; by eapply ooo_run_records]. intros ->. destruct (ooo_endWeave_inv s Hi Hm) as (s1 & H1 & _ & H2).
  assert (s1 = s') as -> by congruence. done.
Qed.
End Inv.

(** ** Runs, decided *)

Definition good_accessb (c : Z) (a : access) : bool :=
  (c <=? a_dispatch a) && (a_dispatch a <=? reqCycle (a_tr a)) && (reqCycle (a_tr a) <=? respCycle (a_tr a)) &&
  (respCycle (a_tr a) <=? a_resp a) && bool_decide (is_Some (startEvent (a_tr a))) && bool_decide (is_Some (endEvent (a_tr a))).
Definition nearb (c : Z) (r : rec) : bool :=
  match lastEvProduced r with Some last => c - gapCycles r - zllStartCycle last <? 2 ^ 32 | None => true end.
Definition may_startb (e : issueEvent) (t : Z) (s : sys) : bool :=
  if fresh s then t =? minStartCycle e
  else forallb (fun l => if decide (dst l = NIssue (ie_id e)) then
      match started s (src l) with Some c => c + delay l + preDelay e <=? t | None => false end
    else true) (links (rc s)).
Definition mayb (PL : Z) (o : sysop) (s : sys) : bool :=
  match o with
  | Join => negb (weaving s) && bool_decide (state (rc s) <> RUNNING) && nearb (cur s) (rc s)
  | Run cur' o => negb (weaving s) && bool_decide (state (rc s) = RUNNING) && (cur s <=? cur') && nearb cur' (rc s) &&
      match o with Some a => good_accessb (cur s) a | None => true end
  | Leave => negb (weaving s) && bool_decide (state (rc s) = RUNNING)
  | StartWeave => negb (weaving s) && (bool_decide (state (rc s) <> RUNNING) || (limit PL s <? cur s))
  | SimIssue t => weaving s && (t <? limit PL s) &&
      match pending (rc s) with [] => false | e :: _ => may_startb e t s end
  | SimResp _ _ => weaving s
  | EndWeave => weaving s && (bool_decide (state (rc s) = HALTED) || negb (fresh s))
  end.

Lemma good_accessb_ok c a : good_accessb c a = true -> good_access c a.
Proof. unfold good_accessb, good_access. rewrite !andb_true_iff, !bool_decide_eq_true, !Z.leb_le. intuition. Qed.
Lemma nearb_ok c r : nearb c r = true -> near c r.
Proof. unfold nearb, near. destruct (lastEvProduced r); [by rewrite Z.ltb_lt|done]. Qed.
Lemma may_startb_ok e t s : may_startb e t s = true -> may_start e t s.
Proof.
  unfold may_startb, may_start. destruct (fresh s); [by rewrite Z.eqb_eq|]. rewrite forallb_forall.
  intros H l Hl Hd. specialize (H l (proj1 (list_elem_of_In _ _) Hl)). rewrite decide_True in H by done.
  destruct (started s (src l)) as [c|]; [|done]. exists c. split; [done|]. by apply Z.leb_le.
Qed.
Lemma mayb_ok PL o s : mayb PL o s = true -> may PL o s.
Proof.
  destruct o; cbn; rewrite ?andb_true_iff, ?orb_true_iff, ?negb_true_iff, ?bool_decide_eq_true, ?Z.leb_le, ?Z.ltb_lt.
  - intros [[H1 H2] H3]. apply nearb_ok in H3. by split_and!.
  - intros [[[[H1 H2] H3] H4] H5]. apply nearb_ok in H4. split_and!; try done.
    destruct o; [by apply good_accessb_ok|done].
  - done.
  - intros [H1 H2]. split; [done|]. by destruct H2.
  - intros [[H1 H2] H3]. split_and!; try done. destruct (pending (rc s)); [done|by apply may_startb_ok].
  - done.
  - done.
Qed.

(** The run of a list of operations, each allowed where it is done. *)
Fixpoint run_all (PL : Z) (l : list sysop) (s : sys) : option sys :=
  match l with
  | [] => Some s
  | o :: l => if mayb PL o s then match run PL o s with Ok s' => run_all PL l s' | Fail _ => None end else None
  end.

Lemma ooo_reach_all PL dom source l : forall s s', reachable PL dom source s -> run_all PL l s = Some s' ->
  reachable PL dom source s'.
Proof.
  induction l as [|o l IH]; cbn; intros s s' Hr Hs; [by injection Hs as <-|].
  destruct (mayb PL o s) eqn:Em; [|done]. destruct (run PL o s) as [s1|] eqn:E; [|done].
  eapply IH; [|exact Hs]. eapply reach_run; [exact Hr|by apply mayb_ok|exact E].
Qed.

(** ** A read that takes longer than recorded

    Its response is recorded at cycle 160 and simulated at 300; the end of the phase waits
    for it, and starts in the next phase, 140 cycles late. *)

Definition one_read : access := mkAccess (Timing.mkTR 0 50 150 GETS (Some 0%nat) (Some 1%nat)) 20 160.
Definition two_phases : list sysop :=
  [Join; Run 300 (Some one_read); Run 1050 None; StartWeave; SimIssue 0; SimIssue 0; SimResp 3 300; EndWeave;
   Run 2100 None; StartWeave; SimIssue 1140].
Definition after (l : list sysop) : sys := default (start 0 0) (run_all 1000 l (start 0 0)).

Lemma two_phases_reachable : reachable 1000 0 0 (after two_phases).
Proof.
  apply (ooo_reach_all 1000 0 0 two_phases (start 0 0)); [constructor|]. vm_compute. reflexivity.
Qed.

Example ooo_two_gaps :
  let p := after two_phases in let s := after (two_phases ++ [EndWeave]) in
  (gapCycles (rc p), cur s, gapCycles (rc s), zll s) = (0, 2240, 140, 2100).
Proof. vm_compute. reflexivity. Qed.

(** The end of the phase could not start before its response allows. *)
Example ooo_waits : run_all 1000 (firstn 10 two_phases ++ [SimIssue 1139]) (start 0 0) = None.
Proof. vm_compute. reflexivity. Qed.

(** A core that leaves is halted when its last event was simulated. *)
Example ooo_leaves :
  let s := after [Join; Run 300 (Some one_read); Leave; StartWeave; SimIssue 0; SimIssue 0; SimResp 3 200; SimIssue 340; EndWeave] in
  (state (rc s), cur s, gapCycles (rc s), lastUnhaltedCycle (rc s)) = (HALTED, 1040, 40, 340).
Proof. vm_compute. reflexivity. Qed.

Lemma ooo_recorder_safe_witness : exists s', run 1000 EndWeave (after two_phases) = Ok s' /\ gapCycles (rc s') = 140.
Proof.
  destruct (ooo_recorder_safe 1000 ltac:(lia) 0 0 _ EndWeave two_phases_reachable) as (s' & H1 & H2 & _).
  - apply mayb_ok. vm_compute. reflexivity.
  - exists s'. split; [exact H1|]. destruct (H2 eq_refl ltac:(vm_compute; congruence)) as (_ & _ & E & _).
    rewrite E. vm_compute. reflexivity.
Defined.
End OooRecInv.
