(* ===== verification/Vantage.v ===== *)
(** The Vantage policy (part_repl_policies.h): a line belongs to a partition or to the
    unmanaged region; among the candidates of a miss, lines of partitions above their target
    that are older than a setpoint are demoted to the unmanaged region, and the victim is
    taken from there if it can be.

    The unmanaged region is the partition of index [partitions].  The coarse-grain timestamps
    are those of the 8-bit variant, which the source selects. *)
From S2P Require Import Prelude Mtrand MemHier Doubles PartMon Lookahead WayPart.
Import Rand.

Module Vantage.
Import PartMapper Cnt Doubles.

Record LineInfo := mkLine { addr : Z; ts : Z; bts : Z; p : nat; op : nat }.

(** [VantagePartInfo], in four groups: sizes, timestamps, the current interval, counters. *)
Record sizes := mkSizes { size : Z; targetSize : Z; longTermTargetSize : Z; extendedSize : Z }.
Record stamps := mkStamps { curBts : Z; curBtsHits : Z; setpointBts : Z; setpointAdjs : Z }.
Record interval := mkIval { curIntervalIns : Z; curIntervalDems : Z; curIntervalCands : Z }.
Record profile := mkProf {
  profHits : Z; profMisses : Z; profDemotions : Z; profEvictions : Z;
  profSizeCycles : Z; profExtendedSizeCycles : Z
}.
Record VantagePartInfo := mkPart { sz : sizes; st : stamps; iv : interval; pf : profile }.

Record config := mkCfg {
  mapper : PartMapper;
  partitions : nat;
  totalSize : Z;
  assoc : nat;
  partPortion : double;
  partSlack : double;
  maxAperture : double;
  partGranularity : Z;
  smoothTransients : bool
}.

Record VantageReplPolicy (M G : Type) := mkV {
  cfg : config;
  monitor : M;
  rng : G;
  partInfo : nat -> VantagePartInfo;
  array : Z -> LineInfo;
  candList : list Z (* the first [candIdx] of the array *);
  incomingLineAddr : Z;
  timestamp : Z;
  lastUpdateCycle : Z;
  profPromotions : Z;
  profUpdateCycles : Z
}.
Arguments mkV {M G}. Arguments cfg {M G}. Arguments monitor {M G}. Arguments rng {M G}. Arguments partInfo {M G}.
Arguments array {M G}. Arguments candList {M G}. Arguments incomingLineAddr {M G}. Arguments timestamp {M G}.
Arguments lastUpdateCycle {M G}. Arguments profPromotions {M G}. Arguments profUpdateCycles {M G}.

(** ** Changes of one field *)

Definition upd_sz (f : sizes -> sizes) (i : VantagePartInfo) : VantagePartInfo := mkPart (f (sz i)) (st i) (iv i) (pf i).
Definition upd_st (f : stamps -> stamps) (i : VantagePartInfo) : VantagePartInfo := mkPart (sz i) (f (st i)) (iv i) (pf i).
Definition upd_iv (f : interval -> interval) (i : VantagePartInfo) : VantagePartInfo := mkPart (sz i) (st i) (f (iv i)) (pf i).
Definition upd_pf (f : profile -> profile) (i : VantagePartInfo) : VantagePartInfo := mkPart (sz i) (st i) (iv i) (f (pf i)).

Definition add_size (d : Z) : VantagePartInfo -> VantagePartInfo :=
  upd_sz (fun s => mkSizes (u64 (size s + d)) (targetSize s) (longTermTargetSize s) (extendedSize s)).
Definition add_ext (d : Z) : VantagePartInfo -> VantagePartInfo :=
  upd_sz (fun s => mkSizes (size s) (targetSize s) (longTermTargetSize s) (u64 (extendedSize s + d))).
Definition add_target (d : Z) : VantagePartInfo -> VantagePartInfo :=
  upd_sz (fun s => mkSizes (size s) (u64 (targetSize s + d)) (longTermTargetSize s) (extendedSize s)).
Definition set_targets (t l : Z) : VantagePartInfo -> VantagePartInfo :=
  upd_sz (fun s => mkSizes (size s) t l (extendedSize s)).
Definition inc_ins : VantagePartInfo -> VantagePartInfo :=
  upd_iv (fun i => mkIval (u32 (curIntervalIns i + 1)) (curIntervalDems i) (curIntervalCands i)).
Definition inc_dems : VantagePartInfo -> VantagePartInfo :=
  upd_iv (fun i => mkIval (curIntervalIns i) (u32 (curIntervalDems i + 1)) (curIntervalCands i)).
Definition inc_cands : VantagePartInfo -> VantagePartInfo :=
  upd_iv (fun i => mkIval (curIntervalIns i) (curIntervalDems i) (u32 (curIntervalCands i + 1))).
Definition inc_hits : VantagePartInfo -> VantagePartInfo :=
  upd_pf (fun f => mkProf (u64 (profHits f + 1)) (profMisses f) (profDemotions f) (profEvictions f) (profSizeCycles f) (profExtendedSizeCycles f)).
Definition inc_misses : VantagePartInfo -> VantagePartInfo :=
  upd_pf (fun f => mkProf (profHits f) (u64 (profMisses f + 1)) (profDemotions f) (profEvictions f) (profSizeCycles f) (profExtendedSizeCycles f)).
Definition inc_demotions : VantagePartInfo -> VantagePartInfo :=
  upd_pf (fun f => mkProf (profHits f) (profMisses f) (u64 (profDemotions f + 1)) (profEvictions f) (profSizeCycles f) (profExtendedSizeCycles f)).
Definition inc_evictions : VantagePartInfo -> VantagePartInfo :=
  upd_pf (fun f => mkProf (profHits f) (profMisses f) (profDemotions f) (u64 (profEvictions f + 1)) (profSizeCycles f) (profExtendedSizeCycles f)).
Definition add_cycles (diff : Z) (i : VantagePartInfo) : VantagePartInfo :=
  upd_pf (fun f => mkProf (profHits f) (profMisses f) (profDemotions f) (profEvictions f)
    (u64 (profSizeCycles f + diff * size (sz i))) (u64 (profExtendedSizeCycles f + diff * extendedSize (sz i)))) i.

Section policy.
Context {M G : Type} `{PartitionMonitor M} `{RandSource G} (procIdx : nat).
Implicit Types w : VantageReplPolicy M G.

Definition set_monitor (m : M) w : VantageReplPolicy M G :=
  mkV (cfg w) m (rng w) (partInfo w) (array w) (candList w) (incomingLineAddr w) (timestamp w)
    (lastUpdateCycle w) (profPromotions w) (profUpdateCycles w).
Definition set_rng (g : G) w : VantageReplPolicy M G :=
  mkV (cfg w) (monitor w) g (partInfo w) (array w) (candList w) (incomingLineAddr w) (timestamp w)
    (lastUpdateCycle w) (profPromotions w) (profUpdateCycles w).
Definition set_info (f : nat -> VantagePartInfo) w : VantageReplPolicy M G :=
  mkV (cfg w) (monitor w) (rng w) f (array w) (candList w) (incomingLineAddr w) (timestamp w)
    (lastUpdateCycle w) (profPromotions w) (profUpdateCycles w).
Definition set_array (f : Z -> LineInfo) w : VantageReplPolicy M G :=
  mkV (cfg w) (monitor w) (rng w) (partInfo w) f (candList w) (incomingLineAddr w) (timestamp w)
    (lastUpdateCycle w) (profPromotions w) (profUpdateCycles w).
Definition set_cands (l : list Z) w : VantageReplPolicy M G :=
  mkV (cfg w) (monitor w) (rng w) (partInfo w) (array w) l (incomingLineAddr w) (timestamp w)
    (lastUpdateCycle w) (profPromotions w) (profUpdateCycles w).
Definition set_incoming (a : Z) w : VantageReplPolicy M G :=
  mkV (cfg w) (monitor w) (rng w) (partInfo w) (array w) (candList w) a (timestamp w)
    (lastUpdateCycle w) (profPromotions w) (profUpdateCycles w).
Definition set_timestamp (t : Z) w : VantageReplPolicy M G :=
  mkV (cfg w) (monitor w) (rng w) (partInfo w) (array w) (candList w) (incomingLineAddr w) t
    (lastUpdateCycle w) (profPromotions w) (profUpdateCycles w).
Definition set_profile (last proms upd : Z) w : VantageReplPolicy M G :=
  mkV (cfg w) (monitor w) (rng w) (partInfo w) (array w) (candList w) (incomingLineAddr w) (timestamp w) last proms upd.
Definition at_part (q : nat) (f : VantagePartInfo -> VantagePartInfo) w : VantageReplPolicy M G :=
  set_info (<[q := f (partInfo w q)]> (partInfo w)) w.
Definition at_line (id : Z) (f : LineInfo -> LineInfo) w : VantageReplPolicy M G :=
  set_array (<[id := f (array w id)]> (array w)) w.

Definition unmanaged w : nat := partitions (cfg w).

(** ** The constructor *)

Definition pct (n : Z) : double := fdiv (of_Z n) (of_Z 100).

(** The lines that the targets share out at first. *)
Definition managedSize (total : Z) (portion : double) : Z := u32 (to_Z (fmul (of_Z total) portion)).

Definition new (mon : M) (mp : PartMapper) (g : G) (lines : Z) (ways : nat)
    (partPortionPct partSlackPct maxAperturePct granularity : Z) (smooth : bool) : res (VantageReplPolicy M G) :=
  let n := getNumPartitions mp in
  _ ← assert_that (partPortionPct <=? 100);
  _ ← assert_that (partSlackPct <=? 100);
  _ ← assert_that (maxAperturePct <=? 100);
  let total := u32 lines in
  let portion := pct partPortionPct in
  let managed := managedSize total portion in
  let part0 t s := mkPart (mkSizes s t t s) (mkStamps 0 0 0 0) (mkIval 0 0 0) (mkProf 0 0 0 0 0 0) in
  Ok (mkV (mkCfg mp n total ways portion (pct partSlackPct) (pct maxAperturePct) granularity smooth)
    mon g (<[n := part0 0 total]> (fun _ => part0 (managed / Z.of_nat n) 0))
    (fun _ => mkLine 0 0 0 n n) [] 0 1 0 0 0).

(** ** Target sizes *)

(** How far a partition is above its long-term target: [int32_t left]. *)
Definition left (i : VantagePartInfo) : Z := i32 (targetSize (sz i) - longTermTargetSize (sz i)).

Definition linesLeft (info : nat -> VantagePartInfo) (qs : list nat) : Z :=
  fold_left (fun acc q => u32 (acc + Z.max (left (info q)) 0)) qs 0.

Fixpoint find_left (info : nat -> VantagePartInfo) (l curLines : Z) (qs : list nat) : option nat :=
  match qs with
  | [] => None
  | q :: qs =>
      let curLines := u32 (curLines + Z.max (left (info q)) 0) in
      if (0 <? left (info q)) && (l <? curLines) then Some q else find_left info l curLines qs
  end.

Definition takeOneLine w : res (VantageReplPolicy M G) :=
  _ ← assert_that (smoothTransients (cfg w));
  let qs := seq 0 (partitions (cfg w)) in
  let n := linesLeft (partInfo w) qs in
  _ ← assert_that (0 <? n);
  match randInt (rng w) (u32 (n - 1)) with
  | None => Fail NoFuel
  | Some (l, g) =>
      let w := set_rng g w in
      match find_left (partInfo w) l 0 qs with
      | Some q => Ok (at_part q (add_target (-1)) w)
      | None => panic
      end
  end.

Definition part_lines w (n : nat) : Z := u32 (totalSize (cfg w) * Z.of_nat n) / partGranularity (cfg w).

Definition size_step (parts : list nat) (acc : Z * VantageReplPolicy M G) (q : nat) : Z * VantageReplPolicy M G :=
  let '(takeAway, w) := acc in
  let s := part_lines w (parts !!! q) in
  let i := sz (partInfo w q) in
  if smoothTransients (cfg w) then
    let w := at_part q (set_targets (targetSize i) s) w in
    if targetSize i <? s then
      let newTarget := u32 (Z.max (targetSize i) (Z.min s (u64 (size i + 1)))) in
      (u32 (takeAway + (newTarget - targetSize i)), at_part q (set_targets newTarget s) w)
    else (takeAway, w)
  else (takeAway, at_part q (set_targets s s) w).

Fixpoint takeLines (n : nat) w : res (VantageReplPolicy M G) :=
  match n with
  | O => Ok w
  | S n => w ← takeOneLine w; takeLines n w
  end.

Definition setPartitionSizes (parts : list nat) w : res (VantageReplPolicy M G) :=
  let '(takeAway, w) := fold_left (size_step parts) (seq 0 (partitions (cfg w))) (0, w) in
  takeLines (Z.to_nat takeAway) w.

#[export] Instance vantage_policy : Lookahead.PartReplPolicy (VantageReplPolicy M G) M := {
  getMonitor := monitor;
  putMonitor := set_monitor;
  setPartitionSizes := setPartitionSizes
}.

(** ** A hit, and the line that comes in *)

Definition count_cycles (globPhaseCycles : Z) w : VantageReplPolicy M G :=
  if lastUpdateCycle w <? globPhaseCycles then
    let diff := globPhaseCycles - lastUpdateCycle w in
    let w := foldr (fun q => at_part q (add_cycles diff)) w (seq 0 (S (partitions (cfg w)))) in
    set_profile globPhaseCycles (profPromotions w) (u64 (profUpdateCycles w + diff)) w
  else w.

Definition set_ts (t : Z) (e : LineInfo) : LineInfo := mkLine (addr e) t (bts e) (p e) (op e).
Definition set_bts (b : Z) (e : LineInfo) : LineInfo := mkLine (addr e) (ts e) b (p e) (op e).
Definition set_p (q : nat) (e : LineInfo) : LineInfo := mkLine (addr e) (ts e) (bts e) q (op e).
Definition set_p_op (q : nat) (e : LineInfo) : LineInfo := mkLine (addr e) (ts e) (bts e) q q.

(** [e->ts = timestamp++]. *)
Definition touch (id : Z) w : VantageReplPolicy M G :=
  set_timestamp (u64 (timestamp w + 1)) (at_line id (set_ts (timestamp w)) w).

Definition promote (req : MemHier.MemReq) (id : Z) w : res (VantageReplPolicy M G) :=
  q ← getPartition procIdx (mapper (cfg w)) req;
  let w := at_line id (set_p q) w in
  let w := set_profile (lastUpdateCycle w) (u64 (profPromotions w + 1)) (profUpdateCycles w) w in
  Ok (at_part (unmanaged w) (add_size (-1)) (at_part q (add_size 1) (at_part q inc_ins w))).

Definition update_hit (req : MemHier.MemReq) (id : Z) w : res (VantageReplPolicy M G) :=
  w ← (if (p (array w id) =? unmanaged w)%nat then promote req id w else Ok w);
  let w := touch id w in
  Ok (at_part (p (array w id)) inc_hits w).

(** The target of a growing partition follows its size. *)
Definition grow (q : nat) w : res (VantageReplPolicy M G) :=
  if targetSize (sz (partInfo w q)) <? longTermTargetSize (sz (partInfo w q)) then
    _ ← assert_that (smoothTransients (cfg w));
    takeOneLine (at_part q (add_target 1) w)
  else Ok w.

Definition update_miss (req : MemHier.MemReq) (id : Z) w : res (VantageReplPolicy M G) :=
  let w := touch id w in
  let e := array w id in
  let w := at_part (p e) inc_evictions (at_part (p e) (add_size (-1)) w) in
  let w := at_part (op e) (add_ext (-1)) w in
  q ← getPartition procIdx (mapper (cfg w)) req;
  let w := at_line id (set_p_op q) w in
  let w := at_part q (add_ext 1) (at_part q (add_size 1) (at_part q inc_ins w)) in
  grow q (at_part q inc_misses w).

(** [e->bts = curBts], and the next coarse-grain timestamp after a sixteenth of the lines. *)
Definition next_bts (i : VantagePartInfo) : VantagePartInfo :=
  let h := u32 (curBtsHits (st i) + 1) in
  upd_st (fun s =>
    if u32 (size (sz i)) / 16 <=? h
    then mkStamps (u64 (curBts s + 1)) 0 (u64 (setpointBts s + 1)) (setpointAdjs s)
    else mkStamps (curBts s) h (setpointBts s) (setpointAdjs s)) i.

Definition update (globPhaseCycles : Z) (id : Z) (req : MemHier.MemReq) w : res (VantageReplPolicy M G) :=
  let w := count_cycles globPhaseCycles w in
  w ← (if 0 <? ts (array w id) then update_hit req id w else update_miss req id w);
  let e := array w id in
  m ← mon_access (p e) (addr e) (monitor w);
  let w := set_monitor m w in
  let w := at_line id (set_bts (curBts (st (partInfo w (p e))))) w in
  Ok (at_part (p e) next_bts w).

(** ** The victim *)

Definition startReplacement (req : MemHier.MemReq) w : VantageReplPolicy M G := set_incoming (MemHier.lineAddr req) w.

Definition recordCandidate w (id : Z) : res (VantageReplPolicy M G) :=
  _ ← assert_that (length (candList w) <? assoc (cfg w))%nat;
  Ok (set_cands (candList w ++ [id]) w).

Definition zero : double := of_Z 0.

(** What share of the candidates of a partition of this size should be demoted. *)
Definition aperture (c : config) (target sz : Z) : res double :=
  let maxSz := fmul (of_Z target) (fadd (of_Z 1) (partSlack c)) in
  let curSz := of_Z sz in
  if fle maxSz curSz then Ok (maxAperture c)
  else
    let slope := fdiv (maxAperture c) (fsub maxSz (of_Z target)) in
    _ ← assert_that (flt zero slope);
    Ok (fmul slope (fsub curSz (of_Z target))).

(** The setpoint moves by one towards the aperture. *)
Definition move_setpoint (a : double) (i : VantagePartInfo) : VantagePartInfo :=
  let shrink := of_Z (i32 (curIntervalDems (iv i))) in
  let wanted := fmul a (of_Z (curIntervalCands (iv i))) in
  if flt zero a then
    if flt shrink wanted then
      upd_st (fun s => if setpointBts s <? curBts s
        then mkStamps (curBts s) (curBtsHits s) (u64 (setpointBts s + 1)) (setpointAdjs s) else s) i
    else if flt wanted shrink then
      upd_st (fun s => if u64 (curBts s - setpointBts s) <? 255
        then mkStamps (curBts s) (curBtsHits s) (u64 (setpointBts s - 1)) (setpointAdjs s) else s) i
    else i
  else i.

Definition new_interval (i : VantagePartInfo) : VantagePartInfo :=
  upd_st (fun s => mkStamps (curBts s) (curBtsHits s) (setpointBts s) (u64 (setpointAdjs s + 1)))
    (upd_iv (fun _ => mkIval 0 0 0) i).

Definition adjust (q : nat) w : res (VantageReplPolicy M G) :=
  let i := partInfo w q in
  if 256 <=? curIntervalCands (iv i) then
    a ← aperture (cfg w) (targetSize (sz i)) (size (sz i));
    Ok (at_part q new_interval (at_part q (move_setpoint a) w))
  else Ok w.

(** The line is no younger than the setpoint, modulo 256. *)
Definition below_setpoint (e : LineInfo) (s : stamps) : bool :=
  u64 (curBts s - setpointBts s) mod 256 <=? u64 (curBts s - bts e) mod 256.

Definition demote (id : Z) w : VantageReplPolicy M G :=
  let q := p (array w id) in
  let w := at_part q (add_size (-1)) (at_part q inc_demotions w) in
  let w := at_part (unmanaged w) (add_size 1) (at_line id (set_p (unmanaged w)) w) in
  at_part q inc_dems w.

Definition demote_step w (id : Z) : res (VantageReplPolicy M G) :=
  let e := array w id in
  let q := p e in
  if ts e =? 0 then Ok w
  else if (q =? unmanaged w)%nat then Ok w
  else if u32 (size (sz (partInfo w q))) <=? targetSize (sz (partInfo w q)) then Ok w
  else
    let w := if below_setpoint e (st (partInfo w q)) then demote id w else w in
    adjust q (at_part q inc_cands w).

(** The better victim of two. *)
Definition better w (bestId id : Z) : Z :=
  let e := array w id in
  let best := array w bestId in
  let un := fun e => (p e =? unmanaged w)%nat in
  if un e && negb (un best) then id
  else if un e && un best then if ts e <? ts best then id else bestId
  else if negb (un e) && un best then bestId
  else if ts e <? ts best then id else bestId.

Fixpoint pick w (bestId : Z) (l : list Z) : Z :=
  match l with
  | [] => bestId
  | id :: l => if ts (array w id) =? 0 then i32 id else pick w (i32 (better w bestId id)) l
  end.

Definition getBestCandidate w : res (Z * VantageReplPolicy M G) :=
  _ ← assert_that (0 <? length (candList w))%nat;
  _ ← assert_that (length (candList w) <=? assoc (cfg w))%nat;
  w ← foldM demote_step w (candList w);
  let bestId := pick w (i32 (hd 0 (candList w))) (candList w) in
  _ ← assert_that ((0 <=? bestId) && (u32 bestId <? totalSize (cfg w)));
  Ok (u32 bestId, w).

Definition replaced (id : Z) w : VantageReplPolicy M G :=
  let w := set_cands [] w in
  at_line id (fun e => mkLine (incomingLineAddr w) 0 0 (p e) (op e)) w.

(** [LegacyReplPolicy::rank]. *)
Definition rank (req : MemHier.MemReq) (cands : list Z) w : res (Z * VantageReplPolicy M G) :=
  w ← foldM recordCandidate (startReplacement req w) cands;
  getBestCandidate w.

(** What the cache does on a miss. *)
Definition miss (globPhaseCycles : Z) (req : MemHier.MemReq) (cands : list Z) w : res (Z * VantageReplPolicy M G) :=
  '(id, w) ← rank req cands w;
  w ← update globPhaseCycles id req (replaced id w);
  Ok (id, w).

End policy.
End Vantage.
