(* ===== verification/VantageInv.v ===== *)
(** The invariant of the Vantage policy: sizes count lines, the setpoint is less than 256
    timestamps behind, the targets never add up to more than they did.  Every operation
    keeps it, and the victim is the one the policy describes. *)
From S2P Require Import Prelude Mtrand MemHier Doubles PartMon Lookahead WayPart Vantage Barrier.
Import Rand.

Module VantageInv.
Import Vantage PartMapper Cnt.

Definition delta (a b : nat) : Z := if decide (a = b) then 1 else 0.

(** The outcome of an operation: [Q], or the random generator ran out of the model's fuel. *)
Definition safe {A} (r : res A) (Q : A -> Prop) : Prop :=
  match r with Ok x => Q x | Fail e => e = NoFuel end.

Lemma safe_bind {A B} (r : res A) (f : A -> res B) Q : safe r (fun x => safe (f x) Q) -> safe (r ≫= f) Q.
Proof. by destruct r. Qed.

Lemma safe_mono {A} (r : res A) (P Q : A -> Prop) : safe r P -> (forall x, P x -> Q x) -> safe r Q.
Proof. destruct r; cbn; auto. Qed.

(** *** Sums over partitions *)

Fixpoint sumz (g : nat -> Z) (l : list nat) : Z :=
  match l with [] => 0 | q :: l => g q + sumz g l end.

Lemma sumz_ext g g' l : (forall q, q ∈ l -> g q = g' q) -> sumz g l = sumz g' l.
Proof.
  induction l as [|q l IH]; intros He; cbn; [done|]. rewrite He, IH; [done| |by left].
  intros r Hr. apply He. by right.
Qed.

Lemma sumz_le g g' l : (forall q, q ∈ l -> g q <= g' q) -> sumz g l <= sumz g' l.
Proof.
  induction l as [|q l IH]; intros He; cbn; [done|]. pose proof (He q ltac:(by left)).
  specialize (IH (fun r Hr => He r ltac:(by right))). lia.
Qed.

Lemma sumz_nonneg g l : (forall q, q ∈ l -> 0 <= g q) -> 0 <= sumz g l.
Proof. intros Hg. pose proof (sumz_le (fun _ => 0) g l Hg) as Hl. assert (sumz (fun _ => 0) l = 0) by (clear; induction l; cbn; lia). lia. Qed.

Lemma sumz_elem g l q : (forall r, r ∈ l -> 0 <= g r) -> q ∈ l -> g q <= sumz g l.
Proof.
  induction l as [|r l IH]; intros Hg Hq; [by apply not_elem_of_nil in Hq|]. cbn.
  pose proof (sumz_nonneg g l (fun r Hr => Hg r ltac:(by right))). pose proof (Hg r ltac:(by left)).
  apply elem_of_cons in Hq as [->|Hq]; [lia|]. specialize (IH (fun r Hr => Hg r ltac:(by right)) Hq). lia.
Qed.

Lemma sumz_minus g h l : sumz (fun q => g q - h q) l = sumz g l - sumz h l.
Proof. induction l; cbn; lia. Qed.

Lemma sumz_insert {A} (g : A -> Z) (T : nat -> A) q v l : NoDup l -> q ∈ l ->
  sumz (fun r => g (<[q := v]> T r)) l = sumz (fun r => g (T r)) l + g v - g (T q).
Proof.
  induction 1 as [|r l Hr Hl IH]; intros Hq; [by apply not_elem_of_nil in Hq|]. cbn.
  apply elem_of_cons in Hq as [->|Hq].
  - rewrite fn_lookup_insert. rewrite (sumz_ext _ (fun r => g (T r))); [lia|].
    intros s Hs. rewrite fn_lookup_insert_ne; [done|]. by intros ->.
  - rewrite IH by done. rewrite fn_lookup_insert_ne; [lia|]. by intros ->.
Qed.

Section inv.
Context {M G : Type} {PM : PartitionMonitor M} {PML : PartitionMonitorLaws M}.
Context {RS : RandSource G} {RL : RandLaws G} (procIdx : nat) (c : config).
Implicit Types w : VantageReplPolicy M G.

Notation P := (partitions c).
Notation N := (Z.to_nat (totalSize c)).

(** The setpoint is less than 256 timestamps behind, so 8 bits tell how far. *)
Definition stamp_ok (s : stamps) : Prop :=
  in_u64 (curBts s) /\ in_u64 (setpointBts s) /\ u64 (curBts s - setpointBts s) <= 255.

(** The state, up to differences [d] and [de] of the sizes from the counts of lines, with
    the targets [T]. *)
Record wf_off (d de : nat -> Z) (T : nat -> Z * Z) w : Prop := {
  f_cfg : cfg w = c;
  f_mon : mon_wf (monitor w) /\ mon_open (monitor w) /\ mon_partitions (monitor w) = P;
  f_rng : rand_ok (rng w);
  f_size q : (q <= P)%nat -> size (sz (partInfo w q)) = cnt (fun i => p (array w i)) N q + d q;
  f_ext q : (q <= P)%nat -> extendedSize (sz (partInfo w q)) = cnt (fun i => op (array w i)) N q + de q;
  f_T q : (q <= P)%nat -> (targetSize (sz (partInfo w q)), longTermTargetSize (sz (partInfo w q))) = T q;
  f_line i : 0 <= i < totalSize c -> (p (array w i) <= P)%nat /\ (op (array w i) <= P)%nat;
  f_ts i : in_u64 (ts (array w i));
  f_time : in_u64 (timestamp w);
  f_stamp q : stamp_ok (st (partInfo w q))
}.

Definition wf (T : nat -> Z * Z) w : Prop := wf_off (fun _ => 0) (fun _ => 0) T w.

Lemma wf_ext d de T d' de' T' w : wf_off d de T w ->
  (forall q, (q <= P)%nat -> d' q = d q) -> (forall q, (q <= P)%nat -> de' q = de q) -> (forall q, (q <= P)%nat -> T' q = T q) ->
  wf_off d' de' T' w.
Proof.
  intros [] E1 E2 E3. split; try done; intros q Hq; [rewrite E1|rewrite E2|rewrite E3]; auto.
Qed.

Lemma part_at q f w r : partInfo (at_part q f w) r = if decide (r = q) then f (partInfo w q) else partInfo w r.
Proof. cbn. destruct (decide (r = q)) as [->|]; [by rewrite fn_lookup_insert|by rewrite fn_lookup_insert_ne]. Qed.

Lemma line_at id f w i : array (at_line id f w) i = if decide (i = id) then f (array w id) else array w i.
Proof. cbn. destruct (decide (i = id)) as [->|]; [by rewrite fn_lookup_insert|by rewrite fn_lookup_insert_ne]. Qed.

(** *** Changes that the counts do not see *)

Lemma wf_part q f d de T w : wf_off d de T w -> sz (f (partInfo w q)) = sz (partInfo w q) ->
  (stamp_ok (st (partInfo w q)) -> stamp_ok (st (f (partInfo w q)))) ->
  wf_off d de T (at_part q f w).
Proof.
  intros W Hs Hst.
  assert (forall r, sz (partInfo (at_part q f w) r) = sz (partInfo w r)) as Hsz.
  { intros r. rewrite part_at. case_decide; [by subst|done]. }
  destruct W. split; try done.
  - intros r Hr. rewrite Hsz. by apply f_size0.
  - intros r Hr. rewrite Hsz. by apply f_ext0.
  - intros r Hr. rewrite Hsz. by apply f_T0.
  - intros r. rewrite part_at. case_decide; [subst; by apply Hst|done].
Qed.

Lemma wf_line id f d de T w : wf_off d de T w -> p (f (array w id)) = p (array w id) ->
  op (f (array w id)) = op (array w id) -> in_u64 (ts (f (array w id))) -> wf_off d de T (at_line id f w).
Proof.
  intros W H1 H2 H3.
  assert (forall i, p (array (at_line id f w) i) = p (array w i)) as Hp by (intros i; rewrite line_at; case_decide; [by subst|done]).
  assert (forall i, op (array (at_line id f w) i) = op (array w i)) as Ho by (intros i; rewrite line_at; case_decide; [by subst|done]).
  destruct W. split; try done.
  - intros q Hq. rewrite (cnt_ext _ (fun i => p (array w i))); [by apply f_size0|done].
  - intros q Hq. rewrite (cnt_ext _ (fun i => op (array w i))); [by apply f_ext0|done].
  - intros i Hi. rewrite Hp, Ho. by apply f_line0.
  - intros i. rewrite line_at. case_decide; [done|apply f_ts0].
Qed.

Lemma wf_profile a b e d de T w : wf_off d de T w -> wf_off d de T (set_profile a b e w).
Proof. intros []. by split. Qed.

Lemma wf_cands l d de T w : wf_off d de T w -> wf_off d de T (set_cands l w).
Proof. intros []. by split. Qed.

Lemma vt_wf_incoming a d de T w : wf_off d de T w -> wf_off d de T (set_incoming a w).
Proof. intros []. by split. Qed.

Lemma wf_touch id d de T w : wf_off d de T w -> wf_off d de T (touch id w).
Proof.
  intros W. pose proof (f_time _ _ _ _ W) as Ht. unfold touch.
  assert (wf_off d de T (at_line id (set_ts (timestamp w)) w)) as [] by (by apply wf_line).
  split; try done. apply u64_range.
Qed.

(** *** Changes that the counts see *)

Lemma wf_add_size x q d de T w : wf_off d de T w -> (q <= P)%nat -> in_u64 (size (sz (partInfo w q)) + x) ->
  wf_off (fun r => d r + x * delta q r) de T (at_part q (add_size x) w).
Proof.
  intros W Hq Hx. destruct W. split; try done.
  - intros r Hr. rewrite part_at. unfold delta. destruct (decide (r = q)) as [->|Hne].
    + cbn. rewrite decide_True by done. rewrite u64_id by done. rewrite f_size0 by done. cbn. lia.
    + rewrite decide_False by done. rewrite f_size0 by done. cbn. lia.
  - intros r Hr. rewrite part_at. case_decide; [subst; cbn|]; by apply f_ext0.
  - intros r Hr. rewrite part_at. case_decide; [subst; cbn|]; by apply f_T0.
  - intros r. rewrite part_at. case_decide; [subst; cbn|]; apply f_stamp0.
Qed.

Lemma wf_add_ext x q d de T w : wf_off d de T w -> (q <= P)%nat -> in_u64 (extendedSize (sz (partInfo w q)) + x) ->
  wf_off d (fun r => de r + x * delta q r) T (at_part q (add_ext x) w).
Proof.
  intros W Hq Hx. destruct W. split; try done.
  - intros r Hr. rewrite part_at. case_decide; [subst; cbn|]; by apply f_size0.
  - intros r Hr. rewrite part_at. unfold delta. destruct (decide (r = q)) as [->|Hne].
    + cbn. rewrite decide_True by done. rewrite u64_id by done. rewrite f_ext0 by done. cbn. lia.
    + rewrite decide_False by done. rewrite f_ext0 by done. cbn. lia.
  - intros r Hr. rewrite part_at. case_decide; [subst; cbn|]; by apply f_T0.
  - intros r. rewrite part_at. case_decide; [subst; cbn|]; apply f_stamp0.
Qed.

Lemma cnt_line (g : LineInfo -> nat) id f w q : 0 <= id < totalSize c ->
  cnt (fun i => g (array (at_line id f w) i)) N q =
  cnt (fun i => g (array w i)) N q + delta (g (f (array w id))) q - delta (g (array w id)) q.
Proof.
  intros Hid. rewrite (cnt_ext _ (<[id := g (f (array w id))]> (fun i => g (array w i)))).
  - rewrite cnt_insert by lia. done.
  - intros i _. rewrite line_at. destruct (decide (i = id)) as [->|]; [by rewrite fn_lookup_insert|by rewrite fn_lookup_insert_ne].
Qed.

Lemma wf_set_p id q d de T w : wf_off d de T w -> 0 <= id < totalSize c -> (q <= P)%nat ->
  wf_off (fun r => d r + delta (p (array w id)) r - delta q r) de T (at_line id (set_p q) w).
Proof.
  intros W Hid Hq.
  assert (forall i, op (array (at_line id (set_p q) w) i) = op (array w i)) as Ho by (intros i; rewrite line_at; case_decide; [by subst|done]).
  destruct W. split; try done.
  - intros r Hr. rewrite (cnt_line p) by done. cbn. rewrite f_size0 by done. lia.
  - intros r Hr. rewrite (cnt_ext _ (fun i => op (array w i))); [by apply f_ext0|done].
  - intros i Hi. rewrite line_at. case_decide; [|by apply f_line0]. cbn. split; [done|by apply f_line0].
  - intros i. rewrite line_at. case_decide; [cbn|]; apply f_ts0.
Qed.

Lemma wf_set_p_op id q d de T w : wf_off d de T w -> 0 <= id < totalSize c -> (q <= P)%nat ->
  wf_off (fun r => d r + delta (p (array w id)) r - delta q r)
    (fun r => de r + delta (op (array w id)) r - delta q r) T (at_line id (set_p_op q) w).
Proof.
  intros W Hid Hq. destruct W. split; try done.
  - intros r Hr. rewrite (cnt_line p) by done. cbn. rewrite f_size0 by done. lia.
  - intros r Hr. rewrite (cnt_line op) by done. cbn. rewrite f_ext0 by done. lia.
  - intros i Hi. rewrite line_at. case_decide; [|by apply f_line0]. done.
  - intros i. rewrite line_at. case_decide; [cbn|]; apply f_ts0.
Qed.

Lemma wf_add_target x q d de T w : wf_off d de T w -> (q <= P)%nat ->
  wf_off d de (<[q := (u64 ((T q).1 + x), (T q).2)]> T) (at_part q (add_target x) w).
Proof.
  intros W Hq. destruct W. split; try done.
  - intros r Hr. rewrite part_at. case_decide; [subst; cbn|]; by apply f_size0.
  - intros r Hr. rewrite part_at. case_decide; [subst; cbn|]; by apply f_ext0.
  - intros r Hr. rewrite part_at. destruct (decide (r = q)) as [->|].
    + rewrite fn_lookup_insert, <- f_T0 by done. done.
    + rewrite fn_lookup_insert_ne by done. by apply f_T0.
  - intros r. rewrite part_at. case_decide; [subst; cbn|]; apply f_stamp0.
Qed.

Lemma wf_set_targets t l q d de T w : wf_off d de T w -> (q <= P)%nat ->
  wf_off d de (<[q := (t, l)]> T) (at_part q (set_targets t l) w).
Proof.
  intros W Hq. destruct W. split; try done.
  - intros r Hr. rewrite part_at. case_decide; [subst; cbn|]; by apply f_size0.
  - intros r Hr. rewrite part_at. case_decide; [subst; cbn|]; by apply f_ext0.
  - intros r Hr. rewrite part_at. destruct (decide (r = q)) as [->|].
    + by rewrite fn_lookup_insert.
    + rewrite fn_lookup_insert_ne by done. by apply f_T0.
  - intros r. rewrite part_at. case_decide; [subst; cbn|]; apply f_stamp0.
Qed.

Lemma wf_count glob d de T w : wf_off d de T w -> wf_off d de T (count_cycles glob w) /\
  array (count_cycles glob w) = array w /\ candList (count_cycles glob w) = candList w.
Proof.
  intros W. unfold count_cycles. case_match; [|done]. generalize (glob - lastUpdateCycle w). intros diff.
  assert (forall l, wf_off d de T (foldr (fun q => at_part q (add_cycles diff)) w l) /\
    array (foldr (fun q => at_part q (add_cycles diff)) w l) = array w /\
    candList (foldr (fun q => at_part q (add_cycles diff)) w l) = candList w) as Hl.
  { induction l as [|q l (IH1 & IH2 & IH3)]; [done|]. split; [by apply wf_part|]. by cbn. }
  specialize (Hl (seq 0 (S (partitions (cfg w))))). destruct Hl as (H1 & H2 & H3).
  split; [by apply wf_profile|]. by cbn.
Qed.

(** *** Targets *)

Notation qs := (seq 0 P).

Definition excess (T : nat -> Z * Z) (q : nat) : Z := Z.max ((T q).1 - (T q).2) 0.

(** The targets are numbers of lines; together they are no less than what they are to become. *)
Definition budget (T : nat -> Z * Z) : Prop :=
  (forall q, q ∈ qs -> 0 <= (T q).1 /\ 0 <= (T q).2) /\
  if smoothTransients c
  then sumz (fun q => (T q).2) qs <= sumz (fun q => (T q).1) qs < 2 ^ 30
  else forall q, q ∈ qs -> (T q).1 = (T q).2.

Lemma excess_le T l : (forall q, q ∈ l -> 0 <= (T q).1 /\ 0 <= (T q).2) ->
  0 <= sumz (excess T) l <= sumz (fun q => (T q).1) l.
Proof.
  intros HT. split; [apply sumz_nonneg; unfold excess; lia|]. apply sumz_le. intros q Hq.
  specialize (HT q Hq). unfold excess. lia.
Qed.

Lemma left_excess d de T w q : wf_off d de T w -> (q < P)%nat -> 0 <= (T q).1 < 2 ^ 31 -> 0 <= (T q).2 < 2 ^ 31 ->
  left (partInfo w q) = (T q).1 - (T q).2.
Proof.
  intros W Hq H1 H2. pose proof (f_T _ _ _ _ W q ltac:(lia)) as HT. unfold left. rewrite <- HT in *. cbn in *.
  unfold i32. rewrite Z.mod_small by lia. lia.
Qed.

Lemma linesLeft_sum info (e : nat -> Z) l : forall acc,
  (forall q, q ∈ l -> Z.max (left (info q)) 0 = e q /\ 0 <= e q) -> 0 <= acc -> acc + sumz e l < 2 ^ 32 ->
  fold_left (fun acc q => u32 (acc + Z.max (left (info q)) 0)) l acc = acc + sumz e l.
Proof.
  induction l as [|q l IH]; intros acc He Ha Hs; cbn [fold_left sumz] in *; [lia|].
  destruct (He q ltac:(by left)) as [-> Hq].
  assert (0 <= sumz e l) by (apply sumz_nonneg; intros r Hr; apply He; by right).
  rewrite u32_id by (unfold in_u32; lia). rewrite IH; [lia| |lia|lia]. intros r Hr. apply He. by right.
Qed.

Lemma find_left_some info (e : nat -> Z) k l : forall acc,
  (forall q, q ∈ l -> Z.max (left (info q)) 0 = e q /\ 0 <= e q) -> 0 <= acc <= k -> k < acc + sumz e l ->
  acc + sumz e l < 2 ^ 32 ->
  exists q, find_left info k acc l = Some q /\ q ∈ l /\ 0 < left (info q).
Proof.
  induction l as [|q l IH]; intros acc He Ha Hk Hs; cbn [find_left sumz] in *; [lia|].
  destruct (He q ltac:(by left)) as [E Hq].
  assert (0 <= sumz e l) by (apply sumz_nonneg; intros r Hr; apply He; by right).
  rewrite E, u32_id by (unfold in_u32; lia).
  destruct (Z.ltb_spec k (acc + e q)) as [Hlt|Hge].
  - rewrite (proj2 (Z.ltb_lt _ _)) by lia. cbn. exists q. split; [done|]. split; [by left|lia].
  - rewrite andb_false_r. destruct (IH (acc + e q)) as (r & H1 & H2 & H3); [intros r Hr; apply He; by right|lia..|].
    exists r. split; [done|]. split; [by right|done].
Qed.

Lemma takeOneLine_ok d de T w : wf_off d de T w -> smoothTransients c = true ->
  (forall q, q ∈ qs -> 0 <= (T q).1 /\ 0 <= (T q).2) -> sumz (fun q => (T q).1) qs < 2 ^ 31 ->
  sumz (fun q => (T q).2) qs < 2 ^ 31 -> 0 < sumz (excess T) qs ->
  safe (takeOneLine w) (fun w' => array w' = array w /\ candList w' = candList w /\
    exists q, q ∈ qs /\ (T q).2 < (T q).1 /\ wf_off d de (<[q := ((T q).1 - 1, (T q).2)]> T) w').
Proof.
  intros W Hsm HT H1 H2 Hex. unfold takeOneLine. rewrite (f_cfg _ _ _ _ W), Hsm. cbn [assert_that mbind res_bind].
  pose proof (excess_le T qs HT) as Hle.
  assert (forall q, q ∈ qs -> (q < P)%nat /\ left (partInfo w q) = (T q).1 - (T q).2) as Hleft.
  { intros q Hq. split; [apply elem_of_seq in Hq; lia|]. destruct (HT q Hq).
    pose proof (sumz_elem (fun q => (T q).1) qs q (fun r Hr => proj1 (HT r Hr)) Hq).
    pose proof (sumz_elem (fun q => (T q).2) qs q (fun r Hr => proj2 (HT r Hr)) Hq). cbn in *.
    eapply left_excess; [done|apply elem_of_seq in Hq; lia|lia|lia]. }
  assert (forall q, q ∈ qs -> Z.max (left (partInfo w q)) 0 = excess T q /\ 0 <= excess T q) as He.
  { intros q Hq. rewrite (proj2 (Hleft q Hq)). unfold excess. lia. }
  unfold linesLeft. rewrite (linesLeft_sum _ (excess T) qs 0 He) by lia.
  rewrite (proj2 (Z.ltb_lt _ _)) by lia. cbn [assert_that mbind res_bind].
  rewrite u32_id by (unfold in_u32; lia).
  destruct (randInt (rng w) _) as [[k g]|] eqn:Er; [|done].
  assert (0 <= 0 + sumz (excess T) qs - 1 < 2 ^ 32) as Hr32 by lia.
  destruct (randInt_range _ _ _ _ (f_rng _ _ _ _ W) Hr32 Er) as [Hk Hg].
  destruct (find_left_some (partInfo w) (excess T) k qs 0 He) as (q & Hf & Hq & Hpos); [lia|lia|lia|].
  cbn [partInfo set_rng]. rewrite Hf. cbn. split; [done|]. split; [done|]. exists q. split; [done|].
  destruct (Hleft q Hq) as [Hlt Hl]. split; [lia|].
  assert (wf_off d de T (set_rng g w)) as W' by (by destruct W; split).
  pose proof (wf_add_target (-1) q d de T _ W' ltac:(lia)) as W2.
  destruct (HT q Hq). pose proof (sumz_elem (fun q => (T q).1) qs q (fun r Hr => proj1 (HT r Hr)) Hq).
  cbn in *. eapply wf_ext; [exact W2|done|done|]. intros r _. cbn.
  destruct (decide (r = q)) as [->|]; [rewrite !fn_lookup_insert|by rewrite !fn_lookup_insert_ne].
  rewrite u64_id by (unfold in_u64; lia). done.
Qed.

(** A growing partition takes a line from one above its long-term target. *)
Lemma grow_ok d de T w q : wf_off d de T w -> budget T -> (q < P)%nat ->
  safe (grow q w) (fun w' => array w' = array w /\ candList w' = candList w /\ exists T', wf_off d de T' w' /\ budget T' /\
    (forall r, r ∈ qs -> (T' r).2 = (T r).2) /\ sumz (fun r => (T' r).1) qs = sumz (fun r => (T r).1) qs).
Proof.
  intros W [HT HB] Hq. unfold grow. pose proof (f_T _ _ _ _ W q ltac:(lia)) as E.
  assert (q ∈ qs) as Hqs by (apply elem_of_seq; lia).
  pose proof (f_equal fst E) as E1. pose proof (f_equal snd E) as E2. cbn in E1, E2. rewrite E1, E2. destruct (Z.ltb_spec (T q).1 (T q).2) as [Hlt|Hge].
  2: { split; [done|]. split; [done|]. by exists T. }
  rewrite (f_cfg _ _ _ _ W). destruct (smoothTransients c) eqn:Hsm; [|specialize (HB q Hqs); lia].
  cbn [assert_that mbind res_bind].
  pose proof (wf_add_target 1 q d de T w W ltac:(lia)) as W1.
  pose proof (sumz_elem (fun q => (T q).1) qs q (fun r Hr => proj1 (HT r Hr)) Hqs) as Hq1. cbn in Hq1.
  destruct (HT q Hqs) as [HTq1 HTq2].
  rewrite u64_id in W1 by (unfold in_u64; lia). set (T1 := <[q := ((T q).1 + 1, (T q).2)]> T) in W1.
  assert (forall r, r ∈ qs -> 0 <= (T1 r).1 /\ 0 <= (T1 r).2) as HT1.
  { intros r Hr. unfold T1. destruct (decide (r = q)) as [->|]; [rewrite fn_lookup_insert; cbn; lia|].
    rewrite fn_lookup_insert_ne by done. by apply HT. }
  assert (sumz (fun r => (T1 r).1) qs = sumz (fun r => (T r).1) qs + 1) as S1.
  { unfold T1. rewrite (sumz_insert fst) by (done || apply NoDup_seq). cbn. lia. }
  assert (sumz (fun r => (T1 r).2) qs = sumz (fun r => (T r).2) qs) as S2.
  { unfold T1. rewrite (sumz_insert snd) by (done || apply NoDup_seq). cbn. lia. }
  assert (sumz (fun r => (T1 r).1 - (T1 r).2) qs <= sumz (excess T1) qs) as S3.
  { apply sumz_le. unfold excess. lia. }
  rewrite sumz_minus in S3.
  eapply safe_mono; [apply (takeOneLine_ok d de T1); [done|done|done|lia|lia|lia]|].
  cbn beta. intros w' (Ha & Hc & r & Hr & Hlr & W2). split; [done|]. split; [done|]. eexists. split; [exact W2|].
  assert (sumz (fun s => (<[r := ((T1 r).1 - 1, (T1 r).2)]> T1 s).1) qs = sumz (fun r => (T r).1) qs) as S4.
  { rewrite (sumz_insert fst) by (done || apply NoDup_seq). cbn. lia. }
  assert (sumz (fun s => (<[r := ((T1 r).1 - 1, (T1 r).2)]> T1 s).2) qs = sumz (fun r => (T r).2) qs) as S5.
  { rewrite (sumz_insert snd) by (done || apply NoDup_seq). cbn. lia. }
  split; [|split; [|done]].
  - split; [|rewrite Hsm; lia]. intros s Hs. destruct (HT1 r Hr). destruct (decide (s = r)) as [->|].
    + rewrite fn_lookup_insert. cbn. lia.
    + rewrite fn_lookup_insert_ne by done. by apply HT1.
  - intros s Hs. destruct (decide (s = r)) as [->|].
    + rewrite fn_lookup_insert. cbn. unfold T1. destruct (decide (r = q)) as [->|]; [by rewrite fn_lookup_insert|by rewrite fn_lookup_insert_ne].
    + rewrite fn_lookup_insert_ne by done. unfold T1. destruct (decide (s = q)) as [->|]; [by rewrite fn_lookup_insert|by rewrite fn_lookup_insert_ne].
Qed.

(** *** Demotions *)

(** The size of the cache is in range, and the aperture of a partition above its target is
    well defined. *)
Record config_ok : Prop := {
  co_total : 0 <= totalSize c < 2 ^ 31;
  co_aperture t s : 0 <= t <= s -> s <= totalSize c -> exists a, aperture c t s = Ok a
}.
Context (cfg_ok : config_ok).

(** [w'] has lines of [cs] demoted, each from a partition that stays at or above its target. *)
Definition demotes (T : nat -> Z * Z) (cs : list Z) w w' : Prop :=
  (forall i, array w' i = array w i \/
     (i ∈ cs /\ array w' i = set_p P (array w i) /\ (p (array w i) < P)%nat /\ ts (array w i) <> 0)) /\
  (forall q, (q < P)%nat -> size (sz (partInfo w' q)) = size (sz (partInfo w q)) \/
     (T q).1 <= size (sz (partInfo w' q)) < size (sz (partInfo w q))).

Lemma demotes_refl T cs w : demotes T cs w w.
Proof. split; by left. Qed.

Lemma demotes_trans T cs w1 w2 w3 : demotes T cs w1 w2 -> demotes T cs w2 w3 -> demotes T cs w1 w3.
Proof.
  intros [A1 B1] [A2 B2]. split.
  - intros i. destruct (A1 i) as [E1|(? & E1 & ? & ?)], (A2 i) as [E2|(? & E2 & Hl & ?)].
    + left. congruence.
    + right. rewrite E1 in *. done.
    + right. rewrite E2. done.
    + rewrite E1 in Hl. cbn in Hl. lia.
  - intros q Hq. destruct (B1 q Hq) as [E1|?], (B2 q Hq) as [E2|?]; [left; congruence|right; lia..].
Qed.

Lemma demotes_mono T cs cs' w w' : (forall i, i ∈ cs -> i ∈ cs') -> demotes T cs w w' -> demotes T cs' w w'.
Proof. intros Hc [A B]. split; [|done]. intros i. destruct (A i) as [?|(? & ? & ? & ?)]; [by left|right; auto]. Qed.

Lemma delta_eq a b : delta a b = if decide (a = b) then 1 else 0.
Proof. done. Qed.

Lemma wf_size T w q : wf T w -> (q <= P)%nat ->
  size (sz (partInfo w q)) = cnt (fun i => p (array w i)) N q /\ 0 <= cnt (fun i => p (array w i)) N q <= Z.of_nat N.
Proof. intros W Hq. rewrite (f_size _ _ _ _ W q Hq). split; [lia|apply cnt_range]. Qed.

Lemma demote_ok T w id : wf T w -> 0 <= id < totalSize c -> (p (array w id) < P)%nat ->
  wf T (demote id w) /\ array (demote id w) = <[id := set_p P (array w id)]> (array w) /\
  candList (demote id w) = candList w /\
  (forall q, (q < P)%nat -> size (sz (partInfo (demote id w) q)) = size (sz (partInfo w q)) - delta (p (array w id)) q).
Proof.
  intros W Hid Hq. pose proof (co_total cfg_ok) as Hn.
  change (demote id w) with (at_part (p (array w id)) inc_dems (at_part (partitions (cfg w)) (add_size 1)
    (at_line id (set_p (partitions (cfg w))) (at_part (p (array w id)) (add_size (-1))
      (at_part (p (array w id)) inc_demotions w))))).
  rewrite !(f_cfg _ _ _ _ W).
  set (q := p (array w id)) in *. pose proof (wf_size T w q W ltac:(lia)) as [Hsz Hr].
  pose proof (cnt_pos (fun i => p (array w i)) N id ltac:(lia)) as Hpos. cbn beta in Hpos. fold q in Hpos.
  assert (wf T (at_part q inc_demotions w)) as W1 by (by apply wf_part).
  assert (size (sz (partInfo (at_part q inc_demotions w) q)) = size (sz (partInfo w q))) as Hs1.
  { rewrite part_at. by rewrite decide_True. }
  pose proof (wf_add_size (-1) q _ _ _ _ W1 ltac:(lia) ltac:(rewrite Hs1; unfold in_u64; lia)) as W2.
  set (w2 := at_part q (add_size (-1)) _) in *.
  pose proof (wf_set_p id P _ _ _ _ W2 Hid ltac:(lia)) as W3.
  change (p (array w2 id)) with q in W3. set (w3 := at_line id (set_p P) w2) in *.
  pose proof (f_size _ _ _ _ W3 P ltac:(lia)) as HsP. cbn beta in HsP.
  pose proof (cnt_range (fun i => p (array w3 i)) N P) as HrP.
  pose proof (delta_eq q P) as D1. pose proof (delta_eq P P) as D2. rewrite decide_False in D1 by lia. rewrite decide_True in D2 by done.
  pose proof (wf_add_size 1 P _ _ _ _ W3 ltac:(lia) ltac:(unfold in_u64; lia)) as W4.
  set (w4 := at_part P (add_size 1) w3) in *.
  assert (wf T (at_part q inc_dems w4)) as W5.
  { apply wf_part; [|done|done]. eapply wf_ext; [exact W4| |done|done]. intros r _. cbn. lia. }
  split; [exact W5|]. split; [done|]. split; [done|].
  intros r Hr'. rewrite (f_size _ _ _ _ W5 r) by lia. rewrite (f_size _ _ _ _ W r) by lia.
  rewrite (cnt_ext _ (fun i => p (array w3 i))) by done. unfold w3. rewrite (cnt_line p) by done.
  cbn. fold q. rewrite (delta_eq P r), decide_False by lia. lia.
Qed.

Lemma u64_sub a b : in_u64 a -> in_u64 b -> b <= a -> u64 (a - b) = a - b.
Proof. unfold in_u64. intros. apply u64_id. unfold in_u64. lia. Qed.

Lemma move_setpoint_stamp a i : stamp_ok (st i) -> stamp_ok (st (move_setpoint a i)).
Proof.
  intros Hs. unfold move_setpoint. destruct (Doubles.flt zero a); [|done].
  destruct Hs as (H1 & H2 & H3).
  destruct (Doubles.flt _ _); [|destruct (Doubles.flt _ _); [|done]]; cbn.
  - destruct (Z.ltb_spec (setpointBts (st i)) (curBts (st i))); [|done].
    rewrite u64_sub in H3 by (done || lia). unfold stamp_ok, in_u64 in *. cbn.
    rewrite (u64_id (_ + 1)) by (unfold in_u64; lia). split; [done|]. split; [lia|].
    rewrite u64_id by (unfold in_u64; lia). lia.
  - destruct (Z.ltb_spec (u64 (curBts (st i) - setpointBts (st i))) 255) as [Hlt|]; [|done].
    unfold stamp_ok. cbn. split; [done|]. split; [apply u64_range|].
    unfold u64 in *. rewrite Zminus_mod_idemp_r.
    replace (curBts (st i) - (setpointBts (st i) - 1)) with (curBts (st i) - setpointBts (st i) + 1) by lia.
    set (x := curBts (st i) - setpointBts (st i)) in *.
    rewrite <- Zplus_mod_idemp_l. pose proof (Z.mod_pos_bound x (2 ^ 64)). rewrite Z.mod_small by lia. lia.
Qed.

Lemma next_bts_stamp i : stamp_ok (st i) -> stamp_ok (st (next_bts i)).
Proof.
  intros (H1 & H2 & H3). unfold next_bts. cbn. destruct (_ <=? _); [|done].
  unfold stamp_ok. cbn. split; [apply u64_range|]. split; [apply u64_range|].
  unfold u64 in *. rewrite Zminus_mod_idemp_l, Zminus_mod_idemp_r.
  by replace (curBts (st i) + 1 - (setpointBts (st i) + 1)) with (curBts (st i) - setpointBts (st i)) by lia.
Qed.

Lemma adjust_ok T w q : wf T w -> (q < P)%nat -> 0 <= (T q).1 <= size (sz (partInfo w q)) ->
  exists w', adjust q w = Ok w' /\ wf T w' /\ array w' = array w /\ candList w' = candList w /\
    (forall r, sz (partInfo w' r) = sz (partInfo w r)).
Proof.
  intros W Hq Ht. unfold adjust. destruct (256 <=? _); [|by exists w].
  pose proof (f_T _ _ _ _ W q ltac:(lia)) as E. pose proof (f_equal fst E) as E1. cbn in E1. rewrite E1.
  rewrite (f_cfg _ _ _ _ W). pose proof (wf_size T w q W ltac:(lia)) as [Hs Hr]. pose proof (co_total cfg_ok).
  destruct (co_aperture cfg_ok (T q).1 (size (sz (partInfo w q))) Ht ltac:(lia)) as [a ->].
  cbn [mbind res_bind]. eexists. split; [done|].
  assert (wf T (at_part q (move_setpoint a) w)) as W1.
  { apply wf_part; [done| |apply move_setpoint_stamp]. unfold move_setpoint. by repeat case_match. }
  split; [by apply wf_part|]. split; [done|]. split; [done|]. intros r. rewrite !part_at.
  destruct (decide (r = q)) as [->|]; [|done]. rewrite decide_True by done. cbn. unfold move_setpoint. by repeat case_match.
Qed.

Lemma demote_step_ok T w id : wf T w -> budget T -> 0 <= id < totalSize c ->
  exists w', demote_step w id = Ok w' /\ wf T w' /\ candList w' = candList w /\ demotes T [id] w w'.
Proof.
  intros W HB Hid. unfold demote_step. set (q := p (array w id)).
  destruct (Z.eqb_spec (ts (array w id)) 0) as [|Hts]; [exists w; split_and!; [done..|apply demotes_refl]|].
  unfold unmanaged. rewrite (f_cfg _ _ _ _ W).
  destruct (Nat.eqb_spec q P) as [|Hne]; [exists w; split_and!; [done..|apply demotes_refl]|].
  assert (q < P)%nat as Hq by (pose proof (f_line _ _ _ _ W id Hid); unfold q in *; lia).
  pose proof (f_T _ _ _ _ W q ltac:(lia)) as E. pose proof (f_equal fst E) as E1. cbn in E1. rewrite E1.
  pose proof (wf_size T w q W ltac:(lia)) as [Hs Hr].
  pose proof (co_total cfg_ok) as Hn. rewrite u32_id by (unfold in_u32; lia).
  assert (0 <= (T q).1) as HT by (apply HB, elem_of_seq; lia).
  destruct (Z.leb_spec (size (sz (partInfo w q))) (T q).1) as [|Hgt]; [exists w; split_and!; [done..|apply demotes_refl]|].
  set (w1 := if below_setpoint _ _ then demote id w else w).
  assert (wf T w1 /\ candList w1 = candList w /\ demotes T [id] w w1 /\ (T q).1 <= size (sz (partInfo w1 q))) as (W1 & C1 & D1 & T1).
  { unfold w1. destruct (below_setpoint _ _); [|split_and!; [done|done|apply demotes_refl|lia]].
    destruct (demote_ok T w id W Hid Hq) as (W' & A' & C' & S'). split; [done|]. split; [done|]. fold q in S'. split; [split|].
    - intros i. rewrite A'. destruct (decide (i = id)) as [->|]; [right|left; by rewrite fn_lookup_insert_ne].
      rewrite fn_lookup_insert. split_and!; [by apply list_elem_of_singleton|done|done|done].
    - intros r Hr'. rewrite S' by done. rewrite delta_eq. destruct (decide (q = r)) as [<-|]; [right|left]; lia.
    - rewrite S' by done. rewrite delta_eq, decide_True by done. lia. }
  assert (wf T (at_part q inc_cands w1)) as W2 by (by apply wf_part).
  assert (forall r, sz (partInfo (at_part q inc_cands w1) r) = sz (partInfo w1 r)) as S2.
  { intros r. rewrite part_at. by destruct (decide (r = q)) as [->|]. }
  destruct (adjust_ok T _ q W2 Hq) as (w' & Ha & W' & A' & C' & S'); [rewrite S2; lia|].
  exists w'. split; [done|]. split; [done|]. split; [by rewrite C', <- C1|]. destruct D1 as [D1 D2].
  split; [intros i; rewrite A'; apply D1|]. intros r Hr'. rewrite S', S2. by apply D2.
Qed.

Lemma demote_all_ok T l : forall w, wf T w -> budget T -> (forall id, id ∈ l -> 0 <= id < totalSize c) ->
  exists w', foldM demote_step w l = Ok w' /\ wf T w' /\ candList w' = candList w /\ demotes T l w w'.
Proof.
  induction l as [|id l IH]; intros w W HB Hl; cbn [foldM]; [exists w; split_and!; [done..|apply demotes_refl]|].
  destruct (demote_step_ok T w id W HB) as (w1 & -> & W1 & C1 & D1); [apply Hl; by left|].
  destruct (IH w1 W1 HB) as (w' & E & W' & C' & D'); [intros i Hi; apply Hl; by right|].
  exists w'. cbn [mbind res_bind]. split; [done|]. split; [done|]. split; [congruence|].
  apply (demotes_trans _ _ _ w1); (eapply demotes_mono; [|eassumption]).
  - intros i ->%list_elem_of_singleton. by left.
  - intros i Hi. by right.
Qed.

(** *** The victim *)

(** Unmanaged lines first, then the least recently used. *)
Definition key w (id : Z) : Z :=
  (if (p (array w id) =? unmanaged w)%nat then 0 else 2 ^ 64) + ts (array w id).

Lemma better_key w a b : (forall i, in_u64 (ts (array w i))) ->
  better w a b = if key w b <? key w a then b else a.
Proof.
  intros Hts. pose proof (Hts a) as Ha. pose proof (Hts b) as Hb. unfold better, key, in_u64 in *.
  destruct (p (array w a) =? unmanaged w)%nat, (p (array w b) =? unmanaged w)%nat; cbn;
    repeat match goal with |- context [?x <? ?y] => destruct (Z.ltb_spec x y) end; done || lia.
Qed.

(** The first empty candidate, or one that no candidate comes before. *)
Definition is_victim w (cs : list Z) (id : Z) : Prop :=
  (exists l1 l2, cs = l1 ++ id :: l2 /\ ts (array w id) = 0 /\ forall x, x ∈ l1 -> ts (array w x) <> 0) \/
  ((forall x, x ∈ cs -> ts (array w x) <> 0) /\ id ∈ cs /\ forall x, x ∈ cs -> key w id <= key w x).

Lemma vt_pick_spec w l : (forall i, in_u64 (ts (array w i))) -> forall b, (forall i, i ∈ b :: l -> 0 <= i < 2 ^ 31) ->
  (exists l1 l2, l = l1 ++ pick w b l :: l2 /\ ts (array w (pick w b l)) = 0 /\ forall x, x ∈ l1 -> ts (array w x) <> 0) \/
  ((forall x, x ∈ l -> ts (array w x) <> 0) /\ pick w b l ∈ b :: l /\ forall x, x ∈ b :: l -> key w (pick w b l) <= key w x).
Proof.
  intros Hts. induction l as [|id l IH]; intros b Hl; cbn [pick].
  - right. split; [by intros x ?%not_elem_of_nil|]. split; [by left|]. intros x [->|?%not_elem_of_nil]%elem_of_cons; [lia|done].
  - assert (forall i, 0 <= i < 2 ^ 31 -> i32 i = i) as Hi32 by (intros i Hi; unfold i32; rewrite Z.mod_small; lia).
    assert (0 <= id < 2 ^ 31) as Hid by (apply Hl; by right; left). assert (0 <= b < 2 ^ 31) as Hb by (apply Hl; by left).
    destruct (Z.eqb_spec (ts (array w id)) 0) as [He|He].
    + left. rewrite Hi32 by done. exists [], l. split; [done|]. split; [done|]. by intros x ?%not_elem_of_nil.
    + rewrite better_key by done. set (b' := if key w id <? key w b then id else b).
      assert (b' = id \/ b' = b) as Hb' by (unfold b'; case_match; auto).
      assert (key w b' <= key w id /\ key w b' <= key w b) as Hk by (unfold b'; destruct (Z.ltb_spec (key w id) (key w b)); lia).
      rewrite (Hi32 b') by (destruct Hb' as [->| ->]; done).
      destruct (IH b') as [(l1 & l2 & E1 & E2 & E3)|(E1 & E2 & E3)].
      * intros i [->|Hi]%elem_of_cons; [destruct Hb' as [->| ->]; done|]. apply Hl. by right; right.
      * left. exists (id :: l1), l2. split; [by rewrite E1 at 1|]. split; [done|].
        intros x [->|Hx]%elem_of_cons; [done|by apply E3].
      * right. split; [intros x [->|Hx]%elem_of_cons; [done|by apply E1]|]. split.
        { apply elem_of_cons in E2 as [->|E2]; [destruct Hb' as [->| ->]; [by right; left|by left]|by right; right]. }
        pose proof (E3 b' ltac:(by left)). intros x [->|[->|Hx]%elem_of_cons]%elem_of_cons; [lia|lia|].
        apply E3. by right.
Qed.

Lemma vt_record_all T cs : forall w, wf T w -> (length (candList w) + length cs <= assoc c)%nat ->
  foldM recordCandidate w cs = Ok (set_cands (candList w ++ cs) w).
Proof.
  induction cs as [|id cs IH]; intros w W Hl; cbn [foldM].
  - rewrite app_nil_r. by destruct w.
  - cbn [length] in Hl. assert (recordCandidate w id = Ok (set_cands (candList w ++ [id]) w)) as ->.
    { unfold recordCandidate. rewrite (f_cfg _ _ _ _ W). by rewrite (proj2 (Nat.ltb_lt _ _)) by lia. }
    cbn [mbind res_bind]. rewrite IH; [|by apply wf_cands|cbn; rewrite length_app; cbn; lia]. cbn. by rewrite <- app_assoc.
Qed.

Lemma rank_ok T w req cs : wf T w -> budget T -> candList w = [] -> cs <> [] -> (length cs <= assoc c)%nat ->
  (forall id, id ∈ cs -> 0 <= id < totalSize c) ->
  exists id w', rank req cs w = Ok (id, w') /\ wf T w' /\ demotes T cs w w' /\ candList w' = cs /\ id ∈ cs /\
    is_victim w' cs id.
Proof.
  intros W HB Hc Hne Hlen Hcs. unfold rank.
  assert (wf T (startReplacement req w)) as W1 by (by apply vt_wf_incoming).
  rewrite (vt_record_all T) by (cbn; rewrite ?Hc; cbn; done). cbn [mbind res_bind candList startReplacement set_incoming].
  rewrite Hc. cbn [app]. set (w2 := set_cands cs _). assert (wf T w2) as W2 by (by apply wf_cands).
  unfold getBestCandidate. rewrite (f_cfg _ _ _ _ W2). cbn [candList w2 set_cands].
  assert (0 < length cs)%nat by (destruct cs; cbn; [done|lia]).
  rewrite (proj2 (Nat.ltb_lt _ _)), (proj2 (Nat.leb_le _ _)) by done. cbn [assert_that mbind res_bind].
  destruct (demote_all_ok T cs w2 W2 HB Hcs) as (w' & E & W' & C' & D'). unfold mbind, res_bind. cbn in E, C'.
  rewrite E, C'. pose proof (co_total cfg_ok) as Hn.
  assert (forall i, i ∈ cs -> i32 i = i) as Hi32.
  { intros i Hi. specialize (Hcs i Hi). unfold i32. rewrite Z.mod_small; lia. }
  assert (hd 0 cs ∈ cs) as Hhd by (destruct cs; [done|by left]). rewrite Hi32 by done.
  set (id := pick _ _ _). assert (is_victim w' cs id /\ id ∈ cs) as [Hv Hin].
  { destruct (vt_pick_spec w' cs (f_ts _ _ _ _ W') (hd 0 cs)) as [(l1 & l2 & E1 & E2 & E3)|(E1 & E2 & E3)].
    - intros i [->|Hi]%elem_of_cons; [specialize (Hcs _ Hhd)|specialize (Hcs i Hi)]; lia.
    - split; [left; by exists l1, l2|]. fold id in E1. rewrite E1. apply elem_of_app. right. by left.
    - fold id in E2, E3. assert (id ∈ cs) by (apply elem_of_cons in E2 as [->|]; done). split; [|done].
      right. split; [done|]. split; [done|]. intros x Hx. apply E3. by right. }
  specialize (Hcs id Hin). rewrite (f_cfg _ _ _ _ W'), u32_id by (unfold in_u32; lia).
  rewrite (proj2 (Z.leb_le _ _)), (proj2 (Z.ltb_lt _ _)) by lia. cbn [andb assert_that].
  exists id, w'. by split_and!.
Qed.

(** *** Hits, and the line that comes in *)

Lemma vt_wf_replaced T w id : wf T w -> wf T (replaced id w).
Proof. intros W. apply wf_line; [by apply wf_cands|done|done|]. unfold in_u64. cbn. lia. Qed.

(** An access of partition [q] keeps the invariant and the sum of the targets. *)
Definition kept (T : nat -> Z * Z) w w' : Prop :=
  candList w' = candList w /\ exists T', wf T' w' /\ budget T' /\
    sumz (fun r => (T' r).1) qs = sumz (fun r => (T r).1) qs.

Lemma promote_ok T w id req q : wf T w -> 0 <= id < totalSize c -> p (array w id) = P ->
  getPartition procIdx (mapper c) req = Ok q -> (q < P)%nat ->
  exists w', promote procIdx req id w = Ok w' /\ wf T w' /\ candList w' = candList w /\
    array w' = <[id := set_p q (array w id)]> (array w).
Proof.
  intros W Hid Hp Hg Hq. pose proof (co_total cfg_ok) as Hn. unfold promote. rewrite (f_cfg _ _ _ _ W), Hg.
  cbn [mbind res_bind]. set (w1 := set_profile _ _ _ _).
  assert (wf_off (fun r => 0 + delta P r - delta q r) (fun _ => 0) T w1) as W1.
  { unfold w1. apply wf_profile. pose proof (wf_set_p id q _ _ _ _ W Hid ltac:(lia)) as X. by rewrite Hp in X. }
  assert (unmanaged w1 = P) as EP by (unfold unmanaged; by rewrite (f_cfg _ _ _ _ W1)).
  change (unmanaged (at_part q (add_size 1) (at_part q inc_ins w1))) with (unmanaged w1). rewrite EP.
  assert (wf_off (fun r => 0 + delta P r - delta q r) (fun _ => 0) T (at_part q inc_ins w1)) as W2 by (by apply wf_part).
  set (w2 := at_part q inc_ins w1) in *.
  pose proof (f_size _ _ _ _ W2 q ltac:(lia)) as Hs. cbn beta in Hs. rewrite !delta_eq, decide_False, decide_True in Hs by lia.
  pose proof (cnt_pos (fun i => p (array w2 i)) N id ltac:(lia)) as Hpos. cbn beta in Hpos.
  assert (p (array w2 id) = q) as Hpq.
  { change (array w2) with (array (at_line id (set_p q) w)). rewrite line_at, decide_True by done. done. }
  rewrite Hpq in Hpos. pose proof (cnt_range (fun i => p (array w2 i)) N q) as Hr.
  pose proof (wf_add_size 1 q _ _ _ _ W2 ltac:(lia) ltac:(unfold in_u64; lia)) as W3. set (w3 := at_part q (add_size 1) w2) in *.
  pose proof (f_size _ _ _ _ W3 P ltac:(lia)) as HsP. cbn beta in HsP.
  rewrite !delta_eq, (decide_False (P := q = P)), (decide_True (P := P = P)) in HsP by lia.
  pose proof (cnt_range (fun i => p (array w3 i)) N P) as HrP.
  pose proof (wf_add_size (-1) P _ _ _ _ W3 ltac:(lia) ltac:(unfold in_u64; lia)) as W4.
  eexists. split; [done|]. split; [|done]. eapply wf_ext; [exact W4| |done|done]. intros r _. cbn. lia.
Qed.

Lemma update_hit_ok T w id req q : wf T w -> 0 <= id < totalSize c ->
  getPartition procIdx (mapper c) req = Ok q -> (q < P)%nat ->
  exists w', update_hit procIdx req id w = Ok w' /\ wf T w' /\ candList w' = candList w /\ (p (array w' id) < P)%nat.
Proof.
  intros W Hid Hg Hq. unfold update_hit. pose proof (f_line _ _ _ _ W id Hid) as [Hl _].
  assert (exists w1, (if (p (array w id) =? unmanaged w)%nat then promote procIdx req id w else Ok w) = Ok w1 /\
    wf T w1 /\ candList w1 = candList w /\ (p (array w1 id) < P)%nat) as (w1 & -> & W1 & C1 & L1).
  { unfold unmanaged. rewrite (f_cfg _ _ _ _ W). destruct (Nat.eqb_spec (p (array w id)) P) as [He|He].
    - destruct (promote_ok T w id req q W Hid He Hg Hq) as (w1 & E & W1 & C1 & A1). exists w1. split_and!; try done.
      rewrite A1, fn_lookup_insert. done.
    - exists w. split_and!; try done. lia. }
  cbn [mbind res_bind]. eexists. split; [done|]. split; [by apply wf_part; [apply wf_touch|..]|]. split; [done|].
  cbn. by rewrite fn_lookup_insert.
Qed.

Lemma update_miss_ok T w id req q : wf T w -> budget T -> 0 <= id < totalSize c ->
  getPartition procIdx (mapper c) req = Ok q -> (q < P)%nat ->
  safe (update_miss procIdx req id w) (fun w' => kept T w w' /\ (p (array w' id) < P)%nat).
Proof.
  intros W HB Hid Hg Hq. pose proof (co_total cfg_ok) as Hn. unfold update_miss. set (w0 := touch id w).
  assert (wf T w0) as W0 by (by apply wf_touch).
  set (a := p (array w0 id)). set (b := op (array w0 id)).
  destruct (f_line _ _ _ _ W0 id Hid) as [Ha Hb]. fold a in Ha. fold b in Hb.
  pose proof (f_size _ _ _ _ W0 a Ha) as Hsa. cbn beta in Hsa.
  pose proof (cnt_pos (fun i => p (array w0 i)) N id ltac:(lia)) as Hpa. cbn beta in Hpa. fold a in Hpa.
  pose proof (cnt_range (fun i => p (array w0 i)) N a) as Hra.
  pose proof (wf_add_size (-1) a _ _ _ _ W0 Ha ltac:(unfold in_u64; lia)) as W1.
  assert (wf_off (fun r => 0 + -1 * delta a r) (fun _ => 0) T (at_part a inc_evictions (at_part a (add_size (-1)) w0))) as W2
    by (by apply wf_part). set (w2 := at_part a inc_evictions _) in *.
  change (array w2 id) with (array w0 id). fold b.
  pose proof (f_ext _ _ _ _ W2 b Hb) as Hsb. cbn beta in Hsb.
  pose proof (cnt_pos (fun i => op (array w2 i)) N id ltac:(lia)) as Hpb. cbn beta in Hpb.
  change (op (array w2 id)) with b in Hpb. pose proof (cnt_range (fun i => op (array w2 i)) N b) as Hrb.
  pose proof (wf_add_ext (-1) b _ _ _ _ W2 Hb ltac:(unfold in_u64; lia)) as W3. set (w3 := at_part b (add_ext (-1)) w2) in *.
  rewrite (f_cfg _ _ _ _ W3), Hg. cbn [mbind res_bind].
  pose proof (wf_set_p_op id q _ _ _ _ W3 Hid ltac:(lia)) as W4. cbn beta in W4.
  change (p (array w3 id)) with a in W4. change (op (array w3 id)) with b in W4.
  set (w4 := at_line id (set_p_op q) w3) in *.
  set (d4 := fun r => 0 + -1 * delta a r + delta a r - delta q r) in W4.
  set (e4 := fun r => 0 + -1 * delta b r + delta b r - delta q r) in W4.
  assert (wf_off d4 e4 T (at_part q inc_ins w4)) as W5 by (by apply wf_part). set (w5 := at_part q inc_ins w4) in *.
  assert (array w5 id = set_p_op q (array w3 id)) as A5.
  { change (array w5) with (array w4). unfold w4. rewrite line_at, decide_True by done. done. }
  pose proof (f_size _ _ _ _ W5 q ltac:(lia)) as Hsq. unfold d4 in Hsq. rewrite (delta_eq q q), (decide_True (P := q = q)) in Hsq by done.
  pose proof (cnt_pos (fun i => p (array w5 i)) N id ltac:(lia)) as Hpq. cbn beta in Hpq. rewrite A5 in Hpq. cbn [p set_p_op] in Hpq.
  pose proof (cnt_range (fun i => p (array w5 i)) N q) as Hrq.
  pose proof (wf_add_size 1 q _ _ _ _ W5 ltac:(lia) ltac:(unfold in_u64; lia)) as W6. set (w6 := at_part q (add_size 1) w5) in *.
  pose proof (f_ext _ _ _ _ W6 q ltac:(lia)) as Heq. unfold e4 in Heq. rewrite (delta_eq q q), (decide_True (P := q = q)) in Heq by done.
  pose proof (cnt_pos (fun i => op (array w6 i)) N id ltac:(lia)) as Hpe. cbn beta in Hpe.
  change (array w6) with (array w5) in Hpe at 2. rewrite A5 in Hpe. cbn [op set_p_op] in Hpe.
  pose proof (cnt_range (fun i => op (array w6 i)) N q) as Hre.
  pose proof (wf_add_ext 1 q _ _ _ _ W6 ltac:(lia) ltac:(unfold in_u64; lia)) as W7. set (w7 := at_part q (add_ext 1) w6) in *.
  assert (wf T (at_part q inc_misses w7)) as W8.
  { apply wf_part; [|done|done]. eapply wf_ext; [exact W7| | |done]; intros r _; unfold d4, e4; lia. }
  eapply safe_mono; [by apply (grow_ok (fun _ => 0) (fun _ => 0) T)|]. cbn beta. intros w' (A' & C' & T' & W' & B' & _ & S').
  split; [split; [exact C'|by exists T']|]. rewrite A'.
  change (array (at_part q inc_misses w7)) with (array w5). by rewrite A5.
Qed.

Lemma vt_update_ok T w id req q glob : wf T w -> budget T -> 0 <= id < totalSize c ->
  getPartition procIdx (mapper c) req = Ok q -> (q < P)%nat ->
  safe (update procIdx glob id req w) (kept T w).
Proof.
  intros W HB Hid Hg Hq. unfold update. destruct (wf_count glob _ _ _ _ W) as (W1 & A1 & C1).
  set (w1 := count_cycles glob w) in *. apply safe_bind.
  eapply (safe_mono _ (fun w' => kept T w1 w' /\ (p (array w' id) < P)%nat)).
  - destruct (0 <? ts (array w1 id)); [|by apply (update_miss_ok T w1 id req q)].
    destruct (update_hit_ok T w1 id req q W1 Hid Hg Hq) as (w' & -> & W' & C' & L'). cbn.
    split; [|done]. split; [done|]. by exists T.
  - intros w2 ((C2 & T2 & W2 & B2 & S2) & L2). apply safe_bind.
    destruct (f_mon _ _ _ _ W2) as (M1 & M2 & M3).
    destruct (mon_access_ok (monitor w2) (p (array w2 id)) (addr (array w2 id)) M1 M2) as (m' & -> & M4 & M5 & M6 & M7); [lia|].
    cbn. split; [change (candList w2 = candList w); congruence|]. exists T2. split; [|done].
    apply (wf_part _ next_bts); [|done|apply next_bts_stamp].
    apply (wf_line id); [|done|done|apply (f_ts _ _ _ _ W2)].
    destruct W2. split; try done. split_and!; [done|done|]. cbn. lia.
Qed.

(** *** New sizes *)

Section resize.
Context (parts : list nat).

(** What becomes of the target [t] of a partition of [z] lines that is to have [s]. *)
Definition new_target (t s z : Z) : Z :=
  if smoothTransients c then (if t <? s then u32 (Z.max t (Z.min s (u64 (z + 1)))) else t) else s.
Definition taken (t s z : Z) : Z := if smoothTransients c then new_target t s z - t else 0.

Definition share (q : nat) : Z := u32 (totalSize c * Z.of_nat (parts !!! q)) / partGranularity c.

Lemma sizes_fold l : NoDup l -> (forall q, q ∈ l -> (q < P)%nat) -> forall acc w T, wf T w ->
  let nt w T q := new_target (T q).1 (share q) (size (sz (partInfo w q))) in
  let tk w T q := taken (T q).1 (share q) (size (sz (partInfo w q))) in
  (forall q, q ∈ l -> 0 <= tk w T q) -> 0 <= acc -> acc + sumz (tk w T) l < 2 ^ 32 ->
  exists w' T', fold_left (size_step parts) l (acc, w) = (acc + sumz (tk w T) l, w') /\ wf T' w' /\
    (forall q, T' q = if decide (q ∈ l) then (nt w T q, share q) else T q) /\
    candList w' = candList w.
Proof.
  intros Hnd. induction Hnd as [|q l Hq Hnd IH]; intros Hl acc w T W nt tk Htk Ha Hs; cbn [fold_left sumz] in *.
  { exists w, T. rewrite Z.add_0_r. by split_and!. }
  assert (q < P)%nat as HqP by (apply Hl; by left). pose proof (Htk q ltac:(by left)) as Hk.
  assert (0 <= sumz (tk w T) l) by (apply sumz_nonneg; intros r Hr; apply Htk; by right).
  assert (exists w1, size_step parts (acc, w) q = (acc + tk w T q, w1) /\ wf (<[q := (nt w T q, share q)]> T) w1 /\
    candList w1 = candList w /\ forall r, size (sz (partInfo w1 r)) = size (sz (partInfo w r))) as (w1 & E1 & W1 & C1 & S1).
  { unfold size_step, part_lines. rewrite !(f_cfg _ _ _ _ W). fold (share q).
    pose proof (f_T _ _ _ _ W q ltac:(lia)) as ET. pose proof (f_equal fst ET) as E1. cbn in E1. rewrite E1.
    unfold tk, nt, taken, new_target in *. clear tk nt. destruct (smoothTransients c).
    - destruct (Z.ltb_spec (T q).1 (share q)) as [Hlt|Hge].
      + eexists. split; [f_equal; rewrite u32_id; [lia|unfold in_u32; lia]|].
        split; [|split; [done|]].
        * eapply wf_ext; [apply (wf_set_targets _ _ q _ _ _ _ (wf_set_targets _ _ q _ _ _ _ W ltac:(lia)) ltac:(lia))|done|done|].
          intros r _. destruct (decide (r = q)) as [->|]; [by rewrite !fn_lookup_insert|by rewrite !fn_lookup_insert_ne].
        * intros r. rewrite !part_at. destruct (decide (r = q)) as [->|]; [rewrite decide_True by done|]; done.
      + eexists. split; [f_equal; lia|]. split; [apply (wf_set_targets _ _ q _ _ _ _ W); lia|]. split; [done|].
        intros r. rewrite !part_at. by destruct (decide (r = q)) as [->|].
    - eexists. split; [f_equal; lia|]. split; [apply (wf_set_targets _ _ q _ _ _ _ W); lia|]. split; [done|].
      intros r. rewrite !part_at. by destruct (decide (r = q)) as [->|]. }
  set (T1 := <[q := (nt w T q, share q)]> T) in *.
  assert (forall r, r ∈ l -> T1 r = T r) as HT1.
  { intros r Hr. unfold T1. rewrite fn_lookup_insert_ne; [done|]. by intros ->. }
  assert (forall r, r ∈ l -> taken (T1 r).1 (share r) (size (sz (partInfo w1 r))) = tk w T r) as Htk1.
  { intros r Hr. rewrite HT1, S1 by done. done. }
  rewrite E1. destruct (IH ltac:(intros r Hr; apply Hl; by right) (acc + tk w T q) w1 T1 W1) as (w' & T' & E & W' & H1 & H2).
  - intros r Hr. rewrite Htk1 by done. apply Htk. by right.
  - lia.
  - rewrite (sumz_ext _ (tk w T)) by done. lia.
  - exists w', T'. rewrite E. split; [f_equal; rewrite (sumz_ext _ (tk w T)) by done; lia|]. split; [done|].
    split; [|congruence]. intros r. rewrite H1. destruct (decide (r ∈ l)) as [Hr|Hr].
    + rewrite decide_True by (by right). by rewrite HT1, S1 by done.
    + destruct (decide (r = q)) as [->|Hne].
      * rewrite decide_True by (by left). unfold T1. by rewrite fn_lookup_insert.
      * rewrite decide_False by (intros [?|?]%elem_of_cons; done). unfold T1. by rewrite fn_lookup_insert_ne.
Qed.

Lemma takeLines_ok n : forall w T, wf T w -> smoothTransients c = true ->
  (forall q, q ∈ qs -> 0 <= (T q).1 /\ 0 <= (T q).2) -> sumz (fun q => (T q).1) qs < 2 ^ 31 ->
  sumz (fun q => (T q).2) qs + Z.of_nat n <= sumz (fun q => (T q).1) qs ->
  safe (takeLines n w) (fun w' => candList w' = candList w /\ exists T', wf T' w' /\
    (forall q, q ∈ qs -> 0 <= (T' q).1 /\ (T' q).2 = (T q).2) /\
    sumz (fun q => (T' q).1) qs = sumz (fun q => (T q).1) qs - Z.of_nat n).
Proof.
  induction n as [|n IH]; intros w T W Hsm HT H1 H2; cbn [takeLines].
  { split; [done|]. exists T. split; [done|]. split; [|lia]. intros q Hq. split; [by apply HT|done]. }
  assert (sumz (fun r => (T r).1 - (T r).2) qs <= sumz (excess T) qs) as S3 by (apply sumz_le; unfold excess; lia).
  rewrite sumz_minus in S3. pose proof (sumz_nonneg (fun q => (T q).2) qs (fun q Hq => proj2 (HT q Hq))).
  apply safe_bind. eapply safe_mono; [apply (takeOneLine_ok (fun _ => 0) (fun _ => 0) T); [done|done|done|lia|lia|lia]|].
  cbn beta. intros w1 (_ & C1 & q & Hq & Hlt & W1). set (T1 := <[q := ((T q).1 - 1, (T q).2)]> T) in *.
  assert (sumz (fun s => (T1 s).1) qs = sumz (fun r => (T r).1) qs - 1) as S4.
  { unfold T1. rewrite (sumz_insert fst) by (done || apply NoDup_seq). cbn. lia. }
  assert (forall r, (T1 r).2 = (T r).2) as S5.
  { intros r. unfold T1. destruct (decide (r = q)) as [->|]; [by rewrite fn_lookup_insert|by rewrite fn_lookup_insert_ne]. }
  assert (forall r, r ∈ qs -> 0 <= (T1 r).1 /\ 0 <= (T1 r).2) as HT1.
  { intros r Hr. rewrite S5. destruct (HT r Hr), (HT q Hq). split; [|done]. unfold T1.
    destruct (decide (r = q)) as [->|]; [rewrite fn_lookup_insert; cbn; lia|by rewrite fn_lookup_insert_ne]. }
  eapply safe_mono; [apply (IH w1 T1 W1 Hsm HT1); [lia|]|].
  - rewrite (sumz_ext (fun q => (T1 q).2) (fun q => (T q).2)) by done. lia.
  - cbn beta. intros w' (C' & T' & W' & HT' & S'). split; [congruence|]. exists T'. split; [done|].
    split; [|lia]. intros r Hr. rewrite <- S5. by apply HT'.
Qed.

Lemma setPartitionSizes_ok w T : wf T w -> budget T -> 0 < partGranularity c ->
  (smoothTransients c = true -> sumz share qs <= sumz (fun q => (T q).1) qs) ->
  safe (setPartitionSizes parts w) (fun w' => candList w' = candList w /\ exists T', wf T' w' /\ budget T' /\
    (forall q, q ∈ qs -> (T' q).2 = share q) /\
    (smoothTransients c = true -> sumz (fun q => (T' q).1) qs = sumz (fun q => (T q).1) qs)).
Proof.
  intros W [HT HB] Hg Hsum. unfold setPartitionSizes. rewrite (f_cfg _ _ _ _ W).
  assert (forall q, 0 <= share q < 2 ^ 32) as Hsh.
  { intros q. unfold share. pose proof (u32_range (totalSize c * Z.of_nat (parts !!! q))) as Hu. unfold in_u32 in Hu.
    split; [apply Z.div_pos; lia|]. apply Z.div_lt_upper_bound; nia. }
  set (tk := fun q => taken (T q).1 (share q) (size (sz (partInfo w q)))).
  set (nt := fun q => new_target (T q).1 (share q) (size (sz (partInfo w q)))).
  assert (forall q, q ∈ qs -> 0 <= tk q /\ (smoothTransients c = true -> (T q).1 <= nt q <= Z.max (T q).1 (share q) /\ tk q = nt q - (T q).1)) as Htk.
  { intros q Hq. unfold tk, nt, taken, new_target. destruct (smoothTransients c); [|done].
    destruct (HT q Hq) as [Ht _]. destruct (Z.ltb_spec (T q).1 (share q)); [|split; [lia|intros _; split; [lia|done]]].
    pose proof (u64_range (size (sz (partInfo w q)) + 1)) as Hu. unfold in_u64 in Hu. specialize (Hsh q).
    rewrite u32_id by (unfold in_u32; lia). split; [lia|]. intros _. split; [lia|done]. }
  assert (0 <= sumz tk qs < 2 ^ 31 /\ (smoothTransients c = true -> sumz nt qs = sumz (fun q => (T q).1) qs + sumz tk qs)) as [Hst Hsn].
  { split.
    - split; [apply sumz_nonneg; apply Htk|]. destruct (smoothTransients c) eqn:Hsm.
      + destruct HB as [HB1 HB2]. specialize (Hsum eq_refl).
        assert (sumz tk qs <= sumz share qs); [|lia]. apply sumz_le. intros q Hq.
        destruct (Htk q Hq) as [_ Hx]. destruct (Hx eq_refl), (HT q Hq). specialize (Hsh q). lia.
      + assert (sumz tk qs = sumz (fun _ => 0) qs) as -> by (apply sumz_ext; intros q _; unfold tk, taken; by rewrite Hsm).
        clear. induction qs; cbn; lia.
    - intros Hsm. assert (sumz tk qs = sumz (fun q => nt q - (T q).1) qs) as ->; [|rewrite sumz_minus; lia].
      apply sumz_ext. intros q Hq. by apply (Htk q Hq). }
  destruct (sizes_fold qs ltac:(apply NoDup_seq) ltac:(intros q Hq%elem_of_seq; lia) 0 w T W) as (w' & T' & E & W' & HT' & C');
    [intros q Hq; by apply Htk|lia|fold tk; lia|].
  fold tk in E. rewrite E. rewrite Z.add_0_l.
  assert (forall q, q ∈ qs -> T' q = (nt q, share q)) as HT2 by (intros q Hq; rewrite HT'; by rewrite decide_True).
  destruct (smoothTransients c) eqn:Hsm.
  - destruct HB as [HB1 HB2]. specialize (Hsum eq_refl). specialize (Hsn eq_refl).
    assert (sumz (fun q => (T' q).1) qs = sumz nt qs) as S1 by (apply sumz_ext; intros q Hq; by rewrite HT2).
    assert (sumz (fun q => (T' q).2) qs = sumz share qs) as S2 by (apply sumz_ext; intros q Hq; by rewrite HT2).
    assert (sumz tk qs <= sumz share qs) as S3.
    { apply sumz_le. intros q Hq. destruct (Htk q Hq) as [_ Hx]. destruct (Hx eq_refl), (HT q Hq). specialize (Hsh q). lia. }
    eapply safe_mono; [apply (takeLines_ok _ w' T' W' Hsm)|].
    + intros q Hq. rewrite HT2 by done. cbn. destruct (Htk q Hq) as [_ Hx]. destruct (Hx eq_refl), (HT q Hq). specialize (Hsh q). lia.
    + lia.
    + lia.
    + cbn beta. intros w2 (C2 & T2 & W2 & HT3 & S4). split; [congruence|]. exists T2. split; [done|].
      assert (sumz (fun q => (T2 q).2) qs = sumz share qs) as S5.
      { rewrite <- S2. apply sumz_ext. intros q Hq. by apply HT3. }
      split; [split|split].
      * intros q Hq. destruct (HT3 q Hq) as [? ->]. split; [done|]. rewrite HT2 by done. apply Hsh.
      * rewrite Hsm. lia.
      * intros q Hq. destruct (HT3 q Hq) as [_ ->]. by rewrite HT2.
      * intros _. lia.
  - assert (sumz tk qs = 0) as ->.
    { rewrite (sumz_ext _ (fun _ => 0)); [clear; induction qs; cbn; lia|]. intros q _. unfold tk, taken. by rewrite Hsm. }
    cbn. split; [done|]. exists T'. split; [done|]. split; [split|split; [|done]].
    + intros q Hq. rewrite HT2 by done. cbn. unfold nt, new_target. rewrite Hsm. specialize (Hsh q). lia.
    + rewrite Hsm. intros q Hq. rewrite HT2 by done. cbn. unfold nt, new_target. by rewrite Hsm.
    + intros q Hq. by rewrite HT2.
Qed.
End resize.

(** *** Sequences of operations *)

Definition targets w (q : nat) : Z * Z := (targetSize (sz (partInfo w q)), longTermTargetSize (sz (partInfo w q))).

Definition inv w : Prop := wf (targets w) w /\ budget (targets w) /\ candList w = [].

Lemma inv_intro T w : wf T w -> budget T -> candList w = [] -> inv w.
Proof.
  intros W [HT HB] Hc.
  assert (forall q, q ∈ qs -> targets w q = T q) as E by (intros q Hq%elem_of_seq; apply (f_T _ _ _ _ W); lia).
  split; [|split; [|done]].
  - eapply wf_ext; [exact W|done|done|]. intros q Hq. by apply (f_T _ _ _ _ W).
  - split; [intros q Hq; rewrite E by done; by apply HT|]. destruct (smoothTransients c).
    + rewrite (sumz_ext (fun q => (targets w q).1) (fun q => (T q).1)), (sumz_ext (fun q => (targets w q).2) (fun q => (T q).2));
        [done|by intros q Hq; rewrite E..].
    + intros q Hq. rewrite E by done. by apply HB.
Qed.

(** What the cache and the partitioner ask of the policy. *)
Inductive vop :=
  | Hit (glob id : Z) (req : MemHier.MemReq)
  | Miss (glob : Z) (req : MemHier.MemReq) (cands : list Z)
  | Resize (parts : list nat).

Definition exec (o : vop) w : res (VantageReplPolicy M G) :=
  match o with
  | Hit glob id req => update procIdx glob id req w
  | Miss glob req cands => '(_, w) ← miss procIdx glob req cands w; Ok w
  | Resize parts => setPartitionSizes parts w
  end.

(** Lines exist, requests come from partitions of the mapper; with smoothed transients the
    new sizes add up to no more than the targets do. *)
Definition valid_cands (cands : list Z) : Prop :=
  cands <> [] /\ (length cands <= assoc c)%nat /\ forall id, id ∈ cands -> 0 <= id < totalSize c.
Definition valid_req (req : MemHier.MemReq) : Prop :=
  exists q, getPartition procIdx (mapper c) req = Ok q /\ (q < P)%nat.
Definition valid (o : vop) w : Prop :=
  match o with
  | Hit _ id req => 0 <= id < totalSize c /\ valid_req req
  | Miss _ req cands => valid_cands cands /\ valid_req req
  | Resize parts => smoothTransients c = true -> sumz (share parts) qs <= sumz (fun q => (targets w q).1) qs
  end.

Context (gran_pos : 0 < partGranularity c).

Lemma vt_exec_ok o w : inv w -> valid o w -> safe (exec o w) inv.
Proof.
  intros (W & B & C) Hv. destruct o as [glob id req|glob req cands|parts]; cbn [exec valid] in *.
  - destruct Hv as (Hid & q & Hg & Hq).
    eapply safe_mono; [by apply (vt_update_ok (targets w) w id req q glob)|].
    intros w' (C' & T' & W' & B' & _). apply (inv_intro T'); congruence.
  - destruct Hv as ((Hne & Hlen & Hcs) & q & Hg & Hq).
    destruct (rank_ok (targets w) w req cands W B C Hne Hlen Hcs) as (id & w1 & E & W1 & _ & C1 & Hin & _).
    unfold miss. rewrite E. cbn [mbind res_bind]. apply safe_bind, safe_bind.
    eapply safe_mono; [apply (vt_update_ok (targets w) (replaced id w1) id req q glob)|].
    + by apply vt_wf_replaced.
    + done.
    + by apply Hcs.
    + done.
    + done.
    + intros w' (C' & T' & W' & B' & _). cbn. by apply (inv_intro T').
  - eapply safe_mono; [by apply (setPartitionSizes_ok parts w (targets w))|].
    intros w' (C' & T' & W' & B' & _). apply (inv_intro T'); congruence.
Qed.

Inductive reachable w0 : VantageReplPolicy M G -> Prop :=
  | reach_start : reachable w0 w0
  | reach_exec o w w' : reachable w0 w -> valid o w -> exec o w = Ok w' -> reachable w0 w'.

Lemma vt_reachable_inv w0 w : inv w0 -> reachable w0 w -> inv w.
Proof.
  intros H0. induction 1 as [|o w w' _ IH Hv E]; [done|]. pose proof (vt_exec_ok o w IH Hv) as Hs. by rewrite E in Hs.
Qed.
End inv.

(** *** From the constructor on *)

Section theorems.
Context {M G : Type} {PM : PartitionMonitor M} {PML : PartitionMonitorLaws M}.
Context {RS : RandSource G} {RL : RandLaws G} (procIdx : nat).
Implicit Types w : VantageReplPolicy M G.

(** What a new policy is given. *)
Record started (mon : M) (mp : PartMapper) (g : G) (lines : Z) (ways : nat) (pp ps ma gran : Z) (smooth : bool)
    (w : VantageReplPolicy M G) : Prop := {
  sd_new : new mon mp g lines ways pp ps ma gran smooth = Ok w;
  sd_mon : mon_wf mon /\ mon_open mon /\ mon_partitions mon = getNumPartitions mp;
  sd_rng : rand_ok g;
  sd_lines : 0 <= lines < 2 ^ 31;
  sd_managed : let n := Z.of_nat (getNumPartitions mp) in n * (managedSize lines (pct pp) / n) < 2 ^ 30;
  sd_gran : 0 < gran;
  sd_aperture t s : 0 <= t <= s -> s <= lines -> exists a, aperture (cfg w) t s = Ok a
}.

Lemma sumz_const x l : sumz (fun _ => x) l = Z.of_nat (length l) * x.
Proof. induction l; cbn [sumz length]; lia. Qed.

Lemma started_inv mon mp g lines ways pp ps ma gran smooth w :
  started mon mp g lines ways pp ps ma gran smooth w ->
  config_ok (cfg w) /\ inv (cfg w) w /\ totalSize (cfg w) = lines /\ 0 < partGranularity (cfg w).
Proof.
  intros [Hn Hm Hr Hl Hs Hg Ha]. unfold new in Hn.
  apply bind_Ok in Hn as (u1 & _ & Hn). apply bind_Ok in Hn as (u2 & _ & Hn). apply bind_Ok in Hn as (u3 & _ & Hn).
  rewrite u32_id in Hn by (unfold in_u32; lia). injection Hn as <-. cbn [cfg totalSize partGranularity] in *.
  split; [by split|]. split; [|done].
  set (n := getNumPartitions mp) in *. set (x := managedSize lines (pct pp) / Z.of_nat n) in *.
  assert (0 <= x) as Hx.
  { unfold x, managedSize. pose proof (u32_range (Doubles.to_Z (Doubles.fmul (Doubles.of_Z lines) (pct pp)))) as Hu.
    unfold in_u32 in Hu. clear -Hu. destruct n as [|k]; [by rewrite Zdiv_0_r|]. apply Z.div_pos; lia. }
  apply (inv_intro _ (<[n := (0, 0)]> (fun _ => (x, x)))); [|split|done].
  - split; cbn; try done.
    + intros q Hq. rewrite (cnt_all (fun _ => n) _ n) by done.
      destruct (decide (q = n)) as [->|]; [rewrite fn_lookup_insert; cbn; lia|by rewrite fn_lookup_insert_ne].
    + intros q Hq. rewrite (cnt_all (fun _ => n) _ n) by done.
      destruct (decide (q = n)) as [->|]; [rewrite fn_lookup_insert; cbn; lia|by rewrite fn_lookup_insert_ne].
    + intros q Hq. destruct (decide (q = n)) as [->|]; [by rewrite !fn_lookup_insert|by rewrite !fn_lookup_insert_ne].
    + intros q. destruct (decide (q = n)) as [->|]; [rewrite fn_lookup_insert|rewrite fn_lookup_insert_ne by done];
        by split_and!.
  - cbn. intros q Hq%elem_of_seq. rewrite fn_lookup_insert_ne by lia. done.
  - cbn. assert (forall q, q ∈ seq 0 n -> (<[n := (0, 0)]> (fun _ => (x, x)) : nat -> Z * Z) q = (x, x)) as He.
    { intros q Hq%elem_of_seq. by rewrite fn_lookup_insert_ne by lia. }
    destruct smooth; [|by intros q Hq; rewrite He].
    set (T := <[n := (0, 0)]> (fun _ => (x, x)) : nat -> Z * Z) in *.
    rewrite (sumz_ext (fun q => (T q).2) (fun _ => x)), (sumz_ext (fun q => (T q).1) (fun _ => x)) by (intros q Hq; by rewrite He).
    rewrite sumz_const, length_seq. lia.
Qed.

(** C35: whatever sequence of hits, misses and new sizes a Vantage cache sees, as long as with
    smooth transients the new shares never add up to more than the targets of the moment
    ([valid]) and the parameters keep the assertion on the slope of the aperture
    ([sd_aperture]), the size of a partition (the unmanaged region included) is the number of
    its lines, its extended size the number that came in as its own, and its setpoint is less
    than 256 timestamps behind; the next operation trips no assertion.  Larger shares do trip
    one ([smooth_sizes_fail]). *)
Theorem vantage_sizes mon mp g lines ways pp ps ma gran smooth w0 w :
  started mon mp g lines ways pp ps ma gran smooth w0 -> reachable procIdx (cfg w0) w0 w ->
  (forall q, (q <= getNumPartitions mp)%nat ->
     size (sz (partInfo w q)) = cnt (fun i => p (array w i)) (Z.to_nat lines) q /\
     extendedSize (sz (partInfo w q)) = cnt (fun i => op (array w i)) (Z.to_nat lines) q /\
     u64 (curBts (st (partInfo w q)) - setpointBts (st (partInfo w q))) <= 255) /\
  (smooth = true -> sumz (fun q => longTermTargetSize (sz (partInfo w q))) (seq 0 (getNumPartitions mp)) <=
     sumz (fun q => targetSize (sz (partInfo w q))) (seq 0 (getNumPartitions mp))) /\
  forall o, valid procIdx (cfg w0) o w -> safe (exec procIdx o w) (fun _ => True).
Proof.
  intros Hst Hr. destruct (started_inv _ _ _ _ _ _ _ _ _ _ _ Hst) as (Hc & Hi & Ht & Hg).
  pose proof (vt_reachable_inv procIdx (cfg w0) Hc Hg w0 w Hi Hr) as Hw.
  assert (partitions (cfg w0) = getNumPartitions mp /\ smoothTransients (cfg w0) = smooth) as [EP ES].
  { destruct Hst as [Hn _ _ _ _ _ _]. unfold new in Hn.
    apply bind_Ok in Hn as (u1 & _ & Hn). apply bind_Ok in Hn as (u2 & _ & Hn). apply bind_Ok in Hn as (u3 & _ & Hn). by injection Hn as <-. }
  pose proof Hw as (W & [_ B] & _). split; [|split].
  - intros q Hq. rewrite <- EP in Hq. rewrite <- Ht. split_and!.
    + rewrite (f_size _ _ _ _ _ W q Hq). lia.
    + rewrite (f_ext _ _ _ _ _ W q Hq). lia.
    + apply (f_stamp _ _ _ _ _ W q).
  - intros ->. rewrite ES, EP in B. apply B.
  - intros o Hv. eapply safe_mono; [by apply (vt_exec_ok procIdx (cfg w0) Hc Hg)|done].
Qed.

(** On a miss Vantage demotes candidates only, none from a partition at or below its
    target and none below it; the victim is the first empty candidate, or the least recently
    used unmanaged one, or if there is none the least recently used of all. *)
Theorem vantage_victim mon mp g lines ways pp ps ma gran smooth w0 w req cands :
  started mon mp g lines ways pp ps ma gran smooth w0 -> reachable procIdx (cfg w0) w0 w ->
  valid_cands (cfg w0) cands ->
  exists id w', rank req cands w = Ok (id, w') /\ id ∈ cands /\ is_victim w' cands id /\
    demotes (cfg w0) (targets w) cands w w'.
Proof.
  intros Hst Hr (Hne & Hlen & Hcs). destruct (started_inv _ _ _ _ _ _ _ _ _ _ _ Hst) as (Hc & Hi & Ht & Hg).
  destruct (vt_reachable_inv procIdx (cfg w0) Hc Hg w0 w Hi Hr) as (W & B & C).
  destruct (rank_ok (cfg w0) Hc (targets w) w req cands W B C Hne Hlen Hcs) as (id & w' & E & _ & D & _ & Hin & Hv).
  by exists id, w'.
Qed.
End theorems.

(** *** A cache of 16 lines for two cores *)

Lemma reach_ops {M G : Type} {PM : PartitionMonitor M} {RS : RandSource G} procIdx c (w0 : VantageReplPolicy M G) l :
  forall w w', reachable procIdx c w0 w -> Forall (fun o => forall w : VantageReplPolicy M G, valid procIdx c o w) l ->
  foldM (fun w o => exec procIdx o w) w l = Ok w' -> reachable procIdx c w0 w'.
Proof.
  induction l as [|o l IH]; intros w w' Hr Hv E; cbn [foldM] in E; [by injection E as <-|].
  apply Forall_cons in Hv as [Hv Hl]. apply bind_Ok in E as (w1 & E1 & E2).
  apply (IH w1); [by eapply reach_exec|done|done].
Qed.

(** Apertures of all sizes of a small cache, by computation. *)
Definition apertures_checked (c : config) (n : Z) : bool :=
  forallb (fun s => forallb (fun t => match aperture c t s with Ok _ => true | Fail _ => false end) (seqZ 0 (s + 1)))
    (seqZ 0 (n + 1)).
Lemma apertures_ok c n : apertures_checked c n = true ->
  forall t s, 0 <= t <= s -> s <= n -> exists a, aperture c t s = Ok a.
Proof.
  intros Hc t s Ht Hs. unfold apertures_checked in Hc. rewrite forallb_forall in Hc.
  specialize (Hc s). rewrite <- list_elem_of_In, elem_of_seqZ in Hc. specialize (Hc ltac:(lia)).
  rewrite forallb_forall in Hc. specialize (Hc t). rewrite <- list_elem_of_In, elem_of_seqZ in Hc. specialize (Hc ltac:(lia)).
  destruct (aperture c t s) as [a|]; [by exists a|done].
Qed.

#[local] Existing Instances UMonMonitor.umon_monitor UMonMonitor.umon_monitor_laws.
#[local] Existing Instances Barrier.mt_source Barrier.mt_laws.

Notation sample := (VantageReplPolicy UMonMonitor.UMonMonitor MTRand.MTRand).

Definition sample_policy (lines : Z) (pp gran : Z) : res sample :=
  new (UMonMonitor.sample_monitor 4 [(5, 1); (10, 20)]) (CorePartMapper 2) (MTRand.seed 46047355199) lines 4 pp 10 40 gran true.
Definition w_new : sample :=
  match sample_policy 16 50 16 with
  | Ok w => w
  | Fail _ => mkV (mkCfg (CorePartMapper 0) 0 0 0 zero zero zero 0 false) (UMonMonitor.sample_monitor 0 [])
      (MTRand.seed 0) (fun _ => mkPart (mkSizes 0 0 0 0) (mkStamps 0 0 0 0) (mkIval 0 0 0) (mkProf 0 0 0 0 0 0))
      (fun _ => mkLine 0 0 0 0 0) [] 0 0 0 0 0
  end.

Lemma w_new_started :
  started (UMonMonitor.sample_monitor 4 [(5, 1); (10, 20)]) (CorePartMapper 2) (MTRand.seed 46047355199) 16 4 50 10 40 16 true w_new.
Proof.
  split; try done.
  - split; [apply UMonMonitor.sample_monitor_wf; lia|done].
  - apply MTRand.seed_wf.
  - apply apertures_ok. vm_compute. reflexivity.
Qed.

Definition sample_req (core line : Z) : MemHier.MemReq :=
  MemHier.mkReq line MemHier.GETS 0 MemHier.Local 0 MemHier.I core 0.

(** Core 0 fills four lines, and then two more; core 1 looks for a victim among them. *)
Definition fill : list vop :=
  [Miss 0 (sample_req 0 70) [0; 1; 2; 3]; Miss 0 (sample_req 0 71) [4; 5; 6; 7]; Miss 0 (sample_req 0 72) [8; 9; 10; 11];
   Miss 0 (sample_req 0 73) [1; 2; 3; 4]; Miss 0 (sample_req 0 74) [5; 6; 7; 8]; Hit 9 4 (sample_req 0 71);
   Miss 9 (sample_req 0 75) [9; 10; 11; 12]].
Definition w_full : sample :=
  match foldM (fun w o => exec 0 o w) w_new fill with Ok w => w | Fail _ => w_new end.

Example fill_sizes : map (fun q => size (sz (partInfo w_full q))) [0%nat; 1%nat; 2%nat] = [6; 0; 10].
Proof. vm_compute. reflexivity. Qed.

Lemma fill_valid : Forall (fun o => forall w : sample, valid 0 (cfg w_new) o w) fill.
Proof.
  assert (forall a b c d, 0 <= a < 16 -> 0 <= b < 16 -> 0 <= c < 16 -> 0 <= d < 16 -> valid_cands (cfg w_new) [a; b; c; d]) as Hc.
  { intros a b c d Ha Hb Hc Hd. split; [done|]. split; [cbn; lia|]. intros id Hid.
    repeat (apply elem_of_cons in Hid as [->|Hid]; [done|]). by apply not_elem_of_nil in Hid. }
  assert (forall core line, 0 <= core < 2 -> valid_req 0 (cfg w_new) (sample_req core line)) as Hr.
  { intros core line Hcore. exists (Z.to_nat core). split; [done|]. cbn. lia. }
  repeat (constructor; [intros w; cbn [valid]; (split; [first [apply Hc; lia|split; [done|reflexivity]]|apply Hr; lia])|]). constructor.
Qed.

Lemma full_reachable : reachable 0 (cfg w_new) w_new w_full.
Proof.
  destruct (foldM (fun w o => exec 0 o w) w_new fill) as [w|] eqn:E; [|vm_compute in E; discriminate E].
  unfold w_full. rewrite E. eapply reach_ops; [apply reach_start|apply fill_valid|exact E].
Qed.

Lemma vantage_sizes_witness :
  size (sz (partInfo w_full 0%nat)) = cnt (fun i => p (array w_full i)) 16 0 /\
  safe (exec 0 (Hit 9 4 (sample_req 1 71)) w_full) (fun _ => True).
Proof.
  destruct (vantage_sizes 0 _ _ _ _ _ _ _ _ _ _ _ _ w_new_started full_reachable) as (H1 & _ & H2). split.
  - apply (H1 0%nat). cbn. lia.
  - apply H2. split; [split; [done|reflexivity]|]. exists 1%nat. split; [reflexivity|vm_compute; lia].
Defined.

(** The lines of core 0 at 4 and 8 may be demoted, as it has more than its target. *)
Lemma vantage_victim_witness :
  exists id w', rank (sample_req 1 80) [0; 4; 8; 9] w_full = Ok (id, w') /\ is_victim w' [0; 4; 8; 9] id.
Proof.
  destruct (vantage_victim 0 _ _ _ _ _ _ _ _ _ _ _ _ (sample_req 1 80) [0; 4; 8; 9] w_new_started full_reachable)
    as (id & w' & E & _ & Hv & _).
  - split; [done|]. split; [vm_compute; lia|]. intros id Hid.
    repeat (apply elem_of_cons in Hid as [->|Hid]; [split; [done|reflexivity]|]). by apply not_elem_of_nil in Hid.
  - exists id, w'. split; [exact E|exact Hv].
Defined.

(** Smoothed transients: the targets of a new policy are rounded down, so new sizes that
    share out the same portion can be more, and the last line is taken from nobody. *)
Example smooth_sizes_fail :
  match sample_policy 3 100 3 with
  | Ok w => foldM (fun w o => exec 0 o w) w [Miss 0 (sample_req 0 70) [0; 1; 2]; Resize [2; 1]%nat] = Fail AssertFailed
  | Fail _ => False
  end.
Proof. vm_compute. reflexivity. Qed.
End VantageInv.
