(* ===== verification/Prefetcher.v ===== *)
(** The stream prefetcher (prefetcher.h and prefetcher.cpp): a table of pages with the stride
    of their accesses, between a cache and its parent.

    The parent is a parameter.  The events live in the graph of Timing; a prefetcher's event
    is a [Simple] one with a cycle [onGoingCycle].  An index past an array and a division by
    zero, undefined in C++, are failures here.  A [TimingRecord] that was only cleared has
    whatever fields the stack had: [garbage].  The recorder of a core is never null: the code
    dereferences it without a check once it prefetches.  Statistics are not modelled, nor is
    [chainEvents], which nothing calls. *)
From S2P Require Import Prelude Effects MemHier Timing.
Import MemHier.
Import Timing (TimingRecord, mkTR, isValid, reqCycle, respCycle, startEvent, endEvent).

Module Prefetcher.

(** ** Entries *)

Definition at_ {A} (l : list A) (i : Z) : res A :=
  match l !! Z.to_nat i with
  | Some a => if i <? 0 then Fail AssertFailed else Ok a
  | None => Fail AssertFailed
  end.
Definition put {A} (l : list A) (i : Z) (a : A) : res (list A) :=
  _ ← at_ l i; mret (<[Z.to_nat i := a]> l).

(** [SatCounter<3, 2, 1>]. *)
Definition conf_inc (c : Z) : Z := Z.min (c + 1) 3.
Definition conf_dec (c : Z) : Z := Z.max (c - 1) 0.
Definition conf_pred (c : Z) : bool := 2 <=? c.

Record AccessTimes := mkTimes { startCycle : Z; at_respCycle : Z }.
Definition fill (s r : Z) : AccessTimes := mkTimes (u32 s) r.

Record Entry := mkEntry {
  stride : Z;
  conf : Z;
  times : list AccessTimes;
  valid : list bool;
  lastPos : Z;
  lastLastPos : Z;
  lastPrefetchPos : Z;
  lastCycle : Z;
  ts : Z
}.

Definition empty : Entry := mkEntry 0 0 (replicate 64 (mkTimes 0 0)) (replicate 64 false) 0 0 0 0 0.
Definition alloc (curCycle : Z) (e : Entry) : Entry :=
  mkEntry 1 1 (times e) (replicate 64 false) 0 0 0 curCycle (ts e).
Definition set_ts (t : Z) (e : Entry) : Entry :=
  mkEntry (stride e) (conf e) (times e) (valid e) (lastPos e) (lastLastPos e) (lastPrefetchPos e) (lastCycle e) t.
Definition set_conf (c : Z) (e : Entry) : Entry :=
  mkEntry (stride e) c (times e) (valid e) (lastPos e) (lastLastPos e) (lastPrefetchPos e) (lastCycle e) (ts e).
Definition set_stride (s : Z) (e : Entry) : Entry :=
  mkEntry s (conf e) (times e) (valid e) (lastPos e) (lastLastPos e) (lastPrefetchPos e) (lastCycle e) (ts e).
Definition set_valid (v : list bool) (c : Z) (e : Entry) : Entry :=
  mkEntry (stride e) (conf e) (times e) v (lastPos e) (lastLastPos e) (lastPrefetchPos e) c (ts e).
Definition set_times (t : list AccessTimes) (e : Entry) : Entry :=
  mkEntry (stride e) (conf e) t (valid e) (lastPos e) (lastLastPos e) (lastPrefetchPos e) (lastCycle e) (ts e).
Definition set_pos (last lastLast : Z) (e : Entry) : Entry :=
  mkEntry (stride e) (conf e) (times e) (valid e) last lastLast (lastPrefetchPos e) (lastCycle e) (ts e).
Definition set_prefetch (p : Z) (e : Entry) : Entry :=
  mkEntry (stride e) (conf e) (times e) (valid e) (lastPos e) (lastLastPos e) p (lastCycle e) (ts e).

Record prefetcher := mkPF {
  timestamp : Z;
  tag : list Z;
  array : list Entry;
  pfChildId : nat
}.

Definition new (nEntries childId : nat) : prefetcher :=
  mkPF 0 (replicate nEntries 0) (replicate nEntries empty) childId.

(** The parent and the child are parameters of what follows; what is checked of them. *)
Definition setParents (childId parents : nat) (network : bool) (p : prefetcher) : res prefetcher :=
  if negb (bool_decide (parents = 1%nat)) then panic
  else if network then panic
  else mret (mkPF (timestamp p) (tag p) (array p) childId).
Definition setChildren (children : nat) (network : bool) (p : prefetcher) : res prefetcher :=
  if bool_decide (children < 1)%nat then panic else if network then panic else mret p.

Definition set_entry (idx : Z) (e : Entry) (p : prefetcher) : res prefetcher :=
  a ← put (array p) idx e; mret (mkPF (timestamp p) (tag p) a (pfChildId p)).
Definition tick (p : prefetcher) : prefetcher :=
  mkPF (u64 (timestamp p + 1)) (tag p) (array p) (pfChildId p).
Definition set_tag (idx pageAddr : Z) (p : prefetcher) : res prefetcher :=
  t ← put (tag p) idx pageAddr; mret (mkPF (timestamp p) t (array p) (pfChildId p)).

(** ** An entry is looked up, or allocated *)

Definition entries : list Z := seqZ 0 16.

(** The last entry with the page, or 16. *)
Definition lookup (pageAddr : Z) (p : prefetcher) : res Z :=
  foldM (fun idx i => t ← at_ (tag p) i; mret (if pageAddr =? t then i else idx)) 16 entries.

(** The least recently used entry that was not used in the last cycles, or 16. *)
Definition victim (reqCycle : Z) (p : prefetcher) : res (Z * Z) :=
  foldM (fun c i =>
    e ← at_ (array p) i;
    mret (if u64 (reqCycle + 500) <? lastCycle e then c
          else if ts e <? c.2 then (i, ts e) else c)) (16, 2 ^ 64 - 1) entries.

Definition miss (reqCycle pageAddr pos : Z) (p : prefetcher) : res prefetcher :=
  '(cand, _) ← victim reqCycle p;
  if cand <? 16 then
    e ← at_ (array p) cand;
    p ← set_entry cand (set_ts (timestamp p) (set_pos pos 0 (alloc reqCycle e))) p;
    set_tag cand pageAddr (tick p)
  else mret p.

(** ** An access to a page of the table *)

(** The prefetch of this line, if there was one, is used up; was it late? *)
Definition consume (pos respCycle : Z) (e : Entry) : res (bool * Entry) :=
  v ← at_ (valid e) pos;
  if v : bool then
    t ← at_ (times e) pos;
    l ← put (valid e) pos false;
    mret (respCycle <? at_respCycle t, set_valid l (Z.max (Z.max (at_respCycle t) respCycle) (lastCycle e)) e)
  else mret (false, e).

(** The access does not follow the stride. *)
Definition retrain (st pos : Z) (e : Entry) : Entry :=
  let e := set_conf (conf_dec (conf e)) e in
  let e := if negb (conf_pred (conf e)) then
      let lastStride := i32 (lastPos e - lastLastPos e) in
      if negb (st =? 0) && negb (st =? stride e) && (st =? lastStride)
      then set_stride st (set_conf 1 e) else e
    else e in
  set_prefetch pos e.

(** The position to prefetch, and how far ahead it is. *)
Definition target (st pos : Z) (e : Entry) : res (Z * Z) :=
  _ ← assert_that (negb (u32 st =? 0));
  let fetchDepth := i32 (u32 (lastPrefetchPos e - lastPos e) / u32 st) in
  mret (if fetchDepth <? 1 then (u32 (pos + st), 1) else (u32 (lastPrefetchPos e + st), fetchDepth)).

(** Is the position in the page, and not prefetched already? *)
Definition wanted (pos : Z) (e : Entry) : res bool :=
  if pos <? 64 then v ← at_ (valid e) pos; mret (negb v) else mret false.

Definition record_prefetch (pos reqCycle respCycle : Z) (e : Entry) : res Entry :=
  v ← put (valid e) pos true;
  t ← put (times e) pos (fill reqCycle respCycle);
  mret (set_times t (set_valid v (lastCycle e) e)).

Section Access.
Context {PS : Type} (parent : MemReq -> prog (Timing.sim * PS) (Z * MESIState)).
Context (garbage : TimingRecord) (fuel : nat).

Record world := mkW { pf : prefetcher; sim : Timing.sim; par : PS }.
Notation P := (prog world).

Definition on_sim {A} (m : prog Timing.sim A) : P A := fun w =>
  match m (sim w) with Ok (a, s) => Ok (a, mkW (pf w) s (par w)) | Fail f => Fail f end.
Definition parent_access (req : MemReq) : P (Z * MESIState) := fun w =>
  match parent req (sim w, par w) with Ok (a, (s, p)) => Ok (a, mkW (pf w) s p) | Fail f => Fail f end.
Definition on_pf (f : prefetcher -> res prefetcher) : P unit := fun w =>
  match f (pf w) with Ok p => Ok (tt, mkW p (sim w) (par w)) | Fail f => Fail f end.

Definition get_rec (src : nat) : P Timing.EventRecorder := gets (fun w => Timing.recorders (sim w) src).
Definition set_rec (src : nat) (r : Timing.EventRecorder) : P unit :=
  on_sim (modify (fun s => Timing.mkSim (Timing.ev s) (Timing.numEvents s) (<[src := r]> (Timing.recorders s))
    (Timing.domains s) (Timing.numDomains s) (Timing.limit s) (Timing.lastLimit s) (Timing.inCSim s) (Timing.phaseLength s))).

(** [if (evRec->hasRecord()) rec = evRec->popRecord();] *)
Definition pop (src : nat) : P (option TimingRecord) :=
  r ← get_rec src;
  if Timing.hasRecord r then
    let '(tr, r) := Timing.popRecord r in
    _ ← set_rec src r; mret (Some tr)
  else mret None.
Definition push (src : nat) (tr : TimingRecord) : P unit :=
  r ← get_rec src; r ← lift (Timing.pushRecord tr r); set_rec src r.

(** *** StreamPrefetcherEvent *)

Definition newEv (startMinCycle : Z) : P nat :=
  on_sim (Timing.alloc (Timing.set_minStartCycle startMinCycle (Timing.newEvent Timing.Simple 0 0 0))).

Definition coupleEvents (e : nat) (onGoingCycle : Z) (tr : TimingRecord) : P unit :=
  _ ← (if onGoingCycle <? reqCycle tr then on_sim (Timing.upd e (Timing.set_minStartCycle (reqCycle tr))) else mret tt);
  match startEvent tr, endEvent tr with
  | Some s, Some f =>
      _ ← on_sim (Timing.addChild fuel e s);
      if decide (s = f) then mret tt else _ ← on_sim (Timing.addChild fuel e f); mret tt
  | _, _ => stop
  end.
Definition couple_opt (e : nat) (onGoingCycle : Z) (o : option TimingRecord) : P unit :=
  match o with Some tr => coupleEvents e onGoingCycle tr | None => mret tt end.

(** *** The prefetches of one access *)

Definition with_child (c : nat) (req : MemReq) : MemReq :=
  mkReq (lineAddr req) (type req) c (state req) (cycle req) (initialState req) (srcId req) (flags req).
Definition pf_req (req : MemReq) (addr : Z) : MemReq :=
  mkReq addr GETS (childId req) Local (cycle req) MemHier.I (srcId req) PREFETCH.

(** A second prefetch follows one that came too late. *)
Definition second (req : MemReq) (addr : Z) (st ppos depth longer : Z) (short : bool) (ev : nat) (onGoing : Z) (e : Entry)
    : P (Entry * Z * Z) :=
  let next := u32 (ppos + st) in
  w ← (if short && (depth <? 8) then lift (wanted next e) else mret false);
  if w : bool then
    '(pfRespCycle, pst) ← parent_access (pf_req req (u64 (addr + st)));
    let longer := if longer <? pfRespCycle then pfRespCycle else longer in
    e ← lift (record_prefetch next (cycle req) longer e);
    tr ← pop (Z.to_nat (srcId req));
    _ ← couple_opt ev onGoing tr;
    _ ← require (bool_decide (pst = MemHier.I));
    mret (e, next, longer)
  else mret (e, ppos, longer).

(** The prefetches, and the cycle the access returns. *)
Definition prefetch (req : MemReq) (wbAcc : option TimingRecord) (pos idx st ppos depth : Z) (short : bool) (e : Entry) : P Z :=
  let addr := u64 (lineAddr req + ppos - pos) in
  '(pfRespCycle, pst) ← parent_access (pf_req req addr);
  let wbReq := reqCycle (default garbage wbAcc) in
  let longer1 := if pfRespCycle <? wbReq then wbReq else pfRespCycle in
  e ← lift (record_prefetch ppos (cycle req) longer1 e);
  ev ← newEv longer1;
  _ ← couple_opt ev longer1 wbAcc;
  first ← pop (Z.to_nat (srcId req));
  _ ← couple_opt ev longer1 first;
  '(e, lastPf, longer) ← second req addr st ppos depth longer1 short ev longer1 e;
  _ ← on_pf (set_entry idx (set_prefetch lastPf e));
  _ ← require (bool_decide (pst = MemHier.I));
  _ ← push (Z.to_nat (srcId req)) (mkTR addr longer1 longer GETS (Some ev) (Some ev));
  mret longer.

(** The page is in the table, at [idx].  [Some c]: there was a prefetch, and the access
    returns [c] at once. *)
Definition hit (req : MemReq) (wbAcc : option TimingRecord) (pos idx resp : Z) : P (option Z) :=
  p ← gets pf;
  e ← lift (at_ (array p) idx);
  let e := set_ts (timestamp p) e in
  _ ← on_pf (fun p => mret (tick p));
  '(short, e) ← lift (consume pos resp e);
  let st := i32 (pos - lastPos e) in
  let finish e := _ ← on_pf (set_entry idx (set_pos pos (lastPos e) e)); mret None in
  if stride e =? st then
    let e := set_conf (conf_inc (conf e)) e in
    if conf_pred (conf e) then
      '(ppos, depth) ← lift (target st pos e);
      w ← lift (wanted ppos e);
      if w : bool then c ← prefetch req wbAcc pos idx st ppos depth short e; mret (Some c)
      else finish e
    else finish e
  else finish (retrain st pos e).

Definition access (req0 : MemReq) : P (Z * MESIState) :=
  p ← gets pf;
  let req := with_child (pfChildId p) req0 in
  '(respCycle, st) ← parent_access req;
  if negb (bool_decide (type req = GETS)) then mret (respCycle, st)
  else
    wbAcc ← pop (Z.to_nat (srcId req));
    let pageAddr := Z.shiftr (lineAddr req) 6 in
    let pos := Z.land (lineAddr req) 63 in
    idx ← lift (lookup pageAddr p);
    early ← (if idx =? 16 then _ ← on_pf (miss (cycle req) pageAddr pos); mret None
             else hit req wbAcc pos idx respCycle);
    match early with
    | Some c => mret (c, st)
    | None =>
        _ ← match wbAcc with Some tr => push (Z.to_nat (srcId req)) tr | None => mret tt end;
        mret (respCycle, st)
    end.

End Access.
#[global] Arguments world : clear implicits.
#[global] Arguments mkW {PS} pf sim par.
#[global] Arguments pf {PS} w.
#[global] Arguments sim {PS} w.
#[global] Arguments par {PS} w.
End Prefetcher.
