(* ===== verification/PrefetchInv.v ===== *)
(** The prefetcher runs without a failed assertion over a parent with a contract: it prefetches
    only lines of the page that is accessed, links the events of the requests, and leaves at
    most one record. *)
From S2P Require Import Prelude Effects MemHier Timing Prefetcher.
Import MemHier.
Import Timing (TimingRecord, mkTR, isValid, reqCycle, respCycle, startEvent, endEvent, numEvents, ev, recorders,
  visited, numChildren, numParents, EV_NONE, EV_DONE, only, o_this, o_other, o_num, wf, cnt, indegree, not_done).

Module PrefetchInv.
Import Prefetcher.

(** ** The graph of events *)

Definition graph (D : Z) (s : Timing.sim) : Prop := exists Bd, wf 0 D Bd s [].

Definition untouched (s s' : Timing.sim) (e : nat) : Prop :=
  Timing.state (ev s' e) = Timing.state (ev s e) /\ numParents (ev s' e) = numParents (ev s e) /\
  numChildren (ev s' e) = numChildren (ev s e).

(** The events that were there are there, with the same parents and children. *)
Definition grows (s s' : Timing.sim) : Prop :=
  (numEvents s <= numEvents s')%nat /\ forall e, (e < numEvents s)%nat -> untouched s s' e.

#[export] Instance grows_preorder : PreOrder grows.
Proof.
  split; [done|]. intros s1 s2 s3 [A1 A2] [B1 B2]. split; [lia|]. intros e He.
  destruct (A2 e He) as (? & ? & ?), (B2 e ltac:(lia)) as (? & ? & ?). unfold untouched. intuition congruence.
Qed.

Section Graph.
Context (D : Z) (D_nonneg : 0 <= D).
Notation graph := (graph D).

Definition fresh_ev (m : Z) : Timing.TimingEvent := Timing.set_minStartCycle m (Timing.newEvent Timing.Simple 0 0 0).

Lemma alloc_graph s m : graph s ->
  wp (Timing.alloc (fresh_ev m)) s (fun e s' => e = numEvents s /\ graph s' /\ grows s s' /\
    numEvents s' = Datatypes.S e /\ ev s' e = fresh_ev m /\ recorders s' = recorders s).
Proof.
  intros [Bd Hw]. unfold Timing.alloc, wp. set (s' := Timing.mkSim _ _ _ _ _ _ _ _ _).
  assert (forall y, (y < numEvents s)%nat -> ev s' y = ev s y) as Hold.
  { intros y Hy. cbn. by rewrite fn_lookup_insert_ne by lia. }
  assert (ev s' (numEvents s) = fresh_ev m) as Hnew by (cbn; by rewrite fn_lookup_insert).
  assert (cnt not_done s' = Datatypes.S (cnt not_done s)) as Hcnt.
  { unfold cnt. change (numEvents s') with (Datatypes.S (numEvents s)). cbn [Timing.total]. rewrite Hnew.
    rewrite (Timing.total_ext _ (fun e => if not_done (Timing.state (ev s e)) then 1%nat else 0%nat)).
    { change (not_done (Timing.state (fresh_ev m))) with true. cbv iota. apply Nat.add_1_r. }
    intros i Hi. by rewrite Hold by done. }
  assert (forall y, indegree s' y = indegree s y) as Hind.
  { intros y. unfold indegree. change (numEvents s') with (Datatypes.S (numEvents s)). cbn [Timing.total]. rewrite Hnew.
    rewrite (Timing.total_ext _ (fun p => if not_done (Timing.state (ev s p)) then Timing.occurs y (visited (ev s p)) else 0%nat)).
    { change (Timing.occurs y (visited (fresh_ev m))) with 0%nat. destruct (not_done _); lia. }
    intros i Hi. by rewrite Hold by done. }
  assert (indegree s (numEvents s) = 0%nat) as Hzero.
  { unfold indegree. assert (forall n, (n <= numEvents s)%nat -> Timing.total (fun p => if not_done (Timing.state (ev s p))
      then Timing.occurs (numEvents s) (visited (ev s p)) else 0%nat) n = 0%nat) as Ht; [|by apply Ht].
    induction n as [|n IH]; intros Hn; cbn; [done|]. rewrite IH by lia.
    destruct (not_done _) eqn:En; [|done]. unfold Timing.occurs. apply (count_occ_not_In Nat.eq_dec). intros Hin%list_elem_of_In.
    apply bool_decide_eq_true in En. pose proof (Timing.wf_kids _ _ _ _ _ Hw n _ ltac:(lia) En Hin). lia. }
  assert (forall Q : nat -> Timing.TimingEvent -> Prop, (forall y, (y < numEvents s)%nat -> Q y (ev s y)) ->
    Q (numEvents s) (fresh_ev m) -> forall y, (y < numEvents s')%nat -> Q y (ev s' y)) as Hcase.
  { intros Q H1 H2 y Hy. cbn in Hy. destruct (decide (y = numEvents s)) as [->|]; [by rewrite Hnew|].
    rewrite Hold by lia. apply H1. lia. }
  split; [done|]. split; [|split].
  2: { split; [cbn; lia|]. intros e He. unfold untouched. by rewrite Hold. }
  2: split; [done|]; split; [done|]; done.
  exists (Z.max Bd (D * Z.of_nat (cnt not_done s)) + D). destruct Hw as [W1 W2 W3 W4 W5 W6 W7 W8 W9]. split.
  - apply (Hcase (fun _ x => Timing.links_ok x)); [done|]. by apply Timing.no_child.
  - intros e k He Hs Hk. revert e He k Hs Hk.
    apply (Hcase (fun _ x => forall k, Timing.state x <> EV_DONE -> k ∈ visited x -> (k < numEvents s')%nat)).
    + intros y Hy k H1 H2. pose proof (W2 y k Hy H1 H2). cbn. lia.
    + intros k _ Hk. by apply elem_of_nil in Hk.
  - intros k Hk. by apply elem_of_nil in Hk.
  - apply (Hcase (fun _ x => Timing.ekind x = Timing.Simple \/ Timing.ekind x = Timing.DelayEvent)); [done|by left].
  - by apply (Hcase (fun _ x => Timing.domain x = 0)).
  - apply (Hcase (fun y x => numParents x = Z.of_nat (indegree s' y + Timing.occurs y []) /\ numParents x < 2 ^ 32)).
    + intros y Hy. rewrite Hind. by apply W6.
    + rewrite Hind, Hzero. by cbn.
  - by apply (Hcase (fun _ x => numParents x <> 0 -> Timing.state x = EV_NONE)).
  - apply (Hcase (fun _ x => 0 <= Timing.preDelay x /\ 0 <= Timing.postDelay x /\ Timing.preDelay x + Timing.postDelay x <= D)); [done|cbn; lia].
  - apply (Hcase (fun _ x => Timing.state x <> EV_DONE -> 0 <= Timing.cycle x /\
      Timing.cycle x + D * Z.of_nat (cnt not_done s') <= Z.max Bd (D * Z.of_nat (cnt not_done s)) + D)); rewrite Hcnt.
    + intros y Hy Hs. destruct (W9 y Hy Hs). lia.
    + cbn. lia.
Qed.

(** A new parent [e] of [c]. *)
Lemma addChild_graph fuel s e c : graph s -> (e < numEvents s)%nat -> (c < numEvents s)%nat -> e <> c ->
  Timing.state (ev s e) = EV_NONE -> Timing.state (ev s c) = EV_NONE ->
  numChildren (ev s e) + 1 < 2 ^ 32 -> numParents (ev s c) + 1 < 2 ^ 32 ->
  wp (Timing.addChild fuel e c) s (fun _ s' => graph s' /\ numEvents s' = numEvents s /\ recorders s' = recorders s /\
    (forall y, y <> e -> y <> c -> ev s' y = ev s y) /\
    Timing.state (ev s' e) = EV_NONE /\ numChildren (ev s' e) = numChildren (ev s e) + 1 /\ numParents (ev s' e) = numParents (ev s e) /\
    Timing.state (ev s' c) = EV_NONE /\ numParents (ev s' c) = numParents (ev s c) + 1).
Proof.
  intros [Bd Hw] He Hc Hec Hse Hsc Hn Hp.
  destruct (Timing.link_ok c (ev s e) (Timing.wf_links _ _ _ _ _ Hw e He) Hn) as (_ & Hln & _).
  destruct (Timing.link_fields c (ev s e)) as (_ & F2 & _ & F4 & F5 & _).
  pose proof (Timing.wf_parents _ _ _ _ _ Hw c Hc) as [Hpc _].
  unfold Timing.addChild, Timing.get. wp_steps; [by rewrite Hse|by rewrite Hsc|].
  apply wp_modify. set (s1 := Timing.mkSim _ _ _ _ _ _ _ _ _).
  assert (only s s1 e (Timing.link c (ev s e))) as Ho1.
  { split; cbn; [by rewrite fn_lookup_insert|intros; by rewrite fn_lookup_insert_ne|done]. }
  wp_steps. assert (ev s1 c = ev s c) as Hc1 by (by apply Ho1).
  rewrite (o_this _ _ _ _ Ho1), F4, Hc1, !(Timing.wf_dom _ _ _ _ _ Hw) by done. cbn [Z.eqb negb andb]. wp_steps. apply wp_modify.
  set (s2 := Timing.mkSim _ _ _ _ _ _ _ _ _).
  assert (only s1 s2 c (Timing.set_numParents (numParents (ev s c) + 1) (ev s c))) as Ho2.
  { rewrite <- (u32_id (numParents (ev s c) + 1)) by (unfold in_u32; lia).
    split; unfold s2; cbn [ev numEvents]; [by rewrite fn_lookup_insert, Hc1|intros; by rewrite fn_lookup_insert_ne|done]. }
  wp_steps. assert (ev s2 e = Timing.link c (ev s e)) as He2 by (rewrite (o_other _ _ _ _ Ho2) by done; apply Ho1).
  pose proof (o_this _ _ _ _ Ho2) as Hc2.
  rewrite He2, Hc2, F2, F5, Hln. cbn [Timing.set_numParents Timing.state numParents].
  split. { exists Bd. apply (Timing.wf_link 0 D Bd s s1 s2 e c); try done. by rewrite Hse. }
  split_and!; try done. intros y Hye Hyc. rewrite (o_other _ _ _ _ Ho2), (o_other _ _ _ _ Ho1); done.
Qed.

Lemma min_graph s e m : graph s -> (e < numEvents s)%nat ->
  wp (Timing.upd e (Timing.set_minStartCycle m)) s (fun _ s' => graph s' /\ grows s s' /\ numEvents s' = numEvents s /\
    recorders s' = recorders s /\ forall y, y <> e -> ev s' y = ev s y).
Proof.
  intros [Bd Hw] He. apply wp_modify. set (s' := Timing.mkSim _ _ _ _ _ _ _ _ _).
  assert (only s s' e (Timing.set_minStartCycle m (ev s e))) as Ho.
  { split; unfold s'; cbn [ev numEvents]; [by rewrite fn_lookup_insert|intros; by rewrite fn_lookup_insert_ne|done]. }
  assert (forall Q : nat -> Timing.TimingEvent -> Prop, Q e (Timing.set_minStartCycle m (ev s e)) ->
    (forall y, (y < numEvents s)%nat -> Q y (ev s y)) -> forall y, (y < numEvents s)%nat -> Q y (ev s' y)) as Hcase.
  { intros Q H1 H2 y Hy. destruct (decide (y = e)) as [->|]; [by rewrite (o_this _ _ _ _ Ho)|].
    rewrite (o_other _ _ _ _ Ho) by done. by apply H2. }
  assert (cnt not_done s' = cnt not_done s) as Hcnt.
  { pose proof (Timing.cnt_only not_done _ _ _ _ Ho He) as H.
    change (Timing.state (Timing.set_minStartCycle m (ev s e))) with (Timing.state (ev s e)) in H. lia. }
  assert (forall y, indegree s' y = indegree s y) as Hind.
  { intros y. pose proof (Timing.indegree_only _ _ _ _ y Ho He) as H.
    change (visited (Timing.set_minStartCycle m (ev s e))) with (visited (ev s e)) in H.
    change (Timing.state (Timing.set_minStartCycle m (ev s e))) with (Timing.state (ev s e)) in H. lia. }
  split_and!; [|split; [done|]|done|done|apply Ho].
  2: { intros y Hy. revert y Hy. by apply (Hcase (fun y x => Timing.state x = _ /\ numParents x = _ /\ numChildren x = _)). }
  exists Bd. destruct Hw as [W1 W2 W3 W4 W5 W6 W7 W8 W9]. split; change (numEvents s') with (numEvents s).
  - apply (Hcase (fun _ x => Timing.links_ok x)); [|done].
    destruct (W1 e He) as [H|x H Hl|cs css Hl Hcs Hf H H2];
      [by apply Timing.no_child|by eapply Timing.one_child|by eapply Timing.many].
  - intros y k Hy Hs Hk. revert y Hy k Hs Hk.
    by apply (Hcase (fun _ x => forall k, Timing.state x <> EV_DONE -> k ∈ visited x -> (k < numEvents s)%nat));
      [intros k; apply (W2 e)|intros y Hy k; apply (W2 y)].
  - done.
  - apply (Hcase (fun _ x => Timing.ekind x = Timing.Simple \/ Timing.ekind x = Timing.DelayEvent)); [by apply (W4 e)|done].
  - apply (Hcase (fun _ x => Timing.domain x = 0)); [by apply (W5 e)|done].
  - apply (Hcase (fun y x => numParents x = Z.of_nat (indegree s' y + Timing.occurs y []) /\ numParents x < 2 ^ 32));
      [|intros y Hy]; rewrite Hind; [by apply (W6 e)|by apply W6].
  - apply (Hcase (fun _ x => numParents x <> 0 -> Timing.state x = EV_NONE)); [by apply (W7 e)|done].
  - apply (Hcase (fun _ x => 0 <= Timing.preDelay x /\ 0 <= Timing.postDelay x /\ Timing.preDelay x + Timing.postDelay x <= D)); [by apply (W8 e)|done].
  - rewrite Hcnt. apply (Hcase (fun _ x => Timing.state x <> EV_DONE -> 0 <= Timing.cycle x /\
      Timing.cycle x + D * Z.of_nat (cnt not_done s) <= Bd)); [by apply (W9 e)|done].
Qed.
End Graph.

(** ** The table *)

Lemma at_ok {A} (l : list A) i : 0 <= i < Z.of_nat (length l) -> exists a, at_ l i = Ok a /\ l !! Z.to_nat i = Some a.
Proof.
  intros Hi. unfold at_. destruct (lookup_lt_is_Some_2 l (Z.to_nat i)) as [a Ha]; [lia|]. exists a. rewrite Ha.
  by rewrite (proj2 (Z.ltb_ge _ _)) by lia.
Qed.

Lemma put_ok {A} (l : list A) i a : 0 <= i < Z.of_nat (length l) -> put l i a = Ok (<[Z.to_nat i := a]> l).
Proof. intros Hi. unfold put. by destruct (at_ok l i Hi) as (x & -> & _). Qed.

Record entry_ok (e : Entry) : Prop := {
  en_times : length (times e) = 64%nat;
  en_valid : length (valid e) = 64%nat;
  en_pos : 0 <= lastPos e < 64;
  en_last : 0 <= lastLastPos e < 64;
  en_pf : 0 <= lastPrefetchPos e < 64;
  en_conf : 0 <= conf e <= 3;
  en_stride : -64 < stride e < 64
}.

(** Every entry that has a page is in use, and no page has two. *)
Record table (p : prefetcher) : Prop := {
  tb_tags : (16 <= length (tag p))%nat;
  tb_len : length (array p) = length (tag p);
  tb_entry i e : array p !! i = Some e -> entry_ok e;
  tb_used i e t : array p !! i = Some e -> tag p !! i = Some t -> t <> 0 -> stride e <> 0;
  tb_unique i j t : tag p !! i = Some t -> tag p !! j = Some t -> t <> 0 -> (i < 16)%nat -> (j < 16)%nat -> i = j
}.

Lemma empty_ok : entry_ok empty.
Proof. split; cbn; try done; lia. Qed.

Lemma new_table n c : (16 <= n)%nat -> table (new n c).
Proof.
  intros Hn. split; cbn.
  - by rewrite length_replicate.
  - by rewrite !length_replicate.
  - intros i e [-> _]%lookup_replicate. apply empty_ok.
  - by intros i e t _ [-> _]%lookup_replicate.
  - by intros i j t [-> _]%lookup_replicate.
Qed.

Lemma entries_in i : i ∈ entries <-> 0 <= i < 16.
Proof. unfold entries. rewrite elem_of_seqZ. lia. Qed.

Lemma lookup_ok pageAddr p : table p -> exists idx, lookup pageAddr p = Ok idx /\
  ((idx = 16 /\ forall i, (i < 16)%nat -> tag p !! i <> Some pageAddr) \/
   (0 <= idx < 16 /\ tag p !! Z.to_nat idx = Some pageAddr)).
Proof.
  intros Ht. pose proof (tb_tags _ Ht) as Hlen. unfold lookup.
  assert (forall l idx, (forall i, i ∈ l -> 0 <= i < 16) ->
    exists r, foldM (fun idx i => t ← at_ (tag p) i; mret (if pageAddr =? t then i else idx)) idx l = Ok r /\
      ((r = idx /\ forall i, i ∈ l -> tag p !! Z.to_nat i <> Some pageAddr) \/
       (r ∈ l /\ tag p !! Z.to_nat r = Some pageAddr))) as Hl.
  { induction l as [|i l IH]; intros idx Hin; cbn [foldM].
    { exists idx. split; [done|]. left. split; [done|]. by intros i Hi%elem_of_nil. }
    destruct (at_ok (tag p) i) as (t & -> & Hti); [pose proof (Hin i ltac:(by left)); lia|]. cbn [mbind res_bind mret res_ret].
    destruct (IH (if pageAddr =? t then i else idx)) as (r & E & Hr); [intros; apply Hin; by right|]. exists r. split; [exact E|].
    destruct Hr as [[-> Hr]|[Hr1 Hr2]]; [|right; split; [by right|done]].
    destruct (Z.eqb_spec pageAddr t) as [->|Hne]; [right; split; [by left|done]|].
    left. split; [done|]. intros j [->|Hj]%elem_of_cons; [congruence|by apply Hr]. }
  destruct (Hl entries 16) as (r & E & Hr); [intros i; apply entries_in|]. exists r. split; [exact E|].
  destruct Hr as [[-> Hr]|[Hr1 Hr2]]; [left|right; split; [by apply entries_in|done]].
  split; [done|]. intros i Hi. specialize (Hr (Z.of_nat i)). rewrite Nat2Z.id in Hr. apply Hr, entries_in. lia.
Qed.

Lemma victim_ok c p : table p -> exists i t, victim c p = Ok (i, t) /\ 0 <= i <= 16.
Proof.
  intros Ht. pose proof (tb_tags _ Ht) as Hlen. pose proof (tb_len _ Ht) as Hlen2. unfold victim.
  assert (forall l a, (forall i, i ∈ l -> 0 <= i < 16) -> 0 <= a.1 <= 16 ->
    exists r, foldM (fun a i => e ← at_ (array p) i; mret (if u64 (c + 500) <? lastCycle e then a
          else if ts e <? a.2 then (i, ts e) else a)) a l = Ok r /\ 0 <= r.1 <= 16) as Hl.
  { induction l as [|i l IH]; intros a Hin Ha; cbn [foldM]; [by exists a|].
    destruct (at_ok (array p) i) as (e & -> & _); [pose proof (Hin i ltac:(by left)); lia|]. cbn [mbind res_bind mret res_ret].
    apply IH; [intros; apply Hin; by right|]. pose proof (Hin i ltac:(by left)). by repeat case_match; cbn in *; try lia. }
  destruct (Hl entries (16, 2 ^ 64 - 1)) as ([i t] & E & Hr); [intros i; apply entries_in|cbn; lia|]. by exists i, t.
Qed.

Lemma set_entry_ok idx e p : table p -> 0 <= idx < 16 -> entry_ok e -> stride e <> 0 ->
  exists p', set_entry idx e p = Ok p' /\ table p' /\ array p' = <[Z.to_nat idx := e]> (array p) /\ timestamp p' = timestamp p /\ tag p' = tag p /\
    pfChildId p' = pfChildId p.
Proof.
  intros [T1 T2 T3 T4 T5] Hi He Hs. unfold set_entry. rewrite put_ok by lia. cbn. eexists. split; [done|].
  split; [|done]. split; cbn; try done.
  - by rewrite length_insert.
  - intros i e' [(<- & <- & _)|[_ H]]%list_lookup_insert_Some; [done|by eapply T3].
  - intros i e' t [(<- & <- & _)|[_ H]]%list_lookup_insert_Some; [done|by eapply T4].
Qed.

Lemma miss_ok c pageAddr pos p : table p -> 0 <= pos < 64 ->
  (forall i, (i < 16)%nat -> tag p !! i <> Some pageAddr) ->
  exists p', miss c pageAddr pos p = Ok p' /\ table p' /\ pfChildId p' = pfChildId p.
Proof.
  intros Ht Hp Hno. unfold miss. destruct (victim_ok c p Ht) as (i & t & -> & Hi). cbn [mbind res_bind].
  destruct (Z.ltb_spec i 16); [|by exists p]. pose proof (tb_tags _ Ht) as Hlen. pose proof (tb_len _ Ht) as Hlen2.
  destruct (at_ok (array p) i) as (e & -> & He); [lia|]. cbn [mbind res_bind]. pose proof (tb_entry _ Ht _ _ He) as [].
  destruct (set_entry_ok i (set_ts (timestamp p) (set_pos pos 0 (alloc c e))) p Ht) as (p1 & -> & Ht1 & E0 & E1 & E2 & E3);
    [lia|split; cbn; done || lia|done|].
  cbn [mbind res_bind]. unfold set_tag, tick. cbn. rewrite E2, put_ok by lia. cbn. eexists. split; [done|]. split; [|done].
  destruct Ht as [T1 T2 T3 T4 T5], Ht1 as [U1 U2 U3 U4 U5]. split; cbn.
  - by rewrite length_insert.
  - by rewrite length_insert, <- E2.
  - done.
  - intros j e' t' He' [(<- & <- & _)|[_ H']]%list_lookup_insert_Some Ht'; [|by eapply U4; [|rewrite E2|]].
    rewrite E0, list_lookup_insert_eq in He' by (apply lookup_lt_Some in He; lia). by injection He' as <-.
  - intros j k t' [(<- & <- & _)|[Hj H1]]%list_lookup_insert_Some [(<- & Et & _)|[Hk H2]]%list_lookup_insert_Some Ht' Hj' Hk';
      [done|by destruct (Hno k)|subst; by destruct (Hno j)|by eapply T5].
Qed.
(** ** One entry *)

Lemma consume_ok pos resp e : entry_ok e -> 0 <= pos < 64 -> exists sh e', consume pos resp e = Ok (sh, e') /\
  entry_ok e' /\ stride e' = stride e /\ lastPos e' = lastPos e.
Proof.
  intros [] Hp. unfold consume. destruct (at_ok (valid e) pos) as ([] & -> & _); [lia| |]; cbn [mbind res_bind].
  - destruct (at_ok (times e) pos) as (t & -> & _); [lia|]. rewrite put_ok by lia. cbn. eexists _, _. split; [done|].
    split; [|done]. split; cbn; try done. by rewrite length_insert.
  - exists false, e. done.
Qed.

Lemma retrain_ok st pos e : entry_ok e -> -64 < st < 64 -> 0 <= pos < 64 ->
  entry_ok (retrain st pos e) /\ (stride e <> 0 -> stride (retrain st pos e) <> 0).
Proof.
  intros [] Hs Hp. unfold retrain. cbn [set_conf conf lastPos lastLastPos stride].
  assert (0 <= conf_dec (conf e) <= 3) as Hc by (unfold conf_dec; lia).
  destruct (negb (conf_pred _)); [|split; [split; cbn; done|done]].
  destruct (Z.eqb_spec st 0) as [->|Hne]; cbn [negb andb]; [split; [split; cbn; done|done]|].
  destruct (_ && _); (split; [split; cbn; done || lia|done]).
Qed.

Lemma target_ok st pos e : -64 < st < 64 -> st <> 0 -> exists p d, target st pos e = Ok (p, d) /\ in_u32 p.
Proof.
  intros Hs Hne. unfold target. assert (u32 st <> 0) as Hu.
  { unfold u32. intros H. apply Z.mod_divide in H as [k H]; lia. }
  apply Z.eqb_neq in Hu. rewrite Hu. cbn [negb assert_that mbind res_bind]. cbn zeta.
  destruct (_ <? 1); eexists _, _; (split; [done|apply u32_range]).
Qed.

Lemma wanted_ok pos e : entry_ok e -> in_u32 pos -> exists b, wanted pos e = Ok b /\ (b = true -> 0 <= pos < 64).
Proof.
  intros [] [Hp _]. unfold wanted. destruct (Z.ltb_spec pos 64); [|by exists false].
  destruct (at_ok (valid e) pos) as (v & -> & _); [lia|]. by exists (negb v).
Qed.

Lemma record_prefetch_ok pos c r e : entry_ok e -> 0 <= pos < 64 -> exists e', record_prefetch pos c r e = Ok e' /\
  entry_ok e' /\ stride e' = stride e.
Proof.
  intros [] Hp. unfold record_prefetch. rewrite !put_ok by lia. cbn. eexists. split; [done|].
  split; [|done]. split; cbn; try done; by rewrite length_insert.
Qed.

(** The line at position [q] of the page of [a]. *)
Lemma line_of a q pos : in_u64 a -> pos = Z.land a 63 -> 0 <= q < 64 ->
  u64 (a + q - pos) = 64 * Z.shiftr a 6 + q /\ Z.shiftr (u64 (a + q - pos)) 6 = Z.shiftr a 6.
Proof.
  intros [H1 H2] -> Hq. change 63 with (Z.ones 6). rewrite Z.land_ones, !Z.shiftr_div_pow2 by lia.
  change (2 ^ 6) with 64. pose proof (Z.div_mod a 64 ltac:(lia)). pose proof (Z.mod_pos_bound a 64 ltac:(lia)).
  rewrite u64_id by (unfold in_u64; lia). replace (a + q - a mod 64) with (q + a / 64 * 64) by lia.
  rewrite Z.div_add, (Z.div_small q 64) by lia. lia.
Qed.

(** ** Over a parent with a contract *)

Section Parent.
Context {PS : Type} (parent : MemReq -> prog (Timing.sim * PS) (Z * MESIState)).
Context (garbage : TimingRecord) (fuel : nat).
Context (D : Z) (D_nonneg : 0 <= D) (Good : MemReq -> Prop) (PInv : PS -> Prop).
Notation graph := (graph D).
Notation world := (world PS).

(** A record whose events are among the last ones of [s'], and wait for nothing yet. *)
Record rec_ok (s s' : Timing.sim) (tr : TimingRecord) : Prop := {
  ro_ends : exists a b, startEvent tr = Some a /\ endEvent tr = Some b /\
    Forall (fun x => (numEvents s <= x < numEvents s')%nat /\ Timing.state (ev s' x) = EV_NONE /\
      numParents (ev s' x) + 1 < 2 ^ 32) [a; b]
}.

Definition record_of (s : Timing.sim) (src : nat) : option TimingRecord :=
  let r := recorders s src in if Timing.hasRecord r then Some (Timing.er_tr r) else None.

(** What an access of the parent does, and what it may be asked for. *)
Record parent_spec : Prop := {
  ps_prefetch req addr : Good req -> Z.shiftr addr 6 = Z.shiftr (lineAddr req) 6 -> Good (pf_req req addr);
  ps_access req s p : Good req -> graph s -> PInv p -> record_of s (Z.to_nat (srcId req)) = None ->
    wp (parent req) (s, p) (fun '(c, st) '(s', p') =>
      graph s' /\ PInv p' /\ grows s s' /\ cycle req <= c /\
      (is_flag (flags req) PREFETCH = true -> st = MemHier.I) /\
      (forall src, src <> Z.to_nat (srcId req) -> record_of s' src = record_of s src) /\
      (forall tr, record_of s' (Z.to_nat (srcId req)) = Some tr -> rec_ok s s' tr))
}.
Context (spec : parent_spec).

(** The worlds between the steps of an access, with the prefetcher [p]. *)
Record mid (p : prefetcher) (src : nat) (others : nat -> option TimingRecord) (w : world) : Prop := {
  md_pf : pf w = p;
  md_graph : graph (sim w);
  md_par : PInv (par w);
  md_others x : x <> src -> record_of (sim w) x = others x
}.

Lemma wp_sim {A} (m : prog Timing.sim A) (w : world) Q :
  wp m (sim w) (fun a s => Q a (mkW (pf w) s (par w))) -> wp (on_sim m) w Q.
Proof. unfold wp, on_sim. by destruct (m (sim w)) as [[]|]. Qed.

Lemma wp_parent p src others req (w : world) : Good req -> src = Z.to_nat (srcId req) -> mid p src others w ->
  record_of (sim w) src = None ->
  wp (parent_access parent req) w (fun '(c, st) w' => mid p src others w' /\ grows (sim w) (sim w') /\ cycle req <= c /\
    (is_flag (flags req) PREFETCH = true -> st = MemHier.I) /\
    (forall tr, record_of (sim w') src = Some tr -> rec_ok (sim w) (sim w') tr)).
Proof.
  intros Hg -> [M1 M2 M3 M4] Hr. pose proof (ps_access spec req (sim w) (par w) Hg M2 M3 Hr) as H.
  unfold wp, parent_access in *. destruct (parent req _) as [[[c st] [s' p']]|]; [|done].
  destruct H as (H1 & H2 & H3 & H4 & H5 & H6 & H7). split; [|done]. split; cbn; try done.
  intros x Hx. rewrite H6 by done. by apply M4.
Qed.

Lemma wp_pop p src others (w : world) : mid p src others w ->
  wp (pop src) w (fun o w' => o = record_of (sim w) src /\ record_of (sim w') src = None /\ mid p src others w' /\
    ev (sim w') = ev (sim w) /\ numEvents (sim w') = numEvents (sim w)).
Proof.
  intros [M1 [Bd M2] M3 M4]. unfold pop, get_rec, record_of. wp_steps.
  destruct (Timing.hasRecord (recorders (sim w) src)) eqn:E; cbn [Timing.popRecord].
  - wp_steps. unfold set_rec. apply wp_sim. wp_steps. cbn. rewrite !fn_lookup_insert. cbn. split_and!; try done.
    split; cbn; try done.
    + exists Bd. by destruct M2 as [].
    + intros x Hx. unfold record_of. cbn. rewrite fn_lookup_insert_ne by done. by apply M4.
  - wp_steps. rewrite E. split_and!; try done. split; try done. by exists Bd.
Qed.

Lemma wp_push p src others (w : world) tr : mid p src others w -> record_of (sim w) src = None -> isValid tr = true ->
  wp (push src tr) w (fun _ w' => mid p src others w' /\ record_of (sim w') src = Some tr /\
    ev (sim w') = ev (sim w) /\ numEvents (sim w') = numEvents (sim w)).
Proof.
  intros [M1 [Bd M2] M3 M4] Hr Hv. unfold push, get_rec, record_of in *. wp_steps.
  assert (isValid (Timing.er_tr (recorders (sim w) src)) = false) as E.
  { unfold Timing.hasRecord in Hr. by destruct (isValid _). }
  eapply wp_lift; [unfold Timing.pushRecord; rewrite E, Hv; cbn; done|]. unfold set_rec. apply wp_sim. wp_steps. cbn.
  rewrite !fn_lookup_insert. unfold Timing.hasRecord. cbn. rewrite Hv. split_and!; try done. split; cbn; try done.
  - exists Bd. by destruct M2 as [].
  - intros x Hx. unfold record_of. cbn. rewrite fn_lookup_insert_ne by done. by apply M4.
Qed.

(** *** Linking events *)

(** A record with its events from [lo] to [hi]. *)
Definition rec_in (lo hi : nat) (s : Timing.sim) (tr : TimingRecord) : Prop :=
  exists a b, startEvent tr = Some a /\ endEvent tr = Some b /\
    Forall (fun x => (lo <= x < hi)%nat /\ (x < numEvents s)%nat /\ Timing.state (ev s x) = EV_NONE /\
      numParents (ev s x) + 1 < 2 ^ 32) [a; b].

Lemma rec_ok_in s s' tr : rec_ok s s' tr -> rec_in (numEvents s) (numEvents s') s' tr.
Proof.
  intros [(a & b & H1 & H2 & H3)]. exists a, b. split; [done|]. split; [done|].
  eapply Forall_impl; [exact H3|]. cbn. intuition.
Qed.

Lemma rec_in_keep lo hi s s' tr : rec_in lo hi s tr -> (numEvents s <= numEvents s')%nat ->
  (forall y, (lo <= y < hi)%nat -> (y < numEvents s)%nat -> Timing.state (ev s' y) = Timing.state (ev s y) /\
    numParents (ev s' y) = numParents (ev s y)) -> rec_in lo hi s' tr.
Proof.
  intros (a & b & H1 & H2 & H3) Hn Hk. exists a, b. split; [done|]. split; [done|].
  eapply Forall_impl; [exact H3|]. cbn. intros x (X1 & X2 & X3 & X4). destruct (Hk x X1 X2) as [-> ->]. split_and!; try done; lia.
Qed.

Lemma rec_in_grows lo hi s s' tr : rec_in lo hi s tr -> grows s s' -> rec_in lo hi s' tr.
Proof.
  intros H [Hn Hg]. apply (rec_in_keep lo hi s s' tr H Hn). intros y _ Hy. destruct (Hg y Hy) as (? & ? & _). done.
Qed.

Definition ready (s : Timing.sim) (e : nat) (n : Z) : Prop :=
  (e < numEvents s)%nat /\ Timing.state (ev s e) = EV_NONE /\ numChildren (ev s e) <= n.

Lemma ready_grows s s' e n : ready s e n -> grows s s' -> ready s' e n.
Proof. intros (H1 & H2 & H3) [Hn Hg]. destruct (Hg e H1) as (E1 & _ & E3). split; [lia|]. by rewrite E1, E3. Qed.

(** What links leave alone. *)
Definition linking (s s' : Timing.sim) (e lo hi : nat) : Prop :=
  numEvents s' = numEvents s /\ recorders s' = recorders s /\
  forall y, y <> e -> ~ (lo <= y < hi)%nat -> ev s' y = ev s y.

Lemma addChild_ready s e c n lo hi : graph s -> ready s e n -> n < 2 ^ 16 -> c <> e -> (lo <= c < hi)%nat -> (c < numEvents s)%nat ->
  Timing.state (ev s c) = EV_NONE -> numParents (ev s c) + 1 < 2 ^ 32 ->
  wp (Timing.addChild fuel e c) s (fun _ s' => graph s' /\ ready s' e (n + 1) /\ linking s s' e lo hi /\
    forall y, y <> e -> y <> c -> ev s' y = ev s y).
Proof.
  intros Hg (R1 & R2 & R3) Hn Hce Hc1 Hc2 Hs Hp.
  eapply wp_mono; [apply (addChild_graph D fuel s e c); try done; lia|].
  cbn. intros _ s' (H1 & H2 & H3 & H4 & H5 & H6 & H7 & _). split; [done|]. split; [|split].
  - split; [lia|]. split; [done|lia].
  - split; [done|]. split; [done|]. intros y Hy Hr. apply H4; [done|]. intros ->. lia.
  - done.
Qed.

Lemma wp_couple p src others (w : world) e on tr n lo hi : mid p src others w -> ready (sim w) e n -> n < 2 ^ 16 - 8 ->
  rec_in lo hi (sim w) tr -> ~ (lo <= e < hi)%nat ->
  wp (coupleEvents fuel e on tr) w (fun _ w' => mid p src others w' /\ ready (sim w') e (n + 2) /\
    linking (sim w) (sim w') e lo hi).
Proof.
  intros [M1 M2 M3 M4] Hr Hn (a & b & Ha & Hb & Hf) Hout. apply Forall_cons in Hf as [(A1 & A2 & A3 & A4) Hf].
  apply Forall_cons in Hf as [(B1 & B2 & B3 & B4) _]. unfold coupleEvents. apply wp_bind.
  apply wp_mono with (P := fun _ w' => mid p src others w' /\ ready (sim w') e n /\ numEvents (sim w') = numEvents (sim w) /\
    recorders (sim w') = recorders (sim w) /\ forall y, y <> e -> ev (sim w') y = ev (sim w) y).
  { destruct (_ <? _); [|by apply wp_ret]. apply wp_sim. eapply wp_mono; [apply (min_graph D); [done|apply Hr]|].
    cbn. intros _ s' (H1 & H2 & H3 & H4 & H5). split; [split; cbn; try done|].
    - intros x Hx. unfold record_of. rewrite H4. by apply M4.
    - split; [by eapply ready_grows|]. by rewrite H3, H4. }
  cbn. intros _ w1 ([N1 N2 N3 N4] & Hr1 & E1 & E2 & E3). rewrite Ha, Hb. wp_steps. apply wp_sim.
  assert (a <> e) as Hae by (intros ->; done). assert (b <> e) as Hbe by (intros ->; done).
  eapply wp_mono; [apply (addChild_ready (sim w1) e a n lo hi); try done; try lia; rewrite ?E3 by done; done|].
  cbn. intros _ s2 (H1 & H2 & (H3 & H4 & H5) & H6).
  assert (forall x, x <> src -> record_of s2 x = others x) as Ho2 by (intros x Hx; unfold record_of; rewrite H4; by apply N4).
  destruct (decide (a = b)) as [->|Hab].
  { wp_steps. split; [by split|]. split.
    - destruct H2 as (? & ? & ?). cbn. split; [done|]. split; [done|lia].
    - cbn. split; [lia|]. split; [by rewrite H4|]. intros y Hy Hr'. rewrite H5, E3; done. }
  wp_steps. apply wp_sim. cbn.
  eapply wp_mono; [apply (addChild_ready s2 e b (n + 1) lo hi); try done; try lia; rewrite ?H6, ?E3 by done; done|].
  cbn. intros _ s3 (I1 & I2 & (I3 & I4 & I5) & _). wp_steps. split; [|split].
  - split; try done. intros x Hx. cbn. unfold record_of. rewrite I4. by apply Ho2.
  - by replace (n + 2) with (n + 1 + 1) by lia.
  - cbn. split; [lia|]. split; [by rewrite I4, H4|]. intros y Hy Hr'. rewrite I5, H5, E3; done.
Qed.

Lemma wp_couple_opt p src others (w : world) e on o n lo hi : mid p src others w -> ready (sim w) e n -> n < 2 ^ 16 - 8 ->
  (forall tr, o = Some tr -> rec_in lo hi (sim w) tr) -> ~ (lo <= e < hi)%nat ->
  wp (couple_opt fuel e on o) w (fun _ w' => mid p src others w' /\ ready (sim w') e (n + 2) /\
    linking (sim w) (sim w') e lo hi).
Proof.
  intros Hm Hr Hn Ho He. destruct o as [tr|]; [by apply (wp_couple p); [..|apply Ho|]|].
  apply wp_ret. split; [done|]. split; [|done]. destruct Hr as (? & ? & ?). split; [done|]. split; [done|lia].
Qed.

Lemma linking_record s s' e lo hi src : linking s s' e lo hi -> record_of s' src = record_of s src.
Proof. intros (_ & H & _). unfold record_of. by rewrite H. Qed.

(** *** The prefetches *)

Lemma wp_prefetch_req p src others req addr (w : world) : Good req -> src = Z.to_nat (srcId req) -> mid p src others w ->
  record_of (sim w) src = None -> Z.shiftr addr 6 = Z.shiftr (lineAddr req) 6 ->
  wp (parent_access parent (pf_req req addr)) w (fun '(c, st) w' => mid p src others w' /\ grows (sim w) (sim w') /\
    cycle req <= c /\ st = MemHier.I /\
    (forall tr, record_of (sim w') src = Some tr -> rec_ok (sim w) (sim w') tr)).
Proof.
  intros Hg Hs Hm Hr Ha. eapply wp_mono.
  - apply (wp_parent p src others (pf_req req addr) w); [by apply (ps_prefetch spec)|done|done|done].
  - intros [c st] w' (H1 & H2 & H3 & H4 & H5). split_and!; try done. by apply H4.
Qed.

(** The records popped after an access of the parent. *)
Lemma wp_pop_new p src others s (w : world) : mid p src others w -> (numEvents s <= numEvents (sim w))%nat ->
  (forall tr, record_of (sim w) src = Some tr -> rec_ok s (sim w) tr) ->
  wp (pop src) w (fun o w' => mid p src others w' /\ record_of (sim w') src = None /\
    ev (sim w') = ev (sim w) /\ numEvents (sim w') = numEvents (sim w) /\
    forall tr, o = Some tr -> rec_in (numEvents s) (numEvents (sim w)) (sim w') tr).
Proof.
  intros Hm Hn Hr. eapply wp_mono; [by apply (wp_pop p src others w)|]. cbn. intros o w' (H1 & H2 & H3 & H4 & H5).
  split_and!; try done. intros tr ->. symmetry in H1. pose proof (rec_ok_in _ _ _ (Hr _ H1)) as H.
  unfold rec_in in *. by rewrite H4, H5.
Qed.

Lemma same_grows s s' : ev s' = ev s -> numEvents s' = numEvents s -> grows s s'.
Proof. intros H1 H2. split; [lia|]. intros e He. unfold untouched. by rewrite H1. Qed.

Lemma wp_second p src others req ppos pos st depth longer sh e0 on e (w : world) n :
  Good req -> src = Z.to_nat (srcId req) -> mid p src others w -> record_of (sim w) src = None ->
  in_u64 (lineAddr req) -> pos = Z.land (lineAddr req) 63 -> 0 <= ppos < 64 -> -64 < st < 64 ->
  ready (sim w) e0 n -> n < 2 ^ 16 - 8 -> entry_ok e ->
  wp (second parent fuel req (u64 (lineAddr req + ppos - pos)) st ppos depth longer sh e0 on e) w
    (fun '(e', q, l) w' => mid p src others w' /\ record_of (sim w') src = None /\
      entry_ok e' /\ stride e' = stride e /\ 0 <= q < 64 /\ longer <= l).
Proof.
  intros Hg Hs Hm Hr Ha Hpos Hpp Hst He0 Hn Hen. unfold second. set (next := u32 (ppos + st)).
  destruct (wanted_ok next e Hen ltac:(apply u32_range)) as (b & Hw & Hb).
  apply wp_bind. apply wp_mono with (P := fun b' w' => w' = w /\ (b' = true -> 0 <= next < 64)).
  { destruct (sh && _); [|by apply wp_ret]. eapply wp_lift; [exact Hw|]. done. }
  cbn. intros b' w' [-> Hb']. destruct b'; [|wp_steps; split_and!; try done; lia].
  specialize (Hb' eq_refl). assert (next = ppos + st) as Hnext.
  { unfold next, u32 in *. destruct (decide (0 <= ppos + st)); [by rewrite Z.mod_small by lia|].
    replace (ppos + st) with (ppos + st + 2 ^ 32 + (-1) * 2 ^ 32) in Hb' by lia. rewrite Z.mod_add, Z.mod_small in Hb' by lia. lia. }
  destruct (line_of (lineAddr req) ppos pos Ha Hpos Hpp) as [E1 _].
  destruct (line_of (lineAddr req) next pos Ha Hpos Hb') as [E2 E3].
  assert (u64 (u64 (lineAddr req + ppos - pos) + st) = u64 (lineAddr req + next - pos)) as E4.
  { rewrite E1. replace (64 * Z.shiftr (lineAddr req) 6 + ppos + st) with (64 * Z.shiftr (lineAddr req) 6 + next) by lia.
    rewrite E2. apply u64_id. rewrite <- E2. apply u64_range. }
  rewrite E4. apply wp_bind. eapply wp_mono; [by apply (wp_prefetch_req p src others)|].
  cbn. intros [c st'] w1 (Hm1 & Hg1 & Hc1 & -> & Hr1). wp_steps.
  set (l := if longer <? c then c else longer).
  assert (longer <= l) as Hl by (unfold l; destruct (Z.ltb_spec longer c); lia).
  destruct (record_prefetch_ok next (cycle req) l e Hen Hb') as (e' & E5 & Hen' & Hse').
  eapply wp_lift; [exact E5|]. wp_steps. rewrite <- Hs.
  eapply wp_mono; [apply (wp_pop_new p src others (sim w) w1); [done|apply Hg1|done]|].
  cbn. intros o w2 (Hm2 & Hr2 & V1 & V2 & Ho). wp_steps.
  assert (ready (sim w2) e0 n) as Hrd by (eapply ready_grows; [by eapply ready_grows|by apply same_grows]).
  eapply wp_mono; [apply (wp_couple_opt p src others w2 e0 on o n (numEvents (sim w)) (numEvents (sim w1)) Hm2 Hrd Hn Ho)|].
  { destruct He0. lia. }
  cbn. intros _ w3 (Hm3 & _ & Hl3). wp_steps; [done|].
  rewrite (linking_record _ _ _ _ _ src Hl3). split_and!; try done; lia.
Qed.

Lemma wp_newEv p src others m (w : world) : mid p src others w ->
  wp (newEv m) w (fun e w' => mid p src others w' /\ ready (sim w') e 0 /\ e = numEvents (sim w) /\
    grows (sim w) (sim w') /\ recorders (sim w') = recorders (sim w)).
Proof.
  intros [M1 M2 M3 M4]. unfold newEv. apply wp_sim. eapply wp_mono; [by apply (alloc_graph D D_nonneg)|].
  cbn. intros e s (-> & H1 & H2 & H3 & H4 & H5). split; [|split; [|done]].
  - split; try done. intros x Hx. unfold record_of. cbn. rewrite H5. by apply M4.
  - cbn. split; [lia|]. by rewrite H4.
Qed.

Lemma wp_on_pf f p p' src others (w : world) : mid p src others w -> f p = Ok p' ->
  wp (on_pf f) w (fun _ w' => mid p' src others w' /\ sim w' = sim w).
Proof. intros [M1 M2 M3 M4] Hf. unfold wp, on_pf. rewrite M1, Hf. by split. Qed.

Lemma wp_prefetch p src others req wb pos idx st ppos depth sh e (w : world) lo hi :
  Good req -> src = Z.to_nat (srcId req) -> mid p src others w -> record_of (sim w) src = None ->
  in_u64 (lineAddr req) -> pos = Z.land (lineAddr req) 63 -> 0 <= ppos < 64 -> -64 < st < 64 ->
  table p -> 0 <= idx < 16 -> entry_ok e -> stride e <> 0 ->
  (forall tr, wb = Some tr -> rec_in lo hi (sim w) tr) -> (hi <= numEvents (sim w))%nat ->
  wp (prefetch parent garbage fuel req wb pos idx st ppos depth sh e) w
    (fun c w' => exists p', table p' /\ pfChildId p' = pfChildId p /\ mid p' src others w' /\ cycle req <= c).
Proof.
  intros Hg Hs Hm Hr Ha Hpos Hpp Hst Ht Hi Hen Hnz Hwb Hhi. unfold prefetch.
  destruct (line_of (lineAddr req) ppos pos Ha Hpos Hpp) as [_ E1].
  apply wp_bind. eapply wp_mono; [by apply (wp_prefetch_req p src others)|].
  cbn. intros [c st'] w1 (Hm1 & Hg1 & Hc1 & -> & Hr1). wp_steps.
  set (l1 := if c <? reqCycle (default garbage wb) then _ else c).
  assert (c <= l1) as Hl1 by (unfold l1; destruct (Z.ltb_spec c (reqCycle (default garbage wb))); lia).
  destruct (record_prefetch_ok ppos (cycle req) l1 e Hen Hpp) as (e1 & E5 & Hen1 & Hse1).
  eapply wp_lift; [exact E5|]. wp_steps.
  eapply wp_mono; [apply (wp_newEv p src others l1 w1 Hm1)|]. cbn. intros e0 w2 (Hm2 & Hrd2 & -> & Hg2 & Hrec2). wp_steps.
  eapply wp_mono; [apply (wp_couple_opt p src others w2 (numEvents (sim w1)) l1 wb 0 lo hi Hm2 Hrd2)|]; [lia| | |].
  { intros tr E. eapply rec_in_grows; [|exact Hg2]. eapply rec_in_grows; [|exact Hg1]. by apply Hwb. }
  { destruct Hg1. lia. }
  cbn. intros _ w3 (Hm3 & Hrd3 & Hl3). wp_steps. rewrite <- Hs.
  assert (forall tr, record_of (sim w3) src = Some tr -> rec_in (numEvents (sim w)) (numEvents (sim w1)) (sim w3) tr) as Hfirst.
  { intros tr E. rewrite (linking_record _ _ _ _ _ src Hl3) in E. unfold record_of in E. rewrite Hrec2 in E.
    pose proof (rec_ok_in _ _ _ (Hr1 tr E)) as H. apply (rec_in_grows _ _ _ (sim w2)) in H; [|done].
    destruct Hl3 as (L1 & _ & L3). eapply rec_in_keep; [exact H|lia|]. intros y Hy _. rewrite L3; [done|lia..]. }
  eapply wp_mono; [apply (wp_pop p src others w3 Hm3)|]. cbn. intros first w4 (-> & Hr4 & Hm4 & V1 & V2). wp_steps.
  eapply wp_mono; [apply (wp_couple_opt p src others w4 (numEvents (sim w1)) l1 _ 2 (numEvents (sim w)) (numEvents (sim w1)) Hm4)|].
  { eapply ready_grows; [exact Hrd3|]. by apply same_grows. }
  { lia. }
  { intros tr E. specialize (Hfirst tr E). unfold rec_in in *. by rewrite V1, V2. }
  { lia. }
  cbn. intros _ w5 (Hm5 & Hrd5 & Hl5). wp_steps.
  eapply wp_mono; [apply (wp_second p src others req ppos pos st depth l1 sh (numEvents (sim w1)) l1 e1 w5 4); try done|].
  { rewrite (linking_record _ _ _ _ _ src Hl5). exact Hr4. }
  cbn. intros [[e' q] l] w6 (Hm6 & Hr6 & Hen6 & Hse6 & Hq & Hll). wp_steps.
  destruct (set_entry_ok idx (set_prefetch q e') p Ht Hi) as (p' & E6 & Ht' & _ & _ & _ & Hch).
  { destruct Hen6. by split. }
  { cbn. congruence. }
  eapply wp_mono; [apply (wp_on_pf _ p p' src others w6 Hm6 E6)|]. cbn. intros _ w7 [Hm7 Es7]. wp_steps; [done|].
  eapply wp_mono; [apply (wp_push p' src others w7); [done|by rewrite Es7|done]|].
  cbn. intros _ w8 (Hm8 & _). wp_steps. exists p'. split_and!; try done. lia.
Qed.

(** *** An access *)

Lemma pos_range a : 0 <= Z.land a 63 < 64.
Proof. change 63 with (Z.ones 6). rewrite Z.land_ones by lia. by apply Z.mod_pos_bound. Qed.

Lemma stride_small a b : 0 <= a < 64 -> 0 <= b < 64 -> i32 (a - b) = a - b.
Proof. intros Ha Hb. unfold i32. rewrite Z.mod_small by lia. lia. Qed.

Lemma wp_hit p src others req wb pos idx resp (w : world) lo hi pageAddr :
  Good req -> src = Z.to_nat (srcId req) -> mid p src others w -> record_of (sim w) src = None ->
  in_u64 (lineAddr req) -> pos = Z.land (lineAddr req) 63 ->
  table p -> 0 <= idx < 16 -> tag p !! Z.to_nat idx = Some pageAddr -> pageAddr <> 0 ->
  (forall tr, wb = Some tr -> rec_in lo hi (sim w) tr) -> (hi <= numEvents (sim w))%nat ->
  wp (hit parent garbage fuel req wb pos idx resp) w
    (fun o w' => exists p', table p' /\ pfChildId p' = pfChildId p /\ mid p' src others w' /\
      match o with Some c => cycle req <= c | None => record_of (sim w') src = None end).
Proof.
  intros Hg Hs Hm Hr Ha Hpos Ht Hi Htag Hpage Hwb Hhi. unfold hit. wp_steps. rewrite (md_pf _ _ _ _ Hm).
  pose proof (tb_tags _ Ht) as Hlen. pose proof (tb_len _ Ht) as Hlen2.
  destruct (at_ok (array p) idx) as (e & Ee & He); [lia|]. eapply wp_lift; [exact Ee|]. wp_steps.
  pose proof (tb_entry _ Ht _ _ He) as Hen. pose proof (tb_used _ Ht _ _ _ He Htag Hpage) as Hnz.
  assert (0 <= pos < 64) as Hpr by (subst pos; apply pos_range).
  assert (table (tick p)) as Htk by (destruct Ht; by split).
  eapply wp_mono; [apply (wp_on_pf _ p (tick p) src others w Hm eq_refl)|]. cbn. intros _ w1 [Hm1 Es1]. wp_steps.
  destruct (consume_ok pos resp (set_ts (timestamp p) e)) as (sh & e1 & Ec & Hen1 & Hst1 & Hl1); [destruct Hen; by split|done|].
  eapply wp_lift; [exact Ec|]. cbn beta iota zeta.
  pose proof (stride_small pos (lastPos e1) Hpr (en_pos _ Hen1)) as Hst. rewrite Hst. set (st := pos - lastPos e1) in *.
  assert (-64 < st < 64) as Hsr by (pose proof (en_pos _ Hen1); lia).
  assert (forall e', entry_ok e' -> stride e' <> 0 ->
    wp (_ ← on_pf (set_entry idx (set_pos pos (lastPos e') e')); mret None) w1
      (fun o w' => exists p', table p' /\ pfChildId p' = pfChildId p /\ mid p' src others w' /\
        match o with Some c => cycle req <= c | None => record_of (sim w') src = None end)) as Hfin.
  { intros e' [] Hnz'. destruct (set_entry_ok idx (set_pos pos (lastPos e') e') (tick p) Htk Hi) as (p' & E6 & Ht' & _ & _ & _ & Hch);
      [by split|done|]. wp_steps. eapply wp_mono; [apply (wp_on_pf _ _ p' src others w1 Hm1 E6)|]. cbn. intros _ w2 [Hm2 Es2].
    wp_steps. exists p'. split_and!; try done. by rewrite Es2, Es1. }
  destruct (Z.eqb_spec (stride e1) st) as [Heq|Hne]; [|apply (Hfin (retrain st pos e1))].
  2, 3: destruct (retrain_ok st pos e1 Hen1 Hsr Hpr) as [R1 R2]; first [exact R1|apply R2; by rewrite Hst1].
  set (e2 := set_conf _ e1). assert (entry_ok e2) as Hen2.
  { destruct Hen1. split; try done. unfold e2, conf_inc. cbn. lia. }
  assert (stride e2 <> 0) as Hnz2 by (cbn; rewrite Hst1; done).
  destruct (conf_pred _); [|by apply (Hfin e2)].
  destruct (target_ok st pos e2 Hsr) as (ppos & d & Et & Hu); [rewrite <- Heq; by rewrite Hst1|].
  apply wp_bind. eapply wp_lift; [exact Et|]. cbn beta iota.
  destruct (wanted_ok ppos e2 Hen2 Hu) as (b & Ew & Hb). apply wp_bind. eapply wp_lift; [exact Ew|]. cbn beta.
  destruct b; [|by apply (Hfin e2)]. specialize (Hb eq_refl). apply wp_bind.
  eapply wp_mono; [apply (wp_prefetch (tick p) src others req wb pos idx st ppos d sh e2 w1 lo hi); try done; by rewrite Es1|].
  cbn. intros c w2 (p' & H1 & H2 & H3 & H4). wp_steps. by exists p'.
Qed.

(** The requests: those the parent's contract admits, for 64-bit lines outside page 0. *)
Definition ok_req (c : nat) (r : MemReq) : Prop :=
  Good (with_child c r) /\ in_u64 (lineAddr r) /\ 64 <= lineAddr r.

Lemma wp_access p src others req (w : world) : ok_req (pfChildId p) req -> src = Z.to_nat (srcId req) ->
  mid p src others w -> record_of (sim w) src = None -> table p ->
  wp (access parent garbage fuel req) w
    (fun r w' => exists p', table p' /\ pfChildId p' = pfChildId p /\ mid p' src others w' /\ cycle req <= r.1).
Proof.
  intros (Hg & Ha & Hlow) Hs Hm Hr Ht. unfold access. wp_steps. rewrite (md_pf _ _ _ _ Hm).
  set (r := with_child (pfChildId p) req) in *. assert (src = Z.to_nat (srcId r)) as Hsr by done.
  eapply wp_mono; [apply (wp_parent p src others r w Hg Hsr Hm Hr)|]. cbn. intros [c st] w1 (Hm1 & Hg1 & Hc1 & _ & Hr1).
  change (cycle req) with (cycle r). destruct (negb _); [wp_steps; by exists p|]. wp_steps. rewrite <- Hs.
  eapply wp_mono; [apply (wp_pop_new p src others (sim w) w1 Hm1); [apply Hg1|done]|].
  cbn. intros wb w2 (Hm2 & Hr2 & V1 & V2 & Hwb). wp_steps. set (page := Z.shiftr _ 6).
  assert (page <> 0) as Hpage.
  { unfold page. rewrite Z.shiftr_div_pow2 by lia. change (2 ^ 6) with 64. pose proof (Z.div_le_lower_bound (lineAddr r) 64 1 ltac:(lia)).
    change (lineAddr r) with (lineAddr req) in *. lia. }
  destruct (lookup_ok page p Ht) as (idx & El & Hidx). eapply wp_lift; [exact El|]. wp_steps.
  apply wp_mono with (P := fun o w' => exists p', table p' /\ pfChildId p' = pfChildId p /\ mid p' src others w' /\
      match o with Some c => cycle r <= c | None => record_of (sim w') src = None end).
  - destruct Hidx as [[-> Hno]|[Hi Htag]].
    + destruct (miss_ok (cycle r) page (Z.land (lineAddr r) 63) p Ht (pos_range _) Hno) as (p' & Em & Ht' & Hch).
      rewrite Z.eqb_refl. wp_steps. eapply wp_mono; [apply (wp_on_pf _ p p' src others w2 Hm2 Em)|]. cbn. intros _ w3 [Hm3 Es3]. wp_steps.
      exists p'. by rewrite Es3.
    + rewrite (proj2 (Z.eqb_neq _ _)) by lia.
      apply (wp_hit p src others r wb _ idx c w2 (numEvents (sim w)) (numEvents (sim w1)) page); try done. lia.
  - cbn. intros o w3 (p' & H1 & H2 & H3 & H4). destruct o as [c'|]; [wp_steps; by exists p'|].
    destruct wb as [tr|]; wp_steps; [|by exists p'].
    eapply wp_mono; [apply (wp_push p' src others w3 tr H3 H4)|].
    { destruct (Hwb tr eq_refl) as (a & b & Ea & _). unfold isValid. rewrite Ea. apply bool_decide_eq_true. by eexists. }
    cbn. intros _ w4 (Hm4 & _). wp_steps. by exists p'.
Qed.

(** Accesses in sequence; the core takes the record after each. *)
Definition serve (reqs : list MemReq) : prog world (list Z) :=
  loop (fun cs r =>
    '(c, _) ← access parent garbage fuel r;
    _ ← pop (Z.to_nat (srcId r));
    mret (cs ++ [c])) [] reqs.

(** C37: from its constructor on, with at least 16 entries, and over any parent that keeps its
    contract, the prefetcher serves every sequence of requests for lines outside page 0 (from
    line 64 on: a line of page 0 can divide by zero, [line_zero]): no index leaves an array, no
    division is by zero, no
    assertion of the event graph or of the recorder fails, the parent is asked only for the
    lines of the requests and for lines of their pages, and each answer is no earlier than its
    request; a page has at most one entry. *)
Theorem prefetcher_safe n c reqs s p0 : (16 <= n)%nat -> graph s -> PInv p0 -> (forall x, record_of s x = None) ->
  Forall (ok_req c) reqs ->
  wp (serve reqs) (mkW (new n c) s p0) (fun cs w' => Forall2 (fun r t => cycle r <= t) reqs cs /\ table (pf w')).
Proof.
  intros Hn Hg Hp He Hreqs. unfold serve.
  eapply wp_mono; [apply (wp_loop (fun d _ cs w' => Forall2 (fun r t => cycle r <= t) d cs /\ table (pf w') /\
    pfChildId (pf w') = c /\ graph (sim w') /\ PInv (par w') /\ forall x, record_of (sim w') x = None))|].
  - split_and!; try done. by apply new_table.
  - intros d r todo cs w -> (H1 & H2 & H3 & H4 & H5 & H6).
    apply Forall_app in Hreqs as [_ Hreqs]. apply Forall_cons in Hreqs as [Hr _]. rewrite <- H3 in Hr. wp_steps.
    eapply wp_mono; [apply (wp_access (pf w) (Z.to_nat (srcId r)) (fun _ => None) r w Hr eq_refl); [by split|done|done]|].
    cbn. intros [t st] w1 (p' & I1 & I2 & I3 & I4). wp_steps.
    eapply wp_mono; [apply (wp_pop p' _ _ w1 I3)|]. cbn. intros o w2 (_ & J2 & [J3 J4 J5 J6] & _). wp_steps.
    split; [apply Forall2_app; [done|by constructor]|]. rewrite J3. split_and!; try done; [congruence|].
    intros x. destruct (decide (x = Z.to_nat (srcId r))) as [->|]; [done|by apply J6].
  - cbn. intros cs w (H1 & H2 & _). done.
Qed.
End Parent.

(** ** Over a memory that records every access

    It answers after 100 cycles, and keeps a log of the lines it was asked for. *)

Definition mem_parent (req : MemReq) : prog (Timing.sim * list Z) (Z * MESIState) := fun w =>
  match Timing.alloc (fresh_ev (cycle req)) w.1 with
  | Ok (e, s) =>
      let tr := mkTR (lineAddr req) (cycle req) (cycle req + 100) (type req) (Some e) (Some e) in
      let r := Timing.mkER tr (Z.to_nat (srcId req)) 0 0 in
      Ok ((cycle req + 100, if is_flag (flags req) PREFETCH then MemHier.I else grant (type req) (flags req)),
          (Timing.mkSim (Timing.ev s) (numEvents s) (<[Z.to_nat (srcId req) := r]> (recorders s)) (Timing.domains s)
             (Timing.numDomains s) (Timing.limit s) (Timing.lastLimit s) (Timing.inCSim s) (Timing.phaseLength s),
           w.2 ++ [lineAddr req]))
  | Fail f => Fail f
  end.

Lemma mem_parent_spec D : 0 <= D -> parent_spec mem_parent D (fun _ => True) (fun _ => True).
Proof.
  intros HD. split; [done|]. intros req s p _ Hg _ Hr. pose proof (alloc_graph D HD s (cycle req) Hg) as H.
  unfold wp, mem_parent in *. cbn [fst snd]. destruct (Timing.alloc _ s) as [[e s']|]; [|done].
  destruct H as (-> & [Bd Hw] & [G1 G2] & Hn & Hev & Hrec). split_and!; try done.
  - exists Bd. by destruct Hw as [].
  - lia.
  - intros ->. done.
  - intros src Hsrc. unfold record_of. cbn. by rewrite fn_lookup_insert_ne, Hrec.
  - intros tr. unfold record_of. cbn. rewrite fn_lookup_insert. cbn. intros [= <-]. split.
    exists (numEvents s), (numEvents s). split; [done|]. split; [done|].
    assert ((numEvents s <= numEvents s < numEvents s')%nat /\ Timing.state (ev s' (numEvents s)) = EV_NONE /\
      numParents (ev s' (numEvents s)) + 1 < 2 ^ 32) as H by (rewrite Hn, Hev; cbn; split_and!; done || lia).
    by constructor; [|constructor].
Qed.

Definition s0 : Timing.sim :=
  Timing.mkSim (fun _ => Timing.newEvent Timing.Simple 0 0 0) 0
    (fun _ => Timing.mkER (mkTR 0 0 0 GETS None None) 0 0 0) (fun _ => Timing.mkDom PrioQueue.PrioQueue.new 0 0) 1 1000 0 false 1000.
Lemma s0_graph D : graph D s0.
Proof. exists 0. split; cbn; intros; try lia. by apply elem_of_nil in H. Qed.

Definition get_line (line c : Z) : MemReq := mkReq line GETS 0 Local c MemHier.I 0 0.
Definition no_record : TimingRecord := mkTR 0 0 0 GETS None None.
Definition lines (reqs : list MemReq) : option (list Z) :=
  match serve mem_parent no_record 10 reqs (mkW (new 16 0) s0 []) with Ok (_, w) => Some (par w) | Fail _ => None end.

(** Of eight lines in sequence three are followed by a prefetch: the access that
    prefetches leaves [lastPos] as it was, and so the next one seems to break the stride. *)
Example stream_gaps : lines (map (fun i => get_line (64 + i) (1000 * i)) (seqZ 0 8)) =
  Some [64; 65; 66; 66; 67; 68; 68; 69; 70; 71; 72].
Proof. vm_compute. reflexivity. Qed.

(** Line 0 is in the page that unused entries have: its second access divides by the stride 0. *)
Example line_zero : lines (map (fun i => get_line 0 (1000 * i)) (seqZ 0 2)) = None.
Proof. vm_compute. reflexivity. Qed.

Lemma prefetcher_safe_witness :
  wp (serve mem_parent no_record 10 (map (fun i => get_line (64 + i) (1000 * i)) (seqZ 0 8))) (mkW (new 16 0) s0 [])
    (fun cs w' => Forall2 (fun r t => cycle r <= t) (map (fun i => get_line (64 + i) (1000 * i)) (seqZ 0 8)) cs /\ table (pf w')).
Proof.
  apply (prefetcher_safe mem_parent no_record 10 0 ltac:(lia) (fun _ => True) (fun _ => True) (mem_parent_spec 0 ltac:(lia))).
  - lia.
  - apply s0_graph.
  - done.
  - done.
  - apply Forall_forall. intros r (i & -> & Hi)%list_elem_of_fmap. apply elem_of_seqZ in Hi.
    split; [done|]. unfold in_u64. cbn. lia.
Defined.
End PrefetchInv.
