(* ===== verification/Network.v ===== *)
(** The network of fixed delays (network.h and network.cpp): its constructor parses a file of
    lines [source destination delay], and [getRTT] answers queries.

    The file is the list of its characters.  [operator>>] is modelled as far as the
    constructor uses it: the words and the decimal number it reads, and the flags [eof] and
    [fail] it leaves. *)
From Stdlib Require Import Ascii String.
From stdpp Require Import strings.
From S2P Require Import Prelude.

Module Network.

Notation chars := (list ascii).

(** ** Input streams *)

Record ifstream := mkIn { rest : chars; eof : bool; fail : bool }.
Definition good (f : ifstream) : bool := negb (eof f) && negb (fail f).

Definition isspace (c : ascii) : bool :=
  let n := nat_of_ascii c in (n =? 32)%nat || ((9 <=? n)%nat && (n <=? 13)%nat).
Definition digit (c : ascii) : option Z :=
  let n := Z.of_nat (nat_of_ascii c) in if (48 <=? n) && (n <=? 57) then Some (n - 48) else None.

Fixpoint skip (l : chars) : chars :=
  match l with c :: l' => if isspace c then skip l' else l | [] => [] end.

Fixpoint word (l : chars) : chars * chars :=
  match l with
  | c :: l' => if isspace c then ([], l) else let '(w, r) := word l' in (c :: w, r)
  | [] => ([], [])
  end.

(** [f >> s] for a string: nothing when the stream is not good. *)
Definition read_word (f : ifstream) : chars * ifstream :=
  if good f then
    let '(w, r) := word (skip (rest f)) in
    (w, mkIn r (bool_decide (r = [])) (bool_decide (w = [])))
  else ([], mkIn (rest f) (eof f) true).

Fixpoint digits (acc : Z) (l : chars) : Z * chars :=
  match l with
  | c :: l' => match digit c with Some d => digits (10 * acc + d) l' | None => (acc, l) end
  | [] => (acc, [])
  end.

(** [f >> n] for a [uint32_t]: a number that does not fit is the largest one, and a failure.
    (The sign that a number may have is not modelled.) *)
Definition read_u32 (f : ifstream) : Z * ifstream :=
  if good f then
    let l := skip (rest f) in
    let '(n, r) := digits 0 l in
    let none := bool_decide (r = l) in
    let over := 2 ^ 32 <=? n in
    (if over then 2 ^ 32 - 1 else n, mkIn r (bool_decide (r = [])) (none || over))
  else (0, mkIn (rest f) (eof f) true).

(** ** The map of delays *)

Definition key (src dst : chars) : chars := src ++ " "%char :: dst.

Notation delayMap := (chars -> option Z).

(** One turn of the loop; [None] when it ends. *)
Definition parse_line (m : delayMap) (f : ifstream) : res (option (delayMap * ifstream)) :=
  let '(src, f) := read_word f in
  let '(dst, f) := read_word f in
  let '(delay, f) := read_u32 f in
  if eof f then mret None
  else
    let s1 := key src dst in
    let s2 := key dst src in
    _ ← assert_that (bool_decide (m s1 = None));
    _ ← assert_that (bool_decide (m s2 = None));
    mret (Some (<[s2 := Some delay]> (<[s1 := Some delay]> m), f)).

Fixpoint parse (fuel : nat) (m : delayMap) (f : ifstream) : res delayMap :=
  if good f then
    match fuel with
    | O => Fail NoFuel
    | S fuel =>
        o ← parse_line m f;
        match o with Some (m, f) => parse fuel m f | None => mret m end
    end
  else mret m.

(** The constructor; [None] is a file that cannot be opened. *)
Definition new (file : option chars) : res delayMap :=
  match file with
  | None => panic
  | Some l => parse (S (length l)) (fun _ => None) (mkIn l false false)
  end.

Definition getRTT (m : delayMap) (src dst : chars) : Z :=
  match m (key src dst) with Some d => u32 (2 * d) | None => 0 end.

(** ** Writing a file, and reading it *)

Record entry := mkEntry { e_src : chars; e_dst : chars; e_delay : Z }.

Definition digit_char (d : Z) : ascii := ascii_of_nat (Z.to_nat (48 + d)).
Fixpoint decimal (fuel : nat) (n : Z) : chars :=
  match fuel with
  | O => []
  | S fuel => if n <? 10 then [digit_char n] else decimal fuel (n / 10) ++ [digit_char (n mod 10)]
  end.
Definition newline : ascii := ascii_of_nat 10.
Definition line (e : entry) : chars :=
  e_src e ++ " "%char :: e_dst e ++ " "%char :: decimal 10 (e_delay e) ++ [newline].
Definition file_of (es : list entry) : chars := es ≫= line.

Definition is_word (w : chars) : Prop := w <> [] /\ Forall (fun c => isspace c = false) w.
Definition ok_entry (e : entry) : Prop := is_word (e_src e) /\ is_word (e_dst e) /\ in_u32 (e_delay e).

(** Do [src] and [dst] name the ends of [e]? *)
Definition joins (src dst : chars) (e : entry) : Prop :=
  (e_src e = src /\ e_dst e = dst) \/ (e_src e = dst /\ e_dst e = src).
Fixpoint distinct (es : list entry) : Prop :=
  match es with
  | [] => True
  | e :: es => Forall (fun e' => ~ joins (e_src e) (e_dst e) e') es /\ distinct es
  end.

Lemma word_app w c r : Forall (fun c => isspace c = false) w -> isspace c = true -> word (w ++ c :: r) = (w, c :: r).
Proof.
  induction 1 as [|x w Hx Hw IH]; intros Hc; cbn; [by rewrite Hc|]. rewrite Hx. by rewrite (IH Hc).
Qed.

Lemma skip_word w r : is_word w -> skip (w ++ r) = w ++ r.
Proof. intros [Hne Hw]. destruct w as [|c w]; [done|]. cbn. apply Forall_cons in Hw as [-> _]. done. Qed.

Lemma read_word_app w c r : is_word w -> isspace c = true ->
  read_word (mkIn (w ++ c :: r) false false) = (w, mkIn (c :: r) false false).
Proof.
  intros Hw Hc. unfold read_word. cbn [good eof fail negb andb rest]. rewrite skip_word by done.
  rewrite word_app by (done || apply Hw). destruct Hw as [Hw _]. by rewrite !bool_decide_false.
Qed.

Lemma digit_char_ok d : 0 <= d < 10 -> digit (digit_char d) = Some d /\ isspace (digit_char d) = false.
Proof.
  intros Hd. assert (d = 0 \/ d = 1 \/ d = 2 \/ d = 3 \/ d = 4 \/ d = 5 \/ d = 6 \/ d = 7 \/ d = 8 \/ d = 9) as H by lia.
  by repeat destruct H as [->|H]; [..|subst d].
Qed.

Lemma decimal_digits fuel : forall n acc r, 0 <= n < 10 ^ Z.of_nat fuel -> (0 < fuel)%nat ->
  exists k, digits acc (decimal fuel n ++ r) = digits (acc * 10 ^ Z.of_nat k + n) r /\
    decimal fuel n <> [] /\ Forall (fun c => isspace c = false) (decimal fuel n).
Proof.
  induction fuel as [|fuel IH]; intros n acc r Hn Hf; [lia|]. cbn [decimal].
  destruct (Z.ltb_spec n 10) as [Hlt|Hge].
  - destruct (digit_char_ok n) as [E1 E2]; [lia|]. exists 1%nat. cbn [digits app]. rewrite E1. split_and!; [f_equal; lia|done|by constructor].
  - rewrite Nat2Z.inj_succ, Z.pow_succ_r in Hn by lia. assert (0 < fuel)%nat as Hf'.
    { destruct fuel; [cbn in Hn; lia|lia]. }
    pose proof (Z.mod_pos_bound n 10 ltac:(lia)) as Hm. pose proof (Z.div_mod n 10 ltac:(lia)) as Hd.
    destruct (IH (n / 10) acc (digit_char (n mod 10) :: r)) as (k & E1 & E2 & E3); [split; [apply Z.div_pos; lia|apply Z.div_lt_upper_bound; lia]|done|].
    destruct (digit_char_ok (n mod 10) Hm) as [E4 E5]. exists (S k). rewrite <- app_assoc. cbn [app]. rewrite E1. cbn [digits]. rewrite E4.
    split_and!; [f_equal; rewrite Nat2Z.inj_succ, Z.pow_succ_r by lia; lia|by destruct (decimal fuel (n / 10))|].
    apply Forall_app. split; [done|by constructor].
Qed.

Lemma read_decimal n r : in_u32 n ->
  read_u32 (mkIn (" "%char :: decimal 10 n ++ newline :: r) false false) = (n, mkIn (newline :: r) false false).
Proof.
  intros [H1 H2]. unfold read_u32. cbn [good eof fail negb andb rest].
  destruct (decimal_digits 10 n 0 (newline :: r)) as (k & E1 & E2 & E3); [change (10 ^ Z.of_nat 10) with 10000000000; lia|lia|].
  set (x := decimal 10 n) in *. change (skip (" "%char :: x ++ newline :: r)) with (skip (x ++ newline :: r)).
  rewrite (skip_word x) by done. rewrite E1.
  assert (forall a, digits a (newline :: r) = (a, newline :: r)) as -> by done. cbn beta iota zeta.
  replace (0 * 10 ^ Z.of_nat k + n) with n by lia. rewrite (proj2 (Z.leb_gt _ _)) by done.
  rewrite !bool_decide_false; [done| |done]. intros E. apply E2.
  apply (f_equal length) in E. rewrite length_app in E. destruct x; [done|cbn in E; lia].
Qed.

Definition add_entry (e : entry) (m : delayMap) : delayMap :=
  <[key (e_dst e) (e_src e) := Some (e_delay e)]> (<[key (e_src e) (e_dst e) := Some (e_delay e)]> m).

(** A line feed may precede the first word. *)
Lemma parse_line_ok m e nl r : ok_entry e -> (nl = [] \/ nl = [newline]) ->
  m (key (e_src e) (e_dst e)) = None -> m (key (e_dst e) (e_src e)) = None ->
  parse_line m (mkIn (nl ++ line e ++ r) false false) = Ok (Some (add_entry e m, mkIn (newline :: r) false false)).
Proof.
  intros (Hs & Hd & Hn) Hnl H1 H2. unfold parse_line.
  assert (nl ++ line e ++ r = nl ++ e_src e ++ " "%char :: (e_dst e ++ " "%char :: (decimal 10 (e_delay e) ++ newline :: r))) as ->.
  { unfold line. by rewrite <- !app_assoc, !app_comm_cons, <- !app_assoc. }
  assert (forall x, read_word (mkIn (nl ++ x) false false) = read_word (mkIn x false false)) as ->.
  { destruct Hnl as [->| ->]; [done|]. intros x. unfold read_word. cbn [good eof fail negb andb rest app].
    by change (skip (newline :: x)) with (skip x). }
  rewrite read_word_app by done. cbn beta iota.
  assert (forall x, read_word (mkIn (" "%char :: x) false false) = read_word (mkIn x false false)) as -> by done.
  rewrite read_word_app by done. cbn beta iota. rewrite read_decimal by done. cbn [eof]. rewrite H1, H2.
  rewrite bool_decide_true by done. done.
Qed.

Lemma key_inj s1 d1 s2 d2 : is_word s1 -> is_word s2 -> key s1 d1 = key s2 d2 -> s1 = s2 /\ d1 = d2.
Proof.
  intros [_ H1] [_ H2] E. unfold key in E.
  pose proof (word_app s1 " "%char d1 H1 eq_refl) as W1. rewrite E, (word_app s2 " "%char d2 H2 eq_refl) in W1.
  by injection W1 as -> ->.
Qed.

(** The map has the entries of [es]. *)
Definition has (m : delayMap) (es : list entry) : Prop :=
  forall s d, is_word s -> is_word d ->
    (forall e, e ∈ es -> joins s d e -> m (key s d) = Some (e_delay e)) /\
    ((forall e, e ∈ es -> ~ joins s d e) -> m (key s d) = None).

Lemma has_add m es e : has m es -> ok_entry e -> (forall e', e' ∈ es -> ~ joins (e_src e) (e_dst e) e') ->
  m (key (e_src e) (e_dst e)) = None /\ m (key (e_dst e) (e_src e)) = None /\ has (add_entry e m) (es ++ [e]).
Proof.
  intros Hm (Hs & Hd & _) Hno.
  assert (forall e', e' ∈ es -> ~ joins (e_dst e) (e_src e) e') as Hno' by (intros e' H [[]|[]]; apply (Hno e' H); [by right|by left]).
  split; [by apply Hm|]. split; [by apply Hm|]. intros s d Hs' Hd'. unfold add_entry.
  assert (joins s d e <-> key (e_dst e) (e_src e) = key s d \/ key (e_src e) (e_dst e) = key s d) as Hj.
  { split; [intros [[-> ->]|[-> ->]]; auto|]. intros [E|E]; apply key_inj in E as [<- <-]; try done; [by right|by left]. }
  assert (joins s d e -> forall e', e' ∈ es -> ~ joins s d e') as Hx.
  { intros [[<- <-]|[<- <-]]; auto. }
  destruct (decide (key (e_dst e) (e_src e) = key s d)) as [E1|N1]; [|destruct (decide (key (e_src e) (e_dst e) = key s d)) as [E2|N2]].
  - rewrite E1, fn_lookup_insert. split.
    + intros e' [H| ->%list_elem_of_singleton]%elem_of_app J; [|done]. by destruct (Hx ltac:(apply Hj; auto) e' H).
    + intros H. destruct (H e); [apply elem_of_app; right; by left|apply Hj; auto].
  - rewrite fn_lookup_insert_ne, E2, fn_lookup_insert by done. split.
    + intros e' [H| ->%list_elem_of_singleton]%elem_of_app J; [|done]. by destruct (Hx ltac:(apply Hj; auto) e' H).
    + intros H. destruct (H e); [apply elem_of_app; right; by left|apply Hj; auto].
  - rewrite !fn_lookup_insert_ne by done. split.
    + intros e' [H| ->%list_elem_of_singleton]%elem_of_app J; [by apply (Hm s d Hs' Hd')|]. apply Hj in J. by destruct J.
    + intros H. apply (Hm s d Hs' Hd'). intros e' He'. apply H, elem_of_app. by left.
Qed.

Lemma parse_ok es : forall m dn nl fuel, Forall ok_entry es -> has m dn -> (nl = [] \/ nl = [newline]) ->
  distinct es -> (forall e e', e ∈ es -> e' ∈ dn -> ~ joins (e_src e) (e_dst e) e') -> (length es < fuel)%nat ->
  exists m', parse fuel m (mkIn (nl ++ file_of es) false false) = Ok m' /\ has m' (dn ++ es).
Proof.
  induction es as [|e es IH]; intros m dn nl fuel Hok Hm Hnl Hd Hx Hf; (destruct fuel as [|fuel]; [cbn in Hf; lia|]).
  - cbn [parse good eof fail negb andb]. exists m. rewrite (app_nil_r dn). split; [|done].
    by destruct Hnl as [-> | ->].
  - apply Forall_cons in Hok as [He Hok]. destruct Hd as [Hd1 Hd2].
    destruct (has_add m dn e Hm He) as (M1 & M2 & Hm'); [intros e' H; apply Hx; [by left|done]|].
    cbn [parse good eof fail negb andb]. change (file_of (e :: es)) with (line e ++ file_of es).
    rewrite (parse_line_ok m e nl (file_of es) He Hnl M1 M2). cbn [mbind res_bind].
    destruct (IH (add_entry e m) (dn ++ [e]) [newline] fuel) as (m' & E & Hm''); try done; [by right| |cbn in Hf; lia|].
    + intros e1 e' H1 [H2| ->%list_elem_of_singleton]%elem_of_app; [apply Hx; [by right|done]|].
      rewrite Forall_forall in Hd1. intros J. apply (Hd1 e1 H1). destruct J as [[-> ->]|[-> ->]]; [by left|by right].
    + exists m'. split; [exact E|]. by rewrite <- app_assoc in Hm''.
Qed.

Lemma file_length es : Forall ok_entry es -> (length es <= length (file_of es))%nat.
Proof.
  induction 1 as [|e es He _ IH]; [done|]. change (file_of (e :: es)) with (line e ++ file_of es). rewrite length_app.
  unfold line. rewrite length_app. cbn. lia.
Qed.

(** The network read from a file of lines, one for each pair of ends, each ended by a line
    feed, answers twice the delay of the line for both directions, and 0 for a pair that has
    none. *)
Theorem network_roundtrip es : Forall ok_entry es -> distinct es ->
  exists m, new (Some (file_of es)) = Ok m /\
    forall s d, is_word s -> is_word d ->
      (forall e, e ∈ es -> joins s d e -> getRTT m s d = u32 (2 * e_delay e)) /\
      ((forall e, e ∈ es -> ~ joins s d e) -> getRTT m s d = 0).
Proof.
  intros Hok Hd. unfold new.
  destruct (parse_ok es (fun _ => None) [] [] (S (length (file_of es)))) as (m & E & Hm); try done; try (by left).
  - intros s d Hs Hd'. split; [|done]. by intros e He%elem_of_nil.
  - intros e e' _ H. by apply elem_of_nil in H.
  - pose proof (file_length es Hok). lia.
  - exists m. split; [exact E|]. intros s d Hs Hd'. destruct (Hm s d Hs Hd') as [H1 H2]. unfold getRTT. split.
    + intros e He J. by rewrite (H1 e He J).
    + intros H. by rewrite (H2 H).
Qed.

Definition two_links : list entry :=
  [mkEntry (String.list_ascii_of_string "l1") (String.list_ascii_of_string "l2") 7; mkEntry (String.list_ascii_of_string "l2") (String.list_ascii_of_string "mem") 40].

(** Without the last line feed the last line is lost: the number ends at the end of the file. *)
Example last_line_lost :
  (match new (Some (removelast (file_of two_links))) with
   | Ok m => (getRTT m (String.list_ascii_of_string "l1") (String.list_ascii_of_string "l2"), getRTT m (String.list_ascii_of_string "l2") (String.list_ascii_of_string "mem"))
   | Fail _ => (0, 0) end) = (14, 0).
Proof. vm_compute. reflexivity. Qed.

Lemma network_roundtrip_witness : exists m, new (Some (file_of two_links)) = Ok m /\
  getRTT m (String.list_ascii_of_string "mem") (String.list_ascii_of_string "l2") = 80.
Proof.
  destruct (network_roundtrip two_links) as (m & E & H).
  - unfold ok_entry, is_word, in_u32. repeat constructor; discriminate.
  - cbn. split; [|done]. constructor; [|done]. by intros [[]|[]].
  - exists m. split; [exact E|]. destruct (H (String.list_ascii_of_string "mem") (String.list_ascii_of_string "l2")) as [H1 _];
      [split; [done|by repeat constructor]|split; [done|by repeat constructor]|].
    apply (H1 (mkEntry (String.list_ascii_of_string "l2") (String.list_ascii_of_string "mem") 40)); [right; left|by right].
Defined.
End Network.
