(* ===== verification/TimingCache.v ===== *)
(** The timing cache (timing_cache.h and timing_cache.cpp): a cache whose accesses take its
    port and its miss registers (MSHRs) in the weave phase.

    The weave side: the port, the registers, and the five events of the cache.  What an event
    does to the contention simulator is an [action].  Statistics are not modelled. *)
From S2P Require Import Prelude Effects MemHier Timing.

Module TimingCache.
#[local] Existing Instance Timing.EventState_eq_dec.

(** ** The port and the miss registers *)

Record port := mkPort {
  lastAccCycle : Z;
  lastFreeCycle : Z;
  numMSHRs : Z;
  activeMisses : Z;
  pendingQueue : list nat
}.

Definition new (mshrs : Z) : res port :=
  _ ← assert_that (0 <? mshrs); mret (mkPort 0 0 mshrs 0 []).

Definition set_cycles (acc free : Z) (p : port) : port :=
  mkPort acc free (numMSHRs p) (activeMisses p) (pendingQueue p).
Definition set_misses (n : Z) (q : list nat) (p : port) : port :=
  mkPort (lastAccCycle p) (lastFreeCycle p) (numMSHRs p) n q.

Definition highPrioAccess (cycle : Z) (p : port) : res (Z * port) :=
  _ ← assert_that (lastFreeCycle p <=? cycle);
  let lookupCycle := Z.max cycle (u64 (lastAccCycle p + 1)) in
  let free := if lastAccCycle p <? u64 (cycle - 1) then u64 (cycle - 1) else lastFreeCycle p in
  mret (lookupCycle, set_cycles lookupCycle free p).

(** 0 when there is no free slot. *)
Definition tryLowPrioAccess (cycle : Z) (p : port) : Z * port :=
  if (lastAccCycle p <? u64 (cycle - 1)) || (lastFreeCycle p =? u64 (cycle - 1))
  then (cycle, set_cycles (Z.max (u64 (cycle - 1)) (lastAccCycle p)) 0 p)
  else (0, p).

(** ** The events *)

Inductive action := Done (e : nat) (cycle : Z) | Hold (e : nat) | Requeue (e : nat) (cycle : Z).

Definition simulateHit (e : nat) (cycle : Z) (p : port) : res (port * list action) :=
  if activeMisses p <? numMSHRs p then
    '(lookupCycle, p) ← highPrioAccess cycle p;
    mret (p, [Done e lookupCycle])
  else mret (set_misses (activeMisses p) (pendingQueue p ++ [e]) p, [Hold e]).

Definition simulateMissStart (e : nat) (cycle : Z) (p : port) : res (port * list action) :=
  if activeMisses p <? numMSHRs p then
    let p := set_misses (u32 (activeMisses p + 1)) (pendingQueue p) p in
    '(lookupCycle, p) ← highPrioAccess cycle p;
    mret (p, [Done e lookupCycle])
  else mret (set_misses (activeMisses p) (pendingQueue p ++ [e]) p, [Hold e]).

Definition simulateMissResponse (e : nat) (cycle : Z) (p : port) : res (port * list action) :=
  mret (p, [Done e cycle]).

Definition simulateMissWriteback (e : nat) (cycle : Z) (p : port) : res (port * list action) :=
  let '(lookupCycle, p) := tryLowPrioAccess cycle p in
  if lookupCycle =? 0 then mret (p, [Requeue e (cycle + 1)])
  else
    _ ← assert_that (negb (activeMisses p =? 0));
    mret (set_misses (u32 (activeMisses p - 1)) [] p,
          map (fun q => Requeue q (cycle + 1)) (pendingQueue p) ++ [Done e cycle]).

(** With the lookups that are left. *)
Definition simulateReplAccess (e : nat) (accsLeft cycle : Z) (p : port) : res (Z * port * list action) :=
  _ ← assert_that (negb (accsLeft =? 0));
  let '(lookupCycle, p) := tryLowPrioAccess cycle p in
  if lookupCycle =? 0 then mret (accsLeft, p, [Requeue e (cycle + 1)])
  else
    let accsLeft := u32 (accsLeft - 1) in
    mret (accsLeft, p, if accsLeft =? 0 then [Done e cycle] else [Requeue e (cycle + 1)]).

(** What [Timing.done], [Timing.hold] and [Timing.requeue] assert of the states of the events,
    and make of them. *)
Definition accept (st : nat -> Timing.EventState) (a : action) : option (nat -> Timing.EventState) :=
  match a with
  | Done e _ => if bool_decide (st e = Timing.EV_RUNNING) then Some (<[e := Timing.EV_DONE]> st) else None
  | Hold e => if bool_decide (st e = Timing.EV_RUNNING) then Some (<[e := Timing.EV_HELD]> st) else None
  | Requeue e _ =>
      if bool_decide (st e = Timing.EV_RUNNING \/ st e = Timing.EV_HELD)
      then Some (<[e := Timing.EV_QUEUED]> st) else None
  end.
Fixpoint accepts (st : nat -> Timing.EventState) (l : list action) : option (nat -> Timing.EventState) :=
  match l with
  | [] => Some st
  | a :: l => match accept st a with Some st => accepts st l | None => None end
  end.
(** What an action does to the contention simulator. *)
Definition perform (fuel : nat) (a : action) : prog Timing.sim unit :=
  match a with
  | Done e c => Timing.done fuel e c
  | Hold e => Timing.hold e
  | Requeue e c => Timing.requeue e c
  end.

(** An action that is not accepted fails there; one that is passes the assertion on the state. *)
Definition states (w : Timing.sim) (e : nat) : Timing.EventState := Timing.state (Timing.ev w e).

Lemma rejected_fails fuel a w : accept (states w) a = None -> ~ is_ok (perform fuel a w).
Proof.
  intros Ha [[x v] Hx]. destruct a as [e c|e|e c]; cbn [perform accept] in *; case_bool_decide as Hs; try done; unfold states in Hs.
  - destruct fuel; [done|]. cbn [Timing.done] in Hx. apply prog_bind_Ok in Hx as (y & w1 & [= <- <-] & Hx).
    apply prog_bind_Ok in Hx as (u & w2 & Hx & _). unfold require in Hx. by rewrite bool_decide_false in Hx.
  - apply prog_bind_Ok in Hx as (y & w1 & [= <- <-] & Hx).
    apply prog_bind_Ok in Hx as (u & w2 & Hx & _). unfold require in Hx. by rewrite bool_decide_false in Hx.
  - apply prog_bind_Ok in Hx as (y & w1 & [= <- <-] & Hx). apply prog_bind_Ok in Hx as (u & w2 & Hx1 & Hx).
    apply prog_bind_Ok in Hx as (u' & w3 & Hx & _). unfold require in Hx. by rewrite bool_decide_false in Hx.
Qed.

(** An action does not go back in time. *)
Definition from_cycle (c : Z) (a : action) : Prop :=
  match a with Done _ d => c <= d | Hold _ => True | Requeue _ d => c < d end.

(** ** A cache and its events

    The kinds of the events, a writeback with the start of its miss; [accs] has the lookups
    left.  Events become ready, at any cycle from the current one on, when their parents in
    the graph are done: for a writeback the start of its miss is one.  The contention
    simulator runs them in the order of their cycles. *)

Inductive kind := Hit | MissStart | MissResponse | MissWriteback (mse : nat) | ReplAccess.

Record sys := mkSys {
  tc : port;
  agenda : list (Z * nat);
  finished : list nat;
  known : list nat;
  misses : list nat; (* started, and not written back *)
  accs : nat -> Z;
  now : Z;
  slots : list Z (* the cycles at which the array was accessed *)
}.

Section System.
Context (ekind : nat -> kind).

Definition simulate (e : nat) (cycle : Z) (s : sys) : res (Z * port * list action) :=
  match ekind e with
  | Hit => '(p, l) ← simulateHit e cycle (tc s); mret (accs s e, p, l)
  | MissStart => '(p, l) ← simulateMissStart e cycle (tc s); mret (accs s e, p, l)
  | MissResponse => '(p, l) ← simulateMissResponse e cycle (tc s); mret (accs s e, p, l)
  | MissWriteback _ => '(p, l) ← simulateMissWriteback e cycle (tc s); mret (accs s e, p, l)
  | ReplAccess => simulateReplAccess e (accs s e) cycle (tc s)
  end.

Definition act (s : sys) (a : action) : sys :=
  match a with
  | Done e _ =>
      let ms := match ekind e with
        | MissStart => e :: misses s
        | MissWriteback m => filter (fun x => x <> m) (misses s)
        | _ => misses s
        end in
      mkSys (tc s) (agenda s) (e :: finished s) (known s) ms (accs s) (now s) (slots s)
  | Hold _ => s
  | Requeue e c => mkSys (tc s) ((c, e) :: agenda s) (finished s) (known s) (misses s) (accs s) (now s) (slots s)
  end.

(** The state of an event: held ones wait in the cache, others for their cycle. *)
Definition estate (s : sys) (e : nat) : Timing.EventState :=
  if decide (e ∈ finished s) then Timing.EV_DONE
  else if decide (e ∈ pendingQueue (tc s)) then Timing.EV_HELD
  else if decide (e ∈ known s) then Timing.EV_QUEUED else Timing.EV_NONE.

(** The slot of the array that an event takes: what is granted at a low priority is the slot
    before its cycle. *)
Definition took (e : nat) (cycle : Z) (p p' : port) : list Z :=
  match ekind e with
  | Hit | MissStart => if activeMisses p <? numMSHRs p then [lastAccCycle p'] else []
  | MissResponse => []
  | MissWriteback _ | ReplAccess => if (tryLowPrioAccess cycle p).1 =? 0 then [] else [cycle - 1]
  end.

(** The event [e] ran at [c]; [rest] is what waits beside it. *)
Definition ran (e : nat) (c : Z) (rest : list (Z * nat)) (left : Z) (p : port) (acts : list action) (s : sys) : sys :=
  foldl act (mkSys p rest (finished s) (known s) (misses s) (<[e := left]> (accs s)) c (took e c (tc s) p ++ slots s)) acts.

Inductive step : sys -> sys -> Prop :=
  | step_ready s e c : e ∉ known s -> now s <= c ->
      (forall m, ekind e = MissWriteback m -> m ∈ finished s /\ ekind m = MissStart) ->
      (ekind e = ReplAccess -> 0 < accs s e < 2 ^ 32) ->
      step s (mkSys (tc s) ((c, e) :: agenda s) (finished s) (e :: known s) (misses s) (accs s) (now s) (slots s))
  | step_run s l1 l2 e c left p acts : agenda s = l1 ++ (c, e) :: l2 ->
      Forall (fun x => c <= x.1) (agenda s) -> c + 1 < 2 ^ 64 -> lastAccCycle (tc s) + 1 < 2 ^ 64 ->
      simulate e c s = Ok (left, p, acts) -> step s (ran e c (l1 ++ l2) left p acts s).

(** The first cycle is 2: [cycle - 1] must be neither negative nor the 0 that stands for none. *)
Definition init (mshrs : Z) (accs0 : nat -> Z) : sys := mkSys (mkPort 0 0 mshrs 0 []) [] [] [] [] accs0 2 [].

Inductive reachable (mshrs : Z) (accs0 : nat -> Z) : sys -> Prop :=
  | reach_init : reachable mshrs accs0 (init mshrs accs0)
  | reach_step s s' : reachable mshrs accs0 s -> step s s' -> reachable mshrs accs0 s'.
End System.

(** ** The port *)

(** No slot was taken twice, none after the last access, and the free one is free. *)
Record port_ok (p : port) (now : Z) (slots : list Z) : Prop := {
  po_free : 0 <= lastFreeCycle p < now;
  po_now : 2 <= now;
  po_acc : 0 <= lastAccCycle p;
  po_slots : Forall (fun x => 0 < x <= lastAccCycle p) slots;
  po_nodup : NoDup slots;
  po_isfree : lastFreeCycle p ∉ slots
}.

Lemma slots_mono x y l : Forall (fun z => 0 < z <= x) l -> x <= y -> Forall (fun z => 0 < z <= y) l.
Proof. intros H Hx. eapply Forall_impl; [exact H|]. cbn. lia. Qed.

Lemma not_slot x y l : Forall (fun z => 0 < z <= x) l -> x < y -> y ∉ l.
Proof. intros H Hx Hy. rewrite Forall_forall in H. specialize (H y Hy). cbn in H. lia. Qed.

Lemma high_ok c p now sl : port_ok p now sl -> now <= c -> c + 1 < 2 ^ 64 -> lastAccCycle p + 1 < 2 ^ 64 ->
  exists l p', highPrioAccess c p = Ok (l, p') /\ port_ok p' c (lastAccCycle p' :: sl) /\ c <= l /\ l = lastAccCycle p' /\
    numMSHRs p' = numMSHRs p /\ activeMisses p' = activeMisses p /\ pendingQueue p' = pendingQueue p.
Proof.
  intros [H1 H2 H3 H4 H5 H6] Hc Ho1 Ho2. unfold highPrioAccess. rewrite (proj2 (Z.leb_le _ _)) by lia.
  rewrite !u64_id by (unfold in_u64; lia). cbn [assert_that mbind res_bind mret res_ret].
  eexists _, _. split; [done|]. cbn. split_and!; try done; [|lia].
  split; cbn; try lia.
  - destruct (Z.ltb_spec (lastAccCycle p) (c - 1)); lia.
  - constructor; [lia|]. eapply slots_mono; [exact H4|lia].
  - constructor; [|done]. eapply not_slot; [exact H4|lia].
  - intros [E|E]%elem_of_cons; destruct (Z.ltb_spec (lastAccCycle p) (c - 1)); try lia; [|done].
    revert E. eapply not_slot; [exact H4|lia].
Qed.

Lemma port_later p now c sl : port_ok p now sl -> now <= c -> port_ok p c sl.
Proof. intros [] ?. split; try done; lia. Qed.

Lemma low_ok c p now sl : port_ok p now sl -> now <= c -> c + 1 < 2 ^ 64 ->
  exists l p', tryLowPrioAccess c p = (l, p') /\
    port_ok p' c ((if l =? 0 then [] else [c - 1]) ++ sl) /\ (l = 0 \/ l = c) /\
    numMSHRs p' = numMSHRs p /\ activeMisses p' = activeMisses p /\ pendingQueue p' = pendingQueue p.
Proof.
  intros Hp Hc Ho. pose proof Hp as [H1 H2 H3 H4 H5 H6]. unfold tryLowPrioAccess. rewrite u64_id by (unfold in_u64; lia).
  destruct (Z.ltb_spec (lastAccCycle p) (c - 1)) as [Hlt|Hge]; cbn [orb]; [|destruct (Z.eqb_spec (lastFreeCycle p) (c - 1)) as [He|He]].
  - exists c. eexists. split; [done|]. rewrite (proj2 (Z.eqb_neq _ _)) by lia. cbn. split_and!; try done; [|by right].
    split; cbn; try lia.
    + constructor; [lia|]. eapply slots_mono; [exact H4|lia].
    + constructor; [|done]. by eapply not_slot.
    + intros [E|E]%elem_of_cons; [lia|]. rewrite Forall_forall in H4. specialize (H4 _ E). cbn in H4. lia.
  - exists c. eexists. split; [done|]. rewrite (proj2 (Z.eqb_neq _ _)) by lia. cbn. split_and!; try done; [|by right].
    split; cbn; try lia.
    + constructor; [lia|]. eapply slots_mono; [exact H4|lia].
    + constructor; [|done]. congruence.
    + intros [E|E]%elem_of_cons; [lia|]. rewrite Forall_forall in H4. specialize (H4 _ E). cbn in H4. lia.
  - exists 0, p. split; [done|]. cbn. split; [by eapply port_later|]. split; [by left|done].
Qed.

(** ** The cache *)

Section Inv.
Context (ekind : nat -> kind) (mshrs : Z) (accs0 : nat -> Z) (mshrs_range : 0 < mshrs < 2 ^ 32).
(** A miss has one writeback. *)
Context (one_wb : forall e1 e2 m, ekind e1 = MissWriteback m -> ekind e2 = MissWriteback m -> e1 = e2).

Record inv (s : sys) : Prop := {
  iv_port : port_ok (tc s) (now s) (slots s);
  iv_num : numMSHRs (tc s) = mshrs;
  iv_active : activeMisses (tc s) = Z.of_nat (length (misses s)) /\ activeMisses (tc s) <= mshrs;
  iv_pending : pendingQueue (tc s) <> [] -> activeMisses (tc s) = mshrs;
  iv_known : NoDup (known s);
  iv_all : known s ≡ₚ map snd (agenda s) ++ pendingQueue (tc s) ++ finished s;
  iv_later : Forall (fun x => now s <= x.1) (agenda s);
  iv_nodup : NoDup (misses s);
  iv_miss m : m ∈ misses s <-> ekind m = MissStart /\ m ∈ finished s /\
    forall e, ekind e = MissWriteback m -> e ∉ finished s;
  iv_wb e m : e ∈ known s -> ekind e = MissWriteback m -> m ∈ finished s /\ ekind m = MissStart;
  iv_accs e : e ∈ known s -> e ∉ finished s -> ekind e = ReplAccess -> 0 < accs s e < 2 ^ 32
}.

Lemma tc_init_inv : inv (init mshrs accs0).
Proof.
  split; cbn; try done.
  - split; cbn; try done; try lia; [constructor|]. by intros ?%elem_of_nil.
  - lia.
  - constructor.
  - constructor.
  - intros m. split; [by intros ?%elem_of_nil|]. by intros (_ & ?%elem_of_nil & _).
  - by intros e m ?%elem_of_nil.
Qed.

Lemma length_remove (m : nat) l : NoDup l -> m ∈ l -> length l = S (length (filter (fun x => x <> m) l)).
Proof.
  induction l as [|x l IH]; [by intros _ ?%elem_of_nil|]. intros [Hx Hl]%NoDup_cons Hm. rewrite filter_cons.
  destruct (decide (x = m)) as [->|Hne].
  - rewrite decide_False by (by intros H; apply H). cbn. f_equal.
    assert (filter (fun x => x <> m) l = l) as ->; [|done]. clear IH Hm.
    induction l as [|y l IH]; [done|]. apply NoDup_cons in Hl as [_ Hl]. apply not_elem_of_cons in Hx as [Hy Hx].
    rewrite filter_cons, decide_True by (by intros ->). by rewrite IH.
  - rewrite decide_True by done. cbn. rewrite <- IH; [done|done|]. apply elem_of_cons in Hm as [->|Hm]; done.
Qed.

Lemma fold_requeue c l : forall s, foldl (act ekind) s (map (fun q => Requeue q c) l) =
  mkSys (tc s) (rev (map (pair c) l) ++ agenda s) (finished s) (known s) (misses s) (accs s) (now s) (slots s).
Proof.
  induction l as [|x l IH]; intros s; cbn; [by destruct s|]. rewrite IH. cbn. by rewrite <- app_assoc.
Qed.

(** The events at the head: not finished, not held, and no other one is the same. *)
Lemma head_event s l1 l2 c e : inv s -> agenda s = l1 ++ (c, e) :: l2 ->
  known s ≡ₚ e :: map snd (l1 ++ l2) ++ pendingQueue (tc s) ++ finished s /\ e ∈ known s /\ e ∉ finished s /\ now s <= c.
Proof.
  intros Hi Ha. pose proof (iv_all _ Hi) as Hp. rewrite Ha in Hp.
  assert (known s ≡ₚ e :: map snd (l1 ++ l2) ++ pendingQueue (tc s) ++ finished s) as Hp'.
  { rewrite Hp, !map_app. cbn. by rewrite <- Permutation_middle. }
  split; [exact Hp'|]. split; [rewrite Hp'; by left|]. split.
  - pose proof (iv_known _ Hi) as Hn. rewrite Hp' in Hn. apply NoDup_cons in Hn as [Hn _].
    intros H. apply Hn, elem_of_app. right. apply elem_of_app. by right.
  - pose proof (iv_later _ Hi) as Hl. rewrite Ha in Hl. apply Forall_app in Hl as [_ Hl]. by apply Forall_cons in Hl as [Hl _].
Qed.

Lemma simulate_ok s l1 l2 c e : inv s -> agenda s = l1 ++ (c, e) :: l2 -> c + 1 < 2 ^ 64 -> lastAccCycle (tc s) + 1 < 2 ^ 64 ->
  exists left p acts, simulate ekind e c s = Ok (left, p, acts).
Proof.
  intros Hi Ha Ho1 Ho2. destruct (head_event s l1 l2 c e Hi Ha) as (_ & Hk & Hf & Hc). pose proof (iv_port _ Hi) as Hp.
  unfold simulate. destruct (ekind e) as [| | |m|] eqn:Ek.
  - unfold simulateHit. destruct (_ <? _); [|by eexists _, _, _].
    destruct (high_ok c _ _ _ Hp Hc Ho1 Ho2) as (l & p' & -> & _). by eexists _, _, _.
  - unfold simulateMissStart. destruct (_ <? _); [|by eexists _, _, _].
    assert (port_ok (set_misses (u32 (activeMisses (tc s) + 1)) (pendingQueue (tc s)) (tc s)) (now s) (slots s)) as Hp' by (by destruct Hp; split).
    destruct (high_ok c _ _ _ Hp' Hc Ho1 Ho2) as (l & p' & -> & _). by eexists _, _, _.
  - by eexists _, _, _.
  - unfold simulateMissWriteback. destruct (low_ok c _ _ _ Hp Hc Ho1) as (l & p' & -> & _ & _ & _ & Ea & _).
    destruct (l =? 0); [by eexists _, _, _|]. rewrite Ea.
    destruct (iv_wb _ Hi e m Hk Ek) as [Hm Hkm].
    assert (m ∈ misses s) as Hin.
    { apply (iv_miss _ Hi). split; [done|]. split; [done|]. intros e' He'. by rewrite (one_wb e' e m He' Ek). }
    rewrite (proj1 (iv_active _ Hi)). destruct (misses s); [by apply elem_of_nil in Hin|].
    rewrite (proj2 (Z.eqb_neq _ _)) by (cbn; lia). by eexists _, _, _.
  - unfold simulateReplAccess. pose proof (iv_accs _ Hi e Hk Hf Ek). rewrite (proj2 (Z.eqb_neq (accs s e) 0)) by lia.
    cbn [negb assert_that mbind res_bind]. destruct (tryLowPrioAccess _ _) as [l p']. destruct (l =? 0); by eexists _, _, _.
Qed.

(** What finishing [e] does to the misses. *)
Definition after_done (e : nat) (l : list nat) : list nat :=
  match ekind e with
  | MissStart => e :: l
  | MissWriteback m => filter (fun x => x <> m) l
  | _ => l
  end.

(** The rest of the state after the event [e] ran at [c]: it finished, is held, or is queued
    again; [back] are the held events that were queued again. *)
Inductive fate := Finished | Held | Queued.

Lemma finish_miss s e : inv s -> e ∈ known s -> e ∉ finished s -> forall m,
  m ∈ after_done e (misses s) <-> ekind m = MissStart /\ ((Finished = Finished /\ m = e) \/ m ∈ finished s) /\
    forall e', ekind e' = MissWriteback m -> ~ ((Finished = Finished /\ e' = e) \/ e' ∈ finished s).
Proof.
  intros Hi Hek Hef m. pose proof (iv_miss _ Hi m) as I9. unfold after_done.
  assert (forall e' m', ekind e' = MissWriteback m' -> e' ∈ finished s -> m' ∈ finished s) as Hwb.
  { intros e' m' Hk He'. apply (iv_wb _ Hi e' m'); [|done]. rewrite (iv_all _ Hi). set_solver. }
  destruct (ekind e) as [| | |m0|] eqn:Ek.
  1, 3, 5: rewrite I9; split;
    [intros (A1 & A2 & A3); split; [done|]; split; [by right|]; intros e' He' [[_ ->]|H]; [congruence|by apply (A3 e')]|
     intros (A1 & [[_ ->]|A2] & A3); [congruence|]; split; [done|]; split; [done|]; intros e' He' H; apply (A3 e' He'); by right].
  - rewrite elem_of_cons, I9. split.
    + intros [->|(A1 & A2 & A3)].
      * split; [done|]. split; [by left|]. intros e' He' [[_ ->]|H]; [congruence|]. by apply Hef, (Hwb e').
      * split; [done|]. split; [by right|]. intros e' He' [[_ ->]|H]; [congruence|by apply (A3 e')].
    + intros (A1 & [[_ ->]|A2] & A3); [by left|right]. split; [done|]. split; [done|]. intros e' He' H. apply (A3 e' He'). by right.
  - rewrite list_elem_of_filter, I9. split.
    + intros (Hne & A1 & A2 & A3). split; [done|]. split; [by right|]. intros e' He' [[_ ->]|H]; [congruence|by apply (A3 e')].
    + intros (A1 & [[_ ->]|A2] & A3); [congruence|]. split; [intros ->; apply (A3 e Ek); by left|].
      split; [done|]. split; [done|]. intros e' He' H. apply (A3 e' He'). by right.
Qed.

Lemma tc_run_inv s l1 l2 c e left p sl back f : inv s -> agenda s = l1 ++ (c, e) :: l2 ->
  Forall (fun x => c <= x.1) (agenda s) ->
  port_ok p c sl -> numMSHRs p = mshrs ->
  pendingQueue (tc s) ++ match f with Held => [e] | _ => [] end ≡ₚ back ++ pendingQueue p ->
  let ms := match f with Finished => after_done e (misses s) | _ => misses s end in
  activeMisses p = Z.of_nat (length ms) -> activeMisses p <= mshrs ->
  (pendingQueue p <> [] -> activeMisses p = mshrs) ->
  (f <> Finished -> ekind e = ReplAccess -> 0 < left < 2 ^ 32) ->
  inv (mkSys p (match f with Queued => [(c + 1, e)] | _ => [] end ++ map (pair (c + 1)) back ++ l1 ++ l2)
    (match f with Finished => [e] | _ => [] end ++ finished s) (known s) ms (<[e := left]> (accs s)) c sl).
Proof.
  intros Hi Ha Hmin Hp Hn Hpend ms Hact Hle Hfull Hacc. destruct (head_event s l1 l2 c e Hi Ha) as (Hperm & Hek & Hef & Hc).
  pose proof Hi as [I1 I2 I3 I4 I5 I6 I7 I8 I9 I10 I11]. rewrite Ha in Hmin.
  assert (forall x, x ∈ match f with Finished => [e] | _ => [] end ++ finished s <-> (f = Finished /\ x = e) \/ x ∈ finished s) as Hfin.
  { intros x. rewrite elem_of_app. destruct f; rewrite ?list_elem_of_singleton, ?elem_of_nil; intuition congruence. }
  split; cbn; try done.
  - rewrite Hperm, !map_app, map_map. cbn.
    replace (map (fun x => x) back) with back by (symmetry; apply map_id).
    set (A := map snd l1 ++ map snd l2). set (F := finished s).
    assert (A ++ pendingQueue (tc s) ++ (match f with Held => [e] | _ => [] end) ++ F ≡ₚ (back ++ A) ++ pendingQueue p ++ F) as HA.
    { rewrite (app_assoc (pendingQueue (tc s))), Hpend, <- !app_assoc, !(app_assoc A back), (Permutation_app_comm A back), <- !app_assoc. done. }
    destruct f; cbn [app map snd] in *.
    + rewrite HA, <- Permutation_middle. by rewrite <- !Permutation_middle.
    + rewrite <- HA. rewrite <- (Permutation_middle (pendingQueue (tc s))). by rewrite <- (Permutation_middle A).
    + rewrite HA. done.
  - rewrite !Forall_app. apply Forall_app in Hmin as [M1 M2]. apply Forall_cons in M2 as [_ M2].
    split; [destruct f; [constructor|constructor|constructor; [cbn; lia|constructor]]|]. split; [|done].
    apply Forall_forall. intros x (y & -> & _)%list_elem_of_fmap. cbn. lia.
  - destruct f; [|done..]. unfold ms, after_done. destruct (ekind e); try done; [|by apply NoDup_filter].
    constructor; [|done]. intros H. by apply I9 in H as (_ & H & _).
  - intros m. rewrite Hfin. setoid_rewrite Hfin. destruct f; unfold ms; cbn.
    2, 3: rewrite I9; split; [intros (A1 & A2 & A3); split; [done|]; split; [by right|]; intros e' He' [[]|]; [done|by apply (A3 e')]|];
      intros (A1 & [[]|A2] & A3); [done|]; split; [done|]; split; [done|]; intros e' He' Hin; apply (A3 e' He'); by right.
    apply (finish_miss s e Hi Hek Hef).
  - intros e' m He' Hk. rewrite Hfin. destruct (I10 e' m He' Hk). split; [by right|done].
  - intros e' He' Hnf Hk. rewrite Hfin in Hnf. destruct (decide (e' = e)) as [->|Hne].
    + rewrite fn_lookup_insert. apply Hacc; [|done]. intros ->. apply Hnf. by left.
    + rewrite fn_lookup_insert_ne by done. apply I11; [done| |done]. intros H. apply Hnf. by right.
Qed.

(** *** The steps *)

Lemma ready_inv s e c : inv s -> e ∉ known s -> now s <= c ->
  (forall m, ekind e = MissWriteback m -> m ∈ finished s /\ ekind m = MissStart) ->
  (ekind e = ReplAccess -> 0 < accs s e < 2 ^ 32) ->
  inv (mkSys (tc s) ((c, e) :: agenda s) (finished s) (e :: known s) (misses s) (accs s) (now s) (slots s)).
Proof.
  intros [I1 I2 I3 I4 I5 I6 I7 I8 I9 I10 I11] He Hc Hm Ha. split; cbn; try done.
  - by constructor.
  - by rewrite I6.
  - by constructor.
  - intros e' m [->|H]%elem_of_cons; [auto|by apply I10].
  - intros e' [->|H]%elem_of_cons; [auto|by apply I11].
Qed.

Lemma active_range s : inv s -> 0 <= activeMisses (tc s) <= mshrs.
Proof. intros Hi. destruct (iv_active _ Hi) as [-> ?]. lia. Qed.

(** A held event: no register is free. *)
Lemma held_inv s l1 l2 c e : inv s -> agenda s = l1 ++ (c, e) :: l2 -> Forall (fun x => c <= x.1) (agenda s) ->
  activeMisses (tc s) <? numMSHRs (tc s) = false -> ekind e <> ReplAccess ->
  inv (mkSys (set_misses (activeMisses (tc s)) (pendingQueue (tc s) ++ [e]) (tc s)) (l1 ++ l2) (finished s) (known s)
    (misses s) (<[e := accs s e]> (accs s)) c (slots s)).
Proof.
  intros Hi Ha Hmin Hfull Hk. destruct (head_event s l1 l2 c e Hi Ha) as (_ & _ & _ & Hc).
  apply Z.ltb_ge in Hfull. rewrite (iv_num _ Hi) in Hfull. pose proof (active_range s Hi).
  apply (tc_run_inv s l1 l2 c e (accs s e) _ (slots s) [] Held Hi Ha Hmin); cbn; try done.
  - pose proof (iv_port _ Hi) as Hp. apply (port_later _ _ c) in Hp; [|done]. by destruct Hp; split.
  - apply (iv_num _ Hi).
  - apply (iv_active _ Hi).
  - lia.
  - lia.
Qed.

(** An access of high priority that a register is free for. *)
Lemma high_inv s l1 l2 c e n l p : inv s -> agenda s = l1 ++ (c, e) :: l2 -> Forall (fun x => c <= x.1) (agenda s) ->
  c + 1 < 2 ^ 64 -> lastAccCycle (tc s) + 1 < 2 ^ 64 -> activeMisses (tc s) <? numMSHRs (tc s) = true ->
  ekind e <> ReplAccess -> n = Z.of_nat (length (after_done e (misses s))) -> n <= mshrs ->
  highPrioAccess c (set_misses n (pendingQueue (tc s)) (tc s)) = Ok (l, p) ->
  inv (mkSys p (l1 ++ l2) (e :: finished s) (known s) (after_done e (misses s)) (<[e := accs s e]> (accs s)) c
    (lastAccCycle p :: slots s)).
Proof.
  intros Hi Ha Hmin Ho1 Ho2 Hfree Hk Hn Hle Hh. destruct (head_event s l1 l2 c e Hi Ha) as (_ & _ & _ & Hc).
  apply Z.ltb_lt in Hfree. rewrite (iv_num _ Hi) in Hfree.
  assert (port_ok (set_misses n (pendingQueue (tc s)) (tc s)) (now s) (slots s)) as Hp by (by destruct (iv_port _ Hi); split).
  destruct (high_ok c _ _ _ Hp Hc Ho1 Ho2) as (l' & p' & E & Hp' & _ & _ & E1 & E2 & E3). rewrite E in Hh. injection Hh as -> ->.
  apply (tc_run_inv s l1 l2 c e (accs s e) p (lastAccCycle p :: slots s) [] Finished Hi Ha Hmin); cbn; try done.
  - rewrite E1. apply (iv_num _ Hi).
  - by rewrite app_nil_r, E3.
  - by rewrite E2.
  - by rewrite E2.
  - rewrite E3. cbn. intros H. pose proof (iv_pending _ Hi H). lia.
Qed.

Lemma tc_step_inv s s' : inv s -> step ekind s s' -> inv s'.
Proof.
  intros Hi Hs. destruct Hs as [s e c He Hc Hm Ha|s l1 l2 e c left p acts Ha Hmin Ho1 Ho2 Hsim]; [by apply ready_inv|].
  destruct (head_event s l1 l2 c e Hi Ha) as (_ & Hek & Hef & Hc). pose proof (active_range s Hi) as Hact.
  pose proof (iv_active _ Hi) as [Hlen _].
  unfold simulate in Hsim. unfold ran, took. destruct (ekind e) as [| | |m|] eqn:Ek.
  - apply bind_Ok in Hsim as ([p1 a1] & Hsim & [= <- <- <-]). unfold simulateHit in Hsim.
    destruct (_ <? _) eqn:Efree in Hsim; rewrite Efree.
    + apply bind_Ok in Hsim as ([l p2] & Hh & [= -> <-]). cbn. unfold act. rewrite Ek.
      pose proof (high_inv s l1 l2 c e (activeMisses (tc s)) l p1 Hi Ha Hmin Ho1 Ho2 Efree) as H.
      unfold after_done in H. rewrite Ek in H. apply H; try done; try lia; by destruct (tc s).
    + injection Hsim as <- <-. cbn. apply (held_inv s l1 l2 c e Hi Ha Hmin Efree). by rewrite Ek.
  - apply bind_Ok in Hsim as ([p1 a1] & Hsim & [= <- <- <-]). unfold simulateMissStart in Hsim.
    destruct (_ <? _) eqn:Efree in Hsim; rewrite Efree.
    + apply bind_Ok in Hsim as ([l p2] & Hh & [= -> <-]). cbn. unfold act. rewrite Ek.
      pose proof (high_inv s l1 l2 c e (u32 (activeMisses (tc s) + 1)) l p1 Hi Ha Hmin Ho1 Ho2 Efree) as H.
      unfold after_done in H. rewrite Ek in H. apply Z.ltb_lt in Efree. rewrite (iv_num _ Hi) in Efree.
      apply H; try done; rewrite u32_id by (unfold in_u32; lia); cbn; lia.
    + injection Hsim as <- <-. cbn. apply (held_inv s l1 l2 c e Hi Ha Hmin Efree). by rewrite Ek.
  - apply bind_Ok in Hsim as ([p1 a1] & Hsim & [= <- <- <-]). injection Hsim as <- <-. cbn. unfold act. rewrite Ek.
    pose proof (tc_run_inv s l1 l2 c e (accs s e) (tc s) (slots s) [] Finished Hi Ha Hmin) as H. cbn in H.
    unfold after_done in H. rewrite Ek in H. apply H; try done.
    + eapply port_later; [apply (iv_port _ Hi)|done].
    + apply (iv_num _ Hi).
    + by rewrite app_nil_r.
    + lia.
    + apply (iv_pending _ Hi).
  - apply bind_Ok in Hsim as ([p1 a1] & Hsim & [= <- <- <-]). unfold simulateMissWriteback in Hsim.
    destruct (low_ok c _ _ _ (iv_port _ Hi) Hc Ho1) as (l & p' & El & Hp' & Hl & E1 & E2 & E3). rewrite El in *. cbn [fst].
    destruct (Z.eqb_spec l 0) as [->|Hne].
    + injection Hsim as <- <-. cbn in *.
      apply (tc_run_inv s l1 l2 c e (accs s e) p' (slots s) [] Queued Hi Ha Hmin); cbn; try done.
      * rewrite E1. apply (iv_num _ Hi).
      * by rewrite E3, app_nil_r.
      * by rewrite E2.
      * rewrite E2. lia.
      * rewrite E2, E3. apply (iv_pending _ Hi).
      * by rewrite Ek.
    + apply bind_Ok in Hsim as (u & Hpos & [= <- <-]). apply assert_that_Ok, negb_true_iff, Z.eqb_neq in Hpos.
      rewrite E2 in Hpos. rewrite E3, foldl_app, fold_requeue, E2. cbn. unfold act. cbn. rewrite Ek.
      assert (m ∈ misses s) as Hin.
      { destruct (iv_wb _ Hi e m Hek Ek) as [Hm Hkm]. apply (iv_miss _ Hi). split; [done|]. split; [done|].
        intros e' He'. by rewrite (one_wb e' e m He' Ek). }
      pose proof (length_remove m (misses s) (iv_nodup _ Hi) Hin) as Hrem.
      pose proof (tc_run_inv s l1 l2 c e (accs s e) (set_misses (u32 (activeMisses (tc s) - 1)) [] p') ([c - 1] ++ slots s)
        (rev (pendingQueue (tc s))) Finished Hi Ha Hmin) as H. cbn in H. unfold after_done in H. rewrite Ek in H.
      rewrite map_rev in H. apply H; try done.
      * by destruct Hp'; split.
      * rewrite E1. apply (iv_num _ Hi).
      * rewrite !app_nil_r. apply Permutation_rev.
      * rewrite u32_id by (unfold in_u32; lia). lia.
      * rewrite u32_id by (unfold in_u32; lia). lia.
  - unfold simulateReplAccess in Hsim. apply bind_Ok in Hsim as (u & _ & Hsim).
    destruct (low_ok c _ _ _ (iv_port _ Hi) Hc Ho1) as (l & p' & El & Hp' & Hl & E1 & E2 & E3). rewrite El in *. cbn [fst].
    pose proof (iv_accs _ Hi e Hek Hef Ek) as Hacc.
    assert (forall f left, (f <> Finished -> 0 < left < 2 ^ 32) -> f <> Held -> inv (mkSys p' (match f with Queued => [(c + 1, e)] | _ => [] end ++ l1 ++ l2)
      (match f with Finished => [e] | _ => [] end ++ finished s) (known s) (misses s) (<[e := left]> (accs s)) c
      ((if l =? 0 then [] else [c - 1]) ++ slots s))) as Hgen.
    { intros f left0 Hleft Hf. pose proof (tc_run_inv s l1 l2 c e left0 p' ((if l =? 0 then [] else [c - 1]) ++ slots s) [] f Hi Ha Hmin) as H.
      unfold after_done in H. rewrite Ek in H. cbn in H.
      replace (match f with Finished => misses s | _ => misses s end) with (misses s) in H by (by destruct f).
      apply H; try done.
      - rewrite E1. apply (iv_num _ Hi).
      - rewrite E3. destruct f; rewrite ?app_nil_r; done.
      - by rewrite E2.
      - rewrite E2. lia.
      - rewrite E2, E3. apply (iv_pending _ Hi).
      - auto. }
    destruct (Z.eqb_spec l 0) as [->|Hne].
    + injection Hsim as <- <- <-. cbn. apply (Hgen Queued (accs s e)); done.
    + rewrite u32_id in Hsim by (unfold in_u32; lia). injection Hsim as <- <- <-. destruct (Z.eqb_spec (accs s e - 1) 0).
      * cbn. unfold act. cbn. rewrite Ek. apply (Hgen Finished (accs s e - 1)); done.
      * cbn. apply (Hgen Queued (accs s e - 1)); [lia|done].
Qed.

Lemma timing_reachable_inv s : reachable ekind mshrs accs0 s -> inv s.
Proof. induction 1; [apply tc_init_inv|by eapply tc_step_inv]. Qed.

(** *** The actions *)

Lemma high_pending c p l p' : highPrioAccess c p = Ok (l, p') -> c <= l /\ pendingQueue p' = pendingQueue p.
Proof.
  unfold highPrioAccess. intros H. apply bind_Ok in H as (u & _ & [= <- <-]). split; [lia|done].
Qed.

Lemma low_pending c p : pendingQueue (tryLowPrioAccess c p).2 = pendingQueue p.
Proof. unfold tryLowPrioAccess. by destruct (_ || _). Qed.

(** An event finishes, is held or queued again, and when it frees a register so are the held ones. *)
Lemma actions_shape s e c left p acts : simulate ekind e c s = Ok (left, p, acts) ->
  (exists d, acts = [Done e d] /\ c <= d /\ pendingQueue p = pendingQueue (tc s)) \/
  (acts = [Hold e] /\ pendingQueue p = pendingQueue (tc s) ++ [e]) \/
  (acts = [Requeue e (c + 1)] /\ pendingQueue p = pendingQueue (tc s)) \/
  (acts = map (fun q => Requeue q (c + 1)) (pendingQueue (tc s)) ++ [Done e c] /\ pendingQueue p = []).
Proof.
  intros Hsim. unfold simulate in Hsim. pose proof (low_pending c (tc s)) as Hlow. destruct (ekind e) as [| | |m|].
  - apply bind_Ok in Hsim as ([p1 a1] & Hsim & [= <- <- <-]). unfold simulateHit in Hsim. destruct (_ <? _).
    + apply bind_Ok in Hsim as ([l p2] & Hh & [= <- <-]). apply high_pending in Hh as [? ?]. left. by exists l.
    + injection Hsim as <- <-. right. by left.
  - apply bind_Ok in Hsim as ([p1 a1] & Hsim & [= <- <- <-]). unfold simulateMissStart in Hsim. destruct (_ <? _).
    + apply bind_Ok in Hsim as ([l p2] & Hh & [= <- <-]). apply high_pending in Hh as [? ?]. left. by exists l.
    + injection Hsim as <- <-. right. by left.
  - apply bind_Ok in Hsim as ([p1 a1] & Hsim & [= <- <- <-]). injection Hsim as <- <-. left. exists c. split_and!; [done|lia|done].
  - apply bind_Ok in Hsim as ([p1 a1] & Hsim & [= <- <- <-]). unfold simulateMissWriteback in Hsim.
    destruct (tryLowPrioAccess c (tc s)) as [l p2]. cbn in Hlow. destruct (l =? 0).
    + injection Hsim as <- <-. right. right. by left.
    + apply bind_Ok in Hsim as (u & _ & [= <- <-]). rewrite Hlow. by repeat right.
  - unfold simulateReplAccess in Hsim. apply bind_Ok in Hsim as (u & _ & Hsim).
    destruct (tryLowPrioAccess c (tc s)) as [l p2]. cbn in Hlow. destruct (l =? 0).
    + injection Hsim as <- <- <-. right. right. by left.
    + injection Hsim as <- <- <-. destruct (_ =? 0); [left; exists c; split_and!; [done|lia|done]|right; right; by left].
Qed.

Lemma accepts_app st l l' : accepts st (l ++ l') = match accepts st l with Some st => accepts st l' | None => None end.
Proof. revert st. induction l as [|a l IH]; intros st; cbn; [done|]. by destruct (accept st a). Qed.

Lemma accepts_requeue c l : forall st, NoDup l -> (forall x, x ∈ l -> st x = Timing.EV_HELD) ->
  exists st', accepts st (map (fun q => Requeue q c) l) = Some st' /\
    forall x, st' x = if decide (x ∈ l) then Timing.EV_QUEUED else st x.
Proof.
  induction l as [|y l IH]; intros st Hn Hh; cbn [map accepts].
  { exists st. split; [done|]. intros x. by rewrite decide_False by apply not_elem_of_nil. }
  apply NoDup_cons in Hn as [Hy Hn]. cbn [accept]. rewrite bool_decide_true by (right; apply Hh; by left).
  destruct (IH (<[y := Timing.EV_QUEUED]> st) Hn) as (st' & E & H').
  { intros x Hx. rewrite fn_lookup_insert_ne by (intros ->; done). apply Hh. by right. }
  exists st'. split; [done|]. intros x. rewrite H'. destruct (decide (x = y)) as [->|Hne].
  - rewrite (decide_False (P := y ∈ l)), fn_lookup_insert by done. by rewrite decide_True by left.
  - rewrite fn_lookup_insert_ne by done. destruct (decide (x ∈ l)) as [Hx|Hx].
    + by rewrite decide_True by (by right).
    + rewrite decide_False; [done|]. by intros [->|?]%elem_of_cons.
Qed.

(** Whatever runs, its actions are accepted, and leave every event in the state of its place. *)
Lemma actions_accepted s l1 l2 c e left p acts : inv s -> agenda s = l1 ++ (c, e) :: l2 ->
  simulate ekind e c s = Ok (left, p, acts) ->
  Forall (from_cycle c) acts /\ estate s e = Timing.EV_QUEUED /\
  exists st, accepts (<[e := Timing.EV_RUNNING]> (estate s)) acts = Some st /\
    forall x, st x = estate (ran ekind e c (l1 ++ l2) left p acts s) x.
Proof.
  intros Hi Ha Hsim. destruct (head_event s l1 l2 c e Hi Ha) as (Hperm & Hek & Hef & _).
  pose proof (iv_known _ Hi) as Hnd. rewrite Hperm in Hnd. apply NoDup_cons in Hnd as [He Hnd].
  apply NoDup_app in Hnd as (_ & _ & Hnd). apply NoDup_app in Hnd as (Hpq & Hdis & _).
  rewrite !not_elem_of_app in He. destruct He as (_ & Hep & _).
  assert (Hdis' : forall x, x ∈ finished s -> x ∉ pendingQueue (tc s)) by (intros x Hx Hp; by apply (Hdis x)).
  assert (Hq : estate s e = Timing.EV_QUEUED).
  { unfold estate. by rewrite decide_False, decide_False, decide_True by done. }
  assert (Hpk : forall x, x ∈ pendingQueue (tc s) -> x ∈ known s).
  { intros x Hx. rewrite Hperm. right. apply elem_of_app. right. apply elem_of_app. by left. }
  assert (Hfk : forall x, x ∈ finished s -> x ∈ known s).
  { intros x Hx. rewrite Hperm. right. apply elem_of_app. right. apply elem_of_app. by right. }
  destruct (actions_shape s e c left p acts Hsim) as [(d & -> & Hd & Ep)|[(-> & Ep)|[(-> & Ep)|(-> & Ep)]]].
  - split; [by repeat constructor|]. split; [done|]. cbn [accepts accept]. rewrite fn_lookup_insert, bool_decide_true by done.
    eexists. split; [done|]. intros x. unfold ran, estate. cbn. rewrite Ep.
    destruct (decide (x = e)) as [->|Hne]; [rewrite fn_lookup_insert; by rewrite decide_True by left|].
    rewrite !fn_lookup_insert_ne by done. by rewrite (decide_ext (x ∈ e :: finished s) (x ∈ finished s)) by set_solver.
  - split; [by repeat constructor|]. split; [done|]. cbn [accepts accept]. rewrite fn_lookup_insert, bool_decide_true by done.
    eexists. split; [done|]. intros x. unfold ran, estate. cbn. rewrite Ep.
    destruct (decide (x = e)) as [->|Hne]; [rewrite fn_lookup_insert; rewrite decide_False by done; by rewrite decide_True by set_solver|].
    rewrite !fn_lookup_insert_ne by done.
    by rewrite (decide_ext (x ∈ pendingQueue (tc s) ++ [e]) (x ∈ pendingQueue (tc s))) by set_solver.
  - split; [repeat constructor; cbn; lia|]. split; [done|]. cbn [accepts accept].
    rewrite fn_lookup_insert, bool_decide_true by (by left).
    eexists. split; [done|]. intros x. unfold ran, estate. cbn. rewrite Ep.
    destruct (decide (x = e)) as [->|Hne]; [|by rewrite !fn_lookup_insert_ne].
    rewrite fn_lookup_insert. by rewrite decide_False, decide_False, decide_True by done.
  - split; [apply Forall_app; split; [apply Forall_map, Forall_true; intros; cbn; lia|repeat constructor; cbn; lia]|]. split; [done|].
    destruct (accepts_requeue (c + 1) (pendingQueue (tc s)) (<[e := Timing.EV_RUNNING]> (estate s)) Hpq) as (st & E & Hst).
    { intros x Hx. rewrite fn_lookup_insert_ne by (intros ->; done). unfold estate.
      rewrite decide_False by (intros Hf; by apply (Hdis' x)). by rewrite decide_True. }
    rewrite accepts_app, E. cbn [accepts accept]. rewrite Hst, decide_False, fn_lookup_insert, bool_decide_true by done.
    eexists. split; [done|]. intros x. unfold ran. rewrite foldl_app, fold_requeue. unfold estate. cbn. rewrite Ep.
    destruct (decide (x = e)) as [->|Hne]; [rewrite fn_lookup_insert; by rewrite decide_True by left|].
    rewrite fn_lookup_insert_ne, Hst, fn_lookup_insert_ne by done.
    rewrite (decide_ext (x ∈ e :: finished s) (x ∈ finished s)) by set_solver.
    rewrite (decide_False (P := x ∈ [])) by apply not_elem_of_nil. unfold estate.
    destruct (decide (x ∈ pendingQueue (tc s))) as [Hx|Hx]; [|done].
    rewrite decide_False by (intros Hf; by apply (Hdis' x)). rewrite decide_True; [done|]. by apply Hpk.
Qed.

(** C36: whatever events the cache is given, at cycles from 2 on and run in the order of their
    cycles: no event trips an assertion of the cache when it runs, and what it does to itself
    and to the held events (done, held, queued again) is accepted in the states they are in,
    and not before its cycle; the array is never accessed twice in a cycle; the registers in use
    are the misses that started and were not written back, never more than there are; and no
    event is lost: each is queued once, held, or finished, and one is held only while all
    registers are in use.  At the cycles 0 and 1 assertions fail ([cycle_zero_fails]); what
    the end of an event does to its children is not part of the cache. *)
Theorem timing_cache_safe s : reachable ekind mshrs accs0 s ->
  (forall l1 l2 c e, agenda s = l1 ++ (c, e) :: l2 -> Forall (fun x => c <= x.1) (agenda s) ->
     c + 1 < 2 ^ 64 -> lastAccCycle (tc s) + 1 < 2 ^ 64 ->
     exists left p acts, simulate ekind e c s = Ok (left, p, acts) /\
       Forall (from_cycle c) acts /\ estate s e = Timing.EV_QUEUED /\
       exists st, accepts (<[e := Timing.EV_RUNNING]> (estate s)) acts = Some st /\
         forall x, st x = estate (ran ekind e c (l1 ++ l2) left p acts s) x) /\
  NoDup (slots s) /\
  activeMisses (tc s) = Z.of_nat (length (misses s)) /\ activeMisses (tc s) <= mshrs /\
  (forall m, m ∈ misses s <-> ekind m = MissStart /\ m ∈ finished s /\ forall e, ekind e = MissWriteback m -> e ∉ finished s) /\
  NoDup (known s) /\ known s ≡ₚ map snd (agenda s) ++ pendingQueue (tc s) ++ finished s /\
  (pendingQueue (tc s) <> [] -> activeMisses (tc s) = mshrs).
Proof.
  intros Hr. pose proof (timing_reachable_inv s Hr) as Hi. split_and!; try apply Hi.
  intros l1 l2 c e Ha _ Ho1 Ho2. destruct (simulate_ok s l1 l2 c e Hi Ha Ho1 Ho2) as (left & p & acts & E).
  exists left, p, acts. split; [done|]. by apply (actions_accepted s l1 l2 c e left p acts).
Qed.
End Inv.

(** ** A run

    With one register: the hit 2 is held while the miss 0 has it, and goes on when the
    writeback 1 frees it. *)

Definition ex_kind (e : nat) : kind :=
  match e with 0 => MissStart | 1 => MissWriteback 0 | _ => Hit end%nat.

Inductive op := Ready (e : nat) (c : Z) | Next.
Definition exec (o : op) (s : sys) : option sys :=
  match o with
  | Ready e c =>
      if decide (e ∉ known s) then
        if (now s <=? c) && match ex_kind e with MissWriteback m => bool_decide (m ∈ finished s) | _ => true end
        then Some (mkSys (tc s) ((c, e) :: agenda s) (finished s) (e :: known s) (misses s) (accs s) (now s) (slots s)) else None
      else None
  | Next =>
      match agenda s with
      | (c, e) :: l =>
          if forallb (fun x => c <=? x.1) (agenda s) && (c + 1 <? 2 ^ 64) && (lastAccCycle (tc s) + 1 <? 2 ^ 64) then
            match simulate ex_kind e c s with
            | Ok (n, p, acts) => Some (ran ex_kind e c l n p acts s)
            | Fail _ => None
            end
          else None
      | [] => None
      end
  end.

Lemma exec_step o s s' : exec o s = Some s' -> step ex_kind s s'.
Proof.
  destruct o as [e c|]; cbn.
  - destruct (decide _) as [He|]; [|done]. destruct (_ && _) eqn:E; [|done]. intros [= <-].
    apply andb_true_iff in E as [E1 E2]. apply Z.leb_le in E1. apply step_ready; try done.
    + intros m Hm. rewrite Hm in E2. apply bool_decide_eq_true in E2. split; [done|].
      unfold ex_kind in Hm. destruct e as [|[|]]; try done. by injection Hm as <-.
    + unfold ex_kind. by destruct e as [|[|]].
  - destruct (agenda s) as [|[c e] l] eqn:Ea; [done|]. destruct (_ && _) eqn:E; [|done].
    apply andb_true_iff in E as [E E3]. apply andb_true_iff in E as [E1 E2].
    destruct (simulate ex_kind e c s) as [[[n p] acts]|] eqn:Es; [|done]. intros [= <-].
    change l with ([] ++ l). apply (step_run ex_kind s [] l e c n p acts); [done| |by apply Z.ltb_lt|by apply Z.ltb_lt|done].
    rewrite forallb_forall in E1. apply Forall_forall. intros x Hx. rewrite Ea in Hx. by apply Z.leb_le, E1, list_elem_of_In.
Qed.

Fixpoint exec_all (l : list op) (s : sys) : option sys :=
  match l with [] => Some s | o :: l => match exec o s with Some s => exec_all l s | None => None end end.

Lemma exec_reachable l : forall s s', reachable ex_kind 1 (fun _ => 0) s -> exec_all l s = Some s' ->
  reachable ex_kind 1 (fun _ => 0) s'.
Proof.
  induction l as [|o l IH]; cbn; intros s s' Hr Hs; [by injection Hs as <-|].
  destruct (exec o s) as [s1|] eqn:E; [|done]. eapply IH; [|exact Hs]. eapply reach_step; [exact Hr|by eapply exec_step].
Qed.

Definition one_mshr : list op := [Ready 0 5; Next; Ready 2 6; Next; Ready 1 20; Next; Next].
Definition after (l : list op) : sys := default (init 1 (fun _ => 0)) (exec_all l (init 1 (fun _ => 0))).

Example held_until_free :
  (pendingQueue (tc (after (firstn 4 one_mshr))), agenda (after (firstn 6 one_mshr)), finished (after one_mshr), slots (after one_mshr)) =
  ([2%nat], [(21, 2%nat)], [2; 1; 0]%nat, [21; 19; 5]).
Proof. vm_compute. reflexivity. Qed.

(** A hit at cycle 0 leaves [lastFreeCycle] at 2^64 - 1: the next one fails. *)
Example cycle_zero_fails :
  match new 1 with
  | Ok p => match highPrioAccess 0 p with Ok (_, p) => highPrioAccess 5 p = Fail AssertFailed | Fail _ => False end
  | Fail _ => False
  end.
Proof. vm_compute. reflexivity. Qed.

Lemma timing_cache_safe_witness : NoDup (slots (after one_mshr)) /\ misses (after one_mshr) = [].
Proof.
  assert (reachable ex_kind 1 (fun _ => 0) (after one_mshr)) as Hr.
  { apply (exec_reachable one_mshr (init 1 (fun _ => 0))); [constructor|]. vm_compute. reflexivity. }
  destruct (timing_cache_safe ex_kind 1 (fun _ => 0) ltac:(lia)
    ltac:(intros [|[|e1]] [|[|e2]] m H1 H2; cbn in H1, H2; congruence) (after one_mshr) Hr) as (_ & H & _).
  split; [exact H|]. vm_compute. reflexivity.
Defined.
End TimingCache.
