(* ===== verification/TimingAccess.v ===== *)
(** The bound side of the timing cache (timing_cache.cpp): an access records the events that
    TimingCache runs in the weave phase.

    The coherence controller and the array are the interface [front]; the access is the one of
    [Cache::access] with the records of its requests taken out of the event recorder.  The
    recorder is never null (the code asserts it). *)
From S2P Require Import Prelude Effects MemHier Timing TimingCache.
Import MemHier.
Import Timing (TimingRecord, mkTR, isValid, reqCycle, respCycle, startEvent, endEvent, numEvents, ev, recorders).

Module TimingAccess.

(** ** The accesses of the replacement

    The walk of a zcache of [ways] ways over [cands] candidates: the lookups of each level,
    with the delays before and after. *)

Record repl := mkRepl { r_accs : Z; r_pre : Z; r_post : Z }.

Fixpoint replAccesses (fuel : nat) (ways tagLat replLookups accsSoFar fringeAccs : Z) : res (list repl) :=
  if accsSoFar <? replLookups then
    match fuel with
    | O => Fail NoFuel
    | Datatypes.S fuel =>
        let preDelay := if accsSoFar =? 0 then tagLat else 0 in
        let postDelay := u32 (tagLat - Z.min (u32 (tagLat - 1)) fringeAccs) in
        let accs := Z.min fringeAccs (u32 (replLookups - accsSoFar)) in
        l ← replAccesses fuel ways tagLat replLookups (u32 (accsSoFar + accs)) (u32 (fringeAccs * (ways - 1)));
        mret (mkRepl accs preDelay postDelay :: l)
    end
  else mret [].

Definition replLookups (ways cands : Z) : Z := u32 (u32 (cands + u32 (ways - 1)) / ways - 1).

(** ** Building the events *)

Record cfg := mkCfg { accLat : Z; tagLat : Z; ways : Z; cands : Z; domain : Z; lineBits : Z }.

Section Build.
Context (fuel : nat) (c : cfg).
Notation P := (prog Timing.sim).

Definition newEv (k : Timing.kind) (pre post dom minStart : Z) : P nat :=
  Timing.alloc (Timing.set_minStartCycle minStart (Timing.newEvent k (u32 pre) (u32 post) dom)).
Definition newDelay (delay minStart : Z) : P nat := newEv Timing.DelayEvent delay 0 (-1) minStart.
Definition addChild (e ch : nat) : P nat := Timing.addChild fuel e ch.
Definition of_opt (o : option nat) : P nat := match o with Some e => mret e | None => stop end.

(** The lambda [connect]. *)
Definition connect (r : option TimingRecord) (startEv endEv : nat) (startCycle endCycle : Z) : P unit :=
  _ ← require (startCycle <=? endCycle);
  match r with
  | Some r =>
      _ ← require (startCycle <=? reqCycle r);
      _ ← require (respCycle r <=? endCycle);
      let upLat := reqCycle r - startCycle in
      let downLat := endCycle - respCycle r in
      rs ← of_opt (startEvent r);
      re ← of_opt (endEvent r);
      _ ← (if upLat =? 0 then addChild startEv rs
           else dUp ← newDelay upLat startCycle; e ← addChild startEv dUp; addChild e rs);
      _ ← (if downLat =? 0 then addChild re endEv
           else dDown ← newDelay downLat (respCycle r); e ← addChild re dDown; addChild e endEv);
      mret tt
  | None =>
      _ ← (if startCycle =? endCycle then addChild startEv endEv
           else dEv ← newDelay (endCycle - startCycle) startCycle; e ← addChild startEv dEv; addChild e endEv);
      mret tt
  end.

(** The events of a replacement, from [mse] to [mwe]; each with the number of its lookups. *)
Definition replPath (req : MemReq) (mse mwe : nat) : P (list (nat * Z)) :=
  let n := replLookups (ways c) (cands c) in
  _ ← require (negb (n =? 0));
  plan ← lift (replAccesses (Z.to_nat n) (ways c) (tagLat c) n 0 (u32 (ways c - 1)));
  '(p, evs) ← loop (fun '(p, evs) r =>
      raEv ← newEv Timing.Simple (r_pre r) (r_post r) (domain c) (cycle req);
      _ ← addChild p raEv; mret (raEv, evs ++ [(raEv, r_accs r)])) (mse, []) plan;
  rdEv ← newEv Timing.Simple (tagLat c) (tagLat c) (domain c) (cycle req);
  wrEv ← newEv Timing.Simple 0 0 (domain c) (cycle req);
  e ← addChild p rdEv; e ← addChild e wrEv; _ ← addChild e mwe;
  mret (evs ++ [(rdEv, 1); (wrEv, 1)]).

(** The record of an access, from the records of the writeback and of the request to the
    parent, and the cycles they were done; the kinds of the events are TimingCache's. *)
Definition timingRecord (req : MemReq) (wb acc : option TimingRecord) (evDoneCycle getDoneCycle resp : Z)
    : P (TimingRecord * list (nat * TimingCache.kind)) :=
  let tr s e := mkTR (Z.shiftl (lineAddr req) (lineBits c)) (cycle req) resp (type req) (Some s) (Some e) in
  if u64 (getDoneCycle - cycle req) =? accLat c then
    _ ← require (bool_decide (wb = None));
    _ ← require (bool_decide (acc = None));
    e ← newEv Timing.Simple 0 (resp - cycle req) (domain c) (cycle req);
    mret (tr e e, [(e, TimingCache.Hit)])
  else
    _ ← require (getDoneCycle =? resp);
    mse ← newEv Timing.Simple 0 (accLat c) (domain c) (cycle req);
    mre ← newEv Timing.Simple 0 0 (domain c) getDoneCycle;
    mwe ← newEv Timing.Simple 0 (accLat c) (domain c) (Z.max evDoneCycle getDoneCycle);
    _ ← connect acc mse mre (cycle req + accLat c) getDoneCycle;
    _ ← addChild mre mwe;
    _ ← (if evDoneCycle =? 0 then mret tt else connect wb mse mwe (cycle req + accLat c) evDoneCycle);
    repls ← (if negb (evDoneCycle =? 0) && (ways c <? cands c) then replPath req mse mwe else mret []);
    mret (tr mse mre, [(mse, TimingCache.MissStart); (mre, TimingCache.MissResponse); (mwe, TimingCache.MissWriteback mse)] ++
                      map (fun x => (x.1, TimingCache.ReplAccess)) repls).
End Build.

(** ** TimingCache::access *)

(** The coherence controller and the array.  [processAccess] also returns the cycle at which
    the line was there. *)
Record front (W : Type) := mkFront {
  cc_startAccess : MemReq -> prog W (bool * MemReq);
  array_lookup : Z -> MemReq -> bool -> prog W Z;
  cc_shouldAllocate : MemReq -> prog W bool;
  array_preinsert : Z -> MemReq -> prog W (Z * Z);
  cc_processEviction : MemReq -> Z -> Z -> Z -> prog W Z;
  array_postinsert : Z -> MemReq -> Z -> prog W unit;
  cc_processAccess : MemReq -> Z -> Z -> prog W (Z * Z);
  cc_endAccess : MemReq -> prog W unit
}.
Arguments cc_startAccess {W}. Arguments array_lookup {W}. Arguments cc_shouldAllocate {W}. Arguments array_preinsert {W}.
Arguments cc_processEviction {W}. Arguments array_postinsert {W}. Arguments cc_processAccess {W}. Arguments cc_endAccess {W}.

Section Access.
Context {X : Type} (f : front (Timing.sim * X)) (fuel : nat) (c : cfg).
Notation P := (prog (Timing.sim * X)).

Definition on_sim {A} (m : prog Timing.sim A) : P A := fun w =>
  match m w.1 with Ok (a, s) => Ok (a, (s, w.2)) | Fail e => Fail e end.

Definition set_rec (src : nat) (r : Timing.EventRecorder) : prog Timing.sim unit :=
  modify (fun s => Timing.mkSim (Timing.ev s) (numEvents s) (<[src := r]> (recorders s))
    (Timing.domains s) (Timing.numDomains s) (Timing.limit s) (Timing.lastLimit s) (Timing.inCSim s) (Timing.phaseLength s)).

Definition pop (src : nat) : prog Timing.sim (option TimingRecord) :=
  r ← gets (fun s => recorders s src);
  if Timing.hasRecord r then
    let '(tr, r) := Timing.popRecord r in _ ← set_rec src r; mret (Some tr)
  else mret None.
Definition push (src : nat) (tr : TimingRecord) : prog Timing.sim unit :=
  r ← gets (fun s => recorders s src); r ← lift (Timing.pushRecord tr r); set_rec src r.

(** A miss: the line, and the cycle its eviction is done, with the record it left. *)
Definition replace (req : MemReq) (resp : Z) : P (Z * Z * option TimingRecord) :=
  a ← cc_shouldAllocate f req;
  _ ← require a;
  '(lineId, wbLineAddr) ← array_preinsert f (lineAddr req) req;
  evDoneCycle ← cc_processEviction f req wbLineAddr lineId resp;
  _ ← array_postinsert f (lineAddr req) req lineId;
  wb ← on_sim (pop (Z.to_nat (srcId req)));
  mret (lineId, evDoneCycle, wb).

Definition access (req0 : MemReq) : P (Z * list (nat * TimingCache.kind)) :=
  '(skipAccess, req) ← cc_startAccess f req0;
  '(resp, evs) ← (if skipAccess : bool then mret (cycle req, [])
    else
      lineId ← array_lookup f (lineAddr req) req (IsGet (type req));
      let resp := u64 (cycle req + accLat c) in
      '(lineId, evDoneCycle, wb) ← (if lineId =? -1 then replace req resp else mret (lineId, 0, None));
      '(resp, getDoneCycle) ← cc_processAccess f req lineId resp;
      acc ← on_sim (pop (Z.to_nat (srcId req)));
      '(tr, evs) ← on_sim (timingRecord fuel c req wb acc evDoneCycle getDoneCycle resp);
      _ ← on_sim (push (Z.to_nat (srcId req)) tr);
      mret (resp, evs));
  _ ← cc_endAccess f req;
  _ ← require (cycle req <=? resp);
  mret (resp, evs).
End Access.

(** ** The plan of a replacement *)

Definition sum_accs (l : list repl) : Z := foldr (fun r n => r_accs r + n) 0 l.

(** With two ways or more it ends, looks up every candidate there is to look up, and each of
    its events has lookups to make. *)
Lemma repl_plan ways tagLat n : 2 <= ways < 2 ^ 16 -> forall fuel done fringe, 0 <= done <= n -> n < 2 ^ 16 ->
  1 <= fringe -> (Z.to_nat (n - done) <= fuel)%nat ->
  exists l, replAccesses fuel ways tagLat n done fringe = Ok l /\ sum_accs l = n - done /\ Forall (fun r => 0 < r_accs r) l.
Proof.
  intros Hw. induction fuel as [|fuel IH]; intros done fringe Hd Hn Hf Hfuel; cbn [replAccesses].
  - rewrite (proj2 (Z.ltb_ge _ _)) by lia. exists []. split; [done|]. split; [cbn; lia|constructor].
  - destruct (Z.ltb_spec done n); [|exists []; split; [done|]; split; [cbn; lia|constructor]].
    rewrite (u32_id (n - done)) by (unfold in_u32; lia). set (a := Z.min fringe (n - done)).
    assert (0 < a <= n - done /\ (fringe < n - done -> a = fringe) /\ (n - done <= fringe -> a = n - done)) as (Ha & Ha1 & Ha2) by lia.
    clearbody a.
    rewrite (u32_id (done + a)) by (unfold in_u32; lia).
    assert (exists l, replAccesses fuel ways tagLat n (done + a) (u32 (fringe * (ways - 1))) = Ok l /\
      sum_accs l = n - (done + a) /\ Forall (fun r => 0 < r_accs r) l) as (l & E & Hl & Hpos).
    { destruct (decide (fringe < n - done)) as [Hlt|Hge].
      - pose proof (Z.mul_lt_mono_nonneg fringe (2 ^ 16) (ways - 1) (2 ^ 16) ltac:(lia) ltac:(lia) ltac:(lia) ltac:(lia)) as Hm.
        change (2 ^ 16 * 2 ^ 16) with (2 ^ 32) in Hm. pose proof (Z.mul_le_mono_nonneg 1 fringe 1 (ways - 1) ltac:(lia) ltac:(lia) ltac:(lia) ltac:(lia)).
        rewrite u32_id by (unfold in_u32; lia). apply IH; lia.
      - rewrite (Ha2 ltac:(lia)). exists []. split; [|split; [cbn; lia|constructor]].
        destruct fuel as [|fuel]; cbn [replAccesses]; by rewrite (proj2 (Z.ltb_ge (done + (n - done)) n)) by lia. }
    rewrite E. cbn. eexists. split; [done|].
    split; [unfold sum_accs in *; cbn; lia|]. constructor; [cbn; lia|done].
Qed.

(** With one way no event looks anything up, and there is no end of them. *)
Lemma repl_one_way tagLat n : 0 < n < 2 ^ 32 -> forall fuel, replAccesses fuel 1 tagLat n 0 0 = Fail NoFuel.
Proof.
  intros Hn fuel. induction fuel as [|fuel IH]; cbn [replAccesses]; rewrite (proj2 (Z.ltb_lt 0 n)) by lia; [done|].
  rewrite (Z.min_l 0) by (apply u32_range). change (u32 (0 + 0)) with 0. change (u32 (0 * (1 - 1))) with 0. by rewrite IH.
Qed.

(** ** Examples *)

Definition ex_cfg : cfg := mkCfg 5 3 4 16 0 6.
Definition ex_req : MemReq := mkReq 7 GETS 0 Local 100 MemHier.I 0 0.
Definition s0 : Timing.sim :=
  Timing.mkSim (fun _ => Timing.newEvent Timing.Simple 0 0 0) 0
    (fun _ => Timing.mkER (mkTR 0 0 0 GETS None None) 0 0 0) (fun _ => Timing.mkDom PrioQueue.PrioQueue.new 0 0) 1 1000 0 false 1000.

(** Of 16 candidates in 4 ways three more lookups are made, in one event; a miss of 200 cycles
    whose eviction ends after 150 is the start 0, the response 1, the writeback 2, the delays
    3 and 4, and the accesses 5 to 7 of the replacement. *)
Example miss_events :
  match timingRecord 10 ex_cfg ex_req None None 250 300 300 s0 with
  | Ok ((tr, evs), s) =>
      (startEvent tr, endEvent tr, evs.*1, map (fun e => Timing.visited (ev s e)) (seq 0 8)) =
      (Some 0, Some 1, [0; 1; 2; 5; 6; 7], [[3; 4; 5]; [2]; []; [1]; [2]; [6]; [7]; [2]])%nat
  | Fail _ => False
  end.
Proof. vm_compute. reflexivity. Qed.
Example hit_event :
  match timingRecord 10 ex_cfg ex_req None None 0 105 107 s0 with
  | Ok ((tr, evs), s) => (startEvent tr, endEvent tr, evs, Timing.postDelay (ev s 0%nat)) = (Some 0%nat, Some 0%nat, [(0%nat, TimingCache.Hit)], 7)
  | Fail _ => False
  end.
Proof. vm_compute. reflexivity. Qed.
End TimingAccess.
