(* ===== verification/DoubleRound.v ===== *)
(** Rounding of doubles: each operation of Doubles returns a rounding of its exact
    result, which stays on the side of every double the exact result is on. *)
From Stdlib Require Import Floats.SpecFloat.
From S2P Require Import Prelude Doubles.

Module DoubleRound.
Import Doubles.

(** ** Values

    The value of a double that is finite and not below zero, in units of 2^-3000. *)
Definition K : Z := 3000.
Definition one_unit : Z := 2 ^ K.

Definition V (x : double) : Z :=
  match x with
  | S754_finite false m e => Zpos m * 2 ^ (e + K)
  | _ => 0
  end.

(** The doubles of the format: 53 digits, or fewer at the least exponent. *)
Definition canon (x : double) : Prop :=
  match x with
  | S754_finite _ m e => Zpos m < 2 ^ 53 /\ -1074 <= e <= 971 /\ (-1074 < e -> 2 ^ 52 <= Zpos m)
  | _ => True
  end.

(** Finite, and not below zero. *)
Definition fin (x : double) : Prop :=
  canon x /\
  match x with
  | S754_zero s | S754_finite s _ _ => s = false
  | _ => False
  end.

(** [x] is a rounding of [N / D] units. *)
Definition rounded (x : double) (N D : Z) : Prop :=
  nonneg x /\ canon x /\
  (forall f, fin f -> N <= V f * D -> fin x /\ V x <= V f) /\
  (forall f, fin f -> fin x -> V f * D <= N -> V f <= V x).

Lemma pow2_pos n : 0 <= n -> 0 < 2 ^ n.
Proof. intros. by apply Z.pow_pos_nonneg. Qed.

Lemma V_nonneg x : 0 <= V x.
Proof. destruct x as [?|?| |[] m e]; cbn; lia. Qed.

(** ** Shifting right *)
Definition exact (r : shr_record) : Prop := loc_of_shr_record r = loc_Exact.

Definition shifted (k : Z) (r r' : shr_record) : Prop :=
  0 <= shr_m r' /\ shr_m r' = shr_m r / 2 ^ k /\ (exact r -> shr_m r' * 2 ^ k = shr_m r -> exact r').

Lemma shr_1_shifted r : 0 <= shr_m r -> shifted 1 r (shr_1 r).
Proof.
  intros Hm. unfold shifted, exact. change (2 ^ 1) with 2.
  destruct r as [[|[p|p|]|] [] []]; cbn in Hm; try lia; cbn -[Z.div];
    (split; [lia|]; split; [Z.to_euclidean_division_equations; lia|intros H E; try discriminate H; try discriminate E; done || lia]).
Qed.

Lemma shifted_add j k r s t : 0 <= j -> 0 <= k -> shifted j r s -> shifted k s t -> shifted (j + k) r t.
Proof.
  intros Hj Hk (H1 & H2 & H3) (H4 & H5 & H6). split; [done|]. split.
  - rewrite H5, H2, Z.pow_add_r by done. apply Z.div_div; [|apply pow2_pos; done]. pose proof (pow2_pos j Hj). lia.
  - intros He. rewrite Z.pow_add_r by done. intros E.
    assert (Hs : shr_m s = shr_m t * 2 ^ k).
    { rewrite H2, <- E. rewrite (Z.mul_comm (2 ^ j)), Z.mul_assoc. apply Z.div_mul. pose proof (pow2_pos j Hj). lia. }
    apply H6; [|done]. apply H3; [done|]. rewrite Hs, <- E. lia.
Qed.

Lemma iter_shifted p : forall r, 0 <= shr_m r -> shifted (Zpos p) r (SpecFloat.iter_pos shr_1 p r).
Proof.
  induction p as [p IH|p IH|]; intros r Hr; cbn.
  - pose proof (shr_1_shifted r Hr) as H1. pose proof (IH _ (proj1 H1)) as H2. pose proof (IH _ (proj1 H2)) as H3.
    replace (Zpos p~1) with (1 + (Zpos p + Zpos p)) by lia. eapply shifted_add; [lia..|done|].
    eapply shifted_add; [lia..|done|done].
  - pose proof (IH _ Hr) as H2. pose proof (IH _ (proj1 H2)) as H3.
    replace (Zpos p~0) with (Zpos p + Zpos p) by lia. eapply shifted_add; [lia..|done|done].
  - by apply shr_1_shifted.
Qed.

Lemma shr_shifted r e k : 0 <= shr_m r -> 0 <= k -> exists r', shr r e k = (r', e + k) /\ shifted k r r'.
Proof.
  intros Hr Hk. destruct k as [|p|]; [| |lia]; cbn [shr].
  - exists r. rewrite Z.add_0_r. split; [done|]. split; [done|]. split; [by rewrite Z.div_1_r|done].
  - eexists. split; [done|]. by apply iter_shifted.
Qed.

Lemma record_of_loc m l : shr_m (shr_record_of_loc m l) = m /\ (l = loc_Exact -> exact (shr_record_of_loc m l)).
Proof. destruct l as [|[]]; split; done. Qed.

(** ** Rounding *)
Definition pack (n e : Z) : double :=
  if n =? 0 then S754_zero false
  else if n =? 2 ^ 53 then if e + 1 <=? 971 then S754_finite false (2 ^ 52) (e + 1) else S754_infinity false
  else if e <=? 971 then S754_finite false (Z.to_pos n) e else S754_infinity false.

Definition cexp (m e : Z) : Z := fexp 53 1024 (Zdigits2 m + e).

Lemma cexp_spec m e : cexp m e = Z.max (Zdigits2 m + e - 53) (-1074).
Proof. unfold cexp, fexp, emin. lia. Qed.

Lemma digits_spec m : 0 <= m -> m < 2 ^ Zdigits2 m /\ 0 <= Zdigits2 m /\ (0 < m -> 0 < Zdigits2 m /\ 2 ^ (Zdigits2 m - 1) <= m).
Proof.
  intros Hm. destruct m as [|p|]; [cbn; lia| |lia]. cbn [Zdigits2].
  pose proof (digits_lower p). split; [|lia]. clear.
  induction p as [p IH|p IH|]; cbn [digits2_pos]; [| |done];
    rewrite Pos2Z.inj_succ, Z.pow_succ_r by lia; lia.
Qed.

Lemma round_even_cases q l : round_nearest_even q l = q \/ (round_nearest_even q l = q + 1 /\ l <> loc_Exact).
Proof. destruct l as [|[]]; cbn; try case_match; auto; right; done. Qed.

(** The second normalisation moves a carry out of the 53 digits. *)
Lemma renormalise n e : 0 <= n <= 2 ^ 53 -> -1074 <= e ->
  (let '(r, e') := shr_fexp 53 1024 n e loc_Exact in
   match shr_m r with
   | Z0 => S754_zero false
   | Zpos m => if e' <=? 1024 - 53 then S754_finite false m e' else S754_infinity false
   | _ => S754_nan
   end) = pack n e.
Proof.
  intros Hn He. unfold shr_fexp. fold (cexp n e). rewrite cexp_spec. destruct (digits_spec n (proj1 Hn)) as (D1 & D2 & D3).
  unfold pack. destruct (Z.eqb_spec n 0) as [->|H0].
  { cbn [Zdigits2]. replace (Z.max (0 + e - 53) (-1074) - e) with (Z.max (-53) (-1074 - e)) by lia.
    destruct (Z.max (-53) (-1074 - e)) eqn:?; [done|lia|done]. }
  destruct (D3 ltac:(lia)) as (D4 & D5). change (1024 - 53) with 971.
  destruct (Z.eqb_spec n (2 ^ 53)) as [->|Hne].
  { change (Zdigits2 (2 ^ 53)) with 54. replace (Z.max (54 + e - 53) (-1074) - e) with 1 by lia. done. }
  assert (Hd : Zdigits2 n <= 53).
  { apply Z.le_succ_l in D4. assert (Zdigits2 n - 1 < 53); [|lia]. apply (Z.pow_lt_mono_r_iff 2); lia. }
  replace (shr (shr_record_of_loc n loc_Exact) e _) with (shr_record_of_loc n loc_Exact, e).
  { destruct n as [|p|]; [done| |lia]. done. }
  destruct (Z.max (Zdigits2 n + e - 53) (-1074) - e) eqn:E; [done|lia|done].
Qed.

Lemma round_aux_pack m e l : 0 <= m -> e <= cexp m e ->
  exists n, binary_round_aux 53 1024 false m e l = pack n (cexp m e) /\ 0 <= n <= 2 ^ 53 /\
    (-1074 < cexp m e -> 2 ^ 52 <= m / 2 ^ (cexp m e - e)) /\
    (n = m / 2 ^ (cexp m e - e) \/
     n = m / 2 ^ (cexp m e - e) + 1 /\ ~ (l = loc_Exact /\ m / 2 ^ (cexp m e - e) * 2 ^ (cexp m e - e) = m)).
Proof.
  intros Hm He. unfold binary_round_aux, shr_fexp at 1. fold (cexp m e).
  destruct (record_of_loc m l) as (Hr & Hl).
  destruct (shr_shifted (shr_record_of_loc m l) e (cexp m e - e)) as (r & -> & H1 & H2 & H3); [lia..|].
  rewrite Hr in *. replace (e + (cexp m e - e)) with (cexp m e) by lia.
  set (n := round_nearest_even _ _). exists n. set (q := m / _) in *.
  pose proof (cexp_spec m e) as Hc. destruct (digits_spec m Hm) as (D1 & D2 & D3).
  assert (Hq : 0 <= q < 2 ^ 53).
  { split; [lia|]. apply Z.div_lt_upper_bound; [apply pow2_pos; lia|].
    rewrite <- Z.pow_add_r by lia. eapply Z.lt_le_trans; [done|]. apply Z.pow_le_mono_r; lia. }
  assert (Hn : n = q \/ n = q + 1 /\ ~ (l = loc_Exact /\ q * 2 ^ (cexp m e - e) = m)).
  { unfold n. rewrite H2. destruct (round_even_cases q (loc_of_shr_record r)) as [->|[-> Hx]]; [by left|right]. split; [done|].
    intros [-> Hex]. apply Hx, H3; [by apply Hl|by rewrite H2]. }
  split_and!; [apply renormalise; lia|lia|lia| |done].
  intros H. apply Z.div_le_lower_bound; [apply pow2_pos; lia|]. rewrite <- Z.pow_add_r by lia.
  destruct (decide (m = 0)) as [->|]; [cbn [Zdigits2] in *; lia|].
  etransitivity; [|apply D3; lia]. apply Z.pow_le_mono_r; lia.
Qed.


Lemma V_pack n e : 0 <= n <= 2 ^ 53 -> -1074 <= e -> (0 < n -> n = 2 ^ 53 -> e + 1 <= 971) -> (0 < n -> e <= 971) ->
  (-1074 < e -> 2 ^ 52 <= n) -> fin (pack n e) /\ V (pack n e) = n * 2 ^ (e + K).
Proof.
  intros Hn He H1 H2 H3. unfold pack. destruct (Z.eqb_spec n 0) as [->|H0]; [done|].
  destruct (Z.eqb_spec n (2 ^ 53)) as [->|Hne].
  - destruct (Z.leb_spec (e + 1) 971); [|lia]. cbn [fin canon V]. split; [repeat split; lia|].
    replace (e + 1 + K) with (Z.succ (e + K)) by lia. rewrite Z.pow_succ_r by (unfold K; lia). lia.
  - destruct (Z.leb_spec e 971); [|lia]. cbn [fin canon V]. split; [repeat split; lia|]. f_equal. lia.
Qed.

Lemma fin_pack n e : 0 <= n <= 2 ^ 53 -> -1074 <= e -> (-1074 < e -> 2 ^ 52 <= n) ->
  nonneg (pack n e) /\ canon (pack n e) /\ (fin (pack n e) -> V (pack n e) = n * 2 ^ (e + K)).
Proof.
  intros Hn He H3. unfold pack. destruct (Z.eqb_spec n 0) as [->|H0]; [done|].
  destruct (Z.eqb_spec n (2 ^ 53)) as [->|Hne].
  - destruct (Z.leb_spec (e + 1) 971); [|by split_and!; [..|intros []]]. cbn [fin canon V nonneg]. split; [done|]. split; [repeat split; lia|intros _].
    replace (e + 1 + K) with (Z.succ (e + K)) by lia. rewrite Z.pow_succ_r by (unfold K; lia). lia.
  - destruct (Z.leb_spec e 971); [|by split_and!; [..|intros []]]. cbn [fin canon V nonneg]. split; [done|]. split; [repeat split; lia|intros _]. f_equal. lia.
Qed.

(** Above the least exponent's range, a double is a multiple of [2^e] units or below [2^(52 + e)]. *)
Lemma fin_multiple f e : fin f -> -1074 <= e ->
  V f < 2 ^ 53 * 2 ^ (971 + K) /\ ((exists j, V f = j * 2 ^ (e + K)) \/ -1074 < e /\ V f < 2 ^ 52 * 2 ^ (e + K)).
Proof.
  intros [Hc Hf] He. unfold K. destruct f as [s|?| |s m ef]; try done; subst s; cbn [V].
  { split; [done|]. left. by exists 0. }
  cbn [canon] in Hc. destruct Hc as (H1 & H2 & H3). unfold K. split.
  - assert (2 ^ (ef + 3000) <= 2 ^ (971 + 3000)) by (apply Z.pow_le_mono_r; lia). pose proof (pow2_pos (ef + 3000) ltac:(lia)). nia.
  - destruct (Z.le_gt_cases e ef).
    + left. exists (Zpos m * 2 ^ (ef - e)). rewrite <- Z.mul_assoc, <- Z.pow_add_r by lia. do 2 f_equal. lia.
    + right. split; [lia|]. assert (2 ^ (ef + 3000 + 1) <= 2 ^ (e + 3000)) as Hp by (apply Z.pow_le_mono_r; lia).
      rewrite Z.pow_add_r in Hp by lia. change (2 ^ 1) with 2 in Hp. pose proof (pow2_pos (ef + 3000) ltac:(lia)). nia.
Qed.

Lemma le_through a b N D : 0 < D -> a * D <= N -> N <= b * D -> a <= b.
Proof. nia. Qed.

Lemma lt_through a b N D : 0 < D -> a * D < N -> N <= b * D -> a < b.
Proof. nia. Qed.

Lemma lt_through' a b N D : 0 < D -> a * D <= N -> N < b * D -> a < b.
Proof. nia. Qed.

Lemma next_multiple q j P : 0 < P -> q * P < j * P -> (q + 1) * P <= j * P.
Proof. intros HP H. apply Z.mul_lt_mono_pos_r in H; [|done]. apply Z.mul_le_mono_nonneg_r; lia. Qed.

(** The bounds of the rounded mantissa [q] or [q + 1], in units [P], for a value
    between [m] and [m + 1] units [E]. *)
Lemma mantissa_bounds m q k E D N : 0 < k -> 0 < E -> 0 < D -> k * q <= m < k * (q + 1) ->
  m * E * D <= N < (m + 1) * E * D ->
  q * (k * E) * D <= N < (q + 1) * (k * E) * D /\ (m * E * D < N \/ q * k <> m -> q * (k * E) * D < N).
Proof.
  intros Hk HE HD Hq HN. assert (q * (k * E) <= m * E) by nia. assert ((m + 1) * E <= (q + 1) * (k * E)) by nia.
  split; [nia|]. intros [|Hne]; [nia|]. assert (q * (k * E) < m * E) by nia. nia.
Qed.

Lemma round_aux_rounded m e l N D : 0 <= m -> e <= cexp m e -> -2900 <= e -> 0 < D ->
  m * 2 ^ (e + K) * D <= N < (m + 1) * 2 ^ (e + K) * D -> (l <> loc_Exact -> m * 2 ^ (e + K) * D < N) ->
  rounded (binary_round_aux 53 1024 false m e l) N D.
Proof.
  intros Hm He Hlow HD HN Hl. destruct (round_aux_pack m e l Hm He) as (n & -> & Hn & Hq52 & Hcase).
  pose proof (cexp_spec m e) as Hc. set (ce := cexp m e) in *. assert (Hce : -1074 <= ce) by lia.
  set (q := m / 2 ^ (ce - e)) in *. pose proof (pow2_pos (ce - e) ltac:(lia)) as Hk.
  pose proof (Z.mul_div_le m _ Hk) as Hq1. pose proof (Z.mul_succ_div_gt m _ Hk) as Hq2. fold q in Hq1, Hq2.
  assert (HP : 2 ^ (ce + K) = 2 ^ (ce - e) * 2 ^ (e + K)).
  { rewrite <- Z.pow_add_r by (unfold K; lia). f_equal. lia. }
  pose proof (pow2_pos (e + K) ltac:(unfold K; lia)) as HE. set (P := 2 ^ (ce + K)) in *. set (E := 2 ^ (e + K)) in *.
  set (k := 2 ^ (ce - e)) in *.
  assert (H52 : -1074 < ce -> 2 ^ 52 <= n) by lia.
  destruct (mantissa_bounds m q k E D N) as (Hqb & Hex); [done..|lia|done|]. rewrite <- HP in Hqb, Hex.
  assert (Hup : n = q + 1 -> q * P * D < N).
  { intros ->. apply Hex. destruct Hcase as [|[_ Hx]]; [lia|]. destruct l as [|c]; [right; tauto|left; by apply Hl]. }
  assert (HPpos : 0 < P) by (apply pow2_pos; unfold K; lia). clear Hex Hq1 Hq2 HP.
  destruct (fin_pack n ce Hn Hce H52) as (F1 & F2 & F3). fold P in F3.
  split; [done|]. split; [done|]. split.
  - intros f Hf HNf. destruct (fin_multiple f ce Hf Hce) as (Hmax & Hmul). fold P in Hmul.
    assert (Hle : n * P <= V f).
    { pose proof (le_through _ _ _ _ HD (proj1 Hqb) HNf). destruct Hcase as [->|[-> _]]; [done|].
      pose proof (lt_through _ _ _ _ HD (Hup eq_refl) HNf) as Hlt.
      destruct Hmul as [[j Hj]|[Hgt Hlt']]; [rewrite Hj in *; by apply next_multiple|].
      pose proof (Z.mul_le_mono_nonneg_r _ _ P ltac:(lia) (Hq52 Hgt)). lia. }
    assert (HM : 2 ^ 53 * 2 ^ (971 + K) = 2 ^ 52 * 2 ^ (972 + K)) by reflexivity.
    destruct (V_pack n ce Hn Hce) as (Hfin & HV); [| |done|rewrite HV; fold P; done].
    + intros _ ->. destruct (Z.le_gt_cases (ce + 1) 971); [done|]. exfalso.
      assert (HP : 2 ^ (971 + K) <= P) by (apply Z.pow_le_mono_r; lia).
      pose proof (Z.mul_le_mono_nonneg_l _ _ (2 ^ 53) ltac:(done) HP). lia.
    + intros Hpos. destruct (Z.le_gt_cases ce 971); [done|]. exfalso. specialize (H52 ltac:(lia)).
      assert (HP : 2 ^ (972 + K) <= P) by (apply Z.pow_le_mono_r; lia).
      pose proof (Z.mul_le_mono_nonneg (2 ^ 52) _ (2 ^ (972 + K)) _ ltac:(done) H52 ltac:(done) HP). lia.
  - intros f Hf Hfin HNf. rewrite F3 by done. destruct (fin_multiple f ce Hf Hce) as (_ & Hmul). fold P in Hmul.
    pose proof (lt_through' _ _ _ _ HD HNf (proj2 Hqb)) as Hlt.
    assert (Hqn : q * P <= n * P) by (apply Z.mul_le_mono_nonneg_r; lia).
    destruct Hmul as [[j Hj]|[Hgt Hlt']].
    + rewrite Hj in *. apply Z.mul_lt_mono_pos_r in Hlt; [|done]. etransitivity; [|done]. apply Z.mul_le_mono_nonneg_r; lia.
    + pose proof (Z.mul_le_mono_nonneg_r _ _ P ltac:(lia) (Hq52 Hgt)). lia.
Qed.


(** ** The operations *)
Lemma rounded_self x : fin x -> rounded x (V x) 1.
Proof.
  intros Hx. split_and!.
  - destruct x as [?|?| |? ? ?]; by destruct Hx as [? ?].
  - apply Hx.
  - intros f _ H. split; [done|lia].
  - intros f _ _ H. lia.
Qed.

Lemma pow_merge a b : 0 <= a -> 0 <= b -> 2 ^ a * 2 ^ b = 2 ^ (a + b).
Proof. intros. by rewrite Z.pow_add_r. Qed.

Lemma digits_above m d : 0 <= m -> 2 ^ d <= m -> 0 <= d -> d + 1 <= Zdigits2 m.
Proof.
  intros Hm Hd H0. destruct (digits_spec m Hm) as (H1 & _). assert (d < Zdigits2 m); [|lia].
  apply (Z.pow_lt_mono_r_iff 2); [lia|destruct (digits_spec m Hm) as (_ & ? & _); lia|lia].
Qed.

Lemma rounded_exact m e : 0 < m -> e <= cexp m e -> -2900 <= e -> rounded (binary_round_aux 53 1024 false m e loc_Exact) (m * 2 ^ (e + K)) 1.
Proof.
  intros Hm He Hl. pose proof (pow2_pos (e + K) ltac:(unfold K; lia)). apply round_aux_rounded; [lia|done..|lia|done].
Qed.

Lemma binary_round_rounded p e : -1074 <= e -> rounded (binary_round 53 1024 false p e) (Zpos p * 2 ^ (e + K)) 1.
Proof.
  intros He. unfold binary_round, shl_align. set (c := fexp 53 1024 _).
  assert (Hc : c = cexp (Zpos p) e) by done. pose proof (cexp_spec (Zpos p) e) as Hs. rewrite <- Hc in Hs.
  destruct (c - e) as [|d|d] eqn:E; [apply rounded_exact; lia..|].
  replace (Zpos p * 2 ^ (e + K)) with (Zpos (Pos.iter xO p d) * 2 ^ (c + K)).
  - apply rounded_exact; [done| |lia]. rewrite cexp_spec. cbn [Zdigits2] in *. rewrite digits_shift. lia.
  - rewrite iter_xO, <- Z.mul_assoc, pow_merge by (unfold K; lia). do 2 f_equal. lia.
Qed.

(** Both operands aligned at the lesser exponent. *)
Lemma align m e ez : ez <= e -> -1074 <= ez -> Zpos (fst (shl_align m e ez)) * 2 ^ (ez + K) = Zpos m * 2 ^ (e + K).
Proof.
  intros H1 H2. unfold shl_align. destruct (ez - e) as [|d|d] eqn:E; [| lia|]; cbn [fst].
  - do 2 f_equal. lia.
  - rewrite iter_xO, <- Z.mul_assoc, pow_merge by (unfold K; lia). do 2 f_equal. lia.
Qed.

Lemma fin_cases x : fin x -> x = S754_zero false \/
  exists m e, x = S754_finite false m e /\ Zpos m < 2 ^ 53 /\ -1074 <= e <= 971 /\ (-1074 < e -> 2 ^ 52 <= Zpos m).
Proof.
  intros [Hc Hx]. destruct x as [s|?| |s m e]; try done; subst s; [by left|right; eauto].
Qed.

Lemma rounded_zero N D : N = 0 -> 0 < D -> rounded (S754_zero false) N D.
Proof.
  intros -> HD. split_and!; [done..| |]; [intros f _ _; split; [done|apply V_nonneg]|].
  intros f _ _ H. cbn [V]. pose proof (V_nonneg f). nia.
Qed.

Lemma one_unit_pos : 0 < one_unit.
Proof. by apply pow2_pos. Qed.

Lemma fadd_rounded x y : fin x -> fin y -> rounded (fadd x y) (V x + V y) 1.
Proof.
  intros Hx Hy. destruct (fin_cases x Hx) as [->|(mx & ex & -> & Cx)], (fin_cases y Hy) as [->|(my & ey & -> & Cy)]; unfold fadd, SFadd.
  - by apply rounded_self.
  - by apply (rounded_self (S754_finite false my ey)).
  - rewrite Z.add_0_r. by apply (rounded_self (S754_finite false mx ex)).
  - cbn [canon] in *. cbn [cond_Zopp V]. pose proof (align mx ex (Z.min ex ey) ltac:(lia) ltac:(lia)) as Ax.
    pose proof (align my ey (Z.min ex ey) ltac:(lia) ltac:(lia)) as Ay. rewrite <- Ax, <- Ay, <- Z.mul_add_distr_r.
    cbn [Z.add binary_normalize]. apply binary_round_rounded. lia.
Qed.

Lemma fsub_rounded x y : fin x -> fin y -> V y <= V x -> rounded (fsub x y) (V x - V y) 1.
Proof.
  intros Hx Hy Hle. destruct (fin_cases x Hx) as [->|(mx & ex & -> & Cx)], (fin_cases y Hy) as [->|(my & ey & -> & Cy)]; unfold fsub, SFsub.
  - by apply rounded_self.
  - exfalso. cbn [V] in Hle. cbn [canon] in Cy. pose proof (pow2_pos (ey + K) ltac:(unfold K; lia)). nia.
  - rewrite Z.sub_0_r. by apply (rounded_self (S754_finite false mx ex)).
  - cbn [canon] in *. cbn [cond_Zopp V] in *. pose proof (align mx ex (Z.min ex ey) ltac:(lia) ltac:(lia)) as Ax.
    pose proof (align my ey (Z.min ex ey) ltac:(lia) ltac:(lia)) as Ay. rewrite <- Ax, <- Ay in *. rewrite <- Z.mul_sub_distr_r.
    set (a := fst (shl_align mx ex _)) in *. set (b := fst (shl_align my ey _)) in *. pose proof (pow2_pos (Z.min ex ey + K) ltac:(unfold K; lia)) as Hp.
    apply Z.mul_le_mono_pos_r in Hle; [|done]. destruct (Zpos a - Zpos b) as [|d|d] eqn:E; [| |lia]; cbn [binary_normalize].
    + by apply (rounded_self (S754_zero false)).
    + apply binary_round_rounded. lia.
Qed.

Lemma fmul_rounded x y : fin x -> fin y -> rounded (fmul x y) (V x * V y) one_unit.
Proof.
  intros Hx Hy. destruct (fin_cases x Hx) as [->|(mx & ex & -> & Cx)], (fin_cases y Hy) as [->|(my & ey & -> & Cy)]; unfold fmul, SFmul;
    [apply rounded_zero; [cbn [V]; lia|apply one_unit_pos]..|]. cbn [xorb V canon] in *.
  assert (HV : Zpos mx * 2 ^ (ex + K) * (Zpos my * 2 ^ (ey + K)) = Zpos (mx * my) * 2 ^ (ex + ey + K) * one_unit).
  { rewrite Pos2Z.inj_mul, <- (Z.mul_assoc _ _ one_unit). replace (2 ^ (ex + ey + K) * one_unit) with (2 ^ (ex + K) * 2 ^ (ey + K)).
    - ring.
    - unfold one_unit. rewrite !pow_merge by (unfold K; lia). f_equal. lia. }
  rewrite HV. pose proof (pow2_pos (ex + ey + K) ltac:(unfold K; lia)). pose proof one_unit_pos.
  apply round_aux_rounded; [lia| |lia|done| |done].
  - rewrite cexp_spec. destruct (Z.le_gt_cases (ex + ey) (-1074)); [lia|].
    assert (53 <= Zdigits2 (Zpos (mx * my))); [|lia]. apply (digits_above _ 52); [lia| |lia]. rewrite Pos2Z.inj_mul.
    assert (2 ^ 52 <= Zpos mx \/ 2 ^ 52 <= Zpos my) as [|] by lia; nia.
  - nia.
Qed.

Lemma fdiv_rounded x y : fin x -> fin y -> 0 < V y -> rounded (fdiv x y) (V x * one_unit) (V y).
Proof.
  intros Hx Hy Hpos. destruct (fin_cases x Hx) as [->|(mx & ex & -> & Cx)], (fin_cases y Hy) as [->|(my & ey & -> & Cy)]; [by cbn in Hpos| |by cbn in Hpos|].
  - apply rounded_zero; [done|lia].
  - unfold fdiv, SFdiv, SFdiv_core_binary. cbn [xorb]. cbn [canon V] in *.
    change (Zdigits2 (Zpos mx)) with (Zpos (digits2_pos mx)). change (Zdigits2 (Zpos my)) with (Zpos (digits2_pos my)).
    set (d1 := Zpos (digits2_pos mx)). set (d2 := Zpos (digits2_pos my)). set (c := fexp 53 1024 _).
    assert (Hc : c = Z.max (d1 + ex - (d2 + ey) - 53) (-1074)) by (unfold c, fexp, emin; lia).
    set (e' := Z.min c (ex - ey)). set (s := ex - ey - e').
    replace (match s with Z0 => Zpos mx | Zpos _ => Z.shiftl (Zpos mx) s | Zneg _ => 0 end) with (Zpos mx * 2 ^ s).
    2:{ assert (0 <= s) by lia. destruct s as [|p|p] eqn:E; [lia| |lia]. by rewrite Z.shiftl_mul_pow2. }
    set (m' := Zpos mx * 2 ^ s). pose proof (Z_div_mod m' (Zpos my) ltac:(lia)) as Hdm.
    destruct (Z.div_eucl m' (Zpos my)) as [q r]. destruct Hdm as (Hm' & Hr).
    assert (Hs : 0 <= s) by lia. pose proof (pow2_pos s Hs) as Hps. assert (0 <= q) by nia.
    set (B := 2 ^ (e' + K) * 2 ^ (ey + K)).
    assert (HB : 0 < B) by (apply Z.mul_pos_pos; apply pow2_pos; unfold K; lia).
    assert (HN : Zpos mx * 2 ^ (ex + K) * one_unit = m' * B).
    { unfold m', B, one_unit. rewrite <- !Z.mul_assoc. f_equal. rewrite !pow_merge by (unfold K; lia). f_equal. lia. }
    assert (Hq : forall z, z * 2 ^ (e' + K) * (Zpos my * 2 ^ (ey + K)) = z * Zpos my * B) by (intros; unfold B; ring).
    apply round_aux_rounded; [done| |lia|done| |].
    + rewrite cexp_spec. destruct (Z.le_gt_cases (d1 + s - d2) 0).
      { destruct (digits_spec q) as (_ & ? & _); [done|]. lia. }
      assert (d1 + s - d2 <= Zdigits2 q); [|lia]. replace (d1 + s - d2) with (d1 + s - d2 - 1 + 1) by lia.
      apply digits_above; [done| |lia]. destruct (digits_spec (Zpos my)) as (Hy2 & _); [lia|].
      pose proof (digits_lower mx) as Hx1. fold d1 in Hx1. change (Zdigits2 (Zpos my)) with d2 in Hy2.
      assert (2 ^ (d1 - 1) * 2 ^ s <= m') as Hlow by (unfold m'; apply Z.mul_le_mono_nonneg_r; lia).
      apply Z.lt_succ_r. apply (Z.mul_lt_mono_pos_r (2 ^ d2)); [apply pow2_pos; lia|]. rewrite pow_merge by lia.
      rewrite pow_merge in Hlow by lia. replace (d1 + s - d2 - 1 + d2) with (d1 - 1 + s) by lia.
      assert (m' < Zpos my * Z.succ q) by lia.
      pose proof (Z.mul_le_mono_nonneg_r (Zpos my) (2 ^ d2) (Z.succ q) ltac:(lia) ltac:(lia)). lia.
    + rewrite HN, !Hq. nia.
    + intros Hl. rewrite HN, Hq. assert (r <> 0); [|nia]. intros ->. apply Hl. unfold new_location, new_location_even, new_location_odd. by case_match.
Qed.


(** ** Conversions and comparison *)
Lemma of_Z_V n : 0 <= n < 2 ^ 53 -> fin (of_Z n) /\ V (of_Z n) = n * one_unit.
Proof.
  intros Hn. destruct (decide (n = 0)) as [->|]; [done|]. destruct (of_Z_exact n) as (q & e & -> & Hd & He & Hq); [lia|].
  pose proof (digits_lower q) as Hl. rewrite Hd in Hl. destruct (digits_spec (Zpos q)) as (Hu & _); [lia|].
  change (Zdigits2 (Zpos q)) with (Zpos (digits2_pos q)) in Hu. rewrite Hd in Hu. cbn [V fin canon].
  split; [repeat split; lia|]. rewrite Hq, <- Z.mul_assoc, pow_merge by (unfold K; lia). unfold one_unit. do 2 f_equal. lia.
Qed.

(** A count of halves. *)
Lemma halves n : 0 < n < 2 ^ 53 -> exists f, fin f /\ 2 * V f = n * one_unit.
Proof.
  intros Hn. destruct (of_Z_exact n) as (q & e & _ & Hd & He & Hq); [lia|]. exists (S754_finite false q (e - 1)).
  pose proof (digits_lower q) as Hl. rewrite Hd in Hl. destruct (digits_spec (Zpos q)) as (Hu & _); [lia|].
  change (Zdigits2 (Zpos q)) with (Zpos (digits2_pos q)) in Hu. rewrite Hd in Hu. cbn [V fin canon].
  split; [repeat split; lia|]. rewrite Hq, <- Z.mul_assoc, pow_merge by (unfold K; lia). unfold one_unit.
  replace (- e + (e - 1 + K)) with (K - 1) by lia. replace K with (Z.succ (K - 1)) at 2 by lia. rewrite Z.pow_succ_r by (unfold K; lia). lia.
Qed.

Lemma to_Z_V x : fin x -> to_Z x = V x / one_unit.
Proof.
  intros Hx. destruct (fin_cases x Hx) as [->|(m & e & -> & Hm & He & _)]; [done|]. cbn [to_Z V]. unfold one_unit.
  destruct (Z.leb_spec 0 e).
  - rewrite Z.shiftl_mul_pow2, Z.pow_add_r, Z.mul_assoc by (done || lia). symmetry. apply Z.div_mul. by apply Z.pow_nonzero.
  - rewrite Z.shiftr_div_pow2 by lia. replace K with (- e + (e + K)) at 2 by lia. rewrite (Z.pow_add_r 2 (- e)) by (unfold K; lia).
    symmetry. apply Z.div_mul_cancel_r; apply Z.pow_nonzero; unfold K; lia.
Qed.

Lemma flt_V x y : fin x -> fin y -> flt x y = (V x <? V y).
Proof.
  assert (Hlt : forall m e m' e', Zpos m < 2 ^ 53 -> -1074 <= e < e' -> 2 ^ 52 <= Zpos m' -> Zpos m * 2 ^ (e + K) < Zpos m' * 2 ^ (e' + K)).
  { intros m e m' e' Hm He Hm'. pose proof (pow2_pos (e + K) ltac:(unfold K; lia)) as Hp.
    assert (2 * 2 ^ (e + K) <= 2 ^ (e' + K)) as Hp'.
    { rewrite <- Z.pow_succ_r by (unfold K; lia). apply Z.pow_le_mono_r; lia. }
    generalize dependent (2 ^ (e + K)). generalize dependent (2 ^ (e' + K)). intros P' P Hp Hp'.
    pose proof (proj1 (Z.mul_lt_mono_pos_r P (Zpos m) (2 ^ 53) Hp) Hm) as Hq.
    pose proof (Z.mul_le_mono_nonneg (2 ^ 52) (Zpos m') (2 * P) P' ltac:(lia) Hm' ltac:(lia) Hp'). lia. }
  intros Hx Hy. destruct (fin_cases x Hx) as [->|(m & e & -> & Hm & He & Hm52)], (fin_cases y Hy) as [->|(m' & e' & -> & Hm' & He' & Hm52')];
    unfold flt, SFltb, SFcompare; cbn [V]; [done|symmetry; apply Z.ltb_lt|symmetry; apply Z.ltb_ge|].
  - apply Z.mul_pos_pos; [done|]. apply pow2_pos. unfold K. lia.
  - pose proof (pow2_pos (e + K) ltac:(unfold K; lia)). apply Z.mul_nonneg_nonneg; lia.
  - symmetry. destruct (Z.compare_spec e e') as [->|H|H].
    + change (Pos.compare_cont Eq m m') with (Pos.compare m m'). pose proof (pow2_pos (e' + K) ltac:(unfold K; lia)) as Hp.
      destruct (Pos.compare_spec m m') as [->|H|H]; [apply Z.ltb_ge; lia|apply Z.ltb_lt, Z.mul_lt_mono_pos_r; lia|].
      apply Z.ltb_ge, Z.mul_le_mono_nonneg_r; lia.
    + apply Z.ltb_lt, Hlt; [done|lia|apply Hm52'; lia].
    + apply Z.ltb_ge, Z.lt_le_incl, Hlt; [done|lia|apply Hm52; lia].
Qed.

(** The rounded result of an operation on doubles within bounds. *)
Lemma rounded_le x N D f : rounded x N D -> fin f -> N <= V f * D -> fin x /\ V x <= V f.
Proof. intros (_ & _ & H & _). apply H. Qed.
Lemma rounded_ge x N D f : rounded x N D -> fin f -> fin x -> V f * D <= N -> V f <= V x.
Proof. intros (_ & _ & _ & H). apply H. Qed.

Example div_rounded : V (fdiv (of_Z 7) (of_Z 2)) * 2 = 7 * one_unit /\ flt (fdiv (of_Z 1) (of_Z 3)) (fdiv (of_Z 1) (of_Z 2)) = true.
Proof. vm_compute. done. Qed.


(** ** Signs *)
Definition SV (x : double) : Z :=
  match x with S754_finite true _ _ => - V (SFopp x) | _ => V x end.
Definition sfin (x : double) : Prop := fin x \/ fin (SFopp x).

Lemma flt_opp x y : fin x -> fin y -> flt (SFopp x) (SFopp y) = flt y x.
Proof.
  intros Hx Hy. destruct (fin_cases x Hx) as [->|(m & e & -> & _)], (fin_cases y Hy) as [->|(m' & e' & -> & _)]; try done.
  unfold flt, SFltb. cbn [SFopp SFcompare negb]. change (Pos.compare_cont Eq m m') with (Pos.compare m m').
  change (Pos.compare_cont Eq m' m) with (Pos.compare m' m). rewrite (Z.compare_antisym e e'), (Pos.compare_antisym m m').
  destruct (Z.compare e e'), (Pos.compare m m'); done.
Qed.

Lemma SV_fin x : fin x -> SV x = V x.
Proof. intros Hx. by destruct (fin_cases x Hx) as [->|(m & e & -> & _)]. Qed.
Lemma SV_opp x : fin x -> SV (SFopp x) = - V x.
Proof. intros Hx. by destruct (fin_cases x Hx) as [->|(m & e & -> & _)]. Qed.

Lemma flt_opp_fin x y : fin x -> fin y -> flt (SFopp x) y = (- V x <? V y) /\ flt y (SFopp x) = (V y <? - V x).
Proof.
  intros Hx Hy. pose proof (V_nonneg x). pose proof (V_nonneg y).
  assert (Hpos : forall m e, -1074 <= e -> 0 < V (S754_finite false m e)).
  { intros m e He. cbn [V]. apply Z.mul_pos_pos; [done|]. apply pow2_pos. unfold K. lia. }
  destruct (fin_cases x Hx) as [->|(m & e & -> & _ & He & _)], (fin_cases y Hy) as [->|(m' & e' & -> & _ & He' & _)]; split;
    try pose proof (Hpos m e ltac:(lia)) as P1; try pose proof (Hpos m' e' ltac:(lia)) as P2;
    (match goal with |- flt ?a ?b = _ => let v := eval cbn in (flt a b) in change (flt a b) with v end); symmetry;
    first [apply Z.ltb_lt | apply Z.ltb_ge]; change (V (S754_zero false)) with 0 in *; lia.
Qed.

(** Comparison of finite doubles is comparison of their values. *)
Lemma flt_SV x y : sfin x -> sfin y -> flt x y = (SV x <? SV y).
Proof.
  assert (Hinv : forall x, SFopp (SFopp x) = x) by (intros [[]|[]| |[] m e]; done).
  intros [Hx|Hx] [Hy|Hy].
  - rewrite !SV_fin by done. by apply flt_V.
  - rewrite <- (Hinv y) at 1 2. rewrite SV_opp, (SV_fin x) by done. by apply flt_opp_fin.
  - rewrite <- (Hinv x) at 1 2. rewrite SV_opp, (SV_fin y) by done. by apply flt_opp_fin.
  - rewrite <- (Hinv x) at 1 2. rewrite <- (Hinv y) at 1 2. rewrite !SV_opp, flt_opp, flt_V by done.
    destruct (Z.ltb_spec (V (SFopp y)) (V (SFopp x))); symmetry; [apply Z.ltb_lt|apply Z.ltb_ge]; lia.
Qed.

Lemma round_aux_opp m e l : binary_round_aux 53 1024 true m e l = SFopp (binary_round_aux 53 1024 false m e l).
Proof.
  unfold binary_round_aux. destruct (shr_fexp 53 1024 m e l) as [r e']. destruct (shr_fexp _ _ _ _ _) as [r' e''].
  destruct (shr_m r'); [done|by destruct (e'' <=? _)|done].
Qed.

Lemma of_Z_opp k : 0 < k -> of_Z (- k) = SFopp (of_Z k).
Proof.
  intros Hk. destruct k as [|p|]; [done| |done]. change (- Zpos p) with (Zneg p). unfold of_Z, binary_normalize, binary_round.
  destruct (shl_align _ _ _) as [m e]. apply round_aux_opp.
Qed.

(** A quotient of a difference of counts: at least -1, if the divisor is above what it falls
    short by, and not negative if the dividend is not. *)
Lemma fdiv_difference a b : Z.abs a < 2 ^ 53 -> 0 < b < 2 ^ 53 -> - b <= a ->
  sfin (fdiv (of_Z a) (of_Z b)) /\ - one_unit <= SV (fdiv (of_Z a) (of_Z b)) /\ (0 <= a -> 0 <= SV (fdiv (of_Z a) (of_Z b))).
Proof.
  intros Ha Hb Hab. pose proof one_unit_pos as Hu. destruct (of_Z_V b) as (Fb & Vb); [lia|].
  assert (Hq : forall k c, 0 <= k < 2 ^ 53 -> k <= c * b -> 0 <= c < 2 ^ 53 ->
    fin (fdiv (of_Z k) (of_Z b)) /\ V (fdiv (of_Z k) (of_Z b)) <= c * one_unit).
  { intros k c Hk Hkc Hc. destruct (of_Z_V k) as (Fk & Vk); [lia|]. destruct (of_Z_V c) as (Fc & Vc); [lia|]. rewrite <- Vc.
    eapply rounded_le; [apply fdiv_rounded; [done..|nia]|done|]. rewrite Vc, Vk, Vb.
    pose proof (Z.mul_le_mono_nonneg_r _ _ (one_unit * one_unit) ltac:(nia) Hkc). nia. }
  destruct (Z.le_gt_cases 0 a) as [H0|H0].
  - destruct (Hq a a) as (Fq & Vq); [lia|nia|lia|]. split; [by left|]. rewrite SV_fin by done.
    pose proof (V_nonneg (fdiv (of_Z a) (of_Z b))). split; lia.
  - destruct (Hq (- a) 1) as (Fq & Vq); [lia..|]. replace a with (- - a) by lia. rewrite of_Z_opp by lia.
    assert (E : fdiv (SFopp (of_Z (- a))) (of_Z b) = SFopp (fdiv (of_Z (- a)) (of_Z b))).
    { destruct (of_Z_pos (- a)) as (m & e & ->); [lia|]. destruct (of_Z_pos b) as (m' & e' & ->); [lia|].
      unfold fdiv, SFdiv. cbn [SFopp negb xorb]. destruct (SFdiv_core_binary _ _ _ _ _ _) as [[q e0] l]. apply round_aux_opp. }
    rewrite E. split; [right|rewrite SV_opp by done; split; lia].
    assert (Hinv : forall x, SFopp (SFopp x) = x) by (intros [[]|[]| |[] m e]; done). by rewrite Hinv.
Qed.

(** ** Quotients of small counts are told apart *)

(** A double just below a quotient, and the one before it. *)
Lemma below_quotient a b c d : 0 < a <= 2 ^ 25 -> 0 < b <= 2 ^ 25 -> 0 <= c -> 0 < d <= 2 ^ 25 -> c * b < a * d ->
  exists f g, fin f /\ fin g /\ V g < V f /\ V f * b <= a * one_unit /\ c * one_unit <= V g * d.
Proof.
  intros Ha Hb Hc Hd Hlt. set (n := a * 2 ^ 60 / b).
  assert (Hn : 2 ^ 35 <= n < 2 ^ 86).
  { unfold n. split; [apply Z.div_le_lower_bound; nia|apply Z.div_lt_upper_bound; nia]. }
  set (t := Z.log2 n). destruct (Z.log2_spec n) as (Hlo & Hhi); [lia|]. fold t in Hlo, Hhi.
  assert (Ht : 35 <= t < 86).
  { split; [apply Z.log2_le_pow2; lia|apply Z.log2_lt_pow2; lia]. }
  set (s := 112 - t). pose proof (pow2_pos s ltac:(lia)) as Hs. pose proof (pow2_pos t ltac:(lia)) as Hpt.
  assert (Hst : 2 ^ s * 2 ^ t = 2 ^ 112) by (rewrite <- Z.pow_add_r by lia; f_equal; lia).
  rewrite Z.pow_succ_r in Hhi by lia.
  pose proof (Z.mul_div_le (a * 2 ^ 60) b ltac:(lia)) as Hn1. pose proof (Z.mul_succ_div_gt (a * 2 ^ 60) b ltac:(lia)) as Hn2.
  fold n in Hn1, Hn2.
  assert (H52 : 2 ^ 52 * b <= a * 2 ^ s < 2 ^ 53 * b).
  { split; [apply (Z.mul_le_mono_pos_r _ _ (2 ^ t))|apply (Z.mul_lt_mono_pos_r (2 ^ t))]; try done.
    - rewrite <- (Z.mul_assoc a), Hst. change (2 ^ 112) with (2 ^ 60 * 2 ^ 52). nia.
    - rewrite <- (Z.mul_assoc a), Hst. change (2 ^ 112) with (2 ^ 60 * 2 ^ 52). nia. }
  set (m := a * 2 ^ s / b).
  pose proof (Z.mul_div_le (a * 2 ^ s) b ltac:(lia)) as Hm1. pose proof (Z.mul_succ_div_gt (a * 2 ^ s) b ltac:(lia)) as Hm2.
  fold m in Hm1, Hm2.
  assert (Hm : 2 ^ 52 <= m < 2 ^ 53).
  { unfold m. split; [apply Z.div_le_lower_bound; lia|apply Z.div_lt_upper_bound; lia]. }
  assert (Hs1 : c * 2 ^ s <= (m - 1) * d).
  { assert (a * d <= 2 ^ 50) by nia. assert (2 * (a * d) <= 2 ^ 51) by lia.
    assert (2 * b * d <= 2 ^ s).
    { apply (Z.mul_le_mono_pos_r _ _ a); [lia|]. assert (2 * b * d * a <= b * 2 ^ 51) by nia. lia. }
    apply (Z.mul_le_mono_pos_r _ _ b); [lia|].
    assert (a * 2 ^ s - 2 * b <= (m - 1) * b) by lia.
    assert ((a * 2 ^ s - 2 * b) * d <= (m - 1) * b * d) by (apply Z.mul_le_mono_nonneg_r; lia).
    assert ((c * b + 1) * 2 ^ s <= a * d * 2 ^ s) by (apply Z.mul_le_mono_nonneg_r; lia). nia. }
  assert (Hu : one_unit = 2 ^ s * 2 ^ (K - s)).
  { unfold one_unit. rewrite <- Z.pow_add_r by (unfold K; lia). f_equal. lia. }
  pose proof (pow2_pos (K - s) ltac:(unfold K; lia)) as HP.
  assert (Hg : exists g, fin g /\ (m - 1) * 2 ^ (K - s) <= V g < m * 2 ^ (K - s)).
  { destruct (decide (m = 2 ^ 52)) as [E|].
    - exists (S754_finite false (2 ^ 53 - 1) (- s - 1)). split; [repeat split; cbn; lia|]. cbn [V].
      replace (- s - 1 + K) with (K - s - 1) by lia. rewrite E.
      assert (E2 : 2 ^ (K - s) = 2 * 2 ^ (K - s - 1)) by (rewrite <- Z.pow_succ_r by (unfold K; lia); f_equal; lia).
      pose proof (pow2_pos (K - s - 1) ltac:(unfold K; lia)). rewrite E2. lia.
    - exists (S754_finite false (Z.to_pos (m - 1)) (- s)). split; [repeat split; cbn; lia|]. cbn [V].
      replace (- s + K) with (K - s) by lia. rewrite Z2Pos.id by lia. nia. }
  destruct Hg as (g & Fg & Vg). exists (S754_finite false (Z.to_pos m) (- s)), g.
  split; [repeat split; cbn; lia|]. split; [done|]. cbn [V]. replace (- s + K) with (K - s) by lia. rewrite Z2Pos.id by lia.
  split; [lia|]. rewrite Hu. split; [nia|].
  transitivity ((m - 1) * 2 ^ (K - s) * d); [nia|]. apply Z.mul_le_mono_nonneg_r; lia.
Qed.

Lemma fdiv_opp k b : 0 < k < 2 ^ 53 -> 0 < b < 2 ^ 53 -> fdiv (of_Z (- k)) (of_Z b) = SFopp (fdiv (of_Z k) (of_Z b)).
Proof.
  intros Hk Hb. rewrite of_Z_opp by lia. destruct (of_Z_pos k) as (m & e & ->); [lia|]. destruct (of_Z_pos b) as (m' & e' & ->); [lia|].
  unfold fdiv, SFdiv. cbn [SFopp negb xorb]. destruct (SFdiv_core_binary _ _ _ _ _ _) as [[q e0] l]. apply round_aux_opp.
Qed.

Lemma fdiv_of_Z a b : 0 <= a < 2 ^ 53 -> 0 < b < 2 ^ 53 ->
  fin (fdiv (of_Z a) (of_Z b)) /\ rounded (fdiv (of_Z a) (of_Z b)) (a * one_unit * one_unit) (b * one_unit).
Proof.
  intros Ha Hb. pose proof one_unit_pos as Hu. destruct (of_Z_V a) as (Fa & Va); [lia|]. destruct (of_Z_V b) as (Fb & Vb); [lia|].
  assert (Hr : rounded (fdiv (of_Z a) (of_Z b)) (a * one_unit * one_unit) (b * one_unit)).
  { rewrite <- Va, <- Vb. apply fdiv_rounded; [done|done|nia]. }
  split; [|done]. eapply (rounded_le _ _ _ _ Hr Fa). rewrite Va. nia.
Qed.

Lemma fdiv_lt a b c d : 0 < a <= 2 ^ 25 -> 0 < b <= 2 ^ 25 -> 0 <= c <= 2 ^ 25 -> 0 < d <= 2 ^ 25 -> c * b < a * d ->
  V (fdiv (of_Z c) (of_Z d)) < V (fdiv (of_Z a) (of_Z b)).
Proof.
  intros Ha Hb Hc Hd Hlt. destruct (below_quotient a b c d) as (f & g & Ff & Fg & Hfg & Hf & Hg); [done|done|lia|done|done|].
  destruct (fdiv_of_Z a b) as (F1 & R1); [lia..|]. destruct (fdiv_of_Z c d) as (F2 & R2); [lia..|]. pose proof one_unit_pos as Hu.
  assert (V f <= V (fdiv (of_Z a) (of_Z b))) by (apply (rounded_ge _ _ _ _ R1 Ff F1); nia).
  destruct (rounded_le _ _ _ g R2 Fg) as (_ & ?); [nia|]. lia.
Qed.

(** Doubles order the quotients of counts up to 2^25 as they are. *)
Lemma fdiv_order a b c d : Z.abs a <= 2 ^ 25 -> 0 < b <= 2 ^ 25 -> Z.abs c <= 2 ^ 25 -> 0 < d <= 2 ^ 25 ->
  SV (fdiv (of_Z a) (of_Z b)) <= SV (fdiv (of_Z c) (of_Z d)) -> a * d <= c * b.
Proof.
  intros Ha Hb Hc Hd Hle. destruct (Z.le_gt_cases (a * d) (c * b)) as [|Hlt]; [done|exfalso].
  assert (Hpos : forall x y, 0 <= x <= 2 ^ 25 -> 0 < y <= 2 ^ 25 -> SV (fdiv (of_Z x) (of_Z y)) = V (fdiv (of_Z x) (of_Z y))).
  { intros x y Hx Hy. apply SV_fin, fdiv_of_Z; lia. }
  assert (Hneg : forall x y, - 2 ^ 25 <= x < 0 -> 0 < y <= 2 ^ 25 -> SV (fdiv (of_Z x) (of_Z y)) = - V (fdiv (of_Z (- x)) (of_Z y))).
  { intros x y Hx Hy. replace x with (- - x) at 1 by lia. rewrite fdiv_opp by lia. apply SV_opp, fdiv_of_Z; lia. }
  destruct (Z.le_gt_cases 0 c) as [H0|H0].
  - assert (0 < a) by nia. rewrite !Hpos in Hle by lia. pose proof (fdiv_lt a b c d ltac:(lia) Hb ltac:(lia) Hd ltac:(lia)). lia.
  - rewrite (Hneg c d) in Hle by lia. destruct (Z.le_gt_cases 0 a) as [H1|H1].
    + rewrite Hpos in Hle by lia. pose proof (V_nonneg (fdiv (of_Z a) (of_Z b))).
      pose proof (fdiv_lt (- c) d 0 1 ltac:(lia) Hd ltac:(lia) ltac:(lia) ltac:(lia)).
      pose proof (V_nonneg (fdiv (of_Z 0) (of_Z 1))). lia.
    + rewrite (Hneg a b) in Hle by lia. pose proof (fdiv_lt (- c) d (- a) b ltac:(lia) Hd ltac:(lia) Hb ltac:(lia)). lia.
Qed.

End DoubleRound.
