(* ===== verification/WeaveMem.v ===== *)
(** The memories whose latency follows their load: MD1Memory (mem_ctrls.h, mem_ctrls.cpp),
    the two memories that split a latency between the bound and the weave phase
    (weave_md1_mem.h), and the periodic events of other models (tick_event.h). *)
From Stdlib Require Import Floats.SpecFloat.
From S2P Require Import Prelude Effects MemHier Timing Doubles DoubleRound TimingAccess.
Import MemHier (AccessType, GETS, GETX, PUTS, PUTX, MESIState, MemReq, lineAddr, type, cycle, flags, srcId, grant).
Import Doubles.

Module WeaveMem.
#[local] Existing Instance MemHier.AccessType_eq_dec.

(** ** MD1Memory *)

(** [phaseCounters]: the counters of the statistics. *)
Record counters := mkCnt {
  profReads : Z;
  profWrites : Z;
  profTotalRdLat : Z;
  profTotalWrLat : Z;
  profLoad : Z;
  profUpdates : Z;
  profClampedLoads : Z
}.

Record MD1Memory := mkMD1 {
  lastPhase : Z;
  maxRequestsPerCycle : double;
  smoothedPhaseAccesses : double;
  zeroLoadLatency : Z;
  curLatency : Z;
  curPhaseAccesses : Z;
  prof : counters
}.

Definition half : double := fdiv (of_Z 1) (of_Z 2).
Definition one : double := of_Z 1.
(** The double the literal 0.95 stands for. *)
Definition c95 : double := fdiv (of_Z 95) (of_Z 100).

Definition count_read (lat : Z) (c : counters) : counters :=
  mkCnt (u64 (profReads c + 1)) (profWrites c) (u64 (profTotalRdLat c + lat)) (profTotalWrLat c) (profLoad c) (profUpdates c) (profClampedLoads c).
Definition count_write (lat : Z) (c : counters) : counters :=
  mkCnt (profReads c) (u64 (profWrites c + 1)) (profTotalRdLat c) (u64 (profTotalWrLat c + lat)) (profLoad c) (profUpdates c) (profClampedLoads c).
Definition count_update (intLoad clamped : Z) (c : counters) : counters :=
  mkCnt (profReads c) (profWrites c) (profTotalRdLat c) (profTotalWrLat c) (u64 (profLoad c + intLoad)) (u64 (profUpdates c + 1))
    (u64 (profClampedLoads c + clamped)).

(** The constructor. *)
Definition newMD1 (requestSize megacyclesPerSecond megabytesPerSecond latency : Z) : res MD1Memory :=
  let bytesPerCycle := fdiv (of_Z megabytesPerSecond) (of_Z megacyclesPerSecond) in
  let m := fdiv bytesPerCycle (of_Z requestSize) in
  _ ← assert_that (flt (S754_zero false) m);
  Ok (mkMD1 0 m (S754_zero false) latency latency 0 (mkCnt 0 0 0 0 0 0 0)).

(** The load of a phase of [phaseCycles] cycles, before it is clamped. *)
Definition phase_load (smoothed maxReq : double) (phaseCycles : Z) : double :=
  fdiv (fdiv smoothed (of_Z phaseCycles)) maxReq.
Definition smooth (accesses : Z) (old : double) : double := fadd (fmul (of_Z accesses) half) (fmul old half).
Definition clamp (load : double) : double := if flt c95 load then c95 else load.
(** The formula of Pollaczek and Khinchine. *)
Definition latMultiplier (load : double) : double := fadd one (fdiv (fmul half load) (fsub one load)).
Definition latency_of (load : double) (zll : Z) : Z := u32 (to_Z (fmul (latMultiplier load) (of_Z zll))).

Definition updateLatency (numPhases phaseLength : Z) (m : MD1Memory) : MD1Memory :=
  let phaseCycles := u32 (u64 (u64 (numPhases - lastPhase m) * phaseLength)) in
  if phaseCycles <? 10000 then m
  else
    let smoothed := smooth (curPhaseAccesses m) (smoothedPhaseAccesses m) in
    let load := phase_load smoothed (maxRequestsPerCycle m) phaseCycles in
    let load' := clamp load in
    let intLoad := u32 (to_Z (fmul load' (of_Z 100))) in
    mkMD1 numPhases (maxRequestsPerCycle m) smoothed (zeroLoadLatency m) (latency_of load' (zeroLoadLatency m)) 0
      (count_update intLoad (if flt c95 load then 1 else 0) (prof m)).

(** A read, or a dirty writeback. *)
Definition add_access (count : Z -> counters -> counters) (m : MD1Memory) : MD1Memory :=
  mkMD1 (lastPhase m) (maxRequestsPerCycle m) (smoothedPhaseAccesses m) (zeroLoadLatency m) (curLatency m)
    (u32 (curPhaseAccesses m + 1)) (count (curLatency m) (prof m)).

(** The update at the first access of a phase; the lock and the second check see the same. *)
Definition refresh (numPhases phaseLength : Z) (m : MD1Memory) : MD1Memory :=
  if lastPhase m <? numPhases then updateLatency numPhases phaseLength m else m.

(** [access] in phase [numPhases]: the requester's state and the response cycle. *)
Definition access (numPhases phaseLength : Z) (req : MemReq) (m0 : MD1Memory) : MESIState * Z * MD1Memory :=
  let m := refresh numPhases phaseLength m0 in
  match type req with
  | PUTX => (MemHier.I, u64 (cycle req + curLatency m), add_access count_write m)
  | PUTS => (MemHier.I, cycle req, m)
  | GETS => (if MemHier.is_flag (flags req) MemHier.NOEXCL then MemHier.S else MemHier.E, u64 (cycle req + curLatency m), add_access count_read m)
  | GETX => (MemHier.M, u64 (cycle req + curLatency m), add_access count_read m)
  end.

(** ** The weave memories *)

(** [WeaveMemAccEvent::simulate]; the field [lat] of each event is kept by the caller. *)
Definition WeaveMemAccEvent_simulate (fuel : nat) (lat : Z) (e : nat) (startCycle : Z) : prog Timing.sim unit :=
  Timing.done fuel e (u64 (startCycle + lat)).

(** What the two [access]es share: [bound] is the latency told to the core in the bound phase,
    and the event takes what [real] is longer than the unloaded latency.  The result is the
    response cycle and the event with its [lat], where the source has a recorder. *)
Definition weave_access {X} (hasRec : bool) (zll bound domain : Z) (req : MemReq) (realRespCycle : Z)
    : prog (Timing.sim * X) (Z * option (nat * Z)) :=
  let preDelay := zll / 2 in
  let postDelay := u32 (zll - preDelay) in
  let realLatency := u32 (realRespCycle - cycle req) in
  let isPuts := bool_decide (type req = PUTS) in
  let respCycle := u64 (cycle req + (if isPuts then 0 else bound)) in
  _ ← require (respCycle <=? realRespCycle);
  _ ← require (isPuts || (zll <=? realLatency));
  if negb isPuts && hasRec then
    e ← TimingAccess.on_sim (Timing.alloc (Timing.set_minStartCycle (cycle req) (Timing.newEvent Timing.Simple preDelay postDelay domain)));
    let tr := Timing.mkTR (lineAddr req) (cycle req) respCycle (type req) (Some e) (Some e) in
    _ ← TimingAccess.on_sim (TimingAccess.push (Z.to_nat (srcId req)) tr);
    mret (respCycle, Some (e, u32 (realLatency - zll)))
  else mret (respCycle, None).

(** [WeaveMD1Memory::access]: the base class, then the record. *)
Definition WeaveMD1_access (hasRec : bool) (boundLatency domain numPhases phaseLength : Z) (req : MemReq)
    : prog (Timing.sim * MD1Memory) (MESIState * Z * option (nat * Z)) :=
  m ← gets snd;
  let '(st, real, m') := access numPhases phaseLength req m in
  _ ← modify (fun w => (w.1, m'));
  '(resp, ev) ← weave_access hasRec (zeroLoadLatency m) boundLatency domain req real;
  mret (st, resp, ev).

Record WeaveSimpleMemory := mkWS { ws_latency : Z; ws_zeroLoadLatency : Z }.

Definition newWeaveSimple (latency zll : Z) : res WeaveSimpleMemory :=
  _ ← assert_that (zll <=? latency); Ok (mkWS latency zll).

Definition WeaveSimple_access (hasRec : bool) (domain : Z) (req : MemReq)
    : prog (Timing.sim * WeaveSimpleMemory) (MESIState * Z * option (nat * Z)) :=
  m ← gets snd;
  '(st, real) ← lift (MemHier.SimpleMemory_access (ws_latency m) req);
  '(resp, ev) ← weave_access hasRec (ws_zeroLoadLatency m) (ws_zeroLoadLatency m) domain req real;
  mret (st, resp, ev).

(** ** Tick events *)
Section Tick.
(** [obj->tick] and the object's state; [active] is the event's. *)
Context {X : Type} (tick : Z -> prog X Z).
Notation TP := (prog (Timing.sim * (bool * X))).

Definition newTick (domain : Z) : Timing.TimingEvent := Timing.set_minStartCycle 0 (Timing.newEvent Timing.Simple 0 0 domain).

Definition set_active (b : bool) : TP unit := modify (fun w => (w.1, (b, w.2.2))).
Definition on_obj (m : prog X Z) : TP Z := fun w =>
  match m w.2.2 with Ok (a, x) => Ok (a, (w.1, (w.2.1, x))) | Fail e => Fail e end.

(** [TickEvent::parentDone]: never called. *)
Definition tick_parentDone : TP unit := stop.

Definition tick_queue (e : nat) (startCycle : Z) : TP unit :=
  a ← gets (fun w => w.2.1);
  _ ← require (negb a);
  _ ← set_active true;
  TimingAccess.on_sim (Timing.enqueueSynced e startCycle).

Definition tick_simulate (e : nat) (startCycle : Z) : TP unit :=
  delay ← on_obj (tick startCycle);
  if delay =? 0 then set_active false
  else TimingAccess.on_sim (Timing.requeue e (u64 (startCycle + delay))).

(** [TimingEvent::run] on a tick event. *)
Definition tick_run (e : nat) (startCycle : Z) : TP unit :=
  _ ← TimingAccess.on_sim (Timing.run (fun _ _ => mret tt) 0 e startCycle);
  tick_simulate e startCycle.
End Tick.

(** 0.95 as the compiler reads it. *)
Example c95_value : c95 = S754_finite false 8556839292003942 (-53).
Proof. vm_compute. reflexivity. Qed.

(** At full load the latency is ten times and a half the unloaded one. *)
Example full_load : (latency_of c95 100, latency_of (S754_zero false) 100, latency_of half 100) = (1049, 100, 150).
Proof. vm_compute. reflexivity. Qed.


(** ** The latency follows the load, within bounds *)
Import DoubleRound.

(** The constants of the formula. *)
Definition finb (x : double) : bool :=
  match x with
  | S754_finite false m e => (Zpos m <? 2 ^ 53) && (2 ^ 52 <=? Zpos m) && (-1074 <=? e) && (e <=? 971)
  | _ => false
  end.
Lemma finb_fin x : finb x = true -> fin x.
Proof.
  destruct x as [?|?| |[] m e]; try done. cbn [finb]. rewrite !andb_true_iff, Z.ltb_lt, !Z.leb_le. intros [[[? ?] ?] ?].
  split; [repeat split; done|done].
Qed.

Lemma const_fin : fin half /\ fin one /\ fin c95 /\ fin (fmul half c95) /\ fin (fsub one c95).
Proof. split_and!; apply finb_fin; vm_compute; reflexivity. Qed.

Lemma const_values : 2 * V half = one_unit /\ V one = one_unit /\ V half * V c95 = V (fmul half c95) * one_unit /\ V one - V c95 = V (fsub one c95) /\
  2 * V (fmul half c95) <= 19 * V (fsub one c95) /\ 0 < V (fsub one c95).
Proof. split_and!; [..|apply Z.leb_le|apply Z.ltb_lt]; vm_compute; reflexivity. Qed.

Lemma clamped_load smoothed maxReq pc : fin smoothed -> V smoothed <= 2 ^ 33 * one_unit -> fin maxReq -> 0 < V maxReq -> 0 < pc < 2 ^ 32 ->
  fin (clamp (phase_load smoothed maxReq pc)) /\ V (clamp (phase_load smoothed maxReq pc)) <= V c95.
Proof.
  intros Hs Hs' Hm Hm' Hpc. destruct (of_Z_V pc) as (Fp & Vp); [lia|]. pose proof one_unit_pos as Hu.
  assert (Hr : fin (fdiv smoothed (of_Z pc))).
  { destruct (of_Z_V (2 ^ 33)) as (Fb & Vb); [lia|]. eapply rounded_le with (f := of_Z (2 ^ 33)); [apply fdiv_rounded; [done..|nia]|done|].
    rewrite Vb, Vp. nia. }
  unfold clamp, phase_load. destruct (fdiv_rounded _ _ Hr Hm Hm') as (Hn & Hc & _).
  set (load := fdiv _ maxReq) in *. assert (F95 : fin c95) by (rewrite c95_value; repeat split; lia).
  clearbody load. destruct load as [s|s| |s m e]; cbn in Hn; [subst s|subst s|done|subst s].
  { assert (flt c95 (S754_zero false) = false) as -> by (rewrite c95_value; reflexivity). split; [done|apply V_nonneg]. }
  { assert (flt c95 (S754_infinity false) = true) as -> by (rewrite c95_value; reflexivity). done. }
  assert (Hf : fin (S754_finite false m e)) by (split; [exact Hc|reflexivity]). rewrite (flt_V _ _ F95 Hf).
  destruct (Z.ltb_spec (V c95) (V (S754_finite false m e))); done.
Qed.

Lemma smooth_bound n old : 0 <= n < 2 ^ 32 -> fin old -> V old <= 2 ^ 33 * one_unit ->
  fin (smooth n old) /\ V (smooth n old) <= 2 ^ 33 * one_unit.
Proof.
  intros Hn Ho Hv. destruct (of_Z_V n) as (Fn & Vn); [lia|]. pose proof one_unit_pos as Hu.
  destruct const_fin as (Fh & _), const_values as (Vh & _).
  destruct (of_Z_V (2 ^ 32)) as (F1 & V1); [lia|]. destruct (of_Z_V (2 ^ 33)) as (F2 & V2); [lia|].
  destruct (rounded_le _ _ _ _ (fmul_rounded _ _ Fn Fh) F1) as (Fa & Va); [rewrite V1, Vn; nia|].
  destruct (rounded_le _ _ _ _ (fmul_rounded _ _ Ho Fh) F1) as (Fb & Vb); [rewrite V1; nia|].
  rewrite <- V2. unfold smooth. eapply rounded_le; [by apply fadd_rounded|done|]. lia.
Qed.

Lemma scale_hi L G z u : 2 * L <= 21 * u -> 2 * G = 21 * z * u -> 0 <= z -> 0 <= u -> L * (z * u) <= G * u.
Proof.
  intros H1 H2 Hz Hu. pose proof (Z.mul_le_mono_nonneg_r _ _ (z * u) ltac:(lia) H1) as H.
  replace (21 * u * (z * u)) with (2 * G * u) in H by (rewrite H2; ring). lia.
Qed.

Lemma scale_lo L z u : u <= L -> 0 <= z -> 0 <= u -> z * u * u <= L * (z * u).
Proof. intros H Hz Hu. pose proof (Z.mul_le_mono_nonneg_r _ _ (z * u) ltac:(lia) H). lia. Qed.

Lemma quotient_le a b c u : 0 <= a <= c -> 1 <= b -> 0 <= u -> a * u * u <= c * u * (b * u).
Proof.
  intros Ha Hb Hu. assert (a * 1 <= c * b) by (apply Z.mul_le_mono_nonneg; lia).
  pose proof (Z.mul_le_mono_nonneg_r _ _ (u * u) ltac:(nia) H). lia.
Qed.

Lemma quotient_le' v b c u : v <= c * u -> 0 <= c -> 1 <= b -> 0 <= u -> v * u <= c * u * (b * u).
Proof.
  intros Hv Hc Hb Hu. transitivity (c * u * u); [by apply Z.mul_le_mono_nonneg_r|].
  apply Z.mul_le_mono_nonneg_l; nia.
Qed.

Lemma half_of_div v z u : 0 < u -> 2 * v <= 21 * z * u -> 2 * (v / u) <= 21 * z.
Proof. intros Hu H. pose proof (Z.mul_div_le v u Hu). nia. Qed.

(** The latency of a memory loaded to at most 95 percent. *)
Lemma latency_bounds load zll : fin load -> V load <= V c95 -> 0 < zll < 2 ^ 28 ->
  zll <= latency_of load zll /\ 2 * latency_of load zll <= 21 * zll.
Proof.
  intros Hl Hc Hz. pose proof one_unit_pos as Hu. unfold latency_of, latMultiplier.
  destruct const_fin as (Fh & F1 & F95 & FA & FB), const_values as (_ & E1 & EA & EB & EC & EB0).
  destruct (halves 19) as (c & Fc & Vc); [lia|]. destruct (halves 21) as (d & Fd & Vd); [lia|].
  pose proof (V_nonneg load). pose proof (V_nonneg half).
  destruct (rounded_le _ _ _ _ (fmul_rounded _ _ Fh Hl) FA) as (Fa & Va); [rewrite <- EA; nia|].
  assert (Hb : V load <= V one) by lia. pose proof (fsub_rounded one load F1 Hl Hb) as Rb.
  destruct (rounded_le _ _ _ one Rb F1) as (Fb & _); [lia|].
  pose proof (rounded_ge _ _ _ _ Rb FB Fb ltac:(lia)) as Vb.
  destruct (rounded_le _ _ _ _ (fdiv_rounded _ _ Fa Fb ltac:(lia)) Fc) as (Fq & Vq).
  { apply (Z.mul_le_mono_pos_l _ _ 2); [done|]. rewrite Z.mul_assoc, (Z.mul_assoc 2 (V c)), Vc. nia. }
  pose proof (fadd_rounded _ _ F1 Fq) as Rm. pose proof (V_nonneg (fdiv (fmul half load) (fsub one load))).
  destruct (rounded_le _ _ _ _ Rm Fd) as (Fm & Vm); [lia|]. pose proof (rounded_ge _ _ _ _ Rm F1 Fm ltac:(lia)) as Vm'.
  destruct (of_Z_V zll) as (Fz & Vz); [lia|]. pose proof (fmul_rounded _ _ Fm Fz) as Rr. rewrite Vz in Rr.
  destruct (halves (21 * zll)) as (g & Fg & Vg); [lia|].
  destruct (rounded_le _ _ _ _ Rr Fg) as (Fr & Vr); [apply scale_hi; lia|].
  pose proof (rounded_ge _ _ _ _ Rr Fz Fr) as Vr'. rewrite Vz, <- E1 in Vr'. specialize (Vr' (scale_lo _ zll _ Vm' ltac:(lia) ltac:(lia))).
  rewrite (to_Z_V _ Fr). set (v := V (fmul (fadd _ _) _)) in *. rewrite E1 in Vr'.
  assert (Hlo : zll <= v / one_unit) by (apply Z.div_le_lower_bound; lia).
  pose proof (half_of_div v zll one_unit Hu ltac:(lia)) as Hhi. rewrite u32_id by (unfold in_u32; lia). split; [exact Hlo|exact Hhi].
Qed.

Record md1_ok (zll : Z) (m : MD1Memory) : Prop := {
  ok_zll : zeroLoadLatency m = zll;
  ok_range : 0 < zll < 2 ^ 28;
  ok_max : fin (maxRequestsPerCycle m) /\ 0 < V (maxRequestsPerCycle m);
  ok_smoothed : fin (smoothedPhaseAccesses m) /\ V (smoothedPhaseAccesses m) <= 2 ^ 33 * one_unit;
  ok_cur : 0 <= curPhaseAccesses m < 2 ^ 32;
  ok_latency : zll <= curLatency m /\ 2 * curLatency m <= 21 * zll
}.

Lemma md1_update_ok zll np pl m : md1_ok zll m -> md1_ok zll (updateLatency np pl m).
Proof.
  intros [H1 H2 [H3 H3'] [H4 H4'] H5 H6]. unfold updateLatency. set (pc := u32 _).
  destruct (Z.ltb_spec pc 10000); [by constructor|]. pose proof (u32_range (u64 (u64 (np - lastPhase m) * pl))) as Hpc.
  fold pc in Hpc. destruct (smooth_bound _ _ H5 H4 H4') as (Fs & Vs).
  destruct (clamped_load _ _ pc Fs Vs H3 H3') as (Fl & Vl); [unfold in_u32 in Hpc; lia|].
  constructor; cbn; rewrite ?H1; try done. by apply latency_bounds.
Qed.

Lemma refresh_ok zll np pl m : md1_ok zll m -> md1_ok zll (refresh np pl m).
Proof. intros Hm. unfold refresh. case_match; [by apply md1_update_ok|done]. Qed.

Lemma md1_access_ok zll np pl req m : md1_ok zll m -> md1_ok zll (access np pl req m).2.
Proof.
  intros Hm. unfold access. destruct (refresh_ok zll np pl m Hm) as [H1 H2 H3 H4 H5 H6]. set (m' := refresh np pl m) in *.
  pose proof (u32_range (curPhaseAccesses m' + 1)). destruct (type req); by constructor.
Qed.


Lemma newMD1_ok rs mhz mbps zll m : 0 < rs < 2 ^ 32 -> 0 < mhz < 2 ^ 32 -> 0 <= mbps < 2 ^ 32 -> 0 < zll < 2 ^ 28 ->
  newMD1 rs mhz mbps zll = Ok m -> md1_ok zll m.
Proof.
  intros Hr Hm Hb Hz. unfold newMD1. set (x := fdiv (fdiv _ _) _). destruct (flt (S754_zero false) x) eqn:E; [|done].
  intros [= <-]. pose proof one_unit_pos as Hu.
  destruct (of_Z_V rs) as (Fr & Vr); [lia|]. destruct (of_Z_V mhz) as (Fm & Vm); [lia|]. destruct (of_Z_V mbps) as (Fb & Vb); [lia|].
  destruct (of_Z_V (2 ^ 32)) as (F2 & V2); [lia|].
  destruct (rounded_le _ _ _ (of_Z (2 ^ 32)) (fdiv_rounded _ _ Fb Fm ltac:(nia)) F2) as (Fq & Vq); [rewrite V2, Vb, Vm; apply quotient_le; lia|].
  destruct (rounded_le _ _ _ (of_Z (2 ^ 32)) (fdiv_rounded _ _ Fq Fr ltac:(nia)) F2) as (Fx & _).
  { rewrite V2 in *. rewrite Vr. apply quotient_le'; lia. }
  fold x in Fx. assert (F0 : fin (S754_zero false)) by (split; [exact Logic.I|reflexivity]).
  rewrite (flt_V _ _ F0 Fx) in E. apply Z.ltb_lt in E.
  assert (V (S754_zero false) = 0) as V0 by reflexivity. rewrite V0 in E.
  constructor; cbn [zeroLoadLatency maxRequestsPerCycle smoothedPhaseAccesses curPhaseAccesses curLatency]; try lia; [split; assumption|].
  rewrite V0. split; [assumption|lia].
Qed.

(** ** The weave memories *)

Lemma wp_on_sim {X A} (m : prog Timing.sim A) (w : Timing.sim * X) (Q : A -> Timing.sim * X -> Prop) :
  wp m w.1 (fun a s => Q a (s, w.2)) -> wp (TimingAccess.on_sim m) w Q.
Proof. unfold wp, TimingAccess.on_sim. by destruct (m w.1) as [[a s]|]. Qed.

Definition with_record (src : nat) (tr : Timing.TimingRecord) (s : Timing.sim) : Timing.sim :=
  let r := Timing.recorders s src in
  Timing.mkSim (Timing.ev s) (Timing.numEvents s) (<[src := Timing.mkER tr (Timing.srcId r) (Timing.lastGapCycles r) (Timing.lastStartSlack r)]> (Timing.recorders s))
    (Timing.domains s) (Timing.numDomains s) (Timing.limit s) (Timing.lastLimit s) (Timing.inCSim s) (Timing.phaseLength s).

Lemma wp_push_record src tr s (Q : unit -> Timing.sim -> Prop) :
  Timing.hasRecord (Timing.recorders s src) = false -> Timing.isValid tr = true -> Q tt (with_record src tr s) ->
  wp (TimingAccess.push src tr) s Q.
Proof.
  intros H1 H2 HQ. unfold TimingAccess.push. apply wp_bind, wp_gets, wp_bind.
  eapply wp_lift; [unfold Timing.pushRecord; unfold Timing.hasRecord in H1; rewrite H1, H2; reflexivity|].
  apply wp_modify. exact HQ.
Qed.

(** What an access leaves: the response the core is told, and with a recorder an event whose
    delays and latency together are the latency of the memory. *)
Record weave_result {X} (hasRec : bool) (zll bound domain : Z) (req : MemReq) (lat : Z) (w : Timing.sim * X)
    (r : Z * option (nat * Z)) (w' : Timing.sim * X) : Prop := {
  wr_resp : r.1 = cycle req + (if bool_decide (type req = PUTS) then 0 else bound);
  wr_none : r.2 = None -> (type req = PUTS \/ hasRec = false) /\ w' = w;
  wr_some : forall e l, r.2 = Some (e, l) ->
    type req <> PUTS /\ e = Timing.numEvents w.1 /\ w'.2 = w.2 /\
    Timing.er_tr (Timing.recorders w'.1 (Z.to_nat (srcId req))) = Timing.mkTR (lineAddr req) (cycle req) r.1 (type req) (Some e) (Some e) /\
    Timing.ekind (Timing.ev w'.1 e) = Timing.Simple /\ Timing.minStartCycle (Timing.ev w'.1 e) = cycle req /\
    Timing.domain (Timing.ev w'.1 e) = domain /\ Timing.numParents (Timing.ev w'.1 e) = 0 /\ 0 <= l /\
    Timing.preDelay (Timing.ev w'.1 e) + l + Timing.postDelay (Timing.ev w'.1 e) = lat
}.

Lemma weave_access_ok {X} hasRec zll bound domain req lat (w : Timing.sim * X) :
  0 < zll <= lat -> 0 <= bound <= lat -> lat < 2 ^ 32 -> 0 <= cycle req -> cycle req + lat < 2 ^ 64 ->
  Timing.hasRecord (Timing.recorders w.1 (Z.to_nat (srcId req))) = false ->
  wp (weave_access hasRec zll bound domain req (cycle req + (if bool_decide (type req = PUTS) then 0 else lat))) w
    (weave_result hasRec zll bound domain req lat w).
Proof.
  intros Hz Hb Hl Hc Hc' Hrec. unfold weave_access. set (puts := bool_decide _) in *.
  assert (E1 : u64 (cycle req + (if puts then 0 else bound)) = cycle req + (if puts then 0 else bound)).
  { apply u64_id. unfold in_u64. destruct puts; lia. }
  rewrite E1. replace (cycle req + (if puts then 0 else lat) - cycle req) with (if puts then 0 else lat) by lia.
  apply wp_bind, wp_require; [apply Z.leb_le; destruct puts; lia|].
  apply wp_bind, wp_require; [destruct puts; [done|]; rewrite u32_id by (unfold in_u32; lia); apply Z.leb_le; lia|].
  destruct (puts) eqn:Ep; cbn [negb andb].
  { apply wp_ret. split; cbn; [subst puts; rewrite Ep; lia| |done]. apply bool_decide_eq_true in Ep. auto. }
  apply bool_decide_eq_false in Ep. destruct hasRec.
  2:{ apply wp_ret. split; cbn; [rewrite bool_decide_eq_false_2 by done; lia|auto|done]. }
  assert (0 <= zll / 2 <= zll) by (split; [apply Z.div_pos|apply Z.div_le_upper_bound]; lia).
  rewrite (u32_id lat), !u32_id by (unfold in_u32; lia). apply wp_bind, wp_on_sim. cbn. apply wp_bind, wp_on_sim.
  apply wp_push_record; [done|done|]. apply wp_ret. split; cbn.
  - rewrite bool_decide_eq_false_2 by done. lia.
  - done.
  - intros e l [= <- <-]. rewrite !fn_lookup_insert. cbn. split_and!; try done; lia.
Qed.

Lemma access_shape zll np pl req m : md1_ok zll m -> 0 <= cycle req -> cycle req + 2 ^ 33 < 2 ^ 64 ->
  exists m', access np pl req m = (grant (type req) (flags req), cycle req + (if bool_decide (type req = PUTS) then 0 else curLatency m'), m') /\
    md1_ok zll m'.
Proof.
  intros Hm Hc Hc'. pose proof (md1_access_ok zll np pl req m Hm) as Hok. unfold access in *.
  pose proof (refresh_ok zll np pl m Hm) as Hm1. set (m1 := refresh np pl m) in *.
  assert (E : type req <> PUTS -> u64 (cycle req + curLatency m1) = cycle req + curLatency m1).
  { intros Hp. destruct Hm1. apply u64_id. unfold in_u64. lia. }
  destruct (type req) eqn:Et; eexists; (split; [|exact Hok]); cbn [snd] in *.
  - by rewrite E, bool_decide_eq_false_2.
  - by rewrite E, bool_decide_eq_false_2.
  - rewrite bool_decide_eq_true_2 by done. by rewrite Z.add_0_r.
  - by rewrite E, bool_decide_eq_false_2.
Qed.

(** The states of the memory of a machine, whatever its cores ask for and when. *)
Inductive md1_reach (requestSize mhz mbps zll : Z) : MD1Memory -> Prop :=
  | md1_new m : newMD1 requestSize mhz mbps zll = Ok m -> md1_reach requestSize mhz mbps zll m
  | md1_access np pl req m : md1_reach requestSize mhz mbps zll m -> md1_reach requestSize mhz mbps zll (access np pl req m).2.

Lemma reach_ok rs mhz mbps zll m : 0 < rs < 2 ^ 32 -> 0 < mhz < 2 ^ 32 -> 0 <= mbps < 2 ^ 32 -> 0 < zll < 2 ^ 28 ->
  md1_reach rs mhz mbps zll m -> md1_ok zll m.
Proof. intros Hr Hm Hb Hz H. induction H; [by apply (newMD1_ok rs mhz mbps)|by apply md1_access_ok]. Qed.

(** C38: The latency of an MD1 memory stays, whatever is asked of it and in whatever phases, between
    its unloaded latency and ten times and a half that; the memory built on it for the weave phase,
    if it is told to charge the core no more than the unloaded latency in the bound phase
    ([bound <= zll], which nothing checks; otherwise [bound_above_unloaded]), trips no
    assertion, gives the requester the state it asked for, and records an event whose delays and
    latency add up to the latency of the memory. *)
Theorem weave_md1_safe rs mhz mbps zll bound domain hasRec np pl req m s :
  0 < rs < 2 ^ 32 -> 0 < mhz < 2 ^ 32 -> 0 <= mbps < 2 ^ 32 -> 0 < zll < 2 ^ 28 -> 0 <= bound <= zll ->
  md1_reach rs mhz mbps zll m -> 0 <= cycle req -> cycle req + 2 ^ 33 < 2 ^ 64 ->
  Timing.hasRecord (Timing.recorders s (Z.to_nat (srcId req))) = false ->
  wp (WeaveMD1_access hasRec bound domain np pl req) (s, m) (fun r w' => exists m',
    md1_reach rs mhz mbps zll m' /\ zll <= curLatency m' /\ 2 * curLatency m' <= 21 * zll /\
    r.1.1 = grant (type req) (flags req) /\
    weave_result hasRec zll bound domain req (curLatency m') (s, m') (r.1.2, r.2) w').
Proof.
  intros Hrs Hmhz Hmbps Hzll Hb Hreach Hc Hc' Hrec. pose proof (reach_ok rs mhz mbps zll m Hrs Hmhz Hmbps Hzll Hreach) as Hok.
  pose proof (md1_access rs mhz mbps zll np pl req m Hreach) as Hreach'.
  destruct (access_shape zll np pl req m Hok Hc Hc') as (m' & Ea & Hok'). rewrite Ea in Hreach'. cbn in Hreach'.
  unfold WeaveMD1_access. apply wp_bind, wp_gets. cbn [snd]. rewrite Ea. apply wp_bind, wp_modify, wp_bind. cbn [fst].
  rewrite (ok_zll _ _ Hok). destruct Hok'.
  eapply wp_mono; [apply weave_access_ok; [lia..|exact Hrec]|]. intros [resp e] w' Hw. apply wp_ret.
  exists m'. split_and!; [exact Hreach'|lia|lia|reflexivity|exact Hw].
Qed.

Definition ex_req : MemReq := MemHier.mkReq 7 GETS 0 MemHier.Local 1000 MemHier.I 0 0.
Definition ex_md1 : MD1Memory := mkMD1 0 (fdiv (fdiv (of_Z 6400) (of_Z 2000)) (of_Z 64)) (S754_zero false) 100 100 0 (mkCnt 0 0 0 0 0 0 0).

Lemma weave_md1_safe_witness :
  md1_reach 64 2000 6400 100 ex_md1 /\
  wp (WeaveMD1_access true 60 2 0 10000 ex_req) (TimingAccess.s0, ex_md1) (fun r w' => r.1.1 = MemHier.E /\ r.1.2 = 1060 /\
    exists m', 100 <= curLatency m' <= 1050).
Proof.
  assert (H : md1_reach 64 2000 6400 100 ex_md1) by (apply md1_new; vm_compute; reflexivity). split; [exact H|].
  eapply wp_mono.
  - apply (weave_md1_safe 64 2000 6400 100 60 2 true 0 10000 ex_req ex_md1 TimingAccess.s0 ltac:(lia) ltac:(lia) ltac:(lia) ltac:(lia)
      ltac:(lia) H ltac:(cbn; lia) ltac:(cbn; lia) ltac:(reflexivity)).
  - intros r w' (m' & _ & H1 & H2 & H3 & Hw). split; [exact H3|]. split; [exact (wr_resp _ _ _ _ _ _ _ _ _ Hw)|]. exists m'. lia.
Defined.

(** What it computes there. *)
Example ex_access :
  match WeaveMD1_access true 60 2 0 10000 ex_req (TimingAccess.s0, ex_md1) with
  | Ok ((st, resp, ev), w') => st = MemHier.E /\ resp = 1060 /\ ev = Some (0%nat, 0)
  | Fail _ => False
  end.
Proof. vm_compute. auto. Qed.

(** Told to charge more than the unloaded latency, the memory trips its assertion at the first
    read of a machine that is not loaded: the configuration is not checked. *)
Lemma bound_above_unloaded {X} zll bound domain hasRec req (w : Timing.sim * X) : 0 < zll < bound -> type req <> PUTS -> 0 <= cycle req ->
  cycle req + bound < 2 ^ 64 -> weave_access hasRec zll bound domain req (cycle req + zll) w = Fail AssertFailed.
Proof.
  intros Hz Ht Hc Hb. unfold weave_access. rewrite bool_decide_eq_false_2 by done. rewrite u64_id by (unfold in_u64; lia).
  assert (cycle req + bound <=? cycle req + zll = false) as -> by (apply Z.leb_gt; lia). reflexivity.
Qed.

(** The constructor of the simple one checks it, and its accesses are safe. *)
Lemma weave_simple_safe latency zll m domain hasRec req s : 0 < zll -> 0 < latency < 2 ^ 32 -> newWeaveSimple latency zll = Ok m ->
  0 <= cycle req -> cycle req + 2 ^ 33 < 2 ^ 64 -> type req <> PUTS ->
  Timing.hasRecord (Timing.recorders s (Z.to_nat (srcId req))) = false ->
  wp (WeaveSimple_access hasRec domain req) (s, m) (fun r w' =>
    r.1.1 = grant (type req) (flags req) /\ weave_result hasRec zll zll domain req latency (s, m) (r.1.2, r.2) w').
Proof.
  intros Hz Hl Hm Hc Hc' Ht Hrec. unfold newWeaveSimple in Hm. destruct (Z.leb_spec zll latency); [|done]. injection Hm as <-.
  unfold WeaveSimple_access. apply wp_bind, wp_gets, wp_bind. cbn [snd ws_latency ws_zeroLoadLatency].
  unfold MemHier.SimpleMemory_access. rewrite u64_id by (unfold in_u64; lia).
  eapply wp_lift; [rewrite (proj2 (Z.ltb_lt _ _)) by lia; reflexivity|]. apply wp_bind.
  pose proof (weave_access_ok hasRec zll zll domain req latency (s, mkWS latency zll)) as Hw.
  rewrite bool_decide_eq_false_2 in Hw by done.
  eapply wp_mono; [apply Hw; [lia..|exact Hrec]|]. intros [resp e] w' Hr. apply wp_ret. done.
Qed.

(** ** Tick events *)
Lemma run_simple e c s : Timing.ekind (Timing.ev s e) = Timing.Simple ->
  Timing.state (Timing.ev s e) = Timing.EV_NONE \/ Timing.state (Timing.ev s e) = Timing.EV_QUEUED ->
  Timing.minStartCycle (Timing.ev s e) <= c ->
  exists s', Timing.run (fun _ _ => mret tt) 0 e c s = Ok (tt, s') /\
    Timing.ev s' e = Timing.set_state Timing.EV_RUNNING (Timing.ev s e).
Proof.
  intros Hk Hs Hm.
  assert (wp (Timing.run (fun _ _ => mret tt) 0 e c) s (fun _ s' => Timing.ev s' e = Timing.set_state Timing.EV_RUNNING (Timing.ev s e))) as H.
  { unfold Timing.run. apply wp_bind, wp_gets, wp_bind, wp_require; [by apply bool_decide_eq_true|].
    apply wp_bind, wp_modify, wp_bind, wp_gets. cbn [Timing.ev]. rewrite fn_lookup_insert.
    apply wp_bind, wp_require; [by apply Z.leb_le|]. apply wp_bind, wp_gets. cbn [Timing.ev]. rewrite fn_lookup_insert. cbn. rewrite Hk. apply wp_ret.
    cbn. by rewrite fn_lookup_insert. }
  apply wp_Ok in H. destruct H as ([] & s' & H1 & H2). eauto.
Qed.

Lemma run_running e c s : Timing.state (Timing.ev s e) = Timing.EV_RUNNING -> Timing.run (fun _ _ => mret tt) 0 e c s = Fail AssertFailed.
Proof. intros H. unfold Timing.run, mbind, prog_bind. cbn. by rewrite H. Qed.

Section TickFacts.
Context {X : Type} (tick : Z -> prog X Z).

(** Once an object's tick has returned zero the event is inactive but still running, and the
    next time it is queued and run it trips the assertion of [run]. *)
Lemma tick_restart_fails e c s b (x x' : X) :
  tick c x = Ok (0, x') -> Timing.ekind (Timing.ev s e) = Timing.Simple ->
  Timing.state (Timing.ev s e) = Timing.EV_NONE \/ Timing.state (Timing.ev s e) = Timing.EV_QUEUED ->
  Timing.minStartCycle (Timing.ev s e) <= c ->
  exists s', tick_run tick e c (s, (b, x)) = Ok (tt, (s', (false, x'))) /\
    forall c' b', tick_run tick e c' (s', (b', x')) = Fail AssertFailed.
Proof.
  intros Ht Hk Hs Hmin. destruct (run_simple e c s Hk Hs Hmin) as (s' & E & Ev). exists s'. split.
  - unfold tick_run, mbind, prog_bind, TimingAccess.on_sim. cbn [fst snd]. rewrite E. unfold tick_simulate, on_obj, mbind, prog_bind.
    cbn [fst snd]. rewrite Ht. reflexivity.
  - intros c' b'. unfold tick_run, mbind, prog_bind, TimingAccess.on_sim. cbn [fst snd]. rewrite run_running; [done|]. by rewrite Ev.
Qed.

(** A tick that asks for a delay is queued for the cycle it asked for, and stays active. *)
Lemma tick_again e c s b d (x x' : X) :
  tick c x = Ok (d, x') -> d <> 0 -> Timing.ekind (Timing.ev s e) = Timing.Simple ->
  Timing.state (Timing.ev s e) = Timing.EV_NONE \/ Timing.state (Timing.ev s e) = Timing.EV_QUEUED ->
  Timing.minStartCycle (Timing.ev s e) <= c ->
  exists s', Timing.ev s' e = Timing.set_state Timing.EV_RUNNING (Timing.ev s e) /\
    tick_run tick e c (s, (b, x)) = TimingAccess.on_sim (Timing.requeue e (u64 (c + d))) (s', (b, x')).
Proof.
  intros Ht Hd Hk Hs Hmin. destruct (run_simple e c s Hk Hs Hmin) as (s' & E & Ev). exists s'. split; [done|].
  unfold tick_run, mbind, prog_bind, TimingAccess.on_sim at 1. cbn [fst snd]. rewrite E. unfold tick_simulate, on_obj, mbind, prog_bind.
  cbn [fst snd]. rewrite Ht. by rewrite (proj2 (Z.eqb_neq d 0) Hd).
Qed.
End TickFacts.

End WeaveMem.
