(* ===== verification/IdealLRU.v ===== *)
(** The fully associative array with LRU replacement (ideal_arrays.h): an instance of the
    interface of Cache, and equivalent to the reference LRU cache of UMon as long as no line
    has address zero.  Lists are the sequences that InList shows its lists compute. *)
From S2P Require Import Prelude MemHier CacheArrays Cache UMon.
Import MemHier (GETS, GETX, PUTS, PUTX, MemReq, IsGet, type).

Module IdealLRU.
#[local] Existing Instance MemHier.AccessType_eq_dec.

(** [InList::remove] fails on an entry of another list; [push_front] on a linked one. *)
Definition remove (e : Z) (l : list Z) : res (list Z) :=
  _ ← assert_that (bool_decide (e ∈ l)); Ok (filter (fun x => x <> e) l).
Definition push_front (e : Z) (l : list Z) : res (list Z) :=
  _ ← assert_that (bool_decide (e ∉ l)); Ok (e :: l).
Definition back (l : list Z) : option Z := last l.

(** [entries]: the field [lineAddr] of the elements of [array]. *)
Record IdealLRUArray := mkArr {
  entries : Z -> Z;
  lruList : list Z;
  lineMap : gmap Z Z;
  numLines : nat
}.

Definition new (numLines : nat) : res IdealLRUArray :=
  l ← foldM (fun l i => push_front i l) [] (seqZ 0 (Z.of_nat numLines));
  Ok (mkArr (fun _ => 0) l ∅ numLines).

Definition to_front (id : Z) (a : IdealLRUArray) : res IdealLRUArray :=
  l ← remove id (lruList a);
  l ← push_front id l;
  Ok (mkArr (entries a) l (lineMap a) (numLines a)).

Definition lookup (lineAddr : Z) (req : MemReq) (updateReplacement : bool) (a : IdealLRUArray) : res (Z * IdealLRUArray) :=
  match lineMap a !! lineAddr with
  | None => Ok (-1, a)
  | Some lineId =>
      if updateReplacement then a ← to_front lineId a; Ok (lineId, a) else Ok (lineId, a)
  end.

(** The line, and the address it holds.  An array with no lines has no last entry to read. *)
Definition preinsert (lineAddr : Z) (req : MemReq) (a : IdealLRUArray) : res (Z * Z * IdealLRUArray) :=
  match back (lruList a) with
  | Some e => Ok (e, entries a e, a)
  | None => Fail AssertFailed
  end.

Definition postinsert (lineAddr : Z) (req : MemReq) (lineId : Z) (a : IdealLRUArray) : res IdealLRUArray :=
  let m := delete (entries a lineId) (lineMap a) in
  _ ← assert_that (bool_decide (m !! lineAddr = None));
  to_front lineId (mkArr (<[lineId := lineAddr]> (entries a)) (lruList a) (<[lineAddr := lineId]> m) (numLines a)).

(** The second level of a compressed cache is not there: its operations return 0. *)
Definition lookupL2 (lineAddr : Z) (req : MemReq) (updateReplacement : bool) (a : IdealLRUArray) : Z := 0.
Definition preinsertL2 (lineAddr : Z) (req : MemReq) (a : IdealLRUArray) : Z := 0.
Definition postinsertL2 (lineAddr : Z) (req : MemReq) (lineId : Z) (a : IdealLRUArray) : IdealLRUArray := a.

#[export] Instance ideal_array : CacheArray IdealLRUArray := {
  ca_lookup := lookup;
  ca_preinsert := fun _ => preinsert;
  ca_postinsert := postinsert
}.

(** ** The invariant

    The map is the inverse of the entries that are filled, and every entry is in the list. *)
Record good (n : nat) (a : IdealLRUArray) : Prop := {
  g_lines : numLines a = n;
  g_list : NoDup (lruList a) /\ forall x, x ∈ lruList a <-> 0 <= x < Z.of_nat n;
  g_map : forall addr id, lineMap a !! addr = Some id <-> addr <> 0 /\ 0 <= id < Z.of_nat n /\ entries a id = addr
}.

Lemma moved_front (l : list Z) e : NoDup l -> e ∈ l ->
  NoDup (e :: filter (fun x => x <> e) l) /\ forall x, x ∈ e :: filter (fun x => x <> e) l <-> x ∈ l.
Proof.
  intros Hd He. split.
  - apply NoDup_cons. split; [|by apply NoDup_filter]. rewrite list_elem_of_filter. naive_solver.
  - intros x. rewrite elem_of_cons, list_elem_of_filter. destruct (decide (x = e)) as [->|]; naive_solver.
Qed.

Lemma lru_to_front_ok a e : e ∈ lruList a ->
  to_front e a = Ok (mkArr (entries a) (e :: filter (fun x => x <> e) (lruList a)) (lineMap a) (numLines a)).
Proof.
  intros He. unfold to_front, remove, push_front. rewrite bool_decide_eq_true_2 by done. cbn.
  rewrite bool_decide_eq_true_2; [done|]. rewrite list_elem_of_filter. naive_solver.
Qed.

Lemma to_front_good n a e a' : good n a -> e ∈ lruList a ->
  a' = mkArr (entries a) (e :: filter (fun x => x <> e) (lruList a)) (lineMap a) (numLines a) -> good n a'.
Proof.
  intros [H1 [H2 H3] H4] He ->. destruct (moved_front (lruList a) e H2 He) as (Hd & Hi). split; cbn; [done| |done].
  split; [done|]. intros x. by rewrite Hi.
Qed.

Lemma good_unique n a x y : good n a -> 0 <= x < Z.of_nat n -> 0 <= y < Z.of_nat n -> entries a x = entries a y -> entries a x <> 0 -> x = y.
Proof.
  intros [_ _ H] Hx Hy He H0. assert (lineMap a !! entries a x = Some x) as E1 by (by apply H).
  assert (lineMap a !! entries a x = Some y) as E2 by (apply H; auto). congruence.
Qed.

Lemma absent n a addr : good n a -> addr <> 0 -> lineMap a !! addr = None <-> forall x, 0 <= x < Z.of_nat n -> entries a x <> addr.
Proof.
  intros [_ _ H] H0. split.
  - intros E x Hx He. assert (lineMap a !! addr = Some x) by (by apply H). congruence.
  - intros Hn. destruct (lineMap a !! addr) as [id|] eqn:E; [|done]. apply H in E as (_ & Hid & He). by destruct (Hn id Hid).
Qed.

Lemma lru_postinsert_ok n a id addr req : good n a -> addr <> 0 -> 0 <= id < Z.of_nat n ->
  (forall x, 0 <= x < Z.of_nat n -> entries a x <> addr) ->
  exists a', postinsert addr req id a = Ok a' /\ good n a' /\ entries a' = <[id := addr]> (entries a) /\
    lruList a' = id :: filter (fun x => x <> id) (lruList a).
Proof.
  intros Hg H0 Hid Hn. pose proof (proj2 (absent n a addr Hg H0) Hn) as Habs. destruct Hg as [H1 [H2 H3] H4]. unfold postinsert.
  rewrite bool_decide_eq_true_2 by (by apply lookup_delete_None; right). cbn [assert_that mbind res_bind].
  rewrite lru_to_front_ok by (cbn; by apply H3). eexists. split; [done|].
  assert (Hin : id ∈ lruList a) by (by apply H3). destruct (moved_front (lruList a) id H2 Hin) as (Hd & Hi).
  split; [|done]. split; cbn; [done|split; [done|intros x; by rewrite Hi]|].
  intros addr' id'. destruct (decide (addr' = addr)) as [->|Hne].
  - rewrite lookup_insert_eq. split; [intros [= <-]; rewrite fn_lookup_insert; done|].
    intros (_ & Hid' & He). destruct (decide (id' = id)) as [->|Hne']; [done|]. rewrite fn_lookup_insert_ne in He by done. by destruct (Hn id').
  - rewrite lookup_insert_ne by done. destruct (decide (id' = id)) as [->|Hne'].
    + rewrite fn_lookup_insert. split; [|intros (_ & _ & <-); done]. rewrite lookup_delete_Some, H4. intros (Hx & _ & _ & He). done.
    + rewrite fn_lookup_insert_ne by done. rewrite lookup_delete_Some, H4. split; [tauto|]. intros (Ha & Hb & Hc). split; [|done].
      intros He. apply Hne'. symmetry. apply (good_unique n a); [by split|done|done|congruence|congruence].
Qed.

Definition ideal_laws (n : nat) : CacheArrayLaws IdealLRUArray.
Proof.
  refine {|
  ca_size := Z.of_nat n;
  ca_line := entries;
  ca_inv a := good n a /\ (0 < n)%nat;
  ca_mid a id addr := good n a /\ (0 < n)%nat /\ forall x, 0 <= x < Z.of_nat n -> entries a x <> addr
  |}.
  - intros a x y [Hg _]. by apply good_unique.
  - intros addr req upd a [Hg Hn] Ha _. cbn. unfold lookup. destruct (lineMap a !! addr) as [id|] eqn:E.
    + destruct Hg as [H1 [H2 H3] H4]. pose proof (proj1 (H4 _ _) E) as (_ & Hid & He).
      assert (Hin : id ∈ lruList a) by (by apply H3). destruct upd.
      * rewrite lru_to_front_ok by done. cbn. eexists _, _. split; [done|]. split; [|split; [done|by right]].
        split; [|done]. by eapply to_front_good; [split| |].
      * eexists _, _. split; [done|]. split; [|split; [done|by right]]. split; [by split|done].
    + eexists _, _. split; [done|]. split; [done|]. split; [done|]. left. split; [done|]. by apply (absent n a addr Hg); [lia|].
  - intros addr req a id a'. cbn. unfold lookup. by destruct (lineMap a !! addr); intros [= _ <-].
  - intros cc addr req a [Hg Hn] Ha Habs. cbn. unfold preinsert, back. destruct Hg as [H1 [H2 H3] H4].
    destruct (last (lruList a)) as [e|] eqn:E.
    + assert (e ∈ lruList a) as Hin by (by apply last_Some_elem_of). eexists _, _, _. split; [done|].
      split; [split; [by split|by split]|]. split; [by apply H3|done].
    + apply last_None in E. assert (0 ∈ lruList a) as Hin by (apply H3; lia). rewrite E in Hin. by apply elem_of_nil in Hin.
  - intros addr req id a (Hg & Hn & Habs) Hid Ha _. cbn.
    destruct (lru_postinsert_ok n a id addr req Hg ltac:(lia) Hid Habs) as (a' & E & Hg' & He & _). exists a'. split; [done|]. split; [done|].
    intros x. rewrite He. case_decide as Hx; [subst x; by rewrite fn_lookup_insert|by rewrite fn_lookup_insert_ne].
Qed.

(** The cache named l2-0 calls the second-level operations: with this array every access of
    it hits line 0, whatever the address.  [wb] is what the caller's variable held. *)
Definition ideal_arrayL2 (wb : Z) : Cache.CacheArrayL2 IdealLRUArray := {|
  Cache.ca_lookupL2 addr req upd a := Ok (lookupL2 addr req upd a, a);
  Cache.ca_preinsertL2 _ addr req a := Ok (preinsertL2 addr req a, wb, a);
  Cache.ca_postinsertL2 addr req id a := Ok (postinsertL2 addr req id a)
|}.

Lemma second_level_always_hits addr req upd a wb : @Cache.ca_lookupL2 _ (ideal_arrayL2 wb) addr req upd a = Ok (0, a).
Proof. done. Qed.

(** ** The reference LRU cache *)

(** An access as Cache makes it: the lookup, and on a miss the replacement. *)
Definition serve (lineAddr : Z) (a : IdealLRUArray) : res (Z * IdealLRUArray) :=
  let req := MemHier.mkReq lineAddr GETS 0 MemHier.Local 0 MemHier.I 0 0 in
  '(id, a) ← lookup lineAddr req true a;
  if id =? -1 then
    '(id, _, a) ← preinsert lineAddr req a;
    a ← postinsert lineAddr req id a; Ok (1, a)
  else Ok (0, a).

(** The number of misses of a sequence of accesses, and the array after it. *)
Fixpoint run (l : list Z) (a : IdealLRUArray) : res (Z * IdealLRUArray) :=
  match l with
  | [] => Ok (0, a)
  | x :: l => '(m, a) ← serve x a; '(k, a) ← run l a; Ok (m + k, a)
  end.

Lemma lru_push_front_ok e l : e ∉ l -> push_front e l = Ok (e :: l).
Proof. intros He. unfold push_front. by rewrite bool_decide_eq_true_2. Qed.

Lemma fill_list l : forall acc, NoDup (l ++ acc) -> foldM (fun l i => push_front i l) acc l = Ok (reverse l ++ acc).
Proof.
  induction l as [|x l IH]; intros acc Hd; [done|]. cbn [foldM]. pose proof Hd as Hd'. apply NoDup_cons in Hd as [Hx Hd].
  rewrite lru_push_front_ok by set_solver. cbn [mbind res_bind].
  rewrite IH; [by rewrite reverse_cons, <- app_assoc|]. by rewrite <- Permutation_middle.
Qed.

Lemma lru_new_good n : new n = Ok (mkArr (fun _ => 0) (reverse (seqZ 0 (Z.of_nat n))) ∅ n) /\
  good n (mkArr (fun _ => 0) (reverse (seqZ 0 (Z.of_nat n))) ∅ n).
Proof.
  split.
  - unfold new. rewrite fill_list; [by rewrite app_nil_r|]. rewrite app_nil_r. apply NoDup_seqZ.
  - split; cbn; [done| |].
    + split; [rewrite reverse_Permutation; apply NoDup_seqZ|]. intros x. rewrite elem_of_reverse, elem_of_seqZ. lia.
    + intros addr id. rewrite lookup_empty. split; [done|]. intros (H0 & _ & H). by destruct H0.
Qed.

(** The addresses from the most recently used one, with 0 for each entry not filled. *)
Definition stack (a : IdealLRUArray) : list Z := entries a <$> lruList a.

Lemma fmap_ext_in (f g : Z -> Z) (l : list Z) : (forall x, x ∈ l -> f x = g x) -> f <$> l = g <$> l.
Proof. intros H. apply list_fmap_ext. intros i x Hx. apply H. by eapply list_elem_of_lookup_2. Qed.

Lemma serve_touch n a x : good n a -> (0 < n)%nat -> x <> 0 ->
  exists a', serve x a = Ok (if decide (x ∈ stack a) then 0 else 1, a') /\ good n a' /\ stack a' = UMon.touch x (stack a).
Proof.
  intros Hg Hn Hx. unfold serve, lookup. set (req := MemHier.mkReq _ _ _ _ _ _ _ _). pose proof Hg as [H1 [H2 H3] H4].
  destruct (lineMap a !! x) as [id|] eqn:E.
  - pose proof (proj1 (H4 _ _) E) as (_ & Hid & He). assert (Hin : id ∈ lruList a) by (by apply H3).
    rewrite lru_to_front_ok by done. cbn [mbind res_bind]. rewrite (proj2 (Z.eqb_neq id (-1))) by lia.
    rewrite decide_True by (unfold stack; rewrite <- He; by apply list_elem_of_fmap_2). eexists. split; [done|].
    split; [by eapply to_front_good|]. unfold stack, UMon.touch. cbn [entries lruList].
    apply list_elem_of_lookup in Hin as [k Hk].
    assert (UMon.first x (entries a <$> lruList a) = Some k) as ->.
    { apply UMon.first_Some. rewrite list_lookup_fmap, Hk. split; [cbn; congruence|]. intros j y Hj Hy Hyx.
      rewrite list_lookup_fmap in Hy. destruct (lruList a !! j) as [id'|] eqn:Ej; [|done]. injection Hy as Hy.
      assert (id' = id) as ->.
      { apply (good_unique n a); [done|apply H3; by eapply list_elem_of_lookup_2|done|congruence|congruence]. }
      pose proof (NoDup_lookup _ _ _ _ H2 Ej Hk). lia. }
    rewrite fmap_cons, He. rewrite (UMon.filter_delete _ k) by done. by rewrite list_fmap_delete.
  - cbn [mbind res_bind Z.eqb Pos.eqb]. unfold preinsert, back. destruct (last (lruList a)) as [id|] eqn:El.
    2:{ apply last_None in El. assert (0 ∈ lruList a) as Hin by (apply H3; lia). rewrite El in Hin. by apply elem_of_nil in Hin. }
    pose proof (proj1 (absent n a x Hg Hx) E) as Habs. assert (Hin : id ∈ lruList a) by (by apply last_Some_elem_of).
    destruct (lru_postinsert_ok n a id x req Hg Hx (proj1 (H3 _) Hin) Habs) as (a' & E' & Hg' & He & Hl).
    unfold mbind, res_bind. rewrite E'. 
    assert (Hni : x ∉ stack a).
    { unfold stack. intros (y & Hy & Hyl)%list_elem_of_fmap. apply (Habs y); [by apply H3|done]. }
    rewrite decide_False by done. eexists. split; [done|]. split; [done|]. unfold stack, UMon.touch. rewrite He, Hl.
    rewrite (proj2 (UMon.first_None x (entries a <$> lruList a))) by done. rewrite fmap_cons, fn_lookup_insert. f_equal.
    rewrite last_lookup in El. rewrite length_fmap, Nat.sub_1_r, <- list_fmap_delete, (UMon.filter_delete _ (pred (length (lruList a)))) by done.
    apply fmap_ext_in. intros y Hy. rewrite fn_lookup_insert_ne; [done|]. intros ->.
    rewrite <- (UMon.filter_delete _ _ y) in Hy by done. by apply list_elem_of_filter in Hy as [Hy _].
Qed.

Lemma in_padded n L x : x <> 0 -> x ∈ UMon.padded n L <-> x ∈ L.
Proof.
  intros Hx. unfold UMon.padded. rewrite elem_of_app. split; [intros [|H]; [done|]|by left].
  by apply elem_of_replicate in H as [-> _].
Qed.

Lemma run_lru n : (0 < n)%nat -> forall l a c, good n a -> stack a = UMon.padded n (c 0%nat) -> UMon.lru_state n (c 0%nat) ->
  Forall (fun x => x <> 0) l ->
  exists a', run l a = Ok (UMon.lru_misses n c ((fun x => (0%nat, x)) <$> l), a') /\ good n a' /\
    stack a' = UMon.padded n (fold_left (fun L x => UMon.lru_touch n x L) l (c 0%nat)).
Proof.
  intros Hn l. induction l as [|x l IH]; intros a c Hg Hs HL Hl; [by exists a|]. apply Forall_cons in Hl as [Hx Hl]. cbn [run].
  destruct (serve_touch n a x Hg Hn Hx) as (a1 & E1 & Hg1 & Hs1). unfold mbind, res_bind. rewrite E1.
  rewrite Hs, UMon.touch_padded in Hs1 by done.
  destruct (IH a1 (<[0%nat := UMon.lru_touch n x (c 0%nat)]> c) Hg1) as (a2 & E2 & Hg2 & Hs2);
    [by rewrite fn_lookup_insert|rewrite fn_lookup_insert; by apply UMon.lru_state_touch|done|].
  rewrite E2. exists a2. rewrite fn_lookup_insert in Hs2. split; [|done]. do 2 f_equal. rewrite fmap_cons. cbn [UMon.lru_misses]. f_equal.
  rewrite Hs. unfold UMon.missed. destruct (decide (x ∈ c 0%nat)) as [Hi|Hi]; [rewrite decide_True|rewrite decide_False]; try done; by rewrite in_padded.
Qed.

Lemma fmap_zeros (l : list Z) : (fun _ => 0) <$> l = replicate (length l) 0.
Proof. induction l as [|x l IH]; [done|]. rewrite fmap_cons, IH. done. Qed.

(** C28: The fully associative array is the reference LRU cache: on any sequence of accesses to
    lines with nonzero addresses no operation fails, the misses are those of an LRU cache of as
    many lines, and the array holds the lines of that cache, in its order. *)
Theorem ideal_is_lru n l : (0 < n)%nat -> Forall (fun x => x <> 0) l ->
  exists a0 a, new n = Ok a0 /\ run l a0 = Ok (UMon.lru_misses n (fun _ => []) ((fun x => (0%nat, x)) <$> l), a) /\
    stack a = UMon.padded n (fold_left (fun L x => UMon.lru_touch n x L) l []).
Proof.
  intros Hn Hl. destruct (lru_new_good n) as (E & Hg).
  destruct (run_lru n Hn l _ (fun _ => []) Hg) as (a & Er & _ & Hs); [|by split; [constructor|cbn; lia|apply not_elem_of_nil]|done|eauto].
  unfold stack, UMon.padded. cbn [entries lruList length app]. rewrite Nat.sub_0_r, fmap_zeros, length_reverse, length_seqZ. by rewrite Nat2Z.id.
Qed.

(** Address 0 is what an entry never filled holds: filling it forgets the line at address 0,
    and the next access of that line misses although the array holds it. *)
Example zero_forgotten :
  match new 3 with
  | Ok a => match run [0; 7] a with
            | Ok (m, a1) => match run [0] a1 with
                            | Ok (k, a2) => (m, k, stack a1, stack a2) = (2, 1, [7; 0; 0], [0; 7; 0])
                            | Fail _ => False
                            end
            | Fail _ => False
            end
  | Fail _ => False
  end.
Proof. vm_compute. reflexivity. Qed.

Lemma ideal_is_lru_witness : exists a0 a, new 2 = Ok a0 /\ run [5; 6; 5; 7; 6] a0 = Ok (4, a) /\ stack a = [6; 7].
Proof. apply (ideal_is_lru 2 [5; 6; 5; 7; 6]); [lia|repeat constructor; done]. Defined.

End IdealLRU.
