(* ===== verification/IdealPart.v ===== *)
(** The fully associative array with LRU partitions of exact sizes (ideal_arrays.h): the
    policy that takes a victim from the partition most above its target, and the array. *)
From Stdlib Require Import Floats.SpecFloat.
From S2P Require Import Prelude MemHier Doubles DoubleRound PartMon Lookahead WayPart IdealLRU.
Import MemHier (GETS, MemReq).

Module IdealPart.
Import PartMapper Cnt Doubles DoubleRound.
Import WayPart (upd_size, set_target, inc_hits, inc_misses, inc_self, inc_ext).

(** The policy with the two fields of the array; [part] and [used] are those of the entries,
    and [lists] the LRU lists of the partitions. *)
Record IdealLRUPart (M : Type) := mkIP {
  monitor : M;
  mapper : PartMapper;
  part : Z -> nat;
  used : Z -> bool;
  partInfo : nat -> PartInfo;
  lists : nat -> list Z;
  partitions : nat;
  numLines : Z;
  numBuckets : Z;
  lineMap : gmap Z Z;
  lineAddrs : Z -> Z
}.
Arguments mkIP {M}. Arguments monitor {M}. Arguments mapper {M}. Arguments part {M}. Arguments used {M}. Arguments partInfo {M}.
Arguments lists {M}. Arguments partitions {M}. Arguments numLines {M}. Arguments numBuckets {M}. Arguments lineMap {M}. Arguments lineAddrs {M}.

Definition minus_two : double := of_Z (-2).
Definition zero : double := S754_zero false.

Section policy.
Context {M : Type} `{PartitionMonitor M} (procIdx : nat).
Implicit Types w : IdealLRUPart M.

Definition set_monitor (m : M) w : IdealLRUPart M :=
  mkIP m (mapper w) (part w) (used w) (partInfo w) (lists w) (partitions w) (numLines w) (numBuckets w) (lineMap w) (lineAddrs w).
Definition set_entry (id : Z) (q : nat) (u : bool) w : IdealLRUPart M :=
  mkIP (monitor w) (mapper w) (<[id := q]> (part w)) (<[id := u]> (used w)) (partInfo w) (lists w) (partitions w) (numLines w)
    (numBuckets w) (lineMap w) (lineAddrs w).
Definition at_part (q : nat) (f : PartInfo -> PartInfo) w : IdealLRUPart M :=
  mkIP (monitor w) (mapper w) (part w) (used w) (<[q := f (partInfo w q)]> (partInfo w)) (lists w) (partitions w) (numLines w)
    (numBuckets w) (lineMap w) (lineAddrs w).
Definition with_lists (L : nat -> list Z) w : IdealLRUPart M :=
  mkIP (monitor w) (mapper w) (part w) (used w) (partInfo w) L (partitions w) (numLines w) (numBuckets w) (lineMap w) (lineAddrs w).
Definition set_list (q : nat) (l : list Z) w : IdealLRUPart M := with_lists (<[q := l]> (lists w)) w.
Definition set_map (m : gmap Z Z) (f : Z -> Z) w : IdealLRUPart M :=
  mkIP (monitor w) (mapper w) (part w) (used w) (partInfo w) (lists w) (partitions w) (numLines w) (numBuckets w) m f.

(** [lruList.remove(e)] from the list of [src], then [push_front(e)] on that of [dst]. *)
Definition move (e : Z) (src dst : nat) w : res (IdealLRUPart M) :=
  l ← IdealLRU.remove e (lists w src);
  let w := set_list src l w in
  l ← IdealLRU.push_front e (lists w dst);
  Ok (set_list dst l w).

(** The constructor; its loop runs to [partitions], one past the array it allocated. *)
Definition new (mon : M) (mp : PartMapper) (lines buckets : Z) : res (IdealLRUPart M) :=
  let partitions := getNumPartitions mp in
  _ ← assert_that (0 <? partitions)%nat;
  let info := mkInfo 0 (lines / Z.of_nat partitions) 0 0 0 0 in
  l ← foldM (fun l i => IdealLRU.push_front i l) [] (seqZ 0 lines);
  let w := mkIP mon mp (fun _ => 0%nat) (fun _ => true) (fun _ => info) (fun _ => []) partitions lines buckets ∅ (fun _ => 0) in
  Ok (set_list 0 l (at_part 0 (upd_size lines) w)).

Definition setPartitionSizes (sizes : list nat) w : res (IdealLRUPart M) :=
  Ok (fold_left (fun w q => at_part q (set_target (u32 (Z.of_nat (sizes !!! q) * numLines w) / numBuckets w)) w) (seq 0 (partitions w)) w).

Definition update (id : Z) (req : MemReq) w : res (IdealLRUPart M) :=
  w ← (if used w id then
         let q := part w id in
         move id q q (at_part q inc_hits w)
       else
         let oldPart := part w id in
         newPart ← getPartition procIdx (mapper w) req;
         let w := if negb (oldPart =? newPart)%nat
                  then at_part newPart (upd_size 1) (at_part oldPart inc_ext (at_part oldPart (upd_size (-1)) w))
                  else at_part oldPart inc_self w in
         let w := at_part newPart inc_misses w in
         w ← move id oldPart newPart w;
         Ok (set_entry id newPart true w));
  m ← mon_access (part w id) (MemHier.lineAddr req) (monitor w);
  Ok (set_monitor m w).

Definition replaced (id : Z) w : IdealLRUPart M := set_entry id (part w id) false w.

(** How far a partition is above its target, in proportion. *)
Definition diff (i : PartInfo) : double :=
  fdiv (of_Z (i32 (i32 (size i) - i32 (targetSize i)))) (of_Z (u64 (targetSize i + 1))).

Definition rank_step w (st : nat * double) (q : nat) : nat * double :=
  let '(victimPart, maxPartDiff) := st in
  let d := diff (partInfo w q) in
  if flt maxPartDiff d && (0 <? size (partInfo w q)) then (q, d) else st.

Definition rank (req : MemReq) w : res Z :=
  own ← getPartition procIdx (mapper w) req;
  let maxPartDiff := if size (partInfo w own) =? 0 then minus_two else zero in
  let '(victimPart, _) := fold_left (rank_step w) (seq 0 (partitions w)) (own, maxPartDiff) in
  _ ← assert_that (0 <? size (partInfo w victimPart));
  _ ← assert_that (size (partInfo w victimPart) =? Z.of_nat (length (lists w victimPart)));
  match IdealLRU.back (lists w victimPart) with
  | Some id => Ok id
  | None => Fail AssertFailed
  end.

(** The array. *)
Definition lookup (req : MemReq) (updateReplacement : bool) w : res (Z * IdealLRUPart M) :=
  match lineMap w !! MemHier.lineAddr req with
  | None => Ok (-1, w)
  | Some lineId => if updateReplacement then w ← update lineId req w; Ok (lineId, w) else Ok (lineId, w)
  end.

Definition preinsert (req : MemReq) w : res (Z * Z) :=
  lineId ← rank req w; Ok (lineId, lineAddrs w lineId).

Definition postinsert (req : MemReq) (lineId : Z) w : res (IdealLRUPart M) :=
  let addr := MemHier.lineAddr req in
  let m := delete (lineAddrs w lineId) (lineMap w) in
  _ ← assert_that (bool_decide (m !! addr = None));
  let w := set_map (<[addr := lineId]> m) (<[lineId := addr]> (lineAddrs w)) w in
  update lineId req (replaced lineId w).

#[export] Instance ideal_part_policy : Lookahead.PartReplPolicy (IdealLRUPart M) M := {
  getMonitor := monitor;
  putMonitor := set_monitor;
  setPartitionSizes := setPartitionSizes
}.
End policy.

(** * The invariant *)

Lemma cnt_filter f n q : cnt f n q = Z.of_nat (length (filter (fun i => f i = q) (seqZ 0 (Z.of_nat n)))).
Proof.
  induction n as [|n IH]; [done|]. cbn [cnt]. rewrite IH, seqZ_S, filter_app, length_app.
  rewrite Z.add_0_l, filter_cons, filter_nil. case_decide; cbn [length]; lia.
Qed.

(** A list of the lines of a partition, each once, is as long as their number. *)
Lemma cnt_length f n q (l : list Z) : NoDup l -> (forall id, id ∈ l <-> 0 <= id < Z.of_nat n /\ f id = q) -> Z.of_nat (length l) = cnt f n q.
Proof.
  intros Hd Hl. rewrite cnt_filter. f_equal. apply Permutation_length, NoDup_Permutation; [done|apply NoDup_filter, NoDup_seqZ|].
  intros x. rewrite Hl, list_elem_of_filter, elem_of_seqZ. naive_solver lia.
Qed.

Section facts.
Context {M : Type} `{PartitionMonitorLaws M} (procIdx : nat).
Implicit Types w : IdealLRUPart M.

Record good w : Prop := {
  p_mon : mon_wf (monitor w) /\ mon_open (monitor w) /\ mon_partitions (monitor w) = partitions w;
  p_lines : 0 < numLines w < 2 ^ 31;
  p_list q : (q < partitions w)%nat -> NoDup (lists w q) /\ forall id, id ∈ lists w q <-> 0 <= id < numLines w /\ part w id = q;
  p_part id : 0 <= id < numLines w -> (part w id < partitions w)%nat;
  p_size q : (q < partitions w)%nat -> size (partInfo w q) = cnt (part w) (Z.to_nat (numLines w)) q;
  p_target q : (q < partitions w)%nat -> 0 <= targetSize (partInfo w q) <= numLines w;
  p_map addr id : lineMap w !! addr = Some id <-> addr <> 0 /\ 0 <= id < numLines w /\ lineAddrs w id = addr
}.

Lemma list_size w q : good w -> (q < partitions w)%nat -> Z.of_nat (length (lists w q)) = size (partInfo w q).
Proof.
  intros G Hq. rewrite (p_size _ G q Hq). destruct (p_list _ G q Hq) as (Hd & Hi). apply cnt_length; [done|].
  intros id. rewrite Hi. pose proof (p_lines _ G). naive_solver lia.
Qed.

Lemma part_size_range w q : good w -> (q < partitions w)%nat -> 0 <= size (partInfo w q) <= numLines w.
Proof. intros G Hq. rewrite (p_size _ G q Hq). pose proof (cnt_range (part w) (Z.to_nat (numLines w)) q). pose proof (p_lines _ G). lia. Qed.

(** ** The victim *)

Lemma diff_value w q : good w -> (q < partitions w)%nat -> sfin (diff (partInfo w q)) /\ - one_unit <= SV (diff (partInfo w q)).
Proof.
  intros G Hq. pose proof (part_size_range w q G Hq). pose proof (p_target _ G q Hq). pose proof (p_lines _ G). unfold diff.
  assert (Hi : forall x, - 2 ^ 31 <= x < 2 ^ 31 -> i32 x = x) by (intros x Hx; unfold i32; rewrite Z.mod_small; lia).
  rewrite !Hi by (rewrite ?Hi; lia). rewrite u64_id by (unfold in_u64; lia).
  destruct (fdiv_difference (size (partInfo w q) - targetSize (partInfo w q)) (targetSize (partInfo w q) + 1)) as (H1' & H2' & _); [lia..|]. done.
Qed.

Lemma minus_two_value : sfin minus_two /\ SV minus_two = - 2 * one_unit.
Proof.
  unfold minus_two. change (-2) with (- (2)). rewrite of_Z_opp by lia. destruct (of_Z_V 2) as (F2 & V2); [lia|].
  assert (Hinv : forall x, SFopp (SFopp x) = x) by (intros [[]|[]| |[] m e]; done).
  split; [right; by rewrite Hinv|]. rewrite SV_opp, V2 by done. lia.
Qed.

Lemma zero_value : sfin zero /\ SV zero = 0.
Proof. split; [left; split; [exact Logic.I|reflexivity]|reflexivity]. Qed.

(** The partition the loop ends with, among those it has seen. *)
Definition chosen w (own : nat) (init : double) (seen : list nat) (st : nat * double) : Prop :=
  (st = (own, init) /\ forall q, q ∈ seen -> 0 < size (partInfo w q) -> SV (diff (partInfo w q)) <= SV init) \/
  (st.1 ∈ seen /\ 0 < size (partInfo w st.1) /\ st.2 = diff (partInfo w st.1) /\ SV init < SV st.2 /\
   forall q, q ∈ seen -> 0 < size (partInfo w q) -> SV (diff (partInfo w q)) <= SV st.2).

Lemma part_rank_fold w own init : good w -> sfin init -> forall l seen st, Forall (fun q => (q < partitions w)%nat) (seen ++ l) ->
  chosen w own init seen st -> chosen w own init (seen ++ l) (fold_left (rank_step w) l st).
Proof.
  intros G Hi l. induction l as [|q l IH]; intros seen st Hl Hc; [by rewrite app_nil_r|]. cbn [fold_left].
  assert (Hq : (q < partitions w)%nat) by (rewrite Forall_forall in Hl; apply Hl; set_solver).
  destruct (diff_value w q G Hq) as (Fd & _).
  assert (Hst : sfin st.2).
  { destruct Hc as [[-> _]|(Hs & _ & -> & _)]; [done|]. apply diff_value; [done|]. rewrite Forall_forall in Hl. apply Hl. set_solver. }
  replace (seen ++ q :: l) with ((seen ++ [q]) ++ l) in * by (by rewrite <- app_assoc). apply IH; [done|].
  destruct st as [v m]. unfold rank_step. rewrite (flt_SV m (diff (partInfo w q)) Hst Fd).
  destruct (Z.ltb_spec (SV m) (SV (diff (partInfo w q)))) as [Hlt|Hge], (Z.ltb_spec 0 (size (partInfo w q))) as [Hs|Hs]; cbn [andb].
  - right. cbn [fst snd]. split; [set_solver|]. split; [done|]. split; [done|].
    assert (SV init <= SV m) by (destruct Hc as [[[= -> ->] _]|(_ & _ & _ & ? & _)]; cbn in *; lia). split; [lia|].
    intros r [Hr| ->%list_elem_of_singleton]%elem_of_app Hs'; [|lia].
    destruct Hc as [[[= -> ->] Hc]|(_ & _ & _ & _ & Hc)]; specialize (Hc r Hr Hs'); cbn in *; lia.
  - destruct Hc as [[E Hc]|(H1' & H2' & H3' & H4' & Hc)]; [left; split; [done|]|right; cbn [fst snd] in *; split_and!; [set_solver|done..|]];
      intros r [Hr| ->%list_elem_of_singleton]%elem_of_app Hs'; (by apply Hc) || lia.
  - destruct Hc as [[E Hc]|(H1' & H2' & H3' & H4' & Hc)]; [left; split; [done|]|right; cbn [fst snd] in *; split_and!; [set_solver|done..|]];
      intros r [Hr| ->%list_elem_of_singleton]%elem_of_app Hs'; [by apply Hc|injection E as -> ->; done|by apply Hc|done].
  - destruct Hc as [[E Hc]|(H1' & H2' & H3' & H4' & Hc)]; [left; split; [done|]|right; cbn [fst snd] in *; split_and!; [set_solver|done..|]];
      intros r [Hr| ->%list_elem_of_singleton]%elem_of_app Hs'; (by apply Hc) || lia.
Qed.

Definition over w (q : nat) : Z := SV (diff (partInfo w q)).

(** The lines of a partition above its target. *)
Definition excess w (q : nat) : Z := size (partInfo w q) - targetSize (partInfo w q).

(** The victim is the least recently used line of its partition; that is the partition most
    above its target, in proportion, and the line's own one if no other is above: as the
    doubles order the proportions and, below 2^25 lines, in exact arithmetic: the fractions
    [excess / (targetSize + 1)] are compared by cross products. *)
Record victim_of w (own : nat) (id : Z) : Prop := {
  vo_range : 0 <= id < numLines w /\ last (lists w (part w id)) = Some id;
  vo_most : (forall q, (q < partitions w)%nat -> 0 < size (partInfo w q) -> over w q <= over w (part w id)) \/
    (part w id = own /\ forall q, (q < partitions w)%nat -> 0 < size (partInfo w q) -> over w q <= 0);
  vo_exact : numLines w < 2 ^ 25 ->
    (forall q, (q < partitions w)%nat -> 0 < size (partInfo w q) ->
       excess w q * (targetSize (partInfo w (part w id)) + 1) <= excess w (part w id) * (targetSize (partInfo w q) + 1)) \/
    (part w id = own /\ forall q, (q < partitions w)%nat -> 0 < size (partInfo w q) -> excess w q <= 0)
}.

(** Doubles tell the proportions of small caches apart. *)
Lemma diff_fdiv w q : good w -> (q < partitions w)%nat ->
  diff (partInfo w q) = fdiv (of_Z (excess w q)) (of_Z (targetSize (partInfo w q) + 1)).
Proof.
  intros G Hq. pose proof (part_size_range w q G Hq). pose proof (p_target _ G q Hq). pose proof (p_lines _ G). unfold diff, excess.
  assert (Hi : forall x, - 2 ^ 31 <= x < 2 ^ 31 -> i32 x = x) by (intros x Hx; unfold i32; rewrite Z.mod_small; lia).
  rewrite !Hi by (rewrite ?Hi; lia). by rewrite u64_id by (unfold in_u64; lia).
Qed.

Lemma over_exact w q v : good w -> numLines w < 2 ^ 25 -> (q < partitions w)%nat -> (v < partitions w)%nat -> over w q <= over w v ->
  excess w q * (targetSize (partInfo w v) + 1) <= excess w v * (targetSize (partInfo w q) + 1).
Proof.
  intros G Hn Hq Hv. unfold over. rewrite !diff_fdiv by done.
  pose proof (part_size_range w q G Hq). pose proof (p_target _ G q Hq). pose proof (part_size_range w v G Hv). pose proof (p_target _ G v Hv).
  unfold excess. apply fdiv_order; lia.
Qed.

Lemma over_nonpos w q : good w -> numLines w < 2 ^ 25 -> (q < partitions w)%nat -> over w q <= 0 -> excess w q <= 0.
Proof.
  intros G Hn Hq. unfold over. rewrite diff_fdiv by done. pose proof (part_size_range w q G Hq). pose proof (p_target _ G q Hq).
  intros Ho. assert (excess w q * 1 <= 0 * (targetSize (partInfo w q) + 1)); [|lia].
  unfold excess in *. apply fdiv_order; [lia..|]. etransitivity; [exact Ho|]. by vm_compute.
Qed.

Lemma some_size w : good w -> exists q, (q < partitions w)%nat /\ 0 < size (partInfo w q).
Proof.
  intros G. pose proof (p_lines _ G). exists (part w 0). assert (Hq : (part w 0 < partitions w)%nat) by (apply (p_part _ G); lia).
  split; [done|]. rewrite (p_size _ G) by done. apply cnt_pos. lia.
Qed.

Lemma part_rank_ok w req own : good w -> getPartition procIdx (mapper w) req = Ok own -> (own < partitions w)%nat ->
  exists id, rank procIdx req w = Ok id /\ victim_of w own id.
Proof.
  intros G Hg Hown. unfold rank. rewrite Hg. cbn [mbind res_bind]. set (init := if _ =? 0 then _ else _).
  assert (Hi : sfin init) by (unfold init; case_match; [apply minus_two_value|apply zero_value]).
  pose proof (part_rank_fold w own init G Hi (seq 0 (partitions w)) [] (own, init)) as Hc. cbn [app] in Hc.
  destruct (fold_left _ _ _) as [v m].
  assert (Hall : Forall (fun q => (q < partitions w)%nat) (seq 0 (partitions w))) by (apply Forall_forall; intros q Hq%elem_of_seq; lia).
  specialize (Hc Hall). assert (Hin : forall q, (q < partitions w)%nat -> q ∈ seq 0 (partitions w)) by (intros; apply elem_of_seq; lia).
  assert (Hv : (v < partitions w)%nat /\ 0 < size (partInfo w v) /\
    ((forall q, (q < partitions w)%nat -> 0 < size (partInfo w q) -> over w q <= over w v) \/
     (v = own /\ forall q, (q < partitions w)%nat -> 0 < size (partInfo w q) -> over w q <= 0))).
  { destruct Hc as [[[= -> ->] Hc]|(Hs & Hp & Hm & _ & Hc)]; [left; split; [done|]; intros q Hq; by apply elem_of_nil in Hq| |].
    - unfold init in *. destruct (Z.eqb_spec (size (partInfo w own)) 0) as [E|E].
      + exfalso. destruct (some_size w G) as (q & Hq & Hp). specialize (Hc q (Hin q Hq) Hp). destruct (diff_value w q G Hq) as (_ & Hd).
        destruct minus_two_value as [_ Hm]. rewrite Hm in Hc. pose proof one_unit_pos. lia.
      + split; [done|]. pose proof (part_size_range w own G Hown). split; [lia|]. right. split; [done|]. intros q Hq Hp.
        destruct zero_value as [_ Hz]. rewrite Hz in Hc. by apply Hc, Hp; apply Hin.
    - cbn [fst snd] in *. rewrite Forall_forall in Hall. apply Hall in Hs. split; [done|]. split; [done|]. left.
      intros q Hq Hp'. unfold over. rewrite <- Hm. by apply Hc, Hp'; apply Hin. }
  destruct Hv as (Hv & Hp & Hmost). rewrite (proj2 (Z.ltb_lt _ _)) by done. cbn [assert_that mbind res_bind].
  rewrite (list_size w v G Hv), Z.eqb_refl. cbn [assert_that]. unfold IdealLRU.back.
  destruct (p_list _ G v Hv) as (_ & Hl). destruct (last (lists w v)) as [id|] eqn:El.
  - exists id. split; [done|]. assert (Hid : id ∈ lists w v) by (by apply last_Some_elem_of). apply Hl in Hid as [Hr Hpv].
    split; rewrite Hpv; [done|done|]. intros Hn.
    destruct Hmost as [Hm|[-> Hm]]; [left|right; split; [done|]]; intros q Hq Hp'.
    + apply over_exact; [done..|by apply Hm].
    + apply over_nonpos; [done..|by apply Hm].
  - apply last_None in El. pose proof (list_size w v G Hv) as Hz. rewrite El in Hz. cbn in Hz. lia.
Qed.

(** ** Hits and insertions *)

Lemma move_ok w id src dst : NoDup (lists w src) -> id ∈ lists w src -> (dst = src \/ id ∉ lists w dst) ->
  exists L, move id src dst w = Ok (with_lists L w) /\ L dst = id :: filter (fun x => x <> id) (lists w dst) /\
    (src <> dst -> L src = filter (fun x => x <> id) (lists w src)) /\ forall q, q <> src -> q <> dst -> L q = lists w q.
Proof.
  intros Hd Hin Hdst. unfold move, IdealLRU.remove. rewrite bool_decide_eq_true_2 by done. cbn [assert_that mbind res_bind].
  set (l := filter _ (lists w src)). cbn [lists with_lists set_list].
  assert (Hni : id ∉ (<[src := l]> (lists w)) dst).
  { destruct (decide (dst = src)) as [->|Hne]; [rewrite fn_lookup_insert; unfold l; rewrite list_elem_of_filter; tauto|].
    rewrite fn_lookup_insert_ne by done. by destruct Hdst. }
  rewrite IdealLRU.lru_push_front_ok by done. cbn [mbind res_bind]. eexists. split; [reflexivity|]. cbn [lists with_lists set_list].
  destruct (decide (dst = src)) as [->|Hne].
  - rewrite !fn_lookup_insert. split; [done|]. split; [done|]. intros q Hq _. by rewrite !fn_lookup_insert_ne.
  - rewrite fn_lookup_insert, !fn_lookup_insert_ne by done. destruct Hdst as [|Hdst]; [done|].
    split; [by rewrite (UMon.UMon.filter_ne_id (lists w dst))|]. split.
    + intros _. by rewrite fn_lookup_insert.
    + intros q Hq Hq'. by rewrite !fn_lookup_insert_ne.
Qed.

(** Line [id] comes to partition [q0]. *)
Record moved w w' (id : Z) (q0 : nat) : Prop := {
  m_mon : mon_wf (monitor w') /\ mon_open (monitor w') /\ mon_partitions (monitor w') = mon_partitions (monitor w);
  m_shape : partitions w' = partitions w /\ numLines w' = numLines w /\ numBuckets w' = numBuckets w /\ mapper w' = mapper w /\
    lineMap w' = lineMap w /\ lineAddrs w' = lineAddrs w;
  m_part : forall i, part w' i = if decide (i = id) then q0 else part w i;
  m_used : used w' id = true;
  m_list : forall q, (q < partitions w)%nat ->
    (q = q0 -> lists w' q = id :: filter (fun x => x <> id) (lists w q)) /\ (q <> q0 -> lists w' q = filter (fun x => x <> id) (lists w q));
  m_size : forall q, (q < partitions w)%nat -> size (partInfo w' q) =
    u64 (size (partInfo w q) + (if decide (q0 = q) then 1 else 0) - (if decide (part w id = q) then 1 else 0));
  m_target : forall q, targetSize (partInfo w' q) = targetSize (partInfo w q)
}.

Lemma moved_good w w' id q0 : good w -> 0 <= id < numLines w -> (q0 < partitions w)%nat -> moved w w' id q0 -> good w'.
Proof.
  intros G Hid Hq0 [X1 (X2 & X3 & X4 & X5 & X6 & X7) X8 _ X9 X10 X11]. pose proof (p_lines _ G) as Hn.
  assert (Hcnt : forall q, cnt (part w') (Z.to_nat (numLines w)) q =
    cnt (part w) (Z.to_nat (numLines w)) q + (if decide (q0 = q) then 1 else 0) - (if decide (part w id = q) then 1 else 0)).
  { intros q. rewrite <- cnt_insert by lia. apply cnt_ext. intros i _. rewrite X8. case_decide as Hi;
      [subst i; by rewrite fn_lookup_insert|by rewrite fn_lookup_insert_ne]. }
  split; rewrite ?X2, ?X3, ?X6, ?X7; try apply G.
  - rewrite (proj2 (proj2 X1)). destruct X1 as (? & ? & _). split_and!; [done|done|apply G].
  - intros q Hq. destruct (p_list _ G q Hq) as (Hd & Hi). destruct (X9 q Hq) as (Y1 & Y2).
    destruct (decide (q = q0)) as [E|E]; [rewrite (Y1 E)|rewrite (Y2 E)].
    + split; [apply NoDup_cons; split; [rewrite list_elem_of_filter; tauto|by apply NoDup_filter]|].
      intros x. rewrite X8, elem_of_cons, list_elem_of_filter, Hi. case_decide; subst; naive_solver.
    + split; [by apply NoDup_filter|]. intros x. rewrite X8, list_elem_of_filter, Hi. case_decide; subst; naive_solver.
  - intros i Hi. rewrite X8. case_decide; [done|by apply G].
  - intros q Hq. rewrite X10, Hcnt, (p_size _ G q Hq) by done.
    pose proof (cnt_range (part w') (Z.to_nat (numLines w)) q). rewrite Hcnt in *. apply u64_id. unfold in_u64. lia.
  - intros q Hq. rewrite X11. by apply G.
Qed.

Definition new_part w (id : Z) (own : nat) : nat := if used w id then part w id else own.

Lemma at_part_info q f w r : partInfo (at_part q f w) r = if decide (r = q) then f (partInfo w q) else partInfo w r.
Proof. cbn. destruct (decide (r = q)) as [->|Hne]; [by rewrite fn_lookup_insert|by rewrite fn_lookup_insert_ne]. Qed.

Lemma moved_by w w2 id q0 req L : good w -> 0 <= id < numLines w -> (q0 < partitions w)%nat ->
  monitor w2 = monitor w ->
  (partitions w2 = partitions w /\ numLines w2 = numLines w /\ numBuckets w2 = numBuckets w /\ mapper w2 = mapper w /\
    lineMap w2 = lineMap w /\ lineAddrs w2 = lineAddrs w) ->
  (forall i, part w2 i = if decide (i = id) then q0 else part w i) -> used w2 id = true -> lists w2 = L ->
  L q0 = id :: filter (fun x => x <> id) (lists w q0) ->
  (part w id <> q0 -> L (part w id) = filter (fun x => x <> id) (lists w (part w id))) ->
  (forall q, q <> part w id -> q <> q0 -> L q = lists w q) ->
  (forall q, (q < partitions w)%nat -> size (partInfo w2 q) =
    u64 (size (partInfo w q) + (if decide (q0 = q) then 1 else 0) - (if decide (part w id = q) then 1 else 0))) ->
  (forall q, targetSize (partInfo w2 q) = targetSize (partInfo w q)) ->
  exists w', (m ← mon_access (part w2 id) (MemHier.lineAddr req) (monitor w2); Ok (set_monitor m w2)) = Ok w' /\ moved w w' id q0.
Proof.
  intros G Hid Hq0 Em Es Ep Eu El L1 L2 L3 Hs Ht. destruct (p_mon _ G) as (G1 & G2 & G3).
  destruct (mon_access_ok (monitor w) q0 (MemHier.lineAddr req)) as (m' & Ea & Hw & Ho & Hp & _); [done..|by rewrite G3|].
  rewrite Em, Ep, decide_True by done. unfold mbind, res_bind. rewrite Ea. eexists. split; [reflexivity|].
  split; cbn; try done. intros q Hq. rewrite El. split; [by intros ->|]. intros Hne.
  destruct (decide (q = part w id)) as [->|Hne']; [by apply L2|]. rewrite L3 by done.
  destruct (p_list _ G q Hq) as (_ & Hi). rewrite UMon.UMon.filter_ne_id; [done|]. rewrite Hi. intros [_ E]. congruence.
Qed.

Lemma update_moved w id req own : good w -> 0 <= id < numLines w -> (own < partitions w)%nat ->
  getPartition procIdx (mapper w) req = Ok own -> exists w', update procIdx id req w = Ok w' /\ moved w w' id (new_part w id own).
Proof.
  intros G Hid Hown Hg. pose proof (p_part _ G id Hid) as Hold. destruct (p_list _ G _ Hold) as (Hd & Hi).
  assert (Hin : id ∈ lists w (part w id)) by (by apply Hi).
  assert (Hsz : forall q, (q < partitions w)%nat -> in_u64 (size (partInfo w q))).
  { intros q Hq. pose proof (part_size_range w q G Hq). pose proof (p_lines _ G). unfold in_u64. lia. }
  unfold update, new_part. destruct (used w id) eqn:Eu.
  - destruct (move_ok (at_part (part w id) inc_hits w) id (part w id) (part w id) Hd Hin (or_introl eq_refl)) as (L & Em & L1 & _ & L3).
    unfold mbind at 1, res_bind at 1. rewrite Em.
    apply (moved_by w _ id (part w id) req L); try done.
    + intros i. cbn. by case_decide as E; [subst i|].
    + intros q Hq. change (partInfo (with_lists L ?x)) with (partInfo x). rewrite at_part_info.
      case_decide as E; [subst q; rewrite decide_True by done; cbn [size inc_hits]|rewrite decide_False by done];
        rewrite u64_id; unfold in_u64; specialize (Hsz _ Hq); unfold in_u64 in Hsz; lia.
    + intros q. change (partInfo (with_lists L ?x)) with (partInfo x). rewrite at_part_info. by case_decide as E; [subst q|].
  - rewrite Hg. cbn [mbind res_bind]. set (w1 := if negb _ then _ else _). set (w2 := at_part own inc_misses w1).
    assert (E2 : monitor w2 = monitor w /\ lists w2 = lists w /\ part w2 = part w /\ partitions w2 = partitions w /\ numLines w2 = numLines w /\
      numBuckets w2 = numBuckets w /\ mapper w2 = mapper w /\ lineMap w2 = lineMap w /\ lineAddrs w2 = lineAddrs w).
    { unfold w2, w1. destruct (negb _); done. }
    destruct E2 as (E1 & E2 & E3 & E4 & E5 & E6 & E7 & E8 & E9).
    destruct (move_ok w2 id (part w id) own) as (L & Em & L1 & L2 & L3); rewrite ?E2; [done|done| |].
    { destruct (decide (own = part w id)) as [|Hne]; [by left|right]. destruct (p_list _ G own Hown) as (_ & Hi').
      rewrite Hi'. intros [_ Hx]. congruence. }
    unfold mbind at 1, res_bind at 1. unfold mbind at 1, res_bind at 1. rewrite Em. rewrite E2 in *.
    apply (moved_by w _ id own req L); try done.
    + intros i. change (part (set_entry id own true (with_lists L w2)) i) with ((<[id := own]> (part w2)) i). rewrite E3. case_decide as E; [subst i; by rewrite fn_lookup_insert|by rewrite fn_lookup_insert_ne].
    + cbn. by rewrite fn_lookup_insert.
    + intros q Hq. change (partInfo (set_entry ?a ?b ?c ?x)) with (partInfo x). change (partInfo (with_lists L ?x)) with (partInfo x).
      specialize (Hsz _ Hq). pose proof (Hsz) as Hsz'. unfold in_u64 in Hsz'. unfold w2, w1.
      destruct (Nat.eqb_spec (part w id) own) as [He|Hne]; cbn [negb]; rewrite !at_part_info;
        repeat case_decide; subst; try congruence; cbn [size upd_size inc_ext inc_self inc_misses]; f_equal || (rewrite u64_id; unfold in_u64); lia.
    + intros q. change (partInfo (set_entry ?a ?b ?c ?x)) with (partInfo x). change (partInfo (with_lists L ?x)) with (partInfo x).
      unfold w2, w1. destruct (negb _); rewrite !at_part_info; repeat case_decide; subst; done.
Qed.

Lemma set_map_good w id addr : good w -> 0 <= id < numLines w -> addr <> 0 -> lineMap w !! addr = None ->
  good (set_map (<[addr := id]> (delete (lineAddrs w id) (lineMap w))) (<[id := addr]> (lineAddrs w)) w).
Proof.
  intros G Hid Hnz Ha. pose proof (p_map _ G) as Hm. destruct G. split; cbn; try done. intros addr' id'.
  assert (Hno : forall x, 0 <= x < numLines w -> lineAddrs w x <> addr).
  { intros x Hx E. assert (lineMap w !! addr = Some x) as E' by (by apply Hm). congruence. }
  destruct (decide (addr' = addr)) as [->|Hne].
  - rewrite lookup_insert_eq. split; [intros [= <-]; by rewrite fn_lookup_insert|]. intros (_ & Hid' & E).
    destruct (decide (id' = id)) as [->|Hni]; [done|]. rewrite fn_lookup_insert_ne in E by done. by destruct (Hno id').
  - rewrite lookup_insert_ne, lookup_delete_Some, Hm by done. destruct (decide (id' = id)) as [->|Hni].
    + rewrite fn_lookup_insert. split; [tauto|intros (_ & _ & E); congruence].
    + rewrite fn_lookup_insert_ne by done. split; [tauto|]. intros (Ha' & Hi & E). split; [|done]. intros E'.
      apply Hni. assert (lineMap w !! addr' = Some id') as E1 by (by apply Hm). assert (lineMap w !! addr' = Some id) as E2 by (by apply Hm). congruence.
Qed.

Lemma replaced_good w id : good w -> good (replaced id w).
Proof.
  intros G. assert (Hp : forall i, part (replaced id w) i = part w i).
  { intros i. cbn. destruct (decide (i = id)) as [->|]; [by rewrite fn_lookup_insert|by rewrite fn_lookup_insert_ne]. }
  destruct G. split; cbn -[replaced]; try done.
  - intros q Hq. destruct (p_list0 q Hq) as (Hd & Hi). split; [done|]. intros x. by rewrite Hi, Hp.
  - intros x Hx. rewrite Hp. by apply p_part0.
  - intros q Hq. rewrite (cnt_ext _ (part w)) by (intros; apply Hp). by apply p_size0.
Qed.

Lemma part_postinsert_ok w id req own : good w -> 0 <= id < numLines w -> (own < partitions w)%nat ->
  getPartition procIdx (mapper w) req = Ok own -> MemHier.lineAddr req <> 0 -> lineMap w !! MemHier.lineAddr req = None ->
  exists w', postinsert procIdx req id w = Ok w' /\ good w' /\ part w' id = own /\ lineAddrs w' id = MemHier.lineAddr req /\
    partitions w' = partitions w /\ numLines w' = numLines w /\ numBuckets w' = numBuckets w /\ mapper w' = mapper w.
Proof.
  intros G Hid Hown Hg Hnz Ha. unfold postinsert. rewrite bool_decide_eq_true_2 by (apply lookup_delete_None; by right).
  cbn [assert_that mbind res_bind]. set (w1 := set_map _ _ w). assert (G1 : good w1) by (by apply set_map_good).
  destruct (update_moved (replaced id w1) id req own (replaced_good w1 id G1) Hid Hown Hg) as (w' & E & X).
  exists w'. split; [done|]. split; [eapply moved_good; [by apply replaced_good|exact Hid| |exact X]; unfold new_part; cbn; by rewrite fn_lookup_insert|].
  destruct X as [_ (X2 & X3 & X4 & X5 & X6 & X7) X8 _ _ _ _]. rewrite X8, decide_True by done. split; [unfold new_part; cbn; by rewrite fn_lookup_insert|].
  rewrite X7. cbn. by rewrite fn_lookup_insert.
Qed.

(** ** What may come: accesses of nonzero lines from partitions the mapper knows, and sizes *)
Inductive op := Access (req : MemReq) | Resize (sizes : list nat).

Definition exec (o : op) w : res (IdealLRUPart M) :=
  match o with
  | Access req =>
      '(id, w) ← lookup procIdx req true w;
      if id =? -1 then '(id, _) ← preinsert procIdx req w; postinsert procIdx req id w else Ok w
  | Resize sizes => setPartitionSizes sizes w
  end.

Definition valid w (o : op) : Prop :=
  match o with
  | Access req => MemHier.lineAddr req <> 0 /\ exists own, (own < partitions w)%nat /\ getPartition procIdx (mapper w) req = Ok own
  | Resize sizes => 0 < numBuckets w /\ numBuckets w * numLines w < 2 ^ 32 /\
      forall q, (q < partitions w)%nat -> Z.of_nat (sizes !!! q) <= numBuckets w
  end.

Definition same_shape w w' : Prop :=
  partitions w' = partitions w /\ numLines w' = numLines w /\ numBuckets w' = numBuckets w /\ mapper w' = mapper w.

Lemma resize_step_good w q sizes : good w -> valid w (Resize sizes) -> (q < partitions w)%nat ->
  good (at_part q (set_target (u32 (Z.of_nat (sizes !!! q) * numLines w) / numBuckets w)) w).
Proof.
  intros G (Hb & Hmul & Hs) Hq. specialize (Hs q Hq). pose proof (p_lines _ G).
  assert (Ht : 0 <= u32 (Z.of_nat (sizes !!! q) * numLines w) / numBuckets w <= numLines w).
  { rewrite u32_id by (unfold in_u32; nia). split; [apply Z.div_pos; nia|]. apply Z.div_le_upper_bound; nia. }
  destruct G. split; try done.
  - intros r Hr. rewrite at_part_info. case_decide as E; [subst r; cbn|]; by apply p_size0.
  - intros r Hr. rewrite at_part_info. case_decide as E; [done|by apply p_target0].
Qed.

Lemma resize_good sizes l : forall w, good w -> valid w (Resize sizes) -> Forall (fun q => (q < partitions w)%nat) l ->
  let w' := fold_left (fun w q => at_part q (set_target (u32 (Z.of_nat (sizes !!! q) * numLines w) / numBuckets w)) w) l w in
  good w' /\ same_shape w w'.
Proof.
  induction l as [|q l IH]; intros w G Hv Hl; cbn [fold_left]; [done|]. apply Forall_cons in Hl as [Hq Hl].
  set (w1 := at_part q _ w). destruct (IH w1) as (G' & S1); [by apply resize_step_good|done|done|]. by split.
Qed.

Lemma part_exec_ok o w : good w -> valid w o -> exists w', exec o w = Ok w' /\ good w' /\ same_shape w w'.
Proof.
  intros G Hv. destruct o as [req|sizes]; cbn [exec].
  - destruct Hv as (Hnz & own & Hown & Hg). unfold lookup. destruct (lineMap w !! MemHier.lineAddr req) as [id|] eqn:E.
    + apply (p_map _ G) in E as (_ & Hid & _). destruct (update_moved w id req own G Hid Hown Hg) as (w' & Eu & X).
      unfold mbind at 1, res_bind at 1. unfold mbind at 1, res_bind at 1. rewrite Eu. rewrite (proj2 (Z.eqb_neq id (-1))) by lia.
      exists w'. split; [done|]. split; [|by destruct X as [_ (? & ? & ? & ? & _)]]. eapply moved_good; [exact G|exact Hid| |exact X].
      unfold new_part. case_match; [by apply G|done].
    + cbn [mbind res_bind Z.eqb Pos.eqb]. destruct (part_rank_ok w req own G Hg Hown) as (id & Er & [[Hid _] _]).
      unfold preinsert, mbind, res_bind. rewrite Er.
      destruct (part_postinsert_ok w id req own G Hid Hown Hg Hnz E) as (w' & Ep & G' & _ & _ & Hs). exists w'. split; [done|]. by split.
  - unfold setPartitionSizes. destruct (resize_good sizes (seq 0 (partitions w)) w G Hv) as (G' & Hs); [|eauto].
    apply Forall_forall. intros q Hq%elem_of_seq. lia.
Qed.

Lemma exec_all ops : forall w, good w -> Forall (valid w) ops ->
  exists w', foldM (fun w o => exec o w) w ops = Ok w' /\ good w' /\ same_shape w w'.
Proof.
  induction ops as [|o ops IH]; intros w G Hv; cbn [foldM]; [by exists w|]. apply Forall_cons in Hv as [Ho Hv].
  destruct (part_exec_ok o w G Ho) as (w1 & E & G1 & (S1 & S2 & S3 & S4)). unfold mbind, res_bind. rewrite E.
  destruct (IH w1 G1) as (w' & Ef & G' & (S1' & S2' & S3' & S4')).
  - eapply Forall_impl; [exact Hv|]. intros o'. destruct o'; cbn; by rewrite ?S1, ?S2, ?S3, ?S4.
  - exists w'. split; [done|]. split; [done|]. split_and!; congruence.
Qed.

Lemma part_new_good mon mp lines buckets : mon_wf mon -> mon_open mon -> mon_partitions mon = getNumPartitions mp -> (0 < getNumPartitions mp)%nat ->
  0 < lines < 2 ^ 31 ->
  exists w, new mon mp lines buckets = Ok w /\ good w /\ partitions w = getNumPartitions mp /\ numLines w = lines /\
    numBuckets w = buckets /\ mapper w = mp.
Proof.
  intros Hw Ho Hp Hnz Hl. unfold new. rewrite (proj2 (Nat.ltb_lt _ _)) by done. cbn [assert_that mbind res_bind].
  rewrite IdealLRU.fill_list; [|rewrite app_nil_r; apply NoDup_seqZ]. rewrite app_nil_r. eexists. split; [reflexivity|].
  split; [|done]. split; cbn; try done.
  - intros q Hq. split.
    + destruct (decide (q = 0%nat)) as [->|]; [rewrite fn_lookup_insert, reverse_Permutation; apply NoDup_seqZ|].
      rewrite fn_lookup_insert_ne by done. constructor.
    + intros id. destruct (decide (q = 0%nat)) as [->|Hne]; [rewrite fn_lookup_insert, elem_of_reverse, elem_of_seqZ; naive_solver lia|].
      rewrite fn_lookup_insert_ne by done. rewrite elem_of_nil. split; [done|]. intros [_ E]. by destruct Hne.
  - intros q Hq. rewrite (cnt_all (fun _ => 0%nat) _ 0%nat) by done.
    destruct (decide (q = 0%nat)) as [->|]; [rewrite fn_lookup_insert; cbn; rewrite u64_id by (unfold in_u64; lia); lia|by rewrite fn_lookup_insert_ne].
  - intros q Hq. assert (0 <= lines / Z.of_nat (getNumPartitions mp) <= lines).
    { split; [apply Z.div_pos; lia|]. apply Z.div_le_upper_bound; nia. }
    destruct (decide (q = 0%nat)) as [->|]; [by rewrite fn_lookup_insert|by rewrite fn_lookup_insert_ne].
  - intros addr id. rewrite lookup_empty. split; [done|]. intros (Hx & _ & E). by destruct Hx.
Qed.


End facts.

(** * Two cores, four lines *)

#[local] Existing Instances UMonMonitor.umon_monitor UMonMonitor.umon_monitor_laws.

Definition sample_mon : UMonMonitor.UMonMonitor := UMonMonitor.sample_monitor 4 [(5, 1); (10, 20)].
Definition sample_req (core : Z) (line : Z) : MemReq := MemHier.mkReq line GETS 0 MemHier.Local 0 MemHier.I core 0.

(** Core 0 fills three lines, then two are given to core 1, which takes the least recently
    used ones. *)
Definition sample_ops : list op :=
  [Access (sample_req 0 5); Access (sample_req 0 6); Access (sample_req 0 7); Resize [2; 2]%nat; Access (sample_req 1 8); Access (sample_req 1 9)].

Lemma sample_valid w : partitions w = 2%nat -> numLines w = 4 -> numBuckets w = 4 -> mapper w = CorePartMapper 2 ->
  Forall (valid (M := UMonMonitor.UMonMonitor) 0 w) sample_ops.
Proof.
  intros H1 H2 H3 H4. unfold sample_ops. repeat constructor; cbn; try done; rewrite ?H1, ?H2, ?H3, ?H4;
    try (eexists; split; [|reflexivity]; cbn; lia); try lia.
  intros q Hq. destruct q as [|[|q]]; cbn; lia.
Qed.


Example sample_run :
  match new sample_mon (CorePartMapper 2) 4 4 with
  | Ok w => match foldM (fun w o => exec 0 o w) w sample_ops with
            | Ok w' => (lists w' 0%nat, lists w' 1%nat, map (fun q => size (partInfo w' q)) [0; 1]%nat, map (lineAddrs w') [0; 1; 2; 3]) =
                       ([2; 1], [0; 3], [2; 2], [9; 6; 7; 8])
            | Fail _ => False
            end
  | Fail _ => False
  end.
Proof. vm_compute. reflexivity. Qed.
End IdealPart.
