(* ===== verification/DetParams.v ===== *)
(** The parameters of the detailed memory model (detailed_mem_params.h and
    detailed_mem_params.cpp): what they are read from, the organisation of the memory and the
    device timings in memory cycles.

    A configuration file answers queries by name: a name it does not have gets the default
    that the query gives.  Left out: when to report, the flag of the address trace, the
    timing tCMD, which nothing reads, and log messages. *)
From Stdlib Require Import String Floats.SpecFloat.
From S2P Require Import Prelude Hash Doubles.
Import Bits Doubles.

Module DetParams.
#[local] Open Scope string_scope.
#[local] Open Scope Z_scope.

(** ** The configuration *)

Record Config := mkConfig {
  cfg_u32 : string -> option Z;
  cfg_bool : string -> option bool;
  cfg_double : string -> option double;
  cfg_string : string -> option string
}.

Definition get_u32 (c : Config) (k : string) (d : Z) : Z := default d (cfg_u32 c k).
Definition get_bool (c : Config) (k : string) (d : bool) : bool := default d (cfg_bool c k).
Definition get_double (c : Config) (k : string) (d : double) : double := default d (cfg_double c k).
Definition get_string (c : Config) (k d : string) : string := default d (cfg_string c k).

Inductive eRowBufferPolicy := RB_CLOSE | RB_OPEN.
#[export] Instance policy_eq_dec : EqDecision eRowBufferPolicy.
Proof. solve_decision. Defined.

(** The part of [MemParam] that [LoadConfigMain] sets. *)
Record main_params := mkMain {
  reportPhase : Z;
  accAvgPowerReport : bool;
  curAvgPowerReport : bool;
  bandwidthReport : bool;
  totalCapacity : Z;
  channelCount : Z;
  channelDataWidth : Z;
  rowBufferPolicy : eRowBufferPolicy;
  interleaveType : Z;
  powerDownCycle : Z;
  controllerLatency : Z;
  schedulerQueueCount : Z;
  accessLogDepth : Z;
  mergeContinuous : bool;
  cacheLineSize : Z;
  chipCapacity : Z;
  bankCount : Z;
  rowAddrWidth : Z;
  colAddrWidth : Z;
  dataBusWidth : Z;
  chipCountPerRank : Z;
  rankCount : Z;
  rankWidth : Z;
  channelWidth : Z;
  channelDataWidthLog : Z;
  bankWidth : Z;
  byteOffsetWidth : Z
}.

(** The part that [LoadTiming] sets: memory cycles, but for the nanoseconds of [tCK]. *)
Record timing := mkTiming {
  tCK : double;
  tRC : Z; tRAS : Z; tRCD : Z; tRP : Z; tRPab : Z; tRTRS : Z; tRRD : Z; tWR : Z; tWTR : Z;
  tCAS : Z; tCWD : Z; tCCD : Z; tTrans : Z; tTransCrit : Z; tXP : Z; tREFI : Z; tRFC : Z;
  tFAW : Z; tRTP : Z
}.

(** The part that [LoadPower] sets. *)
Record power := mkPower {
  VDD1 : Z;
  IDD0 : Z; IDD2P : Z; IDD2N : Z; IDD3P : Z; IDD3N : Z; IDD4R : Z; IDD4W : Z; IDD5 : Z;
  readDqPin : Z; writeDqPin : Z; readTermPin : Z; writeTermPin : Z
}.

Record MemParam := mkParam {
  pm : main_params;
  pt : timing;
  pp : power;
  constraints : list Z
}.

(** ** LoadConfigMain *)

(** An integer division of the source: by zero it does not return. *)
Definition udiv (a b : Z) : res Z := _ ← assert_that (negb (b =? 0)); mret (a / b).

Definition LoadConfigMain (c : Config) (lineSize : Z) : res main_params :=
  let reportPhase := get_u32 c "sim.reportPhase" 10000 in
  _ ← assert_that (negb (reportPhase =? 0));
  let totalCapacity := get_u32 c "mc_spec.capacityMB" 4096 in
  let channelCount := get_u32 c "mc_spec.channels" 2 in
  let channelDataWidth := get_u32 c "mc_spec.channelDataWidth" 64 in
  let policy := if String.eqb (get_string c "mc_spec.rowBufferPolicy" "close") "open"
                then RB_OPEN else RB_CLOSE in
  let chipCapacity := get_u32 c "mem_spec.capacityMb" 2048 in
  let bankCount := get_u32 c "mem_spec.bankCount" 2 in
  let dataBusWidth := get_u32 c "mem_spec.dataBusWidth" 8 in
  chipCountPerRank ← udiv channelDataWidth dataBusWidth;
  rankCount ← udiv (u32 (totalCapacity * 8)) (u32 (chipCapacity * chipCountPerRank * channelCount));
  if rankCount =? 0 then panic
  else if negb (totalCapacity mod channelCount =? 0) then panic
  else mret (mkMain reportPhase
    (get_bool c "sim.accAvgPowerReport" false) (get_bool c "sim.curAvgPowerReport" false)
    (get_bool c "sim.bandwidthReport" false)
    totalCapacity channelCount channelDataWidth policy
    (get_u32 c "mc_spec.interleaveType" 0) (get_u32 c "mc_spec.powerDownCycle" 50)
    (get_u32 c "mc_spec.controllerLatency" 0) (get_u32 c "mc_spec.schedulerQueueCount" 0)
    (get_u32 c "mc_spec.accessLogDepth" 4) (get_bool c "mc_spec.mergeContinuous" false)
    lineSize chipCapacity bankCount
    (get_u32 c "mem_spec.rowAddrWidth" 10) (get_u32 c "mem_spec.colAddrWidth" 10) dataBusWidth
    chipCountPerRank rankCount (ilog2 32 rankCount) (ilog2 32 channelCount)
    (ilog2 32 channelDataWidth) (ilog2 32 bankCount) (ilog2 32 lineSize)).

(** ** LoadTiming *)

(** [ceil] of math.h, then the conversion to [uint32_t]. *)
Definition ceil (x : double) : Z :=
  match x with
  | S754_finite s m e =>
      let v := if s then Zneg m else Zpos m in
      u32 (if 0 <=? e then Z.shiftl v e else - Z.shiftr (- v) (- e))
  | _ => 0
  end.

Definition LoadTiming (c : Config) : timing :=
  let tCK := get_double c "mem_spec.timing.tCK" (of_Z 1) in
  let cycles (k : string) := ceil (fdiv (get_double c k tCK) tCK) in
  let tTrans := ceil (fdiv (get_double c "mem_spec.timing.tTrans" (fmul tCK (of_Z 4))) tCK) in
  mkTiming tCK
    (cycles "mem_spec.timing.tRC") (cycles "mem_spec.timing.tRAS") (cycles "mem_spec.timing.tRCD")
    (cycles "mem_spec.timing.tRP") (cycles "mem_spec.timing.tRPab") (cycles "mem_spec.timing.tRTRS")
    (cycles "mem_spec.timing.tRRD") (cycles "mem_spec.timing.tWR") (cycles "mem_spec.timing.tWTR")
    (cycles "mem_spec.timing.tCAS") (cycles "mem_spec.timing.tCWD") (cycles "mem_spec.timing.tCCD")
    tTrans (tTrans / 4) (cycles "mem_spec.timing.tXP") (cycles "mem_spec.timing.tREFI")
    (cycles "mem_spec.timing.tRFC") (cycles "mem_spec.timing.tFAW") (cycles "mem_spec.timing.tRTP").

(** ** LoadPower *)

Definition LoadPower (c : Config) : power :=
  let scaled (k : string) (d f : double) := u32 (to_Z (fmul (get_double c k d) f)) in
  let zero := S754_zero false in
  let mA (k : string) := scaled k zero (of_Z 100) in
  let mW (k : string) := scaled k zero (of_Z 1000) in
  mkPower (scaled "mem_spec.power.VDD1.VDD1" (fdiv (of_Z 3) (of_Z 2)) (of_Z 10))
    (mA "mem_spec.power.VDD1.IDD0") (mA "mem_spec.power.VDD1.IDD2P") (mA "mem_spec.power.VDD1.IDD2N")
    (mA "mem_spec.power.VDD1.IDD3P") (mA "mem_spec.power.VDD1.IDD3N") (mA "mem_spec.power.VDD1.IDD4R")
    (mA "mem_spec.power.VDD1.IDD4W") (mA "mem_spec.power.VDD1.IDD5")
    (mW "mem_spec.power.pins.readDQ") (mW "mem_spec.power.pins.writeDQ")
    (mW "mem_spec.power.pins.readTerm") (mW "mem_spec.power.pins.writeTerm").

(** ** The constraints between reads and writes *)

Inductive MemAccessType := READ | WRITE.
#[export] Instance type_eq_dec : EqDecision MemAccessType.
Proof. solve_decision. Defined.
Definition type_index (t : MemAccessType) : Z := match t with READ => 0 | WRITE => 1 end.

Definition MakeConstraints (t : timing) : list Z :=
  [ i32 (Z.max (tTrans t) (tCCD t));
    i32 (u32 (tCAS t + tCCD t / 2 + 2 - tCWD t));
    i32 (u32 (tCWD t + tTrans t + tWTR t));
    i32 (Z.max (tCCD t) (tTrans t)) ].

Definition LoadConfig (c : Config) (lineSize : Z) : res MemParam :=
  m ← LoadConfigMain c lineSize;
  let t := LoadTiming c in
  mret (mkParam m t (LoadPower c) (MakeConstraints t)).

Definition IsOpenRowBufPolicy (p : MemParam) : bool := bool_decide (rowBufferPolicy (pm p) = RB_OPEN).
Definition IsCloseRowBufPolicy (p : MemParam) : bool := bool_decide (rowBufferPolicy (pm p) = RB_CLOSE).

Definition GetDataLatency (p : MemParam) (type : MemAccessType) : Z :=
  match type with READ => tCAS (pt p) | WRITE => tCWD (pt p) end.
Definition GetDataDelay (p : MemParam) (type : MemAccessType) : Z :=
  u32 (GetDataLatency p type + tTransCrit (pt p)).
Definition GetDataSlot (p : MemParam) (type : MemAccessType) : Z := tTrans (pt p).
Definition GetPreDelay (p : MemParam) (type : MemAccessType) : Z :=
  match type with READ => tRTP (pt p) | WRITE => u32 (tCWD (pt p) + tTrans (pt p) + tWR (pt p)) end.
Definition GetRefreshCycle (p : MemParam) : Z :=
  if IsOpenRowBufPolicy p then u32 (tRFC (pt p) + tRPab (pt p)) else tRFC (pt p).
Definition GetRdWrDelay (p : MemParam) (type lastType : MemAccessType) : Z :=
  let index := Z.lor (Z.shiftl (type_index lastType) 1) (type_index type) in
  u32 (nth (Z.to_nat index) (constraints p) 0).

(** ** Two configurations *)

(** A file that says nothing: one rank of two banks, and the bus of a channel as wide as a
    line, in bits. *)
Definition empty_config : Config := mkConfig (fun _ => None) (fun _ => None) (fun _ => None) (fun _ => None).

Lemma default_params : exists p, LoadConfig empty_config 64 = Ok p /\
  (rankCount (pm p) = 1 /\ bankCount (pm p) = 2 /\ chipCountPerRank (pm p) = 8) /\
  (channelDataWidthLog (pm p) = 6 /\ byteOffsetWidth (pm p) = 6) /\
  (tRCD (pt p) = 1 /\ tTrans (pt p) = 4 /\ tREFI (pt p) = 1 /\ VDD1 (pp p) = 15) /\
  constraints p = [4; 2; 6; 4].
Proof. eexists. split; [vm_compute; reflexivity|]. by vm_compute. Qed.

(** DDR3-1333 with eight banks, one rank on each of two channels. *)
Definition ddr3_cycles : list (string * Z) :=
  [("tRC", 34); ("tRAS", 24); ("tRCD", 10); ("tRP", 10); ("tRPab", 10); ("tRTRS", 1); ("tRRD", 4);
   ("tWR", 10); ("tWTR", 5); ("tCAS", 10); ("tCWD", 9); ("tCCD", 4); ("tTrans", 4); ("tXP", 4);
   ("tREFI", 5200); ("tRFC", 74); ("tFAW", 20); ("tRTP", 5)].

Definition ddr3_config (u32s : list (string * Z)) (policy : string) (merge : bool) : Config :=
  mkConfig (fun k => List.find (fun x => String.eqb x.1 k) (u32s ++ [("mem_spec.bankCount", 8)])%list ≫= fun x => Some x.2)
    (fun k => if String.eqb k "mc_spec.mergeContinuous" then Some merge else None)
    (fun k => List.find (fun x => String.eqb ("mem_spec.timing." ++ x.1) k) ddr3_cycles ≫= fun x => Some (of_Z x.2))
    (fun k => if String.eqb k "mc_spec.rowBufferPolicy" then Some policy else None).

Definition ddr3 (u32s : list (string * Z)) (policy : string) (merge : bool) : MemParam :=
  match LoadConfig (ddr3_config u32s policy merge) 64 with
  | Ok p => p
  | Fail _ => mkParam (mkMain 0 false false false 0 0 0 RB_CLOSE 0 0 0 0 0 false 0 0 0 0 0 0 0 0 0 0 0 0 0)
                (mkTiming (of_Z 0) 0 0 0 0 0 0 0 0 0 0 0 0 0 0 0 0 0 0 0) (mkPower 0 0 0 0 0 0 0 0 0 0 0 0 0) []
  end.

Lemma ddr3_params : is_ok (LoadConfig (ddr3_config [] "open" false) 64) /\
  (rankCount (pm (ddr3 [] "open" false)) = 1 /\ tFAW (pt (ddr3 [] "open" false)) = 20 /\ tTransCrit (pt (ddr3 [] "open" false)) = 1) /\
  constraints (ddr3 [] "open" false) = [4; 5; 18; 4].
Proof. split; [eexists; vm_compute; reflexivity|]. by vm_compute. Qed.

End DetParams.
