(* ===== verification/DetAddr.v ===== *)
(** The address mapping of the detailed memory model (detailed_mem.cpp): the channel of a line
    ([ReturnChannel]) and its row, column, rank and bank on that channel ([AddressMap]), for
    the nine interleavings; they are inverse to [rebuild]. *)
From Stdlib Require Import String.
From S2P Require Import Prelude Hash DetParams.
Import Bits DetParams.

Module DetAddr.

(** ** The code *)

Record loc := mkLoc { row : Z; col : Z; rank : Z; bank : Z }.

(** [x = addr & ((1L << w) - 1); addr >>= w]. *)
Definition field (w addr : Z) : Z * Z := (u32 (Z.land addr (Z.shiftl 1 w - 1)), Z.shiftr addr w).

(** [x = addr % n; addr /= n]. *)
Definition digit (n addr : Z) : res (Z * Z) :=
  _ ← assert_that (negb (n =? 0)); mret (u32 (addr mod n), addr / n).

Section map.
Context (p : MemParam).

Definition colLowWidth : Z :=
  if channelDataWidthLog (pm p) <? byteOffsetWidth (pm p)
  then u32 (byteOffsetWidth (pm p) - channelDataWidthLog (pm p)) else 0.
Definition colHighWidth : Z := u32 (colAddrWidth (pm p) - colLowWidth).

Definition join_col (colHigh colLow : Z) : Z := Z.lor (u32 (Z.shiftl colHigh colLowWidth)) colLow.

(** The [switch], from the address without its column, when the type is at least 4, and
    without its channel, when the type is at most 5. *)
Definition decode_rest (colLow chnl col addr : Z) : res (Z * loc) :=
  let rk := field (rankWidth (pm p)) in
  let bk := field (bankWidth (pm p)) in
  let ch := field colHighWidth in
  let cn := digit (channelCount (pm p)) in
  match interleaveType (pm p) with
  | 0 => let '(r, a) := rk addr in let '(b, a) := bk a in let '(h, a) := ch a in
         mret (chnl, mkLoc (u32 a) (join_col h colLow) r b)
  | 1 => let '(b, a) := bk addr in let '(r, a) := rk a in let '(h, a) := ch a in
         mret (chnl, mkLoc (u32 a) (join_col h colLow) r b)
  | 2 => let '(r, a) := rk addr in let '(h, a) := ch a in let '(b, a) := bk a in
         mret (chnl, mkLoc (u32 a) (join_col h colLow) r b)
  | 3 => let '(b, a) := bk addr in let '(h, a) := ch a in let '(r, a) := rk a in
         mret (chnl, mkLoc (u32 a) (join_col h colLow) r b)
  | 4 => let '(r, a) := rk addr in let '(b, a) := bk a in mret (chnl, mkLoc (u32 a) col r b)
  | 5 => let '(b, a) := bk addr in let '(r, a) := rk a in mret (chnl, mkLoc (u32 a) col r b)
  | 6 => '(c, a) ← cn addr; let '(b, a) := bk a in let '(r, a) := rk a in
         mret (c, mkLoc (u32 a) col r b)
  | 7 => let '(b, a) := bk addr in '(c, a) ← cn a; let '(r, a) := rk a in
         mret (c, mkLoc (u32 a) col r b)
  | 8 => let '(b, a) := bk addr in let '(r, a) := rk a in '(c, a) ← cn a;
         mret (c, mkLoc (u32 a) col r b)
  | _ => mret (chnl, mkLoc (u32 addr) col 0 0)
  end.

(** [AddressMap] of channel [myId].  The [assert] is its last statement but one. *)
Definition AddressMap (myId addr : Z) : res loc :=
  let '(colLow, addr) :=
    if channelDataWidthLog (pm p) <? byteOffsetWidth (pm p) then field colLowWidth addr else (0, addr) in
  '(chnl, addr) ← (if interleaveType (pm p) <=? 5 then digit (channelCount (pm p)) addr
                   else mret (2 ^ 32 - 1, addr));
  let '(col, addr) :=
    if 4 <=? interleaveType (pm p) then
      let '(h, a) := field colHighWidth addr in (join_col h colLow, a)
    else (0, addr) in
  '(chnl, l) ← decode_rest colLow chnl col addr;
  _ ← assert_that (myId =? chnl);
  mret l.

Definition ReturnChannel (addr : Z) : res Z :=
  let addr := if channelDataWidthLog (pm p) <? byteOffsetWidth (pm p) then Z.shiftr addr colLowWidth else addr in
  let cn result := '(c, _) ← digit (channelCount (pm p)) result; mret c in
  match interleaveType (pm p) with
  | 0 | 1 | 2 | 3 | 4 | 5 => cn addr
  | 6 => cn (Z.shiftr addr colHighWidth)
  | 7 => cn (Z.shiftr (Z.shiftr addr colHighWidth) (bankWidth (pm p)))
  | 8 => cn (Z.shiftr (Z.shiftr (Z.shiftr addr colHighWidth) (bankWidth (pm p))) (rankWidth (pm p)))
  | _ => panic
  end.

(** ** The inverse *)

Definition push (w x addr : Z) : Z := addr * 2 ^ w + x.
Definition colHigh (l : loc) : Z := col l / 2 ^ colLowWidth.
Definition colLow (l : loc) : Z := col l mod 2 ^ colLowWidth.

(** The fields of an address, the most significant one first, as the comment of [AddressMap]
    lists them. *)
Definition rebuild (chnl : Z) (l : loc) : Z :=
  let rk := push (rankWidth (pm p)) (rank l) in
  let bk := push (bankWidth (pm p)) (bank l) in
  let ch := push colHighWidth (colHigh l) in
  let cl := push colLowWidth (colLow l) in
  let cn addr := addr * channelCount (pm p) + chnl in
  match interleaveType (pm p) with
  | 0 => cl (cn (rk (bk (ch (row l)))))
  | 1 => cl (cn (bk (rk (ch (row l)))))
  | 2 => cl (cn (rk (ch (bk (row l)))))
  | 3 => cl (cn (bk (ch (rk (row l)))))
  | 4 => cl (cn (ch (rk (bk (row l)))))
  | 5 => cl (cn (ch (bk (rk (row l)))))
  | 6 => cl (ch (cn (bk (rk (row l)))))
  | 7 => cl (ch (bk (cn (rk (row l)))))
  | _ => cl (ch (bk (rk (cn (row l)))))
  end.

(** What a configuration must say for the mapping to make sense: the shifts are in range, and
    each line has a column. *)
Record addr_ok : Prop := {
  ao_type : 0 <= interleaveType (pm p) <= 8;
  ao_channels : 0 < channelCount (pm p) < 2 ^ 32;
  ao_ranks : 0 < rankCount (pm p) < 2 ^ 32 /\ rankWidth (pm p) = ilog2 32 (rankCount (pm p));
  ao_banks : 0 < bankCount (pm p) < 2 ^ 32 /\ bankWidth (pm p) = ilog2 32 (bankCount (pm p));
  ao_low : 0 <= channelDataWidthLog (pm p) < 32 /\ 0 <= byteOffsetWidth (pm p) < 32;
  ao_col : byteOffsetWidth (pm p) - channelDataWidthLog (pm p) <= colAddrWidth (pm p) < 32 /\ 0 <= colAddrWidth (pm p)
}.

(** The places of channel [chnl]. *)
Definition loc_ok (l : loc) : Prop :=
  0 <= row l < 2 ^ 32 /\ 0 <= col l < 2 ^ colAddrWidth (pm p) /\
  0 <= rank l < 2 ^ rankWidth (pm p) /\ 0 <= bank l < 2 ^ bankWidth (pm p).

(** The addresses whose row fits 32 bits. *)
Definition capacity : Z :=
  2 ^ 32 * 2 ^ colAddrWidth (pm p) * 2 ^ rankWidth (pm p) * 2 ^ bankWidth (pm p) * channelCount (pm p).

(** ** Fields *)

Lemma field_inv w a : 0 <= w <= 32 -> 0 <= a ->
  exists x b, field w a = (x, b) /\ a = push w x b /\ 0 <= x < 2 ^ w /\ 0 <= b.
Proof.
  intros Hw Ha. unfold field, push. rewrite Z.shiftl_1_l, Z.shiftr_div_pow2, land_mask_mod by lia.
  assert (H2 : 0 < 2 ^ w <= 2 ^ 32) by (split; [lia|apply Z.pow_le_mono_r; lia]).
  pose proof (Z.mod_pos_bound a (2 ^ w) ltac:(lia)). eexists _, _. split; [reflexivity|].
  rewrite u32_id by (unfold in_u32; lia). pose proof (Z.div_mod a (2 ^ w)). split; [lia|].
  split; [lia|]. apply Z.div_pos; lia.
Qed.

Lemma field_push w x b : 0 <= w <= 32 -> 0 <= x < 2 ^ w -> 0 <= b -> field w (push w x b) = (x, b).
Proof.
  intros Hw Hx Hb. destruct (field_inv w (push w x b)) as (y & c & -> & E & Hy & Hc); [done|unfold push; nia|].
  unfold push in E. destruct (Z.lt_trichotomy b c) as [H|[<-|H]]; [nia| |nia]. f_equal. lia.
Qed.

Lemma digit_inv n a : 0 < n < 2 ^ 32 -> 0 <= a ->
  exists x b, digit n a = Ok (x, b) /\ a = b * n + x /\ 0 <= x < n /\ 0 <= b.
Proof.
  intros Hn Ha. unfold digit. rewrite (proj2 (Z.eqb_neq n 0)) by lia. cbn.
  pose proof (Z.mod_pos_bound a n ltac:(lia)). pose proof (Z.div_mod a n).
  eexists _, _. split; [reflexivity|]. rewrite u32_id by (unfold in_u32; lia).
  split; [lia|]. split; [lia|]. apply Z.div_pos; lia.
Qed.

Lemma digit_push n x b : 0 < n < 2 ^ 32 -> 0 <= x < n -> 0 <= b -> digit n (b * n + x) = Ok (x, b).
Proof.
  intros Hn Hx Hb. destruct (digit_inv n (b * n + x)) as (y & c & -> & E & Hy & Hc); [done|nia|].
  destruct (Z.lt_trichotomy b c) as [H|[<-|H]]; [nia| |nia]. do 2 f_equal. lia.
Qed.

Lemma shiftr_push w x b : 0 <= w -> 0 <= x < 2 ^ w -> Z.shiftr (push w x b) w = b.
Proof. intros. rewrite Z.shiftr_div_pow2 by done. unfold push. rewrite Z.div_add_l, Z.div_small; lia. Qed.

Lemma push_nonneg w x b : 0 <= w -> 0 <= x -> 0 <= b -> 0 <= push w x b.
Proof. intros. unfold push. assert (0 < 2 ^ w) by lia. nia. Qed.

Lemma push_lt w x b C : 0 <= w -> 0 <= x -> push w x b < 2 ^ w * C -> b < C.
Proof. intros Hw Hx. unfold push. assert (0 < 2 ^ w) by lia. nia. Qed.

Lemma lor_shiftl h l w : 0 <= w -> 0 <= l < 2 ^ w -> Z.lor (Z.shiftl h w) l = h * 2 ^ w + l.
Proof.
  intros Hw Hl. rewrite <- Z.lxor_lor, <- Z.add_nocarry_lxor; [by rewrite Z.shiftl_mul_pow2| |];
    apply Z.bits_inj'; intros i Hi; rewrite Z.land_spec, Z.bits_0;
    (destruct (decide (i < w)); [rewrite Z.shiftl_spec_low by lia; done|]);
    rewrite (testbit_high w l) by lia; apply andb_false_r.
Qed.

Context (Hok : addr_ok).

Lemma low_width : 0 <= colLowWidth < 32 /\ colLowWidth <= colAddrWidth (pm p) < 32.
Proof using Hok.
  destruct Hok as [_ _ _ _ ? ?]. unfold colLowWidth. destruct (Z.ltb_spec (channelDataWidthLog (pm p)) (byteOffsetWidth (pm p))); [|lia].
  rewrite u32_id by (unfold in_u32; lia). lia.
Qed.

Lemma high_width : 0 <= colHighWidth < 32 /\ colAddrWidth (pm p) = colHighWidth + colLowWidth.
Proof using Hok.
  pose proof low_width. destruct Hok as [_ _ _ _ ? ?]. unfold colHighWidth. rewrite u32_id by (unfold in_u32; lia). lia.
Qed.

Lemma log_width n : 0 < n < 2 ^ 32 -> 0 <= ilog2 32 n < 32 /\ 2 ^ ilog2 32 n <= n.
Proof using.
  intros Hn. destruct (ilog2_spec 32 n) as [H1 _]; [lia|]. split; [|done]. unfold ilog2, clz. destruct (Z.eqb_spec n 0); [lia|].
  pose proof (Z.log2_nonneg n). assert (Z.log2 n < 32) by (apply Z.log2_lt_pow2; lia). lia.
Qed.

Lemma rank_width : 0 <= rankWidth (pm p) < 32 /\ 2 ^ rankWidth (pm p) <= rankCount (pm p).
Proof using Hok. destruct (ao_ranks Hok) as [? ->]. by apply log_width. Qed.
Lemma bank_width : 0 <= bankWidth (pm p) < 32 /\ 2 ^ bankWidth (pm p) <= bankCount (pm p).
Proof using Hok. destruct (ao_banks Hok) as [? ->]. by apply log_width. Qed.

Lemma join_spec h l : 0 <= h < 2 ^ colHighWidth -> 0 <= l < 2 ^ colLowWidth ->
  join_col h l = h * 2 ^ colLowWidth + l /\ 0 <= join_col h l < 2 ^ colAddrWidth (pm p).
Proof using Hok.
  intros Hh Hl. pose proof low_width. pose proof high_width as [? E].
  assert (0 < 2 ^ colLowWidth) by lia.
  assert (Hc : 2 ^ colAddrWidth (pm p) = 2 ^ colHighWidth * 2 ^ colLowWidth) by (rewrite E, Z.pow_add_r; lia).
  assert (2 ^ colAddrWidth (pm p) <= 2 ^ 32) by (apply Z.pow_le_mono_r; lia).
  unfold join_col. rewrite u32_id; [rewrite lor_shiftl by lia; rewrite Hc; split; [done|nia]|].
  unfold in_u32. rewrite Z.shiftl_mul_pow2 by lia. nia.
Qed.

Lemma split_col l : 0 <= col l < 2 ^ colAddrWidth (pm p) ->
  0 <= colHigh l < 2 ^ colHighWidth /\ 0 <= colLow l < 2 ^ colLowWidth /\ join_col (colHigh l) (colLow l) = col l.
Proof using Hok.
  intros Hl. pose proof low_width. pose proof high_width as [? E].
  assert (Hc : 2 ^ colAddrWidth (pm p) = 2 ^ colHighWidth * 2 ^ colLowWidth) by (rewrite E, Z.pow_add_r; lia).
  assert (0 < 2 ^ colLowWidth) by lia.
  assert (Hh : 0 <= colHigh l < 2 ^ colHighWidth).
  { unfold colHigh. split; [apply Z.div_pos; lia|apply Z.div_lt_upper_bound; lia]. }
  assert (Hw : 0 <= colLow l < 2 ^ colLowWidth) by (apply Z.mod_pos_bound; lia).
  split; [done|]. split; [done|]. rewrite (proj1 (join_spec _ _ Hh Hw)). unfold colHigh, colLow.
  pose proof (Z.div_mod (col l) (2 ^ colLowWidth)). lia.
Qed.

Lemma join_split h l x : 0 <= h < 2 ^ colHighWidth -> 0 <= l < 2 ^ colLowWidth -> col x = join_col h l ->
  colHigh x = h /\ colLow x = l.
Proof using Hok.
  intros Hh Hl E. unfold colHigh, colLow. rewrite E, (proj1 (join_spec h l Hh Hl)).
  rewrite Z.div_add_l, Z.div_small, (Z.add_comm (h * _)), Z.mod_add, Z.mod_small; lia.
Qed.

Lemma low_field addr :
  (if channelDataWidthLog (pm p) <? byteOffsetWidth (pm p) then field colLowWidth addr else (0, addr)) = field colLowWidth addr /\
  (if channelDataWidthLog (pm p) <? byteOffsetWidth (pm p) then Z.shiftr addr colLowWidth else addr) = Z.shiftr addr colLowWidth.
Proof using. unfold colLowWidth. destruct (_ <? _); [done|]. unfold field. by rewrite Z.shiftr_0_r, Z.land_0_r. Qed.

(** Opens the fields and digits of the goal, from the inside out. *)
Ltac open_fields :=
  repeat match goal with
  | |- context [field ?w ?a] =>
      lazymatch a with context [field _ _] => fail | _ =>
        let x := fresh "x" in let b := fresh "b" in let E := fresh "E" in
        destruct (field_inv w a) as (x & b & E & ? & ? & ?); [lia|lia|rewrite E; clear E; cbn beta iota] end
  | |- context [digit ?n ?a] =>
      let x := fresh "c" in let b := fresh "b" in let E := fresh "E" in
      destruct (digit_inv n a) as (x & b & E & ? & ? & ?); [lia|lia|rewrite E; clear E; cbn [mbind res_bind mret res_ret]; cbn beta iota]
  end.

Lemma digit_lt n x b C : 0 < n -> 0 <= x -> b * n + x < n * C -> b < C.
Proof using. nia. Qed.

Ltac row_bound Ha :=
  repeat match goal with
  | |- ?b < ?C => lazymatch type of Ha with
    | context [push ?w ?x b] => apply (push_lt w x b C); [lia|lia|]
    | context [b * ?n + ?c] => apply (digit_lt n c b C); [lia|lia|]
    end
  end; eapply Z.lt_le_trans; [apply Ha|]; apply Z.eq_le_incl; ring.

Lemma address_map addr : 0 <= addr < capacity -> exists c l,
  ReturnChannel addr = Ok c /\ 0 <= c < channelCount (pm p) /\ loc_ok l /\ rebuild c l = addr /\
  forall myId, AddressMap myId addr = if myId =? c then Ok l else Fail AssertFailed.
Proof using Hok.
  intros Ha. pose proof low_width. pose proof high_width as [? E]. pose proof rank_width as [? _]. pose proof bank_width as [? _].
  pose proof (ao_channels Hok). pose proof (ao_type Hok) as Ht.
  assert (Hc : 2 ^ colAddrWidth (pm p) = 2 ^ colHighWidth * 2 ^ colLowWidth) by (rewrite E, Z.pow_add_r; lia).
  unfold capacity in Ha. rewrite Hc in Ha. clear Hc E.
  unfold ReturnChannel, AddressMap. setoid_rewrite (proj1 (low_field addr)). rewrite (proj2 (low_field addr)).
  destruct (field_inv colLowWidth addr) as (lo & a & E & -> & Hlo & Hpos); [lia|lia|]. rewrite E. clear E. cbn beta iota.
  rewrite shiftr_push by lia. unfold decode_rest, rebuild.
  assert (Hcase : interleaveType (pm p) = 0 \/ interleaveType (pm p) = 1 \/ interleaveType (pm p) = 2 \/ interleaveType (pm p) = 3 \/
    interleaveType (pm p) = 4 \/ interleaveType (pm p) = 5 \/ interleaveType (pm p) = 6 \/ interleaveType (pm p) = 7 \/
    interleaveType (pm p) = 8) by lia. clear Ht.
  destruct Hcase as [->|[->|[->|[->|[->|[->|[->|[->| ->]]]]]]]]; cbn [Z.leb Z.compare Pos.compare Pos.compare_cont mbind res_bind mret res_ret CompOpp].
  all: open_fields; subst; rewrite ?shiftr_push by lia; try rewrite digit_push by lia; eexists _, _; (split; [reflexivity|]).
  all: lazymatch goal with |- context [u32 ?b] =>
    assert (Hrow : 0 <= b < 2 ^ 32) by (split; [done|row_bound Ha]); rewrite (u32_id b) by done end.
  all: lazymatch goal with |- context [join_col ?h ?l] =>
    pose proof (join_spec h l ltac:(assumption) ltac:(assumption)) as [_ Hj];
    pose proof (fun x => join_split h l x ltac:(assumption) ltac:(assumption)) as Hs end.
  all: split; [assumption|]; (split; [|split; [|intros myId; cbn [mbind res_bind mret res_ret]; by destruct (myId =? _)]]).
  all: try (unfold loc_ok; cbn [row col rank bank]; split_and!; lia).
  all: lazymatch goal with |- context [colLow ?l] => by destruct (Hs l eq_refl) as [-> ->] end.
Qed.

Ltac nonneg := repeat first [assumption | lia | apply push_nonneg | apply Z.add_nonneg_nonneg | apply Z.mul_nonneg_nonneg].

Lemma rebuild_map c l : 0 <= c < channelCount (pm p) -> loc_ok l ->
  0 <= rebuild c l /\ ReturnChannel (rebuild c l) = Ok c /\ AddressMap c (rebuild c l) = Ok l.
Proof using Hok.
  intros Hc (Hrow & Hcol & Hrank & Hbank). pose proof low_width. pose proof high_width as [? _]. pose proof rank_width as [? _]. pose proof bank_width as [? _].
  pose proof (ao_channels Hok). pose proof (ao_type Hok) as Ht. destruct (split_col l Hcol) as (Hh & Hl & Hj).
  unfold ReturnChannel, AddressMap. rewrite (proj1 (low_field _)), (proj2 (low_field _)). unfold decode_rest, rebuild.
  assert (Hcase : interleaveType (pm p) = 0 \/ interleaveType (pm p) = 1 \/ interleaveType (pm p) = 2 \/ interleaveType (pm p) = 3 \/
    interleaveType (pm p) = 4 \/ interleaveType (pm p) = 5 \/ interleaveType (pm p) = 6 \/ interleaveType (pm p) = 7 \/
    interleaveType (pm p) = 8) by lia. clear Ht.
  destruct Hcase as [->|[->|[->|[->|[->|[->|[->|[->| ->]]]]]]]]; cbn [Z.leb Z.compare Pos.compare Pos.compare_cont mbind res_bind mret res_ret CompOpp].
  all: split; [nonneg|].
  all: repeat (first [rewrite field_push by (lia || nonneg) | rewrite digit_push by (lia || nonneg) | rewrite shiftr_push by lia]; cbn beta iota; cbn [mbind res_bind mret res_ret]).
  all: rewrite ?Z.eqb_refl, Hj, u32_id by done; destruct l; split; reflexivity.
Qed.

End map.

(** C25: an address and its place determine each other.  Every address whose row fits 32 bits
    has a channel, on which, and only on which, [AddressMap] passes its assertion; the rank
    and the bank it finds exist, and the place rebuilds the address.  Every place of every
    channel is that of an address. *)
Theorem det_addr_roundtrip p : addr_ok p ->
  (forall addr, 0 <= addr < capacity p -> exists c l,
     ReturnChannel p addr = Ok c /\ 0 <= c < channelCount (pm p) /\
     (0 <= row l < 2 ^ 32 /\ 0 <= col l < 2 ^ colAddrWidth (pm p)) /\
     0 <= rank l < rankCount (pm p) /\ 0 <= bank l < bankCount (pm p) /\ rebuild p c l = addr /\
     forall myId, AddressMap p myId addr = if myId =? c then Ok l else Fail AssertFailed) /\
  (forall c l, 0 <= c < channelCount (pm p) -> loc_ok p l ->
     ReturnChannel p (rebuild p c l) = Ok c /\ AddressMap p c (rebuild p c l) = Ok l).
Proof.
  intros Hok. split.
  - intros addr Ha. destruct (address_map p Hok addr Ha) as (c & l & H1 & H2 & (H3 & H4 & H5 & H6) & H7 & H8).
    pose proof (rank_width p Hok). pose proof (bank_width p Hok). exists c, l. split_and!; auto; lia.
  - intros c l Hc Hl. by destruct (rebuild_map p Hok c l Hc Hl) as (_ & H1 & H2).
Qed.

Lemma ddr3_addr_ok k policy merge : 0 <= k <= 8 -> addr_ok (ddr3 [("mc_spec.interleaveType", k)]%string policy merge).
Proof.
  intros Hk. unfold ddr3. destruct (LoadConfig _ _) as [q|] eqn:E; vm_compute in E; [|done].
  injection E as <-. split; cbn -[Z.pow]; try lia; split; try lia; reflexivity.
Qed.

Lemma det_addr_roundtrip_witness : let p := ddr3 [("mc_spec.interleaveType", 7)]%string "open"%string false in
  0 <= 123456789 < capacity p /\ AddressMap p 0 123456789 = Ok (mkLoc 7535 277 0 3) /\
  rebuild p 0 (mkLoc 7535 277 0 3) = 123456789 /\ ReturnChannel p 123456789 = Ok 0.
Proof.
  intros p. assert (Hok : addr_ok p) by (apply ddr3_addr_ok; lia).
  destruct (det_addr_roundtrip p Hok) as [_ H].
  assert (Hr : rebuild p 0 (mkLoc 7535 277 0 3) = 123456789) by (vm_compute; reflexivity).
  destruct (H 0 (mkLoc 7535 277 0 3)) as [H1 H2]; [vm_compute; split; congruence|vm_compute; repeat split; congruence|].
  rewrite Hr in H1, H2. split; [vm_compute; split; congruence|]. by split_and!.
Defined.

End DetAddr.
