(* ===== verification/DetChannel.v ===== *)
(** The channels of the detailed memory model (detailed_mem.h and detailed_mem.cpp): the state
    of a rank, the timing of an access, the slots of the data bus and the counters of power.

    Cycles are 64-bit counters that do not wrap; 32-bit products and counts are written out.
    The sentinel [(uint64_t)-1] of a command that is not issued is [None].  An index past an
    array is a failure.  [sent] lists the commands of a rank, the newest first: the code has
    only their cycles. *)
From S2P Require Import Prelude DetParams DetAddr.
Import DetParams DetAddr.

Module DetChannel.

(** ** A rank *)

(** What the memory devices of a rank are told.  [Keep] withdraws a precharge that has not
    happened yet. *)
Inductive cmd :=
  | Act (bk rw c : Z)
  | Burst (bk rw : Z) (type : MemAccessType) (c : Z)
  | Pre (bk c : Z)
  | Keep (bk c : Z)
  | Refresh.

Record counts := mkCounts {
  activateCount : Z; prechargeCount : Z; readBurstCount : Z; writeBurstCount : Z
}.
Definition incActivate (n : counts) : counts :=
  mkCounts (u64 (activateCount n + 1)) (prechargeCount n) (readBurstCount n) (writeBurstCount n).
Definition addPrecharge (k : Z) (n : counts) : counts :=
  mkCounts (activateCount n) (u64 (prechargeCount n + k)) (readBurstCount n) (writeBurstCount n).
Definition incBurst (type : MemAccessType) (n : counts) : counts :=
  match type with
  | READ => mkCounts (activateCount n) (prechargeCount n) (u64 (readBurstCount n + 1)) (writeBurstCount n)
  | WRITE => mkCounts (activateCount n) (prechargeCount n) (readBurstCount n) (u64 (writeBurstCount n + 1))
  end.

(** Cycles in power down with all banks idle, with some active, and in standby with all idle. *)
Record background := mkBg {
  idlePowerDownCycle : Z; actvPowerDownCycle : Z; idleStandbyCycle : Z
}.
Definition bg_total (b : background) : Z := idlePowerDownCycle b + actvPowerDownCycle b + idleStandbyCycle b.
Definition bg_add (i a s : Z) (b : background) : background :=
  mkBg (idlePowerDownCycle b + i) (actvPowerDownCycle b + a) (idleStandbyCycle b + s).

Record MemRank := mkRank {
  lastBank : Z;
  lastAccessCycle : Z;
  lastRefreshCycle : Z;
  refreshNum : Z;
  accessInRefresh : Z;
  tFAWIndex : Z;
  bankinfo : Z -> bool;
  lastRow : Z -> Z;
  lastType : Z -> MemAccessType;
  lastActCycle : Z -> Z;
  lastRdWrCycle : Z -> Z;
  lastPreCycle : Z -> Z;
  tFAWCycle : Z -> Z;
  num : counts;
  bg : background;
  prevBg : background;
  sent : list cmd
}.

Definition newRank : MemRank :=
  mkRank 0 0 0 0 0 0 (fun _ => false) (fun _ => 0) (fun _ => READ) (fun _ => 0) (fun _ => 0) (fun _ => 0)
    (fun _ => 0) (mkCounts 0 0 0 0) (mkBg 0 0 0) (mkBg 0 0 0) [].

Definition set_num (n : counts) (r : MemRank) : MemRank :=
  mkRank (lastBank r) (lastAccessCycle r) (lastRefreshCycle r) (refreshNum r) (accessInRefresh r) (tFAWIndex r)
    (bankinfo r) (lastRow r) (lastType r) (lastActCycle r) (lastRdWrCycle r) (lastPreCycle r) (tFAWCycle r)
    n (bg r) (prevBg r) (sent r).
Definition set_bg (b b' : background) (r : MemRank) : MemRank :=
  mkRank (lastBank r) (lastAccessCycle r) (lastRefreshCycle r) (refreshNum r) (accessInRefresh r) (tFAWIndex r)
    (bankinfo r) (lastRow r) (lastType r) (lastActCycle r) (lastRdWrCycle r) (lastPreCycle r) (tFAWCycle r)
    (num r) b b' (sent r).
Definition set_refresh (n k : Z) (r : MemRank) : MemRank :=
  mkRank (lastBank r) (lastAccessCycle r) (lastRefreshCycle r) n k (tFAWIndex r)
    (bankinfo r) (lastRow r) (lastType r) (lastActCycle r) (lastRdWrCycle r) (lastPreCycle r) (tFAWCycle r)
    (num r) (bg r) (prevBg r) (sent r).
Definition send (c : cmd) (r : MemRank) : MemRank :=
  mkRank (lastBank r) (lastAccessCycle r) (lastRefreshCycle r) (refreshNum r) (accessInRefresh r) (tFAWIndex r)
    (bankinfo r) (lastRow r) (lastType r) (lastActCycle r) (lastRdWrCycle r) (lastPreCycle r) (tFAWCycle r)
    (num r) (bg r) (prevBg r) (c :: sent r).

(** [MemRankBase::access]. *)
Definition rank_access (accessCycle issuedCycle rw bk : Z) (type : MemAccessType) (r : MemRank) : res MemRank :=
  _ ← assert_that (lastRdWrCycle r bk <? issuedCycle);
  mret (send (Burst bk rw type issuedCycle)
    (mkRank bk (Z.max (lastAccessCycle r) accessCycle) (lastRefreshCycle r) (refreshNum r) (accessInRefresh r)
      (tFAWIndex r) (bankinfo r) (<[bk := rw]> (lastRow r)) (<[bk := type]> (lastType r)) (lastActCycle r)
      (<[bk := issuedCycle]> (lastRdWrCycle r)) (lastPreCycle r) (tFAWCycle r)
      (incBurst type (num r)) (bg r) (prevBg r) (sent r))).

(** [MemRankBase::refresh]. *)
Definition rank_refresh (lastCycle : Z) (r : MemRank) : res MemRank :=
  _ ← assert_that (lastRefreshCycle r <? lastCycle);
  mret (send Refresh
    (mkRank (lastBank r) (lastAccessCycle r) lastCycle (refreshNum r) (accessInRefresh r) (tFAWIndex r)
      (fun _ => false) (lastRow r) (lastType r) (lastActCycle r) (lastRdWrCycle r) (lastPreCycle r) (tFAWCycle r)
      (num r) (bg r) (prevBg r) (sent r))).

Definition SetRefreshNum (n : Z) (r : MemRank) : res MemRank :=
  _ ← assert_that (refreshNum r <=? n); mret (set_refresh n (accessInRefresh r) r).

Section channel.
Context (p : MemParam).

Definition GetActiveBankCount (r : MemRank) : Z :=
  Z.of_nat (length (List.filter (bankinfo r) (seqZ 0 (bankCount (pm p))))).

Definition IsRowBufferHit (rw bk : Z) (r : MemRank) : bool := bankinfo r bk && (lastRow r bk =? rw).

(** [IssueActivate]: the ring of activations has as many entries as the rank has banks, and its
    index runs through four. *)
Definition IssueActivate (bk rw issuedCycle : Z) (r : MemRank) : res MemRank :=
  _ ← assert_that (tFAWIndex r <? bankCount (pm p));
  _ ← assert_that (tFAWCycle r (tFAWIndex r) <=? issuedCycle);
  _ ← assert_that (lastActCycle r bk <=? issuedCycle);
  mret (send (Act bk rw issuedCycle)
    (mkRank (lastBank r) (lastAccessCycle r) (lastRefreshCycle r) (refreshNum r) (accessInRefresh r)
      ((tFAWIndex r + 1) mod 4) (<[bk := true]> (bankinfo r)) (lastRow r) (lastType r)
      (<[bk := issuedCycle]> (lastActCycle r)) (lastRdWrCycle r) (lastPreCycle r)
      (<[tFAWIndex r := issuedCycle]> (tFAWCycle r)) (incActivate (num r)) (bg r) (prevBg r) (sent r))).

Definition IssuePrecharge (bk issuedCycle : Z) (continuous : bool) (r : MemRank) : res MemRank :=
  _ ← assert_that (lastPreCycle r bk <=? issuedCycle);
  mret (send (Pre bk issuedCycle)
    (mkRank (lastBank r) (lastAccessCycle r) (lastRefreshCycle r) (refreshNum r) (accessInRefresh r) (tFAWIndex r)
      (<[bk := false]> (bankinfo r)) (lastRow r) (lastType r) (lastActCycle r) (lastRdWrCycle r)
      (<[bk := issuedCycle]> (lastPreCycle r)) (tFAWCycle r)
      (if continuous then num r else addPrecharge 1 (num r)) (bg r) (prevBg r) (sent r))).

(** ** Refresh *)

Definition UpdateRefreshNum (arrivalCycle : Z) (r : MemRank) : res (Z * MemRank) :=
  n ← (if lastRefreshCycle r <=? arrivalCycle
       then q ← udiv (arrivalCycle - lastRefreshCycle r) (tREFI (pt p)); mret (u32 q)
       else mret 0);
  r ← SetRefreshNum (u32 (refreshNum r + n)) r;
  mret (n, r).

Definition UpdateLastRefreshCycle (n : Z) (r : MemRank) : res MemRank :=
  if 0 <? n then
    rank_refresh (lastRefreshCycle r + u32 (tREFI (pt p) * n))
      (set_num (addPrecharge (GetActiveBankCount r) (num r)) r)
  else mret r.

(** ** Power *)

Definition GetPowerDownPenalty (arrivalCycle : Z) (r : MemRank) : Z :=
  if negb (powerDownCycle (pm p) =? 0) && (lastAccessCycle r + powerDownCycle (pm p) <? arrivalCycle)
  then tXP (pt p) else 0.

(** What [UpdatePowerDownCycle] adds to the three counters; [pd] and [lastPd] are its
    [powerDownCycle] and [lastPowerDownCycle]. *)
Definition power_down (arrivalCycle lastPhaseCycle pd lastPd n : Z) (r : MemRank) : res background :=
  let lastAccess := lastAccessCycle r in
  let bankCount := bankCount (pm p) in
  let actbanknum := GetActiveBankCount r in
  let idlbanknum := u32 (bankCount - actbanknum) in
  if (lastAccess =? 0) && (lastPhaseCycle =? 0) then mret (bg_add arrivalCycle 0 0 (bg r))
  else if arrivalCycle <=? lastAccess then mret (bg r)
  else if arrivalCycle <=? lastPd then
    let diff := arrivalCycle - lastAccess in
    if IsCloseRowBufPolicy p then mret (bg_add 0 0 diff (bg r))
    else s ← udiv (idlbanknum * diff) bankCount; mret (bg_add 0 0 s (bg r))
  else
    let duration := arrivalCycle - lastPd in
    if IsCloseRowBufPolicy p then mret (bg_add duration 0 pd (bg r))
    else if n =? 0 then
      i ← udiv (idlbanknum * duration) bankCount;
      a ← udiv (actbanknum * duration) bankCount;
      s ← udiv (u32 (idlbanknum * pd)) bankCount;
      mret (bg_add i a s (bg r))
    else
      let refreshEnd1 := lastRefreshCycle r + tREFI (pt p) in
      let refreshEnd2 := lastRefreshCycle r + u32 (tREFI (pt p) * n) in
      _ ← assert_that (refreshEnd2 <=? arrivalCycle);
      let diffArrival := arrivalCycle - refreshEnd2 in
      let diffRefresh := if lastPd <? refreshEnd1 then refreshEnd1 - lastPd else 0 in
      i ← udiv (idlbanknum * diffRefresh + (u32 (u32 (n - 1) * tREFI (pt p)) + diffArrival)) bankCount;
      a ← udiv (actbanknum * diffRefresh) bankCount;
      s ← udiv (u32 (idlbanknum * pd)) bankCount;
      mret (bg_add i a s (bg r)).

Definition UpdatePowerDownCycle (arrivalCycle lastPhaseCycle n : Z) (r : MemRank) : res MemRank :=
  if powerDownCycle (pm p) =? 0 then mret r
  else
    let lastPd := lastAccessCycle r + powerDownCycle (pm p) in
    let '(pd, lastPd) := if lastPd <? lastPhaseCycle then (0, lastPhaseCycle) else (powerDownCycle (pm p), lastPd) in
    b ← power_down arrivalCycle lastPhaseCycle pd lastPd n r;
    _ ← assert_that (bg_total b <=? arrivalCycle);
    _ ← assert_that (idlePowerDownCycle (bg r) <=? idlePowerDownCycle b);
    _ ← assert_that (actvPowerDownCycle (bg r) <=? actvPowerDownCycle b);
    _ ← assert_that (idleStandbyCycle (bg r) <=? idleStandbyCycle b);
    mret (set_bg b (prevBg r) r).

(** One rank of [PeriodicUpdatePower]. *)
Definition periodic_rank (phaseCycle lastPhaseCycle : Z) (r : MemRank) : res MemRank :=
  if lastAccessCycle r <? phaseCycle then
    '(n, r) ← UpdateRefreshNum phaseCycle r;
    r ← UpdatePowerDownCycle phaseCycle lastPhaseCycle n r;
    UpdateLastRefreshCycle n r
  else mret r.

(** ** The constraints of a rank *)

Definition CalcIntraIssueCycle (rowHit : bool) (type : MemAccessType) (arrivalCycle n : Z) (r : MemRank) : Z * MemRank :=
  let lastT := lastType r (lastBank r) in
  let refCycle := GetRefreshCycle p in
  let refOverlap := lastAccessCycle r - lastRefreshCycle r in
  let k := if n =? 0 then 0 else accessInRefresh r in
  let k := if negb (lastRefreshCycle r =? 0) && (refOverlap <=? refCycle) && (lastRefreshCycle r <=? lastAccessCycle r)
           then u32 (k + 1) else 0 in
  let r := set_refresh (refreshNum r) k r in
  if negb (k =? 0) then
    let issuable := Z.max (lastRefreshCycle r + refCycle + refOverlap) arrivalCycle in
    (if 2 <=? k then issuable + GetRdWrDelay p type lastT else issuable, r)
  else
    let lastIssued := lastRdWrCycle r (lastBank r) in
    if negb (lastIssued =? 0) then
      (Z.max (lastIssued + (if rowHit then GetRdWrDelay p type lastT else 1)) arrivalCycle, r)
    else (arrivalCycle, r).

(** The latest activation of the rank. *)
Definition latestAct (r : MemRank) : Z := foldr Z.max 0 (lastActCycle r <$> seqZ 0 (bankCount (pm p))).

Definition CalcActConst (bk issuableCycle : Z) (r : MemRank) : res Z :=
  if lastActCycle r bk =? 0 then mret issuableCycle
  else
    let c := Z.max issuableCycle (lastActCycle r bk + tRC (pt p)) in
    let c := if lastPreCycle r bk =? 0 then c else Z.max c (lastPreCycle r bk + tRP (pt p)) in
    let c := Z.max c (latestAct r + tRRD (pt p)) in
    _ ← assert_that (tFAWIndex r <? bankCount (pm p));
    mret (Z.max c (tFAWCycle r (tFAWIndex r) + tFAW (pt p))).

Definition CalcPreConst (bk : Z) (type : MemAccessType) (issuableCycle : Z) (r : MemRank) : Z :=
  Z.max (Z.max issuableCycle (lastRdWrCycle r bk + GetPreDelay p type)) (lastActCycle r bk + tRAS (pt p)).

Definition CalcRdWrConst (type : MemAccessType) (issuableCycle : Z) (r : MemRank) : Z :=
  Z.max issuableCycle (lastRdWrCycle r (lastBank r) + GetRdWrDelay p type (lastType r (lastBank r))).

Definition CheckContinuousAccess (arrivalCycle bk rw : Z) (r : MemRank) : bool :=
  mergeContinuous (pm p) && (arrivalCycle <? lastPreCycle r bk) && (lastRow r bk =? rw).

(** ** The data bus *)

Definition pair_leb (x y : Z * Z) : bool := (x.1 <? y.1) || ((x.1 =? y.1) && (x.2 <=? y.2)).

Fixpoint insert_pair (x : Z * Z) (l : list (Z * Z)) : list (Z * Z) :=
  match l with
  | [] => [x]
  | y :: l' => if pair_leb x y then x :: l else y :: insert_pair x l'
  end.

(** [sort] of the library: the order of pairs is total, so its result is this one. *)
Definition sort_pairs (l : list (Z * Z)) : list (Z * Z) := foldr insert_pair [] l.

Definition UpdateDataBusCycle (start fin : Z) (accessLog : list (Z * Z)) : res (list (Z * Z)) :=
  let l := sort_pairs (accessLog ++ [(start, fin)]) in
  if accessLogDepth (pm p) <? Z.of_nat (length l) then
    match l with
    | _ :: (_, e) :: l => mret ((0, e) :: l)
    | _ => Fail AssertFailed
    end
  else mret l.

(** The loop of [CalcInterIssueCycle], for [tStart]. *)
Fixpoint find_slot (tSlot tStart : Z) (l : list (Z * Z)) : Z :=
  match l with
  | [] => tStart
  | (s, e) :: l =>
      let tEnd := tStart + tSlot in
      let busEnd := e + tRTRS (pt p) in
      if ((s <? tEnd) && (tEnd <=? busEnd)) || ((s <=? tStart) && (tStart <? busEnd)) then find_slot tSlot busEnd l
      else if tEnd <? s then tStart
      else find_slot tSlot tStart l
  end.

Definition CalcInterIssueCycle (type : MemAccessType) (arrivalCycle : Z) (accessLog : list (Z * Z)) : Z :=
  let tWait := GetDataLatency p type in
  find_slot (u32 (GetDataSlot p type + tRTRS (pt p))) (arrivalCycle + tWait) accessLog - tWait.

(** ** LatencySimulate *)

(** The activation that the access needs, if any, and whether the access continues one whose
    precharge has not happened yet. *)
Definition open_row (rowHit : bool) (l : loc) (type : MemAccessType) (arrivalCycle n : Z) (r : MemRank) :
    res (bool * option Z * MemRank) :=
  if IsOpenRowBufPolicy p then
    if rowHit then mret (false, None, r)
    else
      let '(issueCycle, r) := CalcIntraIssueCycle rowHit type arrivalCycle n r in
      if bankinfo r (bank l) then
        let preIssue := CalcPreConst (bank l) (lastType r (bank l)) issueCycle r in
        _ ← assert_that (issueCycle <=? preIssue);
        r ← IssuePrecharge (bank l) preIssue false r;
        mret (false, Some (preIssue + tRP (pt p)), r)
      else mret (false, Some issueCycle, r)
  else
    _ ← assert_that (negb rowHit);
    if CheckContinuousAccess arrivalCycle (bank l) (row l) r
    then mret (true, None, send (Keep (bank l) arrivalCycle) r)
    else
      let '(issueCycle, r) := CalcIntraIssueCycle rowHit type arrivalCycle n r in
      mret (false, Some issueCycle, r).

Definition activate (l : loc) (arrivalCycle : Z) (act : option Z) (r : MemRank) : res (option Z * MemRank) :=
  match act with
  | None => mret (None, r)
  | Some c =>
      c ← CalcActConst (bank l) c r;
      r ← IssueActivate (bank l) (row l) c r;
      _ ← assert_that (arrivalCycle <=? c);
      mret (Some c, r)
  end.

(** The cycle from which a slot of the data bus is looked for. *)
Definition rdwr_start (rowHit continuous : bool) (act : option Z) (type : MemAccessType) (arrivalCycle n : Z)
    (r : MemRank) : res (Z * MemRank) :=
  match act with
  | None =>
      if continuous then mret (CalcRdWrConst type arrivalCycle r, r)
      else
        _ ← assert_that rowHit;
        _ ← assert_that (IsOpenRowBufPolicy p);
        mret (CalcIntraIssueCycle rowHit type arrivalCycle n r)
  | Some c => mret (CalcRdWrConst type (c + tRCD (pt p)) r, r)
  end.

Definition close_row (l : loc) (type : MemAccessType) (rdwrIssue : Z) (continuous : bool) (r : MemRank) : res MemRank :=
  if IsCloseRowBufPolicy p then
    let preIssue := CalcPreConst (bank l) type rdwrIssue r in
    _ ← assert_that (rdwrIssue <=? preIssue);
    IssuePrecharge (bank l) preIssue continuous r
  else mret r.

(** The steps before the burst: whether the access continues another one, and the cycle from
    which its burst may be issued. *)
Definition prepare (l : loc) (type : MemAccessType) (arrivalCycle n : Z) (r : MemRank) : res (bool * Z * MemRank) :=
  let rowHit := IsRowBufferHit (row l) (bank l) r in
  '(continuous, act, r) ← open_row rowHit l type arrivalCycle n r;
  '(act, r) ← activate l arrivalCycle act r;
  '(rdwrStart, r) ← rdwr_start rowHit continuous act type arrivalCycle n r;
  mret (continuous, rdwrStart, r).

(** The access on its rank and on the log of the bus.  It returns the latency, and the burst on
    the data bus beside it. *)
Definition simulate_rank (l : loc) (arrivalCycle lastPhaseCycle : Z) (type : MemAccessType) (accessLog : list (Z * Z))
    (r : MemRank) : res (Z * (Z * Z) * list (Z * Z) * MemRank) :=
  '(n, r) ← UpdateRefreshNum arrivalCycle r;
  let pd_penalty := GetPowerDownPenalty arrivalCycle r in
  r ← UpdatePowerDownCycle arrivalCycle lastPhaseCycle n r;
  r ← UpdateLastRefreshCycle n r;
  '(continuous, rdwrStart, r) ← prepare l type arrivalCycle n r;
  _ ← assert_that (arrivalCycle <=? rdwrStart);
  let rdwrIssue := CalcInterIssueCycle type rdwrStart accessLog in
  _ ← assert_that (arrivalCycle <=? rdwrIssue);
  let latency := rdwrIssue - arrivalCycle + GetDataDelay p type + pd_penalty in
  let latency_mem := latency + u32 (tTrans (pt p) - tTransCrit (pt p)) in
  r ← rank_access (arrivalCycle + latency_mem) rdwrIssue (row l) (bank l) type r;
  r ← close_row l type rdwrIssue continuous r;
  let busEnd := arrivalCycle + latency_mem in
  let busStart := busEnd - GetDataSlot p type in
  log ← UpdateDataBusCycle busStart busEnd accessLog;
  mret (latency, (busStart, busEnd), log, r).

Record MemChannel := mkChannel {
  myId : Z;
  ranks : Z -> MemRank;
  accessLog : list (Z * Z);
  bursts : list (Z * Z) (* of the whole run, the newest first: not in the code *)
}.

Definition newChannel (id : Z) : MemChannel := mkChannel id (fun _ => newRank) [] [].

(** [MemChannelBase::LatencySimulate]. *)
Definition LatencySimulate (lineAddr arrivalCycle lastPhaseCycle : Z) (type : MemAccessType) (c : MemChannel) :
    res (Z * MemChannel) :=
  l ← AddressMap p (myId c) lineAddr;
  _ ← assert_that ((rank l <? rankCount (pm p)) && (bank l <? bankCount (pm p)));
  '(latency, burst, log, r) ← simulate_rank l arrivalCycle lastPhaseCycle type (accessLog c) (ranks c (rank l));
  mret (latency, mkChannel (myId c) (<[rank l := r]> (ranks c)) log (burst :: bursts c)).

Definition PeriodicUpdatePower (phaseCycle lastPhaseCycle : Z) (c : MemChannel) : res MemChannel :=
  foldM (fun c i => r ← periodic_rank phaseCycle lastPhaseCycle (ranks c i);
                    mret (mkChannel (myId c) (<[i := r]> (ranks c)) (accessLog c) (bursts c)))
    c (seqZ 0 (rankCount (pm p))).

End channel.
End DetChannel.
