(* ===== verification/DetRank.v ===== *)
(** The ranks of the detailed memory model run without a failed assertion, and their commands
    respect the timing of the devices: an abstract rank of devices, which accepts a command
    only at a cycle its timing allows, and the invariant that relates it to the code's. *)
From S2P Require Import Prelude DetParams DetAddr DetChannel.
Import DetParams DetAddr DetChannel.

Module DetRank.

(** ** The devices *)

Record device_bank := mkDB {
  b_row : option Z; b_act : option Z; b_rw : option (Z * MemAccessType); b_pre : option Z
}.
Record devices := mkDev {
  banks : Z -> device_bank;
  acts : list Z (* newest first *);
  last_rw : option (Z * MemAccessType)
}.
Definition new_devices : devices := mkDev (fun _ => mkDB None None None None) [] None.

(** Cycle [c] is [d] cycles after [x], if there is one. *)
Definition late (x : option Z) (d c : Z) : bool := match x with None => true | Some y => y + d <=? c end.

Section rank.
Context (p : MemParam).
Local Notation t := (pt p).

(** The new state of the devices, if they accept the command.  They have no way to take back
    a precharge. *)
Definition accept (x : cmd) (d : devices) : option devices :=
  match x with
  | Act bk rw c =>
      let b := banks d bk in
      if bool_decide (b_row b = None) && late (b_act b) (tRC t) c && late (b_pre b) (tRP t) c &&
         late (acts d !! 0%nat) (tRRD t) c && late (acts d !! 3%nat) (tFAW t) c
      then Some (mkDev (<[bk := mkDB (Some rw) (Some c) (b_rw b) (b_pre b)]> (banks d)) (c :: acts d) (last_rw d))
      else None
  | Burst bk rw type c =>
      let b := banks d bk in
      if bool_decide (b_row b = Some rw) && late (b_act b) (tRCD t) c &&
         late (fst <$> last_rw d) (default 0 ((fun x => GetRdWrDelay p type x.2) <$> last_rw d)) c
      then Some (mkDev (<[bk := mkDB (b_row b) (b_act b) (Some (c, type)) (b_pre b)]> (banks d)) (acts d) (Some (c, type)))
      else None
  | Pre bk c =>
      let b := banks d bk in
      if bool_decide (b_row b <> None) && late (b_act b) (tRAS t) c &&
         late (fst <$> b_rw b) (default 0 ((fun x => GetPreDelay p x.2) <$> b_rw b)) c
      then Some (mkDev (<[bk := mkDB None (b_act b) (b_rw b) (Some c)]> (banks d)) (acts d) (last_rw d))
      else None
  | Keep _ _ => None
  | Refresh => Some (mkDev (fun bk => mkDB None (b_act (banks d bk)) (b_rw (banks d bk)) (b_pre (banks d bk))) (acts d) (last_rw d))
  end.

(** The devices after the commands, of which the newest comes first. *)
Fixpoint after (l : list cmd) : option devices :=
  match l with
  | [] => Some new_devices
  | x :: l => after l ≫= accept x
  end.

(** ** Parameters that make sense *)

Record timing_ok : Prop := {
  to_small : Forall (fun x => 0 <= x < 2 ^ 24)
    [tRC t; tRAS t; tRCD t; tRP t; tRPab t; tRTRS t; tRRD t; tWR t; tWTR t; tCAS t; tCWD t; tCCD t; tTrans t;
     tXP t; tRFC t; tFAW t; tRTP t];
  to_trans : 1 <= tTrans t /\ tTransCrit t = tTrans t / 4;
  to_refi : 1 <= tREFI t < 2 ^ 31;
  to_constraints : constraints p = MakeConstraints t;
  to_rw : tCWD t < tCAS t + tCCD t / 2 + 2;
  to_refresh : tWTR t <= tRFC t /\ tCCD t + 2 <= tRFC t;
  to_acts : tRRD t <= tRCD t + 1 /\ tFAW t <= 4 * (tRCD t + 1);
  to_merge : mergeContinuous (pm p) = true -> tWR t <= tWTR t + tRTP t /\ tRTP t <= tCWD t + tTrans t + tWR t;
  to_banks : 4 <= bankCount (pm p) < 2 ^ 32;
  to_pd : 0 <= powerDownCycle (pm p) <= tREFI t
}.

Context (Hok : timing_ok).

Ltac small := pose proof (to_small Hok) as Hsmall; rewrite !Forall_cons in Hsmall; destruct Hsmall as (?&?&?&?&?&?&?&?&?&?&?&?&?&?&?&?&?&_).

Lemma i32_id x : 0 <= x < 2 ^ 31 -> i32 x = x.
Proof using. intros. unfold i32. rewrite Z.mod_small; lia. Qed.

Lemma delay_spec type last : GetRdWrDelay p type last =
  match last, type with
  | READ, READ | WRITE, WRITE => Z.max (tTrans t) (tCCD t)
  | READ, WRITE => tCAS t + tCCD t / 2 + 2 - tCWD t
  | WRITE, READ => tCWD t + tTrans t + tWTR t
  end.
Proof using Hok.
  small. pose proof (to_rw Hok). unfold GetRdWrDelay. rewrite (to_constraints Hok). unfold MakeConstraints.
  assert (0 <= tCCD t / 2 <= tCCD t) by (split; [apply Z.div_pos; lia|apply Z.div_le_upper_bound; lia]).
  destruct last, type; cbn [type_index];
    lazymatch goal with |- context [Z.to_nat ?x] => let n := eval vm_compute in (Z.to_nat x) in change (Z.to_nat x) with n end; cbn [nth];
    rewrite ?(u32_id (_ + _)), ?(u32_id (_ - _)), ?i32_id, u32_id by (unfold in_u32; lia); lia.
Qed.

Lemma delay_pos type last : 1 <= GetRdWrDelay p type last < 2 ^ 27.
Proof using Hok.
  small. pose proof (to_rw Hok). pose proof (to_trans Hok). rewrite delay_spec.
  assert (0 <= tCCD t / 2 <= tCCD t) by (split; [apply Z.div_pos; lia|apply Z.div_le_upper_bound; lia]).
  destruct last, type; lia.
Qed.

Lemma pre_delay type : GetPreDelay p type = match type with READ => tRTP t | WRITE => tCWD t + tTrans t + tWR t end.
Proof using Hok. small. destruct type; [done|]. cbn. apply u32_id. unfold in_u32. lia. Qed.

Lemma refresh_cycle : 0 <= tRFC t <= GetRefreshCycle p /\ GetRefreshCycle p < 2 ^ 25.
Proof using Hok. small. unfold GetRefreshCycle. destruct (IsOpenRowBufPolicy p); [rewrite u32_id by (unfold in_u32; lia)|]; lia. Qed.

(** While a refresh postpones an access, it also waits for the bus of the last one. *)
Lemma delay_refresh type last : GetRdWrDelay p type last <= GetDataLatency p last + tTrans t + GetRefreshCycle p.
Proof using Hok.
  small. pose proof refresh_cycle. pose proof (to_refresh Hok). rewrite delay_spec.
  assert (0 <= tCCD t / 2 <= tCCD t) by (split; [apply Z.div_pos; lia|apply Z.div_le_upper_bound; lia]).
  destruct last, type; cbn; lia.
Qed.

Lemma data_delay type : GetDataDelay p type = GetDataLatency p type + tTrans t / 4 /\ u32 (tTrans t - tTransCrit t) = tTrans t - tTrans t / 4 /\
  0 <= GetDataLatency p type < 2 ^ 24 /\ 0 <= tTrans t / 4 <= tTrans t.
Proof using Hok.
  small. destruct (to_trans Hok) as [? Ec].
  assert (0 <= tTrans t / 4 <= tTrans t) by (split; [apply Z.div_pos; lia|apply Z.div_le_upper_bound; lia]).
  assert (0 <= GetDataLatency p type < 2 ^ 24) by (destruct type; cbn; lia).
  unfold GetDataDelay. rewrite Ec, !u32_id by (unfold in_u32; lia). lia.
Qed.

(** ** The invariant *)

(** The last read or write command of the rank. *)
Definition lastIssue (r : MemRank) : Z := lastRdWrCycle r (lastBank r).

(** [pend] is the bank and the row of an access between its activation and its burst; no
    activation is later than [B] but for [tRCD], which is the last burst between accesses. *)
Record core (pend : option (Z * Z)) (B : Z) (r : MemRank) : Prop := {
  co_idx : 0 <= tFAWIndex r < 4;
  co_faw : forall i, tFAWCycle r i <= B;
  co_bound : 0 <= lastIssue r <= B;
  co_rw : forall b, 0 <= lastRdWrCycle r b <= lastIssue r;
  co_act : forall b, 0 <= lastActCycle r b <= B /\
    (lastActCycle r b <> 0 -> lastActCycle r b + tRCD t <= lastRdWrCycle r b \/
       (fst <$> pend = Some b /\ lastActCycle r b + tRCD t <= B));
  co_never : forall b, lastActCycle r b = 0 ->
    lastRdWrCycle r b = 0 /\ lastPreCycle r b = 0 /\ bankinfo r b = false /\ lastType r b = READ;
  co_access : (lastIssue r = 0 /\ lastAccessCycle r = 0) \/
    (0 < lastIssue r /\ lastIssue r + GetDataLatency p (lastType r (lastBank r)) + tTrans t <= lastAccessCycle r);
  co_refresh : 0 <= lastRefreshCycle r;
  co_pre : forall b, 0 <= lastPreCycle r b;
  co_open : IsOpenRowBufPolicy p = true -> forall b, lastPreCycle r b <= B;
  co_closed : IsOpenRowBufPolicy p = false -> forall b,
    (bankinfo r b = true -> fst <$> pend = Some b) /\
    lastPreCycle r b <= Z.max (lastRdWrCycle r b + GetPreDelay p (lastType r b)) (lastActCycle r b + tRAS t) /\
    (lastType r b = WRITE -> lastType r (lastBank r) = READ -> lastRdWrCycle r b + GetRdWrDelay p READ WRITE <= lastIssue r)
}.

Definition some_unless0 (c : Z) : option Z := if c =? 0 then None else Some c.

(** The state of the devices that the fields of a rank stand for. *)
Record rel (pend : option (Z * Z)) (B : Z) (r : MemRank) (d : devices) : Prop := {
  re_row : forall b, b_row (banks d b) =
    if bankinfo r b then Some (match pend with Some (b', rw) => if decide (b' = b) then rw else lastRow r b | None => lastRow r b end)
    else None;
  re_act : forall b, b_act (banks d b) = some_unless0 (lastActCycle r b);
  re_pre : forall b, b_pre (banks d b) = some_unless0 (lastPreCycle r b);
  re_rw : forall b, b_rw (banks d b) = (fun c => (c, lastType r b)) <$> some_unless0 (lastRdWrCycle r b);
  re_last : last_rw d = (fun c => (c, lastType r (lastBank r))) <$> some_unless0 (lastIssue r);
  re_head : forall x, acts d !! 0%nat = Some x -> 0 < x /\ x + tRCD t <= if pend then B else lastIssue r;
  re_acts : forall i x y, acts d !! i = Some x -> acts d !! S i = Some y -> y + tRCD t + 1 <= x
}.

(** Nothing is claimed of the commands when precharges are taken back. *)
Definition accepted (pend : option (Z * Z)) (B : Z) (r : MemRank) : Prop :=
  mergeContinuous (pm p) = false -> exists d, after (sent r) = Some d /\ rel pend B r d.

Definition inv (pend : option (Z * Z)) (B : Z) (r : MemRank) : Prop := core pend B r /\ accepted pend B r.

Lemma inv_new : inv None 0 newRank.
Proof using Hok.
  split.
  - split; cbn; intros; unfold lastIssue; cbn; try lia; try done. all: try (split; [lia|intros; lia]).
    small. destruct (IsOpenRowBufPolicy p); split_and!; try done; lia.
  - intros _. exists new_devices. split; [done|]. split; try done; cbn; intros; done.
Qed.

Lemma inv_mono pend B B' r : B <= B' -> inv pend B r -> inv pend B' r.
Proof using.
  intros HB [[] Ha]. split.
  - split; auto; try lia; intros.
    + specialize (co_faw0 i). lia.
    + destruct (co_act0 b) as [H1 H2]. split; [lia|]. intros Hn. destruct (H2 Hn) as [|[]]; [by left|right; split; [done|lia]].
    + specialize (co_open0 H b). lia.
  - intros Hm. destruct (Ha Hm) as (d & Hd & []). exists d. split; [done|]. split; auto.
    intros x Hx. specialize (re_head0 x Hx). destruct pend; lia.
Qed.

(** Changes of fields the invariant does not speak of. *)
Lemma inv_set_refresh pend B n k r : inv pend B r -> inv pend B (set_refresh n k r).
Proof using. intros [[] Ha]. split; [by split|]. intros Hm. destruct (Ha Hm) as (d & Hd & []). exists d. split; [done|]. by split. Qed.
Lemma inv_set_num pend B n r : inv pend B r -> inv pend B (set_num n r).
Proof using. intros [[] Ha]. split; [by split|]. intros Hm. destruct (Ha Hm) as (d & Hd & []). exists d. split; [done|]. by split. Qed.
Lemma inv_set_bg pend B b b' r : inv pend B r -> inv pend B (set_bg b b' r).
Proof using. intros [[] Ha]. split; [by split|]. intros Hm. destruct (Ha Hm) as (d & Hd & []). exists d. split; [done|]. by split. Qed.

Lemma inv_rank_refresh B c r : inv None B r -> lastRefreshCycle r < c ->
  exists r', rank_refresh c r = Ok r' /\ inv None B r' /\ lastRefreshCycle r' = c /\ lastIssue r' = lastIssue r /\
    refreshNum r' = refreshNum r /\ lastAccessCycle r' = lastAccessCycle r /\ bg r' = bg r.
Proof using.
  intros [[] Ha] Hc. unfold rank_refresh. rewrite (proj2 (Z.ltb_lt _ _) Hc). eexists. split; [reflexivity|].
  split; [|done]. split.
  - split; auto; cbn; try lia.
    + intros b Hb. destruct (co_never0 b Hb) as (?&?&?&?). done.
    + intros Hp b. destruct (co_closed0 Hp b) as (?&?&?). done.
  - intros Hm. destruct (Ha Hm) as (d & Hd & []). cbn [sent after send]. rewrite Hd. eexists. split; [reflexivity|]. by split.
Qed.

(** ** Refresh *)

(** [T] is the last arrival. *)
Definition clock (T : Z) (r : MemRank) : Prop :=
  lastRefreshCycle r <= T /\ 0 <= refreshNum r /\ refreshNum r * tREFI t <= lastRefreshCycle r.

(** The rank is not left alone for 2^32 cycles, and its number of refreshes fits 32 bits. *)
Definition timely (T a : Z) (r : MemRank) : Prop :=
  T <= a /\ a - lastRefreshCycle r < 2 ^ 32 /\ a < 2 ^ 32 * tREFI t.

Definition due (a : Z) (r : MemRank) : Z := (a - lastRefreshCycle r) / tREFI t.

Lemma due_spec T a r : clock T r -> timely T a r ->
  0 <= due a r < 2 ^ 32 /\ lastRefreshCycle r + tREFI t * due a r <= a < lastRefreshCycle r + tREFI t * due a r + tREFI t /\
  u32 (tREFI t * due a r) = tREFI t * due a r.
Proof using Hok.
  intros (H1 & H2 & H3) (H4 & H5 & H6). pose proof (to_refi Hok) as [Hr1 Hr2]. unfold due.
  pose proof (Z.div_mod (a - lastRefreshCycle r) (tREFI t) ltac:(lia)). pose proof (Z.mod_pos_bound (a - lastRefreshCycle r) (tREFI t) ltac:(lia)).
  set (q := (a - lastRefreshCycle r) / tREFI t) in *. assert (0 <= q) by (apply Z.div_pos; lia).
  assert (q <= tREFI t * q) by nia. rewrite u32_id by (unfold in_u32; lia). lia.
Qed.

Lemma refresh_num T a r : clock T r -> timely T a r ->
  UpdateRefreshNum p a r = Ok (due a r, set_refresh (refreshNum r + due a r) (accessInRefresh r) r).
Proof using Hok.
  intros Hc Ht. destruct (due_spec T a r Hc Ht) as ((Hd1 & Hd2) & Hd3 & Hd4). destruct Hc as (H1 & H2 & H3), Ht as (H4 & H5 & H6).
  pose proof (to_refi Hok) as [Hr1 Hr2]. unfold UpdateRefreshNum, udiv. rewrite (proj2 (Z.leb_le _ _)), (proj2 (Z.eqb_neq _ _)) by lia.
  cbn [negb assert_that mbind res_bind mret res_ret]. fold (due a r). rewrite (u32_id (due a r)) by (unfold in_u32; lia).
  assert (Hs : (refreshNum r + due a r) * tREFI t < 2 ^ 32 * tREFI t) by nia.
  apply Z.mul_lt_mono_pos_r in Hs; [|lia]. unfold SetRefreshNum. rewrite u32_id by (unfold in_u32; lia).
  rewrite (proj2 (Z.leb_le _ _)) by lia. done.
Qed.

Lemma last_refresh T a B r : clock T r -> timely T a r -> inv None B r ->
  exists r', UpdateLastRefreshCycle p (due a r) (set_refresh (refreshNum r + due a r) (accessInRefresh r) r) = Ok r' /\ inv None B r' /\
    clock a r' /\ a < lastRefreshCycle r' + tREFI t /\ lastIssue r' = lastIssue r /\ lastAccessCycle r' = lastAccessCycle r /\ bg r' = bg r.
Proof using Hok.
  intros Hc Ht Hi. destruct (due_spec T a r Hc Ht) as ((Hd1 & Hd2) & Hd3 & Hd4). unfold UpdateLastRefreshCycle.
  destruct Hc as (H1 & H2 & H3). pose proof (to_refi Hok) as [Hr1 Hr2].
  destruct (Z.ltb_spec 0 (due a r)) as [Hp|Hp].
  - edestruct (inv_rank_refresh B (lastRefreshCycle r + u32 (tREFI t * due a r))) as (r' & -> & Hi' & E1 & E2 & E3 & E4 & E5);
      [apply inv_set_num, inv_set_refresh, Hi|cbn; rewrite Hd4; nia|].
    exists r'. split; [done|]. split; [done|]. rewrite Hd4 in E1. unfold clock. rewrite E1, E3. cbn. split_and!; try done; lia.
  - exists (set_refresh (refreshNum r + due a r) (accessInRefresh r) r). split; [done|]. split; [by apply inv_set_refresh|].
    assert (due a r = 0) as E by lia. rewrite E in *. unfold clock. cbn. split_and!; try done; lia.
Qed.

(** ** Power *)

Record power_ok (T : Z) (r : MemRank) : Prop := {
  po_nonneg : 0 <= idlePowerDownCycle (bg r) /\ 0 <= actvPowerDownCycle (bg r) /\ 0 <= idleStandbyCycle (bg r);
  po_total : bg_total (bg r) <= T;
  po_access : bg_total (bg r) <= lastAccessCycle r /\ (lastAccessCycle r <> 0 -> T <= lastAccessCycle r);
  po_refresh : T < lastRefreshCycle r + tREFI t;
  po_active : IsOpenRowBufPolicy p = true -> lastAccessCycle r <> 0 -> 1 <= GetActiveBankCount p r
}.

Lemma active_bound r : 0 <= GetActiveBankCount p r <= bankCount (pm p).
Proof using Hok.
  unfold GetActiveBankCount. pose proof (List.filter_length_le (bankinfo r) (seqZ 0 (bankCount (pm p)))) as H.
  rewrite length_seqZ in H. pose proof (to_banks Hok). lia.
Qed.

Lemma active_some r bk : 0 <= bk < bankCount (pm p) -> bankinfo r bk = true -> 1 <= GetActiveBankCount p r.
Proof using.
  intros Hb Hi. unfold GetActiveBankCount. assert (Hin : In bk (List.filter (bankinfo r) (seqZ 0 (bankCount (pm p))))).
  { apply filter_In. split; [|done]. apply list_elem_of_In, elem_of_seqZ. lia. }
  destruct (List.filter _ _); [done|cbn; lia].
Qed.

Lemma udiv_le x n : 0 < n -> 0 <= x -> exists q, udiv x n = Ok q /\ 0 <= q /\ q * n <= x.
Proof using.
  intros Hn Hx. unfold udiv. rewrite (proj2 (Z.eqb_neq _ _)) by lia. eexists. split; [reflexivity|].
  split; [apply Z.div_pos; lia|]. rewrite Z.mul_comm. apply Z.mul_div_le. lia.
Qed.

Lemma u32_le x : 0 <= x -> 0 <= u32 x <= x.
Proof using. intros. unfold u32. split; [apply Z.mod_pos_bound; lia|apply Z.mod_le; lia]. Qed.

(** Shares of a duration among idle and active banks. *)
Lemma shares bc idl act x y z q1 q2 q3 w : 0 < bc -> idl + act = bc -> q1 * bc <= idl * x + y -> q2 * bc <= act * x -> q3 * bc <= z ->
  bc * x + y + z <= bc * w -> q1 + q2 + q3 <= w.
Proof using. intros. assert (bc * (q1 + q2 + q3) <= bc * w) by nia. by apply Z.mul_le_mono_pos_l in H5. Qed.

Lemma shares_idle bc x y pd w : 0 < bc -> 0 <= y -> x + y + pd <= w -> bc * x + y + bc * pd <= bc * w.
Proof using. intros. nia. Qed.
Lemma shares_some bc y pd w : 0 < bc -> 0 <= y <= w -> pd <= w -> y + (bc - 1) * pd <= bc * w.
Proof using. intros. nia. Qed.
Lemma shares_never bc y pd w : 1 < bc -> 0 <= y <= w - pd -> pd <= w -> y + bc * pd <= bc * w.
Proof using. intros. nia. Qed.

Definition bg_ok (b : background) (c : Z) : Prop :=
  0 <= idlePowerDownCycle b /\ 0 <= actvPowerDownCycle b /\ 0 <= idleStandbyCycle b /\ bg_total b <= c.

Lemma bg_add_ok b i a s c : bg_ok b c -> 0 <= i -> 0 <= a -> 0 <= s -> bg_ok (bg_add i a s b) (c + (i + a + s)).
Proof using. unfold bg_ok, bg_total, bg_add. cbn. lia. Qed.

Lemma bg_ok_mono b c c' : bg_ok b c -> c <= c' -> bg_ok b c'.
Proof using. unfold bg_ok. lia. Qed.

(** What the counters gain stays below the time that passed. *)
Lemma power_down_ok T a lp pd lastPd n r : power_ok T r -> T <= a -> 0 <= lp <= a -> 0 <= lastRefreshCycle r <= T ->
  0 <= n < 2 ^ 32 -> lastRefreshCycle r + tREFI t * n <= a < lastRefreshCycle r + tREFI t * n + tREFI t -> u32 (tREFI t * n) = tREFI t * n ->
  powerDownCycle (pm p) <> 0 -> 0 <= lastAccessCycle r ->
  (if lastAccessCycle r + powerDownCycle (pm p) <? lp then pd = 0 /\ lastPd = lp
   else pd = powerDownCycle (pm p) /\ lastPd = lastAccessCycle r + powerDownCycle (pm p)) ->
  exists i u s, power_down p a lp pd lastPd n r = Ok (bg_add i u s (bg r)) /\ 0 <= i /\ 0 <= u /\ 0 <= s /\ bg_total (bg r) + (i + u + s) <= a.
Proof using Hok.
  intros [(N1 & N2 & N3) Htot (Ha1 & Ha2) Href Hact] HT Hlp Hl Hn Hn2 Hn3 Hpd Hla Hc. pose proof (to_refi Hok) as [Hr1 Hr2]. pose proof (to_pd Hok) as [Hp1 Hp2].
  pose proof (to_banks Hok) as [Hb1 Hb2]. pose proof (active_bound r) as [Hk1 Hk2].
  assert (Hk : 0 < lastAccessCycle r -> IsOpenRowBufPolicy p = true -> 1 <= GetActiveBankCount p r) by (intros; apply Hact; [done|lia]). clear Hact.
  set (act := GetActiveBankCount p r) in *. set (bc := bankCount (pm p)) in *. set (la := lastAccessCycle r) in *. set (tot := bg_total (bg r)) in *.
  assert (HT0 : lp = lastPd /\ pd = 0 /\ la + powerDownCycle (pm p) < lp \/ lastPd = la + powerDownCycle (pm p) /\ pd = powerDownCycle (pm p))
    by (destruct (_ <? _) eqn:E in Hc; [apply Z.ltb_lt in E|]; lia). clear Hc.
  unfold power_down. fold act bc la. rewrite (u32_id (bc - act)) by (unfold in_u32; lia).
  assert (same : exists i u s, mret (bg r) = Ok (bg_add i u s (bg r)) /\ 0 <= i /\ 0 <= u /\ 0 <= s /\ tot + (i + u + s) <= a).
  { exists 0, 0, 0. unfold bg_add. rewrite !Z.add_0_r. destruct (bg r). split; [done|]. lia. }
  destruct ((la =? 0) && (lp =? 0)) eqn:E0.
  { apply andb_prop in E0 as [E1 E2]. apply Z.eqb_eq in E1, E2. exists a, 0, 0. split; [done|]. lia. }
  destruct (Z.leb_spec a la) as [E1|E1]; [exact same|]. clear same.
  assert (Hmix : 0 < la -> IsOpenRowBufPolicy p = true -> (bc - act) * pd <= (bc - 1) * pd).
  { intros H1 H2. specialize (Hk H1 H2). apply Z.mul_le_mono_nonneg_r; lia. }
  assert (Hpol : IsCloseRowBufPolicy p = negb (IsOpenRowBufPolicy p)).
  { unfold IsCloseRowBufPolicy, IsOpenRowBufPolicy. by destruct (rowBufferPolicy (pm p)). }
  rewrite Hpol. destruct (Z.leb_spec a lastPd) as [E2|E2].
  { destruct (IsOpenRowBufPolicy p); cbn [negb].
    - destruct (udiv_le ((bc - act) * (a - la)) bc) as (q & -> & Hq1 & Hq2); [lia|apply Z.mul_nonneg_nonneg; lia|]. exists 0, 0, q. split; [done|].
      assert (q <= a - la); [|lia]. apply (Z.mul_le_mono_pos_r _ _ bc); [lia|]. etransitivity; [exact Hq2|]. rewrite (Z.mul_comm (a - la)). apply Z.mul_le_mono_nonneg_r; lia.
    - exists 0, 0, (a - la). split; [done|]. lia. }
  destruct (IsOpenRowBufPolicy p); cbn [negb].
  2: { exists (a - lastPd), 0, pd. split; [done|]. lia. }
  destruct (u32_le ((bc - act) * pd)) as [Hz1 Hz2]; [apply Z.mul_nonneg_nonneg; lia|].
  destruct (udiv_le (u32 ((bc - act) * pd)) bc) as (q3 & E3 & H3 & H3'); [lia..|].
  assert (Hpd0 : 0 <= pd) by lia. assert (Hz : (bc - act) * pd <= bc * pd) by (apply Z.mul_le_mono_nonneg_r; lia).
  destruct (Z.eqb_spec n 0) as [->|Hn0].
  { destruct (udiv_le ((bc - act) * (a - lastPd)) bc) as (q1 & -> & H1 & H1'); [lia|apply Z.mul_nonneg_nonneg; lia|].
    destruct (udiv_le (act * (a - lastPd)) bc) as (q2 & -> & H2 & H2'); [lia|apply Z.mul_nonneg_nonneg; lia|]. cbn [mbind res_bind]. rewrite E3.
    exists q1, q2, q3. split; [done|]. assert (q1 + q2 + q3 <= a - lastPd + pd) by (apply (shares bc (bc - act) act (a - lastPd) 0 (bc * pd)); [..|apply shares_idle]; lia). lia. }
  rewrite Hn3, (proj2 (Z.leb_le _ a)) by lia. cbn [assert_that mbind res_bind].
  destruct (u32_le (u32 (n - 1) * tREFI t)) as [Hy1 Hy2]; [pose proof (u32_range (n - 1)) as [? _]; apply Z.mul_nonneg_nonneg; lia|].
  rewrite (u32_id (n - 1)) in * by (unfold in_u32; lia).
  set (y := u32 ((n - 1) * tREFI t) + (a - (lastRefreshCycle r + tREFI t * n))).
  assert (Hy : 0 <= y <= a - (lastRefreshCycle r + tREFI t)) by lia.
  set (x := if lastPd <? lastRefreshCycle r + tREFI t then lastRefreshCycle r + tREFI t - lastPd else 0).
  assert (Hx : 0 <= x) by (unfold x; destruct (Z.ltb_spec lastPd (lastRefreshCycle r + tREFI t)); lia).
  destruct (udiv_le ((bc - act) * x + y) bc) as (q1 & -> & H1 & H1'); [lia|apply Z.add_nonneg_nonneg; [apply Z.mul_nonneg_nonneg|]; lia|].
  destruct (udiv_le (act * x) bc) as (q2 & -> & H2 & H2'); [lia|apply Z.mul_nonneg_nonneg; lia|]. cbn [mbind res_bind]. rewrite E3.
  exists q1, q2, q3. split; [done|]. split_and!; [done..|].
  unfold x in *. clear x. destruct (Z.ltb_spec lastPd (lastRefreshCycle r + tREFI t)) as [Hlt|Hge].
  { assert (q1 + q2 + q3 <= a - lastPd + pd) by (eapply (shares bc (bc - act) act (lastRefreshCycle r + tREFI t - lastPd) y (bc * pd)); [..|apply shares_idle]; lia). lia. }
  destruct HT0 as [(_ & -> & _)|[E4 E5]].
  { assert (q1 + q2 + q3 <= a - T) by (eapply (shares bc (bc - act) act 0 y 0); [..|rewrite Z.mul_0_r; apply Z.le_trans with (1 * (a - T)); [|apply Z.mul_le_mono_nonneg_r]]; lia). lia. }
  destruct (Z.eq_dec la 0) as [Ela|Ela].
  { assert (q1 + q2 + q3 <= a) by (eapply (shares bc (bc - act) act 0 y (bc * pd)); [..|rewrite Z.mul_0_r; apply shares_never]; lia). lia. }
  assert (q1 + q2 + q3 <= a - T); [|lia]. specialize (Hmix ltac:(lia) eq_refl).
  eapply (shares bc (bc - act) act 0 y ((bc - 1) * pd)); [..|rewrite Z.mul_0_r; apply shares_some]; lia.
Qed.

Lemma power_step T a lp n r : power_ok T r -> T <= a -> 0 <= lp <= a -> 0 <= lastRefreshCycle r <= T ->
  0 <= n < 2 ^ 32 -> lastRefreshCycle r + tREFI t * n <= a < lastRefreshCycle r + tREFI t * n + tREFI t -> u32 (tREFI t * n) = tREFI t * n ->
  powerDownCycle (pm p) <> 0 -> 0 <= lastAccessCycle r ->
  exists b, UpdatePowerDownCycle p a lp n r = Ok (set_bg b (prevBg r) r) /\ bg_ok b a.
Proof using Hok.
  intros Hp HT Hlp Hl Hn Hn2 Hn3 Hpd Hla. unfold UpdatePowerDownCycle. rewrite (proj2 (Z.eqb_neq _ _)) by done.
  pose proof (po_nonneg _ _ Hp) as (N1 & N2 & N3).
  set (x := if _ <? lp then _ else _). destruct x as [pd lastPd] eqn:Ex.
  destruct (power_down_ok T a lp pd lastPd n r) as (i & u & s & -> & Hi & Hu & Hs & Htot); try done.
  { unfold x in Ex. destruct (_ <? lp); injection Ex as <- <-; done. }
  exists (bg_add i u s (bg r)). assert (Hb : bg_ok (bg_add i u s (bg r)) a).
  { eapply bg_ok_mono; [apply (bg_add_ok _ _ _ _ (bg_total (bg r)))|]; try done. }
  split; [|done]. destruct Hb as (_ & _ & _ & Hb). cbn [mbind res_bind]. rewrite (proj2 (Z.leb_le _ a)) by done.
  cbn [assert_that mbind res_bind mret res_ret]. cbn [bg_add idlePowerDownCycle actvPowerDownCycle idleStandbyCycle].
  rewrite !(proj2 (Z.leb_le _ _)) by lia. done.
Qed.

End rank.
End DetRank.
