(* ===== verification/DetAccess.v ===== *)
(** An access of the detailed memory model, step by step: each step of [simulate_rank] finds
    the rank in the invariant of DetRank and leaves it there. *)
From S2P Require Import Prelude DetParams DetAddr DetChannel DetRank.
Import DetParams DetAddr DetChannel DetRank.

Module DetAccess.

Section access.
Context (p : MemParam) (Hok : timing_ok p).
Local Notation t := (pt p).
Local Notation inv := (inv p).

(** What the steps before the burst do not change. *)
Definition same_issue (r r' : MemRank) : Prop :=
  lastBank r' = lastBank r /\ lastIssue r' = lastIssue r /\ lastAccessCycle r' = lastAccessCycle r /\
  lastRow r' = lastRow r /\ lastType r' = lastType r /\ lastRdWrCycle r' = lastRdWrCycle r /\ lastRefreshCycle r' = lastRefreshCycle r /\
  refreshNum r' = refreshNum r /\ bg r' = bg r.

Lemma intra_spec B rowHit type a n r : inv None B r ->
  exists c k, CalcIntraIssueCycle p rowHit type a n r = (c, set_refresh (refreshNum r) k r) /\ a <= c /\
    (lastIssue r <> 0 -> lastIssue r + (if rowHit then GetRdWrDelay p type (lastType r (lastBank r)) else 1) <= c).
Proof using Hok.
  intros [[] _]. pose proof (to_trans p Hok) as [? _]. pose proof (refresh_cycle p Hok).
  pose proof (delay_refresh p Hok type (lastType r (lastBank r))). pose proof (data_delay p Hok (lastType r (lastBank r))) as (_ & _ & ? & _).
  pose proof (delay_pos p Hok type (lastType r (lastBank r))).
  unfold CalcIntraIssueCycle. set (k := if _ && _ then _ else _). destruct (negb (k =? 0)) eqn:Ek.
  - eexists _, k. split; [reflexivity|]. assert (lastRefreshCycle r <= lastAccessCycle r) as Hl.
    { unfold k in Ek. destruct (negb (lastRefreshCycle r =? 0) && _ && _) eqn:E; [|done]. apply andb_prop in E as [_ E]. by apply Z.leb_le in E. }
    cbn [lastRefreshCycle set_refresh]. destruct (2 <=? k), rowHit; (split; [lia|]); intros Hn; (destruct co_access0 as [[? ?]|[? ?]]; [done|lia]).
  - cbn [lastRdWrCycle lastBank set_refresh]. destruct (lastRdWrCycle r (lastBank r) =? 0) eqn:E0; cbn [negb]; eexists _, k; (split; [reflexivity|]).
    + apply Z.eqb_eq in E0. unfold lastIssue. split; [lia|intros; done].
    + unfold lastIssue. destruct rowHit; split; lia.
Qed.

Lemma some_unless0_late c d x : (c <> 0 -> c + d <= x) -> late (some_unless0 c) d x = true.
Proof using. intros H. unfold some_unless0, late. destruct (Z.eqb_spec c 0); [done|]. apply Z.leb_le. auto. Qed.

Lemma some_unless0_rw c d (type : MemAccessType) (f : MemAccessType -> Z) x : d = f type -> (c <> 0 -> c + d <= x) ->
  late (fst <$> ((fun c => (c, type)) <$> some_unless0 c)) (default 0 ((fun y => f y.2) <$> ((fun c => (c, type)) <$> some_unless0 c))) x = true.
Proof using. intros -> H. unfold some_unless0, late. destruct (Z.eqb_spec c 0); [done|]. cbn. apply Z.leb_le. auto. Qed.

(** A precharge under the open-row policy. *)
Lemma precharge_open B bk c r : IsOpenRowBufPolicy p = true -> inv None B r -> B <= c -> lastPreCycle r bk <= c -> 0 < c ->
  bankinfo r bk = true -> lastRdWrCycle r bk + GetPreDelay p (lastType r bk) <= c -> lastActCycle r bk + tRAS t <= c ->
  exists r', IssuePrecharge bk c false r = Ok r' /\ inv None c r' /\ same_issue r r' /\ bankinfo r' bk = false.
Proof using Hok.
  intros Hp [[] Ha] HB Hpre Hc Hb Hrw Hact. unfold IssuePrecharge. rewrite (proj2 (Z.leb_le _ _)) by done.
  eexists. split; [reflexivity|]. split; [|split; [done|cbn; by rewrite fn_lookup_insert]]. split.
  - unfold lastIssue in *. split; cbn; auto; try lia; try congruence.
    + intros i. specialize (co_faw0 i). lia.
    + intros b. destruct (co_act0 b) as [H1 H2]. split; [lia|]. intros Hn. destruct (H2 Hn) as [|[? _]]; [by left|done].
    + intros b H0. destruct (co_never0 b H0) as (?&?&?&?). assert (bk <> b) by congruence. by rewrite !fn_lookup_insert_ne.
    + intros b. destruct (decide (bk = b)) as [<-|]; [rewrite fn_lookup_insert; lia|by rewrite fn_lookup_insert_ne].
    + intros _ b. destruct (decide (bk = b)) as [<-|]; [by rewrite fn_lookup_insert|rewrite fn_lookup_insert_ne by done]. specialize (co_open0 Hp b). lia.
  - intros Hm. destruct (Ha Hm) as (d & Hd & []). cbn [sent after send]. rewrite Hd. cbn [mbind option_bind accept].
    rewrite (bool_decide_eq_true_2 (b_row _ <> None)) by (rewrite re_row0, Hb; done).
    rewrite re_act0, some_unless0_late by lia. rewrite re_rw0. rewrite (some_unless0_rw _ (GetPreDelay p (lastType r bk))) by (done || lia).
    cbn [andb]. eexists. split; [reflexivity|]. split; cbn; auto.
    + intros b. destruct (decide (bk = b)) as [<-|]; [by rewrite !fn_lookup_insert|by rewrite !fn_lookup_insert_ne].
    + intros b. destruct (decide (bk = b)) as [<-|]; [by rewrite !fn_lookup_insert|by rewrite !fn_lookup_insert_ne].
    + intros b. destruct (decide (bk = b)) as [<-|]; [|by rewrite !fn_lookup_insert_ne]. rewrite !fn_lookup_insert. cbn.
      unfold some_unless0. by rewrite (proj2 (Z.eqb_neq c 0)) by lia.
    + intros b. destruct (decide (bk = b)) as [<-|]; [rewrite !fn_lookup_insert|by rewrite !fn_lookup_insert_ne]. done.
Qed.

Lemma same_issue_refl r : same_issue r r.
Proof using. by split_and!. Qed.
Lemma same_issue_trans r r' r'' : same_issue r r' -> same_issue r' r'' -> same_issue r r''.
Proof using. unfold same_issue. intuition congruence. Qed.
Lemma same_set_refresh k r : same_issue r (set_refresh (refreshNum r) k r).
Proof using. by split_and!. Qed.

Lemma open_bank pend B r b : inv pend B r -> bankinfo r b = true -> lastActCycle r b <> 0.
Proof using. intros [[] _] Hb H0. destruct (co_never0 b H0) as (_ & _ & ? & _). congruence. Qed.

Lemma policy_cases : IsOpenRowBufPolicy p = negb (IsCloseRowBufPolicy p).
Proof using. unfold IsCloseRowBufPolicy, IsOpenRowBufPolicy. by destruct (rowBufferPolicy (pm p)). Qed.

(** What [open_row] answers: to activate from cycle [c] on, to continue, or to use the open row. *)
Definition opened (rowHit : bool) (l : loc) (a : Z) (r : MemRank) (continuous : bool) (act : option Z) (r' : MemRank) : Prop :=
  match act with
  | Some c => continuous = false /\ a <= c /\ lastIssue r < c /\ inv None c r' /\ bankinfo r' (bank l) = false
  | None => inv None (lastIssue r) r' /\ IsOpenRowBufPolicy p = negb continuous /\
      if continuous then mergeContinuous (pm p) = true /\ lastPreCycle r' (bank l) <> 0 else rowHit = true /\ bankinfo r' (bank l) = true
  end.

Lemma open_row_spec l type a n r : inv None (lastIssue r) r -> 1 <= a ->
  exists cont act r', open_row p (IsRowBufferHit (row l) (bank l) r) l type a n r = Ok (cont, act, r') /\ same_issue r r' /\
    opened (IsRowBufferHit (row l) (bank l) r) l a r cont act r'.
Proof using Hok.
  intros Hi Ha. pose proof Hi as [C _]. pose proof (co_bound _ _ _ _ C) as [Hb0 _]. set (hit := IsRowBufferHit _ _ r).
  destruct (intra_spec (lastIssue r) hit type a n r Hi) as (c & k & Ec & Hc1 & Hc2).
  assert (Hi' : inv None (lastIssue r) (set_refresh (refreshNum r) k r)) by by apply inv_set_refresh.
  pose proof (delay_pos p Hok type (lastType r (lastBank r))) as Hd.
  assert (Hlt : lastIssue r < c) by (destruct (decide (lastIssue r = 0)); [lia|specialize (Hc2 n0); destruct hit; lia]).
  unfold open_row. destruct (IsOpenRowBufPolicy p) eqn:Ep.
  - destruct hit eqn:Eh.
    { exists false, None, r. split; [done|]. split; [apply same_issue_refl|]. split_and!; try done. unfold hit, IsRowBufferHit in Eh. by apply andb_prop in Eh as [-> _]. }
    rewrite Ec. cbn [bankinfo set_refresh]. destruct (bankinfo r (bank l)) eqn:Eb.
    + set (pre := CalcPreConst p _ _ c _). assert (Hpre : c <= pre) by (unfold pre, CalcPreConst; lia).
      rewrite (proj2 (Z.leb_le c pre)) by done. cbn [assert_that mbind res_bind].
      pose proof (co_open _ _ _ _ C Ep (bank l)) as Ho.
      destruct (precharge_open (lastIssue r) (bank l) pre (set_refresh (refreshNum r) k r) Ep) as (r' & -> & H1 & H2 & H3); try done; cbn; try lia;
        try (unfold pre, CalcPreConst; cbn; lia).
      exists false, (Some (pre + tRP t)), r'. split; [done|]. split; [eapply same_issue_trans; [apply same_set_refresh|exact H2]|].
      assert (0 <= tRP t) by (pose proof (to_small p Hok) as Hs; rewrite !Forall_cons in Hs; lia).
      split_and!; try done; try lia. eapply inv_mono; [|exact H1]. lia.
    + exists false, (Some c), (set_refresh (refreshNum r) k r). split; [done|]. split; [apply same_set_refresh|].
      split_and!; try done. eapply inv_mono; [|exact Hi']. lia.
  - assert (Eh : hit = false).
    { unfold hit, IsRowBufferHit. destruct (bankinfo r (bank l)) eqn:Eb; [|done]. destruct (co_closed _ _ _ _ C Ep (bank l)) as (H1 & _). by specialize (H1 Eb). }
    rewrite Eh in *. cbn [negb assert_that mbind res_bind]. destruct (CheckContinuousAccess p a (bank l) (row l) r) eqn:Ek.
    + unfold CheckContinuousAccess in Ek. apply andb_prop in Ek as [Ek _]. apply andb_prop in Ek as [Em Ek]. apply Z.ltb_lt in Ek.
      eexists true, None, _. split; [reflexivity|]. split; [by split_and!|]. destruct Hi as [[] _]. split_and!; try done; cbn; try lia.
      split; [by split|]. intros Hm. congruence.
    + rewrite Ec. exists false, (Some c), (set_refresh (refreshNum r) k r). split; [done|]. split; [apply same_set_refresh|].
      split_and!; try done; [eapply inv_mono; [|exact Hi']; lia|]. cbn.
      destruct (bankinfo r (bank l)) eqn:Eb; [|done]. destruct (co_closed _ _ _ _ C Ep (bank l)) as (H1 & _). by specialize (H1 Eb).
Qed.

(** Activations of a rank are [tRCD] and a cycle apart, whatever [CalcActConst] looks at. *)
Lemma acts_apart d : (forall i x y, acts d !! i = Some x -> acts d !! S i = Some y -> y + tRCD t + 1 <= x) ->
  forall x y, acts d !! 0%nat = Some x -> acts d !! 3%nat = Some y -> y + 3 * (tRCD t + 1) <= x.
Proof using.
  intros H x y Hx Hy. assert (H3 : (3 < length (acts d))%nat) by (apply lookup_lt_is_Some; eauto).
  destruct (lookup_lt_is_Some_2 (acts d) 1) as [u Hu]; [lia|]. destruct (lookup_lt_is_Some_2 (acts d) 2) as [v Hv]; [lia|].
  pose proof (H _ _ _ Hx Hu). pose proof (H _ _ _ Hu Hv). pose proof (H _ _ _ Hv Hy). lia.
Qed.

Lemma act_const c bk r : 0 <= tFAWIndex r < 4 ->
  exists c', CalcActConst p bk c r = Ok c' /\ c <= c' /\ (lastActCycle r bk <> 0 -> lastActCycle r bk + tRC t <= c') /\
    (lastActCycle r bk <> 0 -> lastPreCycle r bk <> 0 -> lastPreCycle r bk + tRP t <= c').
Proof using Hok.
  intros Hi. pose proof (to_banks p Hok) as [Hb _]. unfold CalcActConst. destruct (Z.eqb_spec (lastActCycle r bk) 0) as [E|E].
  - exists c. split; [done|]. split; [lia|]. by split.
  - rewrite (proj2 (Z.ltb_lt (tFAWIndex r) _)) by lia. eexists. split; [reflexivity|].
    destruct (Z.eqb_spec (lastPreCycle r bk) 0); split_and!; intros; lia.
Qed.

Lemma activate_spec l a c r : inv None c r -> bankinfo r (bank l) = false -> 1 <= a <= c -> lastIssue r < c ->
  exists c' r', activate p l a (Some c) r = Ok (Some c', r') /\ c <= c' /\ same_issue r r' /\
    inv (Some (bank l, row l)) (c' + tRCD t) r' /\ bankinfo r' (bank l) = true /\ lastPreCycle r' (bank l) <= c' /\ lastActCycle r' (bank l) = c'.
Proof using Hok.
  intros [[] Ha] Hb Hc Hlt. destruct (act_const c (bank l) r) as (c' & Ec & H1 & H2 & H3); [done|].
  pose proof (to_banks p Hok) as [Hbk _]. pose proof (co_act0 (bank l)) as [Hact _].
  assert (Hs : 0 <= tRCD t /\ 0 <= tRP t) by (pose proof (to_small p Hok) as Hs; rewrite !Forall_cons in Hs; lia).
  assert (Hpre : lastPreCycle r (bank l) <= c').
  { destruct (Z.eq_dec (lastActCycle r (bank l)) 0) as [E|E]; [destruct (co_never0 _ E) as (_ & -> & _); lia|].
    destruct (Z.eq_dec (lastPreCycle r (bank l)) 0); [lia|]. specialize (H3 E n). lia. }
  unfold activate. rewrite Ec. cbn [mbind res_bind]. unfold IssueActivate.
  pose proof (co_faw0 (tFAWIndex r)). rewrite (proj2 (Z.ltb_lt (tFAWIndex r) _)), !(proj2 (Z.leb_le _ _)) by lia. cbn [assert_that mbind res_bind mret res_ret].
  exists c'. eexists. split; [reflexivity|]. split; [done|]. split; [done|]. split; [|cbn; rewrite !fn_lookup_insert; done]. split.
  - unfold lastIssue in *. split; cbn; auto; try lia.
    + apply Z.mod_pos_bound. lia.
    + intros i. destruct (decide (tFAWIndex r = i)) as [<-|]; [rewrite fn_lookup_insert; lia|rewrite fn_lookup_insert_ne by done]. specialize (co_faw0 i). lia.
    + intros b. destruct (decide (bank l = b)) as [<-|]; [rewrite fn_lookup_insert|rewrite fn_lookup_insert_ne by done].
      * split; [lia|]. intros _. right. split; [done|lia].
      * destruct (co_act0 b) as [Hx Hy]. split; [lia|]. intros Hn. destruct (Hy Hn) as [|[? _]]; [by left|done].
    + intros b. destruct (decide (bank l = b)) as [<-|]; [rewrite fn_lookup_insert; lia|rewrite !fn_lookup_insert_ne by done]. apply co_never0.
    + intros Hp b. specialize (co_open0 Hp b). lia.
    + intros Hp b. destruct (co_closed0 Hp b) as (Hx & Hy & Hz). destruct (decide (bank l = b)) as [<-|]; [rewrite !fn_lookup_insert|rewrite !fn_lookup_insert_ne by done].
      * split; [done|]. split; [lia|done].
      * split; [intros Hn; by specialize (Hx Hn)|done].
  - intros Hm. destruct (Ha Hm) as (d & Hd & []). cbn [sent after send]. rewrite Hd. cbn [mbind option_bind accept].
    rewrite (bool_decide_eq_true_2 (b_row _ = None)) by (rewrite re_row0, Hb; done). rewrite re_act0, re_pre0, some_unless0_late by done.
    pose proof (to_acts p Hok) as [Hrrd Hfaw].
    rewrite some_unless0_late. 2: { intros Hn. apply H3; [|done]. intros E. destruct (co_never0 _ E) as (_ & ? & _). done. }
    assert (Hhead : forall x, acts d !! 0%nat = Some x -> x + tRCD t + 1 <= c') by (intros x Hx; destruct (re_head0 x Hx); lia).
    assert (E0 : late (acts d !! 0%nat) (tRRD t) c' = true).
    { destruct (acts d !! 0%nat) as [x|] eqn:E; [|done]. apply Z.leb_le. specialize (Hhead x eq_refl). lia. }
    assert (E3 : late (acts d !! 3%nat) (tFAW t) c' = true).
    { destruct (acts d !! 3%nat) as [y|] eqn:E; [|done]. apply Z.leb_le.
      destruct (lookup_lt_is_Some_2 (acts d) 0) as [x Hx]; [apply lookup_lt_Some in E; lia|].
      pose proof (acts_apart d re_acts0 x y Hx E). specialize (Hhead x Hx). lia. }
    rewrite E0, E3. cbn [andb]. eexists. split; [reflexivity|]. unfold lastIssue in *. split; cbn; auto.
    + intros b. destruct (decide (bank l = b)) as [<-|]; [by rewrite !fn_lookup_insert|rewrite !fn_lookup_insert_ne by done].
      by rewrite re_row0.
    + intros b. destruct (decide (bank l = b)) as [<-|]; [rewrite !fn_lookup_insert; cbn|by rewrite !fn_lookup_insert_ne].
      unfold some_unless0. by rewrite (proj2 (Z.eqb_neq c' 0)) by lia.
    + intros b. destruct (decide (bank l = b)) as [<-|]; [by rewrite !fn_lookup_insert|by rewrite !fn_lookup_insert_ne].
    + intros b. destruct (decide (bank l = b)) as [<-|]; [rewrite !fn_lookup_insert; apply re_rw0|by rewrite !fn_lookup_insert_ne].
    + intros x [= <-]. lia.
    + intros [|i] x y; cbn; [intros [= <-] Hy; specialize (Hhead y Hy); lia|apply re_acts0].
Qed.

(** The rank when the command of an access of type [type] may be sent from cycle [v] on. *)
Record ready (l : loc) (type : MemAccessType) (continuous : bool) (pend : option (Z * Z)) (v : Z) (r : MemRank) : Prop := {
  rd_inv : exists B, inv pend B r /\ B <= v;
  rd_later : lastIssue r < v;
  rd_delay : lastIssue r + GetRdWrDelay p type (lastType r (lastBank r)) <= v;
  rd_act : lastActCycle r (bank l) <> 0;
  rd_open : if continuous then IsOpenRowBufPolicy p = false /\ mergeContinuous (pm p) = true
            else bankinfo r (bank l) = true;
  rd_pend : match pend with
            | Some (bk, rw) => bk = bank l /\ rw = row l /\ lastPreCycle r bk <= lastActCycle r bk
            | None => if continuous then True else IsOpenRowBufPolicy p = true /\ lastRow r (bank l) = row l
            end
}.

(** The longest wait from a command to its precharge is kept by a later command. *)
Lemma continue_pre l type pend B v r : inv pend B r -> ready l type true pend v r -> pend = None ->
  lastPreCycle r (bank l) <= Z.max (v + GetPreDelay p type) (lastActCycle r (bank l) + tRAS t).
Proof using Hok.
  intros [C _] [_ Hl Hd Ha [Ho Hm] _] ->. destruct (co_closed _ _ _ _ C Ho (bank l)) as (_ & H1 & H2).
  pose proof (co_rw _ _ _ _ C (bank l)) as Hr. destruct (to_merge p Hok Hm) as [Hm1 Hm2].
  rewrite !(pre_delay p Hok) in *. rewrite !(delay_spec p Hok) in *.
  assert (0 <= tTrans t /\ 0 <= tCWD t /\ 0 <= tWR t) by (pose proof (to_small p Hok) as Hs; rewrite !Forall_cons in Hs; lia).
  destruct (lastType r (bank l)) eqn:E1, type; try lia. specialize (H2 eq_refl).
  destruct (lastType r (lastBank r)) eqn:E2; [specialize (H2 eq_refl); lia|lia].
Qed.

Lemma access_step l type cont pend v v' acc r : ready l type cont pend v r -> v <= v' -> v' + GetDataLatency p type + tTrans t <= acc ->
  exists r', rank_access acc v' (row l) (bank l) type r = Ok r' /\ inv (Some (bank l, row l)) v' r' /\
    lastIssue r' = v' /\ lastBank r' = bank l /\ lastAccessCycle r' = Z.max (lastAccessCycle r) acc /\ lastRefreshCycle r' = lastRefreshCycle r /\
    refreshNum r' = refreshNum r /\ bg r' = bg r /\ bankinfo r' = bankinfo r /\ lastRow r' (bank l) = row l /\
    lastRdWrCycle r' (bank l) = v' /\ lastType r' (bank l) = type /\ lastActCycle r' (bank l) + tRCD t <= v' /\ lastActCycle r' (bank l) <> 0.
Proof using Hok.
  intros Hrd Hv Hacc. pose proof Hrd as [(B & [[] Ha] & HB) Hl Hd Hact Ho Hp].
  assert (Hrcd : lastActCycle r (bank l) + tRCD t <= v').
  { destruct (co_act0 (bank l)) as [_ H]. specialize (H Hact). pose proof (co_rw0 (bank l)). lia. }
  unfold rank_access. pose proof (co_rw0 (bank l)). rewrite (proj2 (Z.ltb_lt _ v')) by lia. cbn [assert_that mbind res_bind mret res_ret].
  eexists. split; [reflexivity|]. split; [|unfold lastIssue in *; cbn; rewrite !fn_lookup_insert; done]. split.
  - unfold lastIssue in *. split; cbn; rewrite ?fn_lookup_insert; auto; try lia.
    + intros i. specialize (co_faw0 i). lia.
    + intros b. destruct (decide (bank l = b)) as [<-|]; [rewrite fn_lookup_insert; lia|rewrite fn_lookup_insert_ne by done]. specialize (co_rw0 b). lia.
    + intros b. destruct (co_act0 b) as [Hx Hy]. split; [lia|]. intros Hn. destruct (decide (bank l = b)) as [<-|]; [rewrite fn_lookup_insert; by left|rewrite fn_lookup_insert_ne by done].
      destruct (Hy Hn) as [|[Hz _]]; [by left|]. destruct pend as [[bk rw]|]; [|done]. destruct Hp as [-> _]. cbn in Hz. congruence.
    + intros b Hb. assert (bank l <> b) by congruence. rewrite !fn_lookup_insert_ne by done. by apply co_never0.
    + intros Hpol b. specialize (co_open0 Hpol b). lia.
    + intros Hpol b. destruct (co_closed0 Hpol b) as (Hx & Hy & Hz). destruct (decide (bank l = b)) as [<-|].
      * rewrite !fn_lookup_insert. split; [done|]. split; [|congruence]. destruct pend as [[bk rw]|].
        { destruct Hp as (-> & _ & Hp). assert (0 <= tRAS t) by (pose proof (to_small p Hok) as Hs; rewrite !Forall_cons in Hs; lia). lia. }
        destruct cont; [|destruct Hp as [Hp _]; congruence].
        eapply Z.le_trans; [eapply continue_pre; [by split|exact Hrd|done]|]. lia.
      * rewrite !fn_lookup_insert_ne by done. split; [|split; [done|]].
        { intros Hb. specialize (Hx Hb). destruct pend as [[bk rw]|]; [|done]. destruct Hp as [-> _]. cbn in Hx. congruence. }
        intros Hw ->. specialize (Hz Hw). destruct (lastType r (lastBank r)) eqn:Elt; [specialize (Hz eq_refl); lia|]. specialize (co_rw0 b). lia.
  - intros Hm. destruct (Ha Hm) as (d & Hd' & []). cbn [sent after send]. rewrite Hd'. cbn [mbind option_bind accept].
    destruct cont; [destruct Ho; congruence|].
    assert (Hrow : b_row (banks d (bank l)) = Some (row l)).
    { rewrite re_row0, Ho. destruct pend as [[bk rw]|]; [destruct Hp as (-> & -> & _); by rewrite decide_True|destruct Hp as [_ ->]; done]. }
    rewrite (bool_decide_eq_true_2 (b_row _ = _)) by done. rewrite re_act0, some_unless0_late by done. rewrite re_last0.
    rewrite (some_unless0_rw _ (GetRdWrDelay p type (lastType r (lastBank r))) _ (fun y => GetRdWrDelay p type y)) by (done || (intros _; lia)).
    cbn [andb]. eexists. split; [reflexivity|]. unfold lastIssue in *. split; cbn; rewrite ?fn_lookup_insert; auto.
    + intros b. destruct (decide (bank l = b)) as [<-|]; [rewrite !fn_lookup_insert; cbn; by rewrite Hrow, Ho|rewrite !fn_lookup_insert_ne by done].
      rewrite re_row0. destruct (bankinfo r b); [|done]. destruct pend as [[bk rw]|]; [|done]. destruct Hp as [-> _]. by rewrite decide_False.
    + intros b. destruct (decide (bank l = b)) as [<-|]; [by rewrite !fn_lookup_insert|rewrite !fn_lookup_insert_ne by done; apply re_act0].
    + intros b. destruct (decide (bank l = b)) as [<-|]; [rewrite !fn_lookup_insert; apply re_pre0|rewrite !fn_lookup_insert_ne by done; apply re_pre0].
    + intros b. destruct (decide (bank l = b)) as [<-|]; [rewrite !fn_lookup_insert; cbn|rewrite !fn_lookup_insert_ne by done; apply re_rw0].
      unfold some_unless0. by rewrite (proj2 (Z.eqb_neq v' 0)) by lia.
    + unfold some_unless0. by rewrite (proj2 (Z.eqb_neq v' 0)) by lia.
    + intros x Hx. destruct (re_head0 x Hx) as [? Hy]. split; [done|]. destruct pend; lia.
Qed.

(** After the burst its bank is like any other. *)
Lemma inv_settle bk rw B r : inv (Some (bk, rw)) B r -> B = lastIssue r -> lastRow r bk = rw -> lastActCycle r bk + tRCD t <= lastRdWrCycle r bk ->
  (IsOpenRowBufPolicy p = false -> bankinfo r bk = false) -> inv None B r.
Proof using.
  intros [[] Ha] -> Hrow Hact Hb. split.
  - split; auto.
    + intros b. destruct (co_act0 b) as [Hx Hy]. split; [done|]. intros Hn. left. destruct (Hy Hn) as [|[Hz _]]; [done|]. cbn in Hz. by injection Hz as <-.
    + intros Hp b. destruct (co_closed0 Hp b) as (Hx & Hy & Hz). split; [|done]. intros Hn. specialize (Hx Hn). cbn in Hx. injection Hx as <-. rewrite (Hb Hp) in Hn. done.
  - intros Hm. destruct (Ha Hm) as (d & Hd & []). exists d. split; [done|]. split; auto.
    intros b. rewrite re_row0. destruct (bankinfo r b); [|done]. destruct (decide (bk = b)) as [<-|]; [by rewrite Hrow|done].
Qed.

Lemma close_row_spec l type (cont : bool) r : let v := lastIssue r in
  inv (Some (bank l, row l)) v r -> lastBank r = bank l -> lastRdWrCycle r (bank l) = v -> lastType r (bank l) = type ->
  lastActCycle r (bank l) + tRCD t <= v -> lastActCycle r (bank l) <> 0 -> lastRow r (bank l) = row l ->
  (if cont then IsOpenRowBufPolicy p = false /\ mergeContinuous (pm p) = true else bankinfo r (bank l) = true) -> 0 < v ->
  exists r', close_row p l type v cont r = Ok r' /\ inv None v r' /\ lastIssue r' = v /\ lastAccessCycle r' = lastAccessCycle r /\
    lastRefreshCycle r' = lastRefreshCycle r /\ refreshNum r' = refreshNum r /\ bg r' = bg r /\
    (IsOpenRowBufPolicy p = true -> bankinfo r' (bank l) = true).
Proof using Hok.
  intros v Hi Hlb Hrw Ht Hact Hact0 Hrow Ho Hv. unfold close_row. pose proof policy_cases as Hpol. destruct (IsCloseRowBufPolicy p) eqn:Ec; cbn in Hpol.
  2: { exists r. split; [done|]. split_and!; try done; [|by destruct cont; [destruct Ho; congruence|]].
       apply (inv_settle (bank l) (row l)); try done; [lia|congruence]. }
  set (pre := CalcPreConst p (bank l) type v r). assert (Hpre : v <= pre /\ v + GetPreDelay p type <= pre /\ lastActCycle r (bank l) + tRAS t <= pre).
  { unfold pre, CalcPreConst. rewrite Hrw. lia. }
  rewrite (proj2 (Z.leb_le v pre)) by lia. cbn [assert_that mbind res_bind]. destruct Hi as [[] Ha].
  destruct (co_closed0 Hpol (bank l)) as (_ & Hle & _). rewrite Hrw, Ht in Hle.
  unfold IssuePrecharge. rewrite (proj2 (Z.leb_le _ pre)) by lia. cbn [assert_that mbind res_bind mret res_ret].
  eexists. split; [reflexivity|]. split; [|split_and!; try done; congruence].
  apply (inv_settle (bank l) (row l)); cbn; rewrite ?Hrw; try done; try lia; [|intros _; by rewrite fn_lookup_insert]. split.
  - subst v. unfold lastIssue in *. split; cbn; auto; try congruence.
    + intros b Hb. assert (bank l <> b) by congruence. rewrite !fn_lookup_insert_ne by done. by apply co_never0.
    + intros b. destruct (decide (bank l = b)) as [<-|]; [rewrite fn_lookup_insert; lia|by rewrite fn_lookup_insert_ne].
    + intros _ b. destruct (co_closed0 Hpol b) as (Hx & Hy & Hz). destruct (decide (bank l = b)) as [<-|].
      * rewrite !fn_lookup_insert. split; [done|]. split; [|done]. unfold pre, CalcPreConst. rewrite Hrw, Ht. pose proof (pre_delay p Hok type) as Hd.
        assert (0 <= tRTP t /\ 0 <= tCWD t /\ 0 <= tTrans t /\ 0 <= tWR t) by (pose proof (to_small p Hok) as Hs; rewrite !Forall_cons in Hs; lia).
        destruct type; lia.
      * rewrite !fn_lookup_insert_ne by done. done.
  - intros Hm. destruct (Ha Hm) as (d & Hd & []). cbn [sent after send]. rewrite Hd. cbn [mbind option_bind accept].
    destruct cont; [destruct Ho; congruence|].
    rewrite (bool_decide_eq_true_2 (b_row _ <> None)) by (rewrite re_row0, Ho; done).
    rewrite re_act0, some_unless0_late by lia. rewrite re_rw0. rewrite (some_unless0_rw _ (GetPreDelay p (lastType r (bank l)))) by (done || (rewrite Hrw, Ht; lia)).
    cbn [andb]. eexists. split; [reflexivity|]. split; cbn; auto.
    + intros b. destruct (decide (bank l = b)) as [<-|]; [by rewrite !fn_lookup_insert|rewrite !fn_lookup_insert_ne by done].
      rewrite re_row0. destruct (bankinfo r b); [|done]. by rewrite decide_False.
    + intros b. destruct (decide (bank l = b)) as [<-|]; [by rewrite !fn_lookup_insert|by rewrite !fn_lookup_insert_ne].
    + intros b. destruct (decide (bank l = b)) as [<-|]; [rewrite !fn_lookup_insert|by rewrite !fn_lookup_insert_ne]. cbn.
      unfold some_unless0. by rewrite (proj2 (Z.eqb_neq pre 0)) by lia.
    + intros b. destruct (decide (bank l = b)) as [<-|]; [by rewrite !fn_lookup_insert|by rewrite !fn_lookup_insert_ne].
Qed.

Lemma prepare_spec l type a n r : inv None (lastIssue r) r -> 1 <= a ->
  exists cont v r' pend, prepare p l type a n r = Ok (cont, v, r') /\ a <= v /\ same_issue r r' /\ ready l type cont pend v r'.
Proof using Hok.
  intros Hi Ha. destruct (open_row_spec l type a n r Hi Ha) as (cont & act & r1 & E1 & S1 & H1). unfold prepare. rewrite E1. cbn [mbind res_bind].
  pose proof S1 as (Sb & Si & _ & Sr & St & Sw & _). pose proof (delay_pos p Hok type (lastType r (lastBank r))) as Hd.
  assert (0 <= tRCD t) by (pose proof (to_small p Hok) as Hs; rewrite !Forall_cons in Hs; lia).
  destruct act as [c|]; cbn in H1.
  - destruct H1 as (-> & Hc & Hl & Hi1 & Hb). destruct (activate_spec l a c r1) as (c' & r2 & -> & Hc' & S2 & Hi2 & Hb2 & Hp2 & Ha2); try done; [lia|].
    cbn [mbind res_bind rdwr_start mret res_ret]. pose proof S2 as (Sb2 & Si2 & _ & _ & St2 & Sw2 & _).
    exists false, (CalcRdWrConst p type (c' + tRCD t) r2), r2, (Some (bank l, row l)). split; [done|].
    assert (Hv : c' + tRCD t <= CalcRdWrConst p type (c' + tRCD t) r2 /\
      lastIssue r2 + GetRdWrDelay p type (lastType r2 (lastBank r2)) <= CalcRdWrConst p type (c' + tRCD t) r2) by (unfold CalcRdWrConst, lastIssue; lia).
    split; [lia|]. split; [eapply same_issue_trans; [exact S1|exact S2]|]. rewrite <- Si2, <- Si in *.
    split; [exists (c' + tRCD t); split; [exact Hi2|lia]|lia|lia|lia|done|]. split_and!; try done. lia.
  - destruct H1 as (Hi1 & Hpol & H1). cbn [activate mbind res_bind mret res_ret rdwr_start]. destruct cont.
    + cbn in Hpol. exists true, (CalcRdWrConst p type a r1), r1, None. split; [done|]. destruct H1 as [Hm Hp].
      assert (Hv : a <= CalcRdWrConst p type a r1 /\ lastIssue r1 + GetRdWrDelay p type (lastType r1 (lastBank r1)) <= CalcRdWrConst p type a r1)
        by (unfold CalcRdWrConst, lastIssue; lia).
      rewrite <- Sb, <- St in Hd. split; [lia|]. split; [done|]. rewrite <- Si in *.
      split; [exists (lastIssue r1); split; [done|lia]|lia|lia| |done|done].
      intros E. destruct Hi1 as [[] _]. by destruct (co_never0 _ E) as (_ & ? & _).
    + destruct H1 as [Hh Hb]. rewrite Hh, Hpol. cbn [negb assert_that mbind res_bind mret res_ret].
      rewrite Hh in E1. unfold open_row in E1. rewrite Hpol in E1. cbn [negb] in E1. injection E1 as <-.
      destruct (intra_spec (lastIssue r) true type a n r Hi) as (v & k & -> & Hv1 & Hv2).
      exists false, v, (set_refresh (refreshNum r) k r), None. split; [done|]. split; [done|]. split; [apply same_set_refresh|].
      pose proof (open_bank _ _ _ _ Hi Hb) as Hact. pose proof Hi as [C _].
      assert (Hn : lastIssue r <> 0).
      { destruct (co_act _ _ _ _ C (bank l)) as [Hx Hy]. destruct (Hy Hact) as [|[? _]]; [|done]. pose proof (co_rw _ _ _ _ C (bank l)). lia. }
      specialize (Hv2 Hn). split; [exists (lastIssue r); split; [by apply inv_set_refresh|lia]|cbn; unfold lastIssue in *; cbn; lia|done|done|done|].
      split; [done|]. unfold IsRowBufferHit in Hh. apply andb_prop in Hh as [_ Hh]. by apply Z.eqb_eq in Hh.
Qed.

(** ** The data bus *)

Lemma find_slot_ge tSlot l : 0 <= tSlot -> forall ts, ts <= find_slot p tSlot ts l.
Proof using.
  intros Hs. induction l as [|[s e] l IH]; intros ts; cbn; [lia|].
  destruct (_ || _) eqn:E; [|destruct (_ <? s); [lia|apply IH]].
  etransitivity; [|apply IH]. apply orb_prop in E as [E|E]; apply andb_prop in E as [E1 E2]; rewrite ?Z.leb_le, ?Z.ltb_lt in *; lia.
Qed.

Lemma length_insert x l : length (insert_pair x l) = S (length l).
Proof using. induction l as [|y l IH]; [reflexivity|]. cbn. destruct (pair_leb x y); [reflexivity|]. cbn. by rewrite IH. Qed.

Lemma length_sort l : length (sort_pairs l) = length l.
Proof using. induction l as [|x l IH]; [reflexivity|]. unfold sort_pairs in *. cbn [foldr]. rewrite length_insert. cbn. by rewrite IH. Qed.

Lemma update_bus s e log : 1 <= accessLogDepth (pm p) -> exists log', UpdateDataBusCycle p s e log = Ok log'.
Proof using.
  intros Hd. unfold UpdateDataBusCycle. destruct (Z.ltb_spec (accessLogDepth (pm p)) (Z.of_nat (length (sort_pairs (log ++ [(s, e)]))))); [|by eexists].
  destruct (sort_pairs _) as [|? [|[? ?] ?]]; cbn in *; try lia. by eexists.
Qed.

(** ** The whole access *)

(** A rank between accesses, [T] being the last arrival. *)
Definition rank_ok (T : Z) (r : MemRank) : Prop :=
  inv None (lastIssue r) r /\ clock p T r /\ (powerDownCycle (pm p) <> 0 -> power_ok p T r).

Lemma rank_ok_new : rank_ok 0 newRank.
Proof using Hok.
  split; [apply inv_new, Hok|]. split; [unfold clock; cbn; lia|]. intros _. pose proof (to_refi p Hok). split; cbn; unfold bg_total; cbn; try lia.
Qed.

Lemma refreshed T a lp r : rank_ok T r -> timely p T a r -> 1 <= a -> 0 <= lp <= a ->
  exists r1 r2, UpdateRefreshNum p a r = Ok (due p a r, r1) /\ lastAccessCycle r1 = lastAccessCycle r /\
    (r1' ← UpdatePowerDownCycle p a lp (due p a r) r1; UpdateLastRefreshCycle p (due p a r) r1') = Ok r2 /\
    inv None (lastIssue r2) r2 /\ clock p a r2 /\ a < lastRefreshCycle r2 + tREFI t /\ (powerDownCycle (pm p) <> 0 -> bg_ok (bg r2) a).
Proof using Hok.
  intros (Hi & Hc & Hp) Ht Ha Hlp. rewrite (refresh_num p Hok T a r Hc Ht). eexists _. destruct (due_spec p Hok T a r Hc Ht) as (Hd1 & Hd2 & Hd3).
  pose proof Hi as [C _]. pose proof (co_refresh _ _ _ _ C). assert (0 <= lastAccessCycle r).
  { pose proof (data_delay p Hok (lastType r (lastBank r))) as (_ & _ & ? & ?). pose proof (to_trans p Hok). destruct (co_access _ _ _ _ C); lia. }
  destruct (Z.eq_dec (powerDownCycle (pm p)) 0) as [E|E].
  - unfold UpdatePowerDownCycle. rewrite (proj2 (Z.eqb_eq _ _) E). cbn [mbind res_bind mret res_ret].
    destruct (last_refresh p Hok T a (lastIssue r) r Hc Ht Hi) as (r' & -> & H1 & H2 & H3 & H4 & _). exists r'. rewrite H4. split_and!; try done. 
  - destruct Hc as (Hc1 & Hc2 & Hc3), Ht as (Ht1 & Ht2 & Ht3).
    destruct (power_step p Hok T a lp (due p a r) (set_refresh (refreshNum r + due p a r) (accessInRefresh r) r)) as (b & -> & Hb); try done.
    { destruct (Hp E). by split. }
    cbn [mbind res_bind].
    destruct (last_refresh p Hok T a (lastIssue r) (set_bg b (prevBg r) r)) as (r' & HU & H1 & H2 & H3 & H4 & _ & H5); [done|done|by apply inv_set_bg|].
    exists r'. split; [done|]. split; [done|]. split; [exact HU|]. rewrite H4, H5. split_and!; try done.
Qed.

(** The burst of an access on the bus whose log is [log]: without a power-down penalty it lies
    in the slot that was found. *)
Definition placed (type : MemAccessType) (a : Z) (log : list (Z * Z)) (burst : Z * Z) (log' : list (Z * Z)) : Prop :=
  UpdateDataBusCycle p burst.1 burst.2 log = Ok log' /\ burst.2 = burst.1 + tTrans t /\
  exists ts pen, a <= ts /\ 0 <= pen /\ burst.1 = find_slot p (tTrans t + tRTRS t) ts log + pen /\
    (powerDownCycle (pm p) = 0 \/ tXP t = 0 -> pen = 0).

Lemma penalty a r : 0 <= GetPowerDownPenalty p a r /\ (powerDownCycle (pm p) = 0 \/ tXP t = 0 -> GetPowerDownPenalty p a r = 0).
Proof using Hok.
  assert (0 <= tXP t) by (pose proof (to_small p Hok) as Hs; rewrite !Forall_cons in Hs; lia). unfold GetPowerDownPenalty.
  destruct (Z.eqb_spec (powerDownCycle (pm p)) 0); cbn [negb andb]; [lia|]. destruct (_ <? a); lia.
Qed.

Lemma simulate_rank_spec T l a lp type log r : rank_ok T r -> timely p T a r -> 1 <= a -> 0 <= lp <= a ->
  0 <= bank l < bankCount (pm p) -> 1 <= accessLogDepth (pm p) ->
  exists lat burst log' r', simulate_rank p l a lp type log r = Ok (lat, burst, log', r') /\ rank_ok a r' /\
    GetDataDelay p type <= lat /\ placed type a log burst log'.
Proof using Hok.
  intros Hr Ht Ha Hlp Hbk Hdepth. destruct (refreshed T a lp r Hr Ht Ha Hlp) as (r1 & r2 & E1 & El1 & E2 & Hi2 & Hc2 & Ht2 & Hb2).
  unfold simulate_rank. rewrite E1. cbn [mbind res_bind]. apply bind_Ok in E2 as (r1' & E2 & E3). rewrite E2. cbn [mbind res_bind]. rewrite E3. cbn [mbind res_bind].
  destruct (prepare_spec l type a (due p a r) r2 Hi2 Ha) as (cont & v & r3 & pend & -> & Hv & S3 & Hrd). cbn [mbind res_bind].
  rewrite (proj2 (Z.leb_le a v)) by done. cbn [assert_that mbind res_bind].
  pose proof (data_delay p Hok type) as (Hdd & Hcr & Hdl & Htr). pose proof (penalty a r1) as [Hpen1 Hpen2].
  assert (Hs : 0 <= tTrans t /\ 0 <= tRTRS t /\ tTrans t + tRTRS t < 2 ^ 32) by (pose proof (to_small p Hok) as Hs; rewrite !Forall_cons in Hs; lia).
  unfold CalcInterIssueCycle, GetDataSlot. rewrite u32_id by (unfold in_u32; lia). set (f := find_slot _ _ _ _).
  assert (Hf : v + GetDataLatency p type <= f) by (apply find_slot_ge; lia).
  rewrite (proj2 (Z.leb_le a _)) by lia. cbn [assert_that mbind res_bind]. rewrite Hdd, Hcr. set (pen := GetPowerDownPenalty p a r1) in *.
  destruct (access_step l type cont pend v (f - GetDataLatency p type)
    (a + (f - GetDataLatency p type - a + (GetDataLatency p type + tTrans t / 4) + pen + (tTrans t - tTrans t / 4))) r3 Hrd)
    as (r4 & -> & Hi4 & H1 & H2 & H3 & H4 & H5 & H6 & H7 & H8 & H9 & H10 & H11 & H12); [lia|lia|]. cbn [mbind res_bind].
  destruct (close_row_spec l type cont r4) as (r5 & E5 & Hi5 & G1 & G2 & G3 & G4 & G5 & G6); try done.
  { by rewrite H1. } { by rewrite H9. } { by rewrite H1. } { destruct Hrd. destruct cont; [done|by rewrite H7]. } { rewrite H1. lia. }
  rewrite H1 in E5. rewrite E5. cbn [mbind res_bind].
  match goal with |- context [UpdateDataBusCycle p ?s ?e log] => destruct (update_bus s e log Hdepth) as [log' Elog]; rewrite Elog end. cbn [mbind res_bind mret res_ret].
  eexists _, _, log', r5. split; [reflexivity|]. destruct S3 as (_ & _ & _ & _ & _ & _ & Sref & Snum & Sbg).
  split; [|split; [lia|]].
  - unfold rank_ok. rewrite G1. split; [exact Hi5|]. unfold clock in *. rewrite G3, G4, H4, H5, Sref, Snum. split; [done|]. intros Hpd. specialize (Hb2 Hpd) as (?&?&?&?).
    rewrite <- Sbg, <- H6, <- G5 in *. split; [done|done| | |].
    + rewrite G2, H3. lia.
    + rewrite G3, H4, Sref. lia.
    + intros Hpol _. apply (active_some p r5 (bank l)); auto.
  - split; [exact Elog|]. cbn [fst snd]. split; [lia|]. exists (v + GetDataLatency p type), pen. fold f. split_and!; try done; lia.
Qed.

End access.
End DetAccess.
