(* ===== verification/DetBus.v ===== *)
(** The data bus of a channel of the detailed memory model: as long as no power-down penalty
    delays a burst after its slot was found, no two bursts overlap, though the channel
    remembers only some of them. *)
From Stdlib Require Import Sorted.
From S2P Require Import Prelude DetParams DetAddr DetChannel DetRank DetAccess.
Import DetParams DetAddr DetChannel DetRank DetAccess.

Module DetBus.

Section bus.
Context (p : MemParam) (Hok : timing_ok p).
Local Notation t := (pt p).

(** The bus is turned over between [x] and [y]. *)
Definition before (x y : Z * Z) : Prop := x.2 + tRTRS t <= y.1.
Definition apart (x y : Z * Z) : Prop := before x y \/ before y x.
(** [x] is an entry of the log, the first of which may reach back to the start. *)
Definition entry (x : Z * Z) : Prop := 0 <= x.1 /\ x.1 + tTrans t <= x.2.

Definition log_ok (log : list (Z * Z)) : Prop := StronglySorted before log /\ Forall entry log.

(** The log stands for the burst [b]: it holds it, or its first entry is later and reaches back. *)
Definition stands_for (log : list (Z * Z)) (b : Z * Z) : Prop :=
  b ∈ log \/ exists e rest, log = (0, e) :: rest /\ b.2 <= e.

Record bus_ok (log bursts : list (Z * Z)) : Prop := {
  bo_log : log_ok log;
  bo_bursts : Forall (stands_for log) bursts;
  bo_apart : ForallOrdPairs apart bursts
}.

Lemma trans_pos : 1 <= tTrans t /\ 0 <= tRTRS t.
Proof using Hok. pose proof (to_trans p Hok) as [? _]. pose proof (to_small p Hok) as Hs. rewrite !Forall_cons in Hs. lia. Qed.

Lemma find_slot_spec log : log_ok log -> forall ts, let r := find_slot p (tTrans t + tRTRS t) ts log in
  (forall x, x ∈ log -> x.2 + tRTRS t <= r \/ r + (tTrans t + tRTRS t) <= x.1) /\ (r = ts \/ exists x, x ∈ log /\ r = x.2 + tRTRS t).
Proof using Hok.
  pose proof trans_pos as [Ht Hr]. intros [Hs He]. induction Hs as [|[s e] l Hs IH Hb]; intros ts; cbn; [by split; [intros x Hx; inversion Hx|left]|].
  apply Forall_cons in He as [[He1 He2] He]. cbn in He1, He2. specialize (IH He).
  destruct (_ || _) eqn:E.
  - destruct (IH (e + tRTRS t)) as [I1 I2]. split.
    + intros x [->|Hx]%elem_of_cons; [|by apply I1]. left. cbn. apply find_slot_ge. lia.
    + right. destruct I2 as [I2|(x & Hx & I2)]; [exists (s, e); split; [left|done]|exists x; split; [by right|done]].
  - apply orb_false_elim in E as [E1 E2]. rewrite !andb_false_iff, !Z.ltb_ge, !Z.leb_gt in *.
    assert (Hhead : e + tRTRS t <= ts \/ ts + (tTrans t + tRTRS t) <= s) by lia.
    destruct (Z.ltb_spec (ts + (tTrans t + tRTRS t)) s) as [Hlt|Hge].
    + split; [|by left]. intros x [->|Hx]%elem_of_cons; [right; cbn; lia|]. right. rewrite Forall_forall in Hb. specialize (Hb x Hx). unfold before in Hb. cbn in Hb. lia.
    + destruct (IH ts) as [I1 I2]. split.
      * intros x [->|Hx]%elem_of_cons; [|by apply I1]. cbn. pose proof (find_slot_ge p (tTrans t + tRTRS t) l ltac:(lia) ts).
        destruct I2 as [->|(y & Hy & ->)]; [lia|]. left. rewrite Forall_forall in Hb, He. specialize (Hb y Hy). specialize (He y Hy). unfold before, entry in *. cbn in Hb. lia.
      * destruct I2 as [I2|(x & Hx & I2)]; [by left|right; exists x; split; [by right|done]].
Qed.

(** ** The order of the log *)

Lemma elem_insert x z l : z ∈ insert_pair x l <-> z = x \/ z ∈ l.
Proof using.
  induction l as [|y l IH]; cbn; [apply elem_of_cons|]. destruct (pair_leb x y); [by rewrite elem_of_cons|].
  rewrite !elem_of_cons, IH. tauto.
Qed.

Lemma insert_sorted x l : log_ok l -> entry x -> (forall y, y ∈ l -> apart x y) -> log_ok (insert_pair x l).
Proof using Hok.
  pose proof trans_pos as [Ht Hr]. intros [Hs He] Hx Ha. split.
  2: { rewrite Forall_forall in *. intros z [->|Hz]%elem_insert; auto. }
  induction Hs as [|y l Hs IH Hb]; cbn; [repeat constructor|]. apply Forall_cons in He as [Hy He].
  assert (Hay : apart x y) by (apply Ha; left). unfold pair_leb. destruct Hx as [Hx1 Hx2], Hy as [Hy1 Hy2].
  rewrite Forall_forall in Hb. destruct (_ || _) eqn:E.
  - assert (before x y).
    { destruct Hay as [|Hyx]; [done|]. unfold before in *. rewrite orb_true_iff, andb_true_iff, Z.ltb_lt, Z.eqb_eq, Z.leb_le in E. lia. }
    repeat constructor; auto; rewrite Forall_forall; auto. intros z Hz. specialize (Hb z Hz). unfold before in *. lia.
  - constructor; [apply IH; auto; intros; apply Ha; by right|]. rewrite Forall_forall. intros z [->|Hz]%elem_insert; [|by apply Hb].
    destruct Hay as [Hxy|]; [|done]. unfold before in *. rewrite orb_false_iff, andb_false_iff, Z.ltb_ge, Z.eqb_neq, Z.leb_gt in E. lia.
Qed.

Lemma sort_snoc x log : log_ok log -> entry x -> (forall y, y ∈ log -> apart x y) ->
  log_ok (sort_pairs (log ++ [x])) /\ forall z, z ∈ sort_pairs (log ++ [x]) <-> z = x \/ z ∈ log.
Proof using Hok.
  intros Hl Hx. induction log as [|y log IH]; intros Ha.
  - cbn. split; [|intros z; apply elem_of_cons]. split; [repeat constructor|by apply Forall_singleton].
  - destruct Hl as [Hs He]. inversion_clear Hs as [|? ? Hs' Hb]. apply Forall_cons in He as [Hy He].
    destruct IH as [I1 I2]; [by split|intros; apply Ha; by right|]. change (sort_pairs ((y :: log) ++ [x])) with (insert_pair y (sort_pairs (log ++ [x]))).
    split.
    + apply insert_sorted; [done|done|]. intros z [->|Hz]%I2; [destruct (Ha y); [left| |]; unfold apart; auto|]. left. rewrite Forall_forall in Hb. auto.
    + intros z. rewrite elem_insert, I2, elem_of_cons. tauto.
Qed.

(** Nothing comes before an entry that reaches back to the start. *)
Lemma first_is_zero log e : log_ok log -> (0, e) ∈ log -> exists rest, log = (0, e) :: rest.
Proof using Hok.
  pose proof trans_pos as [Ht Hr]. intros [Hs He] Hin. inversion Hs as [|x l Hs' Hb]; subst; [inversion Hin|].
  apply elem_of_cons in Hin as [->|Hin]; [by eexists|]. rewrite Forall_forall in Hb. specialize (Hb _ Hin). apply Forall_cons in He as [[H1 H2] _].
  unfold before in Hb. cbn in Hb. lia.
Qed.

Lemma bus_step log bursts x log' : bus_ok log bursts -> entry x -> (forall y, y ∈ log -> apart x y) ->
  UpdateDataBusCycle p x.1 x.2 log = Ok log' -> bus_ok log' (x :: bursts).
Proof using Hok.
  pose proof trans_pos as [Ht Hr]. intros [Hl Hb Ha] Hx Hax. destruct (sort_snoc x log Hl Hx Hax) as [Hs Hin].
  unfold UpdateDataBusCycle. rewrite <- (surjective_pairing x). set (l := sort_pairs (log ++ [x])) in *.
  assert (Hpair : ForallOrdPairs apart (x :: bursts)).
  { constructor; [|done]. apply Forall_forall. intros b Hbin. rewrite Forall_forall in Hb. destruct (Hb b Hbin) as [|(e & rest & -> & He)]; [by apply Hax|].
    destruct (Hax (0, e)) as [Hax'|Hax']; [left| |]; unfold before in Hax'; cbn in Hax'; destruct Hx; [lia|]. right. unfold before. lia. }
  assert (Hl' : Forall (stands_for l) (x :: bursts)).
  { constructor; [left; apply Hin; by left|]. rewrite Forall_forall in *. intros b Hbin. destruct (Hb b Hbin) as [H|(e & rest & -> & He)]; [left; apply Hin; by right|].
    right. destruct (first_is_zero l e Hs) as [rest' E]; [apply Hin; right; left|]. by exists e, rest'. }
  destruct (_ <? _); [|intros [= <-]; by split].
  destruct Hs as [Hs He]. destruct l as [|y [|[s e] l']] eqn:El; [done|done|]. intros [= <-].
  inversion_clear Hs as [|? ? Hs1 Hb1]. inversion_clear Hs1 as [|? ? Hs2 Hb2]. apply Forall_cons in He as [[Hy1 Hy2] He]. apply Forall_cons in He as [[Hz1 Hz2] He].
  apply Forall_cons in Hb1 as [Hyz _]. unfold before in Hyz. cbn in Hyz, Hz1, Hz2. split; [|eapply Forall_impl; [exact Hl'|]|done].
  - split; [constructor; [done|by eapply Forall_impl; [exact Hb2|]]|]. constructor; [|done]. split; cbn; lia.
  - intros b [Hin'|(e' & rest & E & Hle)].
    + apply elem_of_cons in Hin' as [->|Hin']; [right; exists e, l'; split; [done|]; lia|].
      apply elem_of_cons in Hin' as [->|Hin']; [right; by exists e, l'|left; by right].
    + injection E as -> _. right. exists e, l'. split; [done|]. cbn in *. lia.
Qed.

(** An access without a penalty keeps the bus in order. *)
Lemma bus_access type a log bursts burst log' : bus_ok log bursts -> placed p type a log burst log' -> 0 <= a ->
  powerDownCycle (pm p) = 0 \/ tXP t = 0 -> bus_ok log' (burst :: bursts).
Proof using Hok.
  pose proof trans_pos as [Ht Hr]. intros Hb (E1 & E2 & ts & pen & Hts & _ & E3 & Hpen) Ha Hoff. specialize (Hpen Hoff). subst pen. rewrite Z.add_0_r in E3.
  pose proof (find_slot_ge p (tTrans t + tRTRS t) log ltac:(lia) ts) as Hge. rewrite <- E3 in Hge.
  eapply bus_step; [exact Hb|split; lia| |exact E1]. intros y Hy. destruct (find_slot_spec log (bo_log _ _ Hb) ts) as [H _]. specialize (H y Hy). rewrite <- E3 in H.
  unfold apart, before. lia.
Qed.

Lemma bus_new : bus_ok [] [].
Proof using. split; [by split; constructor|constructor|constructor]. Qed.

End bus.
End DetBus.
