(* ===== verification/DetRun.v ===== *)
(** Runs of a channel of the detailed memory model: accesses in the order of their arrival, and
    the places where the model is not what it means to be. *)
From Stdlib Require Import String Sorted.
From S2P Require Import Prelude DetParams DetAddr DetChannel DetRank DetAccess DetBus.
Import DetParams DetAddr DetChannel DetRank DetAccess DetBus.

Module DetRun.

Section run.
Context (p : MemParam) (id : Z).
Local Notation t := (pt p).

(** The next arrival [a], after the last one [T]: no rank is left without a refresh of its state
    for 2^32 cycles, and the number of refreshes fits 32 bits. *)
Definition next (T a lp : Z) (c : MemChannel) : Prop :=
  1 <= a /\ T <= a /\ 0 <= lp <= a /\ a < 2 ^ 32 * tREFI t /\ forall k, a - lastRefreshCycle (ranks c k) < 2 ^ 32.

(** The addresses that the controller sends to this channel. *)
Definition ours (addr : Z) : Prop := 0 <= addr < capacity p /\ ReturnChannel p addr = Ok id.

(** The channel after accesses in the order of their arrival.  The statistics may look at it in
    between when there is no power down. *)
Inductive reach : Z -> MemChannel -> Prop :=
  | reach_new : reach 0 (newChannel id)
  | reach_access T c addr a lp type lat c' :
      reach T c -> next T a lp c -> ours addr -> LatencySimulate p addr a lp type c = Ok (lat, c') -> reach a c'
  | reach_periodic T c a lp c' :
      reach T c -> next T a lp c -> powerDownCycle (pm p) = 0 -> PeriodicUpdatePower p a lp c = Ok c' -> reach a c'.

Definition no_penalty : Prop := powerDownCycle (pm p) = 0 \/ tXP t = 0.

Record channel_ok (T : Z) (c : MemChannel) : Prop := {
  ch_id : myId c = id;
  ch_time : 0 <= T;
  ch_ranks : forall k, exists Tk, Tk <= T /\ rank_ok p Tk (ranks c k);
  ch_lengths : Forall (fun b => b.2 = b.1 + tTrans t) (bursts c);
  ch_bus : no_penalty -> bus_ok p (accessLog c) (bursts c)
}.

Record run_ok : Prop := {
  ro_timing : timing_ok p;
  ro_addr : addr_ok p;
  ro_depth : 1 <= accessLogDepth (pm p)
}.
Context (Hok : run_ok).

Lemma channel_ok_new : channel_ok 0 (newChannel id).
Proof using Hok.
  split; cbn; try done; [|intros _; apply bus_new]. intros k. exists 0. split; [done|]. apply rank_ok_new, Hok.
Qed.

Lemma chan_access_ok T c addr a lp type : channel_ok T c -> next T a lp c -> ours addr ->
  exists lat c', LatencySimulate p addr a lp type c = Ok (lat, c') /\ channel_ok a c' /\ GetDataDelay p type <= lat.
Proof using Hok.
  intros [Hid HT Hr Hlen Hbus] (H1 & H2 & H3 & H4 & H5) [Haddr Hours].
  destruct (address_map p (ro_addr Hok) addr Haddr) as (ch & l & E1 & _ & (_ & _ & Hrk & Hbk) & _ & E2).
  assert (ch = id) as -> by congruence. unfold LatencySimulate. rewrite E2, Hid, Z.eqb_refl. cbn [mbind res_bind].
  pose proof (rank_width p (ro_addr Hok)) as [_ Hw1]. pose proof (bank_width p (ro_addr Hok)) as [_ Hw2].
  rewrite (proj2 (Z.ltb_lt (rank l) _)), (proj2 (Z.ltb_lt (bank l) _)) by lia. cbn [andb assert_that mbind res_bind].
  destruct (Hr (rank l)) as (Tk & HTk & Hrk1).
  destruct (simulate_rank_spec p (ro_timing Hok) Tk l a lp type (accessLog c) (ranks c (rank l))) as (lat & burst & log & r' & -> & G1 & G2 & G3);
    [done|split; [lia|]; by split|done|done|lia|apply Hok|].
  cbn [mbind res_bind mret res_ret]. eexists _, _. split; [reflexivity|]. split; [|done]. split; cbn.
  - done.
  - lia.
  - intros k. destruct (decide (rank l = k)) as [<-|]; [rewrite fn_lookup_insert; exists a; split; [lia|done]|rewrite fn_lookup_insert_ne by done].
    destruct (Hr k) as (Tk' & ? & ?). exists Tk'. split; [lia|done].
  - constructor; [apply G3|done].
  - intros Hoff. eapply bus_access; [apply Hok|by apply Hbus|exact G3|lia|done].
Qed.

Lemma periodic_ok T c a lp : channel_ok T c -> next T a lp c -> powerDownCycle (pm p) = 0 ->
  exists c', PeriodicUpdatePower p a lp c = Ok c' /\ channel_ok a c'.
Proof using Hok.
  intros Hc (H1 & H2 & H3 & H4 & H5) Hpd. unfold PeriodicUpdatePower.
  assert (Hgen : forall ks d, (forall k, exists Tk, Tk <= a /\ rank_ok p Tk (ranks d k) /\ (k ∈ ks -> timely p Tk a (ranks d k))) -> NoDup ks ->
    exists c', foldM (fun c i => r ← periodic_rank p a lp (ranks c i); mret (mkChannel (myId c) (<[i := r]> (ranks c)) (accessLog c) (bursts c))) d ks = Ok c' /\
      myId c' = myId d /\ accessLog c' = accessLog d /\ bursts c' = bursts d /\ forall k, exists Tk, Tk <= a /\ rank_ok p Tk (ranks c' k)).
  { induction ks as [|i ks IH]; intros d Hd Hnd; cbn [foldM].
    { exists d. split_and!; try done. intros k. destruct (Hd k) as (Tk & ? & ? & _). by exists Tk. }
    apply NoDup_cons in Hnd as [Hni Hnd]. destruct (Hd i) as (Ti & Hle & Hri & Hti). specialize (Hti ltac:(left)).
    assert (Hstep : exists r', periodic_rank p a lp (ranks d i) = Ok r' /\ exists Tk, Tk <= a /\ rank_ok p Tk r').
    { unfold periodic_rank. destruct (_ <? a); [|exists (ranks d i); split; [done|]; by exists Ti].
      destruct (refreshed p (ro_timing Hok) Ti a lp (ranks d i) Hri Hti) as (r1 & r2 & -> & _ & E & G1 & G2 & _); [done|done|]. cbn [mbind res_bind].
      exists r2. split; [exact E|]. exists a. split; [done|]. split_and!; done. }
    destruct Hstep as (r' & -> & Tk & HTk & Hrk). cbn [mbind res_bind mret res_ret].
    destruct (IH (mkChannel (myId d) (<[i := r']> (ranks d)) (accessLog d) (bursts d))) as (c' & -> & G1 & G2 & G3 & G4); [|done|by exists c'].
    intros k. cbn. destruct (decide (i = k)) as [<-|Hik].
    - rewrite fn_lookup_insert. exists Tk. split_and!; done.
    - rewrite fn_lookup_insert_ne by done. destruct (Hd k) as (Tk' & ? & ? & Ht'). exists Tk'. split_and!; try done. intros Hin. apply Ht'. by right. }
  destruct Hc as [Hid HT Hr Hlen Hbus]. destruct (Hgen (seqZ 0 (rankCount (pm p))) c) as (c' & E & G1 & G2 & G3 & G4).
  - intros k. destruct (Hr k) as (Tk & ? & ?). exists Tk. split; [lia|]. split; [done|]. intros _. split; [lia|]. by split.
  - apply NoDup_seqZ.
  - exists c'. split; [exact E|]. split; [congruence|lia|exact G4|by rewrite G3|by rewrite G2, G3].
Qed.

Lemma chan_reach_ok T c : reach T c -> channel_ok T c.
Proof using Hok.
  induction 1 as [|T c addr a lp type lat c' _ IH Hn Ho E|T c a lp c' _ IH Hn Hpd E]; [apply channel_ok_new| |].
  - destruct (chan_access_ok T c addr a lp type IH Hn Ho) as (? & ? & E' & ? & _). rewrite E in E'. injection E' as <- <-. done.
  - destruct (periodic_ok T c a lp IH Hn Hpd) as (? & E' & ?). rewrite E in E'. injection E' as <-. done.
Qed.

Lemma rank_accepted T r : rank_ok p T r -> mergeContinuous (pm p) = false -> is_Some (after p (sent r)).
Proof using. intros ([_ Ha] & _) Hm. destruct (Ha Hm) as (d & Hd & _). by eexists. Qed.

End run.

(** C4: with the parameters of [run_ok] (at least four banks, timings that fit each other),
    whatever accesses to its own addresses a channel of the detailed memory is sent, in the
    order of their arrival and with no 2^32 cycles between refreshes, none fails an
    assertion, and none is faster than the devices are; a look of the statistics at the
    power fails none when there is no power down; and when accesses are not merged
    ([mergeContinuous] is off) the devices of every rank accept the commands: cycle after
    cycle they respect the times between activations, bursts and precharges of a bank and
    of the rank.  Each of the three limits is needed: [two_banks_overrun],
    [standby_counted_twice] and [continues_over_refresh], below. *)
Theorem det_channel_safe p id T c : run_ok p -> reach p id T c ->
  (forall addr a lp type, next p T a lp c -> ours p id addr ->
     exists lat c', LatencySimulate p addr a lp type c = Ok (lat, c') /\ GetDataDelay p type <= lat) /\
  (forall a lp, next p T a lp c -> powerDownCycle (pm p) = 0 -> is_ok (PeriodicUpdatePower p a lp c)) /\
  (mergeContinuous (pm p) = false -> forall k, is_Some (after p (sent (ranks c k)))).
Proof.
  intros Hok Hr. pose proof (chan_reach_ok p id Hok T c Hr) as Hc. split_and!.
  - intros addr a lp type Hn Ho. destruct (chan_access_ok p id Hok T c addr a lp type Hc Hn Ho) as (lat & c' & E & _ & H). by exists lat, c'.
  - intros a lp Hn Hpd. destruct (periodic_ok p id Hok T c a lp Hc Hn Hpd) as (c' & E & _). by exists c'.
  - intros Hm k. destruct (ch_ranks _ _ _ _ Hc k) as (Tk & _ & Hrk). by eapply rank_accepted.
Qed.

(** C20: as long as leaving power down costs nothing, the bursts of all accesses of a channel,
    of which it remembers only the last few, are [tTrans] long and [tRTRS] apart. *)
Theorem det_bus_exclusive p id T c : run_ok p -> no_penalty p -> reach p id T c ->
  Forall (fun b => b.2 = b.1 + tTrans (pt p)) (bursts c) /\
  ForallOrdPairs (fun x y => x.2 + tRTRS (pt p) <= y.1 \/ y.2 + tRTRS (pt p) <= x.1) (bursts c).
Proof.
  intros Hok Hoff Hr. destruct (chan_reach_ok p id Hok T c Hr) as [_ _ _ Hl Hb]. split; [done|]. apply (bo_apart _ _ _ (Hb Hoff)).
Qed.

(** ** Runs *)

Lemma ddr3_run_ok k policy merge : 0 <= k <= 5200 -> run_ok (ddr3 [("mc_spec.powerDownCycle"%string, k)] policy merge).
Proof.
  intros Hk. unfold ddr3. destruct (LoadConfig _ _) as [q|] eqn:E; vm_compute in E; [|done].
  injection E as <-. split; [split|split|]; cbn -[Z.pow]; try lia; try (split; try lia; reflexivity).
  - repeat constructor; lia.
Qed.

Lemma det_channel_safe_witness : let p := ddr3 [("mc_spec.powerDownCycle"%string, 50)] "open" false in
  run_ok p /\ exists lat c, LatencySimulate p 4096 100 0 READ (newChannel 0) = Ok (lat, c) /\ 11 <= lat /\ reach p 0 100 c /\
    forall k, is_Some (after p (sent (ranks c k))).
Proof.
  intros p. assert (Hok : run_ok p) by (apply ddr3_run_ok; lia). split; [exact Hok|].
  assert (Hn : next p 0 100 0 (newChannel 0)) by (split_and!; try (intros; cbn; lia); vm_compute; done).
  assert (Ho : ours p 0 4096) by (split; [vm_compute; split; congruence|reflexivity]).
  destruct (det_channel_safe p 0 0 (newChannel 0) Hok (reach_new p 0)) as (H & _).
  destruct (H 4096 100 0 READ Hn Ho) as (lat & c & E & Hlat).
  assert (Hr : reach p 0 100 c) by (eapply reach_access; [apply reach_new|exact Hn|exact Ho|exact E]).
  exists lat, c. split; [exact E|]. split; [vm_compute in Hlat; destruct lat; try done; lia|]. split; [exact Hr|].
  destruct (det_channel_safe p 0 100 c Hok Hr) as (_ & _ & Hacc). by apply Hacc.
Defined.

Lemma det_bus_exclusive_witness : let p := ddr3 [("mc_spec.powerDownCycle"%string, 0)] "close" false in
  run_ok p /\ no_penalty p /\ exists lat c, LatencySimulate p 4096 100 0 WRITE (newChannel 0) = Ok (lat, c) /\
    Forall (fun b => b.2 = b.1 + 4) (bursts c).
Proof.
  intros p. assert (Hok : run_ok p) by (apply ddr3_run_ok; lia). split; [exact Hok|]. assert (Hoff : no_penalty p) by (left; reflexivity). split; [exact Hoff|].
  assert (Hn : next p 0 100 0 (newChannel 0)) by (split_and!; try (intros; cbn; lia); vm_compute; done).
  assert (Ho : ours p 0 4096) by (split; [vm_compute; split; congruence|reflexivity]).
  destruct (chan_access_ok p 0 Hok 0 (newChannel 0) 4096 100 0 WRITE) as (lat & c & E & _ & _); [by apply channel_ok_new|exact Hn|exact Ho|].
  exists lat, c. split; [exact E|].
  destruct (det_bus_exclusive p 0 100 c Hok Hoff) as [H _]; [eapply reach_access; [apply reach_new|exact Hn|exact Ho|exact E]|]. exact H.
Defined.

(** The accesses [l] in turn: bank, row and rank of channel 0, arrival, type. *)
Fixpoint accesses (p : MemParam) (l : list (Z * Z * Z * Z * MemAccessType)) (c : MemChannel) : res MemChannel :=
  match l with
  | [] => mret c
  | (bk, rw, rk, a, type) :: l =>
      '(_, c) ← LatencySimulate p (rebuild p 0 (mkLoc rw 0 rk bk)) a 0 type c; accesses p l c
  end.

(** The commands of rank 0, the oldest first. *)
Definition commands (c : res MemChannel) : res (list cmd) := c ← c; mret (rev (sent (ranks c 0))).

(** The default configuration has two banks, and no room for the third of the four
    activations that a rank remembers. *)
Lemma two_banks_overrun p : LoadConfig empty_config 64 = Ok p ->
  is_ok (accesses p [(0, 1, 0, 100, READ); (0, 2, 0, 200, READ)] (newChannel 0)) /\
  accesses p [(0, 1, 0, 100, READ); (0, 2, 0, 200, READ); (0, 3, 0, 300, READ)] (newChannel 0) = Fail AssertFailed.
Proof. intros E. vm_compute in E. injection E as <-. split; [eexists; vm_compute; reflexivity|by vm_compute]. Qed.

(** Standby is counted from the last access at each report: two reports' worth of it, and the
    next access fails. *)
Lemma standby_counted_twice : let p := ddr3 [] "close" false in
  (c ← accesses p [(0, 1, 0, 1000, READ)] (newChannel 0); c ← PeriodicUpdatePower p 1070 0 c;
   LatencySimulate p (rebuild p 0 (mkLoc 1 0 0 0)) 1071 1070 READ c) = Fail AssertFailed /\
  is_ok (accesses p [(0, 1, 0, 1000, READ); (0, 1, 0, 1071, READ)] (newChannel 0)).
Proof. split; [by vm_compute|eexists; vm_compute; reflexivity]. Qed.

(** The first access of a rank counts all cycles before it, so one that arrives earlier fails. *)
Lemma earlier_arrival_fails : let p := ddr3 [] "close" false in
  accesses p [(0, 1, 0, 1000, WRITE); (1, 1, 0, 999, READ)] (newChannel 0) = Fail AssertFailed.
Proof. by vm_compute. Qed.

(** A rank that leaves power down sends its burst later than the slot it found, over another
    one. *)
Lemma penalty_overlaps : let p := ddr3 [("mc_spec.capacityMB"%string, 16384)] "close" false in
  (c ← accesses p [(0, 1, 1, 960, READ); (1, 1, 1, 1000, READ); (2, 1, 1, 1001, READ); (0, 1, 0, 1005, READ)] (newChannel 0);
   mret (bursts c)) = Ok [(1029, 1033); (1031, 1035); (1020, 1024); (984, 988)].
Proof. by vm_compute. Qed.

(** The first access after the refresh at cycle 5200, which takes 84 cycles, is not delayed;
    the next one is, by a whole refresh after the first. *)
Lemma first_access_in_refresh : let p := ddr3 [] "open" false in
  commands (accesses p [(0, 1, 0, 100, READ); (1, 2, 0, 5210, READ); (1, 2, 0, 5211, READ)] (newChannel 0)) =
  Ok [Act 0 1 100; Burst 0 1 READ 110; Refresh; Act 1 2 5210; Burst 1 2 READ 5220; Burst 1 2 READ 5322].
Proof. by vm_compute. Qed.

(** With merging, an access after the refresh continues in the row that the refresh closed. *)
Lemma continues_over_refresh : let p := ddr3 [] "close" true in
  commands (accesses p [(0, 1, 0, 5195, READ); (0, 1, 0, 5203, READ)] (newChannel 0)) =
  Ok [Act 0 1 5195; Burst 0 1 READ 5205; Pre 0 5219; Refresh; Keep 0 5203; Burst 0 1 READ 5214; Pre 0 5219].
Proof. by vm_compute. Qed.

(** After a refresh all banks are idle, but the time is divided by their number: of 52000 cycles
    in power down with one of eight banks active at first, not even 12000 are counted. *)
Lemma idle_after_refresh : let p := ddr3 [] "open" false in
  (c ← accesses p [(0, 1, 0, 100, READ); (0, 1, 0, 52100, READ)] (newChannel 0); mret (bg (ranks c 0))) =
  Ok (mkBg 10356 627 43).
Proof. by vm_compute. Qed.

End DetRun.
