(* ===== verification/DetSched.v ===== *)
(** The scheduler of the detailed memory model (MemSchedulerDefault of detailed_mem.h and
    detailed_mem.cpp): a queue of reads, a queue of writes whose requesters were answered
    already, and the writes done of late, which answer reads.

    An event of a request is a number; its type and address never change. *)
From Stdlib Require Import String.
From S2P Require Import Prelude Hash DetParams DetAddr DetChannel.
Import DetParams DetAddr DetChannel.

Module DetSched.

(** A [MemSchedQueueElem]: the event, null for a write, and the address. *)
Notation elem := (prod (option nat) Z).

Record MemSchedulerDefault := mkSched {
  prioritizedAccessType : MemAccessType;
  wrQueueSize : Z;
  wrQueueHighWatermark : Z;
  wrQueueLowWatermark : Z;
  rdQueue : list elem;
  wrQueue : list elem;
  wrDoneQueue : list elem
}.

Definition set_queues (rd wr done : list elem) (s : MemSchedulerDefault) : MemSchedulerDefault :=
  mkSched (prioritizedAccessType s) (wrQueueSize s) (wrQueueHighWatermark s) (wrQueueLowWatermark s) rd wr done.
Definition set_priority (type : MemAccessType) (s : MemSchedulerDefault) : MemSchedulerDefault :=
  mkSched type (wrQueueSize s) (wrQueueHighWatermark s) (wrQueueLowWatermark s) (rdQueue s) (wrQueue s) (wrDoneQueue s).

Definition newSched (count : Z) : MemSchedulerDefault :=
  mkSched READ count (u32 (count * 2) / 3) (count / 3) [] [] [].

(** The iterator of the first element with an address. *)
Definition find_addr (addr : Z) (l : list elem) : option nat := fst <$> list_find (fun x => x.2 = addr) l.

Section sched.
Context (p : MemParam) (evType : nat -> MemAccessType) (evAddr : nat -> Z).

(** [warn] of an overflow is not modelled: nothing else happens then. *)
Definition CheckSetEvent (ev : nat) (s : MemSchedulerDefault) : bool * MemSchedulerDefault :=
  let addr := evAddr ev in
  let new := (None, addr) in
  match find_addr addr (wrQueue s) with
  | Some i =>
      (true, match evType ev with
             | WRITE => set_queues (rdQueue s) (delete i (wrQueue s) ++ [new]) (wrDoneQueue s) s
             | READ => s
             end)
  | None =>
      match find_addr addr (wrDoneQueue s) with
      | Some i =>
          (true, match evType ev with
                 | READ => set_queues (rdQueue s) (wrQueue s) (delete i (wrDoneQueue s) ++ [new]) s
                 | WRITE => set_queues (rdQueue s) (wrQueue s ++ [new]) (delete i (wrDoneQueue s)) s
                 end)
      | None =>
          (false, match evType ev with
                  | READ => set_queues (rdQueue s ++ [(Some ev, addr)]) (wrQueue s) (wrDoneQueue s) s
                  | WRITE =>
                      let wr := wrQueue s ++ [new] in
                      let done :=
                        if Z.of_nat (length wr) + Z.of_nat (length (wrDoneQueue s)) =? wrQueueSize s
                        then tail (wrDoneQueue s) else wrDoneQueue s in
                      set_queues (rdQueue s) wr done s
                  end)
      end
  end.

(** The loop of [FindBestRequest] from index [i] on: the first request of an open row. *)
Fixpoint first_hit (c : MemChannel) (i : nat) (q : list elem) : res (option nat) :=
  match q with
  | [] => mret None
  | x :: q =>
      l ← AddressMap p (myId c) x.2;
      if IsRowBufferHit (row l) (bank l) (ranks c (rank l)) then mret (Some i) else first_hit c (S i) q
  end.

Definition FindBestRequest (c : MemChannel) (q : list elem) : res (bool * nat) :=
  i ← first_hit c 0%nat q;
  mret (bool_decide (q <> []), default 0%nat i).

Definition update_priority (s : MemSchedulerDefault) : MemSchedulerDefault :=
  let n := Z.of_nat (length (wrQueue s)) in
  if wrQueueHighWatermark s <=? n then set_priority WRITE s
  else if n <=? wrQueueLowWatermark s then set_priority READ s else s.

(** The event, null for a write, the address and the type of the request to serve. *)
Definition request : Type := option nat * Z * MemAccessType.

Definition get_read (c : MemChannel) (s : MemSchedulerDefault) : res (option request * MemSchedulerDefault) :=
  '(found, i) ← FindBestRequest c (rdQueue s);
  if (found : bool) then
    match rdQueue s !! i with
    | Some (Some ev, _) =>
        mret (Some (Some ev, evAddr ev, evType ev), set_queues (delete i (rdQueue s)) (wrQueue s) (wrDoneQueue s) s)
    | _ => Fail AssertFailed
    end
  else mret (None, s).

Definition get_write (c : MemChannel) (s : MemSchedulerDefault) : res (option request * MemSchedulerDefault) :=
  '(found, i) ← FindBestRequest c (wrQueue s);
  if (found : bool) then
    match wrQueue s !! i with
    | Some (_, addr) =>
        mret (Some (None, addr, WRITE), set_queues (rdQueue s) (delete i (wrQueue s)) (wrDoneQueue s ++ [(None, addr)]) s)
    | None => Fail AssertFailed
    end
  else mret (None, s).

Definition GetEvent (c : MemChannel) (s : MemSchedulerDefault) : res (option request * MemSchedulerDefault) :=
  let s := update_priority s in
  '(r, s) ← (if decide (prioritizedAccessType s = READ) then get_read c s else mret (None, s));
  match r with
  | Some r => mret (Some r, s)
  | None => get_write c s
  end.

(** ** What the queues hold *)

(** The addresses that [AddressMap] of channel [c] takes. *)
Definition mapped (c : MemChannel) (addr : Z) : Prop := is_ok (AddressMap p (myId c) addr).

Definition writes (s : MemSchedulerDefault) : list Z := (wrQueue s).*2.
Definition written (s : MemSchedulerDefault) : list Z := (wrDoneQueue s).*2.
Definition reads (s : MemSchedulerDefault) : list nat := omap fst (rdQueue s).

(** No address is in the two lists of writes twice, and a read of the queue is of an event. *)
Record sched_inv (ok : Z -> Prop) (s : MemSchedulerDefault) : Prop := {
  si_nodup : NoDup (writes s ++ written s);
  si_reads : Forall (fun x => exists ev, x = (Some ev, evAddr ev) /\ evType ev = READ) (rdQueue s);
  si_addrs : Forall ok ((rdQueue s).*2 ++ writes s)
}.

Lemma find_addr_spec addr l :
  match find_addr addr l with
  | Some i => exists x, l !! i = Some x /\ x.2 = addr
  | None => addr ∉ l.*2
  end.
Proof using.
  unfold find_addr. match goal with |- context [list_find ?P l] => destruct (list_find P l) as [[i x]|] eqn:E end; cbn.
  - apply list_find_Some in E as (H & Hx & _). by exists x.
  - apply list_find_None in E. intros Hin. apply list_elem_of_fmap in Hin as (x & -> & Hx). rewrite Forall_forall in E. by apply (E x).
Qed.

Lemma delete_snd (l : list elem) i x : l !! i = Some x -> l.*2 ≡ₚ x.2 :: (delete i l).*2.
Proof using. intros H. rewrite <- fmap_cons. apply fmap_Permutation. by apply delete_Permutation. Qed.

Lemma fmap_snoc (l : list elem) x : (l ++ [x]).*2 = l.*2 ++ [x.2].
Proof using. by rewrite fmap_app. Qed.

(** What a request does to the queues. *)
Definition checked (ev : nat) (s : MemSchedulerDefault) (b : bool) (s' : MemSchedulerDefault) : Prop :=
  let addr := evAddr ev in
  b = bool_decide (addr ∈ writes s ++ written s) /\
  match evType ev with
  | READ => reads s' = reads s ++ (if b then [] else [ev]) /\ writes s' = writes s /\ written s' ≡ₚ written s
  | WRITE => reads s' = reads s /\ (forall x, x ∈ writes s' <-> x = addr \/ x ∈ writes s) /\
      (forall x, x ∈ written s' -> x ∈ written s /\ x <> addr)
  end.

Lemma inv_perm ok s rd wr done : sched_inv ok s -> (forall x, x ∈ rd -> x ∈ rdQueue s) ->
  NoDup (wr.*2 ++ done.*2) -> (forall x, x ∈ wr.*2 -> ok x) -> sched_inv ok (set_queues rd wr done s).
Proof using.
  intros [H1 H2 H3] Hrd Hnd Hok. rewrite Forall_forall in H2. rewrite Forall_forall in H3. split; cbn; [done|apply Forall_forall; auto|].
  apply Forall_forall. intros x [Hx|Hx]%elem_of_app; [|by apply Hok]. apply H3, elem_of_app. left.
  apply list_elem_of_fmap in Hx as (y & -> & Hy). apply list_elem_of_fmap_2. auto.
Qed.

Lemma check_spec ok ev s : sched_inv ok s -> ok (evAddr ev) ->
  let '(b, s') := CheckSetEvent ev s in checked ev s b s' /\ sched_inv ok s'.
Proof using.
  intros Hi Hok. pose proof Hi as [Hnd Hrd Ha]. unfold CheckSetEvent, checked.
  assert (Hw : forall x, x ∈ writes s -> ok x) by (rewrite Forall_forall in Ha; intros; apply Ha, elem_of_app; by right).
  pose proof (find_addr_spec (evAddr ev) (wrQueue s)) as F1. destruct (find_addr (evAddr ev) (wrQueue s)) as [i|].
  - destruct F1 as ([e a] & Hx & E). cbn in E. subst a. pose proof (delete_snd _ _ _ Hx) as Hp. cbn in Hp. fold (writes s) in Hp.
    assert (Hin : evAddr ev ∈ writes s) by (rewrite Hp; left).
    rewrite bool_decide_eq_true_2 by (apply elem_of_app; by left).
    destruct (evType ev) eqn:Et; [split; [|done]; split; [done|]; by rewrite app_nil_r|].
    assert (Hperm : writes s ≡ₚ (delete i (wrQueue s) ++ [(None, evAddr ev)]).*2).
    { rewrite fmap_snoc. cbn. by rewrite Hp, Permutation_cons_append. }
    split.
    + split; [done|]. split; [done|]. split; cbn.
      * intros x. rewrite <- Hperm. split; [by right|]. by intros [->|].
      * intros x Hx'. split; [done|]. intros ->. apply NoDup_app in Hnd as (_ & Hd & _). by apply (Hd (evAddr ev)).
    + apply inv_perm; [done|done|by rewrite <- Hperm|]. intros x. rewrite <- Hperm. apply Hw.
  - pose proof (find_addr_spec (evAddr ev) (wrDoneQueue s)) as F2. destruct (find_addr (evAddr ev) (wrDoneQueue s)) as [i|].
    + destruct F2 as ([e a] & Hx & E). cbn in E. subst a. pose proof (delete_snd _ _ _ Hx) as Hp. cbn in Hp. fold (written s) in Hp.
      assert (Hin : evAddr ev ∈ written s) by (rewrite Hp; left).
      rewrite bool_decide_eq_true_2 by (apply elem_of_app; by right).
      assert (Hnot : evAddr ev ∉ (delete i (wrDoneQueue s)).*2).
      { apply NoDup_app in Hnd as (_ & _ & Hd). rewrite Hp in Hd. by apply NoDup_cons in Hd as [Hd _]. }
      destruct (evType ev) eqn:Et.
      * assert (Hperm : (delete i (wrDoneQueue s) ++ [(None, evAddr ev)]).*2 ≡ₚ written s).
        { rewrite fmap_snoc. cbn. rewrite Hp. symmetry. apply Permutation_cons_append. }
        split; [split; [done|]; split; [by rewrite app_nil_r|]; by split|]. apply inv_perm; [done|done|by rewrite Hperm|done].
      * assert (Hperm : (wrQueue s ++ [(None, evAddr ev)]).*2 ++ (delete i (wrDoneQueue s)).*2 ≡ₚ writes s ++ written s).
        { rewrite fmap_snoc, <- app_assoc. cbn. by rewrite Hp. }
        split; [split; [done|]; split; [done|]; split; cbn|].
        -- intros x. unfold writes. cbn. rewrite fmap_snoc, elem_of_app, list_elem_of_singleton. tauto.
        -- intros x Hx'. unfold written in *. cbn in Hx'. split; [rewrite Hp; by right|]. by intros ->.
        -- apply inv_perm; [done|done|by rewrite Hperm|]. intros x. rewrite fmap_snoc, elem_of_app, list_elem_of_singleton. cbn. intros [?| ->]; auto.
    + rewrite bool_decide_eq_false_2 by (rewrite elem_of_app; intros [?|?]; auto).
      assert (Hnd' : NoDup ((wrQueue s ++ [(None, evAddr ev)]).*2 ++ written s)).
      { rewrite fmap_snoc, <- app_assoc. cbn. rewrite <- Permutation_middle. apply NoDup_cons. split; [|done]. rewrite elem_of_app. intros [?|?]; auto. }
      destruct (evType ev) eqn:Et.
      * split; [split; [done|]; split; [|done]; unfold reads; cbn; by rewrite omap_app|]. split; cbn.
        -- done.
        -- apply Forall_app. split; [done|]. apply Forall_singleton. by exists ev.
        -- rewrite fmap_snoc, <- app_assoc. rewrite Forall_app in Ha |- *. destruct Ha. split; [done|]. by constructor.
      * assert (Htail : forall l : list elem, (tail l).*2 = tail (l.*2)) by (by intros [|? ?]).
        set (done := if _ =? _ then _ else _). assert (Hsub : sublist done.*2 (written s)).
        { unfold done. destruct (_ =? _); [|done]. rewrite Htail. unfold written. destruct ((wrDoneQueue s).*2); [constructor|]. by constructor. }
        split; [split; [done|]; split; [done|]; split; cbn|].
        -- intros x. unfold writes. cbn. rewrite fmap_snoc, elem_of_app, list_elem_of_singleton. tauto.
        -- intros x Hx'. unfold written in *. cbn in Hx'. assert (x ∈ (wrDoneQueue s).*2) by (eapply elem_of_sublist; eauto). split; [done|]. by intros ->.
        -- apply inv_perm; [done|done| |].
           ++ eapply sublist_NoDup; [exact Hnd'|]. by apply sublist_app.
           ++ intros x. rewrite fmap_snoc, elem_of_app, list_elem_of_singleton. cbn. intros [?| ->]; auto.
Qed.

(** ** Serving a request *)

(** First come first served, but for requests of an open row. *)
Definition hit (c : MemChannel) (x : elem) : Prop :=
  exists l, AddressMap p (myId c) x.2 = Ok l /\ IsRowBufferHit (row l) (bank l) (ranks c (rank l)) = true.
Definition best (c : MemChannel) (q : list elem) (i : nat) : Prop :=
  (exists x, q !! i = Some x /\ hit c x /\ forall j y, (j < i)%nat -> q !! j = Some y -> ~ hit c y) \/
  (i = 0%nat /\ forall y, y ∈ q -> ~ hit c y).

Lemma first_hit_spec c q : Forall (mapped c) (q.*2) -> forall k,
  exists o, first_hit c k q = Ok o /\
    match o with
    | Some i => exists j x, i = (k + j)%nat /\ q !! j = Some x /\ hit c x /\ forall j' y, (j' < j)%nat -> q !! j' = Some y -> ~ hit c y
    | None => forall y, y ∈ q -> ~ hit c y
    end.
Proof using.
  induction q as [|x q IH]; intros Hm k; cbn; [exists None; split; [done|]; intros y Hy; by inversion Hy|].
  apply Forall_cons in Hm as [[l Hx] Hm]. rewrite Hx. cbn [mbind res_bind]. destruct (IsRowBufferHit _ _ _) eqn:Eh.
  - exists (Some k). split; [done|]. exists 0%nat, x. split; [lia|]. split; [done|]. split; [by exists l|]. intros; lia.
  - assert (Hn : ~ hit c x) by (intros (l' & El & Hh); congruence).
    destruct (IH Hm (S k)) as ([i|] & -> & H); (eexists; split; [reflexivity|]).
    + destruct H as (j & y & -> & Hy & Hh & Hf). exists (S j), y. split; [lia|]. split; [done|]. split; [done|].
      intros [|j'] z Hlt; cbn; [by intros [= <-]|]. apply Hf. lia.
    + intros y [->|Hy]%elem_of_cons; [done|by apply H].
Qed.

Lemma find_best c q : Forall (mapped c) (q.*2) ->
  exists i, FindBestRequest c q = Ok (bool_decide (q <> []), i) /\ (q <> [] -> best c q i /\ exists x, q !! i = Some x).
Proof using.
  intros Hm. destruct (first_hit_spec c q Hm 0) as (o & E & H). unfold FindBestRequest. rewrite E. cbn [mbind res_bind mret res_ret].
  eexists. split; [reflexivity|]. intros Hq. destruct o as [i|]; cbn [default].
  - destruct H as (j & x & -> & Hx & Hh & Hf). split; [|by exists x]. left. by exists x.
  - split; [by right|]. destruct q as [|x q]; [done|by exists x].
Qed.

(** The watermarks: a write is preferred only when there is one. *)
Definition marks_ok (s : MemSchedulerDefault) : Prop := 1 <= wrQueueHighWatermark s /\ 0 <= wrQueueLowWatermark s.

(** What [GetEvent] hands out, and what is left. *)
Definition served (c : MemChannel) (s : MemSchedulerDefault) (r : option request) (s' : MemSchedulerDefault) : Prop :=
  match r with
  | None => rdQueue s = [] /\ wrQueue s = [] /\ rdQueue s' = [] /\ wrQueue s' = [] /\ written s' = written s
  | Some (Some ev, addr, READ) =>
      exists i, rdQueue s !! i = Some (Some ev, addr) /\ best c (rdQueue s) i /\ addr = evAddr ev /\ rdQueue s' = delete i (rdQueue s) /\
        writes s' = writes s /\ written s' = written s
  | Some (None, addr, WRITE) =>
      exists i, writes s !! i = Some addr /\ best c (wrQueue s) i /\ writes s' = delete i (writes s) /\ written s' = written s ++ [addr] /\
        rdQueue s' = rdQueue s
  | Some _ => False
  end.

Lemma get_write_spec ok c s : (forall a, ok a -> mapped c a) -> sched_inv ok s ->
  exists r s', get_write c s = Ok (r, s') /\ sched_inv ok s' /\
    match r with
    | None => wrQueue s = [] /\ s' = s
    | Some (None, addr, WRITE) => served c s r s'
    | Some _ => False
    end.
Proof using.
  intros Hok Hi. pose proof Hi as [Hnd Hrd Ha]. rewrite Forall_app in Ha. destruct Ha as [Ha1 Ha2].
  destruct (find_best c (wrQueue s) (Forall_impl _ _ _ Ha2 Hok)) as (i & E & H). unfold get_write. rewrite E. cbn [mbind res_bind].
  destruct (decide (wrQueue s = [])) as [Hq|Hq].
  { exists None, s. rewrite bool_decide_eq_false_2 by auto. by split_and!. }
  rewrite bool_decide_eq_true_2 by done. destruct (H Hq) as (Hb & [e a] & Hx). rewrite Hx. cbn [mret res_ret]. eexists _, _. split; [reflexivity|].
  pose proof (delete_snd _ _ _ Hx) as Hp. cbn in Hp. fold (writes s) in Hp. split.
  - apply inv_perm; [done|done| |].
    + assert (Hperm : (delete i (wrQueue s)).*2 ++ (wrDoneQueue s ++ [(None, a)]).*2 ≡ₚ writes s ++ written s).
      { rewrite fmap_snoc, Hp, app_assoc, <- Permutation_cons_append. reflexivity. }
      by rewrite Hperm.
    + intros x Hx'. rewrite Forall_forall in Ha2. apply Ha2. rewrite Hp. by right.
  - exists i. cbn. split_and!; try done.
    + unfold writes. by rewrite list_lookup_fmap, Hx.
    + unfold writes. cbn. by rewrite list_fmap_delete.
    + unfold written. cbn. by rewrite fmap_app.
Qed.

Lemma priority_queues s : rdQueue (update_priority s) = rdQueue s /\ wrQueue (update_priority s) = wrQueue s /\
  wrDoneQueue (update_priority s) = wrDoneQueue s /\ wrQueueHighWatermark (update_priority s) = wrQueueHighWatermark s /\
  wrQueueLowWatermark (update_priority s) = wrQueueLowWatermark s.
Proof using. unfold update_priority. by repeat destruct (_ <=? _). Qed.

Lemma get_spec ok c s : (forall a, ok a -> mapped c a) -> sched_inv ok s -> marks_ok s ->
  exists r s', GetEvent c s = Ok (r, s') /\ sched_inv ok s' /\ served c s r s' /\
    wrQueueHighWatermark s' = wrQueueHighWatermark s /\ wrQueueLowWatermark s' = wrQueueLowWatermark s.
Proof using.
  intros Hok Hi [Hm1 Hm2]. destruct (priority_queues s) as (P1 & P2 & P3 & P4 & P5). unfold GetEvent.
  assert (Hpri : prioritizedAccessType (update_priority s) = WRITE -> wrQueue s <> []).
  { unfold update_priority. intros Hw E. rewrite E in Hw. cbn in Hw. rewrite (proj2 (Z.leb_gt _ 0)), (proj2 (Z.leb_le 0 _)) in Hw by lia. done. }
  set (s1 := update_priority s) in *.
  assert (Hi1 : sched_inv ok s1) by (destruct Hi; split; unfold writes, written, reads in *; rewrite ?P1, ?P2, ?P3; done).
  assert (Hserved : forall r s', served c s1 r s' -> served c s r s').
  { intros [[[[ev|] addr] []]|] s'; unfold served, writes, written; rewrite ?P1, ?P2, ?P3; done. }
  assert (Hmarks : forall r s', get_write c s1 = Ok (r, s') -> wrQueueHighWatermark s' = wrQueueHighWatermark s /\ wrQueueLowWatermark s' = wrQueueLowWatermark s).
  { intros r s' E. unfold get_write in E. apply bind_Ok in E as ([[|] i] & _ & E); [|injection E as <- <-; done].
    destruct (wrQueue s1 !! i) as [[? ?]|]; [injection E as <- <-; done|done]. }
  assert (Hwrite : (prioritizedAccessType s1 = READ -> rdQueue s = []) -> exists r s', get_write c s1 = Ok (r, s') /\ sched_inv ok s' /\ served c s r s' /\
    wrQueueHighWatermark s' = wrQueueHighWatermark s /\ wrQueueLowWatermark s' = wrQueueLowWatermark s).
  { intros Hrd. destruct (get_write_spec ok c s1 Hok Hi1) as (r & s' & Ew & Hi' & Hr). destruct (Hmarks r s' Ew). exists r, s'. split_and!; try done.
    destruct r as [[[[ev|] addr] []]|]; [done|done|done|by apply Hserved|]. destruct Hr as [Hr ->]. rewrite P2 in Hr. cbn.
    destruct (prioritizedAccessType s1) eqn:E; [|by destruct Hpri]. specialize (Hrd eq_refl). unfold written. rewrite P1, P2, P3. done. }
  destruct (decide (prioritizedAccessType s1 = READ)) as [Hp|Hp]; [|cbn [mbind res_bind mret res_ret]; by apply Hwrite].
  unfold get_read. pose proof Hi1 as [Hnd Hrd Ha]. rewrite Forall_app in Ha. destruct Ha as [Ha1 Ha2].
  destruct (find_best c (rdQueue s1) (Forall_impl _ _ _ Ha1 Hok)) as (i & -> & H). cbn [mbind res_bind].
  destruct (decide (rdQueue s1 = [])) as [Hq|Hq].
  { rewrite bool_decide_eq_false_2 by auto. cbn [mbind res_bind mret res_ret]. apply Hwrite. intros _. by rewrite <- P1. }
  rewrite bool_decide_eq_true_2 by done. destruct (H Hq) as (Hb & x & Hx). rewrite Hx.
  rewrite Forall_forall in Hrd. destruct (Hrd x) as (ev & -> & Hev); [by eapply list_elem_of_lookup_2|]. cbn [mbind res_bind mret res_ret].
  eexists _, _. split; [reflexivity|]. split; [|split; [|done]].
  - apply inv_perm; [done| |done|].
    + intros y Hy. eapply elem_of_sublist; [exact Hy|apply sublist_delete].
    + intros y Hy. rewrite Forall_forall in Ha2. by apply Ha2.
  - rewrite Hev. apply Hserved. cbn. exists i. by split_and!.
Qed.

(** ** All requests are served *)

Fixpoint drain (cs : list MemChannel) (s : MemSchedulerDefault) : res (list request * MemSchedulerDefault) :=
  match cs with
  | [] => mret ([], s)
  | c :: cs =>
      '(r, s) ← GetEvent c s;
      '(rs, s) ← drain cs s;
      mret (option_list r ++ rs, s)
  end.

Definition read_of (r : request) : option nat := r.1.1.
Definition write_of (r : request) : option Z := match r.1.1 with Some _ => None | None => Some r.1.2 end.

Lemma reads_delete ok s i ev addr : sched_inv ok s -> rdQueue s !! i = Some (Some ev, addr) ->
  reads s ≡ₚ ev :: omap fst (delete i (rdQueue s)).
Proof using. intros _ H. unfold reads. pose proof (delete_Permutation _ _ _ H) as Hp. rewrite Hp at 1. done. Qed.

Lemma reads_length ok s : sched_inv ok s -> length (reads s) = length (rdQueue s).
Proof using.
  intros [_ H _]. unfold reads. induction H as [|x l (ev & -> & _) _ IH]; [done|]. cbn. by rewrite IH.
Qed.

Lemma sched_drain_spec id cs : Forall (fun c => myId c = id) cs -> forall s, sched_inv (fun a => is_ok (AddressMap p id a)) s -> marks_ok s ->
  length cs = (length (reads s) + length (writes s))%nat ->
  exists rs s', drain cs s = Ok (rs, s') /\ reads s' = [] /\ writes s' = [] /\ reads s ≡ₚ omap read_of rs /\ writes s ≡ₚ omap write_of rs.
Proof using.
  induction 1 as [|c cs <- Hcs IH]; intros s Hi Hm Hlen; cbn.
  { exists [], s. destruct (reads s), (writes s); try done. }
  destruct (get_spec _ c s ltac:(done) Hi Hm) as (r & s1 & -> & Hi1 & Hs & Hw1 & Hw2). cbn [mbind res_bind].
  assert (Hm1 : marks_ok s1) by (unfold marks_ok in *; by rewrite Hw1, Hw2).
  pose proof (reads_length _ _ Hi) as L. pose proof (reads_length _ _ Hi1) as L1.
  destruct r as [[[[ev|] addr] []]|]; cbn in Hs; [|done|done| |].
  - destruct Hs as (i & Hx & _ & -> & E1 & E2 & _). pose proof (reads_delete _ _ _ _ _ Hi Hx) as Hp.
    assert (Hp' : reads s ≡ₚ ev :: reads s1) by (unfold reads in *; by rewrite E1).
    destruct (IH s1 Hi1 Hm1) as (rs & s' & -> & G1 & G2 & G3 & G4).
    { rewrite Hp' in Hlen. cbn in Hlen. rewrite E2. lia. }
    cbn. eexists _, s'. split; [reflexivity|]. split_and!; try done; cbn; [by rewrite Hp', G3|by rewrite <- E2].
  - destruct Hs as (i & Hx & _ & E1 & _ & E2). pose proof (delete_Permutation _ _ _ Hx) as Hp. rewrite <- E1 in Hp.
    assert (Er : reads s1 = reads s) by (unfold reads; by rewrite E2).
    destruct (IH s1 Hi1 Hm1) as (rs & s' & -> & G1 & G2 & G3 & G4).
    { rewrite Hp in Hlen. cbn in Hlen. rewrite Er. lia. }
    cbn. eexists _, s'. split; [reflexivity|]. split_and!; try done; cbn; [by rewrite <- Er|by rewrite Hp, G4].
  - destruct Hs as (E1 & E2 & _). rewrite L, E1 in Hlen. unfold writes in Hlen. rewrite E2 in Hlen. done.
Qed.

(** The scheduler after requests and grants in any order, the rows of the channel being open or
    closed as they may. *)
Inductive sreach (id : Z) : MemSchedulerDefault -> Prop :=
  | sr_new : sreach id (newSched (schedulerQueueCount (pm p)))
  | sr_set ev s : sreach id s -> is_ok (AddressMap p id (evAddr ev)) -> sreach id (CheckSetEvent ev s).2
  | sr_get c s r s' : sreach id s -> myId c = id -> GetEvent c s = Ok (r, s') -> sreach id s'.

Lemma check_marks ev s : wrQueueHighWatermark (CheckSetEvent ev s).2 = wrQueueHighWatermark s /\
  wrQueueLowWatermark (CheckSetEvent ev s).2 = wrQueueLowWatermark s.
Proof using.
  unfold CheckSetEvent. destruct (find_addr _ (wrQueue s)); [by destruct (evType ev)|]. destruct (find_addr _ (wrDoneQueue s)); by destruct (evType ev).
Qed.

Lemma sreach_inv id s : 2 <= schedulerQueueCount (pm p) < 2 ^ 31 -> sreach id s ->
  sched_inv (fun a => is_ok (AddressMap p id a)) s /\ marks_ok s.
Proof using.
  intros Hc. induction 1 as [|ev s _ [IH1 IH2] Ha|c s r s' _ [IH1 IH2] Hid E].
  - split; [split; cbn; [constructor|constructor|constructor]|]. unfold marks_ok. cbn. rewrite u32_id by (unfold in_u32; lia).
    split; [apply Z.div_le_lower_bound; lia|apply Z.div_pos; lia].
  - pose proof (check_spec _ ev s IH1 Ha) as H. unfold marks_ok. destruct (check_marks ev s) as [-> ->].
    destruct (CheckSetEvent ev s) as [b s']. by destruct H.
  - subst id. destruct (get_spec _ c s ltac:(done) IH1 IH2) as (r' & s1 & E' & Hi' & _ & Hm1 & Hm2). rewrite E in E'. injection E' as <- <-.
    split; [done|]. unfold marks_ok. by rewrite Hm1, Hm2.
Qed.

Definition total (s : MemSchedulerDefault) : Z := Z.of_nat (length (wrQueue s)) + Z.of_nat (length (wrDoneQueue s)).

Lemma length_delete_snoc {A} (l : list A) i x y : l !! i = Some x -> length (delete i l ++ [y]) = length l.
Proof using. intros H. rewrite length_app, length_delete by eauto. pose proof (lookup_lt_Some _ _ _ H). cbn. lia. Qed.

(** The bound of the queues is looked at only when it is met: once passed, it never holds again. *)
Lemma overflow_stays ev s : wrQueueSize s < total s -> total s <= total (CheckSetEvent ev s).2.
Proof using.
  intros Hs. unfold CheckSetEvent, total in *.
  pose proof (find_addr_spec (evAddr ev) (wrQueue s)) as F1. destruct (find_addr (evAddr ev) (wrQueue s)) as [i|].
  { destruct F1 as (x & Hx & _). destruct (evType ev); cbn; [lia|]. rewrite (length_delete_snoc _ _ _ _ Hx). lia. }
  pose proof (find_addr_spec (evAddr ev) (wrDoneQueue s)) as F2. destruct (find_addr (evAddr ev) (wrDoneQueue s)) as [i|].
  { destruct F2 as (x & Hx & _). pose proof (lookup_lt_Some _ _ _ Hx). destruct (evType ev); cbn; rewrite length_app; cbn; rewrite ?length_app, length_delete by eauto; cbn; lia. }
  destruct (evType ev); cbn; [lia|]. rewrite length_app. cbn. destruct (Z.eqb_spec (Z.of_nat (length (wrQueue s) + 1) + Z.of_nat (length (wrDoneQueue s))) (wrQueueSize s)); cbn; lia.
Qed.

End sched.

(** C23: the scheduler of the detailed memory, after any requests and grants: an address is
    written at most once in its two lists of writes; a request finds out whether its line is
    there, a read that misses is queued behind the others, a write replaces what was there;
    [GetEvent] takes, of the queue it prefers, the oldest request of an open row or else the
    oldest, and nothing only when nothing waits; and with no new requests every one of them is
    handed out exactly once. *)
Theorem det_scheduler p evType evAddr id s : 2 <= schedulerQueueCount (pm p) < 2 ^ 31 -> sreach p evType evAddr id s ->
  NoDup (writes s ++ written s) /\
  (forall ev, is_ok (AddressMap p id (evAddr ev)) ->
     checked evType evAddr ev s (CheckSetEvent evType evAddr ev s).1 (CheckSetEvent evType evAddr ev s).2) /\
  (forall c, myId c = id -> exists r s', GetEvent p evType evAddr c s = Ok (r, s') /\ served p evAddr c s r s') /\
  (forall cs, Forall (fun c => myId c = id) cs -> length cs = (length (reads s) + length (writes s))%nat ->
     exists rs s', drain p evType evAddr cs s = Ok (rs, s') /\ reads s' = [] /\ writes s' = [] /\
       reads s ≡ₚ omap read_of rs /\ writes s ≡ₚ omap write_of rs).
Proof.
  intros Hc Hr. destruct (sreach_inv p evType evAddr id s Hc Hr) as [Hi Hm]. split_and!.
  - apply Hi.
  - intros ev Ha. pose proof (check_spec _ _ _ ev s Hi Ha) as H. destruct (CheckSetEvent evType evAddr ev s). apply H.
  - intros c <-. destruct (get_spec p evType evAddr _ c s ltac:(done) Hi Hm) as (r & s' & E & _ & Hs & _). by exists r, s'.
  - intros cs Hcs. by apply sched_drain_spec with id.
Qed.

(** Two reads and three writes of eight banks. *)
Definition ex_types (ev : nat) : MemAccessType := if decide (ev < 2)%nat then READ else WRITE.
Definition ex_addrs (ev : nat) : Z := Z.of_nat ev * 64.
Definition ex_param (count : Z) : MemParam := ddr3 [("mc_spec.schedulerQueueCount"%string, count)] "open" false.
Definition ex_sched (count : Z) (evs : list nat) : MemSchedulerDefault :=
  foldl (fun s ev => (CheckSetEvent ex_types ex_addrs ev s).2) (newSched count) evs.

Lemma det_scheduler_witness : let p := ex_param 8 in let s := ex_sched 8 [0; 2; 1; 3]%nat in
  sreach p ex_types ex_addrs 0 s /\ length (writes s) = 2%nat /\
  exists rs s', drain p ex_types ex_addrs (replicate 4 (newChannel 0)) s = Ok (rs, s') /\
    [0; 1]%nat ≡ₚ omap read_of rs /\ [128; 192] ≡ₚ omap write_of rs.
Proof.
  intros p s. assert (Hr : sreach p ex_types ex_addrs 0 s).
  { unfold s, ex_sched. cbn [foldl]. do 4 (apply (sr_set p ex_types ex_addrs 0); [|eexists; vm_compute; reflexivity]).
    change 8 with (schedulerQueueCount (pm p)). apply sr_new. }
  split; [exact Hr|]. split; [reflexivity|].
  destruct (det_scheduler p ex_types ex_addrs 0 s) as (_ & _ & _ & H); [split; [vm_compute; discriminate|reflexivity]|exact Hr|].
  destruct (H (replicate 4 (newChannel 0))) as (rs & s' & E & _ & _ & G1 & G2); [repeat constructor|reflexivity|]. exists rs, s'. split; [exact E|]. split; [exact G1|exact G2].
Defined.

(** With one entry both watermarks are 0, so writes are always preferred, and a read waits
    forever. *)
Lemma one_entry_starves : let p := ex_param 1 in let s := ex_sched 1 [0]%nat in
  reads s = [0%nat] /\ exists s', GetEvent p ex_types ex_addrs (newChannel 0) s = Ok (None, s') /\
    reads s' = [0%nat] /\ GetEvent p ex_types ex_addrs (newChannel 0) s' = Ok (None, s').
Proof. split; [reflexivity|]. eexists. split; [vm_compute; reflexivity|]. split; [reflexivity|]. by vm_compute. Qed.

(** Four writes pass a bound of three. *)
Lemma four_writes_of_three : let s := ex_sched 3 [2; 3; 4; 5]%nat in wrQueueSize s < total s.
Proof. by vm_compute. Qed.

End DetSched.
