(* ===== verification/DetCtrl.v ===== *)
(** The controller of the detailed memory model (MemControllerBase of detailed_mem.h and
    detailed_mem.cpp): its two clocks, the requests of the weave phase with and without the
    schedulers, and the access of the bound phase.

    What a request does to its event is a list of [call]s.  Reports, the histogram of latencies
    and the trace of addresses are not modelled; the counters that reports read are. *)
From Stdlib Require Import String Floats.SpecFloat.
From S2P Require Import Prelude Effects MemHier Timing TimingAccess Doubles DetParams DetAddr DetChannel DetRank DetAccess DetBus DetRun DetSched.
Import DetParams DetAddr DetChannel DetRank DetAccess DetRun DetSched.

Module DetCtrl.
#[local] Existing Instance MemHier.AccessType_eq_dec.

(** ** The controller *)

Record config := mkCfg {
  mParam : MemParam;
  domain : Z;
  sysFreqKHz : Z;
  memFreqKHz : Z;
  nextSysTick : Z;
  memMinLatency : MemAccessType -> Z;
  minLatency : MemAccessType -> Z
}.

Definition sysToMem (sysFreq memFreq sysCycle : Z) : Z := sysCycle * memFreq / sysFreq.
Definition memToSys (sysFreq memFreq memCycle : Z) : Z := memCycle * sysFreq / memFreq.

(** [1e9 / tCK / 1e3]. *)
Definition mem_freq (tCK : Doubles.double) : Z :=
  Doubles.to_Z (Doubles.fdiv (Doubles.fdiv (Doubles.of_Z (10 ^ 9)) tCK) (Doubles.of_Z 1000)).

Definition newConfig (p : MemParam) (sysFreqMHz domain : Z) : config :=
  let sysFreq := u32 (sysFreqMHz * 1000) in
  let memFreq := mem_freq (tCK (pt p)) in
  let toSys := memToSys sysFreq memFreq in
  let queues := negb (schedulerQueueCount (pm p) =? 0) in
  mkCfg p domain sysFreq memFreq
    (if queues then Z.max 1 (toSys 1) else 10 * sysFreq / 1000)
    (fun type => u32 (toSys (GetDataLatency p type)))
    (fun type => u32 (u32 (toSys (if queues then 1 else GetDataLatency p type)) + controllerLatency (pm p))).

Section controller.
Context (g : config).
Local Notation p := (mParam g).

Definition sysToMemCycle (c : Z) : Z := sysToMem (sysFreqKHz g) (memFreqKHz g) c.
Definition memToSysCycle (c : Z) : Z := memToSys (sysFreqKHz g) (memFreqKHz g) c.
Definition preDelay (type : MemAccessType) : Z := minLatency g type / 2.
Definition postDelay (type : MemAccessType) : Z := minLatency g type - preDelay type.

Record counters := mkCnt { profReads : Z; profWrites : Z; profTotalRdLat : Z; profTotalWrLat : Z }.
Definition count (type : MemAccessType) (lat : Z) (n : counters) : counters :=
  match type with
  | WRITE => mkCnt (profReads n) (u64 (profWrites n + 1)) (profTotalRdLat n) (u64 (profTotalWrLat n + lat))
  | READ => mkCnt (u64 (profReads n + 1)) (profWrites n) (u64 (profTotalRdLat n + lat)) (profTotalWrLat n)
  end.

Record MemController := mkCtl {
  lastPhaseCycle : Z;
  lastAccessedCycle : Z;
  chnls : Z -> MemChannel;
  sches : Z -> MemSchedulerDefault;
  prof : counters
}.

Definition newController : MemController :=
  mkCtl 0 0 newChannel (fun _ => newSched (schedulerQueueCount (pm p))) (mkCnt 0 0 0 0).

Definition set_sched (i : Z) (s : MemSchedulerDefault) (w : MemController) : MemController :=
  mkCtl (lastPhaseCycle w) (lastAccessedCycle w) (chnls w) (<[i := s]> (sches w)) (prof w).

(** [MemControllerBase::LatencySimulate]. *)
Definition LatencySimulate (lineAddr sysCycle : Z) (type : MemAccessType) (w : MemController) : res (Z * MemController) :=
  channel ← ReturnChannel p lineAddr;
  '(memLatency, c) ← DetChannel.LatencySimulate p lineAddr (sysToMemCycle sysCycle) (sysToMemCycle (lastPhaseCycle w)) type (chnls w channel);
  let sysLatency := memToSysCycle memLatency in
  _ ← assert_that (memMinLatency g type <=? sysLatency);
  mret (sysLatency, mkCtl (lastPhaseCycle w) sysCycle (<[channel := c]> (chnls w)) (sches w) (count type sysLatency (prof w))).

(** What is done to an event. *)
Inductive call := Hold (ev : nat) | Release (ev : nat) | Done (ev : nat) (doneCycle : Z).

(** The events: their types and addresses never change. *)
Context (evType : nat -> MemAccessType) (evAddr : nat -> Z).

(** [enqueue], which [MemAccessEventBase::simulate] calls. *)
Definition enqueue (ev : nat) (cycle : Z) (w : MemController) : res (list call * MemController) :=
  let type := evType ev in
  let ctl := controllerLatency (pm p) in
  if schedulerQueueCount (pm p) =? 0 then
    let startCycle := cycle - preDelay type + ctl in
    '(latency, w) ← LatencySimulate (evAddr ev) startCycle type w;
    mret ([Done ev (cycle + latency - minLatency g type + ctl)], w)
  else
    channel ← ReturnChannel p (evAddr ev);
    let '(bRet, s) := CheckSetEvent evType evAddr ev (sches w channel) in
    let w := set_sched channel s w in
    match type with
    | READ => mret (if (bRet : bool) then [Done ev (cycle - minLatency g READ + ctl)] else [Hold ev], w)
    | WRITE => mret ([Done ev (cycle - minLatency g WRITE + ctl)], w)
    end.

(** One channel of [TickScheduler]. *)
Definition tick_channel (sysCycle i : Z) (w : MemController) : res (list call * MemController) :=
  '(r, s) ← GetEvent p evType evAddr (chnls w i) (sches w i);
  let w := set_sched i s w in
  match r with
  | None => mret ([], w)
  | Some (ev, addr, type) =>
      '(latency, w) ← LatencySimulate addr sysCycle type w;
      match type, ev with
      | READ, Some ev => mret ([Release ev; Done ev (sysCycle - minLatency g READ + latency)], w)
      | READ, None => Fail AssertFailed
      | WRITE, _ => mret ([], w)
      end
  end.

Definition TickScheduler (sysCycle : Z) (w : MemController) : res (list call * MemController) :=
  foldM (fun '(calls, w) i => '(calls', w) ← tick_channel sysCycle i w; mret (calls ++ calls', w))
    ([], w) (seqZ 0 (channelCount (pm p))).

Definition tick (sysCycle : Z) (w : MemController) : res (Z * list call * MemController) :=
  '(calls, w) ← (if schedulerQueueCount (pm p) =? 0 then mret ([], w) else TickScheduler sysCycle w);
  mret (nextSysTick g, calls, w).

(** The end of [updateStats]. *)
Definition end_phase (globPhaseCycles : Z) (w : MemController) : MemController :=
  mkCtl globPhaseCycles (lastAccessedCycle w) (chnls w) (sches w) (prof w).

(** [access], in the bound phase: the state granted, the response cycle, and with a recorder the
    event of the request. *)
Definition access (hasRec : bool) (req : MemHier.MemReq) : prog Timing.sim (MemHier.MESIState * Z * option nat) :=
  let type := MemHier.type req in
  let st := match type with MemHier.PUTS | MemHier.PUTX => MemHier.I | MemHier.GETS => MemHier.E | MemHier.GETX => MemHier.M end in
  if bool_decide (type = MemHier.PUTS) then mret (st, MemHier.cycle req, None)
  else
    let accessType := if bool_decide (type = MemHier.PUTX) then WRITE else READ in
    let respCycle := u64 (MemHier.cycle req + minLatency g accessType) in
    _ ← require (MemHier.cycle req <=? respCycle);
    if hasRec then
      e ← Timing.alloc (Timing.set_minStartCycle (MemHier.cycle req)
            (Timing.newEvent Timing.Simple (preDelay accessType) (postDelay accessType) (domain g)));
      _ ← TimingAccess.push (Z.to_nat (MemHier.srcId req))
            (Timing.mkTR (MemHier.lineAddr req) (MemHier.cycle req) respCycle type (Some e) (Some e));
      mret (st, respCycle, Some e)
    else mret (st, respCycle, None).

(** ** Runs *)

Definition queues : bool := negb (schedulerQueueCount (pm p) =? 0).

Record cfg_ok : Prop := {
  cf_run : run_ok p;
  cf_freq : 0 < sysFreqKHz g /\ 0 < memFreqKHz g;
  cf_memMin : forall type, memMinLatency g type = memToSysCycle (GetDataLatency p type);
  cf_min : forall type, minLatency g type = memToSysCycle (if queues then 1 else GetDataLatency p type) + controllerLatency (pm p);
  cf_queues : schedulerQueueCount (pm p) = 0 \/ 2 <= schedulerQueueCount (pm p) < 2 ^ 31
}.
Context (Hok : cfg_ok).

(** The states that an event's own assertions allow: [run.1] runs and [run.2] are held. *)
Definition act (c : call) (st : gset nat * gset nat) : option (gset nat * gset nat) :=
  let '(running, held) := st in
  match c with
  | Hold ev => if decide (ev ∈ running) then Some (running ∖ {[ev]}, {[ev]} ∪ held) else None
  | Release ev => if decide (ev ∈ held) then Some ({[ev]} ∪ running, held ∖ {[ev]}) else None
  | Done ev _ => if decide (ev ∈ running) then Some (running ∖ {[ev]}, held) else None
  end.
Fixpoint play (l : list call) (st : gset nat * gset nat) : option (gset nat * gset nat) :=
  match l with
  | [] => Some st
  | c :: l => st ← act c st; play l st
  end.

Lemma play_app l1 l2 st : play (l1 ++ l2) st = st' ← play l1 st; play l2 st'.
Proof using. revert st. induction l1 as [|c l1 IH]; intros st; cbn; [done|]. destruct (act c st); cbn; [apply IH|done]. Qed.

(** The cycle [sysCycle] as an arrival on every channel after the last one [T]. *)
Definition cnext (T sysCycle : Z) (w : MemController) : Prop :=
  forall i, next p T (sysToMemCycle sysCycle) (sysToMemCycle (lastPhaseCycle w)) (chnls w i).

Record ctl_inv (T : Z) (held : gset nat) (w : MemController) : Prop := {
  ci_channels : forall i, channel_ok p i T (chnls w i);
  ci_scheds : forall i, sched_inv evType evAddr (ours p i) (sches w i) /\ (queues = true -> marks_ok (sches w i));
  ci_nodup : forall i, NoDup (reads (sches w i));
  ci_held : forall ev, ev ∈ held <-> exists i, ev ∈ reads (sches w i)
}.

Lemma channel_mono id T T' c : channel_ok p id T c -> T <= T' -> channel_ok p id T' c.
Proof using.
  intros [H1 H2 H3 H4 H5] Hle. split; auto; [lia|]. intros k. destruct (H3 k) as (Tk & ? & ?). exists Tk. split; [lia|done].
Qed.

Lemma inv_time T T' held w : ctl_inv T held w -> T <= T' -> ctl_inv T' held w.
Proof using. intros [H1 H2 H3 H4] Hle. split; auto. intros i. by eapply channel_mono. Qed.

Lemma newController_inv : ctl_inv 0 ∅ newController.
Proof using Hok.
  split; cbn.
  - intros i. apply channel_ok_new, Hok.
  - intros i. split; [split; constructor|]. unfold queues. intros Hq. destruct (cf_queues Hok) as [E|Hc]; [by rewrite E in Hq|].
    unfold marks_ok. cbn. rewrite u32_id by (unfold in_u32; lia). split; [apply Z.div_le_lower_bound; lia|apply Z.div_pos; lia].
  - intros i. constructor.
  - intros ev. split; [set_solver|]. intros [i Hi]. inversion Hi.
Qed.

Lemma mapped_ours c i a : myId c = i -> ours p i a -> mapped p c a.
Proof using Hok.
  intros E [Ha Hr].
  destruct (address_map p (ro_addr p (cf_run Hok)) a Ha) as (ch & l & E1 & _ & _ & _ & E2).
  unfold mapped. rewrite E2, E. assert (ch = i) as -> by congruence. rewrite Z.eqb_refl. by eexists.
Qed.

Lemma sys_latency type lat : GetDataDelay p type <= lat -> memMinLatency g type <= memToSysCycle lat.
Proof using Hok.
  intros Hl. destruct (cf_freq Hok) as [? ?]. rewrite (cf_memMin Hok). unfold memToSysCycle, memToSys.
  destruct (data_delay p (ro_timing p (cf_run Hok)) type) as (E & _ & H1 & H2). apply Z.div_le_mono; [done|]. apply Z.mul_le_mono_nonneg_r; lia.
Qed.

Lemma latency_ok T w i addr sysCycle type : channel_ok p i T (chnls w i) -> ours p i addr ->
  next p T (sysToMemCycle sysCycle) (sysToMemCycle (lastPhaseCycle w)) (chnls w i) ->
  exists lat c n, LatencySimulate addr sysCycle type w =
      Ok (lat, mkCtl (lastPhaseCycle w) sysCycle (<[i := c]> (chnls w)) (sches w) n) /\
    memMinLatency g type <= lat /\ channel_ok p i (sysToMemCycle sysCycle) c.
Proof using Hok.
  intros Hi Ho Hn. unfold LatencySimulate. rewrite (proj2 Ho). cbn [mbind res_bind].
  destruct (chan_access_ok p i (cf_run Hok) T (chnls w i) addr _ _ type Hi Hn Ho) as (lat & c & -> & Hc & Hl). cbn [mbind res_bind].
  pose proof (sys_latency type lat Hl) as Hs. rewrite (proj2 (Z.leb_le _ _)) by done. cbn [assert_that mbind res_bind mret res_ret].
  eexists _, c, _. split; [reflexivity|]. by split.
Qed.

Lemma reads_event ok s ev : sched_inv evType evAddr ok s -> ev ∈ reads s -> ok (evAddr ev).
Proof using.
  intros [_ Hr Ha] Hev. unfold reads in Hev. apply list_elem_of_omap in Hev as (x & Hx & E).
  rewrite Forall_forall in Hr. destruct (Hr x Hx) as (ev' & -> & _). cbn in E. injection E as <-.
  rewrite Forall_forall in Ha. apply Ha, elem_of_app. left. apply list_elem_of_fmap. by exists (Some ev', evAddr ev').
Qed.

(** An event waits in one queue only. *)
Lemma one_queue held T w ev i j : ctl_inv T held w -> ev ∈ reads (sches w i) -> ev ∈ reads (sches w j) -> i = j.
Proof using.
  intros Hi H1 H2. destruct (reads_event _ _ _ (proj1 (ci_scheds _ _ _ Hi i)) H1) as [_ E1].
  destruct (reads_event _ _ _ (proj1 (ci_scheds _ _ _ Hi j)) H2) as [_ E2]. congruence.
Qed.

(** Where the events of a list of calls are done, at the earliest. *)
Definition done_after (c : Z) (x : call) : Prop := match x with Done _ d => c <= d | _ => True end.

(** The state after one scheduler and its channel changed. *)
Definition changed (i : Z) (s : MemSchedulerDefault) (c : MemChannel) (n : counters) (sysCycle : Z) (w : MemController) : MemController :=
  mkCtl (lastPhaseCycle w) sysCycle (<[i := c]> (chnls w)) (<[i := s]> (sches w)) n.

Lemma changed_inv T held held' w i s' c n sysCycle : ctl_inv T held w -> channel_ok p i T c ->
  sched_inv evType evAddr (ours p i) s' -> (queues = true -> marks_ok s') -> NoDup (reads s') ->
  (forall ev, ev ∈ held' <-> (ev ∈ held /\ ev ∉ reads (sches w i)) \/ ev ∈ reads s') ->
  ctl_inv T held' (changed i s' c n sysCycle w).
Proof using.
  intros Hi Hc Hs Hm Hnd Hh. pose proof (one_queue held T w) as Hone. pose proof Hi as [H1 H2 H3 H4]. split; cbn.
  - intros k. destruct (decide (i = k)) as [<-|]; [by rewrite fn_lookup_insert|by rewrite fn_lookup_insert_ne].
  - intros k. destruct (decide (i = k)) as [<-|]; [by rewrite fn_lookup_insert|by rewrite fn_lookup_insert_ne].
  - intros k. destruct (decide (i = k)) as [<-|]; [by rewrite fn_lookup_insert|by rewrite fn_lookup_insert_ne].
  - intros ev. rewrite Hh, H4. split.
    + intros [[[k Hk] Hn]|Hr]; [|exists i; by rewrite fn_lookup_insert]. exists k. rewrite fn_lookup_insert_ne; [done|]. by intros ->.
    + intros [k Hk]. destruct (decide (i = k)) as [<-|Hik]; [rewrite fn_lookup_insert in Hk; by right|rewrite fn_lookup_insert_ne in Hk by done].
      left. split; [by exists k|]. intros Hn. apply Hik. by apply (Hone ev i k).
Qed.

Lemma reads_perm s s' i ev addr : rdQueue s !! i = Some (Some ev, addr) -> rdQueue s' = delete i (rdQueue s) -> reads s ≡ₚ ev :: reads s'.
Proof using. intros H E. unfold reads. rewrite E. pose proof (delete_Permutation _ _ _ H) as Hp. rewrite Hp at 1. done. Qed.

Lemma tick_channel_ok a held w i sysCycle : queues = true -> ctl_inv a held w -> a = sysToMemCycle sysCycle ->
  next p a a (sysToMemCycle (lastPhaseCycle w)) (chnls w i) ->
  exists calls w' held', tick_channel sysCycle i w = Ok (calls, w') /\ play calls (∅, held) = Some (∅, held') /\ ctl_inv a held' w' /\
    lastPhaseCycle w' = lastPhaseCycle w /\ (forall k, k <> i -> chnls w' k = chnls w k) /\
    Forall (done_after (sysCycle - minLatency g READ + memMinLatency g READ)) calls.
Proof using Hok.
  intros Hq Hi Ea Hn. pose proof Hi as [H1 H2 H3 H4]. destruct (H2 i) as [Hs Hm]. specialize (Hm Hq).
  destruct (get_spec p evType evAddr (ours p i) (chnls w i) (sches w i)) as (r & s' & E & Hs' & Hr & Hm1 & Hm2); [|done|done|].
  { intros x. apply mapped_ours, (H1 i). }
  assert (Hm' : marks_ok s') by (unfold marks_ok in *; by rewrite Hm1, Hm2).
  assert (Hin : forall addr, addr ∈ (rdQueue (sches w i)).*2 ++ writes (sches w i) -> ours p i addr).
  { destruct Hs as [_ _ Ha]. rewrite Forall_forall in Ha. exact Ha. }
  unfold tick_channel. rewrite E. cbn [mbind res_bind]. destruct r as [[[[ev|] addr] []]|]; cbn in Hr; [|done|done| |].
  - destruct Hr as (j & Hx & _ & -> & E1 & _). pose proof (reads_perm _ _ _ _ _ Hx E1) as Hp. specialize (H3 i) as Hnd. rewrite Hp in Hnd.
    apply NoDup_cons in Hnd as [Hnot Hnd]. assert (Hev : ev ∈ held) by (apply H4; exists i; rewrite Hp; left).
    assert (Ho : ours p i (evAddr ev)) by (eapply reads_event; [exact Hs|rewrite Hp; left]).
    destruct (latency_ok a (set_sched i s' w) i (evAddr ev) sysCycle READ (H1 i) Ho) as (lat & c & n & -> & Hl & Hc); [by subst a|].
    cbn [mbind res_bind mret res_ret]. eexists _, (changed i s' c n sysCycle w), (held ∖ {[ev]}). split; [reflexivity|]. split; [|split; [|split; [done|split]]].
    + cbn [play]. unfold act. rewrite decide_True by done. cbn [mbind option_bind]. rewrite decide_True by set_solver. cbn [mbind option_bind].
      do 2 f_equal. set_solver.
    + apply (changed_inv a held); try done; [by subst a|]. intros x. rewrite elem_of_difference, elem_of_singleton, Hp, elem_of_cons.
      destruct (decide (x ∈ reads s')) as [Hx'|Hx'].
      * split; [by right|]. intros _. split; [|by intros ->]. apply H4. exists i. rewrite Hp. by right.
      * split; [intros [? ?]; left; split; [done|by intros [?|?]]|]. intros [[? Hne]|?]; [|done]. split; [done|]. intros ->. apply Hne. by left.
    + intros k Hk. cbn. by rewrite fn_lookup_insert_ne.
    + constructor; [done|]. constructor; [|constructor]. cbn. lia.
  - destruct Hr as (j & Hx & _ & E1 & _ & E2). assert (Er : reads s' = reads (sches w i)) by (unfold reads; by rewrite E2).
    assert (Ho : ours p i addr) by (apply Hin, elem_of_app; right; by eapply list_elem_of_lookup_2).
    destruct (latency_ok a (set_sched i s' w) i addr sysCycle WRITE (H1 i) Ho) as (lat & c & n & -> & Hl & Hc); [by subst a|].
    cbn [mbind res_bind mret res_ret]. eexists _, (changed i s' c n sysCycle w), held. split; [reflexivity|]. split; [done|split; [|split; [done|split; [|done]]]].
    + apply (changed_inv a held); try done; [by subst a|by rewrite Er|]. intros x. rewrite Er, H4. destruct (decide (x ∈ reads (sches w i))); [|tauto].
      split; [by right|]. intros _. by exists i.
    + intros k Hk. cbn. by rewrite fn_lookup_insert_ne.
  - destruct Hr as (E1 & E2 & E3 & E4 & _). eexists _, _, held. split; [reflexivity|]. split; [done|split; [|done]].
    assert (Er : reads s' = reads (sches w i)) by (unfold reads; by rewrite E1, E3).
    pose proof (changed_inv a held held w i s' (chnls w i) (prof w) (lastAccessedCycle w) Hi (H1 i) Hs' (fun _ => Hm')) as K. rewrite Er in K. specialize (K (H3 i)).
    destruct K as [K1 K2 K3 K4].
    { intros x. rewrite H4. destruct (decide (x ∈ reads (sches w i))); [|tauto]. split; [by right|]. intros _. by exists i. }
    split; [exact H1|exact K2|exact K3|exact K4].
Qed.

Lemma ticks_ok a sysCycle ks : queues = true -> a = sysToMemCycle sysCycle -> NoDup ks -> forall acc held w, ctl_inv a held w ->
  (forall k, k ∈ ks -> next p a a (sysToMemCycle (lastPhaseCycle w)) (chnls w k)) ->
  exists calls w' held',
    foldM (fun '(calls, w) i => '(calls', w) ← tick_channel sysCycle i w; mret (calls ++ calls', w)) (acc, w) ks = Ok (acc ++ calls, w') /\
    play calls (∅, held) = Some (∅, held') /\ ctl_inv a held' w' /\
    Forall (done_after (sysCycle - minLatency g READ + memMinLatency g READ)) calls.
Proof using Hok.
  intros Hq Ea. induction ks as [|i ks IH]; intros Hnd acc held w Hi Hn; cbn [foldM].
  { exists [], w, held. by rewrite app_nil_r. }
  apply NoDup_cons in Hnd as [Hni Hnd].
  destruct (tick_channel_ok a held w i sysCycle Hq Hi Ea) as (c1 & w1 & h1 & -> & P1 & I1 & L1 & K1 & F1); [apply Hn; left|].
  cbn [mbind res_bind mret res_ret]. destruct (IH Hnd (acc ++ c1) h1 w1 I1) as (c2 & w2 & h2 & -> & P2 & I2 & F2).
  { intros k Hk. rewrite L1, K1; [apply Hn; by right|]. by intros ->. }
  exists (c1 ++ c2), w2, h2. rewrite app_assoc, play_app, P1. split_and!; try done. by apply Forall_app.
Qed.

Lemma tick_ok T held w sysCycle : queues = true -> ctl_inv T held w -> cnext T sysCycle w ->
  exists calls w' held', tick sysCycle w = Ok (nextSysTick g, calls, w') /\ play calls (∅, held) = Some (∅, held') /\
    ctl_inv (sysToMemCycle sysCycle) held' w' /\ Forall (done_after (sysCycle - minLatency g READ + memMinLatency g READ)) calls.
Proof using Hok.
  intros Hq Hi Hn. destruct (Hn 0) as (_ & HT & _). unfold tick, TickScheduler.
  pose proof Hq as Hq'. unfold queues in Hq'. apply negb_true_iff in Hq'. rewrite Hq'.
  destruct (ticks_ok (sysToMemCycle sysCycle) sysCycle (seqZ 0 (channelCount (pm p))) Hq eq_refl ltac:(apply NoDup_seqZ) [] held w) as (calls & w' & held' & -> & ?).
  - eapply inv_time; [exact Hi|exact HT].
  - intros k _. destruct (Hn k) as (N1 & _ & N2 & N3). split; [done|]. split; [lia|]. by split.
  - cbn [mbind res_bind mret res_ret]. by exists calls, w', held'.
Qed.

(** What [enqueue] needs: an event that does not wait already, of an address with a row; and
    without schedulers, an arrival in order. *)
Definition enqueue_pre (T : Z) (held : gset nat) (w : MemController) (ev : nat) (cycle : Z) : Prop :=
  ev ∉ held /\ 0 <= evAddr ev < capacity p /\
  (queues = false -> cnext T (cycle - preDelay (evType ev) + controllerLatency (pm p)) w).
Definition enqueue_time (T : Z) (ev : nat) (cycle : Z) : Z :=
  if queues then T else sysToMemCycle (cycle - preDelay (evType ev) + controllerLatency (pm p)).

Lemma play_done ev d held : play [Done ev d] ({[ev]}, held) = Some (∅, held).
Proof using. cbn. rewrite decide_True by by apply elem_of_singleton. cbn. by rewrite difference_diag_L. Qed.

Lemma enqueue_direct T held w ev cycle : queues = false -> ctl_inv T held w -> enqueue_pre T held w ev cycle ->
  exists d w', enqueue ev cycle w = Ok ([Done ev d], w') /\ cycle <= d /\ ctl_inv (enqueue_time T ev cycle) held w'.
Proof using Hok.
  intros Hq Hi (Hev & Ha & Hn). specialize (Hn Hq). unfold enqueue, enqueue_time. rewrite Hq. unfold queues in Hq. apply negb_false_iff in Hq. rewrite Hq.
  destruct (address_map p (ro_addr p (cf_run Hok)) (evAddr ev) Ha) as (ch & l & E1 & _).
  destruct (latency_ok T w ch (evAddr ev) (cycle - preDelay (evType ev) + controllerLatency (pm p)) (evType ev)) as (lat & c & n & -> & Hl & Hc);
    [apply (ci_channels _ _ _ Hi)|by split|apply Hn|]. cbn [mbind res_bind mret res_ret].
  eexists _, _. split; [reflexivity|]. split.
  - rewrite (cf_min Hok). rewrite (cf_memMin Hok) in Hl. unfold queues. rewrite Hq. cbn [negb]. lia.
  - destruct (Hn 0) as (_ & HT & _). destruct (inv_time T _ held w Hi HT) as [K1 K2 K3 K4]. split; cbn; try done.
    intros i. destruct (decide (ch = i)) as [<-|]; [by rewrite fn_lookup_insert|by rewrite fn_lookup_insert_ne].
Qed.

Lemma enqueue_queued T held w ev cycle : queues = true -> ctl_inv T held w -> enqueue_pre T held w ev cycle ->
  exists calls w' held', enqueue ev cycle w = Ok (calls, w') /\ play calls ({[ev]}, held) = Some (∅, held') /\ ctl_inv T held' w'.
Proof using Hok.
  intros Hq Hi (Hev & Ha & _). unfold enqueue. pose proof Hq as Hq'. unfold queues in Hq'. apply negb_true_iff in Hq'. rewrite Hq'.
  destruct (address_map p (ro_addr p (cf_run Hok)) (evAddr ev) Ha) as (ch & l & E1 & _). rewrite E1. cbn [mbind res_bind].
  destruct (ci_scheds _ _ _ Hi ch) as [Hs Hm]. specialize (Hm Hq).
  pose proof (check_spec evType evAddr (ours p ch) ev (sches w ch) Hs (conj Ha E1)) as Hc. pose proof (check_marks evType evAddr ev (sches w ch)) as [M1 M2].
  destruct (CheckSetEvent evType evAddr ev (sches w ch)) as [b s'] eqn:Ec. destruct Hc as [[Eb Hc] Hs'].
  assert (Hm' : marks_ok s') by (unfold marks_ok in *; cbn in M1, M2; by rewrite M1, M2).
  pose proof (ci_held _ _ _ Hi) as H4. pose proof (ci_nodup _ _ _ Hi ch) as Hnd.
  assert (Hnew : forall x, x ∈ reads (sches w ch) -> x ∈ held) by (intros x Hx; apply H4; by exists ch).
  assert (Hsame : forall held', NoDup (reads s') -> (forall x, x ∈ held' <-> (x ∈ held /\ x ∉ reads (sches w ch)) \/ x ∈ reads s') ->
    ctl_inv T held' (set_sched ch s' w)).
  { intros held' Hnd' Hh. destruct (changed_inv T held held' w ch s' (chnls w ch) (prof w) (lastAccessedCycle w) Hi (ci_channels _ _ _ Hi ch) Hs' (fun _ => Hm') Hnd' Hh) as [K1 K2 K3 K4].
    split; [apply Hi|exact K2|exact K3|exact K4]. }
  assert (Hkeep : reads s' = reads (sches w ch) -> ctl_inv T held (set_sched ch s' w)).
  { intros Er. apply Hsame; [by rewrite Er|]. intros x. rewrite Er. destruct (decide (x ∈ reads (sches w ch))); [|tauto]. split; [by right|]. intros _. auto. }
  destruct (evType ev) eqn:Et; cbn [mret res_ret].
  - destruct Hc as (Er & _). destruct b.
    + rewrite app_nil_r in Er. eexists _, _, held. split; [reflexivity|]. split; [apply play_done|by apply Hkeep].
    + eexists _, _, ({[ev]} ∪ held). split; [reflexivity|]. split.
      { cbn. rewrite decide_True by set_solver. cbn. do 2 f_equal. set_solver. }
      apply Hsame; rewrite Er.
      * apply NoDup_app. split; [done|]. split; [|apply NoDup_singleton]. intros x Hx [->|Hx']%elem_of_cons; [by apply Hev, Hnew|inversion Hx'].
      * intros x. rewrite elem_of_union, elem_of_singleton, elem_of_app, list_elem_of_singleton. destruct (decide (x ∈ reads (sches w ch))); [|tauto].
        split; [by right; left|]. intros _. right. auto.
  - destruct Hc as (Er & _). eexists _, _, held. split; [reflexivity|]. split; [apply play_done|by apply Hkeep].
Qed.

(** The controller over a run: requests, ticks at memory cycles in order, and ends of phases. *)
Inductive creach : Z -> gset nat -> MemController -> Prop :=
  | c_new : creach 0 ∅ newController
  | c_enqueue T held w ev cycle calls held' w' : creach T held w -> enqueue_pre T held w ev cycle ->
      enqueue ev cycle w = Ok (calls, w') -> play calls ({[ev]}, held) = Some (∅, held') -> creach (enqueue_time T ev cycle) held' w'
  | c_tick T held w sysCycle n calls held' w' : creach T held w -> queues = true -> cnext T sysCycle w ->
      tick sysCycle w = Ok (n, calls, w') -> play calls (∅, held) = Some (∅, held') -> creach (sysToMemCycle sysCycle) held' w'
  | c_phase T held w c : creach T held w -> creach T held (end_phase c w).

Lemma creach_inv T held w : creach T held w -> ctl_inv T held w.
Proof using Hok.
  induction 1 as [|T held w ev cycle calls held' w' _ IH Hp E Ep|T held w sysCycle n calls held' w' _ IH Hq Hn E Ep|T held w c _ IH].
  - apply newController_inv.
  - unfold enqueue_time. destruct queues eqn:Hq.
    + destruct (enqueue_queued T held w ev cycle Hq IH Hp) as (? & ? & ? & E' & Ep' & Hi). rewrite E in E'. injection E' as <- <-. rewrite Ep in Ep'. by injection Ep' as <-.
    + destruct (enqueue_direct T held w ev cycle Hq IH Hp) as (d & w1 & E' & _ & Hi). rewrite E in E'. injection E' as -> <-. rewrite play_done in Ep. injection Ep as <-.
      unfold enqueue_time in Hi. by rewrite Hq in Hi.
  - destruct (tick_ok T held w sysCycle Hq IH Hn) as (? & ? & ? & E' & Ep' & Hi & _). rewrite E in E'. injection E' as _ <- <-. rewrite Ep in Ep'. by injection Ep' as <-.
  - destruct IH. by split.
Qed.

End controller.

(** C5: a request of the detailed memory is answered once.  In every state the controller
    reaches with calls in the order of time, requests and ticks run without a failed
    assertion of the controller, its schedulers and channels; events are held, released and
    finished only in the state that admits it ([act]), a request ending with its event done
    or held, and a tick with each event it released done; the events held are those that
    wait in a queue of reads.  Without queues no event is done before it starts, and a read
    that waited is done at the earliest with the zero-load latency of the memory.  Two
    limits are needed.  Without queues the requests must reach their channel in order
    ([cnext] in [enqueue_pre]): the latencies of reads and writes can reverse it
    ([read_overtakes_write]).  And the assertion of an event on the cycle it is done at is
    not among those covered: with queues a hit is done before it starts ([hit_done_early],
    [early_done_fails]). *)
Theorem det_controller_safe g evType evAddr T held w : cfg_ok g -> creach g evType evAddr T held w ->
  (forall ev cycle, enqueue_pre g evType evAddr T held w ev cycle -> exists calls w' held',
     enqueue g evType evAddr ev cycle w = Ok (calls, w') /\ play calls ({[ev]}, held) = Some (∅, held') /\
     (queues g = false -> exists d, calls = [Done ev d] /\ cycle <= d)) /\
  (forall sysCycle, queues g = true -> cnext g T sysCycle w -> exists calls w' held',
     tick g evType evAddr sysCycle w = Ok (nextSysTick g, calls, w') /\ play calls (∅, held) = Some (∅, held') /\
     Forall (done_after (sysCycle - minLatency g READ + memMinLatency g READ)) calls) /\
  (forall ev, ev ∈ held <-> exists i, ev ∈ reads (sches w i)).
Proof.
  intros Hok Hr. pose proof (creach_inv g evType evAddr Hok T held w Hr) as Hi. split_and!.
  - intros ev cycle Hp. destruct (queues g) eqn:Hq.
    + destruct (enqueue_queued g evType evAddr Hok T held w ev cycle Hq Hi Hp) as (calls & w' & held' & E & Ep & _). by exists calls, w', held'.
    + destruct (enqueue_direct g evType evAddr Hok T held w ev cycle Hq Hi Hp) as (d & w' & E & Hd & _). exists [Done ev d], w', held.
      split; [done|]. split; [apply play_done|]. intros _. by exists d.
  - intros sysCycle Hq Hn. destruct (tick_ok g evType evAddr Hok T held w sysCycle Hq Hi Hn) as (calls & w' & held' & E & Ep & _ & F). by exists calls, w', held'.
  - apply Hi.
Qed.

(** The constructor's parameters. *)
Lemma newConfig_ok p sysFreqMHz domain : run_ok p -> let g := newConfig p sysFreqMHz domain in
  0 < sysFreqKHz g -> 0 < memFreqKHz g -> 0 <= controllerLatency (pm p) < 2 ^ 31 ->
  (forall m, 0 <= m < 2 ^ 24 -> memToSysCycle g m < 2 ^ 31) ->
  schedulerQueueCount (pm p) = 0 \/ 2 <= schedulerQueueCount (pm p) < 2 ^ 31 -> cfg_ok g.
Proof.
  intros Hr g Hs Hm Hc Hlat Hq.
  assert (Hto : forall m, 0 <= m < 2 ^ 24 -> 0 <= memToSysCycle g m < 2 ^ 31).
  { intros m Hmm. split; [|by apply Hlat]. unfold memToSysCycle, memToSys. apply Z.div_pos; [|done]. apply Z.mul_nonneg_nonneg; lia. }
  assert (Hdl : forall type, 0 <= GetDataLatency p type < 2 ^ 24) by (intros type; apply (data_delay p (ro_timing p Hr) type)).
  split; [exact Hr|done| | |exact Hq].
  - intros type. change (memMinLatency g type) with (u32 (memToSysCycle g (GetDataLatency p type))).
    specialize (Hto _ (Hdl type)). by rewrite u32_id by (unfold in_u32; lia).
  - intros type. change (minLatency g type) with
      (u32 (u32 (memToSysCycle g (if queues g then 1 else GetDataLatency p type)) + controllerLatency (pm p))).
    change (mParam g) with p.
    assert (0 <= memToSysCycle g (if queues g then 1 else GetDataLatency p type) < 2 ^ 31) by (apply Hto; destruct (queues g); [lia|apply Hdl]).
    rewrite (u32_id (memToSysCycle _ _)), u32_id by (unfold in_u32; lia). done.
Qed.

(** DDR3 memory at 1 GHz under a system at 2 GHz. *)
Lemma ex_run_ok count : run_ok (ex_param count).
Proof.
  unfold ex_param, ddr3. destruct (LoadConfig _ _) as [q|] eqn:E; vm_compute in E; [|done].
  injection E as <-. split; [split|split|]; cbn -[Z.pow]; try lia; try (split; try lia; reflexivity). repeat constructor; lia.
Qed.
Definition ex_ctl (count : Z) : config := newConfig (ex_param count) 2000 0.

Lemma ex_frequencies : sysFreqKHz (ex_ctl 8) = 2000000 /\ memFreqKHz (ex_ctl 8) = 1000000 /\
  memFreqKHz (ex_ctl 0) = 1000000 /\ (minLatency (ex_ctl 8) READ, minLatency (ex_ctl 0) READ, minLatency (ex_ctl 0) WRITE) = (2, 20, 18).
Proof. by vm_compute. Qed.

Lemma ex_ctl_ok : cfg_ok (ex_ctl 8).
Proof.
  destruct ex_frequencies as (E1 & E2 & _). apply (newConfig_ok (ex_param 8) 2000 0 (ex_run_ok 8)); fold (ex_ctl 8); rewrite ?E1, ?E2; try lia.
  - vm_compute. split; congruence.
  - intros m Hm. unfold memToSysCycle, memToSys. rewrite E1, E2. apply Z.div_lt_upper_bound; lia.
  - right. vm_compute. split; congruence.
Qed.

Lemma det_controller_safe_witness : let g := ex_ctl 8 in let w := newController g in
  cfg_ok g /\ creach g ex_types ex_addrs 0 ∅ w /\
  (exists calls w', enqueue g ex_types ex_addrs 1 1000 w = Ok (calls, w') /\ calls = [Hold 1]) /\
  (exists calls w' held', tick g ex_types ex_addrs 1000 w = Ok (2, calls, w') /\ play calls (∅, ∅) = Some (∅, held')).
Proof.
  intros g w. pose proof ex_ctl_ok as Hok. fold g in Hok. assert (Hr : creach g ex_types ex_addrs 0 ∅ w) by apply c_new.
  destruct (det_controller_safe g ex_types ex_addrs 0 ∅ w Hok Hr) as (H1 & H2 & _). split; [exact Hok|]. split; [exact Hr|]. split.
  - destruct (H1 1%nat 1000) as (calls & w' & held' & E & _).
    { split; [apply not_elem_of_empty|]. split; [vm_compute; split; congruence|]. intros Hq. vm_compute in Hq. discriminate. }
    exists calls, w'. split; [exact E|]. vm_compute in E. injection E as <- _. reflexivity.
  - destruct (H2 1000) as (calls & w' & held' & E & Ep & _); [reflexivity| |].
    { intros i. split; [vm_compute; congruence|]. split; [vm_compute; congruence|]. split; [vm_compute; split; congruence|]. split; [reflexivity|]. intros k. reflexivity. }
    exists calls, w', held'. split; [exact E|exact Ep].
Defined.

(** ** Where the controller is not what it means to be *)

(** With queues a write, and a read that finds its line in them, is done a memory cycle before
    it starts. *)
Lemma hit_done_early g evType evAddr ev cycle w calls w' : cfg_ok g -> queues g = true ->
  enqueue g evType evAddr ev cycle w = Ok (calls, w') ->
  calls = [Hold ev] \/ calls = [Done ev (cycle - memToSysCycle g 1)].
Proof.
  intros Hok Hq. unfold enqueue. pose proof Hq as Hq'. unfold queues in Hq'. apply negb_true_iff in Hq'. rewrite Hq'.
  intros E. apply bind_Ok in E as (ch & _ & E). destruct (CheckSetEvent _ _ _ _) as [b s']. rewrite !(cf_min g Hok), Hq in E.
  destruct (evType ev), b; injection E as <- <-; auto; right; do 2 f_equal; lia.
Qed.

(** A response of the kind the access recorded, to a child that starts at once, 1000 being the
    cycle that the domain has reached. *)
Definition early_sim : Timing.sim :=
  let child := Timing.set_numParents 1 (Timing.newEvent Timing.Simple 0 0 0) in
  let e := Timing.set_state Timing.EV_RUNNING (Timing.link 1 (Timing.newEvent Timing.Simple 1 1 0)) in
  Timing.mkSim (fun k => if decide (k = 0)%nat then e else child) 2 (Timing.recorders TimingAccess.s0)
    (fun _ => Timing.mkDom PrioQueue.PrioQueue.new 1000 0) 1 2000 0 true 1000.

Lemma early_done_fails : memToSysCycle (ex_ctl 8) 1 = 2 /\
  Timing.done 5 0 (1000 - 2) early_sim = Fail AssertFailed /\ is_ok (Timing.done 5 0 1000 early_sim).
Proof. split; [by vm_compute|]. split; [by vm_compute|]. eexists. vm_compute. reflexivity. Qed.

(** Without queues the zero-load latencies of reads and writes differ, and so do the cycles they
    are sent back by: of a write and a read of one cycle the later one arrives first, and
    fails. *)
Lemma read_overtakes_write : let g := ex_ctl 0 in
  (c ← enqueue g ex_types ex_addrs 2 2009 (newController g); enqueue g ex_types ex_addrs 0 2009 c.2) = Fail AssertFailed /\
  is_ok (c ← enqueue g ex_types ex_addrs 2 2009 (newController g); enqueue g ex_types ex_addrs 0 2011 c.2).
Proof. split; [by vm_compute|]. eexists. vm_compute. reflexivity. Qed.

End DetCtrl.
