(* ===== verification/Crossing.v ===== *)
(** Crossings between domains (timing_event.h, timing_event.cpp and contention_sim.cpp): in the
    bound phase [produceCrossings] cuts the links of a recorded graph that leave the domain of
    their parent, and puts a crossing event between its ends, which the contention simulator
    queues or chains to the crossing before it.

    Beside the world of Timing there are the stack of crossings of each recorder, the top
    first, and the table of the last crossings. *)
From S2P Require Import Prelude Effects MemHier PrioQueue Timing.
Import Timing.

Module Crossing.

(** ** The code *)

Record world := mkW {
  sim : Timing.sim;
  crossingStack : nat -> list nat;
  lastCrossing : nat * Z * Z -> Z * option nat
}.
Notation P := (prog world).

Definition on_sim {A} (m : prog Timing.sim A) : P A := fun w =>
  match m (sim w) with
  | Ok (a, s) => Ok (a, mkW s (crossingStack w) (lastCrossing w))
  | Fail e => Fail e
  end.
Definition ev_of (e : nat) : P TimingEvent := on_sim (get e).
Definition set_stack (r : nat) (l : list nat) : P unit :=
  modify (fun w => mkW (sim w) (<[r := l]> (crossingStack w)) (lastCrossing w)).
Definition set_last (k : nat * Z * Z) (cyc : Z) (e : nat) : P unit :=
  modify (fun w => mkW (sim w) (crossingStack w) (<[k := (cyc, Some e)]> (lastCrossing w))).

(** A [TimingEvent**]: the pointer to the only child, or slot [i] of the [k]-th block from the
    end of the list of blocks, whose head is the newest. *)
Inductive slot := Single | Slot (k i : nat).

Definition get_slot (s : slot) (x : TimingEvent) : option nat :=
  match s, childLinks x with
  | Single, Child c => c
  | Slot k i, Children bs => rev bs !! k ≫= (fun b => mjoin (b !! i))
  | _, _ => None
  end.
Definition set_slot (s : slot) (c : nat) (x : TimingEvent) : TimingEvent :=
  match s, childLinks x with
  | Single, Child _ => set_links (Child (Some c)) (numChildren x) x
  | Slot k i, Children bs =>
      set_links (Children (rev (alter (fun b => <[i := Some c]> b) k (rev bs)))) (numChildren x) x
  | _, _ => x
  end.

(** The source domain of a crossing and the parent it was made for. *)
Definition crossing_of (x : TimingEvent) : option (Z * nat) :=
  match ekind x with
  | CrossingEvent src _ _ _ _ parent _ _ => Some (src, Z.to_nat parent)
  | _ => None
  end.

Section produce.
Context (fuel : nat) (r : nat). (* [fuel] is for [addChild]; [r] is the recorder *)

Definition add (e c : nat) : P unit := _ ← on_sim (addChild fuel e c); mret tt.

(** The request that crossing [e] from [srcDomain] to [dstDomain] answers, if any. *)
Definition response_to (srcDomain dstDomain : Z) : P (option nat) :=
  stack ← gets (fun w => crossingStack w r);
  match stack with
  | [] => mret None
  | b :: _ =>
      x ← ev_of b;
      match crossing_of x with
      | Some (src, parent) =>
          mret (if (src =? dstDomain) && (domain x =? srcDomain) then Some parent else None)
      | None => stop
      end
  end.

Definition enqueueCrossing (e : nat) (cyc : Z) (src : nat) (srcDomain dstDomain : Z) : P unit :=
  resp ← response_to srcDomain dstDomain;
  stack ← gets (fun w => crossingStack w r);
  match resp with
  | Some parent =>
      _ ← set_stack r (tail stack);
      add parent e
  | None =>
      _ ← set_stack r (e :: stack);
      '(lastCyc, lastEv) ← gets (fun w => lastCrossing w (src, srcDomain, dstDomain));
      cur ← gets (fun w => curCycle (domains (sim w) srcDomain));
      _ ← (if (cur <? lastCyc) && (lastCyc <=? cyc) then
             match lastEv with Some l => add l e | None => stop end
           else
             _ ← require (cur <=? cyc);
             on_sim (enqueueSynced e cyc));
      set_last (src, srcDomain, dstDomain) cyc e
  end.

(** The constructor of [CrossingEvent], with the event of the source domain that it contains.
    The result is that one. *)
Definition newCrossing (parent child : nat) (minStart : Z) : P nat :=
  x ← ev_of parent;
  y ← ev_of child;
  _ ← require (negb (domain x =? domain y));
  gap ← gets (fun w => lastGapCycles (recorders (sim w) r));
  let '(preSlack, ms) := if postDelay x =? 0 then (1, u64 (minStart + 1)) else (postDelay x, minStart) in
  let k := CrossingEvent (domain x) false 0 r (u64 (ms - gap)) (Z.of_nat parent) preSlack (preDelay y) in
  ce ← on_sim (alloc (set_minStartCycle ms (newEvent k 0 0 (domain y))));
  cpe ← on_sim (alloc (set_numParents 1 (newEvent (CrossingSrcEvent ce) 0 0 (domain x))));
  _ ← add ce child;
  ll ← gets (fun w => lastLimit (sim w));
  src ← gets (fun w => srcId (recorders (sim w) r));
  _ ← enqueueCrossing ce (Z.max ll ms) src (domain x) (domain y);
  mret cpe.

Definition handleCrossing (e child : nat) (unlinkChild : bool) : P nat :=
  _ ← (if unlinkChild then
         y ← ev_of child;
         _ ← require (negb (numParents y =? 0));
         on_sim (upd child (fun y => set_numParents (u32 (numParents y - 1)) y))
       else mret tt);
  x ← ev_of e;
  _ ← require (negb (minStartCycle x =? 2 ^ 64 - 1));
  newCrossing e child (u64 (minStartCycle x + postDelay x)).

Section visit.
Context (rec : nat -> P unit) (e : nat).

(** What [produceCrossings] does at a pointer to child [c]. *)
Definition visit_slot (s : slot) (c : nat) : P unit :=
  x ← ev_of e;
  y ← ev_of c;
  _ ← (if domain y =? domain x then mret tt
       else cpe ← handleCrossing e c true; on_sim (upd e (set_slot s cpe)));
  rec c.

(** The slots [idx] of a block, up to the first null one, with the number of those visited. *)
Fixpoint visit_block (k : nat) (idx : list nat) : P Z :=
  match idx with
  | [] => mret 0
  | i :: idx =>
      x ← ev_of e;
      match get_slot (Slot k i) x with
      | None => mret 0
      | Some c => _ ← visit_slot (Slot k i) c; n ← visit_block k idx; mret (n + 1)
      end
  end.

(** The blocks below [k]. *)
Fixpoint visit_blocks (k : nat) : P Z :=
  match k with
  | O => mret 0
  | S k => n ← visit_block k [0; 1; 2]%nat; m ← visit_blocks k; mret (n + m)
  end.

(** [visitChildren]: [numChildren] is read again at the end. *)
Definition visitChildren : P unit :=
  x ← ev_of e;
  if numChildren x =? 0 then mret tt
  else if numChildren x =? 1 then
    match get_slot Single x with Some c => visit_slot Single c | None => stop end
  else
    n ← visit_blocks (match childLinks x with Children bs => length bs | Child _ => 0%nat end);
    x ← ev_of e;
    require (n =? numChildren x).
End visit.
End produce.

Fixpoint produceCrossings (fuel : nat) (r : nat) (e : nat) : P unit :=
  match fuel with
  | O => lift (Fail NoFuel)
  | S fuel =>
      x ← ev_of e;
      _ ← require (negb (domain x =? -1));
      visitChildren (S fuel) r (produceCrossings fuel r) e
  end.

(** What a recorder does with what it recorded. *)
Definition record_crossings (fuel : nat) (r : nat) (e : nat) : P unit :=
  _ ← produceCrossings fuel r e;
  set_stack r [].

(** ** Examples *)

(** Events of two domains; the links are [kids]. *)
Definition ex_event (dom : Z) (parents : Z) (kids : list nat) : TimingEvent :=
  foldl (fun x c => link c x)
    (set_numParents parents (set_minStartCycle 1000 (newEvent Simple 2 3 dom))) kids.

Definition ex_world (evs : list TimingEvent) : world :=
  mkW (mkSim (fun e => default (newEvent Simple 0 0 (-1)) (evs !! e)) (length evs)
         (fun _ => mkER (mkTR 0 0 0 MemHier.GETS None None) 0 0 0)
         (fun _ => mkDom PrioQueue.new 0 0) 2 10000 0 false 1000)
    (fun _ => []) (fun _ => (0, None)).

(** A request from domain 0 to domain 1 and back: 3 and 5 are the crossings, 4 and 6 their ends
    in the domains they leave; the response 5 is a child of the parent of the request. *)
Definition round_trip : world := ex_world [ex_event 0 0 [1%nat]; ex_event 1 1 [2%nat]; ex_event 0 1 []].

Example ex_round_trip :
  (w ← record_crossings 4 0 0%nat round_trip;
   mret (map (fun e => (visited (ev (sim w.2) e), domain (ev (sim w.2) e), numParents (ev (sim w.2) e))) (seq 0 7))) =
  Ok [([4; 5]%nat, 0, 0); ([6%nat], 1, 1); ([], 0, 1); ([1%nat], 1, 0); ([], 0, 1); ([2%nat], 0, 1); ([], 1, 1)].
Proof. vm_compute. reflexivity. Qed.

(** A block holds three links.  When an event has three, or has two and both requests are
    answered, a response opens a new block in front of the one being visited, which
    [visitChildren] counts at the end although it never saw it. *)
Lemma response_not_visited :
  record_crossings 4 0 0%nat (ex_world [ex_event 0 0 [1; 3; 4]%nat; ex_event 1 1 [2%nat]; ex_event 0 1 []; ex_event 0 1 []; ex_event 0 1 []]) =
    Fail AssertFailed /\
  record_crossings 4 0 0%nat (ex_world [ex_event 0 0 [1; 3]%nat; ex_event 1 1 [2%nat]; ex_event 0 1 []; ex_event 1 1 [4%nat]; ex_event 0 1 []]) =
    Fail AssertFailed.
Proof. split; vm_compute; reflexivity. Qed.

End Crossing.
