(* ===== verification/CrossingInv.v ===== *)
(** The creation of crossings leaves no link between domains: what [produceCrossings] does to a
    chain of events, as an access records it, in the bound phase. *)
From S2P Require Import Prelude Effects MemHier PrioQueue Timing Crossing.
Import Timing Crossing.

Module CrossingInv.

(** ** The methods as functions on the world *)

Definition set_ev (e : nat) (x : TimingEvent) (s : Timing.sim) : Timing.sim :=
  mkSim (<[e := x]> (ev s)) (numEvents s) (recorders s) (domains s)
    (numDomains s) (limit s) (lastLimit s) (inCSim s) (phaseLength s).

Definition not_source (x : TimingEvent) : Prop := forall ce, ekind x <> CrossingSrcEvent ce.

(** Neither run nor done, nor the source end of a crossing: children may be added. *)
Definition open (x : TimingEvent) : Prop := (state x = EV_NONE \/ state x = EV_QUEUED) /\ not_source x.

Lemma wp_in_sim {A} (m : prog Timing.sim A) w (Q : A -> world -> Prop) :
  wp m (sim w) (fun a s => Q a (mkW s (crossingStack w) (lastCrossing w))) -> wp (on_sim m) w Q.
Proof. unfold wp, on_sim. by destruct (m (sim w)) as [[]|]. Qed.

Lemma wp_ev_of e w (Q : TimingEvent -> world -> Prop) : Q (ev (sim w) e) w -> wp (ev_of e) w Q.
Proof. intros H. apply wp_in_sim. unfold get. apply wp_gets. by destruct w. Qed.

Lemma addChild_eq fuel e c s : e <> c -> open (ev s e) -> state (ev s c) = EV_NONE ->
  domain (ev s c) <> -1 -> 0 <= numParents (ev s c) < 2 ^ 32 - 1 ->
  addChild fuel e c s =
  Ok (c, set_ev c (set_numParents (numParents (ev s c) + 1) (ev s c)) (set_ev e (link c (ev s e)) s)).
Proof.
  intros He Ho Hc Hd Hn. unfold addChild, get, upd, require, gets, modify.
  unfold mbind, prog_bind. cbn [ev]. rewrite bool_decide_true by exact (proj1 Ho). cbn [ev]. rewrite bool_decide_true by exact Hc.
  cbn [ev]. rewrite fn_lookup_insert, fn_lookup_insert_ne by done.
  rewrite (proj2 (Z.eqb_neq (domain (ev s c)) (-1)) Hd), andb_false_r. cbn [ev mret prog_ret].
  rewrite fn_lookup_insert_ne by done. by rewrite u32_id by (unfold in_u32; lia).
Qed.

Lemma enqueueSynced_eq s e cyc l : inCSim s = false -> 0 <= domain (ev s e) < numDomains s -> numParents (ev s e) = 0 ->
  lastLimit s <= cyc < lastLimit s + 10 * phaseLength s + 10000 -> lastLimit s + 10 * phaseLength s + 10000 < 2 ^ 64 ->
  0 <= lastLimit s -> 0 <= phaseLength s ->
  PrioQueue.holds PQ_BLOCKS (pq (domains s (domain (ev s e)))) l -> PrioQueue.curBlock (pq (domains s (domain (ev s e)))) * 64 <= lastLimit s ->
  Z.of_nat (length l) + 1 < 2 ^ 64 ->
  exists q, PrioQueue.holds PQ_BLOCKS q ((cyc, e) :: l) /\ PrioQueue.curBlock q = PrioQueue.curBlock (pq (domains s (domain (ev s e)))) /\
  enqueueSynced e cyc s =
  Ok (tt, mkSim (<[e := set_privCycle cyc (ev s e)]> (ev s)) (numEvents s) (recorders s)
            (<[domain (ev s e) := set_pq q (domains s (domain (ev s e)))]> (domains s))
            (numDomains s) (limit s) (lastLimit s) (inCSim s) (phaseLength s)).
Proof.
  intros Hi Hd Hp Hc Ht H0 Hph Hh Hb Hl.
  destruct (PrioQueue.enqueue_holds PQ_BLOCKS pq_blocks _ l e cyc Hh) as (q & Eq & Hq); [lia| |].
  { rewrite (PrioQueue.h_size _ _ _ (proj1 Hh)). lia. }
  exists q. split; [done|]. split; [by apply (enqueue_curBlock e cyc)|].
  unfold enqueueSynced, pq_enqueue, get, upd, upd_domain, require, gets, modify, lift, mbind, prog_bind. rewrite Hi. cbn [negb].
  rewrite (proj2 (Z.eqb_neq (domain (ev s e)) (-1))) by lia. cbn [negb]. rewrite (proj2 (Z.ltb_lt (domain (ev s e)) (numDomains s))) by lia.
  rewrite (proj2 (Z.leb_le (lastLimit s) cyc)) by lia. rewrite u64_id by (unfold in_u64; lia).
  rewrite (proj2 (Z.ltb_lt cyc (lastLimit s + 10 * phaseLength s + 10000))) by lia.
  rewrite Hp. cbn [Z.eqb domains]. by rewrite Eq, Hi.
Qed.

(** ** The bound phase *)

Section bound.
Context (r : nat).

(** The links of the event are in order, within the first [k] events, and may grow by [n]. *)
Definition fits (k : nat) (n : Z) (x : TimingEvent) : Prop :=
  links_ok x /\ 0 <= numChildren x /\ numChildren x + n < 2 ^ 32 /\ forall c, c ∈ visited x -> (c < k)%nat.

(** The simulator takes [n] more events.  [q] is what the queues hold, [es] are events whose
    crossings are still to be made. *)
Record inv (q : Z -> list (Z * nat)) (es : list nat) (n : Z) (w : world) : Prop := {
  i_phase : inCSim (sim w) = false;
  i_clock : 0 <= lastLimit (sim w) /\ 0 <= phaseLength (sim w) /\ lastLimit (sim w) + 10 * phaseLength (sim w) + 10000 < 2 ^ 64;
  i_links e : (e < numEvents (sim w))%nat -> fits (numEvents (sim w)) n (ev (sim w) e);
  i_queue d : 0 <= d < numDomains (sim w) -> PrioQueue.holds PQ_BLOCKS (pq (domains (sim w) d)) (q d) /\
    PrioQueue.curBlock (pq (domains (sim w) d)) * 64 <= lastLimit (sim w) /\ curCycle (domains (sim w) d) <= lastLimit (sim w) /\
    Z.of_nat (length (q d)) + n < 2 ^ 64;
  i_last k : curCycle (domains (sim w) k.1.2) < (lastCrossing w k).1 -> exists l, (lastCrossing w k).2 = Some l /\
    (l < numEvents (sim w))%nat /\ l ∉ es /\ open (ev (sim w) l) /\ domain (ev (sim w) l) = k.2;
  i_stack b : b ∈ crossingStack w r -> (b < numEvents (sim w))%nat /\ exists src p,
    crossing_of (ev (sim w) b) = Some (src, p) /\ (p < numEvents (sim w))%nat /\ p ∉ es /\ open (ev (sim w) p) /\ domain (ev (sim w) p) = src
}.

(** Everything but the links, the count of parents and the cycle of queueing. *)
Definition core (x : TimingEvent) := (ekind x, state x, cycle x, minStartCycle x, domain x, preDelay x, postDelay x).

(** ** Changes that keep the invariant *)

Definition set_sim (s : Timing.sim) (w : world) : world := mkW s (crossingStack w) (lastCrossing w).
Definition alloc_sim (x : TimingEvent) (s : Timing.sim) : Timing.sim :=
  mkSim (<[numEvents s := x]> (ev s)) (Datatypes.S (numEvents s)) (recorders s) (domains s)
    (numDomains s) (limit s) (lastLimit s) (inCSim s) (phaseLength s).

Lemma core_fields x y : core x = core y -> ekind x = ekind y /\ state x = state y /\ minStartCycle x = minStartCycle y /\
  domain x = domain y /\ preDelay x = preDelay y /\ postDelay x = postDelay y.
Proof. by intros [= -> -> _ -> -> -> ->]. Qed.

Lemma core_link c x : core (link c x) = core x.
Proof. unfold link. destruct (numChildren x =? 0); [done|]. by destruct (numChildren x =? 1). Qed.

Lemma core_crossing x y : core x = core y -> crossing_of x = crossing_of y.
Proof. intros (E & _)%core_fields. unfold crossing_of. by rewrite E. Qed.

Lemma crossing_not_source x p : crossing_of x = Some p -> not_source x.
Proof. unfold crossing_of. intros H ce E. by rewrite E in H. Qed.

Lemma core_open x y : core x = core y -> open y -> open x.
Proof. intros (Ek & E & _)%core_fields. unfold open, not_source. by rewrite E, Ek. Qed.

Lemma inv_weaken q es es' n n' w : inv q es n w -> n' <= n -> (forall e, e ∈ es' -> e ∈ es) -> inv q es' n' w.
Proof.
  intros [I1 I2 I3 I4 I5 I6] Hn He. split; try done.
  - intros e H. destruct (I3 e H) as (A & B & C & D). split_and!; try done. lia.
  - intros d H. destruct (I4 d H) as (A & B & C & D). split_and!; try done. lia.
  - intros k H. destruct (I5 k H) as (l & A & B & C & D). exists l. split_and!; try apply D; auto.
  - intros b H. destruct (I6 b H) as (A & src & p & B & C & D & E). split; [done|]. exists src, p. split_and!; try apply E; auto.
Qed.

(** The events change, but not their cores; the rest of the simulator does not. *)
Lemma inv_events q es n w f : inv q es n w ->
  (forall e, (e < numEvents (sim w))%nat -> core (f e) = core (ev (sim w) e) /\ fits (numEvents (sim w)) n (f e)) ->
  let s := sim w in
  inv q es n (set_sim (mkSim f (numEvents s) (recorders s) (domains s) (numDomains s) (limit s) (lastLimit s) (inCSim s) (phaseLength s)) w).
Proof.
  intros [I1 I2 I3 I4 I5 I6] Hf s. split; try done.
  - intros e H. by apply Hf.
  - intros k H. destruct (I5 k H) as (l & A & B & C & D & E). exists l. cbn. destruct (Hf l B) as [Hc _].
    split_and!; try done; [by eapply core_open|]. by rewrite (proj1 (proj2 (proj2 (proj2 (core_fields _ _ Hc))))).
  - intros b H. destruct (I6 b H) as (A & src & p & B & C & D & E & F). split; [done|]. exists src, p. cbn.
    destruct (Hf b A) as [Hb _], (Hf p C) as [Hp _].
    split_and!; try done; [by rewrite (core_crossing _ _ Hb)|by eapply core_open|]. by rewrite (proj1 (proj2 (proj2 (proj2 (core_fields _ _ Hp))))).
Qed.

Lemma inv_event q es n w e x : inv q es n w -> core x = core (ev (sim w) e) -> fits (numEvents (sim w)) n x ->
  inv q es n (set_sim (set_ev e x (sim w)) w).
Proof.
  intros Hi Hc Hx. apply inv_events; [done|]. intros y Hy. destruct (decide (y = e)) as [->|Hne].
  - by rewrite fn_lookup_insert.
  - rewrite fn_lookup_insert_ne by done. split; [done|]. by apply Hi.
Qed.

Lemma fits_more k k' n x : fits k n x -> (k <= k')%nat -> fits k' n x.
Proof. intros (A & B & C & D) Hk. split_and!; try done. intros c Hc. specialize (D c Hc). lia. Qed.

Lemma inv_alloc q es n w x : inv q es n w -> fits (Datatypes.S (numEvents (sim w))) n x ->
  inv q (numEvents (sim w) :: es) n (set_sim (alloc_sim x (sim w)) w).
Proof.
  intros [I1 I2 I3 I4 I5 I6] Hx. split; try done; cbn.
  - intros e H. destruct (decide (e = numEvents (sim w))) as [->|Hne]; [by rewrite fn_lookup_insert|].
    rewrite fn_lookup_insert_ne by done. eapply fits_more; [apply I3; lia|lia].
  - intros k H. destruct (I5 k H) as (l & A & B & C & D & E). exists l. rewrite fn_lookup_insert_ne by lia.
    split_and!; try done; [lia|]. apply not_elem_of_cons. split; [lia|done].
  - intros b H. destruct (I6 b H) as (A & src & p & B & C & D & E & F). split; [lia|]. exists src, p.
    rewrite !fn_lookup_insert_ne by lia. split_and!; try done; [lia|]. apply not_elem_of_cons. split; [lia|done].
Qed.

Lemma fits_link k n c x : fits k (n + 1) x -> 0 <= n -> (c < k)%nat ->
  fits k n (link c x) /\ visited (link c x) ≡ₚ c :: visited x.
Proof.
  intros (A & B & C & D) Hn Hc. destruct (link_ok c x A) as (E1 & E2 & E3); [lia|]. split; [|done].
  split_and!; [done|lia|lia|]. intros y Hy. rewrite E3 in Hy. apply elem_of_cons in Hy as [->|Hy]; auto.
Qed.

Lemma fits_links k n x y : fits k n x -> childLinks y = childLinks x -> numChildren y = numChildren x -> fits k n y.
Proof.
  intros (A & B & C & D) E1 E2.
  assert (E3 : visited y = visited x) by (unfold visited; by rewrite E1, E2).
  split_and!; [|lia|lia|by rewrite E3].
  destruct A as [H|c H1 H2|cs css H1 H2 H3 H4 H5]; [apply no_child|apply (one_child _ c)|apply (many _ cs css)]; congruence.
Qed.

Lemma wp_add fuel e c w (Q : unit -> world -> Prop) : e <> c -> open (ev (sim w) e) -> state (ev (sim w) c) = EV_NONE ->
  domain (ev (sim w) c) <> -1 -> 0 <= numParents (ev (sim w) c) < 2 ^ 32 - 1 ->
  Q tt (set_sim (set_ev c (set_numParents (numParents (ev (sim w) c) + 1) (ev (sim w) c)) (set_ev e (link c (ev (sim w) e)) (sim w))) w) ->
  wp (add fuel e c) w Q.
Proof.
  intros H1 H2 H3 H4 H5 HQ. unfold add. apply wp_bind, wp_in_sim. unfold wp at 1. rewrite addChild_eq by done.
  by apply wp_ret.
Qed.

(** ** Queueing a crossing *)

(** The crossing [ce] of domain [d] is queued at [cyc], or made the child of another event of
    its domain. *)
Inductive enqueued (es : list nat) (ce : nat) (d cyc : Z) (s : Timing.sim) (q : Z -> list (Z * nat)) (s' : Timing.sim) : (Z -> list (Z * nat)) -> Prop :=
  | enq_queue : ev s' = <[ce := set_privCycle cyc (ev s ce)]> (ev s) -> enqueued es ce d cyc s q s' (<[d := (cyc, ce) :: q d]> q)
  | enq_child p : (p < numEvents s)%nat -> p <> ce -> p ∉ es -> open (ev s p) -> domain (ev s p) = d ->
      ev s' = <[ce := set_numParents 1 (ev s ce)]> (<[p := link ce (ev s p)]> (ev s)) -> enqueued es ce d cyc s q s' q.

Definition fixed (s : Timing.sim) := (numEvents s, numDomains s, lastLimit s, phaseLength s, inCSim s).

(** Making [ce] a child of [p]. *)
Lemma add_crossing fuel q es n w ce p d cyc (Q : unit -> world -> Prop) :
  inv q es (n + 1) w -> 0 <= n -> (ce < numEvents (sim w))%nat -> state (ev (sim w) ce) = EV_NONE -> numParents (ev (sim w) ce) = 0 ->
  domain (ev (sim w) ce) = d -> 0 <= d -> (p < numEvents (sim w))%nat -> p <> ce -> p ∉ es -> open (ev (sim w) p) -> domain (ev (sim w) p) = d ->
  (forall s', enqueued es ce d cyc (sim w) q s' q -> inv q es n (set_sim s' w) -> fixed s' = fixed (sim w) -> domains s' = domains (sim w) -> Q tt (set_sim s' w)) ->
  wp (add fuel p ce) w Q.
Proof.
  intros Hi Hn Hce Hs Hp Hd Hd0 Hpn Hpc Hpe Hop Hpd HQ. apply wp_add; try done; [lia|lia|]. rewrite Hp. apply HQ; [|clear HQ|done..].
  - by apply (enq_child _ _ _ _ _ _ _ p).
  - destruct (fits_link (numEvents (sim w)) n ce (ev (sim w) p)) as [Hf _]; [by apply Hi|done|done|].
    pose proof (inv_event q es n w p _ (inv_weaken _ _ es _ n _ Hi ltac:(lia) ltac:(done)) (core_link ce _) Hf) as Hi1.
    assert (Hfc : fits (numEvents (sim w)) n (ev (sim w) ce)).
    { destruct (i_links _ _ _ _ Hi ce Hce) as (A & B & C & D). split_and!; try done. lia. }
    apply (inv_event q es n _ ce (set_numParents 1 (ev (sim w) ce))) in Hi1; [exact Hi1|..].
    + cbn. by rewrite fn_lookup_insert_ne.
    + by eapply fits_links.
Qed.

Lemma inv_stack q es n w st : inv q es n w ->
  (forall b, b ∈ st -> b ∈ crossingStack w r \/ (b < numEvents (sim w))%nat /\ exists src p,
    crossing_of (ev (sim w) b) = Some (src, p) /\ (p < numEvents (sim w))%nat /\ p ∉ es /\ open (ev (sim w) p) /\ domain (ev (sim w) p) = src) ->
  inv q es n (mkW (sim w) (<[r := st]> (crossingStack w)) (lastCrossing w)).
Proof.
  intros [I1 I2 I3 I4 I5 I6] H. split; try done. cbn. rewrite fn_lookup_insert. intros b Hb.
  destruct (H b Hb) as [Hb'|Hb']; [by apply I6|done].
Qed.

Lemma inv_last q es n w k cyc l : inv q es n w -> (l < numEvents (sim w))%nat -> l ∉ es -> open (ev (sim w) l) -> domain (ev (sim w) l) = k.2 ->
  inv q es n (mkW (sim w) (crossingStack w) (<[k := (cyc, Some l)]> (lastCrossing w))).
Proof.
  intros [I1 I2 I3 I4 I5 I6] H1 H2 H3 H4. split; try done. cbn. intros k'. destruct (decide (k' = k)) as [->|Hne].
  - rewrite fn_lookup_insert. intros _. by exists l.
  - rewrite fn_lookup_insert_ne by done. apply I5.
Qed.

(** Queueing [ce]. *)
Lemma queue_crossing q es n w ce d cyc (Q : unit -> world -> Prop) :
  inv q es (n + 1) w -> 0 <= n -> (ce < numEvents (sim w))%nat -> numParents (ev (sim w) ce) = 0 ->
  domain (ev (sim w) ce) = d -> 0 <= d < numDomains (sim w) ->
  lastLimit (sim w) <= cyc < lastLimit (sim w) + 10 * phaseLength (sim w) + 10000 ->
  (forall q' s', enqueued es ce d cyc (sim w) q s' q' -> inv q' es n (set_sim s' w) -> fixed s' = fixed (sim w) -> Q tt (set_sim s' w)) ->
  wp (on_sim (enqueueSynced ce cyc)) w Q.
Proof.
  intros Hi Hn Hce Hp Hd Hd0 Hc HQ. destruct (i_queue _ _ _ _ Hi d Hd0) as (Hh & Hb & Hcur & Hlen).
  destruct (i_clock _ _ _ _ Hi) as (C1 & C2 & C3).
  destruct (enqueueSynced_eq (sim w) ce cyc (q d)) as (pq' & Hh' & Hb' & E); rewrite ?Hd; try done; try lia; [by apply Hi|].
  apply wp_in_sim. unfold wp. rewrite E, Hd. set (s' := mkSim _ _ _ _ _ _ _ _ _).
  apply (HQ (<[d := (cyc, ce) :: q d]> q) s'); [by apply enq_queue| |done].
  assert (Hfc : fits (numEvents (sim w)) n (set_privCycle cyc (ev (sim w) ce))).
  { destruct (i_links _ _ _ _ Hi ce Hce) as (A & B & C & D). apply (fits_links _ _ (ev (sim w) ce)); [|done|done]. split_and!; try done. lia. }
  assert (Hi' : inv q es n w) by (eapply inv_weaken; [exact Hi|lia|done]).
  pose proof (inv_event q es n w ce (set_privCycle cyc (ev (sim w) ce)) Hi' eq_refl Hfc) as [I1 I2 I3 I4 I5 I6]. pose proof (i_queue _ _ _ _ Hi) as I4'.
  split; try done.
  - intros d' Hd'. specialize (I4' d' Hd'). cbn in I4' |- *. destruct (decide (d' = d)) as [->|Hne].
    + rewrite !fn_lookup_insert. cbn. rewrite Hb', Hd. split_and!; try done. lia.
    + rewrite !fn_lookup_insert_ne by done. destruct I4' as (A & B & C & D). split_and!; try done. lia.
  - intros k H. apply I5. cbn in H |- *. destruct (decide (k.1.2 = d)) as [Hk|Hk]; [rewrite Hk, fn_lookup_insert in H|rewrite fn_lookup_insert_ne in H by done]; [by rewrite Hk|done].
Qed.

Lemma enqueued_core es ce d cyc s q s' q' e : enqueued es ce d cyc s q s' q' -> core (ev s' e) = core (ev s e).
Proof.
  intros [E|p Hp Hpc Hpe Hpo Hd E]; rewrite E; [destruct (decide (e = ce)) as [->|Hne]; [by rewrite fn_lookup_insert|by rewrite fn_lookup_insert_ne]|].
  destruct (decide (e = ce)) as [->|Hne]; [by rewrite fn_lookup_insert|]. rewrite fn_lookup_insert_ne by done.
  destruct (decide (e = p)) as [->|Hne']; [rewrite fn_lookup_insert; apply core_link|by rewrite fn_lookup_insert_ne].
Qed.

Lemma enqueueCrossing_ok fuel q es n w ce cyc src a d e (Q : unit -> world -> Prop) :
  inv q (ce :: es) (n + 1) w -> 0 <= n -> ce ∉ es -> (ce < numEvents (sim w))%nat -> state (ev (sim w) ce) = EV_NONE ->
  numParents (ev (sim w) ce) = 0 -> domain (ev (sim w) ce) = d -> 0 <= d < numDomains (sim w) -> 0 <= a < numDomains (sim w) ->
  crossing_of (ev (sim w) ce) = Some (a, e) -> (e < numEvents (sim w))%nat -> e ∉ es -> e <> ce -> open (ev (sim w) e) ->
  domain (ev (sim w) e) = a ->
  lastLimit (sim w) <= cyc < lastLimit (sim w) + 10 * phaseLength (sim w) + 10000 ->
  (forall q' w', enqueued (ce :: es) ce d cyc (sim w) q (sim w') q' -> inv q' es n w' -> fixed (sim w') = fixed (sim w) -> Q tt w') ->
  wp (enqueueCrossing fuel r ce cyc src a d) w Q.
Proof.
  intros Hi Hn Hces Hce Hs Hp Hd Hd0 Ha0 Hcr He Hee Hec Hop Hed Hcyc HQ.
  assert (Hdrop : forall q' w', inv q' (ce :: es) n w' -> inv q' es n w').
  { intros q' w' H. eapply inv_weaken; [exact H|done|]. intros y Hy. by right. }
  unfold enqueueCrossing. apply wp_bind.
  assert (Hresp : wp (response_to r a d) w (fun x w' => w' = w /\ forall p, x = Some p ->
     exists b st, crossingStack w r = b :: st /\ crossing_of (ev (sim w) b) = Some (d, p))).
  { unfold response_to. wp_steps. destruct (crossingStack w r) as [|b st] eqn:Est; [by apply wp_ret|].
    destruct (i_stack _ _ _ _ Hi b) as (Hb & src' & p & Hbc & _); [rewrite Est; left|].
    apply wp_bind, wp_ev_of. rewrite Hbc. apply wp_ret. split; [done|]. intros p'.
    destruct (Z.eqb_spec src' d) as [->|]; [|done]. destruct (_ =? _); [|done]. intros [= <-]. by exists b, st. }
  eapply wp_mono; [exact Hresp|]. intros resp w1 [-> Hr]. apply wp_bind, wp_gets. destruct resp as [p|].
  - destruct (Hr p eq_refl) as (b & st & Est & Hbc). clear Hr.
    destruct (i_stack _ _ _ _ Hi b) as (Hb & src' & p' & Hbc' & Hp1 & Hp2 & Hp3 & Hp4); [rewrite Est; left|].
    assert (src' = d /\ p' = p) as [-> ->] by (split; congruence).
    apply wp_bind, wp_modify. rewrite Est. cbn [tail].
    eapply (add_crossing fuel q (ce :: es) n _ ce p d cyc); [apply inv_stack; [exact Hi|]|..]; cbn [sim]; try done; try (by destruct Hd0).
    + intros y Hy. left. rewrite Est. by right.
    + intros ->. apply Hp2. left.
    + intros s' H1 H2 H3 _. by apply (HQ q); [|apply Hdrop|].
  - clear Hr. apply wp_bind, wp_modify. wp_steps. cbn [lastCrossing sim].
    destruct (lastCrossing w (src, a, d)) as [lastCyc lastEv] eqn:El. wp_steps. cbn [sim].
    set (w1 := mkW (sim w) _ _).
    assert (Hi1 : inv q (ce :: es) (n + 1) w1).
    { apply inv_stack; [done|]. intros y [->|Hy]%elem_of_cons; [right|by left]. split; [done|]. exists a, e. split_and!; try done.
      by apply not_elem_of_cons. }
    assert (Hend : forall q' s', enqueued (ce :: es) ce d cyc (sim w) q s' q' -> inv q' (ce :: es) n (set_sim s' w1) ->
      fixed s' = fixed (sim w) -> wp (set_last (src, a, d) cyc ce) (set_sim s' w1) Q).
    { intros q' s' H1 H2 H3. apply wp_modify. apply (HQ q'); [exact H1| |exact H3]. apply inv_last.
      - by apply Hdrop.
      - cbn. injection H3 as -> _ _ _ _. done.
      - done.
      - cbn. eapply core_open; [by eapply enqueued_core|]. split; [by left|by eapply crossing_not_source].
      - cbn. destruct (core_fields _ _ (enqueued_core _ _ _ _ _ _ _ _ ce H1)) as (_ & _ & _ & -> & _). done. }
    destruct (i_queue _ _ _ _ Hi a Ha0) as (_ & _ & Hcur & _).
    destruct (Z.ltb_spec (curCycle (domains (sim w) a)) lastCyc) as [Hlt|Hge]; cbn [andb].
    + destruct (i_last _ _ _ _ Hi (src, a, d)) as (l & Hl1 & Hl2 & Hl3 & Hl4 & Hl5); [by rewrite El|]. rewrite El in Hl1. cbn in Hl1, Hl5. subst lastEv.
      destruct (lastCyc <=? cyc).
      * apply (add_crossing fuel q (ce :: es) n w1 ce l d cyc); try done; [by destruct Hd0|intros ->; apply Hl3; left|].
        intros s' H1 H2 H3 _. by apply (Hend q).
      * wp_steps; [apply Z.leb_le; lia|]. by apply (queue_crossing q (ce :: es) n w1 ce d cyc).
    + wp_steps; [apply Z.leb_le; lia|]. by apply (queue_crossing q (ce :: es) n w1 ce d cyc).
Qed.

(** An event that a chain may hold. *)
Record chain_event (s : Timing.sim) (e : nat) : Prop := {
  ce_num : (e < numEvents s)%nat;
  ce_state : state (ev s e) = EV_NONE;
  ce_kind : not_source (ev s e);
  ce_dom : 0 <= domain (ev s e) < numDomains s;
  ce_parents : 1 <= numParents (ev s e) < 2 ^ 32
}.
Definition starts (s : Timing.sim) (e : nat) : Prop :=
  0 <= minStartCycle (ev s e) /\ 0 <= postDelay (ev s e) /\
  minStartCycle (ev s e) + postDelay (ev s e) + 1 < lastLimit s + 10 * phaseLength s + 10000.

(** ** Making a crossing *)

Lemma wp_upd_sim e f w (Q : unit -> world -> Prop) :
  Q tt (set_sim (set_ev e (f (ev (sim w) e)) (sim w)) w) -> wp (on_sim (upd e f)) w Q.
Proof. intros H. apply wp_in_sim. by apply wp_modify. Qed.

Lemma wp_alloc_sim x w (Q : nat -> world -> Prop) :
  Q (numEvents (sim w)) (set_sim (alloc_sim x (sim w)) w) -> wp (on_sim (alloc x)) w Q.
Proof. intros H. by apply wp_in_sim. Qed.

Lemma set_parents_back x : 1 <= numParents x < 2 ^ 32 -> set_numParents (u32 (numParents x - 1) + 1) (set_numParents (u32 (numParents x - 1)) x) = x.
Proof. intros H. rewrite u32_id by (unfold in_u32; lia). replace (numParents x - 1 + 1) with (numParents x) by lia. by destruct x. Qed.

(** The first slack of a crossing from [x], and the cycle it starts at. *)
Definition slack (x : TimingEvent) : Z * Z :=
  if postDelay x =? 0 then (1, minStartCycle x + postDelay x + 1) else (postDelay x, minStartCycle x + postDelay x).

(** The crossing event from [a], which is [x], to [b], which is [y], as made. *)
Definition new_crossing (a b : nat) (x y : TimingEvent) (gap : Z) : TimingEvent :=
  let '(preSlack, ms) := slack x in
  set_links (Child (Some b)) 1 (set_minStartCycle ms
    (newEvent (CrossingEvent (domain x) false 0 r (u64 (ms - gap)) (Z.of_nat a) preSlack (preDelay y)) 0 0 (domain y))).
Definition new_source (ce : nat) (d : Z) : TimingEvent := set_numParents 1 (newEvent (CrossingSrcEvent ce) 0 0 d).

(** The world after the allocations, before the crossing is queued: [f] are its events. *)
Definition with_events (f : nat -> TimingEvent) (w : world) : world :=
  let s := sim w in
  set_sim (mkSim f (Datatypes.S (Datatypes.S (numEvents s))) (recorders s) (domains s) (numDomains s) (limit s)
             (lastLimit s) (inCSim s) (phaseLength s)) w.
Definition allocated (a b : nat) (w : world) (f : nat -> TimingEvent) : Prop :=
  let s := sim w in
  let ce := numEvents s in
  f ce = new_crossing a b (ev s a) (ev s b) (lastGapCycles (recorders s r)) /\
  f (Datatypes.S ce) = new_source ce (domain (ev s a)) /\
  forall y, y <> ce -> y <> Datatypes.S ce -> f y = ev s y.

Lemma new_crossing_links a b x y gap k n : (b < k)%nat -> 1 + n < 2 ^ 32 -> fits k n (new_crossing a b x y gap).
Proof.
  intros Hb Hn. unfold new_crossing. destruct (slack x) as [? ?]. split_and!; cbn; try lia; [by apply (one_child _ b)|].
  intros c Hc. unfold visited in Hc. cbn in Hc. apply list_elem_of_singleton in Hc as ->. done.
Qed.

Lemma inv_allocated q es n w a b f : inv q es n w -> 0 <= n -> 1 + n < 2 ^ 32 -> (b < numEvents (sim w))%nat -> allocated a b w f ->
  inv q (numEvents (sim w) :: es) n (with_events f w).
Proof.
  intros [I1 I2 I3 I4 I5 I6] H0 Hn Hb (F1 & F2 & F3). split; try done; cbn.
  - intros e He. destruct (decide (e = numEvents (sim w))) as [->|Hne].
    + rewrite F1. apply new_crossing_links; lia.
    + destruct (decide (e = Datatypes.S (numEvents (sim w)))) as [->|Hne'].
      * rewrite F2. split_and!; cbn; try lia; [by apply no_child|]. intros c Hc. by apply elem_of_nil in Hc.
      * rewrite F3 by done. eapply fits_more; [apply I3; lia|lia].
  - intros k Hk. destruct (I5 k Hk) as (l & A & B & C & D & E). exists l. rewrite F3 by lia. split_and!; try done; [lia|].
    apply not_elem_of_cons. split; [lia|done].
  - intros c Hc. destruct (I6 c Hc) as (A & src & p & B & C & D & E & F). split; [lia|]. exists src, p. rewrite !F3 by lia.
    split_and!; try done; [lia|]. apply not_elem_of_cons. split; [lia|done].
Qed.

Ltac look := repeat first [rewrite fn_lookup_insert | rewrite fn_lookup_insert_ne by lia].

Lemma handleCrossing_ok fuel q es n w a b (Q : nat -> world -> Prop) :
  inv q (b :: es) (n + 1) w -> 0 <= n -> n + 2 < 2 ^ 32 ->
  (a < numEvents (sim w))%nat -> a <> b -> 0 <= domain (ev (sim w) a) < numDomains (sim w) -> starts (sim w) a ->
  chain_event (sim w) b -> domain (ev (sim w) a) <> domain (ev (sim w) b) ->
  (forall f src, allocated a b w f -> inv q (numEvents (sim w) :: b :: es) (n + 1) (with_events f w) ->
    let cyc := Z.max (lastLimit (sim w)) (minStartCycle (f (numEvents (sim w)))) in
    wp (enqueueCrossing fuel r (numEvents (sim w)) cyc src (domain (ev (sim w) a)) (domain (ev (sim w) b))) (with_events f w)
      (fun _ w' => Q (Datatypes.S (numEvents (sim w))) w')) ->
  wp (handleCrossing fuel r a b true) w Q.
Proof.
  intros Hi Hn Hn2 Ha Hab Hda (M1 & M2 & M3) [Hb1 Hb2 Hb3 Hb4] Hd HQ. destruct (i_clock _ _ _ _ Hi) as (C1 & C2 & C3).
  unfold handleCrossing.
  apply wp_bind, wp_bind, wp_ev_of. wp_steps; [apply negb_true_iff, Z.eqb_neq; lia|]. apply wp_upd_sim.
  apply wp_bind, wp_ev_of. cbn [sim set_sim ev set_ev]. rewrite fn_lookup_insert_ne by done. wp_steps; [apply negb_true_iff, Z.eqb_neq; lia|].
  unfold newCrossing. apply wp_bind, wp_ev_of, wp_bind, wp_ev_of. cbn [sim set_sim ev set_ev].
  rewrite fn_lookup_insert_ne, fn_lookup_insert by done. cbn [domain set_numParents preDelay].
  wp_steps; [by apply negb_true_iff, Z.eqb_neq|]. cbn [sim set_sim recorders set_ev].
  rewrite (u64_id (minStartCycle _ + _)), (u64_id (minStartCycle _ + _ + 1)) by (unfold in_u64; lia).
  change (if postDelay (ev (sim w) a) =? 0 then _ else _) with (slack (ev (sim w) a)).
  assert (Hnew : new_crossing a b (ev (sim w) a) (ev (sim w) b) (lastGapCycles (recorders (sim w) r)) =
    new_crossing a b (ev (sim w) a) (ev (sim w) b) (lastGapCycles (recorders (sim w) r))) by done. unfold new_crossing in Hnew at 1.
  destruct (slack (ev (sim w) a)) as [preSlack ms] eqn:Esl.
  apply wp_bind, wp_alloc_sim, wp_bind, wp_alloc_sim. apply wp_bind, wp_add.
  all: cbn [sim set_sim ev alloc_sim set_ev numEvents]; look; cbn [numParents set_numParents state domain set_minStartCycle newEvent].
  - lia.
  - by split; [left|].
  - done.
  - lia.
  - rewrite u32_id by (unfold in_u32; lia). lia.
  - rewrite set_parents_back by done. wp_steps. unfold set_ev, alloc_sim. cbn [sim set_sim ev numEvents recorders domains numDomains limit lastLimit inCSim phaseLength crossingStack Crossing.lastCrossing].
    lazymatch goal with |- context [mkSim ?g _ _ _ _ _ _ _ _] => set (f := g) end.
    assert (Hf : allocated a b w f).
    { unfold f. split_and!; look; try done. intros y H1 H2.
      destruct (decide (y = b)) as [->|]; [by look|]. by rewrite !fn_lookup_insert_ne by done. }
    specialize (HQ f (srcId (recorders (sim w) r)) Hf (inv_allocated q (b :: es) (n + 1) w a b f Hi ltac:(lia) ltac:(lia) Hb1 Hf)).
    cbn zeta in HQ. rewrite (proj1 Hf) in HQ. unfold new_crossing in HQ at 1. rewrite Esl in HQ. cbn [minStartCycle set_links set_minStartCycle] in HQ.
    eapply wp_mono; [exact HQ|]. intros [] w' H. by apply wp_ret.
Qed.

(** What visiting a link from [a] to [b] across domains does, [es] being the events after [b]. *)
Record stepped (a b : nat) (es : list nat) (s : Timing.sim) (q : Z -> list (Z * nat)) (s2 : Timing.sim) (q2 : Z -> list (Z * nat)) : Prop := {
  sp_fixed : (numEvents s2, numDomains s2, lastLimit s2, phaseLength s2) =
    (Datatypes.S (Datatypes.S (numEvents s)), numDomains s, lastLimit s, phaseLength s);
  sp_a : ev s2 a = set_links (Child (Some (Datatypes.S (numEvents s)))) 1 (ev s a);
  sp_cpe : ev s2 (Datatypes.S (numEvents s)) = new_source (numEvents s) (domain (ev s a));
  sp_ce : visited (ev s2 (numEvents s)) = [b] /\
    core (ev s2 (numEvents s)) = core (new_crossing a b (ev s a) (ev s b) (lastGapCycles (recorders s r)));
  sp_other y : (y < numEvents s)%nat -> y <> a -> ev s2 y = ev s y \/
    (y ∉ b :: es /\ open (ev s y) /\ domain (ev s y) = domain (ev s b) /\ ev s2 y = link (numEvents s) (ev s y));
  sp_wait : (numParents (ev s2 (numEvents s)) = 0 /\ exists c, minStartCycle (ev s a) + postDelay (ev s a) <= c /\
      q2 = <[domain (ev s b) := (c, numEvents s) :: q (domain (ev s b))]> q) \/
    (numParents (ev s2 (numEvents s)) = 1 /\ q2 = q /\ exists p, (p < numEvents s)%nat /\ p <> a /\
      p ∉ b :: es /\ domain (ev s p) = domain (ev s b) /\ ev s2 p = link (numEvents s) (ev s p))
}.

Lemma slack_start x : (slack x).2 = minStartCycle x + postDelay x \/ (slack x).2 = minStartCycle x + postDelay x + 1.
Proof. unfold slack. destruct (_ =? 0); auto. Qed.

Lemma stepped_enqueued a b es w f cyc q w2 q2 : a <> b -> a ∉ es -> (a < numEvents (sim w))%nat -> (b < numEvents (sim w))%nat ->
  domain (ev (sim w) a) <> domain (ev (sim w) b) -> allocated a b w f ->
  minStartCycle (ev (sim w) a) + postDelay (ev (sim w) a) <= cyc ->
  ev (sim w2) a = ev (sim w) a ->
  (numEvents (sim w2), numDomains (sim w2), lastLimit (sim w2), phaseLength (sim w2)) =
    (Datatypes.S (Datatypes.S (numEvents (sim w))), numDomains (sim w), lastLimit (sim w), phaseLength (sim w)) ->
  enqueued (numEvents (sim w) :: b :: es) (numEvents (sim w)) (domain (ev (sim w) b)) cyc (sim (with_events f w)) q (sim w2) q2 ->
  stepped a b es (sim w) q (set_ev a (set_links (Child (Some (Datatypes.S (numEvents (sim w))))) 1 (ev (sim w) a)) (sim w2)) q2.
Proof.
  intros Hab Haes Ha Hb Hd (F1 & F2 & F3) Hcyc Ga Hfix Henq.
  assert (Hv : visited (f (numEvents (sim w))) = [b] /\ numParents (f (numEvents (sim w))) = 0).
  { rewrite F1. unfold new_crossing. by destruct (slack _). }
  destruct Hv as [Hv Hnp].
  destruct Henq as [E|p Hp Hpc Hpe Hpo Hpd E]; cbn [sim with_events set_sim ev numEvents] in *.
  - split; cbn [set_ev ev numEvents numDomains lastLimit phaseLength]; rewrite ?E; look; try done.
    + split; [exact Hv|by rewrite <- F1].
    + intros y Hy Hya. rewrite fn_lookup_insert_ne by done. rewrite fn_lookup_insert_ne by lia. left. apply F3; lia.
    + left. split; [done|]. by exists cyc.
  - assert (Hpa : p <> a) by (intros ->; rewrite F3 in Hpd by lia; done).
    assert (Hpn : p <> Datatypes.S (numEvents (sim w))) by (intros ->; rewrite F2 in Hpd; done).
    pose proof (F3 p Hpc Hpn) as Fp. rewrite Fp in Hpd, E, Hpo. split; cbn [set_ev ev numEvents numDomains lastLimit phaseLength]; rewrite ?E; look; try done.
    + split; [exact Hv|by rewrite <- F1].
    + intros y Hy Hya. rewrite fn_lookup_insert_ne by done. rewrite fn_lookup_insert_ne by lia.
      destruct (decide (y = p)) as [->|Hyp]; [|left; rewrite fn_lookup_insert_ne by done; apply F3; lia].
      right. rewrite fn_lookup_insert. split_and!; try done. intros Hin. apply Hpe. by right.
    + right. split_and!; try done. exists p. rewrite fn_lookup_insert_ne by done. look. split_and!; try done; [lia|]. intros Hin. apply Hpe. by right.
Qed.

Lemma cross_step fuel q a b es n w (Q : unit -> world -> Prop) :
  inv q (b :: es) (n + 1) w -> 0 <= n -> n + 2 < 2 ^ 32 -> NoDup (a :: b :: es) ->
  (a < numEvents (sim w))%nat -> open (ev (sim w) a) -> 0 <= domain (ev (sim w) a) < numDomains (sim w) -> starts (sim w) a ->
  childLinks (ev (sim w) a) = Child (Some b) -> numChildren (ev (sim w) a) = 1 ->
  chain_event (sim w) b -> Forall (fun y => (y < numEvents (sim w))%nat) es -> domain (ev (sim w) a) <> domain (ev (sim w) b) ->
  (forall q2 w2, stepped a b es (sim w) q (sim w2) q2 -> inv q2 (b :: es) n w2 -> Q tt w2) ->
  wp (cpe ← handleCrossing fuel r a b true; on_sim (upd a (set_slot Single cpe))) w Q.
Proof.
  intros Hi Hn Hn2 Hnd Ha Hop Hda Hst Hl1 Hl2 Hb Hes Hd HQ.
  apply NoDup_cons in Hnd as [Hab Hnd]. apply not_elem_of_cons in Hab as [Hab Haes].
  apply wp_bind. apply (handleCrossing_ok fuel q es n w a b); try done. intros f src (F1 & F2 & F3) Hi1. cbn zeta.
  assert (Hms : minStartCycle (f (numEvents (sim w))) = (slack (ev (sim w) a)).2).
  { rewrite F1. unfold new_crossing. by destruct (slack (ev (sim w) a)). }
  pose proof (slack_start (ev (sim w) a)) as Hsl. destruct Hst as (M1 & M2 & M3).
  assert (Fa : f a = ev (sim w) a) by (apply F3; lia).
  apply (enqueueCrossing_ok fuel q (b :: es) n (with_events f w) _ _ src _ _ a); cbn [sim with_events set_sim ev numEvents numDomains lastLimit phaseLength]; try done.
  - intros Hin. apply elem_of_cons in Hin as [Hin|Hin]; [destruct Hb; lia|]. rewrite Forall_forall in Hes. specialize (Hes _ Hin). lia.
  - lia.
  - rewrite F1. unfold new_crossing. by destruct (slack _).
  - rewrite F1. unfold new_crossing. by destruct (slack _).
  - rewrite F1. unfold new_crossing. by destruct (slack _).
  - by destruct Hb.
  - rewrite F1. unfold new_crossing, crossing_of. destruct (slack _). cbn. by rewrite Nat2Z.id.
  - lia.
  - by apply not_elem_of_cons.
  - lia.
  - by rewrite Fa.
  - by rewrite Fa.
  - destruct (i_clock _ _ _ _ Hi) as (C1 & C2 & C3). rewrite Hms. lia.
  - intros q2 w2 Henq Hi2 Hfix. injection Hfix as E1 E2 E3 E4 E5.
    assert (Ga : ev (sim w2) a = ev (sim w) a).
    { destruct Henq as [E|p Hp Hpc Hpe Hpo Hpd E]; rewrite E; cbn [ev].
      - rewrite fn_lookup_insert_ne by lia. done.
      - cbn [ev] in Hpd. rewrite !fn_lookup_insert_ne; [done| |lia]. intros <-. rewrite Fa in Hpd. done. }
    apply wp_upd_sim. rewrite Ga. unfold set_slot. rewrite Hl1, Hl2. apply (HQ q2).
    + apply (stepped_enqueued a b es w f (Z.max (lastLimit (sim w)) (minStartCycle (f (numEvents (sim w)))))); try done.
      * by destruct Hb.
      * rewrite Hms. lia.
      * by rewrite E1, E2, E3, E4.
    + apply inv_event; [done|by rewrite Ga|]. split_and!; cbn; try lia; [by apply (one_child _ (Datatypes.S (numEvents (sim w))))|].
      intros c Hc. unfold visited in Hc. cbn in Hc. apply list_elem_of_singleton in Hc as ->. lia.
Qed.

(** ** Chains *)

(** Each event has the next one as its only child. *)
Fixpoint chain (s : Timing.sim) (e : nat) (es : list nat) : Prop :=
  match es with
  | [] => numChildren (ev s e) = 0
  | b :: es => numChildren (ev s e) = 1 /\ childLinks (ev s e) = Child (Some b) /\ starts s e /\ chain_event s b /\ chain s b es
  end.

(** How event [a] was linked to its child [b] across domains.  The crossing [ce] is queued, or
    the child of an event that is not one of [es]. *)
Record crossed (es : list nat) (s : Timing.sim) (q : Z -> list (Z * nat)) (a b : nat) (ce cpe : nat) : Prop := {
  x_num : (ce < numEvents s)%nat /\ (cpe < numEvents s)%nat;
  x_src : cpe ∈ visited (ev s a) /\ ekind (ev s cpe) = CrossingSrcEvent ce /\ numParents (ev s cpe) = 1 /\ visited (ev s cpe) = [] /\
    domain (ev s cpe) = domain (ev s a);
  x_event : crossing_of (ev s ce) = Some (domain (ev s a), a) /\ state (ev s ce) = EV_NONE /\ domain (ev s ce) = domain (ev s b) /\ b ∈ visited (ev s ce);
  x_waits : (exists c, (c, ce) ∈ q (domain (ev s b)) /\ minStartCycle (ev s a) + postDelay (ev s a) <= c /\ numParents (ev s ce) = 0) \/
    (exists p, (p < numEvents s)%nat /\ p ∉ es /\ ce ∈ visited (ev s p) /\ domain (ev s p) = domain (ev s ce) /\ numParents (ev s ce) = 1)
}.
Definition linked (s : Timing.sim) (q : Z -> list (Z * nat)) (a b : nat) : Prop :=
  if decide (domain (ev s a) = domain (ev s b)) then b ∈ visited (ev s a) else exists ce cpe, crossed [] s q a b ce cpe.

Fixpoint all_linked (s : Timing.sim) (q : Z -> list (Z * nat)) (e : nat) (es : list nat) : Prop :=
  match es with [] => True | b :: es => linked s q e b /\ all_linked s q b es end.

(** No link of the event leaves its domain. *)
Definition local (s : Timing.sim) (e : nat) : Prop := forall c, c ∈ visited (ev s e) -> domain (ev s c) = domain (ev s e).

(** What happens to the events that are not of the chain: they get at most new children of
    their domain. *)
Record grown (es : list nat) (s : Timing.sim) (q : Z -> list (Z * nat)) (s' : Timing.sim) (q' : Z -> list (Z * nat)) : Prop := {
  g_num : (numEvents s <= numEvents s')%nat;
  g_core e : (e < numEvents s)%nat -> core (ev s' e) = core (ev s e) /\ numParents (ev s' e) = numParents (ev s e);
  g_old e c : (e < numEvents s)%nat -> e ∉ es -> c ∈ visited (ev s e) -> c ∈ visited (ev s' e);
  g_new e c : (e < numEvents s)%nat -> e ∉ es -> c ∈ visited (ev s' e) ->
    c ∈ visited (ev s e) \/ ((numEvents s <= c < numEvents s')%nat /\ domain (ev s' c) = domain (ev s e));
  g_source e : (e < numEvents s)%nat -> ~ not_source (ev s e) -> visited (ev s' e) = visited (ev s e);
  g_queue d x : x ∈ q d -> x ∈ q' d;
  g_env : (numDomains s', lastLimit s', phaseLength s') = (numDomains s, lastLimit s, phaseLength s)
}.

Lemma grown_refl es s q : grown es s q s q.
Proof. split; auto. Qed.

Lemma grown_domain es s q s' q' e : grown es s q s' q' -> (e < numEvents s)%nat -> domain (ev s' e) = domain (ev s e).
Proof. intros G He. destruct (g_core _ _ _ _ _ G e He) as [(_ & _ & _ & E & _)%core_fields _]. done. Qed.

Lemma grown_trans es es' s q s1 q1 s2 q2 : grown es s q s1 q1 -> grown es' s1 q1 s2 q2 -> grown (es ++ es') s q s2 q2.
Proof.
  intros A B. pose proof (g_num _ _ _ _ _ A). pose proof (g_num _ _ _ _ _ B). split.
  - lia.
  - intros e He. destruct (g_core _ _ _ _ _ A e He) as [<- <-]. apply (g_core _ _ _ _ _ B). lia.
  - intros e c He Hes Hc. apply not_elem_of_app in Hes as [H1 H2]. apply (g_old _ _ _ _ _ B); [lia|done|]. by apply (g_old _ _ _ _ _ A).
  - intros e c He Hes Hc. apply not_elem_of_app in Hes as [H1 H2].
    destruct (g_new _ _ _ _ _ B e c ltac:(lia) H2 Hc) as [Hc'|[Hc' Hd]].
    + destruct (g_new _ _ _ _ _ A e c He H1 Hc') as [Hc2|[Hc2 Hd]]; [by left|right]. split; [lia|].
      rewrite (grown_domain _ _ _ _ _ _ B) by lia. done.
    + right. split; [lia|]. by rewrite Hd, (grown_domain _ _ _ _ _ _ A).
  - intros e He Hk. rewrite (g_source _ _ _ _ _ B), (g_source _ _ _ _ _ A); try done; [lia|].
    intros H'. apply Hk. destruct (g_core _ _ _ _ _ A e He) as [(E & _)%core_fields _]. intros ce. rewrite <- E. apply H'.
  - intros d x Hx. by apply (g_queue _ _ _ _ _ B), (g_queue _ _ _ _ _ A).
  - by rewrite (g_env _ _ _ _ _ B), (g_env _ _ _ _ _ A).
Qed.

Lemma grown_more es es' s q s' q' : grown es s q s' q' -> (forall e, e ∈ es -> e ∈ es') -> grown es' s q s' q'.
Proof. intros [A B C D E F] H. split; auto. Qed.

Lemma local_grown es s q s' q' e : grown es s q s' q' -> (e < numEvents s)%nat -> e ∉ es ->
  (forall c, c ∈ visited (ev s e) -> (c < numEvents s)%nat) -> local s e -> local s' e.
Proof.
  intros G He Hes Hk Hl c Hc. rewrite (grown_domain _ _ _ _ _ e G He).
  destruct (g_new _ _ _ _ _ G e c He Hes Hc) as [Hc'|[_ Hd]]; [|done].
  rewrite (grown_domain _ _ _ _ _ c G) by auto. by apply Hl.
Qed.

Lemma chain_mono s s' b es : chain s b es -> (forall y, y ∈ b :: es -> ev s' y = ev s y) -> (numEvents s <= numEvents s')%nat ->
  (numDomains s', lastLimit s', phaseLength s') = (numDomains s, lastLimit s, phaseLength s) -> chain s' b es.
Proof.
  intros H He Hn [= E1 E2 E3]. revert b H He. induction es as [|c es IH]; intros b H He; cbn in *.
  - rewrite He by left. done.
  - destruct H as (H1 & H2 & H3 & [D1 D2 D3 D4] & H5). unfold starts in *. rewrite !(He b) by left. rewrite E2, E3. split_and!; try apply H3; try done.
    + assert (Hc : ev s' c = ev s c) by (apply He; right; left). split; rewrite ?Hc, ?E1; try done. lia.
    + apply IH; [done|]. intros y Hy. apply He. by right.
Qed.

Lemma chain_nums s a es : chain s a es -> Forall (fun y => (y < numEvents s)%nat) es.
Proof. revert a. induction es as [|b es IH]; intros a H; [done|]. cbn in H. destruct H as (_ & _ & _ & Hb & H). constructor; [apply Hb|by eapply IH]. Qed.

(** ** A chain *)

Lemma single_child x c : childLinks x = Child (Some c) -> numChildren x = 1 -> visited x = [c].
Proof. intros E1 E2. unfold visited. by rewrite E1, E2. Qed.

Section step.
Context (a b : nat) (es : list nat) (s : Timing.sim) (q : Z -> list (Z * nat)) (s2 : Timing.sim) (q2 : Z -> list (Z * nat)) (n : Z).
Hypothesis (Hs : stepped a b es s q s2 q2).
Hypothesis (Hf : forall e, (e < numEvents s)%nat -> fits (numEvents s) (n + 1) (ev s e)) (Hn : 0 <= n).
Hypothesis (Ha : (a < numEvents s)%nat) (Hb : (b < numEvents s)%nat) (Hab : a <> b) (Hao : not_source (ev s a)) (Hd : domain (ev s a) <> domain (ev s b)).

Lemma step_num : numEvents s2 = Datatypes.S (Datatypes.S (numEvents s)).
Proof. pose proof (sp_fixed _ _ _ _ _ _ _ Hs) as [= E _ _ _]. done. Qed.

Lemma step_more x : (x < numEvents s)%nat -> fits (Datatypes.S (numEvents s)) (n + 1) (ev s x).
Proof. intros Hx. eapply fits_more; [by apply Hf|lia]. Qed.

Lemma step_ce_domain : domain (ev s2 (numEvents s)) = domain (ev s b).
Proof.
  destruct (sp_ce _ _ _ _ _ _ _ Hs) as [_ (_ & _ & _ & -> & _)%core_fields]. unfold new_crossing. by destruct (slack _).
Qed.

Lemma step_core e : (e < numEvents s)%nat -> core (ev s2 e) = core (ev s e) /\ numParents (ev s2 e) = numParents (ev s e).
Proof.
  intros He. destruct (decide (e = a)) as [->|Hne]; [by rewrite (sp_a _ _ _ _ _ _ _ Hs)|].
  destruct (sp_other _ _ _ _ _ _ _ Hs e He Hne) as [->|(_ & _ & _ & ->)]; [done|].
  split; [apply core_link|]. by destruct (link_fields (numEvents s) (ev s e)) as (_ & _ & _ & _ & E & _).
Qed.

Lemma step_grown : grown [a] s q s2 q2.
Proof.
  split.
  - rewrite step_num. lia.
  - apply step_core.
  - intros e c He Hea Hc. destruct (sp_other _ _ _ _ _ _ _ Hs e He) as [->|(_ & _ & _ & ->)]; [by intros ->; apply Hea; left|done|].
    destruct (fits_link _ n (numEvents s) _ (step_more e He) Hn ltac:(lia)) as [_ ->]. by right.
  - intros e c He Hea Hc. destruct (sp_other _ _ _ _ _ _ _ Hs e He) as [E|(_ & _ & Ed & E)]; [by intros ->; apply Hea; left|rewrite E in Hc; by left|].
    rewrite E in Hc. destruct (fits_link _ n (numEvents s) _ (step_more e He) Hn ltac:(lia)) as [_ Hv]. rewrite Hv in Hc.
    apply elem_of_cons in Hc as [->|Hc]; [right|by left]. rewrite step_num, step_ce_domain. split; [lia|done].
  - intros e He Hk. destruct (decide (e = a)) as [->|Hne]; [by destruct (Hk Hao)|].
    destruct (sp_other _ _ _ _ _ _ _ Hs e He Hne) as [->|(_ & [_ Ho] & _)]; done.
  - intros d x Hx. destruct (sp_wait _ _ _ _ _ _ _ Hs) as [(_ & c & _ & ->)|(_ & -> & _)]; [|done].
    destruct (decide (d = domain (ev s b))) as [->|Hne]; [rewrite fn_lookup_insert; by right|by rewrite fn_lookup_insert_ne].
  - pose proof (sp_fixed _ _ _ _ _ _ _ Hs) as [= _ E2 E3 E4]. by rewrite E2, E3, E4.
Qed.

Lemma step_crossed : crossed (b :: es) s2 q2 a b (numEvents s) (Datatypes.S (numEvents s)).
Proof.
  pose proof (grown_domain _ _ _ _ _ a step_grown Ha) as Ea. pose proof (grown_domain _ _ _ _ _ b step_grown Hb) as Eb.
  split.
  - rewrite step_num. lia.
  - rewrite (sp_a _ _ _ _ _ _ _ Hs), (sp_cpe _ _ _ _ _ _ _ Hs). split_and!; try done. unfold visited. cbn. by left.
  - rewrite step_ce_domain, Ea, Eb. destruct (sp_ce _ _ _ _ _ _ _ Hs) as [Hv Hc]. rewrite Hv. pose proof (core_crossing _ _ Hc) as ->.
    destruct (core_fields _ _ Hc) as (_ & -> & _). unfold new_crossing, crossing_of. destruct (slack _) as [? ?]. cbn. rewrite Nat2Z.id.
    split_and!; try done. by left.
  - rewrite Eb. assert (Hm : minStartCycle (ev s2 a) + postDelay (ev s2 a) = minStartCycle (ev s a) + postDelay (ev s a)) by by rewrite (sp_a _ _ _ _ _ _ _ Hs).
    rewrite Hm. destruct (sp_wait _ _ _ _ _ _ _ Hs) as [(Hp & c & Hc & ->)|(Hp & _ & p & P1 & P2 & P3 & P4 & P6)].
    + left. exists c. rewrite fn_lookup_insert. split; [by left|done].
    + right. exists p. rewrite step_num, step_ce_domain. rewrite (grown_domain _ _ _ _ _ p step_grown P1).
      split_and!; try done; [lia|]. rewrite P6. destruct (fits_link _ n (numEvents s) _ (step_more p P1) Hn ltac:(lia)) as [_ ->]. by left.
Qed.

Lemma step_local e : e = a \/ (numEvents s <= e < numEvents s2)%nat -> local s2 e.
Proof.
  rewrite step_num. intros [->|He] c; [|destruct (decide (e = numEvents s)) as [->|Hne]].
  - rewrite (sp_a _ _ _ _ _ _ _ Hs). intros Hc. unfold visited in Hc. cbn in Hc. apply list_elem_of_singleton in Hc as ->.
    by rewrite (sp_cpe _ _ _ _ _ _ _ Hs).
  - destruct (sp_ce _ _ _ _ _ _ _ Hs) as [-> _]. intros ->%list_elem_of_singleton.
    rewrite step_ce_domain. apply (grown_domain _ _ _ _ _ b step_grown Hb).
  - assert (e = Datatypes.S (numEvents s)) as -> by lia. rewrite (sp_cpe _ _ _ _ _ _ _ Hs). intros Hc. by apply elem_of_nil in Hc.
Qed.
End step.

Lemma crossed_grown es s q s' q' a b ce cpe : crossed es s q a b ce cpe -> grown es s q s' q' ->
  (a < numEvents s)%nat -> (b < numEvents s)%nat -> a ∉ es -> ce ∉ es -> cpe ∉ es -> crossed [] s' q' a b ce cpe.
Proof.
  intros [[N1 N2] (S1 & S2 & S3 & S4 & S5) (E1 & E2 & E3 & E4) W] G Ha Hb Hae Hce Hcpe.
  pose proof (grown_domain _ _ _ _ _ a G Ha) as Da. pose proof (grown_domain _ _ _ _ _ b G Hb) as Db.
  pose proof (grown_domain _ _ _ _ _ ce G N1) as Dce. pose proof (grown_domain _ _ _ _ _ cpe G N2) as Dcpe.
  destruct (g_core _ _ _ _ _ G ce N1) as [Cce Pce], (g_core _ _ _ _ _ G cpe N2) as [Ccpe Pcpe], (g_core _ _ _ _ _ G a Ha) as [Ca _].
  pose proof (g_num _ _ _ _ _ G). split.
  - lia.
  - rewrite Pcpe, Dcpe, Da. destruct (core_fields _ _ Ccpe) as (-> & _). split_and!; try done; [by apply (g_old _ _ _ _ _ G)|].
    rewrite (g_source _ _ _ _ _ G); try done. intros Hs. by apply (Hs ce).
  - rewrite Da, Dce, Db, (core_crossing _ _ Cce). destruct (core_fields _ _ Cce) as (_ & -> & _). split_and!; try done. by apply (g_old _ _ _ _ _ G).
  - rewrite Pce, Dce, Db. destruct (core_fields _ _ Ca) as (_ & _ & -> & _ & _ & ->). destruct W as [(c & W1 & W2 & W3)|(p & W1 & W2 & W3 & W4 & W5)].
    + left. exists c. split; [by apply (g_queue _ _ _ _ _ G)|done].
    + right. exists p. rewrite (grown_domain _ _ _ _ _ p G W1). split_and!; try done; [lia|by apply not_elem_of_nil|by apply (g_old _ _ _ _ _ G)].
Qed.

(** What [produceCrossings] makes of the chain [a :: es]. *)
Record produced (a : nat) (es : list nat) (s : Timing.sim) (q : Z -> list (Z * nat)) (s' : Timing.sim) (q' : Z -> list (Z * nat)) : Prop := {
  pr_grown : grown (a :: es) s q s' q';
  pr_linked : all_linked s' q' a es;
  pr_local e : e ∈ a :: es \/ (numEvents s <= e < numEvents s')%nat -> local s' e
}.

Lemma produce_chain es : forall fuel q a n w, (length es < fuel)%nat ->
  inv q (a :: es) (Z.of_nat (length es) + n) w -> 0 <= n -> Z.of_nat (length es) + n + 2 < 2 ^ 32 -> NoDup (a :: es) ->
  (a < numEvents (sim w))%nat -> open (ev (sim w) a) -> 0 <= domain (ev (sim w) a) < numDomains (sim w) -> chain (sim w) a es ->
  wp (produceCrossings fuel r a) w (fun _ w' => exists q', produced a es (sim w) q (sim w') q' /\ inv q' [] n w').
Proof.
  induction es as [|b es IH]; intros [|fuel] q a n w Hfuel Hi Hn Hn2 Hnd Ha Hop Hda Hch; try (cbn in Hfuel; lia);
    cbn [produceCrossings]; apply wp_bind, wp_ev_of; (apply wp_bind, wp_require; [apply negb_true_iff, Z.eqb_neq; lia|]);
    unfold visitChildren; apply wp_bind, wp_ev_of.
  - cbn in Hch. rewrite Hch. apply wp_ret. exists q. split; [|eapply inv_weaken; [exact Hi|cbn; lia|by intros e He%elem_of_nil]].
    split; [apply grown_refl|done|]. intros e [->%list_elem_of_singleton|He]; [|lia].
    intros c Hc. unfold visited in Hc. rewrite Hch in Hc. by apply elem_of_nil in Hc.
  - cbn in Hch. destruct Hch as (C1 & C2 & C3 & Cb & Hch). rewrite C1. cbn [Z.eqb Pos.eqb]. unfold get_slot. rewrite C2.
    cbn [length] in Hi, Hn2. rewrite Nat2Z.inj_succ in Hi, Hn2. pose proof (chain_nums _ _ _ Hch) as Hnums. pose proof Hnd as [Hab Hnd']%NoDup_cons.
    assert (Hab' : a <> b) by (intros ->; apply Hab; left). assert (Hkid : visited (ev (sim w) a) = [b]) by by apply single_child.
    assert (Hib : inv q (b :: es) (Z.of_nat (length es) + n + 1) w) by (eapply inv_weaken; [exact Hi|lia|by intros e He; right]).
    pose proof Cb as [Cb1 Cb2 Cb3 Cb4 Cb5].
    unfold visit_slot. apply wp_bind, wp_ev_of, wp_bind, wp_ev_of, wp_bind.
    destruct (Z.eqb_spec (domain (ev (sim w) b)) (domain (ev (sim w) a))) as [Hd|Hd].
    + apply wp_ret. eapply wp_mono; [apply (IH fuel q b n w); try done; [cbn in Hfuel; lia|by eapply inv_weaken; [exact Hib|lia|]|lia|by split; [left|]]|].
      intros [] w' (q' & [G L P] & Hi'). exists q'. split; [|done]. split.
      * eapply grown_more; [exact G|]. intros e He. by right.
      * cbn. split; [|done]. unfold linked. rewrite !(grown_domain _ _ _ _ _ _ G) by done. rewrite decide_True by done.
        apply (g_old _ _ _ _ _ G); [done|done|]. rewrite Hkid. by left.
      * intros e [[->|He]%elem_of_cons|He]; [|apply P; by left|apply P; by right].
        eapply local_grown; [exact G|done|done| |]; unfold local; rewrite Hkid; by intros c ->%list_elem_of_singleton.
    + apply (cross_step (Datatypes.S fuel) q a b es (Z.of_nat (length es) + n) w); try done; [lia|lia|].
      intros q2 w2 Hs Hi2.
      assert (Hf : forall e, (e < numEvents (sim w))%nat -> fits (numEvents (sim w)) (Z.of_nat (length es) + n + 1) (ev (sim w) e)) by (intros e; apply Hib).
      pose proof (step_grown a b es _ q _ q2 _ Hs Hf ltac:(lia) Ha Cb1 Hab' (proj2 Hop)) as G1.
      pose proof (step_num _ _ _ _ _ _ _ Hs) as Hnum.
      assert (Hsame : forall y, y ∈ b :: es -> ev (sim w2) y = ev (sim w) y).
      { intros y Hy. destruct (sp_other _ _ _ _ _ _ _ Hs y) as [->|(Hy' & _)]; try done; [|by intros ->].
        apply elem_of_cons in Hy as [->|Hy]; [done|]. rewrite Forall_forall in Hnums. by apply Hnums. }
      pose proof (g_env _ _ _ _ _ G1) as Henv.
      assert (Hch2 : chain (sim w2) b es) by (eapply chain_mono; [exact Hch|done|lia|done]).
      eapply wp_mono; [apply (IH fuel q2 b n w2); try done; [cbn in Hfuel; lia|lia|lia|..]|].
      * rewrite Hsame by left. by split; [left|].
      * rewrite Hsame by left. by injection Henv as -> _ _.
      * intros [] w' (q' & [G L P] & Hi'). exists q'. split; [|done].
        assert (Hnew : forall x, (numEvents (sim w) <= x)%nat -> x ∉ b :: es).
        { intros x Hx Hin. apply elem_of_cons in Hin as [->|Hin]; [lia|]. rewrite Forall_forall in Hnums. specialize (Hnums _ Hin). lia. }
        assert (Ha2 : (a < numEvents (sim w2))%nat) by lia. assert (Hd' : domain (ev (sim w) a) <> domain (ev (sim w) b)) by (intros E; by apply Hd).
        split.
        -- apply (grown_more ([a] ++ b :: es)); [by eapply grown_trans|done].
        -- cbn. split; [|done]. unfold linked.
           rewrite !(grown_domain _ _ _ _ _ _ G), !(grown_domain _ _ _ _ _ _ G1) by lia. rewrite decide_False by done.
           do 2 eexists. eapply crossed_grown; [eapply step_crossed; [exact Hs|exact Hf|lia|exact Ha|exact Cb1|exact Hab'|apply Hop|idtac..]|exact G|done|lia|done|apply Hnew; lia|apply Hnew; lia].
        -- intros e He. destruct (decide (e ∈ b :: es \/ (numEvents (sim w2) <= e < numEvents (sim w'))%nat)) as [Hl|Hl]; [by apply P|].
           assert (Hea : e = a \/ (numEvents (sim w) <= e < numEvents (sim w2))%nat) by (rewrite elem_of_cons in He; intuition lia).
           assert (Hen : (e < numEvents (sim w2))%nat) by (destruct Hea as [->|]; lia).
           eapply local_grown; [exact G|exact Hen|tauto|by apply (i_links _ _ _ _ Hi2)|eapply step_local; [exact Hs|exact Hf|lia|exact Ha|exact Cb1|exact Hab'|apply Hop|idtac..]; done].
Qed.

(** What a recorder does with what an access recorded, from [a] on. *)
Lemma record_chain fuel q a es n w : (length es < fuel)%nat ->
  inv q (a :: es) (Z.of_nat (length es) + n) w -> 0 <= n -> Z.of_nat (length es) + n + 2 < 2 ^ 32 -> NoDup (a :: es) ->
  (a < numEvents (sim w))%nat -> open (ev (sim w) a) -> 0 <= domain (ev (sim w) a) < numDomains (sim w) -> chain (sim w) a es ->
  exists w' q', record_crossings fuel r a w = Ok (tt, w') /\ produced a es (sim w) q (sim w') q' /\ inv q' [] n w' /\ crossingStack w' r = [].
Proof.
  intros. assert (H' : wp (record_crossings fuel r a) w (fun _ w' => exists q', produced a es (sim w) q (sim w') q' /\ inv q' [] n w' /\ crossingStack w' r = [])).
  { apply wp_bind. eapply wp_mono; [by apply (produce_chain es fuel q a n)|]. intros [] w' (q' & Hp & Hi). apply wp_modify.
    exists q'. split; [done|]. split; [|cbn; by rewrite fn_lookup_insert]. apply inv_stack; [done|]. by intros b Hb%elem_of_nil. }
  apply wp_Ok in H' as ([] & w' & E & q' & H'). by exists w', q'.
Qed.
End bound.

(** C21: the crossings of an access.  The recorder of an access hands the chain of its events,
    whatever their domains, to [produceCrossings].  That returns, and then no link of the chain
    or of the crossings leaves its domain: a link within a domain is kept; for one between
    domains the parent has the end of a crossing as its child, in its own domain and with no
    children, and the crossing, in the domain of the child, has the child, is queued no earlier
    than the parent ends without contention, or is the child of another event of its domain.  The
    other events get at most children of their domains, and the simulator can take the next
    access. *)
Theorem crossings_cut r fuel q a es n w : (length es < fuel)%nat ->
  inv r q (a :: es) (Z.of_nat (length es) + n) w -> 0 <= n -> Z.of_nat (length es) + n + 2 < 2 ^ 32 -> NoDup (a :: es) ->
  (a < numEvents (sim w))%nat -> open (ev (sim w) a) -> 0 <= domain (ev (sim w) a) < numDomains (sim w) -> chain (sim w) a es ->
  exists w' q', record_crossings fuel r a w = Ok (tt, w') /\
    all_linked (sim w') q' a es /\
    (forall e, e ∈ a :: es \/ (numEvents (sim w) <= e < numEvents (sim w'))%nat -> local (sim w') e) /\
    grown (a :: es) (sim w) q (sim w') q' /\ inv r q' [] n w' /\ crossingStack w' r = [].
Proof.
  intros H1 H2 H3 H4 H5 H6 H7 H8 H9.
  destruct (record_chain r fuel q a es n w H1 H2 H3 H4 H5 H6 H7 H8 H9) as (w' & q' & E & [G L P] & H). by exists w', q'.
Qed.

Lemma ex_fits e : (e < 3)%nat -> fits 3 10 (ev (sim round_trip) e).
Proof.
  intros He. assert (Hk : forall l, visited (ev (sim round_trip) e) = l -> Forall (fun c => (c < 3)%nat) l ->
    forall c, c ∈ visited (ev (sim round_trip) e) -> (c < 3)%nat) by (intros l -> Hl; by apply Forall_forall).
  destruct e as [|[|[|e]]]; [| | |lia]; (split; [|split; [cbn; lia|split; [cbn; lia|]]]).
  - by apply (one_child _ 1%nat).
  - apply (Hk [1%nat]); [reflexivity|]. repeat constructor.
  - by apply (one_child _ 2%nat).
  - apply (Hk [2%nat]); [reflexivity|]. repeat constructor.
  - by apply no_child.
  - apply (Hk []); [reflexivity|constructor].
Qed.

Lemma crossings_cut_witness : exists w' q', record_crossings 4 0 0%nat round_trip = Ok (tt, w') /\
  all_linked (sim w') q' 0%nat [1; 2]%nat /\
  (forall e, e ∈ [0; 1; 2]%nat \/ (3 <= e < numEvents (sim w'))%nat -> local (sim w') e) /\
  grown [0; 1; 2]%nat (sim round_trip) (fun _ => []) (sim w') q' /\ inv 0 q' [] 8 w' /\ crossingStack w' 0%nat = [].
Proof.
  apply (crossings_cut 0 4 (fun _ => []) 0 [1; 2]%nat 8 round_trip).
  - cbn. lia.
  - split; try done.
    + exact ex_fits.
    + intros d Hd. split_and!; try done. apply PrioQueue.new_holds.
    + intros b Hb. by apply elem_of_nil in Hb.
  - lia.
  - cbn. lia.
  - repeat constructor; rewrite ?elem_of_cons, ?elem_of_nil; intuition congruence.
  - cbn. lia.
  - split; [by left|done].
  - cbn. lia.
  - cbn. repeat split; cbn; try lia; done.
Defined.

End CrossingInv.
